(* ===== verification/_CoqProject ===== *)
-Q . S2P
Prelude.v
Errors.v
Tenant.v
Factor.v
Attrs.v
Pending.v
Transitions.v
Factors.v
VerifiedFacts.v
SessionFacts.v
Journey.v
CoreProperties.v
Codec.v
CodecFacts.v
StoreBase.v
SessionRecord.v
SessionStore.v
SessionStoreFacts.v
SessionStoreProperties.v
TokenRecord.v
TokenStore.v
TokenStoreFacts.v
TokenStoreRun.v
TokenStoreProperties.v
CeremonyKind.v
CeremonyStore.v
CeremonyStoreFacts.v
CeremonyProperties.v
PasskeyStore.v
PasskeyProperties.v
MfaStore.v
MfaProperties.v
Enrollment.v
Lru.v
LruFacts.v
IdentityRecord.v
IdentityStore.v
IdentityFacts.v
IdentityProperties.v
KeyStore.v
KeyProperties.v
Revocation.v
RevokeProperties.v
GoText.v
Redirect.v
RedirectProperties.v
Json.v
Cookie.v
Renewal.v
Program.v
Stateful.v
StatefulFacts.v
StatefulProperties.v
JsonText.v
Signing.v
Limiter.v
Csrf.v
ClientAddr.v
Httpx.v
Routes.v
Issuance.v
Totp.v
MfaSvc.v
Flow.v
Gate.v
AppGate.v
MfaSvcProperties.v
IssuanceFacts.v
FlowProperties.v
CodeSvc.v
IdentitySvc.v
JwtCodec.v
JwtCodecFacts.v
JwtBackend.v
JwtBackendFacts.v
JwtStoreFacts.v
JwtSessionFacts.v
JwtProperties.v
GateProperties.v
