(* ===== verification/Prelude.v ===== *)
(** * egauth: the authentication core, its stores, sessions, logins and gates

    egauth is a Go authentication library.  A login is a journey: verification ceremonies
    (a password, an emailed code, a passkey, a TOTP code) accumulate in a sealed [Pending]; when they
    suffice the pending is admitted to a session, whose attributes are sealed once and replayed
    by every later step.  Sealed values are parked in, and resumed from, three stores: ceremony
    records (a journey waiting for its next step), stateful sessions, and refresh-token families
    with API keys.  Four more stores hold accounts, second factors, passkeys and signing keys.  A
    change of an account raises its security epoch and is published; each instance follows the
    stores' feeds with a cache, and the session backends check every request against it.  In front of
    all this stand the gates: a request is parsed once, its origin, client and limits are checked, its
    session is resumed, and only then does an endpoint or a route of the application run.  This
    library models these parts from the Go source and proves what each promises to the next.

    ** Files, and the source they model (paths under src/)

    - [Prelude]: bytes, machine integers, instants, uuids, varints; tactics ([bools]) and the
      hint database [egauth].  [Errors]: the sentinel errors of every package modelled,
      [errors.Is] and [errors.Join], and the result type [res] with its bind.  [Program]: a method of
      the code as a program over an environment and a world, with Go's early returns.
    - [Tenant], [Factor], [Attrs], [Pending], [Transitions]: internal/core/tenant.go, factor.go,
      attrs.go and policy.go, pending.go, transitions.go, one definition per function, under its
      Go name ([Admit], [Reauthenticate], [FactorEnrolled], [PasswordChanged], [Renew], [Bind],
      [Add]).  [Factors]: the ceremonies of internal/factors/factors.go.
    - [VerifiedFacts], [SessionFacts]: the invariants [verified_wf], [pending_wf], [attrs_wf] and
      their preservation.  [Journey]: the states a program can hold, as inductive predicates
      ([journey], [session]) and step relations ([pending_step], [session_steps]), and the sample
      values of the witnesses.  [CoreProperties]: the guarantees.
    - [Codec]: internal/core/codec.go, encoder and decoder with their sticky error.  [CodecFacts]:
      each primitive against its reader, the round trips, and the decoder on arbitrary bytes.
    - [StoreBase]: store/store.go, and the revocation feed both token and session stores keep.
    - [SessionRecord] (Module [Sessions]): store/sessions/record.go and store.go.
      [SessionStore] (Module [SessionsMemory]): store/sessions/memory/store.go, every method.
      [SessionStoreFacts]: invariant and functional lemmas.  [SessionStoreProperties].
    - [TokenRecord] (Module [Tokens]): store/tokens/record.go, store.go, apikey.go.
      [TokenStore] (Module [TokensMemory]): store/tokens/memory/store.go, every method.
      [TokenStoreFacts], [TokenStoreRun] (with the abstract refresh-family state machine of
      docs/protocols/refresh-family.md as [token_state]), [TokenStoreProperties].
    - [CeremonyKind] (Modules [Ceremony_], [CeremonyRec]): store/ceremony/kind.go and record.go, and
      [openPending] of internal/issuance/complete.go.  [CeremonyStore] (Module [CeremonyMemory]):
      store/ceremony/memory/store.go, every method.  [CeremonyStoreFacts], [CeremonyProperties].
    - [PasskeyStore] (Modules [Passkey], [PasskeyMemory]), [PasskeyProperties]: store/passkey and its
      memory store.  [MfaStore] (Modules [MfaTypes], [MfaMemory]), [MfaProperties]: store/mfa.
      [Enrollment]: internal/issuance/enrolled.go, over the class of answers it needs of both.
    - [IdentityRecord] (Module [Identity]): store/identity, identifiers, outbox, mutations with their
      validation and effects.  [IdentityStore] (Module [IdentityMemory]): its memory store, with the
      transaction of Apply.  [IdentityFacts], [IdentityProperties].
    - [KeyStore] (Modules [KeyTypes], [KeysMemory]), [KeyProperties]: store/keys and its memory store.
    - [Lru] (Modules [Lru], [Follower]), [LruFacts]: internal/revoke/lru.go as a heap of linked nodes,
      against a plain list; revoke.go, the critical sections and their interleavings.
      [Revocation] (Modules [Epochs], [Families], [Keys]): epochs.go, families.go, keys.go over the
      classes of feeds they read, with the memory stores as instances.  [RevokeProperties]: the
      caches alone, and over the stores they follow.
    - [GoText], [Json], [JsonText]: what the code uses of strings, encoding/base64, net/http and
      encoding/json (the scanner as its push-down automaton, the encoder, the strict decoder).
      [Redirect], [RedirectProperties]: internal/redirect over net/url.  [Cookie] (Modules [Cookie],
      [Caller]): internal/cookie and internal/core/caller.go.  [Renewal] (Module [Session]):
      internal/session, handles, claims and the Renewer.
    - [Stateful]: internal/session/stateful, each method a program over the world it shares with
      other requests, and the class [SessionsStore] of the store operations it calls.
      [StatefulFacts]: the contract [SessionsLaws] of that store, the in-memory store as its
      instance, and each method.  [StatefulProperties]: the backend, renewals, claims and cookies.
    - [Signing]: package signing over the class [Crypto].  [JwtCodec], [JwtCodecFacts]:
      internal/session/jwt/codec.go.  [JwtBackend], [JwtBackendFacts], [JwtStoreFacts] (the contract
      of its token store and the in-memory instance), [JwtSessionFacts], [JwtProperties]: backend.go,
      transport.go, forgetting.go and lifecycle.go of internal/session/jwt.
    - [Httpx] (Modules [CeremonyCodec], [Httpx]): handles and payload framing of
      internal/ceremonycodec; requests, problems and answers of internal/httpx.  [Issuance]:
      internal/issuance, over the classes [SessionBackend] and [FlowStore].  [Flow]: internal/flow,
      the second step of a login and /reauth.  [IssuanceFacts]: the contracts [BackendLaws] and
      [FlowLaws] with the memory store as instance, and each step.  [FlowProperties].
    - [Totp] (Modules [Totp], [Sealing]), [MfaSvc], [MfaSvcProperties]: internal/mfasvc and
      internal/sealing.
    - [CodeSvc] (Modules [CodePayload], [Normalizer], [CodeSvc]): internal/codesvc, magic links and
      login codes; the code payload of internal/ceremonycodec and the identifier normaliser of
      internal/identitysvc; the contract [CodeLaws] of the ceremony store, its in-memory instance, and
      the guarantees.
    - [IdentitySvc] (Modules [Passwords], [RegistrationPayload], [IdentitySvc]): internal/identitysvc,
      logins by password with their lockout, registration, reset, change of password and deletion, and
      the floor of passwords/floor.go, with the guarantees.
    - [Limiter]: store/limiter and its memory store, with its bound.  [Csrf]: internal/csrf.
      [ClientAddr]: internal/clientaddr over net/netip.  [Routes]: internal/routes.  [Gate]: the
      request gate of internal/httpx.  [AppGate]: gates.go, apikey_gate.go, principal.go,
      facades.go, apikeys.go and system.go of the root package.  [GateProperties].

    ** How Go is read

    - An instant is a [Z] of nanoseconds since the zero time.Time (year 1), a duration a [Z]
      of nanoseconds; [Truncate] is taken to a multiple since that zero, as in Go.  A uint64
      is a [Z] with its wrap-around written out ([u64]), a UUID the 128-bit number of its
      bytes, [[]byte] a list of bytes, a byte-sized enum a [Z] wherever the code has a branch
      for undeclared values.  A float64 is the rational it denotes, each operation rounded to 53 bits.
    - A method that returns an error gives [res]; one that also changes its store takes and
      returns it, each operation being one step because the source holds the store's mutex.
      [ctx.Err()] is an optional error argument, the reading of the clock an argument.  A nil
      dereference is the error [NilPanic], so that its absence is a theorem.
    - Go visits a map in an unspecified order.  Where the effect of a loop could depend on it,
      the order is an argument ([range]) constrained to visit each key once, and the theorems
      quantify over it.
    - A call that may be interrupted, or that releases a lock, is written as the steps it is made of:
      Apply reads its context at every step of the transaction (the context is a sequence of
      readings); [get] and [Poll] of the caches are their critical sections, which any other call may
      separate; a method of a session backend or a handler of a service makes one step per call,
      between which the environment may change the stores and the caches.  What a theorem asks of
      those other requests is a hypothesis of its own ([fair], [rely], [kept] and the like): that they
      keep the stores' invariants and, for single use, that they store nothing under the same digest anew.
    - Pointers matter in the cache's list only: there, nodes live in a heap and a nil dereference is
      an error.
    - Third-party code and primitives are parameters.  uuid.String, by which ids are ordered, is [str]
      with the hypothesis [tells_apart] where an order is claimed, and [UUIDLaws] states its round trip
      with uuid.Parse; SHA-256, HMAC-SHA1 and HMAC-SHA-256 are functions of which nothing is assumed;
      signatures are the class [Crypto] with [CryptoLaws]; a KEK seals and opens as the environment says;
      the host check and the case mapping of net/url are the class [NetURL]; NFKC, idna.Lookup, the
      Unicode tables and mime.ParseMediaType are functions.  New identifiers (uuid.NewV7, uuid.New) and
      crypto/rand are arguments, with [fresh_id] where a theorem needs an unused one.
    - Values copied defensively in Go ([slices.Clone]) are values here.  Redacting renderers
      ([String], [GoString], [LogValue]) of credential-bearing types are left out.

    ** Bounds and fuel

    [put_uvarint] and its reader run at most ten turns, MaxVarintLen64, which is enough for
    every uint64; [digits] at most twenty, enough for an int64.  [bsearch_loop] runs at most as many
    turns as the slice has elements, and its interval shrinks at every turn ([bsearch_loop_spec]).  The
    eviction loop of the cache runs at most as often as it has entries, and Poll at most
    maxPagesPerPoll (256) pages, the source's own bound.  Trimming, splitting, quoting, the members of
    a JSON text and the runes of a string run at most once per byte.  The draws of recovery codes
    stop at the count asked.
    Feed positions, epochs and the cache's generation are uint64 counters: theorems about appended
    entries assume the counter has room ([seq s < two64 - 1], [room], fewer than 2^64 changes).

    ** What the theorems show

    - Core: a session is only ever admitted for what its own journey proved; a required second
      factor needs two ceremonies with distinct credentials; later steps replay the session
      state and neither upgrade nor refresh it without proof; epochs, account state and zero
      values gate every transition; login and reauthentication never cross.
    - Codec: sealed values round-trip, only canonical bytes are accepted, and the two kinds
      never mix.
    - Session store: consistency of every reachable state; the functional behaviour of Get,
      Touch, Rotate, Replace, RevokeForSubject on every branch; the feed loses nothing; a sealed
      session reads back whole.
    - Token store: [ConsumeForRotation] refines the abstract state machine; invariants I1 to
      I7 of docs/protocols/refresh-family.md; API keys.  [reaping_forgets_a_consumed_token]
      evaluates a run where reaping and the store contract disagree.
    - Ceremonies: the kind registry, record lifetimes, single use, bounded attempts, caps and
      evictions, and that a parked login resumes as it was left.
    - Second factors: a TOTP step and a recovery code are used once, lockouts bound attempts, a
      counter that does not advance is refused, and persisted enrollment forces the second factor.
      Of the MFA service: factors change only after an epoch bump, guesses are bounded, an enrolled
      secret is accepted; [concurrent_enroll_drops_a_confirmed_totp] evaluates a race that loses one.
    - Accounts: identifiers are unique, a security change bumps the epoch and is published with its
      outbox rows atomically, an erasure waits for every component, a first verification wipes
      what came before it; the outbox's binary search agrees with a scan.
    - Keys: a rotation hands over once, an erased tenant stays erased, a poller is told of every
      change; [zero_cursor_hides_a_pruned_revocation] evaluates a run where it is not.
    - Caches: the list refines a bounded list, a poll ends and catches up, answers are recent in every
      interleaving, checks fail closed, and a change made in the account store reaches them.
    - Sessions, stateful and JWT: a request is authenticated only by a live session of its tenant, on
      its transport, at a current epoch; an ended session stays ended whatever runs beside it; a
      refresh token is exchanged once; a started session resumes as it was; a refused request writes no
      credential; access tokens round-trip and only our own are accepted; renewals keep a session what
      it is and its claims recent; cookies are read back as written; redirects stay on trusted origins.
    - Logins: a second step gives a credential only for both factors and once per parked login; a
      passwordless login gives one only for the code or link kept for that browser, for the subject and
      epoch sealed with it, and a code is compared at most MaxAttempts times.  A login by password is for
      the account whose password matched, allowed and not locked; wrong passwords are bounded by the
      lockout; a reset changes one password, of the account its link was sealed for at the same epoch; a
      confirmed registration installs only a password chosen in the same browser, and an unverified account
      it takes over keeps no passkey and no MFA enrollment from before.
    - Gates: an endpoint or route runs only behind every check its path declares; the claims of an API
      key are recent and never exceed its creator's; a facade call has an authorized caller; a client
      address is vouched for by every hop after it; a bucket lets through no more than its budget.

    ** Not modelled

    Planned next: the email, phone and recovery changes and the reverts of internal/identitysvc,
    internal/passkeysvc and internal/externalsvc over a WebAuthn and provider
    interface, the federation and deployment stores, the session endpoints, passwords/policy, the key
    manager of internal/keys and the lifecycle outbox.  Parts of modelled packages left out: NewPolicy of
    internal/cookie, NewCodec and New of the JWT backend, which parse origins with net/url; EdDSA, ES256
    and RS256 keys, which crypto/x509 parses, JWKS documents and NewMinter; registration on a ServeMux,
    its overlap probes and CORS; the parameter-count limit of url.ParseQuery; the goroutine of
    internal/revoke that polls on a ticker.  Not modelled by their nature: the PostgreSQL and
    OpenTelemetry adapters, argon2 and breach corpora, outgoing HTTP, delivery pools and other background
    goroutines, configuration by reflection, and the wiring of the composition object. *)
From Stdlib Require Export ZArith Lia Bool.
From Stdlib Require Export Strings.Byte.
From stdpp Require Export base tactics numbers list strings gmap sorting.

Open Scope Z_scope.

Create HintDb egauth.

(** ** Bytes

    A Go [[]byte] is a [list byte] over the standard [Byte.byte], so every value of the
    type is a byte sequence.  [byte_of_Z] is Go's conversion [byte(x)], which keeps the
    low eight bits; [Z_of_byte] is the widening conversion.  A Go [string] is a Rocq
    [string]; [str_bytes] and [bytes_str] are the conversions [[]byte(s)] and
    [string(b)]. *)
Abbreviation byte := Byte.byte.
Abbreviation bytes := (list Byte.byte).

#[export] Instance byte_eq_dec : EqDecision byte := Byte.byte_eq_dec.

Definition Z_of_byte (b : byte) : Z := Z.of_N (Byte.to_N b).

Definition byte_of_Z (z : Z) : byte :=
  match Byte.of_N (Z.to_N (z mod 256)) with Some b => b | None => Byte.x00 end.

Definition str_bytes (s : string) : bytes := String.list_byte_of_string s.

Definition bytes_str (b : bytes) : string := String.string_of_list_byte b.

Lemma Z_of_byte_range b : 0 <= Z_of_byte b < 256.
Proof.
  unfold Z_of_byte. pose proof (Byte.to_N_bounded b). lia.
Qed.

Lemma byte_of_Z_of_byte b : byte_of_Z (Z_of_byte b) = b.
Proof.
  unfold byte_of_Z. rewrite Z.mod_small by apply Z_of_byte_range.
  unfold Z_of_byte. by rewrite N2Z.id, Byte.of_to_N.
Qed.

Lemma Z_of_byte_of_Z z : Z_of_byte (byte_of_Z z) = z mod 256.
Proof.
  unfold byte_of_Z, Z_of_byte.
  assert (0 <= z mod 256 < 256) as Hr by (apply Z.mod_pos_bound; lia).
  destruct (Byte.of_N (Z.to_N (z mod 256))) as [b|] eqn:E.
  - apply Byte.to_of_N in E. rewrite E. lia.
  - apply Byte.of_N_None_iff in E. lia.
Qed.

Lemma Z_of_byte_of_Z_small z : 0 <= z < 256 -> Z_of_byte (byte_of_Z z) = z.
Proof. intros. rewrite Z_of_byte_of_Z. by apply Z.mod_small. Qed.

#[export] Instance byte_countable : Countable byte :=
  inj_countable' Z_of_byte byte_of_Z byte_of_Z_of_byte.

Lemma bytes_str_bytes s : bytes_str (str_bytes s) = s.
Proof. apply String.string_of_list_byte_of_string. Qed.

Lemma str_bytes_str b : str_bytes (bytes_str b) = b.
Proof. apply String.list_byte_of_string_of_list_byte. Qed.

#[export] Instance bytes_str_inj : Inj (=) (=) bytes_str.
Proof. intros a b H. by rewrite <- (str_bytes_str a), <- (str_bytes_str b), H. Qed.

(** ** Machine integers

    [u64] is the wrap-around of Go's [uint64]; [i64_of_u64] reinterprets a [uint64] as an
    [int64] and [u64_of_i64] goes back. *)
Definition two64 : Z := 18446744073709551616.

Definition two63 : Z := 9223372036854775808.

Definition u64 (z : Z) : Z := z mod two64.

Definition is_u64 (z : Z) : Prop := 0 <= z < two64.

Definition i64_of_u64 (z : Z) : Z := if z <? two63 then z else z - two64.

Definition u64_of_i64 (z : Z) : Z := u64 z.

Lemma u64_range z : is_u64 (u64 z).
Proof. unfold is_u64, u64. apply Z.mod_pos_bound. reflexivity. Qed.

Lemma u64_small z : is_u64 z -> u64 z = z.
Proof. unfold is_u64, u64. intros. by apply Z.mod_small. Qed.

Lemma i64_u64_i64 z : - two63 <= z < two63 -> i64_of_u64 (u64_of_i64 z) = z.
Proof.
  unfold i64_of_u64, u64_of_i64, u64, two63, two64. intros H.
  destruct (Z_lt_le_dec z 0).
  - rewrite (Z.mod_eq z 18446744073709551616) by lia.
    assert (z / 18446744073709551616 = -1) as -> by (symmetry; apply Z.div_unique with (z + 18446744073709551616); lia).
    case_match eqn:E; lia.
  - rewrite Z.mod_small by lia. case_match; lia.
Qed.

(** Big-endian rendering of the low [8*n] bits, as [binary.BigEndian.AppendUint64] (n = 8)
    and the byte array of a UUID (n = 16) have it, and its inverse. *)
Fixpoint be_bytes (n : nat) (z : Z) : bytes :=
  match n with
  | O => []
  | S m => byte_of_Z (Z.shiftr z (8 * Z.of_nat m)) :: be_bytes m z
  end.

Definition be_value (l : bytes) : Z :=
  fold_left (fun acc b => acc * 256 + Z_of_byte b) l 0.

Lemma length_be_bytes n z : length (be_bytes n z) = n.
Proof. induction n; simpl; auto. Qed.

Lemma be_fold n z acc :
  fold_left (fun acc b => acc * 256 + Z_of_byte b) (be_bytes n z) acc
  = acc * 2 ^ (8 * Z.of_nat n) + z mod 2 ^ (8 * Z.of_nat n).
Proof.
  revert acc. induction n as [|n IH]; intros acc.
  - simpl. rewrite Z.mod_1_r. lia.
  - simpl be_bytes. simpl fold_left. rewrite IH, Z_of_byte_of_Z.
    rewrite Z.shiftr_div_pow2 by lia.
    replace (8 * Z.of_nat (S n)) with (8 * Z.of_nat n + 8) by lia.
    rewrite Z.pow_add_r by lia. change (2 ^ 8) with 256.
    set (P := 2 ^ (8 * Z.of_nat n)). assert (0 < P) by (subst P; lia).
    rewrite (Z.rem_mul_r z P 256) by lia. lia.
Qed.

Lemma be_value_bytes n z : 0 <= z < 2 ^ (8 * Z.of_nat n) -> be_value (be_bytes n z) = z.
Proof. intros. unfold be_value. rewrite be_fold, Z.mod_small by lia. lia. Qed.

(** ** Time

    A [time.Time] is its instant: nanoseconds since 1 January of year 1 UTC, the zero
    time.  The location and the monotonic reading are representation only, so [Round(0)]
    and [UTC()] are the identity on instants.  A [time.Duration] is a number of
    nanoseconds; [Sub] saturates at the limits of [int64] as Go's does. *)
Abbreviation time := Z.

Abbreviation duration := Z.

Definition time_zero : time := 0.

Definition time_IsZero (t : time) : bool := t =? 0.

Definition time_Before (t u : time) : bool := t <? u.

Definition time_After (t u : time) : bool := u <? t.

Definition time_Add (t : time) (d : duration) : time := t + d.

Definition time_Sub (t u : time) : duration :=
  Z.max (- two63) (Z.min (two63 - 1) (t - u)).

Definition time_Truncate (t : time) (d : duration) : time :=
  if d <=? 0 then t else t - t mod d.

Definition Microsecond : duration := 1000.

Definition Second : duration := 1000000000.

Definition Minute : duration := 60 * Second.

(** The instant of the Unix epoch, and the instant [n] nanoseconds from it. *)
Definition unix_epoch : time := 62135596800 * Second.

Definition time_UnixNano (t : time) : Z := t - unix_epoch.

Definition time_Unix_nano (n : Z) : time := unix_epoch + n.

Lemma time_Sub_le t u d : 0 < d < two63 -> time_Sub t u <= d - 1 <-> t - u <= d - 1.
Proof. unfold time_Sub, two63. lia. Qed.

Lemma time_Sub_le_pos t u d : 0 < d -> t - u <= d -> time_Sub t u <= d.
Proof. unfold time_Sub, two63. lia. Qed.

Lemma time_Truncate_le t d : time_Truncate t d <= t.
Proof.
  unfold time_Truncate. case_match; [lia|].
  pose proof (Z.mod_pos_bound t d). lia.
Qed.

Lemma time_Truncate_mono t u d : t <= u -> time_Truncate t d <= time_Truncate u d.
Proof.
  intros H. unfold time_Truncate. case_match eqn:E; [done|].
  assert (0 < d) by lia.
  rewrite !Z.mod_eq by lia. replace (t - (t - d * (t / d))) with (d * (t / d)) by lia.
  replace (u - (u - d * (u / d))) with (d * (u / d)) by lia.
  apply Z.mul_le_mono_nonneg_l; [lia|]. by apply Z.div_le_mono.
Qed.

Lemma time_Truncate_idemp t d : time_Truncate (time_Truncate t d) d = time_Truncate t d.
Proof.
  unfold time_Truncate. case_match eqn:E; [done|].
  rewrite Zminus_mod_idemp_r, Z.sub_diag. rewrite Zmod_0_l. lia.
Qed.

(** ** UUIDs

    A [uuid.UUID] is sixteen bytes; it is represented by its big-endian value. *)
Abbreviation uuid := Z.

Definition uuid_Nil : uuid := 0.

Definition uuid_ok (u : uuid) : Prop := 0 <= u < 2 ^ 128.

Definition uuid_bytes (u : uuid) : bytes := be_bytes 16 u.

Definition uuid_of_bytes (b : bytes) : uuid := be_value b.

Lemma uuid_of_bytes_bytes u : uuid_ok u -> uuid_of_bytes (uuid_bytes u) = u.
Proof. intros. by apply (be_value_bytes 16). Qed.

(** ** Lists *)
Lemma list_filter_all {A} (P : A -> Prop) `{forall x, Decision (P x)} (l : list A) :
  (forall x, x ∈ l -> P x) -> filter P l = l.
Proof.
  induction l as [|x l IH]; intros Hl; [done|]. rewrite filter_cons_True by (apply Hl; by left).
  f_equal. apply IH. intros y Hy. apply Hl. by right.
Qed.

Lemma list_delete_insert {A} (l : list A) (i : nat) (x : A) : delete i (<[i := x]> l) = delete i l.
Proof.
  apply list_eq. intros j. rewrite !list_lookup_delete. case_decide; by rewrite list_lookup_insert_ne by lia.
Qed.

Lemma list_filter_ext {A} (P Q : A -> Prop) `{forall x, Decision (P x), forall x, Decision (Q x)}
    (l : list A) :
  (forall x, x ∈ l -> P x <-> Q x) -> filter P l = filter Q l.
Proof.
  induction l as [|x l IH]; intros Hl; [done|].
  assert (filter P l = filter Q l) as E by (apply IH; intros y Hy; apply Hl; by right).
  pose proof (Hl x ltac:(by left)) as Hx. rewrite !filter_cons, E.
  destruct (decide (P x)), (decide (Q x)); tauto.
Qed.
