(* ===== verification/Errors.v ===== *)
(** Errors and fallible results.

    The sentinel errors of the packages modelled here (internal/core/errors.go,
    store/store.go, the errors.go of each store), Go's error values built from them with
    [errors.New] and [errors.Join], [errors.Is], and the result type every fallible
    operation returns in place of Go's pair of a value and an error. *)
From S2P Require Import Prelude.

(** Sentinels of internal/core. *)
Inductive core_sentinel :=
  | ErrInvalidTenant | ErrInvalidFactor | ErrInvalidVerified | ErrInvalidArgument
  | ErrTenantMismatch | ErrSubjectMismatch | ErrNotBound | ErrAlreadyBound
  | ErrNotIdentifying | ErrSameCredential | ErrProviderMismatch | ErrNoPrimary
  | ErrPendingExpired | ErrReauthPending | ErrLineageMismatch | ErrAccountUnusable
  | ErrEpochStale | ErrReauthRequired | ErrFactorRequired | ErrClaimsUnavailable
  | ErrClaimsSubjectUnknown | ErrClaimsTooLarge | ErrMalformed.

(** Sentinels of internal/factors. *)
Inductive factors_sentinel :=
  | ErrUserVerificationRequired | ErrUserPresenceRequired | ErrCredentialSuspended
  | ErrMissingCredentialID | ErrMissingProvider | ErrReservedProvider.

(** Sentinels of store, shared by every store. *)
Inductive store_sentinel := ErrNotFound | ErrConflict | ErrCapacity.

(** Sentinels of store/sessions. *)
Inductive sessions_sentinel := SErrInvalidRecord | SErrLifetimeExceeded.

(** Sentinels of store/tokens. *)
Inductive tokens_sentinel :=
  | TErrInvalidRecord | TErrLifetimeExceeded | ErrReused | ErrConcurrent | ErrRevoked.

(** Sentinels of store/ceremony. *)
Inductive ceremony_sentinel :=
  | CErrInvalidRecord | ErrHandleTooShort | ErrStatelessKind | ErrStoredKind
  | ErrScopeMismatch | CErrExpired.

(** Sentinels of store/mfa and of its in-memory store. *)
Inductive mfa_sentinel :=
  | ErrLegacyAADVersion | errInvalidSubject | errInvalidEnrollment | errInvalidLockout
  | errInvalidCodeHashes | errInvalidReseal.

(** Sentinels of internal/httpx: the problems of respond.go and the marker of env.go. *)
Inductive httpx_sentinel :=
  | HErrUnauthenticated | HErrBodyTooLarge | HErrUnsupportedMedia | HErrInvalidRequest
  | HErrCrossSite | HErrRateLimited | HErrServiceUnavailable | HErrPasswordChangeNeeded
  | HErrReauthRequired | HErrRequestRejected | HErrInternal | HErrUnavailable.

(** Sentinels of internal/revoke. *)
Inductive revoke_sentinel :=
  | VErrUnavailable | ErrStale | ErrNotLive | ErrStaleEpoch | VErrInvalidConfig
  | errBacklog.

(** Sentinels of internal/session: backend.go, claims.go and renew.go. *)
Inductive session_sentinel :=
  | XErrTenantMismatch | ErrEnded | ErrHandleMismatch | ErrUnknownSubject
  | ErrMalformedClaims | XErrInvalidConfig.

(** Sentinels of internal/session/stateful. *)
Inductive stateful_sentinel :=
  | FErrInvalidConfig | ErrNoCredential | ErrInvalidToken | ErrTransportMismatch
  | ErrAmbiguousTransport | FErrLifetimeExceeded | ErrCorrupt | errMalformedTok.

(** Sentinels of internal/issuance. *)
Inductive issuance_sentinel :=
  | IErrInvalidConfig | ErrAuthUnavailable | IErrClaimsUnavailable | ErrInvalidReturnTo.

(** Sentinels of store/identity: errors.go and legacy.go. *)
Inductive identity_sentinel :=
  | ErrInvalidIdentifier | ErrInvalidMutation | ErrIdentifierTaken | ErrNotTombstoned
  | ErrTombstoned | ErrUnknownComponent | ErrIdentifiersHeld.

(** Sentinels of store/keys: store.go and expiry.go. *)
Inductive keys_sentinel :=
  | ErrNoActiveKey | ErrTenantTombstoned | ErrInvalidRotation | KErrLegacyAADVersion
  | ErrInvalidExpiry | ErrUnboundedOverlap.

(** Sentinels of internal/cookie. *)
Inductive cookie_sentinel :=
  | ErrInvalidPolicy | ErrInvalidCookie.

(** Sentinels of internal/session/jwt: codec.go, backend.go and transport.go. *)
Inductive jwt_sentinel :=
  | JErrInvalidConfig | JErrInvalidToken | ErrExpired | JErrNoCredential | JErrTransportMismatch
  | JErrAmbiguousTransport | JErrLifetimeExceeded | JErrCorrupt | ErrAudience | errMalformedRefresh.

(** Sentinels of signing. *)
Inductive signing_sentinel :=
  | ErrInvalidKeyID | ErrInvalidKey | ErrZeroKey | ErrNotOwner | ErrInvalidSignature
  | ErrNotPublishable | ErrDuplicateKeyID | ErrInvalidJWKS | ErrInvalidURL.

(** Sentinels of internal/keys. *)
Inductive keyring_sentinel :=
  | MErrInvalidConfig | ErrUnknownKey | ErrStaticKeys | ErrUnsupportedAlgorithm
  | ErrOverlapTooLong | errLegacyKey.

(** Sentinels of internal/redirect. *)
Inductive redirect_sentinel := ErrNoOrigins | ErrInvalidOrigin | ErrRejected.

(** Sentinels of internal/ceremonycodec: handle.go and codec.go. *)
Inductive ceremonycodec_sentinel := ErrInvalidHandle | ErrWrongKind | ErrMalformedPayload.

(** Sentinels of internal/flow. *)
Inductive flow_sentinel :=
  | WErrInvalidConfig | WErrNilIssuer | ErrInvalidFlow | ErrReauthUnavailable.

(** Sentinels of internal/mfasvc. *)
Inductive mfasvc_sentinel :=
  | YErrInvalidConfig | YErrNilIssuer | YErrInvalidFactor | ErrInvalidCode | ErrTooManyAttempts
  | ErrAlreadyEnrolled | ErrNoPendingEnrollment | ErrNotEnrolled | ErrNoSecondFactor.

(** The sentinel of internal/passkeysvc the flow looks at. *)
Inductive passkeysvc_sentinel := ErrPasskeyRejected.

(** Sentinels of internal/codesvc. *)
Inductive codesvc_sentinel :=
  | KErrInvalidConfig | KErrNilIssuer | KErrInvalidIdentifier | KErrInvalidToken | KErrInvalidCode.

(** Sentinels of internal/identitysvc. *)
Inductive identitysvc_sentinel :=
  | ErrInvalidScopeKey | DErrInvalidConfig | DErrNilIssuer | DErrInvalidCredentials | DErrInvalidIdentifier | DErrInvalidToken
  | DErrAccountExists | DErrPasswordTooShort | DErrPasswordTooLong | DErrPasswordBreached | DErrPasswordRejected
  | DErrIdentifierHeld.

(** Sentinels of package passwords. *)
Inductive passwords_sentinel :=
  | ErrPasswordTooShort | ErrPasswordTooLong | ErrPasswordMissingUppercase | ErrPasswordMissingLowercase
  | ErrPasswordMissingNumber | ErrPasswordMissingSpecial | ErrPasswordBreached | ErrInvalidPassword | ErrHashFailed
  | ErrPasswordEncoding.

(** The errors of a context that ended. *)
Inductive context_sentinel := Canceled | DeadlineExceeded.

(** Sentinels of internal/sealing. *)
Inductive sealing_sentinel := ErrInvalidRef | ErrNoLegacyFormat | ErrLegacyUnopenable.

(** Sentinels of internal/httpx: env.go, meta.go, preamble.go and tenant.go. *)
Inductive gate_sentinel := ErrIncompleteEnv | ErrInvalidMeta | ErrInvalidSettings | ErrNoTenant | ErrInvalidTenancy.

(** Sentinels of internal/csrf. *)
Inductive csrf_sentinel := ErrForbidden | CErrInvalidOrigin.

(** Sentinels of internal/clientaddr. *)
Inductive clientaddr_sentinel := AErrInvalidPolicy | ErrPrefixTooBroad | ErrNoClient.

(** Sentinels of internal/routes: endpoint.go, table.go and builder.go. *)
Inductive routes_sentinel :=
  | ErrUnknownPath | ErrInvalidEndpoint | RErrConflict | ErrInvalidBasePath | ErrInvalidDeclaration
  | ErrMustChange | ErrRequirementUnmet.

(** Sentinels of the root package: errors.go, the ErrUnknownSubject of config.go, the sentinels of facades.go and
    the errTenantLabel of wiring_policy.go. *)
Inductive root_sentinel :=
  | ErrClosed | GErrForbidden | GErrReauthRequired | ErrAPIKeyCaller | ErrResourceTokenCaller | ErrSessionEnded
  | ErrSystemCallerInRequest | GErrTenantMismatch | ErrClaimsNotSubset | GErrUnknownSubject | GErrInvalidRequest
  | ErrFacadeUnavailable | ErrTenantNotServed | ErrTenantLabel.

(** Every sentinel the development names; [ContextErr] is the error of a cancelled
    [context.Context], and [NilPanic] stands for the run-time panic of a nil dereference, which no
    operation of a reachable store reaches. *)
Inductive sentinel :=
  | Core (s : core_sentinel)
  | Factors (s : factors_sentinel)
  | Store (s : store_sentinel)
  | Sessions (s : sessions_sentinel)
  | Tokens (s : tokens_sentinel)
  | Ceremony (s : ceremony_sentinel)
  | Mfa (s : mfa_sentinel)
  | Httpx (s : httpx_sentinel)
  | Revoke (s : revoke_sentinel)
  | SessionPkg (s : session_sentinel)
  | Stateful (s : stateful_sentinel)
  | Issuance (s : issuance_sentinel)
  | CookiePkg (s : cookie_sentinel)
  | IdentityPkg (s : identity_sentinel)
  | KeysPkg (s : keys_sentinel)
  | JwtPkg (s : jwt_sentinel)
  | SigningPkg (s : signing_sentinel)
  | KeyringPkg (s : keyring_sentinel)
  | RedirectPkg (s : redirect_sentinel)
  | CeremonyCodecPkg (s : ceremonycodec_sentinel)
  | FlowPkg (s : flow_sentinel)
  | MfaSvcPkg (s : mfasvc_sentinel)
  | PasskeySvcPkg (s : passkeysvc_sentinel)
  | CodeSvcPkg (s : codesvc_sentinel)
  | IdentitySvcPkg (s : identitysvc_sentinel)
  | PasswordsPkg (s : passwords_sentinel)
  | ContextPkg (s : context_sentinel)
  | SealingPkg (s : sealing_sentinel)
  | GatePkg (s : gate_sentinel)
  | CsrfPkg (s : csrf_sentinel)
  | ClientAddrPkg (s : clientaddr_sentinel)
  | RoutesPkg (s : routes_sentinel)
  | RootPkg (s : root_sentinel)
  | ContextErr
  | NilPanic.

#[export] Instance core_sentinel_eq_dec : EqDecision core_sentinel.
Proof. solve_decision. Defined.

#[export] Instance factors_sentinel_eq_dec : EqDecision factors_sentinel.
Proof. solve_decision. Defined.

#[export] Instance store_sentinel_eq_dec : EqDecision store_sentinel.
Proof. solve_decision. Defined.

#[export] Instance sessions_sentinel_eq_dec : EqDecision sessions_sentinel.
Proof. solve_decision. Defined.

#[export] Instance tokens_sentinel_eq_dec : EqDecision tokens_sentinel.
Proof. solve_decision. Defined.

#[export] Instance ceremony_sentinel_eq_dec : EqDecision ceremony_sentinel.
Proof. solve_decision. Defined.

#[export] Instance mfa_sentinel_eq_dec : EqDecision mfa_sentinel.
Proof. solve_decision. Defined.

#[export] Instance httpx_sentinel_eq_dec : EqDecision httpx_sentinel.
Proof. solve_decision. Defined.

#[export] Instance revoke_sentinel_eq_dec : EqDecision revoke_sentinel.
Proof. solve_decision. Defined.

#[export] Instance session_sentinel_eq_dec : EqDecision session_sentinel.
Proof. solve_decision. Defined.

#[export] Instance stateful_sentinel_eq_dec : EqDecision stateful_sentinel.
Proof. solve_decision. Defined.

#[export] Instance issuance_sentinel_eq_dec : EqDecision issuance_sentinel.
Proof. solve_decision. Defined.

#[export] Instance cookie_sentinel_eq_dec : EqDecision cookie_sentinel.
Proof. solve_decision. Defined.

#[export] Instance identity_sentinel_eq_dec : EqDecision identity_sentinel.
Proof. solve_decision. Defined.

#[export] Instance keys_sentinel_eq_dec : EqDecision keys_sentinel.
Proof. solve_decision. Defined.

#[export] Instance jwt_sentinel_eq_dec : EqDecision jwt_sentinel.
Proof. solve_decision. Defined.

#[export] Instance signing_sentinel_eq_dec : EqDecision signing_sentinel.
Proof. solve_decision. Defined.

#[export] Instance keyring_sentinel_eq_dec : EqDecision keyring_sentinel.
Proof. solve_decision. Defined.

#[export] Instance redirect_sentinel_eq_dec : EqDecision redirect_sentinel.
Proof. solve_decision. Defined.

#[export] Instance ceremonycodec_sentinel_eq_dec : EqDecision ceremonycodec_sentinel.
Proof. solve_decision. Defined.

#[export] Instance flow_sentinel_eq_dec : EqDecision flow_sentinel.
Proof. solve_decision. Defined.

#[export] Instance mfasvc_sentinel_eq_dec : EqDecision mfasvc_sentinel.
Proof. solve_decision. Defined.

#[export] Instance passkeysvc_sentinel_eq_dec : EqDecision passkeysvc_sentinel.
Proof. solve_decision. Defined.

#[export] Instance codesvc_sentinel_eq_dec : EqDecision codesvc_sentinel.
Proof. solve_decision. Defined.

#[export] Instance identitysvc_sentinel_eq_dec : EqDecision identitysvc_sentinel.
Proof. solve_decision. Defined.

#[export] Instance passwords_sentinel_eq_dec : EqDecision passwords_sentinel.
Proof. solve_decision. Defined.

#[export] Instance context_sentinel_eq_dec : EqDecision context_sentinel.
Proof. solve_decision. Defined.

#[export] Instance sealing_sentinel_eq_dec : EqDecision sealing_sentinel.
Proof. solve_decision. Defined.

#[export] Instance gate_sentinel_eq_dec : EqDecision gate_sentinel.
Proof. solve_decision. Defined.

#[export] Instance csrf_sentinel_eq_dec : EqDecision csrf_sentinel.
Proof. solve_decision. Defined.

#[export] Instance clientaddr_sentinel_eq_dec : EqDecision clientaddr_sentinel.
Proof. solve_decision. Defined.

#[export] Instance routes_sentinel_eq_dec : EqDecision routes_sentinel.
Proof. solve_decision. Defined.

#[export] Instance root_sentinel_eq_dec : EqDecision root_sentinel.
Proof. solve_decision. Defined.

#[export] Instance sentinel_eq_dec : EqDecision sentinel.
Proof. solve_decision. Defined.

(** A Go error value: a sentinel, [errors.New msg], or [errors.Join a b]. *)
Inductive error :=
  | E (s : sentinel)
  | New (msg : string)
  | Join (a b : error).

#[export] Instance error_eq_dec : EqDecision error.
Proof. solve_decision. Defined.

(** [errors.Is e target]. *)
Fixpoint Is (e : error) (target : sentinel) : bool :=
  match e with
  | E s => bool_decide (s = target)
  | New _ => false
  | Join a b => Is a target || Is b target
  end.

(** [errors.Join(errs...)] of a non-empty slice, grouped to the right. *)
Fixpoint JoinAll (e : error) (es : list error) : error :=
  match es with
  | [] => e
  | e' :: es' => Join e (JoinAll e' es')
  end.

Coercion Core : core_sentinel >-> sentinel.
Coercion Factors : factors_sentinel >-> sentinel.
Coercion Store : store_sentinel >-> sentinel.
Coercion Sessions : sessions_sentinel >-> sentinel.
Coercion Tokens : tokens_sentinel >-> sentinel.
Coercion Ceremony : ceremony_sentinel >-> sentinel.
Coercion Mfa : mfa_sentinel >-> sentinel.
Coercion Httpx : httpx_sentinel >-> sentinel.
Coercion Revoke : revoke_sentinel >-> sentinel.
Coercion SessionPkg : session_sentinel >-> sentinel.
Coercion Stateful : stateful_sentinel >-> sentinel.
Coercion Issuance : issuance_sentinel >-> sentinel.
Coercion CookiePkg : cookie_sentinel >-> sentinel.
Coercion IdentityPkg : identity_sentinel >-> sentinel.
Coercion KeysPkg : keys_sentinel >-> sentinel.
Coercion JwtPkg : jwt_sentinel >-> sentinel.
Coercion SigningPkg : signing_sentinel >-> sentinel.
Coercion KeyringPkg : keyring_sentinel >-> sentinel.
Coercion RedirectPkg : redirect_sentinel >-> sentinel.
Coercion CeremonyCodecPkg : ceremonycodec_sentinel >-> sentinel.
Coercion FlowPkg : flow_sentinel >-> sentinel.
Coercion MfaSvcPkg : mfasvc_sentinel >-> sentinel.
Coercion PasskeySvcPkg : passkeysvc_sentinel >-> sentinel.
Coercion CodeSvcPkg : codesvc_sentinel >-> sentinel.

Coercion IdentitySvcPkg : identitysvc_sentinel >-> sentinel.

Coercion PasswordsPkg : passwords_sentinel >-> sentinel.

Coercion ContextPkg : context_sentinel >-> sentinel.
Coercion SealingPkg : sealing_sentinel >-> sentinel.
Coercion GatePkg : gate_sentinel >-> sentinel.
Coercion CsrfPkg : csrf_sentinel >-> sentinel.
Coercion ClientAddrPkg : clientaddr_sentinel >-> sentinel.
Coercion RoutesPkg : routes_sentinel >-> sentinel.
Coercion RootPkg : root_sentinel >-> sentinel.
Coercion E : sentinel >-> error.

(** ** Results *)
Inductive res (A : Type) :=
  | Ok (a : A)
  | Err (e : error).
Arguments Ok {A} a.
Arguments Err {A} e.

#[export] Instance res_ret : MRet res := fun A a => Ok a.

#[export] Instance res_bind : MBind res := fun A B f m =>
  match m with Ok a => f a | Err e => Err e end.

#[export] Instance res_fmap : FMap res := fun A B f m =>
  match m with Ok a => Ok (f a) | Err e => Err e end.

(** [map_err f m] rewrites the error of [m], as [errors.Join] around a returned error. *)
Definition map_err {A} (f : error -> error) (m : res A) : res A :=
  match m with Ok a => Ok a | Err e => Err (f e) end.

Definition is_Ok {A} (m : res A) : Prop := exists a, m = Ok a.

(** [fails_with m s]: the operation fails with an error for which [errors.Is(err, s)]. *)
Definition fails_with {A} (m : res A) (s : sentinel) : Prop :=
  exists e, m = Err e /\ Is e s = true.

Lemma bind_Ok {A B} (f : A -> res B) (m : res A) b :
  m ≫= f = Ok b <-> exists a, m = Ok a /\ f a = Ok b.
Proof. destruct m; simpl; naive_solver. Qed.

Lemma map_err_Ok {A} f (m : res A) a : map_err f m = Ok a <-> m = Ok a.
Proof. destruct m; simpl; naive_solver. Qed.

(** [okb m] decides whether [m] succeeded. *)
Definition okb {A} (m : res A) : bool := match m with Ok _ => true | Err _ => false end.

Lemma okb_Ok {A} (m : res A) : okb m = true -> is_Ok m.
Proof. destruct m; [by eexists|done]. Qed.

Lemma okb_pair {S A} (p : S * res A) : okb p.2 = true -> exists s a, p = (s, Ok a).
Proof. destruct p as [s [a|e]]; [by exists s, a|done]. Qed.

(** [go_cases] walks the guards of an operation that is known to have returned: it
    splits every conditional and match of the hypotheses and keeps the live branches. *)
Ltac go_step :=
  match goal with
  | H : Ok _ = Ok _ |- _ => injection H as H
  | H : Err _ = Ok _ |- _ => discriminate H
  | H : Ok _ = Err _ |- _ => discriminate H
  | H : mbind _ _ = Ok _ |- _ => apply bind_Ok in H as (? & ? & H)
  | H : map_err _ _ = Ok _ |- _ => rewrite map_err_Ok in H
  | H : (match ?x with (_, _) => _ end) = _ |- _ => destruct x
  | H : context [if ?b then Err _ else _] |- _ => let E := fresh "G" in destruct b eqn:E
  | H : context [if ?b then _ else Err _] |- _ => let E := fresh "G" in destruct b eqn:E
  end.

Ltac go_cases := repeat go_step; simplify_eq/=.

(** [bools] turns the boolean guards collected by [go_cases] into propositions. *)
Ltac bools :=
  unfold time_IsZero, time_Before, time_After in *;
  repeat match goal with
  | H : negb _ = true |- _ => apply negb_true_iff in H
  | H : negb _ = false |- _ => apply negb_false_iff in H
  | H : (_ || _) = false |- _ => apply orb_false_iff in H as [? ?]
  | H : (_ && _) = true |- _ => apply andb_true_iff in H as [? ?]
  | H : bool_decide _ = true |- _ => apply bool_decide_eq_true in H
  | H : bool_decide _ = false |- _ => apply bool_decide_eq_false in H
  | H : (_ =? _) = true |- _ => apply Z.eqb_eq in H
  | H : (_ =? _) = false |- _ => apply Z.eqb_neq in H
  | H : (_ <? _) = true |- _ => apply Z.ltb_lt in H
  | H : (_ <? _) = false |- _ => apply Z.ltb_ge in H
  | H : (_ <=? _) = true |- _ => apply Z.leb_le in H
  | H : (_ <=? _) = false |- _ => apply Z.leb_gt in H
  end.

(** [go_all] also splits the conditionals both of whose branches return. *)
Ltac go_all :=
  go_cases;
  repeat match goal with
  | H : (if ?b then _ else _) = Ok _ |- _ => let E := fresh "G" in destruct b eqn:E; go_cases
  end;
  bools.
