(* ===== verification/Tenant.v ===== *)
(** Tenants and subjects: internal/core/tenant.go. *)
From S2P Require Import Prelude Errors.

Definition maxTenantLen : Z := 128.

(** [TenantID{id string}]; the zero TenantID, with the empty id, is the single tenant. *)
Record TenantID := mkTenantID { tenant_id : string }.

#[export] Instance TenantID_eq_dec : EqDecision TenantID.
Proof. solve_decision. Defined.

#[export] Instance TenantID_countable : Countable TenantID.
Proof.
  refine (inj_countable' tenant_id mkTenantID _). by intros [].
Defined.

Definition zero_TenantID : TenantID := mkTenantID "".

(** The character test of ParseTenantID's loop. *)
Definition tenant_char_ok (c : byte) : bool :=
  let c := Z_of_byte c in
  ((97 <=? c) && (c <=? 122)) || ((65 <=? c) && (c <=? 90)) || ((48 <=? c) && (c <=? 57))
  || (c =? 46) || (c =? 95) || (c =? 45).

Definition ParseTenantID (s : string) : res TenantID :=
  if (bool_decide (s = "")) || (maxTenantLen <? Z.of_nat (String.length s))
  then Err ErrInvalidTenant
  else if forallb tenant_char_ok (str_bytes s)
  then Ok (mkTenantID s)
  else Err (Join ErrInvalidTenant (New "invalid character")).

Definition TenantID_IsZero (t : TenantID) : bool := bool_decide (tenant_id t = "").

(** [Subject{Tenant, User}]: a user within a tenant. *)
Record Subject := mkSubject { Tenant : TenantID; User : uuid }.

#[export] Instance Subject_eq_dec : EqDecision Subject.
Proof. solve_decision. Defined.

#[export] Instance Subject_countable : Countable Subject.
Proof.
  refine (inj_countable' (fun s => (Tenant s, User s)) (fun p => mkSubject p.1 p.2) _).
  by intros [].
Defined.

Definition zero_Subject : Subject := mkSubject zero_TenantID uuid_Nil.

Definition Subject_IsZero (s : Subject) : bool := bool_decide (User s = uuid_Nil).

(** A TenantID is either the zero one or came out of ParseTenantID: its field is
    unexported, so those are the only values a program can hold. *)
Definition tenant_wf (t : TenantID) : Prop :=
  t = zero_TenantID \/ ParseTenantID (tenant_id t) = Ok t.

Definition subject_wf (s : Subject) : Prop := tenant_wf (Tenant s) /\ uuid_ok (User s).

Lemma ParseTenantID_id s t : ParseTenantID s = Ok t -> t = mkTenantID s.
Proof. unfold ParseTenantID. intros H. go_cases; done. Qed.

Lemma ParseTenantID_wf s t : ParseTenantID s = Ok t -> tenant_wf t.
Proof. intros H. right. pose proof (ParseTenantID_id _ _ H) as ->. exact H. Qed.
