(* ===== verification/Factor.v ===== *)
(** Authentication factors: internal/core/factor.go.

    Factors are persisted by code.  Factor sets are slices ordered by code without
    duplicates, [factor_set]; the operations below keep that shape, and two such slices
    with the same members are equal. *)
From S2P Require Import Prelude Errors.

(** [FactorRole]; [RoleInvalid] is Go's zero FactorRole. *)
Inductive FactorRole := RoleInvalid | RolePrimary | RoleSecond | RoleQualifier.

#[export] Instance FactorRole_eq_dec : EqDecision FactorRole.
Proof. solve_decision. Defined.

Record Factor := mkFactor { code : string }.

#[export] Instance Factor_eq_dec : EqDecision Factor.
Proof. solve_decision. Defined.

Definition zero_Factor : Factor := mkFactor "".

Definition FactorPassword : Factor := mkFactor "pwd".
Definition FactorEmailLink : Factor := mkFactor "email_link".
Definition FactorEmailCode : Factor := mkFactor "email_code".
Definition FactorSMSCode : Factor := mkFactor "sms_code".
Definition FactorFederated : Factor := mkFactor "fed".
Definition FactorExternal : Factor := mkFactor "ext".
Definition FactorPasskey : Factor := mkFactor "pk".
Definition FactorUserVerification : Factor := mkFactor "uv".
Definition FactorTOTP : Factor := mkFactor "totp".
Definition FactorRecoveryCode : Factor := mkFactor "rc".
Definition FactorPasskeyStepUp : Factor := mkFactor "pk_stepup".

Record factorInfo := mkFactorInfo { fi_role : FactorRole; fi_amr : string }.

Definition factorTable : gmap string factorInfo := list_to_map [
  ("pwd", mkFactorInfo RolePrimary "pwd");
  ("email_link", mkFactorInfo RolePrimary "email");
  ("email_code", mkFactorInfo RolePrimary "otp");
  ("sms_code", mkFactorInfo RolePrimary "sms");
  ("fed", mkFactorInfo RolePrimary "fed");
  ("ext", mkFactorInfo RolePrimary "ext");
  ("pk", mkFactorInfo RolePrimary "hwk");
  ("uv", mkFactorInfo RoleQualifier "user");
  ("totp", mkFactorInfo RoleSecond "otp");
  ("rc", mkFactorInfo RoleSecond "rc");
  ("pk_stepup", mkFactorInfo RoleSecond "hwk")].

Definition FactorByCode (c : string) : res Factor :=
  match factorTable !! c with
  | None => Err ErrInvalidFactor
  | Some _ => Ok (mkFactor c)
  end.

(** [Factor.Valid], [Factor.Role] and [Factor.AMR]: a missing key of a Go map reads as the
    zero factorInfo. *)
Definition Valid (f : Factor) : bool := bool_decide (is_Some (factorTable !! code f)).

Definition Role (f : Factor) : FactorRole :=
  match factorTable !! code f with Some i => fi_role i | None => RoleInvalid end.

Definition AMR (f : Factor) : string :=
  match factorTable !! code f with Some i => fi_amr i | None => "" end.

#[global] Arguments factorTable : simpl never.
#[global] Arguments Valid : simpl never.
#[global] Arguments Role : simpl never.
#[global] Arguments AMR : simpl never.

(** The comparison of sortFactors; the sort itself is any sorting function, and on slices
    without duplicates the order determines its result. *)
Definition factor_le (a b : Factor) : Prop := String.le (code a) (code b).

#[export] Instance factor_le_dec : RelDecision factor_le.
Proof. intros a b. unfold factor_le. apply _. Defined.

Definition sortFactors (fs : list Factor) : list Factor := merge_sort factor_le fs.

(** [slices.Contains]. *)
Definition contains (fs : list Factor) (f : Factor) : bool := bool_decide (f ∈ fs).

(** The loop that appends each element not yet in [out]. *)
Definition append_new (out : list Factor) (f : Factor) : list Factor :=
  if contains out f then out else out ++ [f].

Definition dedup (fs : list Factor) : list Factor := fold_left append_new fs [].

Definition unionFactors (a b : list Factor) : list Factor := sortFactors (dedup (a ++ b)).

Definition AllFactors : list Factor := sortFactors (mkFactor <$> (map_to_list factorTable).*1).

Definition hasRole (fs : list Factor) (r : FactorRole) : bool :=
  existsb (fun f => bool_decide (Role f = r)) fs.

Definition multiFactor (fs : list Factor) : bool :=
  if hasRole fs RolePrimary && hasRole fs RoleSecond then true
  else contains fs FactorPasskey && contains fs FactorUserVerification.

Definition amr_append (out : list string) (f : Factor) : list string :=
  let v := AMR f in
  if negb (bool_decide (v = "")) && negb (bool_decide (v ∈ out)) then out ++ [v] else out.

Definition amrOf (fs : list Factor) : list string :=
  let out := fold_left amr_append fs [] in
  if multiFactor fs then out ++ ["mfa"] else out.

(** The shape every factor slice of a session or a pending has: members of the closed set,
    ordered by code, without duplicates. *)
Record factor_set (fs : list Factor) : Prop := {
  fset_sorted : StronglySorted factor_le fs;
  fset_nodup : NoDup fs;
  fset_valid : Forall (fun f => Valid f = true) fs }.

#[export] Instance factor_le_po : PartialOrder factor_le.
Proof.
  unfold factor_le. split; [split|].
  - intros a. apply String.le_po.
  - intros a b c ??. by etrans.
  - intros [a] [b] ??. f_equal. by apply (anti_symm String.le).
Qed.

#[export] Instance factor_le_total : Total factor_le.
Proof. intros a b. apply String.le_total. Qed.

Lemma code_inj a b : code a = code b -> a = b.
Proof. destruct a, b. simpl. by intros ->. Qed.

Lemma sortFactors_sorted fs : StronglySorted factor_le (sortFactors fs).
Proof. apply StronglySorted_merge_sort; apply _. Qed.

Lemma sortFactors_perm fs : sortFactors fs ≡ₚ fs.
Proof. apply merge_sort_Permutation. Qed.

Lemma elem_of_sortFactors f fs : f ∈ sortFactors fs <-> f ∈ fs.
Proof. by rewrite sortFactors_perm. Qed.

Lemma append_new_elem f g out : f ∈ append_new out g <-> f ∈ out \/ f = g.
Proof.
  unfold append_new, contains. case_bool_decide; [naive_solver|]. set_solver.
Qed.

Lemma append_new_nodup g out : NoDup out -> NoDup (append_new out g).
Proof.
  unfold append_new, contains. case_bool_decide; [done|]. intros.
  apply NoDup_app. split; [done|]. split; [set_solver|]. apply NoDup_singleton.
Qed.

Lemma fold_append_new_elem fs f out : f ∈ fold_left append_new fs out <-> f ∈ out \/ f ∈ fs.
Proof.
  revert out. induction fs as [|g fs IH]; intros out; simpl; [set_solver|].
  rewrite IH, append_new_elem. set_solver.
Qed.

Lemma fold_append_new_nodup fs out : NoDup out -> NoDup (fold_left append_new fs out).
Proof.
  revert out. induction fs; intros out H; simpl; auto using append_new_nodup.
Qed.

Lemma elem_of_dedup f fs : f ∈ dedup fs <-> f ∈ fs.
Proof. unfold dedup. rewrite fold_append_new_elem. set_solver. Qed.

Lemma NoDup_dedup fs : NoDup (dedup fs).
Proof. apply fold_append_new_nodup, NoDup_nil_2. Qed.

Lemma elem_of_unionFactors f a b : f ∈ unionFactors a b <-> f ∈ a \/ f ∈ b.
Proof. unfold unionFactors. rewrite elem_of_sortFactors, elem_of_dedup. set_solver. Qed.

Lemma unionFactors_set a b :
  Forall (fun f => Valid f = true) a -> Forall (fun f => Valid f = true) b ->
  factor_set (unionFactors a b).
Proof.
  intros Ha Hb. split.
  - apply sortFactors_sorted.
  - unfold unionFactors. rewrite sortFactors_perm. apply NoDup_dedup.
  - apply Forall_forall. intros f. rewrite elem_of_unionFactors.
    rewrite Forall_forall in Ha, Hb. naive_solver.
Qed.

Lemma sortFactors_set fs :
  NoDup fs -> Forall (fun f => Valid f = true) fs -> factor_set (sortFactors fs).
Proof.
  intros. split.
  - apply sortFactors_sorted.
  - by rewrite sortFactors_perm.
  - by rewrite sortFactors_perm.
Qed.

Lemma factor_set_nil : factor_set [].
Proof. repeat constructor. Qed.

(** Ordered slices without duplicates are determined by their members. *)
Lemma factor_set_ext fs gs :
  factor_set fs -> factor_set gs -> (forall f, f ∈ fs <-> f ∈ gs) -> fs = gs.
Proof.
  intros [] [] Hm. eapply (StronglySorted_unique factor_le); [done..|].
  by apply NoDup_Permutation.
Qed.

Lemma hasRole_true fs r : hasRole fs r = true <-> exists f, f ∈ fs /\ Role f = r.
Proof.
  unfold hasRole. rewrite existsb_exists.
  setoid_rewrite <- list_elem_of_In. setoid_rewrite bool_decide_eq_true. done.
Qed.

Lemma hasRole_mono fs gs r : fs ⊆ gs -> hasRole fs r = true -> hasRole gs r = true.
Proof. rewrite !hasRole_true. naive_solver. Qed.

Lemma contains_true fs f : contains fs f = true <-> f ∈ fs.
Proof. apply bool_decide_eq_true. Qed.

Lemma contains_false fs f : contains fs f = false <-> f ∉ fs.
Proof. apply bool_decide_eq_false. Qed.

(** What [multiFactor] accepts. *)
Lemma multiFactor_true fs :
  multiFactor fs = true <->
  (exists f g, f ∈ fs /\ g ∈ fs /\ Role f = RolePrimary /\ Role g = RoleSecond)
  \/ (FactorPasskey ∈ fs /\ FactorUserVerification ∈ fs).
Proof.
  unfold multiFactor. case_match eqn:E.
  - apply andb_true_iff in E as [[f []]%hasRole_true [g []]%hasRole_true]. naive_solver.
  - rewrite andb_true_iff, !contains_true. split; [auto|]. intros [(f & g & ?)|?]; [|done].
    apply andb_false_iff in E as [E|E]; rewrite <- not_true_iff_false, hasRole_true in E;
      naive_solver.
Qed.

Lemma multiFactor_mono fs gs : fs ⊆ gs -> multiFactor fs = true -> multiFactor gs = true.
Proof.
  rewrite !multiFactor_true. intros Hs [(f & g & ? & ? & ?)|[? ?]].
  - left. exists f, g. auto.
  - right. auto.
Qed.

Lemma hasRole_union_r a b r : hasRole b r = true -> hasRole (unionFactors a b) r = true.
Proof. apply hasRole_mono. intros f. rewrite elem_of_unionFactors. auto. Qed.

Lemma hasRole_union_l a b r : hasRole a r = true -> hasRole (unionFactors a b) r = true.
Proof. apply hasRole_mono. intros f. rewrite elem_of_unionFactors. auto. Qed.

Lemma Valid_iff f : Valid f = true <-> is_Some (factorTable !! code f).
Proof. apply bool_decide_eq_true. Qed.

Lemma FactorByCode_code f : Valid f = true -> FactorByCode (code f) = Ok f.
Proof.
  rewrite Valid_iff. intros [i Hi]. unfold FactorByCode. rewrite Hi. by destruct f.
Qed.

Lemma Role_valid f r : Role f = r -> r <> RoleInvalid -> Valid f = true.
Proof.
  rewrite Valid_iff. unfold Role. destruct (factorTable !! code f); [eauto|]. congruence.
Qed.

(** The closed set, listed; the eleven factors are the only valid ones. *)
Lemma valid_cases f :
  Valid f = true ->
  f ∈ [FactorPassword; FactorEmailLink; FactorEmailCode; FactorSMSCode; FactorFederated;
       FactorExternal; FactorPasskey; FactorUserVerification; FactorTOTP;
       FactorRecoveryCode; FactorPasskeyStepUp].
Proof.
  rewrite Valid_iff. intros [i Hi%elem_of_list_to_map_2]. destruct f as [c]. simpl in *.
  repeat (apply elem_of_cons in Hi as [Hi|Hi]; [injection Hi as -> _; set_solver|]).
  by apply elem_of_nil in Hi.
Qed.

Lemma code_nonempty f : Valid f = true -> code f <> "".
Proof.
  intros H%valid_cases. repeat (apply elem_of_cons in H as [->|H]; [done|]).
  by apply elem_of_nil in H.
Qed.

#[global] Opaque factorTable.
