(* ===== verification/Attrs.v ===== *)
(** Session attributes and the values the transitions read: internal/core/attrs.go and
    internal/core/policy.go.

    Enumerations are kept as the integers they are in Go, because each operation has a
    branch for a value outside the enumeration. *)
From S2P Require Import Prelude Errors Tenant Factor.

Definition codecVersion : Z := 1.

(** [Transport] *)
Abbreviation Transport := Z.

Definition TransportCookies : Transport := 1.

Definition TransportBearer : Transport := 2.

Definition Transport_Valid (t : Transport) : bool :=
  (t =? TransportCookies) || (t =? TransportBearer).

(** [RememberIntent] *)
Abbreviation RememberIntent := Z.

Definition RememberDeclined : RememberIntent := 1.

Definition RememberRequested : RememberIntent := 2.

(** [RememberMePolicy] *)
Abbreviation RememberMePolicy := Z.

Definition RememberUserChoice : RememberMePolicy := 1.

Definition RememberAlways : RememberMePolicy := 2.

Definition RememberNever : RememberMePolicy := 3.

(** [ClaimsOutcome] *)
Abbreviation ClaimsOutcome := Z.

Definition ClaimsRefreshed : ClaimsOutcome := 1.

Definition ClaimsKeptStale : ClaimsOutcome := 2.

Definition ClaimsUnavailable : ClaimsOutcome := 3.

Definition ClaimsSubjectUnknown : ClaimsOutcome := 4.

Definition ClaimsTooLarge : ClaimsOutcome := 5.

(** [AccountState], with [NewAccountState] as its constructor. *)
Record AccountState := NewAccountState {
  exists_ : bool;
  disabled : bool;
  deleted : bool;
  mustChange : bool;
  emailVerified : bool;
  epoch : Z }.

Definition Usable (s : AccountState) : bool :=
  exists_ s && negb (disabled s) && negb (deleted s).

(** [MFADecision]; its zero value is not loaded. *)
Record MFADecision := mkMFADecision { loaded : bool; enrolled : list Factor }.

Definition zero_MFADecision : MFADecision := mkMFADecision false [].

Definition NewMFADecision (enrolled : list Factor) : MFADecision :=
  mkMFADecision true (sortFactors (dedup enrolled)).

Definition MFADecision_IsZero (d : MFADecision) : bool := negb (loaded d).

Definition Required (d : MFADecision) : bool :=
  negb (loaded d) || (0 <? Z.of_nat (length (enrolled d))).

Definition MFADecision_Factors (d : MFADecision) : list Factor := enrolled d.

Definition canonTime (t : time) : time := if time_IsZero t then time_zero else t.

(** ** Credentials *)
Record credentialUse := mkCredentialUse { cu_factor : Factor; cu_id : bytes }.

#[export] Instance credentialUse_eq_dec : EqDecision credentialUse.
Proof. solve_decision. Defined.

(** [credentialClash existing f id]: [f] and a use already recorded are a passkey and a
    passkey step-up with the same credential. *)
Definition credentialClash (existing : list credentialUse) (f : Factor) (id : bytes) : bool :=
  let clash other :=
    existsb (fun u => bool_decide (cu_factor u = other) && bool_decide (cu_id u = id)) existing in
  if bool_decide (f = FactorPasskey) then clash FactorPasskeyStepUp
  else if bool_decide (f = FactorPasskeyStepUp) then clash FactorPasskey
  else false.

(** ** Session attributes *)
Record SessionAttrs := mkSessionAttrs {
  a_version : Z;
  a_lineage : uuid;
  a_subject : Subject;
  a_factors : list Factor;
  a_credentialIDs : list credentialUse;
  a_primaryAt : time;
  a_secondAt : time;
  a_epoch : Z;
  a_mustChange : bool;
  a_remember : bool;
  a_returnTo : string;
  a_transport : Transport;
  a_provider : string;
  a_createdAt : time;
  a_claimsFetchedAt : time }.

Definition zero_SessionAttrs : SessionAttrs :=
  mkSessionAttrs 0 uuid_Nil zero_Subject [] [] time_zero time_zero 0 false false "" 0 ""
    time_zero time_zero.

Definition SessionAttrs_IsZero (a : SessionAttrs) : bool := a_version a =? 0.

Definition HasFactor (a : SessionAttrs) (f : Factor) : bool :=
  Valid f && contains (a_factors a) f.

Definition MultiFactor (a : SessionAttrs) : bool := multiFactor (a_factors a).

Definition SessionAttrs_AMR (a : SessionAttrs) : list string := amrOf (a_factors a).

Definition FreshWithin (a : SessionAttrs) (d : duration) (now : time) : bool :=
  if (d <=? 0) || time_IsZero (a_primaryAt a) || (d <? time_Sub now (a_primaryAt a))
  then false
  else if hasRole (a_factors a) RoleSecond || multiFactor (a_factors a)
  then negb (time_IsZero (a_secondAt a)) && (time_Sub now (a_secondAt a) <=? d)
  else true.

(** The assignments the transitions make to a clone. *)
Definition set_factors (fs : list Factor) (a : SessionAttrs) : SessionAttrs :=
  mkSessionAttrs (a_version a) (a_lineage a) (a_subject a) fs (a_credentialIDs a)
    (a_primaryAt a) (a_secondAt a) (a_epoch a) (a_mustChange a) (a_remember a) (a_returnTo a)
    (a_transport a) (a_provider a) (a_createdAt a) (a_claimsFetchedAt a).

Definition set_credentialIDs (cs : list credentialUse) (a : SessionAttrs) : SessionAttrs :=
  mkSessionAttrs (a_version a) (a_lineage a) (a_subject a) (a_factors a) cs
    (a_primaryAt a) (a_secondAt a) (a_epoch a) (a_mustChange a) (a_remember a) (a_returnTo a)
    (a_transport a) (a_provider a) (a_createdAt a) (a_claimsFetchedAt a).

Definition set_primaryAt (t : time) (a : SessionAttrs) : SessionAttrs :=
  mkSessionAttrs (a_version a) (a_lineage a) (a_subject a) (a_factors a) (a_credentialIDs a)
    t (a_secondAt a) (a_epoch a) (a_mustChange a) (a_remember a) (a_returnTo a)
    (a_transport a) (a_provider a) (a_createdAt a) (a_claimsFetchedAt a).

Definition set_secondAt (t : time) (a : SessionAttrs) : SessionAttrs :=
  mkSessionAttrs (a_version a) (a_lineage a) (a_subject a) (a_factors a) (a_credentialIDs a)
    (a_primaryAt a) t (a_epoch a) (a_mustChange a) (a_remember a) (a_returnTo a)
    (a_transport a) (a_provider a) (a_createdAt a) (a_claimsFetchedAt a).

Definition set_epoch (e : Z) (a : SessionAttrs) : SessionAttrs :=
  mkSessionAttrs (a_version a) (a_lineage a) (a_subject a) (a_factors a) (a_credentialIDs a)
    (a_primaryAt a) (a_secondAt a) e (a_mustChange a) (a_remember a) (a_returnTo a)
    (a_transport a) (a_provider a) (a_createdAt a) (a_claimsFetchedAt a).

Definition set_mustChange (m : bool) (a : SessionAttrs) : SessionAttrs :=
  mkSessionAttrs (a_version a) (a_lineage a) (a_subject a) (a_factors a) (a_credentialIDs a)
    (a_primaryAt a) (a_secondAt a) (a_epoch a) m (a_remember a) (a_returnTo a)
    (a_transport a) (a_provider a) (a_createdAt a) (a_claimsFetchedAt a).

Definition set_claimsFetchedAt (t : time) (a : SessionAttrs) : SessionAttrs :=
  mkSessionAttrs (a_version a) (a_lineage a) (a_subject a) (a_factors a) (a_credentialIDs a)
    (a_primaryAt a) (a_secondAt a) (a_epoch a) (a_mustChange a) (a_remember a) (a_returnTo a)
    (a_transport a) (a_provider a) (a_createdAt a) t.

Lemma canonTime_id t : canonTime t = t.
Proof. unfold canonTime, time_IsZero, time_zero. case_match; bools; lia. Qed.

Lemma Usable_true s :
  Usable s = true <-> exists_ s = true /\ disabled s = false /\ deleted s = false.
Proof. unfold Usable. rewrite !andb_true_iff, !negb_true_iff. tauto. Qed.

Lemma credentialClash_false existing f id :
  credentialClash existing f id = false <->
  (f = FactorPasskey -> mkCredentialUse FactorPasskeyStepUp id ∉ existing) /\
  (f = FactorPasskeyStepUp -> mkCredentialUse FactorPasskey id ∉ existing).
Proof.
  assert (forall other, existsb (fun u => bool_decide (cu_factor u = other)
      && bool_decide (cu_id u = id)) existing = false <->
    mkCredentialUse other id ∉ existing) as Hx.
  { intros other. rewrite <- not_true_iff_false, existsb_exists.
    setoid_rewrite <- list_elem_of_In. setoid_rewrite andb_true_iff.
    setoid_rewrite bool_decide_eq_true. split.
    - intros H ?. apply H. eexists. split; [done|]. done.
    - intros H ([f' id'] & ? & [Hf Hi]). simpl in *. by subst. }
  assert (FactorPasskey <> FactorPasskeyStepUp) by done.
  unfold credentialClash.
  case_bool_decide; [|case_bool_decide]; rewrite ?Hx; clear Hx; subst; naive_solver.
Qed.

(** [FreshWithin] read as a proposition. *)
Lemma FreshWithin_true a d now :
  FreshWithin a d now = true ->
  0 < d /\ a_primaryAt a <> 0 /\ time_Sub now (a_primaryAt a) <= d /\
  (hasRole (a_factors a) RoleSecond || multiFactor (a_factors a) = true ->
     a_secondAt a <> 0 /\ time_Sub now (a_secondAt a) <= d).
Proof.
  unfold FreshWithin, time_IsZero. intros H.
  repeat case_match; simplify_eq; bools; repeat split; try lia; try done; intros; bools; lia.
Qed.
