(* ===== verification/Pending.v ===== *)
(** Verifications and pending journeys: internal/core/pending.go.

    [Verified] is one successful verification ceremony; [Pending] is the pre-session state
    of a login or reauthentication journey that collects them.  Slices are immutable values
    here, so the clones the code makes are the values themselves. *)
From S2P Require Import Prelude Errors Tenant Factor Attrs.

Definition PendingTTL : duration := 15 * Minute.

Definition bindHashLen : Z := 32.

Record Verified := mkVerified {
  v_subject : Subject;
  v_factors : list Factor;
  v_credentialID : bytes;
  v_identifies : bool;
  v_provider : string;
  v_at : time }.

Record VerifiedSpec := mkVerifiedSpec {
  vs_Subject : Subject;
  vs_Factors : list Factor;
  vs_CredentialID : bytes;
  vs_Identifies : bool;
  vs_Provider : string;
  vs_At : time }.

(** The counters of the loop of checkVerifiedShape. *)
Record shape_counts := mkCounts { n_primary : Z; n_second : Z; n_uv : Z }.

Definition count_role (r : FactorRole) (c : shape_counts) : shape_counts :=
  match r with
  | RolePrimary => mkCounts (n_primary c + 1) (n_second c) (n_uv c)
  | RoleSecond => mkCounts (n_primary c) (n_second c + 1) (n_uv c)
  | RoleQualifier => mkCounts (n_primary c) (n_second c) (n_uv c + 1)
  | RoleInvalid => c
  end.

(** The loop: [seen] is [fs[:i]]; [None] is the return of ErrInvalidFactor. *)
Fixpoint shape_loop (seen rest : list Factor) (c : shape_counts) : option shape_counts :=
  match rest with
  | [] => Some c
  | f :: rest' =>
      if negb (Valid f) || contains seen f then None
      else shape_loop (seen ++ [f]) rest' (count_role (Role f) c)
  end.

(** [checkVerifiedShape]; [None] is the nil error. *)
Definition checkVerifiedShape (fs : list Factor) (credentialID : bytes) (identifies : bool)
    (provider : string) : option error :=
  if bool_decide (fs = []) then Some (New "no factor")
  else match shape_loop [] fs (mkCounts 0 0 0) with
  | None => Some (E ErrInvalidFactor)
  | Some c =>
      let hasPK := contains fs FactorPasskey in
      let rest :=
        let needsCred := hasPK || contains fs FactorPasskeyStepUp in
        if xorb needsCred (negb (bool_decide (credentialID = [])))
        then Some (New "credential id mismatch")
        else
          let needsProvider := contains fs FactorFederated || contains fs FactorExternal in
          if xorb needsProvider (negb (bool_decide (provider = "")))
          then Some (New "provider mismatch")
          else None in
      if (n_second c =? 1) && (n_primary c =? 0) && (n_uv c =? 0)
      then if identifies then Some (New "second factors do not identify") else rest
      else if (n_primary c =? 1) && (n_second c =? 0) && (eqb (n_uv c =? 1) hasPK)
      then rest
      else Some (New "invalid factor combination")
  end.

Definition NewVerified (s : VerifiedSpec) : res Verified :=
  if Subject_IsZero (vs_Subject s) || time_IsZero (vs_At s) then Err ErrInvalidVerified
  else match checkVerifiedShape (vs_Factors s) (vs_CredentialID s) (vs_Identifies s)
               (vs_Provider s) with
  | Some err => Err (Join ErrInvalidVerified err)
  | None => Ok (mkVerified (vs_Subject s) (sortFactors (vs_Factors s)) (vs_CredentialID s)
                  (vs_Identifies s) (vs_Provider s) (canonTime (vs_At s)))
  end.

(** ** Pending *)
Record Pending := mkPending {
  p_version : Z;
  p_tenant : TenantID;
  p_subject : Subject;
  p_epochAtBind : Z;
  p_verified : list Verified;
  p_remember : bool;
  p_returnTo : string;
  p_transport : Transport;
  p_provider : string;
  p_reauthOf : uuid;
  p_bindHash : bytes;
  p_expiresAt : time }.

Definition zero_Pending : Pending :=
  mkPending 0 zero_TenantID zero_Subject 0 [] false "" 0 "" uuid_Nil [] time_zero.

(** [NewPending]; [returnTo] is the string of the validated redirect.Target. *)
Definition NewPending (t : TenantID) (remember : RememberIntent) (returnTo : string)
    (tr : Transport) (pol : RememberMePolicy) (now : time) : res Pending :=
  if negb (remember =? RememberDeclined) && negb (remember =? RememberRequested)
  then Err (Join ErrInvalidArgument (New "remember intent"))
  else if negb (Transport_Valid tr)
  then Err (Join ErrInvalidArgument (New "transport"))
  else
    rem ← (if pol =? RememberUserChoice then Ok (remember =? RememberRequested)
           else if pol =? RememberAlways then Ok true
           else if pol =? RememberNever then Ok false
           else Err (Join ErrInvalidArgument (New "remember-me policy")));
    if time_IsZero now then Err (Join ErrInvalidArgument (New "time"))
    else Ok (mkPending codecVersion t zero_Subject 0 [] rem returnTo tr "" uuid_Nil []
               (canonTime (time_Add now PendingTTL))).

Definition PendingForReauth (a : SessionAttrs) (now : time) : Pending :=
  if a_version a =? 0 then zero_Pending
  else mkPending codecVersion (Tenant (a_subject a)) (a_subject a) (a_epoch a) []
         (a_remember a) "" (a_transport a) "" (a_lineage a) []
         (canonTime (time_Add now PendingTTL)).

Definition Bound (p : Pending) : bool := negb (Subject_IsZero (p_subject p)).

Definition Bind (p : Pending) (s : Subject) (st : AccountState) : res Pending :=
  if (p_version p =? 0) || Subject_IsZero s then Err ErrInvalidArgument
  else if negb (bool_decide (Tenant s = p_tenant p)) then Err ErrTenantMismatch
  else if Bound p then Err ErrAlreadyBound
  else Ok (mkPending (p_version p) (p_tenant p) s (epoch st) (p_verified p) (p_remember p)
             (p_returnTo p) (p_transport p) (p_provider p) (p_reauthOf p) (p_bindHash p)
             (p_expiresAt p)).

Definition WithBindHash (p : Pending) (h : bytes) : res Pending :=
  if (p_version p =? 0) || negb (Z.of_nat (length h) =? bindHashLen)
     || negb (Z.of_nat (length (p_bindHash p)) =? 0)
  then Err ErrInvalidArgument
  else Ok (mkPending (p_version p) (p_tenant p) (p_subject p) (p_epochAtBind p) (p_verified p)
             (p_remember p) (p_returnTo p) (p_transport p) (p_provider p) (p_reauthOf p) h
             (p_expiresAt p)).

(** The union of the verified factors. *)
Definition factorSet (p : Pending) : list Factor :=
  fold_left (fun out v => unionFactors out (v_factors v)) (p_verified p) [].

Definition is_passkey_factor (f : Factor) : bool :=
  bool_decide (f = FactorPasskey) || bool_decide (f = FactorPasskeyStepUp).

Definition verified_uses (v : Verified) : list credentialUse :=
  if bool_decide (v_credentialID v = []) then []
  else (fun f => mkCredentialUse f (v_credentialID v)) <$>
         List.filter is_passkey_factor (v_factors v).

Definition credentialUses (p : Pending) : list credentialUse :=
  flat_map verified_uses (p_verified p).

Definition latest (match_ : Verified -> bool) (vs : list Verified) : time :=
  fold_left (fun t v => if match_ v && time_After (v_at v) t then v_at v else t) vs time_zero.

Definition is_primary_verification (v : Verified) : bool := hasRole (v_factors v) RolePrimary.

Definition is_second_verification (v : Verified) : bool :=
  hasRole (v_factors v) RoleSecond || multiFactor (v_factors v).

Definition primaryAt (p : Pending) : time := latest is_primary_verification (p_verified p).

Definition secondAt (p : Pending) : time := latest is_second_verification (p_verified p).

Definition Add (p : Pending) (v : Verified) (st : AccountState) : res Pending :=
  if (p_version p =? 0) || bool_decide (v_factors v = []) then Err ErrInvalidArgument
  else if negb (bool_decide (Tenant (v_subject v) = p_tenant p)) then Err ErrTenantMismatch
  else if negb (time_Before (v_at v) (p_expiresAt p)) then Err ErrPendingExpired
  else
    '(sub, ep) ←
      (if negb (Bound p)
       then if hasRole (v_factors v) RoleSecond then Err ErrNotBound
            else if negb (v_identifies v) then Err ErrNotIdentifying
            else Ok (v_subject v, epoch st)
       else if negb (bool_decide (v_subject v = p_subject p)) then Err ErrSubjectMismatch
            else if negb (epoch st =? p_epochAtBind p) then Err ErrEpochStale
            else Ok (p_subject p, p_epochAtBind p));
    let creds := credentialUses p in
    if existsb (fun f => credentialClash creds f (v_credentialID v)) (v_factors v)
    then Err ErrSameCredential
    else
      prov ←
        (if negb (bool_decide (v_provider v = ""))
         then if negb (bool_decide (p_provider p = ""))
                 && negb (bool_decide (p_provider p = v_provider v))
              then Err ErrProviderMismatch
              else Ok (v_provider v)
         else Ok (p_provider p));
      Ok (mkPending (p_version p) (p_tenant p) sub ep (p_verified p ++ [v]) (p_remember p)
            (p_returnTo p) (p_transport p) prov (p_reauthOf p) (p_bindHash p) (p_expiresAt p)).
