(* ===== verification/Transitions.v ===== *)
(** The session transitions: internal/core/transitions.go, with the Admission of
    internal/core/policy.go.

    [Admit] turns a pending journey into a session or asks for a second factor; the other
    transitions derive a session from a session.  The fresh lineage of [Admit]
    ([uuid.New()]) is an argument. *)
From S2P Require Import Prelude Errors Tenant Factor Attrs Pending.

(** [Admission]; either a session or a pending that needs a factor. *)
Record Admission := mkAdmission {
  adm_attrs : SessionAttrs;
  adm_pending : Pending;
  adm_needs : list Factor;
  adm_session : bool }.

(** [Admission.Session] and [Admission.NeedsFactor], with [None] for the false flag. *)
Definition Session (a : Admission) : option SessionAttrs :=
  if adm_session a then Some (adm_attrs a) else None.

Definition NeedsFactor (a : Admission) : option (Pending * list Factor) :=
  if adm_session a || (p_version (adm_pending a) =? 0) then None
  else Some (adm_pending a, adm_needs a).

Definition Admit (lineage : uuid) (p : Pending) (st : AccountState) (mfa : MFADecision)
    (now : time) : res Admission :=
  if (p_version p =? 0) || negb (Transport_Valid (p_transport p)) || MFADecision_IsZero mfa
     || time_IsZero now
  then Err ErrInvalidArgument
  else if negb (time_Before now (p_expiresAt p)) then Err ErrPendingExpired
  else if negb (Bound p) then Err ErrNotBound
  else if negb (p_reauthOf p =? uuid_Nil) then Err ErrReauthPending
  else
    let fs := factorSet p in
    if negb (hasRole fs RolePrimary) then Err ErrNoPrimary
    else if negb (Usable st) then Err ErrAccountUnusable
    else if negb (epoch st =? p_epochAtBind p) then Err ErrEpochStale
    else if Required mfa && negb (multiFactor fs)
    then Ok (mkAdmission zero_SessionAttrs p (MFADecision_Factors mfa) false)
    else
      let now := canonTime now in
      Ok (mkAdmission
            (mkSessionAttrs codecVersion lineage (p_subject p) fs (credentialUses p)
               (primaryAt p) (secondAt p) (epoch st) (mustChange st) (p_remember p)
               (p_returnTo p) (p_transport p) (p_provider p) now now)
            zero_Pending [] true).

(** The loop of Reauthenticate that appends the credential uses not yet recorded. *)
Definition append_use (cs : list credentialUse) (u : credentialUse) : list credentialUse :=
  if existsb (fun e => bool_decide (cu_factor e = cu_factor u) && bool_decide (cu_id e = cu_id u)) cs
  then cs else cs ++ [u].

Definition Reauthenticate (a : SessionAttrs) (p : Pending) (st : AccountState)
    (mfa : MFADecision) (now : time) : res SessionAttrs :=
  if (a_version a =? 0) || (p_version p =? 0) || MFADecision_IsZero mfa || time_IsZero now
  then Err ErrInvalidArgument
  else if (p_reauthOf p =? uuid_Nil) || negb (p_reauthOf p =? a_lineage a)
  then Err ErrLineageMismatch
  else if negb (bool_decide (p_subject p = a_subject a)) then Err ErrSubjectMismatch
  else if negb (time_Before now (p_expiresAt p)) then Err ErrPendingExpired
  else
    let fs := factorSet p in
    if negb (hasRole fs RolePrimary) then Err ErrNoPrimary
    else if negb (Usable st) then Err ErrAccountUnusable
    else if negb (epoch st =? a_epoch a) || negb (epoch st =? p_epochAtBind p)
    then Err ErrEpochStale
    else if Required mfa && negb (multiFactor fs) then Err ErrFactorRequired
    else
      let n := set_factors (unionFactors (a_factors a) fs) a in
      let n := set_credentialIDs (fold_left append_use (credentialUses p) (a_credentialIDs n)) n in
      let n := set_primaryAt (primaryAt p) n in
      let s := secondAt p in
      let n := if negb (time_IsZero s) then set_secondAt s n else n in
      Ok (set_mustChange (a_mustChange a || mustChange st) n).

(** [checkBumped]: the account is usable and its epoch is one above the session's, in
    uint64 arithmetic. *)
Definition checkBumped (a : SessionAttrs) (st : AccountState) : res unit :=
  if negb (Usable st) then Err ErrAccountUnusable
  else if negb (epoch st =? u64 (a_epoch a + 1)) then Err ErrEpochStale
  else Ok tt.

Definition FactorEnrolled (a : SessionAttrs) (f : Factor) (st : AccountState)
    : res SessionAttrs :=
  if a_version a =? 0 then Err ErrInvalidArgument
  else if negb (bool_decide (Role f = RoleSecond)) then Err ErrInvalidFactor
  else
    _ ← checkBumped a st;
    let n := set_factors (unionFactors (a_factors a) [f]) a in
    let n := set_epoch (epoch st) n in
    Ok (set_mustChange (a_mustChange a || mustChange st) n).

Definition PasswordChanged (a : SessionAttrs) (st : AccountState) (now : time)
    : res SessionAttrs :=
  if (a_version a =? 0) || time_IsZero now then Err ErrInvalidArgument
  else
    _ ← checkBumped a st;
    let n := set_factors (unionFactors (a_factors a) [FactorPassword]) a in
    let n := set_primaryAt (canonTime now) n in
    let n := set_mustChange false n in
    Ok (set_epoch (epoch st) n).

Definition Renew (a : SessionAttrs) (st : AccountState) (mfa : MFADecision)
    (claims : ClaimsOutcome) (now : time) : res SessionAttrs :=
  if (a_version a =? 0) || MFADecision_IsZero mfa || time_IsZero now then Err ErrInvalidArgument
  else if negb (Usable st) then Err ErrAccountUnusable
  else if negb (a_epoch a =? epoch st) then Err ErrEpochStale
  else if Required mfa && negb (multiFactor (a_factors a)) then Err ErrReauthRequired
  else
    n ← (if claims =? ClaimsRefreshed then Ok (set_claimsFetchedAt (canonTime now) a)
         else if claims =? ClaimsKeptStale then Ok a
         else if claims =? ClaimsUnavailable then Err ErrClaimsUnavailable
         else if claims =? ClaimsSubjectUnknown then Err ErrClaimsSubjectUnknown
         else if claims =? ClaimsTooLarge then Err ErrClaimsTooLarge
         else Err (Join ErrInvalidArgument (New "claims outcome")));
    Ok (set_mustChange (a_mustChange a || mustChange st) n).
