(* ===== verification/Factors.v ===== *)
(** The ceremonies that build a [Verified]: internal/factors/factors.go.  Each constructor
    fixes the factor codes, the identifying flag and the credential rules. *)
From S2P Require Import Prelude Errors Tenant Factor Attrs Pending.

Definition ExternalProviderPrefix : string := "external:".

Record AuthenticatorFlags := mkAuthenticatorFlags { UserPresent : bool; UserVerified : bool }.

Record PasskeyCredential := mkPasskeyCredential {
  Owner : Subject; CredID : bytes; Suspended : bool }.

(** [strings.HasPrefix]. *)
Definition HasPrefix (s prefix : string) : bool := String.prefix prefix s.

Definition primary (s : Subject) (f : Factor) (at_ : time) : res Verified :=
  NewVerified (mkVerifiedSpec s [f] [] true "" at_).

Definition second (s : Subject) (f : Factor) (at_ : time) : res Verified :=
  NewVerified (mkVerifiedSpec s [f] [] false "" at_).

Definition checkPasskey (cred : PasskeyCredential) (flags : AuthenticatorFlags) : res unit :=
  if negb (UserPresent flags) then Err ErrUserPresenceRequired
  else if negb (UserVerified flags) then Err ErrUserVerificationRequired
  else if Suspended cred then Err ErrCredentialSuspended
  else if bool_decide (CredID cred = []) then Err ErrMissingCredentialID
  else Ok tt.

Definition Password (s : Subject) (at_ : time) : res Verified := primary s FactorPassword at_.

Definition EmailLink (s : Subject) (at_ : time) : res Verified := primary s FactorEmailLink at_.

Definition EmailCode (s : Subject) (at_ : time) : res Verified := primary s FactorEmailCode at_.

Definition SMSCode (s : Subject) (at_ : time) : res Verified := primary s FactorSMSCode at_.

Definition Federated (s : Subject) (provider : string) (at_ : time) : res Verified :=
  if bool_decide (provider = "") then Err ErrMissingProvider
  else if HasPrefix provider ExternalProviderPrefix then Err ErrReservedProvider
  else NewVerified (mkVerifiedSpec s [FactorFederated] [] true provider at_).

Definition External (s : Subject) (name : string) (at_ : time) : res Verified :=
  if bool_decide (name = "") then Err ErrMissingProvider
  else NewVerified (mkVerifiedSpec s [FactorExternal] [] true
                      (String.append ExternalProviderPrefix name) at_).

Definition Passkey (cred : PasskeyCredential) (flags : AuthenticatorFlags) (at_ : time)
    : res Verified :=
  _ ← checkPasskey cred flags;
  NewVerified (mkVerifiedSpec (Owner cred) [FactorPasskey; FactorUserVerification]
                 (CredID cred) true "" at_).

Definition PasskeyStepUp (cred : PasskeyCredential) (flags : AuthenticatorFlags) (at_ : time)
    : res Verified :=
  _ ← checkPasskey cred flags;
  NewVerified (mkVerifiedSpec (Owner cred) [FactorPasskeyStepUp] (CredID cred) false "" at_).

Definition TOTP (s : Subject) (at_ : time) : res Verified := second s FactorTOTP at_.

Definition RecoveryCode (s : Subject) (at_ : time) : res Verified :=
  second s FactorRecoveryCode at_.

(** One ceremony: the inputs of one of the ten constructors. *)
Inductive ceremony :=
  | CPassword (s : Subject)
  | CEmailLink (s : Subject)
  | CEmailCode (s : Subject)
  | CSMSCode (s : Subject)
  | CFederated (s : Subject) (provider : string)
  | CExternal (s : Subject) (name : string)
  | CPasskey (cred : PasskeyCredential) (flags : AuthenticatorFlags)
  | CPasskeyStepUp (cred : PasskeyCredential) (flags : AuthenticatorFlags)
  | CTOTP (s : Subject)
  | CRecoveryCode (s : Subject).

Definition run_ceremony (c : ceremony) (at_ : time) : res Verified :=
  match c with
  | CPassword s => Password s at_
  | CEmailLink s => EmailLink s at_
  | CEmailCode s => EmailCode s at_
  | CSMSCode s => SMSCode s at_
  | CFederated s p => Federated s p at_
  | CExternal s n => External s n at_
  | CPasskey cr fl => Passkey cr fl at_
  | CPasskeyStepUp cr fl => PasskeyStepUp cr fl at_
  | CTOTP s => TOTP s at_
  | CRecoveryCode s => RecoveryCode s at_
  end.
