(* ===== verification/VerifiedFacts.v ===== *)
(** What a [Verified] can hold: the shape rule of checkVerifiedShape read declaratively,
    and the constructors of internal/factors against it. *)
From S2P Require Import Prelude Errors Tenant Factor Attrs Pending Factors.

(** How many factors of [fs] have role [r]. *)
Definition role_count (r : FactorRole) (fs : list Factor) : nat :=
  length (List.filter (fun f => bool_decide (Role f = r)) fs).

Definition roles_of (fs : list Factor) : shape_counts :=
  mkCounts (Z.of_nat (role_count RolePrimary fs)) (Z.of_nat (role_count RoleSecond fs))
    (Z.of_nat (role_count RoleQualifier fs)).

Definition add_counts (c d : shape_counts) : shape_counts :=
  mkCounts (n_primary c + n_primary d) (n_second c + n_second d) (n_uv c + n_uv d).

(** The shape rule: distinct valid factors that are one second factor alone, or one primary
    factor together with [uv] exactly when it is [pk], with a credential id exactly for
    passkeys and a provider exactly for federated and external factors. *)
Record verified_shape (fs : list Factor) (cred : bytes) (identifies : bool)
    (provider : string) : Prop := {
  vsh_nodup : NoDup fs;
  vsh_valid : Forall (fun f => Valid f = true) fs;
  vsh_roles :
    (role_count RoleSecond fs = 1%nat /\ role_count RolePrimary fs = 0%nat /\
     role_count RoleQualifier fs = 0%nat /\ identifies = false) \/
    (role_count RolePrimary fs = 1%nat /\ role_count RoleSecond fs = 0%nat /\
     (role_count RoleQualifier fs = 1%nat <-> FactorPasskey ∈ fs));
  vsh_cred : cred <> [] <-> (FactorPasskey ∈ fs \/ FactorPasskeyStepUp ∈ fs);
  vsh_provider : provider <> "" <-> (FactorFederated ∈ fs \/ FactorExternal ∈ fs) }.

Lemma count_role_cons f fs c :
  add_counts (count_role (Role f) c) (roles_of fs) = add_counts c (roles_of (f :: fs)).
Proof.
  unfold add_counts, roles_of, count_role, role_count. simpl.
  destruct (Role f); simpl; f_equal; lia.
Qed.

Lemma shape_loop_spec seen rest c d :
  shape_loop seen rest c = Some d <->
  (NoDup rest /\ (forall f, f ∈ rest -> f ∉ seen) /\ Forall (fun f => Valid f = true) rest /\
   d = add_counts c (roles_of rest)).
Proof.
  revert seen c. induction rest as [|f rest IH]; intros seen c; simpl.
  - split.
    + intros [= <-]. split; [constructor|]. split; [set_solver|]. split; [constructor|].
      unfold add_counts, roles_of, role_count. simpl. destruct c. simpl. f_equal; lia.
    + intros (_ & _ & _ & ->). unfold add_counts, roles_of, role_count. simpl.
      destruct c. simpl. do 2 f_equal; lia.
  - destruct (Valid f) eqn:Hv; simpl.
    2:{ split; [done|]. intros (_ & _ & Hf & _). inversion Hf; congruence. }
    destruct (contains seen f) eqn:Hc.
    { apply contains_true in Hc. split; [done|]. intros (_ & Hs & _).
      exfalso. apply (Hs f); [left|done]. }
    apply contains_false in Hc. rewrite IH, count_role_cons.
    rewrite NoDup_cons, Forall_cons. setoid_rewrite elem_of_app. split.
    + intros (Hn & Hs & Hf & ->). repeat split; auto.
      * intros Hin. apply (Hs f Hin). set_solver.
      * intros g [->|Hg]%elem_of_cons; [done|]. intros ?. apply (Hs g Hg). auto.
    + intros ((Hni & Hn) & Hs & [_ Hf] & ->). repeat split; auto.
      intros g Hg [?|Hg']; [by apply (Hs g); [right|]|].
      apply list_elem_of_singleton in Hg' as ->. done.
Qed.

Lemma checkVerifiedShape_None fs cred ident prov :
  checkVerifiedShape fs cred ident prov = None <-> verified_shape fs cred ident prov.
Proof.
  unfold checkVerifiedShape. case_bool_decide as Hnil.
  { subst. split; [done|]. intros [_ _ Hr _ _]. unfold role_count in Hr. simpl in Hr. lia. }
  destruct (shape_loop [] fs (mkCounts 0 0 0)) as [c|] eqn:Hl.
  2:{ split; [done|]. intros [Hn Hf _ _ _]. exfalso.
      assert (shape_loop [] fs (mkCounts 0 0 0) = Some (add_counts (mkCounts 0 0 0) (roles_of fs)))
        by (apply shape_loop_spec; repeat split; [done|set_solver|done]). congruence. }
  apply shape_loop_spec in Hl as (Hn & _ & Hf & ->).
  set (rest := if xorb _ _ then _ else _).
  assert (rest = None <->
    (cred <> [] <-> (FactorPasskey ∈ fs \/ FactorPasskeyStepUp ∈ fs)) /\
    (prov <> "" <-> (FactorFederated ∈ fs \/ FactorExternal ∈ fs))) as Hrest.
  { subst rest. unfold contains.
    repeat (case_bool_decide; simpl); split; intros; try done; naive_solver. }
  assert (forall z, (Z.of_nat z =? 1) = bool_decide (z = 1%nat)) as H1
    by (intros; case_bool_decide; lia).
  assert (forall z, (Z.of_nat z =? 0) = bool_decide (z = 0%nat)) as H0
    by (intros; case_bool_decide; lia).
  unfold add_counts, roles_of. simpl. rewrite !Z.add_0_l, ?H1, ?H0. clear H0 H1.
  clearbody rest. unfold contains.
  split.
  - intros H. repeat case_match; simplify_eq; bools; split; try tauto; try done.
    right. split; [done|]. split; [done|].
    match goal with G : eqb _ _ = true |- _ => apply eqb_prop in G; revert G end.
    repeat case_bool_decide; intros; split; intros; done.
  - intros [_ _ Hr Hc Hp]. assert (rest = None) as -> by tauto.
    destruct Hr as [(-> & -> & -> & ->)|(-> & -> & Hq)]; [done|]. simpl.
    rewrite (bool_decide_ext _ _ Hq). by rewrite eqb_reflx.
Qed.

Lemma role_count_perm r fs gs : fs ≡ₚ gs -> role_count r fs = role_count r gs.
Proof.
  unfold role_count. induction 1; simpl; repeat case_match; simpl; congruence.
Qed.

Lemma verified_shape_perm fs gs cred ident prov :
  fs ≡ₚ gs -> verified_shape fs cred ident prov -> verified_shape gs cred ident prov.
Proof.
  intros Hp []. split.
  - by rewrite <- Hp.
  - by rewrite <- Hp.
  - rewrite <- !(role_count_perm _ fs gs Hp), <- Hp. done.
  - by rewrite <- Hp.
  - by rewrite <- Hp.
Qed.

(** What NewVerified establishes. *)
Record verified_wf (v : Verified) : Prop := {
  vw_sorted : StronglySorted factor_le (v_factors v);
  vw_shape : verified_shape (v_factors v) (v_credentialID v) (v_identifies v) (v_provider v);
  vw_subject : Subject_IsZero (v_subject v) = false;
  vw_at : v_at v <> 0 }.

Lemma NewVerified_wf s v : NewVerified s = Ok v -> verified_wf v.
Proof.
  unfold NewVerified. intros H. go_cases.
  destruct (checkVerifiedShape _ _ _ _) eqn:E; go_cases. bools.
  apply checkVerifiedShape_None in E.
  split; simpl; rewrite ?canonTime_id; [apply sortFactors_sorted| |done|by bools].
  eapply verified_shape_perm; [|done]. symmetry. apply sortFactors_perm.
Qed.

Lemma verified_wf_set v : verified_wf v -> factor_set (v_factors v).
Proof. intros [? [] ? ?]. by split. Qed.

Lemma verified_wf_nonempty v : verified_wf v -> v_factors v <> [].
Proof.
  intros [_ [_ _ Hr _ _] _ _] Hnil. rewrite Hnil in Hr. unfold role_count in Hr.
  simpl in Hr. lia.
Qed.

Lemma run_ceremony_NewVerified c t v :
  run_ceremony c t = Ok v -> exists s, NewVerified s = Ok v.
Proof.
  unfold run_ceremony, Password, EmailLink, EmailCode, SMSCode, TOTP, RecoveryCode, primary,
    second, Federated, External, Passkey, PasskeyStepUp.
  intros H. destruct c; go_cases; eauto.
Qed.

Lemma run_ceremony_wf c t v : run_ceremony c t = Ok v -> verified_wf v.
Proof. intros [s H]%run_ceremony_NewVerified. by eapply NewVerified_wf. Qed.

#[export] Hint Resolve verified_wf_set run_ceremony_wf NewVerified_wf : egauth.

(** ** Lemmas on pending journeys: the invariant [pending_wf] and that every operation of
    internal/core/pending.go preserves it. *)

Lemma role_count_pos r fs f : f ∈ fs -> Role f = r -> role_count r fs <> 0%nat.
Proof.
  intros Hf <-. unfold role_count. intros H0%length_zero_iff_nil.
  assert (In f (List.filter (fun g => bool_decide (Role g = Role f)) fs)) as Hin
    by (apply filter_In; rewrite <- list_elem_of_In; by rewrite bool_decide_eq_true).
  by rewrite H0 in Hin.
Qed.

(** ** The instants of a journey *)
Lemma latest_fold m vs t0 :
  let t := fold_left (fun t v => if m v && time_After (v_at v) t then v_at v else t) vs t0 in
  t0 <= t /\ (forall v, v ∈ vs -> m v = true -> v_at v <= t) /\
  (t = t0 \/ exists v, v ∈ vs /\ m v = true /\ v_at v = t).
Proof.
  revert t0. induction vs as [|v vs IH]; intros t0; simpl.
  - split; [lia|]. split; [set_solver|]. auto.
  - set (t1 := if _ && _ then _ else _). specialize (IH t1). simpl in IH.
    assert (t0 <= t1 /\ (m v = true -> v_at v <= t1) /\ (t1 = t0 \/ m v = true /\ v_at v = t1)) as Ht1.
    { subst t1. unfold time_After. destruct (m v); simpl; [|split; [lia|]; split; [done|auto]].
      destruct (t0 <? v_at v) eqn:E; bools; (split; [lia|]; split; [lia|auto]). }
    destruct IH as (Ha & Hb & Hc). destruct Ht1 as (Hd & He & Hf). split; [lia|]. split.
    + intros w [->|Hw]%elem_of_cons Hm; [specialize (He Hm); lia|auto].
    + destruct Hc as [->|(w & ? & ? & ?)].
      * destruct Hf as [->|[? ?]]; [auto|]. right. exists v. split; [left|auto].
      * right. exists w. split; [right|]; auto.
Qed.

Lemma latest_ge m vs v : v ∈ vs -> m v = true -> v_at v <= latest m vs.
Proof. apply (latest_fold m vs time_zero). Qed.

Lemma latest_attained m vs :
  latest m vs = 0 \/ exists v, v ∈ vs /\ m v = true /\ v_at v = latest m vs.
Proof. apply (latest_fold m vs time_zero). Qed.

Lemma latest_nonneg m vs : 0 <= latest m vs.
Proof. apply (latest_fold m vs time_zero). Qed.

Lemma latest_none m vs : (forall v, v ∈ vs -> m v = false) -> latest m vs = 0.
Proof. intros H. destruct (latest_attained m vs) as [|(v & Hv & Hm & _)]; [done|]. rewrite (H v Hv) in Hm. done. Qed.

(** ** The factors and credentials of a journey *)
Lemma elem_of_fold_union f vs out :
  f ∈ fold_left (fun out v => unionFactors out (v_factors v)) vs out <->
  f ∈ out \/ exists v, v ∈ vs /\ f ∈ v_factors v.
Proof.
  revert out. induction vs as [|v vs IH]; intros out; simpl; [set_solver|].
  rewrite IH, elem_of_unionFactors. set_solver.
Qed.

Lemma elem_of_factorSet f p : f ∈ factorSet p <-> exists v, v ∈ p_verified p /\ f ∈ v_factors v.
Proof. unfold factorSet. rewrite elem_of_fold_union. set_solver. Qed.

Lemma factorSet_set p :
  (forall v, v ∈ p_verified p -> factor_set (v_factors v)) -> factor_set (factorSet p).
Proof.
  unfold factorSet. assert (factor_set []) as Hn by apply factor_set_nil. revert Hn.
  generalize (@nil Factor). induction (p_verified p) as [|v vs IH]; intros out Ho H; [done|].
  simpl. apply IH.
  - apply unionFactors_set; [apply Ho|]. apply H. left.
  - intros w ?. apply H. by right.
Qed.

Lemma elem_of_verified_uses u v :
  u ∈ verified_uses v <->
  v_credentialID v <> [] /\ cu_id u = v_credentialID v /\ cu_factor u ∈ v_factors v /\
  is_passkey_factor (cu_factor u) = true.
Proof.
  unfold verified_uses. case_bool_decide as Hc; [set_solver|].
  rewrite list_elem_of_fmap. setoid_rewrite list_elem_of_In. setoid_rewrite filter_In.
  destruct u as [f id]. simpl. split.
  - intros (g & [= -> ->] & ? & ?). auto.
  - intros (_ & -> & ? & ?). exists f. auto.
Qed.

Lemma elem_of_credentialUses u p :
  u ∈ credentialUses p <-> exists v, v ∈ p_verified p /\ u ∈ verified_uses v.
Proof.
  unfold credentialUses. rewrite list_elem_of_In, in_flat_map.
  setoid_rewrite <- list_elem_of_In. done.
Qed.

Lemma credentialUses_factor u p : u ∈ credentialUses p -> cu_factor u ∈ factorSet p.
Proof.
  rewrite elem_of_credentialUses, elem_of_factorSet. intros (v & ? & Hu).
  apply elem_of_verified_uses in Hu. naive_solver.
Qed.

(** No passkey credential serves both as the primary passkey and as a step-up. *)
Definition no_shared_credential (us : list credentialUse) : Prop :=
  forall id, mkCredentialUse FactorPasskey id ∈ us ->
             mkCredentialUse FactorPasskeyStepUp id ∉ us.

(** ** The invariant *)
Record verified_in (p : Pending) (v : Verified) : Prop := {
  vi_wf : verified_wf v;
  vi_subject : v_subject v = p_subject p;
  vi_at : 0 < v_at v < p_expiresAt p;
  vi_provider : v_provider v = "" \/ v_provider v = p_provider p }.

Record pending_wf (p : Pending) : Prop := {
  pw_version : p_version p = codecVersion;
  pw_tenant : tenant_wf (p_tenant p);
  pw_transport : Transport_Valid (p_transport p) = true;
  pw_expires : 0 < p_expiresAt p;
  pw_epoch : is_u64 (p_epochAtBind p);
  pw_bound : Bound p = true -> subject_wf (p_subject p) /\ Tenant (p_subject p) = p_tenant p;
  pw_unbound : Bound p = false -> p_subject p = zero_Subject /\ p_verified p = [];
  pw_verified : forall v, v ∈ p_verified p -> verified_in p v;
  pw_creds : no_shared_credential (credentialUses p);
  pw_reauth : uuid_ok (p_reauthOf p);
  pw_hash : p_bindHash p = [] \/ length (p_bindHash p) = 32%nat }.

Lemma NewPending_wf t rem rt tr pol now p :
  tenant_wf t -> 0 < now -> NewPending t rem rt tr pol now = Ok p -> pending_wf p.
Proof.
  unfold NewPending. intros Ht Hn H. go_cases; bools;
    (split; simpl; rewrite ?canonTime_id; unfold time_Add, PendingTTL, Minute, Second;
     try done; try lia; [set_solver|intros ? H'; by apply elem_of_nil in H'|by left]).
Qed.

Lemma Bind_wf p s st p' :
  pending_wf p -> subject_wf s -> is_u64 (epoch st) -> Bind p s st = Ok p' -> pending_wf p'.
Proof.
  unfold Bind. intros Hp Hs He H. go_cases. bools.
  match goal with G : Bound p = false |- _ => destruct (pw_unbound p Hp G) as [_ Hv] end.
  destruct Hp. split; simpl; try done; unfold Bound, credentialUses in *; simpl in *;
    rewrite ?Hv in *.
  - intros Hb. bools. congruence.
  - intros v Hin. by apply elem_of_nil in Hin.
Qed.

Lemma WithBindHash_wf p h p' : pending_wf p -> WithBindHash p h = Ok p' -> pending_wf p'.
Proof.
  unfold WithBindHash, bindHashLen. intros Hp H. go_cases. bools.
  destruct Hp. split; simpl; try done.
  - intros v Hv. by destruct (pw_verified0 v Hv).
  - right. lia.
Qed.

(** What a successful [Add] established and produced. *)
Record add_ok (p : Pending) (v : Verified) (st : AccountState) (p' : Pending) : Prop := {
  ao_version : p_version p <> 0;
  ao_factors : v_factors v <> [];
  ao_tenant : Tenant (v_subject v) = p_tenant p;
  ao_at : v_at v < p_expiresAt p;
  ao_bind :
    (Bound p = false /\ hasRole (v_factors v) RoleSecond = false /\ v_identifies v = true /\
     p_epochAtBind p' = epoch st) \/
    (Bound p = true /\ v_subject v = p_subject p /\ epoch st = p_epochAtBind p /\
     p_epochAtBind p' = p_epochAtBind p);
  ao_subject : p_subject p' = v_subject v;
  ao_creds : forall f, f ∈ v_factors v ->
    credentialClash (credentialUses p) f (v_credentialID v) = false;
  ao_provider :
    (v_provider v = "" /\ p_provider p' = p_provider p) \/
    (v_provider v <> "" /\ (p_provider p = "" \/ p_provider p = v_provider v) /\
     p_provider p' = v_provider v);
  ao_verified : p_verified p' = p_verified p ++ [v];
  ao_frame : p_version p' = p_version p /\ p_tenant p' = p_tenant p /\
    p_remember p' = p_remember p /\ p_returnTo p' = p_returnTo p /\
    p_transport p' = p_transport p /\ p_reauthOf p' = p_reauthOf p /\
    p_bindHash p' = p_bindHash p /\ p_expiresAt p' = p_expiresAt p }.

Lemma no_clash_iff cs v :
  existsb (fun f => credentialClash cs f (v_credentialID v)) (v_factors v) = false <->
  forall f, f ∈ v_factors v -> credentialClash cs f (v_credentialID v) = false.
Proof.
  rewrite <- not_true_iff_false, existsb_exists. setoid_rewrite <- list_elem_of_In. split.
  - intros H f Hf. apply not_true_iff_false. intros Ht. apply H. eauto.
  - intros H (f & Hf & Ht). rewrite (H f Hf) in Ht. done.
Qed.

Lemma Add_ok p v st p' : Add p v st = Ok p' -> add_ok p v st p'.
Proof.
  unfold Add. intros H. go_all;
    match goal with G : existsb _ _ = false |- _ => pose proof (proj1 (no_clash_iff _ _) G) end;
    split; simpl; auto 10; try (left; by auto); try (right; by auto).
  all: match goal with G : (_ && _) = false |- _ => apply andb_false_iff in G as [G|G]; bools end.
  all: right; auto.
Qed.

Lemma Add_creds p v st p' :
  no_shared_credential (credentialUses p) -> verified_wf v -> add_ok p v st p' ->
  no_shared_credential (credentialUses p ++ verified_uses v).
Proof.
  intros Hc Hv H id Hp Hs. pose proof (ao_creds _ _ _ _ H) as Hcl.
  apply elem_of_app in Hp as [Hp|Hp], Hs as [Hs|Hs].
  - by apply (Hc id).
  - apply elem_of_verified_uses in Hs as (_ & Hid & Hf & _). simpl in *. subst.
    apply Hcl, credentialClash_false in Hf as [_ Hf]. by apply Hf.
  - apply elem_of_verified_uses in Hp as (_ & Hid & Hf & _). simpl in *. subst.
    apply Hcl, credentialClash_false in Hf as [Hf _]. by apply Hf.
  - apply elem_of_verified_uses in Hp as (_ & _ & Hp & _).
    apply elem_of_verified_uses in Hs as (_ & _ & Hs & _). simpl in *.
    destruct Hv as [_ [_ _ Hr _ _] _ _].
    pose proof (role_count_pos RolePrimary _ _ Hp ltac:(by vm_compute)).
    pose proof (role_count_pos RoleSecond _ _ Hs ltac:(by vm_compute)). lia.
Qed.

Lemma Add_wf p v st p' :
  pending_wf p -> verified_wf v -> subject_wf (v_subject v) -> 0 < v_at v -> is_u64 (epoch st) ->
  Add p v st = Ok p' -> pending_wf p'.
Proof.
  intros Hp Hv Hs Ht He H%Add_ok. pose proof (Add_creds _ _ _ _ (pw_creds _ Hp) Hv H) as Hc.
  destruct H as [_ _ Hten Hat Hbind Hsub _ Hprov Hver (Hf1 & Hf2 & _ & _ & Hf5 & Hf6 & Hf7 & Hf8)].
  assert (Bound p' = true) as Hb
    by (unfold Bound; rewrite Hsub, (vw_subject _ Hv); done).
  split; rewrite ?Hf1, ?Hf2, ?Hf5, ?Hf6, ?Hf7, ?Hf8; try apply Hp.
  - destruct Hbind as [(_ & _ & _ & ->)|(_ & _ & _ & ->)]; [done|apply Hp].
  - intros _. rewrite Hsub. auto.
  - by rewrite Hb.
  - intros w. rewrite Hver, elem_of_app, list_elem_of_singleton. intros [Hw| ->].
    + destruct (pw_verified _ Hp w Hw) as [? Hw1 Hw2 Hw3].
      split; rewrite ?Hf8; auto.
      * destruct Hbind as [[Hu _]|(_ & Hu & _)]; [|congruence].
        apply (pw_unbound _ Hp) in Hu as [_ Hu]. rewrite Hu in Hw. by apply elem_of_nil in Hw.
      * destruct Hw3 as [?|Hw3]; [by left|].
        destruct Hprov as [[_ ->]|(? & [Hpp|Hpp] & ->)]; [by right| |right; congruence].
        left. congruence.
    + split; rewrite ?Hf8; auto.
      destruct Hprov as [[? _]|(_ & _ & ->)]; auto.
  - unfold credentialUses. rewrite Hver, flat_map_app. simpl. by rewrite app_nil_r.
Qed.

#[export] Hint Resolve NewPending_wf Bind_wf WithBindHash_wf Add_wf : egauth.
