(* ===== verification/SessionFacts.v ===== *)
(** Lemmas on the transitions of internal/core/transitions.go: what each established when it
    succeeded, and that it keeps the session invariant [attrs_wf]. *)
From S2P Require Import Prelude Errors Tenant Factor Attrs Pending Transitions VerifiedFacts.
From S2P Require Import VerifiedFacts.

(** The invariant of session attributes. *)
Record attrs_wf (a : SessionAttrs) : Prop := {
  aw_version : a_version a = codecVersion;
  aw_lineage : a_lineage a <> uuid_Nil /\ uuid_ok (a_lineage a);
  aw_subject : subject_wf (a_subject a) /\ Subject_IsZero (a_subject a) = false;
  aw_factors : factor_set (a_factors a);
  aw_primary : hasRole (a_factors a) RolePrimary = true;
  aw_creds : forall u, u ∈ a_credentialIDs a ->
    is_passkey_factor (cu_factor u) = true /\ cu_id u <> [] /\ cu_factor u ∈ a_factors a;
  aw_transport : Transport_Valid (a_transport a) = true;
  aw_epoch : is_u64 (a_epoch a) }.

Lemma PendingForReauth_wf a now :
  attrs_wf a -> 0 < now -> pending_wf (PendingForReauth a now).
Proof.
  intros Ha Hn. unfold PendingForReauth. rewrite (aw_version _ Ha). simpl.
  destruct Ha as [_ [_ ?] [[? ?] Hz] _ _ _ ? ?].
  split; simpl; rewrite ?canonTime_id; try done; unfold time_Add, PendingTTL, Minute, Second.
  - lia.
  - unfold Bound. simpl. rewrite Hz. done.
  - intros v Hv. by apply elem_of_nil in Hv.
  - intros id Hv. by apply elem_of_nil in Hv.
  - by left.
Qed.

(** ** Admit *)

(** The guards of [Admit] that lead past every refusal. *)
Record admissible (p : Pending) (st : AccountState) (mfa : MFADecision) (now : time) : Prop := {
  adm_version : p_version p <> 0;
  adm_transport : Transport_Valid (p_transport p) = true;
  adm_loaded : loaded mfa = true;
  adm_now : now <> 0;
  adm_unexpired : now < p_expiresAt p;
  adm_bound : Bound p = true;
  adm_login : p_reauthOf p = uuid_Nil;
  adm_primary : hasRole (factorSet p) RolePrimary = true;
  adm_usable : Usable st = true;
  adm_epoch : epoch st = p_epochAtBind p }.

Definition admitted (lineage : uuid) (p : Pending) (st : AccountState) (now : time) : SessionAttrs :=
  mkSessionAttrs codecVersion lineage (p_subject p) (factorSet p) (credentialUses p)
    (primaryAt p) (secondAt p) (epoch st) (mustChange st) (p_remember p)
    (p_returnTo p) (p_transport p) (p_provider p) now now.

Lemma Admit_Ok lineage p st mfa now adm :
  Admit lineage p st mfa now = Ok adm <->
  admissible p st mfa now /\
  adm = (if Required mfa && negb (multiFactor (factorSet p))
         then mkAdmission zero_SessionAttrs p (enrolled mfa) false
         else mkAdmission (admitted lineage p st now) zero_Pending [] true).
Proof.
  split.
  - unfold Admit. intros H. rewrite canonTime_id in H. unfold MFADecision_IsZero in H.
    go_cases; bools.
    all: destruct (Required mfa && negb (multiFactor (factorSet p))) eqn:E; go_cases.
    all: split; [by split|done].
  - intros [[] ->]. unfold Admit, MFADecision_IsZero, time_IsZero, time_Before.
    rewrite canonTime_id.
    rewrite (proj2 (Z.eqb_neq _ _) adm_version0), adm_transport0, adm_loaded0,
      (proj2 (Z.eqb_neq _ _) adm_now0), (proj2 (Z.ltb_lt _ _) adm_unexpired0), adm_bound0,
      adm_login0, adm_primary0, adm_usable0, adm_epoch0, !Z.eqb_refl. simpl.
    unfold admitted. rewrite adm_epoch0. by case_match.
Qed.

Lemma Admit_session lineage p st mfa now adm a :
  Admit lineage p st mfa now = Ok adm -> Session adm = Some a ->
  admissible p st mfa now /\ a = admitted lineage p st now /\
  (Required mfa = true -> multiFactor (factorSet p) = true).
Proof.
  intros [Ha ->]%Admit_Ok. unfold Session. destruct (Required mfa && _) eqn:E; simpl; [done|].
  intros [= <-]. split; [done|]. split; [done|]. intros Hr. rewrite Hr in E. simpl in E. by bools.
Qed.

Lemma primaryAt_pos p :
  pending_wf p -> hasRole (factorSet p) RolePrimary = true -> 0 < primaryAt p.
Proof.
  intros Hp [f [Hf Hr]]%hasRole_true. apply elem_of_factorSet in Hf as (v & Hv & Hf).
  pose proof (vi_at _ _ (pw_verified _ Hp v Hv)).
  assert (is_primary_verification v = true) as Hm by (apply hasRole_true; eauto).
  pose proof (latest_ge _ _ _ Hv Hm). unfold primaryAt. lia.
Qed.

Lemma pending_factorSet_set p : pending_wf p -> factor_set (factorSet p).
Proof.
  intros Hp. apply factorSet_set. intros v Hv.
  apply verified_wf_set, (vi_wf _ _ (pw_verified _ Hp v Hv)).
Qed.

Lemma pending_use_ok p u :
  u ∈ credentialUses p ->
  is_passkey_factor (cu_factor u) = true /\ cu_id u <> [] /\ cu_factor u ∈ factorSet p.
Proof.
  intros Hu. pose proof (credentialUses_factor _ _ Hu).
  apply elem_of_credentialUses in Hu as (v & _ & (? & Hid & _ & ?)%elem_of_verified_uses).
  rewrite Hid. auto.
Qed.

Lemma Admit_wf lineage p st mfa now adm a :
  pending_wf p -> lineage <> uuid_Nil -> uuid_ok lineage ->
  Admit lineage p st mfa now = Ok adm -> Session adm = Some a -> attrs_wf a.
Proof.
  intros Hp Hl1 Hl2 Ha Hs. destruct (Admit_session _ _ _ _ _ _ _ Ha Hs) as ([] & -> & _).
  split; simpl; auto using pending_factorSet_set, pending_use_ok.
  - pose proof (pw_bound _ Hp adm_bound0) as [? _]. unfold Bound in *. by bools.
  - rewrite adm_epoch0. apply Hp.
Qed.

(** ** The transitions from session to session *)
Lemma checkBumped_Ok a st u :
  checkBumped a st = Ok u -> Usable st = true /\ epoch st = u64 (a_epoch a + 1).
Proof. unfold checkBumped. intros H. go_cases. bools. auto. Qed.

Lemma elem_of_append_uses us cs u :
  u ∈ fold_left append_use us cs <-> u ∈ cs \/ u ∈ us.
Proof.
  revert cs. induction us as [|w us IH]; intros cs; simpl; [set_solver|].
  rewrite IH. unfold append_use. case_match eqn:E; [|set_solver].
  apply existsb_exists in E as ([f id] & He & Hw). rewrite <- list_elem_of_In in He.
  apply andb_true_iff in Hw as [Hf Hi]. bools. destruct w as [wf wid]. simpl in *. subst.
  set_solver.
Qed.

(** What a successful [Reauthenticate] established. *)
Record reauthenticated (a : SessionAttrs) (p : Pending) (st : AccountState) (mfa : MFADecision)
    (now : time) (b : SessionAttrs) : Prop := {
  ra_lineage : p_reauthOf p = a_lineage a;
  ra_subject : p_subject p = a_subject a;
  ra_unexpired : now < p_expiresAt p;
  ra_primary : hasRole (factorSet p) RolePrimary = true;
  ra_usable : Usable st = true;
  ra_epoch : epoch st = a_epoch a /\ epoch st = p_epochAtBind p;
  ra_mfa : Required mfa = true -> multiFactor (factorSet p) = true;
  ra_factors : a_factors b = unionFactors (a_factors a) (factorSet p);
  ra_creds : a_credentialIDs b = fold_left append_use (credentialUses p) (a_credentialIDs a);
  ra_primaryAt : a_primaryAt b = primaryAt p;
  ra_secondAt : a_secondAt b = (if secondAt p =? 0 then a_secondAt a else secondAt p);
  ra_mustChange : a_mustChange b = a_mustChange a || mustChange st;
  ra_frame : a_version b = a_version a /\ a_lineage b = a_lineage a /\
    a_subject b = a_subject a /\ a_epoch b = a_epoch a /\ a_remember b = a_remember a /\
    a_returnTo b = a_returnTo a /\ a_transport b = a_transport a /\
    a_provider b = a_provider a /\ a_createdAt b = a_createdAt a /\
    a_claimsFetchedAt b = a_claimsFetchedAt a }.

Lemma Reauthenticate_Ok a p st mfa now b :
  Reauthenticate a p st mfa now = Ok b -> reauthenticated a p st mfa now b.
Proof.
  unfold Reauthenticate, time_IsZero. intros H. go_cases. bools.
  assert (Required mfa = true -> multiFactor (factorSet p) = true) as Hm.
  { intros Hr. rewrite Hr in *. simpl in *. by bools. }
  destruct (secondAt p =? 0) eqn:E; split; simpl; rewrite ?E; auto 20.
Qed.

Lemma Reauthenticate_wf a p st mfa now b :
  attrs_wf a -> pending_wf p -> Reauthenticate a p st mfa now = Ok b -> attrs_wf b.
Proof.
  intros Ha Hp H%Reauthenticate_Ok.
  destruct H as [_ _ _ Hprim _ _ _ Hf Hc Hpa _ _ (F1 & F2 & F3 & F4 & _ & _ & F7 & _)].
  split; rewrite ?F1, ?F2, ?F3, ?F4, ?F7, ?Hf; try apply Ha.
  - apply unionFactors_set; [apply Ha|]. by apply pending_factorSet_set.
  - by apply hasRole_union_l, Ha.
  - intros u. rewrite Hc, elem_of_append_uses, elem_of_unionFactors. intros [Hu|Hu].
    + destruct (aw_creds _ Ha u Hu) as (? & ? & ?). auto.
    + destruct (pending_use_ok _ _ Hu) as (? & ? & ?). auto.
Qed.

Lemma FactorEnrolled_Ok a f st b :
  FactorEnrolled a f st = Ok b ->
  Role f = RoleSecond /\ Usable st = true /\ epoch st = u64 (a_epoch a + 1) /\
  b = set_mustChange (a_mustChange a || mustChange st)
        (set_epoch (epoch st) (set_factors (unionFactors (a_factors a) [f]) a)).
Proof.
  unfold FactorEnrolled. intros H. go_cases. bools.
  match goal with G : checkBumped _ _ = Ok _ |- _ => apply checkBumped_Ok in G as [? ?] end.
  auto.
Qed.

Lemma add_factor_creds a f :
  attrs_wf a -> forall u, u ∈ a_credentialIDs a ->
  is_passkey_factor (cu_factor u) = true /\ cu_id u <> [] /\
  cu_factor u ∈ unionFactors (a_factors a) [f].
Proof.
  intros Ha u Hu. destruct (aw_creds _ Ha u Hu) as (? & ? & ?).
  rewrite elem_of_unionFactors. auto.
Qed.

Lemma add_factor_set a f :
  attrs_wf a -> Valid f = true -> factor_set (unionFactors (a_factors a) [f]).
Proof.
  intros Ha Hv. apply unionFactors_set; [apply Ha|]. by apply Forall_singleton.
Qed.

Lemma FactorEnrolled_wf a f st b :
  attrs_wf a -> FactorEnrolled a f st = Ok b -> attrs_wf b.
Proof.
  intros Ha (Hr & _ & He & ->)%FactorEnrolled_Ok.
  assert (Valid f = true) by (by eapply Role_valid).
  split; simpl; try apply Ha; auto using add_factor_set, add_factor_creds.
  - by apply hasRole_union_l, Ha.
  - rewrite He. apply u64_range.
Qed.

Lemma PasswordChanged_Ok a st now b :
  PasswordChanged a st now = Ok b ->
  now <> 0 /\ Usable st = true /\ epoch st = u64 (a_epoch a + 1) /\
  b = set_epoch (epoch st) (set_mustChange false (set_primaryAt now
        (set_factors (unionFactors (a_factors a) [FactorPassword]) a))).
Proof.
  unfold PasswordChanged. rewrite canonTime_id. intros H. go_cases. bools.
  match goal with G : checkBumped _ _ = Ok _ |- _ => apply checkBumped_Ok in G as [? ?] end.
  auto.
Qed.

Lemma PasswordChanged_wf a st now b :
  attrs_wf a -> PasswordChanged a st now = Ok b -> attrs_wf b.
Proof.
  intros Ha (_ & _ & He & ->)%PasswordChanged_Ok.
  split; simpl; try apply Ha; auto using add_factor_creds.
  - apply add_factor_set; [done|by vm_compute].
  - by apply hasRole_union_l, Ha.
  - rewrite He. apply u64_range.
Qed.

Lemma Renew_Ok a st mfa claims now b :
  Renew a st mfa claims now = Ok b ->
  Usable st = true /\ a_epoch a = epoch st /\
  (Required mfa = true -> multiFactor (a_factors a) = true) /\
  (claims = ClaimsRefreshed \/ claims = ClaimsKeptStale) /\
  b = set_mustChange (a_mustChange a || mustChange st)
        (if claims =? ClaimsRefreshed then set_claimsFetchedAt now a else a).
Proof.
  unfold Renew. rewrite canonTime_id. intros H.
  assert (Required mfa = true -> multiFactor (a_factors a) = true) as Hm
    by (go_all; intros Hr; rewrite Hr in *; simpl in *; by bools).
  go_all; subst; simpl; auto 10.
Qed.

Lemma Renew_wf a st mfa claims now b :
  attrs_wf a -> Renew a st mfa claims now = Ok b -> attrs_wf b.
Proof.
  intros Ha (_ & _ & _ & _ & ->)%Renew_Ok. case_match; split; simpl; apply Ha.
Qed.

#[export] Hint Resolve PendingForReauth_wf Admit_wf Reauthenticate_wf FactorEnrolled_wf
  PasswordChanged_wf Renew_wf : egauth.
