(* ===== verification/Journey.v ===== *)
(** The authentication journey as a state machine: every pending a program can hold, every
    session it can hold, and the guarantees of the sealed session state.

    A journey starts with NewPending (login) or PendingForReauth and proceeds by Bind,
    WithBindHash and Add; Add only takes the result of a ceremony of internal/factors,
    the one builder of [Verified].  A session starts with Admit and proceeds by
    Reauthenticate, FactorEnrolled, PasswordChanged and Renew.  Clocks read instants after
    the zero time, epochs are uint64 values and subjects come from the identity store
    ([subject_wf]). *)
From S2P Require Import Prelude Errors Tenant Factor Attrs Pending Transitions Factors.
From S2P Require Import VerifiedFacts SessionFacts.

(** One operation on a pending. *)
Inductive pending_step (p : Pending) : Pending -> Prop :=
  | step_bind s st p' :
      subject_wf s -> is_u64 (epoch st) -> Bind p s st = Ok p' -> pending_step p p'
  | step_hash h p' : WithBindHash p h = Ok p' -> pending_step p p'
  | step_add c t v st p' :
      run_ceremony c t = Ok v -> subject_wf (v_subject v) -> 0 < t -> is_u64 (epoch st) ->
      Add p v st = Ok p' -> pending_step p p'.

(** The pendings of login and reauthentication journeys. *)
Inductive journey : Pending -> Prop :=
  | journey_login t rem rt tr pol now p :
      tenant_wf t -> 0 < now -> NewPending t rem rt tr pol now = Ok p -> journey p
  | journey_reauth a now : attrs_wf a -> 0 < now -> journey (PendingForReauth a now)
  | journey_step p p' : journey p -> pending_step p p' -> journey p'.

(** One transition of a session, with whether it is a password change. *)
Inductive session_step (a : SessionAttrs) : bool -> SessionAttrs -> Prop :=
  | step_reauth p st mfa now b :
      journey p -> Reauthenticate a p st mfa now = Ok b -> session_step a false b
  | step_enrolled f st b : FactorEnrolled a f st = Ok b -> session_step a false b
  | step_password st now b : PasswordChanged a st now = Ok b -> session_step a true b
  | step_renew st mfa cl now b : Renew a st mfa cl now = Ok b -> session_step a false b.

Inductive session : SessionAttrs -> Prop :=
  | session_admit lineage p st mfa now adm a :
      journey p -> lineage <> uuid_Nil -> uuid_ok lineage ->
      Admit lineage p st mfa now = Ok adm -> Session adm = Some a -> session a
  | session_next a pw b : session a -> session_step a pw b -> session b.

Lemma run_ceremony_at c t v : run_ceremony c t = Ok v -> v_at v = t.
Proof.
  intros H. unfold run_ceremony, Password, EmailLink, EmailCode, SMSCode, TOTP, RecoveryCode,
    primary, second, Federated, External, Passkey, PasskeyStepUp, NewVerified in H.
  destruct c; go_cases; destruct (checkVerifiedShape _ _ _ _) in *; go_cases; apply canonTime_id.
Qed.

Lemma pending_step_wf p p' : pending_wf p -> pending_step p p' -> pending_wf p'.
Proof.
  intros Hp []; eauto with egauth. eapply Add_wf; eauto with egauth.
  by erewrite run_ceremony_at.
Qed.

Lemma journey_wf p : journey p -> pending_wf p.
Proof. induction 1; eauto using pending_step_wf with egauth. Qed.

Lemma session_step_wf a pw b : attrs_wf a -> session_step a pw b -> attrs_wf b.
Proof. intros Ha []; eauto using journey_wf with egauth. Qed.

Lemma session_wf a : session a -> attrs_wf a.
Proof. induction 1; eauto using session_step_wf, journey_wf with egauth. Qed.

(** ** The fields a step never changes *)
Definition same_identity (a b : SessionAttrs) : Prop :=
  a_lineage b = a_lineage a /\ a_subject b = a_subject a /\ a_remember b = a_remember a /\
  a_returnTo b = a_returnTo a /\ a_transport b = a_transport a /\
  a_provider b = a_provider a /\ a_createdAt b = a_createdAt a.

Lemma session_step_identity a pw b :
  session_step a pw b -> same_identity a b /\ a_factors a ⊆ a_factors b.
Proof.
  assert (forall fs gs, fs ⊆ unionFactors fs gs) as Hu
    by (intros fs gs f; rewrite elem_of_unionFactors; auto).
  unfold same_identity. intros [p st mfa now c _ H|f st c H|st now c H|st mfa cl now c H].
  - apply Reauthenticate_Ok in H as [_ _ _ _ _ _ _ -> _ _ _ _ Hf]. split; [tauto|apply Hu].
  - apply FactorEnrolled_Ok in H as (_ & _ & _ & ->). simpl. split; [tauto|apply Hu].
  - apply PasswordChanged_Ok in H as (_ & _ & _ & ->). simpl. split; [tauto|apply Hu].
  - apply Renew_Ok in H as (_ & _ & _ & _ & ->). case_match; simpl; split; done.
Qed.

Lemma session_step_mustChange a b :
  session_step a false b -> a_mustChange a = true -> a_mustChange b = true.
Proof.
  intros H Ha. inversion H as [p st mfa now c _ E|f st c E| |st mfa cl now c E]; subst.
  - apply Reauthenticate_Ok, ra_mustChange in E. by rewrite E, Ha.
  - apply FactorEnrolled_Ok in E as (_ & _ & _ & ->). simpl. by rewrite Ha.
  - apply Renew_Ok in E as (_ & _ & _ & _ & ->). simpl. by rewrite Ha.
Qed.

(** The steps of a session, password changes recorded. *)
Inductive session_steps : SessionAttrs -> list bool -> SessionAttrs -> Prop :=
  | steps_refl a : session_steps a [] a
  | steps_cons a pw b pws c :
      session_step a pw b -> session_steps b pws c -> session_steps a (pw :: pws) c.

Lemma same_identity_trans a b c : same_identity a b -> same_identity b c -> same_identity a c.
Proof. unfold same_identity. intuition congruence. Qed.

Lemma session_steps_identity a pws b :
  session_steps a pws b -> same_identity a b /\ a_factors a ⊆ a_factors b.
Proof.
  induction 1 as [|a pw b pws c H1 _ [IH1 IH2]]; [done|].
  apply session_step_identity in H1 as [H1 H2].
  split; [by eapply same_identity_trans|set_solver].
Qed.

Lemma session_steps_mustChange a pws b :
  session_steps a pws b -> Forall (eq false) pws -> a_mustChange a = true -> a_mustChange b = true.
Proof.
  induction 1 as [|a pw b pws c H1 _ IH]; [done|]. intros Hf Ha.
  apply Forall_cons in Hf as [<- Hf]. eauto using session_step_mustChange.
Qed.

(** ** Concrete values the witnesses evaluate on: a tenant, a user, a login journey that verifies
    a password and then a TOTP code, and the session it is admitted to. *)

(** [get_ok d m] is the value of a successful result. *)
Definition get_ok {A} (d : A) (m : res A) : A := match m with Ok a => a | Err _ => d end.

Definition acme : TenantID := mkTenantID "acme".

Definition ada : Subject := mkSubject acme 7.

(** 2026-01-01 or so, in nanoseconds since year 1. *)
Definition now0 : time := 63902908800 * Second.

Definition st0 : AccountState := NewAccountState true false false false true 3.

Definition st1 : AccountState := NewAccountState true false false false true 4.

Definition mfa_none : MFADecision := NewMFADecision [].

Definition mfa_totp : MFADecision := NewMFADecision [FactorTOTP; FactorRecoveryCode].

Definition login0 : Pending :=
  get_ok zero_Pending (NewPending acme RememberRequested "/home" TransportCookies
                         RememberUserChoice now0).

Definition v_pwd : Verified :=
  get_ok (mkVerified zero_Subject [] [] false "" 0) (Password ada (now0 + Second)).

Definition v_totp : Verified :=
  get_ok (mkVerified zero_Subject [] [] false "" 0) (TOTP ada (now0 + 2 * Second)).

Definition login1 : Pending := get_ok zero_Pending (Add login0 v_pwd st0).

Definition login2 : Pending := get_ok zero_Pending (Add login1 v_totp st0).

Definition adm0 : Admission :=
  get_ok (mkAdmission zero_SessionAttrs zero_Pending [] false)
    (Admit 99 login2 st0 mfa_totp (now0 + 3 * Second)).

Definition session0 : SessionAttrs := adm_attrs adm0.

(** A single-factor session of the same user. *)
Definition adm1 : Admission :=
  get_ok (mkAdmission zero_SessionAttrs zero_Pending [] false)
    (Admit 98 login1 st0 mfa_none (now0 + 3 * Second)).

Definition session1 : SessionAttrs := adm_attrs adm1.

(** A reauthentication of [session0] by password alone. *)
Definition reauth0 : Pending := PendingForReauth session0 (now0 + 100 * Second).

Definition v_pwd_again : Verified :=
  get_ok (mkVerified zero_Subject [] [] false "" 0) (Password ada (now0 + 101 * Second)).

Definition reauth1 : Pending := get_ok zero_Pending (Add reauth0 v_pwd_again st0).

Lemma acme_wf : tenant_wf acme.
Proof. right. vm_compute. reflexivity. Qed.

Lemma ada_wf : subject_wf ada.
Proof. split; [apply acme_wf|]. unfold uuid_ok. simpl. lia. Qed.

Lemma login0_journey : journey login0.
Proof.
  eapply (journey_login acme RememberRequested "/home" TransportCookies RememberUserChoice now0);
    [apply acme_wf|vm_compute; reflexivity|vm_compute; reflexivity].
Qed.

Lemma login1_journey : journey login1.
Proof.
  eapply journey_step; [apply login0_journey|].
  eapply (step_add _ (CPassword ada) (now0 + Second) v_pwd st0);
    [vm_compute; reflexivity|apply ada_wf|vm_compute; reflexivity|split; vm_compute; congruence|].
  vm_compute. reflexivity.
Qed.

Lemma login2_journey : journey login2.
Proof.
  eapply journey_step; [apply login1_journey|].
  eapply (step_add _ (CTOTP ada) (now0 + 2 * Second) v_totp st0);
    [vm_compute; reflexivity|apply ada_wf|vm_compute; reflexivity|split; vm_compute; congruence|].
  vm_compute. reflexivity.
Qed.

Lemma session0_session : session session0.
Proof.
  eapply (session_admit 99 login2 st0 mfa_totp (now0 + 3 * Second) adm0);
    [apply login2_journey|done|unfold uuid_ok; lia|vm_compute; reflexivity|vm_compute; reflexivity].
Qed.

Lemma session1_session : session session1.
Proof.
  eapply (session_admit 98 login1 st0 mfa_none (now0 + 3 * Second) adm1);
    [apply login1_journey|done|unfold uuid_ok; lia|vm_compute; reflexivity|vm_compute; reflexivity].
Qed.

Lemma reauth1_journey : journey reauth1.
Proof.
  eapply journey_step.
  - eapply (journey_reauth session0 (now0 + 100 * Second));
      [apply session_wf, session0_session|vm_compute; reflexivity].
  - eapply (step_add _ (CPassword ada) (now0 + 101 * Second) v_pwd_again st0);
      [vm_compute; reflexivity|apply ada_wf|vm_compute; reflexivity|split; vm_compute; congruence|].
    vm_compute. reflexivity.
Qed.
