(* ===== verification/CoreProperties.v ===== *)
(** The guarantees of the authentication core: what an admitted session proves, what later
    steps can and cannot change, and what is refused. *)
From S2P Require Import Prelude Errors Tenant Factor Attrs Pending Transitions Factors.
From S2P Require Import VerifiedFacts SessionFacts Journey.

(** ** Verifications *)

(** The factor slice of one ceremony. *)
Definition ceremony_factors (c : ceremony) : list Factor :=
  match c with
  | CPassword _ => [FactorPassword]
  | CEmailLink _ => [FactorEmailLink]
  | CEmailCode _ => [FactorEmailCode]
  | CSMSCode _ => [FactorSMSCode]
  | CFederated _ _ => [FactorFederated]
  | CExternal _ _ => [FactorExternal]
  | CPasskey _ _ => [FactorPasskey; FactorUserVerification]
  | CPasskeyStepUp _ _ => [FactorPasskeyStepUp]
  | CTOTP _ => [FactorTOTP]
  | CRecoveryCode _ => [FactorRecoveryCode]
  end.

Definition ceremony_subject (c : ceremony) : Subject :=
  match c with
  | CPassword s | CEmailLink s | CEmailCode s | CSMSCode s | CFederated s _ | CExternal s _
  | CTOTP s | CRecoveryCode s => s
  | CPasskey cr _ | CPasskeyStepUp cr _ => Owner cr
  end.

Definition ceremony_credential (c : ceremony) : bytes :=
  match c with CPasskey cr _ | CPasskeyStepUp cr _ => CredID cr | _ => [] end.

Definition ceremony_provider (c : ceremony) : string :=
  match c with
  | CFederated _ p => p
  | CExternal _ n => String.append ExternalProviderPrefix n
  | _ => ""
  end.

Definition ceremony_is_second (c : ceremony) : bool :=
  match c with CPasskeyStepUp _ _ | CTOTP _ | CRecoveryCode _ => true | _ => false end.

(** The preconditions of one ceremony. *)
Definition ceremony_ok (c : ceremony) : Prop :=
  match c with
  | CFederated _ p => p <> "" /\ HasPrefix p ExternalProviderPrefix = false
  | CExternal _ n => n <> ""
  | CPasskey cr fl | CPasskeyStepUp cr fl =>
      UserPresent fl = true /\ UserVerified fl = true /\ Suspended cr = false /\ CredID cr <> []
  | _ => True
  end.

Lemma checkPasskey_Ok cr fl u :
  checkPasskey cr fl = Ok u <->
  UserPresent fl = true /\ UserVerified fl = true /\ Suspended cr = false /\ CredID cr <> [].
Proof.
  destruct u. unfold checkPasskey.
  destruct (UserPresent fl), (UserVerified fl), (Suspended cr); simpl;
    try case_bool_decide; split; naive_solver.
Qed.

Lemma ceremony_shape c :
  ceremony_ok c ->
  checkVerifiedShape (ceremony_factors c) (ceremony_credential c) (negb (ceremony_is_second c))
    (ceremony_provider c) = None.
Proof.
  destruct c; simpl; intros H; try (vm_compute; reflexivity);
    try (destruct provider; [by destruct H|vm_compute; reflexivity]);
    (destruct cred as [o [|b bs] sus]; simpl in *; [naive_solver|vm_compute; reflexivity]).
Qed.

Lemma NewVerified_ceremony c t v :
  ceremony_ok c ->
  NewVerified (mkVerifiedSpec (ceremony_subject c) (ceremony_factors c) (ceremony_credential c)
                 (negb (ceremony_is_second c)) (ceremony_provider c) t) = Ok v <->
  User (ceremony_subject c) <> uuid_Nil /\ t <> 0 /\
  v = mkVerified (ceremony_subject c) (ceremony_factors c) (ceremony_credential c)
        (negb (ceremony_is_second c)) (ceremony_provider c) t.
Proof.
  intros Hok. unfold NewVerified. simpl. rewrite (ceremony_shape c Hok), canonTime_id.
  assert (sortFactors (ceremony_factors c) = ceremony_factors c) as -> by by destruct c.
  unfold Subject_IsZero, time_IsZero. case_bool_decide; simpl; [naive_solver|].
  destruct (t =? 0) eqn:E; bools; naive_solver.
Qed.

(** each ceremony of internal/factors succeeds exactly for a subject with a user, an
    instant that is set and its own preconditions (a named provider that is not reserved, a
    present and verified user, a credential that is not suspended and has an id), and then
    yields exactly its own factors, bound to its subject; only primary ceremonies identify,
    and only a primary passkey counts as multi-factor on its own. *)
Theorem ceremonies_yield_their_factors c t v :
  (run_ceremony c t = Ok v <->
   ceremony_ok c /\ User (ceremony_subject c) <> uuid_Nil /\ t <> 0 /\
   v = mkVerified (ceremony_subject c) (ceremony_factors c) (ceremony_credential c)
         (negb (ceremony_is_second c)) (ceremony_provider c) t) /\
  (multiFactor (ceremony_factors c) = true <-> exists cr fl, c = CPasskey cr fl).
Proof.
  split; [|destruct c; simpl; (split; [intros H; vm_compute in H|]); naive_solver].
  enough (run_ceremony c t = Ok v <-> ceremony_ok c /\
    NewVerified (mkVerifiedSpec (ceremony_subject c) (ceremony_factors c) (ceremony_credential c)
                 (negb (ceremony_is_second c)) (ceremony_provider c) t) = Ok v) as ->.
  { split; intros [Hok H]; (split; [done|]); by apply NewVerified_ceremony. }
  destruct c; simpl; unfold Password, EmailLink, EmailCode, SMSCode, TOTP, RecoveryCode,
    primary, second; try tauto; unfold Federated, External, Passkey, PasskeyStepUp.
  - case_bool_decide; [naive_solver|]. destruct (HasPrefix _ _); naive_solver.
  - case_bool_decide; naive_solver.
  - rewrite <- (checkPasskey_Ok cred flags tt).
    destruct (checkPasskey cred flags) as [[]|e]; simpl; naive_solver.
  - rewrite <- (checkPasskey_Ok cred flags tt).
    destruct (checkPasskey cred flags) as [[]|e]; simpl; naive_solver.
Qed.

(** ** Admission *)

Lemma pending_verified_second p v f :
  pending_wf p -> v ∈ p_verified p -> f ∈ v_factors v -> Role f = RoleSecond ->
  hasRole (v_factors v) RolePrimary = false.
Proof.
  intros Hp Hv Hf Hr. destruct (vi_wf _ _ (pw_verified _ Hp v Hv)) as [_ [_ _ Hs _ _] _ _].
  pose proof (role_count_pos _ _ _ Hf Hr).
  apply not_true_iff_false. intros (g & Hg & Hgr)%hasRole_true.
  pose proof (role_count_pos _ _ _ Hg Hgr). lia.
Qed.

(** A verification holding the passkey factor holds user verification too. *)
Lemma passkey_has_uv v : verified_wf v -> FactorPasskey ∈ v_factors v ->
  FactorUserVerification ∈ v_factors v.
Proof.
  intros [_ [_ Hval Hs _ _] _ _] Hpk.
  pose proof (role_count_pos RolePrimary _ _ Hpk ltac:(by vm_compute)).
  destruct Hs as [|(_ & _ & Hq)]; [lia|]. apply Hq in Hpk. unfold role_count in Hpk.
  destruct (List.filter _ _) as [|g [|]] eqn:E; try done.
  assert (In g (List.filter (fun f => bool_decide (Role f = RoleQualifier)) (v_factors v))) as Hg
    by (rewrite E; by left).
  apply filter_In in Hg as [Hg Hr]. rewrite <- list_elem_of_In in Hg. bools.
  rewrite Forall_forall in Hval. pose proof (valid_cases g (Hval g Hg)) as Hc.
  repeat (apply elem_of_cons in Hc as [->|Hc]; [by vm_compute in Hr|]). by apply elem_of_nil in Hc.
Qed.

(** The credential of a verification that holds a given passkey factor. *)
Lemma verified_use v f :
  verified_wf v -> f ∈ v_factors v -> is_passkey_factor f = true ->
  mkCredentialUse f (v_credentialID v) ∈ verified_uses v.
Proof.
  intros [_ [_ _ _ Hc _] _ _] Hf Hpk. apply elem_of_verified_uses. simpl.
  split; [|auto]. apply Hc. unfold is_passkey_factor in Hpk.
  apply orb_true_iff in Hpk as [?|?]; bools; subst; auto.
Qed.

(** A primary and a second verification of one journey never rest on the same credential. *)
Lemma distinct_credentials p v1 v2 :
  pending_wf p -> v1 ∈ p_verified p -> v2 ∈ p_verified p ->
  hasRole (v_factors v1) RolePrimary = true -> hasRole (v_factors v2) RoleSecond = true ->
  v_credentialID v1 = [] \/ v_credentialID v1 <> v_credentialID v2.
Proof.
  intros Hp H1 H2 (f & Hf & Hfr)%hasRole_true (g & Hg & Hgr)%hasRole_true.
  destruct (decide (v_credentialID v1 = [])) as [|Hne]; [by left|]. right. intros Heq.
  pose proof (vi_wf _ _ (pw_verified _ Hp v1 H1)) as W1.
  pose proof (vi_wf _ _ (pw_verified _ Hp v2 H2)) as W2.
  pose proof (pending_verified_second p v2 g Hp H2 Hg Hgr) as Hnp.
  assert (FactorPasskey ∈ v_factors v1) as Hpk.
  { destruct (proj1 (vsh_cred _ _ _ _ (vw_shape _ W1)) Hne) as [|Hs]; [done|].
    pose proof (pending_verified_second p v1 _ Hp H1 Hs ltac:(by vm_compute)) as Hc.
    assert (hasRole (v_factors v1) RolePrimary = true) by (apply hasRole_true; eauto). congruence. }
  assert (FactorPasskeyStepUp ∈ v_factors v2) as Hsu.
  { rewrite Heq in Hne. destruct (proj1 (vsh_cred _ _ _ _ (vw_shape _ W2)) Hne) as [Hc|]; [|done].
    assert (hasRole (v_factors v2) RolePrimary = true)
      by (apply hasRole_true; exists FactorPasskey; split; [done|by vm_compute]). congruence. }
  apply (pw_creds _ Hp (v_credentialID v1)).
  - apply elem_of_credentialUses. exists v1. split; [done|]. by apply verified_use.
  - apply elem_of_credentialUses. exists v2. split; [done|]. rewrite Heq. by apply verified_use.
Qed.

(** C40: every pending of a journey and every session a program can hold is well formed:
    factors are valid, ordered and without duplicates, a session has a primary factor, a
    lineage, a user and a passkey use only for a factor it holds, and a pending holds only
    verifications of its own bound subject, taken before it expires, with no passkey
    credential used both as primary passkey and as step-up. *)
Theorem reachable_states_well_formed :
  (forall p, journey p -> pending_wf p) /\ (forall a, session a -> attrs_wf a).
Proof. split; [apply journey_wf|apply session_wf]. Qed.

Lemma reachable_states_well_formed_witness : pending_wf login2 /\ attrs_wf session0.
Proof.
  split; [apply (proj1 reachable_states_well_formed), login2_journey
         |apply (proj2 reachable_states_well_formed), session0_session].
Defined.

(** C2: a session admitted from a journey holds exactly the factors verified in that journey,
    every one of them verified for the session's own subject before the journey expired;
    the account was usable at the epoch recorded when the journey was bound, which is the
    session's epoch; the must-change flag is the account's; and the journey was a login, not
    a reauthentication. *)
Theorem admitted_session_is_proved lineage p st mfa now adm a :
  journey p -> Admit lineage p st mfa now = Ok adm -> Session adm = Some a ->
  (forall f, f ∈ a_factors a <->
     exists v, v ∈ p_verified p /\ v_subject v = a_subject a /\ v_at v < p_expiresAt p /\
       f ∈ v_factors v) /\
  hasRole (a_factors a) RolePrimary = true /\ User (a_subject a) <> uuid_Nil /\
  Tenant (a_subject a) = p_tenant p /\
  Usable st = true /\ epoch st = p_epochAtBind p /\ a_epoch a = epoch st /\
  a_mustChange a = mustChange st /\ a_lineage a = lineage /\
  now < p_expiresAt p /\ p_reauthOf p = uuid_Nil.
Proof.
  intros Hj%journey_wf Ha Hs. destruct (Admit_session _ _ _ _ _ _ _ Ha Hs) as (Had & -> & _).
  pose proof (adm_bound _ _ _ _ Had) as Hb. destruct (pw_bound _ Hj Hb) as [_ Ht]. simpl.
  split_and!; try done; try apply Had.
  - intros f. rewrite elem_of_factorSet. split.
    + intros (v & Hv & Hf). exists v. destruct (pw_verified _ Hj v Hv). split_and!; try done; lia.
    + intros (v & Hv & _ & _ & Hf). eauto.
  - unfold Bound, Subject_IsZero in Hb. by bools.
Qed.

Lemma admitted_session_is_proved_witness :
  journey login2 /\ Admit 99 login2 st0 mfa_totp (now0 + 3 * Second) = Ok adm0 /\
  hasRole (a_factors session0) RolePrimary = true.
Proof.
  split_and!; [apply login2_journey|vm_compute; reflexivity|].
  eapply (admitted_session_is_proved 99 login2 st0 mfa_totp (now0 + 3 * Second) adm0 session0);
    [apply login2_journey|vm_compute; reflexivity|vm_compute; reflexivity].
Defined.

(** A multi-factor journey holds a passkey ceremony with user verification, or a primary and a
    second ceremony with different credentials. *)
Lemma multiFactor_ceremonies p :
  pending_wf p -> multiFactor (factorSet p) = true ->
  (exists v, v ∈ p_verified p /\ FactorPasskey ∈ v_factors v /\
     FactorUserVerification ∈ v_factors v) \/
  (exists v1 v2, v1 ∈ p_verified p /\ v2 ∈ p_verified p /\
     hasRole (v_factors v1) RolePrimary = true /\ hasRole (v_factors v2) RoleSecond = true /\
     hasRole (v_factors v2) RolePrimary = false /\
     (v_credentialID v1 = [] \/ v_credentialID v1 <> v_credentialID v2)).
Proof.
  intros Hj Hm. apply multiFactor_true in Hm as [(f & g & Hf & Hg & Hfr & Hgr)|[Hpk _]]; [right|left].
  - apply elem_of_factorSet in Hf as (v1 & H1 & Hf), Hg as (v2 & H2 & Hg).
    assert (hasRole (v_factors v1) RolePrimary = true) by (apply hasRole_true; eauto).
    assert (hasRole (v_factors v2) RoleSecond = true) by (apply hasRole_true; eauto).
    exists v1, v2. split_and!; eauto using pending_verified_second, distinct_credentials.
  - apply elem_of_factorSet in Hpk as (v & Hv & Hpk). exists v.
    split_and!; [done..|]. apply passkey_has_uv; [|done].
    apply (vi_wf p), (pw_verified _ Hj), Hv.
Qed.

(** C1: when the persisted enrollment requires a second factor, a session is admitted only if
    the journey verified a passkey with user verification, or a primary factor in one
    ceremony and a second factor in another ceremony that did not use the same credential;
    otherwise the admission carries the pending and the enrolled factors, and no session. *)
Theorem mfa_needs_two_factors lineage p st mfa now adm :
  journey p -> Required mfa = true -> Admit lineage p st mfa now = Ok adm ->
  match Session adm with
  | Some a =>
      (exists v, v ∈ p_verified p /\ FactorPasskey ∈ v_factors v /\
         FactorUserVerification ∈ v_factors v) \/
      (exists v1 v2, v1 ∈ p_verified p /\ v2 ∈ p_verified p /\
         hasRole (v_factors v1) RolePrimary = true /\ hasRole (v_factors v2) RoleSecond = true /\
         hasRole (v_factors v2) RolePrimary = false /\
         (v_credentialID v1 = [] \/ v_credentialID v1 <> v_credentialID v2))
  | None => NeedsFactor adm = Some (p, enrolled mfa)
  end.
Proof.
  intros Hj%journey_wf Hr Ha. destruct (Session adm) as [a|] eqn:Hs.
  - destruct (Admit_session _ _ _ _ _ _ _ Ha Hs) as (_ & _ & Hm).
    apply multiFactor_ceremonies; [done|]. by apply Hm.
  - apply Admit_Ok in Ha as [Had ->]. unfold Session, NeedsFactor in *.
    rewrite Hr in *. destruct (multiFactor (factorSet p)); simpl in *; [done|].
    by rewrite (proj2 (Z.eqb_neq _ _) (adm_version _ _ _ _ Had)).
Qed.

Lemma mfa_needs_two_factors_witness :
  Required mfa_totp = true /\
  match Session (get_ok adm0 (Admit 99 login1 st0 mfa_totp (now0 + 3 * Second))) with
  | Some _ => False
  | None => NeedsFactor (get_ok adm0 (Admit 99 login1 st0 mfa_totp (now0 + 3 * Second)))
            = Some (login1, enrolled mfa_totp)
  end.
Proof.
  split; [vm_compute; reflexivity|].
  pose proof (mfa_needs_two_factors 99 login1 st0 mfa_totp (now0 + 3 * Second)
    (get_ok adm0 (Admit 99 login1 st0 mfa_totp (now0 + 3 * Second))) login1_journey) as H.
  specialize (H ltac:(vm_compute; reflexivity) ltac:(vm_compute; reflexivity)).
  destruct (Session _) eqn:E; [vm_compute in E; discriminate E|exact H].
Defined.

(** over any sequence of reauthentications, enrollments, password changes and renewals a
    session keeps its lineage, subject, remember-me choice, return target, transport,
    provider and admission time, never loses a factor, and keeps a pending must-change flag
    unless one of the steps was a password change. *)
Theorem session_state_is_replayed a pws b :
  session_steps a pws b ->
  same_identity a b /\ a_factors a ⊆ a_factors b /\
  (a_mustChange a = true -> a_mustChange b = false -> true ∈ pws).
Proof.
  intros H. destruct (session_steps_identity _ _ _ H) as [Hi Hf]. split_and!; [done..|].
  intros Ha Hb. destruct (decide (true ∈ pws)) as [|Hn]; [done|]. exfalso.
  assert (a_mustChange b = true); [|congruence].
  apply (session_steps_mustChange _ _ _ H); [|done]. apply Forall_forall. intros [] Hx; done.
Qed.

Lemma session_state_is_replayed_witness :
  a_factors session0 ⊆ a_factors (get_ok session0 (PasswordChanged session0 st1 (now0 + 5 * Second))).
Proof.
  eapply (session_state_is_replayed session0 [true]). econstructor; [|constructor].
  eapply (step_password _ st1 (now0 + 5 * Second)); vm_compute; reflexivity.
Defined.

(** ** Freshness *)

(** reauthenticating a session that holds a second factor or is multi-factor with
    ceremonies that verify no second factor (a password alone) leaves its second-factor
    instant unchanged, so the session is fresh afterwards only if the second factor it
    already had is still recent enough (C-44). *)
Theorem password_alone_never_refreshes_mfa a p st mfa now b d later :
  Reauthenticate a p st mfa now = Ok b ->
  (forall v, v ∈ p_verified p -> is_second_verification v = false) ->
  hasRole (a_factors a) RoleSecond || MultiFactor a = true ->
  a_secondAt b = a_secondAt a /\
  (FreshWithin b d later = true -> a_secondAt a <> 0 /\ time_Sub later (a_secondAt a) <= d).
Proof.
  intros H%Reauthenticate_Ok Hv Hm. pose proof (ra_secondAt _ _ _ _ _ _ H) as Hs.
  assert (secondAt p = 0) as Hz by (by apply latest_none). rewrite Hz in Hs. simpl in Hs.
  split; [done|]. rewrite <- Hs. intros (_ & _ & _ & Hf)%FreshWithin_true. apply Hf.
  rewrite (ra_factors _ _ _ _ _ _ H). unfold MultiFactor in Hm.
  apply orb_true_iff in Hm as [Hm|Hm]; apply orb_true_iff; [left; by apply hasRole_union_l|right].
  eapply multiFactor_mono; [|done]. intros f. rewrite elem_of_unionFactors. auto.
Qed.

Lemma password_alone_never_refreshes_mfa_witness :
  is_Ok (Reauthenticate session0 reauth1 st0 mfa_none (now0 + 102 * Second)) /\
  a_secondAt (get_ok session0 (Reauthenticate session0 reauth1 st0 mfa_none (now0 + 102 * Second)))
  = a_secondAt session0.
Proof.
  split; [eexists; vm_compute; reflexivity|].
  eapply (password_alone_never_refreshes_mfa session0 reauth1 st0 mfa_none (now0 + 102 * Second)
    _ 60 0); [vm_compute; reflexivity| |vm_compute; reflexivity].
  intros v Hv. assert (p_verified reauth1 = [v_pwd_again]) as E by (vm_compute; reflexivity).
  rewrite E in Hv. apply list_elem_of_singleton in Hv as ->. vm_compute. reflexivity.
Defined.

(** enrolling a second factor adds exactly that factor, stamps the bumped epoch and leaves
    both instants unchanged, so the enrolling session is not fresh until it verifies a second
    factor: it is never fresh when it had no second-factor instant (C-45). *)
Theorem enrolling_does_not_refresh a f st b :
  FactorEnrolled a f st = Ok b ->
  (forall g, g ∈ a_factors b <-> g ∈ a_factors a \/ g = f) /\
  a_primaryAt b = a_primaryAt a /\ a_secondAt b = a_secondAt a /\
  a_epoch b = u64 (a_epoch a + 1) /\ epoch st = u64 (a_epoch a + 1) /\
  (a_secondAt a = 0 -> forall d now, FreshWithin b d now = false).
Proof.
  intros (Hr & _ & He & ->)%FactorEnrolled_Ok. simpl.
  split_and!; try done.
  - intros g. rewrite elem_of_unionFactors, list_elem_of_singleton. done.
  - intros Hz d now. apply not_true_iff_false. intros (_ & _ & _ & Hf)%FreshWithin_true.
    simpl in Hf. destruct Hf as [Hf _]; [|done].
    apply orb_true_iff. left. apply hasRole_union_r, hasRole_true. exists f.
    split; [by left|done].
Qed.

Lemma enrolling_does_not_refresh_witness :
  is_Ok (FactorEnrolled session1 FactorTOTP st1) /\
  FreshWithin (get_ok session1 (FactorEnrolled session1 FactorTOTP st1)) Minute (now0 + 4 * Second)
  = false.
Proof.
  split; [eexists; vm_compute; reflexivity|].
  eapply (enrolling_does_not_refresh session1 FactorTOTP st1); vm_compute; reflexivity.
Defined.

(** ** Refusals *)

(** no transition succeeds against an account that is missing, disabled or deleted, nor
    against an account whose security epoch moved: Admit needs the epoch recorded at bind,
    Reauthenticate and Renew the session's epoch, and FactorEnrolled and PasswordChanged
    exactly the next one (uint64 arithmetic). *)
Theorem epoch_and_account_gate lineage a p f st mfa claims now :
  (is_Ok (Admit lineage p st mfa now) -> Usable st = true /\ epoch st = p_epochAtBind p) /\
  (is_Ok (Reauthenticate a p st mfa now) -> Usable st = true /\ epoch st = a_epoch a) /\
  (is_Ok (Renew a st mfa claims now) -> Usable st = true /\ epoch st = a_epoch a) /\
  (is_Ok (FactorEnrolled a f st) -> Usable st = true /\ epoch st = u64 (a_epoch a + 1)) /\
  (is_Ok (PasswordChanged a st now) -> Usable st = true /\ epoch st = u64 (a_epoch a + 1)).
Proof.
  split_and!; intros [b Hb].
  - apply Admit_Ok in Hb as [[] _]. auto.
  - apply Reauthenticate_Ok in Hb as [_ _ _ _ ? [? _]]. auto.
  - apply Renew_Ok in Hb as (? & ? & _). auto.
  - apply FactorEnrolled_Ok in Hb as (_ & ? & ? & _). auto.
  - apply PasswordChanged_Ok in Hb as (_ & ? & ? & _). auto.
Qed.

Lemma epoch_and_account_gate_witness :
  is_Ok (Renew session0 st0 mfa_totp ClaimsRefreshed (now0 + 9 * Second)) /\
  epoch st0 = a_epoch session0.
Proof.
  assert (is_Ok (Renew session0 st0 mfa_totp ClaimsRefreshed (now0 + 9 * Second))) as H
    by (eexists; vm_compute; reflexivity).
  split; [exact H|].
  apply (epoch_and_account_gate 99 session0 login2 FactorTOTP st0 mfa_totp ClaimsRefreshed
    (now0 + 9 * Second)), H.
Defined.

(** the zero values fail closed.  The zero MFADecision, the zero SessionAttrs, the zero
    Pending and the zero instant are refused by every transition that takes one, and the zero
    AccountState, an account that was never loaded, admits and renews nothing. *)
Theorem zero_values_fail_closed lineage a p f st mfa claims now :
  Admit lineage zero_Pending st mfa now = Err ErrInvalidArgument /\
  Admit lineage p st zero_MFADecision now = Err ErrInvalidArgument /\
  Admit lineage p st mfa time_zero = Err ErrInvalidArgument /\
  Reauthenticate zero_SessionAttrs p st mfa now = Err ErrInvalidArgument /\
  Reauthenticate a zero_Pending st mfa now = Err ErrInvalidArgument /\
  Reauthenticate a p st zero_MFADecision now = Err ErrInvalidArgument /\
  Renew zero_SessionAttrs st mfa claims now = Err ErrInvalidArgument /\
  Renew a st zero_MFADecision claims now = Err ErrInvalidArgument /\
  FactorEnrolled zero_SessionAttrs f st = Err ErrInvalidArgument /\
  PasswordChanged zero_SessionAttrs st now = Err ErrInvalidArgument /\
  (forall st0, exists_ st0 = false ->
     ~ is_Ok (Admit lineage p st0 mfa now) /\ ~ is_Ok (Reauthenticate a p st0 mfa now) /\
     ~ is_Ok (Renew a st0 mfa claims now) /\ ~ is_Ok (FactorEnrolled a f st0) /\
     ~ is_Ok (PasswordChanged a st0 now)).
Proof.
  assert (forall st0, exists_ st0 = false -> Usable st0 = false) as Hu
    by (intros st0 H; unfold Usable; by rewrite H).
  unfold Admit, Reauthenticate, Renew, FactorEnrolled, PasswordChanged, checkBumped,
    MFADecision_IsZero, time_IsZero, time_zero. simpl.
  rewrite ?orb_true_r. simpl. rewrite ?orb_true_r. split_and!; try done.
  intros st1 H. pose proof (Hu _ H) as Hx. rewrite Hx. simpl.
  split_and!; intros [b Hb]; go_cases.
Qed.

(** login and reauthentication journeys never cross.  A pending that can be admitted cannot
    reauthenticate any session, and a pending that reauthenticates a session was started for
    that very lineage, is bound to its subject and cannot be admitted. *)
Theorem journeys_never_cross lineage a p st mfa now st' mfa' now' :
  is_Ok (Reauthenticate a p st mfa now) ->
  p_reauthOf p = a_lineage a /\ p_subject p = a_subject a /\ a_lineage a <> uuid_Nil /\
  ~ is_Ok (Admit lineage p st' mfa' now').
Proof.
  intros [b Hb].
  assert (p_reauthOf p <> uuid_Nil) as Hn by (unfold Reauthenticate in Hb; go_cases; bools; done).
  apply Reauthenticate_Ok in Hb as []. split_and!; try done; [congruence|].
  intros [adm [Ha _]%Admit_Ok]. by apply adm_login in Ha.
Qed.

Lemma journeys_never_cross_witness :
  is_Ok (Reauthenticate session0 reauth1 st0 mfa_none (now0 + 102 * Second)) /\
  ~ is_Ok (Admit 50 reauth1 st0 mfa_none (now0 + 102 * Second)).
Proof.
  assert (is_Ok (Reauthenticate session0 reauth1 st0 mfa_none (now0 + 102 * Second))) as H
    by (eexists; vm_compute; reflexivity).
  split; [exact H|].
  apply (journeys_never_cross 50 session0 reauth1 st0 mfa_none (now0 + 102 * Second)
    st0 mfa_none (now0 + 102 * Second) H).
Defined.

(** ** Sealed choices *)

Lemma pending_step_sealed p q :
  pending_step p q ->
  p_remember q = p_remember p /\ p_returnTo q = p_returnTo p /\ p_transport q = p_transport p /\
  p_tenant q = p_tenant p /\ p_expiresAt q = p_expiresAt p /\ p_reauthOf q = p_reauthOf p /\
  (Bound p = true -> p_subject q = p_subject p /\ p_epochAtBind q = p_epochAtBind p).
Proof.
  intros [s st p' _ _ H|h p' H|c t v st p' _ _ _ _ H].
  - unfold Bind in H. go_cases. bools. split_and!; try done.
  - unfold WithBindHash in H. go_cases. done.
  - apply Add_ok in H as [_ _ _ _ Hbind Hsub _ _ _ (_ & ? & ? & ? & ? & ? & _ & ?)].
    split_and!; try done. intros Hb. destruct Hbind as [[]|(_ & ? & ? & ?)]; split; congruence.
Qed.

(** the remember-me policy is applied once, by NewPending, and every later operation of the
    journey replays the choice, the return target, the transport, the tenant and the expiry;
    once bound, the journey never changes its subject or its epoch; and an admitted session
    carries the same choices. *)
Theorem journey_choices_are_sealed t rem rt tr pol now p q :
  NewPending t rem rt tr pol now = Ok p -> rtc pending_step p q ->
  (p_remember q = true <-> pol = RememberAlways \/ (pol = RememberUserChoice /\ rem = RememberRequested)) /\
  p_returnTo q = rt /\ p_transport q = tr /\ p_tenant q = t /\
  p_expiresAt q = now + PendingTTL /\
  (forall q', Bound q = true -> rtc pending_step q q' ->
     p_subject q' = p_subject q /\ p_epochAtBind q' = p_epochAtBind q) /\
  (forall lineage st mfa now' adm a, Admit lineage q st mfa now' = Ok adm -> Session adm = Some a ->
     a_remember a = p_remember q /\ a_returnTo a = rt /\ a_transport a = tr /\
     Tenant (a_subject a) = Tenant (p_subject q)).
Proof.
  intros Hn Hs.
  assert (p_remember p = true <-> pol = RememberAlways \/ (pol = RememberUserChoice /\ rem = RememberRequested)) as Hr.
  { unfold NewPending in Hn. rewrite canonTime_id in Hn. unfold RememberAlways, RememberUserChoice, RememberNever, RememberRequested in *.
    go_all; rewrite ?Z.eqb_eq; split; intros; try done; try lia. }
  assert (p_returnTo p = rt /\ p_transport p = tr /\ p_tenant p = t /\ p_expiresAt p = now + PendingTTL) as Hf
    by (unfold NewPending in Hn; rewrite canonTime_id in Hn; go_all; done).
  assert (forall x y, rtc pending_step x y ->
    p_remember y = p_remember x /\ p_returnTo y = p_returnTo x /\ p_transport y = p_transport x /\
    p_tenant y = p_tenant x /\ p_expiresAt y = p_expiresAt x /\
    (Bound x = true -> p_subject y = p_subject x /\ p_epochAtBind y = p_epochAtBind x)) as Hstar.
  { induction 1 as [|x y z H1 _ IH]; [tauto|]. apply pending_step_sealed in H1.
    destruct H1 as (? & ? & ? & ? & ? & _ & Hb), IH as (? & ? & ? & ? & ? & IHb).
    split_and!; try congruence. intros Hx. destruct (Hb Hx) as [Hb1 Hb2].
    destruct IHb as [? ?]; [unfold Bound in *; congruence|]. split; congruence. }
  destruct (Hstar _ _ Hs) as (-> & -> & -> & -> & -> & _). split_and!; try tauto.
  - intros q' Hb Hq. by apply Hstar.
  - intros lineage st mfa now' adm a Ha Ha'. destruct (Admit_session _ _ _ _ _ _ _ Ha Ha') as (_ & -> & _).
    simpl. destruct (Hstar _ _ Hs) as (? & ? & ? & _). split_and!; try done; intuition congruence.
Qed.

Lemma journey_choices_are_sealed_witness : p_remember login0 = true.
Proof.
  eapply (journey_choices_are_sealed acme RememberRequested "/home" TransportCookies
    RememberUserChoice now0 login0 login0); [vm_compute; reflexivity|constructor|].
  right. split; reflexivity.
Defined.
