(* ===== verification/Codec.v ===== *)
(** The binary codec v1 of sealed values: internal/core/codec.go.

    The encoder accumulates bytes and an error; the decoder keeps the remaining bytes and
    the first error, and after an error every read returns a zero value, as in the code. *)
From S2P Require Import Prelude Errors Tenant Factor Attrs Pending.

Definition MaxSealedLen : Z := 16384.

Definition tagAttrs : Z := 65.

Definition tagPending : Z := 80.

(** [time.Unix(0, math.MinInt64)] and [time.Unix(0, math.MaxInt64)]. *)
Definition minUnixNano : time := time_Unix_nano (- two63).

Definition maxUnixNano : time := time_Unix_nano (two63 - 1).

(** ** encoding/binary

    [AppendUvarint] writes seven bits per byte, least significant first; a uint64 takes at
    most [MaxVarintLen64] = 10 bytes, which bounds the recursion. *)
Fixpoint put_uvarint (fuel : nat) (x : Z) : bytes :=
  match fuel with
  | O => []
  | S fuel' =>
      if x <? 128 then [byte_of_Z x]
      else byte_of_Z (Z.lor (Z.land x 127) 128) :: put_uvarint fuel' (Z.shiftr x 7)
  end.

Definition AppendUvarint (b : bytes) (x : Z) : bytes := b ++ put_uvarint 10 x.

(** [binary.Uvarint]: the loop over [buf] with index [i], accumulator [x] and shift [s];
    the second component is the number of bytes read, 0 for a short buffer and negative for
    an overflow. *)
Fixpoint uvarint_loop (buf : bytes) (i x s : Z) : Z * Z :=
  match buf with
  | [] => (0, 0)
  | b :: buf' =>
      let b := Z_of_byte b in
      if i =? 10 then (0, - (i + 1))
      else if b <? 128
      then if (i =? 9) && (1 <? b) then (0, - (i + 1))
           else (Z.lor x (u64 (Z.shiftl b s)), i + 1)
      else uvarint_loop buf' (i + 1) (Z.lor x (u64 (Z.shiftl (Z.land b 127) s))) (s + 7)
  end.

Definition Uvarint (buf : bytes) : Z * Z := uvarint_loop buf 0 0 0.

(** ** The encoder *)
Record encoder := mkEncoder { e_b : bytes; e_err : option error }.

Definition newEncoder (tag : Z) : encoder :=
  mkEncoder [byte_of_Z codecVersion; byte_of_Z tag] None.

Definition e_count (n : Z) (e : encoder) : encoder :=
  mkEncoder (AppendUvarint (e_b e) n) (e_err e).

Definition e_bytes (p : bytes) (e : encoder) : encoder :=
  let e := e_count (Z.of_nat (length p)) e in
  mkEncoder (e_b e ++ p) (e_err e).

Definition e_str (s : string) (e : encoder) : encoder := e_bytes (str_bytes s) e.

Definition e_u64 (v : Z) (e : encoder) : encoder := e_bytes (be_bytes 8 v) e.

Definition e_bool (v : bool) (e : encoder) : encoder :=
  if v then e_bytes [byte_of_Z 1] e else e_bytes [byte_of_Z 0] e.

Definition e_uuid (u : uuid) (e : encoder) : encoder := e_bytes (uuid_bytes u) e.

Definition e_time (t : time) (e : encoder) : encoder :=
  if time_IsZero t then e_bytes [] e
  else if time_Before t minUnixNano || time_After t maxUnixNano
  then mkEncoder (e_b e) (Some (Join ErrMalformed (New "time out of codec range")))
  else e_u64 (u64_of_i64 (time_UnixNano t)) e.

Definition e_subjectTenant (t : TenantID) (user : uuid) (e : encoder) : encoder :=
  e_uuid user (e_str (tenant_id t) e).

Definition e_subject (s : Subject) (e : encoder) : encoder :=
  e_subjectTenant (Tenant s) (User s) e.

Definition e_factors (fs : list Factor) (e : encoder) : encoder :=
  fold_left (fun e f => e_str (code f) e) fs (e_count (Z.of_nat (length fs)) e).

Abbreviation Sealed := (list Byte.byte).

Definition e_finish (e : encoder) : res Sealed :=
  match e_err e with
  | Some err => Err err
  | None =>
      if MaxSealedLen <? Z.of_nat (length (e_b e))
      then Err (Join ErrMalformed (New "sealed value too large"))
      else Ok (e_b e)
  end.

(** ** Validation *)
Definition checkAttrs (a : SessionAttrs) : option error :=
  if (a_lineage a =? uuid_Nil) || Subject_IsZero (a_subject a)
     || negb (hasRole (a_factors a) RolePrimary) || negb (Transport_Valid (a_transport a))
  then Some (New "invalid attributes")
  else if existsb (fun u => negb (is_passkey_factor (cu_factor u)) || bool_decide (cu_id u = [])
                            || negb (contains (a_factors a) (cu_factor u))) (a_credentialIDs a)
  then Some (New "invalid credential use")
  else None.

(** The loop of checkPending over the verifications. *)
Fixpoint check_verified_list (vs : list Verified) : option error :=
  match vs with
  | [] => None
  | v :: vs' =>
      if time_IsZero (v_at v) then Some (New "invalid verified")
      else match checkVerifiedShape (v_factors v) (v_credentialID v) (v_identifies v)
                   (v_provider v) with
           | Some err => Some (Join (New "invalid verified") err)
           | None => check_verified_list vs'
           end
  end.

Definition checkPending (p : Pending) : option error :=
  if negb (Transport_Valid (p_transport p)) || time_IsZero (p_expiresAt p)
     || ((0 <? Z.of_nat (length (p_verified p))) && negb (Bound p))
  then Some (New "invalid pending")
  else check_verified_list (p_verified p).

(** ** Sealing *)
Definition e_credential (u : credentialUse) (e : encoder) : encoder :=
  e_bytes (cu_id u) (e_str (code (cu_factor u)) e).

Definition encode_attrs (a : SessionAttrs) : encoder :=
  let e := newEncoder tagAttrs in
  let e := e_uuid (a_lineage a) e in
  let e := e_subject (a_subject a) e in
  let e := e_factors (a_factors a) e in
  let e := e_count (Z.of_nat (length (a_credentialIDs a))) e in
  let e := fold_left (fun e u => e_credential u e) (a_credentialIDs a) e in
  let e := e_time (a_primaryAt a) e in
  let e := e_time (a_secondAt a) e in
  let e := e_u64 (a_epoch a) e in
  let e := e_bool (a_mustChange a) e in
  let e := e_bool (a_remember a) e in
  let e := e_str (a_returnTo a) e in
  let e := e_bytes [byte_of_Z (a_transport a)] e in
  let e := e_str (a_provider a) e in
  let e := e_time (a_createdAt a) e in
  e_time (a_claimsFetchedAt a) e.

Definition Seal (a : SessionAttrs) : res Sealed :=
  if a_version a =? 0 then Err ErrInvalidArgument
  else match checkAttrs a with
  | Some err => Err (Join ErrInvalidArgument err)
  | None => e_finish (encode_attrs a)
  end.

Definition e_verified (v : Verified) (e : encoder) : encoder :=
  let e := e_factors (v_factors v) e in
  let e := e_bytes (v_credentialID v) e in
  let e := e_bool (v_identifies v) e in
  let e := e_str (v_provider v) e in
  e_time (v_at v) e.

Definition encode_pending (p : Pending) : encoder :=
  let e := newEncoder tagPending in
  let e := e_subjectTenant (p_tenant p) (User (p_subject p)) e in
  let e := e_u64 (p_epochAtBind p) e in
  let e := e_count (Z.of_nat (length (p_verified p))) e in
  let e := fold_left (fun e v => e_verified v e) (p_verified p) e in
  let e := e_bool (p_remember p) e in
  let e := e_str (p_returnTo p) e in
  let e := e_bytes [byte_of_Z (p_transport p)] e in
  let e := e_str (p_provider p) e in
  let e := e_uuid (p_reauthOf p) e in
  let e := e_bytes (p_bindHash p) e in
  e_time (p_expiresAt p) e.

Definition SealPending (p : Pending) : res Sealed :=
  if p_version p =? 0 then Err ErrInvalidArgument
  else match checkPending p with
  | Some err => Err (Join ErrInvalidArgument err)
  | None => e_finish (encode_pending p)
  end.

(** ** The decoder: a state monad over the remaining bytes and the sticky error. *)
Record decoder := mkDecoder { d_b : bytes; d_err : option error }.

Definition dec (A : Type) : Type := decoder -> A * decoder.

Definition d_ret {A} (a : A) : dec A := fun d => (a, d).

Definition d_bind {A B} (m : dec A) (k : A -> dec B) : dec B :=
  fun d => let '(a, d') := m d in k a d'.

Declare Scope dec_scope.
Delimit Scope dec_scope with dec.
Notation "x <- m ;; k" := (d_bind m (fun x => k))
  (at level 100, m at next level, k at level 200, right associativity) : dec_scope.
Open Scope dec_scope.

Definition newDecoder (b : bytes) (tag : Z) : res decoder :=
  match b with
  | b0 :: b1 :: rest =>
      if MaxSealedLen <? Z.of_nat (length b) then Err (Join ErrMalformed (New "length"))
      else if negb (Z_of_byte b0 =? codecVersion)
      then Err (Join ErrMalformed (New "unsupported version"))
      else if negb (Z_of_byte b1 =? tag)
      then Err (Join ErrMalformed (New "wrong type tag"))
      else Ok (mkDecoder rest None)
  | _ => Err (Join ErrMalformed (New "length"))
  end.

Definition d_fail (msg : string) (d : decoder) : decoder :=
  mkDecoder [] (match d_err d with
                | None => Some (Join ErrMalformed (New msg))
                | Some e => Some e
                end).

Definition d_failed (d : decoder) : bool :=
  match d_err d with Some _ => true | None => false end.

Definition d_count : dec Z := fun d =>
  if d_failed d then (0, d)
  else
    let '(n, k) := Uvarint (d_b d) in
    if (k <=? 0) || (Z.of_nat (length (d_b d)) - k <? n)
    then (0, d_fail "bad length" d)
    else (n, mkDecoder (drop (Z.to_nat k) (d_b d)) (d_err d)).

Definition d_bytes : dec bytes := fun d =>
  let '(n, d) := d_count d in
  if d_failed d then ([], d)
  else if n =? 0 then ([], d)
  else (take (Z.to_nat n) (d_b d), mkDecoder (drop (Z.to_nat n) (d_b d)) (d_err d)).

(** [fixed size]; the nil result is [None]. *)
Definition d_fixed (size : Z) : dec (option bytes) := fun d =>
  let '(p, d) := d_bytes d in
  if negb (d_failed d) && negb (Z.of_nat (length p) =? size)
  then (None, d_fail "bad fixed field size" d)
  else (match p with [] => None | _ => Some p end, d).

Definition d_str : dec string := p <- d_bytes ;; d_ret (bytes_str p).

Definition d_u64 : dec Z :=
  p <- d_fixed 8 ;;
  match p with None => d_ret 0 | Some p => d_ret (be_value p) end.

Definition d_bool : dec bool :=
  p <- d_fixed 1 ;;
  match p with
  | None => d_ret false
  | Some p => fun d =>
      let b := Z_of_byte (default Byte.x00 (head p)) in
      (b =? 1, if 1 <? b then d_fail "bad bool" d else d)
  end.

Definition d_uuid : dec uuid :=
  p <- d_fixed 16 ;;
  match p with None => d_ret uuid_Nil | Some p => d_ret (uuid_of_bytes p) end.

Definition d_time : dec time :=
  p <- d_bytes ;; fun d =>
  if d_failed d || bool_decide (p = []) then (time_zero, d)
  else if negb (Z.of_nat (length p) =? 8) then (time_zero, d_fail "bad time" d)
  else (time_Unix_nano (i64_of_u64 (be_value p)), d).

Definition d_transport : dec Transport :=
  p <- d_fixed 1 ;;
  match p with None => d_ret 0 | Some p => d_ret (Z_of_byte (default Byte.x00 (head p))) end.

Definition d_subject : dec Subject :=
  raw <- d_str ;; user <- d_uuid ;; fun d =>
  if d_failed d then (zero_Subject, d)
  else if bool_decide (raw = "") then (mkSubject zero_TenantID user, d)
  else match ParseTenantID raw with
  | Err _ => (zero_Subject, d_fail "bad tenant" d)
  | Ok t => (mkSubject t user, d)
  end.

Definition d_factor : dec Factor :=
  c <- d_str ;; fun d =>
  if d_failed d then (zero_Factor, d)
  else match FactorByCode c with
  | Err _ => (zero_Factor, d_fail "unknown factor" d)
  | Ok f => (f, d)
  end.

(** The loop of [factors]: [n] factors still to read after [out]. *)
Fixpoint d_factors_loop (n : nat) (out : list Factor) : dec (list Factor) :=
  match n with
  | O => d_ret out
  | S n' => f <- d_factor ;; fun d =>
      if d_failed d then ([], d)
      else if match last out with Some g => String.leb (code f) (code g) | None => false end
      then ([], d_fail "factors not in canonical order" d)
      else d_factors_loop n' (out ++ [f]) d
  end.

Definition d_factors : dec (list Factor) :=
  n <- d_count ;; d_factors_loop (Z.to_nat n) [].

(** [for range n { out = append(out, item) }]. *)
Fixpoint d_repeat {A} (n : nat) (item : dec A) (out : list A) : dec (list A) :=
  match n with
  | O => d_ret out
  | S n' => a <- item ;; d_repeat n' item (out ++ [a])
  end.

Definition d_done (d : decoder) : option error :=
  match d_err d with
  | Some e => Some e
  | None => if bool_decide (d_b d = []) then None else Some (Join ErrMalformed (New "trailing bytes"))
  end.

(** [canonical in reseal]; [None] is the nil error. *)
Definition canonical (inp : bytes) (reseal : res Sealed) : option error :=
  match reseal with
  | Err e => Some (Join ErrMalformed e)
  | Ok out =>
      if bool_decide (out = inp) then None
      else Some (Join ErrMalformed (New "non-canonical encoding"))
  end.

(** ** Unsealing *)
Definition d_credential : dec credentialUse :=
  f <- d_factor ;; id <- d_bytes ;; d_ret (mkCredentialUse f id).

Definition decode_attrs : dec SessionAttrs :=
  lineage <- d_uuid ;;
  subject <- d_subject ;;
  factors <- d_factors ;;
  n <- d_count ;;
  creds <- d_repeat (Z.to_nat n) d_credential [] ;;
  primaryAt <- d_time ;;
  secondAt <- d_time ;;
  epoch <- d_u64 ;;
  mustChange <- d_bool ;;
  remember <- d_bool ;;
  returnTo <- d_str ;;
  transport <- d_transport ;;
  provider <- d_str ;;
  createdAt <- d_time ;;
  claimsFetchedAt <- d_time ;;
  d_ret (mkSessionAttrs codecVersion lineage subject factors creds primaryAt secondAt epoch
           mustChange remember returnTo transport provider createdAt claimsFetchedAt).

Definition Unseal (s : Sealed) : res SessionAttrs :=
  d ← newDecoder s tagAttrs;
  let '(a, d) := decode_attrs d in
  match d_done d with
  | Some err => Err err
  | None =>
      match checkAttrs a with
      | Some err => Err (Join ErrMalformed err)
      | None =>
          match canonical s (Seal a) with
          | Some err => Err err
          | None => Ok a
          end
      end
  end.

Definition d_verified (subject : Subject) : dec Verified :=
  factors <- d_factors ;;
  cred <- d_bytes ;;
  identifies <- d_bool ;;
  provider <- d_str ;;
  at_ <- d_time ;;
  d_ret (mkVerified subject factors cred identifies provider at_).

Definition decode_pending : dec Pending :=
  bound <- d_subject ;;
  let subject := if Subject_IsZero bound then zero_Subject else bound in
  epochAtBind <- d_u64 ;;
  n <- d_count ;;
  verified <- d_repeat (Z.to_nat n) (d_verified subject) [] ;;
  remember <- d_bool ;;
  returnTo <- d_str ;;
  transport <- d_transport ;;
  provider <- d_str ;;
  reauthOf <- d_uuid ;;
  bindHash <- d_bytes ;;
  expiresAt <- d_time ;;
  d_ret (mkPending codecVersion (Tenant bound) subject epochAtBind verified remember returnTo
           transport provider reauthOf bindHash expiresAt).

Definition UnsealPending (s : Sealed) : res Pending :=
  d ← newDecoder s tagPending;
  let '(p, d) := decode_pending d in
  match d_done d with
  | Some err => Err err
  | None =>
      match checkPending p with
      | Some err => Err (Join ErrMalformed err)
      | None =>
          match canonical s (SealPending p) with
          | Some err => Err err
          | None => Ok p
          end
      end
  end.
