(* ===== verification/CodecFacts.v ===== *)
(** Lemmas on the codec: each encoder primitive appends the bytes its decoder reads back. *)
From S2P Require Import Prelude Errors Tenant Factor Attrs Pending VerifiedFacts.
From S2P Require Import SessionFacts Codec.
From S2P Require Import Transitions Factors Journey.

(** ** Uvarint *)
Lemma lor_shiftl x b s :
  0 <= s -> 0 <= x < 2 ^ s -> 0 <= b -> Z.lor x (Z.shiftl b s) = x + b * 2 ^ s.
Proof.
  intros Hs Hx Hb. rewrite <- Z.shiftl_mul_pow2 by lia.
  assert (Z.land x (Z.shiftl b s) = 0) as H0.
  { apply Z.bits_inj'. intros n Hn. rewrite Z.land_spec, Z.bits_0.
    destruct (Z_lt_le_dec n s).
    - rewrite Z.shiftl_spec_low by lia. apply andb_false_r.
    - rewrite <- (Z.mod_small x (2 ^ s)) by lia. by rewrite Z.mod_pow2_bits_high by lia. }
  rewrite <- Z.lxor_lor by done. symmetry. by apply Z.add_nocarry_lxor.
Qed.

Lemma land_127 x : Z.land x 127 = x mod 128.
Proof. change 127 with (Z.ones 7). by rewrite Z.land_ones by lia. Qed.

Lemma cont_byte x : Z_of_byte (byte_of_Z (Z.lor (Z.land x 127) 128)) = x mod 128 + 128.
Proof.
  rewrite land_127. pose proof (Z.mod_pos_bound x 128). change 128 with (Z.shiftl 1 7) at 2.
  rewrite lor_shiftl by (change (2 ^ 7) with 128; lia).
  rewrite Z_of_byte_of_Z_small by lia. lia.
Qed.

Lemma uvarint_loop_put f n i x rest :
  0 <= i -> i + Z.of_nat f = 10 -> 0 < Z.of_nat f -> 0 <= n -> 0 <= x < 2 ^ (7 * i) ->
  n * 2 ^ (7 * i) + x < two64 ->
  uvarint_loop (put_uvarint f n ++ rest) i x (7 * i)
  = (x + n * 2 ^ (7 * i), i + Z.of_nat (length (put_uvarint f n))).
Proof.
  revert n i x. induction f as [|f IH]; intros n i x Hi Hf Hf0 Hn Hx Hlt; [lia|].
  assert (0 < 2 ^ (7 * i)) as HP by (apply Z.pow_pos_nonneg; lia).
  simpl put_uvarint. destruct (n <? 128) eqn:En; bools.
  - simpl. rewrite Z_of_byte_of_Z_small by lia.
    replace (i =? 10) with false by lia. replace (n <? 128) with true by lia.
    assert ((i =? 9) && (1 <? n) = false) as ->.
    { destruct (i =? 9) eqn:E9; bools; [|done]. subst. apply Z.ltb_ge.
      change (2 ^ (7 * 9)) with two63 in *. unfold two63, two64 in *. lia. }
    rewrite u64_small by (rewrite Z.shiftl_mul_pow2 by lia; split; [lia|]; unfold two64 in *; lia).
    rewrite lor_shiftl by lia. f_equal.
  - simpl app. cbn [uvarint_loop length]. rewrite cont_byte, land_127.
    replace (i =? 10) with false by lia.
    pose proof (Z.mod_pos_bound n 128). replace (n mod 128 + 128 <? 128) with false by lia.
    replace ((n mod 128 + 128) mod 128) with (n mod 128)
      by (apply Z.mod_unique_pos with 1; lia).
    assert (n = n / 128 * 128 + n mod 128) as Hdm by (pose proof (Z.div_mod n 128); lia).
    assert (2 ^ (7 * (i + 1)) = 128 * 2 ^ (7 * i)) as HP1
      by (replace (7 * (i + 1)) with (7 + 7 * i) by lia; rewrite Z.pow_add_r by lia; done).
    assert (1 <= n / 128) by (apply Z.div_le_lower_bound; lia).
    assert (i <= 8) as Hi8.
    { destruct (Z_le_gt_dec i 8); [done|]. assert (i = 9) by lia. subst.
      change (2 ^ (7 * 9)) with two63 in *. unfold two63, two64 in *. lia. }
    rewrite u64_small
      by (rewrite Z.shiftl_mul_pow2 by lia; split; [lia|]; unfold two64 in *; nia).
    rewrite lor_shiftl by lia. rewrite Z.shiftr_div_pow2 by lia. change (2 ^ 7) with 128.
    replace (7 * i + 7) with (7 * (i + 1)) by lia.
    rewrite IH by (rewrite ?HP1; nia).
    rewrite HP1. f_equal; [nia|lia].
Qed.

Lemma Uvarint_put n rest :
  is_u64 n ->
  Uvarint (put_uvarint 10 n ++ rest) = (n, Z.of_nat (length (put_uvarint 10 n))).
Proof.
  intros [? ?]. unfold Uvarint.
  pose proof (uvarint_loop_put 10 n 0 0 rest) as H'. change (7 * 0) with 0 in H'.
  change (2 ^ 0) with 1 in H'. rewrite H' by lia. f_equal; lia.
Qed.

Lemma put_uvarint_nonempty f n : (1 <= length (put_uvarint (S f) n))%nat.
Proof. simpl. case_match; simpl; lia. Qed.

#[global] Arguments put_uvarint : simpl never.
#[global] Arguments be_bytes : simpl never.
#[global] Arguments be_value : simpl never.
#[global] Arguments byte_of_Z : simpl never.
#[global] Arguments Z_of_byte : simpl never.

(** ** Writers and readers

    [writes f w]: the encoder operation [f] appends exactly [w].  [reads m w a]: the decoder
    [m] consumes exactly [w] and returns [a], whatever follows. *)
Definition writes (f : encoder -> encoder) (w : bytes) : Prop :=
  forall e, f e = mkEncoder (e_b e ++ w) (e_err e).

Definition reads {A} (m : dec A) (w : bytes) (a : A) : Prop :=
  forall rest, m (mkDecoder (w ++ rest) None) = (a, mkDecoder rest None).

Lemma writes_compose f g w1 w2 : writes f w1 -> writes g w2 -> writes (fun e => g (f e)) (w1 ++ w2).
Proof. intros Hf Hg e. rewrite Hf, Hg. simpl. by rewrite app_assoc. Qed.

Lemma reads_ret {A} (a : A) : reads (d_ret a) [] a.
Proof. by intros rest. Qed.

Lemma reads_bind {A B} (m : dec A) (k : A -> dec B) w1 w2 a b :
  reads m w1 a -> reads (k a) w2 b -> reads (d_bind m k) (w1 ++ w2) b.
Proof. intros Hm Hk rest. unfold d_bind. by rewrite <- app_assoc, Hm, Hk. Qed.

Lemma reads_map {A B} (m : dec A) (k : A -> dec B) w a b :
  reads m w a -> reads (k a) [] b -> reads (d_bind m k) w b.
Proof. intros Hm Hk. rewrite <- (app_nil_r w). by eapply reads_bind. Qed.

(** The bytes of each field. *)
Definition w_count (n : nat) : bytes := put_uvarint 10 (Z.of_nat n).

Definition w_bytes (p : bytes) : bytes := w_count (length p) ++ p.

Definition w_str (s : string) : bytes := w_bytes (str_bytes s).

Definition w_bool (b : bool) : bytes := w_bytes [byte_of_Z (if b then 1 else 0)].

Definition time_in_range (t : time) : Prop := t = 0 \/ minUnixNano <= t <= maxUnixNano.

Definition w_time (t : time) : bytes :=
  if time_IsZero t then w_bytes [] else w_bytes (be_bytes 8 (u64_of_i64 (time_UnixNano t))).

Definition w_subject (t : TenantID) (u : uuid) : bytes :=
  w_str (tenant_id t) ++ w_bytes (uuid_bytes u).

Definition w_factors (fs : list Factor) : bytes :=
  w_count (length fs) ++ concat ((fun f => w_str (code f)) <$> fs).

Lemma writes_count n : writes (e_count (Z.of_nat n)) (w_count n).
Proof. by intros e. Qed.

Lemma writes_bytes p : writes (e_bytes p) (w_bytes p).
Proof. intros e. unfold e_bytes, w_bytes, e_count, AppendUvarint, w_count. simpl. by rewrite app_assoc. Qed.

Lemma writes_str s : writes (e_str s) (w_str s).
Proof. apply writes_bytes. Qed.

Lemma writes_u64 v : writes (e_u64 v) (w_bytes (be_bytes 8 v)).
Proof. apply writes_bytes. Qed.

Lemma writes_bool b : writes (e_bool b) (w_bool b).
Proof. destruct b; apply writes_bytes. Qed.

Lemma writes_uuid u : writes (e_uuid u) (w_bytes (uuid_bytes u)).
Proof. apply writes_bytes. Qed.

Lemma writes_time t : time_in_range t -> writes (e_time t) (w_time t).
Proof.
  intros Ht e. unfold e_time, w_time. destruct (time_IsZero t) eqn:E; [apply writes_bytes|].
  bools. destruct Ht as [?|Ht]; [done|]. unfold time_Before, time_After.
  replace (t <? minUnixNano) with false by lia. replace (maxUnixNano <? t) with false by lia.
  apply writes_bytes.
Qed.

Lemma writes_subject t u : writes (e_subjectTenant t u) (w_subject t u).
Proof. apply (writes_compose (e_str _) (e_uuid _)); [apply writes_str|apply writes_uuid]. Qed.

Lemma writes_fold {A} (g : A -> encoder -> encoder) (w : A -> bytes) (l : list A) :
  (forall a, a ∈ l -> writes (g a) (w a)) ->
  writes (fun e => fold_left (fun e a => g a e) l e) (concat (w <$> l)).
Proof.
  induction l as [|a l IH]; intros H e; simpl.
  - rewrite app_nil_r. by destruct e.
  - rewrite IH by (intros; apply H; by right). rewrite (H a) by left. simpl.
    by rewrite app_assoc.
Qed.

Lemma writes_factors fs : writes (e_factors fs) (w_factors fs).
Proof.
  unfold e_factors, w_factors.
  apply (writes_compose (e_count _) (fun e => fold_left (fun e f => e_str (code f) e) fs e)).
  - apply writes_count.
  - apply (writes_fold (fun f => e_str (code f))). intros. apply writes_str.
Qed.

(** ** Readers *)
Lemma w_count_pos n : (1 <= length (w_count n))%nat.
Proof. apply put_uvarint_nonempty. Qed.

Lemma w_bytes_length p : (1 + length p <= length (w_bytes p))%nat.
Proof. unfold w_bytes. rewrite length_app. pose proof (w_count_pos (length p)). lia. Qed.

(** The reader of a count also checks that as many bytes remain. *)
Lemma d_count_read n rest :
  (n <= length rest)%nat -> Z.of_nat n < two64 ->
  d_count (mkDecoder (w_count n ++ rest) None) = (Z.of_nat n, mkDecoder rest None).
Proof.
  intros Hn Hb. unfold d_count. simpl. unfold w_count at 1.
  rewrite Uvarint_put by (split; lia). fold (w_count n). pose proof (w_count_pos n).
  rewrite length_app, Nat2Z.inj_add.
  replace (Z.of_nat (length (w_count n)) <=? 0) with false by lia.
  replace (_ <? _) with false by lia. simpl. rewrite Nat2Z.id. by rewrite drop_app_length.
Qed.

Lemma reads_bytes p : Z.of_nat (length p) < two64 -> reads d_bytes (w_bytes p) p.
Proof.
  intros Hp rest. unfold d_bytes, w_bytes. rewrite <- app_assoc.
  rewrite d_count_read by (rewrite ?length_app; lia). cbn [d_failed d_err d_b].
  destruct (decide (p = [])) as [->|Hne]; [done|].
  rewrite (proj2 (Z.eqb_neq _ _)) by (destruct p; simpl; [done|lia]).
  by rewrite Nat2Z.id, take_app_length, drop_app_length.
Qed.

Lemma reads_str s : Z.of_nat (length (str_bytes s)) < two64 -> reads d_str (w_str s) s.
Proof.
  intros Hs. eapply reads_map; [by apply reads_bytes|]. rewrite bytes_str_bytes. apply reads_ret.
Qed.

Lemma reads_fixed p n :
  length p = S n -> Z.of_nat (S n) < two64 -> reads (d_fixed (Z.of_nat (S n))) (w_bytes p) (Some p).
Proof.
  intros Hl Hn rest. unfold d_fixed. rewrite reads_bytes by (rewrite Hl; lia).
  rewrite Hl, Z.eqb_refl. simpl. by destruct p.
Qed.

Lemma reads_u64 v : is_u64 v -> reads d_u64 (w_bytes (be_bytes 8 v)) v.
Proof.
  intros Hv. eapply reads_map; [apply (reads_fixed _ 7); [apply length_be_bytes|done]|].
  simpl. rewrite (be_value_bytes 8) by apply Hv. apply reads_ret.
Qed.

Lemma reads_uuid u : uuid_ok u -> reads d_uuid (w_bytes (uuid_bytes u)) u.
Proof.
  intros Hu. eapply reads_map; [apply (reads_fixed _ 15); [apply length_be_bytes|done]|].
  simpl. rewrite uuid_of_bytes_bytes by done. apply reads_ret.
Qed.

Lemma reads_bool b : reads d_bool (w_bool b) b.
Proof.
  eapply reads_map; [by apply (reads_fixed _ 0)|]. intros rest. simpl.
  rewrite Z_of_byte_of_Z_small by (destruct b; lia). by destruct b.
Qed.

Lemma reads_transport t : 0 <= t < 256 -> reads d_transport (w_bytes [byte_of_Z t]) t.
Proof.
  intros Ht. eapply reads_map; [by apply (reads_fixed _ 0)|]. simpl.
  rewrite Z_of_byte_of_Z_small by done. apply reads_ret.
Qed.

Lemma reads_time t : time_in_range t -> reads d_time (w_time t) t.
Proof.
  intros Ht. unfold w_time. destruct (time_IsZero t) eqn:E; bools.
  - subst. eapply reads_map; [by apply reads_bytes|]. by intros rest.
  - destruct Ht as [?|Ht]; [done|]. eapply reads_map.
    { apply reads_bytes. by rewrite length_be_bytes. }
    intros rest. cbn [d_failed d_err orb].
    rewrite bool_decide_eq_false_2
      by (intros Hb; apply (f_equal length) in Hb; by rewrite length_be_bytes in Hb).
    rewrite length_be_bytes. change (negb (Z.of_nat 8 =? 8)) with false. cbn iota.
    rewrite (be_value_bytes 8) by apply u64_range. unfold time_UnixNano, time_Unix_nano in *.
    rewrite i64_u64_i64.
    + f_equal. lia.
    + unfold minUnixNano, maxUnixNano, time_Unix_nano in Ht. lia.
Qed.

Lemma length_str_bytes s : length (str_bytes s) = String.length s.
Proof.
  unfold str_bytes, String.list_byte_of_string. rewrite List.length_map.
  induction s; simpl; auto.
Qed.

Lemma tenant_wf_length t : tenant_wf t -> (String.length (tenant_id t) <= 128)%nat.
Proof.
  intros [->|H]; [simpl; lia|]. unfold ParseTenantID, maxTenantLen in H. go_cases. bools. lia.
Qed.

Lemma reads_subject t u :
  tenant_wf t -> uuid_ok u -> reads d_subject (w_subject t u) (mkSubject t u).
Proof.
  intros Ht Hu. unfold d_subject, w_subject. eapply reads_bind.
  { apply reads_str. rewrite length_str_bytes. pose proof (tenant_wf_length t Ht).
    unfold two64. lia. }
  eapply reads_map; [by apply reads_uuid|]. intros rest. cbn [d_failed d_err].
  destruct Ht as [->|Ht]; [done|]. rewrite bool_decide_eq_false_2.
  - rewrite Ht. simpl. done.
  - intros E. rewrite E in Ht. done.
Qed.

Lemma code_length f : Valid f = true -> Z.of_nat (length (str_bytes (code f))) < two64.
Proof.
  intros H%valid_cases. repeat (apply elem_of_cons in H as [->|H]; [by vm_compute|]).
  by apply elem_of_nil in H.
Qed.

Lemma reads_factor f : Valid f = true -> reads d_factor (w_str (code f)) f.
Proof.
  intros Hf. eapply reads_map; [by apply reads_str, code_length|].
  intros rest. cbn [d_failed d_err]. by rewrite FactorByCode_code.
Qed.

Lemma concat_length_ge {A} (w : A -> bytes) (l : list A) :
  (forall a, a ∈ l -> (1 <= length (w a))%nat) -> (length l <= length (concat (w <$> l)))%nat.
Proof.
  induction l as [|a l IH]; intros H; csimpl; [lia|]. rewrite length_app.
  pose proof (H a ltac:(left)).
  assert (length l <= length (concat (w <$> l)))%nat by (apply IH; intros; apply H; by right).
  lia.
Qed.

Lemma concat_length_elem {A} (w : A -> bytes) (l : list A) a :
  a ∈ l -> (length (w a) <= length (concat (w <$> l)))%nat.
Proof. induction 1; csimpl; rewrite length_app; lia. Qed.

(** A counted sequence: every element takes at least one byte, so the check that the count
    does not exceed the remaining bytes passes. *)
Lemma reads_counted {A B} (k : Z -> dec B) (w : A -> bytes) (l : list A) b :
  Z.of_nat (length l) < two64 -> (forall a, a ∈ l -> (1 <= length (w a))%nat) ->
  reads (k (Z.of_nat (length l))) (concat (w <$> l)) b ->
  reads (d_bind d_count k) (w_count (length l) ++ concat (w <$> l)) b.
Proof.
  intros Hl Hw Hk rest. unfold d_bind. rewrite <- app_assoc, d_count_read; [apply Hk| |done].
  rewrite length_app. pose proof (concat_length_ge w l Hw). lia.
Qed.

Lemma snoc_app {A} (l : list A) a k : l ++ a :: k = (l ++ [a]) ++ k.
Proof. by rewrite <- app_assoc. Qed.

Lemma reads_repeat {A} (item : dec A) (w : A -> bytes) (l out : list A) :
  (forall a, a ∈ l -> reads item (w a) a) ->
  reads (d_repeat (length l) item out) (concat (w <$> l)) (out ++ l).
Proof.
  revert out. induction l as [|a l IH]; intros out H; csimpl.
  - rewrite app_nil_r. apply reads_ret.
  - eapply reads_bind; [apply H; left|]. rewrite (snoc_app out a l). apply IH.
    intros. apply H. by right.
Qed.

Lemma reads_factors_loop fs out :
  StronglySorted factor_le (out ++ fs) -> NoDup (out ++ fs) ->
  Forall (fun f => Valid f = true) fs ->
  reads (d_factors_loop (length fs) out) (concat ((fun f => w_str (code f)) <$> fs)) (out ++ fs).
Proof.
  revert out. induction fs as [|f fs IH]; intros out Hs Hn Hv; csimpl.
  - rewrite app_nil_r. apply reads_ret.
  - apply Forall_cons in Hv as [Hf Hv].
    eapply reads_bind; [by apply reads_factor|]. intros rest. cbn [d_failed d_err].
    assert (match last out with Some g => String.leb (code f) (code g) | None => false end = false) as ->.
    { destruct (last out) as [g|] eqn:Hl; [|done]. apply last_Some in Hl as [out' ->].
      apply not_true_iff_false. intros Hle.
      assert (factor_le g f) as Hgf.
      { eapply (StronglySorted_app_1_elem_of factor_le (out' ++ [g]) (f :: fs)); [done| |by left].
        apply elem_of_app. right. by left. }
      assert (f = g) as -> by (apply (anti_symm factor_le); [|done]; unfold factor_le, String.le; by rewrite Hle).
      apply NoDup_app in Hn as (_ & Hn & _). apply (Hn g); [|by left].
      apply elem_of_app. right. by left. }
    rewrite (snoc_app out f fs) in *. by apply IH.
Qed.

Lemma reads_factors fs : factor_set fs -> Z.of_nat (length fs) < two64 ->
  reads d_factors (w_factors fs) fs.
Proof.
  intros [Hs Hn Hv] Hl. apply (reads_counted _ (fun f => w_str (code f))); [done| |].
  - intros f _. pose proof (w_bytes_length (str_bytes (code f))). unfold w_str. lia.
  - rewrite Nat2Z.id. by apply (reads_factors_loop fs []).
Qed.

(** ** Sealing and unsealing: what Seal and SealPending write, and that Unseal and UnsealPending
    read it back. *)

Definition w_credential (u : credentialUse) : bytes :=
  w_str (code (cu_factor u)) ++ w_bytes (cu_id u).

(** The bytes of sealed attributes after the two header bytes. *)
Definition w_attrs (a : SessionAttrs) : bytes :=
  w_bytes (uuid_bytes (a_lineage a)) ++
  w_subject (Tenant (a_subject a)) (User (a_subject a)) ++
  w_factors (a_factors a) ++
  (w_count (length (a_credentialIDs a)) ++ concat (w_credential <$> a_credentialIDs a)) ++
  w_time (a_primaryAt a) ++
  w_time (a_secondAt a) ++
  w_bytes (be_bytes 8 (a_epoch a)) ++
  w_bool (a_mustChange a) ++
  w_bool (a_remember a) ++
  w_str (a_returnTo a) ++
  w_bytes [byte_of_Z (a_transport a)] ++
  w_str (a_provider a) ++
  w_time (a_createdAt a) ++
  w_time (a_claimsFetchedAt a).

Definition attrs_times (a : SessionAttrs) : list time :=
  [a_primaryAt a; a_secondAt a; a_createdAt a; a_claimsFetchedAt a].

Definition w_verified (v : Verified) : bytes :=
  w_factors (v_factors v) ++ w_bytes (v_credentialID v) ++ w_bool (v_identifies v) ++
  w_str (v_provider v) ++ w_time (v_at v).

Definition w_pending (p : Pending) : bytes :=
  w_subject (p_tenant p) (User (p_subject p)) ++
  w_bytes (be_bytes 8 (p_epochAtBind p)) ++
  (w_count (length (p_verified p)) ++ concat (w_verified <$> p_verified p)) ++
  w_bool (p_remember p) ++
  w_str (p_returnTo p) ++
  w_bytes [byte_of_Z (p_transport p)] ++
  w_str (p_provider p) ++
  w_bytes (uuid_bytes (p_reauthOf p)) ++
  w_bytes (p_bindHash p) ++
  w_time (p_expiresAt p).

Definition pending_times (p : Pending) : list time := (v_at <$> p_verified p) ++ [p_expiresAt p].

(** ** Errors of the encoder *)
Lemma e_err_time t e : e_err (e_time t e) = None <-> e_err e = None /\ time_in_range t.
Proof.
  unfold e_time, time_in_range, time_Before, time_After.
  destruct (time_IsZero t) eqn:Ez; bools; [simpl; tauto|].
  destruct (t <? minUnixNano) eqn:E1; [bools; simpl; split; [done|lia]|].
  destruct (maxUnixNano <? t) eqn:E2; bools; simpl; [split; [done|lia]|].
  split; [auto|tauto].
Qed.

Lemma e_err_bytes p e : e_err (e_bytes p e) = e_err e.
Proof. done. Qed.

Lemma e_err_bool b e : e_err (e_bool b e) = e_err e.
Proof. by destruct b. Qed.

Lemma e_err_factors fs e : e_err (e_factors fs e) = e_err e.
Proof. by rewrite writes_factors. Qed.

Lemma e_err_credentials us e :
  e_err (fold_left (fun e u => e_credential u e) us e) = e_err e.
Proof. revert e. induction us; intros e; simpl; [done|]. by rewrite IHus. Qed.

Lemma e_err_verified v e :
  e_err (e_verified v e) = None <-> e_err e = None /\ time_in_range (v_at v).
Proof.
  unfold e_verified. rewrite e_err_time. unfold e_str.
  by rewrite e_err_bytes, e_err_bool, e_err_bytes, e_err_factors.
Qed.

Lemma e_err_verified_list vs e :
  e_err (fold_left (fun e v => e_verified v e) vs e) = None <->
  e_err e = None /\ Forall time_in_range (v_at <$> vs).
Proof.
  revert e. induction vs as [|v vs IH]; intros e; csimpl; [intuition constructor|].
  rewrite IH, e_err_verified, Forall_cons. tauto.
Qed.

Lemma e_err_attrs a :
  e_err (encode_attrs a) = None <-> Forall time_in_range (attrs_times a).
Proof.
  unfold encode_attrs, attrs_times. rewrite !Forall_cons, e_err_time, e_err_time. unfold e_str.
  rewrite !e_err_bytes, !e_err_bool. unfold e_u64. rewrite e_err_bytes, !e_err_time.
  rewrite e_err_credentials. unfold e_count at 1. cbn [e_err].
  rewrite e_err_factors. unfold e_subject, e_subjectTenant, e_uuid, e_str. simpl.
  intuition constructor.
Qed.

Lemma e_err_pending p :
  e_err (encode_pending p) = None <-> Forall time_in_range (pending_times p).
Proof.
  unfold encode_pending, pending_times. rewrite e_err_time, Forall_app, Forall_singleton.
  unfold e_uuid, e_str. rewrite !e_err_bytes, e_err_bool, e_err_verified_list. simpl. tauto.
Qed.

(** ** What is written *)
Lemma writes_credential u : writes (e_credential u) (w_credential u).
Proof.
  apply (writes_compose (e_str _) (e_bytes _)); [apply writes_str|apply writes_bytes].
Qed.

Lemma writes_verified v : time_in_range (v_at v) -> writes (e_verified v) (w_verified v).
Proof.
  intros Ht e. unfold e_verified, w_verified.
  rewrite (writes_time _ Ht), writes_str, writes_bool, writes_bytes, writes_factors. simpl.
  by rewrite <- !app_assoc.
Qed.

(** One more field after the bytes written so far. *)
Lemma then_write f w e b : writes f w -> e_b e = b -> e_b (f e) = b ++ w.
Proof. intros Hf <-. by rewrite Hf. Qed.

Lemma encode_attrs_bytes a :
  Forall time_in_range (attrs_times a) ->
  e_b (encode_attrs a) = [byte_of_Z codecVersion; byte_of_Z tagAttrs] ++ w_attrs a.
Proof.
  unfold attrs_times. rewrite !Forall_cons. intros (H1 & H2 & H3 & H4 & _).
  etransitivity.
  - unfold encode_attrs.
    eapply (then_write _ _ _ _ (writes_time _ H4)).
    eapply (then_write _ _ _ _ (writes_time _ H3)).
    eapply (then_write _ _ _ _ (writes_str _)).
    eapply (then_write _ _ _ _ (writes_bytes _)).
    eapply (then_write _ _ _ _ (writes_str _)).
    eapply (then_write _ _ _ _ (writes_bool _)).
    eapply (then_write _ _ _ _ (writes_bool _)).
    eapply (then_write _ _ _ _ (writes_u64 _)).
    eapply (then_write _ _ _ _ (writes_time _ H2)).
    eapply (then_write _ _ _ _ (writes_time _ H1)).
    eapply (then_write _ _ _ _ (writes_fold e_credential w_credential _ (fun u _ => writes_credential u))).
    eapply (then_write _ _ _ _ (writes_count _)).
    eapply (then_write _ _ _ _ (writes_factors _)).
    eapply (then_write _ _ _ _ (writes_subject _ _)).
    eapply (then_write _ _ _ _ (writes_uuid _)). reflexivity.
  - unfold w_attrs. by rewrite <- !app_assoc.
Qed.

Lemma encode_pending_bytes p :
  Forall time_in_range (pending_times p) ->
  e_b (encode_pending p) = [byte_of_Z codecVersion; byte_of_Z tagPending] ++ w_pending p.
Proof.
  unfold pending_times. rewrite Forall_app, Forall_singleton, Forall_fmap. intros [Hv He].
  assert (forall v, v ∈ p_verified p -> writes (e_verified v) (w_verified v)) as Hw.
  { intros v Hin. apply writes_verified. rewrite Forall_forall in Hv. by apply Hv. }
  etransitivity.
  - unfold encode_pending.
    eapply (then_write _ _ _ _ (writes_time _ He)).
    eapply (then_write _ _ _ _ (writes_bytes _)).
    eapply (then_write _ _ _ _ (writes_uuid _)).
    eapply (then_write _ _ _ _ (writes_str _)).
    eapply (then_write _ _ _ _ (writes_bytes _)).
    eapply (then_write _ _ _ _ (writes_str _)).
    eapply (then_write _ _ _ _ (writes_bool _)).
    eapply (then_write _ _ _ _ (writes_fold e_verified w_verified _ Hw)).
    eapply (then_write _ _ _ _ (writes_count _)).
    eapply (then_write _ _ _ _ (writes_u64 _)).
    eapply (then_write _ _ _ _ (writes_subject _ _)). reflexivity.
  - unfold w_pending. by rewrite <- !app_assoc.
Qed.

Lemma e_finish_Ok e s :
  e_finish e = Ok s <-> e_err e = None /\ Z.of_nat (length (e_b e)) <= MaxSealedLen /\ s = e_b e.
Proof.
  unfold e_finish. destruct (e_err e); [naive_solver|].
  destruct (MaxSealedLen <? _) eqn:E; bools; split; intros; go_cases; try lia; auto.
  destruct H as (_ & _ & ->). done.
Qed.

Lemma checkAttrs_wf a : attrs_wf a -> checkAttrs a = None.
Proof.
  intros Ha. unfold checkAttrs.
  rewrite (proj2 (Z.eqb_neq _ _) (proj1 (aw_lineage _ Ha))), (proj2 (aw_subject _ Ha)),
    (aw_primary _ Ha), (aw_transport _ Ha). simpl.
  assert (existsb (fun u => negb (is_passkey_factor (cu_factor u)) || bool_decide (cu_id u = [])
    || negb (contains (a_factors a) (cu_factor u))) (a_credentialIDs a) = false) as ->; [|done].
  apply not_true_iff_false. rewrite existsb_exists. intros (u & Hu & Hx).
  rewrite <- list_elem_of_In in Hu. destruct (aw_creds _ Ha u Hu) as (H1 & H2 & H3).
  rewrite H1, bool_decide_eq_false_2 in Hx by done. apply contains_true in H3.
  by rewrite H3 in Hx.
Qed.

Lemma check_verified_list_wf p vs :
  (forall v, v ∈ vs -> verified_in p v) -> check_verified_list vs = None.
Proof.
  induction vs as [|v vs IH]; intros H; simpl; [done|].
  destruct (H v ltac:(left)) as [[_ Hs _ Hat] _ _ _].
  unfold time_IsZero. rewrite (proj2 (Z.eqb_neq _ _) Hat).
  apply checkVerifiedShape_None in Hs. rewrite Hs. apply IH. intros. apply H. by right.
Qed.

Lemma checkPending_wf p : pending_wf p -> checkPending p = None.
Proof.
  intros Hp. unfold checkPending, time_IsZero.
  rewrite (pw_transport _ Hp), (proj2 (Z.eqb_neq _ _)) by (pose proof (pw_expires _ Hp); lia).
  destruct (Bound p) eqn:Hb; simpl; rewrite ?andb_false_r, ?andb_true_r.
  - by apply (check_verified_list_wf p), pw_verified.
  - destruct (pw_unbound _ Hp Hb) as [_ ->]. done.
Qed.

(** When a well-formed value seals, and to what. *)
Lemma Seal_Ok a s :
  attrs_wf a ->
  (Seal a = Ok s <->
   Forall time_in_range (attrs_times a) /\ Z.of_nat (length (w_attrs a)) <= MaxSealedLen - 2 /\
   s = [byte_of_Z codecVersion; byte_of_Z tagAttrs] ++ w_attrs a).
Proof.
  intros Ha. unfold Seal. rewrite (aw_version _ Ha), (checkAttrs_wf _ Ha). simpl.
  rewrite e_finish_Ok, e_err_attrs. split.
  - intros (Ht & Hl & ->). rewrite encode_attrs_bytes in * by done. simpl length in Hl.
    split_and!; [done|lia|done].
  - intros (Ht & Hl & ->). rewrite encode_attrs_bytes by done. simpl length.
    split_and!; [done|lia|done].
Qed.

Lemma SealPending_Ok p s :
  pending_wf p ->
  (SealPending p = Ok s <->
   Forall time_in_range (pending_times p) /\
   Z.of_nat (length (w_pending p)) <= MaxSealedLen - 2 /\
   s = [byte_of_Z codecVersion; byte_of_Z tagPending] ++ w_pending p).
Proof.
  intros Hp. unfold SealPending. rewrite (pw_version _ Hp), (checkPending_wf _ Hp). simpl.
  rewrite e_finish_Ok, e_err_pending. split.
  - intros (Ht & Hl & ->). rewrite encode_pending_bytes in * by done. simpl length in Hl.
    split_and!; [done|lia|done].
  - intros (Ht & Hl & ->). rewrite encode_pending_bytes by done. simpl length.
    split_and!; [done|lia|done].
Qed.

(** ** What is read back *)

(** Field lengths are bounded by the sealed length, far below two to the 64. *)
Lemma small_bytes p n : (length (w_bytes p) <= n)%nat -> Z.of_nat n <= MaxSealedLen ->
  Z.of_nat (length p) < two64.
Proof. pose proof (w_bytes_length p). unfold MaxSealedLen, two64. lia. Qed.

Lemma small_count {A} (w : A -> bytes) (l : list A) n :
  (forall a, a ∈ l -> (1 <= length (w a))%nat) ->
  (length (concat (w <$> l)) <= n)%nat -> Z.of_nat n <= MaxSealedLen -> Z.of_nat (length l) < two64.
Proof.
  intros H. pose proof (concat_length_ge w l H). unfold MaxSealedLen, two64. lia.
Qed.

Lemma w_str_pos s : (1 <= length (w_str s))%nat.
Proof. pose proof (w_bytes_length (str_bytes s)). unfold w_str. lia. Qed.

Lemma small_factors fs n :
  (length (w_factors fs) <= n)%nat -> Z.of_nat n <= MaxSealedLen -> Z.of_nat (length fs) < two64.
Proof.
  unfold w_factors. rewrite length_app. intros.
  eapply (small_count (fun f => w_str (code f)) _ n); [intros; apply w_str_pos|lia|done].
Qed.

Lemma reads_credential u n :
  Valid (cu_factor u) = true -> (length (w_credential u) <= n)%nat -> Z.of_nat n <= MaxSealedLen ->
  reads d_credential (w_credential u) u.
Proof.
  unfold w_credential. rewrite length_app. intros Hv Hl Hn. eapply reads_bind; [by apply reads_factor|].
  eapply reads_map; [eapply reads_bytes, small_bytes; [|done]; lia|].
  destruct u. apply reads_ret.
Qed.

Lemma w_credential_pos u : (1 <= length (w_credential u))%nat.
Proof. unfold w_credential. rewrite length_app. pose proof (w_str_pos (code (cu_factor u))). lia. Qed.

Lemma reads_credentials us n :
  (forall u, u ∈ us -> Valid (cu_factor u) = true) ->
  (length (concat (w_credential <$> us)) <= n)%nat -> Z.of_nat n <= MaxSealedLen ->
  reads (n <- d_count ;; d_repeat (Z.to_nat n) d_credential [])
    (w_count (length us) ++ concat (w_credential <$> us)) us.
Proof.
  intros Hv Hl Hn. apply reads_counted.
  - eapply small_count; [intros; apply w_credential_pos|done..].
  - intros. apply w_credential_pos.
  - rewrite Nat2Z.id. apply (reads_repeat _ w_credential us []). intros u Hu.
    apply (reads_credential u n); [by apply Hv| |done].
    etransitivity; [by apply (concat_length_elem w_credential)|done].
Qed.

Lemma d_bind_assoc {A B C} (m : dec A) (k : A -> dec B) (h : B -> dec C) d :
  d_bind (d_bind m k) h d = d_bind m (fun a => d_bind (k a) h) d.
Proof. unfold d_bind. by destruct (m d). Qed.

Lemma reads_assoc {A B C} (m : dec A) (k : A -> dec B) (h : B -> dec C) w c :
  reads (d_bind (d_bind m k) h) w c -> reads (d_bind m (fun a => d_bind (k a) h)) w c.
Proof. intros H rest. rewrite <- d_bind_assoc. apply H. Qed.

Lemma transport_byte t : Transport_Valid t = true -> 0 <= t < 256.
Proof.
  unfold Transport_Valid, TransportCookies, TransportBearer.
  intros [H|H]%orb_true_iff; bools; lia.
Qed.

Lemma mkSubject_eta s : mkSubject (Tenant s) (User s) = s.
Proof. by destruct s. Qed.

Lemma decode_attrs_reads a :
  attrs_wf a -> Forall time_in_range (attrs_times a) ->
  Z.of_nat (length (w_attrs a)) <= MaxSealedLen -> reads decode_attrs (w_attrs a) a.
Proof.
  intros Ha Ht Hl. unfold attrs_times in Ht. rewrite !Forall_cons in Ht.
  destruct Ht as (H1 & H2 & H3 & H4 & _).
  set (n := length (w_attrs a)) in *.
  assert (Hle : (n <= n)%nat) by lia. unfold n at 1 in Hle. unfold w_attrs in Hle.
  rewrite !length_app in Hle. pose proof (aw_subject _ Ha) as [[? ?] _].
  unfold decode_attrs, w_attrs.
  eapply reads_bind; [by apply reads_uuid, Ha|].
  eapply reads_bind; [by apply reads_subject|]. rewrite mkSubject_eta.
  eapply reads_bind; [apply reads_factors; [apply Ha|eapply (small_factors _ n); [lia|done]]|].
  apply reads_assoc. eapply reads_bind.
  { apply (reads_credentials _ n); [|lia|done]. intros u Hu.
    destruct (aw_creds _ Ha u Hu) as (_ & _ & Hf).
    pose proof (fset_valid _ (aw_factors _ Ha)) as Hv. rewrite Forall_forall in Hv. by apply Hv. }
  eapply reads_bind; [by apply reads_time|]. eapply reads_bind; [by apply reads_time|].
  eapply reads_bind; [by apply reads_u64, Ha|].
  eapply reads_bind; [apply reads_bool|]. eapply reads_bind; [apply reads_bool|].
  eapply reads_bind; [apply reads_str, (small_bytes _ n); [unfold w_str in *; lia|done]|].
  eapply reads_bind; [apply reads_transport, transport_byte, Ha|].
  eapply reads_bind; [apply reads_str, (small_bytes _ n); [unfold w_str in *; lia|done]|].
  eapply reads_bind; [by apply reads_time|]. eapply reads_map; [by apply reads_time|].
  destruct Ha as [Hver]. destruct a. simpl in *. rewrite Hver. apply reads_ret.
Qed.

Lemma newDecoder_tag tag w :
  0 <= tag < 256 -> Z.of_nat (length w) <= MaxSealedLen - 2 ->
  newDecoder ([byte_of_Z codecVersion; byte_of_Z tag] ++ w) tag = Ok (mkDecoder w None).
Proof.
  intros Ht Hl. simpl. unfold codecVersion. rewrite !Z_of_byte_of_Z_small by lia.
  rewrite Z.eqb_refl. rewrite (proj2 (Z.ltb_ge _ _)) by lia. done.
Qed.

Lemma reads_all {A} (m : dec A) w a : reads m w a -> m (mkDecoder w None) = (a, mkDecoder [] None).
Proof. intros H. rewrite <- (app_nil_r w) at 1. apply H. Qed.

#[global] Arguments decode_attrs : simpl never.
#[global] Arguments decode_pending : simpl never.
#[global] Arguments newDecoder : simpl never.
#[global] Arguments w_attrs : simpl never.
#[global] Arguments w_pending : simpl never.

Lemma Unseal_decode s a d :
  newDecoder s tagAttrs = Ok d -> decode_attrs d = (a, mkDecoder [] None) ->
  checkAttrs a = None -> Seal a = Ok s -> Unseal s = Ok a.
Proof.
  intros Hd Ha Hc Hs. unfold Unseal. rewrite Hd. unfold mbind, res_bind. rewrite Ha.
  cbn [d_done d_err d_b]. rewrite bool_decide_eq_true_2 by done. rewrite Hc, Hs.
  unfold canonical. by rewrite bool_decide_eq_true_2.
Qed.

Lemma Unseal_Seal a s : attrs_wf a -> Seal a = Ok s -> Unseal s = Ok a.
Proof.
  intros Ha Hs. pose proof Hs as (Ht & Hl & ->)%Seal_Ok; [|done].
  eapply Unseal_decode; [by apply newDecoder_tag| |by apply checkAttrs_wf|done].
  apply reads_all, decode_attrs_reads; [done..|lia].
Qed.

(** *** Pending *)
Lemma w_verified_pos v : (1 <= length (w_verified v))%nat.
Proof.
  unfold w_verified, w_factors. rewrite !length_app. pose proof (w_count_pos (length (v_factors v))).
  lia.
Qed.

Lemma reads_verified p v n :
  verified_in p v -> time_in_range (v_at v) -> (length (w_verified v) <= n)%nat ->
  Z.of_nat n <= MaxSealedLen -> reads (d_verified (p_subject p)) (w_verified v) v.
Proof.
  intros [Hw Hs _ _] Ht Hl Hn. unfold w_verified in Hl. rewrite !length_app in Hl.
  unfold d_verified, w_verified.
  eapply reads_bind; [apply reads_factors; [by apply verified_wf_set|eapply small_factors; [|done]; lia]|].
  eapply reads_bind; [apply reads_bytes, (small_bytes _ n); [lia|done]|].
  eapply reads_bind; [apply reads_bool|].
  eapply reads_bind; [apply reads_str, (small_bytes _ n); [unfold w_str in *; lia|done]|].
  eapply reads_map; [by apply reads_time|]. rewrite <- Hs. destruct v. apply reads_ret.
Qed.

Lemma reads_verified_list p n :
  pending_wf p -> Forall time_in_range (v_at <$> p_verified p) ->
  (length (concat (w_verified <$> p_verified p)) <= n)%nat -> Z.of_nat n <= MaxSealedLen ->
  reads (n <- d_count ;; d_repeat (Z.to_nat n) (d_verified (p_subject p)) [])
    (w_count (length (p_verified p)) ++ concat (w_verified <$> p_verified p)) (p_verified p).
Proof.
  intros Hp Ht Hl Hn. apply reads_counted.
  - eapply small_count; [intros; apply w_verified_pos|done..].
  - intros. apply w_verified_pos.
  - rewrite Nat2Z.id. apply (reads_repeat _ w_verified _ []). intros v Hv.
    apply (reads_verified p v n); [by apply pw_verified| | |done].
    + rewrite Forall_fmap, Forall_forall in Ht. by apply Ht.
    + etransitivity; [by apply (concat_length_elem w_verified)|done].
Qed.

Lemma bound_subject p :
  pending_wf p ->
  (if Subject_IsZero (mkSubject (p_tenant p) (User (p_subject p))) then zero_Subject
   else mkSubject (p_tenant p) (User (p_subject p))) = p_subject p.
Proof.
  intros Hp. unfold Subject_IsZero. simpl. destruct (Bound p) eqn:Hb.
  - destruct (pw_bound _ Hp Hb) as [_ Ht]. unfold Bound, Subject_IsZero in Hb. bools.
    rewrite bool_decide_eq_false_2 by done. by rewrite <- Ht, mkSubject_eta.
  - destruct (pw_unbound _ Hp Hb) as [-> _]. done.
Qed.

Lemma decode_pending_reads p :
  pending_wf p -> Forall time_in_range (pending_times p) ->
  Z.of_nat (length (w_pending p)) <= MaxSealedLen -> reads decode_pending (w_pending p) p.
Proof.
  intros Hp Ht Hl. unfold pending_times in Ht. rewrite Forall_app, Forall_singleton in Ht.
  destruct Ht as (H1 & H2). set (n := length (w_pending p)) in *.
  assert (Hle : (n <= n)%nat) by lia. unfold n at 1 in Hle. unfold w_pending in Hle.
  rewrite !length_app in Hle.
  assert (uuid_ok (User (p_subject p))) as Hu.
  { destruct (Bound p) eqn:Hb; [apply (pw_bound _ Hp Hb)|].
    destruct (pw_unbound _ Hp Hb) as [-> _]. unfold uuid_ok. simpl. unfold uuid_Nil. lia. }
  unfold decode_pending, w_pending.
  eapply reads_bind; [by apply reads_subject; [apply Hp|]|]. rewrite bound_subject by done.
  eapply reads_bind; [by apply reads_u64, Hp|]. apply reads_assoc.
  eapply reads_bind; [apply (reads_verified_list p n); [done..|lia|done]|].
  eapply reads_bind; [apply reads_bool|].
  eapply reads_bind; [apply reads_str, (small_bytes _ n); [unfold w_str in *; lia|done]|].
  eapply reads_bind; [apply reads_transport, transport_byte, Hp|].
  eapply reads_bind; [apply reads_str, (small_bytes _ n); [unfold w_str in *; lia|done]|].
  eapply reads_bind; [by apply reads_uuid, Hp|].
  eapply reads_bind; [apply reads_bytes, (small_bytes _ n); [lia|done]|].
  eapply reads_map; [by apply reads_time|].
  destruct Hp as [Hver]. destruct p. simpl in *. rewrite Hver. apply reads_ret.
Qed.

Lemma UnsealPending_decode s p d :
  newDecoder s tagPending = Ok d -> decode_pending d = (p, mkDecoder [] None) ->
  checkPending p = None -> SealPending p = Ok s -> UnsealPending s = Ok p.
Proof.
  intros Hd Ha Hc Hs. unfold UnsealPending. rewrite Hd. unfold mbind, res_bind. rewrite Ha.
  cbn [d_done d_err d_b]. rewrite bool_decide_eq_true_2 by done. rewrite Hc, Hs.
  unfold canonical. by rewrite bool_decide_eq_true_2.
Qed.

Lemma UnsealPending_SealPending p s :
  pending_wf p -> SealPending p = Ok s -> UnsealPending s = Ok p.
Proof.
  intros Hp Hs. pose proof Hs as (Ht & Hl & ->)%SealPending_Ok; [|done].
  eapply UnsealPending_decode; [by apply newDecoder_tag| |by apply checkPending_wf|done].
  apply reads_all, decode_pending_reads; [done..|lia].
Qed.

(** ** The decoder on arbitrary bytes: what it returns without an error is well formed, and its
    error is always ErrMalformed. *)

(** [ensures m P]: a read that leaves no error started without one and returned a value
    satisfying [P]; its error, if any, is malformed whenever the one it started with was. *)
Definition malformed (d : decoder) : Prop :=
  forall e, d_err d = Some e -> Is e ErrMalformed = true.

Definition ensures {A} (m : dec A) (P : A -> Prop) : Prop :=
  forall d a d', m d = (a, d') ->
    (d_err d' = None -> d_err d = None /\ P a) /\ (malformed d -> malformed d').

Lemma ensures_ret {A} (a : A) (P : A -> Prop) : P a -> ensures (d_ret a) P.
Proof. intros Hp d b d' [= <- <-]. auto. Qed.

Lemma ensures_bind {A B} (m : dec A) (k : A -> dec B) (P : A -> Prop) (Q : B -> Prop) :
  ensures m P -> (forall a, P a -> ensures (k a) Q) -> (forall a, ensures (k a) (fun _ => True)) ->
  ensures (d_bind m k) Q.
Proof.
  intros Hm Hk Hk' d b d'. unfold d_bind. destruct (m d) as [a d1] eqn:E. intros Hb.
  destruct (Hm _ _ _ E) as [H1 H2], (Hk' a _ _ _ Hb) as [H3 H4]. split; [|auto].
  intros Hn. destruct (H3 Hn) as [Hn1 _]. destruct (H1 Hn1) as [Hn0 Hp].
  split; [done|]. by apply (Hk a Hp _ _ _ Hb).
Qed.

Lemma ensures_weaken {A} (m : dec A) (P Q : A -> Prop) :
  ensures m P -> (forall a, P a -> Q a) -> ensures m Q.
Proof. intros Hm H d a d' E. destruct (Hm _ _ _ E) as [H1 H2]. naive_solver. Qed.

Lemma ensures_true {A} (m : dec A) (P : A -> Prop) : ensures m P -> ensures m (fun _ => True).
Proof. intros. by eapply ensures_weaken. Qed.

Lemma d_fail_err msg d : d_err (d_fail msg d) <> None.
Proof. unfold d_fail. simpl. by destruct (d_err d). Qed.

Lemma d_fail_malformed msg d : malformed d -> malformed (d_fail msg d).
Proof.
  unfold malformed, d_fail. simpl. intros H e. destruct (d_err d); [auto|]. by intros [= <-].
Qed.

Lemma d_failed_None d : d_failed d = false <-> d_err d = None.
Proof. unfold d_failed. by destruct (d_err d). Qed.

Lemma d_failed_Some d : d_failed d = true -> d_err d <> None.
Proof. unfold d_failed. by destruct (d_err d). Qed.

(** Closes the branches of a read: a failure, or a step that keeps the error. *)
Ltac read_branch :=
  match goal with
  | |- (d_err (d_fail _ _) = None -> _) /\ _ =>
      split; [intros ?; exfalso; by eapply d_fail_err|apply d_fail_malformed]
  | H : d_failed ?d = true |- (d_err ?d = None -> _) /\ _ =>
      split; [intros ?; exfalso; by eapply d_failed_Some|done]
  end.

Lemma ensures_count : ensures d_count (fun _ => True).
Proof.
  intros d a d'. unfold d_count. destruct (d_failed d) eqn:Ef.
  - intros [= <- <-]. split; auto.
  - destruct (Uvarint (d_b d)) as [n k]. case_match; intros [= <- <-]; [read_branch|].
    split; auto.
Qed.

Lemma ensures_bytes : ensures d_bytes (fun _ => True).
Proof.
  intros d a d'. unfold d_bytes. destruct (d_count d) as [n d1] eqn:E.
  destruct (ensures_count _ _ _ E) as [H1 H2].
  repeat case_match; intros [= <- <-]; auto.
Qed.

Lemma ensures_fixed size :
  0 < size -> ensures (d_fixed size) (fun p => exists b, p = Some b /\ Z.of_nat (length b) = size).
Proof.
  intros Hs d a d'. unfold d_fixed. destruct (d_bytes d) as [p d1] eqn:E.
  destruct (ensures_bytes _ _ _ E) as [H1 H2].
  destruct (negb (d_failed d1) && _) eqn:Eg; intros [= <- <-].
  - split; [intros ?; exfalso; by eapply d_fail_err|]. intros. by apply d_fail_malformed, H2.
  - split; [|auto]. intros Hn. split; [by apply H1|].
    apply d_failed_None in Hn. rewrite Hn in Eg. simpl in Eg. bools.
    destruct p; [simpl in *; lia|]. eauto.
Qed.

Lemma ensures_str : ensures d_str (fun _ => True).
Proof.
  eapply ensures_bind; [apply ensures_bytes|..]; intros; by apply ensures_ret.
Qed.

Lemma be_fold_range l acc n :
  0 <= acc < 2 ^ (8 * n) -> 0 <= n ->
  0 <= fold_left (fun acc b => acc * 256 + Z_of_byte b) l acc < 2 ^ (8 * (n + Z.of_nat (length l))).
Proof.
  revert acc n. induction l as [|b l IH]; intros acc n Ha Hn; simpl.
  - by rewrite Z.add_0_r.
  - replace (n + Z.of_nat (S (length l))) with ((n + 1) + Z.of_nat (length l)) by lia.
    apply IH; [|lia]. pose proof (Z_of_byte_range b).
    replace (8 * (n + 1)) with (8 * n + 8) by lia. rewrite Z.pow_add_r by lia. lia.
Qed.

Lemma be_value_range l : 0 <= be_value l < 2 ^ (8 * Z.of_nat (length l)).
Proof. apply (be_fold_range l 0 0); lia. Qed.

Lemma ensures_u64 : ensures d_u64 is_u64.
Proof.
  eapply ensures_bind; [by apply ensures_fixed|..].
  - intros p (b & -> & Hl). apply ensures_ret. pose proof (be_value_range b) as Hr.
    rewrite Hl in Hr. done.
  - intros []; by apply ensures_ret.
Qed.

Lemma ensures_uuid : ensures d_uuid uuid_ok.
Proof.
  eapply ensures_bind; [by apply ensures_fixed|..].
  - intros p (b & -> & Hl). apply ensures_ret. pose proof (be_value_range b) as Hr.
    rewrite Hl in Hr. done.
  - intros []; by apply ensures_ret.
Qed.

Lemma ensures_bool : ensures d_bool (fun _ => True).
Proof.
  assert (forall p, ensures (match p with None => d_ret false | Some p => fun d =>
    let b := Z_of_byte (default Byte.x00 (head p)) in
    (b =? 1, if 1 <? b then d_fail "bad bool" d else d) end) (fun _ => True)) as H.
  { intros [p|]; [|by apply ensures_ret]. intros d a d' [= <- <-]. case_match; [read_branch|auto]. }
  eapply ensures_bind; [by apply ensures_fixed|auto..].
Qed.

Lemma ensures_time : ensures d_time (fun _ => True).
Proof.
  assert (forall p, ensures (fun d => if d_failed d || bool_decide (p = []) then (time_zero, d)
    else if negb (Z.of_nat (length p) =? 8) then (time_zero, d_fail "bad time" d)
    else (time_Unix_nano (i64_of_u64 (be_value p)), d)) (fun _ => True)) as H.
  { intros p d a d'. case_match; [intros [= <- <-]; auto|].
    case_match; intros [= <- <-]; [read_branch|auto]. }
  eapply ensures_bind; [apply ensures_bytes|auto..].
Qed.

Lemma ensures_transport : ensures d_transport (fun _ => True).
Proof.
  eapply ensures_bind; [by apply ensures_fixed|..]; intros []; intros; by apply ensures_ret.
Qed.

Lemma ensures_subject : ensures d_subject subject_wf.
Proof.
  assert (forall raw user P, (uuid_ok user -> True) -> (forall t, tenant_wf t -> P (mkSubject t user) : Prop) ->
    ensures (fun d => if d_failed d then (zero_Subject, d)
      else if bool_decide (raw = "") then (mkSubject zero_TenantID user, d)
      else match ParseTenantID raw with
      | Err _ => (zero_Subject, d_fail "bad tenant" d)
      | Ok t => (mkSubject t user, d)
      end) P) as H.
  { intros raw user P _ HP d a d'. case_match eqn:Ef; [intros [= <- <-]; read_branch|].
    case_bool_decide; [intros [= <- <-]; split; [|done]; intros; split; [done|apply HP; by left]|].
    destruct (ParseTenantID raw) as [t|] eqn:E; intros [= <- <-]; [|read_branch].
    split; [|done]. intros. split; [done|]. apply HP. by eapply ParseTenantID_wf. }
  assert (forall raw, ensures (user <- d_uuid ;; fun d => if d_failed d then (zero_Subject, d)
      else if bool_decide (raw = "") then (mkSubject zero_TenantID user, d)
      else match ParseTenantID raw with
      | Err _ => (zero_Subject, d_fail "bad tenant" d)
      | Ok t => (mkSubject t user, d)
      end) subject_wf) as H'.
  { intros raw. eapply ensures_bind; [apply ensures_uuid| |].
    - intros user Hu. apply H; [done|]. intros. by split.
    - intros user. by apply H. }
  eapply ensures_bind; [apply ensures_str|..]; intros raw; [done|]. eapply ensures_true, H'.
Qed.

Lemma ensures_factor : ensures d_factor (fun f => Valid f = true).
Proof.
  assert (forall c, ensures (fun d => if d_failed d then (zero_Factor, d)
    else match FactorByCode c with
    | Err _ => (zero_Factor, d_fail "unknown factor" d)
    | Ok f => (f, d)
    end) (fun f => Valid f = true)) as H.
  { intros c d a d'. case_match eqn:Ef; [intros [= <- <-]; read_branch|].
    unfold FactorByCode. destruct (factorTable !! c) as [i|] eqn:E; intros [= <- <-]; [|read_branch].
    split; [|done]. intros. split; [done|]. apply Valid_iff. simpl. eauto. }
  eapply ensures_bind; [apply ensures_str|..]; intros c; [done|]. eapply ensures_true, H.
Qed.

Lemma factor_set_snoc out f :
  factor_set out -> Valid f = true ->
  match last out with Some g => String.leb (code f) (code g) | None => false end = false ->
  factor_set (out ++ [f]).
Proof.
  intros [Hs Hn Hv] Hf Hl.
  assert (forall g, g ∈ out -> factor_le g f /\ g <> f) as Hall.
  { intros g Hg. destruct (last out) as [h|] eqn:E.
    - apply last_Some in E as [out' ->].
      assert (factor_le h f /\ h <> f) as [Hh Hne].
      { split.
        - destruct (total factor_le h f) as [|Hle]; [done|].
          unfold factor_le, String.le in Hle. by rewrite Hl in Hle.
        - intros ->. assert (String.le (code f) (code f)) as Hr by apply String.le_po.
          unfold String.le in Hr. by rewrite Hl in Hr. }
      apply elem_of_app in Hg as [Hg|Hg%list_elem_of_singleton]; [|by subst].
      assert (factor_le g h) as Hgh
        by (eapply (StronglySorted_app_1_elem_of factor_le out' [h]); [done..|by left]).
      split; [by etrans|]. intros ->. apply Hne. by apply (anti_symm factor_le).
    - apply last_None in E. subst. by apply elem_of_nil in Hg. }
  split.
  - apply StronglySorted_app_2; [|done|repeat constructor].
    intros x y Hx Hy%list_elem_of_singleton. subst. by apply Hall.
  - apply NoDup_app. split_and!; [done| |apply NoDup_singleton].
    intros g Hg Hgf%list_elem_of_singleton. by destruct (Hall g Hg).
  - apply Forall_app. split; [done|]. by apply Forall_singleton.
Qed.

(** Reading one more field: what is known of it becomes a premise of the rest. *)
Lemma ensures_field {A B} (m : dec A) (k : A -> dec B) (P : A -> Prop) (R : B -> Prop) :
  ensures m P -> (forall a, ensures (k a) (fun b => P a -> R b)) -> ensures (d_bind m k) R.
Proof.
  intros Hm Hk. eapply ensures_bind; [done| |].
  - intros a Hp. eapply ensures_weaken; [apply Hk|]. auto.
  - intros a. by eapply ensures_true.
Qed.

Lemma ensures_factors_loop n out :
  ensures (d_factors_loop n out) (fun r => factor_set out -> factor_set r).
Proof.
  revert out. induction n as [|n IH]; intros out; simpl; [by apply ensures_ret|].
  apply (ensures_field _ _ _ _ ensures_factor).
  intros f d a d'. case_match eqn:Ef; [intros [= <- <-]; read_branch|].
  match goal with |- context [if ?b then _ else _] => destruct b eqn:Hl end;
    [intros [= <- <-]; read_branch|].
  intros H. destruct (IH _ _ _ _ H) as [H1 H2]. split; [|done].
  intros Hn. destruct (H1 Hn) as [? H3]. split; [done|]. intros. by apply H3, factor_set_snoc.
Qed.

Lemma ensures_factors : ensures d_factors factor_set.
Proof.
  apply (ensures_field _ _ _ _ ensures_count). intros n. eapply ensures_weaken; [apply ensures_factors_loop|]. intros. auto using factor_set_nil.
Qed.

Lemma ensures_repeat {A} (item : dec A) (P : A -> Prop) n out :
  ensures item P ->
  ensures (d_repeat n item out) (fun r => Forall P out -> Forall P r).
Proof.
  intros Hi. revert out. induction n as [|n IH]; intros out; simpl; [by apply ensures_ret|].
  apply (ensures_field _ _ _ _ Hi). intros a. eapply ensures_weaken; [apply IH|].
  intros r Hr Ha Ho. apply Hr, Forall_app. split; [done|]. by apply Forall_singleton.
Qed.

Lemma ensures_credential : ensures d_credential (fun _ => True).
Proof.
  apply (ensures_field _ _ _ _ ensures_factor). intros f.
  apply (ensures_field _ _ _ _ ensures_bytes). intros. by apply ensures_ret.
Qed.

(** What decode_attrs returns without an error. *)
Record decoded (a : SessionAttrs) : Prop := {
  dc_version : a_version a = codecVersion;
  dc_lineage : uuid_ok (a_lineage a);
  dc_subject : subject_wf (a_subject a);
  dc_factors : factor_set (a_factors a);
  dc_epoch : is_u64 (a_epoch a) }.

Lemma ensures_decode_attrs : ensures decode_attrs decoded.
Proof.
  unfold decode_attrs.
  apply (ensures_field _ _ _ _ ensures_uuid). intros lineage.
  apply (ensures_field _ _ _ _ ensures_subject). intros subject.
  apply (ensures_field _ _ _ _ ensures_factors). intros factors.
  apply (ensures_field _ _ _ _ ensures_count). intros n.
  apply (ensures_field _ _ _ _ (ensures_repeat _ _ _ [] ensures_credential)). intros creds.
  apply (ensures_field _ _ _ _ ensures_time). intros primaryAt.
  apply (ensures_field _ _ _ _ ensures_time). intros secondAt.
  apply (ensures_field _ _ _ _ ensures_u64). intros epoch.
  apply (ensures_field _ _ _ _ ensures_bool). intros mustChange.
  apply (ensures_field _ _ _ _ ensures_bool). intros remember.
  apply (ensures_field _ _ _ _ ensures_str). intros returnTo.
  apply (ensures_field _ _ _ _ ensures_transport). intros transport.
  apply (ensures_field _ _ _ _ ensures_str). intros provider.
  apply (ensures_field _ _ _ _ ensures_time). intros createdAt.
  apply (ensures_field _ _ _ _ ensures_time). intros claimsFetchedAt.
  apply ensures_ret. intros. by split.
Qed.

Lemma newDecoder_spec s tag :
  match newDecoder s tag with
  | Ok d => d_err d = None
  | Err e => Is e ErrMalformed = true
  end.
Proof.
  unfold newDecoder. destruct s as [|b0 [|b1 s]]; [done..|].
  destruct (MaxSealedLen <? _); [done|]. destruct (negb _); [done|]. by destruct (negb _).
Qed.

Lemma checkAttrs_None a :
  checkAttrs a = None ->
  a_lineage a <> uuid_Nil /\ Subject_IsZero (a_subject a) = false /\
  hasRole (a_factors a) RolePrimary = true /\ Transport_Valid (a_transport a) = true /\
  forall u, u ∈ a_credentialIDs a ->
    is_passkey_factor (cu_factor u) = true /\ cu_id u <> [] /\ cu_factor u ∈ a_factors a.
Proof.
  unfold checkAttrs. destruct (_ || _ || _ || _) eqn:E1; [done|].
  destruct (existsb _ _) eqn:E2; [done|]. intros _. bools. split_and!; try done.
  intros u Hu. rewrite <- not_true_iff_false, existsb_exists in E2.
  destruct (negb (is_passkey_factor (cu_factor u)) || bool_decide (cu_id u = [])
    || negb (contains (a_factors a) (cu_factor u))) eqn:E3.
  - exfalso. apply E2. exists u. by rewrite <- list_elem_of_In.
  - bools. split_and!; try done. by apply contains_true.
Qed.

Lemma decoded_wf a : decoded a -> checkAttrs a = None -> attrs_wf a.
Proof. intros [] (? & ? & ? & ? & ?)%checkAttrs_None. by split. Qed.

Lemma Unseal_spec s :
  match Unseal s with
  | Ok a => attrs_wf a /\ Seal a = Ok s
  | Err e => Is e ErrMalformed = true
  end.
Proof.
  unfold Unseal. pose proof (newDecoder_spec s tagAttrs) as Hd.
  destruct (newDecoder s tagAttrs) as [d|e]; [|done]. unfold mbind, res_bind.
  destruct (decode_attrs d) as [a d'] eqn:E. destruct (ensures_decode_attrs _ _ _ E) as [H1 H2].
  assert (malformed d') as Hm by (apply H2; unfold malformed; rewrite Hd; done).
  unfold d_done. destruct (d_err d') as [e|] eqn:Ee; [by apply Hm|].
  destruct H1 as [_ Hdec]; [done|].
  case_bool_decide; [|done].
  destruct (checkAttrs a) as [e|] eqn:Hc; [done|]. unfold canonical.
  destruct (Seal a) as [out|e] eqn:Hs; [|done].
  case_bool_decide; [|done]. subst. auto using decoded_wf.
Qed.

(** ** The guarantees of the codec: sealed values round-trip, are canonical and never mix. *)

(** every session a program can hold seals exactly when its four instants are zero or
    within the int64 nanosecond range and the encoding fits MaxSealedLen, and whatever Seal
    wrote, Unseal reads back as the very same session. *)
Theorem sealed_sessions_round_trip a :
  session a ->
  (is_Ok (Seal a) <->
   Forall time_in_range (attrs_times a) /\ Z.of_nat (length (w_attrs a)) <= MaxSealedLen - 2) /\
  (forall s, Seal a = Ok s -> Unseal s = Ok a).
Proof.
  intros Ha%session_wf. split; [|intros s; by apply Unseal_Seal]. split.
  - intros [s Hs]. apply Seal_Ok in Hs as (? & ? & _); auto.
  - intros [? ?]. eexists. apply Seal_Ok; eauto.
Qed.

Lemma sealed_sessions_round_trip_witness :
  is_Ok (Seal session0) /\ Unseal (get_ok [] (Seal session0)) = Ok session0.
Proof.
  split; [eexists; vm_compute; reflexivity|].
  apply (sealed_sessions_round_trip session0 session0_session). vm_compute. reflexivity.
Defined.

(** every pending of a journey seals exactly when its instants are in range and the encoding
    fits MaxSealedLen, and UnsealPending reads back the very same pending, the subject of each
    verification included (the codec stores it once, on the pending). *)
Theorem sealed_pendings_round_trip p :
  journey p ->
  (is_Ok (SealPending p) <->
   Forall time_in_range (pending_times p) /\
   Z.of_nat (length (w_pending p)) <= MaxSealedLen - 2) /\
  (forall s, SealPending p = Ok s -> UnsealPending s = Ok p).
Proof.
  intros Hp%journey_wf. split; [|intros s; by apply UnsealPending_SealPending]. split.
  - intros [s Hs]. apply SealPending_Ok in Hs as (? & ? & _); auto.
  - intros [? ?]. eexists. apply SealPending_Ok; eauto.
Qed.

Lemma sealed_pendings_round_trip_witness :
  is_Ok (SealPending login2) /\ UnsealPending (get_ok [] (SealPending login2)) = Ok login2.
Proof.
  split; [eexists; vm_compute; reflexivity|].
  apply (sealed_pendings_round_trip login2 login2_journey). vm_compute. reflexivity.
Defined.

(** C6: Unseal is total on arbitrary bytes.  It either fails with ErrMalformed, or returns
    well-formed attributes whose canonical encoding is exactly the input; hence no two byte
    strings unseal to the same session. *)
Theorem unseal_accepts_only_canonical_bytes s :
  match Unseal s with
  | Ok a => attrs_wf a /\ Seal a = Ok s /\ (forall s', Unseal s' = Ok a -> s' = s)
  | Err e => Is e ErrMalformed = true
  end.
Proof.
  pose proof (Unseal_spec s) as H. destruct (Unseal s) as [a|e]; [|done].
  destruct H as [Ha Hs]. split_and!; [done..|]. intros s' Hs'.
  pose proof (Unseal_spec s') as H'. rewrite Hs' in H'. destruct H' as [_ H']. congruence.
Qed.

(** the type tag keeps the two sealed kinds apart: a sealed session is never accepted as a
    pending, nor a sealed pending as a session, and both attempts fail with ErrMalformed. *)
Theorem sealed_kinds_never_mix a p s :
  (session a -> Seal a = Ok s -> fails_with (UnsealPending s) ErrMalformed) /\
  (journey p -> SealPending p = Ok s -> fails_with (Unseal s) ErrMalformed).
Proof.
  assert (forall tag tag' w, 0 <= tag < 256 -> tag <> tag' ->
    fails_with (newDecoder ([byte_of_Z codecVersion; byte_of_Z tag] ++ w) tag') ErrMalformed) as H.
  { intros tag tag' w Ht Hne. unfold newDecoder. simpl app.
    destruct (MaxSealedLen <? _); [eexists; split; [done|done]|].
    destruct (negb _); [eexists; split; [done|done]|].
    rewrite Z_of_byte_of_Z_small by done. rewrite (proj2 (Z.eqb_neq _ _) Hne).
    eexists. split; [done|done]. }
  split.
  - intros Ha%session_wf Hs. apply Seal_Ok in Hs as (_ & _ & ->); [|done].
    destruct (H tagAttrs tagPending (w_attrs a)) as (e & He & Hi); [done..|].
    exists e. unfold UnsealPending. by rewrite He.
  - intros Hp%journey_wf Hs. apply SealPending_Ok in Hs as (_ & _ & ->); [|done].
    destruct (H tagPending tagAttrs (w_pending p)) as (e & He & Hi); [done..|].
    exists e. unfold Unseal. by rewrite He.
Qed.

Lemma sealed_kinds_never_mix_witness :
  is_Ok (Seal session0) /\ fails_with (UnsealPending (get_ok [] (Seal session0))) ErrMalformed.
Proof.
  split; [eexists; vm_compute; reflexivity|].
  apply (sealed_kinds_never_mix session0 login2 (get_ok [] (Seal session0)));
    [apply session0_session|vm_compute; reflexivity].
Defined.
