(* ===== verification/StoreBase.v ===== *)
(** What the in-memory stores share: the contracts of store/store.go (durability, replication
    cursor), the revocation feed kept by store/sessions/memory and store/tokens/memory, and the
    standard library's [slices.BinarySearchFunc] and [slices.SortFunc] they read it with.

    An operation of a store takes the error of its context (None when the context is live), the
    reading of the store clock where it makes one, and the state; it returns the new state with
    its result.  The mutex makes each operation one atomic step. *)
From S2P Require Import Prelude Errors Tenant.

(** The error of a [context.Context], if it is done. *)
Abbreviation Ctx := (option error) (only parsing).

(** [Durability] *)
Abbreviation Durability := Z (only parsing).

Definition Ephemeral : Durability := 1.

Definition Shared : Durability := 2.

Definition Durability_Valid (d : Durability) : bool := (d =? Ephemeral) || (d =? Shared).

Definition Durability_String (d : Durability) : string :=
  if d =? Ephemeral then "ephemeral" else if d =? Shared then "shared" else "invalid".

(** [Cursor] *)
Record Cursor := RestoreCursor { Position : Z }.

Definition Cursor_IsZero (c : Cursor) : bool := Position c =? 0.

Definition Cursor_After (c o : Cursor) : bool := Position o <? Position c.

(** [s.clk.Now().UTC().Truncate(time.Microsecond)] *)
Definition store_now (clk : time) : time := time_Truncate clk Microsecond.

Definition nonEmpty (b : bytes) : bytes := if Z.of_nat (length b) =? 0 then [] else b.

Lemma nonEmpty_id b : nonEmpty b = b.
Proof. unfold nonEmpty. case_match; bools; [|done]. destruct b; [done|simpl in *; lia]. Qed.

(** ** Binary search

    The loop of [slices.BinarySearchFunc] on a slice [x] with the sign of [cmp(x[h], target)]
    given by [lt h]; the interval halves at each turn, so [length x] turns are enough. *)
Fixpoint bsearch_loop (fuel : nat) (lt : nat -> bool) (i j : nat) : nat :=
  match fuel with
  | O => i
  | S fuel' =>
      if (i <? j)%nat
      then let h := ((i + j) / 2)%nat in
           if lt h then bsearch_loop fuel' lt (S h) j else bsearch_loop fuel' lt i h
      else i
  end.

Lemma bsearch_loop_spec fuel lt i j n :
  (j - i <= fuel)%nat -> (i <= n <= j)%nat ->
  (forall h, (i <= h < j)%nat -> lt h = true <-> (h < n)%nat) ->
  bsearch_loop fuel lt i j = n.
Proof.
  revert i j. induction fuel as [|fuel IH]; intros i j Hf Hn Hlt;
    cbn [bsearch_loop]; [lia|].
  destruct (Nat.ltb_spec i j); [|lia].
  assert (i <= (i + j) / 2 < j)%nat.
  { split; [apply Nat.div_le_lower_bound; lia|apply Nat.Div0.div_lt_upper_bound; lia]. }
  set (h := ((i + j) / 2)%nat) in *.
  pose proof (Hlt h ltac:(lia)) as Hh.
  destruct (lt h).
  - assert (h < n)%nat by (apply Hh; done).
    apply IH; [lia|lia|]. intros. apply Hlt. lia.
  - assert (~ (h < n)%nat) by (intros X; apply Hh in X; done).
    apply IH; [lia|lia|]. intros. apply Hlt. lia.
Qed.

(** ** The revocation feed

    Entries are appended with the next position and dropped once [expires] is past; [R] is the
    store's Revocation. *)
Section feed.
Context {R : Type}.

Record revocation := mkEntry { seq : Z; rev : R; expires : time }.

(** [slices.BinarySearchFunc(s.feed, pos, ...)], its index result. *)
Definition feed_search (feed : list revocation) (pos : Z) : nat :=
  bsearch_loop (length feed)
    (fun h => match feed !! h with Some r => seq r <? pos | None => false end)
    0 (length feed).

(** The body of RevocationsSince: the position after the cursor is found by binary search and
    the cursor moves to the last entry returned. *)
Definition feed_since (feed : list revocation) (c : Cursor) : list R * Cursor :=
  let i := feed_search feed (u64 (Position c + 1)) in
  fold_left (fun '(out, last) r => (out ++ [rev r], RestoreCursor (seq r)))
    (drop i feed) ([], c).

(** The loop of ReapExpired over the feed: the kept entries and how many were dropped. *)
Definition feed_reap (feed : list revocation) (now : time) : list revocation * Z :=
  fold_left (fun '(kept, n) r =>
      if time_Before now (expires r) then (kept ++ [r], n) else (kept, n + 1))
    feed ([], 0).

(** [feed_ok feed top]: positions are positive, strictly increasing and at most [top], the
    counter the next append increments. *)
Definition feed_ok (feed : list revocation) (top : Z) : Prop :=
  StronglySorted (fun a b => seq a < seq b) feed /\
  Forall (fun r => 0 < seq r <= top) feed.

Lemma feed_ok_nil top : feed_ok [] top.
Proof. split; constructor. Qed.

Lemma feed_ok_snoc feed top r e :
  feed_ok feed top -> 0 <= top < two64 - 1 ->
  feed_ok (feed ++ [mkEntry (u64 (top + 1)) r e]) (u64 (top + 1)).
Proof.
  intros [Hs Hf] Ht. rewrite u64_small by (unfold is_u64; lia). split.
  - induction Hs as [|x l Hs IH Hx]; simpl.
    + repeat constructor.
    + apply Forall_cons in Hf as [Hx' Hf]. constructor; [by apply IH|].
      apply Forall_app. split; [done|]. repeat constructor; simpl. lia.
  - apply Forall_app. split; [|repeat constructor; simpl; lia].
    eapply Forall_impl; [done|]. simpl. lia.
Qed.

Lemma feed_ok_filter feed top (P : revocation -> Prop) `{!forall r, Decision (P r)} :
  feed_ok feed top -> feed_ok (filter P feed) top.
Proof.
  intros [Hs Hf]. split.
  - clear Hf. induction Hs as [|x l Hs IH Hx]; [constructor|]. rewrite filter_cons.
    case_decide; [|done]. constructor; [done|].
    rewrite Forall_forall in *. intros y [_ ?]%list_elem_of_filter. auto.
  - rewrite Forall_forall in *. intros y [_ ?]%list_elem_of_filter. auto.
Qed.

Lemma feed_reap_spec feed now :
  feed_reap feed now =
  (filter (fun r => now < expires r) feed,
   Z.of_nat (length (filter (fun r => ~ now < expires r) feed))).
Proof.
  unfold feed_reap, time_Before.
  assert (forall l k0 n0,
    fold_left (fun '(kept, n) r => if now <? expires r then (kept ++ [r], n) else (kept, n + 1))
      l (k0, n0) =
    (k0 ++ filter (fun r => now < expires r) l,
     n0 + Z.of_nat (length (filter (fun r => ~ now < expires r) l)))) as H.
  { induction l as [|r l IH]; intros k0 n0; simpl.
    - rewrite app_nil_r. f_equal. lia.
    - rewrite !filter_cons. destruct (Z.ltb_spec now (expires r)); rewrite IH.
      + rewrite decide_True, decide_False by (done || lia). by rewrite <- app_assoc.
      + rewrite decide_False, decide_True by (done || lia). simpl. f_equal. lia. }
  rewrite H. done.
Qed.

(** A strictly increasing feed is split by any position into a prefix and a suffix. *)
Lemma feed_split (feed : list revocation) (p : Z) :
  StronglySorted (fun a b => seq a < seq b) feed ->
  exists n : nat, (n <= length feed)%nat /\
    (forall h r, feed !! h = Some r -> seq r < p <-> (h < n)%nat) /\
    drop n feed = filter (fun r => p <= seq r) feed.
Proof.
  induction 1 as [|x l Hs IH Hx]; [exists 0%nat; repeat split; try done; lia|].
  destruct IH as (n & Hn & Hlt & Hd). destruct (Z_lt_le_dec (seq x) p).
  - exists (S n). split; [simpl; lia|]. split.
    + intros [|h] r Hr; simpl in Hr; [simplify_eq; split; [lia|done]|].
      rewrite (Hlt _ _ Hr). lia.
    + rewrite filter_cons, decide_False by lia. done.
  - assert (Forall (fun r => p <= seq r) (x :: l)) as Hall.
    { constructor; [done|]. eapply Forall_impl; [done|]. simpl. lia. }
    exists 0%nat. split; [lia|]. split.
    + intros h r Hr. rewrite Forall_lookup in Hall. specialize (Hall _ _ Hr). simpl in *. lia.
    + rewrite drop_0. symmetry. induction Hall; [done|]. rewrite filter_cons, decide_True by done.
      by f_equal.
Qed.

Lemma fold_since (l : list revocation) (c : Cursor) out :
  fold_left (fun '(out, last) r => (out ++ [rev r], RestoreCursor (seq r))) l (out, c)
  = (out ++ map rev l, match last l with Some r => RestoreCursor (seq r) | None => c end).
Proof.
  revert c out. induction l as [|r l IH]; intros c out; [by rewrite app_nil_r|].
  rewrite last_cons. cbn [fold_left map]. rewrite IH, <- app_assoc. simpl. by destruct (last l).
Qed.

Lemma filter_all_id (P : revocation -> Prop) `{!forall r, Decision (P r)} l :
  Forall P l -> filter P l = l.
Proof. induction 1; [done|]. rewrite filter_cons, decide_True by done. by f_equal. Qed.

Lemma filter_nil_all (P : revocation -> Prop) `{!forall r, Decision (P r)} l :
  Forall (fun r => ~ P r) l -> filter P l = [].
Proof. induction 1; [done|]. by rewrite filter_cons, decide_False. Qed.

(** The binary search finds exactly the entries after the cursor, in order. *)
Lemma feed_since_spec feed top c :
  feed_ok feed top -> 0 <= Position c < two64 - 1 ->
  let new := filter (fun r => Position c < seq r) feed in
  feed_since feed c =
  (map rev new, match last new with Some r => RestoreCursor (seq r) | None => c end).
Proof.
  intros [Hs _] Hc new. unfold feed_since. rewrite u64_small by (unfold is_u64; lia).
  destruct (feed_split feed (Position c + 1) Hs) as (n & Hn & Hlt & Hd).
  assert (feed_search feed (Position c + 1) = n) as ->.
  { apply bsearch_loop_spec; [lia|lia|]. intros h Hh.
    destruct (feed !! h) as [r|] eqn:E; [|apply lookup_ge_None in E; lia].
    rewrite Z.ltb_lt. eauto. }
  rewrite Hd, fold_since. simpl.
  assert (filter (fun r => Position c + 1 <= seq r) feed = new) as ->; [|done].
  subst new. apply list_filter_iff. intros. lia.
Qed.

(** After a poll, the cursor is at or past every entry of the feed. *)
Lemma polled_position feed top c0 c :
  feed_ok feed top -> 0 <= Position c0 <= top ->
  match last (filter (fun r => Position c0 < seq r) feed) with
  | Some r => RestoreCursor (seq r)
  | None => c0
  end = c ->
  Position c0 <= Position c <= top /\ Forall (fun e => seq e <= Position c) feed.
Proof.
  intros Hok Hc0 <-. set (new := filter _ feed).
  assert (feed_ok new top) as [Hs Hf] by (by apply feed_ok_filter).
  assert (forall e, e ∈ feed -> seq e <= Position c0 \/ e ∈ new) as Hcase.
  { intros e He. destruct (Z_lt_le_dec (Position c0) (seq e)); [|by left]. right.
    by apply list_elem_of_filter. }
  destruct (last new) as [r|] eqn:E; simpl.
  - apply last_Some in E as [l' E].
    assert (Position c0 < seq r) as Hr.
    { assert (r ∈ new) as Hr by (rewrite E; set_solver). by apply list_elem_of_filter in Hr as [? _]. }
    assert (forall e, e ∈ new -> seq e <= seq r) as Hle.
    { rewrite E in Hs |- *. clear -Hs. induction l' as [|x l' IH]; simpl in *.
      - intros e. rewrite list_elem_of_singleton. by intros ->.
      - inversion Hs as [|? ? Hs' Hx]; subst. intros e [->|He]%elem_of_cons; [|auto].
        rewrite Forall_forall in Hx. specialize (Hx r). assert (r ∈ l' ++ [r]) by set_solver.
        specialize (Hx H). lia. }
    rewrite E in Hf. apply Forall_app in Hf as [_ Hf]. inversion Hf; subst.
    split; [lia|]. apply Forall_forall. intros e [?|?]%Hcase; [lia|auto].
  - apply last_None in E. split; [lia|]. apply Forall_forall.
    intros e [?|He]%Hcase; [done|]. rewrite E in He. by apply not_elem_of_nil in He.
Qed.

(** Polling again with the cursor of an earlier poll returns what was appended in between. *)
Lemma poll_after feed top feed' top' new c0 revs c :
  feed_ok feed top -> 0 <= Position c0 <= top -> top <= top' < two64 - 1 ->
  feed_since feed c0 = (revs, c) ->
  feed' = feed ++ new -> feed_ok feed' top' -> Forall (fun e => top < seq e) new ->
  (feed_since feed' c).1 = map rev new.
Proof.
  intros Hok Hc0 Htop Hpoll -> Hok' Hnew.
  rewrite (feed_since_spec feed top) in Hpoll by (done || lia). injection Hpoll as _ Hc.
  destruct (polled_position feed top c0 c Hok Hc0 Hc) as [Hpos Hold].
  rewrite (feed_since_spec _ top') by (done || lia). simpl. f_equal.
  rewrite filter_app, (filter_nil_all _ feed), filter_all_id; [done| |].
  - eapply Forall_impl; [exact Hnew|]. simpl. lia.
  - eapply Forall_impl; [exact Hold|]. simpl. lia.
Qed.
End feed.
Arguments revocation : clear implicits.
