(* ===== verification/SessionRecord.v ===== *)
(** Stateful session records: store/sessions/record.go and the request types of
    store/sessions/store.go.

    The module [Sessions] holds the package's names; store/sessions/memory is the file
    SessionStore. *)
From S2P Require Import Prelude Errors Tenant Factor Attrs Pending Codec.

Module Sessions.

Definition maxClockSkew : duration := Minute.

Definition HashLen : Z := 32.

Definition MaxFingerprintLen : Z := 64.

Definition MaxAppClaimsLen : Z := Z.shiftl 16 10.

(** [AttrsSealer]; [None] is the nil function. *)
Definition AttrsSealer : Type := option (SessionAttrs -> res Sealed).

Record Spec := mkSpec {
  sp_ID : uuid;
  sp_TokenHash : bytes;
  sp_Attrs : SessionAttrs;
  sp_AppClaims : bytes;
  sp_ClientFingerprint : bytes;
  sp_IdleTTL : duration;
  sp_MaxLifetime : duration;
  sp_Now : time }.

(** [Record], the value the rest of the library holds. *)
Record Rec := mkRec {
  id : uuid;
  tokenHash : bytes;
  subject : Subject;
  lineage : uuid;
  sealed : Sealed;
  appClaims : bytes;
  r_epoch : Z;
  clientFingerprint : bytes;
  idleExpiresAt : time;
  absoluteExpiresAt : time;
  checkedAt : time;
  createdAt : time }.

(** [Row], the persisted shape of a record. *)
Record Row := mkRow {
  ID : uuid;
  TokenHash : bytes;
  RSubject : Subject;
  Lineage : uuid;
  RSealed : Sealed;
  AppClaims : bytes;
  SecurityEpoch : Z;
  ClientFingerprint : bytes;
  IdleExpiresAt : time;
  AbsoluteExpiresAt : time;
  CheckedAt : time;
  CreatedAt : time }.

Definition checkRow (r : Row) : option error :=
  if (ID r =? uuid_Nil) || (Lineage r =? uuid_Nil)
  then Some (New "id and lineage are required")
  else if negb (Z.of_nat (length (TokenHash r)) =? HashLen)
  then Some (New "token hash must be a SHA-256 digest")
  else if Subject_IsZero (RSubject r)
  then Some (New "subject is required")
  else if Z.of_nat (length (RSealed r)) =? 0
  then Some (New "sealed session attributes are required")
  else if MaxAppClaimsLen <? Z.of_nat (length (AppClaims r))
  then Some (New "application claims are too large")
  else if MaxFingerprintLen <? Z.of_nat (length (ClientFingerprint r))
  then Some (New "client fingerprint is too long")
  else if time_IsZero (CreatedAt r) || time_IsZero (CheckedAt r)
          || time_IsZero (IdleExpiresAt r) || time_IsZero (AbsoluteExpiresAt r)
  then Some (New "creation, check and expiry times are required")
  else if time_After (CreatedAt r) (AbsoluteExpiresAt r)
          || time_Before (CheckedAt r) (time_Add (CreatedAt r) (- maxClockSkew))
  then Some (New "creation must not follow the absolute expiry and the last check must not precede creation")
  else if negb (time_After (IdleExpiresAt r) (CheckedAt r))
          || time_After (IdleExpiresAt r) (AbsoluteExpiresAt r)
  then Some (New "idle expiry must fall after the last check and within the absolute lifetime")
  else None.

Definition Restore (r : Row) : res Rec :=
  match checkRow r with
  | Some err => Err (Join SErrInvalidRecord err)
  | None =>
      Ok (mkRec (ID r) (TokenHash r) (RSubject r) (Lineage r) (RSealed r) (AppClaims r)
            (SecurityEpoch r) (ClientFingerprint r) (IdleExpiresAt r) (AbsoluteExpiresAt r)
            (CheckedAt r) (CreatedAt r))
  end.

Definition NewRecord (s : Spec) (seal : AttrsSealer) : res Rec :=
  if SessionAttrs_IsZero (sp_Attrs s) || time_IsZero (a_createdAt (sp_Attrs s))
  then Err (Join SErrInvalidRecord (New "session attributes are not set"))
  else match seal with
  | None => Err (Join SErrInvalidRecord (New "a sealer is required"))
  | Some seal =>
      if (sp_IdleTTL s <=? 0) || (sp_MaxLifetime s <=? 0) || time_IsZero (sp_Now s)
      then Err (Join SErrInvalidRecord (New "lifetimes and writing time are required"))
      else if time_Before (sp_Now s) (time_Add (a_createdAt (sp_Attrs s)) (- maxClockSkew))
      then Err (Join SErrInvalidRecord (New "writing time precedes the lineage admission"))
      else
        let end_ := time_Add (a_createdAt (sp_Attrs s)) (sp_MaxLifetime s) in
        if negb (time_Before (sp_Now s) end_) then Err SErrLifetimeExceeded
        else
          let idle := time_Add (sp_Now s) (sp_IdleTTL s) in
          let idle := if time_After idle end_ then end_ else idle in
          match seal (sp_Attrs s) with
          | Err err => Err (Join SErrInvalidRecord err)
          | Ok sealed =>
              Restore (mkRow (sp_ID s) (sp_TokenHash s) (a_subject (sp_Attrs s))
                         (a_lineage (sp_Attrs s)) sealed (sp_AppClaims s)
                         (a_epoch (sp_Attrs s)) (sp_ClientFingerprint s) idle end_
                         (sp_Now s) (sp_Now s))
          end
  end.

Definition Rec_Tenant (r : Rec) : TenantID := Tenant (subject r).

Definition IsZero (r : Rec) : bool := id r =? uuid_Nil.

Record RotateRequest := mkRotateRequest { rot_Previous : bytes; rot_Next : Rec }.

Record ReplaceRequest := mkReplaceRequest { rep_Previous : uuid; rep_Next : Rec }.

Record Revocation := mkRevocation { rv_Tenant : TenantID; rv_Session : uuid; rv_At : time }.

(** The assignments [r.IdleExpiresAt = until] and [row.CreatedAt = r.CreatedAt]. *)
Definition set_IdleExpiresAt (t : time) (r : Row) : Row :=
  mkRow (ID r) (TokenHash r) (RSubject r) (Lineage r) (RSealed r) (AppClaims r)
    (SecurityEpoch r) (ClientFingerprint r) t (AbsoluteExpiresAt r) (CheckedAt r) (CreatedAt r).

Definition set_CreatedAt (t : time) (r : Row) : Row :=
  mkRow (ID r) (TokenHash r) (RSubject r) (Lineage r) (RSealed r) (AppClaims r)
    (SecurityEpoch r) (ClientFingerprint r) (IdleExpiresAt r) (AbsoluteExpiresAt r)
    (CheckedAt r) t.

(** [row_ok r]: the row passes every check of checkRow. *)
Definition row_ok (r : Row) : Prop := checkRow r = None.

Lemma row_ok_spec r :
  row_ok r <->
  ID r <> uuid_Nil /\ Lineage r <> uuid_Nil /\ Z.of_nat (length (TokenHash r)) = HashLen /\
  User (RSubject r) <> uuid_Nil /\ RSealed r <> [] /\
  Z.of_nat (length (AppClaims r)) <= MaxAppClaimsLen /\
  Z.of_nat (length (ClientFingerprint r)) <= MaxFingerprintLen /\
  CreatedAt r <> 0 /\ CheckedAt r <> 0 /\ IdleExpiresAt r <> 0 /\ AbsoluteExpiresAt r <> 0 /\
  CreatedAt r <= AbsoluteExpiresAt r /\ CreatedAt r - maxClockSkew <= CheckedAt r /\
  CheckedAt r < IdleExpiresAt r <= AbsoluteExpiresAt r.
Proof.
  assert (RSealed r <> [] <-> Z.of_nat (length (RSealed r)) <> 0) as ->.
  { destruct (RSealed r); simpl; split; try lia; done. }
  unfold row_ok, checkRow, Subject_IsZero, time_Add, uuid_Nil in *. split.
  - intros H. repeat (case_match; try discriminate); bools. repeat split; lia || done.
  - intros H. destruct_and!.
    repeat (case_match; try discriminate); try done; exfalso;
      repeat match goal with Hx : _ || _ = true |- _ => apply orb_true_iff in Hx as [Hx|Hx] end;
      bools; lia || done.
Qed.

Lemma Restore_Ok r x :
  Restore r = Ok x <->
  row_ok r /\ x = mkRec (ID r) (TokenHash r) (RSubject r) (Lineage r) (RSealed r) (AppClaims r)
            (SecurityEpoch r) (ClientFingerprint r) (IdleExpiresAt r) (AbsoluteExpiresAt r)
            (CheckedAt r) (CreatedAt r).
Proof. unfold Restore, row_ok. destruct (checkRow r); naive_solver. Qed.

End Sessions.
