(* ===== verification/SessionStore.v ===== *)
(** The in-memory session store: store/sessions/memory/store.go.

    Rows are addressed by id and found by the digest of their token through [byHash]; an ended row
    leaves an entry in the revocation feed.  [uuid_String] is the third-party UUID rendering that
    orders the revocations of one call; [range] is the order in which Go's [range] visits the rows,
    which the language leaves open. *)
From S2P Require Import Prelude Errors Tenant Factor Attrs Pending Codec StoreBase SessionRecord.

Module SessionsMemory.
Import Sessions.

Record Store := mkStore {
  rows : gmap uuid Row;
  byHash : gmap bytes uuid;
  feed : list (revocation Revocation);
  seq : Z }.

Definition NewWithClock : Store := mkStore ∅ ∅ [] 0.

Definition Ping (ctx : Ctx) : res unit :=
  match ctx with Some err => Err err | None => Ok tt end.

Definition live (r : Row) (now : time) : bool :=
  time_Before now (IdleExpiresAt r) && time_Before now (AbsoluteExpiresAt r).

Definition end_ (id : uuid) (now : time) (s : Store) : Store :=
  match rows s !! id with
  | None => s
  | Some r =>
      let seq' := u64 (seq s + 1) in
      mkStore (delete id (rows s)) (delete (TokenHash r) (byHash s))
        (feed s ++ [mkEntry seq' (mkRevocation (Tenant (RSubject r)) id now)
                      (AbsoluteExpiresAt r)])
        seq'
  end.

Section victims.
Context (uuid_String : uuid -> string).

(** [cmp.Compare(a.String(), b.String()) <= 0] *)
Definition id_le (a b : uuid) : Prop := String.le (uuid_String a) (uuid_String b).

#[export] Instance id_le_dec : RelDecision id_le.
Proof. intros a b. unfold id_le. apply _. Defined.

(** The victims in the order of [range], sorted by their rendering. *)
Definition victims (range : list uuid) (matches : Row -> bool) (s : Store) : list uuid :=
  merge_sort id_le
    (List.filter (fun id => match rows s !! id with Some r => matches r | None => false end)
       range).

Definition endWhere (range : list uuid) (now : time) (matches : Row -> bool) (s : Store)
  : Store :=
  fold_left (fun s id => end_ id now s) (victims range matches s) s.

Definition EraseTenant (range : list uuid) (ctx : Ctx) (clk : time) (t : TenantID) (s : Store)
  : Store * res unit :=
  match ctx with
  | Some err => (s, Err err)
  | None =>
      let now := store_now clk in
      (endWhere range now (fun r => bool_decide (Tenant (RSubject r) = t)) s, Ok tt)
  end.

Definition RevokeForSubject (range : list uuid) (ctx : Ctx) (clk : time) (sub : Subject)
    (exceptLineage : uuid) (s : Store) : Store * res unit :=
  match ctx with
  | Some err => (s, Err err)
  | None =>
      let now := store_now clk in
      (endWhere range now (fun r => bool_decide (RSubject r = sub)
         && ((exceptLineage =? uuid_Nil) || negb (Lineage r =? exceptLineage))) s, Ok tt)
  end.

Definition DeleteForSubject (range : list uuid) (ctx : Ctx) (clk : time) (sub : Subject)
    (s : Store) : Store * res unit :=
  match ctx with
  | Some err => (s, Err err)
  | None =>
      let now := store_now clk in
      (endWhere range now (fun r => bool_decide (RSubject r = sub)) s, Ok tt)
  end.
End victims.

(** The rows are deleted whatever the order they are visited in. *)
Definition ReapExpired (ctx : Ctx) (clk : time) (s : Store) : Store * res Z :=
  match ctx with
  | Some err => (s, Err err)
  | None =>
      let now := store_now clk in
      let '(rows', byHash', n) :=
        map_fold (fun id r '(rs, bh, n) =>
            if negb (live r now) then (delete id rs, delete (TokenHash r) bh, n + 1)
            else (rs, bh, n)) (rows s, byHash s, 0) (rows s) in
      let '(kept, dropped) := feed_reap (feed s) now in
      (mkStore rows' byHash' kept (seq s), Ok (n + dropped))
  end.

Definition rowOf (r : Rec) : Row :=
  mkRow (id r) (tokenHash r) (subject r) (lineage r) (sealed r) (nonEmpty (appClaims r))
    (r_epoch r) (nonEmpty (clientFingerprint r))
    (time_Truncate (idleExpiresAt r) Microsecond)
    (time_Truncate (absoluteExpiresAt r) Microsecond)
    (time_Truncate (checkedAt r) Microsecond)
    (time_Truncate (createdAt r) Microsecond).

Definition Create (ctx : Ctx) (r : Rec) (s : Store) : Store * res unit :=
  match ctx with
  | Some err => (s, Err err)
  | None =>
      if IsZero r then (s, Err SErrInvalidRecord)
      else
        let row := rowOf r in
        match Restore row with
        | Err err => (s, Err err)
        | Ok _ =>
            match rows s !! ID row, byHash s !! TokenHash row with
            | Some _, _ => (s, Err ErrConflict)
            | None, Some _ => (s, Err ErrConflict)
            | None, None =>
                (mkStore (<[ID row := row]> (rows s)) (<[TokenHash row := ID row]> (byHash s))
                   (feed s) (seq s), Ok tt)
            end
        end
  end.

(** The row a digest points at, with the key that addresses it (Go returns the pointer kept under
    that key); [s.rows[id]] is nil when the index points at no row, and the next line dereferences
    it. *)
Definition lookup (t : TenantID) (tokenHash : bytes) (now : time) (s : Store)
  : res (option (uuid * Row)) :=
  match byHash s !! tokenHash with
  | None => Ok None
  | Some id =>
      match rows s !! id with
      | None => Err NilPanic
      | Some r =>
          if negb (bool_decide (Tenant (RSubject r) = t)) || negb (live r now)
          then Ok None else Ok (Some (id, r))
      end
  end.

Definition Get (ctx : Ctx) (clk : time) (t : TenantID) (tokenHash : bytes) (s : Store)
  : res Rec :=
  match ctx with
  | Some err => Err err
  | None =>
      let now := store_now clk in
      found ← lookup t tokenHash now s;
      match found with
      | None => Err ErrNotFound
      | Some (_, r) => Restore r
      end
  end.

Definition Touch (ctx : Ctx) (clk : time) (t : TenantID) (tokenHash : bytes) (idleUntil : time)
    (s : Store) : Store * res time :=
  match ctx with
  | Some err => (s, Err err)
  | None =>
      let now := store_now clk in
      match lookup t tokenHash now s with
      | Err e => (s, Err e)
      | Ok None => (s, Err ErrNotFound)
      | Ok (Some (p, r)) =>
          let until := time_Truncate idleUntil Microsecond in
          let until := if time_After until (AbsoluteExpiresAt r) then AbsoluteExpiresAt r
                       else until in
          let r' := if time_After until (IdleExpiresAt r) then set_IdleExpiresAt until r else r in
          (mkStore (<[p := r']> (rows s)) (byHash s) (feed s) (seq s), Ok (IdleExpiresAt r'))
      end
  end.

Definition sameSession (r : Row) (next : Rec) : bool :=
  bool_decide (RSubject r = subject next) && (Lineage r =? lineage next).

Definition Rotate (ctx : Ctx) (clk : time) (req : RotateRequest) (s : Store)
  : Store * res unit :=
  match ctx with
  | Some err => (s, Err err)
  | None =>
      if IsZero (rot_Next req) then (s, Err SErrInvalidRecord)
      else
        let row := rowOf (rot_Next req) in
        let now := store_now clk in
        match lookup (Rec_Tenant (rot_Next req)) (rot_Previous req) now s with
        | Err e => (s, Err e)
        | Ok None => (s, Err ErrConflict)
        | Ok (Some (p, r)) =>
            if negb (ID r =? ID row) || negb (sameSession r (rot_Next req))
               || time_After (AbsoluteExpiresAt row) (AbsoluteExpiresAt r)
            then (s, Err ErrConflict)
            else if match byHash s !! TokenHash row with
                    | Some owner => negb (owner =? ID r)
                    | None => false
                    end
            then (s, Err ErrConflict)
            else
              let row := set_CreatedAt (CreatedAt r) row in
              match Restore row with
              | Err err => (s, Err err)
              | Ok _ =>
                  (mkStore (<[p := row]> (rows s))
                     (<[TokenHash row := ID row]> (delete (TokenHash r) (byHash s)))
                     (feed s) (seq s), Ok tt)
              end
        end
  end.

Definition Replace (ctx : Ctx) (clk : time) (req : ReplaceRequest) (s : Store)
  : Store * res unit :=
  match ctx with
  | Some err => (s, Err err)
  | None =>
      if IsZero (rep_Next req)
      then (s, Err (Join SErrInvalidRecord (New "a next record is required")))
      else
        let row := rowOf (rep_Next req) in
        match Restore row with
        | Err err => (s, Err err)
        | Ok _ =>
            let now := store_now clk in
            match rows s !! rep_Previous req with
            | None => (s, Err ErrConflict)
            | Some r =>
                if negb (live r now) || (ID row =? rep_Previous req)
                   || negb (sameSession r (rep_Next req))
                then (s, Err ErrConflict)
                else match rows s !! ID row, byHash s !! TokenHash row with
                | Some _, _ => (s, Err ErrConflict)
                | None, Some _ => (s, Err ErrConflict)
                | None, None =>
                    let s := end_ (rep_Previous req) now s in
                    (mkStore (<[ID row := row]> (rows s))
                       (<[TokenHash row := ID row]> (byHash s)) (feed s) (seq s), Ok tt)
                end
            end
        end
  end.

Definition Revoke (ctx : Ctx) (clk : time) (t : TenantID) (tokenHash : bytes) (s : Store)
  : Store * res unit :=
  match ctx with
  | Some err => (s, Err err)
  | None =>
      let now := store_now clk in
      match byHash s !! tokenHash with
      | None => (s, Ok tt)
      | Some id =>
          match rows s !! id with
          | None => (s, Err NilPanic)
          | Some r =>
              if bool_decide (Tenant (RSubject r) = t) then (end_ id now s, Ok tt) else (s, Ok tt)
          end
      end
  end.

Definition RevokeSession (ctx : Ctx) (clk : time) (sub : Subject) (id : uuid) (s : Store)
  : Store * res unit :=
  match ctx with
  | Some err => (s, Err err)
  | None =>
      let now := store_now clk in
      match rows s !! id with
      | Some r => if bool_decide (RSubject r = sub) then (end_ id now s, Ok tt) else (s, Ok tt)
      | None => (s, Ok tt)
      end
  end.

Definition RevocationsSince (ctx : Ctx) (c : Cursor) (s : Store)
  : list Revocation * Cursor * option error :=
  match ctx with
  | Some err => ([], c, Some err)
  | None => (feed_since (feed s) c, None)
  end.

End SessionsMemory.
