(* ===== verification/SessionStoreFacts.v ===== *)
(** The session store's invariant, that every operation preserves it, and the functional behaviour
    of each operation on a store that satisfies it. *)
From S2P Require Import Prelude Errors Tenant Factor Attrs Pending Codec StoreBase SessionRecord.
From S2P Require Import SessionStore.
Import Sessions SessionsMemory.

(** [store_inv s]: rows are keyed by their id and pass checkRow, the digest index and the rows
    point at each other, and the feed's positions increase up to the counter. *)
Record store_inv (s : Store) : Prop := {
  inv_row : forall i r, rows s !! i = Some r ->
      ID r = i /\ row_ok r /\ byHash s !! TokenHash r = Some i;
  inv_hash : forall h i, byHash s !! h = Some i ->
      exists r, rows s !! i = Some r /\ TokenHash r = h;
  inv_feed : feed_ok (feed s) (seq s);
  inv_seq : 0 <= seq s < two64 }.

(** Fewer than 2^64 revocations have been appended, whatever the next operation ends. *)
Definition room (s : Store) : Prop := seq s + Z.of_nat (size (rows s)) < two64 - 1.

Lemma empty_inv : store_inv NewWithClock.
Proof.
  split; simpl; try (intros; by rewrite lookup_empty in * ); [|unfold two64; lia].
  apply feed_ok_nil.
Qed.

Lemma inv_hash_inj s i j r r' :
  store_inv s -> rows s !! i = Some r -> rows s !! j = Some r' -> TokenHash r = TokenHash r' ->
  i = j.
Proof.
  intros Hs Hi Hj E. apply (inv_row s Hs) in Hi as (_ & _ & Hi), Hj as (_ & _ & Hj).
  rewrite E in Hi. congruence.
Qed.

(** Adding a row under a fresh id and digest. *)
Lemma insert_inv s row :
  store_inv s -> row_ok row -> rows s !! ID row = None -> byHash s !! TokenHash row = None ->
  store_inv (mkStore (<[ID row := row]> (rows s)) (<[TokenHash row := ID row]> (byHash s))
               (feed s) (seq s)).
Proof.
  intros Hs Hrow Hid Hh. split; simpl; [| |apply Hs|apply Hs].
  - intros i r [[<- <-]|[Hne Hr]]%lookup_insert_Some.
    + by rewrite lookup_insert_eq.
    + destruct (inv_row s Hs _ _ Hr) as (? & ? & Hb). repeat split; [done..|].
      rewrite lookup_insert_ne; [done|]. intros E. rewrite E in Hh. congruence.
  - intros h i [[<- <-]|[Hne Hr]]%lookup_insert_Some.
    + exists row. by rewrite lookup_insert_eq.
    + destruct (inv_hash s Hs _ _ Hr) as (r & Hi & <-). exists r. split; [|done].
      rewrite lookup_insert_ne; [done|]. intros <-. congruence.
Qed.

(** Overwriting the row kept under [i], its digest entry moved with it. *)
Lemma update_inv s i r row :
  store_inv s -> rows s !! i = Some r -> ID row = i -> row_ok row ->
  (forall j, byHash s !! TokenHash row = Some j -> j = i) ->
  store_inv (mkStore (<[i := row]> (rows s))
               (<[TokenHash row := i]> (delete (TokenHash r) (byHash s))) (feed s) (seq s)).
Proof.
  intros Hs Hi Hid Hrow Hh. split; simpl; [| |apply Hs|apply Hs].
  - intros j r' [[<- <-]|[Hne Hr]]%lookup_insert_Some.
    + by rewrite lookup_insert_eq.
    + destruct (inv_row s Hs _ _ Hr) as (? & ? & Hb). repeat split; [done..|].
      rewrite lookup_insert_ne, lookup_delete_ne; [done| |].
      * intros E. apply Hne. by apply (inv_hash_inj s i j r r').
      * intros E. apply Hne. symmetry. apply Hh. by rewrite E.
  - intros h j [[<- <-]|[Hne [Hne' Hr]%lookup_delete_Some]]%lookup_insert_Some.
    + exists row. by rewrite lookup_insert_eq.
    + destruct (inv_hash s Hs _ _ Hr) as (r' & Hj & <-). exists r'. split; [|done].
      rewrite lookup_insert_ne; [done|]. intros <-. congruence.
Qed.

Lemma end_inv s i now :
  store_inv s -> seq s < two64 - 1 -> store_inv (end_ i now s).
Proof.
  intros Hs Hroom. unfold end_. destruct (rows s !! i) as [r|] eqn:Hi; [|done].
  destruct (inv_seq s Hs) as [? ?].
  split; simpl.
  - intros j r' [Hne Hr]%lookup_delete_Some.
    destruct (inv_row s Hs _ _ Hr) as (? & ? & Hb). repeat split; [done..|].
    rewrite lookup_delete_ne; [done|]. intros E. apply Hne. by apply (inv_hash_inj s i j r r').
  - intros h j [Hne Hr]%lookup_delete_Some.
    destruct (inv_hash s Hs _ _ Hr) as (r' & Hj & <-). exists r'. split; [|done].
    rewrite lookup_delete_ne; [done|]. intros <-. congruence.
  - apply feed_ok_snoc; [apply Hs|lia].
  - apply u64_range.
Qed.

(** ** Ending several rows *)

(** The feed entry that ending [r] at position [n] appends. *)
Definition entry_of (now : time) (n : Z) (r : Row) : revocation Revocation :=
  mkEntry n (mkRevocation (Tenant (RSubject r)) (ID r) now) (AbsoluteExpiresAt r).

Fixpoint entries_of (now : time) (n : Z) (rs : list Row) : list (revocation Revocation) :=
  match rs with
  | [] => []
  | r :: rs => entry_of now (n + 1) r :: entries_of now (n + 1) rs
  end.

Lemma end_room s i now : store_inv s -> room s -> room (end_ i now s).
Proof.
  intros Hs. unfold room, end_. destruct (rows s !! i) as [r|] eqn:Hi; [|done].
  intros Hr. simpl. pose proof (inv_seq s Hs).
  rewrite u64_small by (unfold is_u64; lia).
  pose proof (map_size_delete_Some i (rows s) (mk_is_Some _ _ Hi)).
  pose proof (map_size_ne_0_lookup_2 (rows s) i (mk_is_Some _ _ Hi)). lia.
Qed.

Lemma end_all s vs now :
  store_inv s -> room s -> NoDup vs ->
  Forall (fun i => is_Some (rows s !! i)) vs ->
  let s' := fold_left (fun s i => end_ i now s) vs s in
  store_inv s' /\ room s' /\
  (forall i, rows s' !! i = if decide (i ∈ vs) then None else rows s !! i) /\
  seq s' = seq s + Z.of_nat (length vs) /\
  feed s' = feed s ++ entries_of now (seq s) (omap (fun i => rows s !! i) vs).
Proof.
  revert s. induction vs as [|i vs IH]; intros s Hs Hr Hnd Hall; cbn [fold_left omap list_omap].
  - split; [done|]. split; [done|]. split; [|split; [simpl; lia|by rewrite app_nil_r]].
    intros i. by destruct (decide (i ∈ [])) as [?%not_elem_of_nil|].
  - apply NoDup_cons in Hnd as [Hi Hnd]. apply Forall_cons in Hall as [[r Hir] Hall].
    pose proof (inv_seq s Hs) as Hq. unfold room in Hr.
    pose proof (map_size_ne_0_lookup_2 (rows s) i (mk_is_Some _ _ Hir)).
    assert (forall j, j <> i -> rows (end_ i now s) !! j = rows s !! j) as Hother.
    { intros j Hj. unfold end_. rewrite Hir. simpl. by rewrite lookup_delete_ne. }
    assert (Hrows : forall j, j ∈ vs -> rows (end_ i now s) !! j = rows s !! j).
    { intros j Hj. apply Hother. by intros ->. }
    destruct (IH (end_ i now s)) as (I1 & I2 & I3 & I4 & I5).
    + apply end_inv; [done|lia].
    + by apply end_room.
    + done.
    + rewrite Forall_forall in *. intros j Hj. rewrite Hrows by done. auto.
    + split; [done|]. split; [done|]. split; [|split].
      * intros j. rewrite I3. destruct (decide (j ∈ vs)).
        { rewrite decide_True; [done|set_solver]. }
        destruct (decide (j = i)) as [->|].
        { rewrite decide_True by set_solver. unfold end_. rewrite Hir. simpl.
          by rewrite lookup_delete_eq. }
        rewrite decide_False by set_solver. auto.
      * rewrite I4. unfold end_. rewrite Hir. simpl. rewrite u64_small by (unfold is_u64; lia). lia.
      * rewrite I5. rewrite (list_omap_ext _ (fun i => rows s !! i) vs vs).
        2:{ apply Forall_Forall2_diag, Forall_forall. auto. }
        unfold end_. rewrite Hir. simpl. rewrite <- app_assoc.
        rewrite u64_small by (unfold is_u64; lia). simpl.
        unfold entry_of. by apply (inv_row s Hs) in Hir as [<- _].
Qed.

(** ** Victims *)
Section ops.
Context (uuid_String : uuid -> string).

(** The keys a [range] over the rows visits: each exactly once, in any order. *)
Definition range_ok (range : list uuid) (s : Store) : Prop :=
  range ≡ₚ (map_to_list (rows s)).*1.

Lemma range_ok_elem range s i : range_ok range s -> i ∈ range <-> is_Some (rows s !! i).
Proof.
  intros ->. rewrite list_elem_of_fmap. split.
  - intros ([j r] & -> & ?%elem_of_map_to_list). by exists r.
  - intros [r ?]. exists (i, r). by rewrite elem_of_map_to_list.
Qed.

Lemma range_ok_NoDup range s : range_ok range s -> NoDup range.
Proof. intros ->. apply NoDup_fst_map_to_list. Qed.

Lemma elem_of_victims range f s i :
  i ∈ victims uuid_String range f s <->
  i ∈ range /\ exists r, rows s !! i = Some r /\ f r = true.
Proof.
  unfold victims. rewrite (merge_sort_Permutation _ _), list_elem_of_In, filter_In,
    <- list_elem_of_In.
  destruct (rows s !! i); naive_solver.
Qed.

Lemma NoDup_victims range f s : NoDup range -> NoDup (victims uuid_String range f s).
Proof.
  intros H. unfold victims. rewrite (merge_sort_Permutation _ _).
  apply NoDup_ListNoDup. apply List.NoDup_filter. by apply NoDup_ListNoDup.
Qed.

#[local] Instance id_le_total : Total (id_le uuid_String).
Proof. intros a b. unfold id_le. apply (total String.le). Qed.

#[local] Instance id_le_trans : Transitive (id_le uuid_String).
Proof. intros a b c. unfold id_le. apply transitivity. Qed.

Lemma Sorted_victims range f s : Sorted (id_le uuid_String) (victims uuid_String range f s).
Proof. apply Sorted_merge_sort. apply _. Qed.

(** With renderings that tell the stored ids apart, the victims do not depend on the visiting
    order. *)
Definition tells_apart (s : Store) : Prop :=
  forall i j, is_Some (rows s !! i) -> is_Some (rows s !! j) ->
    uuid_String i = uuid_String j -> i = j.

Lemma fmap_inj_on (l l' : list uuid) :
  (forall i j, i ∈ l -> j ∈ l' -> uuid_String i = uuid_String j -> i = j) ->
  uuid_String <$> l = uuid_String <$> l' -> l = l'.
Proof.
  revert l'. induction l as [|i l IH]; intros [|j l'] Hinj E; try done.
  csimpl in E. injection E as E1 E2. f_equal; [by apply Hinj; [left|left|]|].
  apply IH; [|done]. intros. apply Hinj; [by right..|done].
Qed.

Lemma Sorted_render (l : list uuid) : Sorted (id_le uuid_String) l -> Sorted String.le (uuid_String <$> l).
Proof.
  induction 1 as [|x l Hs IH Hx]; csimpl; constructor; [done|].
  destruct Hx; csimpl; by constructor.
Qed.

Lemma victims_Permutation range range' f s :
  range ≡ₚ range' -> victims uuid_String range f s ≡ₚ victims uuid_String range' f s.
Proof.
  intros Hp. unfold victims. rewrite !(merge_sort_Permutation _ _).
  induction Hp as [|x l l' Hp IH|x y l|l1 l2 l3 H1 IH1 H2 IH2]; csimpl.
  - done.
  - by case_match; [f_equiv|].
  - repeat case_match; try done. apply Permutation_swap.
  - by etrans.
Qed.

Lemma victims_order range range' f s :
  tells_apart s -> range ≡ₚ range' ->
  victims uuid_String range f s = victims uuid_String range' f s.
Proof.
  intros Hinj Hp. apply fmap_inj_on.
  - intros i j (_ & r & ? & _)%elem_of_victims (_ & r' & ? & _)%elem_of_victims. apply Hinj; eauto.
  - apply (Sorted_unique String.le); [apply Sorted_render, Sorted_victims..|].
    by f_equiv; apply victims_Permutation.
Qed.

(** What [endWhere] does on a consistent store. *)
Lemma endWhere_spec range now f s :
  store_inv s -> room s -> NoDup range ->
  let vs := victims uuid_String range f s in
  let s' := endWhere uuid_String range now f s in
  store_inv s' /\ room s' /\
  (forall i, rows s' !! i = if decide (i ∈ vs) then None else rows s !! i) /\
  seq s' = seq s + Z.of_nat (length vs) /\
  feed s' = feed s ++ entries_of now (seq s) (omap (fun i => rows s !! i) vs).
Proof.
  intros Hs Hr Hnd. apply end_all; [done|done|by apply NoDup_victims|].
  apply Forall_forall. intros i (_ & r & -> & _)%elem_of_victims. by eexists.
Qed.

(** On the rows, [endWhere] is a filter. *)
Lemma endWhere_rows range now f s :
  store_inv s -> room s -> range_ok range s ->
  rows (endWhere uuid_String range now f s) = filter (fun p => f p.2 = false) (rows s).
Proof.
  intros Hs Hr Hrange.
  destruct (endWhere_spec range now f s) as (_ & _ & H & _); [done|done|by eapply range_ok_NoDup|].
  apply map_eq. intros i. rewrite H. clear H. rewrite map_lookup_filter.
  destruct (rows s !! i) as [r|] eqn:E; simpl; [|by destruct (decide _)].
  destruct (decide _) as [Hi|Hi].
  - apply elem_of_victims in Hi as (_ & r' & ? & ?). simplify_eq.
    by rewrite option_guard_False by congruence.
  - rewrite option_guard_True; [done|]. apply not_true_iff_false. intros Hf. apply Hi.
    apply elem_of_victims. rewrite range_ok_elem by done. naive_solver.
Qed.
End ops.

(** ** Reaping

    [reaped s now m acc]: after visiting the rows [m], the loop holds the rows and the index with
    the expired rows of [m] taken out, and their number. *)
Definition reaped (s : Store) (now : time) (acc : gmap uuid Row * gmap bytes uuid * Z)
    (m : gmap uuid Row) : Prop :=
  let '(rs, bh, n) := acc in
  (forall j, rs !! j = match m !! j with
                       | Some r => if live r now then rows s !! j else None
                       | None => rows s !! j end) /\
  (forall h i, bh !! h = Some i <-> byHash s !! h = Some i /\
     ~ (exists j r, m !! j = Some r /\ live r now = false /\ TokenHash r = h)) /\
  n = Z.of_nat (size (filter (fun p => live p.2 now = false) m)).

Lemma reaped_start s now : reaped s now (rows s, byHash s, 0) ∅.
Proof.
  split; [|split].
  - intros j. by rewrite lookup_empty.
  - intros h i. split; [|tauto]. intros H. split; [done|].
    intros (j & r & Hr & _). by rewrite lookup_empty in Hr.
  - by rewrite map_filter_empty.
Qed.

Lemma reaped_keep s now i r m acc :
  m !! i = None -> live r now = true -> reaped s now acc m -> reaped s now acc (<[i := r]> m).
Proof.
  destruct acc as [[rs bh] n]. intros Hm El (I1 & I2 & I3). split; [|split].
  - intros j. destruct (decide (j = i)) as [->|].
    + by rewrite lookup_insert_eq, El, I1, Hm.
    + by rewrite lookup_insert_ne, I1.
  - intros h k. rewrite I2. apply and_iff_compat_l. apply not_iff_compat.
    split; intros (j & r' & Hj & Hl & Hh); exists j, r'.
    + rewrite lookup_insert_ne; [done|]. intros ->. congruence.
    + split; [|done]. apply lookup_insert_Some in Hj as [[-> ->]|[_ ?]]; [congruence|done].
  - rewrite map_filter_insert_False by (simpl; congruence). by rewrite delete_id.
Qed.

Lemma reaped_drop s now i r m rs bh n :
  m !! i = None -> live r now = false -> reaped s now (rs, bh, n) m ->
  reaped s now (delete i rs, delete (TokenHash r) bh, n + 1) (<[i := r]> m).
Proof.
  intros Hm El (I1 & I2 & I3). split; [|split].
  - intros j. destruct (decide (j = i)) as [->|].
    + by rewrite lookup_insert_eq, El, lookup_delete_eq.
    + by rewrite lookup_insert_ne, lookup_delete_ne, I1.
  - intros h k. rewrite lookup_delete_Some, I2. split.
    + intros (Hne & Hb & Hx). split; [done|]. intros (j & r' & Hj & Hl & Hh).
      apply lookup_insert_Some in Hj as [[-> ->]|[_ ?]]; [done|]. apply Hx. eauto.
    + intros (Hb & Hx). repeat split; [|done|].
      * intros <-. apply Hx. exists i, r. by rewrite lookup_insert_eq.
      * intros (j & r' & Hj & Hl & Hh). apply Hx. exists j, r'.
        rewrite lookup_insert_ne; [done|]. intros ->. congruence.
  - rewrite map_filter_insert_True by done. rewrite map_size_insert_None; [lia|].
    apply map_lookup_filter_None. by left.
Qed.

Lemma ReapExpired_spec clk s :
  store_inv s ->
  let now := store_now clk in
  exists s', ReapExpired None clk s =
    (s', Ok (Z.of_nat (size (filter (fun p => live p.2 now = false) (rows s)))
             + Z.of_nat (length (filter (fun e => ~ now < expires e) (feed s))))) /\
  store_inv s' /\ seq s' = seq s /\
  rows s' = filter (fun p => live p.2 now = true) (rows s) /\
  feed s' = filter (fun e => now < expires e) (feed s).
Proof.
  intros Hs now. unfold ReapExpired. fold now. rewrite feed_reap_spec.
  set (f := fun id r '(rs, bh, n) => _).
  assert (reaped s now (map_fold f (rows s, byHash s, 0) (rows s)) (rows s)) as H.
  { apply (map_fold_weak_ind (reaped s now)); [apply reaped_start|].
    intros i r m [[rs bh] n] Hm Hacc. unfold f. destruct (live r now) eqn:El.
    - by apply reaped_keep.
    - by apply reaped_drop. }
  destruct (map_fold f _ _) as [[rs bh] n]. destruct H as (I1 & I2 & ->).
  assert (rs = filter (fun p => live p.2 now = true) (rows s)) as ->.
  { apply map_eq. intros j. rewrite I1, map_lookup_filter.
    destruct (rows s !! j) as [r|]; [|done]. simpl. by destruct (live r now). }
  eexists. split; [reflexivity|]. split; [|done].
  split; simpl; [| |apply feed_ok_filter, Hs|apply Hs].
  - intros i r (Hr & Hl)%map_lookup_filter_Some.
    destruct (inv_row s Hs _ _ Hr) as (? & ? & Hb). repeat split; [done..|].
    apply I2. split; [done|]. intros (j & r' & Hj & Hl' & Hh).
    assert (i = j) as -> by (by eapply inv_hash_inj). simpl in *. congruence.
  - intros h i (Hb & Hx)%I2. destruct (inv_hash s Hs _ _ Hb) as (r & Hr & <-).
    exists r. split; [|done]. apply map_lookup_filter_Some. split; [done|].
    apply not_false_iff_true. simpl. intros ?. apply Hx. eauto.
Qed.

(** ** Runs of the session store: its operations as labels, the states they reach, and what each
    lookup and write does on such a state. *)

(** [found s t h now i r]: the row [r] kept under [i] is the live row of tenant [t] whose token
    digest is [h]. *)
Definition found (s : Store) (t : TenantID) (h : bytes) (now : time) (i : uuid) (r : Row) : Prop :=
  rows s !! i = Some r /\ TokenHash r = h /\ Tenant (RSubject r) = t /\ live r now = true.

Lemma live_true r now :
  live r now = true <-> now < IdleExpiresAt r /\ now < AbsoluteExpiresAt r.
Proof. unfold live, time_Before. rewrite andb_true_iff, !Z.ltb_lt. done. Qed.

Lemma lookup_spec s t h now :
  store_inv s ->
  match lookup t h now s with
  | Ok (Some (i, r)) => found s t h now i r
  | Ok None => forall i r, ~ found s t h now i r
  | Err _ => False
  end.
Proof.
  intros Hs. unfold lookup. destruct (byHash s !! h) as [i|] eqn:Hh.
  - destruct (inv_hash s Hs _ _ Hh) as (r & Hr & <-). rewrite Hr.
    destruct (bool_decide_reflect (Tenant (RSubject r) = t)), (live r now) eqn:El; simpl;
      try done; intros j r' (Hj & E & Ht & Hl);
      assert (j = i) as -> by (by eapply inv_hash_inj); congruence.
  - intros i r (Hr & <- & _). apply (inv_row s Hs) in Hr as (_ & _ & Hr). congruence.
Qed.

Lemma found_unique s t h now i r j r' :
  store_inv s -> found s t h now i r -> found s t h now j r' -> i = j /\ r = r'.
Proof.
  intros Hs (Hi & Eh & _) (Hj & Eh' & _). assert (i = j) as ->; [|by simplify_eq].
  eapply inv_hash_inj; eauto. congruence.
Qed.

Lemma Restore_row_ok r : row_ok r -> is_Ok (Restore r).
Proof. intros H. eexists. by apply Restore_Ok. Qed.

Lemma rowOf_id r : ID (rowOf r) = id r.
Proof. done. Qed.

(** Touch writes a row that is still well-formed. *)
Lemma row_ok_touch r until :
  row_ok r -> 0 <= IdleExpiresAt r -> IdleExpiresAt r < until <= AbsoluteExpiresAt r ->
  row_ok (set_IdleExpiresAt until r).
Proof.
  rewrite !row_ok_spec. simpl. intros H ??. destruct_and!. repeat split; try done; lia.
Qed.

Lemma store_now_nonneg clk : 0 <= clk -> 0 <= store_now clk.
Proof.
  intros. unfold store_now, time_Truncate. simpl.
  pose proof (Z.mod_le clk Microsecond). unfold Microsecond in *. lia.
Qed.

(** ** The operations on a consistent store

    Each lemma gives the whole behaviour of one operation: the condition under which it writes,
    the state it writes, the error otherwise, with the state unchanged on every error. *)
Section ops.
Context (s : Store) (Hs : store_inv s).

Lemma Get_spec clk t h :
  (forall i r, found s t h (store_now clk) i r ->
     Get None clk t h s = Restore r /\ is_Ok (Restore r)) /\
  ((forall i r, ~ found s t h (store_now clk) i r) -> Get None clk t h s = Err ErrNotFound).
Proof.
  unfold Get. pose proof (lookup_spec s t h (store_now clk) Hs) as Hl.
  destruct (lookup t h _ s) as [[[j r']|]|]; [| |done]; simpl.
  - split; [|intros Hn; by destruct (Hn j r')].
    intros i r Hf. destruct (found_unique s _ _ _ _ _ _ _ Hs Hf Hl) as [-> ->].
    split; [done|]. apply Restore_row_ok. by apply (inv_row s Hs) with j, Hl.
  - split; [|done]. intros i r Hf. by destruct (Hl i r).
Qed.

(** The idle expiry Touch stores: never earlier than the current one, never past the end. *)
Definition touched (r : Row) (idleUntil : time) : time :=
  Z.max (IdleExpiresAt r) (Z.min (time_Truncate idleUntil Microsecond) (AbsoluteExpiresAt r)).

Lemma Touch_spec clk t h until :
  0 <= clk ->
  (forall i r, found s t h (store_now clk) i r ->
     Touch None clk t h until s =
     (mkStore (<[i := set_IdleExpiresAt (touched r until) r]> (rows s)) (byHash s) (feed s)
        (seq s), Ok (touched r until)) /\
     row_ok (set_IdleExpiresAt (touched r until) r)) /\
  ((forall i r, ~ found s t h (store_now clk) i r) ->
     Touch None clk t h until s = (s, Err ErrNotFound)).
Proof.
  intros Hclk. unfold Touch. pose proof (lookup_spec s t h (store_now clk) Hs) as Hl.
  destruct (lookup t h _ s) as [[[j r']|]|]; [| |done].
  - split; [|intros Hn; by destruct (Hn j r')].
    intros i r Hf. destruct (found_unique s _ _ _ _ _ _ _ Hs Hf Hl) as [-> <-].
    destruct Hf as (Hr & _ & _ & Hlive). apply live_true in Hlive.
    apply store_now_nonneg in Hclk.
    apply (inv_row s Hs) in Hr as (_ & Hok & _).
    assert (IdleExpiresAt r <= AbsoluteExpiresAt r) by (apply row_ok_spec in Hok; lia).
    assert (set_IdleExpiresAt (IdleExpiresAt r) r = r) as Eset by (by destruct r).
    unfold touched, time_After. set (u := time_Truncate until Microsecond).
    destruct (Z.ltb_spec (AbsoluteExpiresAt r) u).
    + rewrite (Z.min_r u) by lia. destruct (Z.ltb_spec (IdleExpiresAt r) (AbsoluteExpiresAt r)).
      * rewrite Z.max_r by lia. split; [done|]. apply row_ok_touch; [done|lia|lia].
      * rewrite Z.max_l by lia. by rewrite Eset.
    + rewrite (Z.min_l u) by lia. destruct (Z.ltb_spec (IdleExpiresAt r) u).
      * rewrite Z.max_r by lia. split; [done|]. apply row_ok_touch; [done|lia|lia].
      * rewrite Z.max_l by lia. by rewrite Eset.
  - split; [|done]. intros i r Hf. by destruct (Hl i r).
Qed.

(** When Rotate applies: the presented digest finds a live row with the id, tenant, subject and
    lineage of the next record, which does not outlive it and whose digest is free or its own. *)
Definition rotatable (now : time) (req : RotateRequest) (i : uuid) (r : Row) : Prop :=
  let next := rot_Next req in
  found s (Rec_Tenant next) (rot_Previous req) now i r /\ i = id next /\
  RSubject r = subject next /\ Lineage r = lineage next /\
  AbsoluteExpiresAt (rowOf next) <= AbsoluteExpiresAt r /\
  (forall j, byHash s !! tokenHash next = Some j -> j = i).

Lemma Rotate_spec clk req :
  IsZero (rot_Next req) = false ->
  (forall i r, rotatable (store_now clk) req i r ->
     let row := set_CreatedAt (CreatedAt r) (rowOf (rot_Next req)) in
     Rotate None clk req s =
     match Restore row with
     | Ok _ => (mkStore (<[i := row]> (rows s))
                  (<[TokenHash row := i]> (delete (TokenHash r) (byHash s))) (feed s) (seq s),
                Ok tt)
     | Err e => (s, Err e)
     end) /\
  ((forall i r, ~ rotatable (store_now clk) req i r) ->
     Rotate None clk req s = (s, Err ErrConflict)).
Proof.
  intros Hz. unfold Rotate. rewrite Hz.
  pose proof (lookup_spec s (Rec_Tenant (rot_Next req)) (rot_Previous req) (store_now clk) Hs) as Hl.
  destruct (lookup _ _ _ s) as [[[j r']|]|]; [| |done].
  2:{ split; [|done]. intros i r [Hf _]. by destruct (Hl i r). }
  simpl ID. simpl TokenHash.
  assert (ID r' = j) as Hid by (by apply (inv_row s Hs), Hl).
  rewrite Hid. split.
  - intros i r (Hf & Hi & Hsub & Hlin & Habs & Hown).
    destruct (found_unique s _ _ _ _ _ _ _ Hs Hf Hl) as [-> <-].
    unfold sameSession, time_After. rewrite <- Hi in *.
    rewrite Z.eqb_refl, bool_decide_eq_true_2, (proj2 (Z.eqb_eq _ _) Hlin) by done. simpl.
    simpl in Habs. rewrite (proj2 (Z.ltb_ge _ _) Habs).
    destruct (byHash s !! tokenHash (rot_Next req)) as [o|] eqn:Ho; [|done].
    rewrite (Hown o), Z.eqb_refl by done. done.
  - intros Hn. unfold sameSession, time_After.
    destruct (Z.eqb_spec j (id (rot_Next req))) as [->|]; [|done].
    destruct (bool_decide_reflect (RSubject r' = subject (rot_Next req))); [|done].
    destruct (Z.eqb_spec (Lineage r') (lineage (rot_Next req))); [|done]. cbn [negb orb andb].
    destruct (Z.ltb_spec (AbsoluteExpiresAt r') (AbsoluteExpiresAt (rowOf (rot_Next req)))); [done|].
    destruct (byHash s !! tokenHash (rot_Next req)) as [o|] eqn:Ho.
    + destruct (Z.eqb_spec o (id (rot_Next req))) as [->|]; [|done].
      destruct (Hn (id (rot_Next req)) r'). split; [done|]. repeat split; try done.
      intros j Hj. simpl in Hj. congruence.
    + destruct (Hn (id (rot_Next req)) r'). split; [done|]. repeat split; try done.
      intros j Hj. simpl in Hj. congruence.
Qed.

(** When Replace applies: the previous row is live and on the lineage of the next record, whose
    id and digest are both new. *)
Definition replaceable (now : time) (req : ReplaceRequest) (r : Row) : Prop :=
  let next := rep_Next req in
  rows s !! rep_Previous req = Some r /\ live r now = true /\
  RSubject r = subject next /\ Lineage r = lineage next /\
  rows s !! id next = None /\ byHash s !! tokenHash next = None.

Lemma Replace_spec clk req :
  IsZero (rep_Next req) = false -> row_ok (rowOf (rep_Next req)) ->
  (forall r, replaceable (store_now clk) req r ->
     let row := rowOf (rep_Next req) in
     let s1 := end_ (rep_Previous req) (store_now clk) s in
     Replace None clk req s =
     (mkStore (<[id (rep_Next req) := row]> (rows s1))
        (<[tokenHash (rep_Next req) := id (rep_Next req)]> (byHash s1)) (feed s1) (seq s1),
      Ok tt)) /\
  ((forall r, ~ replaceable (store_now clk) req r) ->
     Replace None clk req s = (s, Err ErrConflict)).
Proof.
  intros Hz Hok. unfold Replace. rewrite Hz.
  destruct (Restore_row_ok _ Hok) as [x ->]. unfold sameSession. cbn [ID TokenHash rowOf].
  destruct (rows s !! rep_Previous req) as [r'|] eqn:Hr.
  2:{ split; [|done]. intros r (E & _). congruence. }
  split.
  - intros r (E & Hl & Hsub & Hlin & Hid & Hh). assert (r' = r) as -> by congruence.
    rewrite Hl, bool_decide_eq_true_2, (proj2 (Z.eqb_eq _ _) Hlin) by done.
    destruct (Z.eqb_spec (id (rep_Next req)) (rep_Previous req)) as [E'|]; [congruence|].
    simpl. by rewrite Hid, Hh.
  - intros Hn. destruct (live r' (store_now clk)) eqn:Hl; [|done].
    destruct (Z.eqb_spec (id (rep_Next req)) (rep_Previous req)) as [E'|]; [done|].
    destruct (bool_decide_reflect (RSubject r' = subject (rep_Next req))); [|done].
    destruct (Z.eqb_spec (Lineage r') (lineage (rep_Next req))); [|done]. simpl.
    destruct (rows s !! id (rep_Next req)) eqn:Hid; [done|].
    destruct (byHash s !! tokenHash (rep_Next req)) eqn:Hh; [done|].
    by destruct (Hn r').
Qed.

Lemma Create_spec r :
  IsZero r = false -> row_ok (rowOf r) ->
  (rows s !! id r = None /\ byHash s !! tokenHash r = None /\
   Create None r s = (mkStore (<[id r := rowOf r]> (rows s)) (<[tokenHash r := id r]> (byHash s))
                        (feed s) (seq s), Ok tt)) \/
  ((is_Some (rows s !! id r) \/ is_Some (byHash s !! tokenHash r)) /\
   Create None r s = (s, Err ErrConflict)).
Proof.
  intros Hz Hok. unfold Create. rewrite Hz. destruct (Restore_row_ok _ Hok) as [x ->].
  cbn [ID TokenHash rowOf].
  destruct (rows s !! id r); [right; eauto|]. destruct (byHash s !! tokenHash r); [right; eauto|].
  by left.
Qed.

(** Revoke ends the row the digest points at, expired or not, if it is the tenant's. *)
Lemma Revoke_spec clk t h :
  Revoke None clk t h s =
  (match byHash s !! h with
   | Some i => match rows s !! i with
               | Some r => if decide (Tenant (RSubject r) = t) then end_ i (store_now clk) s else s
               | None => s
               end
   | None => s
   end, Ok tt).
Proof.
  unfold Revoke. destruct (byHash s !! h) as [i|] eqn:Hh; [|done].
  destruct (inv_hash s Hs _ _ Hh) as (r & -> & _). case_bool_decide;
    [by rewrite decide_True|by rewrite decide_False].
Qed.
End ops.

(** ** What an operation other than ReapExpired may do

    [evolves s s']: the store stays consistent, the feed only grows, by entries positioned after the
    counter, and a row that is gone has its entry among them. *)
Record evolves (s s' : Store) : Prop := {
  ev_inv : store_inv s';
  ev_seq : seq s <= seq s';
  ev_feed : exists new, feed s' = feed s ++ new /\
      Forall (fun e => seq s < StoreBase.seq e) new /\
      forall i, is_Some (rows s !! i) -> rows s' !! i = None ->
        exists e, e ∈ new /\ rv_Session (rev e) = i }.

Lemma evolves_same s s' :
  store_inv s' -> feed s' = feed s -> seq s' = seq s ->
  (forall i, is_Some (rows s !! i) -> is_Some (rows s' !! i)) -> evolves s s'.
Proof.
  intros Hi Hf Hq Hr. split; [done|lia|]. exists []. rewrite app_nil_r. repeat split; [done|constructor|].
  intros i Hsome Hnone. apply Hr in Hsome. rewrite Hnone in Hsome. by apply is_Some_None in Hsome.
Qed.

Lemma evolves_refl s : store_inv s -> evolves s s.
Proof. intros. by apply evolves_same. Qed.

Lemma evolves_trans s1 s2 s3 : evolves s1 s2 -> evolves s2 s3 -> evolves s1 s3.
Proof.
  intros [_ Hq (n1 & Hf1 & Hn1 & Hp1)] [Hi Hq' (n2 & Hf2 & Hn2 & Hp2)]. split; [done|lia|].
  exists (n1 ++ n2). split; [by rewrite Hf2, Hf1, app_assoc|]. split.
  - apply Forall_app. split; [done|]. eapply Forall_impl; [done|]. simpl. lia.
  - intros i Hs Hn. destruct (rows s2 !! i) as [r|] eqn:E.
    + destruct (Hp2 i) as (e & ? & ?); eauto. exists e. rewrite elem_of_app. eauto.
    + destruct (Hp1 i) as (e & ? & ?); eauto. exists e. rewrite elem_of_app. eauto.
Qed.

Lemma evolves_insert s row :
  store_inv s -> row_ok row -> rows s !! ID row = None -> byHash s !! TokenHash row = None ->
  evolves s (mkStore (<[ID row := row]> (rows s)) (<[TokenHash row := ID row]> (byHash s))
               (feed s) (seq s)).
Proof.
  intros. apply evolves_same; [by apply insert_inv|done|done|]. simpl. intros i Hi.
  apply lookup_insert_is_Some'. by right.
Qed.

Lemma elem_of_entries now n rs e :
  e ∈ entries_of now n rs -> n < StoreBase.seq e.
Proof.
  revert n. induction rs as [|r rs IH]; intros n; simpl; [by intros ?%not_elem_of_nil|].
  intros [->|Hin]%elem_of_cons; [simpl; lia|]. apply IH in Hin. lia.
Qed.

Lemma entries_of_elem now n rs r :
  r ∈ rs -> exists e, e ∈ entries_of now n rs /\ rv_Session (rev e) = ID r.
Proof.
  intros Hr. revert n. induction Hr as [r rs|r r' rs Hr IH]; intros n; simpl.
  - eexists. by rewrite elem_of_cons; split; [left|].
  - destruct (IH (n + 1)) as (e & ? & ?). exists e. rewrite elem_of_cons. eauto.
Qed.

Lemma evolves_end_all s vs now :
  store_inv s -> room s -> NoDup vs -> Forall (fun i => is_Some (rows s !! i)) vs ->
  evolves s (fold_left (fun s i => end_ i now s) vs s).
Proof.
  intros Hs Hr Hnd Hall. destruct (end_all s vs now Hs Hr Hnd Hall) as (I1 & I2 & I3 & I4 & I5).
  split; [done|lia|]. eexists. split; [exact I5|]. split.
  - apply Forall_forall. intros e He. by eapply elem_of_entries.
  - intros i [r Hi] Hn. rewrite I3 in Hn. case_decide as Hv; [|congruence].
    destruct (entries_of_elem now (seq s) (omap (fun i => rows s !! i) vs) r) as (e & ? & ?).
    + apply list_elem_of_omap. eauto.
    + exists e. split; [done|]. by apply (inv_row s Hs) in Hi as [<- _].
Qed.

Lemma evolves_end s i now : store_inv s -> room s -> evolves s (end_ i now s).
Proof.
  intros Hs Hr. destruct (rows s !! i) as [r|] eqn:Hi.
  - apply (evolves_end_all s [i] now Hs Hr); [by apply NoDup_singleton|]. repeat constructor. eauto.
  - unfold end_. rewrite Hi. by apply evolves_refl.
Qed.

Lemma evolves_endWhere str range f s now :
  store_inv s -> room s -> range_ok range s -> evolves s (endWhere str range now f s).
Proof.
  intros Hs Hr Hrange. apply evolves_end_all; [done|done| |].
  - by eapply NoDup_victims, range_ok_NoDup.
  - apply Forall_forall. intros i (_ & r & -> & _)%elem_of_victims. by eexists.
Qed.

(** ** Runs *)
Inductive op :=
  | OpCreate (ctx : Ctx) (r : Rec)
  | OpTouch (ctx : Ctx) (clk : time) (t : TenantID) (h : bytes) (idleUntil : time)
  | OpRotate (ctx : Ctx) (clk : time) (req : RotateRequest)
  | OpReplace (ctx : Ctx) (clk : time) (req : ReplaceRequest)
  | OpRevoke (ctx : Ctx) (clk : time) (t : TenantID) (h : bytes)
  | OpRevokeSession (ctx : Ctx) (clk : time) (sub : Subject) (i : uuid)
  | OpRevokeForSubject (range : list uuid) (ctx : Ctx) (clk : time) (sub : Subject) (except : uuid)
  | OpDeleteForSubject (range : list uuid) (ctx : Ctx) (clk : time) (sub : Subject)
  | OpEraseTenant (range : list uuid) (ctx : Ctx) (clk : time) (t : TenantID)
  | OpReapExpired (ctx : Ctx) (clk : time).

Definition op_clk (o : op) : time :=
  match o with
  | OpCreate _ _ => 0
  | OpTouch _ clk _ _ _ | OpRotate _ clk _ | OpReplace _ clk _ | OpRevoke _ clk _ _
  | OpRevokeSession _ clk _ _ | OpRevokeForSubject _ _ clk _ _ | OpDeleteForSubject _ _ clk _
  | OpEraseTenant _ _ clk _ | OpReapExpired _ clk => clk
  end.

(** The order in which a loop over the rows visits them. *)
Definition op_range (o : op) (s : Store) : Prop :=
  match o with
  | OpRevokeForSubject range _ _ _ _ | OpDeleteForSubject range _ _ _ | OpEraseTenant range _ _ _ =>
      range_ok range s
  | _ => True
  end.

Section runs.
Context (uuid_String : uuid -> string).

Definition exec (o : op) (s : Store) : Store :=
  match o with
  | OpCreate ctx r => (Create ctx r s).1
  | OpTouch ctx clk t h until => (Touch ctx clk t h until s).1
  | OpRotate ctx clk req => (Rotate ctx clk req s).1
  | OpReplace ctx clk req => (Replace ctx clk req s).1
  | OpRevoke ctx clk t h => (Revoke ctx clk t h s).1
  | OpRevokeSession ctx clk sub i => (RevokeSession ctx clk sub i s).1
  | OpRevokeForSubject range ctx clk sub except =>
      (RevokeForSubject uuid_String range ctx clk sub except s).1
  | OpDeleteForSubject range ctx clk sub => (DeleteForSubject uuid_String range ctx clk sub s).1
  | OpEraseTenant range ctx clk t => (EraseTenant uuid_String range ctx clk t s).1
  | OpReapExpired ctx clk => (ReapExpired ctx clk s).1
  end.

(** One operation: its clock reads an instant after year 1, its loops visit each row once, and the
    feed counter has room. *)
Inductive step (s : Store) (o : op) : Store -> Prop :=
  | step_intro : 0 <= op_clk o -> op_range o s -> room s -> step s o (exec o s).

Inductive run : Store -> list op -> Store -> Prop :=
  | run_nil s : run s [] s
  | run_cons s o s1 os s2 : step s o s1 -> run s1 os s2 -> run s (o :: os) s2.

Definition reachable (s : Store) : Prop := exists os, run NewWithClock os s.
End runs.

Lemma reachable_start str : reachable str NewWithClock.
Proof. exists []. constructor. Qed.

Lemma run_app str s1 os s2 os' s3 : run str s1 os s2 -> run str s2 os' s3 -> run str s1 (os ++ os') s3.
Proof. induction 1; [done|]. intros. econstructor; eauto. Qed.

Lemma reachable_step str s o :
  reachable str s -> 0 <= op_clk o -> op_range o s -> room s -> reachable str (exec str o s).
Proof.
  intros [os Hr] Hc Ho Hroom. exists (os ++ [o]). eapply run_app; [done|].
  eapply run_cons; [by constructor|constructor].
Qed.

(** ** Every operation preserves the invariant *)
Lemma Create_evolves ctx r s : store_inv s -> evolves s (Create ctx r s).1.
Proof.
  intros Hs. destruct ctx as [e|]; [by apply evolves_refl|].
  unfold Create. destruct (IsZero r); [by apply evolves_refl|].
  destruct (Restore (rowOf r)) eqn:E; [|by apply evolves_refl].
  apply Restore_Ok in E as [Hok _].
  destruct (rows s !! _) eqn:Hi; [by apply evolves_refl|].
  destruct (byHash s !! _) eqn:Hh; [by apply evolves_refl|]. by apply evolves_insert.
Qed.

Lemma found_dec s t h now : store_inv s ->
  (exists i r, found s t h now i r) \/ (forall i r, ~ found s t h now i r).
Proof.
  intros Hs. pose proof (lookup_spec s t h now Hs) as Hl.
  destruct (lookup t h now s) as [[[i r]|]|]; by eauto.
Qed.

Lemma Touch_evolves ctx clk t h until s :
  store_inv s -> 0 <= clk -> evolves s (Touch ctx clk t h until s).1.
Proof.
  intros Hs Hclk. destruct ctx as [e|]; [by apply evolves_refl|].
  destruct (Touch_spec s Hs clk t h until Hclk) as [H1 H2].
  destruct (found_dec s t h (store_now clk) Hs) as [(i & r & Hf)|Hn].
  - destruct (H1 _ _ Hf) as [-> Hok]. destruct Hf as (Hi & _).
    destruct (inv_row s Hs _ _ Hi) as (Hid & _ & Hh).
    apply evolves_same; [|done|done|]; simpl.
    + pose proof (update_inv s i r (set_IdleExpiresAt (touched r until) r) Hs Hi Hid Hok) as Hu.
      simpl in Hu. rewrite insert_delete_id in Hu by done. apply Hu. intros j Hj. congruence.
    + intros j Hj. apply lookup_insert_is_Some'. by right.
  - rewrite H2 by done. by apply evolves_refl.
Qed.

Lemma rotatable_dec s now req : store_inv s ->
  (exists i r, rotatable s now req i r) \/ (forall i r, ~ rotatable s now req i r).
Proof.
  intros Hs. set (next := rot_Next req).
  destruct (found_dec s (Rec_Tenant next) (rot_Previous req) now Hs) as [(i & r & Hf)|Hn].
  2:{ right. intros i r [Hf _]. by eapply Hn. }
  destruct (decide (i = id next /\ RSubject r = subject next /\ Lineage r = lineage next /\
    AbsoluteExpiresAt (rowOf next) <= AbsoluteExpiresAt r /\
    default i (byHash s !! tokenHash next) = i)) as [Hd|Hd].
  - left. exists i, r. destruct Hd as (? & ? & ? & ? & Hb). split; [done|]. repeat split; try done.
    intros j Hj. fold next in Hj. by rewrite Hj in Hb.
  - right. intros i' r' (Hf' & H). destruct (found_unique s _ _ _ _ _ _ _ Hs Hf Hf') as [<- <-].
    apply Hd. destruct H as (? & ? & ? & ? & Hb). repeat split; try done.
    fold next in Hb. destruct (byHash s !! tokenHash next) eqn:E; [|done]. by apply Hb.
Qed.

Lemma Rotate_evolves ctx clk req s : store_inv s -> evolves s (Rotate ctx clk req s).1.
Proof.
  intros Hs. destruct ctx as [e|]; [by apply evolves_refl|].
  destruct (IsZero (rot_Next req)) eqn:Hz.
  { unfold Rotate. rewrite Hz. by apply evolves_refl. }
  destruct (Rotate_spec s Hs clk req Hz) as [H1 H2].
  destruct (rotatable_dec s (store_now clk) req Hs) as [(i & r & Hx)|Hn].
  - rewrite (H1 _ _ Hx). destruct (Restore _) eqn:E; [|by apply evolves_refl].
    apply Restore_Ok in E as [Hok _]. destruct Hx as ((Hi & _) & Hid & _ & _ & _ & Hown).
    apply evolves_same; [|done|done|]; simpl.
    + by apply update_inv.
    + intros j Hj. apply lookup_insert_is_Some'. by right.
  - rewrite H2 by done. by apply evolves_refl.
Qed.

Lemma end_lookup s i now j :
  rows (end_ i now s) !! j = if decide (j = i) then None else rows s !! j.
Proof.
  unfold end_. destruct (rows s !! i) as [r|] eqn:Hi; simpl; case_decide as E; subst.
  - apply lookup_delete_eq.
  - by rewrite lookup_delete_ne.
  - done.
  - done.
Qed.

Lemma end_byHash s i now h k : byHash (end_ i now s) !! h = Some k -> byHash s !! h = Some k.
Proof.
  unfold end_. destruct (rows s !! i); [|done]. simpl. by intros [_ ?]%lookup_delete_Some.
Qed.

Lemma Replace_evolves ctx clk req s :
  store_inv s -> room s -> evolves s (Replace ctx clk req s).1.
Proof.
  intros Hs Hr. destruct ctx as [e|]; [by apply evolves_refl|].
  unfold Replace. destruct (IsZero (rep_Next req)); [by apply evolves_refl|].
  destruct (Restore (rowOf (rep_Next req))) eqn:E; [|by apply evolves_refl].
  apply Restore_Ok in E as [Hok _].
  destruct (rows s !! rep_Previous req) as [r|] eqn:Hp; [|by apply evolves_refl].
  destruct (_ || _ || _); [by apply evolves_refl|].
  destruct (rows s !! ID _) eqn:Hi; [by apply evolves_refl|].
  destruct (byHash s !! _) eqn:Hh; [by apply evolves_refl|].
  pose proof (evolves_end s (rep_Previous req) (store_now clk) Hs Hr) as He.
  eapply evolves_trans; [exact He|]. apply evolves_insert; [apply He|done| |].
  - rewrite end_lookup. by case_decide.
  - destruct (byHash (end_ _ _ s) !! _) eqn:Hx; [|done]. apply end_byHash in Hx. congruence.
Qed.

Lemma Revoke_evolves ctx clk t h s :
  store_inv s -> room s -> evolves s (Revoke ctx clk t h s).1.
Proof.
  intros Hs Hr. destruct ctx as [e|]; [by apply evolves_refl|]. rewrite Revoke_spec by done. simpl.
  repeat case_match; try (by apply evolves_refl). by apply evolves_end.
Qed.

Lemma RevokeSession_evolves ctx clk sub i s :
  store_inv s -> room s -> evolves s (RevokeSession ctx clk sub i s).1.
Proof.
  intros Hs Hr. unfold RevokeSession. repeat case_match; try (by apply evolves_refl).
  by apply evolves_end.
Qed.

(** ReapExpired is the only operation that shrinks the feed. *)
Definition reaps (o : op) : bool := match o with OpReapExpired _ _ => true | _ => false end.

Lemma step_evolves str s o s' :
  store_inv s -> step str s o s' -> reaps o = false -> evolves s s'.
Proof.
  intros Hs [Hclk Hrange Hroom] Ho. destruct o; simpl in *; try discriminate.
  - by apply Create_evolves.
  - by apply Touch_evolves.
  - by apply Rotate_evolves.
  - by apply Replace_evolves.
  - by apply Revoke_evolves.
  - by apply RevokeSession_evolves.
  - destruct ctx; [by apply evolves_refl|by apply evolves_endWhere].
  - destruct ctx; [by apply evolves_refl|by apply evolves_endWhere].
  - destruct ctx; [by apply evolves_refl|by apply evolves_endWhere].
Qed.

Lemma step_inv str s o s' : store_inv s -> step str s o s' -> store_inv s'.
Proof.
  intros Hs Hst. destruct (reaps o) eqn:Ho; [|by eapply ev_inv, step_evolves].
  destruct Hst as [_ _ _]. destruct o; try discriminate. simpl. destruct ctx; [done|].
  destruct (ReapExpired_spec clk s Hs) as (s' & -> & ? & _). done.
Qed.

Lemma run_inv str s os s' : store_inv s -> run str s os s' -> store_inv s'.
Proof. intros Hs Hr. induction Hr; eauto using step_inv. Qed.

Lemma reachable_inv str s : reachable str s -> store_inv s.
Proof. intros [os Hr]. eapply run_inv; [apply empty_inv|done]. Qed.

Lemma run_evolves str s os s' :
  store_inv s -> run str s os s' -> Forall (fun o => reaps o = false) os -> evolves s s'.
Proof.
  intros Hs Hr. induction Hr as [s|s o s1 os s2 Hst Hr IH]; intros Hos; [by apply evolves_refl|].
  apply Forall_cons in Hos as [? ?].
  eapply evolves_trans; [by eapply step_evolves|]. apply IH; [by eapply step_inv|done].
Qed.
