(* ===== verification/SessionStoreProperties.v ===== *)
(** What the session store guarantees to its callers. *)
From S2P Require Import Prelude Errors Tenant Factor Attrs Pending Transitions Factors Codec.
From S2P Require Import VerifiedFacts SessionFacts Journey.
From S2P Require Import CodecFacts.
From S2P Require Import StoreBase SessionRecord SessionStore SessionStoreFacts.
Import Sessions SessionsMemory.

(** ** Concrete values for the witnesses *)
Definition sample_hash (c : Byte.byte) : bytes := repeat c 32.

(** A rendering that tells UUIDs apart: the sixteen bytes. *)
Definition sample_String (u : uuid) : string := bytes_str (uuid_bytes u).

Definition sample_spec (i : uuid) (h : bytes) : Spec :=
  mkSpec i h session0 [] [] (3600 * Second) (86400 * Second) (now0 + 4 * Second).

Definition zero_Rec : Rec := mkRec 0 [] zero_Subject 0 [] [] 0 [] 0 0 0 0.

Definition sample_rec (i : uuid) (h : bytes) : Rec :=
  get_ok zero_Rec (NewRecord (sample_spec i h) (Some Seal)).

Definition rec1 : Rec := sample_rec 501 (sample_hash "a").

Definition rec1' : Rec := sample_rec 501 (sample_hash "b").

Definition rec2 : Rec := sample_rec 502 (sample_hash "c").

Definition later : time := now0 + 10 * Second.

Definition sstore1 : Store := exec sample_String (OpCreate None rec1) NewWithClock.

Lemma sstore1_reachable : reachable sample_String sstore1.
Proof.
  apply (reachable_step sample_String NewWithClock (OpCreate None rec1)); [|done..].
  apply reachable_start.
Qed.

(** ** Properties *)

(** Every state the session store reaches, whatever the operations, their arguments and their
    order, is consistent: rows sit under their own id and pass checkRow, the token-digest index
    and the rows point at each other (no digest finds another session's row or a missing one), and
    feed positions strictly increase up to the store's counter. *)
Theorem session_store_consistent str s : reachable str s -> store_inv s.
Proof. apply reachable_inv. Qed.

Lemma session_store_consistent_witness : store_inv sstore1.
Proof. exact (session_store_consistent sample_String sstore1 sstore1_reachable). Defined.

(** Get never panics and never refuses a stored row.  It returns exactly the live row of that
    tenant whose token digest was presented, verbatim, and store.ErrNotFound when there is none;
    there is never more than one. *)
Theorem session_get_finds_the_live_row str s clk t h :
  reachable str s ->
  match Get None clk t h s with
  | Ok x => exists i r, found s t h (store_now clk) i r /\
      x = mkRec (ID r) (TokenHash r) (RSubject r) (Lineage r) (RSealed r) (AppClaims r)
            (SecurityEpoch r) (ClientFingerprint r) (IdleExpiresAt r) (AbsoluteExpiresAt r)
            (CheckedAt r) (CreatedAt r) /\
      forall j r', found s t h (store_now clk) j r' -> j = i /\ r' = r
  | Err e => e = ErrNotFound /\ forall i r, ~ found s t h (store_now clk) i r
  end.
Proof.
  intros Hs%reachable_inv. destruct (Get_spec s Hs clk t h) as [H1 H2].
  destruct (found_dec s t h (store_now clk) Hs) as [(i & r & Hf)|Hn].
  - destruct (H1 _ _ Hf) as [-> [x E]]. rewrite E. apply Restore_Ok in E as [_ ->].
    exists i, r. repeat split; [apply Hf..| |]; by eapply found_unique.
  - rewrite H2 by done. done.
Qed.

Lemma session_get_finds_the_live_row_witness :
  exists x, Get None later acme (sample_hash "a") sstore1 = Ok x /\
  exists i r, found sstore1 acme (sample_hash "a") (store_now later) i r.
Proof.
  pose proof (session_get_finds_the_live_row sample_String sstore1 later acme (sample_hash "a")
                sstore1_reachable) as H.
  destruct (okb_Ok (Get None later acme (sample_hash "a") sstore1)) as [x E];
    [vm_compute; reflexivity|].
  exists x. split; [done|]. rewrite E in H. destruct H as (i & r & Hf & _). by exists i, r.
Defined.

(** Touch on a live row stores and returns the requested idle expiry, clamped to the row's
    absolute expiry and never earlier than the one it had; it changes nothing else of the row and
    no other row.  Without a live row it returns store.ErrNotFound and changes nothing. *)
Theorem touch_extends_within_the_lifetime str s clk t h until :
  reachable str s -> 0 <= clk ->
  match Touch None clk t h until s with
  | (s', Ok idle) => exists i r, found s t h (store_now clk) i r /\
      idle = Z.max (IdleExpiresAt r)
               (Z.min (time_Truncate until Microsecond) (AbsoluteExpiresAt r)) /\
      IdleExpiresAt r <= idle <= AbsoluteExpiresAt r /\
      rows s' = <[i := set_IdleExpiresAt idle r]> (rows s) /\
      byHash s' = byHash s /\ feed s' = feed s
  | (s', Err e) => s' = s /\ e = ErrNotFound /\ forall i r, ~ found s t h (store_now clk) i r
  end.
Proof.
  intros Hs%reachable_inv Hclk. destruct (Touch_spec s Hs clk t h until Hclk) as [H1 H2].
  destruct (found_dec s t h (store_now clk) Hs) as [(i & r & Hf)|Hn].
  - destruct (H1 _ _ Hf) as [-> Hok]. exists i, r. split; [done|]. split; [done|].
    apply row_ok_spec in Hok. simpl in Hok. unfold touched in *. split; [lia|done].
  - rewrite H2 by done. done.
Qed.

Lemma touch_extends_within_the_lifetime_witness :
  0 <= later /\ exists s' idle,
  Touch None later acme (sample_hash "a") (now0 + 7200 * Second) sstore1 = (s', Ok idle) /\
  exists r, IdleExpiresAt r <= idle <= AbsoluteExpiresAt r.
Proof.
  assert (0 <= later) as Hl by done. split; [done|].
  pose proof (touch_extends_within_the_lifetime sample_String sstore1 later acme (sample_hash "a")
                (now0 + 7200 * Second) sstore1_reachable Hl) as H.
  destruct (okb_pair (Touch None later acme (sample_hash "a") (now0 + 7200 * Second) sstore1))
    as (s' & idle & E); [vm_compute; reflexivity|].
  exists s', idle. rewrite E in H. destruct H as (i & r & _ & _ & H & _). split; [done|]. by exists r.
Defined.

(** Rotate is a compare-and-swap.  It applies only while the presented digest finds a live row
    with the id, tenant, subject and lineage of the next record, which may not end later; then the
    row under that id becomes the next record with the original creation time, the new digest
    finds it and the old one finds nothing any more.  Otherwise nothing changes. *)
Theorem rotate_is_a_compare_and_swap str s clk req :
  reachable str s -> IsZero (rot_Next req) = false ->
  let next := rot_Next req in
  match Rotate None clk req s with
  | (s', Ok _) => exists r, rotatable s (store_now clk) req (id next) r /\
      rows s' = <[id next := set_CreatedAt (CreatedAt r) (rowOf next)]> (rows s) /\
      byHash s' !! tokenHash next = Some (id next) /\
      (tokenHash next <> rot_Previous req -> byHash s' !! rot_Previous req = None) /\
      feed s' = feed s
  | (s', Err e) => s' = s /\
      ((forall i r, ~ rotatable s (store_now clk) req i r) /\ e = ErrConflict \/
       Is e SErrInvalidRecord = true)
  end.
Proof.
  intros Hs%reachable_inv Hz next. destruct (Rotate_spec s Hs clk req Hz) as [H1 H2].
  destruct (rotatable_dec s (store_now clk) req Hs) as [(i & r & Hx)|Hn].
  - rewrite (H1 _ _ Hx). assert (i = id next) as -> by apply Hx.
    unfold Restore. destruct (checkRow _); [by split; [|right]|].
    exists r. simpl. split; [done|]. split; [done|].
    destruct Hx as ((_ & Eh & _) & _). rewrite Eh.
    split; [apply lookup_insert_eq|]. split; [|done]. intros Hne.
    by rewrite lookup_insert_ne, lookup_delete_eq.
  - rewrite H2 by done. split; [done|]. by left.
Qed.

Lemma rotate_is_a_compare_and_swap_witness :
  IsZero rec1' = false /\
  exists s', Rotate None later (mkRotateRequest (sample_hash "a") rec1') sstore1 = (s', Ok tt) /\
  byHash s' !! sample_hash "a" = None.
Proof.
  assert (IsZero rec1' = false) as Hz by (vm_compute; reflexivity). split; [done|].
  pose proof (rotate_is_a_compare_and_swap sample_String sstore1 later
    (mkRotateRequest (sample_hash "a") rec1') sstore1_reachable Hz) as H.
  destruct (okb_pair (Rotate None later (mkRotateRequest (sample_hash "a") rec1') sstore1))
    as (s' & [] & E); [vm_compute; reflexivity|]. cbv zeta in H. rewrite E in H.
  exists s'. split; [done|]. destruct H as (r & _ & _ & _ & H & _). apply H. vm_compute. discriminate.
Defined.

(** Replace is atomic: either nothing changes and the error says why, or the previous row is
    gone and published in the feed under the next position, and the next record is stored under
    its new id and digest, every other row untouched. *)
Theorem replace_is_atomic str s clk req :
  reachable str s -> room s ->
  let next := rep_Next req in
  match Replace None clk req s with
  | (s', Ok _) => exists r, replaceable s (store_now clk) req r /\
      rows s' = <[id next := rowOf next]> (delete (rep_Previous req) (rows s)) /\
      byHash s' !! tokenHash next = Some (id next) /\ byHash s' !! TokenHash r = None /\
      feed s' = feed s ++ [entry_of (store_now clk) (seq s + 1) r]
  | (s', Err e) => s' = s /\
      ((forall r, ~ replaceable s (store_now clk) req r) /\ e = ErrConflict \/
       Is e SErrInvalidRecord = true)
  end.
Proof.
  intros Hs%reachable_inv Hroom. cbv zeta.
  destruct (IsZero (rep_Next req)) eqn:Hz; [unfold Replace; rewrite Hz; split; [done|by right]|].
  destruct (decide (checkRow (rowOf (rep_Next req)) = None)) as [Hok|Hbad].
  2:{ unfold Replace, Restore. rewrite Hz.  destruct (checkRow (rowOf (rep_Next req))); [|done].
      split; [done|by right]. }
  destruct (Replace_spec s clk req Hz Hok) as [H1 H2].
  destruct (rows s !! rep_Previous req) as [r|] eqn:Hp.
  2:{ rewrite H2 by (intros r [E _]; congruence). split; [done|]. left. split; [|done].
      intros r [E _]. congruence. }
  destruct (decide (live r (store_now clk) = true /\ RSubject r = subject (rep_Next req) /\
    Lineage r = lineage (rep_Next req) /\ rows s !! id (rep_Next req) = None /\ byHash s !! tokenHash (rep_Next req) = None))
    as [Hd|Hd].
  2:{ assert (forall r, ~ replaceable s (store_now clk) req r) as Hn.
      { intros r' (E & H). assert (r' = r) as -> by congruence. by apply Hd. }
      rewrite H2 by done. split; [done|]. by left. }
  assert (replaceable s (store_now clk) req r) as Hx by (split; [done|]; apply Hd).
  rewrite (H1 _ Hx). exists r. split; [done|]. unfold end_. rewrite Hp. simpl.
  destruct (inv_row s Hs _ _ Hp) as (Hid & _ & Hb).
  split; [done|]. split; [apply lookup_insert_eq|]. split.
  - destruct Hd as (_ & _ & _ & _ & Hfree).
    rewrite lookup_insert_ne, lookup_delete_eq; [done|]. intros E. congruence.
  - pose proof (inv_seq s Hs). unfold room in Hroom.
    rewrite u64_small by (unfold is_u64; lia). unfold entry_of. by rewrite Hid.
Qed.

Lemma replace_is_atomic_witness :
  exists s', Replace None later (mkReplaceRequest 501 rec2) sstore1 = (s', Ok tt) /\
  length (feed s') = 1%nat.
Proof.
  assert (room sstore1) as Hr by (vm_compute; reflexivity).
  pose proof (replace_is_atomic sample_String sstore1 later (mkReplaceRequest 501 rec2)
                sstore1_reachable Hr) as H.
  destruct (okb_pair (Replace None later (mkReplaceRequest 501 rec2) sstore1))
    as (s' & [] & E); [vm_compute; reflexivity|]. cbv zeta in H. rewrite E in H.
  exists s'. split; [done|]. destruct H as (r & _ & _ & _ & _ & ->). vm_compute. reflexivity.
Defined.

(** RevokeForSubject ends exactly the rows of that subject outside the kept lineage, expired or
    not, and leaves every other row as it was; each ended row is published once, with its tenant
    and end of life, in the order of the rendered ids.  The result does not depend on the order in
    which the map of rows is visited. *)
Theorem revoke_for_subject_ends_exactly_its_rows str s range range' clk sub except :
  reachable str s -> room s -> range_ok range s -> range_ok range' s -> tells_apart str s ->
  let gone r := bool_decide (RSubject r = sub)
                && ((except =? uuid_Nil) || negb (Lineage r =? except)) in
  let s' := (RevokeForSubject str range None clk sub except s).1 in
  rows s' = filter (fun p => gone p.2 = false) (rows s) /\
  (exists vs, Sorted (id_le str) vs /\ NoDup vs /\
     (forall i, i ∈ vs <-> exists r, rows s !! i = Some r /\ gone r = true) /\
     feed s' = feed s ++ entries_of (store_now clk) (seq s) (omap (fun i => rows s !! i) vs)) /\
  RevokeForSubject str range' None clk sub except s = (s', Ok tt).
Proof.
  intros Hs%reachable_inv Hroom Hr Hr' Hinj gone. cbv zeta.
  unfold RevokeForSubject. fold gone. cbn [fst].
  destruct (endWhere_spec str range (store_now clk) gone s Hs Hroom) as (_ & _ & _ & _ & Hfeed);
    [by eapply range_ok_NoDup|].
  split; [by apply endWhere_rows|]. split.
  - exists (victims str range gone s). split; [apply Sorted_victims|].
    split; [by eapply NoDup_victims, range_ok_NoDup|]. split; [|exact Hfeed]. intros i. rewrite elem_of_victims, range_ok_elem by done.
    split; [naive_solver|]. intros (r & E & ?). rewrite E. naive_solver.
  - f_equal. unfold endWhere. rewrite (victims_order str range' range gone s Hinj); [done|].
    unfold range_ok in *. by rewrite Hr', Hr.
Qed.


Definition op_replace1 : op := OpReplace None later (mkReplaceRequest 501 rec2).

Definition op_create3 : op := OpCreate None (sample_rec 503 (sample_hash "d")).

Definition sstore1b : Store := exec sample_String op_replace1 sstore1.

Definition sstore2 : Store := exec sample_String op_create3 sstore1b.

Lemma sstore2_reachable : reachable sample_String sstore2.
Proof.
  apply (reachable_step sample_String sstore1b op_create3); [|done|done|vm_compute; reflexivity].
  apply (reachable_step sample_String sstore1 op_replace1); [|done|done|vm_compute; reflexivity].
  exact sstore1_reachable.
Qed.

Lemma revoke_for_subject_ends_exactly_its_rows_witness :
  let keys := (map_to_list (rows sstore2)).*1 in
  length keys = 2%nat /\
  RevokeForSubject sample_String (List.rev keys) None later ada 0 sstore2
  = ((RevokeForSubject sample_String keys None later ada 0 sstore2).1, Ok tt).
Proof.
  cbv zeta. split; [vm_compute; reflexivity|].
  apply (revoke_for_subject_ends_exactly_its_rows sample_String sstore2
           (map_to_list (rows sstore2)).*1 (List.rev (map_to_list (rows sstore2)).*1) later ada 0).
  - exact sstore2_reachable.
  - vm_compute. reflexivity.
  - apply Permutation_refl.
  - apply Permutation_sym, Permutation_rev.
  - assert (forall i, is_Some (rows sstore2 !! i) -> i = 502 \/ i = 503) as Hk.
    { intros i Hi%elem_of_dom. apply elem_of_elements in Hi.
      assert (elements (dom (rows sstore2)) = [503; 502]) as E by (vm_compute; reflexivity).
      rewrite E in Hi. clear E. apply elem_of_cons in Hi as [->|Hi]; [by right|].
      apply list_elem_of_singleton in Hi as ->. by left. }
    intros i j [-> | ->]%Hk [-> | ->]%Hk; [done| | |done]; vm_compute; discriminate.
Defined.

(** A consumer that polls the revocation feed misses nothing.  Let it poll at one state with any
    cursor the store has issued, keep the cursor it gets back, and poll again with it after any run
    of operations without reaping: the second poll returns, oldest first, exactly the entries
    appended in between, and every session that disappeared in between is among them. *)
Theorem revocation_polling_misses_nothing str s os s' c0 revs c :
  reachable str s -> run str s os s' -> Forall (fun o => reaps o = false) os ->
  0 <= Position c0 <= seq s -> seq s' < two64 - 1 ->
  RevocationsSince None c0 s = (revs, c, None) ->
  exists new, feed s' = feed s ++ new /\
    (RevocationsSince None c s').1.1 = map rev new /\
    forall i, is_Some (rows s !! i) -> rows s' !! i = None ->
      exists v, v ∈ (RevocationsSince None c s').1.1 /\ rv_Session v = i.
Proof.
  intros Hs%reachable_inv Hrun Hos Hc0 Hroom Hpoll.
  destruct (run_evolves str s os s' Hs Hrun Hos) as [Hs' Hq (new & Hf & Hnew & Hgone)].
  unfold RevocationsSince in *. injection Hpoll as Hpoll.
  exists new. split; [done|].
  assert ((feed_since (feed s') c).1 = map rev new) as E
    by (by eapply (poll_after (feed s) (seq s) (feed s') (seq s')), Hnew;
        [apply (inv_feed s Hs)|..|apply (inv_feed s' Hs')]).
  simpl. split; [exact E|]. intros i Hi Hn. destruct (Hgone i Hi Hn) as (e & He & <-).
  exists (rev e). split; [|done]. rewrite E. by apply list_elem_of_fmap_2.
Qed.

Lemma revocation_polling_misses_nothing_witness :
  exists c new, RevocationsSince None (RestoreCursor 0) sstore1 = ([], c, None) /\
  feed sstore2 = feed sstore1 ++ new /\ length new = 1%nat.
Proof.
  exists (RestoreCursor 0).
  destruct (revocation_polling_misses_nothing sample_String sstore1 [op_replace1; op_create3] sstore2
    (RestoreCursor 0) [] (RestoreCursor 0)) as (new & Hf & _).
  - exact sstore1_reachable.
  - eapply run_cons; [apply (step_intro sample_String sstore1 op_replace1)|].
    1-3: done || (vm_compute; reflexivity).
    eapply run_cons; [apply (step_intro sample_String sstore1b op_create3)|constructor].
    1-3: done || (vm_compute; reflexivity).
  - repeat constructor.
  - split; [done|vm_compute; discriminate].
  - vm_compute. reflexivity.
  - vm_compute. reflexivity.
  - exists new. split; [vm_compute; reflexivity|]. split; [exact Hf|].
    apply (f_equal length) in Hf. rewrite length_app in Hf.
    assert (length (feed sstore2) = 1%nat /\ length (feed sstore1) = 0%nat) as [E1 E2]
      by (split; vm_compute; reflexivity).
    lia.
Defined.

(** What NewRecord derives from the attributes it seals. *)
Lemma NewRecord_Ok sp seal r :
  NewRecord sp (Some seal) = Ok r ->
  let a := sp_Attrs sp in
  let fin := a_createdAt a + sp_MaxLifetime sp in
  seal a = Ok (sealed r) /\ id r = sp_ID sp /\ tokenHash r = sp_TokenHash sp /\
  subject r = a_subject a /\ lineage r = a_lineage a /\ r_epoch r = a_epoch a /\
  absoluteExpiresAt r = fin /\ idleExpiresAt r = Z.min (sp_Now sp + sp_IdleTTL sp) fin /\
  createdAt r = sp_Now sp /\ checkedAt r = sp_Now sp /\ id r <> uuid_Nil.
Proof.
  unfold NewRecord, time_Add, time_After. intros H. go_cases.
  destruct (seal (sp_Attrs sp)) as [b|] eqn:Eb; [|discriminate].
  apply Restore_Ok in H as [Hok ->]. apply row_ok_spec in Hok as [? _]. simpl in *.
  repeat split; try done. case_match; bools; lia.
Qed.

(** A session written through the store comes back whole.  When NewRecord seals the attributes
    of a session with the core codec and Create accepts the record, then Get with that digest
    returns, at every instant before the idle expiry, a record whose sealed bytes unseal to the
    very same attributes and whose index fields (tenant, subject, lineage, epoch) are those of the
    sealed session; the row never outlives the lineage's maximum lifetime. *)
Theorem created_session_reads_back str s s' sp r clk :
  reachable str s -> session (sp_Attrs sp) -> NewRecord sp (Some Seal) = Ok r ->
  Create None r s = (s', Ok tt) -> store_now clk < time_Truncate (idleExpiresAt r) Microsecond ->
  exists x, Get None clk (Tenant (a_subject (sp_Attrs sp))) (sp_TokenHash sp) s' = Ok x /\
    Unseal (sealed x) = Ok (sp_Attrs sp) /\ subject x = a_subject (sp_Attrs sp) /\
    lineage x = a_lineage (sp_Attrs sp) /\ r_epoch x = a_epoch (sp_Attrs sp) /\
    idleExpiresAt x <= absoluteExpiresAt x <= a_createdAt (sp_Attrs sp) + sp_MaxLifetime sp.
Proof.
  intros Hs%reachable_inv Ha%session_wf Hr Hc Hlive.
  pose proof (Create_evolves None r s Hs) as Hev. rewrite Hc in Hev. apply ev_inv in Hev. simpl in Hev.
  apply NewRecord_Ok in Hr as (Hseal & Hid & Hh & Hsub & Hlin & Hep & Habs & _ & _ & _ & Hnz).
  assert (rows s' !! id r = Some (rowOf r)) as Hrow.
  { unfold Create, IsZero in Hc. destruct (id r =? uuid_Nil); [discriminate|].
    destruct (Restore (rowOf r)); [|discriminate].
    do 2 (case_match; try discriminate). injection Hc as <-. apply lookup_insert_eq. }
  destruct (inv_row s' Hev _ _ Hrow) as (_ & Hok & _). apply row_ok_spec in Hok.
  assert (found s' (Tenant (a_subject (sp_Attrs sp))) (sp_TokenHash sp) (store_now clk) (id r)
            (rowOf r)) as Hf.
  { split; [done|]. split; [done|]. split; [simpl; congruence|]. apply live_true. simpl in *. lia. }
  destruct (proj1 (Get_spec s' Hev clk _ _) _ _ Hf) as [-> [x Ex]]. rewrite Ex.
  apply Restore_Ok in Ex as [_ ->]. eexists. split; [done|]. simpl in *.
  split; [by apply Unseal_Seal|]. repeat split; try done; [lia|].
  pose proof (time_Truncate_le (absoluteExpiresAt r) Microsecond). lia.
Qed.

Lemma created_session_reads_back_witness :
  exists x, Get None later acme (sample_hash "a") sstore1 = Ok x /\ Unseal (sealed x) = Ok session0.
Proof.
  destruct (okb_pair (Create None rec1 NewWithClock)) as (s' & [] & E); [vm_compute; reflexivity|].
  assert (s' = sstore1) as ->.
  { unfold sstore1, exec. by rewrite E. }
  destruct (created_session_reads_back sample_String NewWithClock sstore1
    (sample_spec 501 (sample_hash "a")) rec1 later) as (x & H1 & H2 & _).
  - apply reachable_start.
  - exact session0_session.
  - vm_compute. reflexivity.
  - exact E.
  - vm_compute. reflexivity.
  - exists x. split; [exact H1|exact H2].
Defined.
