(* ===== verification/TokenRecord.v ===== *)
(** Refresh records and API keys: store/tokens/record.go, store/tokens/apikey.go and the request and
    state types of store/tokens/store.go. *)
From S2P Require Import Prelude Errors Tenant Factor Attrs Pending Codec.

Module Tokens.

Definition maxClockSkew : duration := Minute.

Definition HashLen : Z := 32.

Definition MaxFingerprintLen : Z := 64.

Definition MaxAppClaimsLen : Z := Z.shiftl 16 10.

Definition MaxAPIKeyLabelLen : Z := 128.

Definition ReuseGrace : duration := 10 * Second.

(** [AttrsSealer]; [None] is the nil function. *)
Definition AttrsSealer : Type := option (SessionAttrs -> res Sealed).

Record RefreshSpec := mkRefreshSpec {
  sp_TokenHash : bytes;
  sp_Family : uuid;
  sp_Attrs : SessionAttrs;
  sp_AppClaims : bytes;
  sp_ClientFingerprint : bytes;
  sp_IdleTTL : duration;
  sp_MaxLifetime : duration;
  sp_Now : time }.

Record RefreshRecord := mkRefreshRecord {
  tokenHash : bytes;
  family : uuid;
  subject : Subject;
  lineage : uuid;
  sealed : Sealed;
  appClaims : bytes;
  r_epoch : Z;
  clientFingerprint : bytes;
  idleExpiresAt : time;
  familyExpiresAt : time;
  createdAt : time }.

Record RefreshRow := mkRefreshRow {
  TokenHash : bytes;
  Family : uuid;
  RSubject : Subject;
  Lineage : uuid;
  RSealed : Sealed;
  AppClaims : bytes;
  SecurityEpoch : Z;
  ClientFingerprint : bytes;
  IdleExpiresAt : time;
  FamilyExpiresAt : time;
  CreatedAt : time }.

Definition checkRefreshRow (r : RefreshRow) : option error :=
  if negb (Z.of_nat (length (TokenHash r)) =? HashLen)
  then Some (New "token hash must be a SHA-256 digest")
  else if (Family r =? uuid_Nil) || (Lineage r =? uuid_Nil)
  then Some (New "family and lineage are required")
  else if Subject_IsZero (RSubject r)
  then Some (New "subject is required")
  else if Z.of_nat (length (RSealed r)) =? 0
  then Some (New "sealed session attributes are required")
  else if MaxAppClaimsLen <? Z.of_nat (length (AppClaims r))
  then Some (New "application claims are too large")
  else if MaxFingerprintLen <? Z.of_nat (length (ClientFingerprint r))
  then Some (New "client fingerprint is too long")
  else if time_IsZero (CreatedAt r) || time_IsZero (IdleExpiresAt r)
          || time_IsZero (FamilyExpiresAt r)
  then Some (New "creation and expiry times are required")
  else if negb (time_After (IdleExpiresAt r) (CreatedAt r))
          || time_After (IdleExpiresAt r) (FamilyExpiresAt r)
  then Some (New "idle expiry must fall after creation and within the family lifetime")
  else None.

Definition RestoreRefreshRecord (r : RefreshRow) : res RefreshRecord :=
  match checkRefreshRow r with
  | Some err => Err (Join TErrInvalidRecord err)
  | None =>
      Ok (mkRefreshRecord (TokenHash r) (Family r) (RSubject r) (Lineage r) (RSealed r)
            (AppClaims r) (SecurityEpoch r) (ClientFingerprint r) (IdleExpiresAt r)
            (FamilyExpiresAt r) (CreatedAt r))
  end.

Definition NewRefreshRecord (s : RefreshSpec) (seal : AttrsSealer) : res RefreshRecord :=
  if SessionAttrs_IsZero (sp_Attrs s) || time_IsZero (a_createdAt (sp_Attrs s))
  then Err (Join TErrInvalidRecord (New "session attributes are not set"))
  else match seal with
  | None => Err (Join TErrInvalidRecord (New "a sealer is required"))
  | Some seal =>
      if (sp_IdleTTL s <=? 0) || (sp_MaxLifetime s <=? 0) || time_IsZero (sp_Now s)
      then Err (Join TErrInvalidRecord (New "lifetimes and issuing time are required"))
      else if time_Before (sp_Now s) (time_Add (a_createdAt (sp_Attrs s)) (- maxClockSkew))
      then Err (Join TErrInvalidRecord (New "issuing time precedes the lineage admission"))
      else
        let familyEnd := time_Add (a_createdAt (sp_Attrs s)) (sp_MaxLifetime s) in
        if negb (time_Before (sp_Now s) familyEnd) then Err TErrLifetimeExceeded
        else
          let idleEnd := time_Add (sp_Now s) (sp_IdleTTL s) in
          let idleEnd := if time_After idleEnd familyEnd then familyEnd else idleEnd in
          match seal (sp_Attrs s) with
          | Err err => Err (Join TErrInvalidRecord err)
          | Ok sealed =>
              RestoreRefreshRecord
                (mkRefreshRow (sp_TokenHash s) (sp_Family s) (a_subject (sp_Attrs s))
                   (a_lineage (sp_Attrs s)) sealed (sp_AppClaims s) (a_epoch (sp_Attrs s))
                   (sp_ClientFingerprint s) idleEnd familyEnd (sp_Now s))
          end
  end.

Definition RefreshRecord_Tenant (r : RefreshRecord) : TenantID := Tenant (subject r).

Definition IsZero (r : RefreshRecord) : bool := Z.of_nat (length (tokenHash r)) =? 0.

Record RotationRequest := mkRotationRequest { Presented : bytes; rot_Next : RefreshRecord }.

Record Rotation := mkRotation { rotn_Family : uuid; ConsumedAt : time }.

Record ReissueRequest := mkReissueRequest { rei_Family : uuid; rei_Next : RefreshRecord }.

Record FamilyState := mkFamilyState {
  fs_Subject : Subject;
  fs_Lineage : uuid;
  Revoked : bool;
  fs_ExpiresAt : time }.

Definition Live (f : FamilyState) (now : time) : bool :=
  negb (Revoked f) && time_Before now (fs_ExpiresAt f).

Record Revocation := mkRevocation { rv_Tenant : TenantID; rv_Family : uuid; rv_At : time }.

Record APIKey := mkAPIKey {
  k_ID : uuid;
  Owner : Subject;
  k_Kind : string;
  k_Name : string;
  KeyHash : bytes;
  k_AppClaims : bytes;
  CreatedEpoch : Z;
  k_CreatedAt : time;
  ExpiresAt : time;
  RevokedAt : time }.

Definition Validate (k : APIKey) : option error :=
  let problem :=
    if k_ID k =? uuid_Nil then Some "id is required"
    else if Subject_IsZero (Owner k) then Some "owner is required"
    else if bool_decide (k_Kind k = "") || (MaxAPIKeyLabelLen <? Z.of_nat (String.length (k_Kind k)))
            || (MaxAPIKeyLabelLen <? Z.of_nat (String.length (k_Name k)))
    then Some "kind is required and labels are bounded"
    else if negb (Z.of_nat (length (KeyHash k)) =? HashLen)
    then Some "key hash must be a SHA-256 digest"
    else if MaxAppClaimsLen <? Z.of_nat (length (k_AppClaims k))
    then Some "application claims are too large"
    else if time_IsZero (k_CreatedAt k) then Some "creation time is required"
    else if negb (time_IsZero (ExpiresAt k)) && negb (time_After (ExpiresAt k) (k_CreatedAt k))
    then Some "expiry must fall after creation"
    else None in
  match problem with
  | None => None
  | Some p => Some (Join TErrInvalidRecord (New p))
  end.

(** The assignment [k.RevokedAt = now]. *)
Definition set_RevokedAt (t : time) (k : APIKey) : APIKey :=
  mkAPIKey (k_ID k) (Owner k) (k_Kind k) (k_Name k) (KeyHash k) (k_AppClaims k) (CreatedEpoch k)
    (k_CreatedAt k) (ExpiresAt k) t.

Lemma RestoreRefreshRecord_Ok r x :
  RestoreRefreshRecord r = Ok x <->
  checkRefreshRow r = None /\
  x = mkRefreshRecord (TokenHash r) (Family r) (RSubject r) (Lineage r) (RSealed r) (AppClaims r)
        (SecurityEpoch r) (ClientFingerprint r) (IdleExpiresAt r) (FamilyExpiresAt r)
        (CreatedAt r).
Proof. unfold RestoreRefreshRecord. destruct (checkRefreshRow r); naive_solver. Qed.

End Tokens.
