(* ===== verification/TokenStore.v ===== *)
(** The in-memory token store: store/tokens/memory/store.go.

    Refresh tokens are kept under their digest, with the digests of each family in insertion order;
    API keys are kept under tenant and digest, with an index by id.  Where Go ranges over a map and
    the order can be observed or a deletion happens inside the loop, the order is the argument
    [range].  [uuid_String] is the third-party UUID rendering. *)
From S2P Require Import Prelude Errors Tenant Factor Attrs Pending Codec StoreBase TokenRecord.

Module TokensMemory.
Import Tokens.

Abbreviation familyKey := (TenantID * uuid)%type.

Abbreviation keyRef := (TenantID * bytes)%type.

Record refresh := mkRefresh {
  row : RefreshRow;
  consumedAt : time;
  consumedBy : bytes;
  revoked : bool }.

Record Store := mkStore {
  tokens : gmap bytes refresh;
  families : gmap familyKey (list bytes);
  feed : list (revocation Revocation);
  seq : Z;
  keys : gmap keyRef APIKey;
  keyIDs : gmap uuid keyRef }.

Definition NewWithClock : Store := mkStore ∅ ∅ [] 0 ∅ ∅.

Definition Ping (ctx : Ctx) : res unit :=
  match ctx with Some err => Err err | None => Ok tt end.

Definition familyOf (r : RefreshRow) : familyKey := (Tenant (RSubject r), Family r).

(** [s.families[fk]], nil when absent. *)
Definition members (fk : familyKey) (s : Store) : list bytes := default [] (families s !! fk).

Definition dropToken (h : bytes) (s : Store) : Store :=
  match tokens s !! h with
  | None => s
  | Some r =>
      let fk := familyOf (row r) in
      let hs := List.filter (fun x => negb (bool_decide (x = h))) (members fk s) in
      mkStore (delete h (tokens s))
        (if Z.of_nat (length hs) =? 0 then delete fk (families s) else <[fk := hs]> (families s))
        (feed s) (seq s) (keys s) (keyIDs s)
  end.

Definition dropFamily (fk : familyKey) (s : Store) : Store :=
  fold_left (fun s h => dropToken h s) (members fk s) s.

Definition dropKey (ref : keyRef) (id : uuid) (s : Store) : Store :=
  mkStore (tokens s) (families s) (feed s) (seq s) (delete ref (keys s)) (delete id (keyIDs s)).

Definition maxTime (a b : time) : time := if time_After b a then b else a.

(** The loop of revoke over the family's digests: the tokens with their flags set, the latest
    family expiry and whether a flag changed.  A digest with no token is a nil dereference. *)
Fixpoint revoke_loop (hs : list bytes) (ts : gmap bytes refresh) (expires : time)
    (appended : bool) : res (gmap bytes refresh * time * bool) :=
  match hs with
  | [] => Ok (ts, expires, appended)
  | h :: hs' =>
      match ts !! h with
      | None => Err NilPanic
      | Some r =>
          let expires := maxTime expires (FamilyExpiresAt (row r)) in
          if negb (revoked r)
          then revoke_loop hs'
                 (<[h := mkRefresh (row r) (consumedAt r) (consumedBy r) true]> ts) expires true
          else revoke_loop hs' ts expires appended
      end
  end.

Definition revoke (fk : familyKey) (now : time) (s : Store) : res Store :=
  '(ts, expires, appended) ← revoke_loop (members fk s) (tokens s) time_zero false;
  if negb appended
  then Ok (mkStore ts (families s) (feed s) (seq s) (keys s) (keyIDs s))
  else
    let seq' := u64 (seq s + 1) in
    Ok (mkStore ts (families s)
          (feed s ++ [mkEntry seq' (mkRevocation fk.1 fk.2 now) expires]) seq' (keys s) (keyIDs s)).

(** [after m s k]: continue with [k] when [m] succeeded, or return its error with the state as it
    was. *)
Definition after {A} (m : res Store) (s : Store) (k : Store -> Store * res A) : Store * res A :=
  match m with Ok s' => k s' | Err e => (s, Err e) end.

Definition EraseTenant (range : list familyKey) (krange : list keyRef) (ctx : Ctx) (clk : time)
    (t : TenantID) (s : Store) : Store * res unit :=
  match ctx with
  | Some err => (s, Err err)
  | None =>
      let now := store_now clk in
      let erased := fold_left (fun m fk =>
          s ← m;
          if bool_decide (fk.1 = t)
          then s ← revoke fk now s; Ok (dropFamily fk s) else Ok s) range (Ok s) in
      after erased s (fun s =>
        (fold_left (fun s ref =>
             match keys s !! ref with
             | Some k => if bool_decide (ref.1 = t) then dropKey ref (k_ID k) s else s
             | None => s
             end) krange s, Ok tt))
  end.

(** The bodies of ReapExpired's loops over the tokens and over the keys. *)
Definition reap_token (now : time) (p : Store * Z) (h : bytes) : Store * Z :=
  let '(s, n) := p in
  match tokens s !! h with
  | Some r =>
      if negb (time_Before now (IdleExpiresAt (row r)))
         || negb (time_Before now (FamilyExpiresAt (row r)))
      then (dropToken h s, n + 1) else (s, n)
  | None => (s, n)
  end.

Definition reap_key (now : time) (p : Store * Z) (ref : keyRef) : Store * Z :=
  let '(s, n) := p in
  match keys s !! ref with
  | Some k =>
      if negb (time_IsZero (ExpiresAt k)) && negb (time_Before now (ExpiresAt k))
      then (dropKey ref (k_ID k) s, n + 1) else (s, n)
  | None => (s, n)
  end.

Definition ReapExpired (range : list bytes) (krange : list keyRef) (ctx : Ctx) (clk : time)
    (s : Store) : Store * res Z :=
  match ctx with
  | Some err => (s, Err err)
  | None =>
      let now := store_now clk in
      let '(s, n) := fold_left (reap_token now) range (s, 0) in
      let '(s, n) := fold_left (reap_key now) krange (s, n) in
      let '(kept, dropped) := feed_reap (feed s) now in
      (mkStore (tokens s) (families s) kept (seq s) (keys s) (keyIDs s), Ok (n + dropped))
  end.

Definition rowOf (r : RefreshRecord) : RefreshRow :=
  mkRefreshRow (tokenHash r) (family r) (subject r) (lineage r) (sealed r)
    (nonEmpty (appClaims r)) (r_epoch r) (nonEmpty (clientFingerprint r))
    (time_Truncate (idleExpiresAt r) Microsecond)
    (time_Truncate (familyExpiresAt r) Microsecond)
    (time_Truncate (createdAt r) Microsecond).

Definition insert (r : RefreshRecord) (s : Store) : res Store :=
  let row := rowOf r in
  _ ← RestoreRefreshRecord row;
  let h := TokenHash row in
  match tokens s !! h with
  | Some _ => Err ErrConflict
  | None =>
      let fk := familyOf row in
      Ok (mkStore (<[h := mkRefresh row time_zero [] false]> (tokens s))
            (<[fk := members fk s ++ [h]]> (families s)) (feed s) (seq s) (keys s) (keyIDs s))
  end.

Definition Create (ctx : Ctx) (r : RefreshRecord) (s : Store) : Store * res unit :=
  match ctx with
  | Some err => (s, Err err)
  | None =>
      if IsZero r then (s, Err TErrInvalidRecord)
      else match families s !! (RefreshRecord_Tenant r, family r) with
      | Some _ => (s, Err ErrConflict)
      | None => after (insert r s) s (fun s' => (s', Ok tt))
      end
  end.

Definition lookup (t : TenantID) (tokenHash : bytes) (s : Store) : option refresh :=
  match tokens s !! tokenHash with
  | None => None
  | Some r => if negb (bool_decide (Tenant (RSubject (row r)) = t)) then None else Some r
  end.

Definition usable (r : refresh) (now : time) : option error :=
  if revoked r || negb (time_Before now (FamilyExpiresAt (row r)))
  then Some (ErrRevoked : error)
  else if negb (time_Before now (IdleExpiresAt (row r)))
  then Some (ErrNotFound : error)
  else None.

Definition replayable (r : refresh) (now : time) : option error :=
  match usable r now with
  | Some err =>
      if time_IsZero (consumedAt r) || negb (Is err ErrNotFound) then Some err else None
  | None => None
  end.

Definition Get (ctx : Ctx) (clk : time) (t : TenantID) (tokenHash : bytes) (s : Store)
  : res RefreshRecord :=
  match ctx with
  | Some err => Err err
  | None =>
      let now := store_now clk in
      match lookup t tokenHash s with
      | None => Err ErrNotFound
      | Some r =>
          match replayable r now with
          | Some err => Err err
          | None => RestoreRefreshRecord (row r)
          end
      end
  end.

Definition continues (r : RefreshRow) (next : RefreshRecord) : bool :=
  bool_decide (RSubject r = subject next) && (Lineage r =? lineage next)
  && (Family r =? family next).

Definition ConsumeForRotation (ctx : Ctx) (clk : time) (req : RotationRequest) (s : Store)
  : Store * res Rotation :=
  match ctx with
  | Some err => (s, Err err)
  | None =>
      if IsZero (rot_Next req) || negb (Z.of_nat (length (Presented req)) =? HashLen)
      then (s, Err (Join TErrInvalidRecord
                      (New "a presented digest and a next record are required")))
      else
        let now := store_now clk in
        match lookup (RefreshRecord_Tenant (rot_Next req)) (Presented req) s with
        | None => (s, Err ErrNotFound)
        | Some r =>
            match replayable r now with
            | Some err => (s, Err err)
            | None =>
                if negb (continues (row r) (rot_Next req)) then (s, Err ErrConflict)
                else if negb (time_IsZero (consumedAt r))
                then
                  let fp := clientFingerprint (rot_Next req) in
                  if (time_Sub now (consumedAt r) <? ReuseGrace)
                     && (0 <? Z.of_nat (length (consumedBy r))) && bool_decide (consumedBy r = fp)
                  then (s, Err ErrConcurrent)
                  else after (revoke (familyOf (row r)) now s) s (fun s' => (s', Err ErrReused))
                else if time_After (time_Truncate (familyExpiresAt (rot_Next req)) Microsecond)
                          (FamilyExpiresAt (row r))
                then (s, Err ErrConflict)
                else after (insert (rot_Next req) s) s (fun s' =>
                  (mkStore
                     (<[Presented req :=
                          mkRefresh (row r) now (clientFingerprint (rot_Next req)) (revoked r)]>
                        (tokens s'))
                     (families s') (feed s') (seq s') (keys s') (keyIDs s'),
                   Ok (mkRotation (Family (row r)) now)))
            end
        end
  end.

(** [familyRows]; a missing token is a nil pointer, dereferenced by every caller. *)
Definition familyRows (fk : familyKey) (s : Store) : res (list refresh) :=
  fold_right (fun h acc =>
      rs ← acc;
      match tokens s !! h with Some r => Ok (r :: rs) | None => Err NilPanic end)
    (Ok []) (members fk s).

Definition state (rows : list refresh) : res FamilyState :=
  match rows with
  | [] => Err NilPanic
  | r0 :: _ =>
      Ok (fold_left (fun st r =>
            mkFamilyState (fs_Subject st) (fs_Lineage st) (Revoked st || revoked r)
              (maxTime (fs_ExpiresAt st) (FamilyExpiresAt (row r))))
          rows (mkFamilyState (RSubject (row r0)) (Lineage (row r0)) false time_zero))
  end.

Definition Reissue (ctx : Ctx) (clk : time) (req : ReissueRequest) (s : Store)
  : Store * res unit :=
  match ctx with
  | Some err => (s, Err err)
  | None =>
      let next := rei_Next req in
      if IsZero next then (s, Err TErrInvalidRecord)
      else
        let now := store_now clk in
        let fk := (RefreshRecord_Tenant next, rei_Family req) in
        match familyRows fk s with
        | Err e => (s, Err e)
        | Ok rows =>
            if (Z.of_nat (length rows) =? 0) || (family next =? rei_Family req)
            then (s, Err ErrConflict)
            else match families s !! (RefreshRecord_Tenant next, family next),
                       tokens s !! tokenHash next with
            | Some _, _ => (s, Err ErrConflict)
            | None, Some _ => (s, Err ErrConflict)
            | None, None =>
                match state rows with
                | Err e => (s, Err e)
                | Ok st =>
                    if Revoked st || negb (Live st now)
                       || negb (bool_decide (fs_Subject st = subject next))
                       || negb (fs_Lineage st =? lineage next)
                    then (s, Err ErrConflict)
                    else if existsb (fun r => negb (bool_decide (RSubject (row r) = fs_Subject st))
                                       || negb (Lineage (row r) =? fs_Lineage st)) rows
                    then (s, Err ErrConflict)
                    else after (insert next s) s (fun s1 =>
                           after (revoke fk now s1) s (fun s2 => (s2, Ok tt)))
                end
            end
        end
  end.

(** The model names the receiver's method [FamilyState] after its type. *)
Definition FamilyState_of (ctx : Ctx) (t : TenantID) (family : uuid) (s : Store)
  : res FamilyState :=
  match ctx with
  | Some err => Err err
  | None =>
      rows ← familyRows (t, family) s;
      if Z.of_nat (length rows) =? 0 then Err ErrNotFound else state rows
  end.

Definition RevokeFamily (ctx : Ctx) (clk : time) (t : TenantID) (family : uuid) (s : Store)
  : Store * res unit :=
  match ctx with
  | Some err => (s, Err err)
  | None => after (revoke (t, family) (store_now clk) s) s (fun s' => (s', Ok tt))
  end.

Section ordered.
Context (uuid_String : uuid -> string).

Definition family_le (a b : familyKey) : Prop :=
  String.le (uuid_String a.2) (uuid_String b.2).

#[export] Instance family_le_dec : RelDecision family_le.
Proof. intros a b. unfold family_le. apply _. Defined.

(** The families of [sub] that [keep] does not hold back, by rendered id. *)
Fixpoint collect (range : list familyKey) (sub : Subject) (keep : RefreshRow -> bool) (s : Store)
  : res (list familyKey) :=
  match range with
  | [] => Ok []
  | fk :: range' =>
      if negb (bool_decide (fk.1 = Tenant sub)) then collect range' sub keep s
      else match members fk s with
      | [] => collect range' sub keep s
      | h :: _ =>
          match tokens s !! h with
          | None => Err NilPanic
          | Some r =>
              rest ← collect range' sub keep s;
              if bool_decide (RSubject (row r) = sub) && negb (keep (row r))
              then Ok (fk :: rest) else Ok rest
          end
      end
  end.

Definition subjectFamilies (range : list familyKey) (sub : Subject) (keep : RefreshRow -> bool)
    (s : Store) : res (list familyKey) :=
  out ← collect range sub keep s; Ok (merge_sort family_le out).

Definition RevokeForSubject (range : list familyKey) (ctx : Ctx) (clk : time) (sub : Subject)
    (exceptLineage : uuid) (s : Store) : Store * res unit :=
  match ctx with
  | Some err => (s, Err err)
  | None =>
      let now := store_now clk in
      let keep r := negb (exceptLineage =? uuid_Nil) && (Lineage r =? exceptLineage) in
      after (fks ← subjectFamilies range sub keep s;
             fold_left (fun m fk => s ← m; revoke fk now s) fks (Ok s)) s
        (fun s' => (s', Ok tt))
  end.

Definition DeleteForSubject (range : list familyKey) (krange : list keyRef) (ctx : Ctx)
    (clk : time) (sub : Subject) (s : Store) : Store * res unit :=
  match ctx with
  | Some err => (s, Err err)
  | None =>
      let now := store_now clk in
      after (fks ← subjectFamilies range sub (fun _ => false) s;
             fold_left (fun m fk => s ← m; s ← revoke fk now s; Ok (dropFamily fk s)) fks (Ok s))
        s (fun s =>
        (fold_left (fun s ref =>
             match keys s !! ref with
             | Some k => if bool_decide (Owner k = sub) then dropKey ref (k_ID k) s else s
             | None => s
             end) krange s, Ok tt))
  end.

Definition RevocationsSince (ctx : Ctx) (c : Cursor) (s : Store)
  : list Revocation * Cursor * option error :=
  match ctx with
  | Some err => ([], c, Some err)
  | None => (feed_since (feed s) c, None)
  end.

Definition cloneKey (k : APIKey) : APIKey :=
  mkAPIKey (k_ID k) (Owner k) (k_Kind k) (k_Name k) (KeyHash k) (k_AppClaims k) (CreatedEpoch k)
    (time_Truncate (k_CreatedAt k) Microsecond)
    (if negb (time_IsZero (ExpiresAt k)) then time_Truncate (ExpiresAt k) Microsecond
     else ExpiresAt k)
    (if negb (time_IsZero (RevokedAt k)) then time_Truncate (RevokedAt k) Microsecond
     else RevokedAt k).

Definition CreateAPIKey (ctx : Ctx) (k : APIKey) (s : Store) : Store * res unit :=
  match ctx with
  | Some err => (s, Err err)
  | None =>
      match Validate k with
      | Some err => (s, Err err)
      | None =>
          let ref := (Tenant (Owner k), KeyHash k) in
          match keys s !! ref, keyIDs s !! k_ID k with
          | Some _, _ => (s, Err ErrConflict)
          | None, Some _ => (s, Err ErrConflict)
          | None, None =>
              (mkStore (tokens s) (families s) (feed s) (seq s)
                 (<[ref := cloneKey k]> (keys s)) (<[k_ID k := ref]> (keyIDs s)), Ok tt)
          end
      end
  end.

Definition GetAPIKey (ctx : Ctx) (clk : time) (t : TenantID) (keyHash : bytes) (s : Store)
  : res APIKey :=
  match ctx with
  | Some err => Err err
  | None =>
      let now := store_now clk in
      match keys s !! (t, keyHash) with
      | None => Err ErrNotFound
      | Some k =>
          if negb (time_IsZero (ExpiresAt k)) && negb (time_Before now (ExpiresAt k))
          then Err ErrNotFound else Ok (cloneKey k)
      end
  end.

(** [a.CreatedAt.Compare(b.CreatedAt)], then the rendered ids. *)
Definition key_le (a b : APIKey) : Prop :=
  k_CreatedAt a < k_CreatedAt b \/
  k_CreatedAt a = k_CreatedAt b /\ String.le (uuid_String (k_ID a)) (uuid_String (k_ID b)).

#[export] Instance key_le_dec : RelDecision key_le.
Proof. intros a b. unfold key_le. apply _. Defined.

Definition ListAPIKeys (krange : list keyRef) (ctx : Ctx) (owner : Subject) (s : Store)
  : res (list APIKey) :=
  match ctx with
  | Some err => Err err
  | None =>
      Ok (merge_sort key_le
            (omap (fun ref => k ← keys s !! ref;
                              if bool_decide (Owner k = owner) then Some (cloneKey k) else None)
               krange))
  end.
End ordered.

Definition RevokeAPIKey (ctx : Ctx) (clk : time) (owner : Subject) (id : uuid) (s : Store)
  : Store * res unit :=
  match ctx with
  | Some err => (s, Err err)
  | None =>
      let now := store_now clk in
      match keyIDs s !! id with
      | None => (s, Err ErrNotFound)
      | Some ref =>
          match keys s !! ref with
          | None => (s, Err NilPanic)
          | Some k =>
              if negb (bool_decide (Owner k = owner)) then (s, Err ErrNotFound)
              else if time_IsZero (RevokedAt k)
              then (mkStore (tokens s) (families s) (feed s) (seq s)
                      (<[ref := set_RevokedAt now k]> (keys s)) (keyIDs s), Ok tt)
              else (s, Ok tt)
          end
      end
  end.

End TokensMemory.
