(* ===== verification/TokenStoreFacts.v ===== *)
(** The token store's invariant and the helpers every operation is made of: insert, revoke,
    dropToken and dropKey. *)
From S2P Require Import Prelude Errors Tenant Factor Attrs Pending Codec StoreBase TokenRecord.
From S2P Require Import TokenStore.
Import Tokens TokensMemory.

(** [same_family r r'] *)
Definition same_family (r r' : refresh) : Prop := familyOf (row r) = familyOf (row r').

(** The refresh part.  A family's list holds exactly the digests of its tokens; members of a family
    share subject, lineage and revocation flag; at most one of them is unconsumed. *)
Record tok_inv (s : Store) : Prop := {
  ti_row : forall h r, tokens s !! h = Some r ->
      TokenHash (row r) = h /\ checkRefreshRow (row r) = None;
  ti_mem : forall fk h, h ∈ members fk s <->
      exists r, tokens s !! h = Some r /\ familyOf (row r) = fk;
  ti_nodup : forall fk, NoDup (members fk s);
  ti_some : forall fk hs, families s !! fk = Some hs -> hs <> [];
  ti_same : forall h r h' r', tokens s !! h = Some r -> tokens s !! h' = Some r' ->
      same_family r r' ->
      RSubject (row r) = RSubject (row r') /\ Lineage (row r) = Lineage (row r') /\
      revoked r = revoked r';
  ti_head : forall h r h' r', tokens s !! h = Some r -> tokens s !! h' = Some r' ->
      same_family r r' -> consumedAt r = 0 -> consumedAt r' = 0 -> h = h' }.

(** The API-key part: the index by id and the keys point at each other. *)
Record key_inv (s : Store) : Prop := {
  ki_key : forall ref k, keys s !! ref = Some k ->
      ref = (Tenant (Owner k), KeyHash k) /\ keyIDs s !! k_ID k = Some ref;
  ki_id : forall i ref, keyIDs s !! i = Some ref ->
      exists k, keys s !! ref = Some k /\ k_ID k = i }.

Record feed_inv (s : Store) : Prop := {
  fi_feed : feed_ok (feed s) (seq s);
  fi_seq : 0 <= seq s < two64 }.

Record store_inv (s : Store) : Prop := {
  inv_tok : tok_inv s;
  inv_key : key_inv s;
  inv_feed : feed_inv s }.

Lemma token_empty_inv : store_inv NewWithClock.
Proof.
  split; split; simpl; try (intros; by rewrite lookup_empty in * ).
  - intros fk h. split; [by intros ?%not_elem_of_nil|].
    intros (r & E & _). by rewrite lookup_empty in E.
  - intros. apply NoDup_nil_2.
  - apply feed_ok_nil.
  - unfold two64. lia.
Qed.

(** The refresh part depends on the tokens and families only, the key part on the keys. *)
Lemma tok_inv_ext s s' :
  tokens s' = tokens s -> families s' = families s -> tok_inv s -> tok_inv s'.
Proof.
  intros Ht Hf [H1 H2 H3 H4 H5 H6]. unfold members in *.
  split; unfold members; rewrite ?Ht, ?Hf; eauto.
Qed.

Lemma key_inv_ext s s' : keys s' = keys s -> keyIDs s' = keyIDs s -> key_inv s -> key_inv s'.
Proof. intros Hk Hi [H1 H2]. split; rewrite ?Hk, ?Hi; eauto. Qed.

Lemma feed_inv_ext s s' : feed s' = feed s -> seq s' = seq s -> feed_inv s -> feed_inv s'.
Proof. intros Hk Hi [H1 H2]. split; rewrite ?Hk, ?Hi; eauto. Qed.

(** ** Revocation *)
Definition rev_tok (r : refresh) : refresh :=
  mkRefresh (row r) (consumedAt r) (consumedBy r) true.

Definition revoke_in (fk : familyKey) (r : refresh) : refresh :=
  if decide (familyOf (row r) = fk) then rev_tok r else r.

Lemma rev_tok_id r : revoked r = true -> rev_tok r = r.
Proof. destruct r. simpl. by intros ->. Qed.

Lemma revoke_in_row fk r : row (revoke_in fk r) = row r.
Proof. unfold revoke_in. by case_decide. Qed.

Lemma revoke_in_consumedAt fk r : consumedAt (revoke_in fk r) = consumedAt r.
Proof. unfold revoke_in. by case_decide. Qed.

Lemma revoke_in_revoked fk r :
  revoked (revoke_in fk r) = if decide (familyOf (row r) = fk) then true else revoked r.
Proof. unfold revoke_in. by case_decide. Qed.

(** The latest family expiry among some tokens, starting from an instant. *)
Definition latest (rs : list refresh) (t : time) : time :=
  fold_left (fun t r => maxTime t (FamilyExpiresAt (row r))) rs t.

Lemma revoke_loop_spec hs ts t b :
  NoDup hs -> Forall (fun h => is_Some (ts !! h)) hs ->
  exists ts', revoke_loop hs ts t b =
    Ok (ts', latest (omap (fun h => ts !! h) hs) t,
        b || existsb (fun r => negb (revoked r)) (omap (fun h => ts !! h) hs)) /\
  forall h, ts' !! h = if decide (h ∈ hs) then rev_tok <$> ts !! h else ts !! h.
Proof.
  revert ts t b. induction hs as [|h hs IH]; intros ts t b Hnd Hall; simpl.
  - exists ts. rewrite orb_false_r. split; [done|]. intros h.
    by destruct (decide (h ∈ [])) as [?%not_elem_of_nil|].
  - apply NoDup_cons in Hnd as [Hh Hnd]. apply Forall_cons in Hall as [[r Hr] Hall]. rewrite Hr.
    set (ts1 := if negb (revoked r) then <[h := rev_tok r]> ts else ts).
    assert (forall h', h' ∈ hs -> ts1 !! h' = ts !! h') as Hsame.
    { intros h' Hin. subst ts1. case_match; [|done]. rewrite lookup_insert_ne; [done|].
      intros <-. done. }
    assert (ts1 !! h = Some (rev_tok r)) as Hr1.
    { subst ts1. destruct (revoked r) eqn:E; simpl; [by rewrite Hr, rev_tok_id|].
      apply lookup_insert_eq. }
    assert (forall h', h' <> h -> ts1 !! h' = ts !! h') as Hother.
    { intros h' Hne. subst ts1. case_match; [|done]. by rewrite lookup_insert_ne. }
    destruct (IH ts1 (maxTime t (FamilyExpiresAt (row r))) (b || negb (revoked r)) Hnd)
      as (ts' & E & H).
    { rewrite Forall_forall in *. intros h' Hin. rewrite Hsame by done. auto. }
    exists ts'. split.
    + rewrite (list_omap_ext _ (fun h => ts !! h) hs hs) in E
        by (apply Forall_Forall2_diag, Forall_forall; auto).
      etrans; [|etrans; [exact E|]].
      * subst ts1. destruct (revoked r); simpl; [by rewrite orb_false_r|by rewrite orb_true_r].
      * cbn [existsb]. by rewrite orb_assoc.
    + intros h'. rewrite H. destruct (decide (h' = h)) as [->|Hne].
      * rewrite decide_False, decide_True by set_solver. by rewrite Hr1, Hr.
      * rewrite Hother by done. destruct (decide (h' ∈ hs)).
        -- by rewrite decide_True by set_solver.
        -- by rewrite decide_False by set_solver.
Qed.

(** The tokens of a family, in insertion order. *)
Definition family_toks (fk : familyKey) (s : Store) : list refresh :=
  omap (fun h => tokens s !! h) (members fk s).

Lemma elem_of_family_toks fk s r :
  tok_inv s -> r ∈ family_toks fk s <-> exists h, tokens s !! h = Some r /\ familyOf (row r) = fk.
Proof.
  intros Hs. unfold family_toks. rewrite list_elem_of_omap. split.
  - intros (h & Hin & Hr). apply (ti_mem s Hs) in Hin as (r' & Hr' & Hf). exists h. by simplify_eq.
  - intros (h & Hr & Hf). exists h. split; [|done]. apply (ti_mem s Hs). eauto.
Qed.

(** [unrevoked fk s]: revoking the family would change something. *)
Definition unrevoked (fk : familyKey) (s : Store) : bool :=
  existsb (fun r => negb (revoked r)) (family_toks fk s).

Lemma unrevoked_true fk s :
  tok_inv s ->
  unrevoked fk s = true <->
  exists h r, tokens s !! h = Some r /\ familyOf (row r) = fk /\ revoked r = false.
Proof.
  intros Hs. unfold unrevoked. rewrite existsb_exists. setoid_rewrite <- list_elem_of_In.
  setoid_rewrite (elem_of_family_toks fk s _ Hs). setoid_rewrite negb_true_iff. naive_solver.
Qed.

Definition revoked_store (fk : familyKey) (now : time) (s : Store) : Store :=
  let ts := revoke_in fk <$> tokens s in
  if unrevoked fk s
  then mkStore ts (families s)
         (feed s ++ [mkEntry (u64 (seq s + 1)) (mkRevocation fk.1 fk.2 now)
                       (latest (family_toks fk s) 0)])
         (u64 (seq s + 1)) (keys s) (keyIDs s)
  else mkStore ts (families s) (feed s) (seq s) (keys s) (keyIDs s).

Lemma revoke_spec fk now s : tok_inv s -> revoke fk now s = Ok (revoked_store fk now s).
Proof.
  intros Hs. unfold revoke.
  destruct (revoke_loop_spec (members fk s) (tokens s) time_zero false) as (ts' & -> & H).
  - apply (ti_nodup s Hs).
  - apply Forall_forall. intros h (r & -> & _)%(ti_mem s Hs). by eexists.
  - assert (ts' = revoke_in fk <$> tokens s) as ->.
    { apply map_eq. intros h. rewrite H, lookup_fmap. unfold revoke_in.
      destruct (tokens s !! h) as [r|] eqn:Hr; [|by destruct (decide _)]. simpl.
      destruct (decide (h ∈ members fk s)) as [Hin|Hin].
      - apply (ti_mem s Hs) in Hin as (r' & ? & Hf). simplify_eq. by rewrite decide_True.
      - rewrite decide_False; [done|]. intros Hf. apply Hin, (ti_mem s Hs). eauto. }
    simpl. fold (family_toks fk s). fold (unrevoked fk s). unfold revoked_store.
    by destruct (unrevoked fk s).
Qed.

(** Tokens changed in place, row by row, leave the lists as they are. *)
Lemma tok_inv_fmap s s' (f : refresh -> refresh) :
  tok_inv s -> tokens s' = f <$> tokens s -> families s' = families s ->
  (forall r, row (f r) = row r) -> (forall r, consumedAt (f r) = consumedAt r) ->
  (forall r r', same_family r r' -> revoked r = revoked r' -> revoked (f r) = revoked (f r')) ->
  tok_inv s'.
Proof.
  intros Hs Ht Hfam Hrow Hcon Hrev.
  assert (forall h r', tokens s' !! h = Some r' -> exists r, tokens s !! h = Some r /\ r' = f r) as Hinv.
  { intros h r'. rewrite Ht, lookup_fmap, fmap_Some. naive_solver. }
  unfold same_family, members in *. split; unfold same_family, members; rewrite ?Hfam.
  - intros h r' (r & Hr & ->)%Hinv. rewrite Hrow. by apply (ti_row s Hs).
  - intros fk h. pose proof (ti_mem s Hs fk h) as Hm. unfold members in Hm. rewrite Hm. split.
    + intros (r & Hr & E). exists (f r). rewrite Ht, lookup_fmap, Hr, Hrow. done.
    + intros (r' & (r & Hr & ->)%Hinv & E). rewrite Hrow in E. eauto.
  - apply (ti_nodup s Hs).
  - apply (ti_some s Hs).
  - intros h r1 h' r1' (r & Hr & ->)%Hinv (r' & Hr' & ->)%Hinv. rewrite !Hrow. intros E.
    destruct (ti_same s Hs _ _ _ _ Hr Hr' E) as (? & ? & ?). repeat split; auto.
  - intros h r1 h' r1' (r & Hr & ->)%Hinv (r' & Hr' & ->)%Hinv. rewrite !Hrow, !Hcon.
    apply (ti_head s Hs _ _ _ _ Hr Hr').
Qed.

Lemma revoked_store_inv fk now s :
  store_inv s -> seq s < two64 - 1 -> store_inv (revoked_store fk now s).
Proof.
  intros [Ht Hk [Hf Hq]] Hroom. split.
  - apply (tok_inv_fmap s _ (revoke_in fk)); [done| | | | |];
      try (unfold revoked_store; by destruct (unrevoked fk s)).
    + apply revoke_in_row.
    + apply revoke_in_consumedAt.
    + unfold same_family. intros r r' E E'. rewrite !revoke_in_revoked, E, E'. done.
  - apply (key_inv_ext s); [unfold revoked_store; by destruct (unrevoked fk s)..|done].
  - unfold revoked_store. destruct (unrevoked fk s); [|done]. split; simpl.
    + apply feed_ok_snoc; [done|lia].
    + apply u64_range.
Qed.

(** ** Insertion *)
Definition inserted (r : RefreshRecord) (s : Store) : Store :=
  mkStore (<[tokenHash r := mkRefresh (rowOf r) time_zero [] false]> (tokens s))
    (<[familyOf (rowOf r) := members (familyOf (rowOf r)) s ++ [tokenHash r]]> (families s))
    (feed s) (seq s) (keys s) (keyIDs s).

Lemma insert_spec r s :
  (checkRefreshRow (rowOf r) = None /\ tokens s !! tokenHash r = None /\
   insert r s = Ok (inserted r s)) \/
  (~ (checkRefreshRow (rowOf r) = None /\ tokens s !! tokenHash r = None) /\
   exists e, insert r s = Err e /\ (e = ErrConflict \/ Is e TErrInvalidRecord = true)).
Proof.
  unfold insert, RestoreRefreshRecord.
  destruct (checkRefreshRow (rowOf r)) as [e|].
  { right. split; [by intros [? _]|]. eexists. split; [done|by right]. }
  simpl. destruct (tokens s !! tokenHash r) eqn:E.
  { right. split; [by intros [_ ?]|]. eexists. split; [done|by left]. }
  by left.
Qed.

Lemma members_inserted r s fk :
  members fk (inserted r s) =
  if decide (fk = familyOf (rowOf r)) then members fk s ++ [tokenHash r] else members fk s.
Proof.
  unfold members at 1, inserted. simpl. case_decide as E.
  - subst. by rewrite lookup_insert_eq.
  - by rewrite lookup_insert_ne.
Qed.

(** Adding a token to a family none of whose members is unconsumed or revoked, and which shares its
    subject and lineage (an empty family, for the first token). *)
Lemma inserted_inv r s :
  tok_inv s -> checkRefreshRow (rowOf r) = None -> tokens s !! tokenHash r = None ->
  (forall h x, tokens s !! h = Some x -> familyOf (row x) = familyOf (rowOf r) ->
     RSubject (row x) = subject r /\ Lineage (row x) = lineage r /\ revoked x = false /\
     consumedAt x <> 0) ->
  tok_inv (inserted r s).
Proof.
  intros Hs Hok Hfree Hfam. set (new := mkRefresh (rowOf r) time_zero [] false).
  assert (forall h x, tokens (inserted r s) !! h = Some x ->
    h = tokenHash r /\ x = new \/ h <> tokenHash r /\ tokens s !! h = Some x) as Hinv.
  { intros h x. unfold inserted. simpl. rewrite lookup_insert_Some. naive_solver. }
  split.
  - intros h x [[-> ->]|[_ Hx]]%Hinv; [done|]. by apply (ti_row s Hs).
  - intros fk h. rewrite members_inserted. split.
    + intros Hin. assert (h ∈ members fk s \/ h = tokenHash r /\ fk = familyOf (rowOf r)) as [Hm|[-> ->]].
      { case_decide; [|by left]. apply elem_of_app in Hin as [?|?%list_elem_of_singleton]; auto. }
      * apply (ti_mem s Hs) in Hm as (x & Hx & E). exists x. split; [|done].
        simpl. rewrite lookup_insert_ne; [done|]. intros <-. congruence.
      * exists new. split; [apply lookup_insert_eq|done].
    + intros (x & [[-> ->]|[_ Hx]]%Hinv & E).
      * simpl in E. rewrite decide_True by done. set_solver.
      * assert (h ∈ members fk s) by (apply (ti_mem s Hs); eauto). case_decide; set_solver.
  - intros fk. rewrite members_inserted. case_decide as E; [|apply (ti_nodup s Hs)].
    apply NoDup_app. split; [apply (ti_nodup s Hs)|]. split; [|apply NoDup_singleton].
    intros h (x & Hx & _)%(ti_mem s Hs) ->%list_elem_of_singleton. congruence.
  - intros fk hs. simpl. intros [[<- <-]|[_ ?]]%lookup_insert_Some; [|by eapply ti_some].
    destruct (members _ s); done.
  - unfold same_family.
    intros h x h' x' [[-> ->]|[_ Hx]]%Hinv [[-> ->]|[_ Hx']]%Hinv E; simpl in *.
    + done.
    + destruct (Hfam h' x' Hx') as (? & ? & ? & _); [done|]. done.
    + destruct (Hfam h x Hx) as (? & ? & ? & _); [done|]. done.
    + by eapply ti_same.
  - unfold same_family.
    intros h x h' x' [[-> ->]|[_ Hx]]%Hinv [[-> ->]|[_ Hx']]%Hinv E Hc Hc'; simpl in *.
    + done.
    + by destruct (Hfam h' x' Hx') as (_ & _ & _ & ?).
    + by destruct (Hfam h x Hx) as (_ & _ & _ & ?).
    + by eapply ti_head.
Qed.

(** ** Consumption *)
Definition consumed (h : bytes) (r : refresh) (now : time) (fp : bytes) (s : Store) : Store :=
  mkStore (<[h := mkRefresh (row r) now fp (revoked r)]> (tokens s)) (families s) (feed s) (seq s)
    (keys s) (keyIDs s).

Lemma consumed_inv h r now fp s :
  tok_inv s -> tokens s !! h = Some r -> now <> 0 -> tok_inv (consumed h r now fp s).
Proof.
  intros Hs Hr Hnow. set (r1 := mkRefresh (row r) now fp (revoked r)).
  assert (forall g x, tokens (consumed h r now fp s) !! g = Some x ->
    exists y, tokens s !! g = Some y /\ row x = row y /\ revoked x = revoked y /\
      (consumedAt x = 0 -> consumedAt y = 0)) as Hinv.
  { intros g x. unfold consumed. simpl. intros [[<- <-]|[_ ?]]%lookup_insert_Some; [|eauto].
    exists r. split_and!; done. }
  split; unfold same_family, members in *; simpl.
  - intros g x (y & Hy & -> & _)%Hinv. by apply (ti_row s Hs).
  - intros fk g. pose proof (ti_mem s Hs fk g) as Hm. unfold members in Hm. rewrite Hm. split.
    + intros (x & Hx & E). destruct (decide (g = h)) as [->|].
      * exists r1. rewrite lookup_insert_eq. by simplify_eq.
      * exists x. by rewrite lookup_insert_ne.
    + intros (x & (y & Hy & E & _)%Hinv & E'). exists y. by rewrite <- E.
  - apply (ti_nodup s Hs).
  - apply (ti_some s Hs).
  - intros g x g' x' (y & Hy & -> & -> & _)%Hinv (y' & Hy' & -> & -> & _)%Hinv E.
    by apply (ti_same s Hs g y g' y').
  - intros g x g' x' (y & Hy & -> & _ & Hc)%Hinv (y' & Hy' & -> & _ & Hc')%Hinv E ??.
    apply (ti_head s Hs g y g' y'); auto.
Qed.

(** ** Deletion *)
Lemma members_dropToken h r s fk :
  tok_inv s -> tokens s !! h = Some r ->
  members fk (dropToken h s) =
  if decide (fk = familyOf (row r))
  then List.filter (fun x => negb (bool_decide (x = h))) (members fk s) else members fk s.
Proof.
  intros Hs Hr. unfold members at 1, dropToken. rewrite Hr. simpl.
  set (hs := List.filter (fun x => negb (bool_decide (x = h))) (members (familyOf (row r)) s)).
  destruct (Z.eqb_spec (Z.of_nat (length hs)) 0) as [E|E]; case_decide as Ef.
  - subst fk. rewrite lookup_delete_eq. simpl. symmetry. fold hs. apply nil_length_inv. lia.
  - by rewrite lookup_delete_ne.
  - subst fk. by rewrite lookup_insert_eq.
  - by rewrite lookup_insert_ne.
Qed.

Lemma tokens_dropToken h s : tokens (dropToken h s) = delete h (tokens s).
Proof.
  unfold dropToken. destruct (tokens s !! h) eqn:E; [done|]. by rewrite delete_id.
Qed.

Lemma dropToken_same h s :
  feed (dropToken h s) = feed s /\ seq (dropToken h s) = seq s /\
  keys (dropToken h s) = keys s /\ keyIDs (dropToken h s) = keyIDs s.
Proof. unfold dropToken. by destruct (tokens s !! h). Qed.

Lemma dropToken_tok_inv h s : tok_inv s -> tok_inv (dropToken h s).
Proof.
  intros Hs. destruct (tokens s !! h) as [r|] eqn:Hr; [|by unfold dropToken; rewrite Hr].
  assert (forall g x, tokens (dropToken h s) !! g = Some x -> g <> h /\ tokens s !! g = Some x) as Hinv.
  { intros g x. rewrite tokens_dropToken. intros [? ?]%lookup_delete_Some. split; congruence. }
  assert (forall g l, g ∈ List.filter (fun x => negb (bool_decide (x = h))) l <-> g ∈ l /\ g <> h) as Hfil.
  { intros g l. rewrite list_elem_of_In, filter_In, <- list_elem_of_In, negb_true_iff.
    by rewrite bool_decide_eq_false. }
  split; unfold same_family.
  - intros g x [_ ?]%Hinv. by apply (ti_row s Hs).
  - intros fk g. rewrite (members_dropToken h r), tokens_dropToken by done.
    assert (g ∈ members fk s /\ g <> h <->
      (exists x, delete h (tokens s) !! g = Some x /\ familyOf (row x) = fk)) as <-.
    { rewrite (ti_mem s Hs). setoid_rewrite lookup_delete_Some. naive_solver. }
    case_decide as E; [by rewrite Hfil|]. split; [|tauto]. intros Hm. split; [done|]. intros ->.
    apply (ti_mem s Hs) in Hm as (x & ? & ?). congruence.
  - intros fk. rewrite (members_dropToken h r) by done. pose proof (ti_nodup s Hs fk).
    case_decide; [|done]. by apply NoDup_ListNoDup, List.NoDup_filter, NoDup_ListNoDup.
  - intros fk hs. unfold dropToken. rewrite Hr. simpl. case_match eqn:E.
    + intros [_ ?]%lookup_delete_Some. by eapply ti_some.
    + intros [[<- <-]|[_ ?]]%lookup_insert_Some; [|by eapply ti_some].
      bools. by intros E'; rewrite E' in E.
  - intros g x g' x' [_ Hx]%Hinv [_ Hx']%Hinv. by apply (ti_same s Hs g x g' x').
  - intros g x g' x' [_ Hx]%Hinv [_ Hx']%Hinv. by apply (ti_head s Hs g x g' x').
Qed.

Lemma dropToken_inv h s : store_inv s -> store_inv (dropToken h s).
Proof.
  intros [Ht Hk Hf]. destruct (dropToken_same h s) as (? & ? & ? & ?).
  split; [by apply dropToken_tok_inv|by apply (key_inv_ext s)|by apply (feed_inv_ext s)].
Qed.

(** Dropping some tokens one after the other. *)
Lemma drop_all_tokens hs s h :
  tokens (fold_left (fun s h => dropToken h s) hs s) !! h =
  if decide (h ∈ hs) then None else tokens s !! h.
Proof.
  revert s. induction hs as [|g hs IH]; intros s; simpl.
  - by destruct (decide (h ∈ [])) as [?%not_elem_of_nil|].
  - rewrite IH, tokens_dropToken. destruct (decide (h ∈ hs)).
    + by rewrite decide_True by set_solver.
    + destruct (decide (h = g)) as [->|].
      * rewrite decide_True by set_solver. apply lookup_delete_eq.
      * rewrite decide_False by set_solver. by rewrite lookup_delete_ne.
Qed.

Lemma drop_all_inv hs s : store_inv s -> store_inv (fold_left (fun s h => dropToken h s) hs s).
Proof. revert s. induction hs; intros; simpl; auto using dropToken_inv. Qed.

Lemma drop_all_same hs s :
  let s' := fold_left (fun s h => dropToken h s) hs s in
  feed s' = feed s /\ seq s' = seq s /\ keys s' = keys s /\ keyIDs s' = keyIDs s.
Proof.
  revert s. induction hs as [|h hs IH]; intros s; [done|]. simpl.
  destruct (IH (dropToken h s)) as (-> & -> & -> & ->). apply dropToken_same.
Qed.

(** dropFamily removes exactly the family's tokens. *)
Lemma dropFamily_tokens fk s h :
  tok_inv s ->
  tokens (dropFamily fk s) !! h =
  match tokens s !! h with
  | Some r => if decide (familyOf (row r) = fk) then None else Some r
  | None => None
  end.
Proof.
  intros Hs. unfold dropFamily. rewrite drop_all_tokens.
  destruct (decide (h ∈ members fk s)) as [Hm|Hm].
  - apply (ti_mem s Hs) in Hm as (r & -> & <-). by rewrite decide_True.
  - destruct (tokens s !! h) as [r|] eqn:E; [|done]. rewrite decide_False; [done|].
    intros Hf. apply Hm, (ti_mem s Hs). eauto.
Qed.

Lemma dropKey_inv ref k s :
  store_inv s -> keys s !! ref = Some k -> store_inv (dropKey ref (k_ID k) s).
Proof.
  intros [Ht Hk Hf] Hr. split; [by apply (tok_inv_ext s)| |by apply (feed_inv_ext s)].
  split; simpl.
  - intros ref' k' [Hne H]%lookup_delete_Some. destruct (ki_key s Hk _ _ H) as [-> Hid].
    split; [done|]. rewrite lookup_delete_ne; [done|]. intros E.
    destruct (ki_key s Hk _ _ Hr) as [_ Hid']. rewrite E in Hid'. congruence.
  - intros i ref' [Hne H]%lookup_delete_Some. destruct (ki_id s Hk _ _ H) as (k' & Hk' & <-).
    exists k'. split; [|done]. rewrite lookup_delete_ne; [done|]. intros ->. congruence.
Qed.
