(* ===== verification/TokenStoreRun.v ===== *)
(** What an operation of the token store may do to a consistent store: how the feed grows, what is
    published, and what a token keeps. *)
From S2P Require Import Prelude Errors Tenant Factor Attrs Pending Codec StoreBase TokenRecord.
From S2P Require Import TokenStore TokenStoreFacts.
Import Tokens TokensMemory.

(** [evolves s s']: the store stays consistent, the feed only grows, by entries positioned after the
    counter, and a family that was unrevoked and no longer is has its entry among them. *)
Record evolves (s s' : Store) : Prop := {
  ev_inv : store_inv s';
  ev_seq : seq s <= seq s';
  ev_feed : exists new, feed s' = feed s ++ new /\
      Forall (fun e => seq s < StoreBase.seq e) new /\
      forall fk, unrevoked fk s = true -> unrevoked fk s' = false ->
        exists e, e ∈ new /\ (rv_Tenant (rev e), rv_Family (rev e)) = fk }.

(** [keeps r r']: an update of a token keeps its row, a revocation and a consumption. *)
Definition keeps (r r' : refresh) : Prop :=
  row r' = row r /\ (revoked r = true -> revoked r' = true) /\
  (consumedAt r <> 0 -> consumedAt r' = consumedAt r /\ consumedBy r' = consumedBy r).

(** [shrinks s s']: tokens are updated or deleted, none is added. *)
Definition shrinks (s s' : Store) : Prop :=
  forall h r', tokens s' !! h = Some r' -> exists r, tokens s !! h = Some r /\ keeps r r'.

Lemma keeps_refl r : keeps r r.
Proof. done. Qed.

Lemma keeps_trans r1 r2 r3 : keeps r1 r2 -> keeps r2 r3 -> keeps r1 r3.
Proof.
  intros (E1 & R1 & C1) (E2 & R2 & C2). split; [congruence|]. split; [auto|].
  intros Hc. destruct (C1 Hc) as [Ea Eb]. destruct C2 as [? ?]; [congruence|]. split; congruence.
Qed.

Lemma shrinks_refl s : shrinks s s.
Proof. intros h r ?. exists r. by split. Qed.

Lemma shrinks_trans s1 s2 s3 : shrinks s1 s2 -> shrinks s2 s3 -> shrinks s1 s3.
Proof.
  intros H1 H2 h r3 (r2 & E2 & K2)%H2. apply H1 in E2 as (r1 & E1 & K1).
  exists r1. split; [done|]. by eapply keeps_trans.
Qed.

Lemma keeps_revoke_in fk r : keeps r (revoke_in fk r).
Proof. unfold revoke_in. by case_decide. Qed.

Lemma shrinks_tokens s s' : tokens s' = tokens s -> shrinks s s'.
Proof. intros E h r. rewrite E. intros. exists r. by split. Qed.

Lemma unrevoked_ext s s' fk :
  tokens s' = tokens s -> families s' = families s -> unrevoked fk s' = unrevoked fk s.
Proof. intros Ht Hf. unfold unrevoked, family_toks, members. by rewrite Ht, Hf. Qed.

(** A family all of whose unrevoked tokens are still there, unrevoked, stays unrevoked. *)
Lemma unrevoked_mono s s' fk :
  tok_inv s -> tok_inv s' ->
  (forall h r, tokens s !! h = Some r -> familyOf (row r) = fk -> revoked r = false ->
     exists r', tokens s' !! h = Some r' /\ familyOf (row r') = fk /\ revoked r' = false) ->
  unrevoked fk s = true -> unrevoked fk s' = true.
Proof.
  intros Hs Hs' H. rewrite !unrevoked_true by done. intros (h & r & Hr & Hf & Hv).
  destruct (H _ _ Hr Hf Hv) as (r' & ?). eauto.
Qed.

Lemma token_evolves_same s s' :
  store_inv s' -> feed s' = feed s -> seq s' = seq s ->
  (forall fk, unrevoked fk s = true -> unrevoked fk s' = true) -> evolves s s'.
Proof.
  intros Hi Hf Hq Hu. split; [done|lia|]. exists []. rewrite app_nil_r.
  split; [done|]. split; [constructor|]. intros fk H1 H2. apply Hu in H1. congruence.
Qed.

Lemma token_evolves_refl s : store_inv s -> evolves s s.
Proof. intros. by apply token_evolves_same. Qed.

Lemma token_evolves_trans s1 s2 s3 : evolves s1 s2 -> evolves s2 s3 -> evolves s1 s3.
Proof.
  intros [_ Hq (n1 & Hf1 & Hn1 & Hp1)] [Hi Hq' (n2 & Hf2 & Hn2 & Hp2)]. split; [done|lia|].
  exists (n1 ++ n2). split; [by rewrite Hf2, Hf1, app_assoc|]. split.
  - apply Forall_app. split; [done|]. eapply Forall_impl; [done|]. simpl. lia.
  - intros fk Hs Hn. destruct (unrevoked fk s2) eqn:E.
    + destruct (Hp2 fk) as (e & ? & ?); eauto. exists e. rewrite elem_of_app. eauto.
    + destruct (Hp1 fk) as (e & ? & ?); eauto. exists e. rewrite elem_of_app. eauto.
Qed.

(** ** The primitives *)
Lemma tokens_revoked_store fk now s : tokens (revoked_store fk now s) = revoke_in fk <$> tokens s.
Proof. unfold revoked_store. by destruct (unrevoked fk s). Qed.

Lemma seq_revoked_store fk now s :
  0 <= seq s < two64 - 1 -> seq s <= seq (revoked_store fk now s) <= seq s + 1.
Proof.
  intros. unfold revoked_store. destruct (unrevoked fk s); simpl; [|lia].
  rewrite u64_small by (unfold is_u64; lia). lia.
Qed.

Lemma unrevoked_revoked_store fk now s fk' :
  store_inv s -> seq s < two64 - 1 ->
  unrevoked fk' (revoked_store fk now s) = if decide (fk' = fk) then false else unrevoked fk' s.
Proof.
  intros Hs Hq. pose proof (inv_tok _ (revoked_store_inv fk now s Hs Hq)) as Ht'.
  pose proof (inv_tok _ Hs) as Ht. case_decide as E.
  - apply not_true_iff_false. rewrite unrevoked_true by done. intros (h & r & Hr & Hf & Hv).
    rewrite tokens_revoked_store, lookup_fmap in Hr.
    apply fmap_Some in Hr as (r0 & Hr & ->). rewrite revoke_in_row in Hf.
    rewrite revoke_in_revoked, decide_True in Hv by congruence. done.
  - apply eq_iff_eq_true. rewrite !unrevoked_true by done.
    setoid_rewrite tokens_revoked_store. setoid_rewrite lookup_fmap. split.
    + intros (h & r & (r0 & Hr & ->)%fmap_Some & Hf & Hv). rewrite revoke_in_row in Hf.
      rewrite revoke_in_revoked, decide_False in Hv by congruence. eauto.
    + intros (h & r & Hr & Hf & Hv). exists h, (revoke_in fk r). rewrite Hr, revoke_in_row.
      rewrite revoke_in_revoked, decide_False by congruence. done.
Qed.

Lemma evolves_revoked fk now s :
  store_inv s -> seq s < two64 - 1 -> evolves s (revoked_store fk now s).
Proof.
  intros Hs Hq. pose proof (fi_seq s (inv_feed s Hs)) as Hr.
  destruct (seq_revoked_store fk now s) as [Hlo _]; [lia|].
  split; [by apply revoked_store_inv|done|].
  destruct (unrevoked fk s) eqn:Hu.
  - exists [mkEntry (u64 (seq s + 1)) (mkRevocation fk.1 fk.2 now) (latest (family_toks fk s) 0)].
    split; [unfold revoked_store; by rewrite Hu|]. split.
    + repeat constructor. simpl. rewrite u64_small by (unfold is_u64; lia). lia.
    + intros fk' H1 H2. rewrite unrevoked_revoked_store in H2 by done. case_decide; [|congruence].
      subst fk'. eexists. split; [by apply list_elem_of_singleton|]. by destruct fk.
  - exists []. rewrite app_nil_r. split; [unfold revoked_store; by rewrite Hu|].
    split; [constructor|]. intros fk' H1 H2. rewrite unrevoked_revoked_store in H2 by done.
    case_decide; congruence.
Qed.

Lemma shrinks_revoked fk now s : shrinks s (revoked_store fk now s).
Proof.
  intros h r'. rewrite tokens_revoked_store, lookup_fmap. intros (r & Hr & ->)%fmap_Some.
  exists r. split; [done|apply keeps_revoke_in].
Qed.

(** Dropping a family that is already revoked publishes nothing and loses nothing unrevoked. *)
Lemma evolves_dropFamily fk s :
  store_inv s -> unrevoked fk s = false -> evolves s (dropFamily fk s).
Proof.
  intros Hs Hu. pose proof (drop_all_inv (members fk s) s Hs) as Hs'.
  destruct (drop_all_same (members fk s) s) as (Hf & Hq & _ & _).
  apply token_evolves_same; [done..|]. intros fk'.
  destruct (decide (fk' = fk)) as [->|Hne]; [congruence|].
  apply unrevoked_mono; [apply Hs|apply Hs'|]. intros h r Hr Hfk Hv. exists r.
  rewrite dropFamily_tokens by apply Hs. rewrite Hr, decide_False by congruence. done.
Qed.

Lemma shrinks_dropFamily fk s : store_inv s -> shrinks s (dropFamily fk s).
Proof.
  intros Hs h r'. rewrite dropFamily_tokens by apply Hs.
  destruct (tokens s !! h) as [r|]; [|done]. case_decide; [done|].
  intros [= <-]. exists r. by split.
Qed.

Lemma evolves_dropKey ref k s :
  store_inv s -> keys s !! ref = Some k ->
  evolves s (dropKey ref (k_ID k) s) /\ shrinks s (dropKey ref (k_ID k) s).
Proof.
  intros Hs Hk. split; [|by apply shrinks_tokens].
  apply token_evolves_same; [by apply dropKey_inv|done|done|]. intros fk. by rewrite (unrevoked_ext s (dropKey _ _ s)).
Qed.

(** ** Loops *)
Definition good (s s' : Store) : Prop := evolves s s' /\ shrinks s s'.

Lemma good_refl s : store_inv s -> good s s.
Proof. split; [by apply token_evolves_refl|apply shrinks_refl]. Qed.

Lemma good_trans s1 s2 s3 : good s1 s2 -> good s2 s3 -> good s1 s3.
Proof. intros [? ?] [? ?]. split; [by eapply token_evolves_trans|by eapply shrinks_trans]. Qed.

(** The loop over API keys that deletes those [sel] selects. *)
Definition drop_keys (sel : keyRef -> APIKey -> bool) (refs : list keyRef) (s : Store) : Store :=
  fold_left (fun s ref => match keys s !! ref with
                          | Some k => if sel ref k then dropKey ref (k_ID k) s else s
                          | None => s end) refs s.

Lemma drop_keys_good sel refs s : store_inv s -> good s (drop_keys sel refs s).
Proof.
  revert s. induction refs as [|ref refs IH]; intros s Hs; simpl; [by apply good_refl|].
  destruct (keys s !! ref) as [k|] eqn:Hk; [|by apply IH]. destruct (sel ref k); [|by apply IH].
  pose proof (evolves_dropKey ref k s Hs Hk) as H. eapply good_trans; [exact H|].
  apply IH. apply ev_inv with s, H.
Qed.

(** One turn of a revoking loop: revoke the family, and drop it when [drop] is set. *)
Definition revoke_turn (drop : bool) (now : time) (fk : familyKey) (s : Store) : Store :=
  let s := revoked_store fk now s in if drop then dropFamily fk s else s.

Lemma revoke_turn_good drop now fk s :
  store_inv s -> seq s < two64 - 1 ->
  good s (revoke_turn drop now fk s) /\ seq (revoke_turn drop now fk s) <= seq s + 1 /\
  unrevoked fk (revoke_turn drop now fk s) = false.
Proof.
  intros Hs Hq. pose proof (evolves_revoked fk now s Hs Hq) as He.
  pose proof (ev_inv _ _ He) as Hi. pose proof (fi_seq s (inv_feed s Hs)).
  destruct (seq_revoked_store fk now s) as [_ Hlo]; [lia|].
  assert (unrevoked fk (revoked_store fk now s) = false) as Hu.
  { rewrite unrevoked_revoked_store by done. by rewrite decide_True. }
  unfold revoke_turn. destruct drop.
  2:{ split; [|done]. split; [done|]. apply shrinks_revoked. }
  split; [split|split].
  - eapply token_evolves_trans; [exact He|]. by apply evolves_dropFamily.
  - eapply shrinks_trans; [apply shrinks_revoked|]. by apply shrinks_dropFamily.
  - destruct (drop_all_same (members fk (revoked_store fk now s)) (revoked_store fk now s))
      as (_ & E & _). unfold dropFamily. lia.
  - apply not_true_iff_false.
    assert (tok_inv (dropFamily fk (revoked_store fk now s))) as Ht
      by (apply (drop_all_inv (members fk (revoked_store fk now s))), Hi).
    rewrite unrevoked_true by done. intros (h & r & Hr & Hf & Hv).
    rewrite dropFamily_tokens in Hr by apply Hi.
    destruct (tokens (revoked_store fk now s) !! h); [|done]. by case_decide; simplify_eq.
Qed.

Lemma revoke_turns_good drop now fks s :
  store_inv s -> seq s + Z.of_nat (length fks) < two64 - 1 ->
  good s (fold_left (fun s fk => revoke_turn drop now fk s) fks s).
Proof.
  revert s. induction fks as [|fk fks IH]; intros s Hs Hq; simpl; [by apply good_refl|].
  simpl in Hq. destruct (revoke_turn_good drop now fk s Hs) as (Hg & Hq' & _); [lia|].
  eapply good_trans; [exact Hg|]. apply IH; [|lia]. apply ev_inv with s, Hg.
Qed.

(** The monadic loops of the code never panic and are the pure ones. *)
Lemma revoke_fold now fks s :
  store_inv s -> seq s + Z.of_nat (length fks) < two64 - 1 ->
  fold_left (fun m fk => s ← m; revoke fk now s) fks (Ok s)
  = Ok (fold_left (fun s fk => revoke_turn false now fk s) fks s).
Proof.
  revert s. induction fks as [|fk fks IH]; intros s Hs Hq; [done|].
  simpl in Hq |- *. rewrite revoke_spec by apply Hs.
  destruct (revoke_turn_good false now fk s Hs) as (Hg & Hq' & _); [lia|].
  apply IH; [|simpl in *; lia]. apply ev_inv with s, Hg.
Qed.

Lemma erase_fold now fks (sel : familyKey -> bool) s :
  store_inv s -> seq s + Z.of_nat (length fks) < two64 - 1 ->
  fold_left (fun m fk => s ← m; if sel fk then s ← revoke fk now s; Ok (dropFamily fk s) else Ok s)
    fks (Ok s)
  = Ok (fold_left (fun s fk => revoke_turn true now fk s) (List.filter sel fks) s).
Proof.
  revert s. induction fks as [|fk fks IH]; intros s Hs Hq; [done|].
  simpl in Hq |- *. destruct (sel fk); [|apply IH; [done|lia]].
  rewrite revoke_spec by apply Hs. simpl.
  destruct (revoke_turn_good true now fk s Hs) as (Hg & Hq' & _); [lia|].
  apply IH; [|simpl in *; lia]. apply ev_inv with s, Hg.
Qed.

(** The families of a subject: those whose first member is the subject's and is not held back. *)
Definition selected (sub : Subject) (keep : RefreshRow -> bool) (s : Store) (fk : familyKey)
  : bool :=
  bool_decide (fk.1 = Tenant sub) &&
  match members fk s with
  | [] => false
  | h :: _ => match tokens s !! h with
              | Some r => bool_decide (RSubject (row r) = sub) && negb (keep (row r))
              | None => false
              end
  end.

Lemma collect_spec range sub keep s :
  tok_inv s -> collect range sub keep s = Ok (List.filter (selected sub keep s) range).
Proof.
  intros Hs. induction range as [|fk range IH]; [done|]. cbn [collect List.filter].
  unfold selected at 1. case_bool_decide as Ht; simpl; [|done].
  destruct (members fk s) as [|h hs] eqn:Em; [done|].
  assert (h ∈ members fk s) as Hm by (rewrite Em; set_solver).
  apply (ti_mem s Hs) in Hm as (r & -> & _). rewrite IH. simpl. by case_match.
Qed.

Lemma selected_true sub keep s fk :
  tok_inv s ->
  selected sub keep s fk = true <->
  exists h r, tokens s !! h = Some r /\ familyOf (row r) = fk /\ RSubject (row r) = sub /\
    match members fk s with
    | [] => False
    | h0 :: _ => exists r0, tokens s !! h0 = Some r0 /\ keep (row r0) = false
    end.
Proof.
  intros Hs. unfold selected. rewrite andb_true_iff, bool_decide_eq_true.
  destruct (members fk s) as [|h hs] eqn:Em.
  { split; [by intros [_ ?]|]. intros (h & r & Hr & Hf & _).
    assert (h ∈ members fk s) as Hx by (apply (ti_mem s Hs); eauto).
    rewrite Em in Hx. by apply not_elem_of_nil in Hx. }
  assert (h ∈ members fk s) as Hm by (rewrite Em; set_solver).
  apply (ti_mem s Hs) in Hm as (r & Hr & Hf). rewrite Hr, andb_true_iff, bool_decide_eq_true, negb_true_iff.
  split.
  - intros (_ & E & Hk). exists h, r. repeat split; try done. eauto.
  - intros (h' & r' & Hr' & Hf' & E & r0 & [= <-] & Hk).
    destruct (ti_same s Hs _ _ _ _ Hr Hr') as (E' & _); [by unfold same_family; congruence|].
    repeat split; try done; [|congruence]. rewrite <- Hf'. simpl. congruence.
Qed.

(** ** The operations of the token store on a consistent store, the refresh-family state machine of
    docs/protocols/refresh-family.md as an abstract specification, and runs of operations. *)

Lemma store_now_pos clk : Microsecond <= clk -> 0 < store_now clk.
Proof.
  intros H. unfold store_now, time_Truncate. simpl.
  rewrite Z.mod_eq by done. assert (1 <= clk / Microsecond) by (apply Z.div_le_lower_bound; unfold Microsecond in *; lia).
  unfold Microsecond in *. lia.
Qed.

(** ** Token states

    The per-token states of the protocol document; an absolute expiry counts as a revocation and a
    consumed token stays consumed past its idle expiry. *)
Inductive tstate :=
  | Absent
  | Expired
  | FamilyRevoked
  | ConsumedToken (r : refresh)
  | LiveToken (r : refresh).

Definition token_state (t : TenantID) (h : bytes) (now : time) (s : Store) : tstate :=
  match tokens s !! h with
  | None => Absent
  | Some r =>
      if decide (Tenant (RSubject (row r)) <> t) then Absent
      else if decide (revoked r = true \/ FamilyExpiresAt (row r) <= now) then FamilyRevoked
      else if decide (consumedAt r <> 0) then ConsumedToken r
      else if decide (IdleExpiresAt (row r) <= now) then Expired
      else LiveToken r
  end.

(** The error a lookup gives in a state, if any. *)
Definition state_error (st : tstate) : option error :=
  match st with
  | Absent | Expired => Some (ErrNotFound : error)
  | FamilyRevoked => Some (ErrRevoked : error)
  | ConsumedToken _ | LiveToken _ => None
  end.

Definition state_token (st : tstate) : option refresh :=
  match st with ConsumedToken r | LiveToken r => Some r | _ => None end.

Lemma usable_spec r now :
  usable r now =
  if decide (revoked r = true \/ FamilyExpiresAt (row r) <= now) then Some (ErrRevoked : error)
  else if decide (IdleExpiresAt (row r) <= now) then Some (ErrNotFound : error) else None.
Proof.
  unfold usable, time_Before.
  destruct (revoked r), (Z.ltb_spec now (FamilyExpiresAt (row r))),
    (Z.ltb_spec now (IdleExpiresAt (row r))); simpl; repeat case_decide; try done;
    try (exfalso; (lia || intuition (lia || congruence))).
Qed.

Lemma replayable_spec r now :
  replayable r now =
  if decide (revoked r = true \/ FamilyExpiresAt (row r) <= now) then Some (ErrRevoked : error)
  else if decide (consumedAt r <> 0) then None
  else if decide (IdleExpiresAt (row r) <= now) then Some (ErrNotFound : error) else None.
Proof.
  unfold replayable. rewrite usable_spec. unfold time_IsZero.
  destruct (Z.eqb_spec (consumedAt r) 0) as [E|E];
    repeat case_decide; try done; tauto.
Qed.

(** A lookup and the replay check are the state machine's view of the token. *)
Lemma lookup_state t h now s :
  match lookup t h s with
  | None => token_state t h now s = Absent
  | Some r =>
      tokens s !! h = Some r /\ Tenant (RSubject (row r)) = t /\
      match replayable r now with
      | Some e => state_error (token_state t h now s) = Some e
      | None => token_state t h now s =
                if decide (consumedAt r <> 0) then ConsumedToken r else LiveToken r
      end
  end.
Proof.
  unfold lookup, token_state. destruct (tokens s !! h) as [r|]; [|done].
  case_bool_decide as Ht; simpl; [|by rewrite decide_True].
  rewrite (decide_False (P := Tenant (RSubject (row r)) <> t)) by tauto.
  split; [done|]. split; [done|]. rewrite replayable_spec.
  repeat case_decide; try done; tauto.
Qed.

Section ops.
Context (s : Store) (Hs : store_inv s).

Lemma token_Get_spec clk t h :
  Get None clk t h s =
  match token_state t h (store_now clk) s with
  | ConsumedToken r | LiveToken r => RestoreRefreshRecord (row r)
  | st => Err (default (ErrNotFound : error) (state_error st))
  end.
Proof.
  unfold Get. pose proof (lookup_state t h (store_now clk) s) as H.
  destruct (lookup t h s) as [r|]; [|by rewrite H]. destruct H as (_ & _ & H).
  destruct (replayable r (store_now clk)) as [e|].
  - destruct (token_state _ _ _ _); simplify_eq/=; done.
  - rewrite H. by case_decide.
Qed.

(** The race two tabs of one client may run. *)
Definition benign (r : refresh) (now : time) (next : RefreshRecord) : Prop :=
  time_Sub now (consumedAt r) < ReuseGrace /\ consumedBy r <> [] /\
  consumedBy r = clientFingerprint next.

#[export] Instance benign_dec r now next : Decision (benign r now next).
Proof. unfold benign. apply _. Defined.

Lemma benign_test r now next :
  (time_Sub now (consumedAt r) <? ReuseGrace) && (0 <? Z.of_nat (length (consumedBy r)))
  && bool_decide (consumedBy r = clientFingerprint next) = bool_decide (benign r now next).
Proof.
  assert (0 <? Z.of_nat (length (consumedBy r)) = bool_decide (consumedBy r <> [])) as ->.
  { destruct (consumedBy r); [done|]. rewrite bool_decide_eq_true_2 by done.
    apply Z.ltb_lt. simpl. lia. }
  apply eq_iff_eq_true. unfold benign.
  rewrite !andb_true_iff, !bool_decide_eq_true, Z.ltb_lt. tauto.
Qed.

(** Whether a record may succeed the presented token in its family. *)
Definition succeeds (r : refresh) (next : RefreshRecord) : Prop :=
  RSubject (row r) = subject next /\ Lineage (row r) = lineage next /\
  Family (row r) = family next.

#[export] Instance succeeds_dec r next : Decision (succeeds r next).
Proof. unfold succeeds. apply _. Defined.

Lemma continues_true r next : continues (row r) next = true <-> succeeds r next.
Proof.
  unfold continues, succeeds. rewrite !andb_true_iff, bool_decide_eq_true, !Z.eqb_eq. tauto.
Qed.

(** The successor's row is valid, its digest free, and it ends no later than the family. *)
Definition insertable (r : refresh) (next : RefreshRecord) : Prop :=
  FamilyExpiresAt (rowOf next) <= FamilyExpiresAt (row r) /\
  checkRefreshRow (rowOf next) = None /\ tokens s !! tokenHash next = None.

Definition rotated (h : bytes) (r : refresh) (now : time) (next : RefreshRecord) : Store :=
  inserted next (consumed h r now (clientFingerprint next) s).

Lemma rotated_eq h r now next :
  tokens s !! h = Some r -> tokens s !! tokenHash next = None ->
  mkStore (<[h := mkRefresh (row r) now (clientFingerprint next) (revoked r)]>
             (tokens (inserted next s)))
    (families (inserted next s)) (feed (inserted next s)) (seq (inserted next s))
    (keys (inserted next s)) (keyIDs (inserted next s))
  = rotated h r now next.
Proof.
  intros Hr Hn. unfold rotated, inserted, consumed. simpl. f_equal.
  apply insert_insert_ne. congruence.
Qed.

(** ConsumeForRotation, state by state. *)
Lemma Consume_spec clk req :
  IsZero (rot_Next req) = false -> Z.of_nat (length (Presented req)) = HashLen ->
  let next := rot_Next req in
  let now := store_now clk in
  match token_state (RefreshRecord_Tenant next) (Presented req) now s with
  | ConsumedToken r =>
      ConsumeForRotation None clk req s =
      if decide (succeeds r next)
      then if decide (benign r now next) then (s, Err ErrConcurrent)
           else (revoked_store (familyOf (row r)) now s, Err ErrReused)
      else (s, Err ErrConflict)
  | LiveToken r =>
      (succeeds r next /\ insertable r next /\
       ConsumeForRotation None clk req s =
       (rotated (Presented req) r now next, Ok (mkRotation (Family (row r)) now))) \/
      (~ (succeeds r next /\ insertable r next) /\
       exists e, ConsumeForRotation None clk req s = (s, Err e) /\
         (e = ErrConflict \/ Is e TErrInvalidRecord = true))
  | st => ConsumeForRotation None clk req s =
          (s, Err (default (ErrNotFound : error) (state_error st)))
  end.
Proof.
  intros Hz Hl next now. unfold ConsumeForRotation. rewrite Hz, (proj2 (Z.eqb_eq _ _) Hl).
  cbn [orb negb]. fold next. fold now.
  pose proof (lookup_state (RefreshRecord_Tenant next) (Presented req) now s) as H.
  destruct (lookup _ _ s) as [r|]; [|by rewrite H]. destruct H as (Hr & _ & H).
  destruct (replayable r now) as [e|].
  { destruct (token_state _ _ _ _); simplify_eq/=; done. }
  rewrite H. unfold time_IsZero. case_decide as Hc.
  - rewrite (proj2 (Z.eqb_neq _ _) Hc). cbn [negb].
    destruct (continues (row r) next) eqn:Ec; simpl.
    + rewrite decide_True by (by apply continues_true).
      rewrite revoke_spec by apply Hs. rewrite benign_test. by case_bool_decide; case_decide.
    + rewrite decide_False; [done|]. rewrite <- continues_true. congruence.
  - rewrite (proj2 (Z.eqb_eq _ _)) by lia. cbn [negb].
    destruct (continues (row r) next) eqn:Ec; cbn [negb].
    2:{ right. split; [rewrite <- continues_true; intros [? _]; congruence|]. eauto. }
    apply continues_true in Ec. unfold time_After, insertable.
    change (time_Truncate (familyExpiresAt next) Microsecond) with (FamilyExpiresAt (rowOf next)).
    destruct (Z.ltb_spec (FamilyExpiresAt (row r)) (FamilyExpiresAt (rowOf next))).
    { right. split; [intros (_ & ? & _); lia|]. eauto. }
    destruct (insert_spec next s) as [(Hk & Hx & ->)|(Hn & e & -> & He)].
    + left. split; [done|]. split; [done|]. by rewrite <- (rotated_eq (Presented req)).
    + right. split; [by intros (_ & _ & ?)|]. by exists e.
Qed.
End ops.

(** ** The writes preserve the invariant *)
Lemma familyOf_subject r next : succeeds r next -> familyOf (row r) = familyOf (rowOf next).
Proof. intros (E1 & _ & E3). unfold familyOf. simpl. by rewrite E1, E3. Qed.

Lemma inserted_store_inv r s :
  store_inv s -> tok_inv (inserted r s) -> store_inv (inserted r s).
Proof.
  intros [_ Hk Hf] Ht. split; [done|by apply (key_inv_ext s)|by apply (feed_inv_ext s)].
Qed.

(** A new token leaves every unrevoked family unrevoked. *)
Lemma inserted_unrevoked r s fk :
  tok_inv s -> tok_inv (inserted r s) -> tokens s !! tokenHash r = None ->
  unrevoked fk s = true -> unrevoked fk (inserted r s) = true.
Proof.
  intros Ht Ht' Hfree. apply unrevoked_mono; [done|done|]. intros h x Hx ? ?. exists x.
  simpl. rewrite lookup_insert_ne; [done|]. congruence.
Qed.

Lemma rotated_evolves s h r now next :
  store_inv s -> tokens s !! h = Some r -> consumedAt r = 0 -> revoked r = false -> now <> 0 ->
  succeeds r next -> insertable s r next ->
  evolves s (rotated s h r now next).
Proof.
  intros Hs Hr Hc Hv Hnow Hsuc (_ & Hok & Hfree). unfold rotated.
  set (fp := clientFingerprint next). set (s1 := consumed h r now fp s).
  pose proof (consumed_inv h r now fp s (inv_tok s Hs) Hr Hnow) as Ht1. fold s1 in Ht1.
  assert (store_inv s1) as Hs1
    by (split; [done|apply (key_inv_ext s); [done..|apply Hs]|apply (feed_inv_ext s); [done..|apply Hs]]).
  assert (tokens s1 !! tokenHash next = None) as Hfree1.
  { simpl. rewrite lookup_insert_ne; [done|]. congruence. }
  assert (tok_inv (inserted next s1)) as Ht2.
  { apply inserted_inv; [done..|]. intros g x Hx E. rewrite <- (familyOf_subject r next Hsuc) in E.
    destruct Hsuc as (E1 & E2 & _). rewrite <- E1, <- E2.
    simpl in Hx. apply lookup_insert_Some in Hx as [[<- <-]|[Hne Hx]]; [done|].
    destruct (ti_same s (inv_tok s Hs) _ _ _ _ Hx Hr) as (? & ? & ?); [done|].
    split_and!; [done|done|congruence|]. intros Hc'. apply Hne. symmetry.
    by apply (ti_head s (inv_tok s Hs) g x h r). }
  apply token_evolves_same; [by apply inserted_store_inv|done|done|].
  intros fk Hu. apply inserted_unrevoked; [done..|]. revert Hu.
  apply unrevoked_mono; [apply Hs|done|]. intros g x Hx Hf Hrv.
  destruct (decide (g = h)) as [->|].
  - exists (mkRefresh (row r) now fp (revoked r)). simpl. rewrite lookup_insert_eq. by simplify_eq.
  - exists x. simpl. by rewrite lookup_insert_ne.
Qed.

(** The first token of a family that has no other. *)
Lemma first_inserted s r :
  store_inv s -> checkRefreshRow (rowOf r) = None -> tokens s !! tokenHash r = None ->
  families s !! (RefreshRecord_Tenant r, family r) = None -> evolves s (inserted r s).
Proof.
  intros Hs Hok Hfree Hfam.
  assert (tok_inv (inserted r s)) as Ht.
  { apply inserted_inv; [apply Hs|done|done|]. intros h x Hx E. exfalso.
    assert (h ∈ members (familyOf (row x)) s) as Hm by (apply (ti_mem s (inv_tok s Hs)); eauto).
    unfold members in Hm. change (families s !! familyOf (rowOf r) = None) in Hfam.
    rewrite E, Hfam in Hm. by apply not_elem_of_nil in Hm. }
  apply token_evolves_same; [by apply inserted_store_inv|done|done|].
  intros fk. apply inserted_unrevoked; [apply Hs|done|done].
Qed.

Lemma token_Create_evolves ctx r s : store_inv s -> evolves s (Create ctx r s).1.
Proof.
  intros Hs. unfold Create. destruct ctx; [by apply token_evolves_refl|].
  destruct (IsZero r); [by apply token_evolves_refl|].
  destruct (families s !! _) eqn:E; [by apply token_evolves_refl|].
  destruct (insert_spec r s) as [(Hk & Hx & ->)|(_ & e & -> & _)]; simpl; [|by apply token_evolves_refl].
  by apply first_inserted.
Qed.

Lemma token_state_inv t h now s :
  match token_state t h now s with
  | ConsumedToken r => tokens s !! h = Some r /\ Tenant (RSubject (row r)) = t /\
      revoked r = false /\ now < FamilyExpiresAt (row r) /\ consumedAt r <> 0
  | LiveToken r => tokens s !! h = Some r /\ Tenant (RSubject (row r)) = t /\
      revoked r = false /\ now < FamilyExpiresAt (row r) /\ consumedAt r = 0 /\
      now < IdleExpiresAt (row r)
  | _ => True
  end.
Proof.
  unfold token_state. destruct (tokens s !! h) as [r|]; [|done].
  repeat case_decide; try done; split_and!; try done;
    try (apply not_true_iff_false; tauto); try tauto; lia.
Qed.

Lemma Consume_evolves ctx clk req s :
  store_inv s -> Microsecond <= clk -> seq s < two64 - 1 ->
  evolves s (ConsumeForRotation ctx clk req s).1.
Proof.
  intros Hs Hclk Hq. destruct ctx; [by apply token_evolves_refl|].
  destruct (IsZero (rot_Next req) || negb (Z.of_nat (length (Presented req)) =? HashLen)) eqn:E.
  { unfold ConsumeForRotation. rewrite E. by apply token_evolves_refl. }
  apply orb_false_iff in E as [Hz Hl%negb_false_iff%Z.eqb_eq].
  pose proof (Consume_spec s Hs clk req Hz Hl) as H. cbv zeta in H.
  pose proof (token_state_inv (RefreshRecord_Tenant (rot_Next req)) (Presented req) (store_now clk) s) as Hi.
  destruct (token_state _ _ _ _) as [| | |r|r].
  1-3: rewrite H; by apply token_evolves_refl.
  - rewrite H. repeat case_decide; simpl; try (by apply token_evolves_refl). by apply evolves_revoked.
  - destruct H as [(Hsuc & Hins & ->)|(_ & e & -> & _)]; simpl; [|by apply token_evolves_refl].
    destruct Hi as (? & ? & ? & ? & ? & ?). pose proof (store_now_pos clk Hclk).
    by apply rotated_evolves; try lia.
Qed.

(** ** Families *)
Lemma familyRows_spec fk s : tok_inv s -> familyRows fk s = Ok (family_toks fk s).
Proof.
  intros Hs. unfold familyRows, family_toks.
  assert (Forall (fun h => is_Some (tokens s !! h)) (members fk s)) as H.
  { apply Forall_forall. intros h (r & -> & _)%(ti_mem s Hs). by eexists. }
  induction H as [|h hs [r Hr] _ IH]; [done|]. simpl. rewrite IH. simpl. by rewrite Hr.
Qed.

Lemma state_spec r rs :
  state (r :: rs) = Ok (mkFamilyState (RSubject (row r)) (Lineage (row r))
                          (existsb revoked (r :: rs)) (latest (r :: rs) 0)).
Proof.
  unfold state, latest, time_zero. f_equal.
  assert (forall l sub lin b t, fold_left (fun st r =>
      mkFamilyState (fs_Subject st) (fs_Lineage st) (Revoked st || revoked r)
        (maxTime (fs_ExpiresAt st) (FamilyExpiresAt (row r)))) l (mkFamilyState sub lin b t)
    = mkFamilyState sub lin (b || existsb revoked l)
        (fold_left (fun t r => maxTime t (FamilyExpiresAt (row r))) l t)) as H.
  { induction l as [|x l IH]; intros; simpl; [by rewrite orb_false_r|]. by rewrite IH, orb_assoc. }
  apply H.
Qed.

(** When Reissue applies: the family exists, is unrevoked and unexpired, is of the subject and
    lineage of the next record, and that record's family and digest are new. *)
Definition reissuable (s : Store) (now : time) (req : ReissueRequest) : Prop :=
  let next := rei_Next req in
  let fk := (RefreshRecord_Tenant next, rei_Family req) in
  family next <> rei_Family req /\
  families s !! (RefreshRecord_Tenant next, family next) = None /\
  tokens s !! tokenHash next = None /\ checkRefreshRow (rowOf next) = None /\
  unrevoked fk s = true /\ now < latest (family_toks fk s) 0 /\
  Forall (fun r => RSubject (row r) = subject next /\ Lineage (row r) = lineage next)
    (family_toks fk s).

(** Members of a family agree on what Reissue checks. *)
Lemma family_uniform fk s r r' :
  tok_inv s -> r ∈ family_toks fk s -> r' ∈ family_toks fk s ->
  RSubject (row r) = RSubject (row r') /\ Lineage (row r) = Lineage (row r') /\
  revoked r = revoked r'.
Proof.
  intros Hs (h & Hr & Hf)%elem_of_family_toks (h' & Hr' & Hf')%elem_of_family_toks; [|done..].
  apply (ti_same s Hs h r h' r' Hr Hr'). unfold same_family. congruence.
Qed.

Lemma family_revoked_eq fk s r :
  tok_inv s -> r ∈ family_toks fk s ->
  existsb revoked (family_toks fk s) = revoked r /\ unrevoked fk s = negb (revoked r).
Proof.
  intros Hs Hr. unfold unrevoked.
  assert (forall x, x ∈ family_toks fk s -> revoked x = revoked r) as H
    by (intros x Hx; by apply (family_uniform fk s)).
  split; apply eq_iff_eq_true; rewrite existsb_exists; setoid_rewrite <- list_elem_of_In.
  - split; [intros (x & Hx & <-); symmetry; auto|eauto].
  - split; [intros (x & Hx & Hn); by rewrite <- (H x)|eauto].
Qed.

Lemma family_no_stranger fk s r :
  tok_inv s -> r ∈ family_toks fk s ->
  existsb (fun x => negb (bool_decide (RSubject (row x) = RSubject (row r)))
                    || negb (Lineage (row x) =? Lineage (row r))) (family_toks fk s) = false.
Proof.
  intros Hs Hr. apply not_true_iff_false. rewrite existsb_exists.
  intros (x & Hx%list_elem_of_In & Hn). destruct (family_uniform fk s x r Hs Hx Hr) as (E1 & E2 & _).
  rewrite bool_decide_eq_true_2, E2, Z.eqb_refl in Hn by done. done.
Qed.

(** Reissue's guards on the family it replaces. *)
Definition reissue_ok (s : Store) (now : time) (req : ReissueRequest) : Prop :=
  let fk := (RefreshRecord_Tenant (rei_Next req), rei_Family req) in
  unrevoked fk s = true /\ now < latest (family_toks fk s) 0 /\
  Forall (fun r => RSubject (row r) = subject (rei_Next req) /\
                   Lineage (row r) = lineage (rei_Next req)) (family_toks fk s).

Lemma reissue_test s now req r :
  tok_inv s ->
  let next := rei_Next req in
  let fk := (RefreshRecord_Tenant next, rei_Family req) in
  r ∈ family_toks fk s ->
  let st := mkFamilyState (RSubject (row r)) (Lineage (row r))
              (existsb revoked (family_toks fk s)) (latest (family_toks fk s) 0) in
  Revoked st || negb (Live st now) || negb (bool_decide (fs_Subject st = subject next))
    || negb (fs_Lineage st =? lineage next) = false <-> reissue_ok s now req.
Proof.
  intros Hs next fk Hr. unfold Live, reissue_ok. fold next. fold fk. cbn [Revoked fs_Subject fs_Lineage fs_ExpiresAt].
  destruct (family_revoked_eq fk s r Hs Hr) as [-> ->]. unfold time_Before.
  rewrite !orb_false_iff, !negb_false_iff, andb_true_iff, !negb_true_iff, bool_decide_eq_true,
    Z.eqb_eq, Z.ltb_lt, Forall_forall. split.
  - intros (((Hv & _ & Ht) & E1) & E2). split; [done|]. split; [done|]. intros x Hx.
    destruct (family_uniform fk s x r Hs Hx Hr) as (-> & -> & _). done.
  - intros (Hv & Ht & Hall). destruct (Hall r Hr). done.
Qed.

Lemma Reissue_spec clk req s :
  store_inv s -> IsZero (rei_Next req) = false ->
  let next := rei_Next req in
  let fk := (RefreshRecord_Tenant next, rei_Family req) in
  (reissuable s (store_now clk) req /\
   Reissue None clk req s = (revoked_store fk (store_now clk) (inserted next s), Ok tt)) \/
  (~ reissuable s (store_now clk) req /\
   exists e, Reissue None clk req s = (s, Err e) /\
     (e = ErrConflict \/ Is e TErrInvalidRecord = true)).
Proof.
  intros Hs Hz. cbv zeta. unfold Reissue, reissuable. rewrite Hz.
  set (next := rei_Next req). set (fk := (RefreshRecord_Tenant next, rei_Family req)).
  rewrite familyRows_spec by apply Hs.
  destruct (family_toks fk s) as [|r rs] eqn:Hrows.
  { right. split; [|eauto]. intros (_ & _ & _ & _ & Hu & _). unfold unrevoked in Hu.
    by rewrite Hrows in Hu. }
  assert (r ∈ family_toks fk s) as Hr by (rewrite Hrows; set_solver).
  rewrite state_spec, <- Hrows.
  destruct (Z.eqb_spec (Z.of_nat (length (family_toks fk s))) 0) as [E0|_];
    [rewrite Hrows in E0; simpl in E0; lia|].
  destruct (Z.eqb_spec (family next) (rei_Family req)) as [|Hfam]; simpl.
  { right. split; [by intros [? _]|eauto]. }
  destruct (families s !! (RefreshRecord_Tenant next, family next)) eqn:Hf1.
  { right. split; [intros (_ & ? & _); congruence|eauto]. }
  destruct (tokens s !! tokenHash next) eqn:Hf2.
  { right. split; [intros (_ & _ & ? & _); congruence|eauto]. }
  pose proof (reissue_test s (store_now clk) req r (inv_tok s Hs) Hr) as Ht. cbv zeta in Ht.
  fold next in Ht. fold fk in Ht. unfold reissue_ok in Ht. fold next in Ht. fold fk in Ht.
  destruct (_ || _ || _ || _) eqn:Eb.
  { right. split; [|eauto]. intros (_ & _ & _ & _ & Hok). apply Ht in Hok. simpl in Hok. congruence. }
  rewrite family_no_stranger by (done || apply Hs). destruct Ht as [Ht _]. specialize (Ht eq_refl).
  destruct (insert_spec next s) as [(Hk & Hx & ->)|(Hn & e & -> & He)]; simpl.
  - left. split; [done|]. rewrite revoke_spec; [done|].
    by apply first_inserted.
  - right. split; [|by exists e]. intros (_ & _ & ? & ? & _). by apply Hn.
Qed.

Lemma Reissue_evolves ctx clk req s :
  store_inv s -> seq s < two64 - 1 -> evolves s (Reissue ctx clk req s).1.
Proof.
  intros Hs Hq. destruct ctx; [by apply token_evolves_refl|].
  destruct (IsZero (rei_Next req)) eqn:Hz.
  { unfold Reissue. rewrite Hz. by apply token_evolves_refl. }
  destruct (Reissue_spec clk req s Hs Hz) as [[Hok ->]|(_ & e & -> & _)]; simpl;
    [|by apply token_evolves_refl].
  destruct Hok as (_ & Hfam & Hfree & Hrow & _).
  pose proof (first_inserted s (rei_Next req) Hs Hrow Hfree Hfam) as Hi.
  eapply token_evolves_trans; [exact Hi|]. apply evolves_revoked; [apply Hi|done].
Qed.

(** ** Reaping *)
Lemma shrinks_dropToken h s : shrinks s (dropToken h s).
Proof.
  intros g r'. rewrite tokens_dropToken. intros [_ ?]%lookup_delete_Some. exists r'. by split.
Qed.

Lemma reap_tokens_inv now hs p :
  store_inv p.1 ->
  let p' := fold_left (reap_token now) hs p in
  store_inv p'.1 /\ shrinks p.1 p'.1 /\ seq p'.1 = seq p.1 /\ feed p'.1 = feed p.1.
Proof.
  revert p. induction hs as [|h hs IH]; intros [s n] Hs; simpl; [split_and!; auto using shrinks_refl|].
  destruct (tokens s !! h) as [r|]; [|by apply IH].
  destruct (_ || _); [|by apply IH].
  destruct (IH (dropToken h s, n + 1)) as (H1 & H2 & H3 & H4); [by apply dropToken_inv|].
  destruct (dropToken_same h s) as (E1 & E2 & _). simpl in *.
  split_and!; [done| |congruence|congruence].
  eapply shrinks_trans; [apply shrinks_dropToken|done].
Qed.

Lemma reap_keys_inv now refs p :
  store_inv p.1 ->
  let p' := fold_left (reap_key now) refs p in
  store_inv p'.1 /\ tokens p'.1 = tokens p.1 /\ seq p'.1 = seq p.1 /\ feed p'.1 = feed p.1.
Proof.
  revert p. induction refs as [|ref refs IH]; intros [s n] Hs; simpl; [done|].
  destruct (keys s !! ref) as [k|] eqn:Hk; [|by apply IH].
  destruct (_ && _); [|by apply IH].
  apply (IH (dropKey ref (k_ID k) s, n + 1)). by apply dropKey_inv.
Qed.

Lemma ReapExpired_inv range krange ctx clk s :
  store_inv s ->
  let s' := (ReapExpired range krange ctx clk s).1 in
  store_inv s' /\ shrinks s s' /\ seq s' = seq s /\
  (ctx = None -> feed s' = filter (fun e => store_now clk < expires e) (feed s)).
Proof.
  intros Hs. destruct ctx; [split_and!; done || apply shrinks_refl|]. unfold ReapExpired. cbv zeta.
  pose proof (reap_tokens_inv (store_now clk) range (s, 0) Hs) as H. cbv zeta in H.
  destruct (fold_left (reap_token _) range (s, 0)) as [s1 n1]. destruct H as (H1 & H2 & H3 & H4).
  pose proof (reap_keys_inv (store_now clk) krange (s1, n1) H1) as H. cbv zeta in H.
  destruct (fold_left (reap_key _) krange (s1, n1)) as [s2 n2]. destruct H as (K1 & K2 & K3 & K4).
  cbv beta iota zeta. rewrite feed_reap_spec. simpl in *. split_and!.
  - split; [apply (tok_inv_ext s2); [done..|apply K1]|apply (key_inv_ext s2); [done..|apply K1]|].
    split; simpl; [apply feed_ok_filter|]; apply K1.
  - intros h r'. simpl. rewrite K2. apply H2.
  - congruence.
  - intros _. by rewrite K4, H4.
Qed.

(** ** API keys *)
(** Truncating to the microsecond twice is truncating once; an instant that truncates to the zero
    time is then kept as it is. *)
Lemma cloneKey_idemp k : cloneKey (cloneKey k) = cloneKey k.
Proof.
  assert (forall t, (if negb (time_IsZero (time_Truncate t Microsecond))
    then time_Truncate (time_Truncate t Microsecond) Microsecond
    else time_Truncate t Microsecond) = time_Truncate t Microsecond) as H.
  { intros t. rewrite time_Truncate_idemp. by case_match. }
  unfold cloneKey. simpl. rewrite time_Truncate_idemp.
  destruct (time_IsZero (ExpiresAt k)) eqn:E1, (time_IsZero (RevokedAt k)) eqn:E2; simpl;
    rewrite ?E1, ?E2, ?H; simpl; rewrite ?H; done.
Qed.

Lemma CreateAPIKey_good ctx k s : store_inv s -> good s (CreateAPIKey ctx k s).1.
Proof.
  intros Hs. unfold CreateAPIKey. destruct ctx; [by apply good_refl|].
  destruct (Validate k); [by apply good_refl|].
  destruct (keys s !! _) eqn:Hk; [by apply good_refl|].
  destruct (keyIDs s !! _) eqn:Hi; [by apply good_refl|].
  split; [|by apply shrinks_tokens]. apply token_evolves_same; [|done|done|].
  2:{ intros fk. simpl. by rewrite (unrevoked_ext s (mkStore _ _ _ _ _ _)). }
  destruct Hs as [Ht Hkey Hf]. split; [by apply (tok_inv_ext s)| |by apply (feed_inv_ext s)].
  split; simpl.
  - intros ref k' [[<- <-]|[Hne H]]%lookup_insert_Some; [split; [done|apply lookup_insert_eq]|].
    destruct (ki_key s Hkey _ _ H) as [E Hid]. split; [done|].
    rewrite lookup_insert_ne; [done|]. intros E'. rewrite E', Hid in Hi. done.
  - intros i ref [[<- <-]|[Hne H]]%lookup_insert_Some.
    + eexists. by rewrite lookup_insert_eq.
    + destruct (ki_id s Hkey _ _ H) as (k' & Hk' & <-). exists k'.
      rewrite lookup_insert_ne; [done|]. intros E'. rewrite E', Hk' in Hk. done.
Qed.

Lemma RevokeAPIKey_good ctx clk owner i s : store_inv s -> good s (RevokeAPIKey ctx clk owner i s).1.
Proof.
  intros Hs. unfold RevokeAPIKey. destruct ctx; [by apply good_refl|].
  destruct (keyIDs s !! i) as [ref|] eqn:Hi; [|by apply good_refl].
  destruct (keys s !! ref) as [k|] eqn:Hk; [|by apply good_refl].
  destruct (negb _); [by apply good_refl|]. destruct (time_IsZero _); [|by apply good_refl].
  split; [|by apply shrinks_tokens]. apply token_evolves_same; [|done|done|].
  2:{ intros fk. simpl. by rewrite (unrevoked_ext s (mkStore _ _ _ _ _ _)). }
  destruct Hs as [Ht Hkey Hf]. split; [by apply (tok_inv_ext s)| |by apply (feed_inv_ext s)].
  split; simpl.
  - intros ref' k' [[<- <-]|[Hne H]]%lookup_insert_Some; [|by apply (ki_key s Hkey)].
    by apply (ki_key s Hkey) in Hk.
  - intros j ref' H. destruct (ki_id s Hkey _ _ H) as (k' & Hk' & <-).
    destruct (decide (ref' = ref)) as [->|].
    + exists (set_RevokedAt (store_now clk) k). rewrite lookup_insert_eq. simpl. naive_solver.
    + exists k'. by rewrite lookup_insert_ne.
Qed.

(** ** Runs of the token store: its operations as labels, the states they reach, that every operation
    preserves the invariant, and that none undoes a revocation or a consumption. *)

Inductive op :=
  | OpCreate (ctx : Ctx) (r : RefreshRecord)
  | OpConsume (ctx : Ctx) (clk : time) (req : RotationRequest)
  | OpReissue (ctx : Ctx) (clk : time) (req : ReissueRequest)
  | OpRevokeFamily (ctx : Ctx) (clk : time) (t : TenantID) (family : uuid)
  | OpRevokeForSubject (range : list familyKey) (ctx : Ctx) (clk : time) (sub : Subject)
      (except : uuid)
  | OpDeleteForSubject (range : list familyKey) (krange : list keyRef) (ctx : Ctx) (clk : time)
      (sub : Subject)
  | OpEraseTenant (range : list familyKey) (krange : list keyRef) (ctx : Ctx) (clk : time)
      (t : TenantID)
  | OpReapExpired (range : list bytes) (krange : list keyRef) (ctx : Ctx) (clk : time)
  | OpCreateAPIKey (ctx : Ctx) (k : APIKey)
  | OpRevokeAPIKey (ctx : Ctx) (clk : time) (owner : Subject) (id : uuid).

Definition op_clk (o : op) : time :=
  match o with
  | OpCreate _ _ | OpCreateAPIKey _ _ => Microsecond
  | OpConsume _ clk _ | OpReissue _ clk _ | OpRevokeFamily _ clk _ _
  | OpRevokeForSubject _ _ clk _ _ | OpDeleteForSubject _ _ _ clk _ | OpEraseTenant _ _ _ clk _
  | OpReapExpired _ _ _ clk | OpRevokeAPIKey _ clk _ _ => clk
  end.

(** How many families the operation's loop visits. *)
Definition op_visits (o : op) : nat :=
  match o with
  | OpRevokeForSubject range _ _ _ _ | OpDeleteForSubject range _ _ _ _
  | OpEraseTenant range _ _ _ _ => length range
  | _ => 1
  end.

(** A loop over the families, tokens or keys visits each exactly once, in any order. *)
Definition visits {K A} `{Countable K} (range : list K) (m : gmap K A) : Prop :=
  range ≡ₚ (map_to_list m).*1.

Definition op_range (o : op) (s : Store) : Prop :=
  match o with
  | OpRevokeForSubject range _ _ _ _ => visits range (families s)
  | OpDeleteForSubject range krange _ _ _ | OpEraseTenant range krange _ _ _ =>
      visits range (families s) /\ visits krange (keys s)
  | OpReapExpired range krange _ _ => visits range (tokens s) /\ visits krange (keys s)
  | _ => True
  end.

Lemma visits_elem {K A} `{Countable K} (range : list K) (m : gmap K A) i :
  visits range m -> i ∈ range <-> is_Some (m !! i).
Proof.
  intros ->. rewrite list_elem_of_fmap. split.
  - intros ([j r] & -> & ?%elem_of_map_to_list). by exists r.
  - intros [r ?]. exists (i, r). by rewrite elem_of_map_to_list.
Qed.

Section runs.
Context (uuid_String : uuid -> string).

Definition exec (o : op) (s : Store) : Store :=
  match o with
  | OpCreate ctx r => (Create ctx r s).1
  | OpConsume ctx clk req => (ConsumeForRotation ctx clk req s).1
  | OpReissue ctx clk req => (Reissue ctx clk req s).1
  | OpRevokeFamily ctx clk t fam => (RevokeFamily ctx clk t fam s).1
  | OpRevokeForSubject range ctx clk sub except =>
      (RevokeForSubject uuid_String range ctx clk sub except s).1
  | OpDeleteForSubject range krange ctx clk sub =>
      (DeleteForSubject uuid_String range krange ctx clk sub s).1
  | OpEraseTenant range krange ctx clk t => (EraseTenant range krange ctx clk t s).1
  | OpReapExpired range krange ctx clk => (ReapExpired range krange ctx clk s).1
  | OpCreateAPIKey ctx k => (CreateAPIKey ctx k s).1
  | OpRevokeAPIKey ctx clk owner i => (RevokeAPIKey ctx clk owner i s).1
  end.

(** One operation: its clock reads an instant at least a microsecond after the zero time, its
    loops visit each element once, and the feed counter has room for what it may append. *)
Inductive step (s : Store) (o : op) : Store -> Prop :=
  | step_intro : Microsecond <= op_clk o -> op_range o s ->
      seq s + Z.of_nat (op_visits o) < two64 - 1 -> step s o (exec o s).

Inductive run : Store -> list op -> Store -> Prop :=
  | run_nil s : run s [] s
  | run_cons s o s1 os s2 : step s o s1 -> run s1 os s2 -> run s (o :: os) s2.

Definition reachable (s : Store) : Prop := exists os, run NewWithClock os s.

Lemma token_reachable_start : reachable NewWithClock.
Proof. exists []. constructor. Qed.

Lemma token_run_app s1 os s2 os' s3 : run s1 os s2 -> run s2 os' s3 -> run s1 (os ++ os') s3.
Proof. induction 1; [done|]. intros. econstructor; eauto. Qed.

Lemma token_reachable_step s o :
  reachable s -> Microsecond <= op_clk o -> op_range o s ->
  seq s + Z.of_nat (op_visits o) < two64 - 1 -> reachable (exec o s).
Proof.
  intros [os Hr] Hc Ho Hroom. exists (os ++ [o]). eapply token_run_app; [done|].
  eapply run_cons; [by constructor|constructor].
Qed.

(** ** The looping operations *)
Lemma length_subjectFamilies sel (range : list familyKey) :
  (length (merge_sort (family_le uuid_String) (List.filter sel range)) <= length range)%nat.
Proof.
  rewrite (merge_sort_Permutation _ _). induction range as [|fk range IH]; simpl; [done|].
  case_match; simpl; lia.
Qed.

Lemma subjectFamilies_spec range sub keep s :
  tok_inv s ->
  subjectFamilies uuid_String range sub keep s
  = Ok (merge_sort (family_le uuid_String) (List.filter (selected sub keep s) range)).
Proof. intros Hs. unfold subjectFamilies. by rewrite collect_spec. Qed.

Lemma RevokeForSubject_eq range clk sub except s :
  store_inv s -> seq s + Z.of_nat (length range) < two64 - 1 ->
  let keep r := negb (except =? uuid_Nil) && (Lineage r =? except) in
  RevokeForSubject uuid_String range None clk sub except s =
  (fold_left (fun s fk => revoke_turn false (store_now clk) fk s)
     (merge_sort (family_le uuid_String) (List.filter (selected sub keep s) range)) s, Ok tt).
Proof.
  intros Hs Hq keep. unfold RevokeForSubject. rewrite subjectFamilies_spec by apply Hs. simpl.
  pose proof (length_subjectFamilies (selected sub keep s) range).
  subst keep. rewrite revoke_fold; [done|done|lia].
Qed.

Lemma filter_true {A} (l : list A) : List.filter (fun _ => true) l = l.
Proof. induction l; simpl; by f_equal. Qed.

Lemma DeleteForSubject_eq range krange clk sub s :
  store_inv s -> seq s + Z.of_nat (length range) < two64 - 1 ->
  DeleteForSubject uuid_String range krange None clk sub s =
  (drop_keys (fun _ k => bool_decide (Owner k = sub)) krange
     (fold_left (fun s fk => revoke_turn true (store_now clk) fk s)
        (merge_sort (family_le uuid_String)
           (List.filter (selected sub (fun _ => false) s) range)) s), Ok tt).
Proof.
  intros Hs Hq. unfold DeleteForSubject. rewrite subjectFamilies_spec by apply Hs. simpl.
  set (fks := merge_sort _ _).
  pose proof (length_subjectFamilies (selected sub (fun _ => false) s) range). fold fks in H.
  pose proof (erase_fold (store_now clk) fks (fun _ => true) s Hs) as E.
  rewrite filter_true in E. cbv beta iota in E. rewrite E by lia. done.
Qed.

Lemma EraseTenant_eq range krange clk t s :
  store_inv s -> seq s + Z.of_nat (length range) < two64 - 1 ->
  EraseTenant range krange None clk t s =
  (drop_keys (fun ref _ => bool_decide (ref.1 = t)) krange
     (fold_left (fun s fk => revoke_turn true (store_now clk) fk s)
        (List.filter (fun fk => bool_decide (fk.1 = t)) range) s), Ok tt).
Proof.
  intros Hs Hq. unfold EraseTenant.
  rewrite (erase_fold (store_now clk) range (fun fk => bool_decide (fk.1 = t)) s); done.
Qed.

Lemma length_filter_le {A} (f : A -> bool) l : (length (List.filter f l) <= length l)%nat.
Proof. induction l; simpl; [done|]. case_match; simpl; lia. Qed.

(** ** Every operation preserves the invariant *)
Definition reaps (o : op) : bool := match o with OpReapExpired _ _ _ _ => true | _ => false end.

(** The operations that add no token. *)
Definition inserts (o : op) : bool :=
  match o with OpCreate _ _ | OpConsume _ _ _ | OpReissue _ _ _ => true | _ => false end.

Lemma step_good s o s' :
  store_inv s -> step s o s' -> reaps o = false -> inserts o = false -> good s s'.
Proof.
  intros Hs [Hclk Hrange Hroom] Ho Hi. destruct o; simpl in *; try discriminate.
  - destruct ctx; [by apply good_refl|]. unfold RevokeFamily.
    rewrite revoke_spec by apply Hs. simpl. split; [|apply shrinks_revoked].
    apply evolves_revoked; [done|lia].
  - destruct ctx; [by apply good_refl|]. rewrite RevokeForSubject_eq by done.
    apply revoke_turns_good; [done|].
    pose proof (length_subjectFamilies (selected sub (fun r => negb (except =? uuid_Nil)
      && (Lineage r =? except)) s) range). lia.
  - destruct ctx; [by apply good_refl|]. rewrite DeleteForSubject_eq by done. simpl.
    pose proof (length_subjectFamilies (selected sub (fun _ => false) s) range).
    assert (good s (fold_left (fun s fk => revoke_turn true (store_now clk) fk s)
      (merge_sort (family_le uuid_String) (List.filter (selected sub (fun _ => false) s) range)) s))
      as Hg by (apply revoke_turns_good; [done|lia]).
    eapply good_trans; [exact Hg|]. apply drop_keys_good, (ev_inv s), Hg.
  - destruct ctx; [by apply good_refl|]. rewrite EraseTenant_eq by done. simpl.
    pose proof (length_filter_le (fun fk : familyKey => bool_decide (fk.1 = t)) range).
    assert (good s (fold_left (fun s fk => revoke_turn true (store_now clk) fk s)
      (List.filter (fun fk : familyKey => bool_decide (fk.1 = t)) range) s))
      as Hg by (apply revoke_turns_good; [done|lia]).
    eapply good_trans; [exact Hg|]. apply drop_keys_good, (ev_inv s), Hg.
  - by apply CreateAPIKey_good.
  - by apply RevokeAPIKey_good.
Qed.

Lemma token_step_evolves s o s' : store_inv s -> step s o s' -> reaps o = false -> evolves s s'.
Proof.
  intros Hs Hst Ho. destruct (inserts o) eqn:Hi; [|by eapply step_good].
  destruct Hst as [Hclk Hrange Hroom]. destruct o; simpl in *; try discriminate.
  - by apply token_Create_evolves.
  - apply Consume_evolves; [done|done|lia].
  - apply Reissue_evolves; [done|lia].
Qed.

Lemma token_step_inv s o s' : store_inv s -> step s o s' -> store_inv s'.
Proof.
  intros Hs Hst. destruct (reaps o) eqn:Ho; [|by eapply ev_inv, token_step_evolves].
  destruct Hst as [_ _ _]. destruct o; try discriminate. simpl.
  by apply ReapExpired_inv.
Qed.

Lemma token_run_inv s os s' : store_inv s -> run s os s' -> store_inv s'.
Proof. intros Hs Hr. induction Hr; eauto using token_step_inv. Qed.

Lemma token_reachable_inv s : reachable s -> store_inv s.
Proof. intros [os Hr]. eapply token_run_inv; [apply token_empty_inv|done]. Qed.

Lemma token_run_evolves s os s' :
  store_inv s -> run s os s' -> Forall (fun o => reaps o = false) os -> evolves s s'.
Proof.
  intros Hs Hr. induction Hr as [s|s o s1 os s2 Hst Hr IH]; intros Hos; [by apply token_evolves_refl|].
  apply Forall_cons in Hos as [? ?].
  eapply token_evolves_trans; [by eapply token_step_evolves|]. apply IH; [by eapply token_step_inv|done].
Qed.
End runs.

(** ** What a step keeps of a token *)
Lemma keeps_inserted s r h x :
  tokens s !! tokenHash r = None -> tokens s !! h = Some x -> tokens (inserted r s) !! h = Some x.
Proof. intros Hn Hx. simpl. rewrite lookup_insert_ne; [done|]. congruence. Qed.

Lemma Create_keeps ctx r s h x :
  tokens s !! h = Some x -> tokens (Create ctx r s).1 !! h = Some x.
Proof.
  intros Hx. unfold Create. destruct ctx; [done|]. destruct (IsZero r); [done|].
  destruct (families s !! _); [done|].
  destruct (insert_spec r s) as [(_ & Hn & ->)|(_ & e & -> & _)]; [|done].
  by apply keeps_inserted.
Qed.

Lemma Consume_keeps ctx clk req s h x :
  store_inv s -> tokens s !! h = Some x ->
  exists x', tokens (ConsumeForRotation ctx clk req s).1 !! h = Some x' /\ keeps x x'.
Proof.
  intros Hs Hx. destruct ctx; [by exists x|].
  destruct (IsZero (rot_Next req) || negb (Z.of_nat (length (Presented req)) =? HashLen)) eqn:E.
  { unfold ConsumeForRotation. rewrite E. by exists x. }
  apply orb_false_iff in E as [Hz Hl%negb_false_iff%Z.eqb_eq].
  pose proof (Consume_spec s Hs clk req Hz Hl) as H. cbv zeta in H.
  pose proof (token_state_inv (RefreshRecord_Tenant (rot_Next req)) (Presented req) (store_now clk) s) as Hi.
  destruct (token_state _ _ _ _) as [| | |r|r].
  1-3: rewrite H; by exists x.
  - rewrite H. repeat case_decide; try (by exists x). cbn [fst].
    rewrite tokens_revoked_store, lookup_fmap, Hx. eexists. split; [done|apply keeps_revoke_in].
  - destruct H as [(_ & (_ & _ & Hfree) & ->)|(_ & e & -> & _)]; [|by exists x]. cbn [fst].
    destruct Hi as (Hr & _ & _ & _ & Hc & _). unfold rotated.
    destruct (decide (h = Presented req)) as [->|Hne].
    + exists (mkRefresh (row r) (store_now clk) (clientFingerprint (rot_Next req)) (revoked r)).
      assert (x = r) as -> by congruence. split; [|by split].
      apply keeps_inserted; [|apply lookup_insert_eq]. simpl.
      rewrite lookup_insert_ne; [done|]. congruence.
    + exists x. split; [|apply keeps_refl]. apply keeps_inserted; simpl.
      * rewrite lookup_insert_ne; [done|]. congruence.
      * by rewrite lookup_insert_ne.
Qed.

Lemma Reissue_keeps ctx clk req s h x :
  store_inv s -> tokens s !! h = Some x ->
  exists x', tokens (Reissue ctx clk req s).1 !! h = Some x' /\ keeps x x'.
Proof.
  intros Hs Hx. destruct ctx; [by exists x|].
  destruct (IsZero (rei_Next req)) eqn:Hz; [unfold Reissue; rewrite Hz; by exists x|].
  destruct (Reissue_spec clk req s Hs Hz) as [[Hok ->]|(_ & e & -> & _)]; [|by exists x].
  cbn [fst]. destruct Hok as (_ & _ & Hfree & _).
  rewrite tokens_revoked_store, lookup_fmap, (keeps_inserted s _ h x) by done.
  eexists. split; [done|apply keeps_revoke_in].
Qed.

Lemma step_keeps str s o s' h r r' :
  store_inv s -> step str s o s' -> tokens s !! h = Some r -> tokens s' !! h = Some r' ->
  keeps r r'.
Proof.
  intros Hs Hst Hr Hr'.
  assert (shrinks s s' -> keeps r r') as Hshr.
  { intros H. apply H in Hr' as (r0 & E & ?). by simplify_eq. }
  destruct (reaps o) eqn:Ho.
  { apply Hshr. destruct Hst as [_ _ _], o; try discriminate. simpl. by apply ReapExpired_inv. }
  destruct (inserts o) eqn:Hi; [|by eapply Hshr, step_good].
  destruct Hst as [_ _ _], o; simpl in *; try discriminate.
  - rewrite (Create_keeps ctx r0 s h r Hr) in Hr'. simplify_eq. apply keeps_refl.
  - destruct (Consume_keeps ctx clk req s h r Hs Hr) as (x & E & ?). by simplify_eq.
  - destruct (Reissue_keeps ctx clk req s h r Hs Hr) as (x & E & ?). by simplify_eq.
Qed.

(** ** Revoking every family of a list *)
Lemma revoke_turns_tokens now fks s h :
  tokens (fold_left (fun s fk => revoke_turn false now fk s) fks s) !! h =
  (fun r => if decide (familyOf (row r) ∈ fks) then rev_tok r else r) <$> tokens s !! h.
Proof.
  revert s. induction fks as [|fk fks IH]; intros s; simpl.
  - destruct (tokens s !! h) as [r|]; [|done]. simpl.
    by destruct (decide (familyOf (row r) ∈ [])) as [?%not_elem_of_nil|].
  - rewrite IH. unfold revoke_turn. rewrite tokens_revoked_store, lookup_fmap.
    destruct (tokens s !! h) as [r|]; [|done]. simpl. rewrite revoke_in_row. f_equal.
    unfold revoke_in. repeat case_decide; try done; set_solver.
Qed.

(** The families a subject's revocation selects are those of its tokens outside the lineage. *)
Lemma selected_member sub keep s h r :
  tok_inv s -> tokens s !! h = Some r ->
  (forall r', same_family r r' -> Lineage (row r) = Lineage (row r') -> keep (row r) = keep (row r')) ->
  selected sub keep s (familyOf (row r)) = bool_decide (RSubject (row r) = sub) && negb (keep (row r)).
Proof.
  intros Hs Hr Hkeep. apply eq_iff_eq_true. rewrite selected_true by done.
  rewrite andb_true_iff, bool_decide_eq_true, negb_true_iff.
  assert (forall h' r', tokens s !! h' = Some r' -> familyOf (row r') = familyOf (row r) ->
    RSubject (row r') = RSubject (row r) /\ keep (row r') = keep (row r)) as Hfam.
  { intros h' r' Hr' E. destruct (ti_same s Hs _ _ _ _ Hr Hr') as (E1 & E2 & _); [done|].
    split; [done|]. symmetry. by apply Hkeep. }
  assert (h ∈ members (familyOf (row r)) s) as Hm by (apply (ti_mem s Hs); eauto).
  destruct (members (familyOf (row r)) s) as [|h0 hs] eqn:Em; [by apply not_elem_of_nil in Hm|].
  assert (h0 ∈ members (familyOf (row r)) s) as Hm0 by (rewrite Em; set_solver).
  apply (ti_mem s Hs) in Hm0 as (r0 & Hr0 & Hf0). destruct (Hfam _ _ Hr0 Hf0) as [_ Ek]. split.
  - intros (h' & r' & Hr' & Hf & Hsub & r1 & E & Hk). destruct (Hfam _ _ Hr' Hf) as [? _].
    split; congruence.
  - intros [Hsub Hk]. exists h, r. repeat split; try done. exists r0. split; congruence.
Qed.

Lemma RevokeForSubject_tokens str range clk sub except s h :
  store_inv s -> visits range (families s) ->
  seq s + Z.of_nat (length range) < two64 - 1 ->
  tokens (RevokeForSubject str range None clk sub except s).1 !! h =
  (fun r => if decide (RSubject (row r) = sub /\ (except = uuid_Nil \/ Lineage (row r) <> except))
            then rev_tok r else r) <$> tokens s !! h.
Proof.
  intros Hs Hv Hq. rewrite RevokeForSubject_eq by done. cbv zeta. cbn [fst].
  rewrite revoke_turns_tokens. destruct (tokens s !! h) as [r|] eqn:Hr; [|done]. simpl. f_equal.
  set (keep := fun x : RefreshRow => negb (except =? uuid_Nil) && (Lineage x =? except)).
  assert (familyOf (row r) ∈ merge_sort (family_le str) (List.filter (selected sub keep s) range) <->
    (RSubject (row r) = sub /\ (except = uuid_Nil \/ Lineage (row r) <> except))) as E.
  { rewrite (merge_sort_Permutation _ _), list_elem_of_In, filter_In, <- list_elem_of_In.
    rewrite (selected_member sub keep s h r); [|apply Hs|done|by unfold keep; intros ? _ ->].
    rewrite (visits_elem _ _ _ Hv), andb_true_iff, bool_decide_eq_true, negb_true_iff.
    unfold keep. rewrite andb_false_iff, negb_false_iff, Z.eqb_eq, Z.eqb_neq.
    split; [tauto|]. intros H. split; [|done].
    assert (h ∈ members (familyOf (row r)) s) as Hm by (apply (ti_mem s (inv_tok s Hs)); eauto).
    unfold members in Hm. destruct (families s !! familyOf (row r)); [by eexists|].
    by apply not_elem_of_nil in Hm. }
  by repeat case_decide; tauto.
Qed.
