(* ===== verification/TokenStoreProperties.v ===== *)
(** What the token store guarantees: the invariants I1 to I7 of docs/protocols/refresh-family.md and
    the API keys. *)
From S2P Require Import Prelude Errors Tenant Factor Attrs Pending Transitions Factors Codec.
From S2P Require Import VerifiedFacts SessionFacts Journey.
From S2P Require Import StoreBase TokenRecord TokenStore TokenStoreFacts TokenStoreRun.
From S2P Require Import TokenStoreRun.
Import Tokens TokensMemory.

(** ** Concrete values for the witnesses *)
Definition thash (c : Byte.byte) : bytes := repeat c 32.

Definition t_String (u : uuid) : string := bytes_str (uuid_bytes u).

Definition zero_RefreshRecord : RefreshRecord :=
  mkRefreshRecord [] 0 zero_Subject 0 [] [] 0 [] 0 0 0.

Definition trec (fam : uuid) (h : bytes) (fp : bytes) (at_ : time) : RefreshRecord :=
  get_ok zero_RefreshRecord
    (NewRefreshRecord (mkRefreshSpec h fam session0 [] fp (3600 * Second) (86400 * Second) at_)
       (Some Seal)).

Definition fp1 : bytes := repeat Byte.x31 16.

Definition t0 : time := now0 + 4 * Second.

Definition t1 : time := now0 + 10 * Second.

Definition t2 : time := now0 + 12 * Second.

Definition t3 : time := now0 + 600 * Second.

Definition first : RefreshRecord := trec 900 (thash "a") fp1 t0.

Definition rot_ab : RotationRequest := mkRotationRequest (thash "a") (trec 900 (thash "b") fp1 t1).

Definition rot_ac : RotationRequest := mkRotationRequest (thash "a") (trec 900 (thash "c") fp1 t2).

Definition tstore1 : Store := exec t_String (OpCreate None first) NewWithClock.

Definition tstore2 : Store := exec t_String (OpConsume None t1 rot_ab) tstore1.

Lemma tstore1_reachable : reachable t_String tstore1.
Proof.
  apply (token_reachable_step t_String NewWithClock (OpCreate None first));
    [apply token_reachable_start|done|done|done].
Qed.

Lemma tstore2_reachable : reachable t_String tstore2.
Proof.
  apply (token_reachable_step t_String tstore1 (OpConsume None t1 rot_ab));
    [apply tstore1_reachable|done|done|vm_compute; reflexivity].
Qed.

(** ** Properties *)

(** Every state the token store reaches is consistent: a family's list holds exactly the digests
    of its tokens, all members share tenant, subject, lineage and revocation flag, the API keys and
    their index by id point at each other, and feed positions strictly increase.  In particular no
    operation reaches a nil dereference. *)
Theorem token_store_consistent str s : reachable str s -> store_inv s.
Proof. apply token_reachable_inv. Qed.

Lemma token_store_consistent_witness : store_inv tstore2.
Proof. exact (token_store_consistent t_String tstore2 tstore2_reachable). Defined.

(** I1, single head: in every reachable state a family has at most one token that has not been
    consumed, hence never two usable tokens. *)
Theorem family_has_a_single_head str s h r h' r' :
  reachable str s -> tokens s !! h = Some r -> tokens s !! h' = Some r' ->
  familyOf (row r) = familyOf (row r') -> consumedAt r = 0 -> consumedAt r' = 0 -> h = h'.
Proof.
  intros Hs%token_reachable_inv Hr Hr' E. apply (ti_head s (inv_tok s Hs) _ _ _ _ Hr Hr' E).
Qed.

Lemma family_has_a_single_head_witness :
  exists r, tokens tstore2 !! thash "b" = Some r /\
  (forall h r', tokens tstore2 !! h = Some r' -> familyOf (row r) = familyOf (row r') ->
     consumedAt r' = 0 -> thash "b" = h).
Proof.
  assert (option_map consumedAt (tokens tstore2 !! thash "b") = Some 0) as H0
    by (vm_compute; reflexivity).
  destruct (tokens tstore2 !! thash "b") as [r|] eqn:E; [|discriminate].
  injection H0 as H0. exists r. split; [done|]. intros h r' Hr' Hf Hc.
  apply (family_has_a_single_head t_String tstore2 (thash "b") r h r');
    [apply tstore2_reachable|done..].
Defined.

(** C3: Rotation follows the refresh-family state machine.  By the state of the presented token, a
    well-formed request: an absent or idle-expired token gives store.ErrNotFound and a revoked or
    absolutely expired family ErrRevoked, without change; a consumed token is ErrConcurrent
    without change inside the benign race and otherwise revokes the family and gives ErrReused; a
    live head is consumed and its successor inserted in one step, exactly when the successor
    continues tenant, subject, lineage and family (I3), does not outlive it and has a valid, free
    digest, and nothing changes otherwise. *)
Theorem rotation_follows_the_state_machine str s clk req :
  reachable str s ->
  IsZero (rot_Next req) = false -> Z.of_nat (length (Presented req)) = HashLen ->
  let next := rot_Next req in
  let now := store_now clk in
  match token_state (RefreshRecord_Tenant next) (Presented req) now s with
  | Absent | Expired => ConsumeForRotation None clk req s = (s, Err ErrNotFound)
  | FamilyRevoked => ConsumeForRotation None clk req s = (s, Err ErrRevoked)
  | ConsumedToken r =>
      ConsumeForRotation None clk req s =
      if decide (succeeds r next)
      then if decide (benign r now next) then (s, Err ErrConcurrent)
           else (revoked_store (familyOf (row r)) now s, Err ErrReused)
      else (s, Err ErrConflict)
  | LiveToken r =>
      (succeeds r next /\ insertable s r next /\
       ConsumeForRotation None clk req s =
       (rotated s (Presented req) r now next, Ok (mkRotation (Family (row r)) now))) \/
      (~ (succeeds r next /\ insertable s r next) /\
       exists e, ConsumeForRotation None clk req s = (s, Err e) /\
         (e = ErrConflict \/ Is e TErrInvalidRecord = true))
  end.
Proof.
  intros Hs%token_reachable_inv Hz Hl. pose proof (Consume_spec s Hs clk req Hz Hl) as H. cbv zeta in *.
  by destruct (token_state _ _ _ _).
Qed.

Lemma rotation_follows_the_state_machine_witness :
  IsZero (rot_Next rot_ac) = false /\ Z.of_nat (length (Presented rot_ac)) = HashLen /\
  exists r, token_state acme (thash "a") (store_now t3) tstore2 = ConsumedToken r /\
    ConsumeForRotation None t3 rot_ac tstore2 =
    if decide (succeeds r (rot_Next rot_ac))
    then if decide (benign r (store_now t3) (rot_Next rot_ac)) then (tstore2, Err ErrConcurrent)
         else (revoked_store (familyOf (row r)) (store_now t3) tstore2, Err ErrReused)
    else (tstore2, Err ErrConflict).
Proof.
  assert (IsZero (rot_Next rot_ac) = false) as Hz by (vm_compute; reflexivity).
  assert (Z.of_nat (length (Presented rot_ac)) = HashLen) as Hl by (vm_compute; reflexivity).
  split; [done|]. split; [done|].
  assert (match token_state acme (thash "a") (store_now t3) tstore2 with
          | ConsumedToken _ => true | _ => false end = true) as Hc by (vm_compute; reflexivity).
  assert (exists r, token_state acme (thash "a") (store_now t3) tstore2 = ConsumedToken r) as [r E].
  { destruct (token_state acme (thash "a") (store_now t3) tstore2) as [| | |r|r];
      [discriminate Hc..|exists r; reflexivity|discriminate Hc]. }
  pose proof (rotation_follows_the_state_machine t_String tstore2 t3 rot_ac tstore2_reachable Hz Hl) as H.
  cbv zeta in H.
  change (RefreshRecord_Tenant (rot_Next rot_ac)) with acme in H.
  change (Presented rot_ac) with (thash "a") in H.
  rewrite E in H. exists r. split; [exact E|exact H].
Defined.

(** Every token of a revoked family reads as revoked from then on. *)
Lemma revoked_store_state fk now s t h now' r :
  store_inv s -> tokens s !! h = Some r -> familyOf (row r) = fk -> Tenant (RSubject (row r)) = t ->
  token_state t h now' (revoked_store fk now s) = FamilyRevoked.
Proof.
  intros Hs Hr Hf Ht. unfold token_state. rewrite tokens_revoked_store, lookup_fmap, Hr. simpl.
  rewrite revoke_in_row, revoke_in_revoked, (decide_True _ _ Hf), Ht.
  rewrite decide_False by tauto. by rewrite decide_True by tauto.
Qed.

(** C4: I2, replay is theft.  Presenting a consumed token of a live family outside the benign race
    revokes the whole family and appends it to the feed: from then on, at any later instant, every
    member, the current head included, is refused with ErrRevoked by Get and by a further
    rotation. *)
Theorem replayed_token_revokes_the_whole_family str s clk req r :
  reachable str s -> seq s < two64 - 1 ->
  IsZero (rot_Next req) = false -> Z.of_nat (length (Presented req)) = HashLen ->
  let now := store_now clk in
  token_state (RefreshRecord_Tenant (rot_Next req)) (Presented req) now s = ConsumedToken r ->
  succeeds r (rot_Next req) -> ~ benign r now (rot_Next req) ->
  exists s' e, ConsumeForRotation None clk req s = (s', Err ErrReused) /\
    feed s' = feed s ++ [e] /\ (rv_Tenant (rev e), rv_Family (rev e)) = familyOf (row r) /\
    forall h x clk', tokens s !! h = Some x -> familyOf (row x) = familyOf (row r) ->
      Get None clk' (Tenant (RSubject (row x))) h s' = Err ErrRevoked /\
      forall req', Presented req' = h -> IsZero (rot_Next req') = false ->
        Z.of_nat (length h) = HashLen -> RefreshRecord_Tenant (rot_Next req') = Tenant (RSubject (row x)) ->
        ConsumeForRotation None clk' req' s' = (s', Err ErrRevoked).
Proof.
  intros Hs%token_reachable_inv Hq Hz Hl now Hst Hsuc Hb.
  pose proof (Consume_spec s Hs clk req Hz Hl) as H. cbv zeta in H. fold now in H.
  rewrite Hst, decide_True, decide_False in H by done.
  pose proof (token_state_inv (RefreshRecord_Tenant (rot_Next req)) (Presented req) now s) as Hi.
  rewrite Hst in Hi. destruct Hi as (Hr & _ & Hv & _).
  pose proof (revoked_store_inv (familyOf (row r)) now s Hs Hq) as Hs'.
  assert (unrevoked (familyOf (row r)) s = true) as Hu by (apply unrevoked_true; [apply Hs|eauto]).
  rewrite H. eexists _, _. split; [done|].
  split; [unfold revoked_store; rewrite Hu; reflexivity|]. split; [done|].
  intros h x clk' Hx Hf.
  pose proof (revoked_store_state (familyOf (row r)) now s _ h (store_now clk') x Hs Hx Hf eq_refl) as E.
  split.
  - rewrite token_Get_spec, E. done.
  - intros req' <- Hz' Hl' Ht.
    pose proof (Consume_spec _ Hs' clk' req' Hz' Hl') as H'. cbv zeta in H'. by rewrite Ht, E in H'.
Qed.

Lemma replayed_token_revokes_the_whole_family_witness :
  exists r, ~ benign r (store_now t3) (rot_Next rot_ac) /\
  exists s' e, ConsumeForRotation None t3 rot_ac tstore2 = (s', Err ErrReused) /\
    feed s' = feed tstore2 ++ [e].
Proof.
  destruct (token_state acme (thash "a") (store_now t3) tstore2) as [| | |r|r] eqn:E;
    [exfalso; vm_compute in E; discriminate..| |exfalso; vm_compute in E; discriminate].
  assert (option_map consumedAt (state_token (token_state acme (thash "a") (store_now t3) tstore2))
    = Some t1) as Hc by (vm_compute; reflexivity).
  assert (option_map (fun r => bool_decide (succeeds r (rot_Next rot_ac)))
    (state_token (token_state acme (thash "a") (store_now t3) tstore2)) = Some true) as Hsuc
    by (vm_compute; reflexivity).
  rewrite E in Hc, Hsuc. injection Hc as Hc. injection Hsuc as Hsuc%bool_decide_eq_true_1.
  assert (~ benign r (store_now t3) (rot_Next rot_ac)) as Hb.
  { intros [Hb _]. rewrite Hc in Hb. vm_compute in Hb. discriminate. }
  exists r. split; [done|].
  destruct (replayed_token_revokes_the_whole_family t_String tstore2 t3 rot_ac r tstore2_reachable)
    as (s' & e & H1 & H2 & _); [vm_compute; reflexivity..|exact E|exact Hsuc|exact Hb|].
  exists s', e. split; [exact H1|exact H2].
Defined.

(** Runs during which the token with digest [h] stays in the store. *)
Inductive run_keeping (str : uuid -> string) (h : bytes) : Store -> Store -> Prop :=
  | rk_nil s : run_keeping str h s s
  | rk_cons s o s1 s2 : step str s o s1 -> is_Some (tokens s1 !! h) ->
      run_keeping str h s1 s2 -> run_keeping str h s s2.

(** Revocation and consumption are permanent.  As long as a token's record is kept, no sequence
    of operations changes its row, clears its revocation, or alters when and by whom it was
    consumed: a revoked token is never found again and a consumed one is never rotated again. *)
Theorem revocation_and_consumption_are_permanent str s h r s' t clk :
  reachable str s -> tokens s !! h = Some r -> run_keeping str h s s' ->
  exists r', tokens s' !! h = Some r' /\ keeps r r' /\
    (revoked r = true -> forall x, Get None clk t h s' <> Ok x) /\
    (consumedAt r <> 0 -> forall x, token_state t h (store_now clk) s' <> LiveToken x).
Proof.
  intros Hs%token_reachable_inv Hr Hrun.
  assert (exists r', tokens s' !! h = Some r' /\ keeps r r') as (r' & Hr' & Hk).
  { revert r Hs Hr. induction Hrun as [s|s o s1 s2 Hst [r1 Hr1] _ IH]; intros r Hs Hr.
    - exists r. split; [done|apply keeps_refl].
    - destruct (IH r1) as (r' & ? & Hk'); [by eapply token_step_inv|done|]. exists r'. split; [done|].
      eapply keeps_trans; [|done]. by eapply (step_keeps str s o s1). }
  exists r'. split; [done|]. split; [done|]. destruct Hk as (_ & Hkr & Hkc). split.
  - intros Hv x. rewrite token_Get_spec. unfold token_state. rewrite Hr'.
    case_decide; [done|]. rewrite decide_True; [done|]. auto.
  - intros Hc x. unfold token_state. rewrite Hr'. destruct (Hkc Hc) as [E _].
    repeat case_decide; try done; congruence.
Qed.

Lemma present (s : Store) h : (if tokens s !! h then true else false) = true -> is_Some (tokens s !! h).
Proof. destruct (tokens s !! h) as [r|]; [by exists r|done]. Qed.

Lemma revocation_and_consumption_are_permanent_witness :
  exists r r', tokens tstore1 !! thash "a" = Some r /\ tokens tstore2 !! thash "a" = Some r' /\
  keeps r r'.
Proof.
  destruct (present tstore1 (thash "a")) as [r E]; [vm_compute; reflexivity|].
  destruct (revocation_and_consumption_are_permanent t_String tstore1 (thash "a") r tstore2 acme t2
              tstore1_reachable E) as (r' & H & Hk & _).
  - apply (rk_cons _ _ _ (OpConsume None t1 rot_ab) tstore2); [| |constructor].
    + apply (step_intro t_String tstore1 (OpConsume None t1 rot_ab));
        [vm_compute; congruence|exact I|vm_compute; reflexivity].
    + apply present. vm_compute. reflexivity.
  - exists r, r'. split; [exact E|]. split; [exact H|exact Hk].
Defined.

(** I5, single winner.  When one head is presented twice by the same client within the grace
    window, in whichever order the two requests reach the store, the first rotates it and the
    second is told ErrConcurrent: it issues nothing, revokes nothing and leaves the state as the
    first request left it. *)
Theorem concurrent_rotation_has_one_winner str s clk clk' req req' s1 rot :
  reachable str s -> Microsecond <= clk -> seq s < two64 - 1 ->
  ConsumeForRotation None clk req s = (s1, Ok rot) ->
  IsZero (rot_Next req') = false -> Presented req' = Presented req ->
  subject (rot_Next req') = subject (rot_Next req) ->
  lineage (rot_Next req') = lineage (rot_Next req) ->
  family (rot_Next req') = family (rot_Next req) ->
  clientFingerprint (rot_Next req') = clientFingerprint (rot_Next req) ->
  clientFingerprint (rot_Next req) <> [] ->
  (forall r, tokens s !! Presented req = Some r -> store_now clk' < FamilyExpiresAt (row r)) ->
  time_Sub (store_now clk') (store_now clk) < ReuseGrace ->
  ConsumeForRotation None clk' req' s1 = (s1, Err ErrConcurrent).
Proof.
  intros Hs%token_reachable_inv Hclk Hq Hc Hz' Hp Hsub Hlin Hfam Hfp Hne Hexp Hgrace.
  assert (store_inv s1) as Hs1.
  { pose proof (Consume_evolves None clk req s Hs Hclk Hq) as He. rewrite Hc in He. apply He. }
  destruct (IsZero (rot_Next req) || negb (Z.of_nat (length (Presented req)) =? HashLen)) eqn:E.
  { unfold ConsumeForRotation in Hc. rewrite E in Hc. discriminate. }
  apply orb_false_iff in E as [Hz Hl%negb_false_iff%Z.eqb_eq].
  pose proof (Consume_spec s Hs clk req Hz Hl) as H. cbv zeta in H.
  pose proof (token_state_inv (RefreshRecord_Tenant (rot_Next req)) (Presented req) (store_now clk) s) as Hi.
  destruct (token_state _ _ _ _) as [| | |r|r]; try (rewrite Hc in H; repeat case_decide; simplify_eq; done).
  destruct H as [(Hsuc & (_ & _ & Hfree) & H)|(_ & e & H & _)]; [|rewrite Hc in H; discriminate].
  rewrite Hc in H. injection H as -> _. destruct Hi as (Hr & Ht & Hv & Hfe & Hc0 & _).
  pose proof (store_now_pos clk Hclk) as Hpos.
  set (r1 := mkRefresh (row r) (store_now clk) (clientFingerprint (rot_Next req)) (revoked r)).
  assert (tokens (rotated s (Presented req) r (store_now clk) (rot_Next req)) !! Presented req
          = Some r1) as Hr1.
  { apply keeps_inserted; [|apply lookup_insert_eq]. simpl. rewrite lookup_insert_ne; [done|]. congruence. }
  assert (token_state (RefreshRecord_Tenant (rot_Next req')) (Presented req') (store_now clk')
    (rotated s (Presented req) r (store_now clk) (rot_Next req)) = ConsumedToken r1) as Hst.
  { unfold token_state. rewrite Hp, Hr1. simpl. unfold RefreshRecord_Tenant in *. rewrite Hsub, Ht.
    specialize (Hexp _ Hr). rewrite decide_False by tauto.
    rewrite decide_False by (rewrite Hv; intros [?|?]; [done|lia]).
    by rewrite decide_True by lia. }
  rewrite <- Hp in Hl. pose proof (Consume_spec _ Hs1 clk' req' Hz' Hl) as H. cbv zeta in H.
  rewrite Hst, decide_True, decide_True in H; [done| |].
  - unfold benign. simpl. by rewrite Hfp.
  - destruct Hsuc as (? & ? & ?). split_and!; simpl; congruence.
Qed.

Lemma concurrent_rotation_has_one_winner_witness :
  exists s1 rot, ConsumeForRotation None t1 rot_ab tstore1 = (s1, Ok rot) /\
  ConsumeForRotation None t2 rot_ac s1 = (s1, Err ErrConcurrent).
Proof.
  destruct (okb_pair (ConsumeForRotation None t1 rot_ab tstore1)) as (s1 & rot & E);
    [vm_compute; reflexivity|].
  exists s1, rot. split; [exact E|].
  apply (concurrent_rotation_has_one_winner t_String tstore1 t1 t2 rot_ab rot_ac s1 rot
           tstore1_reachable); [vm_compute; congruence|vm_compute; reflexivity|exact E
    |vm_compute; reflexivity..|vm_compute; discriminate| |vm_compute; reflexivity].
  intros r Hr.
  assert (option_map (fun r => store_now t2 <? FamilyExpiresAt (row r))
            (tokens tstore1 !! Presented rot_ab) = Some true) as H by (vm_compute; reflexivity).
  rewrite Hr in H. injection H as H. by apply Z.ltb_lt.
Defined.

(** I6, first half: Reissue is atomic.  Either nothing changes, or in one step every token of
    the old family is revoked, the family is published, and the new family holds one live head of
    the same tenant, subject and lineage; it never succeeds on a family that is revoked, expired or
    of another subject or lineage. *)
Theorem reissue_is_atomic str s clk req :
  reachable str s -> seq s < two64 - 1 -> IsZero (rei_Next req) = false ->
  let next := rei_Next req in
  let fk := (RefreshRecord_Tenant next, rei_Family req) in
  match Reissue None clk req s with
  | (s', Ok _) => reissuable s (store_now clk) req /\
      (forall h r, tokens s !! h = Some r ->
         tokens s' !! h = Some (revoke_in fk r)) /\
      tokens s' !! tokenHash next = Some (mkRefresh (rowOf next) 0 [] false) /\
      members (RefreshRecord_Tenant next, family next) s' = [tokenHash next] /\
      (exists e, feed s' = feed s ++ [e] /\ (rv_Tenant (rev e), rv_Family (rev e)) = fk)
  | (s', Err e) => s' = s /\ ~ reissuable s (store_now clk) req /\
      (e = ErrConflict \/ Is e TErrInvalidRecord = true)
  end.
Proof.
  intros Hs%token_reachable_inv Hq Hz. cbv zeta. set (next := rei_Next req).
  set (fk := (RefreshRecord_Tenant next, rei_Family req)).
  destruct (Reissue_spec clk req s Hs Hz) as [[Hok ->]|(Hn & e & -> & He)]; [|done].
  fold next. fold fk. split; [done|]. destruct Hok as (Hne & Hfam & Hfree & Hrow & Hu & _).
  fold next in Hne, Hfam, Hfree, Hrow, Hu. fold fk in Hu.
  assert (familyOf (rowOf next) <> fk) as Hfk.
  { unfold familyOf, fk, RefreshRecord_Tenant. simpl. congruence. }
  pose proof (first_inserted s next Hs Hrow Hfree Hfam) as Hi.
  assert (unrevoked fk (inserted next s) = true) as Hu'
    by (by apply inserted_unrevoked; [apply Hs|apply Hi|..]).
  rewrite !tokens_revoked_store. split_and!.
  - intros h r Hr. rewrite lookup_fmap, (keeps_inserted s next h r) by done. done.
  - rewrite lookup_fmap. simpl. rewrite lookup_insert_eq. simpl. f_equal.
    unfold revoke_in. simpl. by rewrite decide_False.
  - assert (forall f, members f (revoked_store fk (store_now clk) (inserted next s))
      = members f (inserted next s)) as ->
      by (intros f; unfold members, revoked_store; by rewrite Hu').
    change (RefreshRecord_Tenant next, family next) with (familyOf (rowOf next)) in *.
    rewrite members_inserted, decide_True by done. unfold members. by rewrite Hfam.
  - eexists. split; [unfold revoked_store; rewrite Hu'; reflexivity|done].
Qed.

Definition reissue1 : ReissueRequest := mkReissueRequest 900 (trec 901 (thash "d") fp1 t2).

Lemma reissue_is_atomic_witness :
  exists s', Reissue None t2 reissue1 tstore2 = (s', Ok tt) /\
  exists e, feed s' = feed tstore2 ++ [e].
Proof.
  destruct (okb_pair (Reissue None t2 reissue1 tstore2)) as (s' & [] & E); [vm_compute; reflexivity|].
  pose proof (reissue_is_atomic t_String tstore2 t2 reissue1 tstore2_reachable) as H. cbv zeta in H.
  rewrite E in H. destruct H as (_ & _ & _ & _ & e & He & _); [vm_compute; reflexivity..|].
  exists s'. split; [exact E|]. exists e. exact He.
Defined.

(** I6, second half: RevokeForSubject leaves no surviving token of the subject outside the kept
    lineage, whatever the order in which the families are visited, and touches no other token; and
    a Reissue of one of its families, arriving before or after, cannot save it: afterwards it
    fails and changes nothing. *)
Theorem revoke_for_subject_leaves_no_survivor str s range clk sub except :
  reachable str s -> visits range (families s) ->
  seq s + Z.of_nat (length range) < two64 - 1 ->
  let s' := (RevokeForSubject str range None clk sub except s).1 in
  (RevokeForSubject str range None clk sub except s).2 = Ok tt /\
  (forall h r, tokens s !! h = Some r -> exists r', tokens s' !! h = Some r' /\
     if decide (RSubject (row r) = sub /\ (except = uuid_Nil \/ Lineage (row r) <> except))
     then revoked r' = true else r' = r) /\
  (except = uuid_Nil -> forall h r', tokens s' !! h = Some r' -> RSubject (row r') = sub ->
     revoked r' = true) /\
  (except = uuid_Nil -> forall clk' req, subject (rei_Next req) = sub ->
     exists e, Reissue None clk' req s' = (s', Err e)).
Proof.
  intros Hs%token_reachable_inv Hv Hq. cbv zeta.
  pose proof (RevokeForSubject_tokens str range clk sub except s) as Ht.
  assert (store_inv (RevokeForSubject str range None clk sub except s).1) as Hs'.
  { rewrite RevokeForSubject_eq by done. cbn [fst]. eapply ev_inv, revoke_turns_good; [done|].
    pose proof (length_subjectFamilies str (selected sub (fun r => negb (except =? uuid_Nil)
      && (Lineage r =? except)) s) range). lia. }
  split; [by rewrite RevokeForSubject_eq|]. set (s' := (RevokeForSubject _ _ _ _ _ _ _).1) in *.
  assert (except = uuid_Nil -> forall h r', tokens s' !! h = Some r' -> RSubject (row r') = sub ->
     revoked r' = true) as Hall.
  { intros He h r'. unfold s'. rewrite Ht by done.
    intros (r & Hr & ->)%fmap_Some. clear Ht.
    destruct (decide (RSubject (row r) = sub /\ _)) as [Hd|Hd]; [done|]. intros E. exfalso. tauto. }
  split; [|split; [done|]].
  - intros h r Hr. unfold s'. rewrite Ht, Hr by done. eexists. split; [done|]. clear Ht.
    by destruct (decide (RSubject (row r) = sub /\ _)).
  - intros He clk' req Hsub. destruct (IsZero (rei_Next req)) eqn:Hz.
    { unfold Reissue. rewrite Hz. by eexists. }
    destruct (Reissue_spec clk' req s' Hs' Hz) as [[Hok _]|(_ & e & E & _)]; [|by exists e].
    destruct Hok as (_ & _ & _ & _ & Hu & _ & Hfam).
    pose proof Hu as (h & r & Hr & Hf & Hrv)%unrevoked_true; [|apply Hs'].
    rewrite Forall_forall in Hfam. destruct (Hfam r) as [E _].
    { apply elem_of_family_toks; [apply Hs'|]. eauto. }
    rewrite (Hall He h r Hr) in Hrv by congruence. done.
Qed.

Lemma revoke_for_subject_leaves_no_survivor_witness :
  let range := (map_to_list (families tstore2)).*1 in
  length range = 1%nat /\
  forall h r, tokens (RevokeForSubject t_String range None t2 ada 0 tstore2).1 !! h = Some r ->
    RSubject (row r) = ada -> revoked r = true.
Proof.
  cbv zeta. split; [vm_compute; reflexivity|].
  apply (revoke_for_subject_leaves_no_survivor t_String tstore2 _ t2 ada 0 tstore2_reachable).
  - apply Permutation_refl.
  - vm_compute. reflexivity.
  - reflexivity.
Defined.

(** I7, the feed is monotonic.  A poller that keeps the cursor of its last poll gets, after any
    run of operations without reaping, exactly the entries appended since, oldest first, whatever
    their timestamps; and every family that has been revoked or erased in between is among them. *)
Theorem family_polling_misses_nothing str s os s' c0 revs c :
  reachable str s -> run str s os s' -> Forall (fun o => reaps o = false) os ->
  0 <= Position c0 <= seq s -> seq s' < two64 - 1 ->
  RevocationsSince None c0 s = (revs, c, None) ->
  exists new, feed s' = feed s ++ new /\
    (RevocationsSince None c s').1.1 = map rev new /\
    forall fk, unrevoked fk s = true -> unrevoked fk s' = false ->
      exists v, v ∈ (RevocationsSince None c s').1.1 /\ (rv_Tenant v, rv_Family v) = fk.
Proof.
  intros Hs%token_reachable_inv Hrun Hos Hc0 Hroom Hpoll.
  destruct (token_run_evolves str s os s' Hs Hrun Hos) as [Hs' Hq (new & Hf & Hnew & Hgone)].
  unfold RevocationsSince in *. injection Hpoll as Hpoll.
  exists new. split; [done|].
  assert ((feed_since (feed s') c).1 = map rev new) as E
    by (by eapply (poll_after (feed s) (seq s) (feed s') (seq s')), Hnew;
        [apply (fi_feed s (inv_feed s Hs))|..|apply (fi_feed s' (inv_feed s' Hs'))]).
  simpl. split; [exact E|]. intros fk Hi Hn. destruct (Hgone fk Hi Hn) as (e & He & <-).
  exists (rev e). split; [|done]. rewrite E. by apply list_elem_of_fmap_2.
Qed.

Definition op_reissue1 : op := OpReissue None t2 reissue1.

Definition tstore3 : Store := exec t_String op_reissue1 tstore2.

Lemma family_polling_misses_nothing_witness :
  exists new, feed tstore3 = feed tstore2 ++ new /\ length new = 1%nat.
Proof.
  destruct (family_polling_misses_nothing t_String tstore2 [op_reissue1] tstore3
    (RestoreCursor 0) [] (RestoreCursor 0)) as (new & Hf & _).
  - exact tstore2_reachable.
  - apply (run_cons _ _ _ tstore3); [apply (step_intro t_String tstore2 op_reissue1)|constructor].
    + vm_compute. congruence.
    + exact I.
    + vm_compute. reflexivity.
  - repeat constructor.
  - split; [done|vm_compute; discriminate].
  - vm_compute. reflexivity.
  - vm_compute. reflexivity.
  - exists new. split; [exact Hf|]. apply (f_equal length) in Hf. rewrite length_app in Hf.
    assert (length (feed tstore3) = 1%nat /\ length (feed tstore2) = 0%nat) as [E1 E2]
      by (split; vm_compute; reflexivity).
    lia.
Defined.

(** API keys round-trip and stay in their tenant.  A key CreateAPIKey accepts is returned by
    GetAPIKey, to the microsecond, for its own tenant and digest until it expires; every other
    tenant and digest reads as before.  RevokeAPIKey by the owner then stamps it once and keeps it
    readable, and another subject gets store.ErrNotFound and changes nothing. *)
Theorem api_keys_round_trip str s s' k clk clk' :
  reachable str s -> CreateAPIKey None k s = (s', Ok tt) -> RevokedAt k = 0 ->
  Microsecond <= clk' ->
  (ExpiresAt k = 0 \/ store_now clk < time_Truncate (ExpiresAt k) Microsecond) ->
  let t := Tenant (Owner k) in
  GetAPIKey None clk t (KeyHash k) s' = Ok (cloneKey k) /\
  (forall t' h', (t', h') <> (t, KeyHash k) -> GetAPIKey None clk t' h' s' = GetAPIKey None clk t' h' s) /\
  (forall other, other <> Owner k -> RevokeAPIKey None clk' other (k_ID k) s' = (s', Err ErrNotFound)) /\
  (exists s2, RevokeAPIKey None clk' (Owner k) (k_ID k) s' = (s2, Ok tt) /\
     RevokeAPIKey None clk' (Owner k) (k_ID k) s2 = (s2, Ok tt) /\
     GetAPIKey None clk t (KeyHash k) s2 = Ok (set_RevokedAt (store_now clk') (cloneKey k))).
Proof.
  intros Hs%token_reachable_inv Hc Hrev Hclk Hexp t. unfold CreateAPIKey in Hc.
  destruct (Validate k) eqn:Hval; [discriminate|].
  destruct (keys s !! _) eqn:Hk; [discriminate|]. destruct (keyIDs s !! _) eqn:Hi; [discriminate|].
  injection Hc as <-.
  assert (forall k', cloneKey (cloneKey k') = cloneKey k') as Hidem by (apply cloneKey_idemp).
  assert (negb (time_IsZero (ExpiresAt (cloneKey k)))
    && negb (time_Before (store_now clk) (ExpiresAt (cloneKey k))) = false) as Hlive.
  { simpl. unfold time_IsZero, time_Before. destruct Hexp as [->|Hexp]; [done|].
    destruct (Z.eqb_spec (ExpiresAt k) 0) as [E|E]; simpl; [by rewrite E|].
    rewrite (proj2 (Z.ltb_lt _ _) Hexp). apply andb_false_r. }
  unfold GetAPIKey, RevokeAPIKey, t. simpl. rewrite !lookup_insert_eq, Hlive. split_and!.
  - by rewrite Hidem.
  - intros t' h' Hne. by rewrite lookup_insert_ne.
  - intros other Hne. simpl. by rewrite bool_decide_eq_false_2 by congruence.
  - simpl. rewrite Hrev, bool_decide_eq_true_2 by done. simpl.
    pose proof (store_now_pos clk' Hclk) as Hpos.
    eexists. split; [done|]. simpl. rewrite !lookup_insert_eq. simpl.
    rewrite bool_decide_eq_true_2 by done. unfold time_IsZero at 1.
    rewrite (proj2 (Z.eqb_neq _ _)) by lia. split; [done|]. simpl in Hlive. rewrite Hlive. f_equal.
    rewrite <- (Hidem k) at 2. unfold cloneKey, set_RevokedAt. simpl. f_equal.
    unfold time_IsZero. rewrite (proj2 (Z.eqb_neq _ _)) by lia. apply time_Truncate_idemp.
Qed.

Definition key1 : APIKey := mkAPIKey 77 ada "ci" "deploy" (thash "k") [] 3 t0 0 0.

Lemma api_keys_round_trip_witness :
  exists s', CreateAPIKey None key1 tstore1 = (s', Ok tt) /\
  GetAPIKey None t1 acme (thash "k") s' = Ok key1.
Proof.
  destruct (okb_pair (CreateAPIKey None key1 tstore1)) as (s' & [] & E); [vm_compute; reflexivity|].
  exists s'. split; [exact E|].
  destruct (api_keys_round_trip t_String tstore1 s' key1 t1 t1 tstore1_reachable E) as (H & _);
    [reflexivity|vm_compute; congruence|by left|].
  etrans; [exact H|vm_compute; reflexivity].
Defined.

(** The instant just after the first token's idle window, well inside its family's lifetime. *)
Definition t4 : time := t0 + 3601 * Second.

Definition tstore4 : Store :=
  exec t_String (OpReapExpired [thash "a"; thash "b"] [] None t4)
    (exec t_String (OpConsume None t1 rot_ab)
       (exec t_String (OpCreate None first) NewWithClock)).

Definition rot_ax : RotationRequest :=
  mkRotationRequest (thash "a") (trec 900 (thash "c") (repeat Byte.x32 16) t4).

(** Reaping forgets a consumed token that has idled out while its family is still live.  The
    same replay, from another client, is answered ErrReused and revokes the family before
    ReapExpired has run, but store.ErrNotFound, with the family's head left usable, after it; the
    store contract says that a consumed token past its idle window is reuse too. *)
Theorem reaping_forgets_a_consumed_token :
  (ConsumeForRotation None t4 rot_ax tstore2).2 = Err ErrReused /\
  (ConsumeForRotation None t4 rot_ax tstore4).2 = Err ErrNotFound /\
  okb (Get None t4 acme (thash "b") tstore4) = true.
Proof. vm_compute. repeat split. Qed.
