(* ===== verification/CeremonyKind.v ===== *)
(** The registry of ceremony kinds: store/ceremony/kind.go.

    A kind is the byte it is in Go, because every method has a branch for a value outside the
    registry. *)
From S2P Require Import Prelude Errors Tenant.
From S2P Require Import Factor Attrs Pending Codec.

Module Ceremony_.

Definition pendingTTL : duration := 15 * Minute.

Definition Hour : duration := 60 * Minute.

Abbreviation Kind := Z (only parsing).

Definition MFAFlow : Kind := 1.
Definition PasskeyRegistration : Kind := 2.
Definition MFAPasskey : Kind := 3.
Definition MagicLink : Kind := 4.
Definition EmailCode : Kind := 5.
Definition SMSCode : Kind := 6.
Definition PhoneVerification : Kind := 7.
Definition PasswordReset : Kind := 8.
Definition PendingRegistration : Kind := 9.
Definition EmailVerification : Kind := 10.
Definition EmailChange : Kind := 11.
Definition RecoveryEmail : Kind := 12.
Definition SecurityRevert : Kind := 13.
Definition Exchange : Kind := 14.
Definition DiscoverablePasskey : Kind := 15.
Definition UsernameFirstPasskey : Kind := 16.
Definition OAuthState : Kind := 17.
Definition ExternalLogin : Kind := 18.
Definition PasswordResetCode : Kind := 19.
Definition kindEnd : Kind := 20.

Abbreviation ScopeClass := Z (only parsing).

Definition Subject_ : ScopeClass := 1.

Definition Identifier : ScopeClass := 2.

Definition Anonymous : ScopeClass := 3.

Abbreviation SecretClass_t := Z (only parsing).

Definition HighEntropy : SecretClass_t := 1.

Definition ShortCode : SecretClass_t := 2.

(** [k_in k ks]: [k] is one of the cases [ks] of a switch. *)
Definition k_in (k : Kind) (ks : list Kind) : bool := existsb (Z.eqb k) ks.

(** The loop [for k := Kind(1); k < kindEnd; k++]. *)
Definition All : list Kind := (fun n => Z.of_nat n) <$> seq 1 (Z.to_nat kindEnd - 1).

Definition Kind_Valid (k : Kind) : bool := (1 <=? k) && (k <? kindEnd).

Definition Scope_of (k : Kind) : ScopeClass :=
  if k_in k [MFAFlow; PasskeyRegistration; MFAPasskey; PhoneVerification; PasswordReset;
             EmailVerification; EmailChange; RecoveryEmail; Exchange; PasswordResetCode]
  then Subject_
  else if k_in k [MagicLink; EmailCode; SMSCode; PendingRegistration; SecurityRevert]
  then Identifier
  else if k_in k [DiscoverablePasskey; UsernameFirstPasskey; OAuthState; ExternalLogin]
  then Anonymous
  else 0.

Definition Stateless (k : Kind) : bool := Scope_of k =? Anonymous.

Definition Kind_String (k : Kind) : string :=
  if k =? MFAFlow then "mfa_flow"
  else if k =? PasskeyRegistration then "passkey_registration"
  else if k =? MFAPasskey then "mfa_passkey"
  else if k =? MagicLink then "magic_link"
  else if k =? EmailCode then "email_code"
  else if k =? SMSCode then "sms_code"
  else if k =? PhoneVerification then "phone_verification"
  else if k =? PasswordReset then "password_reset"
  else if k =? PendingRegistration then "pending_registration"
  else if k =? EmailVerification then "email_verification"
  else if k =? EmailChange then "email_change"
  else if k =? RecoveryEmail then "recovery_email"
  else if k =? SecurityRevert then "security_revert"
  else if k =? Exchange then "exchange"
  else if k =? DiscoverablePasskey then "discoverable_passkey"
  else if k =? UsernameFirstPasskey then "username_first_passkey"
  else if k =? OAuthState then "oauth_state"
  else if k =? ExternalLogin then "external_login"
  else if k =? PasswordResetCode then "password_reset_code"
  else "invalid".

Definition AdmitsSession (k : Kind) : bool :=
  k_in k [MFAFlow; MFAPasskey; MagicLink; EmailCode; SMSCode; PendingRegistration; Exchange;
          DiscoverablePasskey; UsernameFirstPasskey; OAuthState; ExternalLogin].

(** TTL calls itself at MFAFlow and Exchange only, whose cases are literals. *)
Definition TTL (k : Kind) : duration :=
  let mfaFlowTTL := 5 * Minute in
  let exchangeTTL := Minute in
  if k_in k [MFAFlow; PasskeyRegistration; MFAPasskey; DiscoverablePasskey; UsernameFirstPasskey;
             ExternalLogin]
  then 5 * Minute
  else if k_in k [PhoneVerification; PasswordResetCode] then 10 * Minute
  else if k_in k [MagicLink; EmailCode; SMSCode; PendingRegistration] then pendingTTL - mfaFlowTTL
  else if k_in k [OAuthState] then pendingTTL - exchangeTTL - mfaFlowTTL
  else if k_in k [PasswordReset; EmailChange; RecoveryEmail] then Hour
  else if k_in k [EmailVerification] then 24 * Hour
  else if k_in k [SecurityRevert] then 7 * 24 * Hour
  else if k_in k [Exchange] then Minute
  else 0.

Definition MaxLivePerScope (k : Kind) : Z :=
  if k_in k [MFAFlow; PasskeyRegistration; MFAPasskey; SecurityRevert; Exchange] then 5
  else if k_in k [MagicLink; EmailCode; SMSCode; PhoneVerification; PasswordReset;
                  PendingRegistration; EmailVerification; EmailChange; RecoveryEmail;
                  PasswordResetCode] then 3
  else 0.

Definition MaxLivePerTenant (k : Kind) : Z :=
  if k_in k [PendingRegistration] then 10000 else 0.

Definition MaxAttempts (k : Kind) : Z :=
  if k_in k [EmailCode; SMSCode; PhoneVerification; MFAFlow; MFAPasskey; PasswordResetCode] then 5
  else if k_in k [PasskeyRegistration; MagicLink; PasswordReset; PendingRegistration;
                  EmailVerification; EmailChange; RecoveryEmail; SecurityRevert; Exchange] then 3
  else 0.

Definition SecretClass (k : Kind) : SecretClass_t :=
  if k_in k [EmailCode; SMSCode; PhoneVerification; PasswordResetCode] then ShortCode
  else if k_in k [MFAFlow; PasskeyRegistration; MFAPasskey; MagicLink; PasswordReset;
                  PendingRegistration; EmailVerification; EmailChange; RecoveryEmail;
                  SecurityRevert; Exchange; DiscoverablePasskey; UsernameFirstPasskey; OAuthState;
                  ExternalLogin] then HighEntropy
  else 0.

Definition ExpiresAt_of (k : Kind) (pendingEnd now : time) : time :=
  if negb (Kind_Valid k) then time_zero
  else
    let end_ := time_Add now (TTL k) in
    if AdmitsSession k && time_Before pendingEnd end_ then pendingEnd else end_.

(** The self calls of TTL. *)
Lemma TTL_self :
  TTL MagicLink = pendingTTL - TTL MFAFlow /\
  TTL OAuthState = pendingTTL - TTL Exchange - TTL MFAFlow.
Proof. done. Qed.

(** A property of every registered kind can be checked kind by kind. *)
Lemma Kind_Valid_All k : Kind_Valid k = true <-> k ∈ All.
Proof.
  unfold Kind_Valid, All, kindEnd. rewrite andb_true_iff, Z.leb_le, Z.ltb_lt, list_elem_of_fmap.
  setoid_rewrite elem_of_seq. split.
  - intros [? ?]. exists (Z.to_nat k). lia.
  - intros (n & -> & ?). lia.
Qed.

Lemma valid_kinds (P : Kind -> Prop) : Forall P All -> forall k, Kind_Valid k = true -> P k.
Proof. rewrite Forall_forall. intros H k Hk%Kind_Valid_All. auto. Qed.

Lemma TTL_microseconds k : Kind_Valid k = true -> 0 < TTL k /\ TTL k mod Microsecond = 0.
Proof.
  revert k. apply valid_kinds. repeat constructor; done.
Qed.

Lemma MaxAttempts_pos k : Kind_Valid k = true -> Stateless k = false -> 0 < MaxAttempts k.
Proof. revert k. apply (valid_kinds (fun k => Stateless k = false -> 0 < MaxAttempts k)). repeat constructor; done. Qed.

Lemma MaxLivePerScope_pos k : Kind_Valid k = true -> Stateless k = false -> 0 < MaxLivePerScope k.
Proof. revert k. apply (valid_kinds (fun k => Stateless k = false -> 0 < MaxLivePerScope k)). repeat constructor; done. Qed.

(** No two registered kinds share a name: the names of [All] have no duplicate. *)
Lemma names_NoDup : NoDup (Kind_String <$> All).
Proof. apply (bool_decide_unpack _). vm_compute. exact I. Qed.

Lemma names_distinct k k' :
  Kind_Valid k = true -> Kind_Valid k' = true -> Kind_String k = Kind_String k' -> k = k'.
Proof.
  rewrite !Kind_Valid_All, !list_elem_of_lookup. intros [i Hi] [j Hj] E.
  assert (i = j) as ->; [|congruence].
  apply (NoDup_lookup _ i j (Kind_String k) names_NoDup).
  - rewrite list_lookup_fmap, Hi. done.
  - rewrite list_lookup_fmap, Hj, E. done.
Qed.

End Ceremony_.

(** ** Ceremony records: store/ceremony/record.go, and the opener the issuance passes it
    (internal/issuance/complete.go, openPending). *)

Module CeremonyRec.
Import Ceremony_.

Definition HandleHashLen : Z := 32.

Definition MaxHandleHashLen : Z := 64.

Definition IdentifierScopeLen : Z := 32.

Definition MaxPayloadLen : Z := Z.shiftl 16 10.

Record Scope := mkScope { class : ScopeClass; sc_tenant : TenantID; sc_hash : bytes }.

Definition zero_Scope : Scope := mkScope 0 zero_TenantID [].

Definition SubjectScope (s : Subject) : Scope :=
  if Subject_IsZero s then zero_Scope else mkScope Subject_ (Tenant s) (uuid_bytes (User s)).

Definition IdentifierScope (mac : bytes) : res Scope :=
  if negb (Z.of_nat (length mac) =? IdentifierScopeLen) then Err ErrScopeMismatch
  else Ok (mkScope Identifier zero_TenantID mac).

Record PendingBinding := mkPendingBinding {
  b_Tenant : TenantID; b_Subject : Subject; b_ExpiresAt : time }.

(** [PendingOpener]; [None] is the nil function. *)
Definition PendingOpener : Type := option (Sealed -> res PendingBinding).

(** [openPending]: the binding of a sealed Pending through the core codec. *)
Definition openPending (sealed : Sealed) : res PendingBinding :=
  p ← UnsealPending sealed;
  Ok (mkPendingBinding (p_tenant p) (p_subject p) (p_expiresAt p)).

Record Spec := mkSpec {
  sp_Kind : Kind;
  sp_HandleHash : bytes;
  sp_Scope : Scope;
  sp_Pending : Sealed;
  sp_Payload : bytes;
  sp_Now : time }.

(** [Record]: the exported Pending and the private copy Validate compares it with. *)
Record Rec := mkRec {
  r_Pending : Sealed;
  pending : bytes;
  tenant : TenantID;
  kind : Kind;
  handleHash : bytes;
  scopeHash : bytes;
  payload : bytes;
  attempts : Z;
  expiresAt : time;
  createdAt : time }.

Record Row := mkRow {
  RTenant : TenantID;
  RKind : Kind;
  HandleHash : bytes;
  ScopeHash : bytes;
  RPending : Sealed;
  Payload : bytes;
  Attempts : Z;
  ExpiresAt : time;
  CreatedAt : time }.

Definition scopeHashFits (c : ScopeClass) (h : bytes) : bool :=
  if c =? Subject_
  then (Z.of_nat (length h) =? 16) && negb (uuid_of_bytes h =? uuid_Nil)
  else if c =? Identifier
  then Z.of_nat (length h) =? IdentifierScopeLen
  else false.

Definition bindingFits (s : Scope) (b : PendingBinding) : bool :=
  if negb (Subject_IsZero (b_Subject b)) && negb (bool_decide (Tenant (b_Subject b) = b_Tenant b))
  then false
  else if negb (class s =? Subject_) then true
  else if negb (bool_decide (sc_tenant s = b_Tenant b)) then false
  else Subject_IsZero (b_Subject b) || bool_decide (sc_hash s = uuid_bytes (User (b_Subject b))).

Definition checkRow (r : Row) : option error :=
  if negb (Kind_Valid (RKind r)) then Some (Join CErrInvalidRecord (New "invalid kind"))
  else if Stateless (RKind r) then Some (ErrStatelessKind : error)
  else if Z.of_nat (length (HandleHash r)) <? HandleHashLen then Some (ErrHandleTooShort : error)
  else if negb (scopeHashFits (Scope_of (RKind r)) (ScopeHash r))
  then Some (ErrScopeMismatch : error)
  else
    let problem :=
      if MaxHandleHashLen <? Z.of_nat (length (HandleHash r)) then Some "handle hash is too long"
      else if Z.of_nat (length (RPending r)) =? 0 then Some "sealed pending is required"
      else if MaxPayloadLen <? Z.of_nat (length (Payload r)) then Some "payload is too large"
      else if (Attempts r <? 0) || (MaxAttempts (RKind r) <=? Attempts r)
      then Some "attempts are outside the kind's bound"
      else if time_IsZero (CreatedAt r) || negb (time_After (ExpiresAt r) (CreatedAt r))
      then Some "expiry must fall after creation"
      else if time_After (ExpiresAt r) (time_Add (CreatedAt r) (TTL (RKind r)))
      then Some "expiry exceeds the kind's lifetime"
      else None in
    match problem with
    | None => None
    | Some p => Some (Join CErrInvalidRecord (New p))
    end.

Definition Restore (r : Row) : res Rec :=
  match checkRow r with
  | Some err => Err err
  | None =>
      Ok (mkRec (RPending r) (RPending r) (RTenant r) (RKind r) (HandleHash r) (ScopeHash r)
            (Payload r) (Attempts r) (ExpiresAt r) (CreatedAt r))
  end.

Definition NewRecord (s : Spec) (open : PendingOpener) : res Rec :=
  if negb (Kind_Valid (sp_Kind s)) then Err (Join CErrInvalidRecord (New "invalid kind"))
  else if Stateless (sp_Kind s) then Err ErrStatelessKind
  else match open with
  | None => Err (Join CErrInvalidRecord (New "sealed pending and its opener are required"))
  | Some open =>
      if Z.of_nat (length (sp_Pending s)) =? 0
      then Err (Join CErrInvalidRecord (New "sealed pending and its opener are required"))
      else match open (sp_Pending s) with
      | Err err => Err (Join CErrInvalidRecord err)
      | Ok b =>
          if negb (class (sp_Scope s) =? Scope_of (sp_Kind s)) || negb (bindingFits (sp_Scope s) b)
          then Err ErrScopeMismatch
          else if time_IsZero (sp_Now s) || time_IsZero (b_ExpiresAt b)
          then Err (Join CErrInvalidRecord (New "writing time and pending expiry are required"))
          else
            let end_ := ExpiresAt_of (sp_Kind s) (b_ExpiresAt b) (sp_Now s) in
            if negb (time_After (b_ExpiresAt b) (sp_Now s)) || negb (time_After end_ (sp_Now s))
            then Err CErrExpired
            else Restore (mkRow (b_Tenant b) (sp_Kind s) (sp_HandleHash s) (sc_hash (sp_Scope s))
                            (sp_Pending s) (sp_Payload s) 0 end_ (sp_Now s))
      end
  end.

Definition Validate (r : Rec) : option error :=
  if negb (bool_decide (r_Pending r = pending r))
  then Some (Join CErrInvalidRecord (New "sealed pending was replaced after construction"))
  else checkRow (mkRow (tenant r) (kind r) (handleHash r) (scopeHash r) (r_Pending r) (payload r)
                   (attempts r) (expiresAt r) (createdAt r)).

Definition ScopedTo (r : Rec) (s : Scope) : bool :=
  if (class s =? 0) || negb (class s =? Scope_of (kind r))
     || negb (bool_decide (sc_hash s = scopeHash r))
  then false
  else negb (class s =? Subject_) || bool_decide (sc_tenant s = tenant r).

(** [e.row.Attempts++] *)
Definition set_Attempts (n : Z) (r : Row) : Row :=
  mkRow (RTenant r) (RKind r) (HandleHash r) (ScopeHash r) (RPending r) (Payload r) n
    (ExpiresAt r) (CreatedAt r).

Lemma checkRow_None r :
  checkRow r = None <->
  Kind_Valid (RKind r) = true /\ Stateless (RKind r) = false /\
  HandleHashLen <= Z.of_nat (length (HandleHash r)) <= MaxHandleHashLen /\
  scopeHashFits (Scope_of (RKind r)) (ScopeHash r) = true /\
  Z.of_nat (length (RPending r)) <> 0 /\ Z.of_nat (length (Payload r)) <= MaxPayloadLen /\
  0 <= Attempts r < MaxAttempts (RKind r) /\ CreatedAt r <> 0 /\
  CreatedAt r < ExpiresAt r <= CreatedAt r + TTL (RKind r).
Proof.
  unfold checkRow, time_Add. split.
  - intros H. repeat (case_match; try discriminate); bools. repeat split; done || lia.
  - intros H. destruct_and!.
    repeat (case_match; try discriminate); try done; exfalso;
      repeat match goal with Hx : _ || _ = true |- _ => apply orb_true_iff in Hx as [Hx|Hx] end;
      simplify_eq; bools; lia || congruence.
Qed.

End CeremonyRec.
