(* ===== verification/CeremonyStore.v ===== *)
(** The in-memory ceremony store: store/ceremony/memory/store.go.

    Rows are kept under tenant, kind and handle digest.  [buckets] groups them by tenant and kind
    and [scopes] counts them by tenant, kind and scope; the code keeps the same entry pointer in
    [rows] and in its bucket, so an entry changed in place is changed in both.  Eviction sorts its
    candidates by creation time and insertion number, a total order, so its outcome does not depend
    on the order the bucket is visited in; the deleting loops delete whatever the order. *)
From S2P Require Import Prelude Errors Tenant Factor Attrs Pending Codec StoreBase.
From S2P Require Import CeremonyKind.

Module CeremonyMemory.
Import Ceremony_ CeremonyRec.

Abbreviation key := (TenantID * Z * bytes)%type.

Abbreviation bucketKey := (TenantID * Z)%type.

Abbreviation scopeKey := (TenantID * Z * bytes)%type.

Record entry := mkEntry { row : Row; e_seq : Z }.

Record Store := mkStore {
  seq : Z;
  rows : gmap key entry;
  buckets : gmap bucketKey (gmap key entry);
  scopes : gmap scopeKey Z;
  consumed : gmap key time }.

Definition NewWithClock : Store := mkStore 0 ∅ ∅ ∅ ∅.

Definition Ping (ctx : Ctx) : res unit :=
  match ctx with Some err => Err err | None => Ok tt end.

(** [s.buckets[bk]], an empty map when absent. *)
Definition bucket (bk : bucketKey) (s : Store) : gmap key entry := default ∅ (buckets s !! bk).

(** [s.scopes[sk]], zero when absent. *)
Definition count (sk : scopeKey) (s : Store) : Z := default 0 (scopes s !! sk).

Definition insert (k : key) (e : entry) (s : Store) : Store :=
  let sk := (k.1, ScopeHash (row e)) in
  mkStore (seq s) (<[k := e]> (rows s))
    (<[k.1 := <[k := e]> (bucket k.1 s)]> (buckets s))
    (<[sk := count sk s + 1]> (scopes s)) (consumed s).

Definition remove (k : key) (s : Store) : Store :=
  match rows s !! k with
  | None => s
  | Some e =>
      let b := delete k (bucket k.1 s) in
      let sk := (k.1, ScopeHash (row e)) in
      let n := count sk s - 1 in
      mkStore (seq s) (delete k (rows s))
        (if bool_decide (size b = 0%nat) then delete k.1 (buckets s) else <[k.1 := b]> (buckets s))
        (if n <=? 0 then delete sk (scopes s) else <[sk := n]> (scopes s)) (consumed s)
  end.

Definition remove_all (ks : list key) (s : Store) : Store := fold_left (fun s k => remove k s) ks s.

(** Newest first: by creation time, then by insertion number. *)
Definition newer (a b : key * entry) : Prop :=
  CreatedAt (row b.2) < CreatedAt (row a.2) \/
  CreatedAt (row b.2) = CreatedAt (row a.2) /\ e_seq b.2 <= e_seq a.2.

#[export] Instance newer_dec : RelDecision newer.
Proof. intros a b. unfold newer. apply _. Defined.

Definition evict_victims (keep : key) (now : time) (same : entry -> bool) (limit : Z) (s : Store)
  : list (key * entry) :=
  if limit <=? 0 then []
  else
    let others :=
      List.filter (fun '(k, e) => negb (bool_decide (k = keep) || negb (time_After (ExpiresAt (row e)) now)
                                         || negb (same e)))
        (map_to_list (bucket keep.1 s)) in
    if Z.of_nat (length others) <? limit then []
    else drop (Z.to_nat (limit - 1)) (merge_sort newer others).

Definition evict (keep : key) (now : time) (same : entry -> bool) (limit : Z) (s : Store)
  : Store * Z :=
  let victims := evict_victims keep now same limit s in
  (remove_all (victims.*1) s, Z.of_nat (length victims)).

Definition EraseTenant (ctx : Ctx) (t : TenantID) (s : Store) : Store * res unit :=
  match ctx with
  | Some err => (s, Err err)
  | None =>
      let s := remove_all (List.filter (fun k => bool_decide (k.1.1 = t))
                             (map_to_list (rows s)).*1) s in
      (mkStore (seq s) (rows s) (buckets s) (scopes s)
         (filter (fun p => p.1.1.1 <> t) (consumed s)), Ok tt)
  end.

Definition ReapExpired (ctx : Ctx) (clk : time) (s : Store) : Store * res Z :=
  match ctx with
  | Some err => (s, Err err)
  | None =>
      let now := clk in
      let dead := List.filter (fun '(k, e) => negb (time_After (ExpiresAt (row e)) now))
                    (map_to_list (rows s)) in
      let lapsed := filter (fun p => ~ now < p.2) (consumed s) in
      let s := remove_all dead.*1 s in
      (mkStore (seq s) (rows s) (buckets s) (scopes s) (filter (fun p => now < p.2) (consumed s)),
       Ok (Z.of_nat (length dead) + Z.of_nat (size lapsed)))
  end.

(** The entry Put stores: instants kept to the microsecond. *)
Definition stored_row (r : Rec) : Row :=
  mkRow (tenant r) (kind r) (handleHash r) (scopeHash r) (r_Pending r) (payload r) (attempts r)
    (time_Truncate (expiresAt r) Microsecond) (time_Truncate (createdAt r) Microsecond).

Definition Put (ctx : Ctx) (clk : time) (r : Rec) (s : Store) : Store * res Z :=
  match ctx with
  | Some err => (s, Err err)
  | None =>
      match Validate r with
      | Some err => (s, Err err)
      | None =>
          let now := clk in
          let k := (tenant r, kind r, handleHash r) in
          if match rows s !! k with
             | Some old => time_After (ExpiresAt (row old)) now
             | None => false
             end
          then (s, Err ErrConflict)
          else
            let s := remove k s in
            let seq' := u64 (seq s + 1) in
            let s := mkStore seq' (rows s) (buckets s) (scopes s) (consumed s) in
            let s := insert k (mkEntry (stored_row r) seq') s in
            let scope := scopeHash r in
            let limit := MaxLivePerScope (kind r) in
            let '(s, evicted) :=
              if limit <? count (k.1, scope) s
              then evict k now (fun e => bool_decide (ScopeHash (row e) = scope)) limit s
              else (s, 0) in
            let ceiling := MaxLivePerTenant (kind r) in
            let '(s, evicted) :=
              if (0 <? ceiling) && (ceiling <? Z.of_nat (size (bucket k.1 s)))
              then let '(s', n) := evict k now (fun _ => true) ceiling s in (s', evicted + n)
              else (s, evicted) in
            (s, Ok evicted)
      end
  end.

Definition lookupKey (t : TenantID) (k : Kind) (handle : bytes) : res key :=
  if Z.of_nat (length handle) <? HandleHashLen then Err ErrHandleTooShort else Ok (t, k, handle).

Definition live (k : key) (now : time) (s : Store) : option entry :=
  match rows s !! k with
  | None => None
  | Some e => if negb (time_After (ExpiresAt (row e)) now) then None else Some e
  end.

Definition Peek (ctx : Ctx) (clk : time) (t : TenantID) (k : Kind) (handleHash : bytes)
    (s : Store) : res Rec :=
  match ctx with
  | Some err => Err err
  | None =>
      kk ← lookupKey t k handleHash;
      match live kk clk s with
      | None => Err ErrNotFound
      | Some e => Restore (row e)
      end
  end.

Definition Consume (ctx : Ctx) (clk : time) (t : TenantID) (k : Kind) (handleHash : bytes)
    (s : Store) : Store * res Rec :=
  match ctx with
  | Some err => (s, Err err)
  | None =>
      match lookupKey t k handleHash with
      | Err err => (s, Err err)
      | Ok kk =>
          match live kk clk s with
          | None => (s, Err ErrNotFound)
          | Some e => (remove kk s, Restore (row e))
          end
      end
  end.

(** The in-place update of an entry, seen through [rows] and through its bucket. *)
Definition set_entry (k : key) (e : entry) (s : Store) : Store :=
  mkStore (seq s) (<[k := e]> (rows s))
    (<[k.1 := <[k := e]> (bucket k.1 s)]> (buckets s)) (scopes s) (consumed s).

Definition RecordFailure (ctx : Ctx) (clk : time) (t : TenantID) (k : Kind) (handleHash : bytes)
    (s : Store) : Store * res Z :=
  match ctx with
  | Some err => (s, Err err)
  | None =>
      match lookupKey t k handleHash with
      | Err err => (s, Err err)
      | Ok kk =>
          match live kk clk s with
          | None => (s, Err ErrNotFound)
          | Some e =>
              let remaining := MaxAttempts k - Attempts (row e) - 1 in
              if remaining <=? 0 then (remove kk s, Ok 0)
              else (set_entry kk (mkEntry (set_Attempts (Attempts (row e) + 1) (row e)) (e_seq e)) s,
                    Ok remaining)
          end
      end
  end.

Definition MarkConsumed (ctx : Ctx) (clk : time) (t : TenantID) (k : Kind) (handleHash : bytes)
    (until : time) (s : Store) : Store * res bool :=
  match ctx with
  | Some err => (s, Err err)
  | None =>
      if negb (Kind_Valid k) then (s, Err (Join CErrInvalidRecord (New "invalid kind")))
      else if negb (Stateless k) then (s, Err ErrStoredKind)
      else match lookupKey t k handleHash with
      | Err err => (s, Err err)
      | Ok kk =>
          if match consumed s !! kk with Some prev => time_After prev clk | None => false end
          then (s, Ok false)
          else (mkStore (seq s) (rows s) (buckets s) (scopes s)
                  (<[kk := time_Truncate until Microsecond]> (consumed s)), Ok true)
      end
  end.

Definition DeleteForScope (ctx : Ctx) (t : TenantID) (scope : bytes) (kinds : list Kind)
    (s : Store) : Store * res Z :=
  match ctx with
  | Some err => (s, Err err)
  | None =>
      if Z.of_nat (length scope) =? 0 then (s, Ok 0)
      else
        let ks := List.filter (fun '(k, e) =>
            negb (negb (bool_decide (k.1.1 = t)) || negb (bool_decide (ScopeHash (row e) = scope)))
            && negb ((0 <? Z.of_nat (length kinds)) && negb (k_in k.1.2 kinds)))
          (map_to_list (rows s)) in
        (remove_all ks.*1 s, Ok (Z.of_nat (length ks)))
  end.

End CeremonyMemory.
