(* ===== verification/CeremonyStoreFacts.v ===== *)
(** The ceremony store's invariant and the helpers its operations are made of. *)
From S2P Require Import Prelude Errors Tenant Factor Attrs Pending Codec StoreBase.
From S2P Require Import CeremonyKind CeremonyStore.
Import Ceremony_ CeremonyRec CeremonyMemory.

(** What a stored row satisfies: the checks of checkRow, except that an expiry less than a
    microsecond after creation is stored as equal to it. *)
Definition stored_ok (r : Row) : Prop :=
  Kind_Valid (RKind r) = true /\ Stateless (RKind r) = false /\
  HandleHashLen <= Z.of_nat (length (HandleHash r)) <= MaxHandleHashLen /\
  scopeHashFits (Scope_of (RKind r)) (ScopeHash r) = true /\
  Z.of_nat (length (RPending r)) <> 0 /\ Z.of_nat (length (Payload r)) <= MaxPayloadLen /\
  0 <= Attempts r < MaxAttempts (RKind r) /\
  CreatedAt r <= ExpiresAt r <= CreatedAt r + TTL (RKind r).

Definition in_bucket (bk : bucketKey) (p : key * entry) : Prop := p.1.1 = bk.

Definition in_scope (sk : scopeKey) (p : key * entry) : Prop :=
  p.1.1 = sk.1 /\ ScopeHash (row p.2) = sk.2.

#[export] Instance in_bucket_dec bk p : Decision (in_bucket bk p).
Proof. unfold in_bucket. apply _. Defined.

#[export] Instance in_scope_dec sk p : Decision (in_scope sk p).
Proof. unfold in_scope. apply _. Defined.

Lemma in_scope_iff sk k e : in_scope sk (k, e) <-> sk = (k.1, ScopeHash (row e)).
Proof. unfold in_scope. destruct sk. simpl. split; [intros [-> ->]|intros [= -> ->]]; done. Qed.

Record store_inv (s : Store) : Prop := {
  ci_row : forall k e, rows s !! k = Some e ->
      (RTenant (row e), RKind (row e), HandleHash (row e)) = k /\ stored_ok (row e);
  ci_bucket : forall bk, bucket bk s = filter (in_bucket bk) (rows s);
  ci_count : forall sk, count sk s = Z.of_nat (size (filter (in_scope sk) (rows s)));
  ci_seq : forall k e, rows s !! k = Some e -> 0 < e_seq e <= seq s;
  ci_order : forall k e k' e', rows s !! k = Some e -> rows s !! k' = Some e' ->
      e_seq e = e_seq e' -> k = k';
  ci_range : 0 <= seq s < two64 }.

Lemma ceremony_empty_inv : store_inv NewWithClock.
Proof.
  split; simpl; try (intros; by rewrite lookup_empty in * ); [| |unfold two64; lia].
  - intros bk. unfold bucket. simpl. by rewrite lookup_empty, map_filter_empty.
  - intros sk. unfold count. simpl. by rewrite lookup_empty, map_filter_empty.
Qed.

(** ** Counting *)
Lemma size_filter_insert (P : key * entry -> Prop) `{!forall p, Decision (P p)}
    (m : gmap key entry) k e :
  m !! k = None ->
  Z.of_nat (size (filter P (<[k := e]> m)))
  = Z.of_nat (size (filter P m)) + if decide (P (k, e)) then 1 else 0.
Proof.
  intros Hk. destruct (decide (P (k, e))) as [Hp|Hp].
  - rewrite map_filter_insert_True by done. rewrite map_size_insert_None; [lia|].
    apply map_lookup_filter_None. by left.
  - rewrite map_filter_insert_False by done. rewrite delete_id by done. lia.
Qed.

Lemma size_filter_delete (P : key * entry -> Prop) `{!forall p, Decision (P p)}
    (m : gmap key entry) k e :
  m !! k = Some e ->
  Z.of_nat (size (filter P (delete k m)))
  = Z.of_nat (size (filter P m)) - if decide (P (k, e)) then 1 else 0.
Proof.
  intros Hk. rewrite <- (insert_delete_id m k e) at 2 by done.
  rewrite size_filter_insert by apply lookup_delete_eq. lia.
Qed.

Lemma count_insert sk n s sk' rs bs c q :
  count sk' (mkStore q rs bs (<[sk := n]> (scopes s)) c) = if decide (sk' = sk) then n else count sk' s.
Proof.
  unfold count. simpl. case_decide; [subst; by rewrite lookup_insert_eq|].
  by rewrite lookup_insert_ne.
Qed.

(** ** Insertion *)
Lemma bucket_insert bk b s bk' rs sc c q :
  bucket bk' (mkStore q rs (<[bk := b]> (buckets s)) sc c) = if decide (bk' = bk) then b else bucket bk' s.
Proof.
  unfold bucket. simpl. case_decide; [subst; by rewrite lookup_insert_eq|].
  by rewrite lookup_insert_ne.
Qed.

Lemma filter_bucket_insert (bk : bucketKey) (k : key) (e : entry) (m : gmap key entry) :
  (m !! k = None \/ k.1 = bk) ->
  filter (in_bucket bk) (<[k := e]> m) =
  if decide (bk = k.1) then <[k := e]> (filter (in_bucket bk) m) else filter (in_bucket bk) m.
Proof.
  intros Hor. case_decide as E.
  - by rewrite map_filter_insert_True by (symmetry; exact E).
  - destruct Hor as [Hk|Hk]; [|congruence].
    rewrite map_filter_insert_False by (intros H; apply E; symmetry; exact H). by rewrite delete_id.
Qed.

Lemma ceremony_insert_inv k e s :
  store_inv s -> rows s !! k = None ->
  (RTenant (row e), RKind (row e), HandleHash (row e)) = k -> stored_ok (row e) ->
  0 < e_seq e <= seq s -> (forall k' e', rows s !! k' = Some e' -> e_seq e' <> e_seq e) ->
  store_inv (insert k e s).
Proof.
  intros Hs Hk Hkey Hok Hq Hnew. split; unfold insert; cbn [rows seq]; [..|apply Hs].
  - intros k' e' [[<- <-]|[_ ?]]%lookup_insert_Some; [done|]. by apply (ci_row s Hs).
  - intros bk. rewrite bucket_insert.
    rewrite filter_bucket_insert by (by left). rewrite (ci_bucket s Hs k.1).
    case_decide; [by subst|apply (ci_bucket s Hs)].
  - intros sk. rewrite count_insert.
    rewrite size_filter_insert by done. rewrite !(ci_count s Hs). pose proof (in_scope_iff sk k e).
    destruct (decide (sk = (k.1, ScopeHash (row e)))) as [->|], (decide (in_scope _ (k, e)));
      tauto || lia.
  - intros k' e' [[<- <-]|[_ ?]]%lookup_insert_Some; [done|]. by apply (ci_seq s Hs) with k'.
  - intros k1 e1 k2 e2 [[<- <-]|[_ H1]]%lookup_insert_Some [[<- <-]|[_ H2]]%lookup_insert_Some E.
    + done.
    + by destruct (Hnew _ _ H2).
    + by destruct (Hnew _ _ H1).
    + by apply (ci_order s Hs k1 e1 k2 e2).
Qed.

(** ** Removal *)
Lemma rows_remove k s : rows (remove k s) = delete k (rows s).
Proof. unfold remove. destruct (rows s !! k) eqn:E; [done|]. by rewrite delete_id. Qed.

Lemma remove_same k s : seq (remove k s) = seq s /\ consumed (remove k s) = consumed s.
Proof. unfold remove. by destruct (rows s !! k). Qed.

Lemma bucket_remove k e s bk :
  rows s !! k = Some e ->
  bucket bk (remove k s) = if decide (bk = k.1) then delete k (bucket bk s) else bucket bk s.
Proof.
  intros Hk. unfold bucket at 1, remove. rewrite Hk. simpl.
  destruct (bool_decide_reflect (size (delete k (bucket k.1 s)) = 0%nat)) as [E|E]; case_decide as Eb.
  - subst bk. rewrite lookup_delete_eq. simpl. by apply map_size_empty_inv in E as ->.
  - by rewrite lookup_delete_ne.
  - subst bk. by rewrite lookup_insert_eq.
  - by rewrite lookup_insert_ne.
Qed.

Lemma count_remove k e s sk :
  store_inv s -> rows s !! k = Some e ->
  count sk (remove k s) = count sk s - if decide (in_scope sk (k, e)) then 1 else 0.
Proof.
  intros Hs Hk. unfold count at 1, remove. rewrite Hk. cbn [scopes].
  set (sk0 := (k.1, ScopeHash (row e))).
  pose proof (in_scope_iff sk k e) as Hsk. fold sk0 in Hsk.
  assert (0 < count sk0 s) as Hpos.
  { rewrite (ci_count s Hs).
    assert (filter (in_scope sk0) (rows s) !! k = Some e) as Hf
      by (apply map_lookup_filter_Some; done).
    pose proof (map_size_ne_0_lookup_2 _ k (mk_is_Some _ _ Hf)). lia. }
  destruct (decide (sk = sk0)) as [->|Hne].
  - rewrite (decide_True _ _ (proj2 Hsk eq_refl)).
    destruct (Z.leb_spec (count sk0 s - 1) 0).
    + rewrite lookup_delete_eq. simpl. lia.
    + by rewrite lookup_insert_eq.
  - rewrite decide_False by (by rewrite Hsk). rewrite Z.sub_0_r. unfold count.
    case_match; [by rewrite lookup_delete_ne|by rewrite lookup_insert_ne].
Qed.

Lemma remove_inv k s : store_inv s -> store_inv (remove k s).
Proof.
  intros Hs. destruct (rows s !! k) as [e|] eqn:Hk; [|by unfold remove; rewrite Hk].
  destruct (remove_same k s) as [Eq _]. split; rewrite ?rows_remove, ?Eq; [..|apply Hs].
  - intros k' e' [_ ?]%lookup_delete_Some. by apply (ci_row s Hs).
  - intros bk. rewrite (bucket_remove k e), map_filter_delete, (ci_bucket s Hs) by done.
    case_decide as E; [done|]. symmetry. apply delete_id. apply map_lookup_filter_None. right.
    intros x _ H. apply E. symmetry. exact H.
  - intros sk. rewrite (count_remove k e), (size_filter_delete _ _ k e), (ci_count s Hs) by done. done.
  - intros k' e' [_ ?]%lookup_delete_Some. by apply (ci_seq s Hs) with k'.
  - intros k1 e1 k2 e2 [_ H1]%lookup_delete_Some [_ H2]%lookup_delete_Some.
    by apply (ci_order s Hs k1 e1 k2 e2).
Qed.

Lemma remove_all_inv ks s : store_inv s -> store_inv (remove_all ks s).
Proof. unfold remove_all. revert s. induction ks; intros; simpl; auto using remove_inv. Qed.

Lemma remove_all_same ks s : seq (remove_all ks s) = seq s /\ consumed (remove_all ks s) = consumed s.
Proof.
  unfold remove_all. revert s. induction ks as [|k ks IH]; intros s; [done|]. simpl.
  destruct (IH (remove k s)) as [-> ->]. apply remove_same.
Qed.

Lemma rows_remove_all ks s k :
  rows (remove_all ks s) !! k = if decide (k ∈ ks) then None else rows s !! k.
Proof.
  unfold remove_all. revert s. induction ks as [|k0 ks IH]; intros s; simpl.
  - by destruct (decide (k ∈ [])) as [?%not_elem_of_nil|].
  - rewrite IH, rows_remove. destruct (decide (k ∈ ks)).
    + by rewrite decide_True by set_solver.
    + destruct (decide (k = k0)) as [->|].
      * rewrite decide_True by set_solver. apply lookup_delete_eq.
      * rewrite decide_False by set_solver. by rewrite lookup_delete_ne.
Qed.

(** ** In-place update *)
Lemma set_entry_inv k e e' s :
  store_inv s -> rows s !! k = Some e -> stored_ok (row e') -> e_seq e' = e_seq e ->
  RTenant (row e') = RTenant (row e) -> RKind (row e') = RKind (row e) ->
  HandleHash (row e') = HandleHash (row e) -> ScopeHash (row e') = ScopeHash (row e) ->
  store_inv (set_entry k e' s).
Proof.
  intros Hs Hk Hok Eq E1 E2 E3 E4. split; unfold set_entry; cbn [rows seq]; [..|apply Hs].
  - intros k' x [[<- <-]|[_ ?]]%lookup_insert_Some; [|by apply (ci_row s Hs)].
    rewrite E1, E2, E3. split; [by apply (ci_row s Hs)|done].
  - intros bk. rewrite bucket_insert. case_decide as E.
    + subst bk. rewrite (ci_bucket s Hs), filter_bucket_insert by (by right). by rewrite decide_True.
    + rewrite (ci_bucket s Hs). symmetry. rewrite map_filter_insert_False
        by (intros H; apply E; symmetry; exact H).
      rewrite map_filter_delete. apply delete_id. apply map_lookup_filter_None. right.
      intros x _ H. apply E. symmetry. exact H.
  - intros sk. change (count sk (mkStore _ _ _ (scopes s) _)) with (count sk s).
    rewrite (ci_count s Hs).
    rewrite <- (insert_delete_id (rows s) k e) at 1 by done.
    rewrite <- (insert_delete_eq (rows s) k e').
    rewrite !size_filter_insert by apply lookup_delete_eq.
    assert (in_scope sk (k, e') <-> in_scope sk (k, e)) by (unfold in_scope; simpl; by rewrite E4).
    destruct (decide (in_scope sk (k, e'))), (decide (in_scope sk (k, e))); tauto || lia.
  - intros k' x [[<- <-]|[_ ?]]%lookup_insert_Some.
    + rewrite Eq. by apply (ci_seq s Hs) with k.
    + by apply (ci_seq s Hs) with k'.
  - intros k1 x1 k2 x2 [[<- <-]|[_ H1]]%lookup_insert_Some [[<- <-]|[_ H2]]%lookup_insert_Some E;
      [done|..|by apply (ci_order s Hs k1 x1 k2 x2)].
    + apply (ci_order s Hs k e k2 x2); [done|done|congruence].
    + apply (ci_order s Hs k1 x1 k e); [done|done|congruence].
Qed.

(** ** Eviction *)
Definition cand (keep : key) (now : time) (same : entry -> bool) (p : key * entry) : Prop :=
  p.1.1 = keep.1 /\ p.1 <> keep /\ now < ExpiresAt (row p.2) /\ same p.2 = true.

#[export] Instance newer_total : Total newer.
Proof. intros a b. unfold newer. lia. Qed.

#[export] Instance newer_trans : Transitive newer.
Proof. intros a b c. unfold newer. lia. Qed.

Section evict.
Context (keep : key) (now : time) (same : entry -> bool) (limit : Z) (s : Store).
Context (Hs : store_inv s) (Hlimit : 0 < limit).

Let others : list (key * entry) :=
  List.filter (fun '(k, e) => negb (bool_decide (k = keep) || negb (time_After (ExpiresAt (row e)) now)
                                     || negb (same e)))
    (map_to_list (bucket keep.1 s)).

Lemma elem_of_others k e :
  (k, e) ∈ others <-> rows s !! k = Some e /\ cand keep now same (k, e).
Proof.
  unfold others, cand. rewrite list_elem_of_In, filter_In, <- list_elem_of_In, elem_of_map_to_list.
  rewrite (ci_bucket s Hs), map_lookup_filter_Some. unfold in_bucket, time_After. simpl.
  rewrite negb_true_iff, !orb_false_iff, !negb_false_iff, bool_decide_eq_false, Z.ltb_lt. tauto.
Qed.

Lemma NoDup_others : NoDup others.
Proof.
  unfold others. apply NoDup_ListNoDup, List.NoDup_filter, NoDup_ListNoDup, NoDup_map_to_list.
Qed.

(** The candidates eviction spares. *)
Definition survivors : list (key * entry) :=
  if Z.of_nat (length others) <? limit then others
  else take (Z.to_nat (limit - 1)) (merge_sort newer others).

Lemma evict_victims_eq :
  evict_victims keep now same limit s =
  if Z.of_nat (length others) <? limit then []
  else drop (Z.to_nat (limit - 1)) (merge_sort newer others).
Proof.
  unfold evict_victims. rewrite (proj2 (Z.leb_gt _ _) Hlimit). done.
Qed.

Lemma survivors_victims :
  survivors ++ evict_victims keep now same limit s ≡ₚ others.
Proof.
  rewrite evict_victims_eq. unfold survivors. case_match; [by rewrite app_nil_r|].
  rewrite take_drop. apply merge_sort_Permutation.
Qed.

Lemma length_survivors : Z.of_nat (length survivors) <= limit - 1.
Proof. unfold survivors. case_match; bools; [lia|]. rewrite length_take. lia. Qed.

Lemma NoDup_victims_keys : NoDup (evict_victims keep now same limit s).*1.
Proof.
  assert (NoDup others.*1) as H.
  { apply NoDup_fmap_fst; [|apply NoDup_others].
    intros k e1 e2 [H1 _]%elem_of_others [H2 _]%elem_of_others. congruence. }
  rewrite <- survivors_victims, fmap_app in H. by apply NoDup_app in H as (_ & _ & ?).
Qed.

Lemma victim_cand k : k ∈ (evict_victims keep now same limit s).*1 ->
  exists e, rows s !! k = Some e /\ cand keep now same (k, e).
Proof.
  intros ([k' e] & -> & Hin)%list_elem_of_fmap. exists e. apply elem_of_others.
  rewrite <- survivors_victims. set_solver.
Qed.

Lemma survivor_elem k e :
  rows (evict keep now same limit s).1 !! k = Some e -> cand keep now same (k, e) ->
  (k, e) ∈ survivors.
Proof.
  unfold evict. simpl. rewrite rows_remove_all. case_decide as Hv; [done|]. intros Hk Hc.
  assert ((k, e) ∈ others) as Ho by (by apply elem_of_others).
  rewrite <- survivors_victims in Ho. apply elem_of_app in Ho as [?|Ho]; [done|].
  destruct Hv. apply list_elem_of_fmap. by exists (k, e).
Qed.

(** Eviction takes the oldest: every survivor is newer than every victim. *)
Lemma survivors_newer p v :
  p ∈ survivors -> v ∈ evict_victims keep now same limit s -> newer p v.
Proof.
  rewrite evict_victims_eq. unfold survivors. case_match; [by intros _ ?%not_elem_of_nil|].
  intros Hp Hv.
  assert (StronglySorted newer (merge_sort newer others)) as Hsort.
  { apply Sorted_StronglySorted; [apply _|]. apply Sorted_merge_sort. apply _. }
  rewrite <- (take_drop (Z.to_nat (limit - 1)) (merge_sort newer others)) in Hsort.
  apply StronglySorted_app in Hsort as [Hsort _]. by apply Hsort.
Qed.

Lemma evict_inv : store_inv (evict keep now same limit s).1.
Proof. by apply remove_all_inv. Qed.

Lemma evict_keeps : rows (evict keep now same limit s).1 !! keep = rows s !! keep.
Proof.
  unfold evict. simpl. rewrite rows_remove_all, decide_False; [done|].
  intros (e & _ & _ & Hne & _)%victim_cand. done.
Qed.
End evict.

(** ** Put *)
Definition scope_live (sk : scopeKey) (now : time) (p : key * entry) : Prop :=
  in_scope sk p /\ now < ExpiresAt (row p.2).

#[export] Instance scope_live_dec sk now p : Decision (scope_live sk now p).
Proof. unfold scope_live. apply _. Defined.

Lemma size_list_bound (m : gmap key entry) (P : key * entry -> Prop) `{!forall p, Decision (P p)}
    (l : list (key * entry)) :
  (forall k e, m !! k = Some e -> P (k, e) -> (k, e) ∈ l) ->
  Z.of_nat (size (filter P m)) <= Z.of_nat (length l).
Proof.
  intros Hin. rewrite <- length_map_to_list. apply inj_le. apply submseteq_length.
  apply NoDup_submseteq; [apply NoDup_map_to_list|]. intros [k e].
  rewrite elem_of_map_to_list, map_lookup_filter_Some. naive_solver.
Qed.

(** Evicting a scope leaves at most [limit] of its live rows, the kept one included. *)
Lemma evict_scope_cap keep ek now limit s :
  store_inv s -> 0 < limit -> rows s !! keep = Some ek ->
  let sk := (keep.1, ScopeHash (row ek)) in
  let same e := bool_decide (ScopeHash (row e) = ScopeHash (row ek)) in
  Z.of_nat (size (filter (scope_live sk now) (rows (evict keep now same limit s).1))) <= limit.
Proof.
  intros Hs Hl Hk sk same.
  pose proof (length_survivors keep now same limit s) as Hlen.
  etrans; [apply (size_list_bound _ _ ((keep, ek) :: survivors keep now same limit s))|simpl; lia].
  intros k e Hke [[E1 E2] Hlive]. simpl in E1, E2, Hlive. destruct (decide (k = keep)) as [->|Hne].
  - rewrite evict_keeps in Hke by done. simplify_eq. by left.
  - right. apply survivor_elem; [done..|]. split_and!; [done|done|done|].
    unfold same. by apply bool_decide_eq_true.
Qed.

Lemma evict_mono keep now same limit s sk t :
  store_inv s -> 0 < limit ->
  (size (filter (scope_live sk t) (rows (evict keep now same limit s).1))
   <= size (filter (scope_live sk t) (rows s)))%nat.
Proof.
  intros Hs Hl. apply map_subseteq_size, map_filter_subseteq_mono.
  apply map_subseteq_spec. intros k e. unfold evict. simpl. rewrite rows_remove_all.
  by case_decide.
Qed.

(** ** Runs of the ceremony store: Put and its caps, the single use of a record, and the states the
    operations reach. *)

Lemma time_Truncate_add t x : x mod Microsecond = 0 ->
  time_Truncate (t + x) Microsecond = time_Truncate t Microsecond + x.
Proof.
  intros Hx. unfold time_Truncate. simpl. rewrite <- Zplus_mod_idemp_r, Hx, Z.add_0_r. lia.
Qed.

Lemma Validate_None r :
  Validate r = None <->
  r_Pending r = pending r /\
  checkRow (mkRow (tenant r) (kind r) (handleHash r) (scopeHash r) (r_Pending r) (payload r)
              (attempts r) (expiresAt r) (createdAt r)) = None.
Proof. unfold Validate. case_bool_decide; simpl; naive_solver. Qed.

Lemma stored_row_ok r : Validate r = None -> stored_ok (stored_row r).
Proof.
  intros [_ H]%Validate_None. apply checkRow_None in H. simpl in H. destruct_and!.
  destruct (TTL_microseconds (kind r)) as [_ Hu]; [done|].
  unfold stored_ok, stored_row. simpl.
  pose proof (time_Truncate_mono (createdAt r) (expiresAt r) Microsecond).
  pose proof (time_Truncate_mono (expiresAt r) (createdAt r + TTL (kind r)) Microsecond) as Hm.
  rewrite time_Truncate_add in Hm by done. split_and!; done || lia.
Qed.

(** ** Rows only shrink *)

(** [rows_le s s']: every row of [s'] is a row of [s], up to its attempts. *)
Definition rows_le (s s' : Store) : Prop :=
  forall k e', rows s' !! k = Some e' -> exists e, rows s !! k = Some e /\
    ExpiresAt (row e') = ExpiresAt (row e) /\ ScopeHash (row e') = ScopeHash (row e).

Lemma rows_le_refl s : rows_le s s.
Proof. intros k e ?. by exists e. Qed.

Lemma rows_le_subseteq s s' : rows s' ⊆ rows s -> rows_le s s'.
Proof. intros H k e He. exists e. split; [|done]. by eapply lookup_weaken. Qed.

Lemma rows_le_remove_all ks s : rows_le s (remove_all ks s).
Proof.
  intros k e. rewrite rows_remove_all. case_decide; [done|]. intros. by exists e.
Qed.

Lemma size_filter_dom (P Q : key * entry -> Prop) `{!forall p, Decision (P p)} `{!forall p, Decision (Q p)}
    (m m' : gmap key entry) :
  (forall k e', m' !! k = Some e' -> Q (k, e') -> exists e, m !! k = Some e /\ P (k, e)) ->
  (size (filter Q m') <= size (filter P m))%nat.
Proof.
  intros Hin. rewrite <- !size_dom. apply subseteq_size. intros k.
  rewrite !elem_of_dom. intros [e' [He Hq]%map_lookup_filter_Some].
  destruct (Hin _ _ He Hq) as (e & ? & ?). exists e. by apply map_lookup_filter_Some.
Qed.

(** The cap: at every instant from [t] on, no scope has more live rows than its kind allows. *)
Definition capped (t : time) (s : Store) : Prop :=
  forall sk now, t <= now ->
    Z.of_nat (size (filter (scope_live sk now) (rows s))) <= Z.max 0 (MaxLivePerScope sk.1.2).

Lemma capped_le t t' s s' : capped t s -> t <= t' -> rows_le s s' -> capped t' s'.
Proof.
  intros Hc Ht Hle sk now Hnow.
  etrans; [|apply (Hc sk now); lia]. apply inj_le, size_filter_dom.
  intros k e' (e & He & E1 & E2)%Hle [[H1 H2] H3]. simpl in *. exists e. split; [done|].
  unfold scope_live, in_scope. simpl. by rewrite <- E1, <- E2.
Qed.

Lemma capped_empty t : capped t NewWithClock.
Proof. intros sk now _. simpl. rewrite map_filter_empty, map_size_empty. lia. Qed.

(** ** Put, step by step *)
Definition put_key (r : Rec) : key := (tenant r, kind r, handleHash r).

Definition put_insert (r : Rec) (s : Store) : Store :=
  let s := remove (put_key r) s in
  let seq' := u64 (seq s + 1) in
  insert (put_key r) (mkEntry (stored_row r) seq')
    (mkStore seq' (rows s) (buckets s) (scopes s) (consumed s)).

Definition same_scope (r : Rec) (e : entry) : bool := bool_decide (ScopeHash (row e) = scopeHash r).

Definition put_scope (r : Rec) (now : time) (s : Store) : Store * Z :=
  if MaxLivePerScope (kind r) <? count ((put_key r).1, scopeHash r) s
  then evict (put_key r) now (same_scope r) (MaxLivePerScope (kind r)) s else (s, 0).

Definition put_tenant (r : Rec) (now : time) (p : Store * Z) : Store * Z :=
  let '(s, evicted) := p in
  let ceiling := MaxLivePerTenant (kind r) in
  if (0 <? ceiling) && (ceiling <? Z.of_nat (size (bucket (put_key r).1 s)))
  then let '(s', n) := evict (put_key r) now (fun _ => true) ceiling s in (s', evicted + n)
  else (s, evicted).

Lemma Put_steps clk r s :
  Validate r = None ->
  Put None clk r s =
  match rows s !! put_key r with
  | Some old => if time_After (ExpiresAt (row old)) clk then (s, Err ErrConflict)
                else let p := put_tenant r clk (put_scope r clk (put_insert r s)) in (p.1, Ok p.2)
  | None => let p := put_tenant r clk (put_scope r clk (put_insert r s)) in (p.1, Ok p.2)
  end.
Proof.
  intros Hv. unfold Put. rewrite Hv. unfold put_tenant, put_scope, put_insert, put_key, same_scope.
  cbv zeta. destruct (rows s !! _) as [old|]; [destruct (time_After _ _); [done|]|];
    destruct (if _ <? count _ _ then _ else _) as [s1 n1]; cbv beta iota;
    destruct (_ && _); [destruct (evict _ _ _ _ s1)| |destruct (evict _ _ _ _ s1)|]; done.
Qed.

Lemma put_insert_row r s :
  rows (put_insert r s) =
  <[put_key r := mkEntry (stored_row r) (u64 (seq s + 1))]> (delete (put_key r) (rows s)).
Proof.
  unfold put_insert, insert. cbn [rows]. rewrite rows_remove.
  by destruct (remove_same (put_key r) s) as [-> _].
Qed.

Lemma put_insert_inv r s :
  store_inv s -> seq s < two64 - 1 -> Validate r = None -> store_inv (put_insert r s).
Proof.
  intros Hs Hq Hv. unfold put_insert. pose proof (remove_inv (put_key r) s Hs) as Hr.
  destruct (remove_same (put_key r) s) as [Eq _]. rewrite Eq.
  pose proof (ci_range s Hs). rewrite u64_small by (unfold is_u64; lia).
  pose proof (stored_row_ok r Hv) as Hok.
  apply ceremony_insert_inv; cbn [rows seq e_seq row]; [|by rewrite rows_remove, lookup_delete_eq|done|done|lia|].
  - destruct Hr as [H1 H2 H3 H4 H5 H6]. split; cbn [rows seq]; [exact H1|exact H2|exact H3| |exact H5|lia].
    intros k e He. specialize (H4 _ _ He). lia.
  - intros k e He. apply (ci_seq _ Hr) in He. lia.
Qed.

Lemma put_scope_inv r now s : store_inv s -> store_inv (put_scope r now s).1.
Proof. intros Hs. unfold put_scope. case_match; [|done]. by apply remove_all_inv. Qed.

Lemma put_tenant_eq r now s n :
  put_tenant r now (s, n) =
  if (0 <? MaxLivePerTenant (kind r)) && (MaxLivePerTenant (kind r) <? Z.of_nat (size (bucket (put_key r).1 s)))
  then ((evict (put_key r) now (fun _ => true) (MaxLivePerTenant (kind r)) s).1,
        n + (evict (put_key r) now (fun _ => true) (MaxLivePerTenant (kind r)) s).2)
  else (s, n).
Proof. unfold put_tenant. case_match; [|done]. by destruct (evict _ _ _ _ _). Qed.

Lemma put_tenant_inv r now p : store_inv p.1 -> store_inv (put_tenant r now p).1.
Proof.
  destruct p as [s n]. intros Hs. rewrite put_tenant_eq. case_match; [|done]. by apply remove_all_inv.
Qed.

Lemma Put_inv ctx clk r s : store_inv s -> seq s < two64 - 1 -> store_inv (Put ctx clk r s).1.
Proof.
  intros Hs Hq. destruct ctx; [done|].
  destruct (Validate r) eqn:Hv; [unfold Put; by rewrite Hv|]. rewrite Put_steps by done.
  pose proof (put_tenant_inv r clk _ (put_scope_inv r clk _ (put_insert_inv r s Hs Hq Hv))) as H.
  destruct (rows s !! put_key r); [case_match; done|done].
Qed.

(** ** What Put leaves *)
Lemma rows_evict keep now same limit s k e :
  rows (evict keep now same limit s).1 !! k = Some e -> rows s !! k = Some e.
Proof. unfold evict. simpl. rewrite rows_remove_all. by case_decide. Qed.

Lemma put_scope_le r now s k e : rows (put_scope r now s).1 !! k = Some e -> rows s !! k = Some e.
Proof. unfold put_scope. case_match; [apply rows_evict|done]. Qed.

Lemma put_tenant_le r now p k e : rows (put_tenant r now p).1 !! k = Some e -> rows p.1 !! k = Some e.
Proof.
  destruct p as [s n]. rewrite put_tenant_eq. case_match; [apply rows_evict|done].
Qed.

(** The store after a successful Put. *)
Definition put_result (r : Rec) (now : time) (s : Store) : Store * Z :=
  put_tenant r now (put_scope r now (put_insert r s)).

Lemma put_valid_limit r : Validate r = None -> 0 < MaxLivePerScope (kind r).
Proof.
  intros [_ H]%Validate_None. apply checkRow_None in H. simpl in H. destruct_and!.
  by apply MaxLivePerScope_pos.
Qed.

Lemma put_result_row r now s :
  store_inv s -> seq s < two64 - 1 -> Validate r = None ->
  rows (put_result r now s).1 !! put_key r = Some (mkEntry (stored_row r) (u64 (seq s + 1))).
Proof.
  intros Hs Hq Hv. pose proof (put_insert_inv r s Hs Hq Hv) as H1.
  assert (rows (put_insert r s) !! put_key r = Some (mkEntry (stored_row r) (u64 (seq s + 1)))) as E1
    by (rewrite put_insert_row; apply lookup_insert_eq).
  pose proof (put_scope_inv r now _ H1) as H2.
  assert (rows (put_scope r now (put_insert r s)).1 !! put_key r =
    Some (mkEntry (stored_row r) (u64 (seq s + 1)))) as E2.
  { unfold put_scope. case_match; [|done]. rewrite evict_keeps; [done|done|by apply put_valid_limit]. }
  unfold put_result. destruct (put_scope _ _ _) as [s2 n2]. rewrite put_tenant_eq.
  case_match eqn:E; [|done]. apply andb_true_iff in E as [?%Z.ltb_lt _]. simpl in *.
  change (rows (evict (put_key r) now (fun _ => true) (MaxLivePerTenant (kind r)) s2).1 !! put_key r
          = Some (mkEntry (stored_row r) (u64 (seq s + 1)))).
  by rewrite evict_keeps.
Qed.

(** Other scopes only lose rows: to the tenant ceiling, or to the expired row under the same key. *)
Lemma put_result_le r now s k e :
  rows (put_result r now s).1 !! k = Some e -> k <> put_key r -> rows s !! k = Some e.
Proof.
  intros H%put_tenant_le%put_scope_le Hne. rewrite put_insert_row in H.
  by rewrite lookup_insert_ne, lookup_delete_ne in H.
Qed.

Lemma put_capped r now t s :
  store_inv s -> seq s < two64 - 1 -> Validate r = None -> capped t s -> t <= now ->
  capped now (put_result r now s).1.
Proof.
  intros Hs Hq Hv Hc Ht sk now' Hnow. set (s1 := put_insert r s).
  pose proof (put_insert_inv r s Hs Hq Hv) as H1. fold s1 in H1.
  set (e1 := mkEntry (stored_row r) (u64 (seq s + 1))).
  assert (rows s1 !! put_key r = Some e1) as E1
    by (unfold s1; rewrite put_insert_row; apply lookup_insert_eq).
  destruct (decide (sk = ((put_key r).1, scopeHash r))) as [->|Hne].
  - pose proof (put_valid_limit r Hv) as Hlim. cbn [fst snd put_key].
    transitivity (Z.of_nat (size (filter (scope_live ((put_key r).1, scopeHash r) now)
                                    (rows (put_scope r now s1).1)))).
    + apply inj_le, size_filter_dom. intros k e He%put_tenant_le [H2 H3]. exists e. split; [done|].
      split; [done|]. simpl in *. lia.
    + unfold put_scope. case_match eqn:Ec; bools.
      * etrans; [|apply Z.le_max_r].
        apply (evict_scope_cap (put_key r) e1 now (MaxLivePerScope (kind r)) s1 H1 Hlim E1).
      * cbn [fst]. rewrite (ci_count s1 H1) in Ec. etrans; [|apply Z.le_max_r].
        etrans; [|exact Ec]. apply inj_le, size_filter_dom. intros k e He [? _]. by exists e.
  - etrans; [|apply (Hc sk now'); lia]. apply inj_le, size_filter_dom.
    intros k e He Hp. exists e. split; [|done]. apply (put_result_le r now); [done|].
    intros ->. apply put_tenant_le, put_scope_le in He. fold s1 in He.
    rewrite E1 in He. injection He as <-. destruct Hp as [Hin _].
    apply in_scope_iff in Hin. done.
Qed.

(** ** Runs *)
Inductive op :=
  | OpPut (ctx : Ctx) (clk : time) (r : Rec)
  | OpConsume (ctx : Ctx) (clk : time) (t : TenantID) (k : Z) (h : bytes)
  | OpRecordFailure (ctx : Ctx) (clk : time) (t : TenantID) (k : Z) (h : bytes)
  | OpMarkConsumed (ctx : Ctx) (clk : time) (t : TenantID) (k : Z) (h : bytes) (until : time)
  | OpDeleteForScope (ctx : Ctx) (clk : time) (t : TenantID) (scope : bytes) (kinds : list Z)
  | OpEraseTenant (ctx : Ctx) (clk : time) (t : TenantID)
  | OpReapExpired (ctx : Ctx) (clk : time).

(** The instant of an operation; those that read no clock are labelled with one. *)
Definition op_clk (o : op) : time :=
  match o with
  | OpPut _ clk _ | OpConsume _ clk _ _ _ | OpRecordFailure _ clk _ _ _
  | OpMarkConsumed _ clk _ _ _ _ | OpDeleteForScope _ clk _ _ _ | OpEraseTenant _ clk _
  | OpReapExpired _ clk => clk
  end.

Definition exec (o : op) (s : Store) : Store :=
  match o with
  | OpPut ctx clk r => (Put ctx clk r s).1
  | OpConsume ctx clk t k h => (Consume ctx clk t k h s).1
  | OpRecordFailure ctx clk t k h => (RecordFailure ctx clk t k h s).1
  | OpMarkConsumed ctx clk t k h until => (MarkConsumed ctx clk t k h until s).1
  | OpDeleteForScope ctx _ t scope kinds => (DeleteForScope ctx t scope kinds s).1
  | OpEraseTenant ctx _ t => (EraseTenant ctx t s).1
  | OpReapExpired ctx clk => (ReapExpired ctx clk s).1
  end.

(** [reachable t s]: operations whose clock never goes back, the last one at [t], led to [s], and
    fewer than 2^64 records were put. *)
Inductive reachable : time -> Store -> Prop :=
  | ceremony_reachable_start t : reachable t NewWithClock
  | ceremony_reachable_step t s o : reachable t s -> t <= op_clk o -> seq s < two64 - 1 ->
      reachable (op_clk o) (exec o s).

Lemma live_Some k now s e : live k now s = Some e <-> rows s !! k = Some e /\ now < ExpiresAt (row e).
Proof.
  unfold live, time_After. destruct (rows s !! k) as [x|]; [|naive_solver].
  destruct (Z.ltb_spec now (ExpiresAt (row x))); simpl; split.
  - by intros [= ->].
  - by intros [[= ->] _].
  - done.
  - intros [[= ->] ?]. lia.
Qed.

Lemma lookupKey_Ok t k h kk :
  lookupKey t k h = Ok kk <-> HandleHashLen <= Z.of_nat (length h) /\ kk = (t, k, h).
Proof.
  unfold lookupKey. destruct (Z.ltb_spec (Z.of_nat (length h)) HandleHashLen); split;
    try done; try (intros [? ?]; lia); [by intros [= <-]|by intros [_ ->]].
Qed.

Lemma same_rows_inv s c : store_inv s -> store_inv (mkStore (seq s) (rows s) (buckets s) (scopes s) c).
Proof. intros [H1 H2 H3 H4 H5 H6]. by split. Qed.

(** Every operation but Put keeps the invariant and only shrinks the rows. *)
Lemma exec_shrinks o s :
  store_inv s -> (forall ctx clk r, o <> OpPut ctx clk r) ->
  store_inv (exec o s) /\ rows_le s (exec o s).
Proof.
  intros Hs Hput.
  assert (forall ks, store_inv (remove_all ks s) /\ rows_le s (remove_all ks s)) as Hrem
    by (intros ks; split; [by apply remove_all_inv|apply rows_le_remove_all]).
  assert (store_inv s /\ rows_le s s) as Hid by (split; [done|apply rows_le_refl]).
  destruct o as [ctx clk r|ctx clk t k h|ctx clk t k h|ctx clk t k h until|ctx clk t scope kinds|ctx clk t|ctx clk];
    (destruct ctx as [err|]; [exact Hid|]); simpl.
  - by destruct (Hput None clk r).
  - destruct (lookupKey t k h) as [kk|]; [|exact Hid]. destruct (live kk clk s); [|exact Hid].
    apply (Hrem [kk]).
  - destruct (lookupKey t k h) as [kk|] eqn:Ek; [|exact Hid].
    destruct (live kk clk s) as [e|] eqn:El; [|exact Hid]. apply live_Some in El as [He _].
    destruct (Z.leb_spec (MaxAttempts k - Attempts (row e) - 1) 0); [apply (Hrem [kk])|].
    apply lookupKey_Ok in Ek as [_ ->].
    destruct (ci_row s Hs _ _ He) as [Ekey Hok]. injection Ekey as _ Ekind _. split.
    + apply (set_entry_inv _ e); try done. cbn [fst].
      unfold stored_ok in *. simpl. destruct_and!. rewrite Ekind in *. split_and!; try done; lia.
    + intros k' e'. unfold set_entry. cbn [fst rows].
      intros [[<- <-]|[_ ?]]%lookup_insert_Some; [by exists e|by exists e'].
  - repeat case_match; try exact Hid; (split; [by apply same_rows_inv|]; intros k' e' ?; by exists e').
  - case_match; [exact Hid|]. apply Hrem.
  - split; [apply same_rows_inv, Hrem|]. apply Hrem.
  - split; [apply same_rows_inv|]; apply Hrem.
Qed.

Lemma ceremony_reachable_inv t s : reachable t s -> store_inv s /\ capped t s.
Proof.
  induction 1 as [t|t s o Hr [Hs Hc] Ht Hq]; [split; [apply ceremony_empty_inv|apply capped_empty]|].
  assert ((exists ctx clk r, o = OpPut ctx clk r) \/ (forall ctx clk r, o <> OpPut ctx clk r)) as [(ctx & clk & r & ->)|Hn].
  { destruct o; try (by right); left; eauto. }
  - split; [by apply Put_inv|]. simpl in *. destruct ctx; [by eapply capped_le, rows_le_refl|].
    destruct (Validate r) eqn:Hv; [unfold Put; rewrite Hv; by eapply capped_le, rows_le_refl|].
    rewrite Put_steps by done. pose proof (put_capped r clk t s Hs Hq Hv Hc Ht) as H.
    destruct (rows s !! put_key r) as [old|]; [|done].
    destruct (time_After _ _); [by eapply capped_le, rows_le_refl|done].
  - destruct (exec_shrinks o s Hs Hn) as [? ?]. split; [done|]. by eapply capped_le.
Qed.

(** ** Eviction inside Put *)
Lemma evict_other_bucket keep now same limit s k x :
  store_inv s -> 0 < limit -> k.1 <> keep.1 -> rows s !! k = Some x ->
  rows (evict keep now same limit s).1 !! k = Some x.
Proof.
  intros Hs Hl Hne Hk. unfold evict. simpl. rewrite rows_remove_all, decide_False; [done|].
  intros (e & _ & E & _)%victim_cand; done.
Qed.

Lemma put_result_other_bucket r now s k x :
  store_inv s -> seq s < two64 - 1 -> Validate r = None -> k.1 <> (put_key r).1 ->
  rows (put_insert r s) !! k = Some x -> rows (put_result r now s).1 !! k = Some x.
Proof.
  intros Hs Hq Hv Hne Hk. unfold put_result.
  pose proof (put_insert_inv r s Hs Hq Hv) as H1. pose proof (put_valid_limit r Hv).
  pose proof (put_scope_inv r now _ H1) as H2.
  assert (rows (put_scope r now (put_insert r s)).1 !! k = Some x) as Hk2.
  { unfold put_scope. case_match; [|done]. by apply evict_other_bucket. }
  destruct (put_scope _ _ _) as [s2 n2]. rewrite put_tenant_eq. case_match eqn:E; [|done].
  apply andb_true_iff in E as [?%Z.ltb_lt _]. by apply evict_other_bucket.
Qed.

(** A record the scope cap evicted was live, of the scope, and older than the live ones kept. *)
Lemma evicted_is_oldest keep now same limit s r k x :
  same = same_scope r -> keep = put_key r -> store_inv s -> 0 < limit ->
  k <> keep -> rows s !! k = Some x -> rows (evict keep now same limit s).1 !! k = None ->
  scope_live (keep.1, scopeHash r) now (k, x) /\
  forall k' x', k' <> keep -> rows (evict keep now same limit s).1 !! k' = Some x' ->
    scope_live (keep.1, scopeHash r) now (k', x') -> newer (k', x') (k, x).
Proof.
  intros -> -> Hs Hl Hne Hk Hgone.
  assert (k ∈ (evict_victims (put_key r) now (same_scope r) limit s).*1) as Hv.
  { unfold evict in Hgone. simpl in Hgone. rewrite rows_remove_all in Hgone.
    case_decide; [done|congruence]. }
  pose proof Hv as (e & He & Hc)%victim_cand; [|done..]. assert (e = x) as -> by congruence.
  destruct Hc as (E1 & _ & E3 & E4). unfold same_scope in E4. apply bool_decide_eq_true in E4.
  split; [split; [split; done|done]|]. intros k' x' Hne' Hk' [[F1 F2] F3]. simpl in *.
  apply (survivors_newer (put_key r) now (same_scope r) limit s); [done| |].
  - apply survivor_elem; [done..|]. split_and!; [done..|]. unfold same_scope. by apply bool_decide_eq_true.
  - apply list_elem_of_fmap in Hv as ([k0 e0] & -> & Hv).
    assert (rows s !! k0 = Some e0) as He0.
    { apply (elem_of_others (put_key r) now (same_scope r) s Hs).
      rewrite <- (survivors_victims (put_key r) now (same_scope r) limit s Hl). set_solver. }
    simpl in *. congruence.
Qed.

(** ** Failures *)
Lemma RecordFailure_value clk tn k h s e :
  HandleHashLen <= Z.of_nat (length h) -> rows s !! (tn, k, h) = Some e -> clk < ExpiresAt (row e) ->
  0 <= Attempts (row e) < MaxAttempts k ->
  (RecordFailure None clk tn k h s).2 = Ok (MaxAttempts k - Attempts (row e) - 1).
Proof.
  intros Hlen He Hc Ha. unfold RecordFailure.
  assert (lookupKey tn k h = Ok (tn, k, h)) as -> by (by apply lookupKey_Ok).
  assert (live (tn, k, h) clk s = Some e) as -> by (by apply live_Some).
  destruct (Z.leb_spec (MaxAttempts k - Attempts (row e) - 1) 0); simpl; [|done]. f_equal. lia.
Qed.

Lemma RecordFailure_row clk tn k h s e :
  HandleHashLen <= Z.of_nat (length h) -> rows s !! (tn, k, h) = Some e -> clk < ExpiresAt (row e) ->
  rows (RecordFailure None clk tn k h s).1 !! (tn, k, h) =
  if decide (MaxAttempts k - Attempts (row e) - 1 <= 0) then None
  else Some (mkEntry (set_Attempts (Attempts (row e) + 1) (row e)) (e_seq e)).
Proof.
  intros Hlen He Hc. unfold RecordFailure.
  assert (lookupKey tn k h = Ok (tn, k, h)) as -> by (by apply lookupKey_Ok).
  assert (live (tn, k, h) clk s = Some e) as -> by (by apply live_Some).
  destruct (Z.leb_spec (MaxAttempts k - Attempts (row e) - 1) 0).
  - rewrite decide_True by lia. cbn [fst]. rewrite rows_remove. apply lookup_delete_eq.
  - rewrite decide_False by lia. apply lookup_insert_eq.
Qed.

Lemma failures_absent tn k h clks s :
  rows s !! (tn, k, h) = None ->
  rows (fold_left (fun s clk => (RecordFailure None clk tn k h s).1) clks s) !! (tn, k, h) = None.
Proof.
  revert s. induction clks as [|clk clks IH]; intros s Hn; [done|]. simpl. apply IH.
  unfold RecordFailure, lookupKey. case_match; [|done]. case_match; [done|]. simplify_eq.
  unfold live. by rewrite Hn.
Qed.

(** ** Counting removals *)
Lemma size_remove_all (ks : list (key * entry)) s :
  NoDup ks.*1 -> (forall k e, (k, e) ∈ ks -> rows s !! k = Some e) ->
  Z.of_nat (size (rows (remove_all ks.*1 s))) = Z.of_nat (size (rows s)) - Z.of_nat (length ks).
Proof.
  unfold remove_all. revert s. induction ks as [|[k e] ks IH]; intros s Hnd Hin; [simpl; lia|].
  csimpl in Hnd. apply NoDup_cons in Hnd as [Hk Hnd]. csimpl.
  pose proof (Hin k e ltac:(left)) as He.
  rewrite IH; [|done|].
  - rewrite rows_remove. pose proof (map_size_delete_Some k (rows s) (mk_is_Some _ _ He)) as Hd.
    pose proof (map_size_ne_0_lookup_2 (rows s) k (mk_is_Some _ _ He)). rewrite Hd. lia.
  - intros k' e' Hin'. rewrite rows_remove, lookup_delete_ne; [apply Hin; by right|].
    intros ->. apply Hk. apply list_elem_of_fmap. by exists (k', e').
Qed.

Lemma truncate_pos t : Microsecond <= t -> 0 < time_Truncate t Microsecond.
Proof.
  intros H. unfold time_Truncate. simpl. rewrite Z.mod_eq by done.
  assert (1 <= t / Microsecond) by (apply Z.div_le_lower_bound; unfold Microsecond in *; lia).
  unfold Microsecond in *. lia.
Qed.

(** ** What NewRecord takes from its arguments *)
Lemma NewRecord_fields sp open r :
  NewRecord sp open = Ok r ->
  kind r = sp_Kind sp /\ handleHash r = sp_HandleHash sp /\ createdAt r = sp_Now sp.
Proof.
  unfold NewRecord. intros H. go_cases. destruct open as [open|]; [|done]. go_cases.
  destruct (open (sp_Pending sp)); [|done]. go_cases.
  unfold Restore in H. destruct (checkRow _); [done|]. by injection H as <-.
Qed.

Lemma NewRecord_pending sp r p :
  UnsealPending (sp_Pending sp) = Ok p -> NewRecord sp (Some openPending) = Ok r ->
  tenant r = p_tenant p /\ r_Pending r = sp_Pending sp /\ Validate r = None /\
  (AdmitsSession (kind r) = true -> expiresAt r <= p_expiresAt p).
Proof.
  intros Hp. unfold NewRecord, openPending. rewrite Hp. simpl. intros H. go_cases.
  unfold Restore in H. destruct (checkRow _) eqn:Eck; [done|]. injection H as <-.
  cbn [tenant r_Pending kind expiresAt]. split_and!; try done.
  - unfold Validate. simpl. by rewrite bool_decide_eq_true_2.
  - intros Hadm. unfold ExpiresAt_of, time_Add, time_Before. bools. rewrite Hadm.
    match goal with Hk : Kind_Valid _ = true |- _ => rewrite Hk end. cbn [negb andb]. destruct (Z.ltb_spec (p_expiresAt p) (sp_Now sp + TTL (sp_Kind sp))); lia.
Qed.
