(* ===== verification/CeremonyProperties.v ===== *)
(** What the ceremony kinds, records and store guarantee. *)
From S2P Require Import Prelude Errors Tenant Factor Attrs Pending Transitions Factors Codec.
From S2P Require Import VerifiedFacts SessionFacts Journey.
From S2P Require Import CodecFacts StoreBase.
From S2P Require Import CeremonyKind CeremonyStore CeremonyStoreFacts.
Import Ceremony_ CeremonyRec CeremonyMemory.

(** ** Concrete values for the witnesses *)
Definition chash (c : Byte.byte) : bytes := repeat c 32.

Definition mac1 : bytes := repeat Byte.x4d 32.

Definition zero_Rec : Rec := mkRec [] [] zero_TenantID 0 [] [] [] 0 0 0.

Definition sealed_login1 : Sealed := get_ok [] (SealPending login1).

Definition c0 : time := now0 + 3 * Second.

Definition flow_spec (h : bytes) : Spec :=
  mkSpec MFAFlow h (SubjectScope ada) sealed_login1 [] c0.

Definition flow (h : bytes) : Rec := get_ok zero_Rec (NewRecord (flow_spec h) (Some openPending)).

Definition put1 : op := OpPut None c0 (flow (chash "a")).

Definition cstore1 : Store := exec put1 NewWithClock.

Lemma cstore1_reachable : reachable c0 cstore1.
Proof.
  apply (ceremony_reachable_step 0 NewWithClock put1); [constructor|vm_compute; congruence|vm_compute; reflexivity].
Qed.

(** What is checked kind by kind. *)
Lemma kind_facts :
  Forall (fun k =>
    0 < TTL k /\ (AdmitsSession k = true -> TTL k <= PendingTTL) /\
    (Stateless k = true <-> MaxLivePerScope k = 0) /\
    (Stateless k = true <-> MaxAttempts k = 0) /\
    (SecretClass k = ShortCode -> Stateless k = false /\ 0 < MaxAttempts k <= 5) /\
    (AdmitsSession k = true -> Stateless k = false -> SecretClass k = ShortCode \/ k = MagicLink
       \/ k = PendingRegistration -> TTL k + TTL MFAFlow <= PendingTTL)) All.
Proof. apply (bool_decide_unpack _). vm_compute. exact I. Qed.

(** ** Properties *)

(** The registry is sound.  Every declared kind has a positive lifetime, kinds that admit a
    session live within the Pending's fifteen minutes and leave room for what may follow them, a
    kind is stateless exactly when it has no rows, no attempts and no cap, short codes are always
    stored and bounded, names are distinct; and an undeclared kind fails closed everywhere. *)
Theorem kind_registry_is_sound k :
  if Kind_Valid k
  then 0 < TTL k /\ (AdmitsSession k = true -> TTL k <= PendingTTL) /\
       (Stateless k = true <-> MaxLivePerScope k = 0) /\
       (Stateless k = true <-> MaxAttempts k = 0) /\
       (SecretClass k = ShortCode -> Stateless k = false /\ 0 < MaxAttempts k <= 5) /\
       (forall k', Kind_Valid k' = true -> Kind_String k = Kind_String k' -> k = k') /\
       (AdmitsSession k = true -> Stateless k = false -> SecretClass k = ShortCode \/ k = MagicLink
          \/ k = PendingRegistration -> TTL k + TTL MFAFlow <= PendingTTL)
  else TTL k = 0 /\ MaxLivePerScope k = 0 /\ MaxLivePerTenant k = 0 /\ MaxAttempts k = 0 /\
       SecretClass k = 0 /\ Scope_of k = 0 /\ Stateless k = false /\ AdmitsSession k = false /\
       Kind_String k = "invalid" /\ forall a b, ExpiresAt_of k a b = 0.
Proof.
  destruct (Kind_Valid k) eqn:Hv.
  - pose proof (valid_kinds _ kind_facts k Hv) as H. simpl in H. destruct_and!. split_and!; try done.
    intros k' Hv'. by apply names_distinct.
  - assert (forall ks, Forall (fun x => Kind_Valid x = true) ks -> k_in k ks = false) as Hout.
    { intros ks Hks. unfold k_in. apply not_true_iff_false. rewrite existsb_exists.
      intros (x & Hx%list_elem_of_In & ->%Z.eqb_eq). rewrite Forall_forall in Hks.
      rewrite (Hks _ Hx) in Hv. done. }
    unfold TTL, MaxLivePerScope, MaxLivePerTenant, MaxAttempts, SecretClass, Stateless, Scope_of, AdmitsSession, ExpiresAt_of.
    rewrite !Hout by (repeat constructor). rewrite Hv. split_and!; try done.
    unfold Kind_Valid, kindEnd in Hv. apply andb_false_iff in Hv.
    unfold Kind_String. repeat (case_match; bools; [exfalso; subst; destruct Hv as [Hv|Hv]; discriminate|]).
    done.
Qed.

(** A ceremony record never outlives what it carries.  NewRecord with the core codec takes the
    tenant from the sealed Pending, ends after its writing instant and within the kind's lifetime
    and, for a kind that admits a session, no later than the Pending itself; a subject-scoped record
    of a bound Pending can only be scoped to that Pending's subject; and Put will accept it. *)
Theorem ceremony_record_never_outlives_its_pending sp r :
  NewRecord sp (Some openPending) = Ok r ->
  exists p, UnsealPending (sp_Pending sp) = Ok p /\
    tenant r = p_tenant p /\ r_Pending r = sp_Pending sp /\ sp_Now sp < p_expiresAt p /\
    sp_Now sp < expiresAt r <= sp_Now sp + TTL (kind r) /\
    (AdmitsSession (kind r) = true -> expiresAt r <= p_expiresAt p) /\
    (Scope_of (kind r) = Subject_ -> Bound p = true -> ScopedTo r (SubjectScope (p_subject p)) = true) /\
    Validate r = None /\ attempts r = 0.
Proof.
  unfold NewRecord, openPending. intros H. go_cases.
  destruct (UnsealPending (sp_Pending sp)) as [p|] eqn:Ep; simpl in H; [|discriminate]. go_cases.
  unfold Restore in H. destruct (checkRow _) eqn:Eck; [discriminate|]. injection H as <-.
  exists p. split; [done|]. cbn [tenant r_Pending expiresAt kind attempts].
  unfold ExpiresAt_of, time_Add in *. bools. simpl in *.
  match goal with Hk : Kind_Valid (sp_Kind sp) = true |- _ => rewrite Hk in *; rename Hk into Hkind end.
  simpl in *.
  pose proof (TTL_microseconds (sp_Kind sp) Hkind) as [Httl _].
  assert (forall b : bool, sp_Now sp < (if b && (p_expiresAt p <? sp_Now sp + TTL (sp_Kind sp))
    then p_expiresAt p else sp_Now sp + TTL (sp_Kind sp)) <= sp_Now sp + TTL (sp_Kind sp)) as Hend.
  { intros b. destruct b, (Z.ltb_spec (p_expiresAt p) (sp_Now sp + TTL (sp_Kind sp))); simpl; lia. }
  split_and!; try done; try apply Hend.
  - intros ->. simpl. destruct (Z.ltb_spec (p_expiresAt p) (sp_Now sp + TTL (sp_Kind sp))); lia.
  - intros Hsc Hb. match goal with Hf : bindingFits _ _ = true |- _ => rename Hf into Hfit end.
    match goal with Hc : class _ = _ |- _ => rename Hc into Hcl end.
    unfold Bound in Hb. apply negb_true_iff in Hb. unfold bindingFits in Hfit. simpl in Hfit.
    rewrite Hb, Hcl, Hsc in Hfit. simpl in Hfit.
    destruct (bool_decide_reflect (Tenant (p_subject p) = p_tenant p)) as [Et|]; [|done]. simpl in Hfit.
    destruct (bool_decide_reflect (sc_tenant (sp_Scope sp) = p_tenant p)); [|done]. simpl in Hfit.
    apply bool_decide_eq_true in Hfit.
    unfold ScopedTo, SubjectScope. rewrite Hb. cbn [class sc_hash sc_tenant kind scopeHash tenant].
    rewrite Hsc, bool_decide_eq_true_2 by done. simpl. by apply bool_decide_eq_true.
  - unfold Validate. simpl. by rewrite bool_decide_eq_true_2.
Qed.

Lemma ceremony_record_never_outlives_its_pending_witness :
  exists r, NewRecord (flow_spec (chash "a")) (Some openPending) = Ok r /\ tenant r = p_tenant login1.
Proof.
  destruct (okb_Ok (NewRecord (flow_spec (chash "a")) (Some openPending))) as [r E];
    [vm_compute; reflexivity|].
  destruct (ceremony_record_never_outlives_its_pending _ r E) as (p & Hp & Ht & _).
  exists r. split; [exact E|].
  assert (UnsealPending (sp_Pending (flow_spec (chash "a"))) = Ok login1) as Hl
    by (vm_compute; reflexivity).
  rewrite Hl in Hp. injection Hp as <-. exact Ht.
Defined.

(** Every state the ceremony store reaches under a clock that does not go back is consistent
    (rows sit under their tenant, kind and handle, are of a stored kind and within its bounds, and
    the buckets and scope counters agree with them), and no scope holds more live records than its
    kind allows, at that instant or any later one. *)
Theorem ceremony_caps_hold t s :
  reachable t s ->
  store_inv s /\
  forall tn k h now, t <= now ->
    Z.of_nat (size (filter (scope_live (tn, k, h) now) (rows s))) <= Z.max 0 (MaxLivePerScope k).
Proof.
  intros [Hs Hc]%ceremony_reachable_inv. split; [done|]. intros tn k h now Hn. by apply (Hc (tn, k, h)).
Qed.

Lemma ceremony_caps_hold_witness : store_inv cstore1.
Proof. exact (proj1 (ceremony_caps_hold c0 cstore1 cstore1_reachable)). Defined.

(** Put stores the record and evicts only the oldest.  When it succeeds, the record is in the
    store, the scope's cap holds, rows of other buckets are untouched, and, for a kind without a
    tenant ceiling, each record evicted was a live one of the same scope and older than every live
    one of that scope that stays. *)
Theorem put_evicts_only_the_oldest t s clk r s' n :
  reachable t s -> t <= clk -> seq s < two64 - 1 -> Put None clk r s = (s', Ok n) ->
  exists e, rows s' !! put_key r = Some e /\ row e = stored_row r /\
    (forall k x, k.1 <> (put_key r).1 -> rows s !! k = Some x -> rows s' !! k = Some x) /\
    (MaxLivePerTenant (kind r) = 0 ->
     forall k x, k <> put_key r -> rows s !! k = Some x -> rows s' !! k = None ->
       scope_live ((put_key r).1, scopeHash r) clk (k, x) /\
       forall k' x', k' <> put_key r -> rows s' !! k' = Some x' ->
         scope_live ((put_key r).1, scopeHash r) clk (k', x') -> newer (k', x') (k, x)).
Proof.
  intros [Hs _]%ceremony_reachable_inv Ht Hq Hp.
  destruct (Validate r) eqn:Hv; [unfold Put in Hp; rewrite Hv in Hp; discriminate|].
  rewrite Put_steps in Hp by done. fold (put_result r clk s) in Hp.
  assert (s' = (put_result r clk s).1) as ->.
  { cbv zeta in Hp. destruct (rows s !! put_key r); [destruct (time_After _ _)|]; congruence. }
  clear Hp. exists (mkEntry (stored_row r) (u64 (seq s + 1))).
  split; [by apply put_result_row|]. split; [done|].
  pose proof (put_insert_inv r s Hs Hq Hv) as H1. pose proof (put_valid_limit r Hv) as Hlim.
  assert (forall k x, k <> put_key r -> rows s !! k = Some x -> rows (put_insert r s) !! k = Some x) as Hins.
  { intros k x Hne Hk. rewrite put_insert_row. by rewrite lookup_insert_ne, lookup_delete_ne. }
  split.
  - intros k x Hne Hk. apply put_result_other_bucket; [done|done|done|done|].
    apply Hins; [|done]. intros ->. done.
  - intros Hceil k x Hne Hk Hgone. unfold put_result in *.
    destruct (put_scope r clk (put_insert r s)) as [s2 n2] eqn:E2.
    rewrite put_tenant_eq, Hceil in *. simpl in Hgone |- *.
    unfold put_scope in E2. case_match; [|injection E2 as <- _; rewrite (Hins _ _ Hne Hk) in Hgone; done].
    assert (s2 = (evict (put_key r) clk (same_scope r) (MaxLivePerScope (kind r)) (put_insert r s)).1)
      as -> by (by rewrite E2).
    apply (evicted_is_oldest (put_key r) clk (same_scope r) (MaxLivePerScope (kind r)) (put_insert r s) r);
      auto.
Qed.

Lemma put_evicts_only_the_oldest_witness :
  exists s' n e, Put None c0 (flow (chash "b")) cstore1 = (s', Ok n) /\
  rows s' !! put_key (flow (chash "b")) = Some e.
Proof.
  destruct (okb_pair (Put None c0 (flow (chash "b")) cstore1)) as (s' & n & E); [vm_compute; reflexivity|].
  destruct (put_evicts_only_the_oldest c0 cstore1 c0 (flow (chash "b")) s' n cstore1_reachable
              (Z.le_refl c0)) as (e & He & _); [vm_compute; reflexivity|exact E|].
  exists s', n, e. split; [exact E|exact He].
Defined.

(** An operation that may store a record under [kk]. *)
Definition puts (kk : key) (o : op) : bool :=
  match o with OpPut _ _ r => bool_decide (put_key r = kk) | _ => false end.

Lemma exec_absent o s kk :
  store_inv s -> seq s < two64 - 1 -> puts kk o = false -> rows s !! kk = None ->
  rows (exec o s) !! kk = None.
Proof.
  intros Hs Hq Hp Hn.
  assert (rows_le s (exec o s) -> rows (exec o s) !! kk = None) as Hle.
  { intros Hle. destruct (rows (exec o s) !! kk) as [e|] eqn:E; [|done].
    apply Hle in E as (x & ? & _). congruence. }
  destruct o as [ctx clk r| | | | | |]; try (by apply Hle, exec_shrinks). simpl in *.
  destruct ctx; [done|]. destruct (Validate r) eqn:Hv; [unfold Put; by rewrite Hv|].
  rewrite Put_steps by done. fold (put_result r clk s). cbv zeta.
  assert (rows (put_result r clk s).1 !! kk = None) as Hr.
  { destruct (rows (put_result r clk s).1 !! kk) as [e|] eqn:E; [|done].
    apply put_result_le in E; [congruence|]. by apply bool_decide_eq_false in Hp. }
  destruct (rows s !! put_key r); [by destruct (time_After _ _)|done].
Qed.

(** [later os t s t2 s2]: the operations [os], at instants that do not go back from [t], lead from
    [s] to [s2]. *)
Inductive later : list op -> time -> Store -> time -> Store -> Prop :=
  | later_nil t s : later [] t s t s
  | later_cons o os t s t2 s2 : t <= op_clk o -> seq s < two64 - 1 ->
      later os (op_clk o) (exec o s) t2 s2 -> later (o :: os) t s t2 s2.

Lemma exec_inv o s : store_inv s -> seq s < two64 - 1 -> store_inv (exec o s).
Proof.
  intros Hs Hq. destruct o as [ctx clk r| | | | | |]; try (by apply exec_shrinks).
  by apply Put_inv.
Qed.

Lemma later_absent os t s t2 s2 kk :
  later os t s t2 s2 -> Forall (fun o => puts kk o = false) os -> store_inv s ->
  rows s !! kk = None -> rows s2 !! kk = None.
Proof.
  induction 1 as [|o os t s t2 s2 Ht Hq _ IH]; intros Hos Hs Hn; [done|].
  apply Forall_cons in Hos as [Ho Hos]. apply IH; [done|by apply exec_inv|by apply exec_absent].
Qed.

(** C5: A ceremony is used at most once.  When Consume returns a record, it is the live row of that
    tenant, kind and handle, and from then on, whatever operations follow, at whatever instants, as
    long as none puts a record under the same handle again, Consume, Peek and RecordFailure of it
    answer store.ErrNotFound.  Every other row is untouched. *)
Theorem consume_is_single_use t s clk tn k h s1 x :
  reachable t s -> t <= clk -> seq s < two64 - 1 -> Consume None clk tn k h s = (s1, Ok x) ->
  (tenant x, kind x, handleHash x) = (tn, k, h) /\ clk < expiresAt x /\
  (forall k', k' <> (tn, k, h) -> rows s1 !! k' = rows s !! k') /\
  forall os t2 s2, later os clk s1 t2 s2 -> Forall (fun o => puts (tn, k, h) o = false) os ->
    forall clk', Consume None clk' tn k h s2 = (s2, Err ErrNotFound) /\
      Peek None clk' tn k h s2 = Err ErrNotFound /\
      RecordFailure None clk' tn k h s2 = (s2, Err ErrNotFound).
Proof.
  intros Hreach Ht Hq Hc. pose proof Hreach as [Hs _]%ceremony_reachable_inv.
  unfold Consume in Hc. destruct (lookupKey tn k h) as [kk|] eqn:Ek; [|discriminate].
  apply lookupKey_Ok in Ek as [Hlen ->].
  destruct (live (tn, k, h) clk s) as [e|] eqn:El; [|discriminate]. apply live_Some in El as [He Hlive].
  destruct (Restore (row e)) as [x'|] eqn:Er; [|discriminate]. injection Hc as <- <-.
  unfold Restore in Er. destruct (checkRow (row e)); [discriminate|]. injection Er as <-.
  split; [simpl; by apply (ci_row s Hs)|]. split; [done|]. split.
  { intros k' Hne. rewrite rows_remove. by rewrite lookup_delete_ne. }
  intros os t2 s2 Hrun Hos clk'.
  assert (rows s2 !! (tn, k, h) = None) as Hgone.
  { apply (later_absent os clk (remove (tn, k, h) s) t2 s2 (tn, k, h)); try done.
    - by apply remove_inv.
    - rewrite rows_remove. apply lookup_delete_eq. }
  assert (lookupKey tn k h = Ok (tn, k, h)) as Ek by (by apply lookupKey_Ok).
  unfold Consume, Peek, RecordFailure, live. rewrite Ek. simpl. by rewrite Hgone.
Qed.

Lemma consume_is_single_use_witness :
  exists s1 x, Consume None c0 acme MFAFlow (chash "a") cstore1 = (s1, Ok x) /\
  Consume None c0 acme MFAFlow (chash "a") s1 = (s1, Err ErrNotFound).
Proof.
  destruct (okb_pair (Consume None c0 acme MFAFlow (chash "a") cstore1)) as (s1 & x & E);
    [vm_compute; reflexivity|].
  destruct (consume_is_single_use c0 cstore1 c0 acme MFAFlow (chash "a") s1 x cstore1_reachable
              (Z.le_refl c0)) as (_ & _ & _ & H); [vm_compute; reflexivity|exact E|].
  exists s1, x. split; [exact E|].
  exact (proj1 (H [] c0 s1 (later_nil c0 s1) (List.Forall_nil _) c0)).
Defined.

(** Failed verifications are bounded.  Each RecordFailure on a live record charges it by one and
    reports how many remain, and the one that exhausts the kind's MaxAttempts deletes the record; so
    after at most MaxAttempts failures, at any instants before its expiry, it can no longer be
    found. *)
Theorem failed_attempts_are_bounded t s tn k h e clks :
  reachable t s -> rows s !! (tn, k, h) = Some e ->
  Forall (fun clk => clk < ExpiresAt (row e)) clks ->
  let after clks := fold_left (fun s clk => (RecordFailure None clk tn k h s).1) clks s in
  (forall clk, clk < ExpiresAt (row e) ->
     (RecordFailure None clk tn k h s).2 = Ok (MaxAttempts k - Attempts (row e) - 1)) /\
  (MaxAttempts k - Attempts (row e) <= Z.of_nat (length clks) -> rows (after clks) !! (tn, k, h) = None) /\
  (Z.of_nat (length clks) < MaxAttempts k - Attempts (row e) ->
     exists e', rows (after clks) !! (tn, k, h) = Some e' /\
       Attempts (row e') = Attempts (row e) + Z.of_nat (length clks)).
Proof.
  intros [Hs _]%ceremony_reachable_inv He Hclks. cbv zeta.
  destruct (ci_row s Hs _ _ He) as [Ekey (_ & _ & Hlen & _ & _ & _ & Ha & _)].
  assert (RKind (row e) = k) as Ekind by congruence. rewrite Ekind in Ha.
  assert (HandleHash (row e) = h) as Ehash by congruence. rewrite Ehash in Hlen.
  destruct Hlen as [Hlen _].
  split; [intros clk Hc; by apply RecordFailure_value|].
  clear Hs Ekey Ekind Ehash. revert s e He Ha Hclks.
  induction clks as [|clk clks IH]; intros s e He Ha Hclks; simpl.
  - split; [lia|]. intros _. exists e. split; [done|lia].
  - apply Forall_cons in Hclks as [Hc Hclks].
    pose proof (RecordFailure_row clk tn k h s e Hlen He Hc) as Hr.
    destruct (Z_le_gt_dec (MaxAttempts k - Attempts (row e) - 1) 0) as [Hz|Hz].
    + rewrite (decide_True _ _ Hz) in Hr. split; [|lia]. intros _. by apply failures_absent.
    + rewrite decide_False in Hr by lia.
      destruct (IH _ _ Hr) as [I1 I2]; [simpl; lia|done|]. simpl in I1, I2.
      split; [intros; apply I1; lia|]. intros Hl. destruct I2 as (e' & ? & Hat); [lia|].
      exists e'. split; [done|]. rewrite Hat. lia.
Qed.

Lemma failed_attempts_are_bounded_witness :
  rows (fold_left (fun s clk => (RecordFailure None clk acme MFAFlow (chash "a") s).1)
          [c0; c0; c0; c0; c0] cstore1) !! (acme, MFAFlow, chash "a") = None.
Proof.
  destruct (rows cstore1 !! (acme, MFAFlow, chash "a")) as [e|] eqn:E.
  2:{ exfalso. assert ((if rows cstore1 !! (acme, MFAFlow, chash "a") then true else false) = true) as H
        by (vm_compute; reflexivity). rewrite E in H. discriminate. }
  assert (option_map (fun e => (Attempts (row e), c0 <? ExpiresAt (row e)))
            (rows cstore1 !! (acme, MFAFlow, chash "a")) = Some (0, true)) as H by (vm_compute; reflexivity).
  rewrite E in H. injection H as Ha Hx. apply Z.ltb_lt in Hx.
  apply (failed_attempts_are_bounded c0 cstore1 acme MFAFlow (chash "a") e [c0; c0; c0; c0; c0]
           cstore1_reachable E).
  - repeat constructor; exact Hx.
  - rewrite Ha. vm_compute. congruence.
Defined.

(** A stateless handle is accepted once.  MarkConsumed refuses stored and undeclared kinds and
    short handles; otherwise the first call reports true, and every later call before the recorded
    instant reports false and changes nothing, in particular when many race. *)
Theorem stateless_handle_is_marked_once s clk tn k h until :
  Kind_Valid k = true -> Stateless k = true -> HandleHashLen <= Z.of_nat (length h) ->
  let '(s', r) := MarkConsumed None clk tn k h until s in
  (r = Ok true \/ r = Ok false /\ s' = s) /\ rows s' = rows s /\
  (forall other, other <> (tn, k, h) -> consumed s' !! other = consumed s !! other) /\
  (r = Ok true -> forall clk' until', clk' < time_Truncate until Microsecond ->
     MarkConsumed None clk' tn k h until' s' = (s', Ok false)) /\
  (forall k' clk' until', Stateless k' = false -> exists e, MarkConsumed None clk' tn k' h until' s = (s, Err e)).
Proof.
  intros Hv Hst Hlen. unfold MarkConsumed. rewrite Hv, Hst. cbn [negb].
  assert (lookupKey tn k h = Ok (tn, k, h)) as Ek by (by apply lookupKey_Ok). rewrite Ek.
  assert (forall k' clk' until', Stateless k' = false ->
    exists e, MarkConsumed None clk' tn k' h until' s = (s, Err e)) as Hstored.
  { intros k' clk' until' Hk'. unfold MarkConsumed. rewrite Hk'. destruct (Kind_Valid k'); simpl; eauto. }
  destruct (match consumed s !! (tn, k, h) with Some prev => time_After prev clk | None => false end).
  - split_and!; try done. by right.
  - split_and!; try done; [by left| |].
    + intros other Hne. simpl. by rewrite lookup_insert_ne.
    + intros _ clk' until' Hc. simpl. rewrite lookup_insert_eq. unfold time_After.
      by rewrite (proj2 (Z.ltb_lt _ _) Hc).
Qed.

Lemma stateless_handle_is_marked_once_witness :
  let '(s1, r) := MarkConsumed None c0 acme OAuthState (chash "s") (c0 + Minute) cstore1 in
  r = Ok true /\ MarkConsumed None c0 acme OAuthState (chash "s") (c0 + Minute) s1 = (s1, Ok false).
Proof.
  pose proof (stateless_handle_is_marked_once cstore1 c0 acme OAuthState (chash "s") (c0 + Minute)
                eq_refl eq_refl) as H.
  assert (HandleHashLen <= Z.of_nat (length (chash "s"))) as Hl by (vm_compute; congruence).
  specialize (H Hl).
  destruct (okb_pair (MarkConsumed None c0 acme OAuthState (chash "s") (c0 + Minute) cstore1))
    as (s1 & b & E); [vm_compute; reflexivity|].
  assert ((MarkConsumed None c0 acme OAuthState (chash "s") (c0 + Minute) cstore1).2 = Ok true) as Eb
    by (vm_compute; reflexivity).
  rewrite E in H, Eb |- *. cbn [snd] in Eb. split; [exact Eb|].
  destruct H as (_ & _ & _ & H & _). apply (H Eb). vm_compute. reflexivity.
Defined.

(** DeleteForScope deletes exactly the records of that tenant and scope, of the given kinds when
    any are given, reports how many, and leaves every other record of every tenant. *)
Theorem delete_for_scope_is_exact t s tn scope kinds :
  reachable t s -> scope <> [] ->
  let gone p := p.1.1.1 = tn /\ ScopeHash (row p.2) = scope /\ (kinds = [] \/ k_in p.1.1.2 kinds = true) in
  exists s', DeleteForScope None tn scope kinds s =
    (s', Ok (Z.of_nat (size (rows s)) - Z.of_nat (size (rows s')))) /\
  store_inv s' /\
  (forall k e, rows s !! k = Some e ->
     rows s' !! k = if decide (gone (k, e)) then None else Some e) /\
  (forall k, rows s !! k = None -> rows s' !! k = None).
Proof.
  intros [Hs _]%ceremony_reachable_inv Hne gone. unfold DeleteForScope.
  destruct (Z.eqb_spec (Z.of_nat (length scope)) 0) as [E|_]; [destruct scope; [done|simpl in E; lia]|].
  set (f := fun '(k, e) => _). set (ks := List.filter f (map_to_list (rows s))).
  assert (forall k e, (k, e) ∈ ks <-> rows s !! k = Some e /\ gone (k, e)) as Hks.
  { intros k e. unfold ks, f, gone. rewrite list_elem_of_In, filter_In, <- list_elem_of_In,
      elem_of_map_to_list. simpl.
    rewrite andb_true_iff, !negb_true_iff, orb_false_iff, !negb_false_iff, !bool_decide_eq_true,
      andb_false_iff, negb_false_iff, Z.ltb_ge.
    assert (Z.of_nat (length kinds) <= 0 <-> kinds = []) as -> by (destruct kinds; simpl; split; done || lia).
    tauto. }
  assert (forall k e, rows s !! k = Some e -> k ∈ ks.*1 <-> gone (k, e)) as Hkey.
  { intros k e He. rewrite list_elem_of_fmap. split.
    - intros ([k' e'] & -> & [He' Hg]%Hks). simpl in *. by simplify_eq.
    - intros Hg. exists (k, e). split; [done|]. by apply Hks. }
  exists (remove_all ks.*1 s). split_and!.
  - do 2 f_equal. rewrite (size_remove_all ks s).
    + lia.
    + apply NoDup_fmap_fst; [intros k e1 e2 [? _]%Hks [? _]%Hks; congruence|].
      apply NoDup_ListNoDup, List.NoDup_filter, NoDup_ListNoDup, NoDup_map_to_list.
    + intros k e [? _]%Hks. done.
  - by apply remove_all_inv.
  - intros k e He. rewrite rows_remove_all. pose proof (Hkey _ _ He).
    destruct (decide (k ∈ ks.*1)), (decide (gone (k, e))); tauto || done.
  - intros k Hn. rewrite rows_remove_all. by case_decide.
Qed.

Lemma delete_for_scope_is_exact_witness :
  exists s', DeleteForScope None acme (uuid_bytes 7) [MFAFlow] cstore1 = (s', Ok 1) /\ store_inv s'.
Proof.
  destruct (delete_for_scope_is_exact c0 cstore1 acme (uuid_bytes 7) [MFAFlow] cstore1_reachable)
    as (s' & E & Hi & _); [vm_compute; discriminate|].
  exists s'. split; [|exact Hi].
  assert ((DeleteForScope None acme (uuid_bytes 7) [MFAFlow] cstore1).2 = Ok 1) as E2
    by (vm_compute; reflexivity).
  rewrite E in E2. cbn [snd] in E2. rewrite E, E2. reflexivity.
Defined.

(** A parked login resumes as it was left.  A journey's Pending, sealed, recorded with NewRecord
    and stored with Put, comes back from Consume, at any instant from its writing to the record's
    expiry, as bytes that unseal to the very same Pending, under its own tenant and kind and
    still unexpired. *)
Theorem parked_login_resumes t s p sp r s1 n clk :
  reachable t s -> t <= sp_Now sp -> seq s < two64 - 1 -> journey p ->
  SealPending p = Ok (sp_Pending sp) -> NewRecord sp (Some openPending) = Ok r ->
  AdmitsSession (sp_Kind sp) = true -> Microsecond <= sp_Now sp ->
  Put None (sp_Now sp) r s = (s1, Ok n) ->
  sp_Now sp <= clk < time_Truncate (expiresAt r) Microsecond ->
  exists s2 x, Consume None clk (p_tenant p) (sp_Kind sp) (sp_HandleHash sp) s1 = (s2, Ok x) /\
    UnsealPending (r_Pending x) = Ok p /\ clk < p_expiresAt p.
Proof.
  intros Hreach Ht Hq Hp%journey_wf Hseal Hnew Hadm Hus Hput Hclk.
  pose proof Hreach as [Hs _]%ceremony_reachable_inv.
  pose proof (UnsealPending_SealPending p _ Hp Hseal) as Hun.
  assert (kind r = sp_Kind sp /\ handleHash r = sp_HandleHash sp /\ createdAt r = sp_Now sp) as (Ek & Eh & Ec)
    by (by apply NewRecord_fields in Hnew).
  destruct (NewRecord_pending sp r p Hun Hnew) as (Et & Ep & Hv & Hexp).
  rewrite Ek in Hexp. specialize (Hexp Hadm).
  rewrite Put_steps in Hput by done. fold (put_result r (sp_Now sp) s) in Hput. cbv zeta in Hput.
  assert (s1 = (put_result r (sp_Now sp) s).1) as ->.
  { destruct (rows s !! put_key r); [destruct (time_After _ _)|]; congruence. }
  pose proof (put_result_row r (sp_Now sp) s Hs Hq Hv) as Hrow.
  unfold put_key in Hrow. rewrite Et, Ek, Eh in Hrow.
  pose proof (stored_row_ok r Hv) as Hok. pose proof (proj2 (proj1 (Validate_None r) Hv)) as Hck.
  apply checkRow_None in Hck. simpl in Hck.
  assert (lookupKey (p_tenant p) (sp_Kind sp) (sp_HandleHash sp)
    = Ok (p_tenant p, sp_Kind sp, sp_HandleHash sp)) as Elk.
  { apply lookupKey_Ok. split; [|done]. rewrite <- Eh. lia. }
  unfold Consume. rewrite Elk, (proj2 (live_Some _ clk _ _) (conj Hrow (proj2 Hclk))).
  assert (checkRow (stored_row r) = None) as Hck'.
  { apply checkRow_None. unfold stored_ok in Hok. unfold stored_row in *. simpl in *.
    rewrite Ec in *. pose proof (time_Truncate_le (sp_Now sp) Microsecond).
    assert (0 < time_Truncate (sp_Now sp) Microsecond) as Hpos by (by apply truncate_pos).
    destruct_and!. split_and!; done || lia. }
  cbn [row]. unfold Restore. rewrite Hck'. eexists _, _. split; [done|].
  cbn [r_Pending stored_row RPending]. rewrite Ep. split; [done|].
  pose proof (time_Truncate_le (expiresAt r) Microsecond). lia.
Qed.

Lemma parked_login_resumes_witness :
  exists s2 x, Consume None (c0 + Second) acme MFAFlow (chash "a") cstore1 = (s2, Ok x) /\
  UnsealPending (r_Pending x) = Ok login1.
Proof.
  destruct (okb_pair (Put None c0 (flow (chash "a")) NewWithClock)) as (s1 & n & E);
    [vm_compute; reflexivity|].
  assert (s1 = cstore1) as -> by (unfold cstore1, put1, exec; rewrite E; reflexivity).
  destruct (parked_login_resumes 0 NewWithClock login1 (flow_spec (chash "a")) (flow (chash "a"))
              cstore1 n (c0 + Second)) as (s2 & x & H1 & H2 & _).
  - constructor.
  - vm_compute. congruence.
  - vm_compute. reflexivity.
  - exact login1_journey.
  - vm_compute. reflexivity.
  - vm_compute. reflexivity.
  - vm_compute. reflexivity.
  - vm_compute. congruence.
  - exact E.
  - vm_compute. split; congruence.
  - exists s2, x. split; [exact H1|exact H2].
Defined.
