(* ===== verification/PasskeyStore.v ===== *)
(** WebAuthn credentials and their in-memory store: store/passkey/store.go and
    store/passkey/memory/store.go.

    Credentials are kept under tenant and credential id.  [range] is the order in which Go's
    [range] visits the credentials, which the language leaves open. *)
From S2P Require Import Prelude Errors Tenant StoreBase.

Module Passkey.

Definition MaxCredentialIDLen : Z := 1023.

(** [DiscoverableState] is the byte it is in Go: [Valid] and [String] have a branch for a value
    outside the declared ones. *)
Abbreviation DiscoverableState := Z (only parsing).

Definition Legacy : DiscoverableState := 0.

Definition Confirmed : DiscoverableState := 1.

Definition Inferred : DiscoverableState := 2.

Definition Discoverable_Valid (d : DiscoverableState) : bool := d <=? Inferred.

Definition Discoverable_String (d : DiscoverableState) : string :=
  if d =? Legacy then "legacy"
  else if d =? Confirmed then "confirmed"
  else if d =? Inferred then "inferred"
  else "invalid".

Definition NeedsReregistration (d : DiscoverableState) : bool := d =? Legacy.

(** A pointer to an instant is an optional instant. *)
Record Credential := mkCredential {
  CSubject : Subject;
  ID : bytes;
  PublicKey : bytes;
  SignCount : Z;
  Data : bytes;
  CreatedAt : time;
  Nickname : string;
  LastUsedAt : option time;
  Transports : list string;
  BackupEligible : bool;
  BackupState : bool;
  Discoverable : DiscoverableState;
  SuspendedAt : option time }.

#[export] Instance Credential_eq_dec : EqDecision Credential.
Proof. solve_decision. Defined.

Definition Equal (c o : bytes) : bool := bool_decide (c = o).

Definition Active (c : Credential) : bool :=
  match SuspendedAt c with None => true | Some _ => false end.

Definition AcceptsSignCount (c : Credential) (next : Z) : bool :=
  (SignCount c <? next) || ((SignCount c =? 0) && (next =? 0)).

(** The fields Update writes, the counter and the suspension. *)
Definition set_metadata (v : Credential) (disc : DiscoverableState) (c : Credential) : Credential :=
  mkCredential (CSubject c) (ID c) (PublicKey c) (SignCount c) (Data c) (CreatedAt c) (Nickname v)
    (LastUsedAt v) (Transports v) (BackupEligible v) (BackupState v) disc (SuspendedAt c).

Definition set_SignCount (n : Z) (c : Credential) : Credential :=
  mkCredential (CSubject c) (ID c) (PublicKey c) n (Data c) (CreatedAt c) (Nickname c)
    (LastUsedAt c) (Transports c) (BackupEligible c) (BackupState c) (Discoverable c) (SuspendedAt c).

Definition set_SuspendedAt (t : option time) (c : Credential) : Credential :=
  mkCredential (CSubject c) (ID c) (PublicKey c) (SignCount c) (Data c) (CreatedAt c) (Nickname c)
    (LastUsedAt c) (Transports c) (BackupEligible c) (BackupState c) (Discoverable c) t.

End Passkey.

Module PasskeyMemory.
Import Passkey.

Abbreviation key := (TenantID * bytes)%type.

Record Store := mkStore { creds : gmap key Credential }.

Definition New_ : Store := mkStore ∅.

Definition Ping (ctx : Ctx) : res unit :=
  match ctx with Some err => Err err | None => Ok tt end.

Definition EraseTenant (ctx : Ctx) (t : TenantID) (s : Store) : Store * res unit :=
  match ctx with
  | Some err => (s, Err err)
  | None => (mkStore (filter (fun p => p.1.1 <> t) (creds s)), Ok tt)
  end.

Definition errInvalid (what : string) : error := New ("passkey: invalid credential " +:+ what).

Definition checkCredential (c : Credential) : option error :=
  if Subject_IsZero (CSubject c) then Some (errInvalid "subject")
  else if (Z.of_nat (length (ID c)) =? 0) || (MaxCredentialIDLen <? Z.of_nat (length (ID c)))
  then Some (errInvalid "credential id")
  else if Z.of_nat (length (PublicKey c)) =? 0 then Some (errInvalid "public key")
  else if negb (Discoverable_Valid (Discoverable c)) || (Discoverable c =? Legacy)
  then Some (errInvalid "discoverable state")
  else None.

Definition truncate (t : option time) : option time := (fun v => time_Truncate v Microsecond) <$> t.

Definition clone (c : Credential) : Credential :=
  mkCredential (CSubject c) (ID c) (PublicKey c) (SignCount c) (Data c)
    (time_Truncate (CreatedAt c) Microsecond) (Nickname c) (truncate (LastUsedAt c)) (Transports c)
    (BackupEligible c) (BackupState c) (Discoverable c) (truncate (SuspendedAt c)).

Definition keyOf (c : Credential) : key := (Tenant (CSubject c), ID c).

Definition Save (ctx : Ctx) (c : Credential) (s : Store) : Store * res unit :=
  match ctx with
  | Some err => (s, Err err)
  | None =>
      match checkCredential c with
      | Some err => (s, Err err)
      | None =>
          match creds s !! keyOf c with
          | Some _ => (s, Err ErrConflict)
          | None => (mkStore (<[keyOf c := clone c]> (creds s)), Ok tt)
          end
      end
  end.

(** [cmp.Or(a.CreatedAt.Compare(b.CreatedAt), bytes.Compare(a.ID, b.ID)) <= 0] *)
Definition cred_le (a b : Credential) : Prop :=
  CreatedAt a < CreatedAt b \/
  (CreatedAt a = CreatedAt b /\ String.le (bytes_str (ID a)) (bytes_str (ID b))).

#[export] Instance cred_le_dec : RelDecision cred_le.
Proof. intros a b. unfold cred_le. apply _. Defined.

Definition List_ (range : list key) (ctx : Ctx) (sub : Subject) (s : Store)
  : res (list Credential) :=
  match ctx with
  | Some err => Err err
  | None =>
      Ok (merge_sort cred_le
            (clone <$> List.filter (fun c => bool_decide (CSubject c = sub))
                         (omap (fun k => creds s !! k) range)))
  end.

Definition Get (ctx : Ctx) (t : TenantID) (id : bytes) (s : Store) : res Credential :=
  match ctx with
  | Some err => Err err
  | None => match creds s !! (t, id) with
            | None => Err ErrNotFound
            | Some c => Ok (clone c)
            end
  end.

Definition owned (sub : Subject) (id : bytes) (s : Store) : option Credential :=
  match creds s !! (Tenant sub, id) with
  | None => None
  | Some c => if negb (bool_decide (CSubject c = sub)) then None else Some c
  end.

Definition Update (ctx : Ctx) (c : Credential) (s : Store) : Store * res unit :=
  match ctx with
  | Some err => (s, Err err)
  | None =>
      if negb (Discoverable_Valid (Discoverable c)) then (s, Err (errInvalid "discoverable state"))
      else
        match owned (CSubject c) (ID c) s with
        | None => (s, Err ErrNotFound)
        | Some cur =>
            let v := clone c in
            let disc := if negb (Discoverable v =? Legacy) then Discoverable v
                        else Discoverable cur in
            (mkStore (<[keyOf c := set_metadata v disc cur]> (creds s)), Ok tt)
        end
  end.

Definition UpdateSignCount (ctx : Ctx) (sub : Subject) (id : bytes) (next : Z) (s : Store)
  : Store * res bool :=
  match ctx with
  | Some err => (s, Err err)
  | None =>
      match owned sub id s with
      | None => (s, Err ErrNotFound)
      | Some cur =>
          if negb (AcceptsSignCount cur next) then (s, Ok false)
          else (mkStore (<[(Tenant sub, id) := set_SignCount next cur]> (creds s)), Ok true)
      end
  end.

Definition Suspend (ctx : Ctx) (sub : Subject) (id : bytes) (at_ : time) (s : Store)
  : Store * res unit :=
  match ctx with
  | Some err => (s, Err err)
  | None =>
      match owned sub id s with
      | None => (s, Err ErrNotFound)
      | Some cur =>
          match SuspendedAt cur with
          | None => (mkStore (<[(Tenant sub, id) := set_SuspendedAt (truncate (Some at_)) cur]>
                                (creds s)), Ok tt)
          | Some _ => (s, Ok tt)
          end
      end
  end.

Definition Delete (ctx : Ctx) (sub : Subject) (id : bytes) (s : Store) : Store * res unit :=
  match ctx with
  | Some err => (s, Err err)
  | None =>
      match owned sub id s with
      | None => (s, Err ErrNotFound)
      | Some _ => (mkStore (delete (Tenant sub, id) (creds s)), Ok tt)
      end
  end.

Definition HasActive (ctx : Ctx) (sub : Subject) (s : Store) : res bool :=
  match ctx with
  | Some err => Err err
  | None => Ok (existsb (fun '(_, c) => bool_decide (CSubject c = sub) && Active c)
                  (map_to_list (creds s)))
  end.

Definition CountEnrolled (ctx : Ctx) (s : Store) : res Z :=
  match ctx with
  | Some err => Err err
  | None => Ok (Z.of_nat (size (list_to_set ((fun p => CSubject p.2) <$> map_to_list (creds s))
                                  : gset Subject)))
  end.

Definition AnyEnrolled (ctx : Ctx) (s : Store) : res bool :=
  n ← CountEnrolled ctx s; Ok (0 <? n).

Definition DeleteForSubject (ctx : Ctx) (sub : Subject) (s : Store) : Store * res unit :=
  match ctx with
  | Some err => (s, Err err)
  | None => (mkStore (filter (fun p => CSubject p.2 <> sub) (creds s)), Ok tt)
  end.

End PasskeyMemory.
