(* ===== verification/PasskeyProperties.v ===== *)
(** What the passkey store guarantees: credentials keep their identity, a counter never goes back, a
    suspension is final, and a subject's listing is exact. *)
From S2P Require Import Prelude Errors Tenant Journey StoreBase PasskeyStore.
Import Passkey PasskeyMemory.

(** ** Runs *)
Inductive passkey_op :=
  | PkSave (ctx : Ctx) (c : Credential)
  | PkUpdate (ctx : Ctx) (c : Credential)
  | PkUpdateSignCount (ctx : Ctx) (sub : Subject) (id : bytes) (next : Z)
  | PkSuspend (ctx : Ctx) (sub : Subject) (id : bytes) (at_ : time)
  | PkDelete (ctx : Ctx) (sub : Subject) (id : bytes)
  | PkDeleteForSubject (ctx : Ctx) (sub : Subject)
  | PkEraseTenant (ctx : Ctx) (t : TenantID).

Definition passkey_exec (o : passkey_op) (s : Store) : Store :=
  match o with
  | PkSave ctx c => (Save ctx c s).1
  | PkUpdate ctx c => (Update ctx c s).1
  | PkUpdateSignCount ctx sub id next => (UpdateSignCount ctx sub id next s).1
  | PkSuspend ctx sub id at_ => (Suspend ctx sub id at_ s).1
  | PkDelete ctx sub id => (Delete ctx sub id s).1
  | PkDeleteForSubject ctx sub => (DeleteForSubject ctx sub s).1
  | PkEraseTenant ctx t => (EraseTenant ctx t s).1
  end.

Definition passkey_step (s s' : Store) : Prop := exists o, s' = passkey_exec o s.

Definition passkey_reachable (s : Store) : Prop := rtc passkey_step New_ s.

(** A step that leaves the credential kept under [k] in the store. *)
Definition step_keeping (k : key) (s s' : Store) : Prop :=
  passkey_step s s' /\ is_Some (creds s' !! k).

(** ** Invariant *)

(** A stored credential: under its own key, with what checkCredential asked of it when it was saved
    and its instants kept to the microsecond. *)
Record cred_ok (k : key) (c : Credential) : Prop := {
  ok_key : keyOf c = k;
  ok_check : checkCredential c = None;
  ok_clone : clone c = c }.

Definition passkey_inv (s : Store) : Prop := forall k c, creds s !! k = Some c -> cred_ok k c.

Lemma truncate_idemp t : truncate (truncate t) = truncate t.
Proof. destruct t as [v|]; [|done]. simpl. by rewrite time_Truncate_idemp. Qed.

Lemma clone_idemp c : clone (clone c) = clone c.
Proof. unfold clone. simpl. by rewrite !truncate_idemp, time_Truncate_idemp. Qed.

Lemma checkCredential_fields c c' :
  CSubject c' = CSubject c -> ID c' = ID c -> PublicKey c' = PublicKey c ->
  Discoverable_Valid (Discoverable c') = true -> Discoverable c' <> Legacy ->
  checkCredential c = None -> checkCredential c' = None.
Proof.
  unfold checkCredential. intros -> -> -> Hv Hl H. repeat case_match; try done.
  bools. rewrite Hv in *. simpl in *. bools. done.
Qed.

Lemma clone_fields c : clone c = c <->
  time_Truncate (CreatedAt c) Microsecond = CreatedAt c /\ truncate (LastUsedAt c) = LastUsedAt c /\
  truncate (SuspendedAt c) = SuspendedAt c.
Proof. destruct c; unfold clone; simpl. split; [intros [= ]; done|intros (-> & -> & ->); done]. Qed.

Lemma cred_ok_discoverable k c :
  cred_ok k c -> Discoverable_Valid (Discoverable c) = true /\ Discoverable c <> Legacy.
Proof. intros [_ H _]. unfold checkCredential in H. repeat case_match; try done. by bools. Qed.

Lemma owned_Some sub id s c :
  owned sub id s = Some c <-> creds s !! (Tenant sub, id) = Some c /\ CSubject c = sub.
Proof.
  unfold owned. destruct (creds s !! _) as [x|]; [|naive_solver].
  case_bool_decide; simpl; naive_solver.
Qed.

Lemma cred_ok_SignCount k n c : cred_ok k c -> cred_ok k (set_SignCount n c).
Proof.
  intros Hc. destruct (cred_ok_discoverable k c Hc), Hc as [Hk Hc Hcl]. split; [done| |].
  - by apply (checkCredential_fields c).
  - apply clone_fields in Hcl. by apply clone_fields.
Qed.

Lemma cred_ok_Suspended k t c : cred_ok k c -> cred_ok k (set_SuspendedAt (truncate t) c).
Proof.
  intros Hc. destruct (cred_ok_discoverable k c Hc), Hc as [Hk Hc Hcl]. split; [done| |].
  - by apply (checkCredential_fields c).
  - apply clone_fields in Hcl as (? & ? & ?). apply clone_fields. simpl. by rewrite truncate_idemp.
Qed.

Lemma cred_ok_metadata k v d c :
  cred_ok k c -> Discoverable_Valid d = true -> d <> Legacy ->
  cred_ok k (set_metadata (clone v) d c).
Proof.
  intros [Hk Hc Hcl] Hv Hl. split; [done| |].
  - by apply (checkCredential_fields c).
  - apply clone_fields in Hcl as (? & ? & ?). apply clone_fields. simpl. by rewrite truncate_idemp.
Qed.

(** What an operation may do to the credential kept under a key: it never changes whose it is, its
    key material or its creation, the counter only grows, a suspension stays, and it never becomes
    a legacy credential again. *)
Record keeps (c c' : Credential) : Prop := {
  keeps_identity : (CSubject c', ID c', PublicKey c', Data c', CreatedAt c')
                   = (CSubject c, ID c, PublicKey c, Data c, CreatedAt c);
  keeps_count : SignCount c <= SignCount c';
  keeps_suspended : forall t, SuspendedAt c = Some t -> SuspendedAt c' = Some t }.

#[export] Instance keeps_preorder : PreOrder keeps.
Proof.
  split.
  - intros c. split; [done|lia|done].
  - intros a b c [E1 L1 S1] [E2 L2 S2]. split; [congruence|lia|auto].
Qed.

Lemma passkey_insert_inv k c s : passkey_inv s -> cred_ok k c -> passkey_inv (mkStore (<[k := c]> (creds s))).
Proof. intros Hs Hc k' c'. simpl. intros [[<- <-]|[_ H]]%lookup_insert_Some; [done|by apply Hs]. Qed.

Lemma passkey_filter_inv P `{forall x, Decision (P x)} s :
  passkey_inv s -> passkey_inv (mkStore (filter P (creds s))).
Proof. intros Hs k c. simpl. intros [H' _]%map_lookup_filter_Some. by apply Hs. Qed.

(** The three writes of an owned credential, at once. *)
Ltac split_owned :=
  match goal with
  | |- context [owned ?sub ?id ?s] =>
      let cur := fresh "cur" in let E := fresh "E" in
      destruct (owned sub id s) as [cur|] eqn:E; [apply owned_Some in E as [E Eown]|simpl]
  end.

Lemma passkey_exec_inv o s : passkey_inv s -> passkey_inv (passkey_exec o s).
Proof.
  intros Hs. destruct o as [[?|] c|[?|] c|[?|] sub id n|[?|] sub id t|[?|] sub id|[?|] sub|[?|] t];
    cbn [passkey_exec]; try exact Hs.
  - unfold Save. destruct (checkCredential c) eqn:Hc; [done|].
    destruct (creds s !! keyOf c); [done|]. apply passkey_insert_inv; [done|].
    split; [done| |apply clone_idemp]. exact Hc.
  - unfold Update. destruct (Discoverable_Valid (Discoverable c)) eqn:Hv; [|done]. simpl negb. cbv iota.
    split_owned; [|done]. destruct (cred_ok_discoverable _ _ (Hs _ _ E)) as [Hv' Hl'].
    apply passkey_insert_inv; [done|]. unfold keyOf. rewrite <- Eown.
    apply cred_ok_metadata; [by apply Hs; rewrite Eown| |]; simpl; case_match; bools; done.
  - unfold UpdateSignCount. split_owned; [|done].
    case_match; [done|]. apply passkey_insert_inv; [done|]. apply cred_ok_SignCount. by apply Hs.
  - unfold Suspend. split_owned; [|done].
    case_match; [done|]. apply passkey_insert_inv; [done|]. apply cred_ok_Suspended. by apply Hs.
  - unfold Delete. split_owned; [|done].
    intros k' c'. simpl. intros [_ H]%lookup_delete_Some. by apply Hs.
  - by apply passkey_filter_inv.
  - by apply passkey_filter_inv.
Qed.

Lemma passkey_reachable_inv s : passkey_reachable s -> passkey_inv s.
Proof.
  unfold passkey_reachable. intros H.
  assert (passkey_inv New_) as H0 by (intros k c; simpl; by rewrite lookup_empty).
  revert H0. induction H as [|? ? ? [o ->] _ IH]; [done|]. intros. apply IH. by apply passkey_exec_inv.
Qed.

Lemma passkey_insert_keeps s k0 c0 c1 k c c' :
  creds s !! k0 = Some c0 -> keeps c0 c1 -> creds s !! k = Some c ->
  <[k0 := c1]> (creds s) !! k = Some c' -> keeps c c'.
Proof.
  intros H0 Hk Hc [[<- <-]|[_ H]]%lookup_insert_Some; [congruence|].
  assert (c' = c) as -> by congruence. reflexivity.
Qed.

Lemma exec_keeps o s k c c' :
  creds s !! k = Some c -> creds (passkey_exec o s) !! k = Some c' -> keeps c c'.
Proof.
  intros Hc H.
  assert (creds s !! k = Some c' -> keeps c c') as Hid.
  { intros H'. assert (c' = c) as -> by congruence. reflexivity. }
  revert H. destruct o as [[?|] x|[?|] x|[?|] sub id n|[?|] sub id t|[?|] sub id|[?|] sub|[?|] t];
    cbn [passkey_exec]; try exact Hid.
  - unfold Save. destruct (checkCredential x); [exact Hid|].
    destruct (creds s !! keyOf x) eqn:E; [exact Hid|]. simpl.
    intros [[<- _]|[_ H]]%lookup_insert_Some; [congruence|auto].
  - unfold Update. case_match; [exact Hid|]. split_owned; [|exact Hid].
    apply (passkey_insert_keeps s _ cur); [unfold keyOf; done| |done]. split; [done|simpl; lia|done].
  - unfold UpdateSignCount. split_owned; [|exact Hid]. case_match eqn:Ha; [exact Hid|].
    apply (passkey_insert_keeps s _ cur); [done| |done].
    apply negb_false_iff in Ha. unfold AcceptsSignCount in Ha.
    split; [done| |done]. simpl. apply orb_true_iff in Ha as [?|?]; bools; lia.
  - unfold Suspend. split_owned; [|exact Hid].
    destruct (SuspendedAt cur) eqn:Hsus; [exact Hid|].
    apply (passkey_insert_keeps s _ cur); [done| |done]. split; [done|simpl; lia|congruence].
  - unfold Delete. split_owned; [|exact Hid]. simpl. intros [_ H]%lookup_delete_Some. auto.
  - simpl. intros [H _]%map_lookup_filter_Some. auto.
  - simpl. intros [H _]%map_lookup_filter_Some. auto.
Qed.

Lemma run_keeps k s s' c :
  rtc (step_keeping k) s s' -> creds s !! k = Some c ->
  exists c', creds s' !! k = Some c' /\ keeps c c'.
Proof.
  intros Hr. revert c. induction Hr as [s|s s1 s2 [[o ->] [c1 Hc1]] _ IH]; intros c Hc.
  - exists c. split; [done|reflexivity].
  - destruct (IH c1 Hc1) as (c' & H' & Hk). exists c'. split; [done|].
    etrans; [by eapply exec_keeps|done].
Qed.

(** ** Concrete values for the witnesses *)
Definition ada_key : Credential :=
  mkCredential ada [Byte.x01; Byte.x02] [Byte.x03] 5 [] (now0 + 1) "laptop" None ["usb"] true false
    Confirmed None.

Definition pk_save : passkey_op := PkSave None ada_key.

Definition pkstore1 : Store := passkey_exec pk_save New_.

Lemma pkstore1_reachable : passkey_reachable pkstore1.
Proof. apply rtc_once. by exists pk_save. Qed.

(** ** Properties *)

(** A cloned authenticator is detected.  Once UpdateSignCount has stored a non-zero counter,
    then after any run of operations that keeps the credential, however the ceremonies interleave,
    presenting that counter or a lower one again reports false and changes nothing. *)
Theorem passkey_counter_detects_clones s sub id next s1 s2 next' :
  UpdateSignCount None sub id next s = (s1, Ok true) -> 0 < next ->
  rtc (step_keeping (Tenant sub, id)) s1 s2 -> next' <= next ->
  UpdateSignCount None sub id next' s2 = (s2, Ok false).
Proof.
  unfold UpdateSignCount at 1. destruct (owned sub id s) as [cur|] eqn:E; [|done].
  apply owned_Some in E as [E Eown]. case_match; [done|]. intros [= <-] Hn Hrun Hn'.
  destruct (run_keeps _ _ _ (set_SignCount next cur) Hrun) as (c' & Hc' & [Hid Hcount _]).
  { simpl. apply lookup_insert_eq. }
  unfold UpdateSignCount. rewrite (proj2 (owned_Some sub id s2 c')).
  2:{ split; [done|]. injection Hid as -> _. done. }
  simpl in Hcount. unfold AcceptsSignCount.
  destruct (Z.ltb_spec (SignCount c') next'); [lia|].
  destruct (Z.eqb_spec (SignCount c') 0); [lia|]. done.
Qed.

Lemma passkey_counter_detects_clones_witness :
  UpdateSignCount None ada [Byte.x01; Byte.x02] 6 (UpdateSignCount None ada [Byte.x01; Byte.x02] 6 pkstore1).1
  = ((UpdateSignCount None ada [Byte.x01; Byte.x02] 6 pkstore1).1, Ok false).
Proof.
  apply (passkey_counter_detects_clones pkstore1 ada [Byte.x01; Byte.x02] 6
           (UpdateSignCount None ada [Byte.x01; Byte.x02] 6 pkstore1).1);
    [vm_compute; reflexivity|lia|apply rtc_refl|lia].
Defined.

(** A credential keeps its identity.  In every reachable state each credential sits under its own
    tenant and id and is one Save would accept; over any run that keeps it, its subject, id, public
    key, authenticator data and creation time never change, its counter never goes back, and once
    suspended it stays suspended since the same instant, so it never becomes active again. *)
Theorem passkey_credential_is_permanent s s' k c :
  passkey_reachable s -> creds s !! k = Some c -> rtc (step_keeping k) s s' ->
  keyOf c = k /\ checkCredential c = None /\ Get None k.1 k.2 s = Ok c /\
  exists c', Get None k.1 k.2 s' = Ok c' /\
    (CSubject c', ID c', PublicKey c', Data c', CreatedAt c')
    = (CSubject c, ID c, PublicKey c, Data c, CreatedAt c) /\
    SignCount c <= SignCount c' /\
    (forall t, SuspendedAt c = Some t -> SuspendedAt c' = Some t) /\
    (Active c = false -> Active c' = false).
Proof.
  intros Hs Hc Hrun. pose proof (passkey_reachable_inv s Hs) as Hinv.
  destruct (Hinv _ _ Hc) as [Hkey Hck Hcl]. split; [done|]. split; [done|].
  destruct k as [t id]. simpl. rewrite Hc. split; [by rewrite Hcl|].
  destruct (run_keeps _ _ _ _ Hrun Hc) as (c' & Hc' & [Hid Hn Hsus]).
  assert (passkey_inv s') as Hinv'.
  { apply passkey_reachable_inv. unfold passkey_reachable. etrans; [exact Hs|].
    clear -Hrun. induction Hrun as [|? ? ? [? _] _ IH]; [done|by eapply rtc_l]. }
  exists c'. rewrite Hc', (ok_clone _ _ (Hinv' _ _ Hc')).
  do 4 (split; [done|]). unfold Active. destruct (SuspendedAt c) as [u|]; [|done].
  by rewrite (Hsus u eq_refl).
Qed.

Lemma passkey_credential_is_permanent_witness :
  exists c, Get None acme [Byte.x01; Byte.x02] pkstore1 = Ok c /\ checkCredential c = None.
Proof.
  assert (creds pkstore1 !! (acme, [Byte.x01; Byte.x02]) = Some (clone ada_key)) as H
    by (vm_compute; reflexivity).
  destruct (passkey_credential_is_permanent pkstore1 pkstore1 (acme, [Byte.x01; Byte.x02])
              (clone ada_key) pkstore1_reachable H (rtc_refl _ _)) as (_ & Hck & Hg & _).
  exists (clone ada_key). split; [exact Hg|exact Hck].
Defined.

(** HasActive reads exactly whether the subject has a credential that is not suspended. *)
Lemma HasActive_true sub s :
  HasActive None sub s = Ok true <->
  exists k c, creds s !! k = Some c /\ CSubject c = sub /\ SuspendedAt c = None.
Proof.
  simpl. split.
  - intros [= H]. apply existsb_exists in H as ([k c] & Hin & [H1 H2]%andb_true_iff).
    apply list_elem_of_In, elem_of_map_to_list in Hin. bools. exists k, c.
    split; [done|]. split; [done|]. unfold Active in H2. by destruct (SuspendedAt c).
  - intros (k & c & Hc & Hsub & Hact). f_equal. apply existsb_exists. exists (k, c).
    split; [by apply list_elem_of_In, elem_of_map_to_list|].
    rewrite bool_decide_true by done. unfold Active. by rewrite Hact.
Qed.

(** ** Listing *)

(** An order in which Go's [range] may visit the credentials: each key once. *)
Definition visits (range : list key) (s : Store) : Prop :=
  NoDup range /\ forall k, k ∈ range <-> is_Some (creds s !! k).

#[export] Instance cred_le_trans : Transitive cred_le.
Proof.
  intros a b c [?|[? ?]] [?|[? ?]]; [left; lia..|right]. split; [lia|by etrans].
Qed.

#[export] Instance cred_le_total : Total cred_le.
Proof.
  intros a b. destruct (Z.lt_trichotomy (CreatedAt a) (CreatedAt b)) as [?|[?|?]];
    [by left; left| |by right; left].
  destruct (total String.le (bytes_str (ID a)) (bytes_str (ID b))); [left|right]; by right.
Qed.

Lemma visited_elem range s c :
  visits range s -> c ∈ omap (fun k => creds s !! k) range <-> exists k, creds s !! k = Some c.
Proof.
  intros [_ Hr]. rewrite list_elem_of_omap. split; [naive_solver|]. intros [k Hk].
  exists k. split; [by apply Hr; eexists|done].
Qed.

Lemma visited_NoDup range s :
  passkey_inv s -> visits range s -> NoDup (omap (fun k => creds s !! k) range).
Proof.
  intros Hs [Hnd _]. induction Hnd as [|k range Hk Hnd IH]; simpl; [constructor|].
  destruct (creds s !! k) as [c|] eqn:E; [|done]. constructor; [|done].
  rewrite list_elem_of_omap. intros (k' & Hk' & E'). apply Hk.
  destruct (Hs _ _ E) as [<- _ _], (Hs _ _ E') as [Heq _ _]. by rewrite Heq.
Qed.

(** The credentials of a subject in the order of the visit: what List sorts. *)
Definition listed (range : list key) (sub : Subject) (s : Store) : list Credential :=
  List.filter (fun c => bool_decide (CSubject c = sub)) (omap (fun k => creds s !! k) range).

Lemma listed_elem range s sub c :
  visits range s ->
  c ∈ listed range sub s <-> CSubject c = sub /\ exists k, creds s !! k = Some c.
Proof.
  intros Hr. unfold listed.
  rewrite list_elem_of_In, filter_In, <- list_elem_of_In, (visited_elem range s c Hr).
  rewrite bool_decide_eq_true. tauto.
Qed.

Lemma listed_NoDup range s sub : passkey_inv s -> visits range s -> NoDup (listed range sub s).
Proof.
  intros Hs Hr. apply NoDup_ListNoDup, List.NoDup_filter, NoDup_ListNoDup. by apply visited_NoDup.
Qed.

Lemma listed_clone range s sub :
  passkey_inv s -> visits range s -> clone <$> listed range sub s = listed range sub s.
Proof.
  intros Hs Hr.
  assert (Forall (fun c => clone c = c) (listed range sub s)) as Hc.
  { apply Forall_forall. intros c [_ [k Hk]]%(listed_elem range s sub c Hr).
    apply (ok_clone _ _ (Hs _ _ Hk)). }
  induction Hc as [|c l Hcl _ IH]; [done|]. by rewrite fmap_cons, Hcl, IH.
Qed.

Lemma listed_antisymm s sub a b k k' :
  passkey_inv s -> creds s !! k = Some a -> creds s !! k' = Some b ->
  CSubject a = sub -> CSubject b = sub -> cred_le a b -> cred_le b a -> a = b.
Proof.
  intros Hs Ha Hb Ea Eb Hab Hba.
  assert (ID a = ID b) as Eid.
  { destruct Hab as [?|[? Hab]], Hba as [?|[? Hba]]; try lia.
    apply (inj bytes_str). by apply (anti_symm String.le). }
  destruct (Hs _ _ Ha) as [Ka _ _], (Hs _ _ Hb) as [Kb _ _].
  assert (k = k') as -> by (rewrite <- Ka, <- Kb; unfold keyOf; congruence). congruence.
Qed.

(** List is exact.  Whatever the order in which the map is visited, it returns every credential of
    the subject, suspended ones included, each once and no other, as stored, ordered by creation
    and then by id; the order of the visit cannot be observed. *)
Theorem passkey_list_is_exact s range range' sub :
  passkey_reachable s -> visits range s -> visits range' s ->
  exists out, List_ range None sub s = Ok out /\ List_ range' None sub s = Ok out /\
    Sorted cred_le out /\ NoDup out /\
    forall c, c ∈ out <-> CSubject c = sub /\ exists k, creds s !! k = Some c.
Proof.
  intros Hs%passkey_reachable_inv Hr Hr'. unfold List_. fold (listed range sub s) (listed range' sub s).
  rewrite !listed_clone by done.
  exists (merge_sort cred_le (listed range sub s)).
  assert (merge_sort cred_le (listed range' sub s) = merge_sort cred_le (listed range sub s)) as ->.
  { apply (Sorted_unique_strong cred_le); [|apply Sorted_merge_sort, _..|].
    - intros a b. rewrite !merge_sort_Permutation, !listed_elem by done.
      intros [? [k ?]] [? [k' ?]]. by apply (listed_antisymm s sub a b k k').
    - rewrite !merge_sort_Permutation. apply NoDup_Permutation; [by apply listed_NoDup..|].
      intros c. by rewrite !listed_elem. }
  split; [done|]. split; [done|]. split; [apply Sorted_merge_sort, _|].
  split; [rewrite merge_sort_Permutation; by apply listed_NoDup|].
  intros c. rewrite merge_sort_Permutation. by apply listed_elem.
Qed.

Lemma passkey_list_is_exact_witness :
  exists out, List_ [(acme, [Byte.x01; Byte.x02])] None ada pkstore1 = Ok out /\
    clone ada_key ∈ out.
Proof.
  assert (visits [(acme, [Byte.x01; Byte.x02])] pkstore1) as Hv.
  { split; [apply NoDup_singleton|]. intros k. rewrite list_elem_of_singleton.
    change (creds pkstore1) with (<[(acme, [Byte.x01; Byte.x02]) := clone ada_key]> (∅ : gmap key Credential)).
    rewrite lookup_insert_is_Some, lookup_empty. split; [by left|].
    intros [?|[_ [? H]]]; [done|discriminate H]. }
  destruct (passkey_list_is_exact pkstore1 _ _ ada pkstore1_reachable Hv Hv)
    as (out & H & _ & _ & _ & He).
  exists out. split; [exact H|]. apply He. split; [vm_compute; reflexivity|].
  exists (acme, [Byte.x01; Byte.x02]). vm_compute. reflexivity.
Defined.
