(* ===== verification/MfaStore.v ===== *)
(** TOTP enrollments, recovery codes and their lockouts: store/mfa/store.go and the in-memory store
    store/mfa/memory/store.go.

    Enrollments, recovery codes and the recovery counters are kept per subject; the TOTP counter is
    part of the enrollment.  The store's [now] is read from the [clk] argument. *)
From S2P Require Import Prelude Errors Tenant StoreBase.

Module MfaTypes.

Definition AADVersionLegacy : Z := 0.

Definition AADVersionCurrent : Z := 1.

(** A pointer to an instant is an optional instant. *)
Record Enrollment := mkEnrollment {
  ESubject : Subject;
  Sealed : bytes;
  AADVersion : Z;
  ConfirmedAt : option time;
  LastUsedStep : Z;
  FailedAttempts : Z;
  LastAttemptAt : time;
  CreatedAt : time }.

Definition Confirmed (e : Enrollment) : bool :=
  match ConfirmedAt e with Some _ => true | None => false end.

Record Lockout := mkLockout { LSubject : Subject; Now : time; Max : Z; Duration : duration }.

Record SealedRef := mkSealedRef { RefSubject : Subject }.

Record V016Row := mkV016Row { V_Ref : SealedRef; V_Sealed : bytes }.

Record Reseal := mkReseal { R_Ref : SealedRef; Old : bytes; New_ : bytes }.

(** The fields the store writes in place. *)
Definition set_attempts (failed : Z) (last : time) (e : Enrollment) : Enrollment :=
  mkEnrollment (ESubject e) (Sealed e) (AADVersion e) (ConfirmedAt e) (LastUsedStep e) failed last
    (CreatedAt e).

Definition set_LastUsedStep (step : Z) (e : Enrollment) : Enrollment :=
  mkEnrollment (ESubject e) (Sealed e) (AADVersion e) (ConfirmedAt e) step (FailedAttempts e)
    (LastAttemptAt e) (CreatedAt e).

Definition set_CreatedAt (t : time) (e : Enrollment) : Enrollment :=
  mkEnrollment (ESubject e) (Sealed e) (AADVersion e) (ConfirmedAt e) (LastUsedStep e)
    (FailedAttempts e) (LastAttemptAt e) t.

Definition set_Sealed (b : bytes) (version : Z) (e : Enrollment) : Enrollment :=
  mkEnrollment (ESubject e) b version (ConfirmedAt e) (LastUsedStep e) (FailedAttempts e)
    (LastAttemptAt e) (CreatedAt e).

End MfaTypes.

Module MfaMemory.
Import MfaTypes.

Record totpRow := mkTotpRow { enr : Enrollment; seq : Z }.

Record recoveryCode := mkRecoveryCode { used : bool }.

Record counter := mkCounter { failed : Z; last : time }.

Definition zero_counter : counter := mkCounter 0 time_zero.

Record Store := mkStore {
  totp : gmap Subject totpRow;
  codes : gmap Subject (gmap string recoveryCode);
  recovery : gmap Subject counter;
  s_seq : Z }.

Definition NewWithClock : Store := mkStore ∅ ∅ ∅ 0.

Definition Ping (ctx : Ctx) : res unit :=
  match ctx with Some err => Err err | None => Ok tt end.

Definition EraseTenant (ctx : Ctx) (t : TenantID) (s : Store) : Store * res unit :=
  match ctx with
  | Some err => (s, Err err)
  | None =>
      (mkStore (filter (fun p => Tenant p.1 <> t) (totp s)) (filter (fun p => Tenant p.1 <> t) (codes s))
         (filter (fun p => Tenant p.1 <> t) (recovery s)) (s_seq s), Ok tt)
  end.

Definition checkEnrollment (e : Enrollment) : option error :=
  if Subject_IsZero (ESubject e) then Some (errInvalidSubject : error)
  else if negb (AADVersion e =? AADVersionCurrent) then Some (ErrLegacyAADVersion : error)
  else if (Z.of_nat (length (Sealed e)) =? 0) || (FailedAttempts e <? 0)
  then Some (errInvalidEnrollment : error)
  else None.

(** The loop of checkHashes: [seen] holds the hashes met so far. *)
Fixpoint checkHashes_loop (seen : gset string) (hashes : list string) : option error :=
  match hashes with
  | [] => None
  | h :: hs =>
      if bool_decide (h = "") then Some (errInvalidCodeHashes : error)
      else if bool_decide (h ∈ seen) then Some (errInvalidCodeHashes : error)
      else checkHashes_loop ({[h]} ∪ seen) hs
  end.

Definition checkHashes (hashes : list string) : option error := checkHashes_loop ∅ hashes.

Definition checkLockout (l : Lockout) : option error :=
  if Subject_IsZero (LSubject l) then Some (errInvalidSubject : error)
  else if (Max l <? 1) || (Duration l <? 0) || time_IsZero (Now l)
  then Some (errInvalidLockout : error)
  else None.

Definition clonePtr (t : option time) : option time := (fun v => time_Truncate v Microsecond) <$> t.

(** What put keeps of an enrollment: instants to the microsecond, the creation filled in. *)
Definition stored (now : time) (e : Enrollment) : Enrollment :=
  let created := if time_IsZero (CreatedAt e) then now else CreatedAt e in
  mkEnrollment (ESubject e) (Sealed e) (AADVersion e) (clonePtr (ConfirmedAt e)) (LastUsedStep e)
    (FailedAttempts e)
    (if negb (time_IsZero (LastAttemptAt e)) then time_Truncate (LastAttemptAt e) Microsecond
     else LastAttemptAt e)
    (time_Truncate created Microsecond).

Definition put (clk : time) (e : Enrollment) (s : Store) : Store :=
  match totp s !! ESubject e with
  | Some row =>
      mkStore (<[ESubject e := mkTotpRow (stored (store_now clk) e) (seq row)]> (totp s)) (codes s)
        (recovery s) (s_seq s)
  | None =>
      let seq' := u64 (s_seq s + 1) in
      mkStore (<[ESubject e := mkTotpRow (stored (store_now clk) e) seq']> (totp s)) (codes s)
        (recovery s) seq'
  end.

Definition out (r : totpRow) : Enrollment :=
  let e := enr r in
  mkEnrollment (ESubject e) (Sealed e) (AADVersion e) (clonePtr (ConfirmedAt e)) (LastUsedStep e)
    (FailedAttempts e) (LastAttemptAt e) (CreatedAt e).

Definition SaveTOTP (ctx : Ctx) (clk : time) (e : Enrollment) (s : Store) : Store * res unit :=
  match ctx with
  | Some err => (s, Err err)
  | None => match checkEnrollment e with
            | Some err => (s, Err err)
            | None => (put clk e s, Ok tt)
            end
  end.

Definition GetTOTP (ctx : Ctx) (sub : Subject) (s : Store) : res Enrollment :=
  match ctx with
  | Some err => Err err
  | None => match totp s !! sub with
            | None => Err ErrNotFound
            | Some r => Ok (out r)
            end
  end.

Definition DeleteTOTP (ctx : Ctx) (sub : Subject) (s : Store) : Store * res unit :=
  match ctx with
  | Some err => (s, Err err)
  | None => (mkStore (delete sub (totp s)) (codes s) (recovery s) (s_seq s), Ok tt)
  end.

Definition HasConfirmedTOTP (ctx : Ctx) (sub : Subject) (s : Store) : res bool :=
  match ctx with
  | Some err => Err err
  | None => Ok (match totp s !! sub with Some r => Confirmed (enr r) | None => false end)
  end.

(** The subjects with a TOTP enrollment or an unused recovery code. *)
Definition enrolled (s : Store) : gset Subject :=
  dom (totp s) ∪
  dom (filter (fun p => existsb (fun '(_, c) => negb (used c)) (map_to_list p.2) = true) (codes s)).

Definition CountEnrolled (ctx : Ctx) (s : Store) : res Z :=
  match ctx with
  | Some err => Err err
  | None => Ok (Z.of_nat (size (enrolled s)))
  end.

Definition AnyEnrolled (ctx : Ctx) (s : Store) : res bool :=
  n ← CountEnrolled ctx s; Ok (0 <? n).

(** Writes the enrollment of a row in place. *)
Definition set_totp (sub : Subject) (e : Enrollment) (r : totpRow) (s : Store) : Store :=
  mkStore (<[sub := mkTotpRow e (seq r)]> (totp s)) (codes s) (recovery s) (s_seq s).

Definition MarkTOTPUsed (ctx : Ctx) (sub : Subject) (step : Z) (s : Store) : Store * res bool :=
  match ctx with
  | Some err => (s, Err err)
  | None =>
      match totp s !! sub with
      | None => (s, Ok false)
      | Some r =>
          if step <=? LastUsedStep (enr r) then (s, Ok false)
          else (set_totp sub (set_attempts 0 time_zero (set_LastUsedStep step (enr r))) r s, Ok true)
      end
  end.

Definition bump (c : counter) (l : Lockout) : counter * Z :=
  let now := time_Truncate (Now l) Microsecond in
  if failed c <? Max l
  then let n := mkCounter (failed c + 1) now in (n, failed n)
  else if (0 <? Duration l) && negb (time_IsZero (last c)) && (Duration l <? time_Sub now (last c))
  then (mkCounter 1 now, 1)
  else (c, Max l + 1).

Definition IncrementTOTPAttempts (ctx : Ctx) (l : Lockout) (s : Store) : Store * res Z :=
  match ctx with
  | Some err => (s, Err err)
  | None =>
      match checkLockout l with
      | Some err => (s, Err err)
      | None =>
          match totp s !! LSubject l with
          | None => (s, Err ErrNotFound)
          | Some r =>
              let '(next, n) := bump (mkCounter (FailedAttempts (enr r)) (LastAttemptAt (enr r))) l in
              (set_totp (LSubject l) (set_attempts (failed next) (last next) (enr r)) r s, Ok n)
          end
      end
  end.

(** Clears the TOTP counter of a subject that has an enrollment. *)
Definition clear_attempts (sub : Subject) (s : Store) : Store :=
  match totp s !! sub with
  | Some r => set_totp sub (set_attempts 0 time_zero (enr r)) r s
  | None => s
  end.

Definition ResetTOTPAttempts (ctx : Ctx) (sub : Subject) (s : Store) : Store * res unit :=
  match ctx with
  | Some err => (s, Err err)
  | None => (clear_attempts sub s, Ok tt)
  end.

Definition replaceCodes (sub : Subject) (hashes : list string) (s : Store) : Store :=
  let recovery' := delete sub (recovery s) in
  let codes' := delete sub (codes s) in
  if Z.of_nat (length hashes) =? 0 then mkStore (totp s) codes' recovery' (s_seq s)
  else
    let set := fold_left (fun m h => <[h := mkRecoveryCode false]> m) hashes ∅ in
    mkStore (totp s) (<[sub := set]> codes') recovery' (s_seq s).

Definition ConfirmEnrollment (ctx : Ctx) (clk : time) (e : Enrollment) (codeHashes : list string)
    (s : Store) : Store * res unit :=
  match ctx with
  | Some err => (s, Err err)
  | None =>
      match checkEnrollment e with
      | Some err => (s, Err err)
      | None =>
          match ConfirmedAt e with
          | None => (s, Err errInvalidEnrollment)
          | Some _ =>
              match checkHashes codeHashes with
              | Some err => (s, Err err)
              | None =>
                  let e :=
                    match totp s !! ESubject e with
                    | Some cur =>
                        let c := enr cur in
                        let e := set_LastUsedStep (Z.max (LastUsedStep e) (LastUsedStep c)) e in
                        let e := set_attempts (FailedAttempts c) (LastAttemptAt c) e in
                        if time_IsZero (CreatedAt e) then set_CreatedAt (CreatedAt c) e else e
                    | None => e
                    end in
                  (replaceCodes (ESubject e) codeHashes (put clk e s), Ok tt)
              end
          end
      end
  end.

Definition ReplaceRecoveryCodes (ctx : Ctx) (sub : Subject) (codeHashes : list string) (s : Store)
  : Store * res unit :=
  match ctx with
  | Some err => (s, Err err)
  | None =>
      if Subject_IsZero sub then (s, Err errInvalidSubject)
      else match checkHashes codeHashes with
           | Some err => (s, Err err)
           | None => (replaceCodes sub codeHashes s, Ok tt)
           end
  end.

Definition ConsumeRecoveryCode (ctx : Ctx) (sub : Subject) (codeHash : string) (s : Store)
  : Store * res unit :=
  match ctx with
  | Some err => (s, Err err)
  | None =>
      match codes s !! sub with
      | None => (s, Err ErrNotFound)
      | Some set =>
          match set !! codeHash with
          | None => (s, Err ErrNotFound)
          | Some c =>
              if used c then (s, Err ErrNotFound)
              else
                let s := mkStore (totp s) (<[sub := <[codeHash := mkRecoveryCode true]> set]> (codes s))
                           (recovery s) (s_seq s) in
                let s := clear_attempts sub s in
                (mkStore (totp s) (codes s) (delete sub (recovery s)) (s_seq s), Ok tt)
          end
      end
  end.

Definition DeleteRecoveryCodes (ctx : Ctx) (sub : Subject) (s : Store) : Store * res unit :=
  match ctx with
  | Some err => (s, Err err)
  | None => (replaceCodes sub [] s, Ok tt)
  end.

Definition IncrementRecoveryAttempts (ctx : Ctx) (l : Lockout) (s : Store) : Store * res Z :=
  match ctx with
  | Some err => (s, Err err)
  | None =>
      match checkLockout l with
      | Some err => (s, Err err)
      | None =>
          let cur := default zero_counter (recovery s !! LSubject l) in
          let '(next, n) := bump cur l in
          (mkStore (totp s) (codes s) (<[LSubject l := next]> (recovery s)) (s_seq s), Ok n)
      end
  end.

Definition ResetRecoveryAttempts (ctx : Ctx) (sub : Subject) (s : Store) : Store * res unit :=
  match ctx with
  | Some err => (s, Err err)
  | None => (mkStore (totp s) (codes s) (delete sub (recovery s)) (s_seq s), Ok tt)
  end.

Definition DeleteForSubject (ctx : Ctx) (sub : Subject) (s : Store) : Store * res unit :=
  match ctx with
  | Some err => (s, Err err)
  | None => (mkStore (delete sub (totp s)) (delete sub (codes s)) (delete sub (recovery s)) (s_seq s),
             Ok tt)
  end.

Definition CountLegacySealed (ctx : Ctx) (s : Store) : res Z :=
  match ctx with
  | Some err => Err err
  | None => Ok (Z.of_nat (size (filter (fun p => AADVersion (enr p.2) = AADVersionLegacy) (totp s))))
  end.

Definition seq_le (a b : totpRow) : Prop := seq a <= seq b.

#[export] Instance seq_le_dec : RelDecision seq_le.
Proof. intros a b. unfold seq_le. apply _. Defined.

(** [range] is the order in which Go visits the enrollments. *)
Definition V016Sealed (range : list Subject) (ctx : Ctx) (after : Cursor) (limit : Z) (s : Store)
  : list V016Row * Cursor * option error :=
  match ctx with
  | Some err => ([], after, Some err)
  | None =>
      if limit <? 1 then ([], after, Some (New "mfa: limit must be positive"))
      else
        let rows := List.filter (fun r => (AADVersion (enr r) =? AADVersionLegacy)
                                            && (Position after <? seq r))
                      (omap (fun sub => totp s !! sub) range) in
        let rows := merge_sort seq_le rows in
        let rows := if limit <? Z.of_nat (length rows) then take (Z.to_nat limit) rows else rows in
        let '(out, next) :=
          fold_left (fun '(out, next) r =>
                       (out ++ [mkV016Row (mkSealedRef (ESubject (enr r))) (Sealed (enr r))],
                        RestoreCursor (seq r))) rows ([], after) in
        (out, next, None)
  end.

Definition ReplaceSealed (ctx : Ctx) (r : Reseal) (s : Store) : Store * res bool :=
  match ctx with
  | Some err => (s, Err err)
  | None =>
      if Subject_IsZero (RefSubject (R_Ref r)) || (Z.of_nat (length (Old r)) =? 0)
         || (Z.of_nat (length (New_ r)) =? 0)
      then (s, Err errInvalidReseal)
      else
        match totp s !! RefSubject (R_Ref r) with
        | None => (s, Ok false)
        | Some row =>
            if negb (bool_decide (Sealed (enr row) = Old r)) then (s, Ok false)
            else (set_totp (RefSubject (R_Ref r)) (set_Sealed (New_ r) AADVersionCurrent (enr row)) row s,
                  Ok true)
        end
  end.

End MfaMemory.
