(* ===== verification/MfaProperties.v ===== *)
(** What the MFA store guarantees: a TOTP step and a recovery code are accepted once, failed attempts
    are bounded by the lockout, and confirming an enrollment never rolls a guard back. *)
From S2P Require Import Prelude Errors Tenant Journey StoreBase MfaStore.
Import MfaTypes MfaMemory.

(** ** Runs *)
Inductive mfa_op :=
  | MfSaveTOTP (ctx : Ctx) (clk : time) (e : Enrollment)
  | MfDeleteTOTP (ctx : Ctx) (sub : Subject)
  | MfMarkTOTPUsed (ctx : Ctx) (sub : Subject) (step : Z)
  | MfIncrementTOTPAttempts (ctx : Ctx) (l : Lockout)
  | MfResetTOTPAttempts (ctx : Ctx) (sub : Subject)
  | MfConfirmEnrollment (ctx : Ctx) (clk : time) (e : Enrollment) (hashes : list string)
  | MfReplaceRecoveryCodes (ctx : Ctx) (sub : Subject) (hashes : list string)
  | MfConsumeRecoveryCode (ctx : Ctx) (sub : Subject) (hash : string)
  | MfDeleteRecoveryCodes (ctx : Ctx) (sub : Subject)
  | MfIncrementRecoveryAttempts (ctx : Ctx) (l : Lockout)
  | MfResetRecoveryAttempts (ctx : Ctx) (sub : Subject)
  | MfDeleteForSubject (ctx : Ctx) (sub : Subject)
  | MfEraseTenant (ctx : Ctx) (t : TenantID)
  | MfReplaceSealed (ctx : Ctx) (r : Reseal).

Definition mfa_exec (o : mfa_op) (s : Store) : Store :=
  match o with
  | MfSaveTOTP ctx clk e => (SaveTOTP ctx clk e s).1
  | MfDeleteTOTP ctx sub => (DeleteTOTP ctx sub s).1
  | MfMarkTOTPUsed ctx sub step => (MarkTOTPUsed ctx sub step s).1
  | MfIncrementTOTPAttempts ctx l => (IncrementTOTPAttempts ctx l s).1
  | MfResetTOTPAttempts ctx sub => (ResetTOTPAttempts ctx sub s).1
  | MfConfirmEnrollment ctx clk e hashes => (ConfirmEnrollment ctx clk e hashes s).1
  | MfReplaceRecoveryCodes ctx sub hashes => (ReplaceRecoveryCodes ctx sub hashes s).1
  | MfConsumeRecoveryCode ctx sub hash => (ConsumeRecoveryCode ctx sub hash s).1
  | MfDeleteRecoveryCodes ctx sub => (DeleteRecoveryCodes ctx sub s).1
  | MfIncrementRecoveryAttempts ctx l => (IncrementRecoveryAttempts ctx l s).1
  | MfResetRecoveryAttempts ctx sub => (ResetRecoveryAttempts ctx sub s).1
  | MfDeleteForSubject ctx sub => (DeleteForSubject ctx sub s).1
  | MfEraseTenant ctx t => (EraseTenant ctx t s).1
  | MfReplaceSealed ctx r => (ReplaceSealed ctx r s).1
  end.

(** [mfa_run os s] is the state after the operations [os]. *)
Definition mfa_run (os : list mfa_op) (s : Store) : Store := fold_left (fun s o => mfa_exec o s) os s.

(** The operations that start or remove the enrollment of [sub]. *)
Definition restarts (sub : Subject) (o : mfa_op) : bool :=
  match o with
  | MfSaveTOTP _ _ e => bool_decide (ESubject e = sub)
  | MfDeleteTOTP _ s | MfDeleteForSubject _ s => bool_decide (s = sub)
  | MfEraseTenant _ t => bool_decide (t = Tenant sub)
  | _ => false
  end.

(** The operations that issue the recovery code [h] to [sub]. *)
Definition issues (sub : Subject) (h : string) (o : mfa_op) : bool :=
  match o with
  | MfConfirmEnrollment _ _ e hs => bool_decide (ESubject e = sub) && bool_decide (h ∈ hs)
  | MfReplaceRecoveryCodes _ s hs => bool_decide (s = sub) && bool_decide (h ∈ hs)
  | _ => false
  end.

(** ** Lemmas on the helpers *)

(** The step guard of a subject never goes back: [step_le sub s s']. *)
Definition step_at_least (sub : Subject) (step : Z) (s : Store) : Prop :=
  exists r, totp s !! sub = Some r /\ step <= LastUsedStep (enr r).

Lemma set_totp_step sub step sub' e r s :
  totp s !! sub' = Some r -> LastUsedStep (enr r) <= LastUsedStep e ->
  step_at_least sub step s -> step_at_least sub step (set_totp sub' e r s).
Proof.
  intros Hr Hle (x & Hx & Hstep). unfold step_at_least, set_totp. simpl.
  destruct (decide (sub' = sub)) as [->|Hne].
  - rewrite lookup_insert_eq. eexists. split; [done|]. simpl. simplify_eq. lia.
  - rewrite lookup_insert_ne by done. eauto.
Qed.

Lemma totp_replaceCodes sub hs s : totp (replaceCodes sub hs s) = totp s.
Proof. unfold replaceCodes. by case_match. Qed.

Lemma codes_clear_attempts sub s : codes (clear_attempts sub s) = codes s.
Proof. unfold clear_attempts. by case_match. Qed.

Lemma codes_put clk e s : codes (put clk e s) = codes s.
Proof. unfold put. by case_match. Qed.

Lemma clear_attempts_step sub step sub' s :
  step_at_least sub step s -> step_at_least sub step (clear_attempts sub' s).
Proof.
  intros H. unfold clear_attempts. case_match eqn:E; [|done]. by apply set_totp_step.
Qed.

Lemma put_step sub step clk e s :
  (ESubject e = sub -> step <= LastUsedStep e) ->
  step_at_least sub step s -> step_at_least sub step (put clk e s).
Proof.
  intros He (x & Hx & Hstep). unfold step_at_least, put.
  destruct (decide (ESubject e = sub)) as [E|Hne].
  - rewrite E, Hx. simpl. rewrite lookup_insert_eq. eexists. split; [done|]. simpl. auto.
  - case_match; simpl; rewrite lookup_insert_ne by done; eauto.
Qed.

Lemma exec_step_at_least o sub step s :
  restarts sub o = false -> step_at_least sub step s -> step_at_least sub step (mfa_exec o s).
Proof.
  intros Ho H. pose proof H as (x & Hx & Hstep).
  destruct o as [[?|] clk e|[?|] s'|[?|] s' st|[?|] l|[?|] s'|[?|] clk e hs|[?|] s' hs|[?|] s' h
                |[?|] s'|[?|] l|[?|] s'|[?|] s'|[?|] t|[?|] r]; cbn [mfa_exec]; try exact H; cbn in Ho; bools.
  - unfold SaveTOTP. case_match; [done|]. apply put_step; [|done]. congruence.
  - eexists. simpl. rewrite lookup_delete_ne by done. eauto.
  - unfold MarkTOTPUsed. case_match eqn:E; [|done]. case_match; [done|].
    apply set_totp_step; [done| |done]. simpl. bools. lia.
  - unfold IncrementTOTPAttempts. case_match; [done|]. case_match eqn:E; [|done].
    destruct (bump _ l) as [next n]. by apply set_totp_step.
  - by apply clear_attempts_step.
  - unfold ConfirmEnrollment. case_match; [done|]. case_match; [|done]. case_match; [done|]. simpl.
    unfold step_at_least. rewrite totp_replaceCodes.
    destruct (decide (ESubject e = sub)) as [E|Hne].
    + apply put_step; [|done]. intros _. rewrite E, Hx. case_match; simpl; lia.
    + apply put_step; [|done]. intros E. destruct Hne. rewrite <- E. repeat case_match; done.
  - unfold ReplaceRecoveryCodes. repeat (case_match; [done|]). unfold step_at_least. simpl.
    by rewrite totp_replaceCodes.
  - unfold ConsumeRecoveryCode. do 2 (case_match; [|done]). case_match; [done|].
    unfold step_at_least. simpl. fold (step_at_least sub step).
    match goal with |- exists r, totp (clear_attempts _ ?s1) !! _ = _ /\ _ =>
      apply (clear_attempts_step sub step s' s1) end. done.
  - unfold IncrementRecoveryAttempts. case_match; [done|]. by destruct (bump _ l).
  - eexists. simpl. rewrite lookup_delete_ne by done. eauto.
  - exists x. split; [|done]. simpl. apply map_lookup_filter_Some_2; [done|simpl; congruence].
  - unfold ReplaceSealed. case_match; [done|]. case_match eqn:E; [|done]. case_match; [done|].
    by apply set_totp_step.
Qed.

Lemma run_step_at_least os sub step s :
  Forall (fun o => restarts sub o = false) os -> step_at_least sub step s ->
  step_at_least sub step (mfa_run os s).
Proof.
  intros Hos. revert s. induction Hos as [|o os Ho _ IH]; intros s H; [done|].
  apply IH. by apply exec_step_at_least.
Qed.

(** [spent sub h s]: no unused recovery code [h] of [sub] is stored. *)
Definition spent (sub : Subject) (h : string) (s : Store) : Prop :=
  forall set c, codes s !! sub = Some set -> set !! h = Some c -> used c = true.

Lemma codes_of_hashes hs (m : gmap string recoveryCode) h :
  fold_left (fun m h => <[h := mkRecoveryCode false]> m) hs m !! h
  = if decide (h ∈ hs) then Some (mkRecoveryCode false) else m !! h.
Proof.
  revert m. induction hs as [|x hs IH]; intros m; cbn [fold_left].
  - by rewrite decide_False by apply not_elem_of_nil.
  - rewrite IH. destruct (decide (h ∈ hs)) as [Hin|Hin].
    + by rewrite decide_True by by right.
    + destruct (decide (h = x)) as [->|Hne].
      * by rewrite lookup_insert_eq, decide_True by left.
      * rewrite lookup_insert_ne, decide_False by (try rewrite elem_of_cons; naive_solver). done.
Qed.

Lemma spent_codes sub h s s' : codes s' = codes s -> spent sub h s -> spent sub h s'.
Proof. unfold spent. by intros ->. Qed.

Lemma replaceCodes_spent sub h sub' hs s :
  (sub' = sub -> h ∉ hs) -> spent sub h s -> spent sub h (replaceCodes sub' hs s).
Proof.
  intros Hh Hs set c. unfold replaceCodes. case_match; simpl.
  - intros [_ H']%lookup_delete_Some. by apply Hs.
  - intros [[-> <-]|[Hne [_ H']%lookup_delete_Some]]%lookup_insert_Some; [|by apply Hs].
    rewrite codes_of_hashes, decide_False by auto. by rewrite lookup_empty.
Qed.

Lemma exec_spent o sub h s :
  issues sub h o = false -> spent sub h s -> spent sub h (mfa_exec o s).
Proof.
  intros Ho Hs.
  destruct o as [[?|] clk e|[?|] s'|[?|] s' st|[?|] l|[?|] s'|[?|] clk e hs|[?|] s' hs|[?|] s' h'
                |[?|] s'|[?|] l|[?|] s'|[?|] s'|[?|] t|[?|] r]; cbn [mfa_exec]; try exact Hs; cbn in Ho.
  - unfold SaveTOTP. case_match; [done|]. eapply spent_codes, Hs. apply codes_put.
  - unfold MarkTOTPUsed. case_match; [|done]. by case_match.
  - unfold IncrementTOTPAttempts. case_match; [done|]. case_match; [|done]. by destruct (bump _ l).
  - eapply spent_codes, Hs. apply codes_clear_attempts.
  - unfold ConfirmEnrollment. case_match; [done|]. case_match; [|done]. case_match; [done|]. simpl.
    apply replaceCodes_spent; [|eapply spent_codes, Hs; apply codes_put].
    intros Hsub. apply andb_false_iff in Ho as [Ho|Ho]; bools; [|done].
    destruct Ho. rewrite <- Hsub. repeat case_match; done.
  - unfold ReplaceRecoveryCodes. repeat (case_match; [done|]). apply replaceCodes_spent; [|done].
    intros Hsub. apply andb_false_iff in Ho as [Ho|Ho]; bools; done.
  - unfold ConsumeRecoveryCode. do 2 (case_match; [|done]). case_match; [done|].
    intros set c. simpl. rewrite codes_clear_attempts. simpl.
    intros [[-> <-]|[_ H']]%lookup_insert_Some; [|by apply Hs].
    intros [[_ <-]|[_ H']]%lookup_insert_Some; [done|by eapply Hs].
  - apply replaceCodes_spent; [|done]. intros _. apply not_elem_of_nil.
  - unfold IncrementRecoveryAttempts. case_match; [done|]. by destruct (bump _ l).
  - intros set c. simpl. intros [_ H']%lookup_delete_Some. by apply Hs.
  - intros set c. simpl. intros [H' _]%map_lookup_filter_Some. by apply Hs.
  - unfold ReplaceSealed. case_match; [done|]. case_match; [|done]. by case_match.
Qed.

Lemma run_spent os sub h s :
  Forall (fun o => issues sub h o = false) os -> spent sub h s -> spent sub h (mfa_run os s).
Proof.
  intros Hos. revert s. induction Hos as [|o os Ho _ IH]; intros s H; [done|].
  apply IH. by apply exec_spent.
Qed.

(** ** Lockout *)

(** The answers of a sequence of Increment calls. *)
Fixpoint charge (inc : Lockout -> Store -> Store * res Z) (ls : list Lockout) (s : Store)
  : list (res Z) :=
  match ls with
  | [] => []
  | l :: ls' => let '(s', r) := inc l s in r :: charge inc ls' s'
  end.

(** The answers when [f] attempts are already charged: each call counts, and past [m] every one is
    answered [m + 1]. *)
Definition answers (f m : Z) (n : nat) : list (res Z) :=
  (fun i => Ok (Z.min (f + Z.of_nat i + 1) (m + 1))) <$> List.seq 0 n.

Lemma answers_S f m n :
  f <= m -> answers f m (S n) = Ok (Z.min (f + 1) (m + 1)) :: answers (Z.min (f + 1) m) m n.
Proof.
  intros Hf. unfold answers. cbn [List.seq]. rewrite fmap_cons. f_equal; [f_equal; lia|].
  rewrite <- List.seq_shift, <- list_fmap_compose. apply list_fmap_ext.
  intros i x _. unfold compose. f_equal. lia.
Qed.

(** One call within a window of [d] from [T]: no decay. *)
Lemma bump_window c l T :
  0 <= failed c <= Max l -> (failed c = Max l -> T <= last c) -> 0 <= Duration l ->
  T <= time_Truncate (Now l) Microsecond <= T + Duration l ->
  exists c', bump c l = (c', Z.min (failed c + 1) (Max l + 1)) /\
    failed c' = Z.min (failed c + 1) (Max l) /\ (failed c' = Max l -> T <= last c').
Proof.
  intros Hf Hl Hd Hw. unfold bump. destruct (Z.ltb_spec (failed c) (Max l)).
  - eexists. split; [simpl; f_equal; lia|]. simpl. lia.
  - assert ((0 <? Duration l) && negb (time_IsZero (last c))
            && (Duration l <? time_Sub (time_Truncate (Now l) Microsecond) (last c)) = false) as ->.
    { destruct (Z.ltb_spec 0 (Duration l)); [simpl|done].
      assert (time_Sub (time_Truncate (Now l) Microsecond) (last c) <= Duration l).
      { apply time_Sub_le_pos; [lia|]. pose proof (Hl ltac:(lia)). lia. }
      destruct (Z.ltb_spec (Duration l) (time_Sub (time_Truncate (Now l) Microsecond) (last c))); [lia|].
      by rewrite andb_false_r. }
    exists c. split; [f_equal; lia|]. split; [lia|]. intros. apply Hl. lia.
Qed.

Definition in_window (sub : Subject) (m : Z) (d : duration) (T : time) (l : Lockout) : Prop :=
  LSubject l = sub /\ Max l = m /\ Duration l = d /\ checkLockout l = None /\
  T <= time_Truncate (Now l) Microsecond <= T + d.

Lemma checkLockout_bounds l : checkLockout l = None -> 1 <= Max l /\ 0 <= Duration l.
Proof. unfold checkLockout. repeat case_match; try done. bools. lia. Qed.

Lemma charge_recovery sub m d T ls s c :
  Forall (in_window sub m d T) ls -> default zero_counter (recovery s !! sub) = c ->
  0 <= failed c <= m -> (failed c = m -> T <= last c) ->
  charge (IncrementRecoveryAttempts None) ls s = answers (failed c) m (length ls).
Proof.
  intros Hls. revert s c. induction Hls as [|l ls (<- & <- & <- & Hck & Hw) _ IH]; intros s c Hc Hf Hl; [done|].
  destruct (checkLockout_bounds l Hck).
  destruct (bump_window c l T Hf Hl ltac:(lia) Hw) as (c' & Hb & Hf' & Hl').
  cbn [charge length]. unfold IncrementRecoveryAttempts at 1. rewrite Hck, Hc, Hb.
  rewrite answers_S by lia. f_equal. rewrite <- Hf'. apply (IH _ c'); [|lia|done].
  simpl. by rewrite lookup_insert_eq.
Qed.

Lemma charge_totp sub m d T ls s r :
  Forall (in_window sub m d T) ls -> totp s !! sub = Some r ->
  0 <= FailedAttempts (enr r) <= m -> (FailedAttempts (enr r) = m -> T <= LastAttemptAt (enr r)) ->
  charge (IncrementTOTPAttempts None) ls s = answers (FailedAttempts (enr r)) m (length ls).
Proof.
  intros Hls. revert s r. induction Hls as [|l ls (<- & <- & <- & Hck & Hw) _ IH]; intros s r Hr Hf Hl; [done|].
  destruct (checkLockout_bounds l Hck).
  destruct (bump_window (mkCounter (FailedAttempts (enr r)) (LastAttemptAt (enr r))) l T Hf Hl
              ltac:(lia) Hw) as (c' & Hb & Hf' & Hl').
  cbn [charge length]. unfold IncrementTOTPAttempts at 1. rewrite Hck, Hr, Hb. simpl in Hf', Hl' |- *.
  rewrite answers_S by lia. f_equal. rewrite <- Hf'.
  apply (IH _ (mkTotpRow (set_attempts (failed c') (last c') (enr r)) (seq r))); simpl; [|lia|done].
  by rewrite lookup_insert_eq.
Qed.

(** ** Concrete values for the witnesses *)
Definition ada_totp : Enrollment :=
  mkEnrollment ada [Byte.x01] AADVersionCurrent (Some now0) 10 0 0 now0.

Definition mstore1 : Store :=
  mfa_exec (MfConfirmEnrollment None now0 ada_totp ["h1"; "h2"]) NewWithClock.

Definition lock0 : Lockout := mkLockout ada now0 2 Minute.

(** ** Properties *)

(** A TOTP code is accepted once.  When MarkTOTPUsed has accepted a time step, then, after any run
    of operations that neither saves the subject's enrollment anew nor removes it (confirming it
    again, re-sealing it, lockouts and recovery codes included), the same or an earlier step is
    refused and changes nothing. *)
Theorem totp_step_is_used_once s sub step s1 os step' :
  MarkTOTPUsed None sub step s = (s1, Ok true) ->
  Forall (fun o => restarts sub o = false) os -> step' <= step ->
  MarkTOTPUsed None sub step' (mfa_run os s1) = (mfa_run os s1, Ok false).
Proof.
  unfold MarkTOTPUsed at 1. destruct (totp s !! sub) as [r|] eqn:E; [|done]. case_match; [done|].
  intros [= <-] Hos Hle.
  destruct (run_step_at_least os sub step
              (set_totp sub (set_attempts 0 time_zero (set_LastUsedStep step (enr r))) r s) Hos)
    as (r' & Hr' & Hstep).
  { eexists. simpl. rewrite lookup_insert_eq. split; [done|]. simpl. lia. }
  unfold MarkTOTPUsed. rewrite Hr'. by rewrite (proj2 (Z.leb_le _ _)) by lia.
Qed.

Lemma totp_step_is_used_once_witness :
  (MarkTOTPUsed None ada 11
     (mfa_run [MfConfirmEnrollment None now0 ada_totp []] (MarkTOTPUsed None ada 11 mstore1).1)).2
  = Ok false.
Proof.
  rewrite (totp_step_is_used_once mstore1 ada 11 (MarkTOTPUsed None ada 11 mstore1).1
             [MfConfirmEnrollment None now0 ada_totp []] 11); [reflexivity|vm_compute; reflexivity| |lia].
  repeat constructor.
Defined.

(** What a successful ConsumeRecoveryCode found and wrote. *)
Lemma Consume_Ok sub h s s1 :
  ConsumeRecoveryCode None sub h s = (s1, Ok tt) ->
  exists set c, codes s !! sub = Some set /\ set !! h = Some c /\ used c = false /\
    codes s1 = <[sub := <[h := mkRecoveryCode true]> set]> (codes s) /\
    totp s1 = totp (clear_attempts sub s) /\ recovery s1 = delete sub (recovery s).
Proof.
  unfold ConsumeRecoveryCode. destruct (codes s !! sub) as [set|] eqn:Es; [|done].
  destruct (set !! h) as [c|] eqn:Ec; [|done]. destruct (used c) eqn:Eu; [done|].
  intros [= <-]. exists set, c. simpl. rewrite codes_clear_attempts.
  split_and!; try done; unfold clear_attempts; simpl; by case_match.
Qed.

(** A recovery code is accepted once.  ConsumeRecoveryCode accepts a code only while it is stored
    and unused; it then clears both of the subject's counters and touches no other subject, and
    after any run of operations that does not issue that code to the subject again it answers
    store.ErrNotFound and changes nothing. *)
Theorem recovery_code_is_used_once s sub h s1 os :
  ConsumeRecoveryCode None sub h s = (s1, Ok tt) ->
  Forall (fun o => issues sub h o = false) os ->
  ConsumeRecoveryCode None sub h (mfa_run os s1) = (mfa_run os s1, Err ErrNotFound) /\
  recovery s1 !! sub = None /\
  (forall r, totp s1 !! sub = Some r -> FailedAttempts (enr r) = 0) /\
  (forall sub', sub' <> sub -> totp s1 !! sub' = totp s !! sub' /\ codes s1 !! sub' = codes s !! sub' /\
     recovery s1 !! sub' = recovery s !! sub').
Proof.
  intros (set & c & _ & _ & _ & Ecodes & Etotp & Erec)%Consume_Ok Hos. split.
  - assert (spent sub h (mfa_run os s1)) as Hsp.
    { apply run_spent; [done|]. intros set' c'. rewrite Ecodes, lookup_insert_eq. intros [= <-].
      rewrite lookup_insert_eq. by intros [= <-]. }
    unfold ConsumeRecoveryCode. destruct (codes (mfa_run os s1) !! sub) as [set'|] eqn:E1; [|done].
    destruct (set' !! h) as [c'|] eqn:E2; [|done]. by rewrite (Hsp _ _ E1 E2).
  - rewrite Erec, Etotp, Ecodes. split; [apply lookup_delete_eq|]. split.
    + intros r. unfold clear_attempts. destruct (totp s !! sub) eqn:E; [|congruence]. simpl.
      rewrite lookup_insert_eq. by intros [= <-].
    + intros sub' Hne. rewrite lookup_delete_ne, lookup_insert_ne by done. split; [|done].
      unfold clear_attempts. destruct (totp s !! sub); [|done]. simpl. by rewrite lookup_insert_ne.
Qed.

Lemma recovery_code_is_used_once_witness :
  (ConsumeRecoveryCode None ada "h1" mstore1).2 = Ok tt /\
  (ConsumeRecoveryCode None ada "h1" (ConsumeRecoveryCode None ada "h1" mstore1).1).2 = Err ErrNotFound.
Proof.
  split; [vm_compute; reflexivity|].
  destruct (recovery_code_is_used_once mstore1 ada "h1" (ConsumeRecoveryCode None ada "h1" mstore1).1 [])
    as [H _]; [vm_compute; reflexivity|constructor|].
  exact (f_equal snd H).
Defined.

(** The lockout bounds the attempts.  However many attempts on one subject's TOTP or recovery
    codes are reserved within one lockout duration, counted from a cleared counter, the first Max
    of them are numbered 1 to Max and every further one is answered Max + 1, which the caller
    refuses. *)
Theorem lockout_bounds_attempts sub m d T ls s :
  Forall (in_window sub m d T) ls -> 1 <= m ->
  (default zero_counter (recovery s !! sub) = zero_counter ->
     charge (IncrementRecoveryAttempts None) ls s = answers 0 m (length ls)) /\
  (forall r, totp s !! sub = Some r -> FailedAttempts (enr r) = 0 ->
     charge (IncrementTOTPAttempts None) ls s = answers 0 m (length ls)).
Proof.
  intros Hls Hm. split.
  - intros Hc. apply (charge_recovery sub m d T ls s zero_counter); simpl; [done..|lia|lia].
  - intros r Hr Hz. rewrite <- Hz. apply (charge_totp sub m d T); [done..|lia|lia].
Qed.

Lemma lockout_bounds_attempts_witness :
  charge (IncrementRecoveryAttempts None) [lock0; lock0; lock0; lock0] mstore1
  = [Ok 1; Ok 2; Ok 3; Ok 3].
Proof.
  assert (in_window ada 2 Minute (now0 - 5) lock0) as H.
  { repeat split; vm_compute; congruence. }
  assert (Forall (in_window ada 2 Minute (now0 - 5)) [lock0; lock0; lock0; lock0]) as Hf
    by (do 4 (apply List.Forall_cons; [exact H|]); apply List.Forall_nil).
  apply (proj1 (lockout_bounds_attempts ada 2 Minute (now0 - 5) _ mstore1 Hf ltac:(lia))).
  vm_compute. reflexivity.
Defined.
