(* ===== verification/Enrollment.v ===== *)
(** The second-factor requirement read from persisted enrollment: internal/issuance/enrolled.go.

    The two interfaces [Enrollment] reads are classes: what each store must answer, and the law its
    answer obeys.  The in-memory MFA and passkey stores are instances, and the theorems on the
    decision are proved against the classes. *)
From S2P Require Import Prelude Errors Tenant Factor Attrs Pending Transitions Factors StoreBase.
From S2P Require Import VerifiedFacts SessionFacts Journey CoreProperties.
From S2P Require Import PasskeyStore PasskeyProperties MfaStore MfaProperties.

Module EnrollmentSvc.

(** TOTPEnrollment: an answer without an error tells whether the subject has a confirmed TOTP. *)
Class TOTPEnrollment (St : Type) := {
  HasConfirmedTOTP : Ctx -> Subject -> St -> res bool;
  totp_confirmed : St -> Subject -> Prop;
  HasConfirmedTOTP_law ctx sub s b :
    HasConfirmedTOTP ctx sub s = Ok b -> b = true <-> totp_confirmed s sub }.

(** PasskeyEnrollment: an answer without an error tells whether the subject has an active passkey. *)
Class PasskeyEnrollment (St : Type) := {
  HasActive : Ctx -> Subject -> St -> res bool;
  passkey_active : St -> Subject -> Prop;
  HasActive_law ctx sub s b : HasActive ctx sub s = Ok b -> b = true <-> passkey_active s sub }.

(** [Enrollment] holds the two stores. *)
Record Enrollment (T P : Type) := mkEnrollment { totp : T; passkeys : P }.
Arguments mkEnrollment {T P} totp passkeys.
Arguments totp {T P} e.
Arguments passkeys {T P} e.

(** A store handed to NewEnrollment may be missing (nil, or a typed nil). *)
Definition NewEnrollment {T P} (t : option T) (p : option P) : res (Enrollment T P) :=
  let errs := (match t with None => [New "TOTP"] | Some _ => [] end)
              ++ (match p with None => [New "Passkeys"] | Some _ => [] end) in
  match errs, t, p with
  | [], Some t, Some p => Ok (mkEnrollment t p)
  | e :: es, _, _ => Err (Join IErrInvalidConfig (JoinAll e es))
  | _, _, _ => Err IErrInvalidConfig
  end.

(** The factors a decision names, from the two answers. *)
Definition required_factors (totp pk : bool) : list Factor :=
  let fs := if totp then [FactorTOTP] else [] in
  let fs := if pk then fs ++ [FactorPasskeyStepUp] else fs in
  if 0 <? Z.of_nat (length fs) then fs ++ [FactorRecoveryCode] else fs.

Lemma required_factors_facts totp pk :
  let d := NewMFADecision (required_factors totp pk) in
  Required d = totp || pk /\
  bool_decide (FactorTOTP ∈ Attrs.enrolled d) = totp /\
  bool_decide (FactorPasskeyStepUp ∈ Attrs.enrolled d) = pk /\
  forallb (fun f => bool_decide (Role f = RoleSecond)) (Attrs.enrolled d) = true.
Proof. destruct totp, pk; vm_compute; repeat split. Qed.

Section decision.
Context {T P : Type} `{TOTPEnrollment T, PasskeyEnrollment P}.

Definition enrolled (ctx : Ctx) (s : Subject) (e : Enrollment T P) : res MFADecision :=
  match HasConfirmedTOTP ctx s (totp e) with
  | Err err => Err (Join HErrUnavailable (Join (New "issuance: reading TOTP enrollment") err))
  | Ok t =>
      match HasActive ctx s (passkeys e) with
      | Err err => Err (Join HErrUnavailable (Join (New "issuance: reading passkey enrollment") err))
      | Ok pk =>
          Ok (NewMFADecision (required_factors t pk))
      end
  end.

Definition MFADecision_of (ctx : Ctx) (s : Subject) (e : Enrollment T P) : res MFADecision :=
  enrolled ctx s e.

(** MFARequired returns both a value and an error; the value is true beside an error. *)
Definition MFARequired (ctx : Ctx) (s : Subject) (e : Enrollment T P) : bool * option error :=
  match enrolled ctx s e with
  | Err err => (true, Some err)
  | Ok d => (Required d, None)
  end.

(** The decision requires a second factor exactly for an enrolled subject, is never the zero one,
    and every factor it names is a second factor. *)
Lemma enrolled_Ok ctx s e d :
  enrolled ctx s e = Ok d ->
  MFADecision_IsZero d = false /\
  (Required d = true <-> totp_confirmed (totp e) s \/ passkey_active (passkeys e) s) /\
  (FactorTOTP ∈ Attrs.enrolled d <-> totp_confirmed (totp e) s) /\
  (FactorPasskeyStepUp ∈ Attrs.enrolled d <-> passkey_active (passkeys e) s) /\
  Forall (fun f => Role f = RoleSecond) (Attrs.enrolled d).
Proof.
  unfold enrolled. destruct (HasConfirmedTOTP ctx s (totp e)) as [t|] eqn:Et; [|done].
  destruct (HasActive ctx s (passkeys e)) as [pk|] eqn:Ep; [|done]. intros [= <-].
  apply HasConfirmedTOTP_law in Et. apply HasActive_law in Ep. rewrite <- Et, <- Ep.
  destruct (required_factors_facts t pk) as (Hr & Ht & Hp & Hall).
  split; [done|]. split; [by rewrite Hr, orb_true_iff|].
  rewrite <- (bool_decide_eq_true (FactorTOTP ∈ _)), <- (bool_decide_eq_true (FactorPasskeyStepUp ∈ _)), Ht, Hp. split; [done|]. split; [done|].
  apply Forall_forall. intros f Hf. apply list_elem_of_In in Hf.
  rewrite forallb_forall in Hall. by apply Hall in Hf; bools.
Qed.

(** MFARequired fails closed: whatever the stores answer, a false requirement without an error
    means the subject is enrolled nowhere. *)
Lemma MFARequired_false ctx s e err :
  MFARequired ctx s e = (false, err) ->
  ~ totp_confirmed (totp e) s /\ ~ passkey_active (passkeys e) s.
Proof.
  unfold MFARequired. destruct (enrolled ctx s e) as [d|] eqn:E; [|done]. intros [= Hr _].
  destruct (enrolled_Ok ctx s e d E) as (_ & Hreq & _).
  split; intros Hc; rewrite (proj2 Hreq) in Hr; (discriminate || tauto).
Qed.
End decision.

(** ** Instances: the in-memory stores *)
#[export] Program Instance mfa_TOTPEnrollment : TOTPEnrollment MfaMemory.Store := {|
  HasConfirmedTOTP := MfaMemory.HasConfirmedTOTP;
  totp_confirmed s sub := exists r t, MfaMemory.totp s !! sub = Some r /\
                            MfaTypes.ConfirmedAt (MfaMemory.enr r) = Some t |}.
Next Obligation.
  intros [?|] sub s b; simpl; [done|]. intros [= <-].
  destruct (MfaMemory.totp s !! sub) as [r|]; [|naive_solver].
  unfold MfaTypes.Confirmed. destruct (MfaTypes.ConfirmedAt (MfaMemory.enr r)) eqn:E; naive_solver.
Qed.

#[export] Program Instance passkey_PasskeyEnrollment : PasskeyEnrollment PasskeyMemory.Store := {|
  HasActive := PasskeyMemory.HasActive;
  passkey_active s sub := exists k c, PasskeyMemory.creds s !! k = Some c /\
                            Passkey.CSubject c = sub /\ Passkey.SuspendedAt c = None |}.
Next Obligation.
  intros ctx sub s b Hb. rewrite <- HasActive_true. destruct ctx; [done|].
  simpl in *. injection Hb as ->. split; [by intros ->|by intros [= ->]].
Qed.
End EnrollmentSvc.

Import EnrollmentSvc.

(** ** Properties *)

(** Persisted enrollment forces the second factor, whatever the stores behind it.  When the
    decision read for a subject with a confirmed TOTP or an active passkey is handed to Admit, a
    session comes out only if the journey holds a passkey ceremony with user verification or two
    ceremonies with different credentials; otherwise the login is parked, offering second factors
    only, TOTP exactly when it is confirmed and the passkey step-up exactly when one is active. *)
Theorem enrollment_forces_second_factor {T P} `{TOTPEnrollment T, PasskeyEnrollment P}
    ctx (e : Enrollment T P) sub d lineage p st now adm :
  enrolled ctx sub e = Ok d ->
  totp_confirmed (totp e) sub \/ passkey_active (passkeys e) sub ->
  journey p -> Admit lineage p st d now = Ok adm ->
  match Session adm with
  | Some _ =>
      (exists v, v ∈ p_verified p /\ FactorPasskey ∈ v_factors v /\
         FactorUserVerification ∈ v_factors v) \/
      (exists v1 v2, v1 ∈ p_verified p /\ v2 ∈ p_verified p /\
         hasRole (v_factors v1) RolePrimary = true /\ hasRole (v_factors v2) RoleSecond = true /\
         (v_credentialID v1 = [] \/ v_credentialID v1 <> v_credentialID v2))
  | None => exists fs, NeedsFactor adm = Some (p, fs) /\
      Forall (fun f => Role f = RoleSecond) fs /\
      (FactorTOTP ∈ fs <-> totp_confirmed (totp e) sub) /\
      (FactorPasskeyStepUp ∈ fs <-> passkey_active (passkeys e) sub)
  end.
Proof.
  intros Hd Henr Hj%journey_wf Ha. destruct (enrolled_Ok ctx sub e d Hd) as (_ & Hreq & Ht & Hp & Hall).
  assert (Required d = true) as Hr by tauto.
  destruct (Session adm) as [a|] eqn:Hs.
  - destruct (Admit_session _ _ _ _ _ _ _ Ha Hs) as (_ & _ & Hm).
    destruct (multiFactor_ceremonies p Hj (Hm Hr)) as [Hpk|(v1 & v2 & ? & ? & ? & ? & _ & ?)];
      [by left|right]. exists v1, v2. tauto.
  - exists (Attrs.enrolled d). split; [|tauto].
    apply Admit_Ok in Ha as [Had ->]. unfold Session, NeedsFactor in *.
    rewrite Hr in *. destruct (multiFactor (factorSet p)); simpl in *; [done|].
    by rewrite (proj2 (Z.eqb_neq _ _) (adm_version _ _ _ _ Had)).
Qed.

Lemma enrollment_forces_second_factor_witness :
  let e := mkEnrollment mstore1 pkstore1 in
  exists d adm, enrolled None ada e = Ok d /\ Admit 99 login1 st0 d (now0 + 3 * Second) = Ok adm /\
    match Session adm with
    | Some _ => False
    | None => exists fs, NeedsFactor adm = Some (login1, fs) /\ FactorTOTP ∈ fs
    end.
Proof.
  intros e. destruct (enrolled None ada e) as [d|] eqn:Hd; [|vm_compute in Hd; discriminate Hd].
  assert (totp_confirmed (totp e) ada) as Hc.
  { apply (HasConfirmedTOTP_law None ada (totp e) true); [vm_compute; reflexivity|reflexivity]. }
  assert (okb (Admit 99 login1 st0 d (now0 + 3 * Second)) = true /\
          match Admit 99 login1 st0 d (now0 + 3 * Second) with
          | Ok adm => bool_decide (Session adm = None) | Err _ => false end = true) as [Ho Hn].
  { injection Hd as <-. split; vm_compute; reflexivity. }
  destruct (Admit 99 login1 st0 d (now0 + 3 * Second)) as [adm|] eqn:Ha; [|discriminate Ho].
  apply bool_decide_eq_true in Hn.
  exists d, adm. split; [reflexivity|]. split; [exact Ha|].
  pose proof (enrollment_forces_second_factor None e ada d 99 login1 st0 (now0 + 3 * Second) adm
    Hd (or_introl Hc) login1_journey Ha) as H. rewrite Hn in H |- *.
  destruct H as (fs & Hfs & _ & Ht & _). exists fs. split; [exact Hfs|]. apply Ht, Hc.
Defined.
