(* ===== verification/Lru.v ===== *)
(** The bounded cache of internal/revoke/lru.go: a map from keys to nodes of a doubly linked list.

    Nodes live in an explicit heap, so that the pointer updates of [unlink] and [pushFront] are the
    source's, in its order, with its aliasing; a dereference of a missing node is [NilPanic].
    [fresh] is the allocator's next location; unreachable nodes are left to the collector. *)
From S2P Require Import Prelude Errors.
From S2P Require Import StoreBase.

Module Lru.

Definition loc := positive.

Section lru.
Context {K V : Type} `{Countable K}.

Record node := mkNode { key : K; val : V; prev : option loc; next : option loc }.

Record lru := mkLru {
  capacity : Z;
  items : gmap K loc;
  head : option loc;
  tail : option loc;
  heap : gmap loc node;
  fresh : loc }.

Definition newLRU (capacity : Z) : lru := mkLru capacity ∅ None None ∅ 1%positive.

Definition len (l : lru) : Z := Z.of_nat (size (items l)).

(** Memory: reading a node, writing the fields of one, and the fields of the list itself. *)
Definition deref (p : loc) (l : lru) : res node :=
  match heap l !! p with Some n => Ok n | None => Err NilPanic end.

Definition write (p : loc) (n : node) (l : lru) : lru :=
  mkLru (capacity l) (items l) (head l) (tail l) (<[p := n]> (heap l)) (fresh l).

Definition set_next (p : loc) (q : option loc) (l : lru) : res lru :=
  n ← deref p l; Ok (write p (mkNode (key n) (val n) (prev n) q) l).

Definition set_prev (p : loc) (q : option loc) (l : lru) : res lru :=
  n ← deref p l; Ok (write p (mkNode (key n) (val n) q (next n)) l).

Definition set_val (p : loc) (v : V) (l : lru) : res lru :=
  n ← deref p l; Ok (write p (mkNode (key n) v (prev n) (next n)) l).

Definition set_head (q : option loc) (l : lru) : lru :=
  mkLru (capacity l) (items l) q (tail l) (heap l) (fresh l).

Definition set_tail (q : option loc) (l : lru) : lru :=
  mkLru (capacity l) (items l) (head l) q (heap l) (fresh l).

Definition set_items (m : gmap K loc) (l : lru) : lru :=
  mkLru (capacity l) m (head l) (tail l) (heap l) (fresh l).

Definition pushFront (p : loc) (l : lru) : res lru :=
  l ← set_prev p None l;
  l ← set_next p (head l) l;
  l ← (match head l with Some h => set_prev h (Some p) l | None => Ok l end);
  let l := set_head (Some p) l in
  Ok (match tail l with None => set_tail (Some p) l | Some _ => l end).

Definition unlink (p : loc) (l : lru) : res lru :=
  n ← deref p l;
  l ← (match prev n with
       | Some q => set_next q (next n) l
       | None => Ok (set_head (next n) l)
       end);
  n ← deref p l;
  l ← (match next n with
       | Some q => set_prev q (prev n) l
       | None => Ok (set_tail (prev n) l)
       end);
  l ← set_prev p None l;
  set_next p None l.

Definition get (k : K) (l : lru) : res (lru * option V) :=
  match items l !! k with
  | None => Ok (l, None)
  | Some p =>
      l ← unlink p l;
      l ← pushFront p l;
      n ← deref p l;
      Ok (l, Some (val n))
  end.

(** The eviction loop of put; each turn removes an item, so [size items] turns are enough. *)
Fixpoint evict (fuel : nat) (l : lru) : res lru :=
  match fuel with
  | O => Ok l
  | S fuel' =>
      if capacity l <? len l
      then match tail l with
           | None => Ok l
           | Some old =>
               l ← unlink old l;
               n ← deref old l;
               evict fuel' (set_items (delete (key n) (items l)) l)
           end
      else Ok l
  end.

Definition put (k : K) (v : V) (l : lru) : res lru :=
  match items l !! k with
  | Some p =>
      l ← set_val p v l;
      l ← unlink p l;
      pushFront p l
  | None =>
      let p := fresh l in
      let l := mkLru (capacity l) (items l) (head l) (tail l)
                 (<[p := mkNode k v None None]> (heap l)) (Pos.succ p) in
      let l := set_items (<[k := p]> (items l)) l in
      l ← pushFront p l;
      evict (size (items l)) l
  end.

Definition remove (k : K) (l : lru) : res lru :=
  match items l !! k with
  | None => Ok l
  | Some p => l ← unlink p l; Ok (set_items (delete k (items l)) l)
  end.

(** [range] is the order in which Go visits the items. *)
Fixpoint removeWhere (range : list K) (drop : K -> V -> bool) (l : lru) : res lru :=
  match range with
  | [] => Ok l
  | k :: range' =>
      match items l !! k with
      | None => removeWhere range' drop l
      | Some p =>
          n ← deref p l;
          if drop k (val n)
          then l ← unlink p l; removeWhere range' drop (set_items (delete k (items l)) l)
          else removeWhere range' drop l
      end
  end.

Definition clear (l : lru) : lru := set_tail None (set_head None (set_items ∅ l)).

End lru.
Arguments node : clear implicits.
Arguments lru K V {_ _}.

End Lru.

(** ** The revocation caches of internal/revoke/revoke.go.

    [get] and [Poll] release the cache's mutex while they call the store, so each is written as the
    critical sections it is made of ([get_begin], [get_end]; [poll_begin], [poll_turn], [poll_mark]),
    and the functions themselves compose them.  The interleaving of several calls is studied in the
    file on the follower's runs.  The store's answers ([lookup], [feed]) and the clock readings are
    arguments; a nil dereference of the list underneath is [NilPanic]. *)

Import Lru.

Module Follower.

Definition PollInterval : duration := 2 * Second.

Definition PollBound : duration := 3 * PollInterval.

Definition DefaultCapacity : Z := 10000.

Definition maxPagesPerPoll : nat := 256.

(** Events the cache emits. *)
Inductive event := RevocationUnavailable (name : string).

Section follower.
Context {K V : Type} `{Countable K}.

Record follower := mkFollower {
  name : string;
  cursor : Cursor;
  gen : Z;
  polled : bool;
  lastPoll : time;
  entries : lru K V }.

(** [has_source] tells whether the feed and the lookup were given. *)
Definition newFollower (name : string) (Capacity : Z) (has_source : bool) : res follower :=
  if negb has_source
  then Err (Join VErrInvalidConfig (New ("revoke: " +:+ name +:+ " needs a source")))
  else if Capacity <? 0
  then Err (Join VErrInvalidConfig (New "revoke: negative capacity"))
  else
    let capacity := if Capacity =? 0 then DefaultCapacity else Capacity in
    Ok (mkFollower name (RestoreCursor 0) 0 false time_zero (newLRU capacity)).

Definition set_entries (l : lru K V) (f : follower) : follower :=
  mkFollower (name f) (cursor f) (gen f) (polled f) (lastPoll f) l.

Definition bump_gen (f : follower) : follower :=
  mkFollower (name f) (cursor f) (u64 (gen f + 1)) (polled f) (lastPoll f) (entries f).

Definition set_cursor (c : Cursor) (f : follower) : follower :=
  mkFollower (name f) c (gen f) (polled f) (lastPoll f) (entries f).

Definition freshLocked (f : follower) (now : time) : bool :=
  polled f && negb (time_Before now (lastPoll f)) && (time_Sub now (lastPoll f) <? PollBound).

(** What a call of get remembers while it reads the store. *)
Record ticket := mkTicket { t_fresh : bool; t_since : Cursor; t_gen : Z }.

Definition get_begin (k : K) (now : time) (f : follower) : res (follower * (V + ticket)) :=
  let fresh := freshLocked f now in
  if fresh
  then
    '(l, o) ← Lru.get k (entries f);
    let f := set_entries l f in
    match o with
    | Some v => Ok (f, inl v)
    | None => Ok (f, inr (mkTicket fresh (cursor f) (gen f)))
    end
  else Ok (f, inr (mkTicket fresh (cursor f) (gen f))).

Definition get_end (k : K) (v : V) (t : ticket) (now : time) (f : follower) : res follower :=
  if t_fresh t
  then if (gen f =? t_gen t) && (Position (cursor f) =? Position (t_since t)) && freshLocked f now
       then l ← Lru.put k v (entries f); Ok (set_entries l f)
       else Ok f
  else Ok f.

(** The failure branch of get; [ctx] is the context's error after the lookup. *)
Definition get_failed (ctx : Ctx) (err : error) (f : follower) : error * list event :=
  if Is err ErrNotFound then (err, [])
  else (Join VErrUnavailable err,
        match ctx with None => [RevocationUnavailable (name f)] | Some _ => [] end).

(** A whole call of get with nothing in between: the state, the answer and the events. *)
Definition get (ctx : Ctx) (now now' : time) (lookup : K -> res V) (k : K) (f : follower)
  : res (follower * res V * list event) :=
  '(f, r) ← get_begin k now f;
  match r with
  | inl v => Ok (f, Ok v, [])
  | inr t =>
      match lookup k with
      | Err err => let '(e, evs) := get_failed ctx err f in Ok (f, Err e, evs)
      | Ok v => f ← get_end k v t now' f; Ok (f, Ok v, [])
      end
  end.

Definition forgetWhere (range : list K) (drop : K -> V -> bool) (f : follower) : res follower :=
  l ← removeWhere range drop (entries f); Ok (bump_gen (set_entries l f)).

Definition forget (k : K) (f : follower) : res follower :=
  l ← remove k (entries f); Ok (bump_gen (set_entries l f)).

(** ** Polling *)

(** The locals of a running Poll. *)
Record polling := mkPolling { p_cur : Cursor; p_began : time; p_reset : bool }.

Definition poll_begin (now : time) (f : follower) : polling := mkPolling (cursor f) now false.

Fixpoint remove_all (ks : list K) (l : lru K V) : res (lru K V) :=
  match ks with
  | [] => Ok l
  | k :: ks' => l ← remove k l; remove_all ks' l
  end.

(** What a turn of the loop leads to: the next turn, the final mark, or the end of the call. *)
Inductive outcome := Continue (p : polling) | CaughtUp | Failed (e : error).

(** One turn of the loop, once the feed has answered. *)
Definition poll_turn (answer : list K * Cursor * option error) (p : polling) (f : follower)
  : res (follower * outcome) :=
  let '(changed, next, err) := answer in
  match err with
  | Some err =>
      if Is err ErrNotFound && negb (Cursor_IsZero (p_cur p)) && negb (p_reset p)
      then
        let f := set_entries (clear (entries f)) f in
        let f := bump_gen (set_cursor (RestoreCursor 0) f) in
        Ok (f, Continue (mkPolling (RestoreCursor 0) (p_began p) true))
      else Ok (f, Failed (Join VErrUnavailable err))
  | None =>
      let advanced := Cursor_After next (p_cur p) in
      l ← remove_all changed (entries f);
      let f := set_entries l f in
      let f := if advanced then set_cursor next f else f in
      let f := bump_gen f in
      if (Z.of_nat (length changed) =? 0) || negb advanced
      then Ok (f, CaughtUp)
      else Ok (f, Continue (mkPolling next (p_began p) (p_reset p)))
  end.

Definition poll_mark (p : polling) (f : follower) : follower :=
  mkFollower (name f) (cursor f) (gen f) true (p_began p) (entries f).

(** The loop of Poll, at most [turns] turns; [feed] may answer differently at each one. *)
Fixpoint poll_loop (turns : nat) (feed : nat -> Cursor -> list K * Cursor * option error)
    (p : polling) (f : follower) : res (follower * option error) :=
  match turns with
  | O => Ok (f, Some (errBacklog : error))
  | S turns' =>
      '(f, o) ← poll_turn (feed turns (p_cur p)) p f;
      match o with
      | Continue p' => poll_loop turns' feed p' f
      | CaughtUp => Ok (poll_mark p f, None)
      | Failed e => Ok (f, Some e)
      end
  end.

Definition Poll (now : time) (feed : nat -> Cursor -> list K * Cursor * option error) (f : follower)
  : res (follower * option error) :=
  poll_loop maxPagesPerPoll feed (poll_begin now f) f.

Definition Ready (now : time) (f : follower) : option error :=
  if negb (freshLocked f now) then Some (ErrStale : error) else None.

Definition Len (f : follower) : Z := len (entries f).

End follower.
Arguments follower K V {_ _}.
End Follower.
