(* ===== verification/LruFacts.v ===== *)
(** The linked list of the cache represents a list of bindings, most recent first.

    [chain] relates the heap to the list of locations and bindings; [rep] adds the map of items.  Each
    operation of the cache is shown to implement an operation on plain lists. *)
From S2P Require Import Prelude Errors Lru.
From S2P Require Import StoreBase Lru.
Import Lru.

Section chain.
Context {K V : Type} `{Countable K}.
Implicit Types (L : lru K V) (ls : list loc) (xs : list (K * V)) (p q : loc).

(** The element before position [i]. *)
Definition before ls (i : nat) : option loc := match i with O => None | S j => ls !! j end.

Record chain L ls xs : Prop := {
  ch_nodup : NoDup ls;
  ch_len : length ls = length xs;
  ch_head : head L = ls !! 0%nat;
  ch_tail : tail L = last ls;
  ch_node i p kv : ls !! i = Some p -> xs !! i = Some kv ->
    heap L !! p = Some (mkNode kv.1 kv.2 (before ls i) (ls !! S i));
  ch_fresh p : p ∈ ls -> (p < fresh L)%positive }.

(** Two positions of a chain never hold the same location. *)
Lemma chain_inj ls i j p : NoDup ls -> ls !! i = Some p -> ls !! j = Some p -> i = j.
Proof. intros Hnd Hi Hj. by eapply NoDup_lookup. Qed.

Lemma chain_at L ls xs i p : chain L ls xs -> ls !! i = Some p -> exists kv, xs !! i = Some kv.
Proof.
  intros Hc Hi. apply lookup_lt_is_Some. rewrite <- (ch_len _ _ _ Hc). by eapply lookup_lt_Some.
Qed.

Lemma chain_node L ls xs i p :
  chain L ls xs -> ls !! i = Some p ->
  exists k v, xs !! i = Some (k, v) /\ heap L !! p = Some (mkNode k v (before ls i) (ls !! S i)).
Proof.
  intros Hc Hi. destruct (chain_at L ls xs i p Hc Hi) as [[k v] Hx]. exists k, v.
  split; [done|]. by apply (ch_node L ls xs Hc i p (k, v)).
Qed.

Lemma before_delete ls i j :
  before (delete i ls) j
  = if decide (j < i)%nat then before ls j else if decide (j = i) then before ls i else ls !! j.
Proof.
  destruct j as [|j]; simpl.
  - repeat case_decide; try done; try lia. by subst.
  - rewrite list_lookup_delete.
    repeat case_decide; try lia; subst; try done; by (f_equal; lia).
Qed.

Lemma last_delete ls i p :
  ls !! i = Some p ->
  last (delete i ls) = if decide (S i = length ls) then before ls i else last ls.
Proof.
  intros Hi. pose proof (lookup_lt_Some _ _ _ Hi) as Hlt.
  rewrite !last_lookup, length_delete, list_lookup_delete by eauto.
  destruct i as [|i]; repeat case_decide; simpl before; try lia;
    try (apply lookup_ge_None_2; lia); f_equal; lia.
Qed.

Lemma set_next_Ok p o L n :
  heap L !! p = Some n -> set_next p o L = Ok (write p (mkNode (key n) (val n) (prev n) o) L).
Proof. intros Hp. unfold set_next, deref. by rewrite Hp. Qed.

Lemma set_prev_Ok p o L n :
  heap L !! p = Some n -> set_prev p o L = Ok (write p (mkNode (key n) (val n) o (next n)) L).
Proof. intros Hp. unfold set_prev, deref. by rewrite Hp. Qed.

Lemma deref_Ok p L n : heap L !! p = Some n -> deref p L = Ok n.
Proof. intros Hp. unfold deref. by rewrite Hp. Qed.

(** The last two writes of [unlink]. *)
Lemma cut_Ok p L n :
  heap L !! p = Some n ->
  (l ← set_prev p None L; set_next p None l) = Ok (write p (mkNode (key n) (val n) None None) L).
Proof.
  intros Hp. rewrite (set_prev_Ok _ _ _ _ Hp). simpl.
  erewrite set_next_Ok by (simpl; apply lookup_insert_eq). unfold write. simpl.
  by rewrite insert_insert_eq.
Qed.

(** What [unlink] writes: the two ends, the neighbours of [p], and [p] itself. *)
Definition unlinked L ls (i : nat) p (n : node K V) : lru K V :=
  let h1 := match before ls i, (heap L) !! default p (before ls i) with
            | Some q, Some m => <[q := mkNode (key m) (val m) (prev m) (ls !! S i)]> (heap L)
            | _, _ => heap L
            end in
  let h2 := match ls !! S i, h1 !! default p (ls !! S i) with
            | Some q, Some m => <[q := mkNode (key m) (val m) (before ls i) (next m)]> h1
            | _, _ => h1
            end in
  mkLru (capacity L) (items L)
    (match before ls i with None => ls !! S i | Some _ => head L end)
    (match ls !! S i with None => before ls i | Some _ => tail L end)
    (<[p := mkNode (key n) (val n) None None]> h2) (fresh L).

Lemma before_lookup ls i q : before ls i = Some q -> exists j, i = S j /\ ls !! j = Some q.
Proof. destruct i as [|j]; [done|]. eauto. Qed.

Lemma unlink_unlinked L ls xs i p k v :
  chain L ls xs -> ls !! i = Some p -> xs !! i = Some (k, v) ->
  unlink p L = Ok (unlinked L ls i p (mkNode k v (before ls i) (ls !! S i))).
Proof.
  intros Hc Hi Hx. pose proof (ch_node _ _ _ Hc _ _ _ Hi Hx) as Hp. simpl in Hp.
  unfold unlink. rewrite (deref_Ok p L _ Hp). simpl.
  assert (forall q, before ls i = Some q -> q <> p /\ exists m, heap L !! q = Some m) as Hb.
  { intros q (j & -> & Hj)%before_lookup. split.
    - intros ->. pose proof (chain_inj _ _ _ _ (ch_nodup _ _ _ Hc) Hi Hj). lia.
    - destruct (chain_node _ _ _ _ _ Hc Hj) as (? & ? & _ & ?). eauto. }
  assert (forall q, ls !! S i = Some q -> q <> p /\ before ls i <> Some q /\ exists m, heap L !! q = Some m) as Hn.
  { intros q Hq. split_and!.
    - intros ->. pose proof (chain_inj _ _ _ _ (ch_nodup _ _ _ Hc) Hi Hq). lia.
    - intros (j & -> & Hj)%before_lookup. pose proof (chain_inj _ _ _ _ (ch_nodup _ _ _ Hc) Hj Hq). lia.
    - destruct (chain_node _ _ _ _ _ Hc Hq) as (? & ? & _ & ?). eauto. }
  unfold unlinked.
  destruct (before ls i) as [q|] eqn:Eb.
  - destruct (Hb q eq_refl) as [Hqp [m Hm]]. simpl default. rewrite (set_next_Ok _ _ _ m Hm), Hm. simpl.
    rewrite (deref_Ok p _ (mkNode k v (Some q) (ls !! S i))) by (simpl; by rewrite lookup_insert_ne).
    simpl. destruct (ls !! S i) as [r|] eqn:En.
    + destruct (Hn r eq_refl) as (Hrp & Hrq & [m' Hm']). simpl default.
      assert (<[q := mkNode (key m) (val m) (prev m) (Some r)]> (heap L) !! r = Some m') as Hr
        by (rewrite lookup_insert_ne; congruence).
      rewrite (set_prev_Ok r _ _ m'), Hr by done. simpl.
      rewrite (cut_Ok p _ (mkNode k v (Some q) (Some r)))
        by (simpl; rewrite !lookup_insert_ne by congruence; done). done.
    + simpl. rewrite (cut_Ok p _ (mkNode k v (Some q) None))
        by (simpl; rewrite !lookup_insert_ne by congruence; done). done.
  - simpl. rewrite (deref_Ok p _ (mkNode k v None (ls !! S i))) by done. simpl.
    destruct (ls !! S i) as [r|] eqn:En.
    + destruct (Hn r eq_refl) as (Hrp & _ & [m' Hm']). simpl default.
      rewrite (set_prev_Ok r _ _ m'), Hm' by done. simpl.
      rewrite (cut_Ok p _ (mkNode k v None (Some r)))
        by (simpl; rewrite !lookup_insert_ne by congruence; done). done.
    + simpl. rewrite (cut_Ok p _ (mkNode k v None None))
        by done. done.
Qed.

(** A node that stays in the chain: only the pointers across the gap change. *)
Lemma unlinked_node L ls xs i p k v j q kv :
  chain L ls xs -> ls !! i = Some p -> xs !! i = Some (k, v) -> j <> i ->
  ls !! j = Some q -> xs !! j = Some kv ->
  heap (unlinked L ls i p (mkNode k v (before ls i) (ls !! S i))) !! q
  = Some (mkNode kv.1 kv.2 (if decide (j = S i) then before ls i else before ls j)
            (if decide (S j = i) then ls !! S i else ls !! S j)).
Proof.
  intros Hc Hi Hx Hji Hj Hxj. pose proof (ch_nodup _ _ _ Hc) as Hnd.
  assert (q <> p) as Hqp by (intros ->; pose proof (chain_inj _ _ _ _ Hnd Hi Hj); lia).
  pose proof (ch_node _ _ _ Hc _ _ _ Hj Hxj) as Hq.
  unfold unlinked. cbn [heap]. rewrite lookup_insert_ne by done.
  assert (forall h : gmap loc (node K V), h !! q = Some (mkNode kv.1 kv.2 (before ls j)
            (if decide (S j = i) then ls !! S i else ls !! S j)) ->
    match ls !! S i, h !! default p (ls !! S i) with
    | Some q', Some m => <[q' := mkNode (key m) (val m) (before ls i) (next m)]> h
    | _, _ => h
    end !! q = Some (mkNode kv.1 kv.2 (if decide (j = S i) then before ls i else before ls j)
            (if decide (S j = i) then ls !! S i else ls !! S j))) as Hnext.
  { intros h Hh. destruct (ls !! S i) as [r|] eqn:Er; simpl default.
    - destruct (decide (j = S i)) as [->|Hne].
      + assert (r = q) as -> by congruence. rewrite Hh. simpl. by rewrite lookup_insert_eq.
      + assert (r <> q) by (intros ->; pose proof (chain_inj _ _ _ _ Hnd Er Hj); lia).
        destruct (h !! r); [by rewrite lookup_insert_ne|done].
    - rewrite decide_False; [done|]. intros ->. congruence. }
  apply Hnext. destruct (before ls i) as [r|] eqn:Eb; simpl default.
  - apply before_lookup in Eb as (a & -> & Ha). destruct (decide (S j = S a)) as [[= ->]|Hne].
    + assert (r = q) as -> by congruence. rewrite Hq. simpl. by rewrite lookup_insert_eq.
    + assert (r <> q) by (intros ->; pose proof (chain_inj _ _ _ _ Hnd Ha Hj); lia).
      destruct (heap L !! r); [by rewrite lookup_insert_ne|done].
  - rewrite decide_False; [done|]. intros <-. simpl in Eb. congruence.
Qed.

Lemma unlink_chain L ls xs i p k v :
  chain L ls xs -> ls !! i = Some p -> xs !! i = Some (k, v) ->
  exists L', unlink p L = Ok L' /\ chain L' (delete i ls) (delete i xs) /\
    items L' = items L /\ capacity L' = capacity L /\ fresh L' = fresh L /\
    heap L' !! p = Some (mkNode k v None None).
Proof.
  intros Hc Hi Hx. eexists. split; [by eapply unlink_unlinked|].
  split; [|by split_and!; [..|apply lookup_insert_eq]].
  pose proof (ch_nodup _ _ _ Hc) as Hnd. split.
  - by eapply sublist_NoDup, sublist_delete.
  - rewrite !length_delete by eauto. by rewrite (ch_len _ _ _ Hc).
  - unfold unlinked. cbn [head]. rewrite (ch_head _ _ _ Hc), list_lookup_delete.
    destruct i as [|i]; simpl; [done|]. simpl before.
    destruct (ls !! i) eqn:E; [done|]. apply lookup_ge_None in E. apply lookup_lt_Some in Hi. lia.
  - unfold unlinked. cbn [tail]. rewrite (last_delete _ _ _ Hi), (ch_tail _ _ _ Hc).
    apply lookup_lt_Some in Hi. case_decide.
    + by rewrite (lookup_ge_None_2 ls (S i)) by lia.
    + destruct (ls !! S i) eqn:E; [done|]. apply lookup_ge_None in E. lia.
  - intros j q kv. rewrite !list_lookup_delete. intros Hj Hxj. rewrite before_delete.
    destruct (decide (j < i)%nat) as [Hlt|Hge].
    + rewrite (unlinked_node L ls xs i p k v j q kv) by (try done; lia).
      rewrite decide_False by lia. do 2 f_equal. repeat case_decide; try lia; subst; done.
    + rewrite (unlinked_node L ls xs i p k v (S j) q kv) by (try done; lia).
      do 2 f_equal; repeat case_decide; try lia; subst; try done; try (f_equal; lia).
  - intros q Hq. simpl. apply (ch_fresh _ _ _ Hc). by eapply elem_of_sublist, sublist_delete.
Qed.

Lemma pushFront_chain L ls xs p n :
  chain L ls xs -> p ∉ ls -> heap L !! p = Some n -> (p < fresh L)%positive ->
  exists L', pushFront p L = Ok L' /\ chain L' (p :: ls) ((key n, val n) :: xs) /\
    items L' = items L /\ capacity L' = capacity L /\ fresh L' = fresh L.
Proof.
  intros Hc Hp Hn Hf. unfold pushFront. rewrite (set_prev_Ok _ _ _ _ Hn). simpl.
  erewrite set_next_Ok by (simpl; apply lookup_insert_eq). simpl.
  pose proof (ch_head _ _ _ Hc) as Eh. pose proof (ch_tail _ _ _ Hc) as Et.
  destruct (head L) as [h|] eqn:Ehd; symmetry in Eh.
  - assert (h <> p) as Hhp by (intros ->; apply Hp; by eapply list_elem_of_lookup_2).
    destruct (chain_node _ _ _ _ _ Hc Eh) as (k & v & Hx & Hh).
    erewrite set_prev_Ok by (simpl; rewrite !lookup_insert_ne by congruence; exact Hh). simpl.
    destruct ls as [|h' ls]; [done|]. injection Eh as [= ->].
    destruct (tail L) as [tl|] eqn:Etl; simpl in Et |- *.
    2:{ symmetry in Et. by apply last_None in Et. }
    eexists. split; [done|]. split; [|done]. split; simpl.
    + constructor; [done|apply Hc].
    + f_equal. apply Hc.
    + done.
    + congruence.
    + intros [|j] q kv; simpl.
      * intros [= <-] [= <-]. simpl. rewrite lookup_insert_ne, insert_insert_eq, lookup_insert_eq by done. simpl. congruence.
      * intros Hj Hxj. pose proof (ch_node _ _ _ Hc _ _ _ Hj Hxj) as Hq.
        assert (q <> p) by (intros ->; apply Hp; by eapply list_elem_of_lookup_2).
        destruct j as [|j]; simpl in *.
        -- injection Hj as [= ->]. rewrite lookup_insert_eq. congruence.
        -- assert (h <> q) by (intros ->; pose proof (chain_inj _ 0 (S j) q (ch_nodup _ _ _ Hc) eq_refl Hj); lia).
           by rewrite !lookup_insert_ne by congruence.
    + intros q [->|Hq]%elem_of_cons; [done|by apply (ch_fresh _ _ _ Hc)].
  - destruct ls as [|? ls]; [|done]. destruct xs as [|? xs]; [|by pose proof (ch_len _ _ _ Hc)].
    simpl in *. rewrite Et. eexists. split; [done|]. split; [|done]. split; simpl; try done.
    + apply NoDup_singleton.
    + intros [|j] q kv; simpl; [|done]. intros [= <-] [= <-]. simpl. by rewrite insert_insert_eq, lookup_insert_eq.
    + intros q ->%list_elem_of_singleton. done.
Qed.

End chain.

(** ** The abstract cache: bindings with distinct keys, most recently used first *)
Section spec.
Context {K V : Type} `{Countable K}.
Implicit Types (xs : list (K * V)) (k : K) (v : V).

Definition find (k : K) (xs : list (K * V)) : option V := (list_to_map xs : gmap K V) !! k.

Definition without (k : K) (xs : list (K * V)) : list (K * V) := filter (fun kv => kv.1 <> k) xs.

Definition spec_get (k : K) (xs : list (K * V)) : list (K * V) * option V :=
  match find k xs with
  | Some v => ((k, v) :: without k xs, Some v)
  | None => (xs, None)
  end.

Definition spec_put (cap : Z) (k : K) (v : V) (xs : list (K * V)) : list (K * V) :=
  take (Z.to_nat cap) ((k, v) :: without k xs).

Definition spec_removeWhere (drop : K -> V -> bool) (xs : list (K * V)) : list (K * V) :=
  filter (fun kv => drop kv.1 kv.2 = false) xs.

Lemma keys_inj xs i j k v v' :
  NoDup xs.*1 -> xs !! i = Some (k, v) -> xs !! j = Some (k, v') -> i = j.
Proof.
  intros Hnd Hi Hj. apply (NoDup_lookup xs.*1 i j k Hnd); by rewrite list_lookup_fmap, ?Hi, ?Hj.
Qed.

Lemma find_Some xs k v : NoDup xs.*1 -> find k xs = Some v <-> exists i, xs !! i = Some (k, v).
Proof.
  intros Hnd. unfold find. rewrite <- elem_of_list_to_map by done.
  by rewrite list_elem_of_lookup.
Qed.

Lemma find_None xs k : find k xs = None <-> k ∉ xs.*1.
Proof. unfold find. symmetry. apply not_elem_of_list_to_map. Qed.

Lemma without_delete xs i k v :
  NoDup xs.*1 -> xs !! i = Some (k, v) -> without k xs = delete i xs.
Proof.
  unfold without. revert i. induction xs as [|[k' v'] xs IH]; intros i Hnd Hi; [done|].
  rewrite fmap_cons in Hnd. apply NoDup_cons in Hnd as [Hk Hnd]. destruct i as [|i]; simpl in *.
  - injection Hi as [= -> ->]. rewrite filter_cons_False by naive_solver.
    apply list_filter_all. intros [k' v''] Hj. simpl. intros ->. apply Hk.
    apply list_elem_of_fmap. by exists (k, v'').
  - rewrite filter_cons_True; [by rewrite (IH i)|]. simpl. intros ->. apply Hk.
    apply list_elem_of_fmap. exists (k, v). split; [done|by eapply list_elem_of_lookup_2].
Qed.

Lemma without_absent xs k : k ∉ xs.*1 -> without k xs = xs.
Proof.
  intros Hk. apply list_filter_all. intros [k' v] Hi. simpl. intros ->. apply Hk.
  apply list_elem_of_fmap. by exists (k, v).
Qed.

Lemma without_keys k xs : k ∉ (without k xs).*1.
Proof.
  unfold without. intros ([k' v] & -> & [Hne _]%list_elem_of_filter)%list_elem_of_fmap. by apply Hne.
Qed.

Lemma filter_keys (P : K * V -> Prop) `{forall x, Decision (P x)} xs :
  NoDup xs.*1 -> NoDup (filter P xs).*1.
Proof. intros Hnd. eapply sublist_NoDup; [exact Hnd|]. apply fmap_sublist, sublist_filter. Qed.

Lemma find_cons xs k k' v : find k' ((k, v) :: xs) = if decide (k' = k) then Some v else find k' xs.
Proof.
  unfold find. simpl. case_decide; [subst; apply lookup_insert_eq|]. by rewrite lookup_insert_ne by congruence.
Qed.

Lemma find_without xs k k' :
  find k' (without k xs) = if decide (k' = k) then None else find k' xs.
Proof.
  unfold without. induction xs as [|[a v] xs IH].
  - unfold find. simpl. rewrite lookup_empty. by case_decide.
  - destruct (decide (a = k)) as [->|Hne].
    + rewrite filter_cons_False by naive_solver. rewrite IH, find_cons. by case_decide.
    + rewrite filter_cons_True by done. rewrite !find_cons, IH.
      repeat case_decide; congruence.
Qed.

Lemma spec_get_length k xs : NoDup xs.*1 -> length (spec_get k xs).1 = length xs.
Proof.
  intros Hnd. unfold spec_get. destruct (find k xs) as [v|] eqn:E; simpl; [|done].
  apply (find_Some xs k v Hnd) in E as [i Hx].
  rewrite (without_delete xs i k v), length_delete by eauto. apply lookup_lt_Some in Hx. lia.
Qed.

(** A lookup brings in no binding. *)
Lemma spec_get_elem k xs kv : NoDup xs.*1 -> kv ∈ (spec_get k xs).1 -> kv ∈ xs.
Proof.
  intros Hnd. unfold spec_get. destruct (find k xs) as [v|] eqn:E; simpl; [|done].
  apply (find_Some xs k v Hnd) in E as [i Hx].
  intros [->|[_ Hin]%list_elem_of_filter]%elem_of_cons; [by eapply list_elem_of_lookup_2|done].
Qed.

Lemma spec_put_elem cap k v xs kv : kv ∈ spec_put cap k v xs -> kv = (k, v) \/ kv ∈ xs.
Proof.
  unfold spec_put. intros Hin. eapply elem_of_sublist in Hin; [|apply sublist_take].
  apply elem_of_cons in Hin as [->|[_ Hin]%list_elem_of_filter]; auto.
Qed.

Lemma spec_put_length cap k v xs : 0 <= cap -> Z.of_nat (length (spec_put cap k v xs)) <= cap.
Proof. intros. unfold spec_put. rewrite length_take. lia. Qed.

Lemma without_elem k xs kv : kv ∈ without k xs -> kv ∈ xs /\ kv.1 <> k.
Proof. unfold without. rewrite list_elem_of_filter. tauto. Qed.

Lemma bindings_filter_le (P : K * V -> Prop) `{forall x, Decision (P x)} xs :
  (length (filter P xs) <= length xs)%nat.
Proof. apply sublist_length, sublist_filter. Qed.

End spec.

(** ** Representation *)
Section rep.
Context {K V : Type} `{Countable K}.
Implicit Types (L : lru K V) (ls : list loc) (xs : list (K * V)) (m : gmap K loc).

Definition items_ok m ls xs : Prop :=
  forall k p, m !! k = Some p <-> exists i v, ls !! i = Some p /\ xs !! i = Some (k, v).

(** [rep L xs]: the cache [L] holds the bindings [xs]. *)
Definition rep L xs : Prop :=
  exists ls, chain L ls xs /\ NoDup xs.*1 /\ items_ok (items L) ls xs.

Lemma items_ok_None m ls xs k : items_ok m ls xs -> length ls = length xs -> m !! k = None <-> k ∉ xs.*1.
Proof.
  intros Hm Hl. rewrite eq_None_not_Some. apply not_iff_compat. split.
  - intros [p (i & v & _ & Hx)%Hm]. apply list_elem_of_fmap. exists (k, v).
    split; [done|by eapply list_elem_of_lookup_2].
  - intros ([k' v] & -> & [i Hi]%list_elem_of_lookup)%list_elem_of_fmap.
    assert (is_Some (ls !! i)) as [p Hp] by (apply lookup_lt_is_Some; rewrite Hl; by eapply lookup_lt_Some).
    exists p. apply Hm. eauto.
Qed.

Lemma items_ok_eq m ls xs :
  items_ok m ls xs -> NoDup xs.*1 -> length ls = length xs -> m = list_to_map (zip xs.*1 ls).
Proof.
  intros Hm Hnd Hl. apply map_eq. intros k. apply option_eq. intros p. rewrite (Hm k p).
  rewrite <- elem_of_list_to_map by (rewrite fst_zip; [done|rewrite length_fmap; lia]).
  rewrite list_elem_of_lookup. split.
  - intros (i & v & Hp & Hx). exists i. rewrite lookup_zip_with, list_lookup_fmap, Hx. simpl. by rewrite Hp.
  - intros [i Hi]. rewrite lookup_zip_with, list_lookup_fmap in Hi.
    destruct (xs !! i) as [[k' v]|] eqn:Hx; simpl in *; [|done].
    destruct (ls !! i) as [p'|] eqn:Hp; simpl in *; [|done]. injection Hi as -> ->. eauto.
Qed.

Lemma items_ok_size m ls xs :
  items_ok m ls xs -> NoDup xs.*1 -> length ls = length xs -> size m = length xs.
Proof.
  intros Hm Hnd Hl. rewrite (items_ok_eq m ls xs) by done.
  rewrite map_size_list_to_map by (rewrite fst_zip; [done|rewrite length_fmap; lia]).
  rewrite length_zip_with, length_fmap. lia.
Qed.

Lemma items_ok_delete m ls xs i k v :
  items_ok m ls xs -> NoDup xs.*1 -> xs !! i = Some (k, v) ->
  items_ok (delete k m) (delete i ls) (delete i xs).
Proof.
  intros Hm Hnd Hi k' p. rewrite lookup_delete_Some, (Hm k' p). split.
  - intros (Hne & j & v' & Hp & Hx). assert (j <> i) by (intros ->; congruence).
    exists (if decide (j < i)%nat then j else Init.Nat.pred j), v'. rewrite !list_lookup_delete.
    destruct (decide (j < i)%nat); [by rewrite decide_True|]. rewrite decide_False by lia.
    by replace (S (Init.Nat.pred j)) with j by lia.
  - intros (j & v' & Hp & Hx). rewrite list_lookup_delete in Hp. rewrite list_lookup_delete in Hx.
    split; [|eauto]. intros ->.
    pose proof (keys_inj xs _ _ _ _ _ Hnd Hi Hx). case_decide; lia.
Qed.

Lemma items_ok_push m ls xs k p v :
  items_ok m ls xs -> k ∉ xs.*1 -> items_ok (<[k := p]> m) (p :: ls) ((k, v) :: xs).
Proof.
  intros Hm Hk k' p'. rewrite lookup_insert_Some, (Hm k' p'). split.
  - intros [[-> ->]|(Hne & i & v' & Hp & Hx)]; [by exists 0%nat, v|by exists (S i), v'].
  - intros ([|i] & v' & Hp & Hx); simpl in *.
    + left. split; congruence.
    + right. split; [|eauto]. intros ->. apply Hk. apply list_elem_of_fmap.
      exists (k', v'). split; [done|by eapply list_elem_of_lookup_2].
Qed.

Lemma rep_size L xs : rep L xs -> len L = Z.of_nat (length xs).
Proof.
  intros (ls & Hc & Hnd & Hm). unfold len. by rewrite (items_ok_size _ ls xs Hm Hnd (ch_len _ _ _ Hc)).
Qed.

Lemma rep_new cap : rep (newLRU cap : lru K V) [].
Proof.
  exists []. split; [split; try done; [constructor|]|].
  - intros p Hp. by apply not_elem_of_nil in Hp.
  - split; [constructor|]. intros k p. simpl. rewrite lookup_empty. naive_solver.
Qed.

Lemma not_elem_delete ls i p : NoDup ls -> ls !! i = Some p -> p ∉ delete i ls.
Proof.
  intros Hnd Hi [j Hj]%list_elem_of_lookup. rewrite list_lookup_delete in Hj.
  pose proof (chain_inj _ _ _ _ Hnd Hi Hj). case_decide; lia.
Qed.

(** Removing one binding, found by its key. *)
Lemma remove_rep k L xs :
  rep L xs -> exists L', remove k L = Ok L' /\ rep L' (without k xs) /\ capacity L' = capacity L.
Proof.
  intros (ls & Hc & Hnd & Hm). unfold remove. destruct (items L !! k) as [p|] eqn:E.
  - apply Hm in E as (i & v & Hp & Hx).
    destruct (unlink_chain _ _ _ _ _ _ _ Hc Hp Hx) as (L' & -> & Hc' & Ei & Ecap & Ef & _). simpl.
    eexists. split; [done|]. split; [|done]. rewrite (without_delete xs i k v) by done.
    exists (delete i ls). split; [by destruct Hc'; split|]. split.
    + eapply sublist_NoDup; [exact Hnd|]. apply fmap_sublist, sublist_delete.
    + simpl. rewrite Ei. by eapply items_ok_delete.
  - exists L. split; [done|]. split; [|done].
    rewrite without_absent by (apply (items_ok_None (items L) ls); [done|apply Hc|done]).
    by exists ls.
Qed.

(** Moving a binding to the front, with a new value. *)
Lemma refresh_rep k p L ls xs i v v' h :
  chain L ls xs -> NoDup xs.*1 -> items_ok (items L) ls xs ->
  ls !! i = Some p -> xs !! i = Some (k, v) ->
  h = write p (mkNode k v' (before ls i) (ls !! S i)) L ->
  exists L', (l ← unlink p h; pushFront p l) = Ok L' /\ rep L' ((k, v') :: without k xs) /\
    capacity L' = capacity L /\ exists n, heap L' !! p = Some n /\ val n = v'.
Proof.
  intros Hc Hnd Hm Hp Hx ->.
  assert (chain (write p (mkNode k v' (before ls i) (ls !! S i)) L) ls (<[i := (k, v')]> xs)) as Hc1.
  { destruct Hc as [H1 H2 H3 H4 H5 H6]. split; try done; [by rewrite length_insert|].
    intros j q kv Hj Hxj. simpl. destruct (decide (j = i)) as [->|Hne].
    - rewrite list_lookup_insert_eq in Hxj by (by eapply lookup_lt_Some).
      injection Hxj as <-. assert (q = p) as -> by congruence. apply lookup_insert_eq.
    - rewrite list_lookup_insert_ne in Hxj by done.
      rewrite lookup_insert_ne by (intros ->; pose proof (chain_inj _ _ _ _ H1 Hp Hj); lia). by apply H5. }
  destruct (unlink_chain _ _ _ i p k v' Hc1 Hp) as (L1 & -> & Hc2 & Ei & Ecap & Ef & Hn).
  { apply list_lookup_insert_eq. by eapply lookup_lt_Some. }
  simpl. rewrite list_delete_insert in Hc2.
  destruct (pushFront_chain _ _ _ p _ Hc2 (not_elem_delete _ _ _ (ch_nodup _ _ _ Hc) Hp) Hn)
    as (L2 & -> & Hc3 & Ei2 & Ecap2 & Ef2).
  { rewrite Ef. apply (ch_fresh _ _ _ Hc1). by eapply list_elem_of_lookup_2. }
  exists L2. split; [done|]. split; [|split; [by rewrite Ecap2, Ecap|]].
  - rewrite (without_delete xs i k v) by done. exists (p :: delete i ls). split; [done|].
    assert (k ∉ (delete i xs).*1) as Hk.
    { rewrite <- (without_delete xs i k v) by done. apply without_keys. }
    split.
    + rewrite fmap_cons. constructor; [done|]. eapply sublist_NoDup; [exact Hnd|].
      apply fmap_sublist, sublist_delete.
    + rewrite Ei2, Ei. simpl. rewrite <- (insert_delete_id (items L) k p) by (apply Hm; eauto).
      apply items_ok_push; [by eapply items_ok_delete|done].
  - pose proof (ch_node _ _ _ Hc3 0%nat p (k, v') eq_refl eq_refl) as Hh. eauto.
Qed.

Lemma write_id p n L : heap L !! p = Some n -> write p n L = L.
Proof. intros Hp. destruct L. unfold write. simpl in *. by rewrite insert_id. Qed.

Lemma get_rep k L xs :
  rep L xs -> exists L', get k L = Ok (L', (spec_get k xs).2) /\ rep L' (spec_get k xs).1 /\
    capacity L' = capacity L.
Proof.
  intros (ls & Hc & Hnd & Hm). unfold get, spec_get. destruct (items L !! k) as [p|] eqn:E.
  - apply Hm in E as (i & v & Hp & Hx).
    rewrite (proj2 (find_Some xs k v Hnd)) by eauto. simpl.
    pose proof (ch_node _ _ _ Hc _ _ _ Hp Hx) as Hn. simpl in Hn.
    destruct (refresh_rep k p L ls xs i v v L Hc Hnd Hm Hp Hx) as (L' & HL' & Hr & Hcap & n & Hn' & Hv).
    { symmetry. by apply write_id. }
    destruct (unlink p L) as [L1|]; [simpl in *|done]. rewrite HL'. simpl.
    rewrite (deref_Ok _ _ _ Hn'). simpl. rewrite Hv. eauto.
  - rewrite (proj2 (find_None xs k)) by (apply (items_ok_None (items L) ls); [done|apply Hc|done]).
    exists L. split; [done|]. split; [by exists ls|done].
Qed.

Lemma evict_rep fuel L xs :
  rep L xs -> (length xs <= fuel)%nat -> 0 <= capacity L ->
  exists L', evict fuel L = Ok L' /\ rep L' (take (Z.to_nat (capacity L)) xs) /\ capacity L' = capacity L.
Proof.
  revert L xs. induction fuel as [|fuel IH]; intros L xs Hr Hf Hcap; cbn [evict].
  - exists L. split; [done|]. split; [|done]. by rewrite take_ge by lia.
  - rewrite (rep_size L xs Hr). destruct (Z.ltb_spec (capacity L) (Z.of_nat (length xs))) as [Hlt|Hge].
    2:{ exists L. split; [done|]. split; [|done]. by rewrite take_ge by lia. }
    pose proof Hr as (ls & Hc & Hnd & Hm). rewrite (ch_tail _ _ _ Hc), last_lookup.
    pose proof (ch_len _ _ _ Hc) as Hl.
    destruct (ls !! Init.Nat.pred (length ls)) as [p|] eqn:Hp.
    2:{ apply lookup_ge_None in Hp. lia. }
    destruct (chain_node _ _ _ _ _ Hc Hp) as (k & v & Hx & _).
    destruct (unlink_chain _ _ _ _ _ _ _ Hc Hp Hx) as (L1 & -> & Hc1 & Ei & Ecap & Ef & Hn). simpl.
    rewrite (deref_Ok _ _ _ Hn). simpl.
    assert (delete (Init.Nat.pred (length ls)) xs = take (Init.Nat.pred (length ls)) xs) as Hd.
    { rewrite delete_take_drop, drop_ge by lia. by rewrite app_nil_r. }
    destruct (IH (set_items (delete k (items L1)) L1) (delete (Init.Nat.pred (length ls)) xs))
      as (L' & HL' & Hr' & Hcap').
    + exists (delete (Init.Nat.pred (length ls)) ls). split; [by destruct Hc1; split|]. split.
      * eapply sublist_NoDup; [exact Hnd|]. apply fmap_sublist, sublist_delete.
      * simpl. rewrite Ei. by eapply items_ok_delete.
    + rewrite length_delete by eauto. lia.
    + simpl. lia.
    + exists L'. split; [done|]. simpl in *. split; [|congruence].
      rewrite Hd, take_take, Ecap in Hr'. by replace (_ `min` _)%nat with (Z.to_nat (capacity L)) in Hr' by lia.
Qed.

Lemma put_rep k v L xs :
  rep L xs -> 0 <= capacity L -> Z.of_nat (length xs) <= capacity L ->
  exists L', put k v L = Ok L' /\ rep L' (spec_put (capacity L) k v xs) /\ capacity L' = capacity L.
Proof.
  intros (ls & Hc & Hnd & Hm) Hcap Hlen. unfold put, spec_put.
  destruct (items L !! k) as [p|] eqn:E.
  - apply Hm in E as (i & v0 & Hp & Hx). pose proof (ch_node _ _ _ Hc _ _ _ Hp Hx) as Hn. simpl in Hn.
    unfold set_val. rewrite (deref_Ok _ _ _ Hn). simpl.
    destruct (refresh_rep k p L ls xs i v0 v _ Hc Hnd Hm Hp Hx eq_refl) as (L' & HL' & Hr & Hcap' & _).
    exists L'. split; [done|]. split; [|done]. rewrite take_ge; [done|].
    simpl. rewrite (without_delete xs i k v0), length_delete by eauto. apply lookup_lt_Some in Hx. lia.
  - assert (k ∉ xs.*1) as Hk by (apply (items_ok_None (items L) ls); [done|apply Hc|done]).
    rewrite (without_absent xs k Hk).
    match goal with |- context [pushFront _ ?l] => set (L0 := l) end.
    assert (fresh L ∉ ls) as Hfr.
    { intros Hin. pose proof (ch_fresh _ _ _ Hc _ Hin). lia. }
    assert (chain L0 ls xs) as Hc0.
    { destruct Hc as [H1 H2 H3 H4 H5 H6]. split; try done.
      - intros j q kv Hj Hxj. simpl. rewrite lookup_insert_ne; [by apply H5|].
        intros <-. apply Hfr. by eapply list_elem_of_lookup_2.
      - intros q Hq. simpl. pose proof (H6 q Hq). lia. }
    destruct (pushFront_chain L0 ls xs (fresh L) (mkNode k v None None) Hc0 Hfr)
      as (L1 & -> & Hc1 & Ei & Ecap & Ef); [apply lookup_insert_eq|simpl; lia|]. simpl in *.
    assert (rep L1 ((k, v) :: xs)) as Hr1.
    { exists (fresh L :: ls). split; [done|]. split; [by rewrite fmap_cons; constructor|].
      rewrite Ei. by apply items_ok_push. }
    destruct (evict_rep (size (items L1)) L1 ((k, v) :: xs) Hr1) as (L' & -> & Hr' & Hcap').
    + pose proof (rep_size _ _ Hr1). unfold len in *. lia.
    + lia.
    + rewrite Ecap in Hr'. exists L'. split; [done|]. split; [done|congruence].
Qed.

Lemma removeWhere_rep range drop L xs :
  rep L xs ->
  exists L', removeWhere range drop L = Ok L' /\
    rep L' (filter (fun kv => kv.1 ∈ range -> drop kv.1 kv.2 = false) xs) /\ capacity L' = capacity L.
Proof.
  revert L xs. induction range as [|k range IH]; intros L xs Hr; cbn [removeWhere].
  - exists L. split; [done|]. split; [|done]. rewrite list_filter_all; [done|].
    intros kv _ Hk. by apply not_elem_of_nil in Hk.
  - destruct (remove_rep k L xs Hr) as (L1 & HL1 & Hr1 & Hcap1).
    destruct (IH L xs Hr) as (L0 & HL0 & Hr0 & Hcap0).
    pose proof Hr as (ls & Hc & Hnd & Hm). unfold remove in HL1.
    assert ((forall v, (k, v) ∈ xs -> drop k v = false) ->
      exists L', removeWhere range drop L = Ok L' /\
        rep L' (filter (fun kv => kv.1 ∈ k :: range -> drop kv.1 kv.2 = false) xs) /\
        capacity L' = capacity L) as Hkeep.
    { intros Hv. exists L0. split; [done|]. split; [|done].
      rewrite (list_filter_ext _ (fun kv => kv.1 ∈ range -> drop kv.1 kv.2 = false)); [done|].
      intros [k' v'] Hin. simpl. rewrite elem_of_cons. split; [auto|]. intros ? [->|?]; auto. }
    destruct (items L !! k) as [p|] eqn:E.
    + apply Hm in E as (i & v & Hp & Hx).
      rewrite (deref_Ok _ _ _ (ch_node _ _ _ Hc _ _ _ Hp Hx)). simpl.
      assert (forall v', (k, v') ∈ xs -> v' = v) as Huniq.
      { intros v' [a Ha]%list_elem_of_lookup. pose proof (keys_inj _ _ _ _ _ _ Hnd Hx Ha) as ->. congruence. }
      destruct (drop k v) eqn:Ed; [|apply Hkeep; intros v' ->%Huniq; done].
      destruct (unlink p L) as [L2|]; [|done]. simpl in *. injection HL1 as ->.
      destruct (IH L1 _ Hr1) as (L' & HL' & Hr' & Hcap'). exists L'. split; [done|].
      split; [|congruence]. unfold without in Hr'. rewrite list_filter_filter in Hr'.
      rewrite (list_filter_ext _ (fun kv => (kv.1 ∈ range -> drop kv.1 kv.2 = false) /\ kv.1 <> k)); [done|].
      intros [k' v'] Hin. simpl. rewrite elem_of_cons. split.
      * intros Hall. split; [auto|]. intros ->. apply Huniq in Hin as ->. rewrite Hall in Ed by auto. done.
      * intros [? ?] [->|?]; [done|auto].
    + apply Hkeep. intros v Hv. exfalso.
      apply (items_ok_None (items L) ls xs) in E; [|done|apply Hc]. apply E.
      apply list_elem_of_fmap. by exists (k, v).
Qed.

Lemma clear_rep L xs : rep L xs -> rep (clear L) [].
Proof.
  intros _. exists []. split; [split; try done; [constructor|]|].
  - intros p Hp. by apply not_elem_of_nil in Hp.
  - split; [constructor|]. intros k p. simpl. rewrite lookup_empty. naive_solver.
Qed.

End rep.

(** ** A revocation cache beside the store it follows, with every interleaving of their steps.

    The store is its change log: a key's value is the last one the log gives it, and the feed reads
    the log from a cursor, page by page.  Between two critical sections of the cache anything may
    happen: the store changes, other lookups start and finish, keys are forgotten, the poller
    advances.  [caught], [floor], [bumps] and the positions kept in flights are not part of the
    program; they record when things happened, for the invariant to speak of. *)

Import Lru Follower.

Section removals.
Context {K V : Type} `{Countable K}.

(** Removing a list of keys, one after the other. *)
Lemma remove_all_rep ks : forall (L : lru K V) xs,
  rep L xs ->
  exists L', remove_all ks L = Ok L' /\ rep L' (filter (fun kv => kv.1 ∉ ks) xs) /\
    capacity L' = capacity L.
Proof.
  induction ks as [|k ks IH]; intros L xs Hr; simpl.
  - exists L. rewrite list_filter_all; [done|]. intros; apply not_elem_of_nil.
  - destruct (remove_rep k L xs Hr) as (L1 & -> & Hr1 & E1). simpl.
    destruct (IH L1 _ Hr1) as (L2 & -> & Hr2 & E2). exists L2. split; [done|].
    split; [|by rewrite E2, E1]. unfold without in Hr2. rewrite list_filter_filter in Hr2.
    erewrite list_filter_ext; [exact Hr2|]. intros [k' v]. simpl.
    rewrite not_elem_of_cons. tauto.
Qed.
End removals.

Section run.
Context {K V : Type} `{Countable K}.
Context (initial : K -> option V).

(** ** The store *)
Record change := mkChange { c_key : K; c_val : option V; c_at : time }.

(** The value of [k] once the first [q] changes are made. *)
Definition value_at (log : list change) (k : K) (q : nat) : option V :=
  fold_left (fun v c => if decide (c_key c = k) then c_val c else v) (take q log) (initial k).

(** The answers the feed may give at cursor [c]: the next page, whatever its size, or an error. *)
Inductive feed_answer (log : list change) (c : Cursor) : list K * Cursor * option error -> Prop :=
  | feed_page (n : nat) :
      (0 < n)%nat ->
      let page := take n (drop (Z.to_nat (Position c)) log) in
      feed_answer log c
        (c_key <$> page, RestoreCursor (Position c + Z.of_nat (length page)), None)
  | feed_error next err : feed_answer log c ([], next, Some err).

(** ** The system *)
Record flight := mkFlight {
  fl_key : K;
  fl_ticket : ticket;
  fl_top : nat;
  fl_bumps : Z;
  fl_answer : option (V * nat) }.

Inductive poller :=
  | Idle
  | Asking (p : polling) (top : nat)
  | Applying (p : polling) (top : nat) (answer : list K * Cursor * option error) (read : nat)
  | Marking (p : polling) (top : nat).

Record sys := mkSys {
  log : list change;
  clk : time;
  cache : follower K V;
  flights : list flight;
  poll : poller;
  caught : nat;
  floor : K -> nat;
  bumps : Z }.

Definition set_cache (f : follower K V) (s : sys) : sys :=
  mkSys (log s) (clk s) f (flights s) (poll s) (caught s) (floor s) (bumps s).

Definition set_flights (fs : list flight) (s : sys) : sys :=
  mkSys (log s) (clk s) (cache s) fs (poll s) (caught s) (floor s) (bumps s).

Definition set_poll (p : poller) (s : sys) : sys :=
  mkSys (log s) (clk s) (cache s) (flights s) p (caught s) (floor s) (bumps s).

Definition bump_sys (s : sys) : sys :=
  mkSys (log s) (clk s) (cache s) (flights s) (poll s) (caught s) (floor s) (bumps s + 1).

Definition forgotten (k : K) (s : sys) : sys :=
  mkSys (log s) (clk s) (cache s) (flights s) (poll s) (caught s)
    (fun k' => if decide (k' = k) then length (log s) else floor s k') (bumps s).

Definition after_turn (p : polling) (top : nat) (o : outcome) : poller :=
  match o with
  | Continue p' => Asking p' top
  | CaughtUp => Marking p top
  | Failed _ => Idle
  end.

(** A turn that fails leaves the generation alone. *)
Definition bumped (o : outcome) (s : sys) : sys :=
  match o with Failed _ => s | _ => bump_sys s end.

Inductive step : sys -> sys -> Prop :=
  | step_change s k v :
      step s (mkSys (log s ++ [mkChange k v (clk s)]) (clk s) (cache s) (flights s) (poll s)
                (caught s) (floor s) (bumps s))
  | step_tick s now :
      clk s <= now ->
      step s (mkSys (log s) now (cache s) (flights s) (poll s) (caught s) (floor s) (bumps s))
  | step_hit s k f v :
      get_begin k (clk s) (cache s) = Ok (f, inl v) -> step s (set_cache f s)
  | step_miss s k f t :
      get_begin k (clk s) (cache s) = Ok (f, inr t) ->
      step s (set_flights (mkFlight k t (length (log s)) (bumps s) None :: flights s) (set_cache f s))
  | step_lookup s fs1 fl fs2 v :
      flights s = fs1 ++ fl :: fs2 -> fl_answer fl = None ->
      value_at (log s) (fl_key fl) (length (log s)) = Some v ->
      step s (set_flights (fs1 ++ mkFlight (fl_key fl) (fl_ticket fl) (fl_top fl) (fl_bumps fl)
                                    (Some (v, length (log s))) :: fs2) s)
  | step_end s fs1 fl fs2 v q f :
      flights s = fs1 ++ fl :: fs2 -> fl_answer fl = Some (v, q) ->
      get_end (fl_key fl) v (fl_ticket fl) (clk s) (cache s) = Ok f ->
      step s (set_flights (fs1 ++ fs2) (set_cache f s))
  | step_fail s fs1 fl fs2 :
      flights s = fs1 ++ fl :: fs2 -> step s (set_flights (fs1 ++ fs2) s)
  | step_forget s k f :
      forget k (cache s) = Ok f -> step s (bump_sys (forgotten k (set_cache f s)))
  | step_forgetWhere s range drop f :
      forgetWhere range drop (cache s) = Ok f -> step s (bump_sys (set_cache f s))
  | step_poll s :
      poll s = Idle ->
      step s (set_poll (Asking (poll_begin (clk s) (cache s)) (length (log s))) s)
  | step_ask s p top answer :
      poll s = Asking p top -> feed_answer (log s) (p_cur p) answer ->
      step s (set_poll (Applying p top answer (length (log s))) s)
  | step_turn s p top answer read f o :
      poll s = Applying p top answer read ->
      poll_turn answer p (cache s) = Ok (f, o) ->
      step s (bumped o (set_poll (after_turn p top o) (set_cache f s)))
  | step_mark s p top :
      poll s = Marking p top ->
      step s (mkSys (log s) (clk s) (poll_mark p (cache s)) (flights s) Idle top (floor s) (bumps s))
  | step_backlog s p top : poll s = Asking p top -> step s (set_poll Idle s).

(** The cache as newFollower makes it, beside a store with an empty log. *)
Definition start (name : string) (capacity : Z) (now : time) : sys :=
  mkSys [] now (mkFollower name (RestoreCursor 0) 0 false time_zero (newLRU capacity)) [] Idle 0
    (fun _ => 0%nat) 0.

Definition reachable (s : sys) : Prop :=
  exists name capacity now, 1 <= capacity /\ rtc step (start name capacity now) s.

(** ** Values along the log *)
Lemma value_at_grow l l' k q : (q <= length l)%nat -> value_at (l ++ l') k q = value_at l k q.
Proof. intros. unfold value_at. by rewrite take_app_le. Qed.

(** A value does not move over changes of other keys. *)
Lemma value_at_skip l k q q' :
  (q <= q')%nat ->
  (forall i c, (q <= i < q')%nat -> l !! i = Some c -> c_key c <> k) ->
  value_at l k q' = value_at l k q.
Proof.
  intros Hle Hno. unfold value_at.
  replace (take q' l) with (take q l ++ drop q (take q' l))
    by (rewrite <- (take_drop q (take q' l)) at 2; rewrite take_take; do 2 f_equal; lia).
  rewrite fold_left_app. generalize (fold_left (fun v c => if decide (c_key c = k) then c_val c else v) (take q l) (initial k)).
  assert (Forall (fun c => c_key c <> k) (drop q (take q' l))) as Hf.
  { apply Forall_lookup. intros i c Hi. rewrite lookup_drop in Hi.
    assert (q + i < q')%nat by (apply lookup_lt_Some in Hi; rewrite length_take in Hi; lia).
    rewrite lookup_take_lt in Hi by lia. eapply Hno; [|exact Hi]. lia. }
  induction Hf as [|c cs Hc _ IH]; intros o; simpl; [done|].
  by rewrite decide_False by done.
Qed.

(** ** Invariant *)

(** [recent s k v q]: [v] is the value [k] had after [q] changes, and everything the cache has been
    told of (its cursor, the last completed poll, the last forget of [k]) is among them. *)
Definition recent (s : sys) (k : K) (v : V) (q : nat) : Prop :=
  value_at (log s) k q = Some v /\ (q <= length (log s))%nat /\
  Position (cursor (cache s)) <= Z.of_nat q /\ (caught s <= q)%nat /\ (floor s k <= q)%nat.

(** A lookup that no invalidation has overtaken saw at least as much as the cache knows. *)
Record flight_ok (s : sys) (fl : flight) : Prop := {
  fo_top : (fl_top fl <= length (log s))%nat;
  fo_bumps : 0 <= fl_bumps fl <= bumps s;
  fo_gen : t_gen (fl_ticket fl) = u64 (fl_bumps fl);
  fo_since : 0 <= Position (t_since (fl_ticket fl)) <= Z.of_nat (fl_top fl);
  fo_floor : fl_bumps fl = bumps s -> (floor s (fl_key fl) <= fl_top fl)%nat;
  fo_caught : fl_bumps fl = bumps s ->
    (match poll s with Marking _ top => top | _ => caught s end <= fl_top fl)%nat /\
    (caught s <= fl_top fl)%nat;
  fo_answer v q : fl_answer fl = Some (v, q) ->
    value_at (log s) (fl_key fl) q = Some v /\ (fl_top fl <= q <= length (log s))%nat }.

(** A running poll began when the log had [top] changes, all later ones being made since. *)
Record poll_since (s : sys) (p : polling) (top : nat) : Prop := {
  ps_top : (top <= length (log s))%nat;
  ps_later i c : log s !! i = Some c -> (top <= i)%nat -> p_began p <= c_at c;
  ps_began : p_began p <= clk s }.

Definition poll_ok (s : sys) : Prop :=
  match poll s with
  | Idle => True
  | Asking p top => poll_since s p top /\ p_cur p = cursor (cache s)
  | Applying p top (changed, next, err) read =>
      poll_since s p top /\ p_cur p = cursor (cache s) /\ (top <= read <= length (log s))%nat /\
      (err = None ->
         let c := Z.to_nat (Position (p_cur p)) in
         changed = c_key <$> take (length changed) (drop c (log s)) /\
         Position next = Position (p_cur p) + Z.of_nat (length changed) /\
         (c + length changed <= length (log s))%nat /\
         (changed = [] -> (read <= c)%nat))
  | Marking p top => poll_since s p top /\ Z.of_nat top <= Position (cursor (cache s))
  end.

Record inv (s : sys) (xs : list (K * V)) : Prop := {
  in_rep : rep (entries (cache s)) xs;
  in_cap : 1 <= capacity (entries (cache s));
  in_len : Z.of_nat (length xs) <= capacity (entries (cache s));
  in_cursor : 0 <= Position (cursor (cache s)) <= Z.of_nat (length (log s));
  in_gen : gen (cache s) = u64 (bumps s);
  in_bumps : 0 <= bumps s;
  in_clock i c : log s !! i = Some c -> c_at c <= clk s;
  in_caught : (caught s <= length (log s))%nat;
  in_polled i c : polled (cache s) = true -> log s !! i = Some c -> (caught s <= i)%nat ->
    lastPoll (cache s) <= c_at c;
  in_lastPoll : polled (cache s) = true -> lastPoll (cache s) <= clk s;
  in_floor k : (floor s k <= length (log s))%nat;
  in_entries k v : (k, v) ∈ xs -> exists q, recent s k v q;
  in_flights : Forall (flight_ok s) (flights s);
  in_poll : poll_ok s }.

(** The cache's own bindings and everything else are independent: replacing the bindings by others
    that are recent keeps the invariant. *)
Lemma inv_entries s xs l xs' :
  inv s xs -> rep l xs' -> capacity l = capacity (entries (cache s)) ->
  Z.of_nat (length xs') <= capacity (entries (cache s)) ->
  (forall k v, (k, v) ∈ xs' -> exists q, recent s k v q) ->
  inv (set_cache (set_entries l (cache s)) s) xs'.
Proof.
  intros Hi Hr Hcap Hlen He. destruct Hi. split; simpl; try done; try lia.
  - eapply Forall_impl; [done|]. intros fl Hfl. by destruct Hfl; split.
  - unfold poll_ok in *. simpl in *.
    destruct (poll s) as [|p top|p top [[changed next] err] read|p top]; try done;
      destruct_and!; split_and?; try done; match goal with H' : poll_since _ _ _ |- _ => by destruct H'; split end.
Qed.

Lemma inv_change s xs k v :
  inv s xs ->
  inv (mkSys (log s ++ [mkChange k v (clk s)]) (clk s) (cache s) (flights s) (poll s)
         (caught s) (floor s) (bumps s)) xs.
Proof.
  intros Hi. destruct Hi.
  assert (forall i c, (log s ++ [mkChange k v (clk s)]) !! i = Some c ->
    log s !! i = Some c \/ c = mkChange k v (clk s)) as Hlog.
  { intros i c [Hc|[_ Hc]]%lookup_app_Some; [by left|right].
    destruct (i - length (log s))%nat; simpl in Hc; [congruence|done]. }
  assert (forall p top, poll_since s p top ->
    poll_since (mkSys (log s ++ [mkChange k v (clk s)]) (clk s) (cache s) (flights s) (poll s)
         (caught s) (floor s) (bumps s)) p top) as Hps.
  { intros p top [H1 H2 H3]. split; simpl; [rewrite length_app; lia| |done].
    intros i c [Hc| ->]%Hlog Hle; [by eapply H2|done]. }
  split; simpl; try done; rewrite ?length_app; simpl; try lia.
  - intros i c [Hc| ->]%Hlog; [by eapply in_clock0|done].
  - intros i c Hp [Hc| ->]%Hlog Hle; [by eapply in_polled0|]. simpl.
    by apply in_lastPoll0.
  - intros k'. pose proof (in_floor0 k'). lia.
  - intros k' v' (q & Hv & Hq & Hrest)%in_entries0. exists q. unfold recent. simpl.
    rewrite value_at_grow, length_app by done. split; [done|]. split; [simpl; lia|done].
  - eapply Forall_impl; [done|]. intros fl Hfl. destruct Hfl. split; simpl; rewrite ?length_app; try done; try lia.
    intros v' q Ha. destruct (fo_answer0 v' q Ha). rewrite value_at_grow by lia. split; [done|]. simpl. lia.
  - unfold poll_ok in *. simpl in *.
    destruct (poll s) as [|p top|p top [[changed next] err] read|p top]; try done.
    + destruct in_poll0. split; [by apply Hps|done].
    + destruct in_poll0 as (H1 & H2 & H3 & H4). rewrite length_app. split_and!; [by apply Hps|done|lia|simpl; lia|].
      intros He. destruct (H4 He) as (E1 & E2 & E3 & E4). split_and!; [|done|simpl; lia|done].
      rewrite drop_app_le, take_app_le by (rewrite ?length_drop; lia). done.
    + destruct in_poll0. split; [by apply Hps|done].
Qed.

Lemma inv_tick s xs now :
  inv s xs -> clk s <= now ->
  inv (mkSys (log s) now (cache s) (flights s) (poll s) (caught s) (floor s) (bumps s)) xs.
Proof.
  intros Hi Hle. destruct Hi.
  assert (forall p top, poll_since s p top ->
    poll_since (mkSys (log s) now (cache s) (flights s) (poll s) (caught s) (floor s) (bumps s)) p top) as Hps.
  { intros p top [H1 H2 H3]. split; simpl; [done..|lia]. }
  split; simpl; try done.
  - intros i c Hc. specialize (in_clock0 i c Hc). lia.
  - intros Hp. specialize (in_lastPoll0 Hp). lia.
  - eapply Forall_impl; [done|]. intros fl Hfl. by destruct Hfl; split.
  - unfold poll_ok in *. simpl in *.
    destruct (poll s) as [|p top|p top [[changed next] err] read|p top]; naive_solver.
Qed.

(** What a hit or a miss does to the bindings: nothing but reorder them. *)
Lemma get_begin_inv s xs k f r :
  inv s xs -> get_begin k (clk s) (cache s) = Ok (f, r) ->
  (exists xs', inv (set_cache f s) xs') /\ cursor f = cursor (cache s) /\ gen f = gen (cache s) /\
  match r with
  | inl v => (k, v) ∈ xs /\ freshLocked (cache s) (clk s) = true
  | inr t => t_since t = cursor (cache s) /\ t_gen t = gen (cache s)
  end.
Proof.
  intros Hi. unfold get_begin. destruct (freshLocked (cache s) (clk s)) eqn:Ef.
  - destruct (get_rep k _ _ (in_rep _ _ Hi)) as (l & Hg & Hr & Hcap). rewrite Hg. simpl.
    pose proof (in_rep _ _ Hi) as (ls & _ & Hnd & _).
    assert (exists xs', inv (set_cache (set_entries l (cache s)) s) xs') as Hinv.
    { exists (spec_get k xs).1. apply (inv_entries s xs); [done..| |].
      - rewrite spec_get_length by done. apply Hi.
      - intros k' v' Hin. eapply in_entries; [done|]. by eapply spec_get_elem. }
    unfold spec_get in *. destruct (find k xs) as [v|] eqn:E; intros [= <- <-]; (split; [done|]); simpl; split_and!; try done.
    apply (find_Some xs k v Hnd) in E as [i Hx]. by eapply list_elem_of_lookup_2.
  - intros [= <- <-]. split; [|done]. exists xs. by destruct s.
Qed.

(** Starting, answering and dropping lookups. *)
Lemma inv_flights s xs fs : inv s xs -> Forall (flight_ok s) fs -> inv (set_flights fs s) xs.
Proof.
  intros Hi Hf. destruct Hi. split; simpl; try done.
  - eapply Forall_impl; [done|]. intros fl Hfl. by destruct Hfl; split.
  - unfold poll_ok in *. simpl in *.
    destruct (poll s) as [|p top|p top [[changed next] err] read|p top]; try done;
      destruct_and!; split_and?; try done; match goal with H' : poll_since _ _ _ |- _ => by destruct H'; split end.
Qed.

Lemma flights_middle s xs fs1 fl fs2 :
  inv s xs -> flights s = fs1 ++ fl :: fs2 -> flight_ok s fl /\ Forall (flight_ok s) (fs1 ++ fs2).
Proof.
  intros Hi E. pose proof (in_flights _ _ Hi) as Hf. rewrite E in Hf.
  apply Forall_app in Hf as [H1 [H2 H3]%Forall_cons]. split; [done|]. by apply Forall_app.
Qed.

Lemma inv_miss s xs k f t :
  inv s xs -> get_begin k (clk s) (cache s) = Ok (f, inr t) ->
  exists xs', inv (set_flights (mkFlight k t (length (log s)) (bumps s) None :: flights s) (set_cache f s)) xs'.
Proof.
  intros Hi Hg. destruct (get_begin_inv s xs k f _ Hi Hg) as ([xs' Hi'] & Ec & Eg & Hs & Ht).
  exists xs'. apply (inv_flights (set_cache f s)); [done|]. apply Forall_cons. split; [|by apply (in_flights _ _ Hi')].
  destruct Hi'. simpl in *. split; simpl; try done; try lia.
  - rewrite Hs, <- Ec. lia.
  - intros _. unfold poll_ok in in_poll0. simpl in in_poll0. split; [|done].
    destruct (poll s); try done. by destruct in_poll0 as [[? ? ?] _].
Qed.

Lemma inv_lookup s xs fs1 fl fs2 v :
  inv s xs -> flights s = fs1 ++ fl :: fs2 ->
  value_at (log s) (fl_key fl) (length (log s)) = Some v ->
  inv (set_flights (fs1 ++ mkFlight (fl_key fl) (fl_ticket fl) (fl_top fl) (fl_bumps fl)
                             (Some (v, length (log s))) :: fs2) s) xs.
Proof.
  intros Hi E Hv. destruct (flights_middle s xs _ _ _ Hi E) as [Hfl [H1 H2]%Forall_app].
  apply inv_flights; [done|]. apply Forall_app. split; [done|]. apply Forall_cons. split; [|done].
  destruct Hfl. split; simpl; try done. intros v' q [= <- <-]. split; [done|lia].
Qed.

Lemma inv_end s xs fs1 fl fs2 v q f :
  inv s xs -> bumps s < two64 -> flights s = fs1 ++ fl :: fs2 -> fl_answer fl = Some (v, q) ->
  get_end (fl_key fl) v (fl_ticket fl) (clk s) (cache s) = Ok f ->
  exists xs', inv (set_flights (fs1 ++ fs2) (set_cache f s)) xs'.
Proof.
  intros Hi Hroom E Ha Hg. destruct (flights_middle s xs _ _ _ Hi E) as [Hfl Hrest].
  assert (exists xs', inv (set_cache f s) xs') as [xs' Hi'].
  { revert Hg. unfold get_end. destruct (t_fresh (fl_ticket fl)).
    2:{ intros [= <-]. exists xs. by destruct s. }
    destruct (_ && _) eqn:Ec; [|intros [= <-]; exists xs; by destruct s]. bools.
    destruct (put_rep (fl_key fl) v _ _ (in_rep _ _ Hi)) as (l & -> & Hr & Hcap);
      [pose proof (in_cap _ _ Hi); lia|apply Hi|]. intros [= <-].
    eexists. apply (inv_entries s xs); [done..| |].
    - apply spec_put_length. pose proof (in_cap _ _ Hi). lia.
    - intros k' v' [[= -> ->]|Hin]%spec_put_elem; [|by apply Hi]. exists q.
      destruct Hfl, (fo_answer0 v q Ha) as [Hv Hq].
      assert (fl_bumps fl = bumps s) as Eb.
      { rewrite (in_gen _ _ Hi), fo_gen0 in *. rewrite !u64_small in * by (unfold is_u64; lia). congruence. }
      destruct (fo_caught0 Eb). specialize (fo_floor0 Eb). split_and!; [done|lia..]. }
  exists xs'. apply inv_flights; [done|]. eapply Forall_impl; [exact Hrest|].
  intros x Hx. by destruct Hx; split.
Qed.

(** ** Invalidations *)

Lemma u64_succ b : u64 (u64 b + 1) = u64 (b + 1).
Proof. unfold u64. by rewrite Zplus_mod_idemp_l. Qed.

(** Whatever raises the generation puts every lookup in flight out of date. *)
Lemma inv_bump s xs l xs' c p fl :
  inv s xs -> rep l xs' -> capacity l = capacity (entries (cache s)) ->
  (length xs' <= length xs)%nat ->
  0 <= Position c <= Z.of_nat (length (log s)) ->
  (forall k, (fl k <= length (log s))%nat) ->
  let s' := mkSys (log s) (clk s)
              (bump_gen (set_cursor c (set_entries l (cache s)))) (flights s) p (caught s) fl
              (bumps s + 1) in
  (forall k v, (k, v) ∈ xs' -> exists q, recent s' k v q) -> poll_ok s' -> inv s' xs'.
Proof.
  intros Hi Hr Hcap Hlen Hc Hfl s' He Hp. destruct Hi. split; simpl; try done; try lia.
  - rewrite in_gen0. apply u64_succ.
  - eapply Forall_impl; [done|]. intros x Hx. destruct Hx. split; simpl; try done; lia.
Qed.

(** Moving the poller while the generation stays. *)
Lemma inv_set_poll s xs p :
  inv s xs -> (match p with Marking _ _ => False | _ => True end) ->
  poll_ok (set_poll p s) -> inv (set_poll p s) xs.
Proof.
  intros Hi Hm Hp. destruct Hi. split; simpl; try done.
  eapply Forall_impl; [done|]. intros x Hx. destruct Hx. split; simpl; try done.
  intros E. destruct (fo_caught0 E). by destruct p.
Qed.

Lemma poll_ok_bump s p l fl :
  poll_ok s -> poll s = p ->
  poll_ok (mkSys (log s) (clk s) (bump_gen (set_cursor (cursor (cache s)) (set_entries l (cache s))))
             (flights s) p (caught s) fl (bumps s + 1)).
Proof.
  unfold poll_ok. intros Hp <-. simpl.
  destruct (poll s) as [|p top|p top [[changed next] err] read|p top]; try done;
    destruct_and!; split_and?; try done; match goal with H' : poll_since _ _ _ |- _ => by destruct H'; split end.
Qed.

Lemma inv_forgetWhere s xs range drop f :
  inv s xs -> forgetWhere range drop (cache s) = Ok f ->
  exists xs', inv (bump_sys (set_cache f s)) xs'.
Proof.
  intros Hi. unfold forgetWhere.
  destruct (removeWhere_rep range drop _ _ (in_rep _ _ Hi)) as (l & -> & Hr & Hcap). intros [= <-].
  eexists. replace (bump_sys _) with (mkSys (log s) (clk s)
    (bump_gen (set_cursor (cursor (cache s)) (set_entries l (cache s)))) (flights s) (poll s) (caught s)
    (floor s) (bumps s + 1)) by done.
  apply (inv_bump s xs); try done; try apply Hi.
  - apply bindings_filter_le.
  - intros k v [_ Hin]%list_elem_of_filter. by apply Hi.
  - apply poll_ok_bump; [apply Hi|done].
Qed.

Lemma inv_forget s xs k f :
  inv s xs -> forget k (cache s) = Ok f ->
  exists xs', inv (bump_sys (forgotten k (set_cache f s))) xs'.
Proof.
  intros Hi. unfold forget.
  destruct (remove_rep k _ _ (in_rep _ _ Hi)) as (l & -> & Hr & Hcap). intros [= <-].
  eexists. replace (bump_sys _) with (mkSys (log s) (clk s)
    (bump_gen (set_cursor (cursor (cache s)) (set_entries l (cache s)))) (flights s) (poll s) (caught s)
    (fun k' => if decide (k' = k) then length (log s) else floor s k') (bumps s + 1)) by done.
  apply (inv_bump s xs); try done; try apply Hi.
  - apply bindings_filter_le.
  - intros k'. case_decide; [done|apply Hi].
  - intros k' v' [Hin Hne]%without_elem. destruct (in_entries _ _ Hi _ _ Hin) as [q Hq]. exists q.
    unfold recent in *. simpl in *. by rewrite decide_False.
  - apply poll_ok_bump; [apply Hi|done].
Qed.

(** ** The poller's steps *)

Lemma inv_poll s xs :
  inv s xs -> inv (set_poll (Asking (poll_begin (clk s) (cache s)) (length (log s))) s) xs.
Proof.
  intros Hi. apply inv_set_poll; [done..|]. split; [|done]. split; simpl; [done| |done].
  intros i c Hc%lookup_lt_Some. lia.
Qed.

Lemma inv_ask s xs p top answer :
  inv s xs -> poll s = Asking p top -> feed_answer (log s) (p_cur p) answer ->
  inv (set_poll (Applying p top answer (length (log s))) s) xs.
Proof.
  intros Hi E Ha. pose proof (in_poll _ _ Hi) as Hp. unfold poll_ok in Hp. rewrite E in Hp.
  destruct Hp as [[H1 H2 H3] Hc]. pose proof (in_cursor _ _ Hi) as Hr. rewrite <- Hc in Hr.
  apply inv_set_poll; [done..|]. unfold poll_ok. simpl.
  destruct Ha as [n Hn page|next err]; (split; [by split|]); (split; [done|]); (split; [lia|]); [|done].
  intros _. rewrite length_fmap. assert (length page <= length (log s) - Z.to_nat (Position (p_cur p)))%nat.
  { unfold page. rewrite length_take, length_drop. lia. }
  split_and!.
  - unfold page at 1. f_equal. unfold page. rewrite length_take.
    destruct (decide (n <= length (drop (Z.to_nat (Position (p_cur p))) (log s)))%nat).
    + by rewrite Nat.min_l by lia.
    + rewrite Nat.min_r by lia. rewrite !take_ge by lia. done.
  - done.
  - lia.
  - intros Hnil. apply fmap_nil_inv in Hnil. apply (f_equal length) in Hnil. simpl in Hnil.
    unfold page in Hnil. rewrite length_take, length_drop in Hnil. lia.
Qed.

(** A page read from the cursor: what it leaves in the cache is as recent as its last change. *)
Lemma recent_page s xs changed next k v :
  inv s xs ->
  let c := Z.to_nat (Position (cursor (cache s))) in
  changed = c_key <$> take (length changed) (drop c (log s)) ->
  Position next = Position (cursor (cache s)) + Z.of_nat (length changed) ->
  (c + length changed <= length (log s))%nat ->
  (k, v) ∈ xs -> k ∉ changed ->
  exists q, value_at (log s) k q = Some v /\ (q <= length (log s))%nat /\ Position next <= Z.of_nat q /\
    (caught s <= q)%nat /\ (floor s k <= q)%nat.
Proof.
  intros Hi c Hch Hnext Hlen Hin Hk. destruct (in_entries _ _ Hi _ _ Hin) as (q & Hv & Hq & Hc & H1 & H2).
  pose proof (in_cursor _ _ Hi) as Hcur.
  exists (q `max` (c + length changed))%nat.
  assert (value_at (log s) k (q `max` (c + length changed)) = value_at (log s) k q) as ->.
  { apply value_at_skip; [lia|]. intros i ch Hi' Hl <-. apply Hk. rewrite Hch.
    apply list_elem_of_fmap. exists ch. split; [done|]. apply (list_elem_of_lookup_2 _ (i - c)).
    rewrite lookup_take_lt by lia. rewrite lookup_drop. rewrite <- Hl. f_equal. lia. }
  split_and!; [done|lia..].
Qed.

Lemma inv_turn s xs p top answer read f o :
  inv s xs -> poll s = Applying p top answer read -> poll_turn answer p (cache s) = Ok (f, o) ->
  exists xs', inv (bumped o (set_poll (after_turn p top o) (set_cache f s))) xs'.
Proof.
  intros Hi E. destruct answer as [[changed next] err].
  pose proof (in_poll _ _ Hi) as Hp. unfold poll_ok in Hp. rewrite E in Hp.
  destruct Hp as ([Ht1 Ht2 Ht3] & Hc & Hread & Hpage). pose proof (in_cursor _ _ Hi) as Hcur.
  unfold poll_turn. destruct err as [err|].
  - destruct (_ && _) eqn:Er; intros [= <- <-]; simpl.
    + exists []. apply (inv_bump s xs (clear (entries (cache s))) [] (RestoreCursor 0)
        (Asking (mkPolling (RestoreCursor 0) (p_began p) true) top)); try done.
      * eapply clear_rep, Hi.
      * simpl. lia.
      * simpl. lia.
      * apply Hi.
      * intros k v Hin. by apply not_elem_of_nil in Hin.
    + exists xs. replace (set_cache (cache s) s) with s by (by destruct s). by apply inv_set_poll.
  - destruct (remove_all_rep changed _ _ (in_rep _ _ Hi)) as (l & -> & Hr & Hcap). simpl.
    destruct (Hpage eq_refl) as (P1 & P2 & P3 & P4). rewrite Hc in *. clear Hpage.
    set (adv := Cursor_After next (cursor (cache s))). intros Ho.
    set (c := if adv then next else cursor (cache s)).
    assert (Position c = Position next) as Ec.
    { unfold c, adv, Cursor_After. destruct (Z.ltb_spec (Position (cursor (cache s))) (Position next)); [done|lia]. }
    assert (exists xs', inv (mkSys (log s) (clk s) (bump_gen (set_cursor c (set_entries l (cache s))))
      (flights s) (after_turn p top o) (caught s) (floor s) (bumps s + 1)) xs') as [xs' Hi'].
    { eexists. apply (inv_bump s xs); [done..|apply bindings_filter_le|lia|apply Hi| |].
      - intros k v [Hk Hin]%list_elem_of_filter.
        destruct (recent_page s xs changed next k v Hi P1 P2 P3 Hin Hk) as [q Hq].
        exists q. unfold recent. simpl. by rewrite Ec.
      - revert Ho. destruct ((_ =? 0) || negb adv) eqn:Ed; intros [= _ <-]; simpl; unfold poll_ok; simpl.
        + split; [by split|]. rewrite Ec, P2. destruct changed as [|k ks]; [specialize (P4 eq_refl); simpl; lia|].
          exfalso. revert Ed. unfold adv, Cursor_After. simpl in *.
          destruct (Z.ltb_spec (Position (cursor (cache s))) (Position next)); [|lia]. simpl. done.
        + split; [by split|]. apply orb_false_iff in Ed as [_ Ed%negb_false_iff]. unfold c. by rewrite Ed. }
    exists xs'. revert Ho. unfold c in *.
    destruct adv; (destruct (_ =? 0); simpl; intros [= <- <-]); exact Hi'.
Qed.

Lemma inv_mark s xs p top :
  inv s xs -> poll s = Marking p top ->
  inv (mkSys (log s) (clk s) (poll_mark p (cache s)) (flights s) Idle top (floor s) (bumps s)) xs.
Proof.
  intros Hi E. destruct Hi. unfold poll_ok in in_poll0. rewrite E in in_poll0.
  destruct in_poll0 as [[Ht1 Ht2 Ht3] Hc]. split; simpl; try done.
  - intros i c _ Hl Hle. by eapply Ht2.
  - intros k v (q & Hv & Hq & H1 & H2 & H3)%in_entries0. exists q. split_and!; simpl; try done. lia.
  - eapply Forall_impl; [done|]. intros x Hx. destruct Hx. rewrite E in fo_caught0.
    split; simpl; try done. intros Eb. by destruct (fo_caught0 Eb).
Qed.

(** ** Runs *)

Lemma follower_step_inv s s' xs : inv s xs -> bumps s < two64 -> step s s' -> exists xs', inv s' xs'.
Proof.
  intros Hi Hb Hs. destruct Hs as
    [s k v|s now|s k f v Hg|s k f t Hg|s fs1 fl fs2 v Hf Ha Hv|s fs1 fl fs2 v q f Hf Ha Hg|s fs1 fl fs2 Hf
    |s k f Hg|s range drop f Hg|s E|s p top answer E Ha|s p top answer read f o E Ht|s p top E|s p top E].
  - exists xs. by apply inv_change.
  - exists xs. by apply inv_tick.
  - by destruct (get_begin_inv s xs k f _ Hi Hg) as [? _].
  - by eapply inv_miss.
  - exists xs. by apply inv_lookup.
  - by eapply inv_end.
  - exists xs. apply inv_flights; [done|]. by eapply flights_middle.
  - by eapply inv_forget.
  - by eapply inv_forgetWhere.
  - exists xs. by apply inv_poll.
  - exists xs. by apply inv_ask.
  - by eapply inv_turn.
  - exists xs. by apply inv_mark.
  - exists xs. by apply inv_set_poll.
Qed.

Lemma step_bumps s s' : step s s' -> bumps s <= bumps s'.
Proof. intros []; simpl; try lia. destruct o; simpl; lia. Qed.

Lemma rtc_bumps s s' : rtc step s s' -> bumps s <= bumps s'.
Proof. induction 1 as [|s1 s2 s3 H1 _ IH]; [done|]. pose proof (step_bumps _ _ H1). lia. Qed.

Lemma start_inv name capacity now : 1 <= capacity -> inv (start name capacity now) [].
Proof.
  intros Hc. split; simpl; try done; try lia.
  - apply rep_new.
  - intros k v Hin. by apply not_elem_of_nil in Hin.
Qed.

Lemma follower_reachable_inv s : reachable s -> bumps s < two64 -> exists xs, inv s xs.
Proof.
  intros (name & capacity & now & Hc & Hr) Hb.
  assert (forall s1 xs, inv s1 xs -> rtc step s1 s -> exists xs, inv s xs) as Hrun.
  { clear Hr. intros s1 xs Hi Hr. revert xs Hi. induction Hr as [|s1 s2 s3 H1 Hr IH]; [eauto|].
    intros xs Hi. pose proof (rtc_bumps _ _ Hr). pose proof (step_bumps _ _ H1).
    destruct (follower_step_inv s1 s2 xs Hi ltac:(lia) H1) as [xs' Hi']. eauto. }
  eapply Hrun; [by apply start_inv|done].
Qed.

End run.
