(* ===== verification/IdentityRecord.v ===== *)
(** Accounts as the store contract has them: store/identity/identifier.go, outbox.go, records.go,
    mutation.go and legacy.go.

    Byte-sized enums are [Z]; a [PasswordHash] is the optional string its pointer reaches.  The
    identifiers' character tests use Go's unicode package: its Latin-1 properties and White_Space
    ranges are written out, its table of upper-case letters beyond Latin-1 is the parameter
    [UpperTable]. *)
From S2P Require Import Prelude Errors Tenant StoreBase.

Module Identity.

(** ** Text

    [runes] decodes a string as UTF-8, as [range] over a valid string does; it is [None] where
    [utf8.ValidString] is false. *)
Definition cont (lo hi : Z) (b : byte) : bool := (lo <=? Z_of_byte b) && (Z_of_byte b <=? hi).

Definition low6 (b : byte) : Z := Z_of_byte b - 128.

(** The bounds of the second byte after each leading byte. *)
Definition second_of_three (c : Z) : Z * Z :=
  (if c =? 224 then 160 else 128, if c =? 237 then 159 else 191).

Definition second_of_four (c : Z) : Z * Z :=
  (if c =? 240 then 144 else 128, if c =? 244 then 143 else 191).

Fixpoint runes (b : bytes) : option (list Z) :=
  match b with
  | [] => Some []
  | b0 :: r0 =>
      let c := Z_of_byte b0 in
      if c <? 128 then cons c <$> runes r0
      else match r0 with
      | [] => None
      | b1 :: r1 =>
          if (194 <=? c) && (c <=? 223)
          then if cont 128 191 b1 then cons ((c - 192) * 64 + low6 b1) <$> runes r1 else None
          else match r1 with
          | [] => None
          | b2 :: r2 =>
              if (224 <=? c) && (c <=? 239)
              then let '(lo, hi) := second_of_three c in
                   if cont lo hi b1 && cont 128 191 b2
                   then cons ((c - 224) * 4096 + low6 b1 * 64 + low6 b2) <$> runes r2
                   else None
              else match r2 with
              | [] => None
              | b3 :: r3 =>
                  if (240 <=? c) && (c <=? 244)
                  then let '(lo, hi) := second_of_four c in
                       if cont lo hi b1 && cont 128 191 b2 && cont 128 191 b3
                       then cons ((c - 240) * 262144 + low6 b1 * 4096 + low6 b2 * 64 + low6 b3)
                              <$> runes r3
                       else None
                  else None
              end
          end
      end
  end.

Definition ValidString (s : string) : bool :=
  match runes (str_bytes s) with Some _ => true | None => false end.

Definition between (lo hi c : Z) : bool := (lo <=? c) && (c <=? hi).

Definition IsSpace (c : Z) : bool :=
  between 9 13 c || (c =? 32) || (c =? 133) || (c =? 160) || (c =? 5760) || between 8192 8202 c
  || (c =? 8232) || (c =? 8233) || (c =? 8239) || (c =? 8287) || (c =? 12288).

Definition IsControl (c : Z) : bool := between 0 31 c || between 127 159 c.

Definition IsUpper (UpperTable : Z -> bool) (c : Z) : bool :=
  if c <=? 255 then between 65 90 c || between 192 214 c || between 216 222 c else UpperTable c.

(** ** Identifiers *)
Definition IdentifierEmail : Z := 1.

Definition IdentifierPhone : Z := 2.

Definition IdentifierRecoveryEmail : Z := 3.

Definition IdentifierKind_Valid (k : Z) : bool :=
  (IdentifierEmail <=? k) && (k <=? IdentifierRecoveryEmail).

Definition IdentifierKind_String (k : Z) : string :=
  if k =? IdentifierEmail then "email" else if k =? IdentifierPhone then "phone"
  else if k =? IdentifierRecoveryEmail then "recovery_email" else "invalid".

Definition MaxIdentifierLen : Z := 320.

Record Identifier := mkIdentifier { kind : Z; value : string }.

#[export] Instance Identifier_eq_dec : EqDecision Identifier.
Proof. solve_decision. Defined.

Definition zero_Identifier : Identifier := mkIdentifier 0 "".

Definition Identifier_IsZero (i : Identifier) : bool := kind i =? 0.

(** [strings.CutPrefix(s, "+")] then the digits. *)
Definition canonicalPhone (s : string) : bool :=
  match str_bytes s with
  | b :: digits =>
      if negb (Z_of_byte b =? 43) then false
      else
        let n := Z.of_nat (length digits) in
        if (n <? 8) || (15 <? n) then false
        else match digits with
             | d :: _ => if Z_of_byte d =? 48 then false
                         else forallb (cont 48 57) digits
             | [] => false
             end
  | [] => false
  end.

(** [strings.Cut(b, "@")] *)
Fixpoint cut_at (b : bytes) : option (bytes * bytes) :=
  match b with
  | [] => None
  | c :: b' => if Z_of_byte c =? 64 then Some ([], b')
               else match cut_at b' with
                    | Some (local, domain) => Some (c :: local, domain)
                    | None => None
                    end
  end.

Definition canonicalEmail (UpperTable : Z -> bool) (s : string) : bool :=
  match cut_at (str_bytes s) with
  | None => false
  | Some (local, domain) =>
      if (Z.of_nat (length local) =? 0) || (Z.of_nat (length domain) =? 0)
         || existsb (fun c => Z_of_byte c =? 64) domain
      then false
      else match runes (str_bytes s) with
           | Some cs => forallb (fun c => negb (IsSpace c || IsControl c || IsUpper UpperTable c)) cs
           | None => false
           end
  end.

Definition NewIdentifier (UpperTable : Z -> bool) (k : Z) (normalized : string) : res Identifier :=
  if negb (IdentifierKind_Valid k) || bool_decide (normalized = "")
     || (MaxIdentifierLen <? Z.of_nat (String.length normalized)) || negb (ValidString normalized)
  then Err ErrInvalidIdentifier
  else if k =? IdentifierPhone
  then if negb (canonicalPhone normalized)
       then Err (Join ErrInvalidIdentifier (New "phone must be in E.164 form"))
       else Ok (mkIdentifier k normalized)
  else if negb (canonicalEmail UpperTable normalized)
  then Err (Join ErrInvalidIdentifier (New "email is not in canonical form"))
  else Ok (mkIdentifier k normalized).

(** ** Events, reasons and components *)
Definition EventCredentialRotated : Z := 1.

Definition EventFactorsChanged : Z := 2.

Definition EventIdentifierChanged : Z := 3.

Definition EventDisable : Z := 4.

Definition EventEnable : Z := 5.

Definition EventDelete : Z := 6.

Definition eventEnd : Z := 7.

Definition Event_Valid (e : Z) : bool := (EventCredentialRotated <=? e) && (e <? eventEnd).

Definition Event_String (e : Z) : string :=
  if e =? EventCredentialRotated then "credential_rotated"
  else if e =? EventFactorsChanged then "factors_changed"
  else if e =? EventIdentifierChanged then "identifier_changed"
  else if e =? EventDisable then "disable"
  else if e =? EventEnable then "enable"
  else if e =? EventDelete then "delete"
  else "invalid".

Definition RotationPasswordChanged : Z := 1.

Definition RotationPasswordReset : Z := 2.

Definition RotationTemporaryPassword : Z := 3.

Definition RotationSecurityRevert : Z := 4.

Definition RotationReason_Valid (r : Z) : bool :=
  (RotationPasswordChanged <=? r) && (r <=? RotationSecurityRevert).

Definition ForcesChange (r : Z) : bool := r =? RotationTemporaryPassword.

Definition RotationReason_String (r : Z) : string :=
  if r =? RotationPasswordChanged then "password_changed"
  else if r =? RotationPasswordReset then "password_reset"
  else if r =? RotationTemporaryPassword then "temporary_password"
  else if r =? RotationSecurityRevert then "security_revert"
  else "invalid".

Definition FactorTOTPEnrolled : Z := 1.

Definition FactorTOTPRemoved : Z := 2.

Definition FactorRecoveryCodesRegenerated : Z := 3.

Definition FactorPasskeyAdded : Z := 4.

Definition FactorPasskeyRemoved : Z := 5.

Definition FactorFederatedLinked : Z := 6.

Definition FactorFederatedUnlinked : Z := 7.

Definition FactorChange_Valid (c : Z) : bool :=
  (FactorTOTPEnrolled <=? c) && (c <=? FactorFederatedUnlinked).

Definition FactorChange_String (c : Z) : string :=
  if c =? FactorTOTPEnrolled then "totp_enrolled"
  else if c =? FactorTOTPRemoved then "totp_disabled"
  else if c =? FactorRecoveryCodesRegenerated then "recovery_codes_regenerated"
  else if c =? FactorPasskeyAdded then "passkey_added"
  else if c =? FactorPasskeyRemoved then "passkey_removed"
  else if c =? FactorFederatedLinked then "federated_linked"
  else if c =? FactorFederatedUnlinked then "federated_unlinked"
  else "invalid".

Definition ComponentSessions : Z := 1.

Definition ComponentIdentity : Z := 10.

Definition componentEnd : Z := 11.

(** The loop from the first component to [componentEnd]. *)
Definition Components : list Z :=
  seqZ ComponentSessions (componentEnd - ComponentSessions).

Definition Component_Valid (c : Z) : bool := (ComponentSessions <=? c) && (c <? componentEnd).

Definition Component_String (c : Z) : string :=
  if c =? 1 then "sessions" else if c =? 2 then "api_keys" else if c =? 3 then "ceremonies"
  else if c =? 4 then "mfa" else if c =? 5 then "passkeys" else if c =? 6 then "federation"
  else if c =? 7 then "notices" else if c =? 8 then "keys" else if c =? 9 then "hooks"
  else if c =? ComponentIdentity then "identity" else "invalid".

Definition ParseComponent (name : string) : res Z :=
  match List.find (fun c => bool_decide (Component_String c = name)) Components with
  | Some c => Ok c
  | None => Err (Join ErrUnknownComponent (New name))
  end.

Record OutboxItem := mkOutboxItem {
  o_ID : Z;
  Component : Z;
  o_Event : Z;
  o_Subject : Subject;
  o_Keep : uuid;
  Rotation : Z;
  o_Change : Z;
  o_Identifier : Z;
  Old : Identifier;
  Attempts : Z;
  NextAttemptAt : time;
  o_CreatedAt : time }.

Record EpochChange := mkEpochChange { ec_Subject : Subject; NewEpoch : Z; Reason : Z }.

Record Applied := mkApplied { ap_Subject : Subject; ap_NewEpoch : Z; Outbox : list OutboxItem }.

(** ** Records *)
Definition PasswordHash := option string.

Definition NewPasswordHash (phc : string) : PasswordHash :=
  if bool_decide (phc = "") then None else Some phc.

Definition PHC_of (h : PasswordHash) : string := default "" h.

Definition PasswordHash_IsZero (h : PasswordHash) : bool :=
  match h with None => true | Some s => bool_decide (s = "") end.

Record User_ := mkUser {
  u_Subject : Subject;
  Email : Identifier;
  EmailVerifiedAt : time;
  Phone : Identifier;
  PhoneVerifiedAt : time;
  RecoveryEmail : Identifier;
  RecoveryEmailVerifiedAt : time;
  DisabledAt : time;
  DeletedAt : time;
  u_MustChange : bool;
  SecurityEpoch : Z;
  u_CreatedAt : time }.

Record PasswordCredential := mkPasswordCredential {
  pc_Subject : Subject;
  pc_PHC : PasswordHash;
  ChangedAt : time;
  FailedAttempts : Z;
  LockedUntil : time }.

Record LockoutPolicy := mkLockoutPolicy { Threshold : Z; Window : duration }.

Record Lockout := mkLockout { l_FailedAttempts : Z; l_LockedUntil : time; JustLocked : bool }.

Record FederatedIdentity := mkFederatedIdentity {
  Provider : string;
  ProviderSubject : string;
  Authority : string;
  ProviderEmail : Identifier;
  ProviderEmailVerified : bool }.

#[export] Instance FederatedIdentity_eq_dec : EqDecision FederatedIdentity.
Proof. solve_decision. Defined.

Definition zero_FederatedIdentity : FederatedIdentity :=
  mkFederatedIdentity "" "" "" zero_Identifier false.

Record FederatedKey := mkFederatedKey {
  fk_Tenant : TenantID; fk_Provider : string; fk_ProviderSubject : string }.

Record FederatedLink := mkFederatedLink {
  lk_Subject : Subject; lk_Identity : FederatedIdentity; LinkedAt : time }.

(** ** Mutations

    [Foreign] stands for a nil mutation or a value of another package. *)
Inductive Mutation :=
  | SetPassword (s : Subject) (phc : PasswordHash) (reason : Z) (keep : uuid)
  | MarkEmailVerified (s : Subject) (phc : PasswordHash)
  | ChangeEmail (s : Subject) (email : Identifier)
  | SetPhone (s : Subject) (phone : Identifier)
  | SetRecoveryEmail (s : Subject) (email : Identifier)
  | SetDisabledState (s : Subject) (disable : bool)
  | SetMustChange (s : Subject) (must : bool)
  | Tombstone (s : Subject)
  | BumpEpoch (s : Subject) (keep : uuid) (change : Z)
  | CreateVerified (t : TenantID) (email : Identifier) (phc : PasswordHash) (must : bool)
      (federated : FederatedIdentity)
  | LinkFederated (s : Subject) (identity : FederatedIdentity) (keep : uuid)
  | UnlinkFederated (s : Subject) (provider providerSubject : string) (keep : uuid)
  | Foreign.

Definition MaxPHCLen : Z := 1024.

Definition MaxProviderLen : Z := 255.

Definition len (s : string) : Z := Z.of_nat (String.length s).

Definition errNoSubject : error := New "subject is required".

Definition declared (m : Mutation) : bool := match m with Foreign => false | _ => true end.

Definition checkFederatedKey (provider subject : string) : option error :=
  if bool_decide (provider = "") || (MaxProviderLen <? len provider)
  then Some (New "provider is required and bounded")
  else if bool_decide (subject = "") || (MaxProviderLen <? len subject)
  then Some (New "provider subject is required and bounded")
  else None.

Definition checkFederated (f : FederatedIdentity) : option error :=
  match checkFederatedKey (Provider f) (ProviderSubject f) with
  | Some err => Some err
  | None =>
      if bool_decide (Authority f = "") || (MaxProviderLen <? len (Authority f))
      then Some (New "authority is required and bounded")
      else if negb (Identifier_IsZero (ProviderEmail f))
              && negb (kind (ProviderEmail f) =? IdentifierEmail)
      then Some (New "provider email must be an email identifier")
      else if ProviderEmailVerified f && Identifier_IsZero (ProviderEmail f)
      then Some (New "a verified provider email needs an email")
      else None
  end.

(** The [validate] and [effects] methods of each mutation. *)
Record Effects := mkEffects { BumpsEpoch : bool; Event : Z }.

Definition SetPassword_validate (s : Subject) (phc : PasswordHash) (reason : Z) (keep : uuid) : option error :=
  if Subject_IsZero s then Some errNoSubject
  else if PasswordHash_IsZero phc || (MaxPHCLen <? len (PHC_of phc))
  then Some (New "password hash is required and bounded")
  else if negb (RotationReason_Valid reason) then Some (New "invalid rotation reason")
  else if negb (keep =? uuid_Nil) && negb (reason =? RotationPasswordChanged)
  then Some (New "only a password change keeps a session")
  else None.

Definition SetPassword_effects : Effects := mkEffects true EventCredentialRotated.

Definition MarkEmailVerified_validate (s : Subject) (phc : PasswordHash) : option error :=
  if Subject_IsZero s then Some errNoSubject
  else if MaxPHCLen <? len (PHC_of phc) then Some (New "password hash is too long")
  else None.

Definition MarkEmailVerified_effects : Effects := mkEffects true EventIdentifierChanged.

Definition ChangeEmail_validate (s : Subject) (email : Identifier) : option error :=
  if Subject_IsZero s then Some errNoSubject
  else if negb (kind email =? IdentifierEmail) then Some (New "email identifier is required")
  else None.

Definition ChangeEmail_effects : Effects := mkEffects true EventIdentifierChanged.

Definition SetPhone_validate (s : Subject) (phone : Identifier) : option error :=
  if Subject_IsZero s then Some errNoSubject
  else if negb (Identifier_IsZero phone) && negb (kind phone =? IdentifierPhone)
  then Some (New "phone identifier expected")
  else None.

Definition SetPhone_effects : Effects := mkEffects true EventIdentifierChanged.

Definition SetRecoveryEmail_validate (s : Subject) (email : Identifier) : option error :=
  if Subject_IsZero s then Some errNoSubject
  else if negb (Identifier_IsZero email) && negb (kind email =? IdentifierRecoveryEmail)
  then Some (New "recovery email identifier expected")
  else None.

Definition SetRecoveryEmail_effects : Effects := mkEffects true EventIdentifierChanged.

Definition SetDisabledState_validate (s : Subject) : option error :=
  if Subject_IsZero s then Some errNoSubject else None.

Definition SetDisabledState_effects (disable : bool) : Effects :=
  if disable then mkEffects true EventDisable else mkEffects false EventEnable.

Definition SetMustChange_validate (s : Subject) : option error :=
  if Subject_IsZero s then Some errNoSubject else None.

Definition SetMustChange_effects : Effects := mkEffects false 0.

Definition Tombstone_validate (s : Subject) : option error :=
  if Subject_IsZero s then Some errNoSubject else None.

Definition Tombstone_effects : Effects := mkEffects true EventDelete.

Definition BumpEpoch_validate (s : Subject) (change : Z) : option error :=
  if Subject_IsZero s then Some errNoSubject
  else if negb (FactorChange_Valid change) then Some (New "invalid factor change")
  else if (change =? FactorFederatedLinked) || (change =? FactorFederatedUnlinked)
  then Some (New "federated changes use LinkFederated or UnlinkFederated")
  else None.

Definition BumpEpoch_effects : Effects := mkEffects true EventFactorsChanged.

Definition CreateVerified_validate (email : Identifier) (phc : PasswordHash) (must : bool)
    (federated : FederatedIdentity) : option error :=
  if negb (kind email =? IdentifierEmail) then Some (New "email identifier is required")
  else if MaxPHCLen <? len (PHC_of phc) then Some (New "password hash is too long")
  else if must && PasswordHash_IsZero phc then Some (New "must change requires a password")
  else if negb (bool_decide (federated = zero_FederatedIdentity)) then checkFederated federated
  else None.

Definition CreateVerified_effects : Effects := mkEffects false 0.

Definition LinkFederated_validate (s : Subject) (f : FederatedIdentity) : option error :=
  if Subject_IsZero s then Some errNoSubject else checkFederated f.

Definition LinkFederated_effects : Effects := mkEffects true EventFactorsChanged.

Definition UnlinkFederated_validate (s : Subject) (provider subject : string) : option error :=
  if Subject_IsZero s then Some errNoSubject else checkFederatedKey provider subject.

Definition UnlinkFederated_effects : Effects := mkEffects true EventFactorsChanged.

(** [m.validate()] *)
Definition validate (m : Mutation) : option error :=
  match m with
  | SetPassword s phc reason keep => SetPassword_validate s phc reason keep
  | MarkEmailVerified s phc => MarkEmailVerified_validate s phc
  | ChangeEmail s email => ChangeEmail_validate s email
  | SetPhone s phone => SetPhone_validate s phone
  | SetRecoveryEmail s email => SetRecoveryEmail_validate s email
  | SetDisabledState s _ => SetDisabledState_validate s
  | SetMustChange s _ => SetMustChange_validate s
  | Tombstone s => Tombstone_validate s
  | BumpEpoch s _ change => BumpEpoch_validate s change
  | CreateVerified _ email phc must federated => CreateVerified_validate email phc must federated
  | LinkFederated s f _ => LinkFederated_validate s f
  | UnlinkFederated s provider subject _ => UnlinkFederated_validate s provider subject
  | Foreign => None
  end.

Definition Validate (m : Mutation) : option error :=
  if negb (declared m)
  then Some (Join ErrInvalidMutation (New "not a mutation of this package"))
  else match validate m with
       | Some err => Some (Join ErrInvalidMutation err)
       | None => None
       end.

(** [m.effects()] *)
Definition effects (m : Mutation) : Effects :=
  match m with
  | SetPassword _ _ _ _ => SetPassword_effects
  | MarkEmailVerified _ _ => MarkEmailVerified_effects
  | ChangeEmail _ _ => ChangeEmail_effects
  | SetPhone _ _ => SetPhone_effects
  | SetRecoveryEmail _ _ => SetRecoveryEmail_effects
  | SetDisabledState _ disable => SetDisabledState_effects disable
  | SetMustChange _ _ => SetMustChange_effects
  | Tombstone _ => Tombstone_effects
  | BumpEpoch _ _ _ => BumpEpoch_effects
  | CreateVerified _ _ _ _ _ => CreateVerified_effects
  | LinkFederated _ _ _ => LinkFederated_effects
  | UnlinkFederated _ _ _ _ => UnlinkFederated_effects
  | Foreign => mkEffects false 0
  end.

Definition EffectsOf (m : Mutation) : Effects :=
  if negb (declared m) then mkEffects false 0 else effects m.

(** The row before its component is set, with the fields the mutation gives it. *)
Definition outbox_template (m : Mutation) (s : Subject) (old : Identifier) (component : Z) : OutboxItem :=
  let ev := Event (EffectsOf m) in
  let item keep rotation change ident old :=
    mkOutboxItem 0 component ev s keep rotation change ident old 0 time_zero time_zero in
  match m with
  | SetPassword _ _ reason keep => item keep reason 0 0 zero_Identifier
  | BumpEpoch _ keep change => item keep 0 change 0 zero_Identifier
  | LinkFederated _ _ keep => item keep 0 FactorFederatedLinked 0 zero_Identifier
  | UnlinkFederated _ _ _ keep => item keep 0 FactorFederatedUnlinked 0 zero_Identifier
  | ChangeEmail _ _ => item uuid_Nil 0 0 IdentifierEmail old
  | SetPhone _ _ => item uuid_Nil 0 0 IdentifierPhone old
  | SetRecoveryEmail _ _ => item uuid_Nil 0 0 IdentifierRecoveryEmail old
  | MarkEmailVerified _ _ => item uuid_Nil 0 0 IdentifierEmail zero_Identifier
  | _ => item uuid_Nil 0 0 0 zero_Identifier
  end.

Definition OutboxFor (m : Mutation) (s : Subject) (old : Identifier) : list OutboxItem :=
  if Event (EffectsOf m) =? 0 then [] else map (outbox_template m s old) Components.

(** ** Identifiers of earlier releases *)
Definition IdentifiersUnchecked : Z := 0.

Definition IdentifiersCanonical : Z := 1.

Definition IdentifiersHeld : Z := 2.

Record V016Identifiers := mkV016Identifiers {
  v_Subject : Subject;
  v_Email : string;
  v_Phone : string;
  v_RecoveryEmail : string;
  Tombstoned : bool;
  v_State : Z }.

Record IdentifierUpgrade := mkIdentifierUpgrade {
  up_Old : V016Identifiers;
  up_Email : option Identifier;
  up_Phone : option Identifier;
  up_RecoveryEmail : option Identifier;
  up_State : Z }.

Definition bad_kind (id : option Identifier) (k : Z) : bool :=
  match id with Some id => negb (kind id =? k) | None => false end.

Definition ValidateUpgrade (u : IdentifierUpgrade) : option error :=
  if Subject_IsZero (v_Subject (up_Old u)) then Some (Join ErrInvalidMutation errNoSubject)
  else if negb (up_State u =? IdentifiersCanonical) && negb (up_State u =? IdentifiersHeld)
  then Some (Join ErrInvalidMutation (New "the upgraded state must be canonical or held"))
  else if bad_kind (up_Email u) IdentifierEmail || bad_kind (up_Phone u) IdentifierPhone
          || bad_kind (up_RecoveryEmail u) IdentifierRecoveryEmail
  then Some (Join ErrInvalidMutation (New "an upgraded identifier has the wrong kind"))
  else None.

End Identity.
