(* ===== verification/IdentityStore.v ===== *)
(** The in-memory account store: store/identity/memory/store.go, apply.go and legacy.go.

    [Apply] reads its context before each write of its transaction, so the context is a sequence of
    readings, [ctx n] being the [n]-th; the other methods read it once.  [range] arguments are the
    orders in which Go visits the accounts, [newID] is what [uuid.NewV7] answers. *)
From S2P Require Import Prelude Errors Tenant StoreBase IdentityRecord.

Module IdentityMemory.
Import Identity.

Definition passwordProvider : string := "password".

Definition feedPage : Z := 1000.

Definition Retention : duration := 7 * 24 * 60 * Minute.

(** int and int64 *)
Definition int64 (z : Z) : Z := i64_of_u64 (u64 z).

Record password := mkPassword {
  phc : PasswordHash;
  changedAt : time;
  failed : Z;
  lockedUntil : time;
  lastFailure : time;
  mustChange : bool }.

Record account := mkAccount { user : User_; passwd : option password; links : list FederatedLink }.

Definition view (a : account) : User_ :=
  let u := user a in
  mkUser (u_Subject u) (Email u) (EmailVerifiedAt u) (Phone u) (PhoneVerifiedAt u) (RecoveryEmail u)
    (RecoveryEmailVerifiedAt u) (DisabledAt u) (DeletedAt u)
    (match passwd a with Some p => mustChange p | None => false end) (SecurityEpoch u) (u_CreatedAt u).

Record epochRow := mkEpochRow { e_seq : Z; change : EpochChange; e_at : time }.

Record outboxRow := mkOutboxRow { item : OutboxItem; done_at : time }.

Record Store := mkStore {
  accounts : gmap Subject account;
  epochSeq : Z;
  epochs : list epochRow;
  outboxSeq : Z;
  outbox : list outboxRow }.

Definition NewWithClock : Store := mkStore ∅ 0 [] 0 [].

Definition instant (t : time) : time := if time_IsZero t then time_zero else time_Truncate t Microsecond.

Definition now_of (clk : time) : time := instant clk.

Definition Ping (ctx : Ctx) : option error := ctx.

(** ** Maintenance *)
Definition EraseTenant (ctx : Ctx) (t : TenantID) (s : Store) : Store * option error :=
  match ctx with
  | Some err => (s, Some err)
  | None =>
      (mkStore (filter (fun ka => Tenant ka.1 <> t) (accounts s)) (epochSeq s)
         (filter (fun r => Tenant (ec_Subject (change r)) <> t) (epochs s)) (outboxSeq s)
         (filter (fun r => Tenant (o_Subject (item r)) <> t) (outbox s)), None)
  end.

Definition ReapExpired (ctx : Ctx) (clk : time) (s : Store) : Store * res Z :=
  match ctx with
  | Some err => (s, Err err)
  | None =>
      let cutoff := time_Add (now_of clk) (- Retention) in
      let before := Z.of_nat (length (epochs s)) + Z.of_nat (length (outbox s)) in
      let es := filter (fun r => time_Before (e_at r) cutoff = false) (epochs s) in
      let os := filter (fun r => negb (time_IsZero (done_at r)) && time_Before (done_at r) cutoff = false)
                  (outbox s) in
      (mkStore (accounts s) (epochSeq s) es (outboxSeq s) os,
       Ok (before - Z.of_nat (length es) - Z.of_nat (length os)))
  end.

(** ** Lookups *)
Definition existing (sub : Subject) (s : Store) : res account :=
  match accounts s !! sub with None => Err ErrNotFound | Some a => Ok a end.

Definition GetUser (ctx : Ctx) (sub : Subject) (s : Store) : res User_ :=
  match ctx with Some err => Err err | None => a ← existing sub s; Ok (view a) end.

(** The loops over the accounts return at the first one [f] accepts. *)
Fixpoint visit {A} (range : list Subject) (f : Subject -> account -> option A)
    (m : gmap Subject account) : option A :=
  match range with
  | [] => None
  | k :: range' =>
      match m !! k with
      | None => visit range' f m
      | Some a => match f k a with Some x => Some x | None => visit range' f m end
      end
  end.

Definition owns (id : Identifier) (a : account) : bool :=
  if kind id =? IdentifierEmail then bool_decide (Email (user a) = id)
  else if kind id =? IdentifierPhone then bool_decide (Phone (user a) = id)
  else false.

Definition owner (range : list Subject) (t : TenantID) (id : Identifier) (except : uuid) (s : Store)
  : option account :=
  visit range (fun k a =>
      if negb (bool_decide (Tenant k = t)) || (User k =? except)
         || negb (time_IsZero (DeletedAt (user a)))
      then None
      else if owns id a then Some a else None) (accounts s).

Definition FindUser (ctx : Ctx) (range : list Subject) (t : TenantID) (id : Identifier) (s : Store)
  : res User_ :=
  match ctx with
  | Some err => Err err
  | None =>
      if negb (kind id =? IdentifierEmail) && negb (kind id =? IdentifierPhone)
      then Err (Join ErrInvalidIdentifier (New "only an email or a phone finds an account"))
      else match owner range t id uuid_Nil s with
           | Some a => Ok (view a)
           | None => Err ErrNotFound
           end
  end.

(** The provider account a link names. *)
Definition is_link (provider subject : string) (l : FederatedLink) : bool :=
  bool_decide (Provider (lk_Identity l) = provider)
  && bool_decide (ProviderSubject (lk_Identity l) = subject).

Definition linkOwner (range : list Subject) (t : TenantID) (provider subject : string) (s : Store)
  : option account :=
  visit range (fun k a =>
      if negb (bool_decide (Tenant k = t)) then None
      else if existsb (is_link provider subject) (links a) then Some a else None) (accounts s).

Definition GetPassword (ctx : Ctx) (sub : Subject) (s : Store) : res PasswordCredential :=
  match ctx with
  | Some err => Err err
  | None =>
      a ← existing sub s;
      match passwd a with
      | None => Err ErrNotFound
      | Some p => Ok (mkPasswordCredential sub (phc p) (changedAt p) (failed p) (lockedUntil p))
      end
  end.

(** ** Password lockout *)
Definition checkPolicy (p : LockoutPolicy) : option error :=
  if (Threshold p <=? 0) || (Window p <=? 0)
  then Some (Join ErrInvalidMutation (New "lockout threshold and window must be positive"))
  else None.

Definition set_account (sub : Subject) (a : account) (s : Store) : Store :=
  mkStore (<[sub := a]> (accounts s)) (epochSeq s) (epochs s) (outboxSeq s) (outbox s).

(** The switch before a failure is charged: an ended lock or an old failure starts afresh. *)
Definition decay (p : LockoutPolicy) (now : time) (pw : password) : password :=
  if negb (time_IsZero (lockedUntil pw)) && negb (time_After (lockedUntil pw) now)
  then mkPassword (phc pw) (changedAt pw) 0 time_zero (lastFailure pw) (mustChange pw)
  else if time_IsZero (lockedUntil pw) && negb (time_IsZero (lastFailure pw))
          && negb (time_After (time_Add (lastFailure pw) (Window p)) now)
  then mkPassword (phc pw) (changedAt pw) 0 (lockedUntil pw) (lastFailure pw) (mustChange pw)
  else pw.

Definition charge (p : LockoutPolicy) (now : time) (pw : password) : password * Lockout :=
  let pw := decay p now pw in
  let pw := mkPassword (phc pw) (changedAt pw) (int64 (failed pw + 1)) (lockedUntil pw) now (mustChange pw) in
  if time_IsZero (lockedUntil pw) && (Threshold p <=? failed pw)
  then let pw := mkPassword (phc pw) (changedAt pw) (failed pw) (instant (time_Add now (Window p)))
                   (lastFailure pw) (mustChange pw) in
       (pw, mkLockout (failed pw) (lockedUntil pw) true)
  else (pw, mkLockout (failed pw) (lockedUntil pw) false).

Definition RecordPasswordFailure (ctx : Ctx) (clk : time) (sub : Subject) (p : LockoutPolicy) (s : Store)
  : Store * res Lockout :=
  match ctx with
  | Some err => (s, Err err)
  | None =>
      match checkPolicy p with
      | Some err => (s, Err err)
      | None =>
          match existing sub s with
          | Err err => (s, Err err)
          | Ok a =>
              match passwd a with
              | None => (s, Err ErrNotFound)
              | Some pw =>
                  let '(pw, l) := charge p (now_of clk) pw in
                  (set_account sub (mkAccount (user a) (Some pw) (links a)) s, Ok l)
              end
          end
      end
  end.

Definition ResetPasswordFailures (ctx : Ctx) (sub : Subject) (s : Store) : Store * option error :=
  match ctx with
  | Some err => (s, Some err)
  | None =>
      match existing sub s with
      | Err err => (s, Some err)
      | Ok a =>
          match passwd a with
          | None => (s, Some (ErrNotFound : error))
          | Some pw =>
              (set_account sub (mkAccount (user a)
                 (Some (mkPassword (phc pw) (changedAt pw) 0 time_zero time_zero (mustChange pw)))
                 (links a)) s, None)
          end
      end
  end.

(** ** Federated links *)
Definition FindFederated (ctx : Ctx) (range : list Subject) (k : FederatedKey) (s : Store)
  : res FederatedLink :=
  match ctx with
  | Some err => Err err
  | None =>
      match linkOwner range (fk_Tenant k) (fk_Provider k) (fk_ProviderSubject k) s with
      | None => Err ErrNotFound
      | Some a =>
          if negb (time_IsZero (DeletedAt (user a))) then Err ErrNotFound
          else match List.find (is_link (fk_Provider k) (fk_ProviderSubject k)) (links a) with
               | Some l => Ok l
               | None => Err ErrNotFound
               end
      end
  end.

Definition ListFederated (ctx : Ctx) (sub : Subject) (s : Store) : res (list FederatedLink) :=
  match ctx with Some err => Err err | None => a ← existing sub s; Ok (links a) end.

Definition ListFederatedTo (ctx : Ctx) (range : list Subject) (t : TenantID) (provider : string) (s : Store)
  : res (list FederatedLink) :=
  match ctx with
  | Some err => Err err
  | None =>
      Ok (concat (map (fun k =>
            match accounts s !! k with
            | None => []
            | Some a =>
                if negb (bool_decide (Tenant k = t)) || negb (time_IsZero (DeletedAt (user a))) then []
                else filter (fun l => Provider (lk_Identity l) = provider) (links a)
            end) range))
  end.

(** ** Epochs *)
Definition CurrentEpoch (ctx : Ctx) (sub : Subject) (s : Store) : res Z :=
  match ctx with Some err => Err err | None => a ← existing sub s; Ok (SecurityEpoch (user a)) end.

(** The loop of EpochsChangedSince: it stops once a page is full. *)
Fixpoint epoch_page (rows : list epochRow) (c : Cursor) (out : list EpochChange) (last : Z)
  : list EpochChange * Z :=
  match rows with
  | [] => (out, last)
  | r :: rows' =>
      if e_seq r <=? Position c then epoch_page rows' c out last
      else if Z.of_nat (length out) =? feedPage then (out, last)
      else epoch_page rows' c (out ++ [change r]) (e_seq r)
  end.

Definition EpochsChangedSince (ctx : Ctx) (c : Cursor) (s : Store)
  : list EpochChange * Cursor * option error :=
  match ctx with
  | Some err => ([], c, Some err)
  | None => let '(out, last) := epoch_page (epochs s) c [] (Position c) in (out, RestoreCursor last, None)
  end.

(** ** The outbox *)
Fixpoint pending_loop (now : time) (limit : Z) (rows : list outboxRow) (out : list OutboxItem)
  : list OutboxItem :=
  match rows with
  | [] => out
  | r :: rows' =>
      if limit <=? Z.of_nat (length out) then out
      else pending_loop now limit rows'
             (if time_IsZero (done_at r) && negb (time_After (NextAttemptAt (item r)) now)
              then out ++ [item r] else out)
  end.

Definition PendingOutbox (ctx : Ctx) (clk : time) (limit : Z) (s : Store) : res (list OutboxItem) :=
  match ctx with
  | Some err => Err err
  | None => Ok (pending_loop (now_of clk) limit (outbox s) [])
  end.

(** The binary search of [row]: the index of the row, when there is one. *)
Definition row_index (id : Z) (s : Store) : option nat :=
  let x := outbox s in
  let less h := match x !! h with Some r => o_ID (item r) <? id | None => false end in
  let i := bsearch_loop (length x) less 0 (length x) in
  match x !! i with
  | Some r => if o_ID (item r) =? id then Some i else None
  | None => None
  end.

Definition set_row (i : nat) (r : outboxRow) (s : Store) : Store :=
  mkStore (accounts s) (epochSeq s) (epochs s) (outboxSeq s) (<[i := r]> (outbox s)).

Definition row (id : Z) (s : Store) : option (nat * outboxRow) :=
  i ← row_index id s; r ← outbox s !! i; Some (i, r).

Definition AckOutbox (ctx : Ctx) (clk : time) (id : Z) (s : Store) : Store * option error :=
  match ctx with
  | Some err => (s, Some err)
  | None =>
      match row id s with
      | None => (s, Some (ErrNotFound : error))
      | Some (i, r) =>
          if time_IsZero (done_at r) then (set_row i (mkOutboxRow (item r) (now_of clk)) s, None)
          else (s, None)
      end
  end.

Definition retry (next : time) (o : OutboxItem) : OutboxItem :=
  mkOutboxItem (o_ID o) (Component o) (o_Event o) (o_Subject o) (o_Keep o) (Rotation o) (o_Change o)
    (o_Identifier o) (Old o) (int64 (Attempts o + 1)) (instant next) (o_CreatedAt o).

Definition FailOutbox (ctx : Ctx) (id : Z) (next : time) (s : Store) : Store * option error :=
  match ctx with
  | Some err => (s, Some err)
  | None =>
      match row id s with
      | None => (s, Some (ErrNotFound : error))
      | Some (i, r) =>
          if negb (time_IsZero (done_at r)) then (s, None)
          else (set_row i (mkOutboxRow (retry next (item r)) (done_at r)) s, None)
      end
  end.

Definition EraseUser (ctx : Ctx) (sub : Subject) (s : Store) : Store * option error :=
  match ctx with
  | Some err => (s, Some err)
  | None =>
      match existing sub s with
      | Err err => (s, Some err)
      | Ok a =>
          if time_IsZero (DeletedAt (user a)) then (s, Some (ErrNotTombstoned : error))
          else if existsb (fun r => bool_decide (o_Subject (item r) = sub) && time_IsZero (done_at r)
                                    && negb (Component (item r) =? ComponentIdentity)) (outbox s)
          then (s, Some (Join ErrConflict (New "identity: an outbox row of the subject is not done")))
          else (mkStore (delete sub (accounts s)) (epochSeq s) (epochs s) (outboxSeq s) (outbox s), None)
      end
  end.

(** ** Apply

    A transaction works on a copy of the account it loads and is written back as a whole. *)
Record txn := mkTxn {
  reads : nat;
  now : time;
  acc : option account;
  evicted : option account;
  subject : Subject;
  tx_epochs : list epochRow;
  tx_outbox : list outboxRow;
  tx_epochSeq : Z;
  tx_outboxSeq : Z }.

Definition set_acc (a : account) (tx : txn) : txn :=
  mkTxn (reads tx) (now tx) (Some a) (evicted tx) (subject tx) (tx_epochs tx) (tx_outbox tx)
    (tx_epochSeq tx) (tx_outboxSeq tx).

Definition set_subject (sub : Subject) (tx : txn) : txn :=
  mkTxn (reads tx) (now tx) (acc tx) (evicted tx) sub (tx_epochs tx) (tx_outbox tx)
    (tx_epochSeq tx) (tx_outboxSeq tx).

Definition set_evicted (a : account) (tx : txn) : txn :=
  mkTxn (reads tx) (now tx) (acc tx) (Some a) (subject tx) (tx_epochs tx) (tx_outbox tx)
    (tx_epochSeq tx) (tx_outboxSeq tx).

Definition step (ctx : nat -> Ctx) (tx : txn) : res txn :=
  match ctx (reads tx) with
  | Some err => Err err
  | None => Ok (mkTxn (S (reads tx)) (now tx) (acc tx) (evicted tx) (subject tx) (tx_epochs tx)
                  (tx_outbox tx) (tx_epochSeq tx) (tx_outboxSeq tx))
  end.

(** [tx.acc], dereferenced. *)
Definition the_acc (tx : txn) : res account :=
  match acc tx with Some a => Ok a | None => Err NilPanic end.

(** The error's text quotes the provider's name; the quotes are left out. *)
Definition reserved (m : Mutation) : option error :=
  let refuse provider :=
    if bool_decide (provider = passwordProvider)
    then Some (Join ErrInvalidMutation
           (New "federated provider password is reserved for the password credential"))
    else None in
  match m with
  | LinkFederated _ f _ => refuse (Provider f)
  | CreateVerified _ _ _ _ f => refuse (Provider f)
  | UnlinkFederated _ provider _ _ => refuse provider
  | _ => None
  end.

Definition subjectOf (m : Mutation) : Subject :=
  match m with
  | SetPassword s _ _ _ | MarkEmailVerified s _ | ChangeEmail s _ | SetPhone s _ | SetRecoveryEmail s _
  | SetDisabledState s _ | SetMustChange s _ | Tombstone s | BumpEpoch s _ _ | LinkFederated s _ _
  | UnlinkFederated s _ _ _ => s
  | CreateVerified _ _ _ _ _ | Foreign => zero_Subject
  end.

Definition load (ctx : nat -> Ctx) (sub : Subject) (s : Store) (tx : txn) : res txn :=
  tx ← step ctx tx;
  match accounts s !! sub with
  | None => Err ErrNotFound
  | Some a =>
      if negb (time_IsZero (DeletedAt (user a))) then Err ErrTombstoned
      else Ok (set_acc a (set_subject sub tx))
  end.

Definition verifiedAt (id : Identifier) (now : time) : time :=
  if Identifier_IsZero id then time_zero else now.

Definition set_links (ls : list FederatedLink) (a : account) : account :=
  mkAccount (user a) (passwd a) ls.

Definition set_user (u : User_) (a : account) : account := mkAccount u (passwd a) (links a).

Definition set_passwd (p : option password) (a : account) : account := mkAccount (user a) p (links a).

(** [slices.IndexFunc] of the link to a provider account. *)
Definition link_index (provider subject : string) (ls : list FederatedLink) : option nat :=
  fst <$> list_find (fun l => is_link provider subject l = true) ls.

Definition rebind (f : FederatedIdentity) (tx : txn) : res txn :=
  a ← the_acc tx;
  let conflict := Err (Join ErrConflict
                         (New "identity: provider account already linked to this subject")) in
  match link_index (Provider f) (ProviderSubject f) (links a) with
  | None => conflict
  | Some i =>
      match links a !! i with
      | None => Err NilPanic
      | Some l =>
          if bool_decide (Authority (lk_Identity l) = Authority f) then conflict
          else Ok (set_acc (set_links (<[i := mkFederatedLink (subject tx) f (now tx)]> (links a)) a) tx)
      end
  end.

Definition link (range : list Subject) (f : FederatedIdentity) (s : Store) (tx : txn) : res txn :=
  let append tx :=
    a ← the_acc tx;
    Ok (set_acc (set_links (links a ++ [mkFederatedLink (subject tx) f (now tx)]) a) tx) in
  match linkOwner range (Tenant (subject tx)) (Provider f) (ProviderSubject f) s with
  | None => append tx
  | Some o =>
      if bool_decide (u_Subject (user o) = subject tx) then rebind f tx
      else if time_IsZero (DeletedAt (user o)) then Err ErrIdentifierTaken
      else append (set_evicted
             (set_links (filter (fun l => is_link (Provider f) (ProviderSubject f) l = false) (links o)) o) tx)
  end.

(** The account row CreateVerified writes: a verified email, nothing else, epoch zero. *)
Definition new_user (sub : Subject) (email : Identifier) (now : time) : User_ :=
  mkUser sub email now zero_Identifier time_zero zero_Identifier time_zero time_zero time_zero false 0 now.

Definition create (ctx : nat -> Ctx) (range range' : list Subject) (newID : res uuid) (t : TenantID)
    (email : Identifier) (h : PasswordHash) (must : bool) (federated : FederatedIdentity) (s : Store)
    (tx : txn) : res txn :=
  tx ← step ctx tx;
  match owner range t email uuid_Nil s with
  | Some _ => Err ErrIdentifierTaken
  | None =>
      id ← map_err (Join (New "identity: user id")) newID;
      let tx := set_subject (mkSubject t id) tx in
      let pw := if negb (PasswordHash_IsZero h)
                then Some (mkPassword h (now tx) 0 time_zero time_zero must) else None in
      let tx := set_acc (mkAccount (new_user (subject tx) email (now tx)) pw []) tx in
      tx ← step ctx tx;
      if negb (bool_decide (federated = zero_FederatedIdentity)) then link range' federated s tx
      else Ok tx
  end.

(** Each user field written by a mutation. *)
Definition with_email (e : Identifier) (at_ : time) (u : User_) : User_ :=
  mkUser (u_Subject u) e at_ (Phone u) (PhoneVerifiedAt u) (RecoveryEmail u) (RecoveryEmailVerifiedAt u)
    (DisabledAt u) (DeletedAt u) (u_MustChange u) (SecurityEpoch u) (u_CreatedAt u).

Definition with_phone (p : Identifier) (at_ : time) (u : User_) : User_ :=
  mkUser (u_Subject u) (Email u) (EmailVerifiedAt u) p at_ (RecoveryEmail u) (RecoveryEmailVerifiedAt u)
    (DisabledAt u) (DeletedAt u) (u_MustChange u) (SecurityEpoch u) (u_CreatedAt u).

Definition with_recovery (e : Identifier) (at_ : time) (u : User_) : User_ :=
  mkUser (u_Subject u) (Email u) (EmailVerifiedAt u) (Phone u) (PhoneVerifiedAt u) e at_
    (DisabledAt u) (DeletedAt u) (u_MustChange u) (SecurityEpoch u) (u_CreatedAt u).

Definition with_disabled (at_ : time) (u : User_) : User_ :=
  mkUser (u_Subject u) (Email u) (EmailVerifiedAt u) (Phone u) (PhoneVerifiedAt u) (RecoveryEmail u)
    (RecoveryEmailVerifiedAt u) at_ (DeletedAt u) (u_MustChange u) (SecurityEpoch u) (u_CreatedAt u).

Definition with_deleted (at_ : time) (u : User_) : User_ :=
  mkUser (u_Subject u) (Email u) (EmailVerifiedAt u) (Phone u) (PhoneVerifiedAt u) (RecoveryEmail u)
    (RecoveryEmailVerifiedAt u) (DisabledAt u) at_ (u_MustChange u) (SecurityEpoch u) (u_CreatedAt u).

Definition with_epoch (e : Z) (u : User_) : User_ :=
  mkUser (u_Subject u) (Email u) (EmailVerifiedAt u) (Phone u) (PhoneVerifiedAt u) (RecoveryEmail u)
    (RecoveryEmailVerifiedAt u) (DisabledAt u) (DeletedAt u) (u_MustChange u) e (u_CreatedAt u).

(** The switch of mutate, on the loaded account [a]: the transaction and the replaced identifier. *)
Definition mutate_loaded (range : list Subject) (m : Mutation) (a : account) (s : Store) (tx : txn)
  : res (txn * Identifier) :=
  let u := user a in
  let keep a := Ok (set_acc a tx, zero_Identifier) in
  match m with
  | SetPassword _ h reason _ =>
      keep (set_passwd (Some (mkPassword h (now tx) 0 time_zero time_zero (ForcesChange reason))) a)
  | MarkEmailVerified _ h =>
      if negb (time_IsZero (EmailVerifiedAt u))
      then Err (Join ErrConflict (New "identity: email is already verified"))
      else
        let pw := if negb (PasswordHash_IsZero h)
                  then Some (mkPassword h (now tx) 0 time_zero time_zero false) else None in
        keep (mkAccount (with_email (Email u) (now tx) u) pw [])
  | ChangeEmail _ email =>
      match owner range (Tenant (subject tx)) email (User (subject tx)) s with
      | Some _ => Err ErrIdentifierTaken
      | None => Ok (set_acc (set_user (with_email email (now tx) u) a) tx, Email u)
      end
  | SetPhone _ phone =>
      if negb (Identifier_IsZero phone)
         && (match owner range (Tenant (subject tx)) phone (User (subject tx)) s with
             | Some _ => true | None => false end)
      then Err ErrIdentifierTaken
      else Ok (set_acc (set_user (with_phone phone (verifiedAt phone (now tx)) u) a) tx, Phone u)
  | SetRecoveryEmail _ email =>
      Ok (set_acc (set_user (with_recovery email (verifiedAt email (now tx)) u) a) tx, RecoveryEmail u)
  | SetDisabledState _ disable =>
      keep (if negb disable then set_user (with_disabled time_zero u) a
            else if time_IsZero (DisabledAt u) then set_user (with_disabled (now tx) u) a
            else a)
  | SetMustChange _ must =>
      match passwd a with
      | None =>
          if must then Err (Join ErrInvalidMutation (New "must change requires a password"))
          else keep a
      | Some p =>
          keep (set_passwd (Some (mkPassword (phc p) (changedAt p) (failed p) (lockedUntil p)
                                    (lastFailure p) must)) a)
      end
  | Tombstone _ => keep (set_user (with_deleted (now tx) u) a)
  | LinkFederated _ f _ => tx ← link range f s tx; Ok (tx, zero_Identifier)
  | UnlinkFederated _ provider subject _ =>
      match link_index provider subject (links a) with
      | None => Err ErrNotFound
      | Some i => keep (set_links (delete i (links a)) a)
      end
  | BumpEpoch _ _ _ | CreateVerified _ _ _ _ _ | Foreign => keep a
  end.

Definition mutate (ctx : nat -> Ctx) (range range' : list Subject) (newID : res uuid) (m : Mutation)
    (s : Store) (tx : txn) : res (txn * Identifier) :=
  match m with
  | CreateVerified t email h must federated =>
      tx ← create ctx range range' newID t email h must federated s tx; Ok (tx, zero_Identifier)
  | _ =>
      tx ← load ctx (subjectOf m) s tx;
      tx ← step ctx tx;
      a ← the_acc tx;
      mutate_loaded range m a s tx
  end.

(** The loop that numbers and queues the outbox rows. *)
Fixpoint queue (ctx : nat -> Ctx) (items : list OutboxItem) (tx : txn) : res (txn * list OutboxItem) :=
  match items with
  | [] => Ok (tx, [])
  | o :: items' =>
      tx ← step ctx tx;
      let id := int64 (tx_outboxSeq tx + 1) in
      let o := mkOutboxItem id (Component o) (o_Event o) (o_Subject o) (o_Keep o) (Rotation o)
                 (o_Change o) (o_Identifier o) (Old o) (Attempts o) (now tx) (now tx) in
      let tx := mkTxn (reads tx) (now tx) (acc tx) (evicted tx) (subject tx) (tx_epochs tx)
                  (tx_outbox tx ++ [mkOutboxRow o time_zero]) (tx_epochSeq tx) id in
      '(tx, os) ← queue ctx items' tx;
      Ok (tx, o :: os)
  end.

Definition bump_epoch (ctx : nat -> Ctx) (event : Z) (tx : txn) : res txn :=
  tx ← step ctx tx;
  a ← the_acc tx;
  let e := u64 (SecurityEpoch (user a) + 1) in
  let seq := u64 (tx_epochSeq tx + 1) in
  Ok (mkTxn (reads tx) (now tx) (Some (set_user (with_epoch e (user a)) a)) (evicted tx) (subject tx)
        (tx_epochs tx ++ [mkEpochRow seq (mkEpochChange (subject tx) e event) (now tx)])
        (tx_outbox tx) seq (tx_outboxSeq tx)).

Definition tx_effects (ctx : nat -> Ctx) (m : Mutation) (old : Identifier) (tx : txn)
  : res (txn * Applied) :=
  let fx := EffectsOf m in
  tx ← (if BumpsEpoch fx then bump_epoch ctx (Event fx) tx else Ok tx);
  '(tx, items) ← queue ctx (OutboxFor m (subject tx) old) tx;
  a ← the_acc tx;
  Ok (tx, mkApplied (subject tx) (SecurityEpoch (user a)) items).

(** The writes of Apply, once nothing can fail. *)
Definition commit (a : account) (tx : txn) (s : Store) : Store :=
  let m := <[subject tx := a]> (accounts s) in
  let m := match evicted tx with Some o => <[u_Subject (user o) := o]> m | None => m end in
  mkStore m (tx_epochSeq tx) (epochs s ++ tx_epochs tx) (tx_outboxSeq tx) (outbox s ++ tx_outbox tx).

Definition Apply_tx (ctx : nat -> Ctx) (clk : time) (range range' : list Subject) (newID : res uuid)
    (m : Mutation) (s : Store) : res (Store * Applied) :=
  let tx := mkTxn 1 (now_of clk) None None zero_Subject [] [] (epochSeq s) (outboxSeq s) in
  '(tx, old) ← mutate ctx range range' newID m s tx;
  '(tx, applied) ← tx_effects ctx m old tx;
  tx ← step ctx tx;
  a ← the_acc tx;
  Ok (commit a tx s, applied).

Definition Apply (ctx : nat -> Ctx) (clk : time) (range range' : list Subject) (newID : res uuid)
    (m : Mutation) (s : Store) : Store * res Applied :=
  match ctx 0%nat with
  | Some err => (s, Err err)
  | None =>
      match Validate m with
      | Some err => (s, Err err)
      | None =>
          match reserved m with
          | Some err => (s, Err err)
          | None =>
              match Apply_tx ctx clk range range' newID m s with
              | Err err => (s, Err err)
              | Ok (s', applied) => (s', Ok applied)
              end
          end
      end
  end.

(** ** Identifiers of earlier releases: this store never holds one. *)
Definition V016Identifiers_ (ctx : Ctx) (after : Subject) (limit : Z) (s : Store)
  : res (list V016Identifiers) :=
  match ctx with
  | Some err => Err err
  | None => if limit <? 1 then Err (Join ErrInvalidMutation (New "limit must be positive")) else Ok []
  end.

Definition CountLegacyIdentifiers (ctx : Ctx) : Z * option error := (0, ctx).

Definition UpgradeIdentifiers (ctx : Ctx) (u : IdentifierUpgrade) : res bool :=
  match ctx with
  | Some err => Err err
  | None => match ValidateUpgrade u with Some err => Err err | None => Ok false end
  end.

End IdentityMemory.
