(* ===== verification/IdentityFacts.v ===== *)
(** The account store's invariant, and what one applied mutation does. *)
From S2P Require Import Prelude Errors Tenant StoreBase IdentityRecord IdentityStore.
Import Identity IdentityMemory.

(** ** Visiting the accounts *)

Lemma visit_Some {A} range (f : Subject -> account -> option A) m x :
  visit range f m = Some x -> exists k a, m !! k = Some a /\ f k a = Some x.
Proof.
  induction range as [|k range IH]; simpl; [done|].
  destruct (m !! k) as [a|] eqn:E; [|done]. destruct (f k a) eqn:Ef; [|done]. intros [= ->]. eauto.
Qed.

Lemma visit_None {A} range (f : Subject -> account -> option A) m k a :
  visit range f m = None -> k ∈ range -> m !! k = Some a -> f k a = None.
Proof.
  induction range as [|k' range IH]; simpl; [by intros _ ?%not_elem_of_nil|].
  intros Hv [->|Hin]%elem_of_cons Ha.
  - rewrite Ha in Hv. by destruct (f k' a).
  - apply IH; [|done..]. destruct (m !! k'); [|done]. by destruct (f k' _).
Qed.

(** [range] visits every account once. *)
Definition covers (range : list Subject) (s : Store) : Prop := range ≡ₚ (map_to_list (accounts s)).*1.

Lemma covers_elem range s k a : covers range s -> accounts s !! k = Some a -> k ∈ range.
Proof.
  intros Hc Ha. unfold covers in Hc. rewrite Hc. apply list_elem_of_fmap. exists (k, a).
  split; [done|]. by apply elem_of_map_to_list.
Qed.

Definition live (a : account) : Prop := DeletedAt (user a) = 0.

Lemma owner_None range s t id except k a :
  covers range s -> owner range t id except s = None -> accounts s !! k = Some a ->
  Tenant k = t -> User k <> except -> live a -> owns id a = false.
Proof.
  intros Hc Ho Ha Ht Hu Hl. pose proof (visit_None _ _ _ k a Ho (covers_elem _ _ _ _ Hc Ha) Ha) as Hf.
  simpl in Hf. rewrite bool_decide_true in Hf by done. unfold live, time_IsZero in *. rewrite Hl in Hf.
  destruct (Z.eqb_spec (User k) except); [done|]. simpl in Hf. by destruct (owns id a).
Qed.

Lemma owner_Some range s t id except a :
  owner range t id except s = Some a ->
  exists k, accounts s !! k = Some a /\ Tenant k = t /\ User k <> except /\ live a /\ owns id a = true.
Proof.
  intros (k & a' & Ha & Hf)%visit_Some. destruct (_ || _ || _) eqn:E; [done|]. bools.
  destruct (owns id a') eqn:Eo; [|done]. injection Hf as <-. exists k. done.
Qed.

(** The provider account of a link. *)
Definition lkey (l : FederatedLink) : string * string :=
  (Provider (lk_Identity l), ProviderSubject (lk_Identity l)).

Lemma is_link_key p q l : is_link p q l = true <-> lkey l = (p, q).
Proof.
  unfold is_link, lkey. rewrite andb_true_iff, !bool_decide_eq_true. naive_solver.
Qed.

Lemma linkOwner_None range s t p q k a l :
  covers range s -> linkOwner range t p q s = None -> accounts s !! k = Some a -> Tenant k = t ->
  l ∈ links a -> lkey l <> (p, q).
Proof.
  intros Hc Ho Ha Ht Hl Hk%is_link_key.
  pose proof (visit_None _ _ _ k a Ho (covers_elem _ _ _ _ Hc Ha) Ha) as Hf. simpl in Hf.
  rewrite bool_decide_true in Hf by done. simpl in Hf.
  destruct (existsb _ _) eqn:E; [done|]. apply not_true_iff_false in E. apply E, existsb_exists.
  exists l. split; [by apply list_elem_of_In|done].
Qed.

Lemma linkOwner_Some range s t p q a :
  linkOwner range t p q s = Some a ->
  exists k l, accounts s !! k = Some a /\ Tenant k = t /\ l ∈ links a /\ lkey l = (p, q).
Proof.
  intros (k & a' & Ha & Hf)%visit_Some. destruct (bool_decide_reflect (Tenant k = t)); [|done].
  simpl in Hf. destruct (existsb _ _) eqn:E; [|done]. injection Hf as <-.
  apply existsb_exists in E as (l & Hl%list_elem_of_In & Hk%is_link_key). eauto 10.
Qed.

(** ** Invariant of the accounts *)
Record accounts_ok (m : gmap Subject account) : Prop := {
  ao_key k a : m !! k = Some a -> u_Subject (user a) = k /\ User k <> uuid_Nil;
  ao_owns k1 a1 k2 a2 id : m !! k1 = Some a1 -> m !! k2 = Some a2 -> Tenant k1 = Tenant k2 ->
    live a1 -> live a2 -> owns id a1 = true -> owns id a2 = true -> k1 = k2;
  ao_links k a : m !! k = Some a -> NoDup (lkey <$> links a);
  ao_holder k1 a1 k2 a2 l1 l2 : m !! k1 = Some a1 -> m !! k2 = Some a2 -> Tenant k1 = Tenant k2 ->
    l1 ∈ links a1 -> l2 ∈ links a2 -> lkey l1 = lkey l2 -> k1 = k2 }.

(** What a transaction may install beside the other accounts of [m]: [a] for [sub], and [ev] in place
    of an account that loses a link. *)
Record ready (m : gmap Subject account) (sub : Subject) (a : account) (ev : option account) : Prop := {
  rd_key : u_Subject (user a) = sub /\ User sub <> uuid_Nil;
  rd_owns k2 a2 id : m !! k2 = Some a2 -> k2 <> sub -> Tenant k2 = Tenant sub -> live a2 -> live a ->
    owns id a = true -> owns id a2 = false;
  rd_links : NoDup (lkey <$> links a);
  rd_evicted o : ev = Some o -> u_Subject (user o) <> sub /\
    exists o0, m !! u_Subject (user o) = Some o0 /\ user o = user o0 /\ passwd o = passwd o0 /\
      links o `sublist_of` links o0;
  rd_holder k2 a2 l1 l2 : m !! k2 = Some a2 -> k2 <> sub -> Tenant k2 = Tenant sub ->
    l1 ∈ links a -> l2 ∈ links (match ev with Some o => if decide (u_Subject (user o) = k2) then o else a2
                                            | None => a2 end) -> lkey l1 <> lkey l2 }.

Definition install (m : gmap Subject account) (sub : Subject) (a : account) (ev : option account)
  : gmap Subject account :=
  let m := <[sub := a]> m in
  match ev with Some o => <[u_Subject (user o) := o]> m | None => m end.

(** An account after the installation: the new one, or one of before with at most fewer links. *)
Lemma install_lookup m sub a ev k b :
  ready m sub a ev -> install m sub a ev !! k = Some b ->
  (k = sub /\ b = a) \/
  (k <> sub /\ exists b0, m !! k = Some b0 /\ user b = user b0 /\ passwd b = passwd b0 /\
     links b `sublist_of` links b0 /\
     b = match ev with Some o => if decide (u_Subject (user o) = k) then o else b0 | None => b0 end).
Proof.
  intros Hr. unfold install. destruct ev as [o|].
  - destruct (rd_evicted _ _ _ _ Hr o eq_refl) as (Hne & o0 & Ho & Hu & Hp & Hl).
    rewrite lookup_insert_Some. intros [[<- <-]|[Hk Hb]].
    + right. split; [done|]. exists o0. rewrite decide_True by done. done.
    + apply lookup_insert_Some in Hb as [[<- <-]|[Hk' Hb]]; [by left|right].
      split; [done|]. exists b. by rewrite decide_False.
  - rewrite lookup_insert_Some. intros [[<- <-]|[Hk Hb]]; [by left|right]. split; [done|]. by exists b.
Qed.

Lemma install_ok m sub a ev : accounts_ok m -> ready m sub a ev -> accounts_ok (install m sub a ev).
Proof.
  intros Hm Hr. split.
  - intros k b [[-> ->]|(Hk & b0 & Hb & Hu & _)]%(install_lookup _ _ _ _ _ _ Hr); [apply Hr|].
    rewrite Hu. by apply (ao_key m).
  - intros k1 a1 k2 a2 id H1 H2 Ht L1 L2 O1 O2.
    apply (install_lookup _ _ _ _ _ _ Hr) in H1 as [[-> ->]|(N1 & b1 & H1 & U1 & _)];
    apply (install_lookup _ _ _ _ _ _ Hr) in H2 as [[-> ->]|(N2 & b2 & H2 & U2 & _)]; [done|..];
    unfold live, owns in *; rewrite ?U1, ?U2 in *.
    + pose proof (rd_owns _ _ _ _ Hr k2 b2 id H2 N2 (eq_sym Ht) L2 L1 O1). unfold owns in *. congruence.
    + pose proof (rd_owns _ _ _ _ Hr k1 b1 id H1 N1 Ht L1 L2 O2). unfold owns in *. congruence.
    + by apply (ao_owns m Hm k1 b1 k2 b2 id).
  - intros k b [[-> ->]|(Hk & b0 & Hb & _ & _ & Hl & _)]%(install_lookup _ _ _ _ _ _ Hr); [apply Hr|].
    eapply sublist_NoDup; [by eapply (ao_links m)|]. by apply fmap_sublist.
  - intros k1 a1 k2 a2 l1 l2 H1 H2 Ht I1 I2 E.
    apply (install_lookup _ _ _ _ _ _ Hr) in H1 as [[-> ->]|(N1 & b1 & H1 & _ & _ & S1 & E1)];
    apply (install_lookup _ _ _ _ _ _ Hr) in H2 as [[-> ->]|(N2 & b2 & H2 & _ & _ & S2 & E2)]; [done|..].
    + rewrite E2 in I2. by destruct (rd_holder _ _ _ _ Hr k2 b2 l1 l2 H2 N2 (eq_sym Ht) I1 I2).
    + rewrite E1 in I1. by destruct (rd_holder _ _ _ _ Hr k1 b1 l2 l1 H1 N1 Ht I2 I1).
    + apply (ao_holder m Hm k1 b1 k2 b2 l1 l2); [done..| | |done]; eapply elem_of_sublist; done.
Qed.

(** ** Transactions *)

(** A transaction that has not written to the logs yet. *)
Definition quiet (tx tx' : txn) : Prop :=
  now tx' = now tx /\ tx_epochs tx' = tx_epochs tx /\ tx_outbox tx' = tx_outbox tx /\
  tx_epochSeq tx' = tx_epochSeq tx /\ tx_outboxSeq tx' = tx_outboxSeq tx.

Lemma step_Ok ctx tx tx' :
  step ctx tx = Ok tx' ->
  quiet tx tx' /\ acc tx' = acc tx /\ evicted tx' = evicted tx /\ subject tx' = subject tx.
Proof. unfold step. destruct (ctx (reads tx)); [done|]. by intros [= <-]. Qed.

Lemma the_acc_Ok tx a : the_acc tx = Ok a <-> acc tx = Some a.
Proof. unfold the_acc. destruct (acc tx); split; by intros [= <-]. Qed.

(** Changing an account in place, when it gains no link and every identifier it gains is free. *)
Lemma ready_edit m sub a0 a :
  accounts_ok m -> m !! sub = Some a0 -> u_Subject (user a) = sub ->
  (lkey <$> links a) `sublist_of` (lkey <$> links a0) ->
  (forall id, live a -> owns id a = true -> (live a0 /\ owns id a0 = true) \/
     (forall k2 a2, m !! k2 = Some a2 -> k2 <> sub -> Tenant k2 = Tenant sub -> live a2 -> owns id a2 = false)) ->
  ready m sub a None.
Proof.
  intros Hm Ha Hs Hl Ho. split; [|..|done|].
  - split; [done|]. by apply (ao_key m Hm sub a0).
  - intros k2 a2 id H2 Hne Ht L2 La Oa. destruct (Ho id La Oa) as [[L0 O0]|Hfree]; [|by eapply Hfree].
    destruct (owns id a2) eqn:E; [|done].
    destruct Hne. by apply (ao_owns m Hm k2 a2 sub a0 id).
  - eapply sublist_NoDup; [by eapply (ao_links m Hm)|done].
  - intros k2 a2 l1 l2 H2 Hne Ht I1 I2 E. apply Hne.
    assert (lkey l1 ∈ lkey <$> links a0) as (l0 & E0 & I0)%list_elem_of_fmap.
    { eapply elem_of_sublist; [|done]. by apply list_elem_of_fmap_2. }
    apply (ao_holder m Hm k2 a2 sub a0 l2 l0); [done..|]. congruence.
Qed.

(** Links of an account in a transaction are those of the stored one, if any. *)
Definition stored_links (m : gmap Subject account) (sub : Subject) (a : account) : Prop :=
  forall l, l ∈ links a -> exists a0, m !! sub = Some a0 /\ l ∈ links a0.

(** Adding a link nobody else of the tenant holds, once [ev] has lost it. *)
Lemma ready_append m sub a l ev :
  ready m sub a None -> lkey l ∉ lkey <$> links a ->
  (forall o, ev = Some o -> u_Subject (user o) <> sub /\
     exists o0, m !! u_Subject (user o) = Some o0 /\ user o = user o0 /\ passwd o = passwd o0 /\
       links o `sublist_of` links o0) ->
  (forall k2 a2 l2, m !! k2 = Some a2 -> k2 <> sub -> Tenant k2 = Tenant sub ->
     l2 ∈ links (match ev with Some o => if decide (u_Subject (user o) = k2) then o else a2 | None => a2 end) ->
     lkey l2 <> lkey l) ->
  ready m sub (set_links (links a ++ [l]) a) ev.
Proof.
  intros Hr Hl Hev Hfree. split; simpl; [apply Hr|..|done|].
  - intros k2 a2 id. apply (rd_owns _ _ _ _ Hr).
  - rewrite fmap_app. apply NoDup_app. split; [apply Hr|]. split; [|apply NoDup_singleton].
    intros x Hx [->|[]%not_elem_of_nil]%elem_of_cons. done.
  - intros k2 a2 l1 l2 H2 Hne Ht [I1|[->|[]%not_elem_of_nil]%elem_of_cons]%elem_of_app I2 E.
    + eapply (rd_holder _ _ _ _ Hr k2 a2 l1 l2 H2 Hne Ht I1); [|done].
      destruct ev as [o|]; [|done]. case_decide as Ek; [|done].
      destruct (Hev o eq_refl) as (_ & o0 & Ho & _ & _ & Hs). rewrite Ek in Ho.
      assert (o0 = a2) as -> by congruence. by eapply elem_of_sublist.
    + by apply (Hfree k2 a2 l2 H2 Hne Ht I2).
Qed.

(** The evicted account: the tombstoned holder, without the link. *)
Lemma filter_lkey p q l (ls : list FederatedLink) :
  l ∈ filter (fun l => is_link p q l = false) ls -> lkey l <> (p, q).
Proof. intros [Hf _]%list_elem_of_filter. intros E%is_link_key. congruence. Qed.

Lemma link_index_Some p q ls i :
  link_index p q ls = Some i -> exists l, ls !! i = Some l /\ lkey l = (p, q).
Proof.
  unfold link_index. destruct (list_find _ ls) as [[j l]|] eqn:E; [|done]. intros [= <-].
  apply list_find_Some in E as (Hl & Hk%is_link_key & _). eauto.
Qed.

Lemma rebind_ready m f tx tx' a :
  accounts_ok m -> acc tx = Some a -> ready m (subject tx) a None -> rebind f tx = Ok tx' ->
  exists a', acc tx' = Some a' /\ user a' = user a /\ ready m (subject tx') a' None /\
    quiet tx tx' /\ evicted tx' = evicted tx /\ subject tx' = subject tx.
Proof.
  intros Hm Ha Hr. unfold rebind, the_acc. rewrite Ha. simpl.
  destruct (link_index _ _ _) as [i|] eqn:Ei; [|done].
  apply link_index_Some in Ei as (l & Hl & Hk). rewrite Hl.
  destruct (bool_decide _); [done|]. intros [= <-]. eexists. simpl. split; [done|].
  split; [done|]. split; [|done].
  set (l' := mkFederatedLink (subject tx) f (now tx)).
  assert (lkey <$> <[i := l']> (links a) = lkey <$> links a) as E.
  { rewrite list_fmap_insert. apply list_insert_id. rewrite list_lookup_fmap, Hl. simpl. by rewrite Hk. }
  split; simpl; [apply Hr|..|done|].
  - intros k2 a2 id. apply (rd_owns _ _ _ _ Hr).
  - rewrite E. apply Hr.
  - intros k2 a2 l1 l2 H2 Hne Ht I1 I2.
    assert (lkey l1 ∈ lkey <$> links a) as (l0 & E0 & I0)%list_elem_of_fmap.
    { rewrite <- E. by apply list_elem_of_fmap_2. }
    rewrite E0. by apply (rd_holder _ _ _ _ Hr k2 a2 l0 l2).
Qed.

Lemma link_ready range f s tx tx' a :
  accounts_ok (accounts s) -> covers range s -> acc tx = Some a -> evicted tx = None ->
  ready (accounts s) (subject tx) a None -> stored_links (accounts s) (subject tx) a ->
  link range f s tx = Ok tx' ->
  exists a', acc tx' = Some a' /\ user a' = user a /\ ready (accounts s) (subject tx') a' (evicted tx') /\
    quiet tx tx' /\ subject tx' = subject tx.
Proof.
  intros Hm Hc Ha He Hr Hst. unfold link, the_acc. simpl.
  destruct (linkOwner _ _ _ _ _) as [o|] eqn:El.
  - apply linkOwner_Some in El as (k & lo & Ho & Ht & Ilo & Klo).
    pose proof (ao_key _ Hm k o Ho) as [Hk _].
    destruct (bool_decide_reflect (u_Subject (user o) = subject tx)) as [E|Hne].
    + intros Hb. destruct (rebind_ready _ _ _ _ _ Hm Ha Hr Hb) as (a' & H1 & H2 & H3 & H4 & H5 & H6).
      exists a'. rewrite H5, He. done.
    + destruct (time_IsZero (DeletedAt (user o))); [done|]. rewrite Ha. simpl. intros [= <-]. simpl.
      eexists. split; [done|]. split; [done|]. split; [|done].
      set (l := mkFederatedLink (subject tx) f (now tx)). rewrite Hk in *.
      assert (forall k2 a2 l2, accounts s !! k2 = Some a2 -> Tenant k2 = Tenant (subject tx) ->
        l2 ∈ links a2 -> lkey l2 = lkey l -> k2 = k) as Huniq.
      { intros k2 a2 l2 H2 Ht2 I2 E2. apply (ao_holder _ Hm k2 a2 k o l2 lo); [done|done|congruence|done..|].
        rewrite E2, Klo. done. }
      apply ready_append; [done|..].
      * intros (l0 & E0 & I0)%list_elem_of_fmap. destruct (Hst l0 I0) as (a0 & Ha0 & I0').
        apply Hne. symmetry. by apply (Huniq (subject tx) a0 l0).
      * intros o' [= <-]. simpl. rewrite Hk. split; [done|]. exists o. split_and!; try done.
        apply sublist_filter.
      * intros k2 a2 l2 H2 Hne2 Ht2. simpl. rewrite Hk. case_decide as Ek.
        -- intros I2. by apply filter_lkey in I2.
        -- intros I2 E2. apply Ek. symmetry. by eapply Huniq.
  - rewrite Ha. simpl. intros [= <-]. simpl. rewrite He. eexists. split; [done|]. split; [done|].
    split; [|done]. apply ready_append; [done|..].
    + intros (l0 & E0 & I0)%list_elem_of_fmap. destruct (Hst l0 I0) as (a0 & Ha0 & I0').
      eapply (linkOwner_None _ _ _ _ _ _ _ l0 Hc El Ha0); done.
    + done.
    + intros k2 a2 l2 H2 Hne2 Ht2 I2 E2. by eapply (linkOwner_None _ _ _ _ _ k2 a2 l2 Hc El).
Qed.

(** ** One mutation *)

(** [uuid.NewV7] answers an id that is not the nil one and that no account has. *)
Definition fresh_id (newID : res uuid) (m : Mutation) (s : Store) : Prop :=
  match m, newID with
  | CreateVerified t _ _ _ _, Ok id => id <> uuid_Nil /\ accounts s !! mkSubject t id = None
  | _, _ => True
  end.

Definition creates (m : Mutation) : bool := match m with CreateVerified _ _ _ _ _ => true | _ => false end.

(** What mutate leaves in the transaction: an account ready to be installed, at the epoch of the
    stored one. *)
Definition mutated (m : Mutation) (s : Store) (tx : txn) (a : account) : Prop :=
  ready (accounts s) (subject tx) a (evicted tx) /\
  if creates m
  then SecurityEpoch (user a) = 0 /\ accounts s !! subject tx = None
  else subject tx = subjectOf m /\ exists a0, accounts s !! subjectOf m = Some a0 /\ live a0 /\
         SecurityEpoch (user a) = SecurityEpoch (user a0).

Lemma owner_free range s sub id :
  covers range s -> owner range (Tenant sub) id (User sub) s = None ->
  forall k2 a2, accounts s !! k2 = Some a2 -> k2 <> sub -> Tenant k2 = Tenant sub -> live a2 ->
    owns id a2 = false.
Proof.
  intros Hc Ho k2 a2 H2 Hne Ht Hl. eapply owner_None; try done.
  intros E. apply Hne. destruct k2, sub. simpl in *. by subst.
Qed.

(** An identifier the account owns is the one of its kind. *)
Lemma owns_email e at_ u id a :
  user a = with_email e at_ u -> owns id a = true ->
  id = e \/ (id <> e /\ kind id <> IdentifierEmail /\ kind id = IdentifierPhone /\ Phone u = id).
Proof.
  intros Hu. unfold owns. rewrite Hu. simpl. destruct (Z.eqb_spec (kind id) IdentifierEmail).
  - intros E%bool_decide_eq_true. by left.
  - destruct (Z.eqb_spec (kind id) IdentifierPhone); [|done]. intros E%bool_decide_eq_true.
    destruct (decide (id = e)); [by left|right]. done.
Qed.

Lemma mutate_loaded_ok range m a0 s tx tx' old :
  accounts_ok (accounts s) -> covers range s -> validate m = None -> creates m = false ->
  subject tx = subjectOf m -> accounts s !! subjectOf m = Some a0 -> live a0 ->
  acc tx = Some a0 -> evicted tx = None -> mutate_loaded range m a0 s tx = Ok (tx', old) ->
  exists a, acc tx' = Some a /\ mutated m s tx' a /\ quiet tx tx'.
Proof.
  intros Hm Hc Hv Hcr Hs H0 L0 Ha He. unfold mutated. rewrite Hcr.
  pose proof (ao_key _ Hm _ _ H0) as [Hk _].
  assert (forall a, u_Subject (user a) = subjectOf m -> SecurityEpoch (user a) = SecurityEpoch (user a0) ->
    (lkey <$> links a) `sublist_of` (lkey <$> links a0) ->
    (forall id, live a -> owns id a = true -> (live a0 /\ owns id a0 = true) \/
       (forall k2 a2, accounts s !! k2 = Some a2 -> k2 <> subjectOf m ->
          Tenant k2 = Tenant (subjectOf m) -> live a2 -> owns id a2 = false)) ->
    exists a', acc (set_acc a tx) = Some a' /\
      (ready (accounts s) (subject (set_acc a tx)) a' (evicted (set_acc a tx)) /\
       subject (set_acc a tx) = subjectOf m /\ exists a1, accounts s !! subjectOf m = Some a1 /\ live a1 /\
         SecurityEpoch (user a') = SecurityEpoch (user a1)) /\ quiet tx (set_acc a tx)) as Hedit.
  { intros a E1 E2 E3 E4. exists a. simpl. rewrite He, Hs. split; [done|]. split; [|done].
    split; [by eapply ready_edit|]. eauto. }
  assert (forall a, Email (user a) = Email (user a0) -> Phone (user a) = Phone (user a0) ->
    forall id, live a -> owns id a = true -> (live a0 /\ owns id a0 = true) \/
       (forall k2 a2, accounts s !! k2 = Some a2 -> k2 <> subjectOf m ->
          Tenant k2 = Tenant (subjectOf m) -> live a2 -> owns id a2 = false)) as Hsame.
  { intros a E1 E2 id _ Ho. left. split; [done|]. unfold owns in *. by rewrite E1, E2 in Ho. }
  assert ((lkey <$> links a0) `sublist_of` (lkey <$> links a0)) as Hrefl by done.
  destruct m; simpl in Hv, Hcr, Hs, H0, Hk, Hedit, Hsame |- *; try done.
  - intros [= <- <-]. apply Hedit; [done..|]. by apply Hsame.
  - destruct (negb _); [done|]. intros [= <- <-]. apply Hedit; [done..| |by apply Hsame].
    apply sublist_nil_l.
  - destruct (owner _ _ _ _ _) eqn:Eo; [done|]. intros [= <- <-]. apply Hedit; [done..|].
    intros id Hl Ho. rewrite Hs in Eo. unfold owns in Ho. simpl in Ho.
    destruct (Z.eqb_spec (kind id) IdentifierEmail) as [Ek|Ek].
    + apply bool_decide_eq_true in Ho as ->. right. by eapply owner_free.
    + left. split; [done|]. unfold owns. by destruct (Z.eqb_spec (kind id) IdentifierEmail).
  - clear Hv. destruct (negb (Identifier_IsZero phone) && _) eqn:Eo; [done|]. intros [= <- <-]. apply Hedit; [done..|].
    intros id Hl Ho. rewrite Hs in Eo. unfold owns in Ho. simpl in Ho.
    destruct (Z.eqb_spec (kind id) IdentifierEmail) as [Ek|Ek].
    + left. split; [done|]. unfold owns. by rewrite Ek.
    + destruct (Z.eqb_spec (kind id) IdentifierPhone) as [Ep|Ep]; [|done].
      apply bool_decide_eq_true in Ho as ->. right. unfold Identifier_IsZero in Eo. rewrite Ep in Eo. simpl in Eo.
      destruct (owner _ _ _ _ _) eqn:Eo'; [done|]. by eapply owner_free.
  - intros [= <- <-]. apply Hedit; [done..|]. by apply Hsame.
  - intros [= <- <-]. destruct disable; simpl; [destruct (time_IsZero _)|]; (apply Hedit; [done..|by apply Hsame]).
  - destruct (passwd a0) as [p|]; [|destruct must; [done|]]; intros [= <- <-]; (apply Hedit; [done..|by apply Hsame]).
  - intros [= <- <-]. apply Hedit; [done..|]. by apply Hsame.
  - intros [= <- <-]. apply Hedit; [done..|]. by apply Hsame.
  - destruct (link range identity s tx) as [tx1|] eqn:El; [|done]. intros [= <- <-].
    assert (ready (accounts s) (subject tx) a0 None) as Hr0.
    { rewrite Hs. eapply ready_edit; [done..|]. by apply Hsame. }
    assert (stored_links (accounts s) (subject tx) a0) as Hst by (intros l Hl; exists a0; by rewrite Hs).
    destruct (link_ready _ _ _ _ _ _ Hm Hc Ha He Hr0 Hst El) as (a' & H1 & H2 & H3 & H4 & H5).
    exists a'. rewrite H5, H2, Hs in *. split; [done|]. split; [|done]. split; [done|]. eauto.
  - destruct (link_index _ _ _) as [i|]; [|done]. intros [= <- <-]. apply Hedit; [done..| |by apply Hsame].
    simpl. apply fmap_sublist, sublist_delete.
  - intros [= <- <-]. apply Hedit; [done..|]. by apply Hsame.
Qed.

Lemma create_ok ctx range range' newID t email h must federated s tx tx' :
  accounts_ok (accounts s) -> covers range s -> covers range' s ->
  let m := CreateVerified t email h must federated in
  validate m = None -> fresh_id newID m s -> evicted tx = None ->
  create ctx range range' newID t email h must federated s tx = Ok tx' ->
  exists a, acc tx' = Some a /\ mutated m s tx' a /\ quiet tx tx'.
Proof.
  intros Hm Hc Hc' m Hv Hid He. unfold create.
  destruct (step ctx tx) as [tx1|] eqn:E1; [|done]. apply step_Ok in E1 as (Q1 & A1 & V1 & S1). simpl.
  destruct (owner _ _ _ _ _) eqn:Eo; [done|]. destruct newID as [id|]; [|done]. simpl. destruct Hid as [Hnil Hfree].
  set (a := mkAccount _ _ _). set (tx2 := set_acc a (set_subject (mkSubject t id) tx1)).
  destruct (step ctx tx2) as [tx3|] eqn:E3; [|done]. apply step_Ok in E3 as (Q3 & A3 & V3 & S3). simpl in *.
  assert (quiet tx tx3) as Q by (unfold quiet in *; simpl in *; intuition congruence).
  assert (ready (accounts s) (subject tx3) a None) as Hr.
  { rewrite S3. split; simpl; try done.
    - intros k2 a2 id' H2 Hne Ht L2 _ Ho. unfold owns in Ho. simpl in Ho.
      destruct (Z.eqb_spec (kind id') IdentifierEmail) as [Ek|_].
      + apply bool_decide_eq_true in Ho as <-. apply (owner_None range s t email uuid_Nil k2); try done.
        by apply (ao_key _ Hm k2 a2).
      + destruct (Z.eqb_spec (kind id') IdentifierPhone) as [Ek|_]; [|done].
        apply bool_decide_eq_true in Ho as <-. done.
    - constructor.
    - intros k2 a2 l1 l2 _ _ _ []%not_elem_of_nil. }
  assert (stored_links (accounts s) (subject tx3) a) as Hst by (intros l []%not_elem_of_nil).
  destruct (negb (bool_decide (federated = zero_FederatedIdentity))).
  - intros El. rewrite V1, He in V3.
    destruct (link_ready _ _ _ _ _ _ Hm Hc' A3 V3 Hr Hst El) as (a' & H1 & H2 & H3 & H4 & H5).
    exists a'. split; [done|]. split; [|unfold quiet in *; intuition congruence].
    split; [done|]. simpl. rewrite H2, H5, S3. done.
  - intros [= <-]. exists a. split; [done|]. split; [|done]. split; [|by rewrite S3]. by rewrite V3, V1, He.
Qed.

Lemma mutate_ok ctx range range' newID m s tx tx' old :
  accounts_ok (accounts s) -> covers range s -> covers range' s -> Validate m = None ->
  fresh_id newID m s -> evicted tx = None ->
  mutate ctx range range' newID m s tx = Ok (tx', old) ->
  exists a, acc tx' = Some a /\ mutated m s tx' a /\ quiet tx tx'.
Proof.
  intros Hm Hc Hc' Hv Hid He Hmu.
  assert (validate m = None) as Hv'.
  { unfold Validate in Hv. destruct (negb (declared m)); [done|]. by destruct (validate m). }
  destruct (creates m) eqn:Ec.
  - destruct m; try discriminate Ec. simpl in Hmu. destruct (create _ _ _ _ _ _ _ _ _ _ _) as [tx1|] eqn:E; [|done].
    injection Hmu as <- <-. by apply (create_ok _ _ _ _ _ _ _ _ _ _ _ _ Hm Hc Hc' Hv' Hid He E).
  - assert (mutate ctx range range' newID m s tx
      = (tx ← load ctx (subjectOf m) s tx; tx ← step ctx tx; a ← the_acc tx; mutate_loaded range m a s tx)) as E
      by (by destruct m).
    rewrite E in Hmu. clear E. unfold load in Hmu.
    destruct (step ctx tx) as [tx1|] eqn:E1; [|done]. apply step_Ok in E1 as (Q1 & A1 & V1 & S1). simpl in Hmu.
    destruct (accounts s !! subjectOf m) as [a0|] eqn:E0; [|done].
    destruct (time_IsZero (DeletedAt (user a0))) eqn:Ed; [|done]. simpl in Hmu.
    destruct (step ctx _) as [tx3|] eqn:E3; [|done]. apply step_Ok in E3 as (Q3 & A3 & V3 & S3). simpl in *.
    unfold the_acc in Hmu. rewrite A3 in Hmu. simpl in Hmu. bools.
    destruct (mutate_loaded_ok range m a0 s tx3 tx' old) as (a & H1 & H2 & H3); try done; [congruence|].
    exists a. split; [done|]. split; [done|]. unfold quiet in *. simpl in *. intuition congruence.
Qed.

(** ** Apply *)

Definition with_id (id : Z) (now : time) (o : OutboxItem) : OutboxItem :=
  mkOutboxItem id (Component o) (o_Event o) (o_Subject o) (o_Keep o) (Rotation o)
    (o_Change o) (o_Identifier o) (Old o) (Attempts o) now now.

(** The rows as queued: numbered from the store's counter, due at once. *)
Fixpoint number (seq : Z) (now : time) (items : list OutboxItem) : list OutboxItem :=
  match items with
  | [] => []
  | o :: items' => let id := int64 (seq + 1) in with_id id now o :: number id now items'
  end.

Fixpoint last_id (seq : Z) (items : list OutboxItem) : Z :=
  match items with [] => seq | _ :: items' => last_id (int64 (seq + 1)) items' end.

Definition queued (os : list OutboxItem) : list outboxRow := map (fun o => mkOutboxRow o time_zero) os.

Lemma queue_Ok ctx items : forall tx tx' os,
  queue ctx items tx = Ok (tx', os) ->
  os = number (tx_outboxSeq tx) (now tx) items /\ tx_outbox tx' = tx_outbox tx ++ queued os /\
  tx_outboxSeq tx' = last_id (tx_outboxSeq tx) items /\ acc tx' = acc tx /\ evicted tx' = evicted tx /\
  subject tx' = subject tx /\ tx_epochs tx' = tx_epochs tx /\ tx_epochSeq tx' = tx_epochSeq tx.
Proof.
  induction items as [|o items IH]; intros tx tx' os; simpl.
  - intros [= <- <-]. by rewrite app_nil_r.
  - destruct (step ctx tx) as [tx1|] eqn:E1; [|done]. apply step_Ok in E1 as ((N1 & Q1 & Q2 & Q3 & Q4) & A1 & V1 & S1).
    simpl. destruct (queue _ _ _) as [[tx2 os2]|] eqn:E2; [|done]. simpl. intros [= <- <-].
    apply IH in E2 as (-> & H1 & H2 & H3 & H4 & H5 & H6 & H7). simpl in *.
    rewrite H1, H2, H3, H4, H5, H6, H7, Q2, Q4, N1. unfold queued. simpl. rewrite <- app_assoc. done.
Qed.

(** The account as stored: its epoch raised when the mutation is a security one. *)
Definition epoch_after (m : Mutation) (a : account) : Z :=
  if BumpsEpoch (EffectsOf m) then u64 (SecurityEpoch (user a) + 1) else SecurityEpoch (user a).

Definition raised (m : Mutation) (a : account) : account := set_user (with_epoch (epoch_after m a) (user a)) a.

Definition epoch_rows (m : Mutation) (sub : Subject) (a : account) (at_ : time) (s : Store) : list epochRow :=
  if BumpsEpoch (EffectsOf m)
  then [mkEpochRow (u64 (epochSeq s + 1)) (mkEpochChange sub (epoch_after m a) (Event (EffectsOf m))) at_]
  else [].

(** What a successful Apply wrote. *)
Record applied_to (m : Mutation) (clk : time) (s s' : Store) (r : Applied) (sub : Subject) (a : account)
    (ev : option account) (old : Identifier) : Prop := {
  at_accounts : accounts s' = install (accounts s) sub (raised m a) ev;
  at_epochSeq : epochSeq s' = if BumpsEpoch (EffectsOf m) then u64 (epochSeq s + 1) else epochSeq s;
  at_epochs : epochs s' = epochs s ++ epoch_rows m sub a (now_of clk) s;
  at_items : Outbox r = number (outboxSeq s) (now_of clk) (OutboxFor m sub old);
  at_outbox : outbox s' = outbox s ++ queued (Outbox r);
  at_outboxSeq : outboxSeq s' = last_id (outboxSeq s) (OutboxFor m sub old);
  at_result : ap_Subject r = sub /\ ap_NewEpoch r = epoch_after m a }.

Lemma raised_same m a : BumpsEpoch (EffectsOf m) = false -> raised m a = a.
Proof.
  intros E. unfold raised, epoch_after. rewrite E. destruct a as [u p ls]. destruct u. done.
Qed.

Lemma bump_epoch_Ok ctx event tx tx' a :
  acc tx = Some a -> bump_epoch ctx event tx = Ok tx' ->
  let e := u64 (SecurityEpoch (user a) + 1) in let seq := u64 (tx_epochSeq tx + 1) in
  now tx' = now tx /\ acc tx' = Some (set_user (with_epoch e (user a)) a) /\ evicted tx' = evicted tx /\
  subject tx' = subject tx /\
  tx_epochs tx' = tx_epochs tx ++ [mkEpochRow seq (mkEpochChange (subject tx) e event) (now tx)] /\
  tx_epochSeq tx' = seq /\ tx_outbox tx' = tx_outbox tx /\ tx_outboxSeq tx' = tx_outboxSeq tx.
Proof.
  intros Ha. unfold bump_epoch. destruct (step ctx tx) as [tx1|] eqn:E1; [|done].
  apply step_Ok in E1 as ((N1 & Q1 & Q2 & Q3 & Q4) & A1 & V1 & S1). simpl. unfold the_acc. rewrite A1, Ha. simpl.
  intros [= <-]. simpl. rewrite N1, Q1, Q2, Q3, Q4, V1, S1. done.
Qed.

Lemma Apply_tx_Ok ctx clk range range' newID m s s' r tx1 old a :
  let tx0 := mkTxn 1 (now_of clk) None None zero_Subject [] [] (epochSeq s) (outboxSeq s) in
  mutate ctx range range' newID m s tx0 = Ok (tx1, old) -> acc tx1 = Some a -> quiet tx0 tx1 ->
  Apply_tx ctx clk range range' newID m s = Ok (s', r) ->
  applied_to m clk s s' r (subject tx1) a (evicted tx1) old.
Proof.
  intros tx0 Hmu Ha (N1 & Q1 & Q2 & Q3 & Q4). unfold Apply_tx. fold tx0. rewrite Hmu. simpl. unfold tx_effects.
  destruct (if BumpsEpoch (EffectsOf m) then _ else _) as [tx2|] eqn:E2; [|done]. simpl.
  assert (acc tx2 = Some (raised m a) /\ evicted tx2 = evicted tx1 /\ subject tx2 = subject tx1 /\
       tx_epochs tx2 = epoch_rows m (subject tx1) a (now_of clk) s /\
       tx_epochSeq tx2 = (if BumpsEpoch (EffectsOf m) then u64 (epochSeq s + 1) else epochSeq s) /\
       tx_outbox tx2 = [] /\ tx_outboxSeq tx2 = outboxSeq s /\ now tx2 = now_of clk)
    as (A2 & V2 & S2 & P2 & R2 & O2 & T2 & N2).
  { unfold epoch_rows. pose proof (raised_same m a) as Hsame.
    destruct (BumpsEpoch (EffectsOf m)) eqn:Eb.
    - apply (bump_epoch_Ok _ _ _ _ a Ha) in E2 as (H1 & H2 & H3 & H4 & H5 & H6 & H7 & H8).
      unfold raised, epoch_after. rewrite Eb. simpl in *. rewrite Q1, Q3, N1 in H5. rewrite Q3 in H6.
      split_and!; try done; congruence.
    - injection E2 as <-. rewrite Hsame by done. simpl in *. done. }
  destruct (queue _ _ _) as [[tx3 os]|] eqn:E3; [|done]. simpl.
  apply queue_Ok in E3 as (-> & H1 & H2 & H3 & H4 & H5 & H6 & H7).
  unfold the_acc. rewrite H3, A2. simpl.
  destruct (step ctx tx3) as [tx4|] eqn:E4; [|done]. apply step_Ok in E4 as ((_ & P4 & O4 & R4 & T4) & A4 & V4 & S4).
  simpl. rewrite A4, H3, A2. simpl. intros [= <- <-]. unfold commit. split; simpl.
  - rewrite V4, H4, V2, S4, H5, S2. unfold install. by destruct (evicted tx1).
  - congruence.
  - congruence.
  - congruence.
  - rewrite O4, H1, O2. done.
  - congruence.
  - split; congruence.
Qed.

(** The provider account a mutation links. *)
Definition links_to (m : Mutation) : option FederatedIdentity :=
  match m with CreateVerified _ _ _ _ f | LinkFederated _ f _ => Some f | _ => None end.

(** [loses m t s k o']: the deleted account [k] of the tenant held the very provider account [m] links; [o'] is that
    account without it. *)
Definition loses (m : Mutation) (t : TenantID) (s : Store) (k : Subject) (o' : account) : Prop :=
  exists f o l, links_to m = Some f /\ accounts s !! k = Some o /\ Tenant k = t /\ ~ live o /\
    l ∈ links o /\ lkey l = (Provider f, ProviderSubject f) /\
    o' = set_links (filter (fun l => is_link (Provider f) (ProviderSubject f) l = false) (links o)) o.

Lemma link_evicts range f s tx tx' : evicted tx = None -> link range f s tx = Ok tx' ->
  subject tx' = subject tx /\
  forall o', evicted tx' = Some o' -> exists k, forall m, links_to m = Some f -> loses m (Tenant (subject tx)) s k o'.
Proof.
  intros He. unfold link, rebind, the_acc. destruct (linkOwner _ _ _ _ _) as [o|] eqn:El.
  - destruct (bool_decide _).
    { destruct (acc tx); [|done]. simpl. repeat case_match; try done; intros [= <-]; simpl; by rewrite He. }
    destruct (time_IsZero (DeletedAt (user o))) eqn:Ed; [done|]. simpl. destruct (acc tx); [|done]. simpl. intros [= <-]. simpl.
    split; [done|]. intros o' [= <-]. apply linkOwner_Some in El as (k & l & Ho & Ht & Hl & Hk). exists k. intros m Hm.
    exists f, o, l. split_and!; try done. unfold live. unfold time_IsZero in Ed. by bools.
  - simpl. destruct (acc tx); [|done]. simpl. intros [= <-]. simpl. split; [done|]. by rewrite He.
Qed.

Lemma mutate_evicts ctx range range' newID m s tx tx' old : evicted tx = None ->
  mutate ctx range range' newID m s tx = Ok (tx', old) ->
  forall o', evicted tx' = Some o' -> exists k, loses m (Tenant (subject tx')) s k o'.
Proof.
  intros He Hmu. destruct (creates m) eqn:Ec.
  - destruct m as [| | | | | | | | | | |t email h must f|]; try discriminate Ec. simpl in Hmu. unfold create in Hmu.
    destruct (step ctx tx) as [tx1|] eqn:E1; [|done]. apply step_Ok in E1 as (_ & _ & V1 & _). simpl in Hmu.
    destruct (owner _ _ _ _ _); [done|]. destruct newID as [id|]; [|done]. simpl in Hmu.
    destruct (step ctx (set_acc _ _)) as [tx3|] eqn:E3; [|done]. apply step_Ok in E3 as (_ & _ & V3 & _). simpl in *.
    assert (evicted tx3 = None) as He3 by congruence. destruct (negb _).
    + destruct (link _ _ _ _) as [tx4|] eqn:El; [|done]. injection Hmu as <- <-.
      apply link_evicts in El as [Hs Hl]; [|done]. intros o' Ho. rewrite Hs. destruct (Hl o' Ho) as [k Hk]. exists k. by apply Hk.
    + injection Hmu as <- <-. by rewrite He3.
  - assert (mutate ctx range range' newID m s tx
      = (tx ← load ctx (subjectOf m) s tx; tx ← step ctx tx; a ← the_acc tx; mutate_loaded range m a s tx)) as E by (by destruct m).
    rewrite E in Hmu. clear E. unfold load in Hmu.
    destruct (step ctx tx) as [tx1|] eqn:E1; [|done]. apply step_Ok in E1 as (_ & _ & V1 & _). simpl in Hmu.
    destruct (accounts s !! subjectOf m) as [a0|]; [|done]. destruct (negb _); [done|]. simpl in Hmu.
    destruct (step ctx _) as [tx3|] eqn:E3; [|done]. apply step_Ok in E3 as (_ & _ & V3 & _). simpl in *.
    destruct (the_acc tx3) as [a|]; [|done]. simpl in Hmu. assert (evicted tx3 = None) as He3 by congruence. clear - Hmu He3 Ec.
    destruct m; try discriminate Ec; simpl in Hmu.
    10:{ destruct (link _ _ _ _) as [tx4|] eqn:El; [|done]. injection Hmu as <- <-. apply link_evicts in El as [Hs Hl]; [|done].
      intros o' Ho. rewrite Hs. destruct (Hl o' Ho) as [k Hk]. exists k. by apply Hk. }
    all: repeat (simpl in Hmu; case_match); try done; injection Hmu as <- <-; simpl; by rewrite He3.
Qed.

Lemma Apply_Ok_tx ctx clk range range' newID m s s' r :
  accounts_ok (accounts s) -> covers range s -> covers range' s -> fresh_id newID m s ->
  Apply ctx clk range range' newID m s = (s', Ok r) ->
  Validate m = None /\
  exists tx a old, mutated m s tx a /\ applied_to m clk s s' r (subject tx) a (evicted tx) old /\
    forall o', evicted tx = Some o' -> exists k, loses m (Tenant (subject tx)) s k o'.
Proof.
  intros Hm Hc Hc' Hid. unfold Apply. destruct (ctx 0%nat); [done|].
  destruct (Validate m) as [|] eqn:Hv; [done|]. destruct (reserved m); [done|].
  destruct (Apply_tx _ _ _ _ _ _ _) as [[s1 r1]|] eqn:E; [|done]. intros [= <- <-]. split; [done|].
  pose proof E as E'. unfold Apply_tx in E'.
  destruct (mutate _ _ _ _ _ _ _) as [[tx1 old]|] eqn:Em; [|done]. clear E'.
  destruct (fun He => mutate_ok _ _ _ _ _ _ _ _ _ Hm Hc Hc' Hv Hid He Em) as (a & Ha & Hmut & Hq); [done|].
  exists tx1, a, old. split; [done|]. split; [by eapply Apply_tx_Ok|]. by eapply mutate_evicts; [|exact Em].
Qed.

Lemma Apply_Ok ctx clk range range' newID m s s' r :
  accounts_ok (accounts s) -> covers range s -> covers range' s -> fresh_id newID m s ->
  Apply ctx clk range range' newID m s = (s', Ok r) ->
  Validate m = None /\
  exists tx a old, mutated m s tx a /\ applied_to m clk s s' r (subject tx) a (evicted tx) old.
Proof.
  intros Hm Hc Hc' Hid E. destruct (Apply_Ok_tx _ _ _ _ _ _ _ _ _ Hm Hc Hc' Hid E) as (Hv & tx & a & old & H1 & H2 & _).
  split; [done|]. by exists tx, a, old.
Qed.

Lemma Apply_Err ctx clk range range' newID m s s' e :
  Apply ctx clk range range' newID m s = (s', Err e) -> s' = s.
Proof.
  unfold Apply. destruct (ctx 0%nat); [by intros [= <-]|]. destruct (Validate m); [by intros [= <-]|].
  destruct (reserved m); [by intros [= <-]|]. destruct (Apply_tx _ _ _ _ _ _ _) as [[]|]; [done|].
  by intros [= <-].
Qed.

Lemma ready_raised m0 m sub a ev : ready m0 sub a ev -> ready m0 sub (raised m a) ev.
Proof. intros Hr. destruct Hr. split; done. Qed.

(** ** Numbered logs *)
Section increasing.
Context {A : Type} (f : A -> Z).

(** Positions strictly increase and none is above [top]. *)
Definition increasing (l : list A) (top : Z) : Prop :=
  StronglySorted Z.lt (map f l) /\ Forall (fun z => z <= top) (map f l).

Lemma increasing_nil top : increasing [] top.
Proof. split; constructor. Qed.

Lemma increasing_snoc l top x : increasing l top -> top < f x -> increasing (l ++ [x]) (f x).
Proof.
  intros [Hs Hf] Hx. unfold increasing. rewrite map_app. simpl. split.
  - apply StronglySorted_app. split; [|split; [done|repeat constructor]].
    intros y z Hy [->|[]%not_elem_of_nil]%elem_of_cons. rewrite Forall_forall in Hf. specialize (Hf y Hy). simpl in Hf. lia.
  - apply Forall_app. split; [|by constructor]. eapply Forall_impl; [done|]. simpl. lia.
Qed.

Lemma increasing_filter (P : A -> Prop) `{forall x, Decision (P x)} l top :
  increasing l top -> increasing (filter P l) top.
Proof.
  intros [Hs Hf]. pose proof (sublist_filter P l) as Hsub.
  apply (fmap_sublist f) in Hsub. split.
  - change (map f (filter P l)) with (f <$> filter P l). revert Hs. change (map f l) with (f <$> l).
    generalize (f <$> l) (f <$> filter P l) Hsub. clear. intros l1 l2 Hsub. induction Hsub as [|x l1 l2 Hsub IH|x l1 l2 Hsub IH].
    + done.
    + intros [Hs Hx]%StronglySorted_inv. constructor; [by apply IH|].
      rewrite Forall_forall in *. intros y Hy. apply Hx. by eapply elem_of_sublist.
    + intros [Hs Hx]%StronglySorted_inv. by apply IH.
  - rewrite Forall_forall in *. intros y Hy. apply Hf. by eapply elem_of_sublist.
Qed.

Lemma increasing_insert l top i x y :
  increasing l top -> l !! i = Some y -> f x = f y -> increasing (<[i := x]> l) top.
Proof.
  intros Hi Hl E. unfold increasing. change (map f (<[i := x]> l)) with (f <$> <[i := x]> l).
  rewrite list_fmap_insert, list_insert_id; [done|]. by rewrite list_lookup_fmap, Hl, E.
Qed.

Lemma increasing_lt l top i j x y :
  increasing l top -> l !! i = Some x -> l !! j = Some y -> (i < j)%nat -> f x < f y.
Proof.
  intros [Hs _] Hi Hj Hlt. rewrite <- (take_drop j l), map_app in Hs.
  apply StronglySorted_app in Hs as [Hs _]. apply Hs.
  - apply (list_elem_of_fmap_2 f). apply (list_elem_of_lookup_2 _ i). by rewrite lookup_take_lt.
  - apply (list_elem_of_fmap_2 f). apply (list_elem_of_lookup_2 _ 0).
    rewrite lookup_drop. by rewrite Nat.add_0_r.
Qed.

Lemma increasing_inj l top i j x y :
  increasing l top -> l !! i = Some x -> l !! j = Some y -> f x = f y -> i = j.
Proof.
  intros [Hs _] Hi Hj E. assert (NoDup (f <$> l)) as Hnd.
  { change (f <$> l) with (map f l). revert Hs. generalize (map f l). induction 1 as [|z zs Hs IH Hz]; constructor; [|done].
    intros Hin. rewrite Forall_forall in Hz. specialize (Hz z Hin). lia. }
  apply (NoDup_lookup (f <$> l) i j (f x) Hnd); rewrite list_lookup_fmap, ?Hi, ?Hj; simpl; congruence.
Qed.
End increasing.

(** ** The account store's operations as labels, its invariant along their runs, and what a run keeps. *)

Inductive op :=
  | OpApply (ctx : nat -> option error) (clk : time) (range range' : list Subject) (newID : res uuid)
      (m : Mutation)
  | OpEraseTenant (ctx : option error) (t : TenantID)
  | OpReap (ctx : option error) (clk : time)
  | OpFailure (ctx : option error) (clk : time) (sub : Subject) (p : LockoutPolicy)
  | OpReset (ctx : option error) (sub : Subject)
  | OpAck (ctx : option error) (clk : time) (id : Z)
  | OpFail (ctx : option error) (id : Z) (next : time)
  | OpEraseUser (ctx : option error) (sub : Subject).

Definition exec (o : op) (s : Store) : Store :=
  match o with
  | OpApply ctx clk range range' newID m => (Apply ctx clk range range' newID m s).1
  | OpEraseTenant ctx t => (EraseTenant ctx t s).1
  | OpReap ctx clk => (ReapExpired ctx clk s).1
  | OpFailure ctx clk sub p => (RecordPasswordFailure ctx clk sub p s).1
  | OpReset ctx sub => (ResetPasswordFailures ctx sub s).1
  | OpAck ctx clk id => (AckOutbox ctx clk id s).1
  | OpFail ctx id next => (FailOutbox ctx id next s).1
  | OpEraseUser ctx sub => (EraseUser ctx sub s).1
  end.

(** What the language, the uuid package and the counters' width give: the loops visit every account,
    new ids are new, and neither counter is about to wrap. *)
Definition legal (o : op) (s : Store) : Prop :=
  match o with
  | OpApply _ _ range range' newID m =>
      covers range s /\ covers range' s /\ fresh_id newID m s /\
      epochSeq s < two64 - 1 /\ outboxSeq s < two63 - 11 /\
      (forall k a, accounts s !! k = Some a -> SecurityEpoch (user a) < two64 - 1)
  | _ => True
  end.

Record store_inv (s : Store) : Prop := {
  si_accounts : accounts_ok (accounts s);
  si_epochs : increasing e_seq (epochs s) (epochSeq s);
  si_epochSeq : 0 <= epochSeq s;
  si_epoch k a : accounts s !! k = Some a -> 0 <= SecurityEpoch (user a);
  si_outbox : increasing (fun r => o_ID (item r)) (outbox s) (outboxSeq s);
  si_outboxSeq : 0 <= outboxSeq s }.

Inductive run : Store -> list op -> Store -> Prop :=
  | run_nil s : run s [] s
  | run_cons s o os s' : legal o s -> run (exec o s) os s' -> run s (o :: os) s'.

Definition reachable (s : Store) : Prop := exists os, run NewWithClock os s.

(** ** Preservation *)

Lemma int64_small z : 0 <= z < two63 -> int64 z = z.
Proof.
  intros Hz. unfold int64. change (u64 z) with (u64_of_i64 z). apply i64_u64_i64. unfold two63 in *. lia.
Qed.

Lemma number_ids now items : forall seq,
  0 <= seq -> seq + Z.of_nat (length items) < two63 ->
  map o_ID (number seq now items) = seqZ (seq + 1) (Z.of_nat (length items)) /\
  last_id seq items = seq + Z.of_nat (length items).
Proof.
  induction items as [|o items IH]; intros seq Hs Hroom; simpl length in *; [simpl; split; [done|lia]|].
  rewrite Nat2Z.inj_succ in *. cbn [number last_id map]. rewrite int64_small by lia.
  destruct (IH (seq + 1)) as [E1 E2]; [lia..|]. rewrite E1, E2. split; [|lia].
  rewrite (seqZ_cons (seq + 1)) by lia. simpl. f_equal. f_equal; lia.
Qed.

Lemma queued_increasing now items : forall seq rows,
  0 <= seq -> seq + Z.of_nat (length items) < two63 ->
  increasing (fun r => o_ID (item r)) rows seq ->
  increasing (fun r => o_ID (item r)) (rows ++ queued (number seq now items)) (last_id seq items).
Proof.
  induction items as [|o items IH]; intros seq rows Hs Hroom Hi; cbn [number last_id queued map].
  - by rewrite app_nil_r.
  - simpl length in Hroom. rewrite Nat2Z.inj_succ in Hroom. rewrite int64_small by lia.
    rewrite cons_middle, app_assoc. apply IH; [lia..|].
    apply (increasing_snoc (fun r => o_ID (item r)) rows seq (mkOutboxRow (with_id (seq + 1) now o) time_zero)); [done|].
    simpl. lia.
Qed.

Lemma OutboxFor_length m sub old : (length (OutboxFor m sub old) <= 10)%nat.
Proof. unfold OutboxFor. destruct (_ =? 0); simpl; lia. Qed.

Lemma applied_inv m clk s s' r sub a ev old :
  store_inv s -> ready (accounts s) sub a ev -> 0 <= SecurityEpoch (user a) ->
  applied_to m clk s s' r sub a ev old -> epochSeq s < two64 - 1 -> outboxSeq s < two63 - 11 ->
  store_inv s'.
Proof.
  intros Hs Hr He Hat Hes Hos. destruct Hat as [A1 A2 A3 A4 A5 A6 _].
  pose proof (OutboxFor_length m sub old) as Hlen.
  split.
  - rewrite A1. apply install_ok; [apply Hs|by apply ready_raised].
  - rewrite A3, A2. unfold epoch_rows. destruct (BumpsEpoch _); [|rewrite app_nil_r; apply Hs].
    pose proof (si_epochSeq _ Hs). rewrite u64_small by (unfold is_u64; lia).
    apply (increasing_snoc e_seq _ (epochSeq s)); [apply Hs|simpl; lia].
  - rewrite A2. destruct (BumpsEpoch _); [apply u64_range|apply Hs].
  - intros k b Hb. rewrite A1 in Hb.
    apply (install_lookup _ _ _ _ _ _ (ready_raised _ m _ _ _ Hr)) in Hb as [[-> ->]|(_ & b0 & Hb & Hu & _)].
    + unfold raised, epoch_after. simpl. destruct (BumpsEpoch _); [apply u64_range|done].
    + rewrite Hu. by eapply (si_epoch s).
  - rewrite A5, A4, A6. apply queued_increasing; [apply Hs|lia|apply Hs].
  - rewrite A6. destruct (number_ids (now_of clk) (OutboxFor m sub old) (outboxSeq s)) as [_ ->]; pose proof (si_outboxSeq _ Hs); lia.
Qed.

Lemma mutated_epoch m s tx a :
  store_inv s -> mutated m s tx a -> 0 <= SecurityEpoch (user a).
Proof.
  intros Hs [_ H]. destruct (creates m); [destruct H as [-> _]; lia|].
  destruct H as (_ & a0 & H0 & _ & ->). by eapply si_epoch.
Qed.

(** Replacing an account by one with the same user and links changes nothing the invariant speaks of. *)
Lemma set_account_inv sub a a' s :
  store_inv s -> accounts s !! sub = Some a -> user a' = user a -> links a' = links a ->
  store_inv (set_account sub a' s).
Proof.
  intros Hs Ha Hu Hl. pose proof (si_accounts _ Hs) as Hm.
  assert (ready (accounts s) sub a' None) as Hr.
  { pose proof (ao_key _ Hm _ _ Ha) as [Hk _].
    eapply ready_edit; [done..|congruence|by rewrite Hl|]. intros id Hlv Ho. left.
    unfold live, owns in *. by rewrite Hu in *. }
  destruct Hs. split; simpl; try done.
  - by apply (install_ok _ _ _ None).
  - intros k b [[<- <-]|[_ Hb]]%lookup_insert_Some; [rewrite Hu|]; by eapply si_epoch0.
Qed.

Lemma accounts_ok_filter (P : Subject * account -> Prop) `{forall x, Decision (P x)} m :
  accounts_ok m -> accounts_ok (filter P m).
Proof.
  intros Hm. split; intros *; rewrite ?map_lookup_filter_Some; intros; destruct_and?.
  - by eapply ao_key.
  - by eapply (ao_owns m).
  - by eapply ao_links.
  - by eapply (ao_holder m).
Qed.

Lemma accounts_ok_delete m k : accounts_ok m -> accounts_ok (delete k m).
Proof.
  intros Hm. split; intros *; rewrite ?lookup_delete_Some; intros; destruct_and?.
  - by eapply ao_key.
  - by eapply (ao_owns m).
  - by eapply ao_links.
  - by eapply (ao_holder m).
Qed.

Lemma row_Some id s i r : row id s = Some (i, r) -> outbox s !! i = Some r /\ o_ID (item r) = id.
Proof.
  unfold row, row_index. set (i0 := bsearch_loop _ _ _ _).
  destruct (outbox s !! i0) as [r0|] eqn:E; simpl; [|done].
  destruct (Z.eqb_spec (o_ID (item r0)) id); simpl; [|done]. rewrite E. simpl. by intros [= <- <-].
Qed.

Lemma set_row_inv i r r' s :
  store_inv s -> outbox s !! i = Some r -> o_ID (item r') = o_ID (item r) -> store_inv (set_row i r' s).
Proof.
  intros Hs Hr E. destruct Hs. split; simpl; try done.
  by apply (increasing_insert (fun r => o_ID (item r)) _ _ i r' r).
Qed.

Lemma exec_inv_identity o s : store_inv s -> legal o s -> store_inv (exec o s).
Proof.
  intros Hs Hl. destruct o as [ctx clk range range' newID m|ctx t|ctx clk|ctx clk sub p|ctx sub|ctx clk id|ctx id next|ctx sub]; simpl in *.
  - destruct Hl as (Hc & Hc' & Hid & Hes & Hos & _).
    destruct (Apply _ _ _ _ _ _ _) as [s' [r|e]] eqn:E; simpl.
    + destruct (Apply_Ok _ _ _ _ _ _ _ _ _ (si_accounts _ Hs) Hc Hc' Hid E) as (_ & tx & a & old & Hmut & Hat).
      eapply applied_inv; try done; [apply Hmut|by eapply mutated_epoch].
    + apply Apply_Err in E as ->. done.
  - unfold EraseTenant. destruct ctx; [done|]. destruct Hs. split; simpl; try done.
    + by apply accounts_ok_filter.
    + by apply increasing_filter.
    + intros k a [Ha _]%map_lookup_filter_Some. by eapply si_epoch0.
    + by apply increasing_filter.
  - unfold ReapExpired. destruct ctx; [done|]. destruct Hs. split; simpl; try done; by apply increasing_filter.
  - unfold RecordPasswordFailure. destruct ctx; [done|]. destruct (checkPolicy p); [done|]. unfold existing.
    destruct (accounts s !! sub) as [a|] eqn:Ea; [|done]. destruct (passwd a) as [pw|]; [|done].
    destruct (charge _ _ _). by eapply set_account_inv.
  - unfold ResetPasswordFailures. destruct ctx; [done|]. unfold existing.
    destruct (accounts s !! sub) as [a|] eqn:Ea; [|done]. destruct (passwd a) as [pw|]; [|done].
    by eapply set_account_inv.
  - unfold AckOutbox. destruct ctx; [done|]. destruct (row id s) as [[i r]|] eqn:Er; [|done].
    apply row_Some in Er as [Hr _]. destruct (time_IsZero _); [|done]. by eapply set_row_inv.
  - unfold FailOutbox. destruct ctx; [done|]. destruct (row id s) as [[i r]|] eqn:Er; [|done].
    apply row_Some in Er as [Hr _]. destruct (negb _); [done|]. by eapply set_row_inv.
  - unfold EraseUser. destruct ctx; [done|]. unfold existing.
    destruct (accounts s !! sub) as [a|] eqn:Ea; [|done]. destruct (time_IsZero _); [done|].
    destruct (existsb _ _); [done|]. destruct Hs. split; simpl; try done.
    + by apply accounts_ok_delete.
    + intros k b [_ Hb]%lookup_delete_Some. by eapply si_epoch0.
Qed.

Lemma new_store_inv : store_inv NewWithClock.
Proof.
  split; simpl; try done; apply increasing_nil.
Qed.

Lemma run_inv_identity s os s' : store_inv s -> run s os s' -> store_inv s'.
Proof. intros Hs Hr. induction Hr; [done|]. by apply IHHr, exec_inv_identity. Qed.

Lemma reachable_inv_identity s : reachable s -> store_inv s.
Proof. intros [os Hr]. eapply run_inv_identity; [apply new_store_inv|done]. Qed.

(** ** Epochs along a run *)

Definition erases (o : op) : bool :=
  match o with OpEraseTenant _ _ | OpEraseUser _ _ => true | _ => false end.

Definition reaps (o : op) : bool := match o with OpReap _ _ => true | _ => false end.

(** What an operation that neither erases nor reaps does to accounts and the epoch log: the log is
    extended, no account is lost, and an account's epoch moves only upwards, to the epoch of the last
    entry the extension has for it. *)
Record evolves (s s' : Store) (new : list epochRow) : Prop := {
  ev_epochs : epochs s' = epochs s ++ new;
  ev_seq : epochSeq s' = epochSeq s + Z.of_nat (length new);
  ev_new i e : new !! i = Some e -> e_seq e = epochSeq s + Z.of_nat i + 1;
  ev_keep k a : accounts s !! k = Some a -> exists a', accounts s' !! k = Some a' /\
    SecurityEpoch (user a) <= SecurityEpoch (user a') /\
    (SecurityEpoch (user a') <> SecurityEpoch (user a) ->
       exists e, e ∈ new /\ ec_Subject (change e) = k /\ NewEpoch (change e) = SecurityEpoch (user a')) }.

Lemma identity_evolves_refl s : evolves s s [].
Proof.
  split; [by rewrite app_nil_r|simpl; lia|done|].
  intros k a Ha. exists a. split; [done|]. split; [lia|done].
Qed.

Lemma identity_evolves_trans s1 s2 s3 n1 n2 : evolves s1 s2 n1 -> evolves s2 s3 n2 -> evolves s1 s3 (n1 ++ n2).
Proof.
  intros [E1 Q1 N1 K1] [E2 Q2 N2 K2]. split; [by rewrite E2, E1, app_assoc|rewrite length_app; lia| |].
  { intros i e [He|[Hi He]]%lookup_app_Some; [by apply N1|]. specialize (N2 _ e He). lia. }
  intros k a Ha. destruct (K1 k a Ha) as (a1 & Ha1 & L1 & C1). destruct (K2 k a1 Ha1) as (a2 & Ha2 & L2 & C2).
  exists a2. split; [done|]. split; [lia|]. intros Hne.
  destruct (decide (SecurityEpoch (user a2) = SecurityEpoch (user a1))) as [E|Hne2].
  - destruct C1 as (e & He & H1 & H2); [lia|]. exists e. rewrite elem_of_app. split; [by left|]. split; [done|congruence].
  - destruct (C2 Hne2) as (e & He & H1 & H2). exists e. rewrite elem_of_app. auto.
Qed.

Lemma applied_evolves m clk s s' r tx a old :
  store_inv s -> mutated m s tx a -> applied_to m clk s s' r (subject tx) a (evicted tx) old ->
  (forall k b, accounts s !! k = Some b -> SecurityEpoch (user b) < two64 - 1) -> epochSeq s < two64 - 1 ->
  evolves s s' (epoch_rows m (subject tx) a (now_of clk) s).
Proof.
  intros Hs Hmut Hat Hroom Hes. pose proof (mutated_epoch _ _ _ _ Hs Hmut) as Hpos.
  pose proof (si_epochSeq _ Hs) as Hsq. assert (u64 (epochSeq s + 1) = epochSeq s + 1) as Eu
    by (apply u64_small; unfold is_u64; lia).
  destruct Hat as [A1 A2 A3 _ _ _ _]. destruct Hmut as [Hr Hm]. split; [done|..].
  { rewrite A2. unfold epoch_rows. destruct (BumpsEpoch _); simpl; lia. }
  { unfold epoch_rows. destruct (BumpsEpoch _); [|done]. intros [|i] e; [|done]. intros [= <-]. simpl. lia. }
  intros k b Hb. rewrite A1. apply (ready_raised _ m) in Hr.
  assert (is_Some (install (accounts s) (subject tx) (raised m a) (evicted tx) !! k)) as [b' Hb'].
  { unfold install. destruct (evicted tx); rewrite ?lookup_insert_is_Some'; eauto. }
  exists b'. split; [done|].
  apply (install_lookup _ _ _ _ _ _ Hr) in Hb' as [[-> ->]|(_ & b0 & Hb0 & Hu & _)].
  - assert (creates m = false) as Ec.
    { destruct (creates m); [|done]. destruct Hm as [_ Hm]. congruence. }
    rewrite Ec in Hm. destruct Hm as (Hsub & a0 & H0 & _ & He). rewrite Hsub in Hb.
    assert (a0 = b) as -> by congruence. specialize (Hroom _ _ Hb). unfold epoch_rows, raised, epoch_after. simpl.
    destruct (BumpsEpoch _).
    + rewrite u64_small by (unfold is_u64; lia). split; [lia|]. intros _. eexists.
      split; [by apply list_elem_of_singleton|]. simpl. done.
    + split; [lia|]. congruence.
  - assert (b0 = b) as -> by congruence. rewrite Hu. split; [lia|done].
Qed.

Lemma set_account_evolves sub a a' s :
  accounts s !! sub = Some a -> user a' = user a -> evolves s (set_account sub a' s) [].
Proof.
  intros Ha Hu. split; simpl; [by rewrite app_nil_r|lia|done|]. intros k b Hb.
  destruct (decide (k = sub)) as [->|Hne].
  - exists a'. rewrite lookup_insert_eq. assert (a = b) as -> by congruence. rewrite Hu. split; [done|]. split; [lia|done].
  - exists b. rewrite lookup_insert_ne by done. split; [done|]. split; [lia|done].
Qed.

Lemma set_row_evolves i r s : evolves s (set_row i r s) [].
Proof.
  split; simpl; [by rewrite app_nil_r|lia|done|].
  intros k a Ha. exists a. split; [done|]. split; [lia|done].
Qed.

Lemma exec_evolves o s :
  store_inv s -> legal o s -> erases o = false -> reaps o = false -> exists new, evolves s (exec o s) new.
Proof.
  intros Hs Hl He Hp. destruct o as [ctx clk range range' newID m|ctx t|ctx clk|ctx clk sub p|ctx sub|ctx clk id|ctx id next|ctx sub]; simpl in *; try done.
  - destruct Hl as (Hc & Hc' & Hid & Hes & _ & Hroom).
    destruct (Apply _ _ _ _ _ _ _) as [s' [r|e]] eqn:E; simpl.
    + destruct (Apply_Ok _ _ _ _ _ _ _ _ _ (si_accounts _ Hs) Hc Hc' Hid E) as (_ & tx & a & old & Hmut & Hat).
      eexists. by eapply applied_evolves.
    + apply Apply_Err in E as ->. eexists. apply identity_evolves_refl.
  - unfold RecordPasswordFailure. destruct ctx; [eexists; apply identity_evolves_refl|].
    destruct (checkPolicy p); [eexists; apply identity_evolves_refl|]. unfold existing.
    destruct (accounts s !! sub) as [a|] eqn:Ea; [|eexists; apply identity_evolves_refl].
    destruct (passwd a) as [pw|]; [|eexists; apply identity_evolves_refl].
    destruct (charge _ _ _). eexists. by eapply set_account_evolves.
  - unfold ResetPasswordFailures. destruct ctx; [eexists; apply identity_evolves_refl|]. unfold existing.
    destruct (accounts s !! sub) as [a|] eqn:Ea; [|eexists; apply identity_evolves_refl].
    destruct (passwd a) as [pw|]; [|eexists; apply identity_evolves_refl]. eexists. by eapply set_account_evolves.
  - unfold AckOutbox. destruct ctx; [eexists; apply identity_evolves_refl|].
    destruct (row id s) as [[i r]|]; [|eexists; apply identity_evolves_refl].
    destruct (time_IsZero _); eexists; [apply set_row_evolves|apply identity_evolves_refl].
  - unfold FailOutbox. destruct ctx; [eexists; apply identity_evolves_refl|].
    destruct (row id s) as [[i r]|]; [|eexists; apply identity_evolves_refl].
    destruct (negb _); eexists; [apply identity_evolves_refl|apply set_row_evolves].
Qed.

Lemma identity_run_evolves s os s' :
  store_inv s -> run s os s' -> Forall (fun o => erases o = false /\ reaps o = false) os ->
  exists new, evolves s s' new.
Proof.
  intros Hs Hr. induction Hr as [s|s o os s' Hl Hr IH]; intros Hf.
  - eexists. apply identity_evolves_refl.
  - apply Forall_cons in Hf as [[He Hp] Hf].
    destruct (exec_evolves o s Hs Hl He Hp) as [n1 H1].
    destruct (IH (exec_inv_identity _ _ Hs Hl) Hf) as [n2 H2]. eexists. by eapply identity_evolves_trans.
Qed.

(** ** The outbox along a run *)

(** A queued effect whose component has not acknowledged it. *)
Definition still_pending (o : OutboxItem) (s : Store) : Prop :=
  exists r, r ∈ outbox s /\ o_ID (item r) = o_ID o /\ Component (item r) = Component o /\
    o_Subject (item r) = o_Subject o /\ done_at r = 0.

Definition acknowledges (id : Z) (o : op) : Prop :=
  match o with OpAck _ _ id' => id' = id | _ => False end.

#[export] Instance acknowledges_dec id o : Decision (acknowledges id o).
Proof. destruct o; simpl; apply _. Defined.

Definition erases_tenant (t : TenantID) (o : op) : Prop :=
  match o with OpEraseTenant _ t' => t' = t | _ => False end.

Lemma pending_set_row o s i r r' :
  still_pending o s -> outbox s !! i = Some r ->
  (o_ID (item r) <> o_ID o \/
   (o_ID (item r') = o_ID (item r) /\ Component (item r') = Component (item r) /\
    o_Subject (item r') = o_Subject (item r) /\ done_at r' = done_at r)) ->
  still_pending o (set_row i r' s).
Proof.
  intros (q & [j Hj]%list_elem_of_lookup & E1 & E2 & E3 & E4) Hr Hk. destruct (decide (j = i)) as [->|Hne].
  - assert (q = r) as -> by congruence. destruct Hk as [?|(K1 & K2 & K3 & K4)]; [done|].
    exists r'. simpl. split; [|split_and!; congruence].
    apply (list_elem_of_lookup_2 _ i). apply list_lookup_insert_eq. by eapply lookup_lt_Some.
  - exists q. simpl. split; [|done]. apply (list_elem_of_lookup_2 _ j).
    by rewrite list_lookup_insert_ne.
Qed.

Lemma pending_outbox o s s' :
  still_pending o s -> (forall r, r ∈ outbox s -> done_at r = 0 -> o_Subject (item r) = o_Subject o -> r ∈ outbox s') ->
  still_pending o s'.
Proof. intros (r & Hr & E1 & E2 & E3 & E4) Hk. exists r. split; [by apply Hk|done]. Qed.

Lemma pending_exec o x s :
  store_inv s -> legal x s -> still_pending o s ->
  ~ acknowledges (o_ID o) x -> ~ erases_tenant (Tenant (o_Subject o)) x -> still_pending o (exec x s).
Proof.
  intros Hs Hl Hp Hack Her. destruct x as [ctx clk range range' newID m|ctx t|ctx clk|ctx clk sub p|ctx sub|ctx clk id|ctx id next|ctx sub]; simpl in *.
  - destruct Hl as (Hc & Hc' & Hid & _ & _ & Hroom).
    destruct (Apply _ _ _ _ _ _ _) as [s' [r|e]] eqn:E; simpl.
    + destruct (Apply_Ok _ _ _ _ _ _ _ _ _ (si_accounts _ Hs) Hc Hc' Hid E) as (_ & tx & a & old & _ & Hat).
      eapply pending_outbox; [done|]. intros q Hq _ _. rewrite (at_outbox _ _ _ _ _ _ _ _ _ Hat).
      apply elem_of_app. by left.
    + apply Apply_Err in E as ->. done.
  - unfold EraseTenant. destruct ctx; [done|]. eapply pending_outbox; [done|]. simpl. intros q Hq _ Hsub.
    apply list_elem_of_filter. split; [|done]. intros Ht. apply Her. congruence.
  - unfold ReapExpired. destruct ctx; [done|]. eapply pending_outbox; [done|]. simpl. intros q Hq Hd _.
    apply list_elem_of_filter. split; [|done]. unfold time_IsZero. by rewrite Hd.
  - unfold RecordPasswordFailure. destruct ctx; [done|]. destruct (checkPolicy p); [done|].
    destruct (existing sub s) as [a|]; [|done]. destruct (passwd a) as [pw|]; [|done].
    by destruct (charge _ _ _).
  - unfold ResetPasswordFailures. destruct ctx; [done|].
    destruct (existing sub s) as [a|]; [|done]. by destruct (passwd a) as [pw|].
  - unfold AckOutbox. destruct ctx as [|]; [done|]. destruct (row id s) as [[i r]|] eqn:Er; [|done].
    apply row_Some in Er as [Hr Hid]. destruct (time_IsZero _); [|done]. eapply pending_set_row; [done..|].
    left. intros E. apply Hack. congruence.
  - unfold FailOutbox. destruct ctx; [done|]. destruct (row id s) as [[i r]|] eqn:Er; [|done].
    apply row_Some in Er as [Hr _]. destruct (negb _); [done|]. eapply pending_set_row; [done..|]. by right.
  - unfold EraseUser. destruct ctx; [done|]. destruct (existing sub s) as [a|]; [|done].
    destruct (time_IsZero _); [done|]. by destruct (existsb _ _).
Qed.

Lemma pending_run o s os s' :
  store_inv s -> run s os s' -> still_pending o s ->
  (forall x, x ∈ os -> ~ erases_tenant (Tenant (o_Subject o)) x) ->
  (exists x, x ∈ os /\ acknowledges (o_ID o) x) \/ still_pending o s'.
Proof.
  intros Hs Hr. induction Hr as [s|s x os s' Hl Hr IH]; intros Hp Hne; [by right|].
  destruct (decide (acknowledges (o_ID o) x)) as [Ha|Ha].
  - left. exists x. split; [by left|done].
  - destruct IH as [(y & Hy & Hk)|Hs'].
    + by apply exec_inv_identity.
    + apply pending_exec; [done..|]. apply Hne. by left.
    + intros y Hy. apply Hne. by right.
    + left. exists y. split; [by right|done].
    + by right.
Qed.

(** ** Searching the outbox *)

(** In a log whose ids increase, the binary search finds exactly what a scan would. *)
Lemma row_spec id s i r :
  store_inv s -> row id s = Some (i, r) <-> outbox s !! i = Some r /\ o_ID (item r) = id.
Proof.
  intros Hs. split; [apply row_Some|]. intros [Hr Hid].
  assert (bsearch_loop (length (outbox s))
    (fun h => match outbox s !! h with Some r => o_ID (item r) <? id | None => false end) 0
    (length (outbox s)) = i) as Ei.
  { pose proof (lookup_lt_Some _ _ _ Hr). apply (bsearch_loop_spec _ _ _ _ i); [lia..|].
    intros h Hh. destruct (lookup_lt_is_Some_2 (outbox s) h) as [q Hq]; [lia|]. rewrite Hq.
    rewrite Z.ltb_lt, <- Hid.
    pose proof (fun j1 j2 q1 q2 => increasing_lt (fun r => o_ID (item r)) _ _ j1 j2 q1 q2 (si_outbox _ Hs)) as Hlt.
    split.
    - intros Hlt'. destruct (decide (h < i)%nat) as [|Hge]; [done|].
      destruct (decide (h = i)) as [->|]; [assert (q = r) as -> by congruence; lia|].
      pose proof (Hlt i h r q Hr Hq ltac:(lia)). simpl in *. lia.
    - intros Hhi. by apply (Hlt h i q r). }
  unfold row, row_index. rewrite Ei, Hr. simpl. rewrite Hid, Z.eqb_refl. simpl. by rewrite Hr.
Qed.
