(* ===== verification/IdentityProperties.v ===== *)
(** What the account store guarantees: identifiers stay unique, every security change is published
    with it, deletions wait for every component, and credentials set before verification are gone
    after it. *)
From S2P Require Import Prelude Errors Tenant StoreBase IdentityRecord IdentityStore IdentityFacts.
Import Identity IdentityMemory.

(** ** Values for the witnesses *)
Definition id_tenant : TenantID := mkTenantID "acme".

Definition mail (v : string) : Identifier := mkIdentifier IdentifierEmail v.

Definition ctx_ok : nat -> option error := fun _ => None.

Definition id_ada : Subject := mkSubject id_tenant 7.

Definition id_t0 : time := 1000000 * Second.

Definition op_create (id : uuid) (range : list Subject) (email : string) : op :=
  OpApply ctx_ok id_t0 range range (Ok id)
    (CreateVerified id_tenant (mail email) (Some "phc") false
       (mkFederatedIdentity "google" email "static" zero_Identifier false)).

Definition id_store1 : Store := exec (op_create 7 [] "ada@acme.test") NewWithClock.

Definition id_store2 : Store := exec (op_create 8 [id_ada] "bob@acme.test") id_store1.

Lemma id_store1_run : run NewWithClock [op_create 7 [] "ada@acme.test"] id_store1.
Proof.
  apply run_cons; [|apply run_nil]. split; [vm_compute; reflexivity|]. split; [vm_compute; reflexivity|].
  split; [done|]. split; [vm_compute; reflexivity|]. split; [vm_compute; reflexivity|].
  intros k a Ha. simpl in Ha. by rewrite lookup_empty in Ha.
Qed.

(** Evaluating what the store holds. *)
Definition epochs_small (s : Store) : bool :=
  forallb (fun ka => SecurityEpoch (user ka.2) <? two64 - 1) (map_to_list (accounts s)).

Lemma epochs_small_ok s : epochs_small s = true ->
  forall k a, accounts s !! k = Some a -> SecurityEpoch (user a) < two64 - 1.
Proof.
  intros Hf k a Ha%elem_of_map_to_list%list_elem_of_In. unfold epochs_small in Hf.
  rewrite forallb_forall in Hf. specialize (Hf _ Ha). simpl in Hf. lia.
Qed.

Lemma id_store2_run : run id_store1 [op_create 8 [id_ada] "bob@acme.test"] id_store2.
Proof.
  apply run_cons; [|apply run_nil]. split; [vm_compute; reflexivity|]. split; [vm_compute; reflexivity|].
  split; [split; [done|vm_compute; reflexivity]|]. split; [vm_compute; reflexivity|].
  split; [vm_compute; reflexivity|]. apply epochs_small_ok. vm_compute. reflexivity.
Qed.

Lemma identity_run_app s1 os s2 os' s3 : run s1 os s2 -> run s2 os' s3 -> run s1 (os ++ os') s3.
Proof. intros H1 H2. induction H1; simpl; [done|]. constructor; auto. Qed.

Lemma id_store1_reachable : reachable id_store1.
Proof. eexists. exact id_store1_run. Qed.

Lemma id_store2_reachable : reachable id_store2.
Proof. eexists. eapply identity_run_app; [exact id_store1_run|exact id_store2_run]. Qed.

(** ** Lookups do not depend on the order of visits *)

Lemma owner_order s range range' t id :
  accounts_ok (accounts s) -> covers range s -> covers range' s ->
  owner range t id uuid_Nil s = owner range' t id uuid_Nil s.
Proof.
  intros Hm Hc Hc'.
  assert (forall r1 r2 a, covers r2 s -> owner r1 t id uuid_Nil s = Some a ->
    owner r2 t id uuid_Nil s = Some a) as Hle.
  { intros r1 r2 a H2 (k & Ha & Ht & Hn & Hl & Ho)%owner_Some.
    destruct (owner r2 t id uuid_Nil s) as [b|] eqn:E.
    - apply owner_Some in E as (k' & Hb & Ht' & _ & Hl' & Ho').
      assert (k = k') as <- by (apply (ao_owns _ Hm k a k' b id); congruence). congruence.
    - pose proof (owner_None r2 s t id uuid_Nil k a H2 E Ha Ht Hn Hl). congruence. }
  destruct (owner range t id uuid_Nil s) as [a|] eqn:E; [symmetry; by eapply Hle|].
  destruct (owner range' t id uuid_Nil s) as [a|] eqn:E'; [|done].
  pose proof (Hle _ _ _ Hc E'). congruence.
Qed.

Lemma linkOwner_order s range range' t p q :
  accounts_ok (accounts s) -> covers range s -> covers range' s ->
  linkOwner range t p q s = linkOwner range' t p q s.
Proof.
  intros Hm Hc Hc'.
  assert (forall r1 r2 a, covers r2 s -> linkOwner r1 t p q s = Some a ->
    linkOwner r2 t p q s = Some a) as Hle.
  { intros r1 r2 a H2 (k & l & Ha & Ht & Hl & Hk)%linkOwner_Some.
    destruct (linkOwner r2 t p q s) as [b|] eqn:E.
    - apply linkOwner_Some in E as (k' & l' & Hb & Ht' & Hl' & Hk').
      assert (k = k') as <- by (apply (ao_holder _ Hm k a k' b l l'); congruence). congruence.
    - by destruct (linkOwner_None r2 s t p q k a l H2 E Ha Ht Hl). }
  destruct (linkOwner range t p q s) as [a|] eqn:E; [symmetry; by eapply Hle|].
  destruct (linkOwner range' t p q s) as [a|] eqn:E'; [|done].
  pose proof (Hle _ _ _ Hc E'). congruence.
Qed.

(** ** Properties *)

(** C38: In every reachable store an email or a phone names at most one live account of a tenant, a
    provider account is linked to at most one account, live or deleted, and at most once; so a lookup
    by identifier or by provider account does not depend on the order in which Go visits the
    accounts. *)
Theorem identifiers_are_unique s :
  reachable s ->
  (forall k1 a1 k2 a2 id, accounts s !! k1 = Some a1 -> accounts s !! k2 = Some a2 ->
     Tenant k1 = Tenant k2 -> live a1 -> live a2 -> owns id a1 = true -> owns id a2 = true -> k1 = k2) /\
  (forall k1 a1 k2 a2 i j l1 l2, accounts s !! k1 = Some a1 -> accounts s !! k2 = Some a2 ->
     Tenant k1 = Tenant k2 -> links a1 !! i = Some l1 -> links a2 !! j = Some l2 -> lkey l1 = lkey l2 ->
     k1 = k2 /\ i = j) /\
  (forall range range' t id, covers range s -> covers range' s ->
     FindUser None range t id s = FindUser None range' t id s) /\
  (forall range range' k, covers range s -> covers range' s ->
     FindFederated None range k s = FindFederated None range' k s).
Proof.
  intros Hs%reachable_inv_identity. pose proof (si_accounts _ Hs) as Hm. split; [apply Hm|]. split; [|split].
  - intros k1 a1 k2 a2 i j l1 l2 H1 H2 Ht I1 I2 E.
    assert (k1 = k2) as <-.
    { apply (ao_holder _ Hm k1 a1 k2 a2 l1 l2); try done; by eapply list_elem_of_lookup_2. }
    split; [done|]. assert (a1 = a2) as <- by congruence.
    apply (NoDup_lookup (lkey <$> links a1) i j (lkey l1) (ao_links _ Hm _ _ H1)); rewrite list_lookup_fmap.
    + by rewrite I1.
    + by rewrite I2, E.
  - intros range range' t id Hc Hc'. unfold FindUser. by rewrite (owner_order s range range' t id Hm Hc Hc').
  - intros range range' k Hc Hc'. unfold FindFederated.
    by rewrite (linkOwner_order s range range' _ _ _ Hm Hc Hc').
Qed.

Lemma identifiers_are_unique_witness :
  okb (FindUser None [id_ada; mkSubject id_tenant 8] id_tenant (mail "bob@acme.test") id_store2) = true /\
  FindUser None [id_ada; mkSubject id_tenant 8] id_tenant (mail "bob@acme.test") id_store2
  = FindUser None [mkSubject id_tenant 8; id_ada] id_tenant (mail "bob@acme.test") id_store2.
Proof.
  split; [vm_compute; reflexivity|].
  destruct (identifiers_are_unique id_store2 id_store2_reachable) as (_ & _ & Hfind & _).
  assert ((map_to_list (accounts id_store2)).*1 = [id_ada; mkSubject id_tenant 8] \/
          (map_to_list (accounts id_store2)).*1 = [mkSubject id_tenant 8; id_ada]) as [E|E]
    by (vm_compute; auto); apply Hfind; unfold covers; rewrite E;
    solve [apply Permutation_refl|apply perm_swap].
Defined.

(** ** Publication *)

Lemma number_fields now items : forall seq,
  map Component (number seq now items) = map Component items /\
  (forall P : Subject -> Z -> Prop, Forall (fun o => P (o_Subject o) (o_Event o)) items ->
     Forall (fun o => P (o_Subject o) (o_Event o) /\ NextAttemptAt o = now) (number seq now items)).
Proof.
  induction items as [|o items IH]; intros seq; simpl; [done|].
  destruct (IH (int64 (seq + 1))) as [E Hf]. rewrite E. split; [done|].
  intros P [Ho Hr]%Forall_cons. apply Forall_cons. split; [done|]. by apply Hf.
Qed.

Lemma OutboxFor_fields m sub old :
  map Component (OutboxFor m sub old) = (if Event (EffectsOf m) =? 0 then [] else Components) /\
  Forall (fun o => o_Subject o = sub /\ o_Event o = Event (EffectsOf m)) (OutboxFor m sub old).
Proof.
  unfold OutboxFor. destruct (_ =? 0); [done|]. rewrite map_map. split.
  - rewrite <- (map_id Components) at 2. apply map_ext. intros c. by destruct m.
  - apply Forall_forall. intros o (c & -> & _)%list_elem_of_fmap. by destruct m.
Qed.

(** The outbox rows of a successful mutation. *)
Lemma applied_outbox m clk s s' r sub a ev old :
  applied_to m clk s s' r sub a ev old ->
  outbox s' = outbox s ++ queued (Outbox r) /\
  map Component (Outbox r) = (if Event (EffectsOf m) =? 0 then [] else Components) /\
  Forall (fun o => (o_Subject o = sub /\ o_Event o = Event (EffectsOf m)) /\ NextAttemptAt o = now_of clk)
    (Outbox r).
Proof.
  intros [A1 A2 A3 A4 A5 A6 _].
  destruct (OutboxFor_fields m sub old) as [Hcomp Hall].
  destruct (number_fields (now_of clk) (OutboxFor m sub old) (outboxSeq s)) as [Hn1 Hn2].
  split; [done|]. rewrite A4. split; [by rewrite Hn1|].
  apply (Hn2 (fun x y => x = sub /\ y = Event (EffectsOf m)) Hall).
Qed.

(** C34: A successful mutation is applied with its consequences or not at all.  No other account
    appears, disappears or changes, but for at most one: a deleted account of the tenant that held the provider account
    the mutation links, which loses that very link; the subject's epoch is raised by exactly one for a security mutation
    and kept otherwise, a new account starting at zero; one epoch entry, with the new epoch, is
    appended for a security mutation and none otherwise; and one outbox row per component is queued,
    due at once, for a mutation with an event, none otherwise.  A failed one, at whichever point its
    context ends or its guard refuses, leaves the store as it was. *)
Theorem security_change_is_published ctx clk range range' newID m s s' :
  reachable s -> legal (OpApply ctx clk range range' newID m) s ->
  (forall e, Apply ctx clk range range' newID m s = (s', Err e) -> s' = s) /\
  (forall r, Apply ctx clk range range' newID m s = (s', Ok r) ->
    let sub := ap_Subject r in let fx := EffectsOf m in
    (exists lost : option Subject, forall k, k <> sub ->
       match lost with
       | Some j => if decide (j = k) then exists o', accounts s' !! k = Some o' /\ loses m (Tenant sub) s k o'
                   else accounts s' !! k = accounts s !! k
       | None => accounts s' !! k = accounts s !! k
       end) /\
    (exists a', accounts s' !! sub = Some a' /\ SecurityEpoch (user a') = ap_NewEpoch r) /\
    match accounts s !! sub with
    | Some a => live a /\ ap_NewEpoch r = SecurityEpoch (user a) + (if BumpsEpoch fx then 1 else 0)
    | None => creates m = true /\ ap_NewEpoch r = 0
    end /\
    (exists new, epochs s' = epochs s ++ new /\
       map change new = if BumpsEpoch fx then [mkEpochChange sub (ap_NewEpoch r) (Event fx)] else []) /\
    outbox s' = outbox s ++ queued (Outbox r) /\
    map Component (Outbox r) = (if Event fx =? 0 then [] else Components) /\
    Forall (fun o => (o_Subject o = sub /\ o_Event o = Event fx) /\ NextAttemptAt o = now_of clk) (Outbox r)).
Proof.
  intros Hs%reachable_inv_identity (Hc & Hc' & Hid & _ & _ & Hroom). split; [intros e; apply Apply_Err|].
  intros r E. destruct (Apply_Ok_tx _ _ _ _ _ _ _ _ _ (si_accounts _ Hs) Hc Hc' Hid E) as (_ & tx & a & old & Hmut & Hat & Hev).
  pose proof (mutated_epoch _ _ _ _ Hs Hmut) as Hpos. destruct Hmut as [Hr Hm].
  pose proof (applied_outbox _ _ _ _ _ _ _ _ _ Hat) as Hout.
  destruct Hat as [A1 A2 A3 A4 A5 A6 [A7 A8]]. simpl. rewrite A7, A8, A1.
  pose proof (ready_raised _ m _ _ _ Hr) as Hr'.
  split; [|split; [|split; [|split; [|exact Hout]]]].
  - unfold install. destruct (evicted tx) as [o'|].
    + destruct (Hev o' eq_refl) as (k & f & o & l & Hf & Ho & Hx). exists (Some k). intros k' Hne.
      assert (u_Subject (user o') = k) as Ek.
      { destruct Hx as (_ & _ & _ & _ & ->). apply (ao_key _ (si_accounts _ Hs) k o Ho). }
      rewrite Ek. case_decide as E'; [subst k'|by rewrite !lookup_insert_ne by congruence].
      exists o'. rewrite lookup_insert_eq. split; [done|]. by exists f, o, l.
    + exists None. intros k Hne. by rewrite lookup_insert_ne.
  - exists (raised m a). split; [|done]. unfold install. destruct (evicted tx) as [o|] eqn:Ev; [|apply lookup_insert_eq].
    rewrite lookup_insert_ne; [apply lookup_insert_eq|]. by apply (rd_evicted _ _ _ _ Hr).
  - destruct (creates m) eqn:Ec.
    + destruct Hm as [He ->]. split; [done|]. unfold epoch_after. by destruct m.
    + destruct Hm as (Hsub & a0 & H0 & Hl & He). rewrite Hsub, H0. split; [done|].
      specialize (Hroom _ _ H0). unfold epoch_after. rewrite He. destruct (BumpsEpoch _); [|lia].
      apply u64_small. unfold is_u64. lia.
  - exists (epoch_rows m (subject tx) a (now_of clk) s). split; [done|]. unfold epoch_rows.
    by destruct (BumpsEpoch _).
Qed.

Definition op_reset_password (range : list Subject) : op :=
  OpApply ctx_ok (id_t0 + Second) range range (Err ContextErr)
    (SetPassword id_ada (Some "new") RotationPasswordReset uuid_Nil).

Lemma reset_legal : legal (op_reset_password [id_ada]) id_store1.
Proof.
  split; [vm_compute; reflexivity|]. split; [vm_compute; reflexivity|]. split; [done|].
  split; [vm_compute; reflexivity|]. split; [vm_compute; reflexivity|].
  apply epochs_small_ok. vm_compute. reflexivity.
Qed.

Lemma security_change_is_published_witness :
  exists s' r, Apply ctx_ok (id_t0 + Second) [id_ada] [id_ada] (Err ContextErr)
      (SetPassword id_ada (Some "new") RotationPasswordReset uuid_Nil) id_store1 = (s', Ok r) /\
    map Component (Outbox r) = Components.
Proof.
  destruct (okb_pair (Apply ctx_ok (id_t0 + Second) [id_ada] [id_ada] (Err ContextErr)
      (SetPassword id_ada (Some "new") RotationPasswordReset uuid_Nil) id_store1)) as (s' & r & E);
    [vm_compute; reflexivity|].
  exists s', r. split; [exact E|].
  destruct (security_change_is_published _ _ _ _ _ _ _ s' id_store1_reachable reset_legal) as [_ Hok].
  destruct (Hok r E) as (_ & _ & _ & _ & _ & Hc & _). exact Hc.
Defined.

(** ** Polling the epochs *)

Lemma epoch_page_spec rows c : forall out last,
  (Z.of_nat (length out) <= feedPage) ->
  let new := take (Z.to_nat feedPage - length out) (filter (fun r => Position c < e_seq r) rows) in
  epoch_page rows c out last
  = (out ++ map change new, match list.last new with Some r => e_seq r | None => last end).
Proof.
  induction rows as [|r rows IH]; intros out last Hout; cbn [epoch_page].
  - rewrite filter_nil, take_nil. simpl. by rewrite app_nil_r.
  - rewrite filter_cons. destruct (Z.leb_spec (e_seq r) (Position c)) as [Hle|Hgt].
    + rewrite decide_False by lia. by apply IH.
    + rewrite decide_True by lia. destruct (Z.eqb_spec (Z.of_nat (length out)) feedPage) as [E|Hne].
      * replace (Z.to_nat feedPage - length out)%nat with 0%nat by lia. simpl. by rewrite app_nil_r.
      * rewrite IH by (rewrite length_app; simpl; lia). rewrite length_app. simpl length.
        replace (Z.to_nat feedPage - length out)%nat with (S (Z.to_nat feedPage - (length out + 1))) by lia.
        rewrite firstn_cons, map_cons, <- app_assoc. simpl app. rewrite last_cons. by destruct (list.last _).
Qed.

(** The cursor of a poller that has read the first [i] of the entries appended after [s]. *)
Definition position_after (s : Store) (new : list epochRow) (i : nat) : Cursor :=
  RestoreCursor (match list.last (take i new) with Some r => e_seq r | None => epochSeq s end).

Lemma filter_above (p : Z) (l1 l2 : list epochRow) :
  Forall (fun r => e_seq r <= p) l1 -> Forall (fun r => p < e_seq r) l2 ->
  filter (fun r => p < e_seq r) (l1 ++ l2) = l2.
Proof.
  intros H1 H2. rewrite filter_app. induction H1 as [|r l1 Hr _ IH]; [simpl|by rewrite filter_cons_False by lia].
  apply list_filter_all. by apply Forall_forall.
Qed.

Lemma poll_position s s' new i :
  store_inv s -> store_inv s' -> evolves s s' new ->
  filter (fun r => Position (position_after s new i) < e_seq r) (epochs s') = drop i new.
Proof.
  intros Hs Hs' [E _ Hn _]. pose proof (si_epochs _ Hs') as Hi. rewrite E in Hi |- *.
  pose proof (si_epochs _ Hs) as [_ Htop].
  assert (Forall (fun r => e_seq r <= epochSeq s) (epochs s)) as Hold.
  { apply Forall_forall. intros r Hr. rewrite Forall_forall in Htop. by apply Htop, list_elem_of_fmap_2. }
  unfold position_after. simpl.
  destruct (list.last (take i new)) as [r|] eqn:El.
  - apply last_Some in El as [l Hl].
    assert (new = l ++ r :: drop i new) as Enew.
    { rewrite <- (take_drop i new) at 1. rewrite Hl. by rewrite <- app_assoc. }
    destruct Hi as [Hsort _]. rewrite Enew, app_assoc, map_app in Hsort.
    apply StronglySorted_app in Hsort as (Hlt & _ & [_ Hgt']%StronglySorted_inv).
    rewrite Enew at 1. rewrite cons_middle, !app_assoc. apply filter_above.
    + apply Forall_app. split; [|by constructor]. apply Forall_forall. intros x Hx.
      apply Z.lt_le_incl, Hlt; [by apply list_elem_of_fmap_2|by left].
    + apply Forall_forall. intros x Hx. rewrite Forall_forall in Hgt'.
      by apply Hgt', list_elem_of_fmap_2.
  - apply last_None in El.
    assert (drop i new = new) as ->.
    { destruct i as [|i]; [done|]. by destruct new. }
    apply filter_above; [done|]. apply Forall_forall. intros r [j Hj]%list_elem_of_lookup.
    rewrite (Hn j r Hj). lia.
Qed.

(** Epochs only grow, and a poller misses none of it.  Over any run of operations that erase and
    reap nothing, every account stays and its epoch does not go down; a poller whose cursor was at
    the end of the log gets exactly the entries appended since, oldest first, a thousand at a time,
    each page with the cursor of the next; and an account whose epoch has moved is among them with
    its present epoch. *)
Theorem epochs_grow_and_are_published s os s' :
  reachable s -> run s os s' -> Forall (fun o => erases o = false /\ reaps o = false) os ->
  exists new, epochs s' = epochs s ++ new /\
    (forall ctx k e, CurrentEpoch ctx k s = Ok e -> exists e', CurrentEpoch None k s' = Ok e' /\ e <= e' /\
       (e' <> e -> exists x, x ∈ map change new /\ ec_Subject x = k /\ NewEpoch x = e')) /\
    (forall i, EpochsChangedSince None (position_after s new i) s'
       = (map change (take (Z.to_nat feedPage) (drop i new)),
          position_after s new (i + Z.to_nat feedPage), None)).
Proof.
  intros Hs%reachable_inv_identity Hrun Hf. destruct (identity_run_evolves s os s' Hs Hrun Hf) as [new Hev].
  pose proof (run_inv_identity _ _ _ Hs Hrun) as Hs'. exists new. split; [apply Hev|]. split.
  - intros ctx k e. unfold CurrentEpoch, existing. destruct ctx; [done|].
    destruct (accounts s !! k) as [a|] eqn:Ea; [|done]. intros [= <-].
    destruct (ev_keep _ _ _ Hev k a Ea) as (a' & Ha' & Hle & Hch). rewrite Ha'. simpl.
    eexists. split; [done|]. split; [done|]. intros Hne. destruct (Hch Hne) as (x & Hx & H1 & H2).
    exists (change x). split; [by apply list_elem_of_fmap_2|done].
  - intros i. unfold EpochsChangedSince. rewrite epoch_page_spec by (simpl; done).
    rewrite (poll_position s s' new i Hs Hs' Hev). simpl length. rewrite Nat.sub_0_r. simpl app.
    do 2 f_equal. unfold position_after. f_equal. rewrite <- take_take_drop, last_app.
    by destruct (list.last (take _ (drop i new))).
Qed.

Lemma epochs_grow_and_are_published_witness :
  exists new, epochs (exec (op_reset_password [id_ada]) id_store1) = epochs id_store1 ++ new /\
    EpochsChangedSince None (position_after id_store1 new 0) (exec (op_reset_password [id_ada]) id_store1)
    = (map change (take (Z.to_nat feedPage) new), position_after id_store1 new (Z.to_nat feedPage), None).
Proof.
  destruct (epochs_grow_and_are_published id_store1 [op_reset_password [id_ada]]
    (exec (op_reset_password [id_ada]) id_store1)) as (new & E & _ & Hpoll).
  - exact id_store1_reachable.
  - apply run_cons; [exact reset_legal|apply run_nil].
  - repeat constructor.
  - exists new. split; [exact E|]. exact (Hpoll 0%nat).
Defined.

(** ** Deletion *)

(** A deleted account is removed only when every component has dealt with it.  After Tombstone, in
    whatever run of operations follows, short of an erasure of the whole tenant, EraseUser succeeds
    only if the outbox row of each of the other nine components was acknowledged in between. *)
Theorem erasure_waits_for_every_component ctx clk range range' newID sub s s1 r os s2 ctx' s3 :
  reachable s -> legal (OpApply ctx clk range range' newID (Tombstone sub)) s ->
  Apply ctx clk range range' newID (Tombstone sub) s = (s1, Ok r) ->
  run s1 os s2 -> Forall (fun o => ~ erases_tenant (Tenant sub) o) os ->
  EraseUser ctx' sub s2 = (s3, None) ->
  map Component (Outbox r) = Components /\
  forall o, o ∈ Outbox r -> Component o <> ComponentIdentity -> exists x, x ∈ os /\ acknowledges (o_ID o) x.
Proof.
  intros Hs%reachable_inv_identity Hl E Hrun Her Hx. pose proof (exec_inv_identity _ _ Hs Hl) as Hs1.
  simpl in Hs1. rewrite E in Hs1. destruct Hl as (Hc & Hc' & Hid & _).
  destruct (Apply_Ok _ _ _ _ _ _ _ _ _ (si_accounts _ Hs) Hc Hc' Hid E) as (_ & tx & a & old & [_ [Hsub _]] & Hat).
  simpl in Hsub. rewrite Hsub in Hat.
  destruct (applied_outbox _ _ _ _ _ _ _ _ _ Hat) as (Hout & Hcomp & Hall). split; [exact Hcomp|].
  intros o Ho Hne. rewrite Forall_forall in Hall. destruct (Hall o Ho) as [[Eo _] _].
  destruct (pending_run o s1 os s2 Hs1 Hrun) as [Hack|(q & Hq & E1 & E2 & E3 & E4)]; [|..|done|].
  - exists (mkOutboxRow o time_zero). split; [|done]. rewrite Hout. apply elem_of_app. right.
    by apply (list_elem_of_fmap_2 (fun o => mkOutboxRow o time_zero)).
  - rewrite Eo. rewrite Forall_forall in Her. exact Her.
  - exfalso. unfold EraseUser in Hx. destruct ctx'; [done|]. destruct (existing sub s2) as [b|]; [|done].
    destruct (time_IsZero _); [done|]. destruct (existsb _ _) eqn:Ex; [done|].
    apply not_true_iff_false in Ex. apply Ex, existsb_exists. exists q. split; [by apply list_elem_of_In|].
    rewrite E3, Eo, bool_decide_true by done. unfold time_IsZero. rewrite E4, E2. simpl.
    by destruct (Z.eqb_spec (Component o) ComponentIdentity).
Qed.

Definition op_tombstone : op :=
  OpApply ctx_ok id_t0 [id_ada] [id_ada] (Err ContextErr) (Tombstone id_ada).

Definition id_store_dead : Store := exec op_tombstone id_store1.

(** Acknowledging rows 1 to 9. *)
Definition acks : list op := map (OpAck None id_t0) (seqZ 1 9).

Definition id_store_acked : Store := fold_left (fun s o => exec o s) acks id_store_dead.

Lemma tombstone_legal : legal op_tombstone id_store1.
Proof.
  split; [vm_compute; reflexivity|]. split; [vm_compute; reflexivity|]. split; [done|].
  split; [vm_compute; reflexivity|]. split; [vm_compute; reflexivity|].
  apply epochs_small_ok. vm_compute. reflexivity.
Qed.

Lemma acks_run os s : Forall (fun o => match o with OpAck _ _ _ => True | _ => False end) os ->
  run s os (fold_left (fun s o => exec o s) os s).
Proof.
  intros Hf. revert s. induction Hf as [|o os Ho _ IH]; intros s; [constructor|].
  apply run_cons; [by destruct o|]. apply IH.
Qed.

Lemma erasure_waits_for_every_component_witness :
  exists r s3, EraseUser None id_ada id_store_acked = (s3, None) /\ map Component (Outbox r) = Components.
Proof.
  destruct (okb_pair (Apply ctx_ok id_t0 [id_ada] [id_ada] (Err ContextErr) (Tombstone id_ada) id_store1))
    as (s1 & r & E); [vm_compute; reflexivity|].
  destruct (EraseUser None id_ada id_store_acked) as [s3 e] eqn:Ex.
  assert (e = None) as Ee.
  { change e with (s3, e).2. rewrite <- Ex. vm_compute. reflexivity. }
  subst e. exists r, s3. split; [reflexivity|].
  assert (s1 = id_store_dead) as E1.
  { unfold id_store_dead, op_tombstone, exec. rewrite E. reflexivity. }
  apply (erasure_waits_for_every_component ctx_ok id_t0 [id_ada] [id_ada] (Err ContextErr) id_ada id_store1
    s1 r acks id_store_acked None s3 id_store1_reachable tombstone_legal E).
  - rewrite E1. apply acks_run. repeat constructor.
  - apply Forall_forall. intros o Ho. unfold acks in Ho. apply list_elem_of_fmap in Ho as (z & -> & _). exact (fun F => F).
  - exact Ex.
Defined.

(** C39: The store's binary search for an outbox row agrees with a scan of the whole outbox: in every
    reachable store no two rows have the same id, and the row of an id is found exactly when there is one. *)
Theorem outbox_search_is_exact s :
  reachable s ->
  NoDup ((fun r => o_ID (item r)) <$> outbox s) /\
  forall id, row id s = list_find (fun r => o_ID (item r) = id) (outbox s).
Proof.
  intros Hs%reachable_inv_identity. split.
  { destruct (si_outbox _ Hs) as [Hsort _]. clear - Hsort. change (map ?f ?l) with (f <$> l) in Hsort.
    induction Hsort as [|z l _ IH Hz]; constructor; [|done]. intros Hin. rewrite Forall_forall in Hz. specialize (Hz _ Hin). lia. }
  intros id. destruct (list_find _ _) as [[i r]|] eqn:E.
  - apply list_find_Some in E as (Hi & Hid & _). by apply row_spec.
  - destruct (row id s) as [[i r]|] eqn:Er; [|done]. apply row_spec in Er as [Hi Hid]; [|done].
    apply list_find_None in E. rewrite Forall_forall in E. destruct (E r); [|done].
    by eapply list_elem_of_lookup_2.
Qed.

Lemma outbox_search_is_exact_witness :
  reachable (exec (op_reset_password [id_ada]) id_store1) /\
  row 4 (exec (op_reset_password [id_ada]) id_store1)
  = list_find (fun r => o_ID (item r) = 4) (outbox (exec (op_reset_password [id_ada]) id_store1)).
Proof.
  assert (reachable (exec (op_reset_password [id_ada]) id_store1)) as Hr.
  { eexists. eapply identity_run_app; [exact id_store1_run|]. apply run_cons; [exact reset_legal|apply run_nil]. }
  split; [exact Hr|]. exact (proj2 (outbox_search_is_exact _ Hr) 4).
Defined.

(** ** Verification *)

(** A mutation of an existing account: what was loaded and what the switch made of it. *)
Lemma Apply_loaded ctx clk range range' newID m s s' r :
  creates m = false -> Apply ctx clk range range' newID m s = (s', Ok r) ->
  exists a0 tx tx1 old, accounts s !! subjectOf m = Some a0 /\ live a0 /\ acc tx = Some a0 /\
    subject tx = subjectOf m /\ now tx = now_of clk /\ evicted tx = None /\
    mutate_loaded range m a0 s tx = Ok (tx1, old) /\
    (forall a, acc tx1 = Some a -> quiet tx tx1 ->
       applied_to m clk s s' r (subject tx1) a (evicted tx1) old).
Proof.
  intros Hcr. unfold Apply. destruct (ctx 0%nat); [done|]. destruct (Validate m); [done|].
  destruct (reserved m); [done|]. destruct (Apply_tx _ _ _ _ _ _ _) as [[s1 r1]|] eqn:E; [|done].
  intros [= <- <-]. pose proof E as E'. unfold Apply_tx in E'.
  destruct (mutate _ _ _ _ _ _ _) as [[tx1 old]|] eqn:Em; [|done]. clear E'. pose proof Em as Em'.
  set (tx0 := mkTxn 1 _ _ _ _ _ _ _ _) in Em'.
  assert (mutate ctx range range' newID m s tx0
    = (tx ← load ctx (subjectOf m) s tx0; tx ← step ctx tx; a ← the_acc tx; mutate_loaded range m a s tx)) as Hd
    by (by destruct m).
  rewrite Hd in Em'. unfold load in Em'.
  destruct (step ctx tx0) as [t1|] eqn:E1; [|done]. apply step_Ok in E1 as (Q1 & A1 & V1 & S1). simpl in Em'.
  destruct (accounts s !! subjectOf m) as [a0|] eqn:E0; [|done].
  destruct (time_IsZero (DeletedAt (user a0))) eqn:Ed; [|done]. simpl in Em'.
  destruct (step ctx _) as [t3|] eqn:E3; [|done]. apply step_Ok in E3 as (Q3 & A3 & V3 & S3). simpl in *.
  unfold the_acc in Em'. rewrite A3 in Em'. simpl in Em'. bools.
  exists a0, t3, tx1, old. unfold quiet in *. simpl in *. split_and!; try done; try intuition congruence.
  intros a Ha Hq. eapply (Apply_tx_Ok _ _ _ _ _ _ _ _ _ tx1 old a); [exact Em|done| |exact E].
  unfold quiet. simpl. intuition congruence.
Qed.

(** The first proof of an email leaves nothing of what was set before it.  When MarkEmailVerified
    succeeds the account was unverified; afterwards its only password is the one given, unlocked, or
    none; it has no federated link; the notice carries no earlier address; and, the clock being set,
    a second verification is refused and changes nothing. *)
Theorem verification_wipes_earlier_credentials ctx clk range range' newID sub h s s' r :
  Apply ctx clk range range' newID (MarkEmailVerified sub h) s = (s', Ok r) ->
  (exists a, accounts s !! sub = Some a /\ EmailVerifiedAt (user a) = 0) /\
  GetPassword None sub s' = (if PasswordHash_IsZero h then Err ErrNotFound
                             else Ok (mkPasswordCredential sub h (now_of clk) 0 time_zero)) /\
  ListFederated None sub s' = Ok [] /\
  Forall (fun o => Old o = zero_Identifier) (Outbox r) /\
  (now_of clk <> 0 -> forall ctx clk range range' newID h,
     exists e, Apply ctx clk range range' newID (MarkEmailVerified sub h) s' = (s', Err e)).
Proof.
  intros E. destruct (Apply_loaded _ _ _ _ _ (MarkEmailVerified sub h) _ _ _ eq_refl E)
    as (a0 & tx & tx1 & old & H0 & Hl & Ha & Hs & Hn & He & Hm & Hat). simpl in *.
  destruct (negb _) eqn:Ev in Hm; [done|]. injection Hm as <- <-. bools.
  specialize (Hat _ eq_refl (conj eq_refl (conj eq_refl (conj eq_refl (conj eq_refl eq_refl))))). simpl in Hat.
  rewrite He, Hs in Hat. destruct Hat as [A1 _ _ A4 _ _ _]. unfold install, raised in A1. simpl in A1.
  unfold GetPassword, ListFederated, existing. rewrite A1, lookup_insert_eq. simpl. rewrite Hn.
  split_and!.
  - by exists a0.
  - by destruct (PasswordHash_IsZero h).
  - done.
  - rewrite A4. apply Forall_forall. unfold OutboxFor. simpl. intros o Ho.
    repeat (apply elem_of_cons in Ho as [->|Ho]; [done|]). by apply not_elem_of_nil in Ho.
  - intros Hnow ctx2 clk2 r2 r2' id2 h2.
    destruct (Apply ctx2 clk2 r2 r2' id2 (MarkEmailVerified sub h2) s') as [s2 [r3|e]] eqn:E2.
    + exfalso. destruct (Apply_loaded _ _ _ _ _ (MarkEmailVerified sub h2) _ _ _ eq_refl E2)
        as (b & t & t1 & o & Hb & _ & _ & _ & _ & _ & Hm2 & _). simpl in *.
      rewrite A1, lookup_insert_eq in Hb. injection Hb as <-. simpl in Hm2. rewrite Hn in Hm2.
      unfold time_IsZero in Hm2. by destruct (Z.eqb_spec (now_of clk) 0).
    + exists e. by apply Apply_Err in E2 as ->.
Qed.

(** A password set is the one kept, unlocked. *)
Lemma SetPassword_installs ctx clk range range' newID sub h reason keep s s' r :
  Apply ctx clk range range' newID (SetPassword sub h reason keep) s = (s', Ok r) ->
  GetPassword None sub s' = Ok (mkPasswordCredential sub h (now_of clk) 0 time_zero).
Proof.
  intros E. destruct (Apply_loaded _ _ _ _ _ (SetPassword sub h reason keep) _ _ _ eq_refl E)
    as (a0 & tx & tx1 & old & H0 & Hl & Ha & Hs & Hn & He & Hm & Hat). simpl in *. injection Hm as <- <-.
  specialize (Hat _ eq_refl (conj eq_refl (conj eq_refl (conj eq_refl (conj eq_refl eq_refl))))). simpl in Hat.
  rewrite He, Hs in Hat. destruct Hat as [A1 _ _ _ _ _ _]. unfold install, raised in A1. simpl in A1.
  unfold GetPassword, existing. rewrite A1, lookup_insert_eq. simpl. by rewrite Hn.
Qed.

(** A created account holds the email verified and the password given, or none, and nothing else. *)
Lemma CreateVerified_installs ctx clk range range' newID t email h must s s' r :
  Apply ctx clk range range' newID (CreateVerified t email h must zero_FederatedIdentity) s = (s', Ok r) ->
  let sub := ap_Subject r in
  Tenant sub = t /\ (exists u, GetUser None sub s' = Ok u /\ Email u = email /\ EmailVerifiedAt u = now_of clk) /\
  GetPassword None sub s' = (if PasswordHash_IsZero h then Err ErrNotFound
                             else Ok (mkPasswordCredential sub h (now_of clk) 0 time_zero)) /\
  ListFederated None sub s' = Ok [].
Proof.
  unfold Apply. destruct (ctx 0%nat); [done|]. destruct (Validate _); [done|]. destruct (reserved _); [done|].
  destruct (Apply_tx _ _ _ _ _ _ _) as [[s1 r1]|] eqn:E; [|done]. intros [= <- <-]. pose proof E as E'. unfold Apply_tx in E'.
  destruct (mutate _ _ _ _ _ _ _) as [[tx1 old]|] eqn:Em; [|done]. clear E'. pose proof Em as Em'.
  set (tx0 := mkTxn 1 _ _ _ _ _ _ _ _) in Em'. cbn [mutate] in Em'. unfold create in Em'.
  destruct (step ctx tx0) as [t1|] eqn:E1; [|done]. apply step_Ok in E1 as (Q1 & A1 & V1 & S1). simpl in Em'.
  destruct (owner _ _ _ _ _); [done|]. destruct newID as [id|]; [|done]. simpl in Em'.
  destruct (step ctx (set_acc _ _)) as [t3|] eqn:E3; [|done]. apply step_Ok in E3 as (Q3 & A3 & V3 & S3). simpl in *.
  injection Em' as <- <-.
  assert (quiet tx0 t3) as Hq by (unfold quiet in *; simpl in *; intuition congruence).
  destruct (Apply_tx_Ok ctx clk range range' (Ok id) (CreateVerified t email h must zero_FederatedIdentity) s s1 r1
    t3 zero_Identifier _ Em A3 Hq E) as [B1 _ _ _ _ _ [B7 _]].
  assert (now t1 = now_of clk) as Hn by (unfold quiet in Q1; simpl in Q1; intuition congruence).
  rewrite raised_same in B1 by done. unfold install in B1. assert (evicted t3 = None) as He by congruence. rewrite He, S3 in B1.
  cbn zeta. rewrite B7, S3. unfold GetUser, GetPassword, ListFederated, existing. rewrite B1, lookup_insert_eq. simpl. rewrite Hn.
  split; [done|]. split; [by eexists|]. split; [|done]. by destruct (PasswordHash_IsZero h).
Qed.

(** An account whose email nobody has proved, with a password and a link set by whoever made it. *)
Definition squatter : account :=
  mkAccount (with_email (mail "ada@acme.test") time_zero (new_user id_ada (mail "ada@acme.test") id_t0))
    (Some (mkPassword (Some "squatted") id_t0 0 time_zero time_zero false))
    [mkFederatedLink id_ada (mkFederatedIdentity "google" "mallory" "static" zero_Identifier false) id_t0].

Definition squatted_store : Store := mkStore {[ id_ada := squatter ]} 0 [] 0 [].

Lemma verification_wipes_earlier_credentials_witness :
  exists s' r, Apply ctx_ok id_t0 [id_ada] [id_ada] (Err ContextErr) (MarkEmailVerified id_ada (Some "own"))
      squatted_store = (s', Ok r) /\
    GetPassword None id_ada s' = Ok (mkPasswordCredential id_ada (Some "own") (now_of id_t0) 0 time_zero) /\
    ListFederated None id_ada s' = Ok [].
Proof.
  destruct (okb_pair (Apply ctx_ok id_t0 [id_ada] [id_ada] (Err ContextErr)
    (MarkEmailVerified id_ada (Some "own")) squatted_store)) as (s' & r & E); [vm_compute; reflexivity|].
  exists s', r. split; [exact E|].
  destruct (verification_wipes_earlier_credentials _ _ _ _ _ _ _ _ _ _ E) as (_ & Hp & Hl & _).
  split; [exact Hp|exact Hl].
Defined.

(** ** Password lockout *)

(** The instants the store's clock gives. *)
Definition is_instant (t : time) : Prop := 0 < t /\ instant t = t.

(** Failures recorded one after the other: the credential after them and what each call answered. *)
Fixpoint charges (p : LockoutPolicy) (ts : list time) (pw : password) : password * list Lockout :=
  match ts with
  | [] => (pw, [])
  | t :: ts' => let '(pw, l) := charge p t pw in let '(pw, ls) := charges p ts' pw in (pw, l :: ls)
  end.

(** Each failure within a window of the one before. *)
Fixpoint paced (w : duration) (prev : time) (ts : list time) : Prop :=
  match ts with
  | [] => True
  | t :: ts' => is_instant t /\ prev <= t < prev + w /\ paced w t ts'
  end.

Definition unlocked (pw : password) (n : Z) (at_ : time) : Prop :=
  failed pw = n /\ lockedUntil pw = 0 /\ lastFailure pw = at_.

Lemma charge_unlocked p t pw n prev :
  0 < Window p -> 0 <= n < Threshold p -> Threshold p < two63 -> is_instant t ->
  unlocked pw n prev -> prev <= t < prev + Window p \/ (n = 0 /\ prev = 0) ->
  let '(pw', l) := charge p t pw in
  JustLocked l = (n + 1 =? Threshold p) /\ failed pw' = n + 1 /\ lastFailure pw' = t /\
  lockedUntil pw' = (if n + 1 =? Threshold p then instant (t + Window p) else 0).
Proof.
  intros Hw Hn Ht [Hi _] (E1 & E2 & E3) Hprev.
  assert (decay p t pw = pw) as Ed.
  { unfold decay, time_IsZero, time_After, time_Add. rewrite E2, E3. simpl.
    destruct (Z.eqb_spec prev 0); [done|]. simpl. destruct (Z.ltb_spec t (prev + Window p)); [done|lia]. }
  unfold charge. rewrite Ed. simpl. unfold time_IsZero. rewrite E2. simpl. rewrite E1, int64_small by lia.
  destruct (Z.leb_spec (Threshold p) (n + 1)), (Z.eqb_spec (n + 1) (Threshold p)); simpl; try lia; done.
Qed.

Lemma charges_unlocked p ts : forall pw n prev,
  0 < Window p -> Threshold p < two63 -> 0 <= n -> unlocked pw n prev ->
  paced (Window p) prev ts \/ (n = 0 /\ prev = 0 /\ exists t ts', ts = t :: ts' /\ is_instant t /\ paced (Window p) t ts') ->
  n + Z.of_nat (length ts) = Threshold p -> ts <> [] ->
  map JustLocked (charges p ts pw).2 = replicate (length ts - 1) false ++ [true] /\
  failed (charges p ts pw).1 = Threshold p /\
  exists t, last ts = Some t /\ is_instant t /\ lockedUntil (charges p ts pw).1 = instant (t + Window p).
Proof.
  induction ts as [|t ts IH]; intros pw n prev Hw Ht Hn Hu Hp Hlen Hne; [done|]. simpl length in Hlen.
  assert (is_instant t /\ paced (Window p) t ts /\ (prev <= t < prev + Window p \/ (n = 0 /\ prev = 0)))
    as (Hi & Hp' & Hc).
  { destruct Hp as [(H1 & H2 & H3)|(H1 & H2 & t' & ts' & [= <- <-] & H3 & H4)]; auto. }
  pose proof (charge_unlocked p t pw n prev Hw ltac:(lia) Ht Hi Hu Hc) as Hch. cbn [charges].
  destruct (charge p t pw) as [pw1 l]. destruct Hch as (C1 & C2 & C3 & C4).
  destruct ts as [|t2 ts].
  - simpl in *. destruct (Z.eqb_spec (n + 1) (Threshold p)); [|lia]. rewrite C1. split; [done|].
    split; [lia|]. by exists t.
  - simpl length in *. destruct (Z.eqb_spec (n + 1) (Threshold p)); [lia|].
    destruct (IH pw1 (n + 1) t Hw Ht ltac:(lia)) as (D1 & D2 & D3); [done|by left|simpl length; lia|done|].
    destruct (charges p (t2 :: ts) pw1) as [pw2 ls] eqn:E. simpl in *. rewrite C1, D1.
    rewrite Nat.sub_0_r. split; [done|]. split; [done|]. exact D3.
Qed.

Lemma instant_ge t w : is_instant t -> 0 < w -> t <= instant (t + w).
Proof.
  intros [Hp Hi] Hw. unfold instant, time_IsZero in *. destruct (Z.eqb_spec t 0); [lia|].
  destruct (Z.eqb_spec (t + w) 0); [lia|]. rewrite <- Hi at 1. apply time_Truncate_mono. lia.
Qed.

(** The lockout bounds guesses.  From a clean credential, a policy of [Threshold] failures, each
    within [Window] of the one before, locks it at the last of them and at no other; while it is
    locked further failures neither lock it again nor move the end of the lock; and the first
    failure once the lock has ended starts the count at one. *)
Theorem lockout_at_the_threshold p ts t0 pw :
  checkPolicy p = None -> Threshold p < two63 -> unlocked pw 0 0 ->
  is_instant t0 -> paced (Window p) t0 ts -> Z.of_nat (length (t0 :: ts)) = Threshold p ->
  let '(pw', ls) := charges p (t0 :: ts) pw in
  map JustLocked ls = replicate (length ts) false ++ [true] /\
  0 < lockedUntil pw' /\
  (forall t, t < lockedUntil pw' ->
     JustLocked (charge p t pw').2 = false /\ lockedUntil (charge p t pw').1 = lockedUntil pw') /\
  (forall t, lockedUntil pw' <= t -> failed (charge p t pw').1 = 1).
Proof.
  intros Hpol Ht Hu Hi Hp Hlen. unfold checkPolicy in Hpol. destruct (_ || _) eqn:Eg; [done|]. bools.
  destruct (charges_unlocked p (t0 :: ts) pw 0 0) as (H1 & H2 & t & Hl & Hti & H3);
    [lia|done|lia|done|right; eauto 10|lia|done|].
  destruct (charges p (t0 :: ts) pw) as [pw' ls]. simpl in H1, H2, H3. rewrite Nat.sub_0_r in H1.
  pose proof (instant_ge t (Window p) Hti ltac:(lia)) as Hge. destruct Hti as [Hpos _].
  split; [done|]. split; [lia|]. split.
  - intros t' Hlt. unfold charge, decay, time_IsZero, time_After.
    destruct (Z.eqb_spec (lockedUntil pw') 0); [lia|]. simpl.
    destruct (Z.ltb_spec t' (lockedUntil pw')); [|lia]. simpl.
    destruct (Z.eqb_spec (lockedUntil pw') 0); [lia|]. done.
  - intros t' Hge'. unfold charge, decay, time_IsZero, time_After.
    destruct (Z.eqb_spec (lockedUntil pw') 0); [lia|]. simpl.
    destruct (Z.ltb_spec t' (lockedUntil pw')); [lia|]. simpl. by destruct (Threshold p <=? _).
Qed.

Definition clean_password : password := mkPassword (Some "phc") id_t0 0 time_zero time_zero false.

Lemma lockout_at_the_threshold_witness :
  map JustLocked (charges (mkLockoutPolicy 3 Minute) [id_t0; id_t0 + Second; id_t0 + 2 * Second] clean_password).2
  = [false; false; true].
Proof.
  generalize (lockout_at_the_threshold (mkLockoutPolicy 3 Minute) [id_t0 + Second; id_t0 + 2 * Second] id_t0
    clean_password).
  destruct (charges (mkLockoutPolicy 3 Minute) [id_t0; id_t0 + Second; id_t0 + 2 * Second] clean_password)
    as [pw' ls]. intros H. apply H.
  - reflexivity.
  - reflexivity.
  - repeat split.
  - split; reflexivity.
  - repeat split; vm_compute; congruence.
  - reflexivity.
Defined.
