(* ===== verification/KeyStore.v ===== *)
(** Signing keys: store/keys/store.go, store/keys/expiry.go and the in-memory store
    store/keys/memory/store.go.

    A pointer to an instant is an optional instant; a tenant's rows are a list in the order of their
    insertion, and the row pointer a loop keeps is its index.  Sorting uses [merge_sort]: its order is
    total on the keys of one tenant, on tenants and on positions. *)
From S2P Require Import Prelude Errors Tenant StoreBase.

Module KeyTypes.

Definition AADVersionLegacy : Z := 0.

Definition AADVersionCurrent : Z := 1.

Record Key := mkKey {
  k_Tenant : TenantID;
  KeyID : string;
  Alg : string;
  Sealed : bytes;
  AADVersion : Z;
  CreatedAt : time;
  NotAfter : time;
  RetiredAt : option time }.

Definition IsExpired (k : Key) (now : time) : bool :=
  negb (time_IsZero (NotAfter k)) && negb (time_Before now (NotAfter k)).

Definition IsActive (k : Key) (now : time) : bool :=
  (match RetiredAt k with None => true | Some _ => false end) && negb (IsExpired k now).

Definition Verifies (k : Key) (now : time) : bool :=
  if (match RetiredAt k with Some _ => true | None => false end) && time_IsZero (NotAfter k)
  then false
  else negb (IsExpired k now).

Record Rotation := mkRotation {
  Previous : string;
  Next : Key;
  r_RetiredAt : time;
  OverlapUntil : time }.

Definition Rotation_Valid (r : Rotation) : bool :=
  if bool_decide (Previous r = "") || bool_decide (KeyID (Next r) = "")
     || bool_decide (KeyID (Next r) = Previous r) || negb (AADVersion (Next r) =? AADVersionCurrent)
  then false
  else if (match RetiredAt (Next r) with Some _ => true | None => false end)
          || time_IsZero (r_RetiredAt r) || time_IsZero (OverlapUntil r)
  then false
  else negb (time_Before (OverlapUntil r) (r_RetiredAt r)) && IsActive (Next r) (r_RetiredAt r).

Record Change := mkChange { ch_Tenant : TenantID }.

Record SealedRef := mkSealedRef { s_Tenant : TenantID; s_KeyID : string }.

Record V016Row := mkV016Row { v_Ref : SealedRef; v_Sealed : bytes }.

Record Reseal := mkReseal { r_Ref : SealedRef; Old : bytes; New_ : bytes }.

(** ** Expiry *)
Definition expiryAfter : Z := 1.

Definition expiryNever : Z := 2.

Definition expiryDefault : Z := 3.

Record Expiry := mkExpiry { e_kind : Z; e_d : duration }.

Definition ExpireAfter (d : duration) : res Expiry :=
  if d <? 0 then Err ErrInvalidExpiry else Ok (mkExpiry expiryAfter d).

Definition NeverExpire : Expiry := mkExpiry expiryNever 0.

Definition DefaultExpiry : Expiry := mkExpiry expiryDefault 0.

Definition Expiry_Valid (e : Expiry) : bool :=
  if e_kind e =? expiryAfter then 0 <=? e_d e
  else (e_kind e =? expiryNever) || (e_kind e =? expiryDefault).

Definition IsNever (e : Expiry) : bool := e_kind e =? expiryNever.

Definition At (e : Expiry) (now : time) (fallback : duration) : res time :=
  if e_kind e =? expiryAfter
  then if e_d e <? 0 then Err ErrInvalidExpiry else Ok (time_Add now (e_d e))
  else if e_kind e =? expiryNever then Ok time_zero
  else if e_kind e =? expiryDefault
  then if fallback <? 0 then Err ErrInvalidExpiry else Ok (time_Add now fallback)
  else Err ErrInvalidExpiry.

Definition Expiry_OverlapUntil (e : Expiry) (retiredAt : time) (fallback : duration) : res time :=
  if e_kind e =? expiryNever then Err ErrUnboundedOverlap
  else if (e_kind e =? expiryDefault) && (fallback <=? 0) then Err ErrInvalidExpiry
  else At e retiredAt fallback.

End KeyTypes.

Module KeysMemory.
Import KeyTypes.

Definition feedRetention : duration := 24 * 60 * Minute.

Record row := mkRow { key : Key; row_seq : Z }.

Record change := mkFeedEntry { c_seq : Z; c_tenant : TenantID; c_at : time }.

Record Store := mkStore {
  rows : gmap TenantID (list row);
  tombstones : gset TenantID;
  feed : list change;
  pruned : Z;
  seq : Z }.

Definition NewWithClock : Store := mkStore ∅ ∅ [] 0 0.

Definition now_of (clk : time) : time := time_Truncate clk Microsecond.

Definition Ping (ctx : Ctx) : option error := ctx.

Definition errInvalidKey : error := New "keys: invalid key".

Definition errInvalidLimit : error := New "keys: limit must be positive".

Definition errInvalidSeal : error := New "keys: invalid reseal".

Definition errNotSigner : error := New "keys: previous key is not the tenant's active signer".

Definition errKeyIDTaken : error := New "keys: key id exists in the tenant".

Definition errOutranked : error := New "keys: next key would not become the tenant's active signer".

Definition errFeedGap : error :=
  New "keys: cursor is older than the retained change feed; drop the key caches and resume from the zero cursor".

Definition micro (t : time) : time := if time_IsZero t then time_zero else time_Truncate t Microsecond.

Definition cloneKey (k : Key) : Key :=
  mkKey (k_Tenant k) (KeyID k) (Alg k) (Sealed k) (AADVersion k) (micro (CreatedAt k)) (micro (NotAfter k))
    (micro <$> RetiredAt k).

Definition set_CreatedAt (t : time) (k : Key) : Key :=
  mkKey (k_Tenant k) (KeyID k) (Alg k) (Sealed k) (AADVersion k) t (NotAfter k) (RetiredAt k).

Definition checkKey (clk : time) (k : Key) : res Key :=
  if negb (AADVersion k =? AADVersionCurrent) then Err KErrLegacyAADVersion
  else if bool_decide (KeyID k = "") || bool_decide (Alg k = "") || (Z.of_nat (length (Sealed k)) =? 0)
  then Err errInvalidKey
  else
    let k := cloneKey k in
    Ok (if time_IsZero (CreatedAt k) then set_CreatedAt (now_of clk) k else k).

(** The rows of a tenant; a missing entry is an empty slice. *)
Definition rows_of (t : TenantID) (s : Store) : list row := default [] (rows s !! t).

Definition record (t : TenantID) (now : time) (s : Store) : Store :=
  let n := u64 (seq s + 1) in
  mkStore (rows s) (tombstones s) (feed s ++ [mkFeedEntry n t now]) (pruned s) n.

Definition find (t : TenantID) (id : string) (s : Store) : option (nat * row) :=
  list_find (fun r => KeyID (key r) = id) (rows_of t s).

Definition insert (k : Key) (s : Store) : Store :=
  let n := u64 (seq s + 1) in
  mkStore (<[k_Tenant k := rows_of (k_Tenant k) s ++ [mkRow k n]]> (rows s)) (tombstones s) (feed s)
    (pruned s) n.

Definition CreateTenant (ctx : Ctx) (clk : time) (initial : Key) (s : Store) : Store * option error :=
  match ctx with
  | Some err => (s, Some err)
  | None =>
      match checkKey clk initial with
      | Err err => (s, Some err)
      | Ok k =>
          if bool_decide (k_Tenant k ∈ tombstones s) then (s, Some (ErrTenantTombstoned : error))
          else if 0 <? Z.of_nat (length (rows_of (k_Tenant k) s)) then (s, Some (ErrConflict : error))
          else (record (k_Tenant k) (now_of clk) (insert k s), None)
      end
  end.

Definition TenantExists (ctx : Ctx) (t : TenantID) (s : Store) : res bool :=
  match ctx with Some err => Err err | None => Ok (0 <? Z.of_nat (length (rows_of t s))) end.

Definition PutKey (ctx : Ctx) (clk : time) (k : Key) (s : Store) : Store * option error :=
  match ctx with
  | Some err => (s, Some err)
  | None =>
      match checkKey clk k with
      | Err err => (s, Some err)
      | Ok k =>
          if bool_decide (k_Tenant k ∈ tombstones s) then (s, Some (ErrTenantTombstoned : error))
          else match find (k_Tenant k) (KeyID k) s with
               | Some _ => (s, Some (ErrConflict : error))
               | None => (record (k_Tenant k) (now_of clk) (insert k s), None)
               end
      end
  end.

(** ** Signers *)
Definition sign (c : comparison) : Z := match c with Lt => -1 | Eq => 0 | Gt => 1 end.

(** [cmp.Or(b.CreatedAt.Compare(a.CreatedAt), cmp.Compare(b.KeyID, a.KeyID))] *)
Definition newest (a b : Key) : Z :=
  let c := sign (Z.compare (CreatedAt b) (CreatedAt a)) in
  if negb (c =? 0) then c else sign (String.compare (KeyID b) (KeyID a)).

(** The order of [slices.SortFunc(out, newest)]. *)
Definition newer (a b : Key) : Prop := newest a b <= 0.

#[export] Instance newer_dec a b : Decision (newer a b).
Proof. unfold newer. apply _. Defined.

(** The loop of signer; [i] is the index of the head of the remaining rows. *)
Fixpoint signer_loop (rs : list row) (i : nat) (now : time) (best : option (nat * row))
  : option (nat * row) :=
  match rs with
  | [] => best
  | r :: rs' =>
      signer_loop rs' (S i) now
        (if IsActive (key r) now
            && (match best with None => true | Some (_, b) => newest (key r) (key b) <? 0 end)
         then Some (i, r) else best)
  end.

Definition signer (t : TenantID) (now : time) (s : Store) : option (nat * row) :=
  signer_loop (rows_of t s) 0 now None.

Definition ActiveKey (ctx : Ctx) (clk : time) (t : TenantID) (s : Store) : res Key :=
  match ctx with
  | Some err => Err err
  | None =>
      match signer t (now_of clk) s with
      | None => Err ErrNoActiveKey
      | Some (_, r) => Ok (cloneKey (key r))
      end
  end.

Definition VerificationKeys (ctx : Ctx) (clk : time) (t : TenantID) (s : Store) : res (list Key) :=
  match ctx with
  | Some err => Err err
  | None =>
      Ok (merge_sort newer
            (map (fun r => cloneKey (key r)) (filter (fun r => Verifies (key r) (now_of clk) = true) (rows_of t s))))
  end.

Definition becomesSigner (next : Key) (prev : nat) (now : time) (s : Store) : bool :=
  if negb (IsActive next now) then false
  else forallb (fun ir => negb (negb (Nat.eqb (fst ir) prev) && IsActive (key (snd ir)) now
                                && (0 <? newest next (key (snd ir)))))
         (imap pair (rows_of (k_Tenant next) s)).

Definition retire (retired until : time) (k : Key) : Key :=
  mkKey (k_Tenant k) (KeyID k) (Alg k) (Sealed k) (AADVersion k) (CreatedAt k)
    (if time_IsZero (NotAfter k) || time_After (NotAfter k) until then until else NotAfter k)
    (Some retired).

Definition set_rows (t : TenantID) (rs : list row) (s : Store) : Store :=
  mkStore (<[t := rs]> (rows s)) (tombstones s) (feed s) (pruned s) (seq s).

Definition Rotate (ctx : Ctx) (clk : time) (r : Rotation) (s : Store) : Store * option error :=
  match ctx with
  | Some err => (s, Some err)
  | None =>
      if negb (Rotation_Valid r) then (s, Some (ErrInvalidRotation : error))
      else match checkKey clk (Next r) with
      | Err err => (s, Some (Join ErrInvalidRotation err))
      | Ok next =>
          let t := k_Tenant next in
          if bool_decide (t ∈ tombstones s) then (s, Some (ErrTenantTombstoned : error))
          else
            let now := now_of clk in
            match signer t now s with
            | None => (s, Some (Join ErrConflict errNotSigner))
            | Some (i, sg) =>
                if negb (bool_decide (KeyID (key sg) = Previous r))
                then (s, Some (Join ErrConflict errNotSigner))
                else match find t (KeyID next) s with
                | Some _ => (s, Some (Join ErrConflict errKeyIDTaken))
                | None =>
                    if negb (becomesSigner next i now s) then (s, Some (Join ErrConflict errOutranked))
                    else
                      let prev := mkRow (retire (micro (r_RetiredAt r)) (micro (OverlapUntil r)) (key sg))
                                    (row_seq sg) in
                      let s := set_rows t (<[i := prev]> (rows_of t s)) s in
                      (record t now (insert next s), None)
                end
            end
      end
  end.

(** ** Erasure *)
Definition wipe (t : TenantID) (s : Store) : Store * bool :=
  (mkStore (delete t (rows s)) (tombstones s) (feed s) (pruned s) (seq s),
   0 <? Z.of_nat (length (rows_of t s))).

Definition RevokeTenantKeys (ctx : Ctx) (clk : time) (t : TenantID) (s : Store) : Store * option error :=
  match ctx with
  | Some err => (s, Some err)
  | None => let '(s, had) := wipe t s in (if had then record t (now_of clk) s else s, None)
  end.

Definition Tombstone (ctx : Ctx) (clk : time) (t : TenantID) (s : Store) : Store * option error :=
  match ctx with
  | Some err => (s, Some err)
  | None =>
      let '(s, changed) := wipe t s in
      let dead := bool_decide (t ∈ tombstones s) in
      let s := if negb dead then mkStore (rows s) ({[t]} ∪ tombstones s) (feed s) (pruned s) (seq s) else s in
      let changed := if negb dead then true else changed in
      (if changed then record t (now_of clk) s else s, None)
  end.

Definition EraseTenant (ctx : Ctx) (clk : time) (t : TenantID) (s : Store) : Store * option error :=
  Tombstone ctx clk t s.

Definition IsTombstoned (ctx : Ctx) (t : TenantID) (s : Store) : res bool :=
  match ctx with Some err => Err err | None => Ok (bool_decide (t ∈ tombstones s)) end.

(** ** Reaping *)

(** One tenant's turn of the first loop: the store and the number of keys removed. *)
Definition reap_tenant (now : time) (t : TenantID) (s : Store) : Store * Z :=
  let kept := filter (fun r => Verifies (key r) now = true) (rows_of t s) in
  let removed := Z.of_nat (length (rows_of t s)) - Z.of_nat (length kept) in
  if removed =? 0 then (s, 0)
  else
    let m := if Z.of_nat (length kept) =? 0 then delete t (rows s) else <[t := kept]> (rows s) in
    (record t now (mkStore m (tombstones s) (feed s) (pruned s) (seq s)), removed).

Fixpoint reap_tenants (now : time) (ts : list TenantID) (s : Store) : Store * Z :=
  match ts with
  | [] => (s, 0)
  | t :: ts' =>
      let '(s, n) := reap_tenant now t s in
      let '(s, n') := reap_tenants now ts' s in (s, n + n')
  end.

Definition retained (now : time) (c : change) : bool := time_Sub now (c_at c) <? feedRetention.

Definition prune (now : time) (s : Store) : Store :=
  mkStore (rows s) (tombstones s) (filter (fun c => retained now c = true) (feed s))
    (fold_left (fun p c => if retained now c then p else Z.max p (c_seq c)) (feed s) (pruned s)) (seq s).

Definition tenant_le (a b : TenantID) : Prop := sign (String.compare (tenant_id a) (tenant_id b)) <= 0.

#[export] Instance tenant_le_dec a b : Decision (tenant_le a b).
Proof. unfold tenant_le. apply _. Defined.

Definition ReapExpired (ctx : Ctx) (clk : time) (s : Store) : Store * res Z :=
  match ctx with
  | Some err => (s, Err err)
  | None =>
      let now := now_of clk in
      let tenants := merge_sort tenant_le (map_to_list (rows s)).*1 in
      let '(s, n) := reap_tenants now tenants s in
      (prune now s, Ok n)
  end.

(** ** The feed *)

(** The loop of ChangesSince. *)
Fixpoint changes_loop (entries : list change) (c : Cursor) (seen : gset TenantID) (out : list Change)
    (last : Cursor) : list Change * Cursor :=
  match entries with
  | [] => (out, last)
  | ch :: entries' =>
      if c_seq ch <=? Position c then changes_loop entries' c seen out last
      else
        let last := RestoreCursor (c_seq ch) in
        if bool_decide (c_tenant ch ∈ seen) then changes_loop entries' c seen out last
        else changes_loop entries' c ({[c_tenant ch]} ∪ seen) (out ++ [mkChange (c_tenant ch)]) last
  end.

Definition ChangesSince (ctx : Ctx) (c : Cursor) (s : Store) : list Change * Cursor * option error :=
  match ctx with
  | Some err => ([], c, Some err)
  | None =>
      if negb (Cursor_IsZero c) && (Position c <? pruned s)
      then ([], c, Some (Join ErrNotFound errFeedGap))
      else (changes_loop (feed s) c ∅ [] c, None)
  end.

(** ** Re-sealing *)
Definition is_legacy (r : row) : bool := AADVersion (key r) =? AADVersionLegacy.

Definition all_rows (s : Store) : list row := concat (map_to_list (rows s)).*2.

Definition CountLegacySealed (ctx : Ctx) (s : Store) : res Z :=
  match ctx with
  | Some err => Err err
  | None => Ok (Z.of_nat (length (filter (fun r => is_legacy r = true) (all_rows s))))
  end.

Definition seq_le (a b : row) : Prop := row_seq a <= row_seq b.

#[export] Instance seq_le_dec a b : Decision (seq_le a b).
Proof. unfold seq_le. apply _. Defined.

Definition V016Sealed (ctx : Ctx) (after : Cursor) (limit : Z) (s : Store)
  : list V016Row * Cursor * option error :=
  match ctx with
  | Some err => ([], after, Some err)
  | None =>
      if limit <? 1 then ([], after, Some errInvalidLimit)
      else
        let found := filter (fun r => is_legacy r && (Position after <? row_seq r) = true) (all_rows s) in
        let found := merge_sort seq_le found in
        let found := if limit <? Z.of_nat (length found) then take (Z.to_nat limit) found else found in
        (map (fun r => mkV016Row (mkSealedRef (k_Tenant (key r)) (KeyID (key r))) (Sealed (key r))) found,
         match last found with Some r => RestoreCursor (row_seq r) | None => after end, None)
  end.

Definition reseal (b : bytes) (k : Key) : Key :=
  mkKey (k_Tenant k) (KeyID k) (Alg k) b AADVersionCurrent (CreatedAt k) (NotAfter k) (RetiredAt k).

Definition ReplaceSealed (ctx : Ctx) (r : Reseal) (s : Store) : Store * res bool :=
  match ctx with
  | Some err => (s, Err err)
  | None =>
      if (Z.of_nat (length (Old r)) =? 0) || (Z.of_nat (length (New_ r)) =? 0)
         || bool_decide (s_KeyID (r_Ref r) = "")
      then (s, Err errInvalidSeal)
      else match find (s_Tenant (r_Ref r)) (s_KeyID (r_Ref r)) s with
           | None => (s, Ok false)
           | Some (i, x) =>
               if negb (bool_decide (Sealed (key x) = Old r)) then (s, Ok false)
               else
                 let t := s_Tenant (r_Ref r) in
                 (set_rows t (<[i := mkRow (reseal (New_ r) (key x)) (row_seq x)]> (rows_of t s)) s, Ok true)
           end
  end.

(** How a row of an earlier release is loaded. *)
Definition addV016 (clk : time) (k : Key) (s : Store) : Store :=
  let k := cloneKey k in
  let k := mkKey (k_Tenant k) (KeyID k) (Alg k) (Sealed k) AADVersionLegacy (CreatedAt k) (NotAfter k)
             (RetiredAt k) in
  insert (if time_IsZero (CreatedAt k) then set_CreatedAt (now_of clk) k else k) s.

End KeysMemory.
