(* ===== verification/KeyProperties.v ===== *)
(** What the key store guarantees: rotation hands the signature over once, an erased tenant never
    gets keys again, and every change of a keyset is in the feed or the gap is reported. *)
From S2P Require Import Prelude Errors Tenant StoreBase KeyStore.
Import KeyTypes KeysMemory.

(** ** Signers *)

Lemma sign_antisym a b : sign (Z.compare a b) = - sign (Z.compare b a).
Proof. rewrite (Z.compare_antisym b a). by destruct (b ?= a). Qed.

Lemma sign_string_antisym a b : sign (String.compare a b) = - sign (String.compare b a).
Proof. rewrite (String.compare_antisym a b). by destruct (String.compare b a). Qed.

Lemma newest_antisym a b : newest a b = - newest b a.
Proof.
  unfold newest. rewrite (sign_antisym (CreatedAt b)).
  destruct (Z.eqb_spec (- sign (CreatedAt a ?= CreatedAt b)) 0) as [E|E];
    destruct (Z.eqb_spec (sign (CreatedAt a ?= CreatedAt b)) 0); simpl; try lia.
  apply sign_string_antisym.
Qed.

Lemma newest_id a b : newest a b = 0 -> KeyID a = KeyID b.
Proof.
  unfold newest. destruct (Z.eqb_spec (sign (CreatedAt b ?= CreatedAt a)) 0); simpl; [|done].
  destruct (String.compare (KeyID b) (KeyID a)) eqn:E; simpl; [|done..].
  by apply String.compare_eq_iff in E.
Qed.

Lemma signer_loop_app l1 l2 i now best :
  signer_loop (l1 ++ l2) i now best = signer_loop l2 (i + length l1) now (signer_loop l1 i now best).
Proof.
  revert i best. induction l1 as [|r l1 IH]; intros i best; simpl; [by rewrite Nat.add_0_r|].
  rewrite IH. f_equal. lia.
Qed.

Lemma signer_loop_Some rs : forall i now best j r,
  signer_loop rs i now best = Some (j, r) ->
  best = Some (j, r) \/ (exists h, j = (i + h)%nat /\ rs !! h = Some r /\ IsActive (key r) now = true).
Proof.
  induction rs as [|x rs IH]; intros i now best j r; simpl; [by left|].
  intros [Hb|(h & -> & Hh & Ha)]%IH.
  - destruct (_ && _) eqn:Eg; [|by left]. bools. injection Hb as <- <-. right. exists 0%nat.
    split; [lia|]. done.
  - right. exists (S h). split; [lia|]. done.
Qed.

Lemma signer_Some t now s j r :
  signer t now s = Some (j, r) -> rows_of t s !! j = Some r /\ IsActive (key r) now = true.
Proof. intros [|(h & -> & Hh & Ha)]%signer_loop_Some; [done|]. by split. Qed.

(** ** Invariant: key ids of a tenant are distinct *)
Definition ids_ok (s : Store) : Prop := forall t, NoDup ((fun r => KeyID (key r)) <$> rows_of t s).

Lemma rows_of_insert t rs s t' : rows_of t' (set_rows t rs s) = if decide (t' = t) then rs else rows_of t' s.
Proof.
  unfold rows_of. simpl. case_decide as E; [subst; by rewrite lookup_insert_eq|]. by rewrite lookup_insert_ne.
Qed.

Lemma rows_of_record t now s t' : rows_of t' (record t now s) = rows_of t' s.
Proof. done. Qed.

Lemma rows_of_add k s t :
  rows_of t (insert k s)
  = if decide (t = k_Tenant k) then rows_of t s ++ [mkRow k (u64 (seq s + 1))] else rows_of t s.
Proof.
  unfold rows_of. simpl. case_decide as E; [subst; by rewrite lookup_insert_eq|]. by rewrite lookup_insert_ne.
Qed.

Lemma rows_of_wipe t s t' : rows_of t' (wipe t s).1 = if decide (t' = t) then [] else rows_of t' s.
Proof.
  unfold rows_of. simpl. case_decide as E; [subst; by rewrite lookup_delete_eq|]. by rewrite lookup_delete_ne.
Qed.

Lemma key_find_None t id s r : find t id s = None -> r ∈ rows_of t s -> KeyID (key r) <> id.
Proof. intros Hf Hr. apply list_find_None in Hf. rewrite Forall_forall in Hf. by apply Hf. Qed.

Lemma ids_add k s :
  ids_ok s -> (forall r, r ∈ rows_of (k_Tenant k) s -> KeyID (key r) <> KeyID k) -> ids_ok (insert k s).
Proof.
  intros Hs Hk t. rewrite rows_of_add. case_decide as E; [|apply Hs]. subst t. rewrite fmap_app.
  apply NoDup_app. split; [apply Hs|]. split; [|apply NoDup_singleton].
  intros x (r & -> & Hr)%list_elem_of_fmap Hx%list_elem_of_singleton. by apply (Hk r).
Qed.

Lemma ids_set_row t i x y s :
  ids_ok s -> rows_of t s !! i = Some x -> KeyID (key y) = KeyID (key x) ->
  ids_ok (set_rows t (<[i := y]> (rows_of t s)) s).
Proof.
  intros Hs Hx E t'. rewrite rows_of_insert. case_decide as Et; [|apply Hs].
  rewrite list_fmap_insert, list_insert_id; [apply Hs|]. by rewrite list_lookup_fmap, Hx, E.
Qed.

(** What checkKey accepts is the key itself, cut to the microsecond. *)
Lemma checkKey_Ok clk k k' :
  checkKey clk k = Ok k' -> k_Tenant k' = k_Tenant k /\ KeyID k' = KeyID k /\ Sealed k' = Sealed k /\
    AADVersion k' = AADVersionCurrent.
Proof.
  unfold checkKey. destruct (AADVersion k =? AADVersionCurrent) eqn:Ev; [|done]. simpl.
  destruct (_ || _ || _); [done|]. intros [= <-]. apply Z.eqb_eq in Ev. by destruct (time_IsZero _).
Qed.

(** ** Runs *)
Inductive key_op :=
  | KCreate (ctx : option error) (clk : time) (k : Key)
  | KPut (ctx : option error) (clk : time) (k : Key)
  | KRotate (ctx : option error) (clk : time) (r : Rotation)
  | KRevoke (ctx : option error) (clk : time) (t : TenantID)
  | KTombstone (ctx : option error) (clk : time) (t : TenantID)
  | KReap (ctx : option error) (clk : time)
  | KReseal (ctx : option error) (r : Reseal).

Definition key_exec (o : key_op) (s : Store) : Store :=
  match o with
  | KCreate ctx clk k => (CreateTenant ctx clk k s).1
  | KPut ctx clk k => (PutKey ctx clk k s).1
  | KRotate ctx clk r => (Rotate ctx clk r s).1
  | KRevoke ctx clk t => (RevokeTenantKeys ctx clk t s).1
  | KTombstone ctx clk t => (Tombstone ctx clk t s).1
  | KReap ctx clk => (ReapExpired ctx clk s).1
  | KReseal ctx r => (ReplaceSealed ctx r s).1
  end.

(** The position counter is not about to wrap: an operation takes at most two positions, reaping one
    per tenant. *)
Definition key_room (s : Store) : Prop := seq s + Z.of_nat (size (rows s)) + 2 < two64.

Inductive key_run : Store -> list key_op -> Store -> Prop :=
  | key_run_nil s : key_run s [] s
  | key_run_cons s o os s' : key_room s -> key_run (key_exec o s) os s' -> key_run s (o :: os) s'.

Definition key_reachable (s : Store) : Prop := exists os, key_run NewWithClock os s.

(** What a key says to its users: everything but the sealed bytes. *)
Definition facts (k : Key) : string * string * time * time * option time :=
  (KeyID k, Alg k, CreatedAt k, NotAfter k, RetiredAt k).

Definition keyset (t : TenantID) (s : Store) : list (string * string * time * time * option time) :=
  (fun r => facts (key r)) <$> rows_of t s.

(** A poller at position [p] will learn that [t] changed, or that it has missed something. *)
Definition announced (t : TenantID) (p : Z) (s : Store) : Prop :=
  (exists e, e ∈ feed s /\ c_tenant e = t /\ p < c_seq e) \/ p < pruned s.

(** How the store moves: positions go up, announcements stay, and a keyset never changes unannounced;
    the key ids stay distinct and erased tenants stay empty. *)
Record moves (s s' : Store) : Prop := {
  mv_seq : seq s <= seq s';
  mv_tomb : tombstones s ⊆ tombstones s';
  mv_kept t p : announced t p s -> announced t p s';
  mv_told t p : p <= seq s -> keyset t s' <> keyset t s -> announced t p s';
  mv_ids : ids_ok s -> ids_ok s';
  mv_empty : (forall t, t ∈ tombstones s -> rows_of t s = []) -> forall t, t ∈ tombstones s' -> rows_of t s' = [] }.

Lemma moves_refl s : moves s s.
Proof. split; try done; lia. Qed.

Lemma moves_trans s1 s2 s3 : moves s1 s2 -> moves s2 s3 -> moves s1 s3.
Proof.
  intros H1 H2. destruct H1 as [Q1 T1 K1 C1 I1 E1], H2 as [Q2 T2 K2 C2 I2 E2]. split; auto; [lia|set_solver|].
  intros t p Hp Hne. destruct (decide (keyset t s2 = keyset t s1)) as [E|Hne2].
  - apply C2; [lia|congruence].
  - by apply K2, C1.
Qed.

(** The steps end by recording the only tenant whose rows they may have changed. *)
Lemma moves_record t now s s1 :
  seq s <= seq s1 -> 0 <= seq s1 < two64 - 1 -> feed s1 = feed s -> pruned s1 = pruned s ->
  tombstones s ⊆ tombstones s1 -> (forall t', t' <> t -> rows_of t' s1 = rows_of t' s) ->
  (ids_ok s -> NoDup ((fun r => KeyID (key r)) <$> rows_of t s1)) ->
  (forall t', t' ∈ tombstones s1 -> t' ∈ tombstones s \/ t' = t) ->
  (t ∈ tombstones s1 -> (t ∈ tombstones s -> rows_of t s = []) -> rows_of t s1 = []) ->
  moves s (record t now s1).
Proof.
  intros Hq Hroom Hf Hp Ht Hr Hid Htb He. split; simpl.
  - rewrite u64_small by (unfold is_u64; lia). lia.
  - done.
  - intros t' p [(e & H1 & H2)|H1]; [left; exists e|right; simpl; by rewrite Hp]. simpl. rewrite Hf, elem_of_app. auto.
  - intros t' p Hle Hne. left. destruct (decide (t' = t)) as [->|Hnt].
    + exists (mkFeedEntry (u64 (seq s1 + 1)) t now). simpl. rewrite elem_of_app. split; [right; by left|].
      split; [done|]. simpl. rewrite u64_small by (unfold is_u64; lia). lia.
    + destruct Hne. unfold keyset. rewrite rows_of_record. by rewrite Hr.
  - intros Hs t'. rewrite rows_of_record. destruct (decide (t' = t)) as [->|Hnt]; [by apply Hid|].
    rewrite Hr by done. apply Hs.
  - intros Hs t' Hin. rewrite rows_of_record. destruct (decide (t' = t)) as [->|Hnt]; [by apply He, Hs|].
    rewrite Hr by done. apply Hs. by destruct (Htb _ Hin).
Qed.

Lemma insert_moves k now s :
  0 <= seq s -> key_room s -> k_Tenant k ∉ tombstones s ->
  (forall r, r ∈ rows_of (k_Tenant k) s -> KeyID (key r) <> KeyID k) ->
  moves s (record (k_Tenant k) now (insert k s)).
Proof.
  intros Hq Hroom Ht Hk. unfold key_room in Hroom.
  assert (seq (insert k s) = seq s + 1) as Es by (simpl; apply u64_small; unfold is_u64; lia).
  apply moves_record; try done; try (rewrite Es; lia).
  - intros t' Hne. rewrite rows_of_add. by rewrite decide_False.
  - intros Hs. by apply ids_add.
  - by left.
Qed.

Lemma Create_moves ctx clk k s : 0 <= seq s -> key_room s -> moves s (CreateTenant ctx clk k s).1.
Proof.
  intros Hq Hroom. unfold CreateTenant. destruct ctx; [apply moves_refl|].
  destruct (checkKey clk k) as [k'|]; [|apply moves_refl].
  destruct (bool_decide_reflect (k_Tenant k' ∈ tombstones s)); [apply moves_refl|].
  destruct (Z.ltb_spec 0 (Z.of_nat (length (rows_of (k_Tenant k') s)))) as [|Hz]; [apply moves_refl|].
  apply insert_moves; try done. intros r Hr. destruct (rows_of (k_Tenant k') s); [by apply not_elem_of_nil in Hr|].
  simpl in Hz. lia.
Qed.

Lemma Put_moves ctx clk k s : 0 <= seq s -> key_room s -> moves s (PutKey ctx clk k s).1.
Proof.
  intros Hq Hroom. unfold PutKey. destruct ctx; [apply moves_refl|].
  destruct (checkKey clk k) as [k'|]; [|apply moves_refl].
  destruct (bool_decide_reflect (k_Tenant k' ∈ tombstones s)); [apply moves_refl|].
  destruct (find _ _ _) eqn:Ef; [apply moves_refl|]. apply insert_moves; try done.
  intros r Hr. by eapply key_find_None.
Qed.

(** The guards of a rotation that goes through. *)
Lemma Rotate_Ok ctx clk r s s' :
  Rotate ctx clk r s = (s', None) ->
  exists next i sg, Rotation_Valid r = true /\ checkKey clk (Next r) = Ok next /\
    k_Tenant next ∉ tombstones s /\ signer (k_Tenant next) (now_of clk) s = Some (i, sg) /\
    KeyID (key sg) = Previous r /\ find (k_Tenant next) (KeyID next) s = None /\
    becomesSigner next i (now_of clk) s = true /\
    let prev := mkRow (retire (micro (r_RetiredAt r)) (micro (OverlapUntil r)) (key sg)) (row_seq sg) in
    s' = record (k_Tenant next) (now_of clk)
           (insert next (set_rows (k_Tenant next) (<[i := prev]> (rows_of (k_Tenant next) s)) s)).
Proof.
  unfold Rotate. destruct ctx; [done|]. destruct (Rotation_Valid r); [|done]. simpl.
  destruct (checkKey clk (Next r)) as [next|] eqn:Ec; [|done].
  destruct (bool_decide_reflect (k_Tenant next ∈ tombstones s)); [done|].
  destruct (signer _ _ _) as [[i sg]|] eqn:Es; [|done].
  destruct (bool_decide_reflect (KeyID (key sg) = Previous r)); [|done]. simpl.
  destruct (find _ _ _) eqn:Ef; [done|]. destruct (becomesSigner _ _ _ _) eqn:Eb; [|done]. simpl.
  intros [= <-]. exists next, i, sg. done.
Qed.

Lemma Rotate_Err ctx clk r s : (Rotate ctx clk r s).2 <> None -> (Rotate ctx clk r s).1 = s.
Proof.
  unfold Rotate. destruct ctx; [done|]. destruct (negb _); [done|]. destruct (checkKey _ _); [|done].
  destruct (bool_decide _); [done|]. destruct (signer _ _ _) as [[]|]; [|done].
  destruct (negb _); [done|]. destruct (find _ _ _); [done|]. by destruct (negb _).
Qed.

Lemma size_insert_le t rs s : (size (rows (set_rows t rs s)) <= S (size (rows s)))%nat.
Proof. simpl. rewrite map_size_insert. destruct (rows s !! t); simpl; lia. Qed.

Lemma Rotate_moves ctx clk r s : 0 <= seq s -> key_room s -> moves s (Rotate ctx clk r s).1.
Proof.
  intros Hq Hroom. destruct (Rotate ctx clk r s) as [s' [e|]] eqn:E.
  - pose proof (Rotate_Err ctx clk r s) as Hs. rewrite E in Hs. simpl in *. rewrite Hs by done. apply moves_refl.
  - apply Rotate_Ok in E as (next & i & sg & _ & Hc & Ht & Hsg & Hp & Hf & _ & ->). simpl.
    apply signer_Some in Hsg as [Hi _]. unfold key_room in Hroom.
    set (prev := mkRow _ _). set (s1 := set_rows _ _ s).
    assert (seq (insert next s1) = seq s + 1) as Es by (simpl; apply u64_small; unfold is_u64; lia).
    apply moves_record; try done; try (rewrite Es; lia).
    + intros t' Hne. rewrite rows_of_add, decide_False by done. unfold s1. rewrite rows_of_insert.
      by rewrite decide_False.
    + intros Hs. apply (ids_add next s1); [by apply (ids_set_row _ _ sg)|].
      intros x Hx. unfold s1 in Hx. rewrite rows_of_insert, decide_True in Hx by done.
      apply list_elem_of_lookup in Hx as [j Hj]. rewrite list_lookup_insert in Hj.
      case_decide as Ed.
      * injection Hj as <-. simpl. eapply key_find_None; [done|]. by eapply list_elem_of_lookup_2.
      * eapply key_find_None; [done|]. by eapply list_elem_of_lookup_2.
    + by left.
Qed.

Lemma Revoke_moves ctx clk t s : 0 <= seq s -> key_room s -> moves s (RevokeTenantKeys ctx clk t s).1.
Proof.
  intros Hq Hroom. unfold RevokeTenantKeys, key_room in *. destruct ctx; [apply moves_refl|]. simpl.
  assert (forall t', t' <> t -> rows_of t' (wipe t s).1 = rows_of t' s) as Hr
    by (intros; rewrite rows_of_wipe; by rewrite decide_False).
  assert (rows_of t (wipe t s).1 = []) as Hn by (rewrite rows_of_wipe; by rewrite decide_True).
  destruct (Z.ltb_spec 0 (Z.of_nat (length (rows_of t s)))) as [Hlt|Hz].
  - apply (moves_record t (now_of clk) s (wipe t s).1); try done; try (simpl; lia).
    + intros _. rewrite Hn. constructor.
    + by left.
  - assert (forall t', rows_of t' (wipe t s).1 = rows_of t' s) as Hall.
    { intros t'. destruct (decide (t' = t)) as [->|]; [|by apply Hr]. rewrite Hn.
      destruct (rows_of t s); [done|]. simpl in Hz. lia. }
    change (moves s (wipe t s).1). clear Hr Hn. remember (wipe t s).1 as s1 eqn:E1.
    assert (seq s1 = seq s /\ tombstones s1 = tombstones s /\ feed s1 = feed s /\ pruned s1 = pruned s)
      as (Q1 & Q2 & Q3 & Q4) by (by subst s1).
    split; rewrite ?Q1, ?Q2; try done.
    + intros t' p. unfold announced. by rewrite Q3, Q4.
    + intros t' p _ Hne. destruct Hne. unfold keyset. by rewrite (Hall t').
    + intros Hs t'. rewrite (Hall t'). apply Hs.
    + intros Hs t' Hin. rewrite (Hall t'). by apply Hs.
Qed.

Lemma Tombstone_moves ctx clk t s : 0 <= seq s -> key_room s -> moves s (Tombstone ctx clk t s).1.
Proof.
  intros Hq Hroom. pose proof (Revoke_moves ctx clk t s Hq Hroom) as Hrev.
  unfold Tombstone, RevokeTenantKeys, key_room in *. destruct ctx; [apply moves_refl|]. simpl in *.
  destruct (bool_decide_reflect (t ∈ tombstones s)) as [Hin|Hout]; simpl; [exact Hrev|].
  set (s1 := mkStore _ _ _ _ _).
  assert (forall t', rows_of t' s1 = rows_of t' (wipe t s).1) as Hw by done.
  apply moves_record; try done; try (simpl; lia).
  - simpl. set_solver.
  - intros t' Hne. rewrite Hw, rows_of_wipe. by rewrite decide_False.
  - intros _. rewrite Hw, rows_of_wipe, decide_True by done. constructor.
  - simpl. set_solver.
  - intros _. by rewrite Hw, rows_of_wipe, decide_True.
Qed.

Lemma reap_tenant_moves now t s :
  0 <= seq s < two64 - 1 ->
  moves s (reap_tenant now t s).1 /\ seq (reap_tenant now t s).1 <= seq s + 1.
Proof.
  intros Hq. unfold reap_tenant.
  set (kept := filter (fun r => Verifies (key r) now = true) (rows_of t s)).
  destruct (_ =? 0); [split; [apply moves_refl|simpl; lia]|]. simpl.
  set (s1 := mkStore _ _ _ _ _).
  assert (rows_of t s1 = kept) as Hk.
  { unfold rows_of at 1. simpl. destruct (Z.eqb_spec (Z.of_nat (length kept)) 0) as [E|E].
    - rewrite lookup_delete_eq. by destruct kept.
    - by rewrite lookup_insert_eq. }
  assert (forall t', t' <> t -> rows_of t' s1 = rows_of t' s) as Ho.
  { intros t' Hne. unfold rows_of. simpl. destruct (_ =? 0); [by rewrite lookup_delete_ne|by rewrite lookup_insert_ne]. }
  split; [|rewrite u64_small by (unfold is_u64; lia); lia].
  apply moves_record; try done.
  - intros Hs. rewrite Hk. eapply sublist_NoDup; [apply (Hs t)|]. apply fmap_sublist, sublist_filter.
  - by left.
  - intros Hin Hs. rewrite Hk. unfold kept. by rewrite (Hs Hin).
Qed.

Lemma reap_tenants_moves now ts : forall s,
  0 <= seq s -> seq s + Z.of_nat (length ts) < two64 - 1 -> moves s (reap_tenants now ts s).1.
Proof.
  induction ts as [|t ts IH]; intros s Hq Hroom; [apply moves_refl|]. simpl length in Hroom.
  rewrite Nat2Z.inj_succ in Hroom. cbn [reap_tenants].
  destruct (reap_tenant_moves now t s) as [Hm Hle]; [lia|].
  destruct (reap_tenant now t s) as [s1 n]. simpl in Hm, Hle.
  assert (moves s1 (reap_tenants now ts s1).1) as Hm1.
  { apply IH; [|lia]. pose proof (mv_seq _ _ Hm). lia. }
  destruct (reap_tenants now ts s1) as [s2 n']. by eapply moves_trans.
Qed.

Lemma prune_pruned now es p0 :
  p0 <= fold_left (fun p c => if retained now c then p else Z.max p (c_seq c)) es p0 /\
  forall e, e ∈ es -> retained now e = false ->
    c_seq e <= fold_left (fun p c => if retained now c then p else Z.max p (c_seq c)) es p0.
Proof.
  revert p0. induction es as [|c es IH]; intros p0; simpl; [split; [lia|by intros e []%not_elem_of_nil]|].
  destruct (IH (if retained now c then p0 else Z.max p0 (c_seq c))) as [H1 H2]. split.
  - destruct (retained now c); lia.
  - intros e [->|He]%elem_of_cons Hr; [rewrite Hr in *; lia|by apply H2].
Qed.

Lemma prune_moves now s : moves s (prune now s).
Proof.
  split; simpl; try done; try lia.
  - intros t p [(e & He & Ht & Hp)|Hp].
    + destruct (retained now e) eqn:Er.
      * left. exists e. simpl. rewrite list_elem_of_filter. done.
      * right. simpl. destruct (prune_pruned now (feed s) (pruned s)) as [_ H2]. specialize (H2 e He Er). lia.
    + right. simpl. destruct (prune_pruned now (feed s) (pruned s)) as [H1 _]. lia.
Qed.

Lemma Reap_moves ctx clk s : 0 <= seq s -> key_room s -> moves s (ReapExpired ctx clk s).1.
Proof.
  intros Hq Hroom. unfold ReapExpired. destruct ctx; [apply moves_refl|].
  assert (moves s (reap_tenants (now_of clk) (merge_sort tenant_le (map_to_list (rows s)).*1) s).1) as Hm.
  { apply reap_tenants_moves; [done|]. rewrite (merge_sort_Permutation tenant_le), length_fmap, length_map_to_list.
    unfold key_room in Hroom. lia. }
  destruct (reap_tenants _ _ _) as [s1 n]. simpl in *. eapply moves_trans; [done|]. apply prune_moves.
Qed.

Lemma Reseal_moves ctx r s : moves s (ReplaceSealed ctx r s).1.
Proof.
  unfold ReplaceSealed. destruct ctx; [apply moves_refl|]. destruct (_ || _ || _); [apply moves_refl|].
  destruct (find _ _ _) as [[i x]|] eqn:Ef; [|apply moves_refl].
  destruct (negb _); [apply moves_refl|]. simpl.
  apply list_find_Some in Ef as (Hi & _ & _). set (t := s_Tenant (r_Ref r)) in *.
  set (y := mkRow _ _). split; try done.
  - intros t' p _ Hne. destruct Hne. unfold keyset. rewrite rows_of_insert. case_decide as E; [|done]. subst t'.
    rewrite list_fmap_insert, list_insert_id; [done|]. by rewrite list_lookup_fmap, Hi.
  - intros Hs. by apply (ids_set_row t i x y).
  - intros Hs t' Hin. rewrite rows_of_insert. case_decide as E; [|by apply Hs]. subst t'.
    specialize (Hs t Hin). by rewrite Hs in Hi.
Qed.

Lemma key_exec_moves o s : 0 <= seq s -> key_room s -> moves s (key_exec o s).
Proof.
  intros Hq Hroom. destruct o; simpl.
  - by apply Create_moves.
  - by apply Put_moves.
  - by apply Rotate_moves.
  - by apply Revoke_moves.
  - by apply Tombstone_moves.
  - by apply Reap_moves.
  - apply Reseal_moves.
Qed.

Lemma key_run_moves s os s' : 0 <= seq s -> key_run s os s' -> moves s s'.
Proof.
  intros Hq Hr. induction Hr as [s|s o os s' Hroom Hr IH]; [apply moves_refl|].
  pose proof (key_exec_moves o s Hq Hroom) as Hm. eapply moves_trans; [done|].
  apply IH. pose proof (mv_seq _ _ Hm). lia.
Qed.

(** Every reachable store. *)
Record key_inv (s : Store) : Prop := {
  ki_seq : 0 <= seq s;
  ki_ids : ids_ok s;
  ki_empty t : t ∈ tombstones s -> rows_of t s = [] }.

Lemma key_reachable_inv s : key_reachable s -> key_inv s.
Proof.
  intros [os Hr]. pose proof (key_run_moves NewWithClock os s ltac:(simpl; lia) Hr) as Hm. split.
  - pose proof (mv_seq _ _ Hm). simpl in *. lia.
  - apply (mv_ids _ _ Hm). intros t. unfold rows_of. simpl. rewrite lookup_empty. constructor.
  - apply (mv_empty _ _ Hm). simpl. set_solver.
Qed.

(** ** Properties *)

Lemma becomesSigner_spec next i now s :
  becomesSigner next i now s = true ->
  IsActive next now = true /\
  forall j b, rows_of (k_Tenant next) s !! j = Some b -> j <> i -> IsActive (key b) now = true ->
    newest next (key b) <= 0.
Proof.
  unfold becomesSigner. destruct (IsActive next now); [|done]. simpl. intros Hf. split; [done|].
  intros j b Hb Hne Ha. rewrite forallb_forall in Hf. specialize (Hf (j, b)). simpl in Hf.
  rewrite Ha in Hf. destruct (Nat.eqb_spec j i); [done|]. simpl in Hf.
  destruct (Z.ltb_spec 0 (newest next (key b))); [|done]. discriminate Hf.
  apply list_elem_of_In, (list_elem_of_lookup_2 _ j). by rewrite list_lookup_imap, Hb.
Qed.

Lemma retired_inactive k retired until now : IsActive (retire retired until k) now = false.
Proof. done. Qed.

Lemma retired_stops k retired until now : until <= now -> Verifies (retire retired until k) now = false.
Proof.
  intros Hn. unfold Verifies, IsExpired, retire, time_IsZero, time_Before, time_After. simpl.
  destruct (Z.eqb_spec (NotAfter k) 0); simpl.
  - destruct (Z.eqb_spec until 0); [done|]. simpl. destruct (Z.ltb_spec now until); [lia|done].
  - destruct (Z.ltb_spec until (NotAfter k)); simpl.
    + destruct (Z.eqb_spec until 0); [done|]. simpl. destruct (Z.ltb_spec now until); [lia|done].
    + destruct (Z.eqb_spec (NotAfter k) 0); [done|]. simpl. destruct (Z.ltb_spec now (NotAfter k)); [lia|done].
Qed.

(** The signer of the rows a rotation leaves. *)
Lemma rotated_signer t now s next i sg prev n :
  becomesSigner next i now s = true -> k_Tenant next = t -> rows_of t s !! i = Some sg ->
  IsActive (key prev) now = false -> find t (KeyID next) s = None ->
  exists j, signer_loop (<[i := prev]> (rows_of t s) ++ [mkRow next n]) 0 now None = Some (j, mkRow next n).
Proof.
  intros [Ha Hb]%becomesSigner_spec <- Hi Hp Hf. rewrite signer_loop_app. simpl. rewrite Ha. simpl.
  destruct (signer_loop _ 0 now None) as [[j b]|] eqn:E; [|eauto].
  apply signer_loop_Some in E as [|(h & -> & Hh & Hact)]; [done|].
  rewrite list_lookup_insert in Hh. case_decide as Ed.
  - injection Hh as <-. congruence.
  - assert (h <> i) as Hne by (intros ->; apply Ed; split; [done|by eapply lookup_lt_Some]).
    pose proof (Hb h b Hh Hne Hact) as Hle.
    assert (newest next (key b) <> 0) as Hnz.
    { intros Hz%newest_id. eapply (key_find_None _ _ _ b Hf); [by eapply list_elem_of_lookup_2|done]. }
    destruct (Z.ltb_spec (newest next (key b)) 0); [eauto|lia].
Qed.

(** A rotation hands the signature over, once.  When it succeeds the named key was the signer and
    the new one is the signer at once; the old one is retired and verifies nothing from the end of
    the overlap on; and a second rotation away from the same key, whenever and with whatever key,
    is refused and changes nothing. *)
Theorem rotation_hands_over_once ctx clk r s s' :
  key_reachable s -> key_room s -> Rotate ctx clk r s = (s', None) ->
  let t := k_Tenant (Next r) in
  (exists i sg, signer t (now_of clk) s = Some (i, sg) /\ KeyID (key sg) = Previous r) /\
  (exists k, ActiveKey None clk t s' = Ok k /\ KeyID k = KeyID (Next r)) /\
  (exists x, x ∈ rows_of t s' /\ KeyID (key x) = Previous r /\
     forall now, micro (OverlapUntil r) <= now -> Verifies (key x) now = false) /\
  (forall ctx' clk' r', k_Tenant (Next r') = t -> Previous r' = Previous r ->
     exists e, Rotate ctx' clk' r' s' = (s', Some e)).
Proof.
  intros Hs%key_reachable_inv Hroom E t.
  pose proof (Rotate_moves ctx clk r s (ki_seq _ Hs) Hroom) as Hm. rewrite E in Hm. simpl in Hm.
  pose proof (mv_ids _ _ Hm (ki_ids _ Hs)) as Hids.
  apply Rotate_Ok in E as (next & i & sg & Hv & Hc & Ht & Hsg & Hp & Hf & Hb & ->).
  destruct (checkKey_Ok _ _ _ Hc) as (Et & Ek & _ & _). change (k_Tenant next = t) in Et. clearbody t.
  rewrite Et in *.
  pose proof (signer_Some _ _ _ _ _ Hsg) as [Hi Hact].
  set (prev := mkRow (retire (micro (r_RetiredAt r)) (micro (OverlapUntil r)) (key sg)) (row_seq sg)) in *.
  set (s1 := set_rows t (<[i := prev]> (rows_of t s)) s) in *.
  assert (rows_of t (record t (now_of clk) (insert next s1))
    = <[i := prev]> (rows_of t s) ++ [mkRow next (u64 (seq s1 + 1))]) as Hrows.
  { rewrite rows_of_record, rows_of_add, Et, decide_True by done. unfold s1 at 1.
    by rewrite rows_of_insert, decide_True. }
  assert (rows_of t (record t (now_of clk) (insert next s1)) !! i = Some prev) as Hprev.
  { rewrite Hrows. apply lookup_app_l_Some, list_lookup_insert_eq. by eapply lookup_lt_Some. }
  split; [by exists i, sg|]. split; [|split].
  - destruct (rotated_signer t (now_of clk) s next i sg prev (u64 (seq s1 + 1)) Hb Et Hi eq_refl Hf) as [j Hj].
    unfold ActiveKey, signer. rewrite Hrows, Hj. eexists. split; [done|]. exact Ek.
  - exists prev. split; [by eapply list_elem_of_lookup_2|]. split; [exact Hp|]. apply retired_stops.
  - intros ctx' clk' r' Et' Ep'. pose proof (Rotate_Err ctx' clk' r' (record t (now_of clk) (insert next s1))) as Herr.
    destruct (Rotate ctx' clk' r' _) as [s2 [e|]] eqn:E2; [exists e; simpl in Herr; by rewrite Herr|exfalso].
    apply Rotate_Ok in E2 as (n2 & i2 & sg2 & _ & Hc2 & _ & Hsg2 & Hp2 & _).
    destruct (checkKey_Ok _ _ _ Hc2) as (Et2 & _). rewrite Et2, Et' in Hsg2.
    apply signer_Some in Hsg2 as [Hi2 Hact2].
    assert (i2 = i) as ->.
    { apply (NoDup_lookup _ _ _ (Previous r) (Hids t)); rewrite list_lookup_fmap, ?Hi2, ?Hprev; simpl; congruence. }
    assert (sg2 = prev) as -> by congruence. done.
Qed.

Definition k_acme : TenantID := mkTenantID "acme".

Definition k_t0 : time := 1000000 * Second.

Definition sample_key (id : string) (at_ : time) : Key :=
  mkKey k_acme id "EdDSA" [Byte.x01] AADVersionCurrent at_ time_zero None.

Definition kstore1 : Store := key_exec (KCreate None k_t0 (sample_key "k1" k_t0)) NewWithClock.

Definition sample_rotation : Rotation :=
  mkRotation "k1" (sample_key "k2" (k_t0 + Second)) (k_t0 + Second) (k_t0 + 60 * Second).

Lemma kstore1_reachable : key_reachable kstore1.
Proof.
  exists [KCreate None k_t0 (sample_key "k1" k_t0)]. apply key_run_cons; [vm_compute; reflexivity|apply key_run_nil].
Qed.

Lemma rotation_hands_over_once_witness :
  exists s' k, Rotate None (k_t0 + Second) sample_rotation kstore1 = (s', None) /\
    ActiveKey None (k_t0 + Second) k_acme s' = Ok k /\ KeyID k = "k2".
Proof.
  destruct (Rotate None (k_t0 + Second) sample_rotation kstore1) as [s' e] eqn:E.
  assert (e = None) as Ee.
  { change e with (s', e).2. rewrite <- E. vm_compute. reflexivity. }
  rewrite Ee in E |- *.
  destruct (rotation_hands_over_once None (k_t0 + Second) sample_rotation kstore1 s') as (_ & (k & Hk & Hid) & _).
  - exact kstore1_reachable.
  - vm_compute. reflexivity.
  - exact E.
  - exists s', k. split; [reflexivity|]. split; [exact Hk|exact Hid].
Defined.

(** An erased tenant is never provisioned again.  Once Tombstone has succeeded, whatever operations
    follow, in any order, the tenant has no key: nothing signs or verifies for it, and inserting a
    well-formed key for it, by creation, insertion or rotation, is refused as tombstoned. *)
Theorem erased_tenant_stays_erased clk t s os s' :
  key_reachable s -> key_room s -> key_run (Tombstone None clk t s).1 os s' ->
  rows_of t s' = [] /\ IsTombstoned None t s' = Ok true /\
  (forall clk', ActiveKey None clk' t s' = Err ErrNoActiveKey /\ VerificationKeys None clk' t s' = Ok []) /\
  (forall clk' k k', checkKey clk' k = Ok k' -> k_Tenant k = t ->
     CreateTenant None clk' k s' = (s', Some (ErrTenantTombstoned : error)) /\
     PutKey None clk' k s' = (s', Some (ErrTenantTombstoned : error))) /\
  (forall clk' r k', Rotation_Valid r = true -> checkKey clk' (Next r) = Ok k' -> k_Tenant (Next r) = t ->
     Rotate None clk' r s' = (s', Some (ErrTenantTombstoned : error))).
Proof.
  intros Hs%key_reachable_inv Hroom Hrun.
  pose proof (Tombstone_moves None clk t s (ki_seq _ Hs) Hroom) as Hm1.
  assert (t ∈ tombstones (Tombstone None clk t s).1) as Ht.
  { unfold Tombstone. simpl. destruct (bool_decide_reflect (t ∈ tombstones s)) as [Hin|]; simpl; [|set_solver].
    by destruct (0 <? _). }
  set (s1 := (Tombstone None clk t s).1) in *.
  assert (0 <= seq s1) as Hq by (pose proof (mv_seq _ _ Hm1); pose proof (ki_seq _ Hs); lia).
  pose proof (key_run_moves s1 os s' Hq Hrun) as Hm2. pose proof (moves_trans _ _ _ Hm1 Hm2) as Hm.
  assert (t ∈ tombstones s') as Ht' by (by apply (mv_tomb _ _ Hm2)).
  pose proof (mv_empty _ _ Hm (ki_empty _ Hs) t Ht') as Hr.
  assert (bool_decide (t ∈ tombstones s') = true) as Hd by (by apply bool_decide_eq_true).
  split; [done|]. split; [unfold IsTombstoned; by rewrite Hd|]. split; [|split].
  - intros clk'. unfold ActiveKey, VerificationKeys, signer. by rewrite Hr.
  - intros clk' k k' Hk Et. destruct (checkKey_Ok _ _ _ Hk) as [Et' _]. unfold CreateTenant, PutKey.
    by rewrite Hk, Et', Et, Hd.
  - intros clk' r k' Hv Hk Et. destruct (checkKey_Ok _ _ _ Hk) as [Et' _]. unfold Rotate.
    rewrite Hv, Hk, Et', Et, Hd. done.
Qed.

Lemma erased_tenant_stays_erased_witness :
  let os := [KPut None k_t0 (sample_key "k9" k_t0)] in
  let s1 := (Tombstone None k_t0 k_acme kstore1).1 in
  rows_of k_acme (key_exec (KPut None k_t0 (sample_key "k9" k_t0)) s1) = [].
Proof.
  cbv zeta. apply (erased_tenant_stays_erased k_t0 k_acme kstore1 [KPut None k_t0 (sample_key "k9" k_t0)]).
  - exact kstore1_reachable.
  - vm_compute. reflexivity.
  - apply key_run_cons; [vm_compute; reflexivity|apply key_run_nil].
Defined.

(** ** The feed *)

Lemma changes_loop_elem es c t : forall seen out last,
  t ∈ map ch_Tenant (changes_loop es c seen out last).1 <->
  t ∈ map ch_Tenant out \/ (t ∉ seen /\ exists e, e ∈ es /\ c_tenant e = t /\ Position c < c_seq e).
Proof.
  induction es as [|e es IH]; intros seen out last; cbn [changes_loop].
  - split; [by left|]. intros [?|(_ & e & []%not_elem_of_nil & _)]; done.
  - destruct (Z.leb_spec (c_seq e) (Position c)) as [Hle|Hgt].
    + rewrite IH. setoid_rewrite elem_of_cons.
      split; [intros [?|(H1 & x & H2 & H3 & H4)]; [by left|right; eauto 10]|].
      intros [?|(H1 & x & [->|H2] & H3 & H4)]; [by left|lia|right; eauto 10].
    + setoid_rewrite elem_of_cons. destruct (bool_decide_reflect (c_tenant e ∈ seen)) as [Hin|Hout]; rewrite IH.
      * split; [intros [?|(H1 & x & H2 & H3 & H4)]; [by left|right; eauto 10]|].
        intros [?|(H1 & x & [->|H2] & H3 & H4)]; [by left|by subst|right; eauto 10].
      * rewrite map_app, elem_of_app. cbn [map ch_Tenant].
        rewrite list_elem_of_singleton, not_elem_of_union, not_elem_of_singleton. split.
        -- intros [[?| ->]|([H0 H1] & x & H2 & H3 & H4)]; [by left|right; eauto 10|right; eauto 10].
        -- intros [?|(H1 & x & [->|H2] & H3 & H4)]; [by left; left|by left; right|].
           destruct (decide (t = c_tenant e)) as [->|Hne]; [by left; right|right]. eauto 10.
Qed.

Lemma changes_loop_NoDup es c : forall seen out last,
  NoDup (map ch_Tenant out) -> (forall x, x ∈ map ch_Tenant out -> x ∈ seen) ->
  NoDup (map ch_Tenant (changes_loop es c seen out last).1).
Proof.
  induction es as [|e es IH]; intros seen out last Hnd Hsub; cbn [changes_loop]; [done|].
  destruct (c_seq e <=? Position c); [by apply IH|].
  destruct (bool_decide_reflect (c_tenant e ∈ seen)) as [Hin|Hout]; apply IH; try done.
  - rewrite map_app. apply NoDup_app. split; [done|]. split; [|apply NoDup_singleton].
    intros x Hx Hy%list_elem_of_singleton. subst x. by apply Hout, Hsub.
  - intros x. rewrite map_app, elem_of_app. intros [Hx|Hx%list_elem_of_singleton]; [|set_solver].
    apply elem_of_union. right. by apply Hsub.
Qed.

(** A poller that holds a position of the feed is told of every keyset that changes.  Over any run
    of operations, reaping included, a poll from a non-zero position that was within the feed either
    names, once each, every tenant whose keys were added, retired or removed since, or fails with
    the error that tells the poller to start afresh. *)
Theorem keyset_changes_are_told s os s' c :
  key_reachable s -> key_run s os s' -> 0 < Position c <= seq s ->
  match ChangesSince None c s' with
  | (_, _, Some e) => Is e ErrNotFound = true
  | (cs, _, None) => NoDup (map ch_Tenant cs) /\
      forall t, keyset t s' <> keyset t s -> t ∈ map ch_Tenant cs
  end.
Proof.
  intros Hs%key_reachable_inv Hrun Hc. pose proof (key_run_moves s os s' (ki_seq _ Hs) Hrun) as Hm.
  unfold ChangesSince, Cursor_IsZero. destruct (Z.eqb_spec (Position c) 0); [lia|]. simpl.
  destruct (Z.ltb_spec (Position c) (pruned s')) as [Hlt|Hge]; [done|].
  destruct (changes_loop (feed s') c ∅ [] c) as [cs c'] eqn:E.
  replace cs with (changes_loop (feed s') c ∅ [] c).1 by (by rewrite E). split.
  - apply changes_loop_NoDup; [constructor|]. by intros x []%not_elem_of_nil.
  - intros t Hne. apply changes_loop_elem. right. split; [set_solver|].
    destruct (mv_told _ _ Hm t (Position c) ltac:(lia) Hne) as [?|?]; [done|lia].
Qed.

Lemma keyset_changes_are_told_witness :
  exists cs c, ChangesSince None (RestoreCursor 2) (key_exec (KRevoke None k_t0 k_acme) kstore1) = (cs, c, None) /\
    k_acme ∈ map ch_Tenant cs.
Proof.
  pose proof (keyset_changes_are_told kstore1 [KRevoke None k_t0 k_acme]
    (key_exec (KRevoke None k_t0 k_acme) kstore1) (RestoreCursor 2) kstore1_reachable) as H.
  destruct (ChangesSince None (RestoreCursor 2) (key_exec (KRevoke None k_t0 k_acme) kstore1)) as [[cs c] e] eqn:E.
  assert (e = None) as Ee.
  { change e with (cs, c, e).2. rewrite <- E. vm_compute. reflexivity. }
  rewrite Ee in H |- *. exists cs, c. split; [reflexivity|]. apply H.
  - apply key_run_cons; [vm_compute; reflexivity|apply key_run_nil].
  - split; vm_compute; congruence.
  - vm_compute. discriminate.
Defined.
