(* ===== verification/Revocation.v ===== *)
(** The three revocation caches of internal/revoke: subject epochs (epochs.go), session families
    (families.go) and tenant keysets (keys.go).

    The part of a store a cache reads is a class of operations; the in-memory identity, token
    and key stores are instances.  The cache itself is a [follower].  A call that reads the cache twice
    may see the store in two states, so [Check] is given both. *)
From stdpp Require Import pretty.
From S2P Require Import Prelude Errors Tenant StoreBase TokenRecord TokenStore.
From S2P Require Import IdentityRecord IdentityStore KeyStore Lru.
Import Tokens Follower.

(** ** Subject epochs *)
Module Epochs.

Class EpochSource (St : Type) := {
  CurrentEpoch : Ctx -> Subject -> St -> res Z;
  EpochsChangedSince : Ctx -> Cursor -> St -> list Identity.EpochChange * Cursor * option error }.

#[global] Instance memory_epoch_source : EpochSource IdentityMemory.Store := {
  CurrentEpoch := IdentityMemory.CurrentEpoch;
  EpochsChangedSince := IdentityMemory.EpochsChangedSince }.

Definition Epochs := follower Subject Z.

Section epochs.
Context {St : Type} `{EpochSource St}.

Definition NewEpochs (src : option St) (Capacity : Z) : res Epochs :=
  match src with
  | None => Err (Join VErrInvalidConfig (New "revoke: nil epoch source"))
  | Some _ => newFollower "epochs" Capacity true
  end.

Definition epoch_feed (ctx : Ctx) (st : St) (c : Cursor) : list Subject * Cursor * option error :=
  let '(changes, next, err) := EpochsChangedSince ctx c st in
  match err with
  | Some err => ([], c, Some err)
  | None => (map Identity.ec_Subject changes, next, None)
  end.

Definition Current (ctx : Ctx) (now now' : time) (st : St) (s : Subject) (e : Epochs)
  : res (Epochs * res Z * list event) :=
  get ctx now now' (fun k => CurrentEpoch ctx k st) s e.

(** The error Check returns for a failed read. *)
Definition epoch_error (err : error) : error :=
  if Is err ErrNotFound then Join ErrStaleEpoch err else err.

Definition epoch_verdict (sealed cur : Z) : option error :=
  if negb (cur =? sealed)
  then Some (Join ErrStaleEpoch
         (New ("revoke: sealed epoch " +:+ pretty sealed +:+ ", current " +:+ pretty cur)))
  else None.

(** [st'] is the store when the second read happens, [n3] and [n4] its clock readings. *)
Definition Check (ctx : Ctx) (n1 n2 n3 n4 : time) (st st' : St) (s : Subject) (sealed : Z) (e : Epochs)
  : res (Epochs * option error * list event) :=
  '(e, r, evs) ← get ctx n1 n2 (fun k => CurrentEpoch ctx k st) s e;
  match r with
  | Err err => Ok (e, Some (epoch_error err), evs)
  | Ok cur =>
      if cur <? sealed
      then
        e ← forget s e;
        '(e, r, evs') ← get ctx n3 n4 (fun k => CurrentEpoch ctx k st') s e;
        match r with
        | Err err => Ok (e, Some (epoch_error err), evs ++ evs')
        | Ok cur => Ok (e, epoch_verdict sealed cur, evs ++ evs')
        end
      else Ok (e, epoch_verdict sealed cur, evs)
  end.
End epochs.
End Epochs.

(** ** Session families *)
Module Families.

Class FamilySource (St : Type) := {
  FamilyState_at : Ctx -> TenantID -> uuid -> St -> res FamilyState;
  RevocationsSince : Ctx -> Cursor -> St -> list Revocation * Cursor * option error }.

#[global] Instance memory_family_source : FamilySource TokensMemory.Store := {
  FamilyState_at := TokensMemory.FamilyState_of;
  RevocationsSince := TokensMemory.RevocationsSince }.

Record Family := mkFamily { ID : uuid; Lineage : uuid }.

Definition familyKey := (TenantID * uuid)%type.

Definition Families := follower familyKey FamilyState.

Section families.
Context {St : Type} `{FamilySource St}.

Definition NewFamilies (src : option St) (Capacity : Z) : res Families :=
  match src with
  | None => Err (Join VErrInvalidConfig (New "revoke: nil family source"))
  | Some _ => newFollower "families" Capacity true
  end.

Definition family_feed (ctx : Ctx) (st : St) (c : Cursor) : list familyKey * Cursor * option error :=
  let '(revs, next, err) := RevocationsSince ctx c st in
  match err with
  | Some err => ([], c, Some err)
  | None => (map (fun r => (rv_Tenant r, rv_Family r)) revs, next, None)
  end.

Definition family_lookup (ctx : Ctx) (st : St) (k : familyKey) : res FamilyState :=
  FamilyState_at ctx k.1 k.2 st.

Definition Forget (t : TenantID) (family : uuid) (f : Families) : res Families := forget (t, family) f.

(** [range] is the order in which Go visits the cached entries. *)
Definition ForgetSubject (range : list familyKey) (s : Subject) (keep : uuid) (f : Families)
  : res Families :=
  forgetWhere range (fun _ st => bool_decide (fs_Subject st = s)
    && ((keep =? uuid_Nil) || negb (fs_Lineage st =? keep))) f.

Definition ForgetTenant (range : list familyKey) (t : TenantID) (f : Families) : res Families :=
  forgetWhere range (fun k _ => bool_decide (k.1 = t)) f.

(** The switch of Live, once a state is known; [now] is its own reading of the clock. *)
Definition live_verdict (now : time) (s : Subject) (family : Family) (st : FamilyState) : option error :=
  if negb (bool_decide (fs_Subject st = s))
  then Some (Join ErrNotLive (New "revoke: family of another subject"))
  else if negb (fs_Lineage st =? Lineage family)
  then Some (Join ErrNotLive (New "revoke: family of another lineage"))
  else if negb (Tokens.Live st now)
  then Some (Join ErrNotLive (New "revoke: family revoked or expired"))
  else None.

Definition Live (ctx : Ctx) (n1 n2 n3 : time) (st : St) (s : Subject) (family : Family) (f : Families)
  : res (Families * option error * list event) :=
  '(f, r, evs) ← get ctx n1 n2 (family_lookup ctx st) (Tenant s, ID family) f;
  match r with
  | Err err =>
      Ok (f, Some (if Is err ErrNotFound then Join ErrNotLive err else err), evs)
  | Ok fs => Ok (f, live_verdict n3 s family fs, evs)
  end.
End families.
End Families.

(** ** Tenant keysets *)
Module Keys.

Class KeySource (St : Type) := {
  ChangesSince : Ctx -> Cursor -> St -> list KeyTypes.Change * Cursor * option error }.

#[global] Instance memory_key_source : KeySource KeysMemory.Store := {
  ChangesSince := KeysMemory.ChangesSince }.

Section keys.
Context {St V : Type} `{KeySource St}.

Definition Keys := follower TenantID V.

(** [has_load] tells whether a load function was given. *)
Definition NewKeys (src : option St) (has_load : bool) (Capacity : Z) : res Keys :=
  match src with
  | None => Err (Join VErrInvalidConfig (New "revoke: nil key source"))
  | Some _ => newFollower "keys" Capacity has_load
  end.

Definition key_feed (ctx : Ctx) (st : St) (c : Cursor) : list TenantID * Cursor * option error :=
  let '(changes, next, err) := ChangesSince ctx c st in
  match err with
  | Some err => ([], c, Some err)
  | None => (map KeyTypes.ch_Tenant changes, next, None)
  end.

Definition Get (ctx : Ctx) (now now' : time) (load : TenantID -> res V) (t : TenantID) (k : Keys)
  : res (Keys * res V * list event) := get ctx now now' load t k.

Definition Forget (t : TenantID) (k : Keys) : res Keys := forget t k.
End keys.
End Keys.
