(* ===== verification/RevokeProperties.v ===== *)
(** What the revocation caches promise: the linked list implements a bounded list of bindings, a
    poll ends and catches up, a cached answer is never older than the poll bound, and the checks made
    through the caches fail closed. *)
From stdpp Require Import pretty.
From S2P Require Import Prelude Errors Tenant StoreBase TokenRecord TokenStore.
From S2P Require Import TokenStoreFacts TokenStoreRun TokenStoreProperties Journey.
From S2P Require Import Lru LruFacts Revocation.
Import Lru Tokens Follower.

(** ** The list under the cache *)
Section lru_ops.
Context {K V : Type} `{Countable K}.

Inductive lru_op :=
  | OGet (k : K)
  | OPut (k : K) (v : V)
  | ORemove (k : K)
  | ORemoveWhere (drop : K -> V -> bool)
  | OClear.

(** [order] is the order in which Go visits the map's keys. *)
Definition lru_exec (order : list K -> list K) (o : lru_op) (l : lru K V) : res (lru K V * option V) :=
  match o with
  | OGet k => Lru.get k l
  | OPut k v => l ← put k v l; Ok (l, None)
  | ORemove k => l ← remove k l; Ok (l, None)
  | ORemoveWhere drop => l ← removeWhere (order (map_to_list (items l)).*1) drop l; Ok (l, None)
  | OClear => Ok (clear l, None)
  end.

Definition lru_spec (cap : Z) (o : lru_op) (xs : list (K * V)) : list (K * V) * option V :=
  match o with
  | OGet k => spec_get k xs
  | OPut k v => (spec_put cap k v xs, None)
  | ORemove k => (without k xs, None)
  | ORemoveWhere drop => (spec_removeWhere drop xs, None)
  | OClear => ([], None)
  end.

Fixpoint lru_run (order : list K -> list K) (os : list lru_op) (l : lru K V)
  : res (lru K V * list (option V)) :=
  match os with
  | [] => Ok (l, [])
  | o :: os' =>
      '(l, a) ← lru_exec order o l;
      '(l, answers) ← lru_run order os' l;
      Ok (l, a :: answers)
  end.

Fixpoint lru_spec_run (cap : Z) (os : list lru_op) (xs : list (K * V)) : list (K * V) * list (option V) :=
  match os with
  | [] => (xs, [])
  | o :: os' =>
      let '(xs, a) := lru_spec cap o xs in
      let '(xs, answers) := lru_spec_run cap os' xs in
      (xs, a :: answers)
  end.

Lemma rep_items (l : lru K V) xs k : rep l xs -> (exists p, items l !! k = Some p) <-> k ∈ xs.*1.
Proof.
  intros (ls & Hc & Hnd & Hm). split.
  - intros [p (i & v & _ & Hx)%Hm]. apply list_elem_of_fmap. exists (k, v).
    split; [done|by eapply list_elem_of_lookup_2].
  - intros ([k' v] & -> & [i Hx]%list_elem_of_lookup)%list_elem_of_fmap. simpl.
    destruct (lookup_lt_is_Some_2 ls i) as [p Hp].
    { rewrite (ch_len _ _ _ Hc). by eapply lookup_lt_Some. }
    exists p. apply Hm. eauto.
Qed.

Lemma lru_exec_sim order o (l : lru K V) xs :
  (forall ks, order ks ≡ₚ ks) -> rep l xs -> 0 <= capacity l -> Z.of_nat (length xs) <= capacity l ->
  exists l', lru_exec order o l = Ok (l', (lru_spec (capacity l) o xs).2) /\
    rep l' (lru_spec (capacity l) o xs).1 /\ capacity l' = capacity l /\
    Z.of_nat (length (lru_spec (capacity l) o xs).1) <= capacity l.
Proof.
  intros Ho Hr Hc Hlen. pose proof Hr as (ls & _ & Hnd & _). destruct o as [k|k v|k|drop|]; simpl.
  - destruct (get_rep k l xs Hr) as (l' & -> & Hr' & E). exists l'. by rewrite spec_get_length.
  - destruct (put_rep k v l xs Hr Hc Hlen) as (l' & -> & Hr' & E). exists l'.
    split_and!; try done. by apply spec_put_length.
  - destruct (remove_rep k l xs Hr) as (l' & -> & Hr' & E). exists l'. split_and!; try done.
    pose proof (bindings_filter_le (fun kv => kv.1 <> k) xs). unfold without. lia.
  - destruct (removeWhere_rep (order (map_to_list (items l)).*1) drop l xs Hr) as (l' & -> & Hr' & E).
    exists l'. split_and!; [done| |done|].
    + unfold spec_removeWhere. erewrite list_filter_ext; [exact Hr'|].
      intros [k v] Hin. simpl. assert (k ∈ order (map_to_list (items l)).*1) as Hk; [|naive_solver].
      rewrite Ho. destruct (proj2 (rep_items l xs k Hr)) as [p Hp].
      { apply list_elem_of_fmap. by exists (k, v). }
      apply list_elem_of_fmap. exists (k, p). split; [done|]. by apply elem_of_map_to_list.
    + pose proof (bindings_filter_le (fun kv => drop kv.1 kv.2 = false) xs). unfold spec_removeWhere. lia.
  - exists (clear l). split_and!; [done|by eapply clear_rep|done|simpl; lia].
Qed.

Lemma lru_run_sim order os : (forall ks, order ks ≡ₚ ks) -> forall (l : lru K V) xs,
  rep l xs -> 0 <= capacity l -> Z.of_nat (length xs) <= capacity l ->
  exists l', lru_run order os l = Ok (l', (lru_spec_run (capacity l) os xs).2) /\
    rep l' (lru_spec_run (capacity l) os xs).1 /\ capacity l' = capacity l /\
    Z.of_nat (length (lru_spec_run (capacity l) os xs).1) <= capacity l.
Proof.
  intros Ho. induction os as [|o os IH]; intros l xs Hr Hc Hlen; simpl.
  - exists l. done.
  - destruct (lru_exec_sim order o l xs Ho Hr Hc Hlen) as (l1 & -> & Hr1 & E1 & Hlen1). simpl.
    destruct (lru_spec (capacity l) o xs) as [xs1 a]. simpl in *. rewrite <- E1 in *.
    destruct (IH l1 xs1 Hr1 Hc Hlen1) as (l2 & -> & Hr2 & E2 & Hlen2). simpl.
    destruct (lru_spec_run (capacity l1) os xs1) as [xs2 answers]. simpl in *. by exists l2.
Qed.
End lru_ops.
Arguments lru_op K V : clear implicits.

(** C37: the cache's doubly linked list implements its specification.  Whatever sequence of lookups,
    insertions, removals, conditional removals and clearings is made on a new cache, in whatever
    order Go visits the map, no pointer is nil when it is dereferenced; the answers are those of a
    plain list of bindings, most recent first, cut at the capacity; and the cache never holds more
    than its capacity. *)
Theorem lru_implements_bounded_list {K V} `{Countable K} (order : list K -> list K)
    (os : list (lru_op K V)) (cap : Z) :
  (forall ks, order ks ≡ₚ ks) -> 0 <= cap ->
  exists l, lru_run order os (newLRU cap) = Ok (l, (lru_spec_run cap os []).2) /\
    rep l (lru_spec_run cap os []).1 /\
    len l = Z.of_nat (length (lru_spec_run cap os []).1) /\ len l <= cap.
Proof.
  intros Ho Hcap. destruct (lru_run_sim order os Ho (newLRU cap) []) as (l & Hl & Hr & _ & Hlen);
    [apply rep_new|done|simpl; lia|].
  exists l. rewrite (rep_size _ _ Hr). done.
Qed.

Definition sample_ops : list (lru_op Z string) :=
  [OPut 1 "a"; OPut 2 "b"; OGet 1; OPut 3 "c"; OGet 2; ORemoveWhere (fun k _ => k =? 1); OGet 1; OGet 3].

Lemma lru_implements_bounded_list_witness :
  (lru_spec_run 2 sample_ops []).2
    = [None; None; Some "a"; None; None; None; None; Some "c"] /\
  exists l, lru_run (reverse (A := Z)) sample_ops (newLRU 2) = Ok (l, (lru_spec_run 2 sample_ops []).2) /\
    rep l (lru_spec_run 2 sample_ops []).1 /\
    len l = Z.of_nat (length (lru_spec_run 2 sample_ops []).1) /\ len l <= 2.
Proof.
  split; [reflexivity|].
  apply (lru_implements_bounded_list (reverse (A := Z)) sample_ops 2); [|lia].
  intros ks. apply reverse_Permutation.
Defined.

(** ** Polling *)
Section polling.
Context {K V : Type} `{Countable K}.

(** The feed of a store whose changes so far are [log], read [size] changes at a time. *)
Definition log_feed (size : nat) (log : list K) (turn : nat) (c : Cursor)
  : list K * Cursor * option error :=
  let page := take size (drop (Z.to_nat (Position c)) log) in
  (page, RestoreCursor (Position c + Z.of_nat (length page)), None).

Lemma poll_turn_page size log turn p (f : follower K V) xs :
  (0 < size)%nat -> p_cur p = cursor f -> rep (entries f) xs ->
  0 <= Position (cursor f) <= Z.of_nat (length log) ->
  let rest := drop (Z.to_nat (Position (cursor f))) log in
  exists f', poll_turn (log_feed size log turn (p_cur p)) p f
      = Ok (f', if decide (rest = []) then CaughtUp
                else Continue (mkPolling (cursor f') (p_began p) (p_reset p))) /\
    rep (entries f') (filter (fun kv => kv.1 ∉ take size rest) xs) /\
    Position (cursor f') = Position (cursor f) + Z.of_nat (length (take size rest)) /\
    name f' = name f /\ polled f' = polled f /\ lastPoll f' = lastPoll f /\
    capacity (entries f') = capacity (entries f).
Proof.
  intros Hs Hc Hr Hpos rest. unfold poll_turn, log_feed. rewrite Hc. fold rest.
  destruct (remove_all_rep (take size rest) _ _ Hr) as (l & -> & Hr' & Hcap). simpl.
  unfold Cursor_After. simpl. case_decide as Er.
  - rewrite Er, take_nil in *. simpl. rewrite Z.add_0_r, Z.ltb_irrefl. eexists. split; [done|].
    simpl. split_and!; try done; lia.
  - assert (0 < length (take size rest))%nat.
    { rewrite length_take. destruct rest; [done|simpl; lia]. }
    destruct (Z.ltb_spec (Position (cursor f)) (Position (cursor f) + Z.of_nat (length (take size rest)))); [|lia].
    destruct (Z.eqb_spec (Z.of_nat (length (take size rest))) 0); [lia|]. simpl.
    exists (bump_gen (set_cursor (RestoreCursor (Position (cursor f) + Z.of_nat (length (take size rest))))
      (set_entries l f))).
    split; [reflexivity|]. done.
Qed.

(** What is left of the bindings after a poll from [c]. *)
Definition unchanged_since (log : list K) (c : Cursor) (xs : list (K * V)) : list (K * V) :=
  filter (fun kv => kv.1 ∉ drop (Z.to_nat (Position c)) log) xs.

Lemma unchanged_page size log c c' (xs : list (K * V)) :
  0 <= Position c ->
  Position c' = Position c + Z.of_nat (length (take size (drop (Z.to_nat (Position c)) log))) ->
  unchanged_since log c' (filter (fun kv => kv.1 ∉ take size (drop (Z.to_nat (Position c)) log)) xs)
  = unchanged_since log c xs.
Proof.
  intros Hc Hc'. unfold unchanged_since. rewrite list_filter_filter. apply list_filter_ext.
  intros [k v] _. simpl.
  assert (drop (Z.to_nat (Position c')) log = drop size (drop (Z.to_nat (Position c)) log)) as ->.
  { rewrite Hc', length_take, drop_drop.
    destruct (decide (size <= length (drop (Z.to_nat (Position c)) log))%nat) as [Hle|Hgt].
    - f_equal. lia.
    - rewrite length_drop in *. rewrite !drop_ge by lia. done. }
  rewrite <- (take_drop size (drop (Z.to_nat (Position c)) log)) at 3.
  rewrite not_elem_of_app. tauto.
Qed.

Lemma poll_loop_outcome size log turns : forall p (f : follower K V) xs,
  (0 < size)%nat -> p_cur p = cursor f -> rep (entries f) xs ->
  0 <= Position (cursor f) <= Z.of_nat (length log) ->
  let left := Z.of_nat (length log) - Position (cursor f) in
  exists f', poll_loop turns (log_feed size log) p f
      = Ok (f', if left <=? (Z.of_nat turns - 1) * Z.of_nat size then None else Some (errBacklog : error)) /\
    capacity (entries f') = capacity (entries f) /\
    (left <= (Z.of_nat turns - 1) * Z.of_nat size ->
       Position (cursor f') = Z.of_nat (length log) /\ rep (entries f') (unchanged_since log (cursor f) xs) /\
       polled f' = true /\ lastPoll f' = p_began p) /\
    ((Z.of_nat turns - 1) * Z.of_nat size < left ->
       Position (cursor f') = Position (cursor f) + Z.of_nat (turns * size) `min` left /\
       polled f' = polled f /\ lastPoll f' = lastPoll f).
Proof.
  induction turns as [|turns IH]; intros p f xs Hs Hc Hr Hpos left.
  - exists f. cbn [poll_loop]. destruct (Z.leb_spec left ((Z.of_nat 0 - 1) * Z.of_nat size)); [lia|].
    split; [done|]. split; [done|]. split; [lia|]. intros _. simpl. split; [lia|done].
  - cbn [poll_loop].
    destruct (poll_turn_page size log (S turns) p f xs Hs Hc Hr Hpos) as (f1 & -> & Hr1 & Ec & _ & Ep & El & Ecap).
    simpl. case_decide as Erest.
    + assert (Z.of_nat (length log) = Position (cursor f)) as E0.
      { apply (f_equal length) in Erest. rewrite length_drop in Erest. simpl in Erest. lia. }
      assert (left = 0) as -> by lia.
      destruct (Z.leb_spec 0 ((Z.of_nat (S turns) - 1) * Z.of_nat size)); [|lia].
      eexists. split; [done|]. split; [done|]. split; [|lia]. intros _. simpl.
      rewrite Erest, take_nil in *. simpl in Ec. split_and!; [lia| |done..].
      unfold unchanged_since. by rewrite Erest.
    + assert (0 < length (drop (Z.to_nat (Position (cursor f))) log))%nat as Hlen
        by (destruct (drop _ log); [done|simpl; lia]).
      rewrite length_take, length_drop in *.
      destruct (IH (mkPolling (cursor f1) (p_began p) (p_reset p)) f1 _ Hs eq_refl Hr1 ltac:(lia))
        as (f2 & -> & Hcap2 & H1 & H2). exists f2. simpl in H1.
      assert (Z.of_nat (length log) - Position (cursor f1) <= (Z.of_nat turns - 1) * Z.of_nat size
              <-> left <= (Z.of_nat (S turns) - 1) * Z.of_nat size) as Hiff.
      { unfold left in *. destruct turns as [|turns]; nia. }
      split; [|split; [congruence|split]].
      * do 2 f_equal. destruct (Z.leb_spec left ((Z.of_nat (S turns) - 1) * Z.of_nat size)), (Z.leb_spec (Z.of_nat (length log) - Position (cursor f1)) ((Z.of_nat turns - 1) * Z.of_nat size)); try done; lia.
      * intros Hle. destruct (H1 ltac:(lia)) as (E1 & E2 & E3 & E4). split_and!; try done.
        rewrite (unchanged_page size log (cursor f) (cursor f1)) in E2; [done|lia|].
        rewrite length_take, length_drop. lia.
      * intros Hgt. destruct (H2 ltac:(lia)) as (E1 & E2 & E3). rewrite E1, E2, E3. split_and!; [|done..]. lia.
Qed.
End polling.

(** C36: a poll ends, and how.  Against a store with any log of changes, read in pages of [size], Poll
    always returns.  When at most 255 pages are waiting it succeeds: the cursor is at the end of the
    log, exactly the bindings of keys changed since are gone, and for PollBound from the moment the
    poll began the cache is ready.  When more are waiting it fails with the backlog error, the cursor
    has advanced by 256 pages or to the end of the log, and the cache is no fresher than before. *)
Theorem poll_ends_and_catches_up {K V} `{Countable K} (size : nat) (log : list K) now
    (f : follower K V) xs :
  (0 < size)%nat -> rep (entries f) xs -> 0 <= Position (cursor f) <= Z.of_nat (length log) ->
  let left := Z.of_nat (length log) - Position (cursor f) in
  exists f' err, Poll now (log_feed size log) f = Ok (f', err) /\
    (left <= 255 * Z.of_nat size ->
       err = None /\ Position (cursor f') = Z.of_nat (length log) /\
       rep (entries f') (unchanged_since log (cursor f) xs) /\
       forall now', now <= now' < now + PollBound -> Ready now' f' = None) /\
    (255 * Z.of_nat size < left ->
       err = Some (errBacklog : error) /\
       Position (cursor f') = Position (cursor f) + Z.min (256 * Z.of_nat size) left /\
       forall now', Ready now' f' = Ready now' f).
Proof.
  intros Hs Hr Hpos left.
  destruct (poll_loop_outcome size log maxPagesPerPoll (poll_begin now f) f xs Hs eq_refl Hr Hpos)
    as (f' & Hp & _ & H1 & H2).
  change (Z.of_nat maxPagesPerPoll - 1) with 255 in *. fold left in Hp, H1, H2.
  exists f', (if left <=? 255 * Z.of_nat size then None else Some (errBacklog : error)).
  split; [exact Hp|]. split; intros Hl.
  - destruct (Z.leb_spec left (255 * Z.of_nat size)); [|lia]. destruct (H1 Hl) as (E1 & E2 & E3 & E4).
    split_and!; try done. intros now' Hn. unfold Ready, freshLocked. rewrite E3, E4. simpl.
    unfold time_Before. destruct (Z.ltb_spec now' now); [lia|]. simpl.
    destruct (Z.ltb_spec (time_Sub now' now) PollBound) as [_|Hge]; [done|].
    revert Hge. unfold time_Sub, two63, PollBound, PollInterval, Second in *. lia.
  - destruct (Z.leb_spec left (255 * Z.of_nat size)); [lia|]. destruct (H2 Hl) as (E1 & E2 & E3).
    split_and!; try done.
    + rewrite E1. unfold maxPagesPerPoll. lia.
    + intros now'. unfold Ready, freshLocked. by rewrite E2, E3.
Qed.

Definition idle_cache : follower Z string :=
  mkFollower "sample" (RestoreCursor 0) 0 false time_zero (newLRU 4).

Lemma poll_ends_and_catches_up_witness :
  exists f' err, Poll 1000 (log_feed 2 [7; 8; 9]) idle_cache = Ok (f', err) /\
    Position (cursor f') = 3 /\ Ready 2000 f' = None.
Proof.
  destruct (poll_ends_and_catches_up 2 [7; 8; 9] 1000 idle_cache []) as (f' & err & Hp & Hok & _).
  - lia.
  - apply rep_new.
  - simpl. lia.
  - exists f', err. destruct Hok as (_ & Hc & _ & Hready); [simpl; lia|].
    split; [exact Hp|]. split; [exact Hc|]. apply Hready. unfold PollBound, PollInterval, Second. lia.
Defined.

(** ** Staleness *)

(** C35: bounded staleness, in every interleaving.  The store's changes, any number of lookups between
    their two critical sections, forgets and the pages of a running poll may be interleaved in any
    order; the cache starts empty.  When a lookup is answered from the cache, the answer is a value
    its key really had: it is at least as recent as the last forget of that key on this instance, and
    it takes into account every change made PollBound or longer ago.  The generation is a uint64: the
    run makes fewer than 2^64 invalidations. *)
Theorem cached_answer_is_recent {K V} `{Countable K} (initial : K -> option V) s k f v :
  reachable initial s -> bumps s < two64 ->
  get_begin k (clk s) (cache s) = Ok (f, inl v) ->
  exists q, value_at initial (log s) k q = Some v /\ (floor s k <= q <= length (log s))%nat /\
    forall i c, log s !! i = Some c -> c_at c + PollBound <= clk s -> (i < q)%nat.
Proof.
  intros Hr Hb Hg. destruct (follower_reachable_inv initial s Hr Hb) as [xs Hi].
  destruct (get_begin_inv initial s xs k f _ Hi Hg) as (_ & _ & _ & Hin & Hf).
  destruct (in_entries _ _ _ Hi k v Hin) as (q & Hv & Hq & _ & Hc & Hfl).
  exists q. split; [done|]. split; [lia|]. intros i c Hl Hold.
  destruct (decide (i < q)%nat) as [|Hge]; [done|exfalso].
  unfold freshLocked in Hf. bools.
  pose proof (in_polled _ _ _ Hi i c ltac:(done) Hl ltac:(lia)).
  assert (time_Sub (clk s) (lastPoll (cache s)) < PollBound) as Hs by done.
  unfold time_Sub, PollBound, PollInterval, Second, two63 in *. lia.
Qed.

(** A cache that has polled once and then cached the value of key 7; a later change is in the log. *)
Definition sample_initial (k : Z) : option string := if k =? 7 then Some "on" else None.

Definition hot_entries : lru Z string :=
  match put 7 "on" (newLRU 2) with Ok l => l | Err _ => newLRU 2 end.

Definition polled_cache : follower Z string :=
  mkFollower "sample" (RestoreCursor 0) 1 true 1000 (newLRU 2).

Definition sample_flight (answer : option (string * nat)) : flight :=
  mkFlight 7 (mkTicket true (RestoreCursor 0) 1) 0 1 answer.

Definition hot_sys_at (log : list change) (f : follower Z string) (fs : list flight)
  : sys (K := Z) (V := string) :=
  mkSys log 1000 f fs Idle 0 (fun _ => 0%nat) 1.

Definition hot_sys : sys :=
  hot_sys_at [mkChange 7 (Some "off") 1000] (set_entries hot_entries polled_cache) [].

Lemma polled_reachable :
  rtc (step sample_initial) (start "sample" 2 1000) (hot_sys_at [] polled_cache []).
Proof.
  eapply rtc_l; [apply step_poll; reflexivity|].
  eapply rtc_l; [eapply step_ask; [reflexivity|apply (feed_page _ _ 1); lia]|].
  eapply rtc_l; [eapply step_turn; [reflexivity|vm_compute; reflexivity]|].
  eapply rtc_l; [eapply step_mark; reflexivity|].
  apply rtc_refl.
Qed.

Lemma hot_put : put 7 "on" (newLRU 2) = Ok hot_entries.
Proof. vm_compute. reflexivity. Qed.

Lemma hot_end :
  get_end 7 "on" (mkTicket true (RestoreCursor 0) 1) 1000 polled_cache
  = Ok (set_entries hot_entries polled_cache).
Proof.
  unfold get_end. change (entries polled_cache) with (newLRU (K := Z) (V := string) 2).
  rewrite hot_put. reflexivity.
Qed.

Lemma hot_sys_reachable : reachable sample_initial hot_sys.
Proof.
  exists "sample", 2, 1000. split; [lia|].
  etrans; [exact polled_reachable|].
  apply rtc_l with (hot_sys_at [] polled_cache [sample_flight None]).
  { apply (step_miss _ (hot_sys_at [] polled_cache []) 7 polled_cache (mkTicket true (RestoreCursor 0) 1)).
    reflexivity. }
  apply rtc_l with (hot_sys_at [] polled_cache [sample_flight (Some ("on", 0%nat))]).
  { apply (step_lookup _ (hot_sys_at [] polled_cache [sample_flight None]) [] (sample_flight None) [] "on");
      reflexivity. }
  apply rtc_l with (hot_sys_at [] (set_entries hot_entries polled_cache) []).
  { apply (step_end _ (hot_sys_at [] polled_cache [sample_flight (Some ("on", 0%nat))]) []
      (sample_flight (Some ("on", 0%nat))) [] "on" 0 (set_entries hot_entries polled_cache));
      [reflexivity..|exact hot_end]. }
  apply rtc_once.
  apply (step_change _ (hot_sys_at [] (set_entries hot_entries polled_cache) []) 7 (Some "off")).
Qed.

Lemma cached_answer_is_recent_witness :
  exists f q, get_begin 7 (clk hot_sys) (cache hot_sys) = Ok (f, inl "on") /\
    value_at sample_initial (log hot_sys) 7 q = Some "on".
Proof.
  destruct (okb_Ok (get_begin 7 (clk hot_sys) (cache hot_sys)) ltac:(vm_compute; reflexivity)) as [[f r] Hg].
  assert (r = inl "on") as ->.
  { apply (f_equal (fun x => match x with Ok (_, r) => Some r | Err _ => None end)) in Hg.
    vm_compute in Hg. by injection Hg as <-. }
  destruct (cached_answer_is_recent sample_initial hot_sys 7 f "on") as (q & Hv & _).
  - exact hot_sys_reachable.
  - vm_compute. reflexivity.
  - exact Hg.
  - exists f, q. split; [exact Hg|exact Hv].
Defined.

(** ** Checks through the caches *)
Section checks.
Context {K V : Type} `{Countable K}.

(** The binding a lookup may use without reading the store. *)
Definition cached (f : follower K V) (xs : list (K * V)) (now : time) (k : K) : option V :=
  if freshLocked f now then find k xs else None.

(** A cache whose list is sound and within its capacity. *)
Definition sound (f : follower K V) (xs : list (K * V)) : Prop :=
  rep (entries f) xs /\ 0 <= capacity (entries f) /\ Z.of_nat (length xs) <= capacity (entries f).

Lemma get_end_sound k v t now (f : follower K V) xs :
  sound f xs -> exists f' xs', get_end k v t now f = Ok f' /\ sound f' xs' /\ name f' = name f.
Proof.
  intros (Hr & Hc & Hl). unfold get_end. destruct (t_fresh t); [|by exists f, xs].
  destruct (_ && _ && _); [|by exists f, xs].
  destruct (put_rep k v _ _ Hr Hc Hl) as (l & -> & Hr' & E). simpl. eexists _, _. split; [done|].
  split; [|done]. split; [exact Hr'|]. simpl. rewrite E. split; [done|]. by apply spec_put_length.
Qed.

(** A whole lookup: the cached binding when it may be used, the store's answer otherwise. *)
Lemma get_answer ctx now now' lookup k (f : follower K V) xs :
  sound f xs ->
  exists f' xs' evs,
    get ctx now now' lookup k f
      = Ok (f', match cached f xs now k with
                | Some v => Ok v
                | None => match lookup k with Ok v => Ok v | Err e => Err (get_failed ctx e f).1 end
                end, evs) /\
    sound f' xs' /\
    (cached f xs now k = None -> forall e, lookup k = Err e -> evs = (get_failed ctx e f).2).
Proof.
  intros Hs. pose proof Hs as (Hr & Hc & Hl). pose proof Hr as (ls & _ & Hnd & _).
  unfold get, get_begin, cached. destruct (freshLocked f now).
  - destruct (get_rep k _ _ Hr) as (l & -> & Hr' & E).
    assert (sound (set_entries l f) (spec_get k xs).1) as Hs'.
    { split; [done|]. simpl. rewrite E, spec_get_length; done. }
    unfold spec_get in *. destruct (find k xs) as [v|]; simpl in *.
    + eexists _, _, []. split; [reflexivity|]. by split.
    + destruct (lookup k) as [v|e].
      * destruct (get_end_sound k v (mkTicket true (cursor f) (gen f)) now' _ _ Hs') as (f' & xs' & -> & Hf & _).
        simpl. eexists _, _, []. split; [reflexivity|]. by split.
      * unfold get_failed. simpl. destruct (Is e ErrNotFound) eqn:En; simpl; eexists _, _, _; (split; [reflexivity|split; [done|]]);
          intros _ e' [= <-]; by rewrite En.
  - simpl. destruct (lookup k) as [v|e].
    + simpl. eexists _, _, []. split; [reflexivity|]. by split.
    + unfold get_failed. destruct (Is e ErrNotFound) eqn:En; simpl; eexists _, _, _; (split; [reflexivity|split; [done|]]);
          intros _ e' [= <-]; by rewrite En.
Qed.

(** After a forget, the next lookup of the key reads the store. *)
Lemma forget_sound k (f : follower K V) xs :
  sound f xs ->
  exists f', forget k f = Ok f' /\ sound f' (without k xs) /\
    forall now, cached f' (without k xs) now k = None.
Proof.
  intros (Hr & Hc & Hl). unfold forget. destruct (remove_rep k _ _ Hr) as (l & -> & Hr' & E).
  eexists. split; [done|]. split.
  - split; [done|]. simpl. rewrite E. split; [done|].
    pose proof (bindings_filter_le (fun kv => kv.1 <> k) xs). unfold without. lia.
  - intros now. unfold cached. destruct (freshLocked _ now); [|done].
    apply find_None. apply without_keys.
Qed.
End checks.

Lemma live_verdict_spec now s family fs :
  let err := Families.live_verdict now s family fs in
  (err = None <-> fs_Subject fs = s /\ fs_Lineage fs = Families.Lineage family /\
     Revoked fs = false /\ now < fs_ExpiresAt fs) /\
  (forall e, err = Some e -> Is e ErrNotLive = true).
Proof.
  unfold Families.live_verdict, Live, time_Before. simpl.
  destruct (bool_decide_reflect (fs_Subject fs = s)); simpl; [|naive_solver].
  destruct (Z.eqb_spec (fs_Lineage fs) (Families.Lineage family)); simpl; [|naive_solver].
  destruct (Revoked fs); simpl; [naive_solver|].
  destruct (Z.ltb_spec now (fs_ExpiresAt fs)); simpl; split; try naive_solver.
  split; [done|]. intros; lia.
Qed.

Definition unavailable (ctx : Ctx) (f_name : string) : list event :=
  match ctx with None => [RevocationUnavailable f_name] | Some _ => [] end.

(** a family check fails closed.  The state it judges is the cached one when the cache may be
    trusted, the store's otherwise.  The check passes exactly when that state names the same subject
    and lineage, is not revoked and has not expired; every other answer is an error, ErrNotLive when
    the state is known or the family is not, and ErrUnavailable, with an event, when the store cannot
    answer. *)
Theorem family_check_fails_closed {St} `{Families.FamilySource St} ctx n1 n2 n3 (st : St) s family
    (f : Families.Families) xs :
  sound f xs ->
  let k := (Tenant s, Families.ID family) in
  exists f' err evs, Families.Live ctx n1 n2 n3 st s family f = Ok (f', err, evs) /\
    let known := match cached f xs n1 k with
                 | Some fs => Ok fs
                 | None => Families.FamilyState_at ctx k.1 k.2 st
                 end in
    (err = None <-> exists fs, known = Ok fs /\ fs_Subject fs = s /\
       fs_Lineage fs = Families.Lineage family /\ Revoked fs = false /\ n3 < fs_ExpiresAt fs) /\
    (forall e, err = Some e -> Is e ErrNotLive = true \/ Is e VErrUnavailable = true) /\
    (forall e, known = Err e -> Is e ErrNotFound = false ->
       err = Some (Join VErrUnavailable e) /\ evs = unavailable ctx (name f)).
Proof.
  intros Hs k. unfold Families.Live.
  destruct (get_answer ctx n1 n2 (Families.family_lookup ctx st) k f xs Hs)
    as (f' & xs' & evs & Hg & _ & Hev). fold k. rewrite Hg. simpl.
  assert (forall fs evs, let err := Families.live_verdict n3 s family fs in
    (err = None <-> exists fs', Ok fs = Ok fs' /\ fs_Subject fs' = s /\
       fs_Lineage fs' = Families.Lineage family /\ Revoked fs' = false /\ n3 < fs_ExpiresAt fs') /\
    (forall e, err = Some e -> Is e ErrNotLive = true \/ Is e VErrUnavailable = true) /\
    (forall e, Ok fs = Err e -> Is e ErrNotFound = false ->
       err = Some (Join VErrUnavailable e) /\ evs = unavailable ctx (name f))) as Hok.
  { intros fs evs'. destruct (live_verdict_spec n3 s family fs) as [H1 H2]. simpl. split_and!.
    - rewrite H1. split; [intros; by exists fs|]. by intros (fs' & [= <-] & Hfs).
    - intros e He. left. by apply H2.
    - done. }
  change (Families.family_lookup ctx st k) with (Families.FamilyState_at ctx k.1 k.2 st) in *.
  destruct (cached f xs n1 k) as [fs|].
  - eexists _, _, _. split; [reflexivity|]. by apply Hok.
  - simpl in Hev |- *. destruct (Families.FamilyState_at ctx (Tenant s) (Families.ID family) st) as [fs|e].
    + eexists _, _, _. split; [reflexivity|]. by apply Hok.
    + eexists _, _, _. split; [done|]. rewrite (Hev eq_refl e eq_refl). unfold get_failed.
      destruct (Is e ErrNotFound) eqn:En; simpl; rewrite ?En; simpl.
      * split; [split; [done|by intros (? & ? & _)]|]. split; [|congruence]. intros e' [= <-]. by left.
      * split; [split; [done|by intros (? & ? & _)]|]. split; [intros e' [= <-]; by right|]. intros e' [= <-] _. done.
Qed.

Definition new_families : Families.Families :=
  mkFollower "families" (RestoreCursor 0) 0 false time_zero (newLRU 10000).

Lemma new_families_sound : sound new_families [].
Proof. split; [apply rep_new|]. simpl. lia. Qed.

Definition sample_state : FamilyState :=
  match TokensMemory.FamilyState_of None (Tenant ada) 900 tstore2 with
  | Ok fs => fs
  | Err _ => mkFamilyState ada 0 true 0
  end.

Definition sample_family : Families.Family := Families.mkFamily 900 (fs_Lineage sample_state).

Lemma family_check_fails_closed_witness :
  exists f' evs, Families.Live None t2 t2 t2 tstore2 ada sample_family new_families = Ok (f', None, evs).
Proof.
  destruct (family_check_fails_closed None t2 t2 t2 tstore2 ada sample_family new_families []
    new_families_sound) as (f' & err & evs & Hl & Hiff & _).
  assert (err = None) as E.
  { apply Hiff. exists sample_state. repeat split; vm_compute; reflexivity. }
  exists f', evs. rewrite E in Hl. exact Hl.
Defined.

Lemma verdict_None sealed cur : Epochs.epoch_verdict sealed cur = None -> cur = sealed.
Proof. unfold Epochs.epoch_verdict. by destruct (Z.eqb_spec cur sealed). Qed.

Lemma verdict_Some sealed cur r : Epochs.epoch_verdict sealed cur = Some r -> Is r ErrStaleEpoch = true.
Proof. unfold Epochs.epoch_verdict. destruct (cur =? sealed); [done|]. by intros [= <-]. Qed.

Lemma verdict_same sealed : Epochs.epoch_verdict sealed sealed = None.
Proof. unfold Epochs.epoch_verdict. by rewrite Z.eqb_refl. Qed.

(** A failed read is reported as stale when the subject is gone, as unavailable otherwise. *)
Lemma epoch_error_class {K V} `{Countable K} ctx err (f : follower K V) :
  let r := Epochs.epoch_error (get_failed ctx err f).1 in
  Is r ErrStaleEpoch = true \/ Is r VErrUnavailable = true.
Proof.
  unfold Epochs.epoch_error, get_failed. destruct (Is err ErrNotFound) eqn:En; simpl; rewrite ?En; simpl; auto.
Qed.

(** A check that finds nothing it may trust in the cache compares with the store. *)
Lemma check_uncached {St} `{Epochs.EpochSource St} ctx n1 n2 n3 n4 (st : St) s sealed
    (e : Epochs.Epochs) xs cur :
  sound e xs -> cached e xs n1 s = None -> Epochs.CurrentEpoch ctx s st = Ok cur ->
  exists e' evs, Epochs.Check ctx n1 n2 n3 n4 st st s sealed e
    = Ok (e', Epochs.epoch_verdict sealed cur, evs).
Proof.
  intros Hs Hn Hc. unfold Epochs.Check.
  destruct (get_answer ctx n1 n2 (fun k => Epochs.CurrentEpoch ctx k st) s e xs Hs)
    as (e1 & xs1 & evs & -> & Hs1 & _). rewrite Hn, Hc. simpl. destruct (cur <? sealed); [|eauto].
  destruct (forget_sound s e1 xs1 Hs1) as (e2 & -> & Hs2 & Hnone). simpl.
  destruct (get_answer ctx n3 n4 (fun k => Epochs.CurrentEpoch ctx k st) s e2 _ Hs2)
    as (e3 & xs3 & evs' & -> & _ & _). rewrite (Hnone n3), Hc. simpl. eauto.
Qed.

(** an epoch check.  It passes only for an epoch the cache or the store gave for the subject, and
    never for one above what the store answers; an epoch is refused only as stale or because the
    store cannot answer; and when the cache still holds an older epoch than the session was sealed
    under, the store is asked again, so that a session issued after a change of epoch made elsewhere
    is accepted at once. *)
Theorem epoch_check_is_sound {St} `{Epochs.EpochSource St} ctx n1 n2 n3 n4 (st st' : St) s sealed
    (e : Epochs.Epochs) xs :
  sound e xs ->
  exists e' err evs, Epochs.Check ctx n1 n2 n3 n4 st st' s sealed e = Ok (e', err, evs) /\
    (err = None -> cached e xs n1 s = Some sealed \/ Epochs.CurrentEpoch ctx s st = Ok sealed \/
       Epochs.CurrentEpoch ctx s st' = Ok sealed) /\
    (forall r, err = Some r -> Is r ErrStaleEpoch = true \/ Is r VErrUnavailable = true) /\
    (forall old, cached e xs n1 s = Some old -> old < sealed ->
       (err = None <-> Epochs.CurrentEpoch ctx s st' = Ok sealed)).
Proof.
  intros Hs. unfold Epochs.Check.
  destruct (get_answer ctx n1 n2 (fun k => Epochs.CurrentEpoch ctx k st) s e xs Hs)
    as (e1 & xs1 & evs & -> & Hs1 & _). simpl.
  destruct (match cached e xs n1 s with Some v => Ok v | None => _ end) as [cur|err] eqn:Eg.
  - destruct (Z.ltb_spec cur sealed) as [Hlt|Hge].
    + destruct (forget_sound s e1 xs1 Hs1) as (e2 & -> & Hs2 & Hnone). simpl.
      destruct (get_answer ctx n3 n4 (fun k => Epochs.CurrentEpoch ctx k st') s e2 _ Hs2)
        as (e3 & xs3 & evs' & -> & _ & _). rewrite (Hnone n3). simpl.
      destruct (Epochs.CurrentEpoch ctx s st') as [cur'|err'] eqn:E'.
      * eexists _, _, _. split; [reflexivity|]. split; [|split].
        -- intros ->%verdict_None. by right; right.
        -- intros r Hr. left. by eapply verdict_Some.
        -- intros old _ _. split; [by intros ->%verdict_None|]. intros [= ->]. apply verdict_same.
      * eexists _, _, _. split; [reflexivity|]. split; [done|]. split; [|by intros; split].
        intros r [= <-]. apply epoch_error_class.
    + eexists _, _, _. split; [reflexivity|]. split; [|split].
      * intros ->%verdict_None. destruct (cached e xs n1 s); [left; congruence|right; left].
        destruct (Epochs.CurrentEpoch ctx s st); congruence.
      * intros r Hr. left. by eapply verdict_Some.
      * intros old Hold Hlt. rewrite Hold in Eg. injection Eg as <-. lia.
  - destruct (cached e xs n1 s) as [v|] eqn:Ec; [done|].
    destruct (Epochs.CurrentEpoch ctx s st) as [v|err'] eqn:E'; [done|]. injection Eg as <-.
    eexists _, _, _. split; [reflexivity|]. split; [done|]. split; [|done].
    intros r [= <-]. apply epoch_error_class.
Qed.

(** A store that knows one subject, under the given epoch. *)
#[local] Instance single_epoch : Epochs.EpochSource Z := {
  Epochs.CurrentEpoch := fun _ s e => if decide (s = ada) then Ok e else Err ErrNotFound;
  Epochs.EpochsChangedSince := fun _ c _ => ([], c, None) }.

Definition epoch_entries : lru Subject Z :=
  match put ada 3 (newLRU 2) with Ok l => l | Err _ => newLRU 2 end.

Definition epoch_cache : Epochs.Epochs :=
  mkFollower "epochs" (RestoreCursor 0) 1 true 1000 epoch_entries.

Lemma epoch_cache_sound : sound epoch_cache [(ada, 3)].
Proof.
  destruct (put_rep ada 3 (newLRU (K := Subject) (V := Z) 2) []) as (l & Hp & Hr & Hc);
    [apply rep_new|simpl; lia..|].
  assert (l = epoch_entries) as -> by (unfold epoch_entries; by rewrite Hp).
  split; [exact Hr|]. simpl in *. lia.
Qed.

Lemma epoch_check_is_sound_witness :
  cached epoch_cache [(ada, 3)] 1500 ada = Some 3 /\
  exists e' evs, Epochs.Check None 1500 1500 1500 1500 4 4 ada 4 epoch_cache = Ok (e', None, evs).
Proof.
  assert (cached epoch_cache [(ada, 3)] 1500 ada = Some 3) as Hc by (vm_compute; reflexivity).
  split; [exact Hc|].
  destruct (epoch_check_is_sound None 1500 1500 1500 1500 4 4 ada 4 epoch_cache [(ada, 3)]
    epoch_cache_sound) as (e' & err & evs & Hk & _ & _ & Hagain).
  assert (err = None) as E.
  { apply (Hagain 3 Hc); [lia|vm_compute; reflexivity]. }
  exists e', evs. rewrite E in Hk. exact Hk.
Defined.

(** ** The caches over the stores they follow.

    For epochs, the account store's feed is the log the cache's poll is proved against, so what is
    applied in the store reaches the checks made through the cache.  For keysets, a run of the key
    store and its cache in which it does not. *)

From S2P Require Import Prelude Errors Tenant StoreBase IdentityRecord IdentityStore IdentityFacts.
From S2P Require Import IdentityFacts IdentityProperties Lru LruFacts Revocation.
From S2P Require Import KeyStore KeyProperties.
Import Follower.

(** A history in which nothing was erased or reaped: the log is whole. *)
Definition whole (s : IdentityMemory.Store) : Prop :=
  exists os, run IdentityMemory.NewWithClock os s /\
    Forall (fun o => erases o = false /\ reaps o = false) os.

(** The subjects of the log, oldest first. *)
Definition bumped_subjects (s : IdentityMemory.Store) : list Subject :=
  map (fun r => Identity.ec_Subject (IdentityMemory.change r)) (IdentityMemory.epochs s).

Definition page : nat := Z.to_nat IdentityMemory.feedPage.

Lemma whole_log s : whole s ->
  IdentityMemory.epochSeq s = Z.of_nat (length (IdentityMemory.epochs s)) /\
  forall i r, IdentityMemory.epochs s !! i = Some r -> IdentityMemory.e_seq r = Z.of_nat i + 1.
Proof.
  intros (os & Hr & Hf). destruct (identity_run_evolves _ _ _ new_store_inv Hr Hf) as [new [E Hs Hn _]].
  simpl in *. rewrite E. split; [lia|]. intros i r Hi. rewrite (Hn i r Hi). lia.
Qed.

(** The store's feed, read at a position of the log, is the log's next page. *)
Lemma feed_is_log s c turn :
  whole s -> 0 <= Position c <= Z.of_nat (length (bumped_subjects s)) ->
  Epochs.epoch_feed None s c = log_feed page (bumped_subjects s) turn c.
Proof.
  intros Hw Hc. destruct (whole_log s Hw) as [Hlen Hseq].
  unfold bumped_subjects in Hc. rewrite length_map in Hc.
  unfold Epochs.epoch_feed, log_feed. simpl. unfold IdentityMemory.EpochsChangedSince.
  rewrite epoch_page_spec by (simpl; done). simpl length. rewrite Nat.sub_0_r. fold page. simpl app.
  set (rows := IdentityMemory.epochs s) in *.
  assert (filter (fun r => Position c < IdentityMemory.e_seq r) rows = drop (Z.to_nat (Position c)) rows) as ->.
  { rewrite <- (take_drop (Z.to_nat (Position c)) rows) at 1. apply filter_above; apply Forall_forall.
    - intros r [i Hi]%list_elem_of_lookup. pose proof (lookup_lt_Some _ _ _ Hi) as Hlt. rewrite length_take in Hlt.
      rewrite lookup_take_lt in Hi by lia. rewrite (Hseq i r Hi). lia.
    - intros r [i Hi]%list_elem_of_lookup. rewrite lookup_drop in Hi. rewrite (Hseq _ r Hi). lia. }
  unfold bumped_subjects. fold rows. rewrite map_map.
  change (map (fun r => Identity.ec_Subject (IdentityMemory.change r)) rows)
    with ((fun r => Identity.ec_Subject (IdentityMemory.change r)) <$> rows).
  rewrite <- fmap_drop, <- fmap_take, length_fmap. f_equal. f_equal. f_equal.
  destruct (last (take page (drop (Z.to_nat (Position c)) rows))) as [r|] eqn:El.
  - apply last_Some in El as [l Hl].
    assert (drop (Z.to_nat (Position c)) rows !! length l = Some r) as Hr.
    { assert (take page (drop (Z.to_nat (Position c)) rows) !! length l = Some r) as Ht
        by (rewrite Hl; by apply list_lookup_middle).
      by apply lookup_take_Some in Ht as [Ht _]. }
    rewrite lookup_drop in Hr. rewrite (Hseq _ r Hr), Hl, length_app. simpl. lia.
  - apply last_None in El. rewrite El. simpl. lia.
Qed.

(** The caches' poll reads only positions of the log. *)
Lemma poll_loop_feed {K V} `{Countable K} turns (feed : nat -> Cursor -> list K * Cursor * option error)
    size log : forall p (f : follower K V) xs,
  (0 < size)%nat -> p_cur p = cursor f -> rep (entries f) xs ->
  0 <= Position (cursor f) <= Z.of_nat (length log) ->
  (forall turn c, 0 <= Position c <= Z.of_nat (length log) -> feed turn c = log_feed size log turn c) ->
  poll_loop turns feed p f = poll_loop turns (log_feed size log) p f.
Proof.
  induction turns as [|turns IH]; intros p f xs Hs Hc Hr Hpos Hf; [done|]. cbn [poll_loop].
  rewrite Hf by (by rewrite Hc).
  destruct (poll_turn_page size log (S turns) p f xs Hs Hc Hr Hpos) as (f1 & -> & Hr1 & Ec & _). simpl.
  case_decide as Er; [done|]. eapply IH; [done|done|exact Hr1| |done].
  rewrite Ec, length_take, length_drop. lia.
Qed.

(** C33: A change of epoch made in the account store reaches the checks made through the cache.  When
    the store's log is whole and at most 255 pages behind, a poll succeeds, and from then on a check
    of a subject whose epoch changed since the cache's last position is decided by the store: a
    session sealed under the present epoch passes, one sealed under any other is refused as stale. *)
Theorem epoch_change_reaches_the_cache s now (f : Epochs.Epochs) xs :
  whole s -> sound f xs -> 0 <= Position (cursor f) <= Z.of_nat (length (bumped_subjects s)) ->
  Z.of_nat (length (bumped_subjects s)) - Position (cursor f) <= 255 * IdentityMemory.feedPage ->
  exists f', Poll now (fun _ => Epochs.epoch_feed None s) f = Ok (f', None) /\
    forall sub e sealed n1 n2 n3 n4,
      sub ∈ drop (Z.to_nat (Position (cursor f))) (bumped_subjects s) ->
      IdentityMemory.CurrentEpoch None sub s = Ok e ->
      exists f'' err evs, Epochs.Check None n1 n2 n3 n4 s s sub sealed f' = Ok (f'', err, evs) /\
        (err = None <-> sealed = e) /\ (forall x, err = Some x -> Is x ErrStaleEpoch = true).
Proof.
  intros Hw (Hr & Hcap & Hlen) Hpos Hleft. unfold Poll.
  assert (0 < page)%nat as Hpage by (unfold page, IdentityMemory.feedPage; lia).
  rewrite (poll_loop_feed _ _ page (bumped_subjects s) (poll_begin now f) f xs Hpage eq_refl Hr Hpos
    (fun turn c Hc => feed_is_log s c turn Hw Hc)).
  destruct (poll_loop_outcome page (bumped_subjects s) maxPagesPerPoll (poll_begin now f) f xs Hpage eq_refl Hr Hpos)
    as (f' & Hp & Hc' & Hok & _).
  assert ((Z.of_nat maxPagesPerPoll - 1) * Z.of_nat page = 255 * IdentityMemory.feedPage) as E255
    by (unfold page; rewrite Z2Nat.id by done; reflexivity).
  rewrite E255 in *.
  rewrite Hp. destruct (Z.leb_spec (Z.of_nat (length (bumped_subjects s)) - Position (cursor f))
    (255 * IdentityMemory.feedPage)) as [_|?]; [|lia].
  exists f'. split; [done|]. intros sub e sealed n1 n2 n3 n4 Hin He.
  destruct (Hok Hleft) as (_ & Hr' & _ & _).
  set (xs' := unchanged_since (bumped_subjects s) (cursor f) xs) in *.
  assert (sound f' xs') as Hs'.
  { split; [done|]. rewrite Hc'. split; [done|].
    pose proof (bindings_filter_le (fun kv : Subject * Z => kv.1 ∉ drop (Z.to_nat (Position (cursor f))) (bumped_subjects s)) xs).
    unfold xs', unchanged_since. lia. }
  assert (cached f' xs' n1 sub = None) as Hn.
  { unfold cached. destruct (freshLocked f' n1); [|done]. apply find_None.
    intros ([k v] & -> & [Hk _]%list_elem_of_filter)%list_elem_of_fmap. done. }
  destruct (@check_uncached _ Epochs.memory_epoch_source None n1 n2 n3 n4 s sub sealed f' xs' e Hs' Hn He) as (f'' & evs & ->).
  eexists _, _, _. split; [done|]. split; [|intros x Hx; by eapply verdict_Some].
  split; [intros ->%verdict_None; done|]. intros ->. apply verdict_same.
Qed.

Definition reset_store : IdentityMemory.Store := exec (op_reset_password [id_ada]) id_store1.

Lemma reset_store_whole : whole reset_store.
Proof.
  eexists. split.
  - eapply identity_run_app; [exact id_store1_run|]. apply run_cons; [exact reset_legal|apply run_nil].
  - repeat constructor.
Qed.

Definition new_epochs : Epochs.Epochs :=
  mkFollower "epochs" (RestoreCursor 0) 0 false time_zero (Lru.newLRU 100).

Lemma epoch_change_reaches_the_cache_witness :
  exists f' f'' err evs, Poll 1000 (fun _ => Epochs.epoch_feed None reset_store) new_epochs = Ok (f', None) /\
    Epochs.Check None 1001 1001 1001 1001 reset_store reset_store id_ada 0 f' = Ok (f'', Some err, evs) /\
    Is err ErrStaleEpoch = true.
Proof.
  destruct (epoch_change_reaches_the_cache reset_store 1000 new_epochs []) as (f' & Hp & Hcheck).
  - exact reset_store_whole.
  - split; [apply rep_new|]. simpl. lia.
  - split; vm_compute; discriminate.
  - vm_compute. discriminate.
  - destruct (Hcheck id_ada 1 0 1001 1001 1001 1001) as (f'' & err & evs & Hk & Hiff & Hst).
    + vm_compute. left.
    + vm_compute. reflexivity.
    + destruct err as [x|]; [|exfalso; assert (0 = 1) by (apply Hiff; reflexivity); lia].
      exists f', f'', x, evs. split; [exact Hp|]. split; [exact Hk|]. apply Hst. reflexivity.
Defined.

(** ** Keysets and a pruned feed *)

Definition Hour : duration := 60 * Minute.

(** The tenant is created, and its entry has left the feed when this instance starts. *)
Definition gap_store1 : KeysMemory.Store := key_exec (KReap None (k_t0 + 25 * Hour)) kstore1.

(** The tenant's keys are revoked, and a day later that entry leaves the feed too. *)
Definition gap_store2 : KeysMemory.Store := key_exec (KRevoke None (k_t0 + 26 * Hour) k_acme) gap_store1.

Definition gap_store3 : KeysMemory.Store := key_exec (KReap None (k_t0 + 51 * Hour)) gap_store2.

Definition load_ids (s : KeysMemory.Store) (t : TenantID) : res (list string) :=
  Ok (map (fun r => KeyTypes.KeyID (KeysMemory.key r)) (KeysMemory.rows_of t s)).

(** This instance polls and reads the keyset before the revocation, is then out of touch, and polls
    and reads again after it. *)
Definition gap_run : res (option error * option error * res (list string)) :=
  f ← Keys.NewKeys (Some gap_store1) true 0;
  '(f, e1) ← Poll (k_t0 + 25 * Hour) (fun _ => Keys.key_feed None gap_store1) f;
  '(f, _, _) ← Keys.Get None (k_t0 + 25 * Hour) (k_t0 + 25 * Hour) (load_ids gap_store1) k_acme f;
  '(f, e2) ← Poll (k_t0 + 51 * Hour) (fun _ => Keys.key_feed None gap_store3) f;
  '(_, r, _) ← Keys.Get None (k_t0 + 51 * Hour) (k_t0 + 51 * Hour) (load_ids gap_store3) k_acme f;
  Ok (e1, e2, r).

(** The error that tells a poller of a gap is not given at the zero position, and an instance that
    started on an empty feed holds that position.  In this run it caches a keyset, the keyset is
    revoked and the entry pruned a day later while the instance is out of touch; its next poll
    succeeds, and the revoked key is still served from the cache, although the store has none. *)
Theorem zero_cursor_hides_a_pruned_revocation :
  gap_run = Ok (None, None, Ok ["k1"]) /\ KeysMemory.rows_of k_acme gap_store3 = [] /\
  key_reachable gap_store3.
Proof.
  split; [vm_compute; reflexivity|]. split; [vm_compute; reflexivity|].
  exists [KCreate None k_t0 (sample_key "k1" k_t0); KReap None (k_t0 + 25 * Hour);
          KRevoke None (k_t0 + 26 * Hour) k_acme; KReap None (k_t0 + 51 * Hour)].
  repeat (apply key_run_cons; [vm_compute; reflexivity|]). apply key_run_nil.
Qed.
