(* ===== verification/GoText.v ===== *)
(** Text of the Go standard library as the session packages use it: bytes.TrimSpace, strings.Cut,
    strings.EqualFold against an ASCII word, encoding/base64 (RawURLEncoding.Strict) and the reading
    of Cookie headers by net/http. *)
From S2P Require Import Prelude Errors.

(** ** Trimming *)
Definition ascii_space (b : byte) : bool :=
  let c := Z_of_byte b in ((9 <=? c) && (c <=? 13)) || (c =? 32).

(** The white space of Unicode beyond ASCII, in UTF-8: U+0085, U+00A0, U+1680, U+2000 to U+200A,
    U+2028, U+2029, U+202F, U+205F and U+3000. *)
Definition wide_spaces : list bytes :=
  [[Byte.xc2; Byte.x85]; [Byte.xc2; Byte.xa0]; [Byte.xe1; Byte.x9a; Byte.x80]]
  ++ map (fun b => [Byte.xe2; Byte.x80; b])
       [Byte.x80; Byte.x81; Byte.x82; Byte.x83; Byte.x84; Byte.x85; Byte.x86; Byte.x87; Byte.x88; Byte.x89; Byte.x8a; Byte.xa8; Byte.xa9; Byte.xaf]
  ++ [[Byte.xe2; Byte.x81; Byte.x9f]; [Byte.xe3; Byte.x80; Byte.x80]].

(** The length of the white-space rune that begins [b], 0 if there is none; [spaces] are the wide
    ones, or their mirror images when the text is read from its end. *)
Definition space_prefix (spaces : list bytes) (b : bytes) : nat :=
  match b with
  | [] => 0
  | c :: _ =>
      if ascii_space c then 1
      else match List.find (fun w => bool_decide (take (length w) b = w)) spaces with
           | Some w => length w
           | None => 0
           end
  end.

(** [n] bounds the number of runes dropped; a text has at most as many as it has bytes. *)
Fixpoint trim_front (n : nat) (spaces : list bytes) (b : bytes) : bytes :=
  match n with
  | O => b
  | S n' =>
      match space_prefix spaces b with
      | O => b
      | k => trim_front n' spaces (drop k b)
      end
  end.

Definition TrimSpace (b : bytes) : bytes :=
  let b := trim_front (length b) wide_spaces b in
  rev (trim_front (length b) (map (@rev byte) wide_spaces) (rev b)).

(** Nothing is trimmed from a text that begins and ends with neither white space nor a byte of a wide one. *)
Lemma space_prefix_none spaces c b :
  ascii_space c = false -> Forall (fun w => head w <> Some c /\ w <> []) spaces ->
  space_prefix spaces (c :: b) = 0%nat.
Proof.
  intros Hc Hw. unfold space_prefix. rewrite Hc.
  assert (List.find (fun w => bool_decide (take (length w) (c :: b) = w)) spaces = None) as ->; [|done].
  induction Hw as [|w ws [Hh Hn] _ IH]; [done|]. simpl. rewrite IH.
  destruct w as [|d w]; [done|]. simpl in *. rewrite bool_decide_eq_false_2; [done|]. congruence.
Qed.

Lemma trim_front_none n spaces c b :
  ascii_space c = false -> Forall (fun w => head w <> Some c /\ w <> []) spaces ->
  trim_front n spaces (c :: b) = c :: b.
Proof. intros Hc Hw. destruct n; [done|]. cbn [trim_front]. by rewrite space_prefix_none. Qed.

Definition plain (c : byte) : Prop := ascii_space c = false /\ Z_of_byte c < 128.

Lemma wide_plain c : Z_of_byte c < 128 ->
  Forall (fun w => head w <> Some c /\ w <> []) wide_spaces /\ Forall (fun w => head w <> Some c /\ w <> []) (map (@rev byte) wide_spaces).
Proof.
  intros Hc. split; cbn; repeat (apply List.Forall_cons; [split; [intros [= E]; subst c; cbn in Hc; lia|done]|]); apply List.Forall_nil.
Qed.

Lemma TrimSpace_plain b : Forall plain b -> TrimSpace b = b.
Proof.
  intros Hb. unfold TrimSpace. assert (trim_front (length b) wide_spaces b = b) as ->.
  { destruct Hb as [|c b [H1 H2] _]; [done|]. apply trim_front_none; [done|by apply wide_plain]. }
  assert (Forall plain (rev b)) as Hr by (by apply List.Forall_rev).
  transitivity (rev (rev b)); [f_equal|apply rev_involutive]. revert Hr. generalize (length b) (rev b). intros n l0 Hr.
  destruct Hr as [|c l [H1 H2] _]; [by destruct n|].
  apply trim_front_none; [done|by apply wide_plain].
Qed.

(** textproto.TrimString: blanks, tabs and line ends. *)
Definition header_space (b : byte) : bool :=
  let c := Z_of_byte b in (c =? 32) || (c =? 9) || (c =? 10) || (c =? 13).

Fixpoint drop_while (f : byte -> bool) (b : bytes) : bytes :=
  match b with
  | c :: b' => if f c then drop_while f b' else b
  | [] => []
  end.

Definition TrimString (b : bytes) : bytes :=
  rev (drop_while header_space (rev (drop_while header_space b))).

(** ** Cutting and comparing *)

(** strings.Cut around the first [sep]. *)
Fixpoint Cut (sep : byte) (b : bytes) : bytes * bytes * bool :=
  match b with
  | [] => ([], [], false)
  | c :: b' =>
      if bool_decide (c = sep) then ([], b', true)
      else let '(before, after, found) := Cut sep b' in (c :: before, after, found)
  end.

Definition ascii_lower (b : byte) : byte :=
  let c := Z_of_byte b in if (65 <=? c) && (c <=? 90) then byte_of_Z (c + 32) else b.

(** strings.EqualFold of [b] with a lower-case ASCII word that has no [k] and no [s], the letters
    that other code points fold to. *)
Definition EqualFold (b word : bytes) : bool := bool_decide (map ascii_lower b = word).

Lemma Cut_absent sep b : sep ∉ b -> Cut sep b = (b, [], false).
Proof.
  induction b as [|c b IH]; intros Hn; [done|]. apply not_elem_of_cons in Hn as [Hc Hb]. simpl.
  rewrite bool_decide_eq_false_2 by congruence. by rewrite IH.
Qed.

Lemma Cut_found sep b b' : sep ∉ b -> Cut sep (b ++ sep :: b') = (b, b', true).
Proof.
  induction b as [|c b IH]; intros Hn; simpl; [by rewrite bool_decide_eq_true_2|].
  apply not_elem_of_cons in Hn as [Hc Hb]. rewrite bool_decide_eq_false_2 by congruence. by rewrite IH.
Qed.

(** ** encoding/base64, RawURLEncoding.Strict *)
Module Base64.

Definition char_of (i : Z) : byte :=
  byte_of_Z (if i <? 26 then 65 + i else if i <? 52 then 71 + i else if i <? 62 then i - 4
             else if i =? 62 then 45 else 95).

Definition value_of (b : byte) : option Z :=
  let c := Z_of_byte b in
  if (65 <=? c) && (c <=? 90) then Some (c - 65)
  else if (97 <=? c) && (c <=? 122) then Some (c - 71)
  else if (48 <=? c) && (c <=? 57) then Some (c + 4)
  else if c =? 45 then Some 62
  else if c =? 95 then Some 63
  else None.

(** The [k]-th group of six bits of a 24-bit value, counted from the right. *)
Definition six (v k : Z) : Z := (v / 2 ^ (6 * k)) mod 64.

Fixpoint encode (b : bytes) : bytes :=
  match b with
  | [] => []
  | [x] =>
      let v := Z_of_byte x * 65536 in [char_of (six v 3); char_of (six v 2)]
  | [x; y] =>
      let v := Z_of_byte x * 65536 + Z_of_byte y * 256 in
      [char_of (six v 3); char_of (six v 2); char_of (six v 1)]
  | x :: y :: z :: b' =>
      let v := Z_of_byte x * 65536 + Z_of_byte y * 256 + Z_of_byte z in
      char_of (six v 3) :: char_of (six v 2) :: char_of (six v 1) :: char_of (six v 0) :: encode b'
  end.

Definition octet (v k : Z) : Z := (v / 2 ^ (8 * k)) mod 256.

(** The quanta of the text, without its line ends.  Strict: the bits a last, partial quantum does not
    use must be zero. *)
Fixpoint quanta (b : bytes) : option bytes :=
  match b with
  | [] => Some []
  | [_] => None
  | [c; d] =>
      p ← value_of c; q ← value_of d;
      let v := p * 2 ^ 18 + q * 2 ^ 12 in
      if (octet v 1 =? 0) && (octet v 0 =? 0) then Some [byte_of_Z (octet v 2)] else None
  | [c; d; e] =>
      p ← value_of c; q ← value_of d; r ← value_of e;
      let v := p * 2 ^ 18 + q * 2 ^ 12 + r * 2 ^ 6 in
      if octet v 0 =? 0 then Some [byte_of_Z (octet v 2); byte_of_Z (octet v 1)] else None
  | c :: d :: e :: f :: b' =>
      p ← value_of c; q ← value_of d; r ← value_of e; s ← value_of f;
      let v := p * 2 ^ 18 + q * 2 ^ 12 + r * 2 ^ 6 + s in
      rest ← quanta b';
      Some (byte_of_Z (octet v 2) :: byte_of_Z (octet v 1) :: byte_of_Z (octet v 0) :: rest)
  end.

(** The decoder skips line ends wherever they stand. *)
Definition line_end (b : byte) : bool := let c := Z_of_byte b in (c =? 10) || (c =? 13).

Definition decode (b : bytes) : option bytes := quanta (List.filter (fun c => negb (line_end c)) b).

Lemma value_char i : 0 <= i < 64 -> value_of (char_of i) = Some i.
Proof.
  intros Hi. unfold value_of, char_of.
  rewrite Z_of_byte_of_Z_small by (repeat case_match; lia).
  destruct (Z.ltb_spec i 26); [|destruct (Z.ltb_spec i 52); [|destruct (Z.ltb_spec i 62); [|
    destruct (Z.eqb_spec i 62)]]]; repeat case_match; bools; try lia; f_equal; lia.
Qed.

Lemma six_range v k : 0 <= six v k < 64.
Proof. unfold six. apply Z.mod_pos_bound. lia. Qed.

(** The characters of the alphabet, none of which is a line end, a dot or a blank. *)
Definition url_char (b : byte) : bool := bool_decide (is_Some (value_of b)).

Lemma url_char_of i : 0 <= i < 64 -> url_char (char_of i) = true.
Proof. intros Hi. unfold url_char. rewrite value_char by done. by apply bool_decide_eq_true_2. Qed.

Lemma encode_chars b : Forall (fun c => url_char c = true) (encode b).
Proof.
  revert b. fix IH 1. intros [|x [|y [|z b]]]; simpl; repeat constructor;
    try (apply url_char_of, six_range). apply IH.
Qed.

Lemma url_char_values b : url_char b = true ->
  let c := Z_of_byte b in 97 <= c <= 122 \/ 65 <= c <= 90 \/ 48 <= c <= 57 \/ c = 45 \/ c = 95.
Proof.
  unfold url_char. intros H. bools. destruct H as [v H]. unfold value_of in H.
  repeat case_match; simplify_eq; bools; lia.
Qed.

(** A value of 24 bits is its four groups of six. *)
Lemma six_sum v : 0 <= v < 2 ^ 24 ->
  six v 3 * 2 ^ 18 + six v 2 * 2 ^ 12 + six v 1 * 2 ^ 6 + six v 0 = v.
Proof.
  intros Hv. unfold six. change (2 ^ (6 * 3)) with (64 * 64 * 64). change (2 ^ (6 * 2)) with (64 * 64).
  change (2 ^ (6 * 1)) with 64. change (2 ^ (6 * 0)) with 1. rewrite Z.div_1_r, <- !Z.div_div by lia.
  change (2 ^ 18) with 262144. change (2 ^ 12) with 4096. change (2 ^ 6) with 64.
  change (2 ^ 24) with 16777216 in Hv. Z.to_euclidean_division_equations. lia.
Qed.

Lemma octets v x y z : 0 <= x < 256 -> 0 <= y < 256 -> 0 <= z < 256 ->
  v = x * 65536 + y * 256 + z -> octet v 2 = x /\ octet v 1 = y /\ octet v 0 = z.
Proof.
  intros Hx Hy Hz ->. unfold octet. change (2 ^ (8 * 2)) with (256 * 256). change (2 ^ (8 * 1)) with 256.
  change (2 ^ (8 * 0)) with 1. rewrite Z.div_1_r, <- !Z.div_div by lia.
  Z.to_euclidean_division_equations. lia.
Qed.

(** The groups a partial quantum leaves out are zero. *)
Lemma six_low v k : 0 <= k -> v mod 2 ^ (6 * (k + 1)) = 0 -> six v k = 0.
Proof.
  intros Hk [q ->]%Z.mod_divide; [|apply Z.pow_nonzero; lia]. unfold six.
  replace (6 * (k + 1)) with (6 + 6 * k) by lia. rewrite Z.pow_add_r by lia. change (2 ^ 6) with 64.
  rewrite Z.mul_assoc, Z.div_mul by (apply Z.pow_nonzero; lia). apply Z.mod_mul. lia.
Qed.

Lemma quanta_encode b : quanta (encode b) = Some b.
Proof.
  revert b. fix IH 1.
  assert (forall v x y z, 0 <= x < 256 -> 0 <= y < 256 -> 0 <= z < 256 ->
    v = x * 65536 + y * 256 + z -> 0 <= v < 2 ^ 24) as Hv by lia.
  intros [|x [|y [|z b]]]; [done| | |]; cbn [encode quanta]; rewrite !value_char by apply six_range;
    cbn -[Z.pow Z.mul]; pose proof (Z_of_byte_range x) as Hx.
  - set (v := Z_of_byte x * 65536). assert (v = Z_of_byte x * 65536 + 0 * 256 + 0) as Ev by lia.
    pose proof (six_sum v (Hv v _ 0 0 Hx ltac:(lia) ltac:(lia) Ev)) as E.
    rewrite (six_low v 1), (six_low v 0) in E by (lia || (subst v; Z.to_euclidean_division_equations; lia)).
    replace (six v 3 * 2 ^ 18 + six v 2 * 2 ^ 12) with v by lia.
    destruct (octets v _ 0 0 Hx ltac:(lia) ltac:(lia) Ev) as (-> & -> & ->). cbn. by rewrite byte_of_Z_of_byte.
  - pose proof (Z_of_byte_range y) as Hy. set (v := Z_of_byte x * 65536 + Z_of_byte y * 256).
    assert (v = Z_of_byte x * 65536 + Z_of_byte y * 256 + 0) as Ev by lia.
    pose proof (six_sum v (Hv v _ _ 0 Hx Hy ltac:(lia) Ev)) as E.
    rewrite (six_low v 0) in E by (lia || (subst v; Z.to_euclidean_division_equations; lia)).
    replace (six v 3 * 2 ^ 18 + six v 2 * 2 ^ 12 + six v 1 * 2 ^ 6) with v by lia.
    destruct (octets v _ _ 0 Hx Hy ltac:(lia) Ev) as (-> & -> & ->). cbn. by rewrite !byte_of_Z_of_byte.
  - pose proof (Z_of_byte_range y) as Hy. pose proof (Z_of_byte_range z) as Hz.
    set (v := Z_of_byte x * 65536 + Z_of_byte y * 256 + Z_of_byte z).
    rewrite (six_sum v (Hv v _ _ _ Hx Hy Hz eq_refl)), IH.
    destruct (octets v _ _ _ Hx Hy Hz eq_refl) as (-> & -> & ->). cbn. by rewrite !byte_of_Z_of_byte.
Qed.

Lemma url_char_no_line_end c : url_char c = true -> line_end c = false.
Proof. intros H%url_char_values. unfold line_end. cbv zeta in *. apply orb_false_iff. rewrite !Z.eqb_neq. lia. Qed.

(** What is encoded is decoded. *)
Lemma decode_encode b : decode (encode b) = Some b.
Proof.
  unfold decode. transitivity (quanta (encode b)); [|apply quanta_encode]. f_equal.
  pose proof (encode_chars b) as Hc. induction Hc as [|c l Hx _ IH]; [done|]. simpl.
  rewrite (url_char_no_line_end c Hx). simpl. by f_equal.
Qed.

Lemma length_encode_32 b : length b = 32%nat -> length (encode b) = 43%nat.
Proof. intros H. do 33 (destruct b as [|? b]; [discriminate H || reflexivity|]). discriminate H. Qed.
End Base64.
