(* ===== verification/Redirect.v ===== *)
(** Redirect targets: internal/redirect, over the URLs of net/url.

    The parser of net/url, its escaping and its resolution of references are written out, except for
    the check of a host, whose accepted set differs between releases of Go, and strings.ToLower beyond
    ASCII: both are a class, with what the documentation says of ToLower on ASCII. *)
From S2P Require Import Prelude Errors GoText.

(** ** Texts *)
Definition printable (c : byte) : bool := (32 <? Z_of_byte c) && (Z_of_byte c <? 127).

Definition ascii (c : byte) : bool := Z_of_byte c <? 128.

Fixpoint has_prefix (p b : bytes) : bool :=
  match p, b with
  | [], _ => true
  | x :: p', y :: b' => bool_decide (x = y) && has_prefix p' b'
  | _, _ => false
  end.

Fixpoint contains (p b : bytes) : bool :=
  has_prefix p b || match b with [] => false | _ :: b' => contains p b' end.

Definition contains_any (cs b : bytes) : bool := existsb (fun c => bool_decide (c ∈ cs)) b.

(** [strings.Split(b, "/")], never empty. *)
Fixpoint split (sep : byte) (b : bytes) : list bytes :=
  match b with
  | [] => [[]]
  | c :: b' =>
      if bool_decide (c = sep) then [] :: split sep b'
      else match split sep b' with
           | [] => [[c]]
           | s :: ss => (c :: s) :: ss
           end
  end.

Fixpoint join_with (sep : byte) (l : list bytes) : bytes :=
  match l with
  | [] => []
  | [s] => s
  | s :: l' => s ++ sep :: join_with sep l'
  end.

(** The text after the last [sep], and what stands before it. *)
Definition cut_last (sep : byte) (b : bytes) : option (bytes * bytes) :=
  match rev (split sep b) with
  | s :: before :: more => Some (join_with sep (rev (before :: more)), s)
  | _ => None
  end.

(** What net/url leaves to other packages. *)
Class NetURL := {
  parseHost : bytes -> bytes -> option bytes;
  ToLower : bytes -> bytes;
  ToLower_ascii b : forallb ascii b = true -> ToLower b = map ascii_lower b }.

(** ** net/url *)
Module Url.

Record URL := mkURL {
  Scheme : bytes;
  Opaque : bytes;
  User : bool;
  Host : bytes;
  Path : bytes;
  RawPath : bytes;
  ForceQuery : bool;
  RawQuery : bytes;
  Fragment : bytes }.

Definition letter (c : byte) : bool :=
  let c := Z_of_byte c in ((97 <=? c) && (c <=? 122)) || ((65 <=? c) && (c <=? 90)).

Definition digit (c : byte) : bool := let c := Z_of_byte c in (48 <=? c) && (c <=? 57).

Definition hex_value (c : byte) : option Z :=
  let c := Z_of_byte c in
  if (48 <=? c) && (c <=? 57) then Some (c - 48)
  else if (97 <=? c) && (c <=? 102) then Some (c - 87)
  else if (65 <=? c) && (c <=? 70) then Some (c - 55)
  else None.

Definition upper_hex (z : Z) : byte := byte_of_Z (if z <? 10 then 48 + z else 55 + z).

Definition percent : byte := "%"%byte.

(** [shouldEscape(c, encodePath)] *)
Definition should_escape (c : byte) : bool :=
  negb (letter c || digit c || bool_decide (c ∈ str_bytes "-_.~$&+,/:;=@")).

Definition escape_byte (c : byte) : bytes :=
  if should_escape c
  then [percent; upper_hex (Z_of_byte c / 16); upper_hex (Z_of_byte c mod 16)] else [c].

Definition escape (b : bytes) : bytes := concat (map escape_byte b).

Fixpoint unescape (b : bytes) : option bytes :=
  match b with
  | [] => Some []
  | c :: rest =>
      if bool_decide (c = percent)
      then match rest with
           | h :: l :: b' =>
               x ← hex_value h; y ← hex_value l; r ← unescape b'; Some (byte_of_Z (16 * x + y) :: r)
           | _ => None
           end
      else r ← unescape rest; Some (c :: r)
  end.

(** [validEncoded(s, encodePath)] *)
Definition valid_encoded (b : bytes) : bool :=
  forallb (fun c => bool_decide (c ∈ str_bytes "!$&'()*+,;=:@[]%") || negb (should_escape c)) b.

Definition setPath (p : bytes) (u : URL) : option URL :=
  path ← unescape p;
  Some (mkURL (Scheme u) (Opaque u) (User u) (Host u) path (if bool_decide (escape path = p) then [] else p)
          (ForceQuery u) (RawQuery u) (Fragment u)).

Definition EscapedPath (u : URL) : bytes :=
  if negb (bool_decide (RawPath u = [])) && valid_encoded (RawPath u)
     && bool_decide (unescape (RawPath u) = Some (Path u))
  then RawPath u
  else if bool_decide (Path u = ["*"%byte]) then ["*"%byte]
  else escape (Path u).

(** The loop of getScheme; [seen] is what precedes, last byte first.  [None] is the error. *)
Fixpoint scheme_loop (seen b raw : bytes) : option (bytes * bytes) :=
  match b with
  | [] => Some ([], raw)
  | c :: b' =>
      if letter c then scheme_loop (c :: seen) b' raw
      else if digit c || bool_decide (c ∈ str_bytes "+-.")
      then match seen with [] => Some ([], raw) | _ => scheme_loop (c :: seen) b' raw end
      else if bool_decide (c = ":"%byte)
      then match seen with [] => None | _ => Some (rev seen, b') end
      else Some ([], raw)
  end.

Definition getScheme (raw : bytes) : option (bytes * bytes) := scheme_loop [] raw raw.

Definition valid_userinfo (b : bytes) : bool :=
  forallb (fun c => letter c || digit c || bool_decide (c ∈ str_bytes "-._:~!$&'()*+,;=%@")) b.

Section parse.
Context `{NetURL}.

(** Whether there is a user, and the host. *)
Definition parseAuthority (scheme authority : bytes) : option (bool * bytes) :=
  match cut_last "@"%byte authority with
  | None => host ← parseHost scheme authority; Some (false, host)
  | Some (userinfo, host) =>
      host ← parseHost scheme host;
      if negb (valid_userinfo userinfo) then None
      else
        let '(user, password, _) := Cut ":"%byte userinfo in
        _ ← unescape user; _ ← unescape password; Some (true, host)
  end.

(** The query: a lone final question mark is only recorded. *)
Definition cut_query (rest : bytes) : bool * bytes * bytes :=
  let '(before, query, found) := Cut "?"%byte rest in
  if found && bool_decide (query = []) then (true, before, []) else (false, before, query).

Definition parse (raw : bytes) : option URL :=
  if existsb (fun c => (Z_of_byte c <? 32) || (Z_of_byte c =? 127)) raw then None
  else if bool_decide (raw = ["*"%byte]) then Some (mkURL [] [] false [] raw [] false [] [])
  else
    '(scheme, rest) ← getScheme raw;
    let scheme := map ascii_lower scheme in
    let '(force, rest, query) := cut_query rest in
    if negb (has_prefix ["/"%byte] rest) && negb (bool_decide (scheme = []))
    then Some (mkURL scheme rest false [] [] [] force query [])
    else if negb (has_prefix ["/"%byte] rest) && bool_decide (":"%byte ∈ (Cut "/"%byte rest).1.1) then None
    else if (negb (bool_decide (scheme = [])) || negb (has_prefix (str_bytes "///") rest))
            && has_prefix (str_bytes "//") rest
    then
      let '(authority, path, found) := Cut "/"%byte (drop 2 rest) in
      let path := if found : bool then "/"%byte :: path else [] in
      '(user, host) ← parseAuthority scheme authority;
      setPath path (mkURL scheme [] user host [] [] force query [])
    else setPath rest (mkURL scheme [] false [] [] [] force query []).

Definition Parse (raw : bytes) : option URL :=
  let '(u, frag, _) := Cut "#"%byte raw in
  url ← parse u;
  f ← unescape frag;
  Some (mkURL (Scheme url) (Opaque url) (User url) (Host url) (Path url) (RawPath url) (ForceQuery url)
          (RawQuery url) f).
End parse.

(** One turn of the loop of resolvePath: what was written, and whether nothing was yet. *)
Definition resolve_elem (st : bytes * bool) (elem : bytes) : bytes * bool :=
  let '(dst, first) := st in
  if bool_decide (elem = str_bytes ".") then (dst, false)
  else if bool_decide (elem = str_bytes "..")
  then match cut_last "/"%byte (drop 1 dst) with
       | None => (["/"%byte], true)
       | Some (kept, _) => ("/"%byte :: kept, first)
       end
  else ((if first then dst else dst ++ ["/"%byte]) ++ elem, false).

Definition resolvePath (base ref : bytes) : bytes :=
  let full :=
    match ref with
    | [] => base
    | c :: _ =>
        if bool_decide (c = "/"%byte) then ref
        else match cut_last "/"%byte base with
             | None => ref
             | Some (before, _) => before ++ "/"%byte :: ref
             end
    end in
  match full with
  | [] => []
  | _ =>
      let elems := split "/"%byte full in
      let dst := (fold_left resolve_elem elems (["/"%byte], true)).1 in
      let dst := if bool_decide (last elems = Some (str_bytes ".")) || bool_decide (last elems = Some (str_bytes ".."))
                 then dst ++ ["/"%byte] else dst in
      match dst with
      | _ :: c :: _ => if bool_decide (c = "/"%byte) then drop 1 dst else dst
      | _ => dst
      end
  end.

(** [ResolveReference] of a reference without scheme, host, user and opaque part, whose path is not
    empty: the case of an absolute or relative path.  The error of setPath is ignored. *)
Definition ResolveReference (u ref : URL) : URL :=
  let url := mkURL (Scheme u) (Opaque ref) (User u) (Host u) (Path ref) (RawPath ref) (ForceQuery ref)
               (RawQuery ref) (Fragment ref) in
  default url (setPath (resolvePath (EscapedPath u) (EscapedPath ref)) url).
End Url.

Module Redirect.
Import Url.

Definition MaxLength : Z := 512.

Definition forbiddenEscapes : list string := ["%2f"; "%5c"; "%09"; "%0a"; "%0d"; "%25"; "%2e"].

(** [public] is nil in the zero Origins. *)
Record Origins := mkOrigins { public : option URL; extra : list bytes }.

Definition zero_Origins : Origins := mkOrigins None [].

(** A [Target] is its text, empty for the zero one. *)
Definition Target : Type := bytes.

Definition Target_IsZero (t : Target) : bool := bool_decide (t = []).

Definition reject {A} (reason : string) : res A := Err (Join ErrRejected (New reason)).

Definition printableASCII (b : bytes) : bool := forallb printable b.

Definition hasDotSegment (path : bytes) : bool :=
  existsb (fun seg => bool_decide (seg = str_bytes ".") || bool_decide (seg = str_bytes "..")) (split "/"%byte path).

Definition http_scheme (s : bytes) : bool :=
  bool_decide (s = str_bytes "https") || bool_decide (s = str_bytes "http").

Definition with_query (out : bytes) (u : URL) : bytes :=
  if bool_decide (RawQuery u = []) then out else out ++ "?"%byte :: RawQuery u.

Definition invalid_origin {A} (raw : bytes) : res A := Err (Join ErrInvalidOrigin (New (bytes_str raw))).

(** An escape of a control byte. *)
Fixpoint escaped_control (lower : bytes) : bool :=
  match lower with
  | [] => false
  | c :: rest =>
      match rest with
      | x :: y :: _ =>
          bool_decide (c = percent) && (bool_decide (x = "0"%byte) || bool_decide (x = "1"%byte)
            || bool_decide (x = "7"%byte) && bool_decide (y = "f"%byte))
      | _ => false
      end || escaped_control rest
  end.

(** strings.ToLower is only reached by ASCII texts here. *)
Definition screen (raw : bytes) : option error :=
  let no reason := Some (Join ErrRejected (New reason)) in
  if MaxLength <? Z.of_nat (length raw) then no "too long"
  else if negb (printableASCII raw) then no "control, whitespace or non-ASCII byte"
  else if contains_any (str_bytes "\#") raw then no "backslash or fragment"
  else
    let lower := map ascii_lower raw in
    match List.find (fun esc => contains (str_bytes esc) lower) forbiddenEscapes with
    | Some esc => no ("forbidden escape " +:+ esc)
    | None => if escaped_control lower then no "escaped control byte" else None
    end.

Section redirect.
Context `{NetURL}.

Definition parseOrigin (raw : bytes) : res URL :=
  if bool_decide (raw = []) || negb (printableASCII raw) || contains_any (str_bytes "\#?@") raw
  then invalid_origin raw
  else match Url.Parse raw with
  | None => Err (Join ErrInvalidOrigin (New "parse"))
  | Some u =>
      if negb (http_scheme (Scheme u)) || bool_decide (Host u = []) || User u || negb (bool_decide (Opaque u = []))
         || negb (bool_decide (Path u = [])) || negb (bool_decide (RawQuery u = [])) || ForceQuery u
         || negb (bool_decide (Fragment u = []))
      then invalid_origin raw
      else Ok (mkURL (Scheme u) (Opaque u) (User u) (ToLower (Host u)) (Path u) (RawPath u) (ForceQuery u)
                 (RawQuery u) (Fragment u))
  end.

Definition origin_of (scheme host : bytes) : bytes := scheme ++ str_bytes "://" ++ host.

Fixpoint extra_origins (extra : list bytes) : res (list bytes) :=
  match extra with
  | [] => Ok []
  | e :: es =>
      eu ← parseOrigin e;
      rest ← extra_origins es;
      Ok (origin_of (Scheme eu) (Host eu) :: rest)
  end.

Definition NewOrigins (public : bytes) (extra : list bytes) : res Origins :=
  pu ← parseOrigin public;
  es ← extra_origins extra;
  Ok (mkOrigins (Some pu) es).

Definition relative (u public : URL) : res bytes :=
  if negb (has_prefix ["/"%byte] (Path u)) || has_prefix (str_bytes "//") (Path u)
  then reject "relative target is not path-absolute"
  else if hasDotSegment (Path u) then reject "dot segment"
  else
    let r := ResolveReference public u in
    if negb (bool_decide (Scheme r = Scheme public)) || negb (bool_decide (Host r = Host public)) || User r
    then reject "relative target leaves the origin"
    else
      let out := EscapedPath r in
      if negb (has_prefix ["/"%byte] out) || has_prefix (str_bytes "//") out
      then reject "resolved path is not path-absolute"
      else Ok (with_query out r).

Definition absolute (u : URL) (extra : list bytes) : res bytes :=
  if negb (http_scheme (Scheme u)) || bool_decide (Host u = [])
  then reject "absolute target is not an http(s) URL with a host"
  else if hasDotSegment (Path u) then reject "dot segment"
  else
    let origin := origin_of (Scheme u) (ToLower (Host u)) in
    if bool_decide (origin ∈ extra) then Ok (with_query (origin ++ EscapedPath u) u)
    else reject "origin not trusted".

Definition Parse (raw : bytes) (o : Origins) : res Target :=
  match public o with
  | None => Err ErrNoOrigins
  | Some public =>
      if bool_decide (raw = []) then Ok []
      else match screen raw with
      | Some err => Err err
      | None =>
          match Url.Parse raw with
          | None => Err (Join ErrRejected (New "parse"))
          | Some u =>
              if User u || negb (bool_decide (Opaque u = [])) || negb (bool_decide (Fragment u = []))
              then reject "user, opaque or fragment"
              else
                out ← (if bool_decide (Scheme u = []) && bool_decide (Host u = []) then relative u public
                       else absolute u (extra o));
                if MaxLength <? Z.of_nat (length out) then reject "too long" else Ok out
          end
      end
  end.
End redirect.
End Redirect.
