(* ===== verification/RedirectProperties.v ===== *)
(** Redirect targets: what an accepted target looks like, and that it is accepted again as it is. *)
From Stdlib Require Import Btauto.
From S2P Require Import Prelude Errors GoText Redirect.
Import Url Redirect.

(** ** Escaping *)
Lemma hex_upper z : 0 <= z < 16 -> hex_value (upper_hex z) = Some z.
Proof.
  intros Hz. assert (z = 0 \/ z = 1 \/ z = 2 \/ z = 3 \/ z = 4 \/ z = 5 \/ z = 6 \/ z = 7 \/ z = 8 \/ z = 9 \/ z = 10
    \/ z = 11 \/ z = 12 \/ z = 13 \/ z = 14 \/ z = 15) as Hc by lia.
  by repeat (destruct Hc as [->|Hc]; [reflexivity|]); subst.
Qed.

Lemma nibbles c : 0 <= Z_of_byte c / 16 < 16 /\ 0 <= Z_of_byte c mod 16 < 16.
Proof.
  pose proof (Z_of_byte_range c). split; [split; [apply Z.div_pos; lia|apply Z.div_lt_upper_bound; lia]|].
  apply Z.mod_pos_bound. lia.
Qed.

Lemma escape_percent c : should_escape c = false -> c <> percent.
Proof. intros H ->. done. Qed.

Lemma unescape_escape_byte c b : unescape (escape_byte c ++ b) = r ← unescape b; Some (c :: r).
Proof.
  unfold escape_byte. destruct (nibbles c) as [Hh Hl]. destruct (should_escape c) eqn:E; cbn [app unescape].
  - rewrite bool_decide_eq_true_2, !hex_upper by done. simpl. destruct (unescape b); simpl; [|done].
    by rewrite <- Z_div_mod_eq_full, byte_of_Z_of_byte.
  - by rewrite bool_decide_eq_false_2 by by apply escape_percent.
Qed.

Lemma unescape_escape b : unescape (escape b) = Some b.
Proof.
  induction b as [|c b IH]; [done|]. change (escape (c :: b)) with (escape_byte c ++ escape b).
  by rewrite unescape_escape_byte, IH.
Qed.

Lemma unescape_EscapedPath u : unescape (EscapedPath u) = Some (Path u).
Proof.
  unfold EscapedPath. repeat case_match; bools; try done; [|apply unescape_escape].
  match goal with H : Path u = _ |- _ => by rewrite H end.
Qed.

(** Escaping a second time what was escaped changes nothing. *)
Lemma setPath_Escaped u v : Path u <> ["*"%byte] ->
  exists w, setPath (EscapedPath u) v = Some w /\ EscapedPath w = EscapedPath u /\ Path w = Path u /\
    Scheme w = Scheme v /\ Opaque w = Opaque v /\ User w = User v /\ Host w = Host v /\ RawQuery w = RawQuery v /\
    Fragment w = Fragment v.
Proof.
  intros Hs. unfold setPath. rewrite unescape_EscapedPath. simpl. eexists. split; [done|]. split; [|done].
  unfold EscapedPath at 1. cbn [RawPath Path]. rewrite (bool_decide_eq_false_2 (Path u = _)) by done.
  destruct (decide (escape (Path u) = EscapedPath u)) as [He|He].
  - by rewrite (bool_decide_eq_true_2 _ He).
  - rewrite (bool_decide_eq_false_2 _ He), unescape_EscapedPath, (bool_decide_eq_true_2 (Some _ = _)), andb_true_r by done.
    assert (EscapedPath u <> [] /\ valid_encoded (EscapedPath u) = true) as [Hn Hv].
    { unfold EscapedPath in *. rewrite (bool_decide_eq_false_2 (Path u = _)) in * by done.
      destruct (_ && _ && _) eqn:E; [|done]. by bools. }
    by rewrite bool_decide_eq_false_2, Hv.
Qed.

(** ** Segments *)
Lemma split_ne sep b : split sep b <> [].
Proof. destruct b as [|c b]; simpl; [done|]. repeat case_match; done. Qed.

Lemma split_app sep a b : split sep (a ++ sep :: b) = split sep a ++ split sep b.
Proof.
  induction a as [|c a IH]; simpl; [by rewrite bool_decide_eq_true_2|].
  rewrite IH. case_match; [done|]. destruct (split sep a) eqn:E; [by apply split_ne in E|done].
Qed.

Lemma concat_split sep b : concat (map (cons sep) (split sep b)) = sep :: b.
Proof.
  induction b as [|c b IH]; simpl; [done|]. case_bool_decide as Hc; [subst; by rewrite <- IH|].
  destruct (split sep b) eqn:E; [by apply split_ne in E|]. simpl in IH |- *. by injection IH as ->.
Qed.

Definition dot_segment (seg : bytes) : bool := bool_decide (seg = str_bytes ".") || bool_decide (seg = str_bytes "..").

Lemma fold_resolve l dst : existsb dot_segment l = false ->
  fold_left resolve_elem l (dst, false) = (dst ++ concat (map (cons "/"%byte) l), false).
Proof.
  revert dst. induction l as [|s l IH]; intros dst H; simpl; [by rewrite app_nil_r|].
  cbn in H. apply orb_false_iff in H as [Hs H]. apply orb_false_iff in Hs as [H1 H2]. rewrite H1, H2, IH by done.
  by rewrite <- !app_assoc.
Qed.

Lemma resolvePath_id base b : hasDotSegment ("/"%byte :: b) = false -> resolvePath base ("/"%byte :: b) = "/"%byte :: b.
Proof.
  intros H. unfold resolvePath. rewrite bool_decide_eq_true_2 by done.
  unfold hasDotSegment in H. change (split "/"%byte ("/"%byte :: b)) with ([] :: split "/"%byte b) in *.
  cbn [existsb] in H. apply orb_false_iff in H as [_ H].
  cbn [fold_left]. change (resolve_elem (["/"%byte], true) []) with (["/"%byte], false).
  rewrite fold_resolve by done. cbn [fst]. rewrite concat_split.
  assert (forall s, last ([] :: split "/"%byte b) = Some s -> dot_segment s = true -> False) as Hl.
  { intros s Hs Hd. rewrite last_cons in Hs. destruct (last (split "/"%byte b)) as [s'|] eqn:E; simplify_eq.
    apply last_Some_elem_of in E. apply not_true_iff_false in H. apply H, existsb_exists. exists s.
    split; [by apply list_elem_of_In|done]. }
  rewrite !(bool_decide_eq_false_2 (last _ = _)) by (intros Hs; by apply (Hl _ Hs)). done.
Qed.

Lemma unescape_app a b p : unescape (a ++ "/"%byte :: b) = Some p ->
  exists pa pb, unescape a = Some pa /\ unescape b = Some pb /\ p = pa ++ "/"%byte :: pb.
Proof.
  revert p. induction a as [a IH] using (induction_ltof1 _ (@length byte)). unfold ltof in IH. intros p H.
  destruct a as [|c a]; cbn [app unescape] in H.
  { rewrite bool_decide_eq_false_2 in H by done. apply bind_Some in H as (pb & Hb & [= <-]). by exists [], pb. }
  cbn [unescape]. case_bool_decide as Hc.
  - destruct a as [|h [|l a]]; cbn [app] in H.
    + destruct b; [done|]. simpl in H. done.
    + destruct (hex_value h); [|done]. simpl in H. done.
    + destruct (hex_value h) as [x|]; [|done]. destruct (hex_value l) as [y|]; [|done]. cbn [mbind option_bind] in *.
      apply bind_Some in H as (r & H & [= <-]). apply IH in H as (pa & pb & -> & -> & ->); [|simpl; lia].
      by exists (byte_of_Z (16 * x + y) :: pa), pb.
  - apply bind_Some in H as (r & H & [= <-]). apply IH in H as (pa & pb & -> & -> & ->); [|simpl; lia].
    by exists (c :: pa), pb.
Qed.

Lemma split_single sep b : sep ∉ b -> split sep b = [b].
Proof.
  induction b as [|c b IH]; intros H; simpl; [done|]. rewrite not_elem_of_cons in H. destruct H as [Hc H].
  rewrite bool_decide_eq_false_2 by congruence. by rewrite IH.
Qed.

(** A dot segment of an escaped path is one of the path. *)
Lemma dot_escaped b p : unescape b = Some p -> hasDotSegment p = false -> hasDotSegment b = false.
Proof.
  revert p. induction b as [b IH] using (induction_ltof1 _ (@length byte)). unfold ltof in IH. intros p Hu Hp.
  destruct (decide ("/"%byte ∈ b)) as [Hin|Hno].
  - apply list_elem_of_split in Hin as (a & b' & ->). apply unescape_app in Hu as (pa & pb & Ha & Hb & ->).
    unfold hasDotSegment in *. rewrite split_app, existsb_app in *. apply orb_false_iff in Hp as [Hpa Hpb].
    rewrite length_app in IH. simpl in IH. apply orb_false_iff. split; [eapply IH|eapply IH]; eauto; lia.
  - destruct (hasDotSegment b) eqn:E; [|done]. exfalso. unfold hasDotSegment in E.
    rewrite split_single in E by done. cbn in E. rewrite orb_false_r in E.
    apply orb_true_iff in E as [E|E]; bools; subst; by injection Hu as <-.
Qed.

(** ** Screening *)
(** A byte a screened text may hold. *)
Definition plain (c : byte) : bool :=
  printable c && negb (bool_decide (c = "\"%byte)) && negb (bool_decide (c = "#"%byte)).

(** The lower-case text starts with an escape that is refused. *)
Definition bad_at (l : bytes) : bool :=
  existsb (fun esc => has_prefix (str_bytes esc) l) forbiddenEscapes
  || match l with
     | c :: x :: y :: _ =>
         bool_decide (c = percent) && (bool_decide (x = "0"%byte) || bool_decide (x = "1"%byte)
           || bool_decide (x = "7"%byte) && bool_decide (y = "f"%byte))
     | _ => false
     end.

Fixpoint clean_lower (l : bytes) : bool :=
  negb (bad_at l) && match l with [] => true | _ :: l' => clean_lower l' end.

Definition clean (b : bytes) : bool := clean_lower (map ascii_lower b).

Lemma clean_lower_spec l :
  existsb (fun esc => contains (str_bytes esc) l) forbiddenEscapes || escaped_control l = negb (clean_lower l).
Proof.
  induction l as [|c l IH]; [done|]. cbn [clean_lower escaped_control]. rewrite negb_andb, negb_involutive, <- IH.
  unfold bad_at. cbn [forbiddenEscapes existsb contains]. destruct l as [|x [|y l']]; btauto.
Qed.

Lemma find_existsb {A} (f : A -> bool) l : existsb f l = match List.find f l with Some _ => true | None => false end.
Proof. induction l as [|x l IH]; simpl; [done|]. by destruct (f x). Qed.

Lemma plain_forallb b :
  forallb plain b = printableASCII b && negb (contains_any (str_bytes "\#") b).
Proof.
  induction b as [|c b IH]; [done|]. cbn [forallb printableASCII contains_any existsb] in *. unfold contains_any in IH |- *.
  cbn [existsb]. rewrite IH. unfold plain.
  rewrite (bool_decide_ext (c ∈ str_bytes "\#") (c = "\"%byte \/ c = "#"%byte)) by (cbn; set_solver).
  rewrite bool_decide_or. unfold printableASCII. btauto.
Qed.

Lemma screen_None b :
  screen b = None <-> Z.of_nat (length b) <= MaxLength /\ forallb plain b = true /\ clean b = true.
Proof.
  unfold screen, clean. rewrite plain_forallb. pose proof (clean_lower_spec (map ascii_lower b)) as Hc.
  rewrite find_existsb in Hc. destruct (MaxLength <? _) eqn:E; bools; [split; [done|intros (? & _); lia]|].
  destruct (printableASCII b); cbn [negb andb]; [|naive_solver].
  destruct (contains_any _ b); cbn [negb]; [naive_solver|].
  destruct (List.find _ _); [destruct (clean_lower _); naive_solver|]. simpl in Hc.
  destruct (escaped_control _); destruct (clean_lower _); naive_solver.
Qed.

Lemma bad_at_three c x y l : bad_at (c :: x :: y :: l) = bad_at [c; x; y].
Proof. reflexivity. Qed.

Lemma bad_at_percent c l : c <> percent -> bad_at (c :: l) = false.
Proof.
  intros Hc. unfold bad_at. cbn. rewrite !(bool_decide_eq_false_2 (percent = c)) by congruence.
  destruct l as [|x [|y l]]; cbn; rewrite ?(bool_decide_eq_false_2 (c = percent)) by done; done.
Qed.

Lemma bad_at_app a b : bad_at (a ++ b) = false -> bad_at a = false.
Proof.
  destruct a as [|c [|x [|y a]]]; try done.
  - intros _. unfold bad_at. cbn. by rewrite !andb_false_r.
  - intros _. unfold bad_at. cbn. by rewrite !andb_false_r.
Qed.

Lemma lower_percent c : ascii_lower c = percent -> c = percent.
Proof. destruct c; done. Qed.

Lemma clean_app_l a b : clean (a ++ b) = true -> clean a = true.
Proof.
  unfold clean. rewrite map_app. induction (map ascii_lower a) as [|c l IH]; [done|]. cbn [app clean_lower].
  intros [H1 H2]%andb_true_iff. rewrite IH by done. apply negb_true_iff in H1.
  by rewrite (bad_at_app (c :: l) (map ascii_lower b)).
Qed.

Lemma clean_app_r a b : clean (a ++ b) = true -> clean b = true.
Proof.
  unfold clean. rewrite map_app. induction (map ascii_lower a) as [|c l IH]; [done|]. cbn [app clean_lower].
  intros [_ H2]%andb_true_iff. by apply IH.
Qed.

Lemma clean_cons c b : c <> percent -> clean (c :: b) = clean b.
Proof. intros Hc. unfold clean. cbn. by rewrite bad_at_percent by (by intros ?%lower_percent). Qed.

Lemma clean_app a b : percent ∉ a -> clean b = true -> clean (a ++ b) = true.
Proof.
  induction a as [|c a IH]; [done|]. intros [Hc Ha]%not_elem_of_cons Hb. rewrite <- app_comm_cons, clean_cons by congruence. auto.
Qed.

(** A byte that a screened path decodes to. *)
Definition tame (c : byte) : bool :=
  (32 <=? Z_of_byte c) && negb (Z_of_byte c =? 127) && negb (bool_decide (c = percent)) && negb (bool_decide (c = "\"%byte)).

Lemma plain_tame c : c <> percent -> plain c = true -> tame c = true.
Proof. destruct c; done. Qed.

Lemma lower_hex c x : hex_value c = Some x -> 0 <= x < 16 /\ ascii_lower c = ascii_lower (upper_hex x).
Proof. destruct c; intros [= <-]; (split; [split; by vm_compute|reflexivity]). Qed.

Lemma hex_tame x y : 0 <= x < 16 -> 0 <= y < 16 ->
  bad_at [percent; ascii_lower (upper_hex x); ascii_lower (upper_hex y)] = false -> tame (byte_of_Z (16 * x + y)) = true.
Proof.
  intros Hx Hy Hb.
  assert (forallb (fun x => forallb (fun y =>
    bad_at [percent; ascii_lower (upper_hex x); ascii_lower (upper_hex y)] || tame (byte_of_Z (16 * x + y)))
    (seqZ 0 16)) (seqZ 0 16) = true) as H by by vm_compute.
  rewrite forallb_forall in H. specialize (H x). rewrite forallb_forall in H.
  specialize (H ltac:(apply list_elem_of_In, elem_of_seqZ; lia) y ltac:(apply list_elem_of_In, elem_of_seqZ; lia)).
  by rewrite Hb in H.
Qed.

Lemma unescape_tame b p : forallb plain b = true -> clean b = true -> unescape b = Some p -> forallb tame p = true.
Proof.
  revert p. induction b as [b IH] using (induction_ltof1 _ (@length byte)). unfold ltof in IH. intros p Hp Hc H.
  destruct b as [|c b]; [by injection H as <-|]. cbn [forallb] in Hp. apply andb_true_iff in Hp as [Hpc Hp].
  cbn [unescape] in H. case_bool_decide as E.
  - subst c. destruct b as [|h [|l b]]; try done. destruct (hex_value h) as [x|] eqn:Ex; [|done].
    destruct (hex_value l) as [y|] eqn:Ey; [|done]. cbn [mbind option_bind] in H.
    apply bind_Some in H as (r & H & [= <-]). apply lower_hex in Ex as [Hx Ex], Ey as [Hy Ey].
    cbn [forallb] in *. apply andb_true_iff in Hp as [_ Hp]. apply andb_true_iff in Hp as [_ Hp].
    assert (clean b = true) as Hcb by by apply (clean_app_r [percent; h; l]).
    rewrite (IH b) with (p := r); [|simpl; lia|done..]. rewrite andb_true_r. apply hex_tame; [done..|].
    unfold clean in Hc. cbn [map clean_lower] in Hc. apply andb_true_iff in Hc as [Hc _]. apply negb_true_iff in Hc.
    by rewrite bad_at_three, Ex, Ey in Hc.
  - apply bind_Some in H as (r & H & [= <-]). cbn [forallb]. rewrite clean_cons in Hc by done.
    rewrite plain_tame, (IH b) with (p := r); [done|simpl; lia|done..].
Qed.

Lemma escape_byte_clean c b : tame c = true -> clean b = true -> clean (escape_byte c ++ b) = true.
Proof.
  unfold escape_byte. intros Hc Hb. destruct (should_escape c) eqn:E.
  - cbn [app]. unfold clean in *. cbn [map clean_lower]. rewrite bad_at_three.
    assert (forall z, 0 <= z < 16 -> upper_hex z <> percent) as Hh.
    { intros z Hz Hp. apply hex_upper in Hz. by rewrite Hp in Hz. }
    destruct (nibbles c) as [Hh1 Hh2].
    rewrite !(bad_at_percent (ascii_lower (upper_hex _))), Hb by (intros ?%lower_percent; eapply Hh; [|eassumption]; done).
    rewrite !andb_true_r. by destruct c.
  - cbn [app]. by rewrite clean_cons by by apply escape_percent.
Qed.

Lemma escape_clean p b : forallb tame p = true -> clean b = true -> clean (escape p ++ b) = true.
Proof.
  induction p as [|c p IH]; [done|]. cbn [forallb]. intros [Hc Hp]%andb_true_iff Hb.
  change (escape (c :: p)) with (escape_byte c ++ escape p). rewrite <- app_assoc. apply escape_byte_clean; auto.
Qed.

(** Neither a question mark nor a byte that is not plain comes out of escaping. *)
Lemma escape_plain p : forallb plain (escape p) = true /\ "?"%byte ∉ escape p.
Proof.
  assert (forall c, forallb plain (escape_byte c) = true /\ "?"%byte ∉ escape_byte c) as H.
  { intros c. split; [by destruct c|]. destruct c; vm_compute; set_solver. }
  induction p as [|c p [IH1 IH2]]; [by split; [|apply not_elem_of_nil]|].
  change (escape (c :: p)) with (escape_byte c ++ escape p). destruct (H c) as [H1 H2].
  rewrite forallb_app, H1, IH1. split; [done|]. rewrite elem_of_app. tauto.
Qed.

(** ** Parsing *)
Lemma Cut_spec sep b x y f : Cut sep b = (x, y, f) ->
  sep ∉ x /\ b = x ++ (if f then sep :: y else []) /\ (f = false -> y = []).
Proof.
  revert x y f. induction b as [|c b IH]; intros x y f; cbn [Cut]; [intros [= <- <- <-]; by split; [apply not_elem_of_nil|]|].
  case_bool_decide as Hc; [intros [= <- <- <-]; subst; by split; [apply not_elem_of_nil|]|].
  destruct (Cut sep b) as [[x' y'] f'] eqn:E. intros [= <- <- <-]. destruct (IH x' y' f' eq_refl) as (Hn & -> & Hf).
  split; [rewrite not_elem_of_cons; split; [congruence|done]|done].
Qed.

Lemma Cut_app sep b r : sep ∉ b -> Cut sep (b ++ r) = let '(x, y, f) := Cut sep r in (b ++ x, y, f).
Proof.
  induction b as [|c b IH]; intros H; [cbn [app]; by destruct (Cut sep r) as [[? ?] ?]|]. rewrite not_elem_of_cons in H.
  destruct H as [Hc H]. cbn [app Cut]. rewrite bool_decide_eq_false_2 by congruence. rewrite IH by done.
  by destruct (Cut sep r) as [[? ?] ?].
Qed.

Lemma scheme_loop_spec b : forall seen raw s rest, scheme_loop seen b raw = Some (s, rest) ->
  s = [] /\ rest = raw \/ s <> [] /\ rev seen ++ b = s ++ ":"%byte :: rest.
Proof.
  induction b as [|c b IH]; intros seen raw s rest H; cbn [scheme_loop] in H; [left; by simplify_eq|].
  destruct (letter c); [apply IH in H as [?|(? & H)]; [by left|right; split; [done|]]; cbn in H; by rewrite <- app_assoc in H|].
  destruct (digit c || _).
  { destruct seen as [|x seen]; [left; by simplify_eq|].
    apply IH in H as [?|(? & H)]; [by left|right; split; [done|]]. cbn in H |- *. by rewrite <- !app_assoc in *. }
  case_bool_decide; [|left; by simplify_eq]. destruct seen as [|x seen]; [done|]. simplify_eq. right.
  split; [|done]. cbn. by destruct (rev seen).
Qed.

Lemma scheme_loop_app b x : forall seen raw raw' s rest, scheme_loop seen b raw = Some (s, rest) -> s <> [] ->
  scheme_loop seen (b ++ x) raw' = Some (s, rest ++ x).
Proof.
  induction b as [|c b IH]; intros seen raw raw' s rest H Hs; cbn [app scheme_loop] in *; [by simplify_eq|].
  destruct (letter c); [by eapply IH|]. destruct (digit c || _); [destruct seen; [by simplify_eq|by eapply IH]|].
  case_bool_decide; [|by simplify_eq]. destruct seen; [done|]. by simplify_eq.
Qed.

Definition query_part (q : bytes) : bytes := if bool_decide (q = []) then [] else "?"%byte :: q.

Lemma with_query_part out u : with_query out u = out ++ query_part (RawQuery u).
Proof. unfold with_query, query_part. case_bool_decide; [by rewrite app_nil_r|done]. Qed.

Section facts.
Context `{NetURL}.

(** The path and the query of a parsed URL are those written in the text. *)
Lemma parse_shape raw u : Url.parse raw = Some u -> exists pre p q,
  raw = pre ++ p ++ q /\ unescape p = Some (Path u) /\ (RawPath u = [] \/ RawPath u = p) /\ "?"%byte ∉ p /\
  (q = [] /\ RawQuery u = [] \/ q = "?"%byte :: RawQuery u) /\
  (Host u <> [] -> p = [] \/ exists p', p = "/"%byte :: p').
Proof.
  unfold Url.parse. destruct (existsb _ raw); [done|]. case_bool_decide as Hs.
  { intros [= <-]. subst. exists [], ["*"%byte], []. by repeat split; [left|set_solver|left|]. }
  intros ([scheme rest] & Hg & Hp)%bind_Some.
  assert (exists pre, raw = pre ++ rest) as [pre ->].
  { apply scheme_loop_spec in Hg as [[_ ->]|[_ Hg]]; [by exists []|]. cbn in Hg. rewrite Hg. exists (scheme ++ [":"%byte]). by rewrite <- app_assoc. }
  clear Hg Hs. unfold cut_query in Hp. destruct (Cut "?"%byte rest) as [[p query] found] eqn:Ec.
  apply Cut_spec in Ec as (Hno & -> & Hf). set (q := if found then _ else _).
  assert (exists force, (if found && bool_decide (query = []) then (true, p, []) else (false, p, query)) = (force, p, query))
    as [force E]. { destruct found; cbn; [case_bool_decide; subst; by eexists|by eexists]. }
  rewrite E in Hp. clear E.
  assert (q = [] /\ query = [] \/ q = "?"%byte :: query) as Hq by (subst q; destruct found; auto).
  destruct (negb _ && negb _).
  { injection Hp as <-. exists (pre ++ p), [], q. rewrite <- app_assoc. by repeat split; [left|apply not_elem_of_nil| |left]. }
  destruct (negb _ && bool_decide _); [done|]. destruct ((_ || _) && _) eqn:Ea.
  - apply andb_true_iff in Ea as [_ Ha]. destruct p as [|a [|b p]]; cbn in Ha; [done|by rewrite andb_false_r in Ha|].
    cbn [drop] in Hp. rewrite drop_0 in Hp. destruct (Cut "/"%byte p) as [[auth path] f] eqn:Ecp.
    apply Cut_spec in Ecp as (_ & -> & Hfp). apply bind_Some in Hp as ([user host] & _ & Hp).
    apply bind_Some in Hp as (path' & Hu & [= <-]). cbn in *.
    exists (pre ++ a :: b :: auth), (if f then "/"%byte :: path else []), q. rewrite <- !app_assoc. cbn.
    split_and!; [done|done|destruct (bool_decide (escape _ = _)); auto|set_solver|done|]. intros _. destruct f; [right; by eexists|by left].
  - apply bind_Some in Hp as (path' & Hu & [= <-]). cbn in *. exists pre, p, q. split_and!; [done|done|destruct (bool_decide (escape _ = _)); auto|done..].
Qed.

Lemma Parse_parse raw : "#"%byte ∉ raw -> Url.Parse raw = 
  u ← Url.parse raw; Some (mkURL (Scheme u) (Opaque u) (User u) (Host u) (Path u) (RawPath u) (ForceQuery u) (RawQuery u) []).
Proof. intros Hn. unfold Url.Parse. by rewrite Cut_absent by done. Qed.

Lemma plain_spec b : forallb plain b = true -> "#"%byte ∉ b /\ existsb (fun c => (Z_of_byte c <? 32) || (Z_of_byte c =? 127)) b = false.
Proof.
  induction b as [|c b IH]; cbn; [by split; [apply not_elem_of_nil|]|]. intros [Hc Hb]%andb_true_iff.
  destruct (IH Hb) as [IH1 IH2]. rewrite not_elem_of_cons, IH2. by destruct c.
Qed.

(** The escaped path and the query of a screened text are clean. *)
Lemma escaped_facts raw u : screen raw = None -> Url.Parse raw = Some u -> Path u <> ["*"%byte] ->
  let t := EscapedPath u ++ query_part (RawQuery u) in
  forallb plain t = true /\ clean t = true /\ "?"%byte ∉ EscapedPath u /\
  (Host u <> [] -> EscapedPath u = [] \/ exists e, EscapedPath u = "/"%byte :: e).
Proof.
  intros (_ & Hpl & Hcl)%screen_None Hp Hstar. rewrite Parse_parse in Hp by by apply plain_spec.
  apply bind_Some in Hp as (u0 & Hp & [= <-]). cbn [Path RawQuery Host] in *.
  apply parse_shape in Hp as (pre & p & q & -> & Hu & Hr & Hn & Hq & Hh).
  rewrite !forallb_app in Hpl. apply andb_true_iff in Hpl as [_ [Hp Hpq]%andb_true_iff]. apply clean_app_r in Hcl.
  assert (forallb plain (query_part (RawQuery u0)) = true /\ clean (p ++ query_part (RawQuery u0)) = true) as [Hqp Hqc].
  { unfold query_part. destruct Hq as [[-> ->]| ->]; [done|]. case_bool_decide as E; [|done].
    split; [done|]. rewrite app_nil_r. by apply clean_app_l in Hcl. }
  set (qp := query_part (RawQuery u0)) in *. unfold EscapedPath. cbn [RawPath Path].
  rewrite (bool_decide_eq_false_2 (Path u0 = _)) by done. destruct (_ && _ && _) eqn:E.
  - destruct Hr as [Hr|Hr]; rewrite Hr in *; [done|]. cbn. rewrite forallb_app, Hp, Hqp. by repeat split.
  - destruct (escape_plain (Path u0)) as [He Hqm]. cbn. rewrite forallb_app, He, Hqp.
    repeat split; [|done|].
    + apply escape_clean; [|by apply clean_app_r in Hqc]. apply (unescape_tame p); [done| |done]. by apply clean_app_l in Hqc.
    + intros [->|[p' ->]]%Hh; [left; by injection Hu as <-|]. right. cbn in Hu.
      apply bind_Some in Hu as (r & _ & [= <-]). by eexists.
Qed.

Lemma slash_clean b p : clean b = true -> unescape b = Some ("/"%byte :: p) -> exists b', b = "/"%byte :: b'.
Proof.
  destruct b as [|c b]; [done|]. cbn [unescape]. case_bool_decide as E.
  - subst. destruct b as [|h [|l b]]; try done. destruct (hex_value h) as [x|] eqn:Ex; [|done].
    destruct (hex_value l) as [y|] eqn:Ey; [|done]. cbn [mbind option_bind]. intros Hc (r & _ & Hb)%bind_Some. exfalso.
    apply lower_hex in Ex as [Hx Ex], Ey as [Hy Ey]. injection Hb as Hb _.
    apply (f_equal Z_of_byte) in Hb. rewrite Z_of_byte_of_Z_small in Hb by lia. change (Z_of_byte "/") with 47 in Hb.
    assert (x = 2 /\ y = 15) as [-> ->] by lia.
    unfold clean in Hc. cbn [map clean_lower] in Hc. rewrite bad_at_three, Ex, Ey in Hc. by vm_compute in Hc.
  - intros _ (r & _ & [= ->])%bind_Some. by eexists.
Qed.

Lemma has_slash b : has_prefix ["/"%byte] b = true <-> exists b', b = "/"%byte :: b'.
Proof.
  destruct b as [|c b]; cbn; [naive_solver|]. rewrite andb_true_r, bool_decide_eq_true. naive_solver.
Qed.

(** [relative] accepts a path-absolute URL without dot segments, and gives its escaped path. *)
Lemma relative_Ok u pub out : clean (EscapedPath u) = true ->
  relative u pub = Ok out <->
  has_prefix ["/"%byte] (Path u) = true /\ has_prefix (str_bytes "//") (Path u) = false /\
  hasDotSegment (Path u) = false /\ User pub = false /\ has_prefix (str_bytes "//") (EscapedPath u) = false /\
  out = EscapedPath u ++ query_part (RawQuery u).
Proof.
  intros Hc. unfold relative. destruct (has_prefix ["/"%byte] (Path u)) eqn:Es; [|naive_solver].
  destruct (has_prefix (str_bytes "//") (Path u)) eqn:Ess; [naive_solver|]. cbn [negb orb].
  destruct (hasDotSegment (Path u)) eqn:Ed; [naive_solver|].
  apply has_slash in Es as [p' Ep]. pose proof (unescape_EscapedPath u) as Hu. rewrite Ep in Hu.
  destruct (slash_clean _ _ Hc Hu) as [e Ee]. rewrite <- Ep in Hu.
  assert (resolvePath (EscapedPath pub) (EscapedPath u) = EscapedPath u) as Hr.
  { rewrite Ee. apply resolvePath_id. rewrite <- Ee. by eapply dot_escaped. }
  unfold ResolveReference. rewrite Hr. set (v := mkURL _ _ _ _ _ _ _ _ _).
  destruct (setPath_Escaped u v) as (w & -> & Hw & _ & Hsc & _ & Hus & Hho & Hq & _); [by rewrite Ep|].
  change (default v (Some w)) with w. rewrite Hsc, Hus, Hho, Hw, with_query_part, Hq. subst v. cbn [Scheme User Host RawQuery].
  rewrite !bool_decide_eq_true_2 by done. cbn [negb orb].
  destruct (User pub); [naive_solver|]. rewrite (proj2 (has_slash _)) by eauto.
  destruct (has_prefix (str_bytes "//") (EscapedPath u)); cbn [negb orb]; naive_solver.
Qed.

Lemma absolute_Ok u extra out : absolute u extra = Ok out <->
  let origin := origin_of (Scheme u) (ToLower (Host u)) in
  http_scheme (Scheme u) = true /\ Host u <> [] /\ hasDotSegment (Path u) = false /\ origin ∈ extra /\
  out = origin ++ EscapedPath u ++ query_part (RawQuery u).
Proof.
  unfold absolute. destruct (http_scheme (Scheme u)); [|naive_solver]. cbn [negb orb].
  case_bool_decide; [naive_solver|]. destruct (hasDotSegment (Path u)); [naive_solver|]. cbn zeta.
  case_bool_decide; [|naive_solver]. rewrite with_query_part, <- app_assoc. naive_solver.
Qed.

(** The side of an equivalence that a refusal has. *)
Ltac neither := split; [done|intros (? & ? & ? & ? & ? & ? & ? & ? & _); congruence].

(** What an accepted, non-empty text is. *)
Lemma Parse_Ok raw o t : raw <> [] -> Redirect.Parse raw o = Ok t <->
  exists pub u, public o = Some pub /\ screen raw = None /\ Url.Parse raw = Some u /\ User u = false /\ Opaque u = [] /\
    Fragment u = [] /\ Z.of_nat (length t) <= MaxLength /\
    (Scheme u = [] /\ Host u = [] /\ relative u pub = Ok t \/
     (Scheme u <> [] \/ Host u <> []) /\ absolute u (extra o) = Ok t).
Proof.
  intros Hne. unfold Redirect.Parse. destruct (public o) as [pub|]; [|neither].
  rewrite bool_decide_eq_false_2 by done. destruct (screen raw); [neither|].
  destruct (Url.Parse raw) as [u|]; [|neither]. destruct (User u) eqn:EU; [neither|].
  destruct (decide (Opaque u = [])) as [Ho|Ho];
    [rewrite (bool_decide_eq_true_2 _ Ho)|rewrite (bool_decide_eq_false_2 _ Ho); neither].
  destruct (decide (Fragment u = [])) as [Hf|Hf];
    [rewrite (bool_decide_eq_true_2 _ Hf)|rewrite (bool_decide_eq_false_2 _ Hf); neither].
  cbn [negb orb].
  assert (forall (m : res bytes),
    (m ≫= fun out => if MaxLength <? Z.of_nat (length out) then reject "too long" else Ok out) = Ok t <->
    Z.of_nat (length t) <= MaxLength /\ m = Ok t) as Hm.
  { intros [out|e]; cbn; [|split; [done|by intros [_ ?]]]. destruct (MaxLength <? _) eqn:El; bools; split; intros; destruct_and?; simplify_eq; auto; lia. }
  rewrite Hm. destruct (decide (Scheme u = [] /\ Host u = [])) as [[E1 E2]|E].
  - rewrite !bool_decide_eq_true_2 by done. naive_solver.
  - assert (bool_decide (Scheme u = []) && bool_decide (Host u = []) = false) as ->
      by (apply andb_false_iff; rewrite !bool_decide_eq_false; destruct (decide (Scheme u = [])); tauto).
    destruct (decide (Scheme u = [])); naive_solver.
Qed.

(** ** Parsing again *)
Lemma query_part_cut ep q : "?"%byte ∉ ep -> cut_query (ep ++ query_part q) = (false, ep, q).
Proof.
  intros Hn. unfold cut_query, query_part. rewrite Cut_app by done. case_bool_decide as E; [subst; cbn; by rewrite app_nil_r|].
  cbn. rewrite bool_decide_eq_true_2 by done. cbn. by rewrite app_nil_r, bool_decide_eq_false_2.
Qed.

Definition bare (scheme host q : bytes) : URL := mkURL scheme [] false host [] [] false q [].

Lemma setPath_Fragment p u w : setPath p u = Some w -> Fragment u = [] ->
  mkURL (Scheme w) (Opaque w) (User w) (Host w) (Path w) (RawPath w) (ForceQuery w) (RawQuery w) [] = w.
Proof. intros (x & _ & [= <-])%bind_Some Hf. by rewrite <- Hf. Qed.

Lemma Parse_path e q w : let ep := "/"%byte :: e in
  has_prefix (str_bytes "//") ep = false -> "?"%byte ∉ ep -> forallb plain (ep ++ query_part q) = true ->
  setPath ep (bare [] [] q) = Some w -> Url.Parse (ep ++ query_part q) = Some w.
Proof.
  intros ep Hss Hn Hpl Hs. destruct (plain_spec _ Hpl) as [Hh Hctl]. rewrite Parse_parse by done.
  unfold Url.parse. rewrite Hctl, bool_decide_eq_false_2 by done. change (getScheme (ep ++ query_part q)) with
    (Some ([] : bytes, ep ++ query_part q)). cbn [mbind option_bind map]. rewrite query_part_cut by done.
  rewrite (proj2 (has_slash ep)) by by eexists. cbn [negb andb]. rewrite Hss, andb_false_r.
  change (mkURL [] [] false [] [] [] false q []) with (bare [] [] q). rewrite Hs. cbn. f_equal.
  by apply (setPath_Fragment ep (bare [] [] q)).
Qed.

(** An origin written the way NewOrigins keeps it, without escapes. *)
Definition normal_origin (e : bytes) : bool :=
  match parseOrigin e with
  | Ok u => bool_decide (origin_of (Scheme u) (Host u) = e) && negb (bool_decide (percent ∈ e))
  | Err _ => false
  end.

(** A URL with a host and no path is a scheme and an authority. *)
Lemma parse_host raw u : Url.parse raw = Some u -> Host u <> [] -> Path u = [] -> Scheme u <> [] -> "?"%byte ∉ raw ->
  exists s auth, getScheme raw = Some (s, "/"%byte :: "/"%byte :: auth) /\ s <> [] /\ Scheme u = map ascii_lower s /\
    "?"%byte ∉ auth /\ "/"%byte ∉ auth /\ parseAuthority (Scheme u) auth = Some (User u, Host u).
Proof.
  intros Hp Hh Hpath Hsc Hq. unfold Url.parse in Hp. destruct (existsb _ raw); [done|].
  case_bool_decide; [by simplify_eq|]. apply bind_Some in Hp as ([s rest] & Hg & Hp).
  assert ("?"%byte ∉ rest) as Hr.
  { intros Hin. apply Hq. apply scheme_loop_spec in Hg as [[_ <-]|[_ Hg]]; [done|]. cbn in Hg. rewrite Hg. set_solver. }
  unfold cut_query in Hp. rewrite Cut_absent in Hp by done. cbn [andb] in Hp.
  destruct (negb _ && negb _); [by simplify_eq|]. destruct (negb _ && bool_decide _); [done|].
  destruct ((_ || _) && _) eqn:Ea; [|by apply bind_Some in Hp as (? & _ & [= <-])].
  apply andb_true_iff in Ea as [_ Ha].
  destruct rest as [|a [|b rest]]; cbn in Ha; [done|by rewrite andb_false_r in Ha|].
  apply andb_true_iff in Ha as [<-%bool_decide_eq_true [<-%bool_decide_eq_true _]%andb_true_iff].
  cbn [drop] in Hp. rewrite drop_0 in Hp. destruct (Cut "/"%byte rest) as [[auth path] f] eqn:Ec.
  apply Cut_spec in Ec as (Hn & -> & Hf). apply bind_Some in Hp as ([user host] & Hau & Hp).
  apply bind_Some in Hp as (path' & Hu & [= <-]). cbn in *. subst path'.
  destruct f; [by apply bind_Some in Hu as (? & _ & ?)|]. rewrite app_nil_r in *. exists s, auth.
  split_and!; [done|by intros ->|done|set_solver|done|done].
Qed.

Lemma normal_origin_parts e : normal_origin e = true -> exists s auth host,
  percent ∉ e /\ forallb plain e = true /\ "?"%byte ∉ auth /\ "/"%byte ∉ auth /\ s <> [] /\
  getScheme e = Some (s, "/"%byte :: "/"%byte :: auth) /\ http_scheme (map ascii_lower s) = true /\
  parseAuthority (map ascii_lower s) auth = Some (false, host) /\ host <> [] /\
  origin_of (map ascii_lower s) (ToLower host) = e.
Proof.
  unfold normal_origin, parseOrigin. destruct (bool_decide (e = []) || _ || _) eqn:E1; [done|].
  apply orb_false_iff in E1 as [[_ Hpr]%orb_false_iff Hany]. apply negb_false_iff in Hpr.
  assert (Hchars : forall c, c ∈ str_bytes "\#?@" -> c ∉ e).
  { intros c Hc Hin. apply not_true_iff_false in Hany. apply Hany, existsb_exists. exists c.
    split; [by apply list_elem_of_In|by apply bool_decide_eq_true]. }
  assert (forallb plain e = true) as Hpl.
  { rewrite plain_forallb, Hpr. destruct (contains_any (str_bytes "\#") e) eqn:Ec; [|done]. exfalso.
    apply existsb_exists in Ec as (c & Hc & Hd). apply (Hchars c); [|by apply list_elem_of_In]. bools.
    revert Hd. vm_compute. set_solver. }
  rewrite Parse_parse by by apply plain_spec. destruct (Url.parse e) as [u|] eqn:Eu; [|done].
  cbn [mbind option_bind Scheme Host User Opaque Path RawQuery ForceQuery Fragment].
  destruct (_ || _) eqn:E2; [done|]. intros [Ho Hpc]%andb_true_iff. cbn [Scheme Host] in Ho. bools.
  destruct (parse_host e u) as (s & auth & Hg & Hs & Hsc & Hq & Hsl & Hau); [done..| |by apply Hchars; vm_compute; set_solver|].
  { intros Hz. by rewrite Hz in *. }
  exists s, auth, (Host u). rewrite <- Hsc. split_and!; try done. by rewrite Hau; match goal with H : User u = false |- _ => rewrite H end.
Qed.

Lemma Parse_origin e ep q scheme host w : normal_origin e = true -> ep = [] \/ (exists p, ep = "/"%byte :: p) ->
  "?"%byte ∉ ep -> forallb plain (ep ++ query_part q) = true ->
  (forall s auth, getScheme e = Some (s, "/"%byte :: "/"%byte :: auth) -> scheme = map ascii_lower s /\
     parseAuthority scheme auth = Some (false, host)) ->
  setPath ep (bare scheme host q) = Some w -> Url.Parse (e ++ ep ++ query_part q) = Some w.
Proof.
  intros (s & auth & host' & Hpc & Hpl & Hq & Hsl & Hs & Hg & _ & _ & Hh & Ho)%normal_origin_parts Hep Hn Hpp Hsa Hw.
  destruct (Hsa s auth Hg) as [-> Hau].
  assert (forallb plain (e ++ ep ++ query_part q) = true) as Hall by by rewrite forallb_app, Hpl.
  destruct (plain_spec _ Hall) as [Hh' Hctl]. rewrite Parse_parse by done. unfold Url.parse.
  rewrite Hctl, bool_decide_eq_false_2.
  2:{ intros E. unfold getScheme in Hg. apply scheme_loop_spec in Hg as [[-> _]|[_ Hg]]; [done|]. cbn in Hg. rewrite Hg in E.
      apply (f_equal length) in E. rewrite !length_app in E. cbn in E. lia. }
  unfold getScheme in Hg |- *. rewrite (scheme_loop_app e (ep ++ query_part q) [] e _ _ _ Hg Hs). cbn [mbind option_bind].
  change (("/"%byte :: "/"%byte :: auth) ++ ep ++ query_part q) with ("/"%byte :: "/"%byte :: auth ++ ep ++ query_part q).
  replace ("/"%byte :: "/"%byte :: auth ++ ep ++ query_part q) with (("/"%byte :: "/"%byte :: auth ++ ep) ++ query_part q)
    by (cbn; by rewrite <- app_assoc).
  rewrite query_part_cut by set_solver. cbn [has_prefix negb andb]. rewrite bool_decide_eq_true_2 by done. cbn [andb negb].
  rewrite (bool_decide_eq_false_2 (map ascii_lower s = [])) by (by destruct s). cbn [negb orb andb drop].
  change (has_prefix (str_bytes "//") _) with true. cbn [andb]. rewrite drop_0, Cut_app by done.
  assert (exists x y f, Cut "/"%byte ep = (x, y, f) /\ x = [] /\ (if f then "/"%byte :: y else []) = ep) as (x & y & f & -> & -> & Hy).
  { destruct Hep as [->|[p ->]]; cbn; [by exists [], [], false|]. by exists [], p, true. }
  rewrite app_nil_r, Hau, Hy. cbn [mbind option_bind]. change (mkURL _ [] false host [] [] false q []) with
    (bare (map ascii_lower s) host q). rewrite Hw. cbn. f_equal. by eapply setPath_Fragment.
Qed.
End facts.

(** ** Properties *)
(** A reference to a path of the origin it is read on: a slash, then neither a slash nor a backslash,
    and no control byte, space, byte beyond ASCII or fragment. *)
Definition path_reference (t : bytes) : Prop :=
  forallb plain t = true /\
  match t with
  | c :: rest => c = "/"%byte /\ match rest with d :: _ => d <> "/"%byte /\ d <> "\"%byte | [] => True end
  | [] => False
  end.

(** A text that stays on [origin]: the origin alone, or followed by a path or a query. *)
Definition on_origin (origin t : bytes) : Prop :=
  exists rest, t = origin ++ rest /\ forallb plain rest = true /\
    match rest with c :: _ => c = "/"%byte \/ c = "?"%byte | [] => True end.

Section properties.
Context `{NetURL}.

Lemma host_no_star raw u : screen raw = None -> Url.Parse raw = Some u -> Host u <> [] -> Path u = ["*"%byte] -> False.
Proof.
  intros (_ & Hpl & _)%screen_None Hp Hh Hs. rewrite Parse_parse in Hp by by apply plain_spec.
  apply bind_Some in Hp as (u0 & Hp & [= <-]). cbn [Path Host] in *.
  apply parse_shape in Hp as (pre & p & q & _ & Hu & _ & _ & _ & [->|[p' ->]]%(fun f => f Hh)); rewrite Hs in Hu; [done|].
  by apply bind_Some in Hu as (? & _ & ?).
Qed.

Lemma path_reference_intro e q : has_prefix (str_bytes "//") ("/"%byte :: e) = false ->
  forallb plain ("/"%byte :: e ++ query_part q) = true -> path_reference ("/"%byte :: e ++ query_part q).
Proof.
  intros Hss Hpl. split; [done|]. split; [done|]. cbn in Hpl. destruct e as [|d e]; cbn [app] in *.
  - unfold query_part. by case_bool_decide.
  - split; [intros ->; by cbn in Hss|]. intros ->. done.
Qed.

Lemma accepted_shape raw o t : Redirect.Parse raw o = Ok t ->
  Z.of_nat (length t) <= MaxLength /\
  (t = [] \/ path_reference t \/ exists origin, origin ∈ extra o /\ on_origin origin t).
Proof.
  intros Hp. destruct (decide (raw = [])) as [->|Hne].
  { unfold Redirect.Parse in Hp. destruct (public o); [|done]. injection Hp as <-. split; [done|by left]. }
  apply Parse_Ok in Hp as (pub & u & _ & Hs & Hu & _ & _ & _ & Hl & [(_ & Hh & Hr)|(_ & Ha)]); [| |done].
  - split; [done|]. right. left. destruct (has_prefix ["/"%byte] (Path u)) eqn:Es; [|unfold relative, reject in Hr; by rewrite Es in Hr].
    apply has_slash in Es as [p Ep]. destruct (escaped_facts raw u) as (Hpl & Hcl & _ & _); [done|done|by rewrite Ep|].
    assert (clean (EscapedPath u) = true) as Hce by by eapply clean_app_l.
    apply relative_Ok in Hr as (_ & _ & _ & _ & Hss & ->); [|done].
    pose proof (unescape_EscapedPath u) as Hun. rewrite Ep in Hun.
    apply slash_clean in Hun as [e Ee]; [|done]. rewrite Ee in *. by apply path_reference_intro.
  - split; [done|]. right. right. apply absolute_Ok in Ha as (_ & Hh & _ & Hin & ->). eexists. split; [done|].
    eexists. split; [done|]. destruct (decide (Path u = ["*"%byte])) as [E|E].
    { exfalso. by eapply host_no_star. }
    destruct (escaped_facts raw u) as (Hpl & _ & _ & Hsl); [done..|]. split; [done|].
    destruct (Hsl Hh) as [->|[e ->]]; [|by left]. cbn. unfold query_part. case_bool_decide; [done|by right].
Qed.

Lemma stable_relative raw o pub u t : public o = Some pub -> screen raw = None -> Url.Parse raw = Some u ->
  Z.of_nat (length t) <= MaxLength -> relative u pub = Ok t -> Redirect.Parse t o = Ok t.
Proof.
  intros Hpub Hs Hu Hl Hr. destruct (has_prefix ["/"%byte] (Path u)) eqn:Es; [|unfold relative, reject in Hr; by rewrite Es in Hr].
  apply has_slash in Es as [p Ep]. destruct (escaped_facts raw u) as (Hpl & Hcl & Hn & _); [done|done|by rewrite Ep|].
  assert (clean (EscapedPath u) = true) as Hce by by eapply clean_app_l.
  apply relative_Ok in Hr as (H1 & H2 & H3 & H4 & Hss & ->); [|done].
  pose proof (unescape_EscapedPath u) as Hun. rewrite Ep in Hun. destruct (slash_clean _ _ Hce Hun) as [e Ee].
  destruct (setPath_Escaped u (bare [] [] (RawQuery u))) as (w & Hw & Hwe & Hwp & Hws & Hwo & Hwu & Hwh & Hwq & Hwf);
    [by rewrite Ep|].
  apply Parse_Ok; [by rewrite Ee|]. exists pub, w. split_and!; [done|by apply screen_None| |by rewrite ?Hwu, ?Hwo, ?Hwf..|done|].
  - rewrite Ee in *. by apply Parse_path.
  - left. split; [done|]. split; [done|]. apply relative_Ok; [by rewrite Hwe|]. by rewrite Hwe, Hwp, Hwq.
Qed.

Lemma stable_absolute raw o u t : is_Some (public o) -> forallb normal_origin (extra o) = true ->
  screen raw = None -> Url.Parse raw = Some u -> Z.of_nat (length t) <= MaxLength ->
  absolute u (extra o) = Ok t -> Redirect.Parse t o = Ok t.
Proof.
  intros [pub Hpub] Hno Hs Hu Hl (Hsc & Hh & Hd & Hin & ->)%absolute_Ok.
  destruct (escaped_facts raw u) as (Hpl & Hcl & Hn & Hsl); [done|done|intros ?; by eapply host_no_star|].
  set (origin := origin_of _ _) in *.
  assert (normal_origin origin = true) as Hor by (rewrite forallb_forall in Hno; by apply Hno, list_elem_of_In).
  destruct (normal_origin_parts _ Hor) as (s & auth & host & Hpc & Hop & Hq & Ha & Hse & Hg & Hhs & Hau & Hhn & Ho).
  destruct (setPath_Escaped u (bare (map ascii_lower s) host (RawQuery u)))
    as (w & Hw & Hwe & Hwp & Hws & Hwo & Hwu & Hwh & Hwq & Hwf); [intros ?; by eapply host_no_star|].
  cbn [bare Scheme Opaque User Host RawQuery Fragment] in *.
  apply Parse_Ok.
  { intros Hz. apply app_eq_nil in Hz as [Hz _]. by rewrite Hz in Hg. }
  exists pub, w. split_and!; [done| | |done..|].
  - apply screen_None. rewrite forallb_app, Hop. split_and!; [done..|]. by apply clean_app.
  - apply (Parse_origin origin _ _ (map ascii_lower s) host); [done|by apply Hsl|done..| |done].
    intros s' auth' Hg'. rewrite Hg in Hg'. by injection Hg' as <- <-.
  - right. split; [left; rewrite Hws; by destruct s|]. apply absolute_Ok. rewrite Hws, Hwh, Hwe, Hwp, Hwq, Ho. done.
Qed.

Lemma relative_nonempty raw u pub : screen raw = None -> Url.Parse raw = Some u -> relative u pub = Ok [] -> False.
Proof.
  intros Hs Hu Hr. destruct (has_prefix ["/"%byte] (Path u)) eqn:Es; [|unfold relative, reject in Hr; by rewrite Es in Hr].
  apply has_slash in Es as [p Ep]. destruct (escaped_facts raw u) as (_ & Hcl & _ & _); [done|done|by rewrite Ep|].
  assert (clean (EscapedPath u) = true) as Hce by by eapply clean_app_l.
  apply relative_Ok in Hr as (_ & _ & _ & _ & _ & Hz); [|done].
  pose proof (unescape_EscapedPath u) as Hun. destruct (EscapedPath u); [|done]. by rewrite Ep in Hun.
Qed.

Lemma screen_Err raw e : screen raw = Some e -> Is e ErrRejected = true.
Proof. unfold screen. intros H'. repeat (case_match; simplify_eq; try done). Qed.

Lemma Parse_Err raw o e : Redirect.Parse raw o = Err e ->
  match public o with None => e = ErrNoOrigins | Some _ => raw <> [] /\ Is e ErrRejected = true end.
Proof.
  unfold Redirect.Parse. destruct (public o) as [pub|]; [|by intros [= <-]]. case_bool_decide; [done|].
  destruct (screen raw) eqn:Es; [intros [= <-]; split; [done|by eapply screen_Err]|].
  destruct (Url.Parse raw) as [u|]; [|by intros [= <-]]. destruct (_ || _); [by intros [= <-]|].
  assert (forall e', (if bool_decide (Scheme u = []) && bool_decide (Host u = []) then relative u pub else absolute u (extra o))
    = Err e' -> Is e' ErrRejected = true) as Hsub.
  { unfold relative, absolute, reject. intros e' He. repeat (case_match; simplify_eq; try done). }
  destruct (if bool_decide (Scheme u = []) && bool_decide (Host u = []) then relative u pub else absolute u (extra o))
    as [out|e'] eqn:E; cbn; [|intros [= <-]; eauto].
  destruct (MaxLength <? _); [by intros [= <-]|done].
Qed.

(** C30: Parse gives no target for an empty text, and otherwise, on any text whatever: a target of at
    most MaxLength bytes that is a path reference (a slash not followed by a slash or backslash, only
    printable ASCII without backslash and fragment) or stays on one of the extra origins, byte for
    byte; or an error that wraps ErrRejected, ErrNoOrigins only for the zero Origins. *)
Theorem target_stays_on_trusted_origins raw o :
  match Redirect.Parse raw o with
  | Ok t => Z.of_nat (length t) <= MaxLength /\ (t = [] <-> raw = []) /\
      (t = [] \/ path_reference t \/ exists origin, origin ∈ extra o /\ on_origin origin t)
  | Err e => match public o with None => e = ErrNoOrigins | Some _ => raw <> [] /\ Is e ErrRejected = true end
  end.
Proof.
  destruct (Redirect.Parse raw o) as [t|e] eqn:E.
  - destruct (accepted_shape _ _ _ E) as [Hl Hs]. split; [done|]. split; [|done].
    split; [|intros ->; unfold Redirect.Parse in E; destruct (public o); [by injection E as <-|done]].
    intros ->. destruct (decide (raw = [])) as [|Hne]; [done|]. exfalso.
    apply Parse_Ok in E as (pub & u & _ & Hsc & Hu & _ & _ & _ & _ & [(_ & _ & Hr)|(_ & Ha)]); [| |done].
    + eapply relative_nonempty; eauto.
    + apply absolute_Ok in Ha as (Hh & _ & _ & _ & Hz). unfold origin_of in Hz. by destruct (Scheme u).
  - by apply Parse_Err.
Qed.

(** A target is accepted again as it is: when the extra origins are written the way NewOrigins
    keeps them and without escapes, Parse of an accepted target gives the same target, so a target
    sealed in a journey is not refused when the journey ends. *)
Theorem accepted_target_is_stable raw o t :
  Redirect.Parse raw o = Ok t -> forallb normal_origin (extra o) = true -> Redirect.Parse t o = Ok t.
Proof.
  intros E Hno. destruct (decide (raw = [])) as [->|Hne].
  { unfold Redirect.Parse in *. destruct (public o); [|done]. by injection E as <-. }
  apply Parse_Ok in E as (pub & u & Hp & Hsc & Hu & _ & _ & _ & Hl & [(_ & _ & Hr)|(_ & Ha)]); [| |done].
  - by eapply stable_relative.
  - by eapply stable_absolute; [eexists|..].
Qed.
End properties.

(** A net/url whose hosts are taken as written. *)
#[local] Instance plain_hosts : NetURL :=
  {| parseHost := fun _ h => Some h; ToLower := map ascii_lower; ToLower_ascii := fun b _ => eq_refl |}.

Definition sample_origins : Origins :=
  match NewOrigins (str_bytes "https://app.example") [str_bytes "https://SPA.example:8443"] with
  | Ok o => o
  | Err _ => zero_Origins
  end.

Lemma accepted_target_is_stable_witness :
  let out := str_bytes "https://spa.example:8443/a%3Cb?x=%41" in
  Redirect.Parse (str_bytes "HTTPS://spa.EXAMPLE:8443/a<b?x=%41") sample_origins = Ok out /\
  Redirect.Parse out sample_origins = Ok out.
Proof.
  assert (Redirect.Parse (str_bytes "HTTPS://spa.EXAMPLE:8443/a<b?x=%41") sample_origins
          = Ok (str_bytes "https://spa.example:8443/a%3Cb?x=%41")) as H by (vm_compute; reflexivity).
  split; [exact H|]. apply (accepted_target_is_stable _ _ _ H). vm_compute. reflexivity.
Defined.
