(* ===== verification/Json.v ===== *)
(** encoding/json as the claims of a session use it: Valid and Compact.

    Both run the package's scanner, a push-down automaton that reads one byte at a time; Compact drops
    the bytes the scanner calls white space.  The main lemma is that a compacted value is valid and
    compacts to itself. *)
From S2P Require Import Prelude Errors.

Module Json.

Definition maxNestingDepth : Z := 10000.

(** The step functions of the scanner.  [Literal rest] stands for stateT, stateTr, ... : the letters
    still expected. *)
Inductive state :=
  | BeginValueOrEmpty | BeginValue | BeginStringOrEmpty | BeginString | EndValue | EndTop
  | InString | InStringEsc | InStringEscU (digits : nat)
  | Neg | Num1 | Num0 | Dot | Dot0 | Exp | ExpSign | Exp0
  | Literal (rest : bytes) | Broken.

Inductive parse := ObjectKey | ObjectValue | ArrayValue.

(** What a step reports: a byte of the value, white space within it, the end, an error. *)
Inductive code := Continue | SkipSpace | End_ | Error.

Definition config : Type := (state * list parse)%type.

Definition isSpace (c : byte) : bool :=
  let c := Z_of_byte c in (c =? 32) || (c =? 9) || (c =? 13) || (c =? 10).

Definition quote : byte := Byte.x22.

Definition digit (c : byte) : bool := let c := Z_of_byte c in (48 <=? c) && (c <=? 57).

Definition hex_digit (c : byte) : bool :=
  digit c || (let c := Z_of_byte c in ((97 <=? c) && (c <=? 102)) || ((65 <=? c) && (c <=? 70))).

Definition failed (k : list parse) : config * code := ((Broken, k), Error).

Definition end_top (k : list parse) (c : byte) : config * code :=
  if isSpace c then ((EndTop, k), End_) else ((Broken, k), End_).

Definition pop (k : list parse) : config * code :=
  match k with
  | [] => ((EndTop, []), Continue)
  | _ => ((EndValue, k), Continue)
  end.

Definition push (st : state) (p : parse) (k : list parse) : config * code :=
  if Z.of_nat (length (p :: k)) <=? maxNestingDepth then ((st, p :: k), Continue) else failed (p :: k).

Definition end_value (k : list parse) (c : byte) : config * code :=
  match k with
  | [] => end_top k c
  | p :: k' =>
      if isSpace c then ((EndValue, k), SkipSpace)
      else match p with
      | ObjectKey =>
          if bool_decide (c = ":"%byte) then ((BeginValue, ObjectValue :: k'), Continue) else failed k
      | ObjectValue =>
          if bool_decide (c = ","%byte) then ((BeginString, ObjectKey :: k'), Continue)
          else if bool_decide (c = "}"%byte) then pop k' else failed k
      | ArrayValue =>
          if bool_decide (c = ","%byte) then ((BeginValue, k), Continue)
          else if bool_decide (c = "]"%byte) then pop k' else failed k
      end
  end.

Definition begin_string (k : list parse) (c : byte) : config * code :=
  if isSpace c then ((BeginString, k), SkipSpace)
  else if bool_decide (c = quote) then ((InString, k), Continue) else failed k.

Definition begin_value (k : list parse) (c : byte) : config * code :=
  if isSpace c then ((BeginValue, k), SkipSpace)
  else if bool_decide (c = "{"%byte) then push BeginStringOrEmpty ObjectKey k
  else if bool_decide (c = "["%byte) then push BeginValueOrEmpty ArrayValue k
  else if bool_decide (c = quote) then ((InString, k), Continue)
  else if bool_decide (c = "-"%byte) then ((Neg, k), Continue)
  else if bool_decide (c = "0"%byte) then ((Num0, k), Continue)
  else if bool_decide (c = "t"%byte) then ((Literal (str_bytes "rue"), k), Continue)
  else if bool_decide (c = "f"%byte) then ((Literal (str_bytes "alse"), k), Continue)
  else if bool_decide (c = "n"%byte) then ((Literal (str_bytes "ull"), k), Continue)
  else if digit c then ((Num1, k), Continue)
  else failed k.

Definition num0 (k : list parse) (c : byte) : config * code :=
  if bool_decide (c = "."%byte) then ((Dot, k), Continue)
  else if bool_decide (c = "e"%byte) || bool_decide (c = "E"%byte) then ((Exp, k), Continue)
  else end_value k c.

Definition exp_sign (k : list parse) (c : byte) : config * code :=
  if digit c then ((Exp0, k), Continue) else failed k.

Definition step (x : config) (c : byte) : config * code :=
  let '(st, k) := x in
  match st with
  | BeginValueOrEmpty =>
      if isSpace c then ((st, k), SkipSpace)
      else if bool_decide (c = "]"%byte) then end_value k c else begin_value k c
  | BeginValue => begin_value k c
  | BeginStringOrEmpty =>
      if isSpace c then ((st, k), SkipSpace)
      else if bool_decide (c = "}"%byte)
      then end_value (match k with [] => [] | _ :: k' => ObjectValue :: k' end) c
      else begin_string k c
  | BeginString => begin_string k c
  | EndValue => end_value k c
  | EndTop => end_top k c
  | InString =>
      if bool_decide (c = quote) then ((EndValue, k), Continue)
      else if bool_decide (c = "\"%byte) then ((InStringEsc, k), Continue)
      else if Z_of_byte c <? 32 then failed k
      else ((InString, k), Continue)
  | InStringEsc =>
      if bool_decide (c ∈ str_bytes "bfnrt\/" ++ [quote]) then ((InString, k), Continue)
      else if bool_decide (c = "u"%byte) then ((InStringEscU 3, k), Continue)
      else failed k
  | InStringEscU n =>
      if hex_digit c
      then (((match n with O => InString | S n' => InStringEscU n' end), k), Continue)
      else failed k
  | Neg =>
      if bool_decide (c = "0"%byte) then ((Num0, k), Continue)
      else if digit c then ((Num1, k), Continue) else failed k
  | Num1 => if digit c then ((Num1, k), Continue) else num0 k c
  | Num0 => num0 k c
  | Dot => if digit c then ((Dot0, k), Continue) else failed k
  | Dot0 =>
      if digit c then ((Dot0, k), Continue)
      else if bool_decide (c = "e"%byte) || bool_decide (c = "E"%byte) then ((Exp, k), Continue)
      else end_value k c
  | Exp =>
      if bool_decide (c = "+"%byte) || bool_decide (c = "-"%byte) then ((ExpSign, k), Continue)
      else exp_sign k c
  | ExpSign => exp_sign k c
  | Exp0 => if digit c then ((Exp0, k), Continue) else end_value k c
  | Literal rest =>
      match rest with
      | d :: rest' =>
          if bool_decide (c = d)
          then (((match rest' with [] => EndValue | _ => Literal rest' end), k), Continue)
          else failed k
      | [] => failed k
      end
  | Broken => failed k
  end.

Definition at_top (x : config) : bool := match x.1 with EndTop => true | _ => false end.

(** [eof]: the value is complete, or is once a blank has been read. *)
Definition eof (x : config) : bool := at_top x || at_top (step x " "%byte).1.

Definition start : config := (BeginValue, []).

(** The scan of [b], and the bytes that are not white space; an error stops it. *)
Fixpoint scan (x : config) (b : bytes) : option (config * bytes) :=
  match b with
  | [] => Some (x, [])
  | c :: b' =>
      let '(x', op) := step x c in
      match op with
      | Error => None
      | Continue => '(y, out) ← scan x' b'; Some (y, c :: out)
      | SkipSpace | End_ => scan x' b'
      end
  end.

Definition Valid (b : bytes) : bool :=
  match scan start b with Some (x, _) => eof x | None => false end.

Definition Compact (b : bytes) : option bytes :=
  match scan start b with
  | Some (x, out) => if eof x then Some out else None
  | None => None
  end.


(** ** Compacting a valid value *)

(** The states in which a value may be complete. *)
Definition settling (st : state) : bool :=
  match st with Num1 | Num0 | Dot0 | Exp0 | EndValue => true | _ => false end.

(** [compacted x x']: [x] is the configuration on a text, [x'] that on the same text without its
    white space.  They differ only where white space has ended a value. *)
Definition compacted (x x' : config) : Prop :=
  x = x' \/
  (settling x'.1 = true /\ x.2 = x'.2 /\ (x.1 = EndValue \/ x.1 = EndTop /\ x.2 = [])).

Definition goes_on (c : byte) : bool :=
  digit c || bool_decide (c = "."%byte) || bool_decide (c = "e"%byte) || bool_decide (c = "E"%byte).

Lemma goes_on_ends_nothing k c : goes_on c = true -> (end_value k c).1.1 = Broken.
Proof. intros H. destruct c; try discriminate H; by destruct k as [|[] ?]. Qed.

(** A value that may be complete is ended like any other, or goes on where none could. *)
Lemma step_settling st k c :
  settling st = true -> (end_value k c).1.1 <> Broken -> step (st, k) c = end_value k c.
Proof.
  intros Hs Hb. assert (goes_on c = false) as Hc
    by (apply not_true_iff_false; intros Hc; by apply Hb, goes_on_ends_nothing).
  unfold goes_on in Hc. rewrite !orb_false_iff in Hc. destruct Hc as [[[Hd Hp] He] HE].
  destruct st; try discriminate Hs; simpl; unfold num0; by rewrite ?Hd, ?Hp, ?He, ?HE.
Qed.

Lemma step_skip x c x1 :
  step x c = (x1, SkipSpace) -> x1 = x \/ (settling x.1 = true /\ x1 = (EndValue, x.2)).
Proof.
  destruct x as [st k]. destruct st; simpl;
    unfold begin_value, begin_string, num0, exp_sign, end_value, end_top, push, pop, failed; intros H;
    simplify_eq; repeat (case_match; simplify_eq); auto.
Qed.

Lemma step_end x c x1 :
  step x c = (x1, End_) -> x1.1 <> Broken ->
  x1 = x \/ (settling x.1 = true /\ x.2 = [] /\ x1 = (EndTop, [])).
Proof.
  destruct x as [st k]. destruct st; simpl;
    unfold begin_value, begin_string, num0, exp_sign, end_value, end_top, push, pop, failed; intros H Hb;
    simplify_eq; repeat (case_match; simplify_eq); auto.
Qed.

Lemma scan_broken x b y out : scan x b = Some (y, out) -> eof y = true -> x.1 <> Broken.
Proof.
  destruct x as [st k]. simpl. intros H He ->. destruct b as [|c b]; simpl in H; [|done].
  by simplify_eq.
Qed.

Lemma eof_compacted x x' : compacted x x' -> eof x = true -> eof x' = true.
Proof.
  intros [->|(Hs & Hk & Hx)] He; [done|]. destruct x as [st k], x' as [st' k']; simpl in *; subst k'.
  unfold eof. rewrite (step_settling st' k " "%byte Hs) by (destruct k; done).
  destruct k as [|p k]; [by rewrite orb_true_r|]. destruct Hx as [->|[_ ?]]; done.
Qed.

(** The compacted text runs through the same configurations and has no white space to drop. *)
Lemma scan_compacted b : forall x x' y out,
  compacted x x' -> scan x b = Some (y, out) -> eof y = true ->
  exists y', scan x' out = Some (y', out) /\ compacted y y'.
Proof.
  induction b as [|c b IH]; intros x x' y out Hx Hs He; simpl in Hs; [simplify_eq; by exists x'|].
  destruct (step x c) as [x1 op] eqn:Es.
  destruct op; [|assert (x1.1 <> Broken) as Hb by (by eapply scan_broken)..|done].
  - apply bind_Some in Hs as ([y1 out1] & Hs1 & [= <- <-]). simpl.
    assert (x1.1 <> Broken) as Hb by (by eapply scan_broken).
    assert (step x' c = (x1, Continue)) as ->.
    { destruct Hx as [<-|(Hst & Hk & [Hv|[Hv Hn]])]; [done| |].
      - destruct x as [? k], x' as [st' k']; cbn [fst snd] in *; subst.
        change (step (EndValue, k') c) with (end_value k' c) in Es. rewrite (step_settling _ _ _ Hst); by rewrite Es.
      - destruct x as [? k]; simpl in *; subst. simpl in Es. unfold end_top in Es. by destruct (isSpace c). }
    destruct (IH x1 x1 y1 out1 (or_introl eq_refl) Hs1 He) as (y' & -> & Hy). by exists y'.
  - apply (IH x1 x' y out); [|done|done]. destruct Hx as [<-|(Hst & Hk & [Hv|[Hv Hn]])].
    + apply step_skip in Es as [->|[? ->]]; [by left|]. right. auto.
    + right. apply step_skip in Es as [->|[? ->]]; simpl; auto.
    + destruct x as [? k]; simpl in *; subst. simpl in Es. unfold end_top in Es. by destruct (isSpace c).
  - apply (IH x1 x' y out); [|done|done]. destruct Hx as [<-|(Hst & Hk & [Hv|[Hv Hn]])].
    + apply step_end in Es as [->|(? & ? & ->)]; [by left| |done]. right. auto.
    + right. apply step_end in Es as [->|(? & Hn & ->)]; simpl; [auto| |done]. rewrite <- Hk, Hn. auto.
    + right. apply step_end in Es as [->|(? & ? & ->)]; simpl; [auto| |done]. rewrite <- Hk, Hn. auto.
Qed.

Lemma Compact_idempotent b out : Compact b = Some out -> Valid out = true /\ Compact out = Some out.
Proof.
  unfold Compact, Valid. destruct (scan start b) as [[x o]|] eqn:E; [|done].
  destruct (eof x) eqn:He; [|done]. intros [= <-].
  destruct (scan_compacted b start start x o (or_introl eq_refl) E He) as (y & -> & Hy).
  by rewrite (eof_compacted _ _ Hy He).
Qed.

Lemma Compact_Valid b : Valid b = true <-> exists out, Compact b = Some out.
Proof. unfold Compact, Valid. repeat case_match; naive_solver. Qed.

(** ** Objects *)

(** The text began with an object, which is still open. *)
Definition rooted (k : list parse) : Prop := last k = Some ObjectKey \/ last k = Some ObjectValue.

Lemma rooted_push p k : rooted k -> rooted (p :: k).
Proof. destruct k; [by intros [?|?]|done]. Qed.

Lemma rooted_pop p r k : rooted (p :: r :: k) -> rooted (r :: k).
Proof. done. Qed.

Lemma rooted_key p k : rooted (p :: k) -> rooted (ObjectKey :: k).
Proof. destruct k; [by left|done]. Qed.

Lemma rooted_value p k : rooted (p :: k) -> rooted (ObjectValue :: k).
Proof. destruct k; [by right|done]. Qed.

Lemma rooted_array : ~ rooted [ArrayValue].
Proof. by intros [?|?]. Qed.

Create HintDb json.
#[local] Hint Resolve rooted_push rooted_pop rooted_key rooted_value : json.

Definition in_object (x : config) : Prop := rooted x.2 /\ x.1 <> EndTop.

Lemma step_object x c x1 op :
  in_object x -> step x c = (x1, op) -> x1.1 <> Broken ->
  in_object x1 \/ (x1 = (EndTop, []) /\ c = "}"%byte /\ op = Continue).
Proof.
  unfold in_object. destruct x as [st [|p k]]; [by intros [[?|?] ?]|]. cbn [fst snd].
  intros [Hx Ht] Hs Hb; destruct st; cbn [step] in Hs;
    unfold begin_value, begin_string, num0, exp_sign, end_value, end_top, push, pop, failed in Hs;
    simplify_eq; repeat (case_match; simplify_eq); bools; subst; cbn [fst snd] in *; try done;
    try (by destruct (rooted_array Hx)); auto with json;
    left; split; eauto with json.
Qed.

Lemma scan_top b y out : scan (EndTop, []) b = Some (y, out) -> eof y = true -> out = [].
Proof.
  induction b as [|c b IH]; simpl; [by intros [= _ <-]|]. intros H He. unfold end_top in H.
  destruct (isSpace c); simpl in H; [by apply IH|]. by apply scan_broken in H.
Qed.

Lemma scan_object b : forall x y out,
  in_object x -> scan x b = Some (y, out) -> eof y = true -> exists out', out = out' ++ ["}"%byte].
Proof.
  induction b as [|c b IH]; intros x y out Hx Hs He; simpl in Hs.
  - simplify_eq. exfalso. unfold eof in He. destruct Hx as [Hx Ht].
    assert (at_top y = false) as Hy by (by destruct y as [[] ?]). rewrite Hy in He. simpl in He.
    destruct (step y " "%byte) as [y1 op] eqn:E. simpl in He.
    destruct (step_object y " "%byte y1 op) as [[_ H]|(_ & H & _)]; [done|done| |by destruct y1 as [[] ?]|done].
    by destruct y1 as [[] ?].
  - destruct (step x c) as [x1 op] eqn:Es.
    destruct op; [apply bind_Some in Hs as ([y1 out1] & Hs & [= <- <-])|..|done].
    all: destruct (step_object x c x1 _ Hx Es) as [H|(-> & -> & ?)]; [by eapply scan_broken| |]; try done.
    + destruct (IH x1 y1 out1) as (o & ->); [done..|]. by exists (c :: o).
    + apply scan_top in Hs as ->; [|done]. by exists [].
    + by eapply IH.
    + by eapply IH.
Qed.

(** A compacted object begins and ends with its braces. *)
Lemma Compact_object b out :
  Compact ("{"%byte :: b) = Some out -> exists mid, out = "{"%byte :: mid ++ ["}"%byte].
Proof.
  unfold Compact. destruct (scan start ("{"%byte :: b)) as [[x o]|] eqn:E; [|done].
  destruct (eof x) eqn:He; [|done]. intros [= <-]. simpl in E.
  apply bind_Some in E as ([y1 out1] & Hs & [= <- <-]).
  apply scan_object in Hs as (o & ->); [by exists o| |done]. split; [by left|done].
Qed.
End Json.
