(* ===== verification/Cookie.v ===== *)
(** Cookies: internal/cookie/cookie.go and bind.go, over the requests and responses of net/http.

    A request is the values of its Authorization, Cookie, X-Egauth-Refresh-Token and User-Agent headers; a response the cookies queued by
    http.SetCookie and the other headers set.  The wire rendering of a Set-Cookie header is net/http's.
    SHA-256 and the bytes drawn by crypto/rand are arguments. *)
From S2P Require Import Prelude Errors CeremonyKind GoText.
From S2P Require Import Tenant Factor Attrs.

(** ** net/http *)
Module Http.

Record Request := mkRequest {
  Authorization : list string;
  CookieHeader : list string;
  RefreshTokenHeader : list string;
  UserAgent : list string }.

Definition SameSiteLaxMode : Z := 2.

Definition SameSiteStrictMode : Z := 3.

Record Cookie := mkCookie {
  Name : string;
  Value : string;
  Path : string;
  Domain : string;
  MaxAge : Z;
  Secure : bool;
  HttpOnly : bool;
  SameSite : Z }.

Record Response := mkResponse { SetCookies : list Cookie; Header : gmap string string }.

Definition SetCookie (c : Cookie) (w : Response) : Response :=
  mkResponse (SetCookies w ++ [c]) (Header w).

Definition Header_Set (k v : string) (w : Response) : Response :=
  mkResponse (SetCookies w) (<[k := v]> (Header w)).

(** The characters of a token (RFC 7230). *)
Definition token_char (b : byte) : bool :=
  let c := Z_of_byte b in
  ((97 <=? c) && (c <=? 122)) || ((65 <=? c) && (c <=? 90)) || ((48 <=? c) && (c <=? 57))
  || bool_decide (b ∈ str_bytes "!#$%&'*+-.^_`|~").

Definition isToken (b : bytes) : bool := negb (bool_decide (b = [])) && forallb token_char b.

Definition validCookieValueByte (b : byte) : bool :=
  let c := Z_of_byte b in
  (32 <=? c) && (c <? 127) && negb (c =? 34) && negb (c =? 59) && negb (c =? 92).

(** A value may stand between two quotes. *)
Definition unquote (raw : bytes) : bytes :=
  match raw, rev raw with
  | a :: _ :: _, z :: _ =>
      if bool_decide (a = Byte.x22) && bool_decide (z = Byte.x22)
      then take (length raw - 2) (drop 1 raw) else raw
  | _, _ => raw
  end.

Definition parseCookieValue (raw : bytes) : option bytes :=
  let v := unquote raw in if forallb validCookieValueByte v then Some v else None.

(** The parts of a line between semicolons; each turn of the loop consumes a byte at least. *)
Fixpoint parts (turns : nat) (line : bytes) : list bytes :=
  match turns, line with
  | S n, _ :: _ => let '(part, rest, _) := Cut ";"%byte line in part :: parts n rest
  | _, _ => []
  end.

Definition read_part (part : bytes) : option (string * string) :=
  let part := TrimString part in
  match part with
  | [] => None
  | _ =>
      let '(name, val, _) := Cut "="%byte part in
      let name := TrimString name in
      if negb (isToken name) then None
      else v ← parseCookieValue val; Some (bytes_str name, bytes_str v)
  end.

Definition read_line (line : string) : list (string * string) :=
  let line := TrimString (str_bytes line) in omap read_part (parts (length line) line).

(** [r.Cookies()]: names and values. *)
Definition Cookies (r : Request) : list (string * string) := concat (map read_line (CookieHeader r)).
End Http.

Module Cookie.
Import Http.

Definition prefixHost : string := "__Host-".

Definition prefixSecure : string := "__Secure-".

Definition maxValueLen : Z := 4096.

(** [Class] *)
Definition ClassSession : Z := 1.

Definition ClassFlow : Z := 2.

Definition ClassBind : Z := 3.

(** [Name] *)
Definition AccessToken : Z := 1.

Definition RefreshToken : Z := 2.

Definition StatefulSession : Z := 3.

Definition Flow : Z := 4.

Definition Bind : Z := 5.

Definition Names : list Z := [AccessToken; RefreshToken; StatefulSession; Flow; Bind].

Definition Class_of (n : Z) : Z :=
  if (n =? AccessToken) || (n =? RefreshToken) || (n =? StatefulSession) then ClassSession
  else if n =? Flow then ClassFlow
  else if n =? Bind then ClassBind
  else 0.

Definition base (n : Z) : string :=
  if n =? AccessToken then "access_token"
  else if n =? RefreshToken then "refresh_token"
  else if n =? StatefulSession then "session"
  else if n =? Flow then "egauth_flow"
  else if n =? Bind then "egauth_bind"
  else "".

Record Policy := mkPolicy { valid : bool; secure : bool; domain : string }.

#[global] Instance Policy_eq_dec : EqDecision Policy.
Proof. solve_decision. Defined.

Definition zero_Policy : Policy := mkPolicy false false "".

Definition CookieName (p : Policy) (n : Z) : string :=
  let base := base n in
  if bool_decide (base = "") || negb (secure p) then base
  else if (Class_of n =? ClassSession) && negb (bool_decide (domain p = "")) then prefixSecure +:+ base
  else prefixHost +:+ base.

Definition cookie (p : Policy) (n : Z) (value : string) : Http.Cookie :=
  mkCookie (CookieName p n) value "/"
    (if Class_of n =? ClassSession then domain p else "") 0 (secure p) true
    (if Class_of n =? ClassFlow then SameSiteStrictMode else SameSiteLaxMode).

Definition set_MaxAge (secs : Z) (c : Http.Cookie) : Http.Cookie :=
  mkCookie (Name c) (Value c) (Path c) (Domain c) secs (Secure c) (HttpOnly c) (SameSite c).

Definition value_char (b : byte) : bool :=
  let c := Z_of_byte b in
  ((97 <=? c) && (c <=? 122)) || ((65 <=? c) && (c <=? 90)) || ((48 <=? c) && (c <=? 57))
  || (c =? 45) || (c =? 95) || (c =? 46) || (c =? 126) || (c =? 61).

Definition validValue (v : string) : bool :=
  if bool_decide (v = "") || (maxValueLen <? Z.of_nat (String.length v)) then false
  else forallb value_char (str_bytes v).

Definition check (p : Policy) (n c : Z) (value : string) : option error :=
  if negb (valid p) then Some (Join ErrInvalidCookie (New "zero policy"))
  else if negb (Class_of n =? c) then Some (Join ErrInvalidCookie (New "name of another class"))
  else if negb (validValue value) then Some (Join ErrInvalidCookie (New "invalid value"))
  else None.

(** Each writer gives the response and its error. *)
Definition SetSession (p : Policy) (n : Z) (value : string) (remember : bool) (maxAge : duration)
    (w : Response) : Response * option error :=
  match check p n ClassSession value with
  | Some err => (w, Some err)
  | None =>
      let c := cookie p n value in
      if remember
      then
        let secs := Z.quot maxAge Second in
        if secs <? 1
        then (w, Some (Join ErrInvalidCookie (New "remembered cookie needs a positive lifetime")))
        else (SetCookie (set_MaxAge secs c) w, None)
      else (SetCookie c w, None)
  end.

Definition setTTL (c : Http.Cookie) (k : Ceremony_.Kind) (w : Response) : Response * option error :=
  let secs := Z.quot (Ceremony_.TTL k) Second in
  if negb (Ceremony_.Kind_Valid k) || (secs <? 1)
  then (w, Some (Join ErrInvalidCookie (New "invalid ceremony kind")))
  else (SetCookie (set_MaxAge secs c) w, None).

Definition SetFlow (p : Policy) (value : string) (k : Ceremony_.Kind) (w : Response)
  : Response * option error :=
  match check p Flow ClassFlow value with
  | Some err => (w, Some err)
  | None => setTTL (cookie p Flow value) k w
  end.

Definition Clear (p : Policy) (n : Z) (w : Response) : Response :=
  if negb (valid p) || (Class_of n =? 0) then w else SetCookie (set_MaxAge (-1) (cookie p n "")) w.

(** The value, and whether there is exactly one that is not empty. *)
Definition Read (p : Policy) (r : Request) (n : Z) : string * bool :=
  let name := CookieName p n in
  if negb (valid p) || bool_decide (name = "") then ("", false)
  else
    match List.filter (fun c => bool_decide (c.1 = name)) (Cookies r) with
    | [c] => if bool_decide (c.2 = "") then ("", false) else (c.2, true)
    | _ => ("", false)
    end.

Definition Present (r : Request) : bool :=
  existsb (fun v => negb (bool_decide (TrimSpace (str_bytes v) = []))) (CookieHeader r).

Definition Discard (w : Response) : Response := mkResponse [] (Header w).

(** ** The binding secret *)
Definition bindBytes : Z := 32.

Record BindSecret := mkBindSecret { b_value : string; b_hash : bytes }.

Section bind.
Context (sha256 : bytes -> bytes).

(** [raw] is what crypto/rand gave for the 32 bytes asked. *)
Definition NewBind (raw : res bytes) : res BindSecret :=
  raw ← raw;
  let v := bytes_str (Base64.encode raw) in
  Ok (mkBindSecret v (sha256 (str_bytes v))).

Definition Hash_ (b : BindSecret) : option bytes :=
  if bool_decide (b_value b = "") then None else Some (b_hash b).

Definition VerifyBind (presented : string) (sealed : bytes) : bool :=
  let sum := sha256 (str_bytes presented) in
  bool_decide (sum = sealed) && negb (bool_decide (presented = "")) && Z.eqb (Z.of_nat (length sealed)) bindBytes.
End bind.

Definition SetBind (p : Policy) (b : BindSecret) (k : Ceremony_.Kind) (w : Response)
  : Response * option error :=
  match check p Bind ClassBind (b_value b) with
  | Some err => (w, Some err)
  | None => setTTL (cookie p Bind (b_value b)) k w
  end.
End Cookie.

(** ** Who acts through a facade: internal/core/caller.go. *)

Module Caller.

Definition CallerSession : Z := 1.

Definition CallerAPIKey : Z := 2.

Definition CallerSystem : Z := 3.

Definition CallerResourceToken : Z := 4.

Record Caller := mkCaller {
  kind : Z;
  tenant : TenantID;
  session : SessionAttrs;
  stored : uuid;
  key : bytes;
  subject : Subject;
  apiKey : uuid;
  reason : string }.

Definition zero_Caller : Caller :=
  mkCaller 0 zero_TenantID zero_SessionAttrs uuid_Nil [] zero_Subject uuid_Nil "".

Definition SessionCaller (a : SessionAttrs) (stored : uuid) (key : bytes) : res Caller :=
  if (a_version a =? 0) || (stored =? uuid_Nil) then Err ErrInvalidArgument
  else Ok (mkCaller CallerSession (Tenant (a_subject a)) a stored key (a_subject a) uuid_Nil "").

Definition ResourceTokenCaller (a : SessionAttrs) : res Caller :=
  if a_version a =? 0 then Err ErrInvalidArgument
  else Ok (mkCaller CallerResourceToken (Tenant (a_subject a)) zero_SessionAttrs uuid_Nil []
             (a_subject a) uuid_Nil "").

Definition APIKeyCaller (s : Subject) (key : uuid) : res Caller :=
  if Subject_IsZero s || (key =? uuid_Nil) then Err ErrInvalidArgument
  else Ok (mkCaller CallerAPIKey (Tenant s) zero_SessionAttrs uuid_Nil [] s key "").

Definition SystemCaller (t : TenantID) (reason : string) : res Caller :=
  if bool_decide (reason = "") then Err (Join ErrInvalidArgument (New "reason"))
  else Ok (mkCaller CallerSystem t zero_SessionAttrs uuid_Nil [] zero_Subject uuid_Nil reason).

(** The accessors that come with a flag give [None] for false. *)
Definition Subject_of (c : Caller) : option Subject :=
  if Subject_IsZero (subject c) then None else Some (subject c).

Definition Session_of (c : Caller) : option SessionAttrs :=
  if kind c =? CallerSession then Some (session c) else None.

Definition Stored (c : Caller) : option (uuid * bytes) :=
  if kind c =? CallerSession then Some (stored c, key c) else None.

Definition APIKey (c : Caller) : option uuid :=
  if kind c =? CallerAPIKey then Some (apiKey c) else None.
End Caller.
