(* ===== verification/Renewal.v ===== *)
(** Renewing a session: internal/session/backend.go (handles and resumed sessions), claims.go and
    renew.go.

    What the Authority and the claims source answer while a session is renewed, one function of the
    subject each, is an argument; an emitted event is part of the result. *)
From stdpp Require Import pretty.
From S2P Require Import Prelude Errors Tenant Factor Attrs Pending Transitions Cookie GoText Json.

Module Session.

(** ** Handles and resumed sessions *)
Record Handle := mkHandle { h_subject : Subject; h_lineage : uuid; h_id : uuid; h_key : bytes }.

Definition NewHandle (a : SessionAttrs) (id : uuid) : res Handle :=
  if SessionAttrs_IsZero a || Subject_IsZero (a_subject a) || (a_lineage a =? uuid_Nil)
     || (id =? uuid_Nil)
  then Err ErrHandleMismatch
  else Ok (mkHandle (a_subject a) (a_lineage a) id []).

Definition NewKeyedHandle (a : SessionAttrs) (id : uuid) (key : bytes) : res Handle :=
  if Z.of_nat (length key) =? 0 then Err ErrHandleMismatch
  else
    h ← NewHandle a id;
    Ok (mkHandle (h_subject h) (h_lineage h) (h_id h) key).

Definition HandleOf (c : Caller.Caller) : res Handle :=
  match Caller.Session_of c, Caller.Stored c with
  | Some a, Some (id, key) =>
      if Z.of_nat (length key) =? 0 then NewHandle a id else NewKeyedHandle a id key
  | _, _ => Err ErrHandleMismatch
  end.

Definition Handle_IsZero (h : Handle) : bool := h_id h =? uuid_Nil.

(** [SealedClaims] is the bytes it wraps. *)
Record Resumed := mkResumed { r_attrs : SessionAttrs; r_claims : bytes; r_handle : Handle }.

Definition NewResumed (a : SessionAttrs) (c : bytes) (h : Handle) : res Resumed :=
  if Handle_IsZero h || SessionAttrs_IsZero a || negb (bool_decide (h_subject h = a_subject a))
     || negb (h_lineage h =? a_lineage a)
  then Err ErrHandleMismatch
  else Ok (mkResumed a c h).

Definition Resumed_Caller (r : Resumed) : res Caller.Caller :=
  Caller.SessionCaller (r_attrs r) (h_id (r_handle r)) (h_key (r_handle r)).

(** ** Application claims *)
Definition MaxAppClaimsBytes : Z := 2048.

Definition CompactClaims (raw : bytes) : res bytes :=
  let trimmed := TrimSpace raw in
  match trimmed with
  | c :: _ =>
      if negb (bool_decide (c = "{"%byte)) || negb (Json.Valid trimmed) then Err ErrMalformedClaims
      else match Json.Compact trimmed with
      | None => Err ErrMalformedClaims
      | Some buf =>
          if MaxAppClaimsBytes <? Z.of_nat (length buf)
          then Err (Join ErrClaimsTooLarge
                 (New ("session: " +:+ pretty (Z.of_nat (length buf)) +:+ " bytes of application claims")))
          else Ok buf
      end
  | [] => Err ErrMalformedClaims
  end.

(** ** Lifetimes and the Renewer *)
Record Lifetimes := mkLifetimes {
  IdleTimeout : duration;
  MaxLifetime : duration;
  RecheckEvery : duration }.

Definition Validate (l : Lifetimes) : option error :=
  if (IdleTimeout l <=? 0) || (MaxLifetime l <=? 0) || (RecheckEvery l <=? 0)
  then Some (Join XErrInvalidConfig (New "session: lifetimes must be positive"))
  else if MaxLifetime l <? IdleTimeout l
  then Some (Join XErrInvalidConfig (New "session: idle timeout exceeds the absolute lifetime"))
  else None.

(** The events of the session packages, with their subject, reason and cause. *)
Inductive event_type :=
  | EClaimsStale | EClaimsUnavailable | EClaimsTooLarge | ELogout
  | ERefreshReuseDetected | ETokenFamilyRevoked.

Record event := mkEvent { ev_type : event_type; ev_subject : Subject; ev_reason : string; ev_cause : option error }.

(** The Authority and the claims source, as they answer during one call. *)
Record answers := mkAnswers {
  ans_AccountState : Subject -> res AccountState;
  ans_MFADecision : Subject -> res MFADecision;
  ans_ClaimsFor : Subject -> res bytes }.

(** The Renewer, reduced to its lifetimes; the flags tell which dependencies were given. *)
Definition NewRenewer (authority claims : bool) (l : Lifetimes) : res Lifetimes :=
  if negb authority || negb claims
  then Err (Join XErrInvalidConfig (New "session: a renewer needs an authority and a claims source"))
  else match Validate l with Some err => Err err | None => Ok l end.

Definition FetchClaims (q : answers) (s : Subject) : list event * res bytes :=
  match ans_ClaimsFor q s with
  | Err err =>
      if Is err ErrUnknownSubject then ([], Err (Join ErrClaimsSubjectUnknown err))
      else ([mkEvent EClaimsUnavailable s "admission" (Some err)], Err (Join ErrClaimsUnavailable err))
  | Ok raw =>
      match CompactClaims raw with
      | Ok c => ([], Ok c)
      | Err err =>
          if Is err ErrClaimsTooLarge then ([mkEvent EClaimsTooLarge s "admission" (Some err)], Err err)
          else ([mkEvent EClaimsUnavailable s "admission" (Some err)], Err (Join ErrClaimsUnavailable err))
      end
  end.

(** The outcome, the claims and the cause when the claims are not fresh ones. *)
Definition renewalClaims (l : Lifetimes) (q : answers) (a : SessionAttrs) (current : bytes) (now : time)
  : ClaimsOutcome * bytes * option error :=
  let failed err :=
    if time_Sub now (a_claimsFetchedAt a) <=? RecheckEvery l
    then (ClaimsKeptStale, current, Some err)
    else (ClaimsUnavailable, [], Some err) in
  match ans_ClaimsFor q (a_subject a) with
  | Err err => if Is err ErrUnknownSubject then (ClaimsSubjectUnknown, [], Some err) else failed err
  | Ok raw =>
      match CompactClaims raw with
      | Ok c => (ClaimsRefreshed, c, None)
      | Err err => if Is err ErrClaimsTooLarge then (ClaimsTooLarge, [], Some err) else failed err
      end
  end.

(** [errors.Join(err, cause)], nil causes dropped. *)
Definition join_cause (err : error) (cause : option error) : error :=
  match cause with Some c => Join err c | None => err end.

Definition emit (t : event_type) (s : Subject) (cause : option error) : list event :=
  [mkEvent t s "renewal" cause].

Definition Renew_ (l : Lifetimes) (q : answers) (now : time) (a : SessionAttrs) (current : bytes)
  : list event * res (SessionAttrs * bytes) :=
  if SessionAttrs_IsZero a then ([], Err ErrInvalidArgument)
  else
    let s := a_subject a in
    match ans_AccountState q s with
    | Err err => ([], Err (Join (New "session: account state") err))
    | Ok st =>
        match ans_MFADecision q s with
        | Err err => ([], Err (Join (New "session: MFA decision") err))
        | Ok mfa =>
            let '(outcome, claims, cause) := renewalClaims l q a current now in
            match Transitions.Renew a st mfa outcome now with
            | Err err =>
                if Is err ErrClaimsUnavailable
                then (emit EClaimsUnavailable s cause, Err (join_cause err cause))
                else if Is err ErrClaimsTooLarge
                then (emit EClaimsTooLarge s cause, Err (join_cause err cause))
                else ([], Err err)
            | Ok n =>
                ((if outcome =? ClaimsKeptStale then emit EClaimsStale s cause else []), Ok (n, claims))
            end
        end
    end.
End Session.
