(* ===== verification/Program.v ===== *)
(** Programs: what a method of the code is.

    A method reads an environment (contexts, clocks, random bytes, what other requests do in between)
    and changes the world it shares with other requests.  [try] and [check] are the early returns of
    Go. *)
From S2P Require Import Prelude Errors.

Definition M (E W T : Type) : Type := E -> W -> W * T.

#[global] Instance M_ret {E W} : MRet (M E W) := fun T a _ w => (w, a).

#[global] Instance M_bind {E W} : MBind (M E W) := fun T U k m e w => let '(w, a) := m e w in k a e w.

(** A call that returns an error ends the method with it. *)
Definition try {E W T U} (m : M E W (res T)) (k : T -> M E W (res U)) : M E W (res U) :=
  r ← m; match r with Ok a => k a | Err err => mret (Err err) end.

(** The same for a call that returns only an error. *)
Definition check {E W U} (m : M E W (option error)) (k : M E W (res U)) : M E W (res U) :=
  r ← m; match r with None => k | Some err => mret (Err err) end.

(** The end of a method that only returns the error of its last call. *)
Definition last_error {E W} (m : M E W (option error)) : M E W (res unit) := check m (mret (Ok tt)).

(** [prog] unfolds the sequencing of a method. *)
Ltac prog := unfold last_error, try, check, mbind, M_bind, mret, M_ret in *.
