(* ===== verification/Stateful.v ===== *)
(** The stateful session backend: internal/session/stateful (backend.go, transport.go, lifecycle.go).

    A method runs while other requests do.  What happens outside it is an environment: the context's
    error, the clock, crypto/rand and uuid.New at each call, the account store the epoch cache reads,
    the answers of the Authority and the claims source, and what other requests did to the session
    store ([others]) and to the epoch cache ([cached]) since the method's previous call.  A method is
    a program over the world it shares with them; every call takes one step. *)
From S2P Require Import Prelude Errors Tenant Factor Attrs Pending Codec StoreBase SessionRecord.
From S2P Require Import SessionStore Lru Revocation GoText Cookie Renewal Program.
Import Sessions Session.

(** ** The store a backend is given *)
Class SessionsStore (S : Type) := {
  Create : Ctx -> time -> Rec -> S -> S * res unit;
  Get : Ctx -> time -> TenantID -> bytes -> S -> res Rec;
  Touch : Ctx -> time -> TenantID -> bytes -> time -> S -> S * res time;
  Rotate : Ctx -> time -> RotateRequest -> S -> S * res unit;
  Replace : Ctx -> time -> ReplaceRequest -> S -> S * res unit;
  Revoke : Ctx -> time -> TenantID -> bytes -> S -> S * res unit;
  RevokeSession : Ctx -> time -> Subject -> uuid -> S -> S * res unit;
  RevokeForSubject : Ctx -> time -> Subject -> uuid -> S -> S * res unit;
  DeleteForSubject : Ctx -> time -> Subject -> S -> S * res unit;
  EraseTenant : Ctx -> time -> TenantID -> S -> S * res unit }.

Module Stateful.

(** ** Tokens *)
Definition HeaderSessionToken : string := "X-Egauth-Session-Token".

Definition headerCacheControl : string := "Cache-Control".

Definition bearerScheme : bytes := str_bytes "bearer".

Definition secretLen : Z := 32.

Record presented := mkPresented {
  transport : Transport;
  token : string;
  bearer : string;
  ambiguous : bool }.

Definition singleHeader (vs : list string) : bytes :=
  match vs with [v] => TrimSpace (str_bytes v) | _ => [] end.

Definition hasBearerScheme (r : Http.Request) : bool :=
  existsb (fun v => EqualFold (Cut " "%byte (TrimSpace (str_bytes v))).1.1 bearerScheme)
    (Http.Authorization r).

Definition bearerToken (r : Http.Request) : string :=
  let '(scheme, tok, ok) := Cut " "%byte (singleHeader (Http.Authorization r)) in
  if negb ok || negb (EqualFold scheme bearerScheme) then ""
  else
    let tok := TrimSpace tok in
    if existsb (fun c => bool_decide (c = " "%byte) || bool_decide (c = Byte.x09)) tok then ""
    else bytes_str tok.

Definition read (cookies : Cookie.Policy) (r : Http.Request) : presented :=
  let bearer := bearerToken r in
  let c := (Cookie.Read cookies r Cookie.StatefulSession).1 in
  if bool_decide (c = "") then mkPresented TransportBearer bearer "" false
  else mkPresented TransportCookies c bearer (negb (bool_decide (bearer = "")) || hasBearerScheme r).

(** [presented.presented]: the tokens a request carries. *)
Definition tokens_of (p : presented) : list string :=
  List.filter (fun v => negb (bool_decide (v = ""))) [token p; bearer p].

(** A [duration] truncated towards zero, and its wrap-around. *)
Definition i64 (z : Z) : Z := i64_of_u64 (u64 z).

Definition duration_Truncate (d m : duration) : duration := if m <=? 0 then d else d - Z.rem d m.

Section tokens.
Context (sha256 : bytes -> bytes).

(** [secret] is what crypto/rand gave for the 32 bytes asked. *)
Definition newToken (secret : res bytes) (t : TenantID) : res (string * bytes) :=
  secret ← secret;
  let v := bytes_str (Base64.encode secret) in
  let v := if TenantID_IsZero t then v else v +:+ "." +:+ tenant_id t in
  Ok (v, sha256 secret).

Definition parseToken (v : string) : res (TenantID * bytes) :=
  let '(raw, ten, hasTenant) := Cut "."%byte (str_bytes v) in
  match Base64.decode raw with
  | None => Err errMalformedTok
  | Some secret =>
      if negb (Z.of_nat (length secret) =? secretLen) then Err errMalformedTok
      else if hasTenant
      then match ParseTenantID (bytes_str ten) with
           | Err err => Err (Join errMalformedTok err)
           | Ok t => Ok (t, sha256 secret)
           end
      else Ok (zero_TenantID, sha256 secret)
  end.
End tokens.

(** ** Programs *)
Section backend.
Context {S A : Type} `{SessionsStore S, Epochs.EpochSource A} (sha256 : bytes -> bytes).

Record env := mkEnv {
  ctx : nat -> Ctx;
  clock : nat -> time;
  rand : nat -> res bytes;
  fresh : nat -> uuid;
  accounts : nat -> A;
  asked : answers;
  others : nat -> S -> S;
  cached : nat -> Epochs.Epochs -> Epochs.Epochs }.

(** The store, the epoch cache, the response being written, the events emitted and the number of
    calls made. *)
Record world := mkWorld {
  sess : S;
  epochs : Epochs.Epochs;
  out : Http.Response;
  events : list event;
  calls : nat }.

Abbreviation M := (Program.M env world).

Definition tick (w : world) : world :=
  mkWorld (sess w) (epochs w) (out w) (events w) (Datatypes.S (calls w)).

Definition now : M time := fun e w => (tick w, clock e (calls w)).

Definition on_store {T} (f : Ctx -> time -> S -> S * T) : M T := fun e w =>
  let n := calls w in
  let '(s, a) := f (ctx e n) (clock e n) (others e n (sess w)) in
  (tick (mkWorld s (epochs w) (out w) (events w) n), a).

(** b.epochs.Check reads the clock and the account store once more when the cache is behind. *)
Definition check_epoch (s : Subject) (sealed : Z) : M (option error) := fun e w =>
  let n := calls w in
  match Epochs.Check (ctx e n) (clock e n) (clock e (n + 1)) (clock e (n + 2)) (clock e (n + 3))
          (accounts e n) (accounts e (n + 1)) s sealed (cached e n (epochs w)) with
  | Err panic => (tick w, Some panic)
  | Ok (c, err, _) => (mkWorld (sess w) c (out w) (events w) (n + 4), err)
  end.

Definition respond (f : Http.Response -> Http.Response * option error) : M (option error) := fun _ w =>
  let '(o, err) := f (out w) in (mkWorld (sess w) (epochs w) o (events w) (calls w), err).

Definition emit_all {T} (r : list event * T) : M T := fun _ w =>
  (mkWorld (sess w) (epochs w) (out w) (events w ++ r.1) (calls w), r.2).

Definition draw : M (res bytes) := fun e w => (tick w, rand e (calls w)).

Definition newID : M uuid := fun e w => (tick w, fresh e (calls w)).

Definition ask {T} (f : answers -> T) : M T := fun e w => (w, f (asked e)).

(** ** The backend *)
Record Backend := mkBackend { cookies : Cookie.Policy; life : Lifetimes }.

(** [present] tells whether the store, the cache and the renewer were given. *)
Definition New_ (present : bool) (p : Cookie.Policy) (l : Lifetimes) : res Backend :=
  if negb present
  then Err (Join FErrInvalidConfig (New "stateful: sessions store, epoch cache and renewer are required"))
  else if bool_decide (p = Cookie.zero_Policy)
  then Err (Join FErrInvalidConfig (New "stateful: a cookie policy is required"))
  else Ok (mkBackend p l).

Definition unavailable (err : error) : error :=
  if Is err HErrUnavailable then err else Join HErrUnavailable err.

Definition classifyRevoke (err : error) : error :=
  if Is err VErrUnavailable then unavailable err else err.

Definition checkStartable (a : SessionAttrs) : option error :=
  if SessionAttrs_IsZero a || Subject_IsZero (a_subject a) || (User (a_subject a) =? uuid_Nil)
     || negb (Transport_Valid (a_transport a))
  then Some (Join ErrInvalidArgument (New "stateful: session attributes"))
  else None.

Record row := mkRow_ {
  row_id : uuid;
  row_hash : bytes;
  row_attrs : SessionAttrs;
  row_claims : bytes;
  row_maxAge : duration;
  row_now : time }.

Definition record (b : Backend) (r : row) : res Rec :=
  match NewRecord (mkSpec (row_id r) (row_hash r) (row_attrs r) (row_claims r) [] (IdleTimeout (life b))
                     (row_maxAge r) (row_now r)) (Some Seal) with
  | Err err => Err (if Is err SErrLifetimeExceeded then Join FErrLifetimeExceeded err else err)
  | Ok rec => Ok rec
  end.

Definition write (b : Backend) (a : SessionAttrs) (tok : string) (idle : time) (issued : bool)
  : M (option error) :=
  if a_transport a =? TransportCookies
  then
    t ← now;
    let left := time_Sub idle t in
    let maxAge := duration_Truncate (i64 (left + Second - 1)) Second in
    respond (Cookie.SetSession (cookies b) Cookie.StatefulSession tok (a_remember a) maxAge)
  else if a_transport a =? TransportBearer
  then if negb issued then mret None
       else respond (fun w => (Http.Header_Set HeaderSessionToken tok
                                 (Http.Header_Set headerCacheControl "no-store" w), None))
  else mret (Some (Join ErrInvalidArgument (New "stateful: session transport"))).

Definition revokeUnknown {T} (s : Subject) (id : uuid) (cause : error) : M (res T) :=
  r ← on_store (fun c t => RevokeSession c t s id);
  match r with
  | Err err => mret (Err (unavailable (Join cause err)))
  | Ok _ => emit_all ([mkEvent ELogout s "claims_subject_unknown" (Some cause)], Err cause)
  end.

(** Start: a row and a token for [a]; [c] are its claims. *)
Definition Start (b : Backend) (a : SessionAttrs) (c : bytes) : M (res unit) :=
  match checkStartable a with
  | Some err => mret (Err err)
  | None =>
      match CompactClaims c with
      | Err err =>
          emit_all ((if Is err ErrClaimsTooLarge
                     then [mkEvent EClaimsTooLarge (a_subject a) "start" (Some err)] else []), Err err)
      | Ok claims =>
          secret ← draw;
          try (mret (newToken sha256 secret (Tenant (a_subject a)))) (fun '(tok, hash) =>
          id ← newID;
          t ← now;
          try (mret (record b (mkRow_ id hash a claims (MaxLifetime (life b)) t))) (fun rec =>
          r ← on_store (fun c t => Create c t rec);
          match r with
          | Err err => mret (Err (unavailable err))
          | Ok _ => last_error (write b a tok (idleExpiresAt rec) true)
          end))
      end
  end.

Definition Reissue (b : Backend) (cur : Handle) (a : SessionAttrs) : M (res unit) :=
  match checkStartable a with
  | Some err => mret (Err err)
  | None =>
      if Handle_IsZero cur || negb (bool_decide (h_subject cur = a_subject a))
         || negb (h_lineage cur =? a_lineage a)
      then mret (Err ErrHandleMismatch)
      else
        fetched ← ask (fun q => FetchClaims q (a_subject a));
        r ← emit_all fetched;
        match r with
        | Err err =>
            if Is err ErrClaimsSubjectUnknown then revokeUnknown (a_subject a) (h_id cur) err
            else mret (Err (unavailable err))
        | Ok claims =>
            secret ← draw;
            try (mret (newToken sha256 secret (Tenant (a_subject a)))) (fun '(tok, hash) =>
            id ← newID;
            t ← now;
            try (mret (record b (mkRow_ id hash a claims (MaxLifetime (life b)) t))) (fun rec =>
            r ← on_store (fun c t => Replace c t (mkReplaceRequest (h_id cur) rec));
            match r with
            | Err err => mret (Err (if Is err ErrConflict then err else unavailable err))
            | Ok _ => last_error (write b a tok (idleExpiresAt rec) true)
            end))
        end
  end.

Record loaded := mkLoaded { l_rec : Rec; l_attrs : SessionAttrs; l_hash : bytes; l_end : time }.

Definition loadRow (b : Backend) (t : TenantID) (hash : bytes) : M (res loaded) :=
  r ← on_store (fun c clk s => (s, Get c clk t hash s));
  mret (match r with
  | Err err => Err (if Is err ErrNotFound then Join ErrInvalidToken err else unavailable err)
  | Ok rec =>
      match Unseal (sealed rec) with
      | Err err => Err (Join ErrCorrupt err)
      | Ok a =>
          if negb (bool_decide (subject rec = a_subject a)) || negb (lineage rec =? a_lineage a)
             || negb (r_epoch rec =? a_epoch a) || negb (bool_decide (Rec_Tenant rec = t))
             || (User (a_subject a) =? uuid_Nil)
          then Err ErrCorrupt
          else
            let end_ := time_Add (a_createdAt a) (MaxLifetime (life b)) in
            let end_ := if time_Before (absoluteExpiresAt rec) end_ then absoluteExpiresAt rec else end_ in
            Ok (mkLoaded rec a hash end_)
      end
  end).

Definition load (b : Backend) (tok : string) : M (res loaded) :=
  match parseToken sha256 tok with
  | Err err => mret (Err (Join ErrInvalidToken err))
  | Ok (t, hash) => loadRow b t hash
  end.

Definition resumed (a : SessionAttrs) (c : bytes) (id : uuid) (hash : bytes) : res Resumed :=
  h ← NewKeyedHandle a id hash; NewResumed a c h.

Definition renew (b : Backend) (tok : string) (l : loaded) (t : time) : M (res Resumed) :=
  let a := l_attrs l in
  at_ ← now;
  q ← ask (fun q => Renew_ (life b) q at_ a (appClaims (l_rec l)));
  r ← emit_all q;
  match r with
  | Err err =>
      if Is err ErrClaimsSubjectUnknown then revokeUnknown (a_subject a) (id (l_rec l)) err
      else mret (Err (if Is err ErrClaimsUnavailable || Is err ErrClaimsTooLarge
                      then unavailable err else err))
  | Ok (renewed, claims) =>
      try (mret (record b (mkRow_ (id (l_rec l)) (l_hash l) renewed claims
                             (time_Sub (l_end l) (a_createdAt a)) t))) (fun next =>
      r ← on_store (fun c t => Rotate c t (mkRotateRequest (l_hash l) next));
      match r with
      | Err err => mret (Err (if Is err ErrConflict then Join ErrInvalidToken err else unavailable err))
      | Ok _ =>
          check (write b renewed tok (idleExpiresAt next) false)
            (mret (resumed renewed claims (id (l_rec l)) (l_hash l)))
      end)
  end.

Definition Resume (b : Backend) (r : Http.Request) (tenant : TenantID) : M (res Resumed) :=
  let p := read (cookies b) r in
  if ambiguous p then mret (Err ErrAmbiguousTransport)
  else if bool_decide (token p = "") then mret (Err ErrNoCredential)
  else
    try (load b (token p)) (fun l =>
    let a := l_attrs l in
    if negb (bool_decide (Rec_Tenant (l_rec l) = tenant))
       || negb (bool_decide (Tenant (a_subject a) = tenant))
    then mret (Err XErrTenantMismatch)
    else if negb (a_transport a =? transport p) then mret (Err ErrTransportMismatch)
    else
      t ← now;
      if negb (time_Before t (l_end l)) then mret (Err FErrLifetimeExceeded)
      else
        err ← check_epoch (a_subject a) (a_epoch a);
        match err with
        | Some err => mret (Err (classifyRevoke err))
        | None =>
            if RecheckEvery (life b) <=? time_Sub t (checkedAt (l_rec l))
            then renew b (token p) l t
            else
              r ← on_store (fun c clk => Touch c clk (Tenant (a_subject a)) (l_hash l)
                                           (time_Add t (IdleTimeout (life b))));
              match r with
              | Err err => mret (Err (if Is err ErrNotFound then Join ErrInvalidToken err
                                      else unavailable err))
              | Ok idle =>
                  check (write b a (token p) idle false)
                    (mret (resumed a (appClaims (l_rec l)) (id (l_rec l)) (l_hash l)))
              end
        end).

(** The loop of End over the tokens presented; the errors of the store are collected. *)
Fixpoint end_tokens (tenant : TenantID) (toks : list string) : M (list error) :=
  match toks with
  | [] => mret []
  | tok :: toks' =>
      match parseToken sha256 tok with
      | Ok (t, hash) =>
          if bool_decide (t = tenant)
          then
            r ← on_store (fun c clk => Revoke c clk t hash);
            errs ← end_tokens tenant toks';
            mret (match r with Err err => err :: errs | Ok _ => errs end)
          else end_tokens tenant toks'
      | Err _ => end_tokens tenant toks'
      end
  end.

Definition End_ (b : Backend) (r : Http.Request) (tenant : TenantID) : M (res unit) :=
  let p := read (cookies b) r in
  _ ← (if (transport p =? TransportCookies) || Cookie.Present r
       then respond (fun w => (Cookie.Clear (cookies b) Cookie.StatefulSession w, None))
       else mret None);
  errs ← end_tokens tenant (tokens_of p);
  mret (match errs with
        | [] => Ok tt
        | e :: es => Err (unavailable (JoinAll e es))
        end).

Definition Live (b : Backend) (h : Handle) : M (res unit) :=
  if Handle_IsZero h || (Z.of_nat (length (h_key h)) =? 0) then mret (Err ErrEnded)
  else
    r ← loadRow b (Tenant (h_subject h)) (h_key h);
    match r with
    | Err err => mret (Err (if Is err HErrUnavailable then err else Join ErrEnded err))
    | Ok l =>
        if negb (id (l_rec l) =? h_id h) || negb (bool_decide (a_subject (l_attrs l) = h_subject h))
           || negb (a_lineage (l_attrs l) =? h_lineage h)
        then mret (Err (Join ErrEnded (New "stateful: the row is another session")))
        else
          t ← now;
          mret (if negb (time_Before t (l_end l)) then Err (Join ErrEnded FErrLifetimeExceeded)
                else Ok tt)
    end.

(** ** Account events (lifecycle.go) *)
Definition store_error (m : M (res unit)) : M (res unit) :=
  r ← m; mret (match r with Err err => Err (unavailable err) | Ok _ => Ok tt end).

Definition revokeSubject (s : Subject) (keep : uuid) : M (res unit) :=
  store_error (on_store (fun c t => RevokeForSubject c t s keep)).

Definition OnCredentialRotated (s : Subject) (keep : uuid) : M (res unit) := revokeSubject s keep.

Definition OnFactorsChanged (s : Subject) (keep : uuid) : M (res unit) := revokeSubject s keep.

Definition OnIdentifierChanged (s : Subject) : M (res unit) := revokeSubject s uuid_Nil.

Definition OnDisabled (s : Subject) : M (res unit) := revokeSubject s uuid_Nil.

Definition OnEnabled (s : Subject) : M (res unit) := mret (Ok tt).

Definition OnDeleted (s : Subject) : M (res unit) :=
  store_error (on_store (fun c t => DeleteForSubject c t s)).

Definition OnTenantErased (tenant : TenantID) : M (res unit) :=
  store_error (on_store (fun c t => EraseTenant c t tenant)).

Definition OnSessionEnded (s : Subject) (family : uuid) : M (res unit) :=
  store_error (on_store (fun c t => RevokeSession c t s family)).
End backend.
Arguments world S : clear implicits.
Arguments env S A : clear implicits.
End Stateful.
