(* ===== verification/StatefulFacts.v ===== *)
(** What the stateful backend relies on in its store, that the in-memory store provides it, and what
    each method of the backend does. *)
From S2P Require Import Prelude Errors Tenant Factor Attrs Pending Transitions Codec StoreBase.
From S2P Require Import SessionRecord SessionStore SessionStoreFacts.
From S2P Require Import VerifiedFacts SessionFacts CodecFacts.
From S2P Require Import Lru Revocation GoText Cookie Renewal Program Stateful.
From S2P Require Import Journey SessionStoreProperties.
Import Sessions Session Stateful.

(** A record as a store keeps it: instants to the microsecond, empty bytes as nil. *)
Definition kept (r : Rec) : Rec :=
  mkRec (id r) (tokenHash r) (subject r) (lineage r) (sealed r) (nonEmpty (appClaims r)) (r_epoch r)
    (nonEmpty (clientFingerprint r)) (time_Truncate (idleExpiresAt r) Microsecond)
    (time_Truncate (absoluteExpiresAt r) Microsecond) (time_Truncate (checkedAt r) Microsecond)
    (time_Truncate (createdAt r) Microsecond).

Definition alive (r : Rec) (clk : time) : Prop :=
  store_now clk < idleExpiresAt r /\ store_now clk < absoluteExpiresAt r.

(** ** The contract of the store

    [row_of s h] is the record kept under a digest, live or not. *)
Class SessionsLaws (S : Type) `{SessionsStore S} := {
  inv : S -> Prop;
  row_of : S -> bytes -> option Rec;
  row_ok_law s h r : inv s -> row_of s h = Some r ->
    id r <> uuid_Nil /\ Z.of_nat (length h) = HashLen;
  Get_Ok c clk t h s r : inv s -> Get c clk t h s = Ok r ->
    row_of s h = Some r /\ Rec_Tenant r = t /\ alive r clk;
  Get_live clk t h s r : inv s -> row_of s h = Some r -> Rec_Tenant r = t -> alive r clk ->
    Get None clk t h s = Ok r;
  Get_absent clk t h s : inv s -> (forall r, row_of s h = Some r -> Rec_Tenant r <> t) ->
    exists e, Get None clk t h s = Err e /\ Is e ErrNotFound = true;
  Touch_live clk t h s r until : inv s -> 0 <= clk -> row_of s h = Some r -> Rec_Tenant r = t -> alive r clk ->
    exists s' idle, Touch None clk t h until s = (s', Ok idle) /\
      idleExpiresAt r <= idle <= Z.max (idleExpiresAt r) until;
  Create_row c clk r s s' : inv s -> Create c clk r s = (s', Ok tt) ->
    row_of s' (tokenHash r) = Some (kept r);
  Revoke_inv c clk t h s : inv s -> inv (Revoke c clk t h s).1;
  Revoke_gone c clk t h s s' : inv s -> Revoke c clk t h s = (s', Ok tt) ->
    forall r, row_of s' h = Some r -> Rec_Tenant r <> t;
  Revoke_keeps c clk t h s h' r : inv s -> row_of (Revoke c clk t h s).1 h' = Some r ->
    row_of s h' = Some r }.

(** ** The in-memory store *)
Section memory.
Context (str : uuid -> string) (order : SessionsMemory.Store -> list uuid).

#[export] Instance memory_sessions : SessionsStore SessionsMemory.Store := {
  Create c _ := SessionsMemory.Create c;
  Get := SessionsMemory.Get;
  Touch := SessionsMemory.Touch;
  Rotate := SessionsMemory.Rotate;
  Replace := SessionsMemory.Replace;
  Revoke := SessionsMemory.Revoke;
  RevokeSession := SessionsMemory.RevokeSession;
  RevokeForSubject c t s keep m := SessionsMemory.RevokeForSubject str (order m) c t s keep m;
  DeleteForSubject c t s m := SessionsMemory.DeleteForSubject str (order m) c t s m;
  EraseTenant c t ten m := SessionsMemory.EraseTenant str (order m) c t ten m }.
End memory.

Section memory_facts.
Import SessionsMemory.

(** The record under a digest. *)
Definition memory_row (s : Store) (h : bytes) : option Rec :=
  i ← byHash s !! h; r ← rows s !! i; match Restore r with Ok x => Some x | Err _ => None end.

Lemma memory_row_Some s h x : store_inv s ->
  memory_row s h = Some x <->
  exists i r, rows s !! i = Some r /\ TokenHash r = h /\ Restore r = Ok x.
Proof.
  intros Hs. unfold memory_row. split.
  - intros (i & Hh & (r & Hr & Hx)%bind_Some)%bind_Some. exists i, r.
    destruct (inv_hash s Hs _ _ Hh) as (r' & ? & ?). simplify_eq. by destruct (Restore r); simplify_eq.
  - intros (i & r & Hr & <- & Hx). destruct (inv_row s Hs _ _ Hr) as (_ & _ & ->). simpl.
    rewrite Hr. simpl. by rewrite Hx.
Qed.

Lemma memory_found s t h clk i r x : store_inv s ->
  rows s !! i = Some r -> TokenHash r = h -> Restore r = Ok x ->
  found s t h (store_now clk) i r <-> Rec_Tenant x = t /\ alive x clk.
Proof.
  intros Hs Hr Hh [_ ->]%Restore_Ok. unfold found, alive, Rec_Tenant. simpl. rewrite live_true. tauto.
Qed.

(** A store with its invariant and room in the feed. *)
Definition memory_inv (s : Store) : Prop := store_inv s /\ room s.

Section memory_laws.
Context (str : uuid -> string) (order : Store -> list uuid).

Lemma memory_Get s c clk t h x : store_inv s ->
  SessionsMemory.Get c clk t h s = Ok x <->
  c = None /\ memory_row s h = Some x /\ Rec_Tenant x = t /\ alive x clk.
Proof.
  intros Hs. destruct c as [e|]; [split; [done|naive_solver]|].
  destruct (Get_spec s Hs clk t h) as [Hf Hn].
  destruct (found_dec s t h (store_now clk) Hs) as [(i & r & Hx)|Hx].
  - destruct (Hf _ _ Hx) as [-> Hok]. pose proof Hx as (Hr & Hh & _). split.
    + intros E. split; [done|]. split; [apply memory_row_Some; eauto|].
      by apply (memory_found s t h clk i r x Hs Hr Hh E).
    + intros (_ & (j & r' & Hr' & Hh' & E)%memory_row_Some & Ht & Ha); [|done].
      assert (found s t h (store_now clk) j r') as Hx' by (by apply (memory_found s t h clk j r' x)).
      by destruct (found_unique s _ _ _ _ _ _ _ Hs Hx Hx') as [<- <-].
  - rewrite (Hn Hx). split; [done|]. intros (_ & (j & r' & Hr' & Hh' & E)%memory_row_Some & Ht & Ha); [|done].
    exfalso. apply (Hx j r'). by apply (memory_found s t h clk j r' x).
Qed.

Lemma memory_Get_total s clk t h : store_inv s ->
  (exists x, SessionsMemory.Get None clk t h s = Ok x) \/ SessionsMemory.Get None clk t h s = Err ErrNotFound.
Proof.
  intros Hs. destruct (Get_spec s Hs clk t h) as [Hf Hn].
  destruct (found_dec s t h (store_now clk) Hs) as [(i & r & Hx)|Hx]; [left|right; by apply Hn].
  destruct (Hf _ _ Hx) as [-> Hok]. exact Hok.
Qed.

Lemma memory_row_end s i clk h x : store_inv s ->
  store_inv (end_ i clk s) -> memory_row (end_ i clk s) h = Some x ->
  memory_row s h = Some x /\ byHash s !! h <> Some i.
Proof.
  intros Hs Hs' (j & r & Hr & Hh & E)%memory_row_Some; [|done]. rewrite end_lookup in Hr.
  case_decide; [done|]. split; [apply memory_row_Some; eauto|].
  destruct (inv_row s Hs _ _ Hr) as (_ & _ & Hb). congruence.
Qed.

#[export] Program Instance memory_laws : @SessionsLaws Store (memory_sessions str order) := {|
  inv := memory_inv;
  row_of := memory_row |}.
Next Obligation.
  intros s h r [Hs _] (i & x & Hr & <- & [Hok ->]%Restore_Ok)%memory_row_Some; [|done].
  apply row_ok_spec in Hok. simpl. tauto.
Qed.
Next Obligation. intros c clk t h s r [Hs _] (_ & H)%memory_Get; [exact H|done]. Qed.
Next Obligation. intros clk t h s r [Hs _] Hr Ht Ha. by apply memory_Get. Qed.
Next Obligation.
  intros clk t h s [Hs _] Hn. exists ErrNotFound. split; [|done].
  destruct (memory_Get_total s clk t h Hs) as [[x Hx]|H]; [|exact H].
  apply memory_Get in Hx as (_ & Hr & Ht & _); [|done]. by destruct (Hn x).
Qed.
Next Obligation.
  intros clk t h s x until [Hs _] Hclk (i & r & Hr & Hh & E)%memory_row_Some Ht Ha; [|done].
  destruct (Touch_spec s Hs clk t h until Hclk) as [Hf _].
  destruct (Hf i r) as [Hx _]; [by apply (memory_found s t h clk i r x)|].
  eexists _, _. split; [exact Hx|]. apply Restore_Ok in E as [_ ->]. unfold touched. simpl.
  pose proof (time_Truncate_le until Microsecond). lia.
Qed.
Next Obligation.
  intros c clk r s s' [Hs _] Hc. simpl in Hc. unfold SessionsMemory.Create in Hc.
  destruct c; [done|]. destruct (IsZero r); [done|].
  destruct (Restore (rowOf r)) as [y|] eqn:E; [|done]. simpl in Hc.
  destruct (rows s !! id r) eqn:Hi; [done|]. destruct (byHash s !! tokenHash r); [done|].
  injection Hc as <-. unfold memory_row. simpl. rewrite lookup_insert_eq. simpl.
  rewrite lookup_insert_eq. simpl. rewrite E. by apply Restore_Ok in E as [_ ->].
Qed.
Next Obligation.
  intros c clk t h s [Hs Hr]. split; [by apply (Revoke_evolves c clk t h s Hs Hr)|].
  destruct c; [done|]. change (room (SessionsMemory.Revoke None clk t h s).1).
  rewrite Revoke_spec by done. simpl. repeat case_match; try done. by apply end_room.
Qed.
Next Obligation.
  intros c clk t h s s' [Hs Hroom] Hv x Hx.
  pose proof (Revoke_evolves c clk t h s Hs Hroom) as He. simpl in Hv. rewrite Hv in He. apply ev_inv in He. simpl in He.
  destruct c; [done|]. rewrite Revoke_spec in Hv by done. injection Hv as <-.
  destruct (byHash s !! h) as [i|] eqn:Hb.
  - destruct (inv_hash s Hs _ _ Hb) as (r & Hr & Hh). rewrite Hr in *. case_decide as Ht.
    + by apply memory_row_end in Hx as [_ ?].
    + apply memory_row_Some in Hx as (j & r' & Hr' & Hh' & [_ ->]%Restore_Ok); [|done].
      assert (j = i) as -> by (eapply inv_hash_inj; eauto; congruence). by simplify_eq.
  - unfold memory_row in Hx. by rewrite Hb in Hx.
Qed.
Next Obligation.
  intros c clk t h s h' r [Hs Hroom]. destruct c; [done|].
  change (memory_row (SessionsMemory.Revoke None clk t h s).1 h' = Some r -> memory_row s h' = Some r).
  pose proof (Revoke_evolves None clk t h s Hs Hroom) as He. apply ev_inv in He.
  rewrite Revoke_spec in * by done. simpl in *. repeat case_match; try done.
  by intros [? _]%memory_row_end.
Qed.
End memory_laws.

(** ** Where a digest comes from

    Only Create, Replace and a rotation from another digest issue one; a renewal in place (Rotate from
    a digest to itself) needs the row it renews. *)
Definition reissues (h : bytes) (o : op) : bool :=
  match o with
  | OpCreate _ r => bool_decide (tokenHash r = h)
  | OpReplace _ _ req => bool_decide (tokenHash (rep_Next req) = h)
  | OpRotate _ _ req => bool_decide (tokenHash (rot_Next req) = h) && negb (bool_decide (rot_Previous req = h))
  | _ => false
  end.

(** [held s t h]: a row of tenant [t], live or not, has the digest [h]. *)
Definition held (s : Store) (t : TenantID) (h : bytes) : Prop :=
  exists i r, rows s !! i = Some r /\ TokenHash r = h /\ Tenant (RSubject r) = t.

Lemma held_subset (s s' : Store) t h : rows s' ⊆ rows s -> held s' t h -> held s t h.
Proof. intros Hsub (i & r & Hr & H). exists i, r. split; [by eapply lookup_weaken|done]. Qed.

Lemma held_insert s rs i row bh fd q t h :
  held (mkStore (<[i := row]> rs) bh fd q) t h -> rs ⊆ rows s ->
  held s t h \/ (TokenHash row = h /\ Tenant (RSubject row) = t).
Proof.
  intros (j & r & Hj & H) Hsub. simpl in Hj. apply lookup_insert_Some in Hj as [[<- <-]|[_ Hr]]; [by right|].
  left. exists j, r. split; [by eapply lookup_weaken|done].
Qed.

Lemma rows_end s i now : rows (end_ i now s) ⊆ rows s.
Proof. unfold end_. destruct (rows s !! i); [apply delete_subseteq|done]. Qed.

Lemma rows_endWhere str range now f s : rows (endWhere str range now f s) ⊆ rows s.
Proof.
  unfold endWhere. generalize (victims str range f s). intros vs. revert s.
  induction vs as [|i vs IH]; intros s; simpl; [done|].
  etransitivity; [apply IH|apply rows_end].
Qed.

Lemma step_held str s o s' t h :
  store_inv s -> step str s o s' -> reissues h o = false -> held s' t h -> held s t h.
Proof.
  intros Hs [Hclk _ _] Ho Hh. destruct o; simpl in *.
  - unfold Create in Hh. repeat (case_match; simpl in Hh; try done).
    apply (held_insert s) in Hh as [?|[Hx _]]; [done| |done]. bools. by simpl in Hx.
  - destruct ctx0; [done|]. destruct (Touch_spec s Hs clk t0 h0 idleUntil Hclk) as [Hf Hn].
    destruct (found_dec s t0 h0 (store_now clk) Hs) as [(i & r & Hx)|Hx]; [|by rewrite Hn in Hh].
    destruct (Hf _ _ Hx) as [E _]. rewrite E in Hh. simpl in Hh.
    apply (held_insert s) in Hh as [?|Hx']; [done| |done]. exists i, r. split; [apply Hx|exact Hx'].
  - destruct ctx0; [done|]. destruct (IsZero (rot_Next req)) eqn:Hz; [unfold Rotate in Hh; by rewrite Hz in Hh|].
    destruct (Rotate_spec s Hs clk req Hz) as [Hf Hn].
    destruct (rotatable_dec s (store_now clk) req Hs) as [(i & r & Hx)|Hx]; [|by rewrite Hn in Hh].
    rewrite (Hf _ _ Hx) in Hh. destruct (Restore _); [|done]. simpl in Hh.
    apply (held_insert s) in Hh as [?|[Hd Ht]]; [done| |done]. simpl in *. destruct Hx as ((Hr & Hp & Ht' & _) & _).
    rewrite Hd in Ho. rewrite bool_decide_eq_true_2 in Ho by done. simpl in Ho. bools. exists i, r. unfold Rec_Tenant in Ht'.
    repeat split; [done| |]; congruence.
  - unfold Replace in Hh. repeat (case_match; simpl in Hh; try done).
    apply (held_insert s) in Hh as [?|[Hx _]]; [done| |apply rows_end]. bools. by simpl in Hx.
  - unfold Revoke in Hh. repeat (case_match; simpl in Hh; try done). by eapply held_subset, Hh; apply rows_end.
  - unfold RevokeSession in Hh. repeat (case_match; simpl in Hh; try done). by eapply held_subset, Hh; apply rows_end.
  - destruct ctx0; [done|]. by eapply held_subset, Hh; apply rows_endWhere.
  - destruct ctx0; [done|]. by eapply held_subset, Hh; apply rows_endWhere.
  - destruct ctx0; [done|]. by eapply held_subset, Hh; apply rows_endWhere.
  - destruct ctx0; [done|]. destruct (ReapExpired_spec clk s Hs) as (s2 & E & _ & _ & Hr & _). rewrite E in Hh.
    eapply held_subset, Hh. simpl. rewrite Hr. apply map_filter_subseteq.
Qed.

Lemma run_held str s os s' t h :
  store_inv s -> run str s os s' -> Forall (fun o => reissues h o = false) os -> held s' t h -> held s t h.
Proof.
  intros Hs Hr. induction Hr as [s|s o s1 os s2 Hst Hr IH]; intros Ho Hh; [done|].
  apply Forall_cons in Ho as [Ho1 Ho]. eapply step_held; [done|done|done|].
  apply IH; [by eapply step_inv|done|done].
Qed.

Lemma held_row s t h : store_inv s ->
  (exists r, memory_row s h = Some r /\ Rec_Tenant r = t) <-> held s t h.
Proof.
  intros Hs. split.
  - intros (x & (i & r & Hr & Hh & [_ ->]%Restore_Ok)%memory_row_Some & Ht); [|done]. by exists i, r.
  - intros (i & r & Hr & Hh & Ht). destruct (inv_row s Hs _ _ Hr) as (_ & Hok & _).
    eexists. split; [apply memory_row_Some; [done|]; exists i, r; split; [done|]; split; [done|]; by apply Restore_Ok|done].
Qed.
End memory_facts.

(** ** What each method of the stateful backend does, proved against the contract of its store. *)

Lemma NewRecord_claims sp seal r : NewRecord sp (Some seal) = Ok r -> appClaims r = sp_AppClaims sp.
Proof.
  unfold NewRecord. intros H. go_cases. destruct (seal (sp_Attrs sp)) as [b|]; [|discriminate].
  by apply Restore_Ok in H as [_ ->].
Qed.

Section backend.
Context {S A : Type} `{SessionsLaws S, Epochs.EpochSource A} (sha256 : bytes -> bytes).
Implicit Types (e : env S A) (w : world S) (b : Backend).

(** Other requests leave the store consistent. *)
Definition fair e : Prop := forall n s, inv s -> inv (others e n s).

(** What a loaded session is. *)
Record loads b (s : S) (t : TenantID) (hash : bytes) (l : loaded) : Prop := {
  ld_row : row_of s hash = Some (l_rec l);
  ld_unseal : Unseal (sealed (l_rec l)) = Ok (l_attrs l);
  ld_hash : l_hash l = hash;
  ld_tenant : Rec_Tenant (l_rec l) = t;
  ld_subject : subject (l_rec l) = a_subject (l_attrs l);
  ld_lineage : lineage (l_rec l) = a_lineage (l_attrs l);
  ld_user : User (a_subject (l_attrs l)) <> uuid_Nil;
  ld_end : l_end l = Z.min (a_createdAt (l_attrs l) + MaxLifetime (life b)) (absoluteExpiresAt (l_rec l)) }.

(** The world after one call on the store that changed nothing. *)
Definition stepped e w : world S :=
  mkWorld (others e (calls w) (sess w)) (epochs w) (out w) (events w) (Datatypes.S (calls w)).

Lemma loadRow_world b t h e w : (loadRow b t h e w).1 = stepped e w.
Proof. done. Qed.

Lemma loadRow_Ok b t h e w l :
  inv (others e (calls w) (sess w)) -> (loadRow b t h e w).2 = Ok l ->
  loads b (others e (calls w) (sess w)) t h l /\ alive (l_rec l) (clock e (calls w)).
Proof.
  intros Hi. unfold loadRow, on_store. prog. simpl.
  destruct (Get _ _ t h _) as [rec|err] eqn:Eg; [|done].
  apply Get_Ok in Eg as (Hr & Ht & Ha); [|done].
  destruct (Unseal (sealed rec)) as [a|err] eqn:Eu; [|done].
  destruct (_ || _) eqn:Eo; [done|]. intros [= <-]. bools. split; [|done].
  split; simpl; try done. unfold time_Before, time_Add. case_match; bools; lia.
Qed.

Lemma load_Ok b tok e w l :
  inv (others e (calls w) (sess w)) -> (load sha256 b tok e w).2 = Ok l ->
  exists t h, parseToken sha256 tok = Ok (t, h) /\ (load sha256 b tok e w).1 = stepped e w /\
    loads b (others e (calls w) (sess w)) t h l /\ alive (l_rec l) (clock e (calls w)).
Proof.
  unfold load. destruct (parseToken sha256 tok) as [[t h]|err]; [|done]. intros Hi Hl.
  exists t, h. split; [done|]. split; [done|]. by apply loadRow_Ok.
Qed.

Lemma load_Err b tok e w err : (load sha256 b tok e w).2 = Err err -> out (load sha256 b tok e w).1 = out w.
Proof. unfold load. by destruct (parseToken sha256 tok) as [[t h]|]. Qed.

(** Writing a credential touches the response only, and only when it succeeds. *)
Lemma write_spec b a tok idle issued e w :
  let r := write b a tok idle issued e w in
  sess r.1 = sess w /\ epochs r.1 = epochs w /\ (r.2 <> None -> out r.1 = out w).
Proof.
  unfold write. destruct (_ =? TransportCookies).
  - unfold now, respond. prog. simpl. unfold Cookie.SetSession.
    destruct (Cookie.check _ _ _ _); [done|]. destruct (a_remember a); [|done].
    by destruct (_ <? 1).
  - destruct (_ =? TransportBearer); [|done]. by destruct issued.
Qed.

Lemma write_valid b a tok idle issued e w :
  (write b a tok idle issued e w).2 = None -> Transport_Valid (a_transport a) = true.
Proof.
  unfold write, Transport_Valid. destruct (_ =? TransportCookies); [done|].
  by destruct (_ =? TransportBearer).
Qed.

(** The epoch check of a request that begins at world [w]: it starts after the row was read and the
    clock was. *)
Definition epoch_passed e w (a : SessionAttrs) : Prop :=
  let n := Datatypes.S (Datatypes.S (calls w)) in
  exists c evs, Epochs.Check (ctx e n) (clock e n) (clock e (n + 1)) (clock e (n + 2)) (clock e (n + 3))
    (accounts e n) (accounts e (n + 1)) (a_subject a) (a_epoch a) (cached e n (epochs w)) = Ok (c, None, evs).

(** What a renewal keeps: all but the must-change flag, which is only raised, and the instant the
    claims were read. *)
Definition renews (a a' : SessionAttrs) (st : AccountState) : Prop :=
  exists t, a' = set_mustChange (a_mustChange a || mustChange st) (set_claimsFetchedAt t a).

Lemma set_claimsFetchedAt_same a : set_claimsFetchedAt (a_claimsFetchedAt a) a = a.
Proof. by destruct a. Qed.

Lemma Renew_success l q t a cur evs a' c :
  Renew_ l q t a cur = (evs, Ok (a', c)) ->
  exists st mfa, ans_AccountState q (a_subject a) = Ok st /\ ans_MFADecision q (a_subject a) = Ok mfa /\
    Usable st = true /\ epoch st = a_epoch a /\
    (Required mfa = true -> multiFactor (a_factors a) = true) /\ renews a a' st.
Proof.
  unfold Renew_. destruct (SessionAttrs_IsZero a); [done|].
  destruct (ans_AccountState q _) as [st|]; [|done]. destruct (ans_MFADecision q _) as [mfa|]; [|done].
  destruct (renewalClaims l q a cur t) as [[o cl] cause].
  destruct (Renew a st mfa o t) as [n|err] eqn:E; [|by repeat case_match]. intros [= _ <- <-].
  apply Renew_Ok in E as (Hu & He & Hm & _ & ->). exists st, mfa. repeat split; try done.
  unfold renews. case_match; [by eexists|]. exists (a_claimsFetchedAt a). by rewrite set_claimsFetchedAt_same.
Qed.

Lemma resumed_Ok a c i h :
  attrs_wf a -> i <> uuid_Nil -> h <> [] ->
  resumed a c i h = Ok (mkResumed a c (mkHandle (a_subject a) (a_lineage a) i h)).
Proof.
  intros Ha Hi Hh. unfold resumed, NewKeyedHandle, NewHandle, NewResumed, Handle_IsZero, SessionAttrs_IsZero.
  destruct Ha as [Hv [Hl _] [_ Hs] _ _ _ _ _]. rewrite Hv, Hs.
  destruct (Z.eqb_spec (Z.of_nat (length h)) 0) as [E|_]; [destruct h; [done|simpl in E; lia]|].
  rewrite (proj2 (Z.eqb_neq _ _) Hl), (proj2 (Z.eqb_neq _ _) Hi). simpl.
  rewrite (proj2 (Z.eqb_neq _ _) Hi), bool_decide_eq_true_2, Z.eqb_refl by done. done.
Qed.

Lemma renews_wf a a' st : attrs_wf a -> renews a a' st -> attrs_wf a'.
Proof. intros Ha [t ->]. split; simpl; apply Ha. Qed.

Lemma loads_facts b s t h l : inv s -> loads b s t h l ->
  attrs_wf (l_attrs l) /\ id (l_rec l) <> uuid_Nil /\ h <> [].
Proof.
  intros Hi Hl. destruct (row_ok_law s h _ Hi (ld_row _ _ _ _ _ Hl)) as [Hid Hlen].
  pose proof (Unseal_spec (sealed (l_rec l))) as Hu. rewrite (ld_unseal _ _ _ _ _ Hl) in Hu.
  split; [apply Hu|]. split; [done|]. intros ->. done.
Qed.

(** The result of a renewal. *)
Lemma renew_cases b tok l t h s e w :
  inv s -> loads b s t h l -> forall at_ w' r, renew b tok l at_ e w = (w', r) ->
  (exists err, r = Err err /\ out w' = out w) \/
  exists st mfa a' c, r = Ok (mkResumed a' c (mkHandle (a_subject a') (a_lineage a') (id (l_rec l)) h)) /\
    ans_AccountState (asked e) (a_subject (l_attrs l)) = Ok st /\
    ans_MFADecision (asked e) (a_subject (l_attrs l)) = Ok mfa /\
    Usable st = true /\ epoch st = a_epoch (l_attrs l) /\
    (Required mfa = true -> multiFactor (a_factors (l_attrs l)) = true) /\ renews (l_attrs l) a' st.
Proof.
  intros Hi Hl at_ w' r. destruct (loads_facts b s t h l Hi Hl) as (Ha & Hid & Hh).
  unfold renew, now, ask, emit_all. prog. simpl.
  destruct (Renew_ _ _ _ _ _) as [evs [[a' c]|err]] eqn:Er; simpl.
  2:{ unfold revokeUnknown, on_store, emit_all. prog. destruct (Is err ErrClaimsSubjectUnknown).
      - simpl. destruct (RevokeSession _ _ _ _ _) as [s2 [u|err']]; intros [= <- <-]; left; by eexists.
      - intros [= <- <-]. left. by eexists. }
  apply Renew_success in Er as (st & mfa & E1 & E2 & Hu & He & Hm & Hr).
  destruct (record b _) as [next|err] eqn:En; [|intros [= <- <-]; left; by eexists].
  unfold on_store. simpl. destruct (Rotate _ _ _ _) as [s2 [u|err]]; [|intros [= <- <-]; left; by eexists].
  match goal with |- context [write b a' tok ?i false e ?w0] =>
    pose proof (write_spec b a' tok i false e w0) as (_ & _ & Hw); set (x := write b a' tok i false e w0) in * end.
  destruct x as [w2 [err|]]; simpl in *.
  - intros [= <- <-]. left. eexists. split; [done|]. by apply Hw.
  - rewrite (ld_hash _ _ _ _ _ Hl), resumed_Ok; [|by eapply renews_wf|done|done].
    intros [= <- <-]. right. exists st, mfa, a', c. done.
Qed.

(** A resumed session, seen from the request and the row it was read from: the row's own attributes
    between two checks, or what a check by the Authority made of them. *)
Definition resumes e b (l : loaded) (h : bytes) (at_ : time) (x : Resumed) : Prop :=
  let a := l_attrs l in
  r_handle x = mkHandle (a_subject a) (a_lineage a) (id (l_rec l)) h /\
  (r_attrs x = a /\ r_claims x = appClaims (l_rec l) /\
     time_Sub at_ (checkedAt (l_rec l)) < RecheckEvery (life b) \/
   RecheckEvery (life b) <= time_Sub at_ (checkedAt (l_rec l)) /\
   exists st mfa, ans_AccountState (asked e) (a_subject a) = Ok st /\
     ans_MFADecision (asked e) (a_subject a) = Ok mfa /\ Usable st = true /\ epoch st = a_epoch a /\
     (Required mfa = true -> multiFactor (a_factors a) = true) /\ renews a (r_attrs x) st).

Lemma Resume_cases b r tenant e w w' x :
  inv (sess w) -> fair e -> Resume sha256 b r tenant e w = (w', x) ->
  (exists err, x = Err err /\ out w' = out w) \/
  exists y l h, x = Ok y /\
    let p := read (cookies b) r in
    let at_ := clock e (Datatypes.S (calls w)) in
    ambiguous p = false /\ parseToken sha256 (token p) = Ok (tenant, h) /\
    loads b (others e (calls w) (sess w)) tenant h l /\ alive (l_rec l) (clock e (calls w)) /\
    Tenant (a_subject (l_attrs l)) = tenant /\ a_transport (l_attrs l) = transport p /\
    at_ < l_end l /\ epoch_passed e w (l_attrs l) /\ resumes e b l h at_ y.
Proof.
  intros Hi Hf. unfold Resume. destruct (ambiguous _) eqn:Ea; [intros [= <- <-]; left; by eexists|].
  case_bool_decide as Et; [intros [= <- <-]; left; by eexists|].
  unfold try at 1. unfold mbind at 1, M_bind at 1.
  destruct (load sha256 b (token (read (cookies b) r)) e w) as [w1 [l|err]] eqn:El.
  2:{ intros [= <- <-]. left. eexists. split; [done|].
      pose proof (load_Err b (token (read (cookies b) r)) e w err) as Ho. rewrite El in Ho. by apply Ho. }
  destruct (load_Ok b (token (read (cookies b) r)) e w l) as (t & h & Hp & Hw & Hl & Hlive); [by apply Hf|by rewrite El|].
  rewrite El in Hw. simpl in Hw. subst w1.
  destruct (bool_decide_reflect (Rec_Tenant (l_rec l) = tenant)) as [Ht|_]; [|intros [= <- <-]; left; by eexists].
  destruct (bool_decide_reflect (Tenant (a_subject (l_attrs l)) = tenant)) as [Ht'|_]; [|intros [= <- <-]; left; by eexists].
  destruct (Z.eqb_spec (a_transport (l_attrs l)) (transport (read (cookies b) r))) as [Htr|_]; [|intros [= <- <-]; left; by eexists].
  assert (t = tenant) as -> by (rewrite <- Ht; symmetry; apply Hl).
  cbn [negb orb]. prog. unfold now at 1. simpl.
  destruct (time_Before _ (l_end l)) eqn:Hend; simpl; [|intros [= <- <-]; left; by eexists]. bools.
  unfold check_epoch. simpl.
  destruct (Epochs.Check _ _ _ _ _ _ _ _ _ _) as [[[c err] evs]|panic] eqn:Ec; [|intros [= <- <-]; left; by eexists].
  destruct err as [err|]; [intros [= <- <-]; left; by eexists|].
  assert (epoch_passed e w (l_attrs l)) as Hep
    by (by exists c, evs).
  pose proof (Hf (calls w) (sess w) Hi) as Hi1.
  destruct (loads_facts b _ tenant h l Hi1 Hl) as (Hwf & Hid & Hh).
  destruct (Z.leb_spec (RecheckEvery (life b)) (time_Sub (clock e (Datatypes.S (calls w))) (checkedAt (l_rec l)))) as [Hdue|Hdue].
  - intros Hr. eapply renew_cases in Hr; [|exact Hi1|exact Hl]. destruct Hr as [Hr|Hr]; [by left|].
    destruct Hr as (st & mfa & a' & cl & -> & E1 & E2 & Hu & He & Hm & Hrn). right.
    eexists _, l, h. split; [done|]. cbv zeta. do 8 (split; [done|]). split.
    + simpl. destruct Hrn as [t ->]. done.
    + right. split; [done|]. exists st, mfa. done.
  - unfold on_store. simpl. destruct (Touch _ _ _ _ _ _) as [s2 [idle|err]]; [|intros [= <- <-]; left; by eexists].
    match goal with |- context [write b ?a ?tok ?i false e ?w0] =>
      pose proof (write_spec b a tok i false e w0) as (_ & _ & Hw); set (y := write b a tok i false e w0) in * end.
    destruct y as [w2 [err|]]; simpl in *.
    + intros [= <- <-]. left. eexists. split; [done|]. by apply Hw.
    + rewrite (ld_hash _ _ _ _ _ Hl), resumed_Ok by done. intros [= <- <-]. right.
      eexists _, l, h. split; [done|]. cbv zeta. do 8 (split; [done|]). split; [done|]. by left.
Qed.

Lemma Start_Err b a c e w w' err : Start sha256 b a c e w = (w', Err err) -> out w' = out w.
Proof.
  unfold Start. destruct (checkStartable a); [by intros [= <- _]|].
  destruct (CompactClaims c) as [claims|err']; [|by intros [= <- _]].
  unfold draw, newID, now, on_store. prog. simpl.
  destruct (newToken _ _ _) as [[tok h]|err']; [|by intros [= <- _]].
  destruct (record b _) as [rec|err']; [|by intros [= <- _]]. simpl.
  destruct (Create _ _ _ _) as [s2 [u|err']]; [|by intros [= <- _]].
  match goal with |- context [write b a tok ?i true e ?w0] =>
    pose proof (write_spec b a tok i true e w0) as (_ & _ & Hw); set (x := write b a tok i true e w0) in * end.
  destruct x as [w2 [err'|]]; [|done]. intros [= <- _]. by apply Hw.
Qed.

Lemma Reissue_Err b cur a e w w' err : Reissue sha256 b cur a e w = (w', Err err) -> out w' = out w.
Proof.
  unfold Reissue. destruct (checkStartable a); [by intros [= <- _]|].
  destruct (_ || _); [by intros [= <- _]|]. unfold ask, emit_all. prog. simpl.
  destruct (FetchClaims _ _) as [evs [claims|err']]; simpl.
  2:{ destruct (Is err' ErrClaimsSubjectUnknown); [|by intros [= <- _]].
      unfold revokeUnknown, on_store, emit_all. prog. simpl.
      destruct (RevokeSession _ _ _ _ _) as [s2 [u|err2]]; by intros [= <- _]. }
  unfold draw, newID, now, on_store. simpl.
  destruct (newToken _ _ _) as [[tok h]|err']; [|by intros [= <- _]].
  destruct (record b _) as [rec|err']; [|by intros [= <- _]]. simpl.
  destruct (Replace _ _ _ _) as [s2 [u|err']]; [|by intros [= <- _]].
  match goal with |- context [write b a tok ?i true e ?w0] =>
    pose proof (write_spec b a tok i true e w0) as (_ & _ & Hw); set (x := write b a tok i true e w0) in * end.
  destruct x as [w2 [err'|]]; [|done]. intros [= <- _]. by apply Hw.
Qed.

(** ** Absent digests *)
Definition absent (s : S) (t : TenantID) (h : bytes) : Prop :=
  forall r, row_of s h = Some r -> Rec_Tenant r <> t.

(** Other requests do not issue the digest again. *)
Definition keeps_out e t h : Prop := forall n s, inv s -> absent s t h -> absent (others e n s) t h.

Lemma loadRow_absent b t h e w :
  inv (others e (calls w) (sess w)) -> ctx e (calls w) = None -> absent (others e (calls w) (sess w)) t h ->
  exists err, (loadRow b t h e w).2 = Err (Join ErrInvalidToken err) /\ Is err ErrNotFound = true.
Proof.
  intros Hi Hc Ha. unfold loadRow, on_store. prog. simpl. rewrite Hc.
  destruct (Get_absent (clock e (calls w)) t h _ Hi Ha) as (err & -> & He). rewrite He. by exists err.
Qed.

Lemma Resume_absent b r tenant t h e w :
  inv (others e (calls w) (sess w)) -> ctx e (calls w) = None -> absent (others e (calls w) (sess w)) t h ->
  parseToken sha256 (token (read (cookies b) r)) = Ok (t, h) -> ambiguous (read (cookies b) r) = false ->
  exists err, (Resume sha256 b r tenant e w).2 = Err err /\ Is err ErrInvalidToken = true.
Proof.
  intros Hi Hc Ha Hp Hamb. unfold Resume. rewrite Hamb. case_bool_decide as Et; [by rewrite Et in Hp|].
  unfold try at 1, mbind at 1, M_bind at 1, load. rewrite Hp.
  destruct (loadRow_absent b t h e w Hi Hc Ha) as (err & E & He).
  destruct (loadRow b t h e w) as [w1 x]. simpl in E. subst x. by eexists.
Qed.

Lemma Live_absent b (hd : Handle) e w :
  inv (others e (calls w) (sess w)) -> ctx e (calls w) = None ->
  absent (others e (calls w) (sess w)) (Tenant (h_subject hd)) (h_key hd) ->
  exists err, (Live b hd e w).2 = Err err /\ (Is err ErrEnded = true \/ Is err HErrUnavailable = true).
Proof.
  intros Hi Hc Ha. unfold Live. destruct (_ || _); [eexists; by split; [|left]|].
  destruct (loadRow_absent b _ _ e w Hi Hc Ha) as (err & E & He). prog.
  destruct (loadRow b _ _ e w) as [w1 x]. simpl in E. subst x. simpl.
  eexists. split; [done|]. destruct (Is err HErrUnavailable) eqn:Eh; simpl; [right|left]; by rewrite ?Eh.
Qed.

Lemma end_tokens_absent toks t h e : forall w w',
  inv (sess w) -> fair e -> keeps_out e t h ->
  (absent (sess w) t h \/ exists tok, tok ∈ toks /\ parseToken sha256 tok = Ok (t, h)) ->
  end_tokens sha256 t toks e w = (w', []) -> absent (sess w') t h.
Proof.
  induction toks as [|tok toks IH]; intros w w' Hi Hf Hk Ha; simpl.
  - intros [= <-]. destruct Ha as [?|(tok & ?%not_elem_of_nil & _)]; done.
  - destruct (parseToken sha256 tok) as [[t' h']|err] eqn:Ep.
    2:{ apply IH; [done..|]. destruct Ha as [?|(x & [->|Hx]%elem_of_cons & E)]; [by left|congruence|]. right. eauto. }
    case_bool_decide as Et.
    2:{ apply IH; [done..|]. destruct Ha as [?|(x & [->|Hx]%elem_of_cons & E)]; [by left|congruence|]. right. eauto. }
    subst t'. unfold on_store. prog.
    destruct (Revoke _ _ t h' _) as [s1 rv] eqn:Ev.
    destruct (end_tokens sha256 t toks e _) as [w2 errs] eqn:Ee. intros [= <- Hr].
    destruct rv as [[]|err]; [|done]. subst errs.
    assert (inv (others e (calls w) (sess w))) as Hi1 by (by apply Hf).
    eapply IH, Ee; [|done|done|]; simpl.
    + pose proof (Revoke_inv (ctx e (calls w)) (clock e (calls w)) t h' _ Hi1) as Hx. by rewrite Ev in Hx.
    + destruct Ha as [Ha|(x & [->|Hx]%elem_of_cons & E)].
      * left. intros r Hrow. apply (Hk (calls w) (sess w) Hi Ha).
        eapply (Revoke_keeps (ctx e (calls w)) (clock e (calls w)) t h'); [done|]. by rewrite Ev.
      * left. assert (h' = h) as -> by congruence. intros rec. by apply (Revoke_gone _ _ _ _ _ _ Hi1 Ev).
      * right. eauto.
Qed.

Lemma End_absent b r t tok h e w w' :
  inv (sess w) -> fair e -> keeps_out e t h -> tok ∈ tokens_of (read (cookies b) r) ->
  parseToken sha256 tok = Ok (t, h) -> End_ sha256 b r t e w = (w', Ok tt) -> absent (sess w') t h.
Proof.
  intros Hi Hf Hk Hin Hp. unfold End_. prog.
  assert (forall w0, sess w0 = sess w ->
    (let '(w1, errs) := end_tokens sha256 t (tokens_of (read (cookies b) r)) e w0 in
     (w1, match errs with [] => Ok tt | e0 :: es => Err (unavailable (JoinAll e0 es)) end)) = (w', Ok tt) ->
    absent (sess w') t h) as Hgo.
  { intros w0 Hw. destruct (end_tokens _ _ _ _ _) as [w1 [|e0 es]] eqn:Ee; [|done]. intros [= <-].
    eapply end_tokens_absent, Ee; [by rewrite Hw|done|done|]. right. eauto. }
  destruct (_ || _); [unfold respond|]; apply Hgo; done.
Qed.

(** ** Tokens *)
Lemma str_bytes_app s1 s2 : str_bytes (s1 +:+ s2) = str_bytes s1 ++ str_bytes s2.
Proof.
  unfold str_bytes, String.list_byte_of_string. induction s1 as [|c s1 IH]; [done|]. simpl. by rewrite IH.
Qed.

Lemma encode_no_dot l : "."%byte ∉ Base64.encode l.
Proof.
  intros Hd. pose proof (Base64.encode_chars l) as Hc. rewrite Forall_forall in Hc.
  by apply Hc in Hd.
Qed.

Lemma tenant_zero t : TenantID_IsZero t = true -> t = zero_TenantID.
Proof. destruct t as [i]. unfold TenantID_IsZero. simpl. intros Hz. bools. by subst. Qed.

Lemma parse_newToken secret t tok h :
  length secret = 32%nat -> tenant_wf t -> newToken sha256 (Ok secret) t = Ok (tok, h) ->
  parseToken sha256 tok = Ok (t, h) /\ tok <> "".
Proof.
  intros Hlen Ht. unfold newToken. simpl. intros [= <- <-]. unfold parseToken.
  assert (bytes_str (Base64.encode secret) <> "") as Hne.
  { intros E. apply (f_equal str_bytes) in E. rewrite str_bytes_str in E.
    apply (f_equal length) in E. rewrite Base64.length_encode_32 in E by done. done. }
  destruct (TenantID_IsZero t) eqn:Ez.
  - split; [|done]. rewrite str_bytes_str, Cut_absent, Base64.decode_encode, Hlen by apply encode_no_dot.
    simpl. by rewrite (tenant_zero t Ez).
  - split.
    + rewrite !str_bytes_app, str_bytes_str. change (str_bytes ".") with ["."%byte]. simpl app.
      rewrite Cut_found, Base64.decode_encode, Hlen by apply encode_no_dot. simpl.
      rewrite bytes_str_bytes. destruct Ht as [Ht|Ht]; [by rewrite Ht in Ez|by rewrite Ht].
    + intros E. apply (f_equal str_bytes) in E. rewrite !str_bytes_app, str_bytes_str in E.
      apply (f_equal length) in E. rewrite !length_app, Base64.length_encode_32 in E by done. done.
Qed.

(** ** A request that nothing disturbs *)

(** The request happens at instant [t], its context holds and no other request runs. *)
Definition steady e (t : time) : Prop :=
  forall n, clock e n = t /\ ctx e n = None /\ forall s, others e n s = s.

Lemma write_refreshes b a tok idle t e w :
  Transport_Valid (a_transport a) = true ->
  (a_transport a = TransportCookies ->
     Cookie.check (cookies b) Cookie.StatefulSession Cookie.ClassSession tok = None) ->
  clock e (calls w) = t -> t < idle -> idle - t <= two63 - Second ->
  (write b a tok idle false e w).2 = None.
Proof.
  intros Hv Hc Ht Hlt Hle. unfold write, Transport_Valid in *.
  destruct (Z.eqb_spec (a_transport a) TransportCookies) as [E|_].
  - unfold now, respond. prog. simpl. unfold Cookie.SetSession. rewrite Hc by done.
    destruct (a_remember a); [|done]. rewrite Ht.
    assert (duration_Truncate (i64 (time_Sub idle t + Second - 1)) Second `quot` Second >= 1) as Hs.
    { unfold time_Sub. rewrite Z.max_r, Z.min_r by (unfold two63, Second in *; lia).
      unfold i64, i64_of_u64. rewrite u64_small by (unfold is_u64, two63, two64, Second in *; lia).
      rewrite (proj2 (Z.ltb_lt _ _)) by (unfold two63, Second in *; lia).
      unfold duration_Truncate. simpl. set (d := idle - t + Second - 1).
      assert (Second <= d) as Hd by (unfold d; lia). clearbody d. unfold Second in *.
      pose proof (Z.quot_rem' d 1000000000) as Hq. pose proof (Z.rem_bound_pos d 1000000000).
      replace (d - d `rem` 1000000000) with ((d `quot` 1000000000) * 1000000000) by lia.
      rewrite Z.quot_mul by lia. assert (1 <= d `quot` 1000000000); [|lia].
      apply Z.quot_le_lower_bound; lia. }
    by rewrite (proj2 (Z.ltb_ge _ _)) by lia.
  - by destruct (Z.eqb_spec (a_transport a) TransportBearer).
Qed.

Lemma Resume_live b r tenant h rec a t e w :
  steady e t -> 0 <= t -> inv (sess w) ->
  let p := read (cookies b) r in
  ambiguous p = false -> parseToken sha256 (token p) = Ok (tenant, h) ->
  row_of (sess w) h = Some rec -> Rec_Tenant rec = tenant -> alive rec t -> t < idleExpiresAt rec ->
  Unseal (sealed rec) = Ok a -> subject rec = a_subject a -> lineage rec = a_lineage a -> r_epoch rec = a_epoch a ->
  a_transport a = transport p -> t < a_createdAt a + MaxLifetime (life b) -> t < absoluteExpiresAt rec ->
  epoch_passed e w a -> time_Sub t (checkedAt rec) < RecheckEvery (life b) ->
  (a_transport a = TransportCookies ->
     Cookie.check (cookies b) Cookie.StatefulSession Cookie.ClassSession (token p) = None) ->
  0 < IdleTimeout (life b) <= two63 - Second -> idleExpiresAt rec - t <= two63 - Second ->
  exists w', Resume sha256 b r tenant e w
             = (w', Ok (mkResumed a (appClaims rec) (mkHandle (a_subject a) (a_lineage a) (id rec) h))).
Proof.
  intros Hst Ht0 Hi p Hamb Hp Hrow Hten Halive Hidle Hun Hsub Hlin Hep Htr Hmax Habs Hcheck Hdue Hck Hit Hleft.
  destruct (row_ok_law _ _ _ Hi Hrow) as [Hid Hlen]. assert (h <> []) as Hh by (by intros ->).
  pose proof (Unseal_spec (sealed rec)) as Hwf. rewrite Hun in Hwf. destruct Hwf as [Hwf _].
  unfold Resume. fold p. rewrite Hamb. case_bool_decide as Et; [by rewrite Et in Hp|].
  assert (forall n, clock e n = t) as Hclk by (intros n; apply Hst).
  assert (forall n, ctx e n = None) as Hctx by (intros n; apply Hst).
  assert (forall n s, others e n s = s) as Hoth by (intros n; apply Hst).
  unfold load. rewrite Hp. unfold loadRow, on_store. prog. rewrite Hclk, Hctx, Hoth.
  rewrite (Get_live t tenant h (sess w) rec Hi Hrow Hten Halive), Hun.
  assert (User (a_subject a) <> uuid_Nil) as Hu.
  { destruct (aw_subject a Hwf) as [_ Hz]. unfold Subject_IsZero in Hz. by bools. }
  rewrite bool_decide_eq_true_2, Hlin, Z.eqb_refl, Hep, Z.eqb_refl, (bool_decide_eq_true_2 _ Hten),
    (proj2 (Z.eqb_neq _ _) Hu) by done. simpl.
  assert (Tenant (a_subject a) = tenant) as Hta by (rewrite <- Hsub; exact Hten).
  rewrite (bool_decide_eq_true_2 (Rec_Tenant rec = tenant)), Hta, bool_decide_eq_true_2 by done. simpl.
  rewrite Htr, Z.eqb_refl. simpl. rewrite Hclk. unfold time_Before, time_Add.
  assert (t < (if absoluteExpiresAt rec <? a_createdAt a + MaxLifetime (life b) then absoluteExpiresAt rec
               else a_createdAt a + MaxLifetime (life b))) as Hend by (case_match; lia).
  rewrite (proj2 (Z.ltb_lt _ _) Hend). simpl.
  destruct Hcheck as (c & evs & Hc). unfold check_epoch. simpl in *. rewrite Hc.
  rewrite (proj2 (Z.leb_gt _ _) Hdue). simpl. rewrite Hclk, Hctx, Hoth.
  destruct (Touch_live t tenant h (sess w) rec (t + IdleTimeout (life b)) Hi Ht0 Hrow Hten Halive)
    as (s2 & idle & -> & Hidl). simpl.
  match goal with |- context [write b a ?tok ?i false e ?w0] =>
    pose proof (write_refreshes b a tok i t e w0) as Hw; set (x := write b a tok i false e w0) in * end.
  assert (x.2 = None) as Hx.
  { apply Hw; [apply Hwf|done|apply Hclk|lia|]. lia. }
  destruct x as [w2 o]. simpl in Hx. subst o. rewrite resumed_Ok by done. by eexists.
Qed.

(** The credential of a new session, as the response carries it. *)
Definition delivered b (a : SessionAttrs) (tok : string) (o o' : Http.Response) : Prop :=
  (a_transport a = TransportCookies /\ exists ck, Http.SetCookies o' = Http.SetCookies o ++ [ck] /\
     Http.Name ck = Cookie.CookieName (cookies b) Cookie.StatefulSession /\ Http.Value ck = tok) \/
  (a_transport a = TransportBearer /\ Http.Header o' !! HeaderSessionToken = Some tok).

Lemma write_issues b a tok idle e w w' :
  write b a tok idle true e w = (w', None) -> sess w' = sess w /\ delivered b a tok (out w) (out w') /\
  (a_transport a = TransportCookies ->
     Cookie.check (cookies b) Cookie.StatefulSession Cookie.ClassSession tok = None).
Proof.
  unfold write. destruct (Z.eqb_spec (a_transport a) TransportCookies) as [Ec|Ec].
  - unfold now, respond. prog. simpl. unfold Cookie.SetSession.
    destruct (Cookie.check _ _ _ _); [done|].
    destruct (a_remember a); [destruct (_ <? 1); [done|]|]; intros [= <-];
      (split; [done|]; split; [|done]; left; split; [done|]; by eexists).
  - destruct (Z.eqb_spec (a_transport a) TransportBearer) as [Eb|]; [|done]. simpl. unfold respond.
    intros [= <-]. split; [done|]. split; [|done]. right. split; [done|]. apply lookup_insert_eq.
Qed.

Lemma Start_Ok b a c e w w1 :
  Start sha256 b a c e w = (w1, Ok tt) ->
  let n := calls w in
  exists claims secret tok h rec, CompactClaims c = Ok claims /\ rand e n = Ok secret /\
    newToken sha256 (Ok secret) (Tenant (a_subject a)) = Ok (tok, h) /\
    record b (mkRow_ (fresh e (1 + n)) h a claims (MaxLifetime (life b)) (clock e (2 + n))) = Ok rec /\
    Create (ctx e (3 + n)) (clock e (3 + n)) rec (others e (3 + n) (sess w)) = (sess w1, Ok tt) /\
    delivered b a tok (out w) (out w1) /\
    (a_transport a = TransportCookies ->
       Cookie.check (cookies b) Cookie.StatefulSession Cookie.ClassSession tok = None).
Proof.
  unfold Start. destruct (checkStartable a); [done|].
  destruct (CompactClaims c) as [claims|err']; [|done].
  unfold draw, newID, now, on_store. prog. simpl.
  destruct (rand e (calls w)) as [secret|err'] eqn:Er; [|done]. simpl.
  destruct (record b _) as [rec|err'] eqn:Ec; [|done]. simpl.
  destruct (Create _ _ _ _) as [s2 [[]|err']] eqn:Es; [|done].
  match goal with |- context [write b a ?tok ?i true e ?w0] =>
    pose proof (write_issues b a tok i e w0) as Hw; destruct (write b a tok i true e w0) as [w2 [err'|]] end; [done|].
  destruct (Hw w2 eq_refl) as (Hs & Hd & Hc). intros [= <-]. simpl in *.
  eexists claims, secret, _, _, rec. do 4 (split; [done|]). split; [by rewrite Hs|done].
Qed.

(** The row a new session leaves in the store. *)
Lemma Start_row b a c e w w1 :
  attrs_wf a -> inv (sess w) -> fair e -> Start sha256 b a c e w = (w1, Ok tt) ->
  let t0 := clock e (2 + calls w) in
  let fin := a_createdAt a + MaxLifetime (life b) in
  exists claims secret tok h rec, CompactClaims c = Ok claims /\ rand e (calls w) = Ok secret /\
    newToken sha256 (Ok secret) (Tenant (a_subject a)) = Ok (tok, h) /\
    delivered b a tok (out w) (out w1) /\
    (a_transport a = TransportCookies ->
       Cookie.check (cookies b) Cookie.StatefulSession Cookie.ClassSession tok = None) /\
    row_of (sess w1) h = Some rec /\ Unseal (sealed rec) = Ok a /\ subject rec = a_subject a /\
    lineage rec = a_lineage a /\ r_epoch rec = a_epoch a /\ appClaims rec = claims /\
    idleExpiresAt rec = time_Truncate (Z.min (t0 + IdleTimeout (life b)) fin) Microsecond /\
    absoluteExpiresAt rec = time_Truncate fin Microsecond /\ checkedAt rec = time_Truncate t0 Microsecond.
Proof.
  intros Ha Hi Hf (claims & secret & tok & h & rec & Hc & Hr & Ht & Hrec & Hcr & Hd & Hck)%Start_Ok. cbv zeta.
  apply Create_row in Hcr; [|by apply Hf].
  unfold record in Hrec. destruct (NewRecord _ _) as [x|err] eqn:En; [|done]. injection Hrec as ->.
  pose proof (NewRecord_claims _ _ _ En) as Hcl.
  apply NewRecord_Ok in En as (Hseal & Hid & Hh & Hsub & Hlin & Hep & Habs & Hidle & _ & Hchk & _). simpl in *.
  exists claims, secret, tok, h, (kept rec). do 5 (split; [done|]). split; [by rewrite <- Hh|]. simpl.
  split; [by apply Unseal_Seal|]. rewrite nonEmpty_id, Hidle, Habs, Hchk. done.
Qed.
End backend.
