(* ===== verification/StatefulProperties.v ===== *)
(** The guarantees of the stateful session backend, with the sample values their witnesses run on. *)
From S2P Require Import Prelude Errors Tenant Factor Attrs Pending Transitions Codec StoreBase.
From S2P Require Import SessionRecord SessionStore SessionStoreFacts.
From S2P Require Import VerifiedFacts SessionFacts CodecFacts.
From S2P Require Import Journey SessionStoreProperties.
From S2P Require Import Lru Revocation GoText Cookie Renewal Program Stateful StatefulFacts.
Import Sessions Session Stateful.

(** ** Sample values *)

(** An account store that gives one epoch for everybody. *)
#[local] Instance fixed_epochs : Epochs.EpochSource Z := {
  Epochs.CurrentEpoch _ _ n := Ok n;
  Epochs.EpochsChangedSince _ c _ := ([], c, None) }.

Definition order0 (s : SessionsMemory.Store) : list uuid := (map_to_list (SessionsMemory.rows s)).*1.

#[local] Instance store0 : SessionsStore SessionsMemory.Store := memory_sessions sample_String order0.

#[local] Instance laws0 : SessionsLaws SessionsMemory.Store := memory_laws sample_String order0.

(** A stand-in for SHA-256 with its length. *)
Definition digest0 (b : bytes) : bytes := take 32 (b ++ replicate 32 Byte.x00).

Definition secret0 : bytes := replicate 32 "s"%byte.

Definition Hour : duration := 60 * Minute.

Definition backend0 : Backend :=
  mkBackend (Cookie.mkPolicy true true "") (mkLifetimes Hour (24 * Hour) (10 * Minute)).

Definition answers0 : answers :=
  mkAnswers (fun _ => Ok st0) (fun _ => Ok mfa_totp) (fun _ => Ok (str_bytes "{ }")).

(** A request at instant [t] that nothing disturbs. *)
Definition env0 (t : time) : env SessionsMemory.Store Z :=
  mkEnv (fun _ => None) (fun _ => t) (fun _ => Ok secret0) (fun _ => 501) (fun _ => 3) answers0
    (fun _ s => s) (fun _ c => c).

Definition world0 : world SessionsMemory.Store :=
  mkWorld SessionsMemory.NewWithClock
    (Follower.mkFollower "epochs" (RestoreCursor 0) 0 false time_zero (Lru.newLRU 100)) (Http.mkResponse [] ∅) [] 0.

Definition start0 : time := now0 + 4 * Second.

Definition started0 : world SessionsMemory.Store * res unit :=
  Start digest0 backend0 session0 (str_bytes "{ }") (env0 start0) world0.

Definition token0 : string := bytes_str (Base64.encode secret0) +:+ ".acme".

Definition request0 : Http.Request := Http.mkRequest [] ["__Host-session=" +:+ token0] [] [].

Example started0_ok : okb started0.2 = true /\
  okb (Resume digest0 backend0 request0 acme (env0 (start0 + Minute)) started0.1).2 = true.
Proof. split; vm_compute; reflexivity. Qed.

(** ** Properties *)

(** C19: A request is authenticated only by a live session of its own tenant, on the transport sealed in
    it.  When Resume succeeds, whatever other requests do in between, the request presents one token;
    its digest is that of a row of the resolved tenant, live when it was read, whose sealed attributes
    unseal and agree with it; the session has not reached the end of its lifetime and its epoch passed
    the check.  The result is that session: its attributes and claims as stored between two checks,
    and, once a check is due, what the Authority's answer makes of them: the account is usable, at that
    epoch, a required second factor is held, and nothing changes but must-change, which is only raised,
    and the instant the claims were read. *)
Theorem resume_is_gated {S A} `{SessionsLaws S, Epochs.EpochSource A} sha256 b r tenant
    (e : env S A) (w w' : world S) x :
  inv (sess w) -> fair e -> Resume sha256 b r tenant e w = (w', Ok x) ->
  exists l h, let p := read (cookies b) r in
    let at_ := clock e (Datatypes.S (calls w)) in
    ambiguous p = false /\ parseToken sha256 (token p) = Ok (tenant, h) /\
    loads b (others e (calls w) (sess w)) tenant h l /\ alive (l_rec l) (clock e (calls w)) /\
    Tenant (a_subject (l_attrs l)) = tenant /\ a_transport (l_attrs l) = transport p /\
    at_ < l_end l /\ epoch_passed e w (l_attrs l) /\ resumes e b l h at_ x.
Proof.
  intros Hi Hf Hr. destruct (Resume_cases sha256 b r tenant e w w' _ Hi Hf Hr)
    as [(err & ? & _)|(y & l & h & [= ->] & Hx)]; [done|]. by exists l, h.
Qed.

Lemma steady_fair {S A} `{SessionsLaws S} (e : env S A) t : steady e t -> fair e.
Proof. intros Hs n s Hi. destruct (Hs n) as (_ & _ & ->). exact Hi. Qed.

Lemma env0_steady t : steady (env0 t) t.
Proof. intros n. done. Qed.

Lemma new_memory_inv : memory_inv SessionsMemory.NewWithClock.
Proof. split; [apply empty_inv|vm_compute; reflexivity]. Qed.

Lemma started0_inv : memory_inv (sess started0.1).
Proof.
  split; [|vm_compute; reflexivity]. apply (reachable_inv sample_String).
  pose proof (Start_Ok digest0 backend0 session0 (str_bytes "{ }") (env0 start0) world0 started0.1) as Hs.
  destruct Hs as (c & s & tok & h & rec & _ & _ & _ & _ & Hc & _); [vm_compute; reflexivity|].
  exists [OpCreate None rec]. eapply run_cons; [|apply run_nil].
  assert (SessionStoreFacts.exec sample_String (OpCreate None rec) SessionsMemory.NewWithClock = sess started0.1)
    as <- by exact (f_equal fst Hc).
  constructor; [done|done|vm_compute; reflexivity].
Qed.

Lemma resume_is_gated_witness :
  exists x w', Resume digest0 backend0 request0 acme (env0 (start0 + Minute)) started0.1 = (w', Ok x) /\
    h_id (r_handle x) = 501.
Proof.
  destruct (okb_pair (Resume digest0 backend0 request0 acme (env0 (start0 + Minute)) started0.1))
    as (w' & x & E); [vm_compute; reflexivity|]. exists x, w'. split; [exact E|].
  destruct (resume_is_gated digest0 backend0 request0 acme (env0 (start0 + Minute)) started0.1 w' x)
    as (l & h & Hx); [exact started0_inv|exact (steady_fair _ _ (env0_steady _))|exact E|].
  destruct Hx as (_ & Hp & Hl & _ & _ & _ & _ & _ & -> & _). cbn [h_id].
  pose proof (ld_row _ _ _ _ _ Hl) as Hr. assert (h = digest0 secret0) as ->.
  { assert (parseToken digest0 (token (read (cookies backend0) request0)) = Ok (acme, digest0 secret0)) as Hq
      by (vm_compute; reflexivity). congruence. }
  assert (id <$> row_of (sess started0.1) (digest0 secret0) = Some 501) as Hq by (vm_compute; reflexivity).
  change (others (env0 (start0 + Minute)) (calls started0.1) (sess started0.1)) with (sess started0.1) in Hr.
  rewrite Hr in Hq. simpl in Hq. congruence.
Defined.

(** A refused request leaks no credential.  When Resume, Start or Reissue fails, at whatever point,
    nothing has been added to the response. *)
Theorem refused_request_writes_nothing {S A} `{SessionsLaws S, Epochs.EpochSource A} sha256 b
    (e : env S A) (w w' : world S) err :
  inv (sess w) -> fair e ->
  (exists r tenant, Resume sha256 b r tenant e w = (w', Err err)) \/
  (exists a c, Start sha256 b a c e w = (w', Err err)) \/
  (exists cur a, Reissue sha256 b cur a e w = (w', Err err)) ->
  out w' = out w.
Proof.
  intros Hi Hf [(r & t & Hr)|[(a & c & Hs)|(cur & a & Hs)]].
  - destruct (Resume_cases sha256 b r t e w w' _ Hi Hf Hr) as [(err' & _ & Ho)|(y & l & h & ? & _)]; done.
  - by eapply Start_Err.
  - by eapply Reissue_Err.
Qed.

Lemma refused_request_writes_nothing_witness :
  out (Resume digest0 backend0 request0 zero_TenantID (env0 (start0 + Minute)) started0.1).1 = out started0.1 /\
  Http.SetCookies (out started0.1) <> [].
Proof.
  split; [|vm_compute; discriminate].
  eapply (refused_request_writes_nothing digest0 backend0 (env0 (start0 + Minute)) started0.1 _ XErrTenantMismatch);
    [exact started0_inv|exact (steady_fair _ _ (env0_steady _))|].
  left. exists request0, zero_TenantID. vm_compute. reflexivity.
Defined.

(** Other requests are runs of the store's operations that do not issue the digest [h] again. *)
Definition never_reissues {A} (str : uuid -> string) (h : bytes) (e : env SessionsMemory.Store A) : Prop :=
  forall n s, memory_inv s -> memory_inv (others e n s) /\
    exists os, run str s os (others e n s) /\ Forall (fun o => reissues h o = false) os.

Lemma never_reissues_facts {A} str order h (e : env SessionsMemory.Store A) t :
  never_reissues str h e ->
  @fair _ _ _ (memory_laws str order) e /\ @keeps_out _ _ _ (memory_laws str order) e t h.
Proof.
  intros He. split; intros n s Hi; [by apply He|]. intros Ha r Hr Ht.
  destruct (He n s Hi) as [[Hi' _] (os & Hrun & Hos)]. destruct Hi as [Hi _].
  destruct (proj2 (held_row s t h Hi)) as (r0 & H0 & Ht0).
  { eapply run_held; [done|done|done|]. apply held_row; eauto. }
  by destruct (Ha r0).
Qed.

(** C24: An ended session stays ended.  Once End has succeeded for a request that presents a token, no
    later request resumes with it and no handle on that row is live, whatever the other requests do
    before, between and after: a renewal of that very session that was under way cannot bring it
    back.  Only issuing the same digest anew could, and digests are those of fresh secrets. *)
Theorem ended_session_stays_ended {A} `{Epochs.EpochSource A} str order sha256 b r tenant tok h
    (e e2 : env SessionsMemory.Store A) (w w1 w2 : world SessionsMemory.Store) os :
  memory_inv (sess w) -> never_reissues str h e -> never_reissues str h e2 ->
  tok ∈ tokens_of (read (cookies b) r) -> parseToken sha256 tok = Ok (tenant, h) ->
  @End_ _ _ (memory_sessions str order) sha256 b r tenant e w = (w1, Ok tt) ->
  run str (sess w1) os (sess w2) -> Forall (fun o => reissues h o = false) os -> memory_inv (sess w1) ->
  memory_inv (sess w2) -> ctx e2 (calls w2) = None ->
  (forall r2 tenant2, token (read (cookies b) r2) = tok -> ambiguous (read (cookies b) r2) = false ->
     exists err, (@Resume _ _ (memory_sessions str order) _ sha256 b r2 tenant2 e2 w2).2 = Err err /\
       Is err ErrInvalidToken = true) /\
  (forall hd, h_key hd = h -> Tenant (h_subject hd) = tenant ->
     exists err, (@Live _ _ (memory_sessions str order) b hd e2 w2).2 = Err err /\
       (Is err ErrEnded = true \/ Is err HErrUnavailable = true)).
Proof.
  intros Hi He He2 Htok Hp Hend Hrun Hos Hi1 Hi2 Hc.
  destruct (never_reissues_facts str order h e tenant He) as [Hf Hk].
  destruct (never_reissues_facts str order h e2 tenant He2) as [Hf2 Hk2].
  pose proof (@End_absent _ _ _ (memory_laws str order) sha256 b r tenant tok h e w w1 Hi Hf Hk Htok Hp Hend) as Ha1.
  assert (@absent _ _ (memory_laws str order) (sess w2) tenant h) as Ha2.
  { intros x Hx Ht. destruct (proj2 (held_row (sess w1) tenant h (proj1 Hi1))) as (r0 & H0 & Ht0).
    - eapply run_held; [apply Hi1|done|done|]. apply held_row; [apply Hi2|]. by exists x.
    - by destruct (Ha1 r0). }
  pose proof (Hk2 (calls w2) (sess w2) Hi2 Ha2) as Ha3. pose proof (Hf2 (calls w2) (sess w2) Hi2) as Hi3.
  split.
  - intros r2 tenant2 Ht Hamb.
    apply (@Resume_absent _ _ _ (memory_laws str order) _ sha256 b r2 tenant2 tenant h e2 w2 Hi3 Hc Ha3); [|done].
    by rewrite Ht.
  - intros hd Hkey Hten.
    apply (@Live_absent _ _ _ (memory_laws str order) b hd e2 w2 Hi3 Hc). by rewrite Hkey, Hten.
Qed.

Lemma env0_never_reissues h t : never_reissues sample_String h (env0 t).
Proof. intros n s Hs. split; [exact Hs|]. exists []. split; [constructor|constructor]. Qed.

Definition ended0 : world SessionsMemory.Store * res unit :=
  End_ digest0 backend0 request0 acme (env0 (start0 + Minute)) started0.1.

Lemma ended_session_stays_ended_witness :
  okb started0.2 = true /\ okb ended0.2 = true /\
  exists err, (Resume digest0 backend0 request0 acme (env0 (start0 + 2 * Minute)) ended0.1).2 = Err err /\
    Is err ErrInvalidToken = true.
Proof.
  split; [vm_compute; reflexivity|]. split; [vm_compute; reflexivity|].
  assert (ended0 = (ended0.1, Ok tt)) as E by (vm_compute; reflexivity).
  assert (memory_inv (sess ended0.1)) as Hi.
  { assert (sess ended0.1 = (SessionsMemory.Revoke None (start0 + Minute) acme (digest0 secret0) (sess started0.1)).1)
      as -> by (vm_compute; reflexivity).
    exact (@Revoke_inv _ _ laws0 None (start0 + Minute) acme (digest0 secret0) _ started0_inv). }
  destruct (ended_session_stays_ended sample_String order0 digest0 backend0 request0 acme token0 (digest0 secret0)
    (env0 (start0 + Minute)) (env0 (start0 + 2 * Minute)) started0.1 ended0.1 ended0.1 []) as [Hr _].
  - exact started0_inv.
  - apply env0_never_reissues.
  - apply env0_never_reissues.
  - assert (tokens_of (read (cookies backend0) request0) = [token0]) as -> by (vm_compute; reflexivity). by left.
  - vm_compute. reflexivity.
  - exact E.
  - constructor.
  - constructor.
  - exact Hi.
  - exact Hi.
  - reflexivity.
  - apply Hr; vm_compute; reflexivity.
Defined.

(** C26: A session resumes as it was started.  When Start succeeds for a session, with secrets of 32
    bytes, the response carries a token; a later request that presents it on the sealed transport,
    within the idle window and before the next check is due, at the current epoch and undisturbed, is
    resumed with the very attributes and the compacted claims the session was started with. *)
Theorem started_session_resumes {S A} `{SessionsLaws S, Epochs.EpochSource A} sha256 b a c
    (e : env S A) (w w1 : world S) :
  session a -> inv (sess w) -> fair e ->
  (forall n secret, rand e n = Ok secret -> length secret = 32%nat) ->
  0 < IdleTimeout (life b) <= two63 - Second ->
  Start sha256 b a c e w = (w1, Ok tt) ->
  let t0 := clock e (2 + calls w) in
  exists tok claims, CompactClaims c = Ok claims /\ delivered b a tok (out w) (out w1) /\
    forall r (e2 : env S A) (w2 : world S) t,
      sess w2 = sess w1 -> inv (sess w2) -> steady e2 t -> t0 <= t -> 0 <= t ->
      let p := read (cookies b) r in
      token p = tok -> transport p = a_transport a -> ambiguous p = false ->
      t < time_Truncate (Z.min (t0 + IdleTimeout (life b)) (a_createdAt a + MaxLifetime (life b))) Microsecond ->
      t - time_Truncate t0 Microsecond < RecheckEvery (life b) -> epoch_passed e2 w2 a ->
      exists w' x, Resume sha256 b r (Tenant (a_subject a)) e2 w2 = (w', Ok x) /\
        r_attrs x = a /\ r_claims x = claims.
Proof.
  intros Ha%session_wf Hi Hf Hrand Hit Hs t0.
  destruct (Start_row sha256 b a c e w w1 Ha Hi Hf Hs) as
    (claims & secret & tok & h & rec & Hc & Hr & Ht & Hd & Hck & Hrow & Hun & Hsub & Hlin & Hep & Hcl & Hidle & Habs & Hchk).
  fold t0 in Hidle, Hchk. exists tok, claims. split; [done|]. split; [done|].
  intros r e2 w2 t Hw2 Hi2 Hst Ht0 Hpos p Htok Htr Hamb Hlt Hdue Hepoch.
  destruct (parse_newToken sha256 secret (Tenant (a_subject a)) tok h (Hrand _ _ Hr) (proj1 (proj1 (aw_subject a Ha))) Ht)
    as [Hparse _].
  pose proof (time_Truncate_le (Z.min (t0 + IdleTimeout (life b)) (a_createdAt a + MaxLifetime (life b))) Microsecond) as Hle.
  pose proof (time_Truncate_mono (Z.min (t0 + IdleTimeout (life b)) (a_createdAt a + MaxLifetime (life b)))
    (a_createdAt a + MaxLifetime (life b)) Microsecond (Z.le_min_r _ _)) as Hmono.
  pose proof (time_Truncate_le t Microsecond) as Hnow. pose proof (time_Truncate_le t0 Microsecond) as Hnow0.
  destruct (Resume_live sha256 b r (Tenant (a_subject a)) h rec a t e2 w2) as [w' Hx]; try done.
  - fold p. by rewrite Htok.
  - by rewrite Hw2.
  - unfold Rec_Tenant. by rewrite Hsub.
  - unfold alive, store_now. lia.
  - lia.
  - lia.
  - lia.
  - rewrite Hchk. unfold time_Sub, two63. lia.
  - fold p. by rewrite Htok.
  - lia.
  - rewrite Hcl in Hx. by exists w', (mkResumed a claims (mkHandle (a_subject a) (a_lineage a) (id rec) h)).
Qed.

Lemma started_session_resumes_witness :
  exists w' x, Resume digest0 backend0 request0 acme (env0 (start0 + Minute)) started0.1 = (w', Ok x) /\
    r_attrs x = session0 /\ r_claims x = str_bytes "{}".
Proof.
  assert (started0 = (started0.1, Ok tt)) as E by (vm_compute; reflexivity).
  destruct (started_session_resumes digest0 backend0 session0 (str_bytes "{ }") (env0 start0) world0 started0.1)
    as (tok & claims & Hc & Hd & Hres).
  - exact session0_session.
  - exact new_memory_inv.
  - exact (steady_fair _ _ (env0_steady _)).
  - intros n secret [= <-]. reflexivity.
  - vm_compute. split; [reflexivity|discriminate].
  - exact E.
  - assert (claims = str_bytes "{}") as -> by (vm_compute in Hc; injection Hc as <-; reflexivity).
    assert (tok = token0) as ->.
    { destruct Hd as [(_ & ck & Hs & _ & <-)|[Hb _]]; [|vm_compute in Hb; discriminate Hb].
      assert (map Http.Value (Http.SetCookies (out started0.1)) = [token0]) as Hv by (vm_compute; reflexivity).
      rewrite Hs in Hv. simpl in Hv. congruence. }
    apply (Hres request0 (env0 (start0 + Minute)) started0.1 (start0 + Minute)).
    + reflexivity.
    + exact started0_inv.
    + exact (env0_steady _).
    + vm_compute. discriminate.
    + vm_compute. discriminate.
    + vm_compute. reflexivity.
    + vm_compute. reflexivity.
    + vm_compute. reflexivity.
    + vm_compute. reflexivity.
    + vm_compute. reflexivity.
    + eexists _, _. vm_compute. reflexivity.
Defined.

(** ** What renewals keep, the canonical form of application claims, and the cookies read back. *)

From S2P Require Import Prelude Errors Tenant Factor Attrs Pending Transitions.
From S2P Require Import VerifiedFacts SessionFacts Journey.
From S2P Require Import GoText Json Cookie Renewal StatefulFacts.
From S2P Require Import CeremonyKind.
Import Session.

(** ** Claims *)

(** Nothing is trimmed from a text between braces. *)
Lemma wide_not_brace : Forall (fun w => head w <> Some "{"%byte /\ w <> []) wide_spaces.
Proof. repeat constructor; done. Qed.

Lemma wide_mirror_not_brace :
  Forall (fun w => head w <> Some "}"%byte /\ w <> []) (map (@rev byte) wide_spaces).
Proof. repeat constructor; done. Qed.

Lemma TrimSpace_object mid : TrimSpace ("{"%byte :: mid ++ ["}"%byte]) = "{"%byte :: mid ++ ["}"%byte].
Proof.
  unfold TrimSpace. rewrite trim_front_none; [|done|apply wide_not_brace].
  change ("{"%byte :: mid ++ ["}"%byte]) with (("{"%byte :: mid) ++ ["}"%byte]).
  generalize ("{"%byte :: mid). intros l. rewrite (rev_app_distr l).
  change (rev ["}"%byte] ++ rev l) with ("}"%byte :: rev l).
  rewrite trim_front_none; [|done|apply wide_mirror_not_brace].
  simpl rev. by rewrite rev_involutive.
Qed.

(** Claims have one form.  What CompactClaims accepts is a JSON object of at most
    MaxAppClaimsBytes, from its opening to its closing brace, and compacting it again, as Start does
    with the claims an admission compacted, gives it back unchanged. *)
Theorem compact_claims_are_canonical raw c :
  CompactClaims raw = Ok c ->
  CompactClaims c = Ok c /\ Json.Valid c = true /\ Z.of_nat (length c) <= MaxAppClaimsBytes /\
  exists mid, c = "{"%byte :: mid ++ ["}"%byte].
Proof.
  unfold CompactClaims at 1. destruct (TrimSpace raw) as [|x t] eqn:Et; [done|].
  destruct (_ || _) eqn:Eg; [done|]. bools. subst x.
  destruct (Json.Compact _) as [buf|] eqn:Ec; [|done].
  destruct (MaxAppClaimsBytes <? _) eqn:El; [done|]. intros [= <-].
  destruct (Json.Compact_object _ _ Ec) as [mid ->].
  destruct (Json.Compact_idempotent _ _ Ec) as [Hv Hc]. repeat split; [|done|lia|by eexists].
  unfold CompactClaims. rewrite TrimSpace_object. rewrite Hv, Hc, El. by rewrite bool_decide_eq_true_2.
Qed.

Lemma compact_claims_are_canonical_witness :
  exists c, CompactClaims (str_bytes " { } ") = Ok c /\ CompactClaims c = Ok c.
Proof.
  exists (str_bytes "{}"). assert (CompactClaims (str_bytes " { } ") = Ok (str_bytes "{}")) as E
    by (vm_compute; reflexivity).
  split; [exact E|]. apply (compact_claims_are_canonical _ _ E).
Defined.

(** ** Renewals *)

(** A run of successful renewals of one session, each with the answers and the instant of its own. *)
Inductive renewals (l : Lifetimes) (x : SessionAttrs * bytes)
  : list (answers * time) -> SessionAttrs * bytes -> Prop :=
  | renewals_nil : renewals l x [] x
  | renewals_snoc qs a c q t evs a' c' :
      renewals l x qs (a, c) -> Renew_ l q t a c = (evs, Ok (a', c')) -> renewals l x (qs ++ [(q, t)]) (a', c').

Lemma renewalClaims_cases l q a cur t :
  let '(o, cl, _) := renewalClaims l q a cur t in
  (o = ClaimsRefreshed /\ exists raw, ans_ClaimsFor q (a_subject a) = Ok raw /\ CompactClaims raw = Ok cl) \/
  (o = ClaimsKeptStale /\ cl = cur /\ time_Sub t (a_claimsFetchedAt a) <= RecheckEvery l) \/
  (o <> ClaimsRefreshed /\ o <> ClaimsKeptStale).
Proof.
  unfold renewalClaims. cbv zeta. destruct (Z.leb_spec (time_Sub t (a_claimsFetchedAt a)) (RecheckEvery l));
    destruct (ans_ClaimsFor q (a_subject a)) as [raw|err]; try (destruct (CompactClaims raw) as [c|err] eqn:E);
    repeat case_match; simplify_eq; eauto 6; right; solve [by left|by right].
Qed.

(** The claims of a renewed session: read now, or kept because they are recent enough. *)
Lemma renewal_claims l q t a cur evs a' c :
  Renew_ l q t a cur = (evs, Ok (a', c)) ->
  (exists raw, ans_ClaimsFor q (a_subject a) = Ok raw /\ CompactClaims raw = Ok c /\ a_claimsFetchedAt a' = t) \/
  (c = cur /\ a_claimsFetchedAt a' = a_claimsFetchedAt a /\ time_Sub t (a_claimsFetchedAt a) <= RecheckEvery l).
Proof.
  unfold Renew_. destruct (SessionAttrs_IsZero a); [done|].
  destruct (ans_AccountState q _) as [st|]; [|done]. destruct (ans_MFADecision q _) as [mfa|]; [|done].
  pose proof (renewalClaims_cases l q a cur t) as Hcases.
  destruct (renewalClaims l q a cur t) as [[o cl] cause].
  destruct (Renew a st mfa o t) as [n|] eqn:E; [|by repeat case_match]. intros [= _ <- <-].
  apply Renew_Ok in E as (_ & _ & _ & Ho & ->).
  destruct Hcases as [[-> (raw & ? & ?)]|[(-> & -> & ?)|[? ?]]]; [left; by exists raw|by right|tauto].
Qed.

(** The Authority's answers let the session go on. *)
Definition answer_accepted (a : SessionAttrs) (q : answers) : Prop :=
  exists st mfa, ans_AccountState q (a_subject a) = Ok st /\ ans_MFADecision q (a_subject a) = Ok mfa /\
    Usable st = true /\ epoch st = a_epoch a /\ (Required mfa = true -> multiFactor (a_factors a) = true).

(** Renewals keep a session what it is and its claims recent.  Over any run of successful renewals
    the session keeps its identity, factors, freshness, epoch and lifetime, and must-change is never
    lowered; at each of them the account was usable, at the session's epoch, and a required second
    factor was held; its claims are the first ones or the compacted answer of the source at one of the
    renewals, whose instant is recorded; and at the last renewal they were at most RecheckEvery old,
    so that an unreachable source is tolerated no longer than that. *)
Theorem renewed_claims_are_recent l a0 c0 qs a c :
  0 < RecheckEvery l -> renewals l (a0, c0) qs (a, c) ->
  (exists t m, a = set_mustChange m (set_claimsFetchedAt t a0) /\ (a_mustChange a0 = true -> m = true)) /\
  Forall (fun qt => answer_accepted a0 qt.1) qs /\
  ((c = c0 /\ a_claimsFetchedAt a = a_claimsFetchedAt a0) \/
   exists q t raw, (q, t) ∈ qs /\ ans_ClaimsFor q (a_subject a0) = Ok raw /\ CompactClaims raw = Ok c /\
     a_claimsFetchedAt a = t) /\
  (forall q t, last qs = Some (q, t) -> time_Sub t (a_claimsFetchedAt a) <= RecheckEvery l).
Proof.
  intros Hl Hr. remember (a, c) as y eqn:Ey. remember (a0, c0) as x eqn:Ex.
  revert a c Ey. induction Hr as [|qs a1 c1 q t evs a2 c2 Hr IH Hn]; intros a c Ey; simplify_eq.
  { split; [|by split; [|split; [left|]]]. exists (a_claimsFetchedAt a), (a_mustChange a). by destruct a. }
  destruct (IH a1 c1 eq_refl) as ((t1 & m1 & -> & Hm) & Hacc & Hcl & _). clear IH.
  pose proof (renewal_claims _ _ _ _ _ _ _ _ Hn) as Hc.
  apply Renew_success in Hn as (st & mfa & E1 & E2 & Hu & He & Hmf & [t2 ->]). simpl in *.
  split; [|split; [|split]].
  - exists t2, (m1 || mustChange st). split; [by destruct a0|]. intros Hx. by rewrite Hm.
  - apply Forall_app. split; [done|]. constructor; [|done]. by exists st, mfa.
  - destruct Hc as [(raw & ? & ? & ->)|(-> & -> & _)].
    + right. exists q, t, raw. rewrite elem_of_app. split; [by right; left|done].
    + destruct Hcl as [?|(q' & t' & raw & ? & ?)]; [by left|]. right. exists q', t', raw.
      rewrite elem_of_app. auto.
  - intros q' t'. rewrite last_snoc. intros [= <- <-]. destruct Hc as [(raw & _ & _ & ->)|(_ & -> & Hc)].
    + unfold time_Sub, two63. lia.
    + exact Hc.
Qed.

Definition down : answers := mkAnswers (fun _ => Ok st0) (fun _ => Ok mfa_totp) (fun _ => Err (New "timeout")).

Definition life0 : Lifetimes := mkLifetimes (60 * Minute) (1440 * Minute) (10 * Minute).

Lemma renewed_claims_are_recent_witness :
  exists a, renewals life0 (session0, str_bytes "{}") [(down, now0 + 5 * Minute)] (a, str_bytes "{}") /\
    time_Sub (now0 + 5 * Minute) (a_claimsFetchedAt a) <= 10 * Minute.
Proof.
  eexists. match goal with |- ?P /\ _ => assert P as Hr end.
  { eapply (renewals_snoc life0 _ []); [constructor|]. vm_compute. reflexivity. }
  split; [exact Hr|].
  apply (renewed_claims_are_recent life0 _ _ _ _ _ ltac:(vm_compute; reflexivity) Hr) with (q := down).
  reflexivity.
Defined.

(** ** Cookies are read back as they were written, one name at a time. *)

Import Http Cookie.

Lemma drop_while_id f (b : bytes) : (forall c, head b = Some c -> f c = false) -> drop_while f b = b.
Proof. destruct b as [|c b]; intros H; [done|]. simpl. by rewrite H. Qed.

Lemma TrimString_id b : Forall (fun c => header_space c = false) b -> TrimString b = b.
Proof.
  intros H. unfold TrimString. rewrite (drop_while_id _ b).
  - rewrite drop_while_id; [apply rev_involutive|]. intros c Hc. rewrite Forall_forall in H. apply H.
    apply list_elem_of_In, in_rev, list_elem_of_In, head_Some_elem_of, Hc.
  - intros c Hc. rewrite Forall_forall in H. by apply H, head_Some_elem_of.
Qed.

Lemma token_char_facts c : token_char c = true ->
  header_space c = false /\ c <> "="%byte /\ c <> ";"%byte.
Proof. by destruct c. Qed.

Lemma value_char_facts c : value_char c = true ->
  header_space c = false /\ c <> ";"%byte /\ c <> Byte.x22 /\ validCookieValueByte c = true.
Proof. by destruct c. Qed.

Lemma CookieName_token p n : Class_of n <> 0 -> isToken (str_bytes (CookieName p n)) = true.
Proof.
  unfold Class_of, CookieName, Class_of, base. destruct p as [v s d]. intros H. cbn [secure domain].
  destruct (n =? AccessToken), (n =? RefreshToken), (n =? StatefulSession), (n =? Flow), (n =? Bind);
    cbn in H; try done; destruct s; try reflexivity; by destruct (bool_decide (d = "")).
Qed.

Lemma CookieName_inj p n m :
  Class_of n <> 0 -> Class_of m <> 0 -> CookieName p n = CookieName p m -> n = m.
Proof.
  assert (forall k, Class_of k <> 0 -> k ∈ Names) as Hn.
  { intros k. unfold Class_of, Names. intros H.
    destruct (Z.eqb_spec k AccessToken), (Z.eqb_spec k RefreshToken), (Z.eqb_spec k StatefulSession),
      (Z.eqb_spec k Flow), (Z.eqb_spec k Bind); subst; try done; set_solver. }
  intros Hn1 Hm1. apply Hn in Hn1, Hm1. unfold Names in *. destruct p as [v s d].
  rewrite !elem_of_cons in Hn1, Hm1.
  destruct Hn1 as [->|[->|[->|[->|[->|?%not_elem_of_nil]]]]]; [..|done];
    destruct Hm1 as [->|[->|[->|[->|[->|?%not_elem_of_nil]]]]]; try done;
    unfold CookieName; cbn; destruct s; try done; by destruct (bool_decide (d = "")).
Qed.

(** One cookie on a header line. *)
Definition pair_line (name v : string) : string := name +:+ "=" +:+ v.

Lemma validValue_chars v : validValue v = true -> v <> "" /\ Forall (fun c => value_char c = true) (str_bytes v).
Proof.
  unfold validValue. destruct (_ || _) eqn:E; [done|]. bools. intros Hv. split; [done|].
  by apply Forall_forall; intros c Hc%list_elem_of_In; apply (proj1 (forallb_forall _ _) Hv).
Qed.

Lemma unquote_id b : Forall (fun c => value_char c = true) b -> unquote b = b.
Proof.
  intros H. destruct b as [|c [|d b]]; [done|done|]. unfold unquote.
  apply Forall_cons in H as [Hc _]. apply value_char_facts in Hc as (_ & _ & Hq & _).
  destruct (rev _) as [|z ?]; [done|]. by rewrite bool_decide_eq_false_2.
Qed.

Lemma read_pair name v :
  isToken (str_bytes name) = true -> validValue v = true -> read_line (pair_line name v) = [(name, v)].
Proof.
  intros Hn [Hne Hv]%validValue_chars. unfold isToken in Hn. bools.
  assert (Forall (fun c => token_char c = true) (str_bytes name)) as Ht
    by (by apply Forall_forall; intros c Hc%list_elem_of_In; apply (proj1 (forallb_forall _ (str_bytes name)))).
  unfold read_line, pair_line. rewrite !str_bytes_app. change (str_bytes "=") with ["="%byte]. simpl app.
  set (nb := str_bytes name) in *. set (vb := str_bytes v) in *. set (l := nb ++ "="%byte :: vb).
  assert (Forall (fun c => header_space c = false /\ c <> ";"%byte) l) as Hl.
  { apply Forall_app. split; [|constructor; [done|]]; (eapply Forall_impl; [eassumption|]); simpl;
      intros c Hc; [apply token_char_facts in Hc|apply value_char_facts in Hc]; tauto. }
  assert (TrimString l = l) as Etrim by (apply TrimString_id; eapply Forall_impl; [exact Hl|by intros c [? _]]).
  rewrite Etrim. destruct l as [|c l'] eqn:El; [by destruct nb|]. rewrite <- El in *. clear c l' El.
  assert (Cut ";"%byte l = (l, [], false)) as Ecut.
  { apply Cut_absent. intros Hin. rewrite Forall_forall in Hl. by apply Hl in Hin as [_ ?]. }
  assert (exists n, parts (length l) l = l :: parts n []) as [n ->].
  { destruct l as [|c l'] eqn:El; [by destruct nb|]. simpl length. cbn [parts]. rewrite Ecut. by eexists. }
  assert (parts n [] = []) as -> by (by destruct n). simpl omap. unfold read_part. rewrite Etrim.
  assert (Cut "="%byte l = (nb, vb, true)) as Eq.
  { apply Cut_found. intros Hin. rewrite Forall_forall in Ht. by apply Ht, token_char_facts in Hin as (_ & ? & _). }
  destruct l as [|c l'] eqn:El; [by destruct nb|]. rewrite Eq.
  rewrite TrimString_id by (eapply Forall_impl; [exact Ht|]; intros x Hx; by apply token_char_facts in Hx as [? _]).
  assert (isToken nb = true) as -> by (unfold isToken; by rewrite bool_decide_eq_false_2).
  unfold parseCookieValue. rewrite unquote_id by done.
  assert (forallb validCookieValueByte vb = true) as ->.
  { apply forallb_forall. intros x Hx%list_elem_of_In. rewrite Forall_forall in Hv.
    by apply Hv, value_char_facts in Hx as (_ & _ & _ & ?). }
  simpl. unfold nb, vb. by rewrite !bytes_str_bytes.
Qed.

(** Cookies are read back as they were written, and a tossed cookie is refused.  When a client
    sends back library cookies, of whatever names, each with a value a writer accepts, Read of a
    declared name gives its value when the name is there exactly once, and nothing when it is absent
    or there more than once; no other cookie is ever taken for it. *)
Theorem cookies_read_back p auth rts ua (cs : list (Z * string)) n :
  valid p = true -> Class_of n <> 0 ->
  Forall (fun c => Class_of c.1 <> 0 /\ validValue c.2 = true) cs ->
  Read p (mkRequest auth (map (fun c => pair_line (CookieName p c.1) c.2) cs) rts ua) n =
  match List.filter (fun c => c.1 =? n) cs with
  | [c] => (c.2, true)
  | _ => ("", false)
  end.
Proof.
  intros Hp Hn Hcs. unfold Read. rewrite Hp. simpl negb.
  pose proof (CookieName_token p n Hn) as Htok.
  rewrite bool_decide_eq_false_2 by (intros E; by rewrite E in Htok). cbn [orb].
  assert (Cookies (mkRequest auth (map (fun c => pair_line (CookieName p c.1) c.2) cs) rts ua)
          = map (fun c => (CookieName p c.1, c.2)) cs) as ->.
  { unfold Cookies. cbn [CookieHeader]. rewrite map_map.
    induction Hcs as [|c cs [Hc Hv] _ IH]; [done|]. cbn [map concat].
    rewrite read_pair, IH by (done || by apply CookieName_token). done. }
  assert (List.filter (fun c => bool_decide (c.1 = CookieName p n)) (map (fun c => (CookieName p c.1, c.2)) cs)
          = map (fun c => (CookieName p c.1, c.2)) (List.filter (fun c => c.1 =? n) cs)) as ->.
  { induction Hcs as [|c cs [Hc Hv] _ IH]; [done|]. cbn [map List.filter fst].
    destruct (Z.eqb_spec c.1 n) as [<-|Hne].
    - rewrite bool_decide_eq_true_2 by done. cbn [map]. by f_equal.
    - rewrite bool_decide_eq_false_2; [done|]. intros E. by apply Hne, (CookieName_inj p). }
  destruct (List.filter (fun c => c.1 =? n) cs) as [|c [|c2 l]] eqn:Ef; [done| |done]. cbn [map snd].
  assert (c.2 <> "") as Hc.
  { assert (c ∈ cs) as Hin by (apply list_elem_of_In; eapply proj1, (filter_In (fun c => c.1 =? n)); rewrite Ef; by left).
    rewrite Forall_forall in Hcs. apply Hcs in Hin as [_ Hv]. by apply validValue_chars in Hv as [? _]. }
  by rewrite bool_decide_eq_false_2.
Qed.

Lemma cookies_read_back_witness :
  let p := mkPolicy true true "" in
  Read p (mkRequest [] [pair_line "__Host-session" "abc"; pair_line "__Host-egauth_flow" "x"] [] []) StatefulSession
  = ("abc", true) /\
  Read p (mkRequest [] [pair_line "__Host-session" "abc"; pair_line "__Host-session" "evil"] [] []) StatefulSession
  = ("", false).
Proof.
  split.
  - refine (cookies_read_back (mkPolicy true true "") [] [] [] [(StatefulSession, "abc"); (Flow, "x")] StatefulSession _ _ _);
      [reflexivity|done|repeat constructor; done].
  - refine (cookies_read_back (mkPolicy true true "") [] [] [] [(StatefulSession, "abc"); (StatefulSession, "evil")]
      StatefulSession _ _ _); [reflexivity|done|repeat constructor; done].
Defined.
