(* ===== verification/JsonText.v ===== *)
(** encoding/json as the access tokens use it: the encoder without HTML escaping, and the decoder
    with unknown fields refused.

    [quote] writes a string and [unquote] reads one; a sequence that is not UTF-8 becomes U+FFFD both
    ways.  The decoder runs on a value the scanner has accepted: [take_value] cuts the next value off a
    text with the scanner itself, and an object is read into a struct one member at a time. *)
From S2P Require Import Prelude Errors IdentityRecord Json.
Import Json.

Module JsonText.

(** ** UTF-8 *)

(** The length of the well-formed sequence at the front of a text, 0 when there is none. *)
Definition rune_len (b : bytes) : nat :=
  match b with
  | [] => 0
  | b0 :: r0 =>
      let c := Z_of_byte b0 in
      if c <? 128 then 1
      else match r0 with
      | [] => 0
      | b1 :: r1 =>
          if (194 <=? c) && (c <=? 223) then if Identity.cont 128 191 b1 then 2 else 0
          else match r1 with
          | [] => 0
          | b2 :: r2 =>
              if (224 <=? c) && (c <=? 239)
              then let '(lo, hi) := Identity.second_of_three c in
                   if Identity.cont lo hi b1 && Identity.cont 128 191 b2 then 3 else 0
              else match r2 with
              | [] => 0
              | b3 :: _ =>
                  if (240 <=? c) && (c <=? 244)
                  then let '(lo, hi) := Identity.second_of_four c in
                       if Identity.cont lo hi b1 && Identity.cont 128 191 b2 && Identity.cont 128 191 b3
                       then 4 else 0
                  else 0
              end
          end
      end
  end.

(** utf8.EncodeRune of a rune up to U+10FFFF that is no surrogate. *)
Definition encode_rune (r : Z) : bytes :=
  map byte_of_Z
    (if r <? 128 then [r]
     else if r <? 2048 then [192 + r / 64; 128 + r mod 64]
     else if r <? 65536 then [224 + r / 4096; 128 + r / 64 mod 64; 128 + r mod 64]
     else [240 + r / 262144; 128 + r / 4096 mod 64; 128 + r / 64 mod 64; 128 + r mod 64]).

Definition rune_error : bytes := [Byte.xef; Byte.xbf; Byte.xbd].

(** ** Writing *)
Definition hex (z : Z) : byte := byte_of_Z (if z <? 10 then 48 + z else 87 + z).

Definition backslash : byte := "\"%byte.

(** The escape of an ASCII character outside the safe set. *)
Definition escape (c : byte) : bytes :=
  let z := Z_of_byte c in
  if (z =? 34) || (z =? 92) then [backslash; c]
  else if z =? 8 then [backslash; "b"%byte]
  else if z =? 12 then [backslash; "f"%byte]
  else if z =? 10 then [backslash; "n"%byte]
  else if z =? 13 then [backslash; "r"%byte]
  else if z =? 9 then [backslash; "t"%byte]
  else [backslash; "u"%byte; "0"%byte; "0"%byte; hex (z / 16); hex (z mod 16)].

Definition safe (c : byte) : bool :=
  let z := Z_of_byte c in (32 <=? z) && (z <? 128) && negb (z =? 34) && negb (z =? 92).

(** U+2028 and U+2029 *)
Definition line_separator (r : bytes) : option byte :=
  if bool_decide (r = [Byte.xe2; Byte.x80; Byte.xa8]) then Some "8"%byte
  else if bool_decide (r = [Byte.xe2; Byte.x80; Byte.xa9]) then Some "9"%byte else None.

(** [n] bounds the number of runes, at most the number of bytes. *)
Fixpoint quoted (n : nat) (b : bytes) : bytes :=
  match n, b with
  | S n', c :: b' =>
      if Z_of_byte c <? 128 then (if safe c then [c] else escape c) ++ quoted n' b'
      else match rune_len b with
      | O => str_bytes "\ufffd" ++ quoted n' b'
      | k => match line_separator (take k b) with
             | Some d => str_bytes "\u202" ++ [d]
             | None => take k b
             end ++ quoted n' (drop k b)
      end
  | _, _ => []
  end.

Definition quote_ (s : string) : bytes :=
  let b := str_bytes s in quote :: quoted (length b) b ++ [quote].

(** strconv.AppendInt in base 10, of an int64. *)
Fixpoint digits (n : nat) (z : Z) (acc : bytes) : bytes :=
  match n with
  | O => acc
  | S n' =>
      let acc := byte_of_Z (48 + z mod 10) :: acc in
      if z <? 10 then acc else digits n' (z / 10) acc
  end.

Definition AppendInt (z : Z) : bytes :=
  if z <? 0 then "-"%byte :: digits 20 (- z) [] else digits 20 z [].

Fixpoint join (sep : bytes) (l : list bytes) : bytes :=
  match l with
  | [] => []
  | [x] => x
  | x :: l' => x ++ sep ++ join sep l'
  end.

Definition array (l : list bytes) : bytes := ["["%byte] ++ join [","%byte] l ++ ["]"%byte].

(** A []string; nil is null. *)
Definition strings (l : list string) : bytes :=
  match l with [] => str_bytes "null" | _ => array (map quote_ l) end.

Definition member (nv : string * bytes) : bytes := quote_ nv.1 ++ [":"%byte] ++ nv.2.

Definition object (ms : list (string * bytes)) : bytes :=
  ["{"%byte] ++ join [","%byte] (map member ms) ++ ["}"%byte].

(** ** Reading *)
Fixpoint skip_space (b : bytes) : bytes :=
  match b with
  | c :: b' => if isSpace c then skip_space b' else b
  | [] => []
  end.

(** The value at the front of a text, and what follows it. *)
Fixpoint take_value (x : config) (b : bytes) : option (bytes * bytes) :=
  match b with
  | [] => if eof x then Some ([], []) else None
  | c :: b' =>
      if at_top x then Some ([], b)
      else
        let '(x', op) := step x c in
        match op with
        | Error => None
        | End_ => Some ([], b)
        | Continue | SkipSpace => '(v, rest) ← take_value x' b'; Some (c :: v, rest)
        end
  end.

Definition hex_value (c : byte) : option Z :=
  let z := Z_of_byte c in
  if (48 <=? z) && (z <=? 57) then Some (z - 48)
  else if (97 <=? z) && (z <=? 102) then Some (z - 87)
  else if (65 <=? z) && (z <=? 70) then Some (z - 55)
  else None.

(** [getu4]: the four digits after a u, and what follows. *)
Definition getu4 (b : bytes) : option (Z * bytes) :=
  match b with
  | c1 :: c2 :: c3 :: c4 :: b' =>
      h1 ← hex_value c1; h2 ← hex_value c2; h3 ← hex_value c3; h4 ← hex_value c4;
      Some (h1 * 4096 + h2 * 256 + h3 * 16 + h4, b')
  | _ => None
  end.

(** utf16.IsSurrogate and utf16.DecodeRune *)
Definition surrogate (r : Z) : bool := (55296 <=? r) && (r <=? 57343).

Definition high_surrogate (r : Z) : bool := (55296 <=? r) && (r <=? 56319).

Definition low_surrogate (r : Z) : bool := (56320 <=? r) && (r <=? 57343).

(** The rune a \u escape begins: a pair of surrogates is one rune, a lone one is U+FFFD. *)
Definition unescape_u (b : bytes) : option (bytes * bytes) :=
  '(r, b) ← getu4 b;
  if negb (surrogate r) then Some (encode_rune r, b)
  else match b with
  | c :: d :: b' =>
      if bool_decide (c = backslash) && bool_decide (d = "u"%byte)
      then match getu4 b' with
           | Some (r', b'') =>
               if high_surrogate r && low_surrogate r'
               then Some (encode_rune ((r - 55296) * 1024 + (r' - 56320) + 65536), b'')
               else Some (rune_error, b)
           | None => Some (rune_error, b)
           end
      else Some (rune_error, b)
  | _ => Some (rune_error, b)
  end.

Definition unescape (c : byte) : option byte :=
  if bool_decide (c = "b"%byte) then Some Byte.x08
  else if bool_decide (c = "f"%byte) then Some Byte.x0c
  else if bool_decide (c = "n"%byte) then Some Byte.x0a
  else if bool_decide (c = "r"%byte) then Some Byte.x0d
  else if bool_decide (c = "t"%byte) then Some Byte.x09
  else if bool_decide (c ∈ ["/"; "'"; "\"]%byte ++ [quote]) then Some c
  else None.

(** The text between the quotes of a string literal. *)
Fixpoint unquoted (n : nat) (b : bytes) : option bytes :=
  match n, b with
  | _, [] => Some []
  | O, _ => None
  | S n', c :: b' =>
      if bool_decide (c = backslash)
      then match b' with
           | [] => None
           | d :: b'' =>
               if bool_decide (d = "u"%byte)
               then '(r, rest) ← unescape_u b''; app r <$> unquoted n' rest
               else r ← unescape d; cons r <$> unquoted n' b''
           end
      else if bool_decide (c = quote) || (Z_of_byte c <? 32) then None
      else if Z_of_byte c <? 128 then cons c <$> unquoted n' b'
      else match rune_len b with
      | O => app rune_error <$> unquoted n' b'
      | k => app (take k b) <$> unquoted n' (drop k b)
      end
  end.

(** A literal with its quotes. *)
Definition unquote (lit : bytes) : option bytes :=
  match lit with
  | q :: b =>
      match rev b with
      | q' :: b' =>
          if bool_decide (q = quote) && bool_decide (q' = quote)
          then unquoted (length b) (rev b') else None
      | [] => None
      end
  | [] => None
  end.

(** strconv.ParseInt in base 10, for an int64. *)
Fixpoint parse_digits (b : bytes) (acc : Z) : option Z :=
  match b with
  | [] => Some acc
  | c :: b' => if digit c then parse_digits b' (acc * 10 + (Z_of_byte c - 48)) else None
  end.

Definition ParseInt (b : bytes) : option Z :=
  match b with
  | [] => None
  | c :: b' =>
      z ← (if bool_decide (c = "-"%byte)
           then match b' with [] => None | _ => Z.opp <$> parse_digits b' 0 end
           else parse_digits b 0);
      if (- two63 <=? z) && (z <? two63) then Some z else None
  end.

(** ** Values into fields; a null leaves a string or a number as it was *)
Definition is_null (v : bytes) : bool :=
  match v with c :: _ => bool_decide (c = "n"%byte) | [] => false end.

Definition into_string (v : bytes) (cur : string) : option string :=
  if is_null v then Some cur else bytes_str <$> unquote v.

Definition into_int (v : bytes) (cur : Z) : option Z :=
  if is_null v then Some cur
  else match v with
  | c :: _ => if digit c || bool_decide (c = "-"%byte) then ParseInt v else None
  | [] => None
  end.

(** A value must be followed by [,] or by the closing character. *)
Fixpoint elements (n : nat) (b : bytes) : option (list bytes) :=
  match n with
  | O => None
  | S n' =>
      '(v, b) ← take_value start (skip_space b);
      match skip_space b with
      | c :: b' =>
          if bool_decide (c = ","%byte) then cons v <$> elements n' b'
          else if bool_decide (c = "]"%byte) then Some [v] else None
      | [] => None
      end
  end.

(** Whether a value goes into a []string; the strings are not kept. *)
Definition into_strings (v : bytes) : option unit :=
  if is_null v then Some tt
  else match v with
  | c :: b =>
      if negb (bool_decide (c = "["%byte)) then None
      else match skip_space b with
      | d :: _ =>
          if bool_decide (d = "]"%byte) then Some tt
          else vs ← elements (length b) b;
               _ ← mapM (fun v => into_string v "") vs; Some tt
      | [] => None
      end
  | [] => None
  end.

(** ** Objects into structs *)
Fixpoint members (n : nat) (b : bytes) : option (list (bytes * bytes)) :=
  match n with
  | O => None
  | S n' =>
      '(k, b) ← take_value start (skip_space b);
      match skip_space b with
      | c :: b =>
          if negb (bool_decide (c = ":"%byte)) then None
          else
            '(v, b) ← take_value start (skip_space b);
            match skip_space b with
            | c :: b' =>
                if bool_decide (c = ","%byte) then cons (k, v) <$> members n' b'
                else if bool_decide (c = "}"%byte) then Some [(k, v)] else None
            | [] => None
            end
      | [] => None
      end
  end.

Definition object_members (v : bytes) : option (list (bytes * bytes)) :=
  match v with
  | c :: b =>
      if negb (bool_decide (c = "{"%byte)) then None
      else match skip_space b with
      | d :: _ => if bool_decide (d = "}"%byte) then Some [] else members (length b) b
      | [] => None
      end
  | [] => None
  end.

(** Names compare exactly first, then up to case; U+017F and U+212A fold to S and K. *)
Fixpoint fold_name (b : bytes) : bytes :=
  match b with
  | [] => []
  | c :: b' =>
      let z := Z_of_byte c in
      if (97 <=? z) && (z <=? 122) then byte_of_Z (z - 32) :: fold_name b'
      else match b with
      | Byte.xc5 :: Byte.xbf :: r => "S"%byte :: fold_name r
      | Byte.xe2 :: Byte.x84 :: Byte.xaa :: r => "K"%byte :: fold_name r
      | _ => c :: fold_name b'
      end
  end.

Definition field_of (names : list string) (key : bytes) : option string :=
  match List.find (fun n => bool_decide (str_bytes n = key)) names with
  | Some n => Some n
  | None => List.find (fun n => bool_decide (fold_name (str_bytes n) = fold_name key)) names
  end.

Section struct.
Context {T : Type} (names : list string) (set : string -> bytes -> T -> option T).

(** An unknown field is an error. *)
Fixpoint set_members (ms : list (bytes * bytes)) (v : T) : option T :=
  match ms with
  | [] => Some v
  | (k, raw) :: ms' =>
      key ← unquote k;
      n ← field_of names key;
      v ← set n raw v;
      set_members ms' v
  end.

(** strictDecode: one value, an object or null, and nothing after it. *)
Definition strictDecode (b : bytes) (zero : T) : option T :=
  '(v, rest) ← take_value start (skip_space b);
  r ← (if is_null v then Some zero else ms ← object_members v; set_members ms zero);
  match skip_space rest with [] => Some r | _ => None end.
End struct.
End JsonText.

(** ** The encoder and the decoder of access tokens agree: a string, a number, a list of strings or an
    object that was written is read back. *)

Import Json JsonText.

(** ** Runs of the scanner *)

(** Reading [b] leads from [x] to [y], within one value. *)
Definition steps (x : config) (b : bytes) (y : config) : Prop :=
  forall rest, take_value x (b ++ rest) = '(v, r) ← take_value y rest; Some (b ++ v, r).

Lemma steps_nil x : steps x [] x.
Proof. intros rest. simpl. by destruct (take_value x rest) as [[v r]|]. Qed.

Lemma steps_app x a y b z : steps x a y -> steps y b z -> steps x (a ++ b) z.
Proof.
  intros Ha Hb rest. rewrite <- app_assoc, Ha, Hb. destruct (take_value z rest) as [[v r]|]; [|done].
  simpl. by rewrite app_assoc.
Qed.

Lemma steps_cons x c y b z op : at_top x = false -> step x c = (y, op) ->
  op = Continue \/ op = SkipSpace -> steps y b z -> steps x (c :: b) z.
Proof.
  intros Ht Hs Ho Hb rest. cbn [app take_value]. rewrite Ht, Hs.
  destruct Ho as [-> | ->]; rewrite Hb; by destruct (take_value z rest) as [[v r]|].
Qed.

Lemma steps_char x c y : at_top x = false -> step x c = (y, Continue) -> steps x [c] y.
Proof. intros Ht Hs. apply (steps_cons x c y [] y Continue Ht Hs); [by left|apply steps_nil]. Qed.

(** Text within a string: the scanner is within the string again. *)
Definition inside (t : bytes) : Prop := forall k, steps (InString, k) t (InString, k).

Lemma inside_nil : inside [].
Proof. intros k. apply steps_nil. Qed.

Lemma inside_app s t : inside s -> inside t -> inside (s ++ t).
Proof. intros Hs Ht k. by eapply steps_app. Qed.

Lemma inside_char c : 32 <= Z_of_byte c -> c <> quote -> c <> backslash -> inside [c].
Proof.
  intros H32 Hq Hb k. apply steps_char; [done|]. cbn [step]. rewrite !bool_decide_eq_false_2 by done.
  by destruct (Z.ltb_spec (Z_of_byte c) 32); [lia|].
Qed.

Lemma inside_escaped d : bool_decide (d ∈ str_bytes "bfnrt\/" ++ [quote]) = true -> inside [backslash; d].
Proof.
  intros Hd k. apply (steps_app _ [backslash] (InStringEsc, k)); apply steps_char; try done.
  cbn [step]. by rewrite Hd.
Qed.

Lemma inside_unicode h1 h2 h3 h4 :
  hex_digit h1 = true -> hex_digit h2 = true -> hex_digit h3 = true -> hex_digit h4 = true ->
  inside [backslash; "u"%byte; h1; h2; h3; h4].
Proof.
  intros H1 H2 H3 H4 k.
  do 2 (eapply steps_cons; [done|reflexivity|by left|]).
  eapply steps_cons; [done|cbn [step]; rewrite H1; reflexivity|by left|].
  eapply steps_cons; [done|cbn [step]; rewrite H2; reflexivity|by left|].
  eapply steps_cons; [done|cbn [step]; rewrite H3; reflexivity|by left|].
  apply steps_char; [done|]. cbn [step]. by rewrite H4.
Qed.

Lemma hex_is_digit z : 0 <= z < 16 -> hex_digit (hex z) = true.
Proof.
  intros Hz. unfold hex_digit, digit, hex. rewrite Z_of_byte_of_Z_small by (case_match; lia).
  destruct (Z.ltb_spec z 10); apply orb_true_iff; [left|right]; apply andb_true_iff || apply orb_true_iff;
    [split; lia|left; lia].
Qed.

Lemma inside_escape c : safe c = false -> Z_of_byte c < 128 -> inside (escape c).
Proof.
  intros Hs Hc. unfold escape. pose proof (Z_of_byte_range c).
  assert (0 <= Z_of_byte c / 16 < 16) by (split; [apply Z.div_pos|apply Z.div_lt_upper_bound]; lia).
  assert (0 <= Z_of_byte c mod 16 < 16) by (apply Z.mod_pos_bound; lia).
  destruct (_ || _) eqn:E.
  - apply inside_escaped. destruct c; try discriminate E; done.
  - repeat (case_match; [by apply inside_escaped|]).
    apply inside_unicode; [done|done|by apply hex_is_digit|by apply hex_is_digit].
Qed.

Lemma inside_bytes t : Forall (fun c => 128 <= Z_of_byte c) t -> inside t.
Proof.
  induction 1 as [|c t Hc _ IH]; [apply inside_nil|]. apply (inside_app [c]); [|done].
  apply inside_char; [lia| |]; intros ->; by vm_compute in Hc.
Qed.

(** A sequence longer than one byte has no ASCII byte in it. *)
Lemma rune_len_high b c b' : b = c :: b' -> 128 <= Z_of_byte c ->
  Forall (fun c => 128 <= Z_of_byte c) (take (rune_len b) b).
Proof.
  intros -> Hc. unfold rune_len. destruct (Z.ltb_spec (Z_of_byte c) 128); [lia|].
  assert (forall lo hi x, 128 <= lo -> Identity.cont lo hi x = true -> 128 <= Z_of_byte x) as Hx
    by (unfold Identity.cont; intros; bools; lia).
  unfold Identity.second_of_three, Identity.second_of_four.
  repeat case_match; bools; simplify_eq; cbn [take]; repeat apply Forall_cons_2;
    try apply Forall_nil_2; try done; (eapply Hx; [|eassumption]; repeat case_match; lia).
Qed.

Lemma inside_quoted n : forall b, inside (quoted n b).
Proof.
  induction n as [|n IH]; intros b; [apply inside_nil|]. destruct b as [|c b]; [apply inside_nil|].
  cbn [quoted]. destruct (Z.ltb_spec (Z_of_byte c) 128) as [Hc|Hc].
  - apply inside_app; [|done]. destruct (safe c) eqn:Es; [|by apply inside_escape].
    apply inside_char; [unfold safe in Es; bools; lia| |]; intros ->; discriminate Es.
  - pose proof (rune_len_high (c :: b) c b eq_refl Hc) as Hr.
    destruct (rune_len (c :: b)) as [|k]; [by apply inside_app; [apply inside_unicode|]|].
    apply inside_app; [|done]. destruct (line_separator _) as [d|] eqn:E; [|by apply inside_bytes].
    unfold line_separator in E. repeat case_match; simplify_eq; by apply inside_unicode.
Qed.

(** ** Strings *)

(** Valid UTF-8, one sequence after the other. *)
Inductive utf8 : bytes -> Prop :=
  | utf8_nil : utf8 []
  | utf8_rune b k : rune_len b = S k -> utf8 (drop (S k) b) -> utf8 b.

Lemma rune_len_le b : (rune_len b <= length b)%nat.
Proof. unfold rune_len. repeat case_match; simpl; lia. Qed.

(** Nothing after a sequence changes its length. *)
Lemma rune_len_app b k t : rune_len b = S k -> rune_len (b ++ t) = S k.
Proof.
  intros H. destruct b as [|b0 [|b1 [|b2 [|b3 b]]]]; [done|..]; unfold rune_len in *; cbn [app]; cbv zeta in *;
    repeat match goal with
    | H : (if ?c then _ else _) = S _ |- _ => destruct c
    | H : (let '(_, _) := ?c in _) = S _ |- _ => destruct c
    end; try discriminate H; done.
Qed.

Lemma rune_len_take b k : rune_len b = S k -> rune_len (take (S k) b) = S k.
Proof.
  intros H. destruct b as [|b0 [|b1 [|b2 [|b3 b]]]]; [done|..]; unfold rune_len in *; cbv zeta in *;
    repeat match goal with
    | H : (if ?c then _ else _) = S _ |- _ => destruct c eqn:?
    | H : (let '(_, _) := ?c in _) = S _ |- _ => destruct c eqn:?
    end; try discriminate H; injection H as <-; cbn [take];
    repeat match goal with H : _ = true |- _ => rewrite H | H : _ = false |- _ => rewrite H
      | H : _ = (_, _) |- _ => rewrite H end; done.
Qed.

(** Reading [r] takes one turn and yields [out]. *)
Definition reads (r out : bytes) : Prop :=
  (0 < length r)%nat /\
  forall n rest, unquoted (S n) (r ++ rest) = app out <$> unquoted n rest.

Lemma reads_rune b k : rune_len b = S k -> (forall c b', b = c :: b' -> 128 <= Z_of_byte c) ->
  reads (take (S k) b) (take (S k) b).
Proof.
  intros Hk Hb. pose proof (rune_len_le b) as H. rewrite Hk in H. split; [rewrite length_take; lia|]. intros n rest.
  apply rune_len_take in Hk. destruct b as [|c b]; [done|]. specialize (Hb c b eq_refl). cbn [take] in *.
  cbn [app unquoted]. rewrite bool_decide_eq_false_2 by (intros ->; by vm_compute in Hb).
  rewrite bool_decide_eq_false_2 by (intros ->; by vm_compute in Hb).
  destruct (Z.ltb_spec (Z_of_byte c) 32); [lia|]. destruct (Z.ltb_spec (Z_of_byte c) 128); [lia|].
  cbn [orb]. rewrite (rune_len_app (c :: take k b) k rest Hk : rune_len (c :: take k b ++ rest) = S k).
  cbn [take drop]. simpl in H. rewrite take_app_le, drop_app_le by (rewrite length_take; lia).
  rewrite take_take, Nat.min_id, drop_ge by (rewrite length_take; lia). done.
Qed.

Lemma reads_safe c : safe c = true -> reads [c] [c].
Proof.
  intros Hc. split; [simpl; lia|]. intros n rest. cbn [app unquoted].
  rewrite !bool_decide_eq_false_2 by (intros ->; discriminate Hc). unfold safe in Hc. bools.
  destruct (Z.ltb_spec (Z_of_byte c) 32); [lia|]. destruct (Z.ltb_spec (Z_of_byte c) 128); [|lia]. done.
Qed.

Lemma reads_escape c : safe c = false -> Z_of_byte c < 128 -> reads (escape c) [c].
Proof.
  intros Hs Hc. destruct c; try discriminate Hs; try (by vm_compute in Hc);
    (split; [simpl; lia|]; intros n rest; reflexivity).
Qed.

Lemma reads_separator t d : line_separator t = Some d -> reads (str_bytes "\u202" ++ [d]) t.
Proof.
  unfold line_separator. intros H. repeat case_match; simplify_eq; bools; subst;
    (split; [simpl; lia|]; intros n rest; reflexivity).
Qed.

Lemma unquoted_quoted n : forall b m, utf8 b -> (length b <= n)%nat ->
  (length (quoted n b) <= m)%nat -> unquoted m (quoted n b) = Some b.
Proof.
  assert (forall r out t tail m, reads r out ->
    (length (r ++ t) <= m)%nat -> (forall m', (length t <= m')%nat -> unquoted m' t = Some tail) ->
    unquoted m (r ++ t) = Some (out ++ tail)) as Hstep.
  { intros r out t tail m [Hl Hr] Hm Ht. rewrite length_app in Hm. destruct m as [|m]; [lia|].
    rewrite Hr, Ht by lia. done. }
  induction n as [|n IH]; intros b m Hb Hn Hm.
  { destruct b; [by destruct m|simpl in Hn; lia]. }
  destruct b as [|c b]; [by destruct m|]. inversion Hb as [|? k Hk Hd]; subst. cbn [quoted] in *.
  destruct (Z.ltb_spec (Z_of_byte c) 128) as [Hc|Hc].
  - assert (k = O) as -> by (cbn [rune_len] in Hk; destruct (Z.ltb_spec (Z_of_byte c) 128); [congruence|lia]).
    simpl in Hd, Hn. apply (Hstep _ [c]); [|done|intros m' Hm'; apply IH; [done|lia|done]].
    destruct (safe c) eqn:Es; [by apply reads_safe|by apply reads_escape].
  - rewrite Hk in *. pose proof (rune_len_le (c :: b)) as Hle. rewrite Hk in Hle.
    transitivity (Some (take (S k) (c :: b) ++ drop (S k) (c :: b))); [|by rewrite take_drop].
    assert (forall m', (length (quoted n (drop (S k) (c :: b))) <= m')%nat ->
      unquoted m' (quoted n (drop (S k) (c :: b))) = Some (drop (S k) (c :: b))) as Htail
      by (intros m' Hm'; apply IH; [done|rewrite length_drop; simpl in *; lia|done]).
    destruct (line_separator (take (S k) (c :: b))) as [d|] eqn:Ed.
    + apply Hstep; [by apply reads_separator|done|done].
    + apply Hstep; [|done|done]. apply reads_rune; [done|]. intros ? ? [= <- <-]. done.
Qed.

Lemma utf8_of_runes b : is_Some (Identity.runes b) -> utf8 b.
Proof.
  revert b. fix IH 1. intros [|b0 r0]; [by constructor|].
  intros [rs Hr]. apply utf8_rune with (k := pred (rune_len (b0 :: r0))).
  all: cbn [Identity.runes] in Hr; cbn [rune_len].
  - destruct (_ <? 128); [done|]. repeat (case_match; simplify_eq; try done).
  - destruct (_ <? 128); [apply IH; apply fmap_Some in Hr as (? & ? & ?); by eexists|].
    repeat (case_match; simplify_eq; try done);
      (apply fmap_Some in Hr as (? & ? & ?); cbn [pred drop]; apply IH; by eexists).
Qed.

Lemma unquote_quote s : Identity.ValidString s = true -> unquote (quote_ s) = Some (str_bytes s).
Proof.
  intros Hs. unfold quote_, unquote. rewrite rev_app_distr. cbn [rev app].
  rewrite !bool_decide_eq_true_2, rev_involutive by done. cbn [andb].
  apply unquoted_quoted; [|done|rewrite length_app; simpl; lia].
  apply utf8_of_runes. unfold Identity.ValidString in Hs. by destruct (Identity.runes _).
Qed.

Lemma into_string_quote s cur : Identity.ValidString s = true -> into_string (quote_ s) cur = Some s.
Proof.
  intros Hs. unfold into_string. change (is_null (quote_ s)) with false. cbv iota.
  rewrite unquote_quote by done. simpl. by rewrite bytes_str_bytes.
Qed.

(** ** Values as the encoder writes them *)

(** A value does not begin with a blank, and leaves the scanner waiting for what may follow it, with
    the stack it had. *)
Record writes (v : bytes) : Prop := {
  wr_head b : skip_space (v ++ b) = v ++ b;
  wr_run k : (length k <= 2)%nat ->
    exists st, steps (BeginValue, k) v (st, k) /\ (settling st = true \/ st = EndTop /\ k = []) }.

(** [ends c]: the character may follow a value. *)
Definition ends (c : byte) : bool :=
  bool_decide (c = ","%byte) || bool_decide (c = "}"%byte) || bool_decide (c = "]"%byte).

Lemma ends_settling st k c : settling st = true -> ends c = true -> step (st, k) c = end_value k c.
Proof.
  intros Hst Hc. assert (goes_on c = false) as Hg
    by (unfold ends in Hc; rewrite !orb_true_iff, !bool_decide_eq_true in Hc; by destruct Hc as [[->| ->]| ->]).
  unfold goes_on in Hg. rewrite !orb_false_iff in Hg. destruct Hg as [[[Hd Hp] He] HE].
  destruct st; try discriminate Hst; cbn [step]; unfold num0; by rewrite ?Hd, ?Hp, ?He, ?HE.
Qed.

Lemma writes_take v c rest : writes v -> ends c = true ->
  take_value start (v ++ c :: rest) = Some (v, c :: rest).
Proof.
  intros Hv Hc. destruct (wr_run v Hv [] ltac:(simpl; lia)) as (st & Hs & Hst).
  unfold start. rewrite Hs. assert (take_value (st, []) (c :: rest) = Some ([], c :: rest)) as ->;
    [|simpl; by rewrite app_nil_r].
  destruct Hst as [Hst|[-> _]]; [|done]. unfold take_value. destruct (at_top (st, [])); [done|].
  rewrite (ends_settling st [] c Hst Hc). cbn [end_value]. unfold end_top. by destruct (isSpace c).
Qed.

Lemma writes_string s : writes (quote_ s).
Proof.
  split; [done|]. intros k _. exists EndValue. split; [|by left]. unfold quote_.
  eapply steps_cons; [done|reflexivity|by left|]. eapply steps_app; [apply inside_quoted|].
  by apply steps_char.
Qed.

Lemma writes_null : writes (str_bytes "null").
Proof.
  split; [done|]. intros k _. exists EndValue. split; [|by left].
  repeat (eapply steps_cons; [done|reflexivity|by left|]). apply steps_nil.
Qed.

(** ** Numbers *)
Lemma parse_digits_go n : forall z acc, 0 <= z < 10 ^ Z.of_nat n -> (0 < n)%nat ->
  parse_digits (digits n z acc) 0 = parse_digits acc z.
Proof.
  induction n as [|n IH]; intros z acc Hz Hn; [lia|]. cbn [digits].
  pose proof (Z.mod_pos_bound z 10 ltac:(lia)) as Hm. pose proof (Z.div_mod z 10 ltac:(lia)) as Hd.
  assert (forall a, parse_digits (byte_of_Z (48 + z mod 10) :: acc) a = parse_digits acc (a * 10 + z mod 10)) as Hstep.
  { intros a. cbn [parse_digits]. unfold digit. rewrite Z_of_byte_of_Z_small by lia.
    destruct (Z.leb_spec 48 (48 + z mod 10)), (Z.leb_spec (48 + z mod 10) 57); try lia. cbn [andb]. f_equal. lia. }
  destruct (Z.ltb_spec z 10).
  - rewrite Hstep. f_equal. rewrite Z.mod_small by lia. lia.
  - destruct n as [|n]; [change (10 ^ Z.of_nat 1) with 10 in Hz; lia|].
    rewrite IH; [|split; [apply Z.div_pos; lia|]|lia].
    + rewrite Hstep. f_equal. lia.
    + apply Z.div_lt_upper_bound; [lia|]. rewrite <- Z.pow_succ_r, <- Nat2Z.inj_succ by lia. apply Hz.
Qed.

(** The digits of a positive number: the first is not 0. *)
Lemma digits_shape n : forall z acc, 0 < z < 10 ^ Z.of_nat n -> (0 < n)%nat ->
  exists d ds, digits n z acc = d :: ds ++ acc /\ digit d = true /\ d <> "0"%byte /\ Forall (fun c => digit c = true) ds.
Proof.
  induction n as [|n IH]; intros z acc Hz Hn; [lia|]. cbn [digits].
  pose proof (Z.mod_pos_bound z 10 ltac:(lia)) as Hm.
  assert (digit (byte_of_Z (48 + z mod 10)) = true) as Hd
    by (unfold digit; rewrite Z_of_byte_of_Z_small by lia; apply andb_true_iff; lia).
  destruct (Z.ltb_spec z 10).
  - eexists _, []. split; [reflexivity|]. split; [done|]. split; [|done]. intros E.
    apply (f_equal Z_of_byte) in E. rewrite Z_of_byte_of_Z_small in E by lia. rewrite Z.mod_small in E by lia.
    change (Z_of_byte "0") with 48 in E. lia.
  - destruct n as [|n]; [change (10 ^ Z.of_nat 1) with 10 in Hz; lia|].
    destruct (IH (z / 10) (byte_of_Z (48 + z mod 10) :: acc)) as (d & ds & E & H1 & H2 & H3); [|lia|].
    + split; [apply Z.div_str_pos; lia|]. apply Z.div_lt_upper_bound; [lia|].
      rewrite <- Z.pow_succ_r, <- Nat2Z.inj_succ by lia. apply Hz.
    + exists d, (ds ++ [byte_of_Z (48 + z mod 10)]). rewrite <- app_assoc. split; [exact E|].
      split; [done|]. split; [done|]. apply Forall_app. by split; [|constructor].
Qed.

Lemma digit_not_special c : digit c = true ->
  isSpace c = false /\ c <> "{"%byte /\ c <> "["%byte /\ c <> quote /\ c <> "-"%byte /\ c <> "t"%byte /\
  c <> "f"%byte /\ c <> "n"%byte.
Proof. intros H. destruct c; try discriminate H; done. Qed.

Lemma steps_digits k ds : Forall (fun c => digit c = true) ds -> steps (Num1, k) ds (Num1, k).
Proof.
  induction 1 as [|c ds Hc _ IH]; [apply steps_nil|]. eapply steps_cons; [done| |by left|exact IH].
  cbn [step]. by rewrite Hc.
Qed.

(** A number from a state that expects its first digit. *)
Lemma steps_number z x k : 0 <= z < 10 ^ 20 -> at_top x = false ->
  step x "0"%byte = ((Num0, k), Continue) ->
  (forall d, digit d = true -> d <> "0"%byte -> step x d = ((Num1, k), Continue)) ->
  exists st, steps x (digits 20 z []) (st, k) /\ settling st = true.
Proof.
  intros Hz Ht H0 H1. destruct (Z.eq_dec z 0) as [->|Hn].
  - exists Num0. split; [|done]. by apply steps_char.
  - destruct (digits_shape 20 z [] ltac:(lia) ltac:(lia)) as (d & ds & -> & Hd & Hd0 & Hds).
    exists Num1. split; [|done]. rewrite app_nil_r. eapply steps_cons; [done|by apply H1|by left|].
    by apply steps_digits.
Qed.

Definition is_i64 (z : Z) : Prop := - two63 <= z < two63.

Lemma digits_head z : 0 <= z < 10 ^ 20 -> exists d ds, digits 20 z [] = d :: ds /\ digit d = true.
Proof.
  intros Hz. destruct (Z.eq_dec z 0) as [->|Hn]; [by exists "0"%byte, []|].
  destruct (digits_shape 20 z [] ltac:(lia) ltac:(lia)) as (d & ds & -> & Hd & _). eauto.
Qed.

Lemma writes_int z : is_i64 z -> writes (AppendInt z).
Proof.
  unfold is_i64, two63, AppendInt. intros Hz. destruct (Z.ltb_spec z 0).
  - split; [done|]. intros k _.
    destruct (steps_number (- z) (Neg, k) k ltac:(lia)) as (st & Hs & Hst); [done|done| |].
    + intros d Hd Hd0. cbn [step]. by rewrite bool_decide_eq_false_2, Hd.
    + exists st. split; [|by left]. eapply steps_cons; [done|reflexivity|by left|done].
  - split.
    + intros b. destruct (digits_head z ltac:(lia)) as (d & ds & -> & Hd). cbn [app skip_space].
      by destruct (digit_not_special d Hd) as [-> _].
    + intros k _. destruct (steps_number z (BeginValue, k) k ltac:(lia)) as (st & Hs & Hst); [done|done| |eauto].
      intros d Hd Hd0. cbn [step]. unfold begin_value.
      destruct (digit_not_special d Hd) as (-> & ? & ? & ? & ? & ? & ? & ?).
      rewrite !bool_decide_eq_false_2 by done. by rewrite Hd.
Qed.

Lemma into_int_AppendInt z cur : is_i64 z -> into_int (AppendInt z) cur = Some z.
Proof.
  unfold is_i64, AppendInt. intros Hz.
  assert ((- two63 <=? z) && (z <? two63) = true) as Hb by (apply andb_true_iff; lia).
  assert (- 10 ^ 20 < z < 10 ^ 20) as Hz' by (unfold two63 in *; lia). destruct (Z.ltb_spec z 0).
  - destruct (digits_head (- z) ltac:(lia)) as (d & ds & E & _).
    assert (parse_digits (d :: ds) 0 = Some (- z)) as Hp by (rewrite <- E, parse_digits_go by lia; done).
    unfold into_int, ParseInt, is_null. rewrite E, (bool_decide_eq_false_2 ("-"%byte = "n"%byte)) by done.
    rewrite (bool_decide_eq_true_2 ("-"%byte = "-"%byte)), orb_true_r, Hp by done.
    cbn -[Z.leb Z.ltb Z.opp two63]. by rewrite Z.opp_involutive, Hb.
  - destruct (digits_head z ltac:(lia)) as (d & ds & E & Hd).
    destruct (digit_not_special d Hd) as (_ & _ & _ & _ & ? & _ & _ & ?).
    unfold into_int, ParseInt, is_null. rewrite E, !bool_decide_eq_false_2, Hd by done. cbn [orb].
    rewrite <- E, parse_digits_go by lia. cbn -[Z.leb Z.ltb Z.opp two63]. by rewrite Hb.
Qed.

(** ** Lists of strings *)
Lemma steps_string s x k : at_top x = false -> step x quote = ((InString, k), Continue) ->
  steps x (quote_ s) (EndValue, k).
Proof.
  intros Ht Hs. unfold quote_. eapply steps_cons; [done|exact Hs|by left|].
  eapply steps_app; [apply inside_quoted|]. by apply steps_char.
Qed.

Lemma steps_list l : forall s x k, at_top x = false -> step x quote = ((InString, ArrayValue :: k), Continue) ->
  steps x (join [","%byte] (map quote_ (s :: l))) (EndValue, ArrayValue :: k).
Proof.
  induction l as [|s' l IH]; intros s x k Ht Hs; [by apply steps_string|]. cbn [map join].
  eapply steps_app; [by apply steps_string|].
  eapply (steps_app _ [","%byte] (BeginValue, ArrayValue :: k)); [by apply steps_char|].
  by apply (IH s').
Qed.

Lemma steps_pop k : exists st, pop k = ((st, k), Continue) /\ (settling st = true \/ st = EndTop /\ k = []).
Proof. destruct k; [exists EndTop|exists EndValue]; auto. Qed.

Lemma writes_strings l : writes (strings l).
Proof.
  destruct l as [|s l]; [apply writes_null|]. split; [done|]. intros k Hk.
  destruct (steps_pop k) as (st & Hp & Hst). exists st. split; [|done]. unfold strings, array.
  eapply (steps_app _ ["["%byte] (BeginValueOrEmpty, ArrayValue :: k)).
  { apply steps_char; [done|]. cbn [step]. unfold begin_value, push. cbn -[maxNestingDepth].
    destruct (Z.leb_spec (Z.of_nat (S (length k))) maxNestingDepth) as [|H]; [done|unfold maxNestingDepth in H; lia]. }
  eapply steps_app; [by apply steps_list|]. by apply steps_char.
Qed.

Lemma elements_more n v rest : writes v -> elements (S n) (v ++ ","%byte :: rest) = cons v <$> elements n rest.
Proof. intros Hv. cbn [elements]. rewrite (wr_head _ Hv), writes_take by done. reflexivity. Qed.

Lemma elements_last n v rest : writes v -> elements (S n) (v ++ "]"%byte :: rest) = Some [v].
Proof. intros Hv. cbn [elements]. rewrite (wr_head _ Hv), writes_take by done. reflexivity. Qed.

Lemma elements_strings l : forall n s rest, (length l < n)%nat ->
  elements n (join [","%byte] (map quote_ (s :: l)) ++ "]"%byte :: rest) = Some (map quote_ (s :: l)).
Proof.
  induction l as [|s' l IH]; intros n s rest Hn; (destruct n as [|n]; [lia|]).
  - apply elements_last, writes_string.
  - change (join [","%byte] (map quote_ (s :: s' :: l)))
      with (quote_ s ++ [","%byte] ++ join [","%byte] (map quote_ (s' :: l))).
    rewrite <- !app_assoc. cbn [app]. rewrite elements_more by apply writes_string.
    simpl in Hn. by rewrite IH by lia.
Qed.

Lemma into_strings_strings l : Forall (fun s => Identity.ValidString s = true) l -> into_strings (strings l) = Some tt.
Proof.
  intros Hl. destruct l as [|s l]; [done|]. unfold strings, array, into_strings.
  set (t := map quote_ (s :: l)). cbn [app is_null]. rewrite bool_decide_eq_false_2 by done.
  rewrite bool_decide_eq_true_2 by done. cbn [negb].
  assert (exists b, join [","%byte] t ++ ["]"%byte] = quote :: b) as [b Hb].
  { subst t. destruct l; cbn [map join]; unfold quote_; cbn [app]; eauto. }
  rewrite Hb. cbn [skip_space]. change (isSpace quote) with false. cbv iota.
  rewrite bool_decide_eq_false_2 by done. rewrite <- Hb at 2. subst t.
  rewrite elements_strings.
  2:{ apply (f_equal length) in Hb. rewrite <- Hb, length_app. clear Hb Hl. revert s.
      induction l as [|s' l IH]; intros s; [cbn; lia|]. specialize (IH s').
      cbn [map join] in *. rewrite !length_app. unfold quote_ at 1. simpl in *. lia. }
  cbn [mbind option_bind].
  assert (is_Some (mapM (fun v => into_string v "") (map quote_ (s :: l)))) as [vs ->]; [|done].
  apply mapM_is_Some. rewrite Forall_map. eapply Forall_impl; [exact Hl|]. intros x Hx.
  change (is_Some (into_string (quote_ x) "")). rewrite into_string_quote by done. by eexists.
Qed.

(** ** Values passed through *)
Lemma length_scan x b y out : scan x b = Some (y, out) -> (length out <= length b)%nat.
Proof.
  revert x y out. induction b as [|c b IH]; intros x y out H; cbn [scan] in H; [by simplify_eq|].
  destruct (step x c) as [x' []]; [apply bind_Some in H as ([? ?] & H & [= <- <-])|..|done];
    apply IH in H; simpl; lia.
Qed.

(** Within an object the scanner looks no deeper into its stack than that object. *)
Lemma step_shift st k k0 c st' k' op :
  rooted k -> st <> EndTop -> step (st, k) c = ((st', k'), op) -> st' <> Broken ->
  Z.of_nat (length k + length k0) < maxNestingDepth ->
  (length k' <= S (length k))%nat /\
  (rooted k' /\ st' <> EndTop /\ step (st, k ++ k0) c = ((st', k' ++ k0), op) \/
   st' = EndTop /\ k' = [] /\ op = Continue /\ step (st, k ++ k0) c = pop k0).
Proof.
  destruct k as [|p k]; [by intros [?|?]|]. intros Hx Ht Hs Hb Hl.
  destruct st; cbn [step app] in Hs |- *;
    unfold begin_value, begin_string, num0, exp_sign, end_value, end_top, push, pop, failed in *;
    cbn [length app] in *; rewrite ?length_app in *;
    repeat (case_match; simplify_eq; try done); bools; subst; try lia; cbn [app] in *; simplify_eq;
    try (by destruct (rooted_array Hx)); (split; [simpl; lia|]);
    first [by right|left; split_and!; [|done|done]];
    first [exact Hx|by apply rooted_push|by eapply rooted_pop|by eapply rooted_key|by eapply rooted_value].
Qed.

(** What is written of a compacted object brings the scanner past that object. *)
Lemma steps_object b : forall st k k0 y,
  rooted k -> st <> EndTop -> scan (st, k) b = Some (y, b) -> eof y = true ->
  Z.of_nat (length k + length b + length k0) < maxNestingDepth ->
  steps (st, k ++ k0) b (pop k0).1.
Proof.
  induction b as [|c b IH]; intros st k k0 y Hk Ht Hs He Hl.
  { exfalso. apply (scan_object [] (st, k) y []) in He as ([|? ?] & ?); [done..|done]. }
  cbn [scan] in Hs. destruct (step (st, k) c) as [[st' k'] op] eqn:E.
  assert (op = Continue) as ->.
  { destruct op; [done|apply length_scan in Hs; simpl in Hs; lia..|done]. }
  apply bind_Some in Hs as ([y' out] & Hs & [= <- ->]).
  assert (st' <> Broken) as Hb by (by apply (scan_broken (st', k') b y' b)).
  destruct (step_shift st k k0 c st' k' Continue Hk Ht E Hb ltac:(simpl in Hl; lia))
    as (Hlen & [(Hk' & Ht' & E')|(-> & -> & _ & E')]).
  - eapply steps_cons; [by destruct st|exact E'|by left|].
    apply (IH st' k' k0 y' Hk' Ht' Hs He). simpl in Hl. lia.
  - assert (b = []) as -> by (by apply (scan_top b y' b)).
    apply steps_char; [by destruct st|]. rewrite E'. by destruct k0.
Qed.

Lemma writes_raw b : Compact b = Some b -> (exists b', b = "{"%byte :: b') ->
  Z.of_nat (length b) <= 4096 -> writes b.
Proof.
  intros Hc (b' & ->) Hl. split; [done|]. intros k Hk. unfold Compact in Hc.
  destruct (scan start ("{"%byte :: b')) as [[x o]|] eqn:E; [|done].
  destruct (eof x) eqn:He; [|done]. injection Hc as ->. cbn [scan] in E.
  change (step start "{"%byte) with ((BeginStringOrEmpty, [ObjectKey]), Continue) in E.
  apply bind_Some in E as ([y out] & Hs & [= <- ->]).
  destruct (steps_pop k) as (st & Hp & Hst). exists st. split; [|done].
  eapply steps_cons with (y := (BeginStringOrEmpty, ObjectKey :: k)); [done| |by left|].
  - cbn [step]. unfold begin_value, push. cbn -[maxNestingDepth Z.of_nat Z.leb].
    destruct (Z.leb_spec (Z.of_nat (S (length k))) maxNestingDepth) as [|H]; [done|unfold maxNestingDepth in H; lia].
  - replace (st, k) with ((pop k).1) by (by rewrite Hp).
    apply (steps_object b' BeginStringOrEmpty [ObjectKey] k y); [by left|done|exact Hs|exact He|].
    unfold maxNestingDepth. simpl in *. lia.
Qed.

(** ** Objects *)
Lemma steps_member n v k : writes v -> (length k <= 1)%nat ->
  forall x, at_top x = false -> step x quote = ((InString, ObjectKey :: k), Continue) ->
  exists st, steps x (member (n, v)) (st, ObjectValue :: k) /\ settling st = true.
Proof.
  intros Hv Hk x Ht Hs. destruct (wr_run v Hv (ObjectValue :: k) ltac:(simpl; lia)) as (st & Hr & [Hst|[_ ?]]); [|done].
  exists st. split; [|done]. unfold member. eapply steps_app; [by apply steps_string|].
  eapply steps_app; [by apply steps_char|]. exact Hr.
Qed.

Lemma steps_members ms : forall m k x, Forall (fun nv => writes nv.2) (m :: ms) -> (length k <= 1)%nat ->
  at_top x = false -> step x quote = ((InString, ObjectKey :: k), Continue) ->
  exists st, steps x (join [","%byte] (map member (m :: ms))) (st, ObjectValue :: k) /\ settling st = true.
Proof.
  induction ms as [|m' ms IH]; intros [n v] k x Hm Hk Ht Hs; apply Forall_cons in Hm as [Hv Hm];
    destruct (steps_member n v k Hv Hk x Ht Hs) as (st & Hr & Hst); [by exists st|].
  destruct (IH m' k (BeginString, ObjectKey :: k) Hm Hk eq_refl eq_refl) as (st' & Hr' & Hst').
  exists st'. split; [|done].
  change (join [","%byte] (map member ((n, v) :: m' :: ms)))
    with (member (n, v) ++ [","%byte] ++ join [","%byte] (map member (m' :: ms))).
  eapply steps_app; [exact Hr|]. eapply steps_app; [|exact Hr'].
  apply steps_char; [by destruct st|]. by rewrite ends_settling.
Qed.

Lemma object_take ms : ms <> [] -> Forall (fun nv => writes nv.2) ms ->
  take_value start (object ms) = Some (object ms, []).
Proof.
  intros Hne Hm. destruct ms as [|m ms]; [done|].
  destruct (steps_members ms m [] (BeginStringOrEmpty, [ObjectKey]) Hm) as (st & Hr & Hst); [simpl; lia|done|done|].
  assert (steps start (object (m :: ms)) (EndTop, [])) as H.
  { unfold object. eapply (steps_app _ ["{"%byte] (BeginStringOrEmpty, [ObjectKey])); [by apply steps_char|].
    eapply steps_app; [exact Hr|]. apply steps_char; [by destruct st|]. by rewrite ends_settling. }
  specialize (H []). rewrite app_nil_r in H. rewrite H. cbn. by rewrite app_nil_r.
Qed.

Lemma string_take k c rest : take_value start (quote_ k ++ c :: rest) = Some (quote_ k, c :: rest).
Proof.
  rewrite (steps_string k start [] eq_refl eq_refl (c :: rest)). cbn [take_value at_top fst step end_value].
  unfold end_top. destruct (isSpace c); cbn; by rewrite app_nil_r.
Qed.

(** Reading a member and what follows it. *)
Lemma members_step n k v c rest : writes v -> ends c = true ->
  members (S n) (member (k, v) ++ c :: rest)
  = if bool_decide (c = ","%byte) then cons (quote_ k, v) <$> members n rest
    else if bool_decide (c = "}"%byte) then Some [(quote_ k, v)] else None.
Proof.
  intros Hv Hc. unfold member. cbn [fst snd]. rewrite <- !app_assoc. cbn [app members].
  rewrite (wr_head _ (writes_string k)), string_take. cbn [mbind option_bind skip_space].
  change (isSpace ":") with false. cbv iota. change (bool_decide (":"%byte = ":"%byte)) with true. cbn [negb].
  rewrite (wr_head _ Hv), writes_take by done. cbn [mbind option_bind skip_space].
  assert (isSpace c = false) as ->; [|done].
  unfold ends in Hc. rewrite !orb_true_iff, !bool_decide_eq_true in Hc. by destruct Hc as [[->| ->]| ->].
Qed.

Lemma members_object ms : forall n m rest, Forall (fun nv => writes nv.2) (m :: ms) -> (length ms < n)%nat ->
  members n (join [","%byte] (map member (m :: ms)) ++ "}"%byte :: rest)
  = Some (map (fun nv => (quote_ nv.1, nv.2)) (m :: ms)).
Proof.
  induction ms as [|m' ms IH]; intros n [k v] rest Hm Hn; (destruct n as [|n]; [lia|]);
    apply Forall_cons in Hm as [Hv Hm]; [cbn [map join]; by rewrite members_step|].
  change (join [","%byte] (map member ((k, v) :: m' :: ms)))
    with (member (k, v) ++ [","%byte] ++ join [","%byte] (map member (m' :: ms))).
  rewrite <- !app_assoc. cbn [app]. rewrite members_step by done. simpl in Hn.
  rewrite IH by (done || lia). done.
Qed.

Lemma length_join_members ms : forall m, (length ms < length (join [","%byte] (map member (m :: ms))))%nat.
Proof.
  induction ms as [|m' ms IH]; intros m.
  - cbn [map join]. unfold member, quote_. cbn. lia.
  - change (join [","%byte] (map member (m :: m' :: ms)))
      with (member m ++ [","%byte] ++ join [","%byte] (map member (m' :: ms))).
    rewrite !length_app. specialize (IH m'). cbn [length]. lia.
Qed.

Lemma object_members_object ms : Forall (fun nv => writes nv.2) ms ->
  object_members (object ms) = Some (map (fun nv => (quote_ nv.1, nv.2)) ms).
Proof.
  intros Hm. destruct ms as [|m ms]; [done|]. unfold object, object_members. cbn [app].
  change (bool_decide ("{"%byte = "{"%byte)) with true. cbn [negb].
  set (t := join _ _). assert (exists b, t ++ ["}"%byte] = quote :: b) as [b Hb].
  { subst t. destruct ms; cbn [map join]; unfold member at 1, quote_ at 1; cbn [app]; eauto. }
  rewrite Hb. cbn [skip_space]. change (isSpace quote) with false. cbv iota.
  change (bool_decide (quote = "}"%byte)) with false. cbv iota. rewrite <- Hb. subst t.
  apply members_object; [done|]. rewrite length_app. pose proof (length_join_members ms m). lia.
Qed.

(** ** Structs *)
Section struct.
Context {T : Type} (names : list string) (set : string -> bytes -> T -> option T).

(** The members written, applied one after the other. *)
Fixpoint assign (ms : list (string * bytes)) (v : T) : option T :=
  match ms with
  | [] => Some v
  | (n, raw) :: ms' => v ← set n raw v; assign ms' v
  end.

Lemma field_of_name n : n ∈ names -> field_of names (str_bytes n) = Some n.
Proof.
  intros Hn. unfold field_of.
  destruct (List.find (fun m => bool_decide (str_bytes m = str_bytes n)) names) as [m|] eqn:E.
  - apply List.find_some in E as [_ E]. bools. f_equal.
    rewrite <- (bytes_str_bytes m), <- (bytes_str_bytes n). by rewrite E.
  - apply list_elem_of_In in Hn. pose proof (List.find_none _ _ E n Hn) as H. simpl in H.
    by rewrite bool_decide_eq_true_2 in H.
Qed.

Lemma set_members_assign ms : forall v,
  Forall (fun nv => nv.1 ∈ names /\ Identity.ValidString nv.1 = true) ms ->
  set_members names set (map (fun nv => (quote_ nv.1, nv.2)) ms) v = assign ms v.
Proof.
  induction ms as [|[n raw] ms IH]; intros v Hm; [done|]. apply Forall_cons in Hm as [[Hn Hv] Hm]. cbn in Hn, Hv.
  cbn [map set_members assign fst snd]. rewrite unquote_quote by done. cbn [mbind option_bind].
  rewrite field_of_name by done. cbn [mbind option_bind]. destruct (set n raw v); [|done]. cbn. by apply IH.
Qed.

(** A struct that was written is read back: its members are assigned in order. *)
Lemma strictDecode_object ms zero : ms <> [] -> Forall (fun nv => writes nv.2) ms ->
  Forall (fun nv => nv.1 ∈ names /\ Identity.ValidString nv.1 = true) ms ->
  strictDecode names set (object ms) zero = assign ms zero.
Proof.
  intros Hne Hw Hn. unfold strictDecode.
  change (skip_space (object ms)) with (object ms). rewrite object_take by done. cbn [mbind option_bind].
  change (is_null (object ms)) with false. cbv iota.
  rewrite object_members_object by done. cbn [mbind option_bind]. rewrite set_members_assign by done.
  by destruct (assign ms zero).
Qed.
End struct.
