(* ===== verification/Signing.v ===== *)
(** Signing keys: package signing (signing.go, minter.go, verify.go, policy.go and keys.go).

    The cryptography is the class [Crypto]: one type of private and one of public keys per algorithm,
    and Go's functions on them.  A key of this package is bound to one algorithm and one key id; the
    pointers of a Go key struct, of which one is set, are optional fields.  What Verify relies on is
    the class [CryptoLaws]: a signature made with a key verifies under its public half. *)
From S2P Require Import Prelude Errors.

Module Signing.

Definition AlgEdDSA : string := "EdDSA".

Definition AlgES256 : string := "ES256".

Definition AlgRS256 : string := "RS256".

Definition AlgHS256 : string := "HS256".

(** jwks.go: the RFC 9864 name of EdDSA over Ed25519. *)
Definition algEd25519 : string := "Ed25519".

Class Crypto := {
  EdPriv : Type; EdPub : Type; EcPriv : Type; EcPub : Type; RsaPriv : Type; RsaPub : Type;
  sha256_Sum256 : bytes -> bytes;
  hmac_SHA256 : bytes -> bytes -> bytes;
  ed25519_Sign : EdPriv -> bytes -> bytes;
  ed25519_Verify : EdPub -> bytes -> bytes -> bool;
  ecdsa_Sign : nat -> EcPriv -> bytes -> res (Z * Z);
  ecdsa_Verify : EcPub -> bytes -> Z -> Z -> bool;
  rsa_SignPKCS1v15 : nat -> RsaPriv -> bytes -> res bytes;
  rsa_VerifyPKCS1v15 : RsaPub -> bytes -> bytes -> bool;
  hkdf_Key : bytes -> bytes -> string -> Z -> res bytes }.

Definition ed25519_SignatureSize : Z := 64.

Section crypto.
Context `{Crypto}.

(** ** Keys (signing.go) *)
Record publicKey := mkPublicKey {
  alg : string;
  kid : string;
  ed : option EdPub;
  ec : option EcPub;
  rsa : option RsaPub;
  mac : option bytes }.

(** The zero Verifier and the zero Signer hold no key. *)
Definition Verifier := option publicKey.

Record privateKey := mkPrivateKey {
  ed_priv : option EdPriv;
  ec_priv : option EcPriv;
  rsa_priv : option RsaPriv;
  mac_priv : option bytes;
  pub : publicKey }.

Definition Signer := option privateKey.

Definition Signer_KeyID (s : Signer) : string := match s with Some k => kid (pub k) | None => "" end.

Definition Signer_Algorithm (s : Signer) : string := match s with Some k => alg (pub k) | None => "" end.

Definition Signer_Verifier (s : Signer) : Verifier := match s with Some k => Some (pub k) | None => None end.

Definition Signer_IsZero (s : Signer) : bool := match s with Some _ => false | None => true end.

Definition Verifier_KeyID (v : Verifier) : string := match v with Some k => kid k | None => "" end.

Definition Verifier_IsZero (v : Verifier) : bool := match v with Some _ => false | None => true end.

Definition Symmetric (v : Verifier) : bool :=
  match v with Some k => match mac k with Some _ => true | None => false end | None => false end.

(** The loop of CheckKeyIDs; [seen] are the ids met so far. *)
Fixpoint check_ids (seen : list string) (vs : list Verifier) : option error :=
  match vs with
  | [] => None
  | v :: vs' =>
      match v with
      | None => Some (ErrZeroKey : error)
      | Some k =>
          if bool_decide (kid k ∈ seen)
          then Some (Join ErrDuplicateKeyID (New ("kid " +:+ kid k)))
          else check_ids (kid k :: seen) vs'
      end
  end.

Definition CheckKeyIDs (vs : list Verifier) : option error := check_ids [] vs.

(** ** Verifying (verify.go) *)
Record Signed := mkSigned { Algorithm : string; KeyID : string; Input : bytes; Signature : bytes }.

Definition verifies (k : publicKey) (input sig : bytes) : bool :=
  match ed k, ec k, rsa k, mac k with
  | Some p, _, _, _ => (Z.of_nat (length sig) =? ed25519_SignatureSize) && ed25519_Verify p input sig
  | None, Some p, _, _ =>
      if negb (Z.of_nat (length sig) =? 64) then false
      else ecdsa_Verify p (sha256_Sum256 input) (be_value (take 32 sig)) (be_value (drop 32 sig))
  | None, None, Some p, _ => rsa_VerifyPKCS1v15 p (sha256_Sum256 input) sig
  | None, None, None, Some m => bool_decide (hmac_SHA256 m input = sig)
  | None, None, None, None => false
  end.

Definition Verify (v : Verifier) (s : Signed) : option error :=
  match v with
  | None => Some (ErrZeroKey : error)
  | Some k =>
      if negb (bool_decide (Algorithm s = alg k))
         && (match ed k with None => true | Some _ => negb (bool_decide (Algorithm s = algEd25519)) end)
      then Some (Join ErrInvalidSignature (New ("algorithm " +:+ Algorithm s +:+ " is not the key's " +:+ alg k)))
      else if negb (bool_decide (KeyID s = kid k))
      then Some (Join ErrInvalidSignature (New "key id mismatch"))
      else if verifies k (Input s) (Signature s) then None
      else Some (ErrInvalidSignature : error)
  end.

(** ** Signing (minter.go)

    [granted] is the Minter NewMinter hands to the access-token codec; [rnd] numbers the reads of
    crypto/rand. *)
Definition Sign (granted : bool) (rnd : nat) (s : Signer) (signingInput : bytes) : res bytes :=
  if negb granted then Err ErrNotOwner
  else match s with
  | None => Err ErrZeroKey
  | Some k =>
      match ed_priv k, ec_priv k, rsa_priv k, mac_priv k with
      | Some p, _, _, _ => Ok (ed25519_Sign p signingInput)
      | None, Some p, _, _ =>
          match ecdsa_Sign rnd p (sha256_Sum256 signingInput) with
          | Err err => Err (Join (New "signing: ES256") err)
          | Ok (r, ss) => Ok (be_bytes 32 r ++ be_bytes 32 ss)
          end
      | None, None, Some p, _ =>
          match rsa_SignPKCS1v15 rnd p (sha256_Sum256 signingInput) with
          | Err err => Err (Join (New "signing: RS256") err)
          | Ok sig => Ok sig
          end
      | None, None, None, Some m => Ok (hmac_SHA256 m signingInput)
      | None, None, None, None => Err ErrZeroKey
      end
  end.

(** ** Secrets (policy.go) *)
Definition minDistinct : Z := 8.

Definition publishedKeys : list string :=
  ["replace-with-a-32-byte-minimum-secret-in-production!"; "super-secret-32-byte-key-here!!!";
   "a-high-entropy-secret-kept-out-of-source-control"; "super-secret-key-change-me-in-production";
   "a-32-byte-minimum-hs256-signing-secret!!"; "very-secure-32-byte-secret-key!!";
   "kek-fixture-0123456789abcdefghij"].

Definition publishedMarkers : list string := ["minimum-hs256-signing-secret"].

(** bytes.Contains *)
Fixpoint Contains (b sub : bytes) : bool :=
  bool_decide (take (length sub) b = sub) || match b with [] => false | _ :: b' => Contains b' sub end.

Definition distinctBytes (key : bytes) : Z :=
  (fold_left (fun '(seen, n) b => if bool_decide (b ∈ seen) then (seen, n) else (b :: seen, n + 1)) key
     ([] : bytes, 0)).2.

Definition checkSecret (key : bytes) : option error :=
  if distinctBytes key <? minDistinct
  then Some (New "key is trivially guessable; generate it with crypto/rand")
  else if bool_decide (bytes_str key ∈ publishedKeys)
  then Some (New "key is a credential published in egauth's examples or docs")
  else if existsb (fun m => Contains key (str_bytes m)) publishedMarkers
  then Some (New "key is a near-copy of a credential published in egauth's examples or docs")
  else None.

(** ** Constructors (keys.go)

    HS256 derives its key; the others parse theirs with crypto/x509 and are not modelled. *)
Definition hs256Info : string := "egauth/jwt-hs256/v2".

Definition hs256KeyLength : Z := 32.

Definition minHS256Key : Z := 32.

Definition maxKeyIDLen : Z := 128.

Definition key_id_char (b : byte) : bool :=
  let c := Z_of_byte b in
  ((97 <=? c) && (c <=? 122)) || ((65 <=? c) && (c <=? 90)) || ((48 <=? c) && (c <=? 57))
  || bool_decide (b = "."%byte) || bool_decide (b = "_"%byte) || bool_decide (b = "-"%byte)
  || bool_decide (b = ":"%byte).

Definition checkKeyID (k : string) : option error :=
  if bool_decide (k = "") || (maxKeyIDLen <? Z.of_nat (length (str_bytes k)))
  then Some (ErrInvalidKeyID : error)
  else if forallb key_id_char (str_bytes k) then None else Some (ErrInvalidKeyID : error).

Definition HS256 (k : string) (key : bytes) : res Signer :=
  match checkKeyID k with
  | Some err => Err err
  | None =>
      if Z.of_nat (length key) <? minHS256Key
      then Err (Join ErrInvalidKey (New "HS256 key must be at least 32 bytes"))
      else match checkSecret key with
      | Some err => Err (Join ErrInvalidKey err)
      | None =>
          match hkdf_Key key [] hs256Info hs256KeyLength with
          | Err err => Err (Join ErrInvalidKey err)
          | Ok m => Ok (Some (mkPrivateKey None None None (Some m)
                       (mkPublicKey AlgHS256 k None None None (Some m))))
          end
      end
  end.

End crypto.

(** ** What the package relies on

    The halves of a pair and Go's documented behaviour on them. *)
Class CryptoLaws `{Crypto} := {
  ed_pair : EdPriv -> EdPub -> Prop;
  ec_pair : EcPriv -> EcPub -> Prop;
  rsa_pair : RsaPriv -> RsaPub -> Prop;
  ed_verifies p q m : ed_pair p q -> ed25519_Verify q m (ed25519_Sign p m) = true;
  ed_length p m : length (ed25519_Sign p m) = 64%nat;
  ec_verifies n p q d r s : ec_pair p q -> ecdsa_Sign n p d = Ok (r, s) -> ecdsa_Verify q d r s = true;
  ec_range n p d r s : ecdsa_Sign n p d = Ok (r, s) -> 0 <= r < 2 ^ 256 /\ 0 <= s < 2 ^ 256;
  rsa_verifies n p q d sig : rsa_pair p q -> rsa_SignPKCS1v15 n p d = Ok sig ->
    rsa_VerifyPKCS1v15 q d sig = true }.

(** A Signer as the constructors build it: one private key, and the public half of that key. *)
Inductive paired `{CryptoLaws} : privateKey -> Prop :=
  | paired_ed k p q : ed_pair p q ->
      paired (mkPrivateKey (Some p) None None None (mkPublicKey AlgEdDSA k (Some q) None None None))
  | paired_ec k p q : ec_pair p q ->
      paired (mkPrivateKey None (Some p) None None (mkPublicKey AlgES256 k None (Some q) None None))
  | paired_rsa k p q : rsa_pair p q ->
      paired (mkPrivateKey None None (Some p) None (mkPublicKey AlgRS256 k None None (Some q) None))
  | paired_mac k m :
      paired (mkPrivateKey None None None (Some m) (mkPublicKey AlgHS256 k None None None (Some m))).

Lemma HS256_paired `{CryptoLaws} k key s : HS256 k key = Ok s ->
  exists x, s = Some x /\ paired x /\ kid (pub x) = k /\ checkKeyID k = None.
Proof.
  unfold HS256. destruct (checkKeyID k); [done|]. intros Hs. repeat case_match; try discriminate Hs.
  injection Hs as <-. eexists. split_and!; [done|constructor|done|done].
Qed.

(** What a Signer signs, its Verifier accepts. *)
Lemma Verify_Sign `{CryptoLaws} k rnd input sig : paired k -> Sign true rnd (Some k) input = Ok sig ->
  Verify (Signer_Verifier (Some k)) (mkSigned (alg (pub k)) (kid (pub k)) input sig) = None.
Proof.
  intros Hk Hs. unfold Verify. cbn [Signer_Verifier Algorithm KeyID Input Signature].
  rewrite (bool_decide_eq_true_2 (alg (pub k) = alg (pub k))), (bool_decide_eq_true_2 (kid (pub k) = kid (pub k))) by done.
  cbn [negb andb].
  assert (verifies (pub k) input sig = true) as ->; [|done].
  destruct Hk as [k p q Hp|k p q Hp|k p q Hp|k m]; cbn [Sign negb ed_priv ec_priv rsa_priv mac_priv] in Hs;
    unfold verifies; cbn [pub ed ec rsa mac].
  - injection Hs as <-. by rewrite ed_length, ed_verifies.
  - destruct (ecdsa_Sign _ _ _) as [[r s]|] eqn:E; [|done].
    assert (sig = be_bytes 32 r ++ be_bytes 32 s) as -> by congruence.
    destruct (ec_range _ _ _ _ _ E) as [Hr Hss]. rewrite length_app, !length_be_bytes. cbn [negb Nat.add].
    rewrite take_app_length', drop_app_length' by (by rewrite length_be_bytes).
    rewrite (be_value_bytes 32 r Hr), (be_value_bytes 32 s Hss). by eapply ec_verifies.
  - destruct (rsa_SignPKCS1v15 _ _ _) as [s|] eqn:E; [|done]. injection Hs as <-. by eapply rsa_verifies.
  - injection Hs as <-. by rewrite bool_decide_eq_true_2.
Qed.

(** What a key accepts carries the key's own id, and its algorithm or the other name of Ed25519. *)
Lemma Verify_pins `{Crypto} v s : Verify v s = None ->
  exists k, v = Some k /\ KeyID s = kid k /\ verifies k (Input s) (Signature s) = true /\
    (Algorithm s = alg k \/ (ed k <> None /\ Algorithm s = algEd25519)).
Proof.
  unfold Verify. destruct v as [k|]; [|done]. destruct (_ && _) eqn:Ea; [done|].
  destruct (bool_decide_reflect (KeyID s = kid k)) as [Hk|]; [|done]. cbn [negb].
  destruct (verifies _ _ _) eqn:Ev; [|done]. intros _. exists k. split_and!; try done.
  apply andb_false_iff in Ea as [Ea|Ea]; [left; by bools|right].
  destruct (ed k); [|done]. split; [done|]. by bools.
Qed.
End Signing.
