(* ===== verification/Limiter.v ===== *)
(** Rate limits: store/limiter/limiter.go and the in-memory limiter store/limiter/memory/limiter.go.

    The tokens of a bucket are a float64.  A float64 is the rational it denotes, and each operation the
    exact one followed by [fl], the rounding to the nearest 53-bit significand, ties to even; the
    values that occur are 0 or between 2^-63 and 2^63, so there is no overflow and no subnormal.  The
    last section bounds what a bucket lets through, the rounding of every call included. *)
From Stdlib Require Import QArith Lqa.
From S2P Require Import Prelude Errors Tenant StoreBase.
Open Scope Z_scope.

(** ** Binary floating point *)
Module Float64.

(** [n / d] to the nearest integer, ties to even. *)
Definition round (n d : Z) : Z :=
  let q := n / d in
  let r := n mod d in
  if 2 * r <? d then q
  else if 2 * r =? d then (if Z.even q then q else q + 1)
  else q + 1.

(** The fraction [n / d] divided by [2 ^ e]. *)
Definition scale (n d e : Z) : Z * Z := if 0 <=? e then (n, d * 2 ^ e) else (n * 2 ^ (- e), d).

(** [m * 2 ^ e] *)
Definition dyadic (m e : Z) : Q := if 0 <=? e then inject_Z (m * 2 ^ e) else m # Z.to_pos (2 ^ (- e)).

(** The exponent at which the significand of [n / d] has 53 bits. *)
Definition exponent (n d : Z) : Z :=
  let e := Z.log2 n - Z.log2 d - 53 in
  let '(a, b) := scale n d e in
  if 2 ^ 53 * b <=? a then e + 1 else e.

Definition fl_pos (n d : Z) : Q := let e := exponent n d in let '(a, b) := scale n d e in dyadic (round a b) e.

Definition fl (x : Q) : Q :=
  let n := Qnum x in
  let d := Zpos (Qden x) in
  if n =? 0 then 0%Q else if n <? 0 then Qopp (fl_pos (- n) d) else fl_pos n d.

Definition of_int (z : Z) : Q := fl (inject_Z z).

Definition add (x y : Q) : Q := fl (x + y).

Definition sub (x y : Q) : Q := fl (x - y).

Definition mul (x y : Q) : Q := fl (x * y).

Definition div (x y : Q) : Q := fl (x / y).

Definition leb (x y : Q) : bool := Qle_bool x y.

Definition min (x y : Q) : Q := if leb x y then x else y.

(** The conversion to an int64, toward zero. *)
Definition to_int (x : Q) : Z := Z.quot (Qnum x) (Zpos (Qden x)).
End Float64.

(** ** limiter.go *)
Module Limiter.

Definition maxValueLen : Z := 256.

(** [Class] *)
Definition LoginIdentifier : Z := 1.

Definition LoginClient : Z := 2.

Definition CodeRequestIdentifier : Z := 3.

Definition CodeRequestClient : Z := 4.

Definition RegisterClient : Z := 5.

Definition SelfTest : Z := 6.

Definition classEnd : Z := 7.

Record Budget := mkBudget { Burst : Z; Refill : duration }.

Definition Hour : duration := 60 * Minute.

(** The product is an int64. *)
Definition PerInstance (b : Budget) (n : Z) : Budget :=
  if n <? 2 then b else mkBudget (Z.max (Z.quot (Burst b) n) 1) (i64_of_u64 (u64 (Refill b * n))).

Definition Class_Valid (c : Z) : bool := (LoginIdentifier <=? c) && (c <? classEnd).

Definition Budget_of (c : Z) : Budget :=
  if c =? LoginIdentifier then mkBudget 10 (6 * Minute)
  else if c =? LoginClient then mkBudget 30 (2 * Minute)
  else if c =? CodeRequestIdentifier then mkBudget 5 (12 * Minute)
  else if c =? CodeRequestClient then mkBudget 20 (3 * Minute)
  else if c =? RegisterClient then mkBudget 10 (6 * Minute)
  else if c =? SelfTest then mkBudget 3 Hour
  else mkBudget 0 0.

Definition PerTenant (c : Z) : bool := (c =? LoginIdentifier) || (c =? CodeRequestIdentifier).

Record Key := mkKey { Class : Z; KTenant : TenantID; KValue : string }.

Definition Key_Valid (k : Key) : bool :=
  if negb (Class_Valid (Class k)) || bool_decide (KValue k = "") || (maxValueLen <? Z.of_nat (String.length (KValue k)))
  then false
  else PerTenant (Class k) || bool_decide (KTenant k = zero_TenantID).

Definition TenantPrefix (c : Z) (t : TenantID) : bytes :=
  let id := str_bytes (tenant_id t) in
  [byte_of_Z c; byte_of_Z (Z.of_nat (length id) mod 256)] ++ id.

Record Decision := mkDecision { Allowed : bool; RetryAfter : duration }.

Section memory.
Context (sha256 : bytes -> bytes).

Definition StorageKey (k : Key) : bytes := TenantPrefix (Class k) (KTenant k) ++ sha256 (str_bytes (KValue k)).

(** ** memory/limiter.go *)
Definition MaxBuckets : Z := 2 ^ 20.

Record bucket := mkBucket { b_class : Z; tokens : Q; updated : time }.

Record Memory := mkMemory { buckets : gmap bytes bucket; instances : Z }.

Definition NewWithClock : Memory := mkMemory ∅ 1.

Definition SetInstances (n : Z) (l : Memory) : Memory := mkMemory (buckets l) (Z.max n 1).

Definition Ping (ctx : Ctx) : res unit := match ctx with Some err => Err err | None => Ok tt end.

Fixpoint is_prefix (p b : bytes) : bool :=
  match p, b with
  | [], _ => true
  | x :: p', y :: b' => bool_decide (x = y) && is_prefix p' b'
  | _, _ => false
  end.

(** The classes below 255 the loop keeps. *)
Definition tenant_classes : list Z :=
  List.filter (fun c => Class_Valid c && PerTenant c) (map Z.of_nat (List.seq 0 255)).

Definition EraseTenant (ctx : Ctx) (t : TenantID) (l : Memory) : Memory * res unit :=
  match ctx with
  | Some err => (l, Err err)
  | None =>
      (mkMemory (filter (fun kb => existsb (fun c => is_prefix (TenantPrefix c t) kb.1) tenant_classes = false)
                   (buckets l)) (instances l), Ok tt)
  end.

Definition refilled (b : bucket) (budget : Budget) (now : time) : Q :=
  let elapsed := Z.max (time_Sub now (updated b)) 0 in
  Float64.min (Float64.add (tokens b) (Float64.div (Float64.of_int elapsed) (Float64.of_int (Refill budget))))
    (Float64.of_int (Burst budget)).

(** Whether a bucket has refilled. *)
Definition full (n : Z) (now : time) (b : bucket) : bool :=
  let budget := PerInstance (Budget_of (b_class b)) n in
  Float64.leb (Float64.of_int (Burst budget)) (refilled b budget now).

Definition sweep (now : time) (l : Memory) : Memory * Z :=
  (mkMemory (filter (fun kb => full (instances l) now kb.2 = false) (buckets l)) (instances l),
   Z.of_nat (size (filter (fun kb => full (instances l) now kb.2 = true) (buckets l)))).

Definition ReapExpired (ctx : Ctx) (clk : time) (l : Memory) : Memory * res Z :=
  match ctx with
  | Some err => (l, Err err)
  | None => let '(l, n) := sweep clk l in (l, Ok n)
  end.

(** The bucket of a key, made when it is not there. *)
Definition bucket_of (c : Z) (sk : bytes) (budget : Budget) (now : time) (l : Memory) : Memory * res bucket :=
  match buckets l !! sk with
  | Some b => (l, Ok b)
  | None =>
      let l := if MaxBuckets <=? Z.of_nat (size (buckets l)) then (sweep now l).1 else l in
      if MaxBuckets <=? Z.of_nat (size (buckets l)) then (l, Err ErrCapacity)
      else (l, Ok (mkBucket c (Float64.of_int (Burst budget)) now))
  end.

Definition Allow (ctx : Ctx) (clk : time) (key : Key) (l : Memory) : Memory * res Decision :=
  match ctx with
  | Some err => (l, Err err)
  | None =>
      if negb (Key_Valid key) then (l, Err (New "limiter: invalid key"))
      else
        let sk := StorageKey key in
        let now := clk in
        let budget := PerInstance (Budget_of (Class key)) (instances l) in
        let '(l, r) := bucket_of (Class key) sk budget now l in
        match r with
        | Err err => (l, Err err)
        | Ok b =>
            let t := refilled b budget now in
            let u := if time_After now (updated b) then now else updated b in
            let put t := mkMemory (<[sk := mkBucket (b_class b) t u]> (buckets l)) (instances l) in
            if Float64.leb 1 t then (put (Float64.sub t 1), Ok (mkDecision true 0))
            else
              let wait := Float64.to_int (Float64.mul (Float64.sub 1 t) (Float64.of_int (Refill budget))) in
              (put t, Ok (mkDecision false (Z.max wait 1)))
        end
  end.
End memory.
End Limiter.

(** ** Rounding *)
Module Float64Facts.
Import Float64.

(** Half a unit in the last place of a significand of 53 bits: 2^-53. *)
Definition ulp : Q := 1 # 9007199254740992.

Lemma round_err n d : 0 < d -> 2 * Z.abs (round n d * d - n) <= d.
Proof.
  intros Hd. unfold round.
  pose proof (Z.div_mod n d ltac:(lia)). pose proof (Z.mod_pos_bound n d Hd).
  repeat case_match; lia.
Qed.

Lemma round_1 n : round n 1 = n.
Proof. unfold round. rewrite Z.mod_1_r, Z.div_1_r. done. Qed.

Lemma scale_pos n d e a b : 0 < n -> 0 < d -> scale n d e = (a, b) -> 0 < a /\ 0 < b.
Proof.
  unfold scale. intros Hn Hd H. case_match; simplify_eq; split; try done.
  - pose proof (Z.pow_pos_nonneg 2 e). nia.
  - pose proof (Z.pow_pos_nonneg 2 (- e)). nia.
Qed.

(** One step up in the exponent halves the fraction. *)
Lemma scale_succ n d e a b a' b' :
  scale n d e = (a, b) -> scale n d (e + 1) = (a', b') -> a * b' = 2 * (a' * b).
Proof.
  unfold scale. intros H H'. destruct (Z.leb_spec 0 e); destruct (Z.leb_spec 0 (e + 1)); simplify_eq; try lia.
  - rewrite Z.pow_add_r, Z.pow_1_r by lia. ring.
  - assert (e = -1) as -> by lia. change (- -1) with 1. change (-1 + 1) with 0. lia.
  - replace (- e) with (- (e + 1) + 1) by lia. rewrite Z.pow_add_r, Z.pow_1_r by lia. ring.
Qed.

Lemma scale_low n d a b : 0 < n -> 0 < d ->
  scale n d (Z.log2 n - Z.log2 d - 53) = (a, b) -> 2 ^ 52 * b <= a.
Proof.
  intros Hn Hd. pose proof (Z.log2_spec n Hn) as [Hn1 _]. pose proof (Z.log2_spec d Hd) as [_ Hd2].
  pose proof (Z.log2_nonneg n). pose proof (Z.log2_nonneg d). unfold scale. intros H'. case_match eqn:He; injection H' as <- <-.
  - apply Z.leb_le in He. etransitivity; [|exact Hn1].
    replace (Z.log2 n) with (52 + (Z.log2 n - Z.log2 d - 53) + (Z.log2 d + 1)) at 2 by lia.
    rewrite !Z.pow_add_r by lia.
    replace (Z.succ (Z.log2 d)) with (Z.log2 d + 1) in Hd2 by lia. rewrite Z.pow_add_r in Hd2 by lia.
    pose proof (Z.pow_pos_nonneg 2 (Z.log2 n - Z.log2 d - 53)). nia.
  - apply Z.leb_gt in He. remember (- (Z.log2 n - Z.log2 d - 53)) as k eqn:Hk.
    assert (2 ^ 52 * 2 ^ (Z.log2 d + 1) = 2 ^ Z.log2 n * 2 ^ k) as Heq
      by (rewrite <- !Z.pow_add_r by lia; f_equal; lia).
    replace (Z.succ (Z.log2 d)) with (Z.log2 d + 1) in Hd2 by lia.
    pose proof (Z.pow_pos_nonneg 2 k). nia.
Qed.

Lemma exponent_low n d a b : 0 < n -> 0 < d -> scale n d (exponent n d) = (a, b) -> 2 ^ 52 * b <= a.
Proof.
  intros Hn Hd. unfold exponent. set (e := Z.log2 n - Z.log2 d - 53).
  destruct (scale n d e) as [a0 b0] eqn:H0. case_match eqn:Hc.
  - intros H1. apply Z.leb_le in Hc. pose proof (scale_succ _ _ _ _ _ _ _ H0 H1).
    pose proof (scale_pos _ _ _ _ _ Hn Hd H0). pose proof (scale_pos _ _ _ _ _ Hn Hd H1). nia.
  - intros H1. rewrite H0 in H1. simplify_eq. by apply (scale_low n d).
Qed.

(** The error of a rounding is at most [ulp] times the value. *)
Lemma fl_pos_err n d : 0 < n ->
  ((n # d) * (1 - ulp) <= fl_pos n (Zpos d) /\ fl_pos n (Zpos d) <= (n # d) * (1 + ulp))%Q.
Proof.
  intros Hn. unfold fl_pos. destruct (scale n (Zpos d) (exponent n (Zpos d))) as [a b] eqn:Hs.
  pose proof (exponent_low n (Zpos d) a b Hn ltac:(lia) Hs) as Hlow.
  pose proof (scale_pos n (Zpos d) _ a b Hn ltac:(lia) Hs) as [Ha Hb].
  pose proof (round_err a b Hb) as Herr. set (m := round a b) in *. set (e := exponent n (Zpos d)) in *.
  unfold scale in Hs. unfold dyadic, ulp, Qminus, Qplus, Qmult, Qle, inject_Z; simpl Qnum; simpl Qden.
  rewrite ?Pos2Z.inj_mul. change (Zpos 9007199254740992) with (2 ^ 53). destruct (Z.leb_spec 0 e).
  - injection Hs as <- <-. simpl Qnum; simpl Qden. pose proof (Z.pow_pos_nonneg 2 e). split; nia.
  - injection Hs as <- <-. simpl Qnum; simpl Qden. pose proof (Z.pow_pos_nonneg 2 (- e) ltac:(lia) ltac:(lia)).
    rewrite Z2Pos.id by done. split; nia.
Qed.

Lemma fl_err x : (0 <= x -> x * (1 - ulp) <= fl x /\ fl x <= x * (1 + ulp))%Q.
Proof.
  destruct x as [n d]. unfold fl, Qle at 1; simpl Qnum; simpl Qden. intros Hx.
  case_match eqn:Hz.
  - apply Z.eqb_eq in Hz as ->. unfold ulp. split; unfold Qle; simpl; lia.
  - apply Z.eqb_neq in Hz. case_match eqn:Hneg; [apply Z.ltb_lt in Hneg; lia|]. apply fl_pos_err. lia.
Qed.

Lemma fl_nonneg x : (0 <= x -> 0 <= fl x)%Q.
Proof.
  intros Hx. destruct (fl_err x Hx) as [H _]. eapply Qle_trans; [|exact H].
  apply Qmult_le_0_compat; [done|unfold ulp, Qle; simpl; lia].
Qed.

(** Integers of at most 52 bits are exact. *)
Lemma of_int_small z : 0 <= z < 2 ^ 52 -> (of_int z == inject_Z z)%Q.
Proof.
  intros Hz. unfold of_int, fl, inject_Z; simpl Qnum; simpl Qden. case_match eqn:H0.
  { apply Z.eqb_eq in H0 as ->. done. }
  apply Z.eqb_neq in H0. case_match eqn:H1; [apply Z.ltb_lt in H1; lia|]. unfold fl_pos.
  assert (Z.log2 z < 52) by (apply Z.log2_lt_pow2; lia). pose proof (Z.log2_nonneg z).
  assert (exponent z 1 < 0) as He.
  { unfold exponent. replace (Z.log2 1) with 0 by done. case_match. case_match; lia. }
  unfold scale, dyadic. destruct (Z.leb_spec 0 (exponent z 1)); [lia|]. rewrite round_1.
  unfold Qeq; simpl. rewrite Z2Pos.id by (apply Z.pow_pos_nonneg; lia). lia.
Qed.

Lemma leb_spec x y : (leb x y = true <-> x <= y)%Q.
Proof. apply Qle_bool_iff. Qed.

Lemma min_le_r x y : (min x y <= y)%Q.
Proof.
  unfold min. destruct (leb x y) eqn:H; [by apply leb_spec|apply Qle_refl].
Qed.

Lemma min_le_l x y : (min x y <= x)%Q.
Proof.
  unfold min. destruct (leb x y) eqn:H; [apply Qle_refl|].
  apply Qlt_le_weak, Qnot_le_lt. intros Hle%leb_spec. congruence.
Qed.

Lemma min_nonneg x y : (0 <= x -> 0 <= y -> 0 <= min x y)%Q.
Proof. unfold min. by destruct (leb x y). Qed.

(** A quotient of two rounded integers. *)
Lemma quotient_err n d : 0 <= n -> 0 < d ->
  (0 <= div (of_int n) (of_int d) /\ div (of_int n) (of_int d) <= inject_Z n / inject_Z d * (1 + 6 * ulp))%Q.
Proof.
  intros Hn Hd. assert (0 <= inject_Z n)%Q as Hn' by (unfold Qle; simpl; lia).
  assert (0 < inject_Z d)%Q as Hd' by (unfold Qlt; simpl; lia).
  destruct (fl_err (inject_Z n) Hn') as [_ Hn2]. destruct (fl_err (inject_Z d) ltac:(by apply Qlt_le_weak)) as [Hd1 _].
  fold (of_int n) in Hn2. fold (of_int d) in Hd1.
  assert (0 < of_int d)%Q as Hfd by (eapply Qlt_le_trans; [|exact Hd1]; apply Qmult_lt_0_compat; [done|unfold ulp, Qlt; simpl; lia]).
  pose proof (fl_nonneg _ Hn') as Hfn. fold (of_int n) in Hfn.
  set (x := (inject_Z n / inject_Z d)%Q).
  assert (0 <= x)%Q as Hx by (apply Qle_shift_div_l; [done|lra]).
  assert (inject_Z n == x * inject_Z d)%Q as Hnx by (unfold x; field; by apply Qnot_eq_sym, Qlt_not_eq).
  clearbody x.
  assert (of_int n / of_int d <= x * (1 + 4 * ulp))%Q as Hq.
  { apply Qle_shift_div_r; [done|]. rewrite Hnx in Hn2.
    assert (x * (inject_Z d * (1 - ulp)) <= x * of_int d)%Q by (rewrite !(Qmult_comm x); by apply Qmult_le_compat_r).
    assert (0 <= x * inject_Z d)%Q by (apply Qmult_le_0_compat; lra).
    assert ((x * inject_Z d) * (1 + ulp) <= (x * inject_Z d) * ((1 - ulp) * (1 + 4 * ulp)))%Q.
    { rewrite !(Qmult_comm (x * inject_Z d)). apply Qmult_le_compat_r; [unfold ulp, Qle; simpl; lia|done]. }
    assert ((x * (inject_Z d * (1 - ulp))) * (1 + 4 * ulp) <= (x * of_int d) * (1 + 4 * ulp))%Q
      by (apply Qmult_le_compat_r; [done|unfold ulp, Qle; simpl; lia]).
    eapply Qle_trans; [exact Hn2|]. eapply Qle_trans; [eassumption|]. eapply Qle_trans; [|eapply Qle_trans; [eassumption|]].
    - apply Qle_lteq. right. ring.
    - apply Qle_lteq. right. ring. }
  assert (0 <= of_int n / of_int d)%Q as H0 by (apply Qle_shift_div_l; [done|lra]).
  unfold div. split; [by apply fl_nonneg|]. destruct (fl_err _ H0) as [_ H2].
  assert (x * (1 + 4 * ulp) * (1 + ulp) <= x * (1 + 6 * ulp))%Q.
  { rewrite <- Qmult_assoc, !(Qmult_comm x). apply Qmult_le_compat_r; [unfold ulp, Qle; simpl; lia|done]. }
  eapply Qle_trans; [exact H2|]. eapply Qle_trans; [|eassumption].
  apply Qmult_le_compat_r; [done|unfold ulp, Qle; simpl; lia].
Qed.
End Float64Facts.

(** ** What a bucket lets through *)
Module LimiterFacts.
Import Float64 Float64Facts Limiter.

Section facts.
Context (sha256 : bytes -> bytes).

(** The operations, each with the reading of the clock it makes. *)
Inductive op := OAllow (ctx : Ctx) (k : Key) | OReap (ctx : Ctx) | OErase (ctx : Ctx) (t : TenantID) | OSet (n : Z).

(** The limiter after an operation, and whether it let an attempt on the storage key through. *)
Definition step (sk : bytes) (clk : time) (o : op) (l : Memory) : Memory * bool :=
  match o with
  | OAllow ctx k =>
      let '(l, r) := Allow sha256 ctx clk k l in
      (l, bool_decide (StorageKey sha256 k = sk) && match r with Ok d => Allowed d | Err _ => false end)
  | OReap ctx => ((ReapExpired ctx clk l).1, false)
  | OErase ctx t => ((EraseTenant ctx t l).1, false)
  | OSet n => (SetInstances n l, false)
  end.

(** The limiter after a run, and how many attempts on the storage key went through. *)
Fixpoint run (sk : bytes) (ops : list (time * op)) (l : Memory) : Memory * Z :=
  match ops with
  | [] => (l, 0)
  | (t, o) :: ops' =>
      let '(l, ok) := step sk t o l in
      let '(l, n) := run sk ops' l in (l, n + if ok : bool then 1 else 0)
  end.

(** The clock does not go back, from [t] to [u]. *)
Fixpoint ordered (t : time) (ops : list (time * op)) (u : time) : Prop :=
  match ops with [] => t <= u | (t', _) :: ops' => t <= t' /\ ordered t' ops' u end.

(** Neither the number of instances nor the tenant of the storage key is touched. *)
Definition apart (sk : bytes) (o : op) : Prop :=
  match o with
  | OErase _ t => existsb (fun c => is_prefix (TenantPrefix c t) sk) tenant_classes = false
  | OSet _ => False
  | _ => True
  end.

Definition wf (l : Memory) : Prop := forall sk b, buckets l !! sk = Some b ->
  (0 <= tokens b)%Q /\ Class_Valid (b_class b) = true /\ head sk = Some (byte_of_Z (b_class b)).

Lemma refilled_nonneg b bud now : (0 <= tokens b)%Q -> 0 <= Burst bud -> 0 < Refill bud -> (0 <= refilled b bud now)%Q.
Proof.
  intros Ht HB HR. unfold refilled. apply min_nonneg.
  - apply fl_nonneg. apply (Qplus_le_compat 0 _ 0); [done|]. apply quotient_err; lia.
  - apply fl_nonneg. unfold Qle; simpl; lia.
Qed.

Lemma valid_classes c : Class_Valid c = true -> c = 1 \/ c = 2 \/ c = 3 \/ c = 4 \/ c = 5 \/ c = 6.
Proof. unfold Class_Valid, LoginIdentifier, classEnd. lia. Qed.

(** Budgets of a valid class, shared by at most a million instances. *)
Lemma budget_range c n : Class_Valid c = true -> 1 <= n <= 1000000 ->
  let b := PerInstance (Budget_of c) n in 1 <= Burst b <= 30 /\ 0 < Refill b.
Proof.
  intros Hc Hn. assert (1 <= Burst (Budget_of c) <= 30 /\ 0 < Refill (Budget_of c) <= 3600000000000) as [HB HR].
  { by destruct (valid_classes c Hc) as [->|[->|[->|[->|[->| ->]]]]]. }
  unfold PerInstance. case_match; simpl; [lia|].
  assert (Z.quot (Burst (Budget_of c)) n <= 30).
  { rewrite Z.quot_div_nonneg by lia. apply Z.div_le_upper_bound; nia. }
  split; [lia|]. unfold i64_of_u64, u64. rewrite Z.mod_small by (unfold two64; nia).
  case_match eqn:Hlt; [nia|]. apply Z.ltb_ge in Hlt. unfold two63 in Hlt. nia.
Qed.

Lemma lookup_sweep now l sk :
  buckets (sweep now l).1 !! sk = match buckets l !! sk with Some b => if full (instances l) now b then None else Some b | None => None end.
Proof.
  unfold sweep; simpl. destruct (buckets l !! sk) as [b|] eqn:Hb.
  - destruct (full (instances l) now b) eqn:Hf.
    + apply map_lookup_filter_None. right. intros b' Hb'. simplify_eq. simpl. congruence.
    + by apply map_lookup_filter_Some.
  - apply map_lookup_filter_None. by left.
Qed.

Lemma wf_sweep now l : wf l -> wf (sweep now l).1.
Proof.
  intros Hw sk b. rewrite lookup_sweep. destruct (buckets l !! sk) eqn:Hb; [|done]. case_match; [done|].
  intros ?. simplify_eq. by apply Hw.
Qed.

Lemma lookup_erase t sk l : existsb (fun c => is_prefix (TenantPrefix c t) sk) tenant_classes = false ->
  buckets (EraseTenant None t l).1 !! sk = buckets l !! sk.
Proof.
  intros Ha. simpl. destruct (buckets l !! sk) eqn:Hb.
  - apply map_lookup_filter_Some. by split.
  - apply map_lookup_filter_None. by left.
Qed.

Lemma bucket_of_spec c sk bud now l l' r : bucket_of c sk bud now l = (l', r) ->
  (l' = l \/ l' = (sweep now l).1) /\ instances l' = instances l /\
  match r with
  | Ok b => buckets l !! sk = Some b /\ l' = l \/ buckets l !! sk = None /\ b = mkBucket c (of_int (Burst bud)) now
  | Err _ => buckets l !! sk = None
  end.
Proof.
  unfold bucket_of. destruct (buckets l !! sk) as [b|] eqn:Hb; intros H; [simplify_eq; auto|].
  destruct (MaxBuckets <=? Z.of_nat (size (buckets l))); case_match; simplify_eq; auto.
Qed.

(** What Allow does to the limiter. *)
Lemma Allow_spec ctx clk k l l' r : Allow sha256 ctx clk k l = (l', r) ->
  l' = l /\ (forall d, r <> Ok d) \/
  Key_Valid k = true /\ instances l' = instances l /\
  let sk := StorageKey sha256 k in
  let bud := PerInstance (Budget_of (Class k)) (instances l) in
  exists l1, (l1 = l \/ l1 = (sweep clk l).1) /\
    (l' = l1 /\ (forall d, r <> Ok d) \/
     exists b ok, (buckets l !! sk = Some b \/ buckets l !! sk = None /\ b = mkBucket (Class k) (of_int (Burst bud)) clk) /\
       (l1 = l \/ buckets l !! sk = None) /\
       (if ok : bool then (1 <= refilled b bud clk)%Q else True) /\ (exists d, r = Ok d /\ Allowed d = ok) /\
       l' = mkMemory (<[sk := mkBucket (b_class b) (if ok then sub (refilled b bud clk) 1 else refilled b bud clk)
                                (Z.max clk (updated b))]> (buckets l1)) (instances l)).
Proof.
  unfold Allow. destruct ctx; [intros; simplify_eq; left; split; [done|by intros]|].
  destruct (Key_Valid k) eqn:Hv; simpl; [|intros; simplify_eq; left; split; [done|by intros]].
  set (bud := PerInstance _ _). destruct (bucket_of _ _ bud clk l) as [l1 rb] eqn:Hb.
  apply bucket_of_spec in Hb as (Hl1 & Hi & Hrb). intros H. right.
  assert (forall b, (if time_After clk (updated b) then clk else updated b) = Z.max clk (updated b)) as Hmax.
  { intros b. unfold time_After. destruct (Z.ltb_spec (updated b) clk); lia. }
  destruct rb as [b|e].
  - rewrite Hmax, Hi in H. destruct (leb 1 (refilled b bud clk)) eqn:Ht; simplify_eq.
    all: split_and!; try done; exists l1; split; [done|right; exists b].
    1: exists true. 2: exists false.
    all: split_and!; try done.
    all: try (by eexists).
    all: try (by apply leb_spec in Ht).
    all: destruct Hrb as [[? ?]|[? ?]]; auto.
  - injection H as <- <-. split_and!; try done. exists l1. split; [done|]. left. split; [done|by intros].
Qed.

Lemma byte_of_class c d : Class_Valid c = true -> Class_Valid d = true -> byte_of_Z c = byte_of_Z d -> c = d.
Proof.
  intros Hc Hd. destruct (valid_classes c Hc) as [->|[->|[->|[->|[->| ->]]]]];
    destruct (valid_classes d Hd) as [->|[->|[->|[->|[->| ->]]]]]; done.
Qed.

Lemma Key_Valid_class k : Key_Valid k = true -> Class_Valid (Class k) = true.
Proof. unfold Key_Valid. by destruct (Class_Valid (Class k)). Qed.

Lemma wf_step sk t o l : wf l -> 1 <= instances l <= 1000000 -> wf (step sk t o l).1.
Proof.
  intros Hw Hn. destruct o as [ctx k|ctx|ctx tn|n]; simpl.
  - destruct (Allow sha256 ctx t k l) as [l' r] eqn:Ha; simpl.
    apply Allow_spec in Ha as [[-> _]|(Hv & _ & l1 & Hl1 & Hcase)]; [done|].
    assert (wf l1) as Hw1 by (destruct Hl1 as [->| ->]; [done|by apply wf_sweep]).
    destruct Hcase as [[-> _]|(b & ok & Hb & _ & Hok & _ & ->)]; [done|].
    pose proof (budget_range (Class k) (instances l) (Key_Valid_class k Hv) Hn) as [HB HR].
    set (bud := PerInstance _ _) in *.
    assert ((0 <= tokens b)%Q /\ Class_Valid (b_class b) = true /\ head (StorageKey sha256 k) = Some (byte_of_Z (b_class b)))
      as (Ht & Hc & Hh).
    { destruct Hb as [Hb|[_ ->]]; [by apply Hw|]. simpl. split_and!; [|by apply Key_Valid_class|done].
      apply fl_nonneg. unfold Qle; simpl; lia. }
    intros sk' b'. simpl. rewrite lookup_insert_Some. intros [[<- <-]|[_ Hb']]; [|by apply Hw1]. simpl.
    split_and!; [|done|done].
    pose proof (refilled_nonneg b bud t Ht ltac:(lia) HR) as Hr. destruct ok; [|done].
    apply fl_nonneg. lra.
  - destruct ctx; [done|]. by apply wf_sweep.
  - destruct ctx; [done|]. intros sk' b'. simpl. intros [Hb' _]%map_lookup_filter_Some. by apply Hw.
  - intros sk' b' Hb'. by apply (Hw sk').
Qed.

(** The level of a bucket at an instant: what is left, refilled up to then; an absent one is full. *)
Definition level (bud : Budget) (s : time) (ob : option bucket) : Q :=
  match ob with
  | None => inject_Z (Burst bud)
  | Some b => min (tokens b + inject_Z (Z.max (s - updated b) 0) / inject_Z (Refill bud)) (inject_Z (Burst bud))
  end.

Lemma level_nonneg bud s ob : 0 <= Burst bud -> 0 < Refill bud ->
  (forall b, ob = Some b -> 0 <= tokens b)%Q -> (0 <= level bud s ob)%Q.
Proof.
  intros HB HR Hb. assert (0 <= inject_Z (Burst bud))%Q by (unfold Qle; simpl; lia).
  destruct ob as [b|]; simpl; [|done]. apply min_nonneg; [|done].
  apply (Qplus_le_compat 0 _ 0); [by apply Hb|]. apply Qle_shift_div_l; unfold Qlt, Qle; simpl; lia.
Qed.

Lemma level_le_burst bud s ob : (level bud s ob <= inject_Z (Burst bud))%Q.
Proof. destruct ob; simpl; [apply min_le_r|apply Qle_refl]. Qed.

Lemma min_glb x y z : (z <= x -> z <= y -> z <= min x y)%Q.
Proof. unfold min. by destruct (leb x y). Qed.

Lemma div_mono a b d : 0 < d -> a <= b -> (inject_Z a / inject_Z d <= inject_Z b / inject_Z d)%Q.
Proof.
  intros Hd Hab. assert (0 < inject_Z d)%Q by (unfold Qlt; simpl; lia).
  apply Qle_shift_div_l; [done|]. setoid_replace (inject_Z a / inject_Z d * inject_Z d)%Q with (inject_Z a) using relation Qeq by (field; lra).
  unfold Qle; simpl; lia.
Qed.

Lemma div_sum a b d : 0 < d -> (inject_Z (a + b) / inject_Z d == inject_Z a / inject_Z d + inject_Z b / inject_Z d)%Q.
Proof. intros Hd. assert (0 < inject_Z d)%Q by (unfold Qlt; simpl; lia). rewrite inject_Z_plus. field. lra. Qed.

(** A level rises by at most the time passed. *)
Lemma level_time bud s s' ob : 0 <= Burst bud -> 0 < Refill bud -> s <= s' ->
  (level bud s' ob <= level bud s ob + inject_Z (s' - s) / inject_Z (Refill bud))%Q.
Proof.
  intros HB HR Hs. pose proof (div_mono 0 (s' - s) (Refill bud) HR ltac:(lia)) as H0.
  assert (inject_Z 0 / inject_Z (Refill bud) == 0)%Q as Hz by reflexivity.
  destruct ob as [b|]; simpl; [|lra].
  pose proof (div_mono (Z.max (s' - updated b) 0) (Z.max (s - updated b) 0 + (s' - s)) (Refill bud) HR ltac:(lia)) as H1.
  rewrite div_sum in H1 by done.
  set (x := (tokens b + inject_Z (Z.max (s - updated b) 0) / inject_Z (Refill bud))%Q) in *.
  set (x' := (tokens b + inject_Z (Z.max (s' - updated b) 0) / inject_Z (Refill bud))%Q) in *.
  assert (x' <= x + inject_Z (s' - s) / inject_Z (Refill bud))%Q by (unfold x, x'; lra).
  pose proof (min_le_l x' (inject_Z (Burst bud))). pose proof (min_le_r x' (inject_Z (Burst bud))).
  unfold min at 2. destruct (leb x (inject_Z (Burst bud))); lra.
Qed.

(** What the rounding of one operation may add: 2^-44. *)
Definition eps : Q := 1 # 17592186044416.

Lemma refilled_level b bud now : (0 <= tokens b)%Q -> 1 <= Burst bud <= 30 -> 0 < Refill bud ->
  (refilled b bud now <= level bud now (Some b) + 240 * ulp)%Q /\ (refilled b bud now <= inject_Z (Burst bud))%Q.
Proof.
  intros Ht HB HR. pose proof (of_int_small (Burst bud) ltac:(lia)) as HBq.
  assert (refilled b bud now <= inject_Z (Burst bud))%Q as Hcap by (unfold refilled; rewrite <- HBq; apply min_le_r).
  split; [|done]. unfold refilled. set (el := Z.max (time_Sub now (updated b)) 0).
  destruct (quotient_err el (Refill bud) ltac:(lia) HR) as [Hq0 Hq]. set (q := div _ _) in *.
  pose proof (div_mono el (Z.max (now - updated b) 0) (Refill bud) HR ltac:(unfold el, time_Sub, two63; lia)) as Hel.
  simpl level. set (x := (inject_Z (Z.max (now - updated b) 0) / inject_Z (Refill bud))%Q) in *.
  set (x0 := (inject_Z el / inject_Z (Refill bud))%Q) in *.
  assert (inject_Z (Burst bud) <= 30)%Q as HB30 by (unfold Qle; simpl; lia).
  assert (0 <= x)%Q as Hx by (unfold x; apply Qle_shift_div_l; unfold Qlt, Qle; simpl; lia).
  destruct (leb (tokens b + x) (inject_Z (Burst bud))) eqn:Hle.
  - unfold min at 2. rewrite Hle. apply leb_spec in Hle. eapply Qle_trans; [apply min_le_l|].
    unfold add. destruct (fl_err (tokens b + q) ltac:(lra)) as [_ Hf]. unfold ulp in *. lra.
  - unfold min at 2. rewrite Hle. eapply Qle_trans; [apply min_le_r|]. rewrite HBq. unfold ulp. lra.
Qed.

Lemma level_now c t now u bud : now <= u -> (level bud now (Some (mkBucket c t u)) <= t)%Q.
Proof.
  intros Hu. simpl. eapply Qle_trans; [apply min_le_l|]. replace (Z.max (now - u) 0) with 0 by lia.
  setoid_replace (inject_Z 0 / inject_Z (Refill bud))%Q with 0%Q using relation Qeq by (unfold Qdiv; change (inject_Z 0) with 0%Q; ring). lra.
Qed.

Lemma level_swept bud c n now ob : PerInstance (Budget_of c) n = bud -> 1 <= Burst bud <= 30 -> 0 < Refill bud ->
  (forall b, ob = Some b -> (0 <= tokens b)%Q /\ b_class b = c) ->
  (level bud now (match ob with Some b => if full n now b then None else Some b | None => None end)
   <= level bud now ob + 240 * ulp)%Q.
Proof.
  intros Hbud HB HR Hb. destruct ob as [b|]; [|unfold ulp; lra]. destruct (Hb b eq_refl) as [Ht <-].
  destruct (full n now b) eqn:Hf; [|unfold ulp; lra].
  unfold full in Hf. rewrite Hbud in Hf. apply leb_spec in Hf. rewrite of_int_small in Hf by lia.
  destruct (refilled_level b bud now Ht HB HR) as [Hr _].
  change (level bud now None) with (inject_Z (Burst bud)). lra.
Qed.

Definition through (ok : bool) : Q := if ok then 1 else 0.

Section bucket.
Context (sk : bytes) (c n : Z) (bud : Budget).
Context (Hbud : PerInstance (Budget_of c) n = bud) (HB : 1 <= Burst bud <= 30) (HR : 0 < Refill bud).
Context (Hn : 1 <= n <= 1000000) (Hc : Class_Valid c = true) (Hsk : head sk = Some (byte_of_Z c)).

Lemma wf_class l b : wf l -> buckets l !! sk = Some b -> (0 <= tokens b)%Q /\ b_class b = c.
Proof.
  intros Hw Hb. destruct (Hw sk b Hb) as (Ht & Hv & Hh). split; [done|]. apply byte_of_class; [done|done|congruence].
Qed.

Lemma swept_step now l : wf l -> instances l = n ->
  (level bud now (buckets (sweep now l).1 !! sk) <= level bud now (buckets l !! sk) + 240 * ulp)%Q.
Proof.
  intros Hw <-. rewrite lookup_sweep. apply (level_swept bud c); [done|done|done|]. intros b Hb. by apply (wf_class l).
Qed.

(** An attempt on the storage key pays for itself. *)
Lemma charge_level b now ok : (0 <= tokens b)%Q -> (if ok : bool then (1 <= refilled b bud now)%Q else True) ->
  (through ok + level bud now (Some (mkBucket (b_class b) (if ok then sub (refilled b bud now) 1 else refilled b bud now)
      (Z.max now (updated b)))) <= level bud now (Some b) + 270 * ulp)%Q.
Proof.
  intros Ht Hok. destruct (refilled_level b bud now Ht HB HR) as [Hr Hcap].
  pose proof (level_now (b_class b) (if ok then sub (refilled b bud now) 1 else refilled b bud now) now
    (Z.max now (updated b)) bud ltac:(lia)) as Hl.
  destruct ok; unfold through; [|unfold ulp in *; lra].
  assert (inject_Z (Burst bud) <= 30)%Q as HB30 by (unfold Qle; simpl; lia).
  unfold sub in *. destruct (fl_err (refilled b bud now - 1) ltac:(lra)) as [_ Hf]. unfold ulp in *. lra.
Qed.

Lemma step_level t o l : wf l -> instances l = n -> apart sk o ->
  (through (step sk t o l).2 + level bud t (buckets (step sk t o l).1 !! sk) <= level bud t (buckets l !! sk) + eps)%Q
  /\ instances (step sk t o l).1 = n.
Proof.
  intros Hw Hi Ha. assert (270 * ulp <= eps)%Q as Heps by (unfold ulp, eps, Qle; simpl; lia).
  assert (0 <= ulp)%Q as Hu by (unfold ulp, Qle; simpl; lia).
  destruct o as [ctx k|ctx|ctx tn|?]; simpl; [|destruct ctx; simpl|destruct ctx; simpl|done].
  - destruct (Allow sha256 ctx t k l) as [l' r] eqn:Hal; simpl.
    assert (forall x : res Decision, (forall d, x <> Ok d) ->
      bool_decide (StorageKey sha256 k = sk) && match x with Ok d => Allowed d | Err _ => false end = false) as Hno.
    { intros [d|] Hx; [by destruct (Hx d)|]. apply andb_false_r. }
    apply Allow_spec in Hal as [[-> Hr]|(Hv & Hi' & l1 & Hl1 & Hcase)].
    { rewrite Hno by done. unfold through. split; [lra|done]. }
    split; [|congruence].
    assert (level bud t (buckets l1 !! sk) <= level bud t (buckets l !! sk) + 240 * ulp)%Q as Hs.
    { destruct Hl1 as [->| ->]; [lra|by apply swept_step]. }
    destruct Hcase as [[-> Hr]|(b & ok & Hb & Hkeep & Hok & (d & -> & Hd) & ->)].
    { rewrite Hno by done. unfold through. lra. }
    simpl. destruct (decide (StorageKey sha256 k = sk)) as [Heq|Hne].
    + rewrite Heq, bool_decide_eq_true_2 by done. rewrite lookup_insert_eq. simpl andb. rewrite Hd.
      assert (Class k = c) as Hck.
      { apply byte_of_class; [by apply Key_Valid_class|done|]. rewrite <- Heq in Hsk. simpl in Hsk. congruence. }
      assert (PerInstance (Budget_of (Class k)) (instances l) = bud) as Hbk by (rewrite Hck, Hi; done).
      rewrite Hbk in Hb, Hok |- *. rewrite Heq in Hb.
      assert ((0 <= tokens b)%Q /\ (level bud t (Some b) <= level bud t (buckets l !! sk))%Q) as [Ht Hlv].
      { destruct Hb as [Hb|[Hb ->]].
        - rewrite Hb. destruct (wf_class l b Hw Hb). split; [done|lra].
        - rewrite Hb. split; [apply fl_nonneg; unfold Qle; simpl; lia|apply level_le_burst]. }
      pose proof (charge_level b t ok Ht Hok). lra.
    + rewrite bool_decide_eq_false_2 by done. rewrite lookup_insert_ne by done. unfold through; simpl. lra.
  - split; [unfold through; lra|done].
  - split; [|done]. unfold through. pose proof (swept_step t l Hw Hi). simpl in *. lra.
  - split; [unfold through; lra|done].
  - split; [|done]. pose proof (lookup_erase tn sk l Ha) as He. simpl in He. rewrite He. unfold through. lra.
Qed.

Lemma run_level ops : forall l t u, wf l -> instances l = n -> Forall (fun x => apart sk x.2) ops -> ordered t ops u ->
  (inject_Z (run sk ops l).2 <= level bud t (buckets l !! sk) + inject_Z (u - t) / inject_Z (Refill bud)
    + inject_Z (Z.of_nat (length ops)) * eps)%Q.
Proof.
  induction ops as [|[t' o] ops IH]; intros l t u Hw Hi Ha Ho; simpl in Ho.
  - pose proof (level_nonneg bud t (buckets l !! sk) ltac:(lia) HR
      ltac:(intros b Hb; by apply (wf_class l b))) as Hl.
    pose proof (div_mono 0 (u - t) (Refill bud) HR ltac:(lia)) as H0.
    assert (inject_Z 0 / inject_Z (Refill bud) == 0)%Q as Hz by (unfold Qdiv; change (inject_Z 0) with 0%Q; ring).
    cbn [run snd length]. change (Z.of_nat 0) with 0. change (inject_Z 0) with 0%Q in *.
    setoid_replace (0 * eps)%Q with 0%Q using relation Qeq by ring. rewrite Hz in H0. lra.
  - destruct Ho as [Ht Ho]. inversion Ha as [|x y Hao Has]; subst x y. simpl in Hao.
    destruct (step_level t' o l Hw Hi Hao) as [Hs Hi'].
    simpl. destruct (step sk t' o l) as [l' ok] eqn:Hst. simpl in Hs, Hi'.
    assert (wf l') as Hw' by (pose proof (wf_step sk t' o l Hw ltac:(lia)) as Hx; by rewrite Hst in Hx).
    specialize (IH l' t' u Hw' Hi' Has Ho). destruct (run sk ops l') as [l'' m]. simpl in IH |- *.
    pose proof (level_time bud t t' (buckets l !! sk) ltac:(lia) HR Ht) as Hlt.
    pose proof (div_sum (t' - t) (u - t') (Refill bud) HR) as Hds. replace (t' - t + (u - t')) with (u - t) in Hds by lia.
    assert (inject_Z (m + (if ok then 1 else 0)) == inject_Z m + through ok)%Q as -> by (rewrite inject_Z_plus; by destruct ok).
    assert (inject_Z (Z.of_nat (S (length ops))) == inject_Z (Z.of_nat (length ops)) + 1)%Q as ->
      by (rewrite Nat2Z.inj_succ; unfold Z.succ; rewrite inject_Z_plus; reflexivity).
    unfold eps in *. lra.
Qed.
End bucket.

Lemma wf_new : wf NewWithClock.
Proof. intros sk b. simpl. by rewrite lookup_empty. Qed.

Lemma wf_run sk ops : forall l, wf l -> Forall (fun x => match x.2 with OSet n => n <= 1000000 | _ => True end) ops ->
  1 <= instances l <= 1000000 -> wf (run sk ops l).1 /\ 1 <= instances (run sk ops l).1 <= 1000000.
Proof.
  induction ops as [|[t o] ops IH]; intros l Hw Hf Hi; [done|]. inversion Hf as [|x y Ho Hf']; subst x y. simpl.
  pose proof (wf_step sk t o l Hw Hi) as Hw'.
  assert (1 <= instances (step sk t o l).1 <= 1000000) as Hi'.
  { destruct o as [ctx k|ctx|ctx tn|m]; simpl in *; try (destruct ctx; simpl; lia); [|lia].
    destruct (Allow sha256 ctx t k l) as [l' r] eqn:Hal; simpl.
    apply Allow_spec in Hal as [[-> _]|(_ & -> & _)]; lia. }
  destruct (step sk t o l) as [l' ok]. simpl in *. destruct (IH l' Hw' Hf' Hi') as [H1 H2].
  destruct (run sk ops l') as [l'' m]. done.
Qed.
End facts.
End LimiterFacts.

(** C29: A bucket never lets more through than its budget.  Whatever happened before, in any run of attempts
    on any keys, sweeps and erasures of other tenants, with a clock that does not go back from [t] to
    [u], the attempts let through on one storage key number at most one more than the burst of its
    class shared by the instances plus the tokens refilled between [t] and [u]: a bucket dropped by a
    sweep gains nothing, and the rounding of up to 2^44 operations adds up to less than one token. *)
Theorem limiter_bounds_attempts sha256 pre ops key t u :
  let sk := Limiter.StorageKey sha256 key in
  let l := (LimiterFacts.run sha256 sk pre Limiter.NewWithClock).1 in
  let bud := Limiter.PerInstance (Limiter.Budget_of (Limiter.Class key)) (Limiter.instances l) in
  Forall (fun x => match x.2 with LimiterFacts.OSet n => n <= 1000000 | _ => True end) pre ->
  Limiter.Key_Valid key = true -> Forall (fun x => LimiterFacts.apart sk x.2) ops ->
  LimiterFacts.ordered t ops u -> Z.of_nat (length ops) <= 2 ^ 44 ->
  (LimiterFacts.run sha256 sk ops l).2 * Limiter.Refill bud <= (Limiter.Burst bud + 1) * Limiter.Refill bud + (u - t).
Proof.
  intros sk l bud Hpre Hk Ha Ho Hlen.
  destruct (LimiterFacts.wf_run sha256 sk pre Limiter.NewWithClock LimiterFacts.wf_new Hpre
    ltac:(simpl; lia)) as [Hw Hi]. fold l in Hw, Hi.
  pose proof (LimiterFacts.Key_Valid_class key Hk) as Hc.
  destruct (LimiterFacts.budget_range _ _ Hc Hi) as [HB HR]. fold bud in HB, HR.
  pose proof (LimiterFacts.run_level sha256 sk (Limiter.Class key) (Limiter.instances l) bud eq_refl HB HR Hi Hc eq_refl
    ops l t u Hw eq_refl Ha Ho) as Hr.
  pose proof (LimiterFacts.level_le_burst bud t (Limiter.buckets l !! sk)) as Hb.
  set (m := (LimiterFacts.run sha256 sk ops l).2) in *.
  assert (inject_Z (Z.of_nat (length ops)) * LimiterFacts.eps <= 1)%Q as He.
  { unfold LimiterFacts.eps, Qle; simpl. lia. }
  assert (0 < inject_Z (Limiter.Refill bud))%Q as HRq by (unfold Qlt; simpl; lia).
  assert (inject_Z m * inject_Z (Limiter.Refill bud)
    <= (inject_Z (Limiter.Burst bud) + 1 + inject_Z (u - t) / inject_Z (Limiter.Refill bud)) * inject_Z (Limiter.Refill bud))%Q as Hm.
  { apply Qmult_le_compat_r; lra. }
  rewrite Zle_Qle. rewrite inject_Z_plus, !inject_Z_mult, inject_Z_plus.
  eapply Qle_trans; [exact Hm|]. apply Qle_lteq. right. change (inject_Z 1) with 1%Q. field. lra.
Qed.

(** Forty attempts of one client in forty seconds. *)
Definition limiter_key : Limiter.Key := Limiter.mkKey Limiter.LoginClient zero_TenantID "192.0.2.1".

Definition limiter_run : list (time * LimiterFacts.op) :=
  map (fun i => (Z.of_nat i * Second, LimiterFacts.OAllow None limiter_key)) (List.seq 0 40).

Definition limiter_sum (b : bytes) : bytes := b.

Lemma limiter_bounds_attempts_witness :
  (LimiterFacts.run limiter_sum (Limiter.StorageKey limiter_sum limiter_key) limiter_run Limiter.NewWithClock).2 = 30 /\
  30 * (2 * Minute) <= (30 + 1) * (2 * Minute) + (39 * Second - 0).
Proof.
  assert ((LimiterFacts.run limiter_sum (Limiter.StorageKey limiter_sum limiter_key) limiter_run Limiter.NewWithClock).2 = 30)
    as H by (vm_compute; reflexivity).
  split; [exact H|].
  pose proof (limiter_bounds_attempts limiter_sum [] limiter_run limiter_key 0 (39 * Second)
    ltac:(constructor) ltac:(vm_compute; reflexivity) ltac:(repeat constructor) ltac:(cbn; unfold Second; lia) ltac:(cbn; lia)) as Hb.
  cbn [LimiterFacts.run fst] in Hb. rewrite H in Hb. exact Hb.
Defined.
