(* ===== verification/Csrf.v ===== *)
(** The cross-site request gate: internal/csrf, over the wire form of a request.

    [Wire.Request] is what net/http parsed: the method, the host, the peer, the values of each header
    the gate reads, the query, and what reading the body gives.  url.Parse is the one of Redirect. *)
From S2P Require Import Prelude Errors Tenant GoText JsonText Cookie Redirect.

(** ** Requests as they arrive *)
Module Wire.

Record Request := mkRequest {
  http : Http.Request;
  Method : string;
  Host : string;
  RemoteAddr : string;
  Origin : list string;
  Referer : list string;
  SecFetchSite : list string;
  SecFetchMode : list string;
  XEgauthTransport : list string;
  XForwardedFor : list string;
  ContentType : list string;
  RawQuery : string;
  (** The bytes of the body and the error that ended it, if any. *)
  Body : bytes * option error }.

(** [strings.EqualFold] against an ASCII word: of the runes beyond ASCII only U+017F and U+212A fold to
    letters. *)
Definition EqualFold (b : bytes) (word : string) : bool :=
  bool_decide (JsonText.fold_name b = JsonText.fold_name (str_bytes word)).

(** The text before the first occurrence of [p], and what follows it. *)
Fixpoint CutString (p b : bytes) : option (bytes * bytes) :=
  if has_prefix p b then Some ([], drop (length p) b)
  else match b with
       | [] => None
       | c :: b' => '(x, y) ← CutString p b'; Some (c :: x, y)
       end.

(** The number of occurrences of [p] that do not overlap, within [n] bytes. *)
Fixpoint count_n (n : nat) (p b : bytes) : nat :=
  match n with
  | O => 0
  | S n' => match CutString p b with None => 0 | Some (_, rest) => S (count_n n' p rest) end
  end.

Definition Count (p b : bytes) : nat := count_n (length b) p b.

Definition TrimPrefix (p b : bytes) : bytes := if has_prefix p b then drop (length p) b else b.

Definition has_suffix (p b : bytes) : bool := has_prefix (rev p) (rev b).

(** [net/url.splitHostPort] *)
Definition digits (b : bytes) : bool := forallb Url.digit b.

Definition splitHostPort (hp : bytes) : bytes * bytes :=
  let '(host, port) :=
    match cut_last ":"%byte hp with
    | Some (h, p) => if digits p then (h, p) else (hp, [])
    | None => (hp, [])
    end in
  (if has_prefix ["["%byte] host && has_suffix ["]"%byte] host
   then take (length host - 2) (drop 1 host) else host, port).

Definition Hostname (u : Url.URL) : bytes := (splitHostPort (Url.Host u)).1.

Definition Port (u : Url.URL) : bytes := (splitHostPort (Url.Host u)).2.
End Wire.

Module Csrf.
Import Wire.

Definition tenantMarker : string := "{tenant}".

Definition bearerScheme : string := "bearer".

(** [public] is empty in the zero Origins. *)
Record Origins := mkOrigins { public : bytes; extra : list bytes; spa : list bytes }.

Definition zero_Origins : Origins := mkOrigins [] [] [].

Definition asciiLower (b : bytes) : bytes := map ascii_lower b.

Definition invalid {A} (reason : string) : res A := Err (Join CErrInvalidOrigin (New reason)).

Section origins.
Context `{NetURL}.

(** [label] is the marker exactly when [marked]. *)
Definition canonical (raw : bytes) (templated : bool) : res bytes :=
  match CutString (str_bytes "://") raw with
  | None => invalid "no scheme"
  | Some (scheme, rest) =>
      let marked := contains (str_bytes tenantMarker) rest in
      if marked && (negb templated || negb (has_prefix (str_bytes (tenantMarker +:+ ".")) rest)
                    || negb (Nat.eqb (Count (str_bytes tenantMarker) raw) 1))
      then invalid "misplaced {tenant}"
      else
        let rest := if marked then "t"%byte :: TrimPrefix (str_bytes tenantMarker) rest else rest in
        match Url.Parse (scheme ++ str_bytes "://" ++ rest) with
        | None => invalid "parse"
        | Some u =>
            let s := ToLower (Url.Scheme u) in
            if (negb (bool_decide (s = str_bytes "https")) && negb (bool_decide (s = str_bytes "http")))
               || bool_decide (Url.Host u = []) || Url.User u || negb (bool_decide (Url.Path u = []))
               || negb (bool_decide (Url.RawQuery u = [])) || negb (bool_decide (Url.Fragment u = []))
               || Url.ForceQuery u || negb (bool_decide (Url.Opaque u = []))
            then invalid (bytes_str raw)
            else
              let host := asciiLower (Hostname u) in
              let host := if bool_decide (":"%byte ∈ Hostname u) then ["["%byte] ++ host ++ ["]"%byte] else host in
              let port := Port u in
              let host :=
                if negb (bool_decide (port = []))
                   && (negb (bool_decide (s = str_bytes "https")) || negb (bool_decide (port = str_bytes "443")))
                   && (negb (bool_decide (s = str_bytes "http")) || negb (bool_decide (port = str_bytes "80")))
                then host ++ ":"%byte :: port else host in
              let host := if marked then str_bytes tenantMarker ++ TrimPrefix ["t"%byte] host else host in
              Ok (s ++ str_bytes "://" ++ host)
        end
  end.

Fixpoint canonical_all (l : list bytes) : res (list bytes) :=
  match l with
  | [] => Ok []
  | e :: l' => c ← canonical e false; cs ← canonical_all l'; Ok (c :: cs)
  end.

Definition NewOrigins (public : bytes) (extra : list bytes) : res Origins :=
  p ← canonical public true; cs ← canonical_all extra; Ok (mkOrigins p cs []).

Definition WithSameSite (o : Origins) (spa : list bytes) : res Origins :=
  cs ← canonical_all spa; Ok (mkOrigins (public o) (extra o) cs).
End origins.

Definition SameSite (o : Origins) : list bytes := spa o.

Definition Origins_IsZero (o : Origins) : bool :=
  bool_decide (public o = []) && bool_decide (extra o = []) && bool_decide (spa o = []).

(** [strings.Replace(b, p, by, 1)] *)
Definition replace_first (p by_ b : bytes) : bytes :=
  match CutString p b with None => b | Some (x, y) => x ++ by_ ++ y end.

Definition forTenant (o : Origins) (t : TenantID) : list bytes :=
  (if bool_decide (public o = []) then []
   else if contains (str_bytes tenantMarker) (public o)
   then if TenantID_IsZero t then []
        else [replace_first (str_bytes tenantMarker) (asciiLower (str_bytes (tenant_id t))) (public o)]
   else [public o]) ++ extra o.

Definition For (o : Origins) (t : TenantID) : list bytes := forTenant o t ++ spa o.

Definition ForWithoutSPA (o : Origins) (t : TenantID) : list bytes := forTenant o t.

(** ** The check *)
Record Policy := mkPolicy {
  pOrigins : list bytes;
  pSameSite : list bytes;
  SetsCookies : bool;
  Authenticated : bool;
  BearerTransport : bool }.

Definition safe (method : string) : bool :=
  bool_decide (method = "GET") || bool_decide (method = "HEAD") || bool_decide (method = "OPTIONS").

Definition deny (reason : string) : option error := Some (Join ErrForbidden (New reason)).

(** The value of a header sent once, and how many there are. *)
Definition single (vs : list string) : bytes * nat :=
  match vs with
  | [v] => (TrimSpace (str_bytes v), 1%nat)
  | _ => ([], length vs)
  end.

Definition contains (trusted : list bytes) (origin : bytes) : bool :=
  existsb (fun t => negb (bool_decide (t = [])) && bool_decide (t = origin)) trusted.

Definition safeFetch (r : Request) : option error :=
  let '(site, n) := single (SecFetchSite r) in
  if Nat.ltb 1 n then deny "duplicate Sec-Fetch-Site"
  else if negb (EqualFold site "cross-site") then None
  else
    let '(mode, n) := single (SecFetchMode r) in
    if Nat.eqb n 1 && EqualFold mode "navigate" then None else deny "cross-site non-navigation request".

Definition fetchSite (r : Request) (sameSite : list bytes) : option error :=
  let '(site, n) := single (SecFetchSite r) in
  if Nat.eqb n 0 then None
  else if Nat.ltb 1 n then deny "duplicate Sec-Fetch-Site"
  else if EqualFold site "same-origin" || EqualFold site "none" then None
  else if EqualFold site "same-site"
  then
    let '(origin, n) := single (Origin r) in
    if Nat.eqb n 1 && contains sameSite (asciiLower origin) then None
    else deny "Sec-Fetch-Site same-site from an origin that is not a single-page application origin"
  else deny ("Sec-Fetch-Site " +:+ bytes_str site).

Section check.
Context `{NetURL}.

Definition originMatch (r : Request) (trusted : list bytes) : option error :=
  let '(origin, n) := single (Origin r) in
  if Nat.ltb 1 n then deny "duplicate Origin"
  else if Nat.eqb n 1
  then
    if bool_decide (origin = str_bytes "null") || negb (contains trusted (asciiLower origin))
    then deny "untrusted Origin" else None
  else
    let '(ref, n) := single (Referer r) in
    if negb (Nat.eqb n 1) then deny "no Origin and no single Referer"
    else
      match Url.Parse ref with
      | None => deny "unparsable Referer"
      | Some u =>
          if Url.User u || bool_decide (Url.Host u = []) || negb (bool_decide (Url.Opaque u = []))
          then deny "unparsable Referer"
          else if negb (contains trusted (asciiLower (Url.Scheme u ++ str_bytes "://" ++ Url.Host u)))
          then deny "untrusted Referer" else None
      end.

Definition BearerTransportHeader (r : Request) : bool :=
  let '(v, n) := single (XEgauthTransport r) in Nat.eqb n 1 && EqualFold v bearerScheme.

Definition BearerAuthorization (r : Request) : bool :=
  let '(auth, n) := single (Http.Authorization (http r)) in
  if negb (Nat.eqb n 1) then false
  else
    let '(scheme, token, ok) := Cut " "%byte auth in
    ok && EqualFold scheme bearerScheme && negb (bool_decide (TrimSpace token = [])).

Definition bearerExempt (r : Request) : bool := BearerTransportHeader r || BearerAuthorization r.

Definition Check (r : Request) (p : Policy) : option error :=
  let hasCookie := Cookie.Present (http r) in
  if safe (Method r)
  then if negb (Authenticated p) || negb hasCookie then None else safeFetch r
  else if negb hasCookie && ((BearerTransport p && bearerExempt r) || negb (SetsCookies p)) then None
  else match fetchSite r (pSameSite p) with
       | Some err => Some err
       | None => originMatch r (pOrigins p)
       end.
End check.
End Csrf.
