(* ===== verification/ClientAddr.v ===== *)
(** The client of a request: internal/clientaddr, over the addresses of net/netip.

    The parsers of net/netip and net.SplitHostPort, the prefixes and the text of an address are written
    out.  An address is its value as an integer, with the zone of an IPv6 one. *)
From S2P Require Import Prelude Errors GoText JsonText Redirect Csrf.
Import Wire.

Module Netip.

Inductive Addr := ZeroAddr | V4 (n : Z) | V6 (n : Z) (zone : bytes).

#[global] Instance Addr_eq_dec : EqDecision Addr.
Proof. solve_decision. Defined.

Definition IsValid (a : Addr) : bool := match a with ZeroAddr => false | _ => true end.

Definition Is4 (a : Addr) : bool := match a with V4 _ => true | _ => false end.

Definition Is6 (a : Addr) : bool := match a with V6 _ _ => true | _ => false end.

(** An IPv4 address mapped into ::ffff:0:0/96. *)
Definition Is4In6 (a : Addr) : bool := match a with V6 n _ => n / 2 ^ 32 =? 65535 | _ => false end.

Definition Unmap (a : Addr) : Addr :=
  match a with V6 n _ => if Is4In6 a then V4 (n mod 2 ^ 32) else a | _ => a end.

Definition WithZone (zone : bytes) (a : Addr) : Addr := match a with V6 n _ => V6 n zone | _ => a end.

Definition IsUnspecified (a : Addr) : bool := bool_decide (a = V4 0) || bool_decide (a = V6 0 []).

Definition BitLen (a : Addr) : Z := match a with ZeroAddr => 0 | V4 _ => 32 | V6 _ _ => 128 end.

Definition value (a : Addr) : Z := match a with ZeroAddr => 0 | V4 n | V6 n _ => n end.

Definition IsPrivate (a : Addr) : bool :=
  match Unmap a with
  | V4 n => (n / 2 ^ 24 =? 10) || (n / 2 ^ 20 =? 172 * 16 + 1) || (n / 2 ^ 16 =? 192 * 256 + 168)
  | V6 n _ => n / 2 ^ 121 =? 126
  | ZeroAddr => false
  end.

Definition IsLoopback (a : Addr) : bool :=
  match Unmap a with V4 n => n / 2 ^ 24 =? 127 | V6 n _ => n =? 1 | ZeroAddr => false end.

(** ** Parsing *)
(** A decimal number without leading zeros, at most 255. *)
Definition octet (b : bytes) : option Z :=
  match b with
  | [] => None
  | c :: rest =>
      if negb (digits b) || (bool_decide (c = "0"%byte) && negb (bool_decide (rest = []))) then None
      else v ← JsonText.parse_digits b 0; if 255 <? v then None else Some v
  end.

Definition parseIPv4Fields (b : bytes) : option Z :=
  match split "."%byte b with
  | [p; q; r; s] =>
      p ← octet p; q ← octet q; r ← octet r; s ← octet s;
      Some (((p * 256 + q) * 256 + r) * 256 + s)
  | _ => None
  end.

(** The hexadecimal digits in front, their value and what follows. *)
Fixpoint hex_run (b : bytes) (acc : Z) : list byte * Z * bytes :=
  match b with
  | c :: b' =>
      match Url.hex_value c with
      | Some x => let '(ds, v, rest) := hex_run b' (16 * acc + x) in (c :: ds, v, rest)
      | None => ([], acc, b)
      end
  | [] => ([], acc, [])
  end.

(** The loop over the groups, at most [n] turns: [groups] are the 16-bit groups read so far, last one
    first, and [ellipsis] the number of groups before a double colon.  It gives the groups, the
    ellipsis and what is left of the text. *)
Fixpoint groups_loop (n : nat) (s : bytes) (groups : list Z) (ellipsis : option nat)
  : option (list Z * option nat * bytes) :=
  match n with
  | O => Some (groups, ellipsis, s)
  | S n' =>
      let '(ds, acc, rest) := hex_run s 0 in
      let i := length groups in
      if Nat.ltb 4 (length ds) || bool_decide (ds = []) then None
      else match rest with
      | [] => Some (acc :: groups, ellipsis, [])
      | c :: rest' =>
          if bool_decide (c = "."%byte)
          then
            if (bool_decide (ellipsis = None) && negb (Nat.eqb i 6)) || Nat.ltb 6 i then None
            else v ← parseIPv4Fields s; Some (v mod 65536 :: v / 65536 :: groups, ellipsis, [])
          else if negb (bool_decide (c = ":"%byte)) || bool_decide (rest' = []) then None
          else match rest' with
          | d :: rest'' =>
              if bool_decide (d = ":"%byte)
              then match ellipsis with
                   | Some _ => None
                   | None =>
                       match rest'' with
                       | [] => Some (acc :: groups, Some (S i), [])
                       | _ => groups_loop n' rest'' (acc :: groups) (Some (S i))
                       end
                   end
              else groups_loop n' rest' (acc :: groups) ellipsis
          | [] => None
          end
      end
  end.

(** The value of groups, the first one most significant. *)
Definition groups_value (l : list Z) : Z := fold_left (fun a g => a * 65536 + g) l 0.

Definition finish_groups (groups : list Z) (ellipsis : option nat) : option Z :=
  let groups := rev groups in
  match ellipsis with
  | None => if Nat.eqb (length groups) 8 then Some (groups_value groups) else None
  | Some k =>
      if Nat.leb 8 (length groups) then None
      else Some (groups_value (take k groups ++ repeat 0 (8 - length groups) ++ drop k groups))
  end.

Definition parseIPv6 (b : bytes) : option Addr :=
  let '(s, zone, found) := Cut "%"%byte b in
  if found && bool_decide (zone = []) then None
  else
    let lead := has_prefix (str_bytes "::") s in
    let s := if lead then drop 2 s else s in
    if lead && bool_decide (s = []) then Some (V6 0 zone)
    else
      '(groups, ellipsis, rest) ← groups_loop 8 s [] (if lead then Some 0%nat else None);
      if negb (bool_decide (rest = [])) then None
      else v ← finish_groups groups ellipsis; Some (V6 v zone).

(** The first of a dot, a colon and a percent sign decides. *)
Fixpoint family (b : bytes) : option bool :=
  match b with
  | [] => None
  | c :: b' =>
      if bool_decide (c = "."%byte) then Some false
      else if bool_decide (c = ":"%byte) then Some true
      else if bool_decide (c = "%"%byte) then None
      else family b'
  end.

Definition ParseAddr (b : bytes) : option Addr :=
  match family b with
  | Some false => n ← parseIPv4Fields b; Some (V4 n)
  | Some true => parseIPv6 b
  | None => None
  end.

(** [strconv.ParseUint(port, 10, 16)] succeeds. *)
Definition port_ok (b : bytes) : bool :=
  negb (bool_decide (b = [])) && digits b
  && match JsonText.parse_digits b 0 with Some v => v <=? 65535 | None => false end.

(** The address of a ParseAddrPort. *)
Definition ParseAddrPort (b : bytes) : option Addr :=
  '(ip, port) ← cut_last ":"%byte b;
  if negb (port_ok port) then None
  else match ip with
  | [] => None
  | c :: ip' =>
      if bool_decide (c = "["%byte)
      then
        if negb (has_suffix ["]"%byte] ip') then None
        else a ← ParseAddr (take (length ip' - 1) ip'); if Is4 a then None else Some a
      else a ← ParseAddr ip; if Is6 a then None else Some a
  end.

(** [net.SplitHostPort] *)
Definition SplitHostPort (b : bytes) : option (bytes * bytes) :=
  '(before, port) ← cut_last ":"%byte b;
  match b with
  | "["%byte :: rest =>
      let '(host, after_, found) := Cut "]"%byte rest in
      if negb found || negb (bool_decide (before = "["%byte :: host ++ ["]"%byte]))
         || bool_decide ("["%byte ∈ rest) || bool_decide ("]"%byte ∈ after_)
      then None else Some (host, port)
  | _ =>
      if bool_decide (":"%byte ∈ before) || bool_decide ("["%byte ∈ b) || bool_decide ("]"%byte ∈ b)
      then None else Some (before, port)
  end.

(** ** Prefixes; -1 bits in an invalid one *)
Record Prefix := mkPrefix { addr : Addr; bits : Z }.

Definition Prefix_IsValid (p : Prefix) : bool := 0 <=? bits p.

Definition PrefixFrom (a : Addr) (bits : Z) : Prefix :=
  mkPrefix (WithZone [] a) (if IsValid a && (0 <=? bits) && (bits <=? BitLen a) then bits else -1).

(** The bits above the prefix length. *)
Definition top (a : Addr) (bits : Z) : Z := value a / 2 ^ (BitLen a - bits).

Definition Masked (p : Prefix) : Prefix :=
  if negb (Prefix_IsValid p) then mkPrefix ZeroAddr (-1)
  else
    let n := top (addr p) (bits p) * 2 ^ (BitLen (addr p) - bits p) in
    mkPrefix (match addr p with V4 _ => V4 n | V6 _ z => V6 n z | ZeroAddr => ZeroAddr end) (bits p).

Definition Contains (p : Prefix) (a : Addr) : bool :=
  Prefix_IsValid p && (BitLen (addr p) =? BitLen a) && IsValid a
  && match a with V6 _ z => bool_decide (z = []) | _ => true end
  && (top a (bits p) =? top (addr p) (bits p)).

(** ** Texts *)
Definition decimal (z : Z) : bytes := JsonText.AppendInt z.

Fixpoint hex_digits (n : nat) (z : Z) (acc : bytes) : bytes :=
  match n with
  | O => acc
  | S n' => let acc := JsonText.hex (z mod 16) :: acc in if z <? 16 then acc else hex_digits n' (z / 16) acc
  end.

Definition group_of (n : Z) (i : nat) : Z := n / 2 ^ (16 * (7 - Z.of_nat i)) mod 65536.

Definition groups_of (n : Z) : list Z := map (group_of n) (seq 0 8).

(** The length of the run of zeros in front. *)
Fixpoint zeros (l : list Z) : nat := match l with 0 :: l' => S (zeros l') | _ => 0 end.

(** The first longest run of two zero groups at least: where it starts and ends. *)
Definition zero_run (gs : list Z) : nat * nat :=
  fold_left (fun best i => let l := zeros (drop i gs) in
    if Nat.leb 2 l && Nat.ltb (best.2 - best.1) l then (i, (i + l)%nat) else best) (seq 0 8) (255%nat, 255%nat).

Fixpoint append_groups (n i : nat) (gs : list Z) (run : nat * nat) : bytes :=
  match n with
  | O => []
  | S n' =>
      if Nat.leb 8 i then []
      else if Nat.eqb i run.1
      then str_bytes "::" ++
        (if Nat.leb 8 run.2 then []
         else hex_digits 4 (nth run.2 gs 0) [] ++ append_groups n' (S run.2) gs run)
      else (if Nat.ltb 0 i then [":"%byte] else []) ++ hex_digits 4 (nth i gs 0) [] ++ append_groups n' (S i) gs run
  end.

Definition string4 (n : Z) : bytes :=
  join_with "."%byte (map (fun k => decimal (n / 2 ^ (8 * k) mod 256)) [3; 2; 1; 0]).

Definition String (a : Addr) : bytes :=
  match a with
  | ZeroAddr => str_bytes "invalid IP"
  | V4 n => string4 n
  | V6 n zone =>
      (if Is4In6 a then str_bytes "::ffff:" ++ string4 (n mod 2 ^ 32)
       else append_groups 8 0 (groups_of n) (zero_run (groups_of n)))
      ++ (if bool_decide (zone = []) then [] else "%"%byte :: zone)
  end.

Definition Prefix_String (p : Prefix) : bytes :=
  if negb (Prefix_IsValid p) then str_bytes "invalid Prefix"
  else String (addr p) ++ "/"%byte :: decimal (bits p).
End Netip.

Module ClientAddr.
Import Netip.

Definition minIPv4Bits : Z := 8.

Definition minIPv6Bits : Z := 16.

Definition ipv6KeyBits : Z := 64.

Definition mappedBits : Z := 96.

(** [mode] *)
Definition modeDirect : Z := 1.

Definition modeTrusted : Z := 2.

Record Policy := mkPolicy { mode : Z; trusted : list Prefix }.

Definition Direct : Policy := mkPolicy modeDirect [].

Definition too_broad {A} (p : Prefix) : res A := Err (Join ErrPrefixTooBroad (New (bytes_str (Prefix_String p)))).

Definition normalisePrefix (p : Prefix) : res Prefix :=
  if negb (Prefix_IsValid p) then Err (Join AErrInvalidPolicy (New "invalid prefix"))
  else if Is4In6 (addr p) && (bits p <? mappedBits + minIPv4Bits) then too_broad p
  else
    let p := if Is4In6 (addr p) then PrefixFrom (Unmap (addr p)) (bits p - mappedBits) else p in
    if bits p <? (if Is4 (addr p) then minIPv4Bits else minIPv6Bits) then too_broad p
    else Ok (Masked p).

Fixpoint normalise_all (l : list Prefix) : res (list Prefix) :=
  match l with
  | [] => Ok []
  | p :: l' => n ← normalisePrefix p; ns ← normalise_all l'; Ok (n :: ns)
  end.

Definition Trusted (first : Prefix) (more : list Prefix) : res Policy :=
  out ← normalise_all (first :: more); Ok (mkPolicy modeTrusted out).

(** [Client], with the address it resolved to. *)
Record Client := mkClient { c_addr : Addr }.

Definition Key (c : Client) : bytes :=
  if Is4 (c_addr c) then String (c_addr c) else Prefix_String (Masked (PrefixFrom (c_addr c) ipv6KeyBits)).

Definition Client_IsZero (c : Client) : bool := negb (IsValid (c_addr c)).

(** [New]: the resolver is its policy. *)
Definition New_ (p : Policy) : res Policy :=
  if mode p =? modeDirect then Ok p
  else if mode p =? modeTrusted
  then if bool_decide (length (trusted p) = 0%nat) then Err AErrInvalidPolicy else Ok p
  else Err AErrInvalidPolicy.

Definition clean (a : Addr) : option Addr :=
  let a := WithZone [] (Unmap a) in if IsValid a && negb (IsUnspecified a) then Some a else None.

Definition parseHost (s : bytes) : option Addr :=
  match ParseAddrPort s with
  | Some a => clean a
  | None =>
      match ParseAddr s with
      | Some a => clean a
      | None => '(host, _) ← SplitHostPort s; a ← ParseAddr host; clean a
      end
  end.

Definition trusts (pol : Policy) (a : Addr) : bool := existsb (fun p => Contains p a) (trusted pol).

Definition forwardedFor (r : Wire.Request) : list bytes :=
  List.filter (fun s => negb (bool_decide (s = [])))
    (map TrimSpace (concat (map (fun line => split ","%byte (str_bytes line)) (XForwardedFor r)))).

(** The loop over the hops, the last one first. *)
Fixpoint walk (pol : Policy) (current : Addr) (hops : list bytes) : Addr :=
  match hops with
  | [] => current
  | hop :: more =>
      match parseHost hop with
      | None => current
      | Some a => if trusts pol a then walk pol a more else a
      end
  end.

(** The client, and whether the warning that forwarding headers are ignored is due. *)
Definition Resolve (pol : Policy) (r : Wire.Request) : res (Client * bool) :=
  match parseHost (str_bytes (RemoteAddr r)) with
  | None => Err ErrNoClient
  | Some peer =>
      let hops := forwardedFor r in
      if mode pol =? modeDirect
      then Ok (mkClient peer, negb (bool_decide (hops = [])) && (IsPrivate peer || IsLoopback peer))
      else if negb (trusts pol peer) then Ok (mkClient peer, false)
      else Ok (mkClient (walk pol peer (rev hops)), false)
  end.
End ClientAddr.
