(* ===== verification/Httpx.v ===== *)
(** Auth requests and their answers: internal/httpx (request.go, respond.go, fields.go and the Change of
    env.go).

    A request is what the preamble hands to an endpoint.  A body is the struct an endpoint answers with;
    its text is written out.  What is written through the ResponseWriter is the headers of the response
    and the answer, a status and a body. *)
From S2P Require Import Prelude Errors Tenant Factor Attrs Pending GoText Json JsonText Cookie Renewal Redirect.
From S2P Require Import CeremonyKind.
Import Session.

Module Httpx.

(** ** Requests *)
Record Request := mkRequest {
  http : Http.Request;
  tenant : TenantID;
  fields : gmap string string;
  jsonBody : bool;
  raw : bytes;
  session : option Resumed;
  transport : Transport }.

Definition Field (r : Request) (name : string) : string := default "" (fields r !! name).

Definition Has (r : Request) (name : string) : bool := bool_decide (is_Some (fields r !! name)).

(** No rune beyond ASCII lowers into one of the four words. *)
Definition Flag (r : Request) (name : string) : bool :=
  let v := map ascii_lower (str_bytes (Field r name)) in
  existsb (fun w => bool_decide (v = str_bytes w)) ["true"; "1"; "on"; "yes"].

Definition WebAuthnBody (r : Request) : bytes := raw r.

Definition fieldNames : list string :=
  ["identifier"; "password"; "new_password"; "remember"; "return_to"; "code"; "factor"; "email"; "phone"; "token"; "flow";
   "handle"; "bind"; "credential_id"; "nickname"; "confirm"; "captcha_token"; "resource"].

Definition isField (name : string) : bool := bool_decide (name ∈ fieldNames).

(** [fromValues] over the keys of a url.Values, each with the values sent. *)
Fixpoint fromValues (vs : list (string * list string)) : res (gmap string string) :=
  match vs with
  | [] => Ok ∅
  | (k, v) :: vs' =>
      if negb (isField k) then fromValues vs'
      else match v with
           | [x] => m ← fromValues vs'; Ok (<[k := x]> m)
           | _ => Err (Join HErrInvalidRequest (New ("repeated field " +:+ k)))
           end
  end.

(** ** Problems *)
(** The status and the machine code of a sentinel that is a Problem. *)
Definition problem (s : sentinel) : option (Z * string) :=
  match s with
  | Httpx HErrUnauthenticated => Some (401, "unauthenticated")
  | Httpx HErrBodyTooLarge => Some (413, "request_too_large")
  | Httpx HErrUnsupportedMedia => Some (415, "unsupported_media_type")
  | Httpx HErrInvalidRequest => Some (400, "invalid_request")
  | Httpx HErrCrossSite => Some (403, "cross_site_request")
  | Httpx HErrRateLimited => Some (429, "rate_limited")
  | Httpx HErrServiceUnavailable => Some (503, "unavailable")
  | Httpx HErrPasswordChangeNeeded => Some (403, "password_change_required")
  | Httpx HErrReauthRequired => Some (403, "reauth_required")
  | Httpx HErrRequestRejected => Some (403, "request_rejected")
  | Httpx HErrInternal => Some (500, "internal_error")
  | Issuance ErrAuthUnavailable => Some (503, "auth_unavailable")
  | Issuance IErrClaimsUnavailable => Some (503, "claims_unavailable")
  | Issuance ErrInvalidReturnTo => Some (400, "invalid_return_to")
  | FlowPkg ErrInvalidFlow => Some (401, "invalid_flow")
  | FlowPkg ErrReauthUnavailable => Some (400, "reauth_method_unavailable")
  | MfaSvcPkg YErrInvalidFactor => Some (400, "invalid_factor")
  | MfaSvcPkg ErrInvalidCode => Some (401, "invalid_code")
  | MfaSvcPkg ErrTooManyAttempts => Some (429, "too_many_attempts")
  | MfaSvcPkg ErrAlreadyEnrolled => Some (409, "totp_already_enrolled")
  | MfaSvcPkg ErrNoPendingEnrollment => Some (409, "totp_not_pending")
  | MfaSvcPkg ErrNotEnrolled => Some (409, "totp_not_enrolled")
  | MfaSvcPkg ErrNoSecondFactor => Some (409, "no_second_factor")
  | CodeSvcPkg KErrInvalidIdentifier => Some (400, "invalid_identifier")
  | CodeSvcPkg KErrInvalidToken => Some (400, "invalid_token")
  | CodeSvcPkg KErrInvalidCode => Some (401, "invalid_code")
  | IdentitySvcPkg DErrInvalidCredentials => Some (401, "invalid_credentials")
  | IdentitySvcPkg DErrInvalidIdentifier => Some (400, "invalid_identifier")
  | IdentitySvcPkg DErrInvalidToken => Some (400, "invalid_token")
  | IdentitySvcPkg DErrAccountExists => Some (409, "account_exists")
  | IdentitySvcPkg DErrPasswordTooShort => Some (400, "password_too_short")
  | IdentitySvcPkg DErrPasswordTooLong => Some (400, "password_too_long")
  | IdentitySvcPkg DErrPasswordBreached => Some (400, "password_breached")
  | IdentitySvcPkg DErrPasswordRejected => Some (400, "password_rejected")
  | IdentitySvcPkg DErrIdentifierHeld => Some (409, "identifier_repair_required")
  | PasskeySvcPkg ErrPasskeyRejected => Some (401, "passkey_rejected")
  | _ => None
  end.

(** [errors.As] for a Problem: the first one, depth first. *)
Fixpoint As (e : error) : option (Z * string) :=
  match e with
  | E s => problem s
  | New _ => None
  | Join a b => match As a with Some p => Some p | None => As b end
  end.

(** ** Bodies *)
Inductive Body :=
  | NoBody
  | authenticatedBody (state return_to : string)
  | mfaRequiredBody (state : string) (factors : list string) (flow : string)
  | stateBody (state : string)
  | passkeyBody (state : string) (options : bytes) (handle : string)
  | enrollBody (state secret otpauth_uri : string)
  | codesBody (state : string) (recovery_codes : list string) (session_ended : bool)
  | handleBody (state handle bind : string)
  | journeyBody (state bind : string)
  | confirmBody (state account_hint : string)
  | errorBody (code : string).

(** A member left out when its text is empty. *)
Definition omitempty (name v : string) : list (string * bytes) :=
  if bool_decide (v = "") then [] else [(name, JsonText.quote_ v)].

(** The bytes an encoder escapes for HTML; outside strings they do not occur. *)
Fixpoint escape_html (b : bytes) : bytes :=
  match b with
  | [] => []
  | Byte.xe2 :: Byte.x80 :: Byte.xa8 :: b' => str_bytes "\u2028" ++ escape_html b'
  | Byte.xe2 :: Byte.x80 :: Byte.xa9 :: b' => str_bytes "\u2029" ++ escape_html b'
  | "<"%byte :: b' => str_bytes "\u003c" ++ escape_html b'
  | ">"%byte :: b' => str_bytes "\u003e" ++ escape_html b'
  | "&"%byte :: b' => str_bytes "\u0026" ++ escape_html b'
  | c :: b' => c :: escape_html b'
  end.

(** A json.RawMessage; nil is null, and a text that is not JSON fails. *)
Definition raw_message (b : bytes) : option bytes :=
  match b with [] => Some (str_bytes "null") | _ => Json.Compact b end.

Definition string_array (l : list string) : bytes := JsonText.array (map JsonText.quote_ l).

Definition members (b : Body) : option bytes :=
  match b with
  | NoBody => Some (JsonText.object [])
  | authenticatedBody s t => Some (JsonText.object (("state", JsonText.quote_ s) :: omitempty "return_to" t))
  | mfaRequiredBody s fs f =>
      Some (JsonText.object ([("state", JsonText.quote_ s); ("factors", string_array fs)] ++ omitempty "flow" f))
  | stateBody s => Some (JsonText.object [("state", JsonText.quote_ s)])
  | passkeyBody s o h =>
      o ← raw_message o;
      Some (JsonText.object [("state", JsonText.quote_ s); ("options", o); ("handle", JsonText.quote_ h)])
  | enrollBody s k u =>
      Some (JsonText.object [("state", JsonText.quote_ s); ("secret", JsonText.quote_ k); ("otpauth_uri", JsonText.quote_ u)])
  | codesBody s cs ended =>
      Some (JsonText.object ([("state", JsonText.quote_ s)]
        ++ match cs with [] => [] | _ => [("recovery_codes", string_array cs)] end
        ++ if ended then [("session_ended", str_bytes "true")] else []))
  | handleBody s h b =>
      Some (JsonText.object ([("state", JsonText.quote_ s); ("handle", JsonText.quote_ h)] ++ omitempty "bind" b))
  | journeyBody s b => Some (JsonText.object (("state", JsonText.quote_ s) :: omitempty "bind" b))
  | confirmBody s h => Some (JsonText.object [("state", JsonText.quote_ s); ("account_hint", JsonText.quote_ h)])
  | errorBody c => Some (JsonText.object [("error", JsonText.quote_ c)])
  end.

(** json.Encoder with its default, the escaping of HTML. *)
Definition Marshal (b : Body) : option bytes := escape_html <$> members b.

Record Response := mkResponse { Status : Z; R_Body : Body; Location : Redirect.Target }.

Record answer := mkAnswer { a_status : Z; a_body : bytes }.

Definition secureHeaders (w : Http.Response) : Http.Response :=
  Http.Header_Set "X-Content-Type-Options" "nosniff" (Http.Header_Set "Cache-Control" "no-store" w).

Definition writeJSON (status : Z) (body : Body) (w : Http.Response) : Http.Response * answer :=
  (Http.Header_Set "Content-Type" "application/json" w,
   match Marshal body with
   | Some b => mkAnswer status (b ++ [Byte.x0a])
   | None => mkAnswer 500 (JsonText.object [("error", JsonText.quote_ "internal_error")] ++ [Byte.x0a])
   end).

Definition respond (r : Request) (t : Transport) (resp : Response) (w : Http.Response) : Http.Response * answer :=
  let w := secureHeaders w in
  if (t =? TransportCookies) && negb (Redirect.Target_IsZero (Location resp)) && negb (jsonBody r)
  then (Http.Header_Set "Location" (bytes_str (Location resp)) w, mkAnswer 303 [])
  else writeJSON (if Status resp =? 0 then 200 else Status resp) (R_Body resp) w.

Definition Respond (r : Request) (resp : Response) : Http.Response -> Http.Response * answer :=
  respond r (match session r with Some res => a_transport (r_attrs res) | None => 0 end) resp.

Definition RespondPending (r : Request) (p : Pending) (resp : Response) : Http.Response -> Http.Response * answer :=
  respond r (p_transport p) resp.

Definition writeProblem (err : error) (w : Http.Response) : Http.Response * answer :=
  let '(status, code) := default (500, "internal_error") (As err) in
  writeJSON status (errorBody code) (secureHeaders w).

Definition Fail (err : error) : Http.Response -> Http.Response * answer := writeProblem err.

(** ** Changes *)
Definition changeFactorEnrolled : Z := 1.

Definition changePasswordChanged : Z := 2.

Record Change := mkChange { c_kind : Z; c_factor : Factor }.

Definition FactorEnrolledChange (f : Factor) : Change := mkChange changeFactorEnrolled f.

Definition PasswordChangedChange : Change := mkChange changePasswordChanged zero_Factor.

Definition EnrolledFactor (c : Change) : option Factor :=
  if (c_kind c =? changeFactorEnrolled) && Factor.Valid (c_factor c) then Some (c_factor c) else None.

Definition PasswordChanged_ (c : Change) : bool := c_kind c =? changePasswordChanged.
End Httpx.

(** ** Handles and payloads of stored ceremonies: internal/ceremonycodec (handle.go and the codec of codec.go
    for the payload of MFAFlow).  SHA-256 and the bytes drawn by crypto/rand are arguments. *)

Module CeremonyCodec.

Definition HandleBytes : Z := 32.

(** [Handle] *)
Record Handle := mkHandle { h_raw : bytes }.

Definition zero_Handle : Handle := mkHandle [].

(** [raw] is what crypto/rand gave for the bytes asked. *)
Definition NewHandle (raw : res bytes) : res Handle :=
  match raw with
  | Err err => Err (Join (New "ceremonycodec: generating handle") err)
  | Ok raw => Ok (mkHandle raw)
  end.

(** [b64.EncodedLen(HandleBytes)] *)
Definition encodedHandleLen : Z := 43.

Definition ParseHandle (s : string) : res Handle :=
  if negb (Z.of_nat (length (str_bytes s)) =? encodedHandleLen) then Err ErrInvalidHandle
  else match Base64.decode (str_bytes s) with
  | None => Err ErrInvalidHandle
  | Some raw => if negb (Z.of_nat (length raw) =? HandleBytes) then Err ErrInvalidHandle else Ok (mkHandle raw)
  end.

Definition Handle_IsZero (h : Handle) : bool := Z.of_nat (length (h_raw h)) =? 0.

Definition Encode (h : Handle) : string := bytes_str (Base64.encode (h_raw h)).

Definition Hash (sha256 : bytes -> bytes) (h : Handle) : bytes := sha256 (h_raw h).

(** ** Payloads *)
Definition payloadVersion : Z := 1.

Definition maxPayloadBytes : Z := Z.shiftl 4 10.

(** [Codec]: the kind, the check (nil in the zero Codec) and the JSON text of a payload. *)
Record Codec (P : Type) := mkCodec {
  kind : Ceremony_.Kind;
  check : option (P -> option error);
  text : P -> bytes }.
Arguments mkCodec {P} kind check text.
Arguments kind {P} c.
Arguments check {P} c.
Arguments text {P} c.

Definition EncodePayload {P} (c : Codec P) (p : P) : res bytes :=
  match check c with
  | None => Err ErrWrongKind
  | Some chk =>
      if negb (Ceremony_.Kind_Valid (kind c)) then Err ErrWrongKind
      else match chk p with
      | Some err => Err (Join ErrMalformedPayload err)
      | None =>
          let body := text c p in
          if maxPayloadBytes <? Z.of_nat (length body) + 2
          then Err (Join ErrMalformedPayload (New "payload exceeds 4096 bytes"))
          else Ok (byte_of_Z payloadVersion :: byte_of_Z (kind c) :: body)
      end
  end.

(** [Empty] *)
Definition Empty : Type := unit.

Definition noCheck {P} (_ : P) : option error := None.

Definition MFAFlow : Codec Empty := mkCodec Ceremony_.MFAFlow (Some noCheck) (fun _ => JsonText.object []).

(** ** Facts *)
Lemma encode_length h : length (h_raw h) = 32%nat -> length (str_bytes (Encode h)) = 43%nat.
Proof. intros Hl. unfold Encode. rewrite str_bytes_str. by apply Base64.length_encode_32. Qed.

(** A handle sent to a client reads back. *)
Lemma ParseHandle_Encode h : length (h_raw h) = 32%nat -> ParseHandle (Encode h) = Ok h.
Proof.
  intros Hl. unfold ParseHandle. rewrite encode_length by done. cbn [negb Z.eqb Z.of_nat].
  unfold Encode. rewrite str_bytes_str, Base64.decode_encode, Hl. by destruct h.
Qed.

Lemma ParseHandle_Ok s h : ParseHandle s = Ok h -> length (h_raw h) = 32%nat.
Proof.
  unfold ParseHandle, HandleBytes. destruct (negb _); [done|]. destruct (Base64.decode _) as [b|]; [|done].
  destruct (negb _) eqn:E; [done|]. intros [= <-]. bools. cbn. lia.
Qed.

Lemma EncodePayload_MFAFlow : is_Ok (EncodePayload MFAFlow ()).
Proof. vm_compute. by eexists. Qed.
End CeremonyCodec.
