(* ===== verification/Routes.v ===== *)
(** The closed registry of endpoints and the requirements of user routes: internal/routes (paths.go, spa.go,
    meta.go, endpoint.go, table.go, builder.go) and the metadata type of internal/httpx/meta.go.

    The parts of the package that register patterns on a ServeMux or probe one are not modelled. *)
From stdpp Require Import sorting.
From S2P Require Import Prelude Errors Tenant Factor Attrs GoText Cookie Redirect Csrf Limiter Httpx.

(** ** httpx/meta.go *)
Module Meta.

Definition FormBodyCap : Z := 4096.

Definition WebAuthnBodyCap : Z := 65536.

Record Meta := mkMeta {
  Authenticated : bool;
  Mutation : bool;
  Sensitive : bool;
  AcceptsMustChange : bool;
  IdentifierKeyed : bool;
  SetsCookies : bool;
  SPA : bool;
  EndsSession : bool;
  BodyCap : Z;
  ClientLimit : Z;
  IdentifierLimit : Z;
  SessionLimit : Z;
  RecipientField : string;
  RecipientLimit : Z }.

#[global] Instance Meta_eq_dec : EqDecision Meta.
Proof. solve_decision. Defined.

Definition Validate (m : Meta) : option error :=
  let need (bad : bool) reason := if bad then [New reason] else [] in
  let errs :=
    need ((BodyCap m <=? 0) || (WebAuthnBodyCap <? BodyCap m)) "body cap out of range"
    ++ need (Sensitive m && negb (Authenticated m)) "sensitive endpoint must be authenticated"
    ++ need (EndsSession m && (negb (Mutation m) || Sensitive m || IdentifierKeyed m))
         "session-ending endpoint must be a plain mutation"
    ++ need (negb (Bool.eqb (IdentifierKeyed m) (negb (IdentifierLimit m =? 0))))
         "identifier key and identifier limit disagree"
    ++ need (negb (IdentifierLimit m =? 0)
             && (negb (Limiter.Class_Valid (IdentifierLimit m)) || negb (Limiter.PerTenant (IdentifierLimit m))))
         "identifier limit is not a per-tenant class"
    ++ need (negb (ClientLimit m =? 0)
             && (negb (Limiter.Class_Valid (ClientLimit m)) || Limiter.PerTenant (ClientLimit m)))
         "client limit is not a client class"
    ++ need (negb (SessionLimit m =? 0)
             && (negb (Limiter.Class_Valid (SessionLimit m)) || Limiter.PerTenant (SessionLimit m)
                 || negb (Authenticated m)))
         "session limit needs an authenticated endpoint and a client class"
    ++ need (negb (Bool.eqb (negb (bool_decide (RecipientField m = ""))) (negb (RecipientLimit m =? 0))))
         "recipient field and recipient limit disagree"
    ++ need (negb (RecipientLimit m =? 0)
             && (negb (Limiter.Class_Valid (RecipientLimit m)) || negb (Limiter.PerTenant (RecipientLimit m))
                 || negb (Authenticated m) || negb (Httpx.isField (RecipientField m))))
         "recipient limit needs an authenticated endpoint, a per-tenant class and a known field" in
  match errs with
  | [] => None
  | e :: es => Some (Join ErrInvalidMeta (JoinAll e es))
  end.
End Meta.

Module Routes.
Import Meta.

(** ** paths.go *)
Definition Session : string := "/session".

Definition Logout : string := "/logout".

Definition LogoutEverywhere : string := "/logout-everywhere".

Definition Reauth : string := "/reauth".

Definition Refresh : string := "/refresh".

Definition Exchange : string := "/exchange".

Definition ResourceToken : string := "/resource-token".

Definition SecurityRevert : string := "/security/revert".

Definition JWKS : string := "/jwks.json".

Definition Register : string := "/register".

Definition RegisterConfirm : string := "/register/confirm".

Definition Login : string := "/login".

Definition PasswordForgot : string := "/password/forgot".

Definition PasswordReset : string := "/password/reset".

Definition PasswordChange : string := "/password/change".

Definition MagicLinkRequest : string := "/magic-link/request".

Definition MagicLink : string := "/magic-link".

Definition CodeRequest : string := "/code/request".

Definition CodeVerify : string := "/code/verify".

Definition PasskeyLoginBegin : string := "/passkey/login/begin".

Definition PasskeyLoginFinish : string := "/passkey/login/finish".

Definition PasskeyRegisterBegin : string := "/passkey/register/begin".

Definition PasskeyRegisterFinish : string := "/passkey/register/finish".

Definition PasskeyCredentials : string := "/passkey/credentials".

Definition PasskeyCredentialsRename : string := "/passkey/credentials/rename".

Definition PasskeyCredentialsDelete : string := "/passkey/credentials/delete".

Definition OAuthBegin : string := "/oauth/{provider}/begin".

Definition OAuthCallback : string := "/oauth/{provider}/callback".

Definition OAuthLink : string := "/oauth/{provider}/link".

Definition ExternalLogin : string := "/external/{name}/login".

Definition MFAChallenge : string := "/mfa/challenge".

Definition MFAPasskeyBegin : string := "/mfa/passkey/begin".

Definition MFAPasskeyFinish : string := "/mfa/passkey/finish".

Definition MFATOTPEnroll : string := "/mfa/totp/enroll".

Definition MFATOTPConfirm : string := "/mfa/totp/confirm".

Definition MFATOTPDisable : string := "/mfa/totp/disable".

Definition MFARecoveryCodesRegenerate : string := "/mfa/recovery-codes/regenerate".

Definition EmailVerifyRequest : string := "/email/verify/request".

Definition EmailVerify : string := "/email/verify".

Definition EmailChange : string := "/email/change".

Definition EmailChangeConfirm : string := "/email/change/confirm".

Definition PhoneVerifyRequest : string := "/phone/verify/request".

Definition PhoneVerify : string := "/phone/verify".

Definition RecoveryEmail : string := "/recovery-email".

Definition RecoveryEmailConfirm : string := "/recovery-email/confirm".

Definition AccountDelete : string := "/account/delete".

Definition among (l : list string) (path : string) : bool := bool_decide (path ∈ l).

Definition getPaths : list string :=
  [Session; JWKS; PasskeyCredentials; OAuthBegin; OAuthCallback].

Definition postPaths : list string :=
  [Logout; LogoutEverywhere; Reauth; Refresh; Exchange; ResourceToken; SecurityRevert; Register;
   RegisterConfirm; Login; PasswordForgot; PasswordReset; PasswordChange; MagicLinkRequest; MagicLink;
   CodeRequest; CodeVerify; PasskeyLoginBegin; PasskeyLoginFinish; PasskeyRegisterBegin;
   PasskeyRegisterFinish; PasskeyCredentialsRename; PasskeyCredentialsDelete; OAuthLink; ExternalLogin;
   MFAChallenge; MFAPasskeyBegin; MFAPasskeyFinish; MFATOTPEnroll; MFATOTPConfirm; MFATOTPDisable;
   MFARecoveryCodesRegenerate; EmailVerifyRequest; EmailVerify; EmailChange; EmailChangeConfirm;
   PhoneVerifyRequest; PhoneVerify; RecoveryEmail; RecoveryEmailConfirm; AccountDelete].

Definition Method (path : string) : string :=
  if among getPaths path then "GET" else if among postPaths path then "POST" else "".

Definition All : list string :=
  [Session; Logout; LogoutEverywhere; Reauth; Refresh; Exchange; ResourceToken; SecurityRevert; JWKS;
   Register; RegisterConfirm; Login; PasswordForgot; PasswordReset; PasswordChange; MagicLinkRequest;
   MagicLink; CodeRequest; CodeVerify; PasskeyLoginBegin; PasskeyLoginFinish; PasskeyRegisterBegin;
   PasskeyRegisterFinish; PasskeyCredentials; PasskeyCredentialsRename; PasskeyCredentialsDelete; OAuthBegin;
   OAuthCallback; OAuthLink; ExternalLogin; MFAChallenge; MFAPasskeyBegin; MFAPasskeyFinish; MFATOTPEnroll;
   MFATOTPConfirm; MFATOTPDisable; MFARecoveryCodesRegenerate; EmailVerifyRequest; EmailVerify; EmailChange;
   EmailChangeConfirm; PhoneVerifyRequest; PhoneVerify; RecoveryEmail; RecoveryEmailConfirm; AccountDelete].

(** ** spa.go *)
Definition spaAllowed : list (string * bool) :=
  [(Session, true); (Logout, true); (LogoutEverywhere, true); (Reauth, true); (Refresh, true);
   (Exchange, true); (ResourceToken, false); (SecurityRevert, true); (JWKS, true); (Register, true);
   (RegisterConfirm, true); (Login, true); (PasswordForgot, true); (PasswordReset, true);
   (PasswordChange, true); (MagicLinkRequest, true); (MagicLink, true); (CodeRequest, true);
   (CodeVerify, true); (PasskeyLoginBegin, true); (PasskeyLoginFinish, true); (PasskeyRegisterBegin, true);
   (PasskeyRegisterFinish, true); (PasskeyCredentials, true); (PasskeyCredentialsRename, true);
   (PasskeyCredentialsDelete, true); (OAuthBegin, true); (OAuthCallback, true); (OAuthLink, true);
   (ExternalLogin, true); (MFAChallenge, true); (MFAPasskeyBegin, true); (MFAPasskeyFinish, true);
   (MFATOTPEnroll, false); (MFATOTPConfirm, false); (MFATOTPDisable, true);
   (MFARecoveryCodesRegenerate, false); (EmailVerifyRequest, true); (EmailVerify, true); (EmailChange, true);
   (EmailChangeConfirm, true); (PhoneVerifyRequest, true); (PhoneVerify, true); (RecoveryEmail, true);
   (RecoveryEmailConfirm, true); (AccountDelete, true)].

Definition spa_of (path : string) : bool :=
  match List.find (fun e => bool_decide (e.1 = path)) spaAllowed with Some e => e.2 | None => false end.

(** ** meta.go *)
Definition authenticated (path : string) : bool :=
  among
    [Session; LogoutEverywhere; Reauth; ResourceToken; PasswordChange; PasskeyRegisterBegin;
     PasskeyRegisterFinish; PasskeyCredentials; PasskeyCredentialsRename; PasskeyCredentialsDelete;
     OAuthLink; MFATOTPEnroll; MFATOTPConfirm; MFATOTPDisable; MFARecoveryCodesRegenerate; EmailChange;
     PhoneVerifyRequest; PhoneVerify; RecoveryEmail; AccountDelete] path.

Definition sensitive (path : string) : bool :=
  among
    [PasswordChange; EmailChange; PhoneVerifyRequest; RecoveryEmail; PasskeyRegisterBegin;
     PasskeyRegisterFinish; PasskeyCredentialsRename; PasskeyCredentialsDelete; MFATOTPEnroll;
     MFATOTPConfirm; MFATOTPDisable; MFARecoveryCodesRegenerate; AccountDelete; OAuthLink] path.

Definition acceptsMustChange (path : string) : bool :=
  among
    [PasswordChange; Logout; LogoutEverywhere; Session; Reauth] path.

Definition setsCookies (path method : string) : bool :=
  if among [Refresh; Exchange] path then false
  else if among [OAuthBegin; OAuthCallback] path then true
  else bool_decide (method = "POST").

Definition sessionAction (path : string) : bool :=
  among
    [LogoutEverywhere; PasskeyCredentialsRename; PasskeyCredentialsDelete; PasskeyRegisterBegin;
     PasskeyRegisterFinish; OAuthLink; MFATOTPEnroll; MFARecoveryCodesRegenerate] path.

Definition webAuthn (path : string) : bool :=
  among
    [PasskeyLoginFinish; PasskeyRegisterFinish; MFAPasskeyFinish; Reauth] path.

Definition identifierLimit (path : string) : Z :=
  if among [Login; PasskeyLoginBegin; ExternalLogin] path then Limiter.LoginIdentifier
  else if among [Register; PasswordForgot; MagicLinkRequest; CodeRequest; EmailVerifyRequest] path
  then Limiter.CodeRequestIdentifier
  else 0.

Definition clientLimit (path method : string) : Z :=
  if bool_decide (path = Register) then Limiter.RegisterClient
  else if among
    [PasswordForgot; MagicLinkRequest; CodeRequest; EmailVerifyRequest; PhoneVerifyRequest; EmailChange;
     RecoveryEmail] path
  then Limiter.CodeRequestClient
  else if among [Logout; Refresh; ResourceToken] path then 0
  else if among [OAuthBegin; OAuthCallback] path then Limiter.LoginClient
  else if bool_decide (method = "POST") then Limiter.LoginClient
  else 0.

Definition recipientLimit (path : string) : string * Z :=
  if bool_decide (path = PhoneVerifyRequest) then ("phone", Limiter.CodeRequestIdentifier)
  else if among [EmailChange; RecoveryEmail] path then ("email", Limiter.CodeRequestIdentifier)
  else ("", 0).

Definition MetaFor (path : string) : option Meta :=
  let method := Method path in
  if bool_decide (method = "") then None
  else
    let action := sessionAction path in
    let '(field, recipient) := recipientLimit path in
    Some (mkMeta (authenticated path) (bool_decide (method = "POST")) (sensitive path) (acceptsMustChange path)
            (negb (identifierLimit path =? 0)) (setsCookies path method) (spa_of path)
            (bool_decide (path = Logout) || bool_decide (path = LogoutEverywhere))
            (if webAuthn path then WebAuthnBodyCap else FormBodyCap)
            (if action then 0 else clientLimit path method) (identifierLimit path)
            (if action then Limiter.LoginClient else 0) field recipient).

(** ** endpoint.go and table.go *)
Section table.
Context {F : Type}.

(** A nil Func is [None]. *)
Record Endpoint := mkEndpoint { EMethod : string; EPath : string; EMeta : Meta; EFunc : option F }.

Definition Endpoint_Validate (e : Endpoint) : option error :=
  match MetaFor (EPath e) with
  | None => Some (Join ErrUnknownPath (New (EPath e)))
  | Some meta =>
      if negb (bool_decide (EMethod e = Method (EPath e)))
      then Some (Join ErrInvalidEndpoint (New (EPath e +:+ ": method differs from the registry")))
      else if negb (bool_decide (EMeta e = meta))
      then Some (Join ErrInvalidEndpoint (New (EPath e +:+ ": metadata differs from MetaFor")))
      else match EFunc e with
           | None => Some (Join ErrInvalidEndpoint (New (EPath e +:+ ": nil func")))
           | Some _ => None
           end
  end.

Definition NewEndpoint (path : string) (f : option F) : res Endpoint :=
  match MetaFor path with
  | None => Err (Join ErrUnknownPath (New path))
  | Some meta =>
      let e := mkEndpoint (Method path) path meta f in
      match Endpoint_Validate e with Some err => Err err | None => Ok e end
  end.

(** The errors of the loop of NewTable; [seen] are the paths of the valid endpoints before. *)
Fixpoint table_errors (seen : list string) (eps : list Endpoint) : list error :=
  match eps with
  | [] => []
  | e :: eps' =>
      match Endpoint_Validate e with
      | Some err => err :: table_errors seen eps'
      | None =>
          if bool_decide (EPath e ∈ seen)
          then Join RErrConflict (New (EPath e +:+ " declared twice")) :: table_errors seen eps'
          else table_errors (EPath e :: seen) eps'
      end
  end.

(** [strings.Compare] orders by bytes. *)
Definition path_le (a b : Endpoint) : Prop := String.leb (EPath a) (EPath b) = true.

#[global] Instance path_le_dec : RelDecision path_le.
Proof. unfold RelDecision, path_le. intros. apply _. Defined.

(** A Table is its endpoints, ordered by path. *)
Definition NewTable (eps : list Endpoint) : res (list Endpoint) :=
  match table_errors [] eps with
  | [] => Ok (merge_sort path_le eps)
  | err :: errs => Err (JoinAll err errs)
  end.

Definition ValidateBasePath (basePath : bytes) : option error :=
  let bad := Some (Join ErrInvalidBasePath (New (bytes_str basePath))) in
  if negb (has_prefix ["/"%byte] basePath) || Wire.has_suffix ["/"%byte] basePath
     || contains_any (str_bytes "{} " ++ [Byte.x09; Byte.x0d; Byte.x0a] ++ str_bytes "?#%") basePath
  then bad
  else if existsb (fun seg => bool_decide (seg = []) || bool_decide (seg = str_bytes ".") || bool_decide (seg = str_bytes ".."))
            (split "/"%byte (drop 1 basePath))
  then bad else None.

Definition Patterns (basePath : string) (t : list Endpoint) : list string :=
  map (fun e => EMethod e +:+ " " +:+ basePath +:+ EPath e) t.
End table.

(** ** builder.go: the requirements of user routes *)
(** [ClaimSet] *)
Definition ClaimRoles : Z := 1.

Definition ClaimScopes : Z := 2.

Definition ClaimGroups : Z := 3.

(** [Match] *)
Definition MatchAny : Z := 1.

Definition MatchAll : Z := 2.

Record Claims := mkClaims { Roles : list string; Scopes : list string; Groups : list string }.

Definition claims_list (c : Claims) (s : Z) : list string :=
  if s =? ClaimRoles then Roles c else if s =? ClaimScopes then Scopes c else if s =? ClaimGroups then Groups c else [].

Record ClaimRequirement := mkRequirement { set : Z; match_ : Z; values : list string }.

Definition NewClaimRequirement (s m : Z) (first : string) (more : list string) : ClaimRequirement :=
  mkRequirement s m (first :: more).

Definition validate_claim (c : ClaimRequirement) : option error :=
  if (set c <? ClaimRoles) || (ClaimGroups <? set c) || (negb (match_ c =? MatchAny) && negb (match_ c =? MatchAll))
     || bool_decide (values c = [])
  then Some (New "invalid claim requirement")
  else if existsb (fun v => bool_decide (TrimSpace (str_bytes v) = [])) (values c)
  then Some (New "empty claim value")
  else None.

Definition Satisfied (c : ClaimRequirement) (cl : Claims) : bool :=
  match validate_claim c with
  | Some _ => false
  | None =>
      let held := claims_list cl (set c) in
      if match_ c =? MatchAny then existsb (fun v => bool_decide (v ∈ held)) (values c)
      else negb (existsb (fun v => negb (bool_decide (v ∈ held))) (values c))
  end.

(** [Freshness] *)
Definition Fresh5m : Z := 1.

Definition Fresh15m : Z := 2.

Definition Fresh1h : Z := 3.

Definition Freshness_Duration (f : Z) : duration :=
  if f =? Fresh5m then 5 * Minute else if f =? Fresh15m then 15 * Minute else if f =? Fresh1h then 60 * Minute else 0.

Record SessionSpec := mkSessionSpec {
  s_claims : list ClaimRequirement;
  s_mfa : bool;
  s_fresh : list Z;
  s_factors : list Factor;
  acceptChange : bool }.

Definition zero_SessionSpec : SessionSpec := mkSessionSpec [] false [] [] false.

Definition AddClaim (c : ClaimRequirement) (s : SessionSpec) : SessionSpec :=
  mkSessionSpec (s_claims s ++ [c]) (s_mfa s) (s_fresh s) (s_factors s) (acceptChange s).

Definition RequireMFA (s : SessionSpec) : SessionSpec :=
  mkSessionSpec (s_claims s) true (s_fresh s) (s_factors s) (acceptChange s).

Definition RequireFresh (f : Z) (s : SessionSpec) : SessionSpec :=
  mkSessionSpec (s_claims s) (s_mfa s) (s_fresh s ++ [f]) (s_factors s) (acceptChange s).

Definition RequireFactor (f : Factor) (s : SessionSpec) : SessionSpec :=
  mkSessionSpec (s_claims s) (s_mfa s) (s_fresh s) (s_factors s ++ [f]) (acceptChange s).

Definition AcceptMustChange (s : SessionSpec) : SessionSpec :=
  mkSessionSpec (s_claims s) (s_mfa s) (s_fresh s) (s_factors s) true.

Definition SessionSpec_isZero (s : SessionSpec) : bool :=
  bool_decide (length (s_claims s) = 0%nat) && negb (s_mfa s) && bool_decide (s_fresh s = [])
  && bool_decide (length (s_factors s) = 0%nat) && negb (acceptChange s).

(** The errors [Validate] joins; there is none in a valid one. *)
Definition SessionSpec_Validate (s : SessionSpec) : list error :=
  omap (fun f => if negb (Valid f) then Some (New "invalid factor requirement") else None) (s_factors s)
  ++ omap (fun f => if Freshness_Duration f =? 0 then Some (New "invalid freshness requirement") else None) (s_fresh s)
  ++ omap validate_claim (s_claims s).

Definition unmet (reason : string) : option error := Some (Join ErrRequirementUnmet (New reason)).

Definition SessionSpec_Check (s : SessionSpec) (a : SessionAttrs) (c : Claims) (now : time) : option error :=
  if SessionAttrs_IsZero a || negb (bool_decide (length (SessionSpec_Validate s) = 0%nat)) then Some (ErrRequirementUnmet : error)
  else if a_mustChange a && negb (acceptChange s) then Some (ErrMustChange : error)
  else if s_mfa s && negb (MultiFactor a) then unmet "multi-factor"
  else if existsb (fun f => negb (FreshWithin a (Freshness_Duration f) now)) (s_fresh s) then unmet "freshness"
  else match List.find (fun f => negb (HasFactor a f)) (s_factors s) with
       | Some f => unmet ("factor " +:+ code f)
       | None => if existsb (fun r => negb (Satisfied r c)) (s_claims s) then unmet "claims" else None
       end.

Record APISpec := mkAPISpec { kinds : list string; api_claims : list ClaimRequirement }.

Definition zero_APISpec : APISpec := mkAPISpec [] [].

Definition SetKinds (kind : string) (more : list string) (a : APISpec) : APISpec := mkAPISpec (kind :: more) (api_claims a).

Definition API_AddClaim (c : ClaimRequirement) (a : APISpec) : APISpec := mkAPISpec (kinds a) (api_claims a ++ [c]).

Definition APISpec_isZero (a : APISpec) : bool :=
  bool_decide (kinds a = []) && bool_decide (length (api_claims a) = 0%nat).

Definition APISpec_Validate (a : APISpec) (declared : list string) : list error :=
  (if bool_decide (kinds a = []) then [New "no API key kind"] else [])
  ++ omap (fun k => if bool_decide (k = "") || negb (bool_decide (k ∈ declared))
                    then Some (New ("undeclared API key kind " +:+ k)) else None) (kinds a)
  ++ omap validate_claim (api_claims a).

Definition APISpec_Check (a : APISpec) (kind : string) (c : Claims) : option error :=
  if bool_decide (kinds a = []) || negb (bool_decide (kind ∈ kinds a)) then unmet "API key kind"
  else if existsb (fun r => bool_decide (is_Some (validate_claim r)) || negb (Satisfied r c)) (api_claims a)
  then unmet "claims" else None.

(** [Kind] of a declaration *)
Definition KindProtect : Z := 1.

Definition KindOptional : Z := 2.

Definition KindProtectAPI : Z := 3.

Definition KindPublic : Z := 4.

Record Declaration := mkDeclaration { Pattern : string; DKind : Z; DSession : SessionSpec; DAPI : APISpec }.

Record Deployment := mkDeployment { BasePath : string; APIKinds : list string; APIKeys : bool }.

Definition allowedMethods : list string := ["GET"; "HEAD"; "POST"; "PUT"; "PATCH"; "DELETE"; "OPTIONS"].

Definition declaration_validate (decl : Declaration) (d : Deployment) : list error :=
  let '(method, path, ok) := Cut " "%byte (str_bytes (Pattern decl)) in
  if negb ok || negb (bool_decide (bytes_str method ∈ allowedMethods)) || negb (has_prefix ["/"%byte] path)
     || contains_any [Byte.x20; Byte.x09] path
  then [New "pattern must be METHOD /path with no host"]
  else if (DKind decl =? KindProtect) || (DKind decl =? KindOptional)
  then if negb (APISpec_isZero (DAPI decl)) then [New "API requirements on a session route"]
       else SessionSpec_Validate (DSession decl)
  else if DKind decl =? KindProtectAPI
  then if negb (APIKeys d) then [New "ProtectAPI needs the APIKeys module"]
       else if negb (SessionSpec_isZero (DSession decl)) then [New "session requirements on an API route"]
       else APISpec_Validate (DAPI decl) (APIKinds d)
  else if DKind decl =? KindPublic
  then if negb (SessionSpec_isZero (DSession decl)) || negb (APISpec_isZero (DAPI decl))
       then [New "requirements on a public route"] else []
  else [New "invalid route kind"].
End Routes.
