(* ===== verification/Issuance.v ===== *)
(** The admission path: internal/issuance (issuance.go, complete.go, reauth.go, detached.go).

    An Issuer reaches its dependencies through interfaces.  The session backend and the store of parked
    logins are classes, with the operations issuance calls; their state is part of the world.  What
    happens outside a call is an environment: the context's error, the clock, crypto/rand and uuid.New
    at each call, the account states, the factor stores and the claims source as they answer, the
    origins of a tenant, and what other requests did to the world since the previous call. *)
From S2P Require Import Prelude Errors Tenant Factor Attrs Pending Transitions Codec StoreBase.
From S2P Require Import CeremonyKind Enrollment GoText Cookie Renewal Redirect Program.
From S2P Require Import Httpx.
Import Session.

(** ** Interfaces *)
(** session.Backend, as issuance calls it: the state of the backend and the response it writes to. *)
Class SessionBackend (B : Type) := {
  bk_Start : SessionAttrs -> bytes -> B -> Http.Response -> B * Http.Response * res unit;
  bk_Reissue : Handle -> SessionAttrs -> B -> Http.Response -> B * Http.Response * res unit }.

(** FlowWriter, and the Flows of internal/flow: the ceremony store. *)
Class FlowStore (F : Type) := {
  fl_Put : Ctx -> time -> CeremonyRec.Rec -> F -> F * res Z;
  fl_Peek : Ctx -> time -> TenantID -> Ceremony_.Kind -> bytes -> F -> res CeremonyRec.Rec;
  fl_Consume : Ctx -> time -> TenantID -> Ceremony_.Kind -> bytes -> F -> F * res CeremonyRec.Rec;
  fl_RecordFailure : Ctx -> time -> TenantID -> Ceremony_.Kind -> bytes -> F -> F * res Z }.

(** The events of issuance, flow, mfasvc, codesvc and identitysvc, with their attributes. *)
Inductive audit_type :=
  | SessionIssued | LoginSucceeded | LoginFailed | MFAChallengeRequired | MFAModuleMissing | MFAVerified
  | MFAVerificationFailed | AccountLocked | CredentialAdded | CredentialRemoved
  | UserRegistered | AuditEmailVerified | AuditPasswordReset | AuditPasswordChanged | AccountDeleted | IdentifierChanged
  | DeliveryFailed.

Inductive audit_attr :=
  | KeyMethod (s : string) | KeyAMR (l : list string) | KeyRememberMe (b : bool) | KeyMustChange (b : bool)
  | KeyFactors (l : list string) | KeyFactor (s : string) | KeyCount (n : Z)
  | KeyIdentifierKind (k : Z)
  | KeyDeliveryID (id : uuid).

Record audit_event := mkAudit {
  au_type : audit_type; au_subject : Subject; au_reason : string; au_attrs : list audit_attr }.

Module Issuance.

Definition StateAuthenticated : string := "authenticated".

Definition StateMFARequired : string := "mfa_required".

Definition StateReauthenticated : string := "reauthenticated".

Record Pages := mkPages { AfterLogin : string; MFA : string; Reauth : string; SPAOrigins : list string }.

(** [Issuer], its dependencies apart; [completes] is the Completer. *)
Record Issuer := mkIssuer {
  completes : Factor -> bool;
  cookies : Cookie.Policy;
  remember : RememberMePolicy;
  pages : Pages }.

Definition validRemember (p : RememberMePolicy) : bool :=
  (p =? RememberUserChoice) || (p =? RememberAlways) || (p =? RememberNever).

Definition pagesOrigin : string := "https://pages.invalid".

Section config.
Context `{NetURL}.

Definition validPages (p : Pages) : list error :=
  match Redirect.NewOrigins (str_bytes pagesOrigin) (map str_bytes (SPAOrigins p)) with
  | Err err => [Join (New "Pages") err]
  | Ok o =>
      omap (fun '(name, raw) =>
        match Redirect.Parse (str_bytes raw) o with
        | Err err => Some (Join (New ("Pages." +:+ name)) err)
        | Ok _ => None
        end) [("AfterLogin", AfterLogin p); ("MFA", MFA p); ("Reauth", Reauth p)]
  end.

(** The dependencies New asks for, in its order; each flag tells whether it was given. *)
Record given := mkGiven {
  has_Accounts : bool; has_Enrollment : bool; has_Backend : bool; has_Claims : bool; has_Flows : bool;
  has_Completer : bool; has_Origins : bool; has_Audit : bool }.

Definition New_ (g : given) (cfg : Issuer) : res Issuer :=
  let need (ok : bool) name := if ok then [] else [New name] in
  let errs :=
    need (has_Accounts g) "Accounts" ++ need (has_Enrollment g) "Enrollment" ++ need (has_Backend g) "Backend"
    ++ need (has_Claims g) "Claims" ++ need (has_Flows g) "Flows" ++ need (has_Completer g) "Completer"
    ++ need (negb (bool_decide (cookies cfg = Cookie.zero_Policy))) "Cookies" ++ need (has_Origins g) "Origins"
    ++ need (validRemember (remember cfg)) "RememberMe" ++ need (has_Audit g) "Audit" ++ validPages (pages cfg) in
  match errs with
  | [] => Ok cfg
  | e :: es => Err (Join IErrInvalidConfig (JoinAll e es))
  end.
End config.

(** ** Factors *)
Definition offered (i : Issuer) (needs accepted : list Factor) : list Factor :=
  concat (map (fun f => List.filter (fun n => bool_decide (n = f) && completes i f) needs) accepted).

Definition flowFactors : list Factor := [FactorTOTP; FactorRecoveryCode; FactorPasskeyStepUp].

Definition reauthFactors : list Factor := [FactorTOTP; FactorRecoveryCode; FactorPasskeyStepUp].

Definition factorNames (fs : list Factor) : list string :=
  omap (fun f =>
    if bool_decide (f = FactorTOTP) then Some "totp"
    else if bool_decide (f = FactorRecoveryCode) then Some "recovery_code"
    else if bool_decide (f = FactorPasskeyStepUp) then Some "passkey"
    else None) fs.

Definition factorCodes (fs : list Factor) : list string := map code fs.

Definition primaryCode (fs : list Factor) : string :=
  match List.find (fun f => bool_decide (Role f = RolePrimary)) fs with
  | Some f => code f
  | None => ""
  end.

Definition unavailable (err : error) : error := Join HErrServiceUnavailable err.

Definition startProblem (err : error) : error :=
  if Is err ErrClaimsTooLarge then Join IErrClaimsUnavailable err
  else if Is err HErrUnavailable then unavailable err
  else Join HErrInternal err.

Definition reissueProblem (err : error) : error :=
  if Is err ErrConflict || Is err ErrHandleMismatch || Is err ErrClaimsSubjectUnknown
  then Join HErrUnauthenticated err
  else if Is err ErrClaimsTooLarge || Is err ErrClaimsUnavailable then Join IErrClaimsUnavailable err
  else if Is err HErrUnavailable then unavailable err
  else Join HErrInternal err.

(** ** Programs *)
Section issuer.
Context {F B T P : Type} `{FlowStore F, SessionBackend B, EnrollmentSvc.TOTPEnrollment T, EnrollmentSvc.PasskeyEnrollment P, NetURL}.
Context (sha256 : bytes -> bytes).

Record env := mkEnv {
  ctx : nat -> Ctx;
  clock : nat -> time;
  rand : nat -> res bytes;
  fresh : nat -> uuid;
  accounts : nat -> Subject -> res AccountState;
  totps : nat -> T;
  passkeys : nat -> P;
  asked : nat -> answers;
  origins : TenantID -> res Redirect.Origins;
  others : nat -> F -> F;
  sessions : nat -> B -> B }.

(** The parked logins, the backend, the response being written, the events and the number of calls. *)
Record world := mkWorld {
  flows : F;
  back : B;
  out : Http.Response;
  audit : list audit_event;
  events : list event;
  calls : nat }.

Abbreviation M := (Program.M env world).

Definition tick (w : world) : world :=
  mkWorld (flows w) (back w) (out w) (audit w) (events w) (Datatypes.S (calls w)).

Definition now : M time := fun e w => (tick w, clock e (calls w)).

Definition newID : M uuid := fun e w => (tick w, fresh e (calls w)).

Definition draw : M (res bytes) := fun e w => (tick w, rand e (calls w)).

Definition emit (t : audit_type) (s : Subject) (reason : string) (attrs : list audit_attr) : M unit := fun _ w =>
  (mkWorld (flows w) (back w) (out w) (audit w ++ [mkAudit t s reason attrs]) (events w) (calls w), tt).

Definition respond {R} (f : Http.Response -> Http.Response * R) : M R := fun _ w =>
  let '(o, r) := f (out w) in (mkWorld (flows w) (back w) o (audit w) (events w) (calls w), r).

Definition on_flows {R} (f : Ctx -> time -> F -> F * R) : M R := fun e w =>
  let n := calls w in
  let '(s, r) := f (ctx e n) (clock e n) (others e n (flows w)) in
  (tick (mkWorld s (back w) (out w) (audit w) (events w) n), r).

Definition on_backend (f : B -> Http.Response -> B * Http.Response * res unit) : M (res unit) := fun e w =>
  let n := calls w in
  let '(b, o, r) := f (sessions e n (back w)) (out w) in
  (tick (mkWorld (flows w) b o (audit w) (events w) n), r).

Definition state (s : Subject) : M (res AccountState) := fun e w =>
  (tick w, map_err (Join HErrServiceUnavailable) (accounts e (calls w) s)).

(** The two stores are read one after the other. *)
Definition decision (s : Subject) : M (res MFADecision) := fun e w =>
  let n := calls w in
  (tick (tick w),
   map_err (Join ErrAuthUnavailable)
     (EnrollmentSvc.enrolled (ctx e n) s (EnrollmentSvc.mkEnrollment (totps e n) (passkeys e (Datatypes.S n))))).

(** Claims.FetchClaims, with the events of the Renewer behind it. *)
Definition fetch_claims (s : Subject) : M (res bytes) := fun e w =>
  let '(evs, r) := FetchClaims (asked e (calls w)) s in
  (tick (mkWorld (flows w) (back w) (out w) (audit w) (events w ++ evs) (calls w)), r).

Definition target (t : TenantID) (raw : string) : M (res Redirect.Target) := fun e w =>
  (w, if bool_decide (raw = "") then Ok []
      else match origins e t with
      | Err err => Err (Join HErrInternal err)
      | Ok o => map_err (Join ErrInvalidReturnTo) (Redirect.Parse (str_bytes raw) o)
      end).

Definition landing (t : TenantID) (returnTo page : string) : M (res Redirect.Target) :=
  r ← target t (if bool_decide (returnTo = "") then page else returnTo);
  mret (map_err (Join HErrInternal) r).

Definition clear_all (p : Cookie.Policy) (w : Http.Response) : Http.Response :=
  fold_left (fun w n => Cookie.Clear p n w) [Cookie.AccessToken; Cookie.RefreshToken; Cookie.StatefulSession] w.

Definition clearSession (i : Issuer) (r : Httpx.Request) (t : Transport) : M unit :=
  if negb (t =? TransportCookies) && negb (Cookie.Present (Httpx.http r)) then mret tt
  else respond (fun w => (clear_all (cookies i) w, tt)).

(** ** A login *)
Definition Begin (i : Issuer) (r : Httpx.Request) : M (res Pending) :=
  let rem := if Httpx.Flag r "remember" then RememberRequested else RememberDeclined in
  try (target (Httpx.tenant r) (Httpx.Field r "return_to")) (fun tg =>
  t ← now;
  mret (map_err (Join HErrInternal)
    (NewPending (Httpx.tenant r) rem (bytes_str tg) (Httpx.transport r) (remember i) t))).

Definition refused (sub : Subject) (fs : list Factor) : M unit :=
  emit LoginFailed sub "admission_refused" [KeyMethod (primaryCode fs)].

Definition start (i : Issuer) (a : SessionAttrs) : M (res Httpx.Response) :=
  let sub := a_subject a in
  try (landing (Tenant sub) (a_returnTo a) (AfterLogin (pages i))) (fun loc =>
  claims ← fetch_claims sub;
  match claims with
  | Err err =>
      mret (Err (Join (if Is err ErrClaimsSubjectUnknown then HErrUnauthenticated : error
                       else IErrClaimsUnavailable) err))
  | Ok claims =>
      r ← on_backend (bk_Start a claims);
      match r with
      | Err err => mret (Err (startProblem err))
      | Ok _ =>
          let method := primaryCode (a_factors a) in
          _ ← emit SessionIssued sub ""
                [KeyMethod method; KeyAMR (SessionAttrs_AMR a); KeyRememberMe (a_remember a);
                 KeyMustChange (a_mustChange a)];
          _ ← emit LoginSucceeded sub "" [KeyMethod method];
          mret (Ok (Httpx.mkResponse 0 (Httpx.authenticatedBody StateAuthenticated (a_returnTo a)) loc))
      end
  end).

Definition putFlow (p : Pending) (sub : Subject) : M (res CeremonyCodec.Handle) :=
  let internal {R} (m : res R) := map_err (Join HErrInternal) m in
  try (mret (internal (CeremonyCodec.EncodePayload CeremonyCodec.MFAFlow ()))) (fun payload =>
  try (mret (internal (SealPending p))) (fun sealed =>
  raw ← draw;
  try (mret (internal (CeremonyCodec.NewHandle raw))) (fun handle =>
  t ← now;
  match CeremonyRec.NewRecord
          (CeremonyRec.mkSpec Ceremony_.MFAFlow (CeremonyCodec.Hash sha256 handle) (CeremonyRec.SubjectScope sub)
             sealed payload t) (Some CeremonyRec.openPending) with
  | Err err =>
      mret (Err (Join (if Is err CErrExpired then HErrUnauthenticated : error else HErrInternal) err))
  | Ok rec =>
      r ← on_flows (fun c t => fl_Put c t rec);
      mret (match r with Err err => Err (unavailable err) | Ok _ => Ok handle end)
  end))).

Definition park (i : Issuer) (r : Httpx.Request) (p : Pending) (needs : list Factor) : M (res Httpx.Response) :=
  let sub := p_subject p in
  _ ← clearSession i r (p_transport p);
  let off := offered i needs flowFactors in
  let names := factorNames off in
  let method := primaryCode (factorSet p) in
  if Z.of_nat (length off) =? 0
  then
    _ ← emit MFAModuleMissing sub "no_completing_module" [KeyMethod method; KeyFactors (factorCodes needs)];
    mret (Ok (Httpx.mkResponse 0 (Httpx.mfaRequiredBody StateMFARequired names "") []))
  else
    try (landing (Tenant sub) "" (MFA (pages i))) (fun loc =>
    try (putFlow p sub) (fun handle =>
    try (if p_transport p =? TransportCookies
         then
           err ← respond (Cookie.SetFlow (cookies i) (CeremonyCodec.Encode handle) Ceremony_.MFAFlow);
           mret (match err with Some err => Err (Join HErrInternal err) | None => Ok "" end)
         else if p_transport p =? TransportBearer then mret (Ok (CeremonyCodec.Encode handle))
         else mret (Err (Join HErrInternal ErrInvalidArgument))) (fun flow =>
    _ ← emit MFAChallengeRequired sub "" [KeyMethod method; KeyFactors (factorCodes off)];
    mret (Ok (Httpx.mkResponse 0 (Httpx.mfaRequiredBody StateMFARequired names flow) loc))))).

Definition Complete (i : Issuer) (r : Httpx.Request) (p : Pending) (v : Verified) : M (res Httpx.Response) :=
  let sub := v_subject v in
  if negb (bool_decide (p_tenant p = Httpx.tenant r)) || negb (bool_decide (Tenant sub = Httpx.tenant r))
  then mret (Err (Join HErrUnauthenticated ErrTenantMismatch))
  else
    try (state sub) (fun st =>
    match Add p v st with
    | Err err => _ ← refused sub (v_factors v); mret (Err (Join HErrUnauthenticated err))
    | Ok bound =>
        try (decision sub) (fun d =>
        t ← now;
        lineage ← newID;
        match Admit lineage bound st d t with
        | Err err => _ ← refused sub (factorSet bound); mret (Err (Join HErrUnauthenticated err))
        | Ok adm =>
            match Session adm with
            | Some a => start i a
            | None =>
                let '(parked, needs) := default (zero_Pending, []) (NeedsFactor adm) in
                park i r parked needs
            end
        end)
    end).

(** ** Reauthentication *)
Definition BeginReauth (r : Httpx.Request) : M (res Pending) :=
  match Httpx.session r with
  | None => mret (Err HErrUnauthenticated)
  | Some res =>
      t ← now;
      let p := PendingForReauth (r_attrs res) t in
      mret (if negb (Bound p) then Err HErrUnauthenticated else Ok p)
  end.

(** The loop that adds the verifications. *)
Fixpoint add_all (p : Pending) (vs : list Verified) (st : AccountState) : res Pending :=
  match vs with
  | [] => Ok p
  | v :: vs' => p ← Add p v st; add_all p vs' st
  end.

Definition reissue (i : Issuer) (r : Httpx.Request) (res_ : Resumed) (n : SessionAttrs) : M (res unit) :=
  x ← on_backend (bk_Reissue (r_handle res_) n);
  match x with
  | Ok _ => mret (Ok tt)
  | Err err =>
      _ ← clearSession i r (a_transport n);
      mret (Err (reissueProblem err))
  end.

Definition ReauthenticateAll (i : Issuer) (r : Httpx.Request) (vs : list Verified) : M (res Httpx.Response) :=
  match Httpx.session r, vs with
  | None, _ | _, [] => mret (Err HErrUnauthenticated)
  | Some res, _ =>
      let a := r_attrs res in
      let sub := a_subject a in
      try (state sub) (fun st =>
      t0 ← now;
      try (mret (map_err (Join HErrUnauthenticated) (add_all (PendingForReauth a t0) vs st))) (fun p =>
      try (decision sub) (fun d =>
      t ← now;
      match Reauthenticate a p st d t with
      | Err err =>
          if Is err ErrFactorRequired
          then
            let off := offered i (MFADecision_Factors d) reauthFactors in
            let body := Httpx.mfaRequiredBody StateMFARequired (factorNames off) "" in
            if Z.of_nat (length off) =? 0
            then
              _ ← emit MFAModuleMissing sub "no_completing_module"
                    [KeyMethod (primaryCode (factorSet p)); KeyFactors (factorCodes (MFADecision_Factors d))];
              mret (Ok (Httpx.mkResponse 0 body []))
            else
              try (landing (Tenant sub) "" (Reauth (pages i))) (fun loc =>
              mret (Ok (Httpx.mkResponse 0 body loc)))
          else mret (Err (Join HErrUnauthenticated err))
      | Ok n =>
          try (reissue i r res n) (fun _ =>
          mret (Ok (Httpx.mkResponse 0 (Httpx.stateBody StateReauthenticated) [])))
      end)))
  end.

Definition Reauthenticate_ (i : Issuer) (r : Httpx.Request) (v : Verified) : M (res Httpx.Response) :=
  ReauthenticateAll i r [v].

Definition Reissue (i : Issuer) (r : Httpx.Request) (c : Httpx.Change) : M (res unit) :=
  match Httpx.session r with
  | None => mret (Err HErrUnauthenticated)
  | Some res_ =>
      let a := r_attrs res_ in
      st ← state (a_subject a);
      match st with
      | Err err => _ ← clearSession i r (a_transport a); mret (Err err)
      | Ok st =>
          let next (n : res SessionAttrs) : M (res unit) :=
            match n with
            | Err err => _ ← clearSession i r (a_transport a); mret (Err (Join HErrUnauthenticated err))
            | Ok n => reissue i r res_ n
            end in
          match Httpx.EnrolledFactor c with
          | Some f => next (FactorEnrolled a f st)
          | None =>
              if Httpx.PasswordChanged_ c then t ← now; next (PasswordChanged a st t)
              else mret (Err (Join HErrInternal (New "issuance: zero change")))
          end
      end
  end.

Definition Detached (i : Issuer) (t : TenantID) : M (res Pending) :=
  at_ ← now;
  mret (map_err (Join HErrInternal) (NewPending t RememberDeclined "" TransportCookies (remember i) at_)).
End issuer.
Arguments env F B T P : clear implicits.
Arguments world F B : clear implicits.
End Issuance.
