(* ===== verification/Totp.v ===== *)
(** One-time codes and their text: internal/mfasvc (totp.go, recovery.go) and the associated data of
    internal/sealing.

    HMAC-SHA1, SHA-256, the case mapping of runes beyond ASCII and the text of a UUID are parameters;
    base32, the truncation of RFC 4226 and the escaping of a provisioning URI are written out. *)
From S2P Require Import Prelude Errors Tenant IdentityRecord GoText JsonText.

(** ** Runes *)
Definition utf8_RuneError : Z := 65533.

(** The runes [range] visits in a string, U+FFFD for a byte that starts none; [n] bounds their number. *)
Fixpoint range_runes_n (n : nat) (b : bytes) : list Z :=
  match n, b with
  | S n', _ :: b' =>
      match JsonText.rune_len b with
      | O => utf8_RuneError :: range_runes_n n' b'
      | k => default [] (Identity.runes (take k b)) ++ range_runes_n n' (drop k b)
      end
  | _, _ => []
  end.

Definition range_runes (b : bytes) : list Z := range_runes_n (length b) b.

(** ** base32.StdEncoding without padding *)
Module Base32.

Definition char_of (i : Z) : byte := byte_of_Z (if i <? 26 then 65 + i else 24 + i).

Definition value_of (b : byte) : option Z :=
  let c := Z_of_byte b in
  if (65 <=? c) && (c <=? 90) then Some (c - 65)
  else if (50 <=? c) && (c <=? 55) then Some (c - 24)
  else None.

(** The [k]-th group of five bits of a 40-bit value, counted from the right. *)
Definition five (v k : Z) : Z := (v / 2 ^ (5 * k)) mod 32.

(** The [k]-th byte of a 40-bit value, counted from the right. *)
Definition octet (v k : Z) : byte := byte_of_Z ((v / 2 ^ (8 * k)) mod 256).

Definition groups (n : nat) (v : Z) : bytes :=
  map (fun k => char_of (five v (7 - Z.of_nat k))) (seq 0 n).

Fixpoint encode (b : bytes) : bytes :=
  match b with
  | [] => []
  | [p] => groups 2 (be_value [p; Byte.x00; Byte.x00; Byte.x00; Byte.x00])
  | [p; q] => groups 4 (be_value [p; q; Byte.x00; Byte.x00; Byte.x00])
  | [p; q; r] => groups 5 (be_value [p; q; r; Byte.x00; Byte.x00])
  | [p; q; r; s] => groups 7 (be_value [p; q; r; s; Byte.x00])
  | p :: q :: r :: s :: t :: b' => groups 8 (be_value [p; q; r; s; t]) ++ encode b'
  end.

Definition quantum (vs : list Z) : Z :=
  fold_left (fun acc v => acc * 32 + v) (vs ++ replicate (8 - length vs) 0) 0.

(** How many bytes the decoder keeps of a last quantum of that many characters. *)
Definition kept (n : nat) : nat :=
  (match n with 8 => 5 | 7 => 4 | 5 => 3 | 4 => 2 | 2 => 1 | _ => 0 end)%nat.

Definition octets (vs : list Z) : bytes :=
  map (fun k => octet (quantum vs) (4 - Z.of_nat k)) (seq 0 (kept (length vs))).

(** The decoder on a text without line ends; a character outside the alphabet fails. *)
Fixpoint quanta (b : bytes) : option bytes :=
  match b with
  | c0 :: c1 :: c2 :: c3 :: c4 :: c5 :: c6 :: c7 :: b' =>
      vs ← mapM value_of [c0; c1; c2; c3; c4; c5; c6; c7];
      rest ← quanta b';
      Some (octets vs ++ rest)
  | _ => vs ← mapM value_of b; Some (octets vs)
  end.

Definition line_end (c : byte) : bool := bool_decide (c = Byte.x0a) || bool_decide (c = Byte.x0d).

Definition DecodeString (b : bytes) : option bytes := quanta (List.filter (fun c => negb (line_end c)) b).

(** ** What is encoded is decoded *)
Lemma value_char32 i : 0 <= i < 32 -> value_of (char_of i) = Some i.
Proof.
  intros Hi. unfold value_of, char_of. destruct (Z.ltb_spec i 26); rewrite Z_of_byte_of_Z_small by lia;
    repeat case_match; bools; try lia; f_equal; lia.
Qed.

Lemma five_range v k : 0 <= five v k < 32.
Proof. unfold five. apply Z.mod_pos_bound. lia. Qed.

Lemma mapM_groups n v : mapM value_of (groups n v) = Some (map (fun k => five v (7 - Z.of_nat k)) (seq 0 n)).
Proof.
  unfold groups. generalize (seq 0 n) as l. induction l as [|k l IH]; [done|]. cbn. rewrite value_char32 by apply five_range.
  cbn. by rewrite IH.
Qed.

Lemma quantum_groups v : 0 <= v < 2 ^ 40 -> quantum (map (fun k => five v (7 - Z.of_nat k)) (seq 0 8)) = v.
Proof.
  intros Hv.
  change (map (fun k => five v (7 - Z.of_nat k)) (seq 0 8)) with [five v 7; five v 6; five v 5; five v 4; five v 3; five v 2; five v 1; five v 0].
  unfold quantum. cbn [length app replicate Nat.sub fold_left]. unfold five.
  change (2 ^ (5 * 7)) with (32 * (32 * (32 * (32 * (32 * (32 * 32)))))). change (2 ^ (5 * 6)) with (32 * (32 * (32 * (32 * (32 * 32))))).
  change (2 ^ (5 * 5)) with (32 * (32 * (32 * (32 * 32)))). change (2 ^ (5 * 4)) with (32 * (32 * (32 * 32))).
  change (2 ^ (5 * 3)) with (32 * (32 * 32)). change (2 ^ (5 * 2)) with (32 * 32). change (2 ^ (5 * 1)) with 32. change (2 ^ (5 * 0)) with 1.
  rewrite Z.div_1_r, <- !Z.div_div by lia. change (2 ^ 40) with 1099511627776 in Hv. Z.to_euclidean_division_equations. lia.
Qed.

Lemma octets_value p q r s t :
  map (fun k => octet (be_value [p; q; r; s; t]) (4 - Z.of_nat k)) (seq 0 5) = [p; q; r; s; t].
Proof.
  assert (forall b v k, 0 <= k -> v / 2 ^ (8 * k) mod 256 = Z_of_byte b -> octet v k = b) as Ho.
  { intros b v k Hk Hb. unfold octet. rewrite Hb. apply byte_of_Z_of_byte. }
  pose proof (Z_of_byte_range p). pose proof (Z_of_byte_range q). pose proof (Z_of_byte_range r).
  pose proof (Z_of_byte_range s). pose proof (Z_of_byte_range t).
  cbn [map seq]. f_equal; [|f_equal; [|f_equal; [|f_equal; [|f_equal]]]]; apply Ho; try lia; unfold be_value; cbn [fold_left].
  - change (2 ^ (8 * (4 - Z.of_nat 0))) with (256 * (256 * (256 * 256))). rewrite <- !Z.div_div by lia. Z.to_euclidean_division_equations. lia.
  - change (2 ^ (8 * (4 - Z.of_nat 1))) with (256 * (256 * 256)). rewrite <- !Z.div_div by lia. Z.to_euclidean_division_equations. lia.
  - change (2 ^ (8 * (4 - Z.of_nat 2))) with (256 * 256). rewrite <- !Z.div_div by lia. Z.to_euclidean_division_equations. lia.
  - change (2 ^ (8 * (4 - Z.of_nat 3))) with 256. Z.to_euclidean_division_equations. lia.
  - change (2 ^ (8 * (4 - Z.of_nat 4))) with 1. rewrite Z.div_1_r. Z.to_euclidean_division_equations. lia.
Qed.

Lemma quantum_be_range p q r s t : 0 <= be_value [p; q; r; s; t] < 2 ^ 40.
Proof.
  pose proof (Z_of_byte_range p). pose proof (Z_of_byte_range q). pose proof (Z_of_byte_range r).
  pose proof (Z_of_byte_range s). pose proof (Z_of_byte_range t). unfold be_value. cbn [fold_left]. change (2 ^ 40) with 1099511627776. lia.
Qed.

Lemma quanta_encode32 n b : length b = (5 * n)%nat -> quanta (encode b) = Some b.
Proof.
  revert b. induction n as [|n IH]; intros b Hb; [by destruct b|].
  destruct b as [|p [|q [|r [|s [|t b]]]]]; try (cbn in Hb; lia). cbn [encode].
  pose proof (mapM_groups 8 (be_value [p; q; r; s; t])) as Hm. pose proof (octets_value p q r s t) as Ho.
  unfold groups in *. cbn [map seq app] in *. cbn [quanta]. rewrite Hm. cbn [mbind option_bind].
  rewrite IH by (cbn in Hb; lia). cbn [mbind option_bind]. unfold octets. cbn [length kept].
  pose proof (quantum_groups _ (quantum_be_range p q r s t)) as Hq. cbn [map seq] in Hq. rewrite Hq. cbn [map seq]. by rewrite Ho.
Qed.

(** The characters of the alphabet: upper case letters and the digits from 2 to 7. *)
Definition letter (c : byte) : Prop := 65 <= Z_of_byte c <= 90 \/ 50 <= Z_of_byte c <= 55.

Lemma groups_letters n v : Forall letter (groups n v).
Proof.
  unfold groups. apply Forall_fmap, Forall_true. intros k. unfold letter, compose, char_of. pose proof (five_range v (7 - Z.of_nat k)).
  destruct (Z.ltb_spec (five v (7 - Z.of_nat k)) 26); rewrite Z_of_byte_of_Z_small by lia; lia.
Qed.

Lemma encode_letters n b : length b = (5 * n)%nat -> Forall letter (encode b).
Proof.
  revert b. induction n as [|n IH]; intros b Hb; [destruct b; [constructor|done]|].
  destruct b as [|p [|q [|r [|s [|t b]]]]]; try (cbn in Hb; lia). cbn [encode]. apply Forall_app. split; [apply groups_letters|].
  apply IH. cbn in Hb. lia.
Qed.
End Base32.

(** ** hex.EncodeToString *)
Definition hex_EncodeToString (b : bytes) : string :=
  bytes_str (concat (map (fun c => [JsonText.hex (Z_of_byte c / 16); JsonText.hex (Z_of_byte c mod 16)]) b)).

(** ** url.PathEscape, url.QueryEscape and url.Values.Encode *)
Module UrlEscape.

Definition unreserved (c : byte) : bool :=
  let z := Z_of_byte c in
  Identity.between 97 122 z || Identity.between 65 90 z || Identity.between 48 57 z
  || bool_decide (c ∈ str_bytes "-_.~").

Definition hex_upper (z : Z) : byte := byte_of_Z (if z <? 10 then 48 + z else 55 + z).

Definition pct (c : byte) : bytes := ["%"%byte; hex_upper (Z_of_byte c / 16); hex_upper (Z_of_byte c mod 16)].

Definition PathEscape (s : string) : bytes :=
  concat (map (fun c => if unreserved c || bool_decide (c ∈ str_bytes "$&+:=@") then [c] else pct c) (str_bytes s)).

Definition QueryEscape (s : string) : bytes :=
  concat (map (fun c => if unreserved c then [c] else if bool_decide (c = " "%byte) then ["+"%byte] else pct c) (str_bytes s)).

(** [Encode] over the keys in order. *)
Definition Encode (l : list (string * string)) : bytes :=
  JsonText.join ["&"%byte] (map (fun '(k, v) => QueryEscape k ++ ["="%byte] ++ QueryEscape v) l).
End UrlEscape.

(** ** The associated data of sealed secrets *)
Module Sealing.

Definition kindTOTP : Z := 1.

Definition kindOAuthClientSecret : Z := 2.

Definition kindSigningKey : Z := 3.

Definition kindDataKey : Z := 4.

Definition name (kind : Z) : string :=
  if kind =? kindTOTP then "totp"
  else if kind =? kindOAuthClientSecret then "oauth-client-secret"
  else if kind =? kindSigningKey then "signing-key"
  else if kind =? kindDataKey then "deployment"
  else "".

Definition maxIDLen : Z := 256.

Record Ref := mkRef { r_kind : Z; r_tenant : TenantID; r_id : string }.

Definition TOTPSecret (uuid_String : uuid -> string) (s : Subject) : res Ref :=
  if User s =? uuid_Nil then Err ErrInvalidRef else Ok (mkRef kindTOTP (Tenant s) (uuid_String (User s))).

Definition checkID (id : string) : option error :=
  if bool_decide (id = "") || (maxIDLen <? Z.of_nat (String.length id)) || bool_decide (Byte.x00 ∈ str_bytes id)
  then Some (ErrInvalidRef : error) else None.

Definition OAuthClientSecret (t : TenantID) (provider : string) : res Ref :=
  match checkID provider with Some err => Err err | None => Ok (mkRef kindOAuthClientSecret t provider) end.

Definition SigningKey (t : TenantID) (kid : string) : res Ref :=
  match checkID kid with Some err => Err err | None => Ok (mkRef kindSigningKey t kid) end.

Definition DataKey : Ref := mkRef kindDataKey zero_TenantID "datakey".

(** [None] is the nil AAD of the zero Ref. *)
Definition AAD (r : Ref) : option bytes :=
  let n := name (r_kind r) in
  if bool_decide (n = "") then None
  else Some (str_bytes ("egauth/" +:+ n +:+ "/v1") ++ [Byte.x00]
             ++ (if negb (r_kind r =? kindDataKey) then str_bytes (tenant_id (r_tenant r)) ++ [Byte.x00] else [])
             ++ str_bytes (r_id r)).

Record Opened := mkOpened { Plaintext : bytes; Stale : bool }.

(** kek.KEK as it answers at one call. *)
Record KEK := mkKEK {
  k_Seal : bytes -> bytes -> res bytes;
  k_Open : bytes -> bytes -> res bytes;
  CurrentKeyID : string;
  KeyIDOf : bytes -> res string }.

Definition Seal (k : KEK) (r : Ref) (pt : bytes) : res bytes :=
  match AAD r with
  | None => Err ErrInvalidRef
  | Some aad => map_err (Join (New ("sealing: seal " +:+ name (r_kind r)))) (k_Seal k pt aad)
  end.

Definition Open (k : KEK) (r : Ref) (ct : bytes) : res Opened :=
  match AAD r with
  | None => Err ErrInvalidRef
  | Some aad =>
      let wrap := Join (New ("sealing: open " +:+ name (r_kind r))) in
      pt ← map_err wrap (k_Open k ct aad);
      id ← map_err wrap (KeyIDOf k ct);
      Ok (mkOpened pt (negb (bool_decide (id = CurrentKeyID k))))
  end.

(** [OpenLegacy], given how the legacy opener answers; the empty associated data is the nil one. *)
Definition OpenLegacy (legacy : bytes -> bytes -> res bytes) (r : Ref) (blob : bytes) : res bytes :=
  let try_all (first : bytes) :=
    match legacy blob first with
    | Ok pt => Ok pt
    | Err e1 => match legacy blob [] with
                | Ok pt => Ok pt
                | Err e2 => Err (JoinAll ErrLegacyUnopenable [e1; e2])
                end
    end in
  if (r_kind r =? kindTOTP) || (r_kind r =? kindOAuthClientSecret)
  then try_all (str_bytes (tenant_id (r_tenant r) +:+ ":" +:+ r_id r))
  else if r_kind r =? kindSigningKey then try_all (str_bytes (tenant_id (r_tenant r)))
  else if r_kind r =? kindDataKey then Err ErrNoLegacyFormat
  else Err ErrInvalidRef.
End Sealing.

(** ** One-time codes *)
Module Totp.

Definition totpDigits : Z := 6.

Definition totpModulus : Z := 1000000.

Definition totpPeriod : Z := 30.

Definition totpSkew : Z := 1.

Definition secretBytes : Z := 20.

Definition RecoveryCodeCount : nat := 10.

Definition recoveryCodeBytes : Z := 10.

Definition recoveryGroup : nat := 4.

Definition maxRecoveryInput : Z := 64.

(** [newSecret] on the bytes drawn. *)
Definition newSecret (raw : res bytes) : res string := b ← raw; Ok (bytes_str (Base32.encode b)).

Definition TrimRight (c : byte) (b : bytes) : bytes :=
  rev ((fix go l := match l with x :: l' => if bool_decide (x = c) then go l' else l | [] => [] end) (rev b)).

Definition wellFormedTOTP (code : bytes) : bool :=
  (Z.of_nat (length code) =? totpDigits) && forallb (fun c => Identity.between 48 57 (Z_of_byte c)) code.

(** [group]: a dash before every fourth character but the first. *)
Fixpoint group_at (i : nat) (s : bytes) : bytes :=
  match s with
  | [] => []
  | c :: s' => (if Nat.ltb 0 i && Nat.eqb (i mod recoveryGroup) 0 then ["-"%byte] else []) ++ c :: group_at (S i) s'
  end.

Definition group (s : bytes) : bytes := group_at 0 s.

Section codes.
(** The upper case of a rune beyond ASCII, HMAC-SHA1 and SHA-256. *)
Context (UpperCase : Z -> Z) (hmac_sha1 : bytes -> bytes -> bytes) (sha256 : bytes -> bytes).

Definition ToUpper (r : Z) : Z :=
  if r <? 128 then if Identity.between 97 122 r then r - 32 else r else UpperCase r.

Definition strings_ToUpper (b : bytes) : bytes :=
  concat (map (fun r => JsonText.encode_rune (ToUpper r)) (range_runes b)).

Definition decodeSecret (secret : bytes) : option bytes :=
  Base32.DecodeString
    (TrimRight "="%byte (strings_ToUpper (List.filter (fun c => negb (bool_decide (c = " "%byte))) secret))).

Definition hotp (key : bytes) (counter : Z) : bytes :=
  let sum := hmac_sha1 key (be_bytes 8 counter) in
  let off := Z.land (Z_of_byte (List.last sum Byte.x00)) 15 in
  let v := Z.land (be_value (take 4 (drop (Z.to_nat off) sum))) 2147483647 in
  let s := JsonText.AppendInt (v mod totpModulus) in
  replicate (Z.to_nat totpDigits - length s) "0"%byte ++ s.

(** The steps a code is compared with, the earliest first. *)
Definition steps (now : time) : list Z :=
  let step := Z.quot ((now - unix_epoch) / Second) totpPeriod in
  List.filter (fun c => 0 <=? c) [step - totpSkew; step; step + totpSkew].

Definition matchTOTP (key code : bytes) (now : time) : option Z :=
  find (fun c => bool_decide (hotp key (u64 c) = code)) (steps now).

Definition provisioningURI (secret issuer account : string) : string :=
  bytes_str (str_bytes "otpauth://totp/" ++ UrlEscape.PathEscape issuer ++ [":"%byte] ++ UrlEscape.PathEscape account ++ ["?"%byte]
    ++ UrlEscape.Encode [("algorithm", "SHA1"); ("digits", "6"); ("issuer", issuer); ("period", "30"); ("secret", secret)]).

Definition normalizeRecoveryCode (code : bytes) : bytes :=
  concat (map (fun r => JsonText.encode_rune (ToUpper r))
            (List.filter (fun r => negb ((r =? 45) || Identity.IsSpace r)) (range_runes code))).

Definition hashRecoveryCode (code : bytes) : string := hex_EncodeToString (sha256 (normalizeRecoveryCode code)).

(** ** Facts *)
Lemma range_runes_ascii b : Forall (fun c => Z_of_byte c < 128) b -> range_runes b = map Z_of_byte b.
Proof.
  unfold range_runes. induction 1 as [|c b Hc _ IH]; [done|]. cbn [length range_runes_n JsonText.rune_len].
  rewrite (proj2 (Z.ltb_lt _ _) Hc). cbn [take Identity.runes]. rewrite (proj2 (Z.ltb_lt _ _) Hc). cbn. by f_equal.
Qed.

Lemma filter_all {A} (f : A -> bool) l : Forall (fun x => f x = true) l -> List.filter f l = l.
Proof. induction 1 as [|x l Hx _ IH]; [done|]. cbn. by rewrite Hx, IH. Qed.

Lemma TrimRight_none c b : Forall (fun x => x <> c) b -> TrimRight c b = b.
Proof.
  intros Hb. unfold TrimRight. transitivity (rev (rev b)); [f_equal|apply rev_involutive].
  assert (Forall (fun x => x <> c) (rev b)) as Hr by (by apply List.Forall_rev).
  destruct Hr; [done|]. by rewrite bool_decide_eq_false_2.
Qed.

Lemma strings_ToUpper_letters l : Forall Base32.letter l -> strings_ToUpper l = l.
Proof.
  intros Hl. unfold strings_ToUpper. rewrite range_runes_ascii by (eapply Forall_impl; [exact Hl|unfold Base32.letter; lia]).
  induction Hl as [|c l Hc _ IH]; [done|]. cbn [map concat]. rewrite IH. unfold ToUpper, Identity.between, Base32.letter in *.
  replace (Z_of_byte c <? 128) with true by (symmetry; apply Z.ltb_lt; lia).
  replace (97 <=? Z_of_byte c) with false by (symmetry; apply Z.leb_gt; lia). cbn [andb]. unfold JsonText.encode_rune.
  replace (Z_of_byte c <? 128) with true by (symmetry; apply Z.ltb_lt; lia). cbn. by rewrite byte_of_Z_of_byte.
Qed.

(** A secret is read back as the bytes drawn. *)
Lemma decodeSecret_encode n b : length b = (5 * n)%nat -> decodeSecret (Base32.encode b) = Some b.
Proof.
  intros Hb. pose proof (Base32.encode_letters n b Hb) as Hl. unfold decodeSecret.
  assert (forall (Q : byte -> Prop), (forall c, Base32.letter c -> Q c) -> Forall Q (Base32.encode b)) as Hall
    by (intros Q HQ; by eapply Forall_impl).
  rewrite (filter_all _ (Base32.encode b)).
  2:{ apply Hall. intros c Hc. rewrite bool_decide_eq_false_2; [done|]. intros ->. unfold Base32.letter in Hc. cbn in Hc. lia. }
  rewrite strings_ToUpper_letters by done.
  rewrite TrimRight_none.
  2:{ apply Hall. intros c Hc ->. unfold Base32.letter in Hc. cbn in Hc. lia. }
  unfold Base32.DecodeString. rewrite filter_all; [by apply (Base32.quanta_encode32 n)|].
  apply Hall. intros c Hc. unfold Base32.line_end. rewrite !bool_decide_eq_false_2; [done|..];
    intros ->; unfold Base32.letter in Hc; cbn in Hc; lia.
Qed.

Definition digit (c : byte) : Prop := 48 <= Z_of_byte c <= 57.

Lemma digits_text n : forall z acc, 0 <= z < 10 ^ Z.of_nat n -> exists l, JsonText.digits n z acc = l ++ acc /\
  (length l <= n)%nat /\ Forall digit l.
Proof.
  induction n as [|n IH]; intros z acc Hz; [by exists []|]. cbn [JsonText.digits].
  assert (digit (byte_of_Z (48 + z mod 10))) as Hd.
  { unfold digit. pose proof (Z.mod_pos_bound z 10). rewrite Z_of_byte_of_Z_small by lia. lia. }
  destruct (z <? 10).
  - exists [byte_of_Z (48 + z mod 10)]. split; [done|]. split; [cbn; lia|]. by apply Forall_singleton.
  - destruct (IH (z / 10) (byte_of_Z (48 + z mod 10) :: acc)) as (l & -> & Hl & Hf).
    + rewrite Nat2Z.inj_succ, Z.pow_succ_r in Hz by lia. split; [apply Z.div_pos; lia|apply Z.div_lt_upper_bound; lia].
    + exists (l ++ [byte_of_Z (48 + z mod 10)]). rewrite <- app_assoc. split; [done|]. rewrite length_app. cbn. split; [lia|].
      apply Forall_app. split; [done|]. by apply Forall_singleton.
Qed.

(** More turns than the number has digits change nothing. *)
Lemma digits_fuel n m : forall z acc, 0 <= z < 10 ^ Z.of_nat n -> (0 < n)%nat -> JsonText.digits (n + m) z acc = JsonText.digits n z acc.
Proof.
  induction n as [|n IH]; intros z acc Hz Hn; [lia|]. cbn [JsonText.digits Nat.add]. destruct (Z.ltb_spec z 10); [done|].
  destruct n as [|n]; [cbn in Hz; lia|]. apply IH; [|lia]. rewrite Nat2Z.inj_succ, Z.pow_succ_r in Hz by lia.
  split; [apply Z.div_pos; lia|apply Z.div_lt_upper_bound; lia].
Qed.

(** A code is six digits. *)
Lemma hotp_digits key c : length (hotp key c) = 6%nat /\ Forall digit (hotp key c).
Proof.
  unfold hotp. set (v := Z.land _ 2147483647). pose proof (Z.mod_pos_bound v totpModulus ltac:(unfold totpModulus; lia)) as Hv.
  unfold JsonText.AppendInt. rewrite (proj2 (Z.ltb_ge _ _)) by lia. unfold totpModulus in *.
  change 20%nat with (6 + 14)%nat. rewrite digits_fuel by (cbn; lia).
  destruct (digits_text 6 (v mod 1000000) [] ltac:(cbn; lia)) as (l & -> & Hl & Hd). rewrite app_nil_r.
  split; [rewrite length_app, length_replicate; unfold totpDigits; cbn; lia|].
  apply Forall_app. split; [|done]. apply Forall_replicate. unfold digit. cbn. lia.
Qed.

Lemma hotp_wellFormed key c : wellFormedTOTP (hotp key c) = true.
Proof.
  destruct (hotp_digits key c) as [Hl Hd]. unfold wellFormedTOTP. rewrite Hl. cbn. apply forallb_forall. intros x Hx.
  apply list_elem_of_In in Hx. rewrite Forall_forall in Hd. apply Hd in Hx. unfold digit in Hx. unfold Identity.between.
  apply andb_true_iff. rewrite !Z.leb_le. lia.
Qed.

(** The code of a step in the window is found, at that step or at an earlier one with the same code. *)
Lemma matchTOTP_found key now k : k ∈ steps now -> exists k', matchTOTP key (hotp key (u64 k)) now = Some k' /\ k' ∈ steps now.
Proof.
  intros Hk. unfold matchTOTP. destruct (find _ _) as [k'|] eqn:E.
  - apply find_some in E as [Hin _]. exists k'. by rewrite list_elem_of_In.
  - pose proof (find_none _ _ E k) as Hn. rewrite <- list_elem_of_In in Hn. specialize (Hn Hk). by rewrite bool_decide_eq_true_2 in Hn.
Qed.
End codes.
End Totp.
