(* ===== verification/MfaSvc.v ===== *)
(** The MFA service: internal/mfasvc (mfasvc.go, verify.go, endpoints.go) over the in-memory MFA store.

    A method is a program over the store, the mutations applied to accounts, the response being written
    and the events emitted.  Every call reads the environment at its own index: the context, the clock,
    the KEK, and what other requests did to the store in between ([others]).  The passkey store, the
    account store, the mutation path of the identity service and the issuer are interfaces. *)
From S2P Require Import Prelude Errors Tenant Factor Attrs Pending Factors StoreBase.
From S2P Require Import MfaStore PasskeyStore Enrollment IdentityRecord GoText JsonText Cookie Renewal Redirect Program.
From S2P Require Import Httpx Issuance Totp.
Import Session MfaTypes.

Module MfaSvc.

Definition MaxAttempts : Z := 5.

Definition LockoutDuration : duration := 15 * Minute.

Definition stateEnrollmentStarted : string := "totp_enrollment_started".

Definition stateTOTPEnabled : string := "totp_enabled".

Definition stateTOTPDisabled : string := "totp_disabled".

Definition stateCodesRegenerated : string := "recovery_codes_regenerated".

(** [mfasvc.ParseFactor] *)
Definition ParseFactor (field : string) : res Factor :=
  if bool_decide (field = "totp") then Ok FactorTOTP
  else if bool_decide (field = "recovery_code") then Ok FactorRecoveryCode
  else Err YErrInvalidFactor.

Definition unavailable (err : error) : error := Join HErrServiceUnavailable err.

(** What [New] was given: whether each interface is present, and the issuer name. *)
Record Config := mkConfig {
  has_MFA : bool; has_Passkeys : bool; has_Identity : bool; has_Mutations : bool; has_KEK : bool;
  TOTPIssuer : string; has_Audit : bool }.

Definition New_ (c : Config) : res Config :=
  let need (ok : bool) name := if ok then [] else [New name] in
  match need (has_MFA c) "MFA" ++ need (has_Passkeys c) "Passkeys" ++ need (has_Identity c) "Identity"
        ++ need (has_Mutations c) "Mutations" ++ need (has_KEK c) "KEK"
        ++ need (negb (bool_decide (TrimSpace (str_bytes (TOTPIssuer c)) = []))) "TOTPIssuer"
        ++ need (has_Audit c) "Audit" with
  | [] => Ok c
  | e :: es => Err (Join YErrInvalidConfig (JoinAll e es))
  end.

Section service.
Context {P : Type} `{EnrollmentSvc.PasskeyEnrollment P}.
Context (UpperCase : Z -> Z) (hmac_sha1 : bytes -> bytes -> bytes) (sha256 : bytes -> bytes) (uuid_String : uuid -> string).

Record env := mkEnv {
  ctx : nat -> Ctx;
  clock : nat -> time;
  rand : nat -> Z -> res bytes;
  kek : nat -> Sealing.KEK;
  passkeys : nat -> P;
  users : nat -> Subject -> res Identity.User_;
  mutate : nat -> Identity.Mutation -> res Identity.Applied;
  reissued : nat -> Httpx.Change -> Http.Response -> Http.Response * option error;
  others : nat -> MfaMemory.Store -> MfaMemory.Store;
  (** how many draws newRecoveryCodes is followed for *)
  draws : nat }.

Record world := mkWorld {
  store : MfaMemory.Store;
  applied : list Identity.Mutation;
  out : Http.Response;
  audit : list audit_event;
  calls : nat }.

Abbreviation M := (Program.M env world).

Definition tick (w : world) : world := mkWorld (store w) (applied w) (out w) (audit w) (S (calls w)).

Definition now : M time := fun e w => (tick w, clock e (calls w)).

Definition draw (n : Z) : M (res bytes) := fun e w => (tick w, rand e (calls w) n).

(** One call on the store, after what other requests did. *)
Definition on_store {R} (f : Ctx -> time -> MfaMemory.Store -> MfaMemory.Store * R) : M R := fun e w =>
  let n := calls w in
  let '(s, r) := f (ctx e n) (clock e n) (others e n (store w)) in
  (mkWorld s (applied w) (out w) (audit w) (S n), r).

(** A call that only reads the store. *)
Definition read_store {R} (f : Ctx -> MfaMemory.Store -> R) : M R := on_store (fun c _ s => (s, f c s)).

Definition emit (t : audit_type) (s : Subject) (reason : string) (attrs : list audit_attr) : M unit := fun _ w =>
  (mkWorld (store w) (applied w) (out w) (audit w ++ [mkAudit t s reason attrs]) (calls w), tt).

Definition respond {R} (f : Http.Response -> Http.Response * R) : M R := fun _ w =>
  let '(o, r) := f (out w) in (mkWorld (store w) (applied w) o (audit w) (calls w), r).

(** [Mutator.Apply] *)
Definition apply_mutation (m : Identity.Mutation) : M (res unit) := fun e w =>
  match mutate e (calls w) m with
  | Ok _ => (mkWorld (store w) (applied w ++ [m]) (out w) (audit w) (S (calls w)), Ok tt)
  | Err err => (tick w, Err err)
  end.

(** [Issuer.Reissue] *)
Definition reissue (c : Httpx.Change) : M (option error) := fun e w =>
  let '(o, r) := reissued e (calls w) c (out w) in (mkWorld (store w) (applied w) o (audit w) (S (calls w)), r).

Definition has_active (sub : Subject) : M (res bool) := fun e w =>
  (tick w, EnrollmentSvc.HasActive (ctx e (calls w)) sub (passkeys e (calls w))).

(** ** verify.go *)
Definition lockout (sub : Subject) : M Lockout := t ← now; mret (mkLockout sub t MaxAttempts LockoutDuration).

Definition failed (sub : Subject) (f : Factor) (err : error) : M unit :=
  let note reason := emit MFAVerificationFailed sub reason [KeyFactor (code f)] in
  if Is err ErrTooManyAttempts then note "too_many_attempts"
  else if negb (Is err ErrInvalidCode) then mret tt
  else note "invalid_code".

Definition lockedNow (sub : Subject) (n : Z) : M unit :=
  if negb (n =? MaxAttempts) then mret tt else emit AccountLocked sub "mfa_lockout" [KeyCount n].

Definition reseal (sub : Subject) (ref : Sealing.Ref) (old plaintext : bytes) : M unit :=
  r ← (fun e w => (tick w, Sealing.Seal (kek e (calls w)) ref plaintext));
  match r with
  | Err _ => mret tt
  | Ok fresh => _ ← on_store (fun c _ => MfaMemory.ReplaceSealed c (mkReseal (mkSealedRef sub) old fresh)); mret tt
  end.

Definition bad_secret : error := New "illegal base32 data".

Definition openSecret (sub : Subject) (sealed : bytes) : M (res bytes) :=
  match Sealing.TOTPSecret uuid_String sub with
  | Err err => mret (Err err)
  | Ok ref =>
      try (fun e w => (tick w, Sealing.Open (kek e (calls w)) ref sealed)) (fun o =>
        _ ← (if Sealing.Stale o then reseal sub ref sealed (Sealing.Plaintext o) else mret tt);
        mret match Totp.decodeSecret UpperCase (Sealing.Plaintext o) with Some k => Ok k | None => Err bad_secret end)
  end.

Definition verifyTOTP (sub : Subject) (code : string) (confirmed : bool) : M (res (Enrollment * Z)) :=
  let code := TrimSpace (str_bytes code) in
  if negb (Totp.wellFormedTOTP code) then mret (Err ErrInvalidCode)
  else
    r ← read_store (fun c => MfaMemory.GetTOTP c sub);
    match r with
    | Err err => mret (Err (if Is err ErrNotFound then (ErrInvalidCode : error) else unavailable err))
    | Ok en =>
        if negb (Bool.eqb (Confirmed en) confirmed) then mret (Err ErrInvalidCode)
        else
          l ← lockout sub;
          r ← on_store (fun c _ => MfaMemory.IncrementTOTPAttempts c l);
          match r with
          | Err err => mret (Err (if Is err ErrNotFound then (ErrInvalidCode : error) else unavailable err))
          | Ok n =>
              if MaxAttempts <? n then mret (Err ErrTooManyAttempts)
              else
                r ← openSecret sub (Sealed en);
                match r with
                | Err err => mret (Err (unavailable err))
                | Ok key =>
                    t ← now;
                    match Totp.matchTOTP hmac_sha1 key code t with
                    | None => _ ← lockedNow sub n; mret (Err ErrInvalidCode)
                    | Some step =>
                        r ← on_store (fun c _ => MfaMemory.MarkTOTPUsed c sub step);
                        match r with
                        | Err err => mret (Err (unavailable err))
                        | Ok fresh =>
                            if negb fresh then _ ← lockedNow sub n; mret (Err ErrInvalidCode)
                            else mret (Ok (en, step))
                        end
                    end
                end
          end
    end.

Definition hasSecondFactor (sub : Subject) : M (res bool) :=
  try (read_store (fun c => MfaMemory.HasConfirmedTOTP c sub)) (fun totp =>
    if totp then mret (Ok true) else has_active sub).

Definition verifyRecovery (sub : Subject) (code : string) : M (res unit) :=
  let norm := Totp.normalizeRecoveryCode UpperCase (str_bytes code) in
  if bool_decide (norm = []) || (Totp.maxRecoveryInput <? Z.of_nat (String.length code)) then mret (Err ErrInvalidCode)
  else
    r ← hasSecondFactor sub;
    match r with
    | Err err => mret (Err (unavailable err))
    | Ok false => mret (Err ErrInvalidCode)
    | Ok true =>
        l ← lockout sub;
        r ← on_store (fun c _ => MfaMemory.IncrementRecoveryAttempts c l);
        match r with
        | Err err => mret (Err (unavailable err))
        | Ok n =>
            if MaxAttempts <? n then mret (Err ErrTooManyAttempts)
            else
              r ← on_store (fun c _ => MfaMemory.ConsumeRecoveryCode c sub (Totp.hashRecoveryCode UpperCase sha256 norm));
              match r with
              | Err err =>
                  if Is err ErrNotFound then _ ← lockedNow sub n; mret (Err ErrInvalidCode)
                  else mret (Err (unavailable err))
              | Ok _ => _ ← on_store (fun c _ => MfaMemory.ResetRecoveryAttempts c sub); mret (Ok tt)
              end
        end
    end.

Definition Verify (sub : Subject) (f : Factor) (code : string) : M (res Verified) :=
  if Subject_IsZero sub then mret (Err ErrInvalidCode)
  else if negb (bool_decide (f = FactorTOTP) || bool_decide (f = FactorRecoveryCode)) then mret (Err YErrInvalidFactor)
  else
    r ← (if bool_decide (f = FactorTOTP) then try (verifyTOTP sub code true) (fun _ => mret (Ok tt)) else verifyRecovery sub code);
    match r with
    | Err err => _ ← failed sub f err; mret (Err err)
    | Ok _ => t ← now; mret (if bool_decide (f = FactorTOTP) then Factors.TOTP sub t else Factors.RecoveryCode sub t)
    end.

(** ** recovery.go: newRecoveryCodes *)
(** The loop, for at most [n] draws; [plain] and [hashes] are what was kept so far. *)
Fixpoint recovery_loop (n : nat) (plain : list string) (hashes : list string) : M (res (list string * list string)) :=
  if Nat.leb Totp.RecoveryCodeCount (length plain) then mret (Ok (plain, hashes))
  else match n with
       | O => mret (Err (New "more draws needed"))
       | S n' =>
           try (draw Totp.recoveryCodeBytes) (fun b =>
             let c := Totp.group (Base32.encode b) in
             let h := Totp.hashRecoveryCode UpperCase sha256 c in
             if bool_decide (h ∈ hashes) then recovery_loop n' plain hashes
             else recovery_loop n' (plain ++ [bytes_str c]) (hashes ++ [h]))
       end.

Definition newRecoveryCodes : M (res (list string * list string)) := fun e w => recovery_loop (draws e) [] [] e w.

(** ** endpoints.go *)
Definition fail (err : error) : M Httpx.answer := respond (Httpx.Fail err).

(** A call whose error [f] ends the handler. *)
Definition or_fail {R} (f : error -> error) (m : M (res R)) (k : R -> M Httpx.answer) : M Httpx.answer :=
  r ← m; match r with Ok a => k a | Err err => fail (f err) end.

Definition current (r : Httpx.Request) : res SessionAttrs :=
  match Httpx.session r with None => Err HErrUnauthenticated | Some res => Ok (r_attrs res) end.

Definition accountLabel (sub : Subject) : M string := fun e w =>
  (tick w, match users e (calls w) sub with
           | Err _ => uuid_String (User sub)
           | Ok u => if Identity.Identifier_IsZero (Identity.Email u) then uuid_String (User sub)
                     else Identity.value (Identity.Email u)
           end).

Definition zero_enrollment : Enrollment := mkEnrollment zero_Subject [] 0 None 0 0 time_zero time_zero.

Definition answer_with (r : Httpx.Request) (b : Httpx.Body) : M Httpx.answer := respond (Httpx.Respond r (Httpx.mkResponse 0 b [])).

Definition enroll (issuer : string) (r : Httpx.Request) : M Httpx.answer :=
  or_fail id (mret (current r)) (fun a =>
    let sub := a_subject a in
    g ← read_store (fun c => MfaMemory.GetTOTP c sub);
    match match g with
          | Err err => if Is err ErrNotFound then Ok zero_enrollment else Err (unavailable err)
          | Ok prev => if Confirmed prev then Err (ErrAlreadyEnrolled : error) else Ok prev
          end with
    | Err err => fail err
    | Ok prev =>
        or_fail (Join HErrInternal) (b ← draw Totp.secretBytes; mret (Totp.newSecret b)) (fun secret =>
        or_fail (Join HErrInternal) (mret (Sealing.TOTPSecret uuid_String sub)) (fun ref =>
        or_fail unavailable (fun e w => (tick w, Sealing.Seal (kek e (calls w)) ref (str_bytes secret))) (fun sealed =>
        t ← now;
        or_fail unavailable (on_store (fun c clk => MfaMemory.SaveTOTP c clk
          (mkEnrollment sub sealed AADVersionCurrent None (LastUsedStep prev) (FailedAttempts prev) (LastAttemptAt prev) t))) (fun _ =>
        label ← accountLabel sub;
        answer_with r (Httpx.enrollBody stateEnrollmentStarted secret (Totp.provisioningURI secret issuer label))))))
    end).

Definition confirm (r : Httpx.Request) : M Httpx.answer :=
  or_fail id (mret (current r)) (fun a =>
    let sub := a_subject a in
    g ← read_store (fun c => MfaMemory.GetTOTP c sub);
    match match g with
          | Err err => Some (if Is err ErrNotFound then (ErrNoPendingEnrollment : error) else unavailable err)
          | Ok en => if Confirmed en then Some (ErrNoPendingEnrollment : error) else None
          end with
    | Some err => fail err
    | None =>
        v ← verifyTOTP sub (Httpx.Field r "code") false;
        match v with
        | Err err => _ ← failed sub FactorTOTP err; fail err
        | Ok (en, step) =>
            or_fail (Join HErrInternal) newRecoveryCodes (fun '(plain, hashes) =>
            or_fail unavailable (apply_mutation (Identity.BumpEpoch sub (a_lineage a) Identity.FactorTOTPEnrolled)) (fun _ =>
            t ← now;
            let en := mkEnrollment (ESubject en) (Sealed en) (AADVersion en) (Some t) (Z.max (LastUsedStep en) step) 0
                        (LastAttemptAt en) (CreatedAt en) in
            or_fail unavailable (on_store (fun c clk => MfaMemory.ConfirmEnrollment c clk en hashes)) (fun _ =>
            _ ← emit CredentialAdded sub "" [KeyFactor (code FactorTOTP)];
            ended ← reissue (Httpx.FactorEnrolledChange FactorTOTP);
            answer_with r (Httpx.codesBody stateTOTPEnabled plain (bool_decide (is_Some ended))))))
        end
    end).

Definition removeTOTP (sub : Subject) (codes : bool) : M (res unit) :=
  try (apply_mutation (Identity.BumpEpoch sub uuid_Nil Identity.FactorTOTPRemoved)) (fun _ =>
  try (on_store (fun c _ => MfaMemory.DeleteTOTP c sub)) (fun _ =>
  if negb codes then mret (Ok tt) else on_store (fun c _ => MfaMemory.DeleteRecoveryCodes c sub))).

Definition disable (r : Httpx.Request) : M Httpx.answer :=
  or_fail id (mret (current r)) (fun a =>
    let sub := a_subject a in
    or_fail id (mret (ParseFactor (Httpx.Field r "factor"))) (fun f =>
    or_fail unavailable (read_store (fun c => MfaMemory.HasConfirmedTOTP c sub)) (fun confirmed =>
    if negb confirmed then fail ErrNotEnrolled
    else
      or_fail id (Verify sub f (Httpx.Field r "code")) (fun _ =>
      or_fail unavailable (has_active sub) (fun passkey =>
      or_fail unavailable (removeTOTP sub (negb passkey)) (fun _ =>
      _ ← emit CredentialRemoved sub "" [KeyFactor (code FactorTOTP)];
      answer_with r (Httpx.codesBody stateTOTPDisabled [] true))))))).

Definition regenerate (r : Httpx.Request) : M Httpx.answer :=
  or_fail id (mret (current r)) (fun a =>
    let sub := a_subject a in
    or_fail unavailable (hasSecondFactor sub) (fun has =>
    if negb has then fail ErrNoSecondFactor
    else
      or_fail (Join HErrInternal) newRecoveryCodes (fun '(plain, hashes) =>
      or_fail unavailable (apply_mutation (Identity.BumpEpoch sub uuid_Nil Identity.FactorRecoveryCodesRegenerated)) (fun _ =>
      or_fail unavailable (on_store (fun c _ => MfaMemory.ReplaceRecoveryCodes c sub hashes)) (fun _ =>
      _ ← emit CredentialAdded sub "" [KeyFactor (code FactorRecoveryCode)];
      answer_with r (Httpx.codesBody stateCodesRegenerated plain true)))))).
End service.

(** The paths served. *)
Definition Endpoints : list string :=
  ["/mfa/totp/enroll"; "/mfa/totp/confirm"; "/mfa/totp/disable"; "/mfa/recovery-codes/regenerate"].
End MfaSvc.
