(* ===== verification/Flow.v ===== *)
(** The second step of a login and /reauth: internal/flow (flow.go, challenge.go, reauth.go).

    A handler is a program over the world of issuance that ends in an answer.  The factor services it
    calls (SecondFactors, StepUp, Passwords) are interfaces: how they answer at each call is part of the
    environment, and a service that was not given is [None]. *)
From S2P Require Import Prelude Errors Tenant Factor Attrs Pending Transitions Factors Codec StoreBase.
From S2P Require Import CeremonyKind Enrollment GoText Cookie Renewal Redirect Program.
From S2P Require Import Httpx Issuance MfaSvc.
Import Session.

Module Flow.

Definition statePasskeyChallenge : string := "passkey_challenge".

Definition factorPasskey : string := "passkey".

(** [passkeysvc.StepUpChallenge] *)
Record StepUpChallenge := mkStepUpChallenge { Options : bytes; sc_Handle : string }.

(** [StepUp], as it answers at each call. *)
Record StepUp := mkStepUp {
  BeginStepUp : nat -> Pending -> res StepUpChallenge;
  FinishStepUp : nat -> TenantID -> string -> bytes -> res (Pending * Verified);
  FinishReauth : nat -> TenantID -> string -> bytes -> res (Pending * Verified) }.

Definition SecondFactors : Type := nat -> Subject -> Factor -> string -> res Verified.

Definition Passwords : Type := nat -> Subject -> string -> option error.

(** [Service]: its cookie policy and the factor services it was given. *)
Record Service := mkService {
  s_cookies : Cookie.Policy;
  second : option SecondFactors;
  stepUp : option StepUp;
  passwords : option Passwords }.

(** The flags tell whether the flow store and the audit were given. *)
Definition New_ (flows audit : bool) (s : Service) : res Service :=
  let need (ok : bool) name := if ok then [] else [New name] in
  match need flows "Flows" ++ need (negb (bool_decide (s_cookies s = Cookie.zero_Policy))) "Cookies" ++ need audit "Audit" with
  | [] => Ok s
  | e :: es => Err (Join WErrInvalidConfig (JoinAll e es))
  end.

Definition Completes (s : Service) (f : Factor) : bool :=
  if bool_decide (f = FactorTOTP) || bool_decide (f = FactorRecoveryCode) then bool_decide (is_Some (second s))
  else if bool_decide (f = FactorPasskeyStepUp) then bool_decide (is_Some (stepUp s))
  else false.

Record parked := mkParked {
  handle : CeremonyCodec.Handle;
  sealed : Sealed;
  pending : Pending;
  subject : Subject;
  fromCookie : bool }.

(** Whether the handle came from the cookie, and the handle. *)
Definition presented (s : Service) (r : Httpx.Request) : bool * res CeremonyCodec.Handle :=
  let parse from v := (from, map_err (Join ErrInvalidFlow) (CeremonyCodec.ParseHandle v)) in
  if Httpx.Has r "flow" then parse false (Httpx.Field r "flow")
  else
    let '(v, ok) := Cookie.Read (s_cookies s) (Httpx.http r) Cookie.Flow in
    if negb ok then (false, Err ErrInvalidFlow) else parse true v.

Section handlers.
Context {F B T P : Type} `{FlowStore F, SessionBackend B, EnrollmentSvc.TOTPEnrollment T, EnrollmentSvc.PasskeyEnrollment P, NetURL}.
Context (sha256 : bytes -> bytes).

Abbreviation M := (Program.M (Issuance.env F B T P) (Issuance.world F B)).

(** [handlers]: the service and the issuer its endpoints end in. *)
Record handlers := mkHandlers { service : Service; issuer : Issuance.Issuer }.

(** A call of a factor service. *)
Definition call {R} (f : nat -> R) : M R := fun _ w => (Issuance.tick w, f (Issuance.calls w)).

Definition dropCookie (h : handlers) (from : bool) : M unit :=
  if from then Issuance.respond (fun w => (Cookie.Clear (s_cookies (service h)) Cookie.Flow w, tt)) else mret tt.

Definition hash_of (f : CeremonyCodec.Handle) : bytes := CeremonyCodec.Hash sha256 f.

Definition open (h : handlers) (r : Httpx.Request) : M (res parked) :=
  let '(from, hd) := presented (service h) r in
  match hd with
  | Err err => _ ← dropCookie h from; mret (Err err)
  | Ok hd =>
      rec ← Issuance.on_flows (fun c t s => (s, fl_Peek c t (Httpx.tenant r) Ceremony_.MFAFlow (hash_of hd) s));
      match rec with
      | Err err =>
          if Is err ErrNotFound then _ ← dropCookie h from; mret (Err (Join ErrInvalidFlow err))
          else mret (Err (Issuance.unavailable err))
      | Ok rec =>
          match UnsealPending (CeremonyRec.r_Pending rec) with
          | Err err => mret (Err (Join ErrInvalidFlow err))
          | Ok p =>
              let sub := p_subject p in
              if negb (Bound p) || negb (p_reauthOf p =? uuid_Nil) || negb (bool_decide (p_tenant p = Httpx.tenant r))
                 || negb (bool_decide (CeremonyRec.tenant rec = Httpx.tenant r))
                 || negb (CeremonyRec.ScopedTo rec (CeremonyRec.SubjectScope sub))
              then mret (Err ErrInvalidFlow)
              else if negb (Bool.eqb (p_transport p =? TransportCookies) from)
              then mret (Err (Join ErrInvalidFlow (New "flow: handle presented on another transport")))
              else mret (Ok (mkParked hd (CeremonyRec.r_Pending rec) p sub from))
          end
      end
  end.

Definition charge (h : handlers) (r : Httpx.Request) (f : parked) : M unit :=
  x ← Issuance.on_flows (fun c t => fl_RecordFailure c t (Httpx.tenant r) Ceremony_.MFAFlow (hash_of (handle f)));
  match x with
  | Ok remaining => if remaining <=? 0 then dropCookie h (fromCookie f) else mret tt
  | Err _ => mret tt
  end.

Definition finish (h : handlers) (r : Httpx.Request) (f : parked) (v : Verified) : M (res Httpx.Response) :=
  rec ← Issuance.on_flows (fun c t => fl_Consume c t (Httpx.tenant r) Ceremony_.MFAFlow (hash_of (handle f)));
  match rec with
  | Err err =>
      if Is err ErrNotFound then _ ← dropCookie h (fromCookie f); mret (Err (Join ErrInvalidFlow err))
      else mret (Err (Issuance.unavailable err))
  | Ok rec =>
      _ ← dropCookie h (fromCookie f);
      if negb (bool_decide (CeremonyRec.r_Pending rec = sealed f))
      then mret (Err (Join ErrInvalidFlow (New "flow: record changed between peek and consume")))
      else Issuance.Complete sha256 (issuer h) r (pending f) v
  end.

Definition verified (sub : Subject) (f : Factor) : M unit := Issuance.emit MFAVerified sub "" [KeyFactor (code f)].

Definition fail (err : error) : M Httpx.answer := Issuance.respond (Httpx.Fail err).

(** The end of a handler: an error is answered, a value goes on. *)
Definition or_fail {R} (m : M (res R)) (k : R -> M Httpx.answer) : M Httpx.answer :=
  x ← m; match x with Ok a => k a | Err err => fail err end.

Definition challenge (h : handlers) (r : Httpx.Request) : M Httpx.answer :=
  or_fail (mret (MfaSvc.ParseFactor (Httpx.Field r "factor"))) (fun factor =>
  or_fail (open h r) (fun f =>
  match second (service h) with
  | None => fail NilPanic
  | Some verify =>
      v ← call (fun n => verify n (subject f) factor (Httpx.Field r "code"));
      match v with
      | Err err =>
          _ ← (if Is err ErrInvalidCode || Is err ErrTooManyAttempts then charge h r f else mret tt);
          fail err
      | Ok v =>
          or_fail (finish h r f v) (fun resp =>
          _ ← verified (subject f) factor;
          Issuance.respond (Httpx.RespondPending r (pending f) resp))
      end
  end)).

Definition challenge_body (ch : StepUpChallenge) : Httpx.Response :=
  Httpx.mkResponse 0 (Httpx.passkeyBody statePasskeyChallenge (Options ch) (sc_Handle ch)) [].

Definition passkeyBegin (h : handlers) (r : Httpx.Request) : M Httpx.answer :=
  or_fail (open h r) (fun f =>
  match stepUp (service h) with
  | None => fail NilPanic
  | Some su =>
      or_fail (call (fun n => BeginStepUp su n (pending f))) (fun ch =>
      Issuance.respond (Httpx.RespondPending r (pending f) (challenge_body ch)))
  end).

Definition passkeyFinish (h : handlers) (r : Httpx.Request) : M Httpx.answer :=
  or_fail (open h r) (fun f =>
  match stepUp (service h) with
  | None => fail NilPanic
  | Some su =>
      x ← call (fun n => FinishStepUp su n (Httpx.tenant r) (Httpx.Field r "handle") (Httpx.WebAuthnBody r));
      match x with
      | Err err =>
          _ ← (if Is err ErrPasskeyRejected then charge h r f else mret tt);
          fail err
      | Ok (p, v) =>
          let other err := Join ErrInvalidFlow (Join (New "flow: step-up begun from another flow") err) in
          match SealPending p with
          | Err err => fail (other err)
          | Ok s =>
              if negb (bool_decide (s = sealed f))
              then fail (Join ErrInvalidFlow (New "flow: step-up begun from another flow"))
              else
                or_fail (finish h r f v) (fun resp =>
                _ ← verified (subject f) FactorPasskeyStepUp;
                Issuance.respond (Httpx.RespondPending r (pending f) resp))
          end
      end
  end).

(** ** /reauth *)
Definition password (h : handlers) (r : Httpx.Request) (sub : Subject) : M (res Verified) :=
  match passwords (service h) with
  | None => mret (Err ErrReauthUnavailable)
  | Some chk =>
      let pw := Httpx.Field r "password" in
      if bool_decide (pw = "") then mret (Err HErrInvalidRequest)
      else
        err ← call (fun n => chk n sub pw);
        match err with
        | Some err => mret (Err err)
        | None => t ← Issuance.now; mret (map_err (Join HErrInternal) (Factors.Password sub t))
        end
  end.

Definition reauthPasskey (h : handlers) (r : Httpx.Request) (res_ : Resumed) : M Httpx.answer :=
  match stepUp (service h) with
  | None => fail YErrInvalidFactor
  | Some su =>
      if negb (Httpx.Has r "handle")
      then
        or_fail (Issuance.BeginReauth r) (fun p =>
        or_fail (call (fun n => BeginStepUp su n p)) (fun ch =>
        Issuance.respond (Httpx.Respond r (challenge_body ch))))
      else
        let a := r_attrs res_ in
        or_fail (if Httpx.Has r "password"
                 then try (password h r (a_subject a)) (fun v => mret (Ok [v]))
                 else mret (Ok [])) (fun vs =>
        or_fail (call (fun n => FinishReauth su n (Httpx.tenant r) (Httpx.Field r "handle") (Httpx.WebAuthnBody r)))
          (fun '(p, v) =>
        if (p_reauthOf p =? uuid_Nil) || negb (p_reauthOf p =? a_lineage a) || negb (bool_decide (p_subject p = a_subject a))
        then fail (Join ErrPasskeyRejected (New "flow: passkey reauthentication begun by another session"))
        else
          or_fail (match vs with
                   | [] => Issuance.Reauthenticate_ (issuer h) r v
                   | _ => Issuance.ReauthenticateAll (issuer h) r (vs ++ [v])
                   end) (fun resp =>
          Issuance.respond (Httpx.Respond r resp))))
  end.

Definition reauth (h : handlers) (r : Httpx.Request) : M Httpx.answer :=
  match Httpx.session r with
  | None => fail HErrUnauthenticated
  | Some res_ =>
      if bool_decide (Httpx.Field r "factor" = factorPasskey) then reauthPasskey h r res_
      else
        let sub := a_subject (r_attrs res_) in
        or_fail (password h r sub) (fun v =>
        let finish vs (factor : option Factor) : M Httpx.answer :=
          or_fail (Issuance.ReauthenticateAll (issuer h) r vs) (fun resp =>
          _ ← (match factor with Some f => verified sub f | None => mret tt end);
          Issuance.respond (Httpx.Respond r resp)) in
        if Httpx.Has r "factor"
        then match second (service h) with
             | None => fail YErrInvalidFactor
             | Some verify =>
                 or_fail (mret (MfaSvc.ParseFactor (Httpx.Field r "factor"))) (fun f =>
                 or_fail (call (fun n => verify n sub f (Httpx.Field r "code"))) (fun sv =>
                 finish [v; sv] (Some f)))
             end
        else finish [v] None)
  end.

(** [Endpoints]: the paths served; routes.NewEndpoint only checks a path against its table. *)
Definition Endpoints (s : Service) : list string :=
  "/reauth" :: (match second s with Some _ => ["/mfa/challenge"] | None => [] end)
  ++ (match stepUp s with Some _ => ["/mfa/passkey/begin"; "/mfa/passkey/finish"] | None => [] end).
End handlers.
End Flow.
