(* ===== verification/Gate.v ===== *)
(** The request gate of the auth endpoints: internal/httpx (preamble.go, tenant.go, the parse of request.go and
    the Env of env.go).

    The session backend and the limiter are classes; their state is part of the world.  What happens
    outside a call is an environment: the context's error and the clock at each call, the custom tenant
    resolver, identitysvc.Normalize, the enrollment reader, the BeforeEndpoint hook, and what other
    requests did to the backend and the limiter since the previous call.  mime.ParseMediaType is an
    argument. *)
From S2P Require Import Prelude Errors Tenant Factor Attrs GoText Json JsonText Cookie Redirect Renewal Program StoreBase.
From S2P Require Import IdentityRecord Limiter Csrf ClientAddr Httpx Routes Totp.
Import Session.

(** ** Interfaces *)
(** httpx.Authenticator: session.Backend.Resume on the state of the backend and the response. *)
Class Authenticator (B : Type) := {
  au_Resume : Http.Request -> TenantID -> B -> Http.Response -> B * Http.Response * res Resumed }.

(** httpx.Limiter *)
Class RateLimiter (L : Type) := {
  lm_Allow : Ctx -> time -> Limiter.Key -> L -> L * res Limiter.Decision }.

#[export] Instance memory_limiter (sha256 : bytes -> bytes) : RateLimiter Limiter.Memory | 10 :=
  {| lm_Allow := Limiter.Allow sha256 |}.

(** ** The single parse: request.go *)
Module Parse.
Import Meta.

(** url.QueryUnescape *)
Definition QueryUnescape (b : bytes) : option bytes :=
  Url.unescape (map (fun c => if bool_decide (c = "+"%byte) then Byte.x20 else c) b).

(** One pair of a query: nothing, an error or a key with its value. *)
Definition query_pair (part : bytes) : option (option (bytes * bytes)) :=
  if bool_decide (";"%byte ∈ part) then None
  else if bool_decide (part = []) then Some None
  else
    let '(key, value, _) := Cut "="%byte part in
    key ← QueryUnescape key; value ← QueryUnescape value; Some (Some (key, value)).

(** The values of a key, in the order they were sent. *)
Fixpoint add_value (k v : string) (vs : list (string * list string)) : list (string * list string) :=
  match vs with
  | [] => [(k, [v])]
  | (k', l) :: vs' => if bool_decide (k = k') then (k', l ++ [v]) :: vs' else (k', l) :: add_value k v vs'
  end.

(** url.ParseQuery: the values of the pairs that parse, and whether all did. *)
Definition ParseQuery (query : bytes) : list (string * list string) * bool :=
  fold_left (fun '(vs, ok) part =>
    match query_pair part with
    | None => (vs, false)
    | Some None => (vs, ok)
    | Some (Some (k, v)) => (add_value (bytes_str k) (bytes_str v) vs, ok)
    end) (split "&"%byte query) ([], true).

Definition invalid {A} (reason : string) : res A := Err (Join HErrInvalidRequest (New reason)).

(** A nil error with [None] is a null. *)
Definition scalar (raw : bytes) : res (option string) :=
  match raw with
  | [] => Err HErrInvalidRequest
  | c :: _ =>
      if bool_decide (c = Json.quote)
      then match JsonText.unquote raw with Some s => Ok (Some (bytes_str s)) | None => invalid "string" end
      else if bool_decide (raw = str_bytes "null") then Ok None
      else if bool_decide (raw = str_bytes "true") || bool_decide (raw = str_bytes "false")
              || bool_decide (c = "-"%byte) || Json.digit c
      then Ok (Some (bytes_str raw))
      else invalid "field is not a scalar"
  end.

(** The loop of fromJSON over the members, from the start of a key; it gives what follows the brace. *)
Fixpoint json_members (n : nat) (b : bytes) (seen : list bytes) (out : gmap string string) : res (gmap string string * bytes) :=
  match n with
  | O => invalid "unterminated object"
  | S n' =>
      match JsonText.take_value Json.start (JsonText.skip_space b) with
      | None => invalid "key"
      | Some (k, b) =>
          match JsonText.unquote k with
          | None => invalid "key"
          | Some key =>
              if bool_decide (key ∈ seen) then invalid "repeated key"
              else
                match JsonText.skip_space b with
                | ":"%byte :: b =>
                    match JsonText.take_value Json.start (JsonText.skip_space b) with
                    | None => invalid "value"
                    | Some (v, b) =>
                        out ← (if negb (Httpx.isField (bytes_str key)) then Ok out
                               else s ← scalar v; Ok (match s with Some s => <[bytes_str key := s]> out | None => out end));
                        match JsonText.skip_space b with
                        | ","%byte :: b => json_members n' b (key :: seen) out
                        | "}"%byte :: b => Ok (out, b)
                        | _ => invalid "unterminated object"
                        end
                    end
                | _ => invalid "value"
                end
          end
      end
  end.

Definition fromJSON (body : bytes) : res (gmap string string) :=
  match JsonText.skip_space body with
  | "{"%byte :: b =>
      '(out, rest) ← match JsonText.skip_space b with
                     | "}"%byte :: rest => Ok (∅, rest)
                     | _ => json_members (length b) b [] ∅
                     end;
      match JsonText.skip_space rest with [] => Ok out | _ => invalid "trailing data" end
  | _ => invalid "body is not a JSON object"
  end.

(** io.ReadAll of the body behind http.MaxBytesReader. *)
Definition read_body (r : Wire.Request) (cap : Z) : res bytes :=
  let '(b, err) := Wire.Body r in
  if cap <? Z.of_nat (length b) then Err HErrBodyTooLarge
  else match err with Some err => Err (Join HErrInvalidRequest err) | None => Ok b end.

Section parse.
Context (ParseMediaType : string -> option string).

(** The fields, whether the body was JSON, and the raw body kept for WebAuthn. *)
Definition parse (r : Wire.Request) (m : Meta) : res (gmap string string * bool * bytes) :=
  if Csrf.safe (Wire.Method r)
  then f ← Httpx.fromValues (ParseQuery (str_bytes (Wire.RawQuery r))).1; Ok (f, false, [])
  else
    body ← read_body r (BodyCap m);
    let ct := default "" (head (Wire.ContentType r)) in
    if bool_decide (ct = "") && bool_decide (body = []) then Ok (∅, false, [])
    else match ParseMediaType ct with
    | None => Err HErrUnsupportedMedia
    | Some mt =>
        if bool_decide (mt = "application/json")
        then f ← fromJSON body; Ok (f, true, if BodyCap m =? WebAuthnBodyCap then body else [])
        else if bool_decide (mt = "application/x-www-form-urlencoded")
        then
          let '(vs, ok) := ParseQuery body in
          if negb ok then invalid "query" else f ← Httpx.fromValues vs; Ok (f, false, [])
        else Err HErrUnsupportedMedia
    end.
End parse.
End Parse.

(** ** Tenants: tenant.go *)
Module Tenancy.
Import Wire.

Definition tenantMarker : string := "{tenant}".

Definition maxTenantLabel : Z := 63.

Record subdomainTenant := mkSubdomain { suffix : bytes; port : bytes; scheme : bytes }.

(** [TenantResolver]: SingleTenant, TenantBySubdomain or the deployment's own. *)
Inductive Resolver := SingleTenant | Subdomain (s : subdomainTenant) | Custom.

Definition validLabel (l : bytes) : bool :=
  if bool_decide (l = []) || (maxTenantLabel <? Z.of_nat (length l)) then false
  else forallb (fun c => let z := Z_of_byte c in
    ((97 <=? z) && (z <=? 122)) || ((48 <=? z) && (z <=? 57)) || (z =? 45)) l.

(** The default port of a scheme, empty for another one. *)
Definition default_port (scheme : bytes) : bytes :=
  if bool_decide (scheme = str_bytes "https") then str_bytes "443"
  else if bool_decide (scheme = str_bytes "http") then str_bytes "80" else [].

Definition portMatches (s : subdomainTenant) (p : bytes) : bool :=
  if bool_decide (p = port s) then true
  else
    let def := default_port (scheme s) in
    (bool_decide (p = []) && bool_decide (port s = def)) || (bool_decide (port s = []) && bool_decide (p = def)).

Definition CutSuffix (b suf : bytes) : option bytes :=
  if has_suffix suf b then Some (take (length b - length suf) b) else None.

Definition invalid_tenancy {A} (reason : string) : res A := Err (Join ErrInvalidTenancy (New reason)).

Section tenancy.
Context `{NetURL}.

Definition TenantBySubdomain (publicOrigin : bytes) : res Resolver :=
  match CutString (str_bytes "://") publicOrigin with
  | None => invalid_tenancy "origin needs a leading {tenant} label"
  | Some (scheme, rest) =>
      if negb (has_prefix (str_bytes (tenantMarker +:+ ".")) rest)
         || negb (Nat.eqb (Count (str_bytes tenantMarker) publicOrigin) 1)
      then invalid_tenancy "origin needs a leading {tenant} label"
      else
        match Url.Parse (scheme ++ str_bytes "://t" ++ TrimPrefix (str_bytes tenantMarker) rest) with
        | None => invalid_tenancy "not an origin"
        | Some u =>
            if bool_decide (Url.Host u = []) || negb (bool_decide (Url.Path u = [])) || Url.User u
               || negb (bool_decide (Url.RawQuery u = [])) || negb (bool_decide (Url.Fragment u = []))
            then invalid_tenancy "not an origin"
            else
              let s := ToLower (Url.Scheme u) in
              if negb (bool_decide (s = str_bytes "https")) && negb (bool_decide (s = str_bytes "http"))
              then invalid_tenancy "origin scheme"
              else Ok (Subdomain (mkSubdomain (ToLower (TrimPrefix ["t"%byte] (Hostname u))) (Port u) s))
        end
  end.

Definition no_tenant {A} (reason : string) : res A := Err (Join ErrNoTenant (New reason)).

Definition subdomain_ResolveTenant (s : subdomainTenant) (r : Wire.Request) : res TenantID :=
  let '(host, p) := default (str_bytes (Host r), []) (Netip.SplitHostPort (str_bytes (Host r))) in
  if negb (portMatches s p) then no_tenant "port"
  else match CutSuffix (ToLower host) (suffix s) with
  | None => no_tenant "host"
  | Some label => if negb (validLabel label) then no_tenant "host" else ParseTenantID (bytes_str label)
  end.
End tenancy.
End Tenancy.

(** ** The gates: preamble.go *)
Module Gate.
Import Meta Wire.

Definition bearerResponseHeaders : list string := ["X-Egauth-Access-Token"; "X-Egauth-Refresh-Token"; "X-Egauth-Session-Token"].

Definition maxReauthWindow : duration := 60 * Minute.

Definition maxLimiterValue : Z := 256.

(** [Transports] *)
Definition CookiesOnly : Z := 1.

Definition BearerOnly : Z := 2.

Definition CookiesAndBearer : Z := 3.

Definition Transports_valid (t : Z) : bool := (CookiesOnly <=? t) && (t <=? CookiesAndBearer).

Record Insecure := mkInsecure { NoOriginCheck : bool; NoRateLimit : bool; NoReauthWindow : bool }.

(** A nil Clients is [None]. *)
Record Settings := mkSettings {
  Clients : option ClientAddr.Policy;
  Origins : Csrf.Origins;
  Transports : Z;
  ReauthWindow : duration;
  set_insecure : Insecure }.

(** The members of an Env that are not nil. *)
Record given := mkGiven {
  has_Tenants : bool; has_Limiter : bool; has_Authenticator : bool; has_Identifiers : bool; has_Enrollment : bool;
  has_Issuer : bool; has_Audit : bool }.

Definition preambleMissing (g : given) (noRateLimit : bool) : list error :=
  let need (ok : bool) name := if ok then [] else [New name] in
  need (has_Tenants g) "Tenants" ++ need (has_Limiter g || noRateLimit) "Limiter"
  ++ need (has_Authenticator g) "Authenticator" ++ need (has_Identifiers g) "Identifiers"
  ++ need (has_Enrollment g) "Enrollment".

Definition Env_Validate (g : given) : option error :=
  let need (ok : bool) name := if ok then [] else [New name] in
  match need (has_Issuer g) "Issuer" ++ need (has_Audit g) "Audit" ++ preambleMissing g false with
  | [] => None
  | e :: es => Some (Join ErrIncompleteEnv (JoinAll e es))
  end.

Definition NewPreamble (g : given) (s : Settings) : option error :=
  let need (bad : bool) reason := if bad then [Join ErrInvalidSettings (New reason)] else [] in
  let errs :=
    match preambleMissing g (NoRateLimit (set_insecure s)) with
    | [] => [] | e :: es => [Join ErrIncompleteEnv (JoinAll e es)]
    end
    ++ need (match Clients s with None => true | Some _ => false end) "Clients"
    ++ need (negb (Transports_valid (Transports s))) "Transports"
    ++ need ((ReauthWindow s <=? 0) || (maxReauthWindow <? ReauthWindow s)) "ReauthWindow outside (0, 1h]"
    ++ need (Csrf.Origins_IsZero (Origins s) && negb (NoOriginCheck (set_insecure s))) "Origins" in
  match errs with [] => None | e :: es => Some (JoinAll e es) end.

(** What a gate ends with: the request of the endpoint, a refusal, or the seconds to wait. *)
Inductive outcome (A : Type) := Passed (a : A) | Refused (err : error) | Limited (retryAfter : Z).
Arguments Passed {A} a.
Arguments Refused {A} err.
Arguments Limited {A} retryAfter.

Definition discardCredentials (w : Http.Response) : Http.Response :=
  let w := Cookie.Discard w in
  Http.mkResponse (Http.SetCookies w) (fold_right delete (Http.Header w) bearerResponseHeaders).

(** [EndpointCall] *)
Record EndpointCall := mkCall { Endpoint : string; CClient : Netip.Addr; CTenant : TenantID; captchaToken : string }.

(** [Preamble]: the tenant resolver and the settings; the rest of its Env is the environment. *)
Record Preamble := mkPreamble { tenants : Tenancy.Resolver; set : Settings }.

Section tenant.
Context `{NetURL}.

(** [custom] is the resolver of the deployment. *)
Definition ResolveTenant (t : Tenancy.Resolver) (custom : Wire.Request -> res TenantID) (r : Wire.Request) : res TenantID :=
  match t with
  | Tenancy.SingleTenant => Ok zero_TenantID
  | Tenancy.Subdomain s => Tenancy.subdomain_ResolveTenant s r
  | Tenancy.Custom => custom r
  end.

Definition Tenant_ (p : Preamble) (custom : Wire.Request -> res TenantID) (r : Wire.Request) : res TenantID :=
  match ResolveTenant (tenants p) custom r with
  | Err err => Err (Join HErrUnauthenticated err)
  | Ok t =>
      if TenantID_IsZero t && negb (match tenants p with Tenancy.SingleTenant => true | _ => false end)
      then Err (Join HErrUnauthenticated ErrNoTenant) else Ok t
  end.
End tenant.

Section gate.
Context {L B : Type} `{RateLimiter L, Authenticator B, NetURL}.
Context (sha256 : bytes -> bytes) (uuid_String : uuid -> string) (ParseMediaType : string -> option string).

Record env := mkEnv {
  ctx : nat -> Ctx;
  clock : nat -> time;
  resolve : Wire.Request -> res TenantID;
  normalize : string -> res Identity.Identifier;
  enrolled : nat -> Subject -> res bool;
  hook : option (EndpointCall -> option error);
  buckets : nat -> L -> L;
  sessions : nat -> B -> B }.

(** The limiter, the backend, the response being written, whether the warning about forwarding headers
    was emitted, and the number of calls. *)
Record world := mkWorld { lim : L; back : B; out : Http.Response; warned : bool; calls : nat }.

Abbreviation M := (Program.M env world).

Definition tick (w : world) : world := mkWorld (lim w) (back w) (out w) (warned w) (S (calls w)).

Definition now : M time := fun e w => (tick w, clock e (calls w)).

Definition respond {R} (f : Http.Response -> Http.Response * R) : M R := fun _ w =>
  let '(o, r) := f (out w) in (mkWorld (lim w) (back w) o (warned w) (calls w), r).

Definition allow (k : Limiter.Key) : M (res Limiter.Decision) := fun e w =>
  let n := calls w in
  let '(l, r) := lm_Allow (ctx e n) (clock e n) k (buckets e n (lim w)) in
  (tick (mkWorld l (back w) (out w) (warned w) n), r).

Definition resume (r : Http.Request) (t : TenantID) : M (res Resumed) := fun e w =>
  let n := calls w in
  let '(b, o, r) := au_Resume r t (sessions e n (back w)) (out w) in
  (tick (mkWorld (lim w) b o (warned w) n), r).

Definition mfa_required (s : Subject) : M (res bool) := fun e w => (tick w, enrolled e (calls w) s).

(** The client, with the warning emitted at most once. *)
Definition resolve_client (pol : ClientAddr.Policy) (r : Wire.Request) : M (res ClientAddr.Client) := fun _ w =>
  match ClientAddr.Resolve pol r with
  | Err err => (w, Err err)
  | Ok (c, warn) => (mkWorld (lim w) (back w) (out w) (warned w || warn) (calls w), Ok c)
  end.

(** The early returns of the gates. *)
Definition step {A} (m : M (outcome unit)) (k : M (outcome A)) : M (outcome A) :=
  r ← m;
  match r with Passed _ => k | Refused err => mret (Refused err) | Limited s => mret (Limited s) end.

Definition or_refuse {A T} (f : error -> error) (m : M (res T)) (k : T -> M (outcome A)) : M (outcome A) :=
  r ← m; match r with Ok a => k a | Err err => mret (Refused (f err)) end.

Definition pass : M (outcome unit) := mret (Passed tt).

Record gate := mkGate { g_p : Preamble; endpoint : string; meta : Meta }.

(** [has_func] tells whether the endpoint function is not nil. *)
Definition Wrap (p : Preamble) (endpoint : string) (m : Meta) (has_func : bool) : res gate :=
  match Validate m with
  | Some err => Err err
  | None =>
      if bool_decide (endpoint = "") || negb has_func then Err (Join ErrInvalidMeta (New "empty endpoint or nil func"))
      else Ok (mkGate p endpoint m)
  end.

Definition originCheck (g : gate) (hr : Wire.Request) (pol : Csrf.Policy) : option error :=
  if NoOriginCheck (set_insecure (set (g_p g))) then None
  else Join HErrCrossSite <$> Csrf.Check hr pol.

Definition requestedTransport (g : gate) (hr : Wire.Request) : Transport :=
  let t := Transports (set (g_p g)) in
  if t =? BearerOnly then TransportBearer
  else if (t =? CookiesAndBearer)
          && (Csrf.BearerTransportHeader hr
              || ((Authenticated (meta g) || EndsSession (meta g)) && negb (Cookie.Present (Wire.http hr))
                  && Csrf.BearerAuthorization hr))
  then TransportBearer
  else TransportCookies.

Definition limiterValue (v : string) : string :=
  if Z.of_nat (String.length v) <=? maxLimiterValue then v else hex_EncodeToString (sha256 (str_bytes v)).

Definition charge (k : Limiter.Key) : M (outcome unit) :=
  or_refuse (Join HErrServiceUnavailable) (allow k) (fun d =>
    if negb (Limiter.Allowed d) then mret (Limited (Z.quot (Limiter.RetryAfter d + Second - 1) Second)) else pass).

(** The key of a normalised identifier; nothing is charged for a value that does not normalise. *)
Definition charge_identifier (class : Z) (t : TenantID) (prefix raw : string) : M (outcome unit) := fun e w =>
  match normalize e raw with
  | Err _ => pass e w
  | Ok id =>
      if Identity.Identifier_IsZero id then pass e w
      else charge (Limiter.mkKey class t
        (limiterValue (prefix +:+ Identity.IdentifierKind_String (Identity.kind id) +:+ ":" +:+ Identity.value id))) e w
  end.

Definition limit (g : gate) (c : ClientAddr.Client) (req : Httpx.Request) : M (outcome unit) :=
  step (if ClientLimit (meta g) =? 0 then pass
        else charge (Limiter.mkKey (ClientLimit (meta g)) zero_TenantID (bytes_str (ClientAddr.Key c)))) (
  let raw := Httpx.Field req "identifier" in
  if (IdentifierLimit (meta g) =? 0) || bool_decide (raw = "") then pass
  else charge_identifier (IdentifierLimit (meta g)) (Httpx.tenant req) "" raw).

Definition with_session (req : Httpx.Request) (r : Resumed) : Httpx.Request :=
  Httpx.mkRequest (Httpx.http req) (Httpx.tenant req) (Httpx.fields req) (Httpx.jsonBody req) (Httpx.raw req) (Some r)
    (a_transport (r_attrs r)).

Definition authenticate (g : gate) (req : Httpx.Request) (bearerChannel : bool) : M (outcome Httpx.Request) :=
  r ← resume (Httpx.http req) (Httpx.tenant req);
  match r with
  | Err err => mret (Refused (Join (if Is err HErrUnavailable then HErrServiceUnavailable : sentinel else HErrUnauthenticated) err))
  | Ok r =>
      let a := r_attrs r in
      let discard reason :=
        _ ← respond (fun o => (discardCredentials o, tt)); mret (Refused (Join HErrUnauthenticated (New reason))) in
      if SessionAttrs_IsZero a || Subject_IsZero (a_subject a) || negb (bool_decide (Tenant (a_subject a) = Httpx.tenant req))
      then discard "session tenant differs from the resolved tenant"
      else if bearerChannel && negb (a_transport a =? TransportBearer)
      then discard "cookie-transport session presented on the bearer channel"
      else if a_mustChange a && negb (AcceptsMustChange (meta g)) then mret (Refused HErrPasswordChangeNeeded)
      else mret (Passed (with_session req r))
  end.

Definition sensitive (g : gate) (req : Httpx.Request) : M (outcome unit) :=
  match Httpx.session req with
  | None => mret (Refused HErrReauthRequired)
  | Some r =>
      let a := r_attrs r in
      or_refuse (Join HErrServiceUnavailable) (mfa_required (a_subject a)) (fun required =>
        if required && negb (MultiFactor a) then mret (Refused HErrReauthRequired)
        else if NoReauthWindow (set_insecure (set (g_p g))) then pass
        else
          t ← now;
          if negb (FreshWithin a (ReauthWindow (set (g_p g))) t) then mret (Refused HErrReauthRequired) else pass)
  end.

Definition limitRecipient (g : gate) (req : Httpx.Request) : M (outcome unit) :=
  let raw := Httpx.Field req (RecipientField (meta g)) in
  if bool_decide (raw = "") then pass
  else charge_identifier (RecipientLimit (meta g)) (Httpx.tenant req) "recipient:" raw.

Definition policy (g : gate) (hr : Wire.Request) (t : TenantID) : Csrf.Policy :=
  let o := Origins (set (g_p g)) in
  Csrf.mkPolicy (if SPA (meta g) then Csrf.For o t else Csrf.ForWithoutSPA o t)
    (if SPA (meta g) then Csrf.SameSite o else [])
    (SetsCookies (meta g)) (Authenticated (meta g)) (requestedTransport g hr =? TransportBearer).

(** The last gates, on the request with its session. *)
Definition finish (g : gate) (c : ClientAddr.Client) (req : Httpx.Request) : M (outcome Httpx.Request) :=
  let limited := negb (NoRateLimit (set_insecure (set (g_p g)))) in
  step (if Sensitive (meta g) then sensitive g req else pass) (
  step (if negb (RecipientLimit (meta g) =? 0) && limited then limitRecipient g req else pass) (fun e w =>
    match hook e with
    | None => (w, Passed req)
    | Some h =>
        match h (mkCall (endpoint g) (ClientAddr.c_addr c) (Httpx.tenant req) (Httpx.Field req "captcha_token")) with
        | Some err => (w, Refused (Join HErrRequestRejected err))
        | None => (w, Passed req)
        end
    end)).

Definition run (g : gate) (hr : Wire.Request) : M (outcome Httpx.Request) :=
  let limited := negb (NoRateLimit (set_insecure (set (g_p g)))) in
  or_refuse id (fun e w => (w, Tenant_ (g_p g) (resolve e) hr)) (fun tenant =>
  or_refuse id (mret (Parse.parse ParseMediaType hr (meta g))) (fun '(fields, isJSON, raw) =>
  let requested := requestedTransport g hr in
  let pol := policy g hr tenant in
  match originCheck g hr pol with
  | Some err => mret (Refused err)
  | None =>
      match Clients (set (g_p g)) with
      | None => mret (Refused NilPanic)
      | Some clients =>
          or_refuse (Join HErrInvalidRequest) (resolve_client clients hr) (fun client =>
          let req := Httpx.mkRequest (Wire.http hr) tenant fields isJSON raw None requested in
          step (if limited then limit g client req else pass) (
          if Authenticated (meta g)
          then
            r ← authenticate g req (Csrf.BearerTransport pol && negb (Cookie.Present (Wire.http hr)));
            match r with
            | Passed req =>
                step (if negb (SessionLimit (meta g) =? 0) && limited
                      then charge (Limiter.mkKey (SessionLimit (meta g)) zero_TenantID
                             ("session:" +:+ match Httpx.session req with Some r => uuid_String (a_lineage (r_attrs r)) | None => "" end))
                      else pass) (finish g client req)
            | Refused err => mret (Refused err)
            | Limited s => mret (Limited s)
            end
          else finish g client req))
      end
  end)).

Definition writeRateLimited (retryAfterSeconds : Z) (w : Http.Response) : Http.Response * Httpx.answer :=
  Httpx.writeProblem HErrRateLimited
    (if 0 <? retryAfterSeconds
     then Http.Header_Set "Retry-After" (bytes_str (JsonText.AppendInt retryAfterSeconds)) w else w).

Definition ServeHTTP (g : gate) (f : Httpx.Request -> M Httpx.answer) (hr : Wire.Request) : M Httpx.answer :=
  _ ← respond (fun o => (Httpx.secureHeaders o, tt));
  r ← run g hr;
  match r with
  | Passed req => f req
  | Refused err => respond (Httpx.writeProblem err)
  | Limited s => respond (writeRateLimited s)
  end.
End gate.
End Gate.
