(* ===== verification/AppGate.v ===== *)
(** The routes of an application and the facades of its callers: principal.go, gates.go, apikey_gate.go,
    facades.go, apikeys.go and system.go of the root package.

    The session backend and the directory of API keys are classes; their state, the claims cache of the
    API-key gate and the response are the world.  What happens outside a call is an environment: the
    context's error and the clock at each call, random bytes and identifiers, the custom tenant
    resolver, the epochs, the account states, the claims source, the enrollment reader and the liveness
    of a session as they answer, which entry a full cache drops, and what other requests did to the
    world since the previous call.  What encoding/json makes of sealed claims and of a grant, and
    unicode.IsPrint, are arguments. *)
From S2P Require Import Prelude Errors Tenant Factor Attrs GoText JsonText Cookie Redirect Renewal Program StoreBase.
From S2P Require Import TokenRecord TokenStore IdentityRecord KeyStore Csrf Httpx Routes Gate.
Import Session.

(** The part of tokens.Store the gate and the facade call; [krange] is the order a map is ranged in. *)
Class KeyDirectory (T : Type) := {
  ak_Get : Ctx -> time -> TenantID -> bytes -> T -> res Tokens.APIKey;
  ak_Create : Ctx -> Tokens.APIKey -> T -> T * res unit;
  ak_Revoke : Ctx -> time -> Subject -> uuid -> T -> T * res unit;
  ak_List : Ctx -> Subject -> T -> res (list Tokens.APIKey) }.

Definition memory_directory (uuid_String : uuid -> string) (krange : list TokensMemory.keyRef) : KeyDirectory TokensMemory.Store := {|
  ak_Get := TokensMemory.GetAPIKey;
  ak_Create := TokensMemory.CreateAPIKey;
  ak_Revoke := TokensMemory.RevokeAPIKey;
  ak_List := TokensMemory.ListAPIKeys uuid_String krange |}.

Module App.
Import Wire.

(** ** principal.go *)
(** [CredentialKind] *)
Definition Anonymous : Z := 0.

Definition KSession : Z := 1.

Definition KAPIKey : Z := 2.

Definition codeUnauthenticated : string := "unauthenticated".

Definition codeForbidden : string := "forbidden".

Definition codeMustChange : string := "password_change_required".

Definition codeCrossSite : string := "cross_site_request".

Definition codeUnavailable : string := "unavailable".

Definition apiKeySeparator : string := "_".

Definition apiKeySecretBytes : Z := 32.

Definition apiKeyCacheSize : nat := 4096.

Definition reasonKeyOwner : string := "owner_unusable".

Definition reasonKeyGrant : string := "invalid_grant".

(** The claims a grant or a caller holds: [apiKeyGrantWire] and [claimSet]. *)
Record claimSet := mkClaimSet { roles : list string; scopes : list string; groups : list string }.

Record APIKeyInfo := mkInfo {
  i_ID : uuid; i_Kind : string; i_Name : string; i_Owner : Subject; i_grant : claimSet;
  i_CreatedAt : time; i_ExpiresAt : time }.

Definition zero_Info : APIKeyInfo := mkInfo uuid_Nil "" "" zero_Subject (mkClaimSet [] [] []) time_zero time_zero.

(** ** Errors of the gates *)
Record refusal := mkRefusal { status : Z; code : string; anonymous : bool; clear : bool; discard : bool }.

Definition refuseNoCredential : refusal := mkRefusal 401 codeUnauthenticated true false false.

Definition refuseUnavailable : refusal := mkRefusal 503 codeUnavailable true false true.

Definition refuseMustChange : refusal := mkRefusal 403 codeMustChange true false false.

Definition refuseRequirement : refusal := mkRefusal 403 codeForbidden true false false.

Definition refuseMismatch : refusal := mkRefusal 401 codeUnauthenticated true false true.

Definition refuseAmbiguous : refusal := mkRefusal 401 codeUnauthenticated true false true.

Record keyRefusal := mkKeyRefusal { k_status : Z; k_code : string; k_reason : string }.

Definition keyUnauthenticated : keyRefusal := mkKeyRefusal 401 codeUnauthenticated "".

Definition keyUnavailable : keyRefusal := mkKeyRefusal 503 codeUnavailable "".

Definition key_refused (reason : string) : keyRefusal := mkKeyRefusal 401 codeUnauthenticated reason.

(** What the root package emits. *)
Inductive root_event :=
  | APIKeyAuthFailed (t : TenantID) (reason : string)
  | APIKeyAuthSucceeded (t : TenantID) (owner : Subject) (kind : string) (id : uuid)
  | APIKeyCreated (owner : Subject) (kind : string) (id : uuid)
  | APIKeyRevoked (owner : Subject) (id : uuid)
  | SystemCallerUsed (t : TenantID) (reason method : string) (err : option error).

(** ** Credentials of a request *)
Definition sessionNames : list Z := [Cookie.AccessToken; Cookie.RefreshToken; Cookie.StatefulSession].

Definition sessionCookie (pol : Cookie.Policy) (r : Wire.Request) : bool :=
  existsb (fun n => (Cookie.Read pol (http r) n).2) sessionNames.

Definition bearerPresented (r : Wire.Request) : bool :=
  existsb (fun v => EqualFold (Cut " "%byte (TrimSpace (str_bytes v))).1.1 "bearer") (Http.Authorization (http r)).

Definition bearerCredential (r : Wire.Request) : option string :=
  match Http.Authorization (http r) with
  | [v] =>
      let '(scheme, tok, ok) := Cut " "%byte (TrimSpace (str_bytes v)) in
      let tok := TrimSpace tok in
      if negb ok || negb (EqualFold scheme "bearer") || bool_decide (tok = []) || contains_any [Byte.x20; Byte.x09] tok
      then None else Some (bytes_str tok)
  | _ => None
  end.

(** ** Lists of claims *)
Definition intersect (held granted : list string) : list string :=
  fold_left (fun out v => if bool_decide (v ∈ held) && negb (bool_decide (v ∈ out)) then out ++ [v] else out) granted [].

Definition subset (requested held : list string) : bool := forallb (fun v => bool_decide (v ∈ held)) requested.

Definition dedupe (l : list string) : list string :=
  fold_left (fun out v => if negb (bool_decide (v ∈ out)) then out ++ [v] else out) l [].

(** [tenancyKind] and [adminSpec] *)
Definition tenancySingle : Z := 1.

Definition tenancySubdomain : Z := 2.

Record adminSpec := mkAdmin { adminRole : bool; admin_role : string }.

(** [APIKeyModule] *)
Record APIKeyModule := mkModule { Prefix : string; Kinds : list string }.

(** The parts of an Auth the gates and the facades read. *)
Record Auth := mkAuth {
  preamble : Gate.Preamble;
  trusted : Csrf.Origins;
  cookies : Cookie.Policy;
  NoOriginCheck : bool;
  apiKeys : option APIKeyModule;
  RecheckEvery : duration;
  ReauthWindow : duration;
  NoReauthWindow : bool;
  admin : adminSpec;
  tenancy : Z;
  has_tokens : bool }.

Definition tenantHostLabel (t : TenantID) : res string :=
  let label := str_bytes (tenant_id t) in
  if Tenancy.validLabel label then Ok (tenant_id t) else Err ErrTenantLabel.

Definition served (f : Auth) (t : TenantID) : option error :=
  let no reason := Some (Join ErrTenantNotServed (New reason)) in
  if tenancy f =? tenancySingle
  then if TenantID_IsZero t then None else no "egauth: a single-tenant deployment serves the zero tenant only"
  else if tenancy f =? tenancySubdomain
  then match tenantHostLabel t with Err err => Some (Join ErrTenantNotServed err) | Ok _ => None end
  else if TenantID_IsZero t then no "egauth: a multi-tenant deployment never serves the zero tenant" else None.

Definition maxSystemReasonLen : Z := 128.

Definition checkSystemReason (reason : string) : option error :=
  let b := str_bytes reason in
  if bool_decide (TrimSpace b = []) || (maxSystemReasonLen <? Z.of_nat (length b))
  then Some (Join GErrInvalidRequest (New "egauth: the system reason must be 1 to 128 bytes and not blank"))
  else if existsb (fun c => (Z_of_byte c <? 32) || (126 <? Z_of_byte c)) b
  then Some (Join GErrInvalidRequest (New "egauth: the system reason must be printable ASCII"))
  else None.

Definition System (f : Auth) (t : TenantID) (reason : string) : res Caller.Caller :=
  match checkSystemReason reason with
  | Some err => Err err
  | None => match served f t with Some err => Err err | None => Caller.SystemCaller t reason end
  end.

(** ** apikey_gate.go: secrets *)
Section secrets.
Context (sha256 : bytes -> bytes).

Definition apiKeyHash (secret : string) : bytes := sha256 (str_bytes secret).

(** [raw] is what crypto/rand gave. *)
Definition newAPIKeySecret (prefix : string) (raw : res bytes) : res (string * bytes) :=
  b ← raw;
  let secret := prefix +:+ apiKeySeparator +:+ bytes_str (Base64.encode b) in
  Ok (secret, apiKeyHash secret).
End secrets.

Definition encodeAPIKeyGrant (g : claimSet) : bytes :=
  Httpx.escape_html (JsonText.object [("roles", Httpx.string_array (roles g)); ("scopes", Httpx.string_array (scopes g));
    ("groups", Httpx.string_array (groups g))]).

(** ** Programs *)
Section app.
Context {B T C : Type} `{Authenticator B, KeyDirectory T, NetURL} (zeroC : C).
Context (sha256 : bytes -> bytes) (IsPrint : Z -> bool).

(** [AppClaims] *)
Record AppClaims := mkAppClaims { App : claimSet; Custom : C }.

Definition zero_claims : AppClaims := mkAppClaims (mkClaimSet [] [] []) zeroC.

Context (unmarshal_claims : bytes -> option AppClaims) (unmarshal_grant : bytes -> option claimSet).

Definition decodeClaims (b : bytes) : res AppClaims :=
  if bool_decide (b = []) then Ok zero_claims
  else match unmarshal_claims b with
       | Some c => Ok c
       | None => Err (New "egauth: sealed application claims do not decode")
       end.

Definition decodeAPIKeyGrant (b : bytes) : res claimSet :=
  if bool_decide (b = []) then Ok (mkClaimSet [] [] [])
  else match unmarshal_grant b with
       | Some g => Ok g
       | None => Err (New "egauth: API key grant does not decode")
       end.

Record Principal := mkPrincipal {
  p_kind : Z; p_subject : Subject; p_attrs : SessionAttrs; p_claims : AppClaims; p_apiKey : APIKeyInfo; p_caller : Caller.Caller }.

Definition zero_Principal : Principal :=
  mkPrincipal Anonymous zero_Subject zero_SessionAttrs zero_claims zero_Info Caller.zero_Caller.

Definition withCaller (a : SessionAttrs) (c : AppClaims) (caller : Caller.Caller) : Principal :=
  mkPrincipal KSession (a_subject a) a c zero_Info caller.

Definition sessionPrincipal (r : Resumed) (c : AppClaims) : res Principal :=
  caller ← Resumed_Caller r; Ok (withCaller (r_attrs r) c caller).

Definition apiKeyPrincipal (info : APIKeyInfo) (c : AppClaims) : res Principal :=
  caller ← Caller.APIKeyCaller (i_Owner info) (i_ID info);
  Ok (mkPrincipal KAPIKey (i_Owner info) zero_SessionAttrs c info caller).

(** [apiKeyEntry] and [apiKeyCache] *)
Record apiKeyEntry := mkEntry { c_epoch : Z; c_at : time; c_claims : AppClaims }.

Abbreviation apiKeyCache := (gmap uuid apiKeyEntry).

(** [victim] is the entry a range over the full map gives first. *)
Definition cache_put (victim : uuid) (id : uuid) (e : apiKeyEntry) (c : apiKeyCache) : apiKeyCache :=
  <[id := e]> (if bool_decide (c !! id = None) && Nat.leb apiKeyCacheSize (size c) then delete victim c else c).

Record env := mkEnv {
  ctx : nat -> Ctx;
  clock : nat -> time;
  rand : nat -> res bytes;
  fresh : nat -> uuid;
  resolve : Wire.Request -> res TenantID;
  epochs : nat -> Subject -> res Z;
  accounts : nat -> Subject -> res AccountState;
  claims_for : nat -> Subject -> res AppClaims;
  enrolled : nat -> Subject -> res bool;
  live : nat -> Handle -> option error;
  victim : nat -> uuid;
  in_request : bool;
  sessions : nat -> B -> B;
  directory : nat -> T -> T;
  cached : nat -> apiKeyCache -> apiKeyCache }.

Record world := mkWorld {
  back : B; toks : T; cache : apiKeyCache; out : Http.Response; events : list root_event; calls : nat }.

Abbreviation M := (Program.M env world).

Definition tick (w : world) : world := mkWorld (back w) (toks w) (cache w) (out w) (events w) (S (calls w)).

Definition now : M time := fun e w => (tick w, clock e (calls w)).

Definition draw : M (res bytes) := fun e w => (tick w, rand e (calls w)).

Definition newID : M uuid := fun e w => (tick w, fresh e (calls w)).

Definition respond {R} (f : Http.Response -> Http.Response * R) : M R := fun _ w =>
  let '(o, r) := f (out w) in (mkWorld (back w) (toks w) (cache w) o (events w) (calls w), r).

Definition emit (ev : root_event) : M unit := fun _ w =>
  (mkWorld (back w) (toks w) (cache w) (out w) (events w ++ [ev]) (calls w), tt).

Definition resume (r : Http.Request) (t : TenantID) : M (res Resumed) := fun e w =>
  let n := calls w in
  let '(b, o, x) := au_Resume r t (sessions e n (back w)) (out w) in
  (tick (mkWorld b (toks w) (cache w) o (events w) n), x).

Definition on_tokens {R} (f : Ctx -> time -> T -> T * R) : M R := fun e w =>
  let n := calls w in
  let '(s, r) := f (ctx e n) (clock e n) (directory e n (toks w)) in
  (tick (mkWorld (back w) s (cache w) (out w) (events w) n), r).

Definition on_cache {R} (f : apiKeyCache -> apiKeyCache * R) : M R := fun e w =>
  let n := calls w in
  let '(c, r) := f (cached e n (cache w)) in
  (tick (mkWorld (back w) (toks w) c (out w) (events w) n), r).

Definition ask {R} (f : env -> nat -> R) : M R := fun e w => (tick w, f e (calls w)).

(** ** gates.go *)
(** What a gate ends with: the handler is called with a principal, or an answer was written. *)
Inductive result := Handled (p : Principal) | Answered (a : Httpx.answer).

Definition noStore (w : Http.Response) : Http.Response := Httpx.secureHeaders w.

Definition refuse (status : Z) (code : string) (w : Http.Response) : Http.Response * Httpx.answer :=
  (Http.Header_Set "Content-Type" "application/json" (Httpx.secureHeaders w),
   Httpx.mkAnswer status (JsonText.object [("error", JsonText.quote_ code)] ++ [Byte.x0a])).

Definition refused (status : Z) (code : string) : M result := a ← respond (refuse status code); mret (Answered a).

Definition clearSession (pol : Cookie.Policy) (w : Http.Response) : Http.Response :=
  fold_left (fun w n => Cookie.Clear pol n w) sessionNames w.

Record sessionGate := mkSessionGate { s_auth : Auth; optional : bool; spec : Routes.SessionSpec }.

Definition apiKeyLike (a : Auth) (r : Wire.Request) : bool :=
  match apiKeys a with
  | None => false
  | Some m =>
      match bearerCredential r with
      | None => false
      | Some tok => has_prefix (str_bytes (Prefix m +:+ apiKeySeparator)) (str_bytes tok)
      end
  end.

Definition route_claims (c : claimSet) : Routes.Claims := Routes.mkClaims (roles c) (scopes c) (groups c).

Definition authenticate (g : sessionGate) (r : Wire.Request) (tenant : TenantID) : M (Principal + refusal) :=
  let fromCookie := sessionCookie (cookies (s_auth g)) r in
  let bearer := bearerPresented r in
  if negb fromCookie && negb bearer then mret (inr refuseNoCredential)
  else if fromCookie && bearer then mret (inr refuseAmbiguous)
  else if negb fromCookie && optional g && apiKeyLike (s_auth g) r then mret (inr refuseNoCredential)
  else
    x ← resume (http r) tenant;
    match x with
    | Err err =>
        mret (inr (if Is err HErrUnavailable then refuseUnavailable
                   else if Is err XErrTenantMismatch then refuseMismatch
                   else mkRefusal 401 codeUnauthenticated fromCookie fromCookie true))
    | Ok x =>
        let a := r_attrs x in
        if SessionAttrs_IsZero a || Subject_IsZero (a_subject a) || negb (bool_decide (Tenant (a_subject a) = tenant))
        then mret (inr refuseMismatch)
        else if negb fromCookie && negb (a_transport a =? TransportBearer) then mret (inr refuseMismatch)
        else
          match decodeClaims (r_claims x) with
          | Err _ => mret (inr refuseMismatch)
          | Ok c =>
              t ← now;
              match Routes.SessionSpec_Check (spec g) a (route_claims (App c)) t with
              | Some err => mret (inr (if Is err ErrMustChange then refuseMustChange else refuseRequirement))
              | None =>
                  mret (match sessionPrincipal x c with Err _ => inr refuseMismatch | Ok p => inl p end)
              end
          end
    end.

Definition session_policy (g : sessionGate) (r : Wire.Request) (t : TenantID) : Csrf.Policy :=
  Csrf.mkPolicy (Csrf.For (trusted (s_auth g)) t) (Csrf.SameSite (trusted (s_auth g))) false true
    (negb (Cookie.Present (http r)) && Csrf.BearerAuthorization r).

Definition session_ServeHTTP (g : sessionGate) (r : Wire.Request) : M result :=
  _ ← respond (fun o => (noStore o, tt));
  tenant ← (fun e w => (w, Gate.Tenant_ (preamble (s_auth g)) (resolve e) r));
  match tenant with
  | Err _ => refused 401 codeUnauthenticated
  | Ok tenant =>
      if negb (NoOriginCheck (s_auth g)) && bool_decide (is_Some (Csrf.Check r (session_policy g r tenant)))
      then if optional g && Csrf.safe (Method r) then mret (Handled zero_Principal) else refused 403 codeCrossSite
      else
        x ← authenticate g r tenant;
        match x with
        | inl p => mret (Handled p)
        | inr ref =>
            _ ← respond (fun o => (if discard ref then Gate.discardCredentials o else o, tt));
            _ ← respond (fun o => (if clear ref then clearSession (cookies (s_auth g)) o else o, tt));
            if negb (optional g) || negb (anonymous ref) then refused (status ref) (code ref)
            else mret (Handled zero_Principal)
        end
  end.

(** ** apikey_gate.go *)
Record apiGate := mkAPIGate { a_auth : Auth; a_spec : Routes.APISpec }.

Definition narrowed (owner : AppClaims) (g : claimSet) : AppClaims :=
  mkAppClaims (mkClaimSet (intersect (roles (App owner)) (roles g)) (intersect (scopes (App owner)) (scopes g))
                 (intersect (groups (App owner)) (groups g))) (Custom owner).

Definition cache_get (id : uuid) : M (option apiKeyEntry) := on_cache (fun c => (c, c !! id)).

Definition cache_drop (id : uuid) : M unit := on_cache (fun c => (delete id c, tt)).

Definition cache_fill (id : uuid) (x : apiKeyEntry) : M unit := fun e w =>
  on_cache (fun c => (cache_put (victim e (calls w)) id x c, tt)) e w.

(** Whether an entry answers at [now]. *)
Definition current (g : apiGate) (epoch : Z) (now : time) (x : apiKeyEntry) : bool :=
  (c_epoch x =? epoch) && (time_Sub now (c_at x) <? RecheckEvery (a_auth g)) && negb (time_Before now (c_at x)).

Definition effectiveClaims (g : apiGate) (k : Tokens.APIKey) (now : time) : M (AppClaims + keyRefusal) :=
  let owner := Tokens.Owner k in
  let id := Tokens.k_ID k in
  ep ← ask (fun e n => epochs e n owner);
  match ep with
  | Err err =>
      if Is err ErrNotFound then _ ← cache_drop id; mret (inr (key_refused reasonKeyOwner))
      else mret (inr keyUnavailable)
  | Ok epoch =>
      x ← cache_get id;
      match match x with Some x => if current g epoch now x then Some (c_claims x) else None | None => None end with
      | Some c => mret (inl c)
      | None =>
          _ ← cache_drop id;
          st ← ask (fun e n => accounts e n owner);
          match st with
          | Err _ => mret (inr keyUnavailable)
          | Ok st =>
              if negb (exists_ st) || disabled st || deleted st then mret (inr (key_refused reasonKeyOwner))
              else
                match decodeAPIKeyGrant (Tokens.k_AppClaims k) with
                | Err _ => mret (inr (key_refused reasonKeyGrant))
                | Ok grant =>
                    c ← ask (fun e n => claims_for e n owner);
                    match c with
                    | Err err => mret (inr (if Is err GErrUnknownSubject then key_refused reasonKeyOwner else keyUnavailable))
                    | Ok c =>
                        let eff := narrowed c grant in
                        _ ← (if Attrs.epoch st =? epoch then cache_fill id (mkEntry epoch now eff) else mret tt);
                        mret (inl eff)
                    end
                end
          end
      end
  end.

Definition infoOf (k : Tokens.APIKey) (g : claimSet) : APIKeyInfo :=
  mkInfo (Tokens.k_ID k) (Tokens.k_Kind k) (Tokens.k_Name k) (Tokens.Owner k) g (Tokens.k_CreatedAt k) (Tokens.ExpiresAt k).

Definition verify (g : apiGate) (tenant : TenantID) (secret : string) : M (Principal + keyRefusal) :=
  let hash := apiKeyHash sha256 secret in
  x ← on_tokens (fun c clk s => (s, ak_Get c clk tenant hash s));
  match x with
  | Err err => mret (inr (if Is err ErrNotFound then key_refused "not_found" else keyUnavailable))
  | Ok k =>
      t ← now;
      if negb (bool_decide (Tokens.KeyHash k = hash)) then mret (inr (key_refused "not_found"))
      else if negb (bool_decide (Tenant (Tokens.Owner k) = tenant)) then mret (inr (key_refused "tenant_mismatch"))
      else if negb (time_IsZero (Tokens.RevokedAt k)) then mret (inr (key_refused "revoked"))
      else if negb (time_IsZero (Tokens.ExpiresAt k)) && negb (time_Before t (Tokens.ExpiresAt k))
      then mret (inr (key_refused "expired"))
      else if negb (bool_decide (Tokens.k_Kind k ∈ Routes.kinds (a_spec g))) then mret (inr (key_refused "wrong_type"))
      else
        c ← effectiveClaims g k t;
        match c with
        | inr ref => mret (inr ref)
        | inl c =>
            match Routes.APISpec_Check (a_spec g) (Tokens.k_Kind k) (route_claims (App c)) with
            | Some _ => mret (inr (mkKeyRefusal 403 codeForbidden ""))
            | None =>
                let grant := match decodeAPIKeyGrant (Tokens.k_AppClaims k) with Ok gr => gr | Err _ => mkClaimSet [] [] [] end in
                mret (match apiKeyPrincipal (infoOf k grant) c with Err _ => inr keyUnauthenticated | Ok p => inl p end)
            end
        end
  end.

Definition api_refuse (ref : keyRefusal) : M result :=
  _ ← respond (fun o => (if k_status ref =? 401 then Http.Header_Set "WWW-Authenticate" "Bearer" o else o, tt));
  refused (k_status ref) (k_code ref).

Definition api_ServeHTTP (g : apiGate) (r : Wire.Request) : M result :=
  _ ← respond (fun o => (noStore o, tt));
  tenant ← (fun e w => (w, Gate.Tenant_ (preamble (a_auth g)) (resolve e) r));
  match tenant with
  | Err _ => api_refuse keyUnauthenticated
  | Ok tenant =>
      if sessionCookie (cookies (a_auth g)) r then api_refuse keyUnauthenticated
      else
        match bearerCredential r with
        | None => api_refuse keyUnauthenticated
        | Some secret =>
            x ← verify g tenant secret;
            match x with
            | inr ref =>
                _ ← (if bool_decide (k_reason ref = "") then mret tt else emit (APIKeyAuthFailed tenant (k_reason ref)));
                api_refuse ref
            | inl p =>
                _ ← emit (APIKeyAuthSucceeded tenant (i_Owner (p_apiKey p)) (i_Kind (p_apiKey p)) (i_ID (p_apiKey p)));
                mret (Handled p)
            end
        end
  end.

(** ** facades.go *)
(** [scope] *)
Definition scopeAdmin : Z := 1.

Definition scopeSelf : Z := 2.

Definition scopeUser : Z := 3.

Definition scopeSystem : Z := 4.

Record grant := mkGrant { g_system : bool; g_tenant : TenantID; g_subject : Subject; g_epoch : Z; g_claims : claimSet }.

Definition needsAdmin (sc : Z) (caller target : Subject) : bool :=
  if sc =? scopeSelf then false else if sc =? scopeUser then negb (bool_decide (target = caller)) else true.

Definition forbidden {A} (reason : string) : res A := Err (Join GErrForbidden (New reason)).

Definition reauth_required {A} (reason : string) : res A := Err (Join GErrReauthRequired (New reason)).

Definition checkAdmin (f : Auth) (c : claimSet) : option error :=
  if negb (adminRole (admin f))
  then Some (Join GErrForbidden (New "egauth: the admin policy lets no session caller act on others"))
  else if negb (bool_decide (admin_role (admin f) ∈ roles c))
  then Some (Join GErrForbidden (New "egauth: the caller lacks the admin role"))
  else None.

Definition systemRefusal (f : Auth) (in_request : bool) (by_ : Caller.Caller) (method : string) (tenant : TenantID) (sc : Z)
  : option error :=
  if in_request then Some (ErrSystemCallerInRequest : error)
  else if negb (bool_decide (tenant = Caller.tenant by_)) then Some (GErrTenantMismatch : error)
  else if sc =? scopeSelf
  then Some (Join GErrForbidden (New ("egauth: " +:+ method +:+ " acts on the calling user, which a system caller does not have")))
  else served f tenant.

Definition authorizeSystem (f : Auth) (by_ : Caller.Caller) (method : string) (tenant : TenantID) (sc : Z) : M (res grant) := fun e w =>
  let err := systemRefusal f (in_request e) by_ method tenant sc in
  let '(w, _) := emit (SystemCallerUsed (Caller.tenant by_) (Caller.reason by_) method err) e w in
  (w, match err with
      | Some err => Err err
      | None => Ok (mkGrant true tenant zero_Subject 0 (mkClaimSet [] [] []))
      end).

Definition sessionLive (by_ : Caller.Caller) : M (option error) :=
  match HandleOf by_ with
  | Err err => mret (Some (Join ErrSessionEnded err))
  | Ok h =>
      r ← ask (fun e n => live e n h);
      mret (match r with
            | None => None
            | Some err => Some (if Is err ErrEnded then Join ErrSessionEnded err
                                else Join (New "egauth: checking the caller's session") err)
            end)
  end.

Definition authorizeSession (f : Auth) (by_ : Caller.Caller) (tenant : TenantID) (target : Subject) (sc : Z) : M (res grant) :=
  match Caller.Session_of by_ with
  | None => mret (forbidden "egauth: the session caller carries no session")
  | Some attrs =>
      if SessionAttrs_IsZero attrs then mret (forbidden "egauth: the session caller carries no session")
      else
        check (sessionLive by_) (
        if sc =? scopeSystem then mret (forbidden "egauth: only a system caller may run this method")
        else
          let sub := a_subject attrs in
          if negb (bool_decide (tenant = Caller.tenant by_)) || negb (bool_decide (Tenant sub = tenant))
          then mret (Err GErrTenantMismatch)
          else
            try (ask (fun e n => accounts e n sub)) (fun st =>
            if negb (Usable st) then mret (forbidden "egauth: the calling account is not usable")
            else if negb (Attrs.epoch st =? a_epoch attrs)
            then mret (reauth_required "egauth: the calling session predates a security change")
            else if mustChange st || a_mustChange attrs
            then mret (forbidden "egauth: the caller must change their password first")
            else
              c ← ask (fun e n => claims_for e n sub);
              match c with
              | Err err => mret (Err (Join (New "egauth: reading the caller's claims") err))
              | Ok c =>
                  match if needsAdmin sc sub target then checkAdmin f (App c) else None with
                  | Some err => mret (Err err)
                  | None =>
                      r ← ask (fun e n => enrolled e n sub);
                      match r with
                      | Err err => mret (Err (Join (New "egauth: reading the caller's enrollment") err))
                      | Ok required =>
                          if required && negb (MultiFactor attrs)
                          then mret (reauth_required "egauth: the caller enrolled a second factor this session lacks")
                          else
                            let ok := Ok (mkGrant false tenant sub (Attrs.epoch st) (App c)) in
                            if NoReauthWindow f then mret ok
                            else
                              t ← now;
                              mret (if negb (FreshWithin attrs (ReauthWindow f) t)
                                    then reauth_required "egauth: the session is not fresh within the reauthentication window"
                                    else ok)
                      end
                  end
              end))
  end.

Definition authorize (f : Auth) (by_ : Caller.Caller) (method : string) (tenant : TenantID) (target : Subject) (sc : Z) : M (res grant) :=
  if Caller.kind by_ =? Caller.CallerAPIKey then mret (Err ErrAPIKeyCaller)
  else if Caller.kind by_ =? Caller.CallerResourceToken then mret (Err ErrResourceTokenCaller)
  else if Caller.kind by_ =? Caller.CallerSystem then authorizeSystem f by_ method tenant sc
  else if Caller.kind by_ =? Caller.CallerSession then authorizeSession f by_ tenant target sc
  else mret (forbidden "egauth: the caller is not a session or system caller").

Definition targetUser (by_ : Caller.Caller) (user : uuid) : res Subject :=
  let sub := mkSubject (Caller.tenant by_) user in
  if Subject_IsZero sub then Err (Join GErrInvalidRequest (New "egauth: the user id is nil")) else Ok sub.

(** ** apikeys.go *)
Definition DefaultAPIKeyLifetime : duration := 90 * 24 * 60 * Minute.

Record APIKeyRequest := mkKeyRequest { q_Kind : string; q_Name : string; q_claims : claimSet; Lifetime : KeyTypes.Expiry }.

Definition printable_name (s : string) : bool :=
  match Identity.runes (str_bytes s) with None => false | Some rs => forallb IsPrint rs end.

Definition check_request (m : APIKeyModule) (req : APIKeyRequest) : option error :=
  let no reason := Some (Join GErrInvalidRequest (New reason)) in
  if negb (bool_decide (q_Kind req ∈ Kinds m)) then no "egauth: the API key kind is not in Modules.APIKeys.Kinds"
  else if (Tokens.MaxAPIKeyLabelLen <? Z.of_nat (String.length (q_Name req))) || negb (printable_name (q_Name req))
  then no "egauth: the API key name must be at most 128 bytes of printable UTF-8"
  else if negb (KeyTypes.Expiry_Valid (Lifetime req)) then Some (Join GErrInvalidRequest ErrInvalidExpiry)
  else if existsb (fun l => bool_decide ("" ∈ l)) [roles (q_claims req); scopes (q_claims req); groups (q_claims req)]
  then no "egauth: a requested claim is empty"
  else None.

Definition keys_authorize (f : Auth) (by_ : Caller.Caller) (method : string) : M (res (grant * APIKeyModule)) :=
  try (authorize f by_ method (Caller.tenant by_) zero_Subject scopeSelf) (fun g =>
    mret (match apiKeys f with
          | Some m => if has_tokens f then Ok (g, m) else Err (Join ErrFacadeUnavailable (New "egauth: Modules.APIKeys is nil"))
          | None => Err (Join ErrFacadeUnavailable (New "egauth: Modules.APIKeys is nil"))
          end)).

(** The description of the new key and its secret. *)
Definition Create (f : Auth) (by_ : Caller.Caller) (req : APIKeyRequest) : M (res (APIKeyInfo * string)) :=
  try (keys_authorize f by_ "APIKeys.Create") (fun '(g, m) =>
  match check_request m req with
  | Some err => mret (Err err)
  | None =>
      let held := g_claims g in
      if negb (subset (roles (q_claims req)) (roles held)) || negb (subset (scopes (q_claims req)) (scopes held))
         || negb (subset (groups (q_claims req)) (groups held))
      then mret (Err ErrClaimsNotSubset)
      else
        t ← now;
        match KeyTypes.At (Lifetime req) t DefaultAPIKeyLifetime with
        | Err err => mret (Err (Join GErrInvalidRequest err))
        | Ok expires =>
            if negb (time_IsZero expires) && negb (time_After expires t)
            then mret (Err (Join GErrInvalidRequest (New "egauth: the API key lifetime must be positive")))
            else
              let gr := mkClaimSet (dedupe (roles (q_claims req))) (dedupe (scopes (q_claims req))) (dedupe (groups (q_claims req))) in
              let claims := encodeAPIKeyGrant gr in
              if Tokens.MaxAppClaimsLen <? Z.of_nat (length claims)
              then mret (Err (Join GErrInvalidRequest (New "egauth: the requested claims are too large")))
              else
                raw ← draw;
                match newAPIKeySecret sha256 (Prefix m) raw with
                | Err err => mret (Err (Join (New "egauth: generating an API key") err))
                | Ok (secret, hash) =>
                    id ← newID;
                    let rec := Tokens.mkAPIKey id (g_subject g) (q_Kind req) (q_Name req) hash claims (g_epoch g) t expires time_zero in
                    try (on_tokens (fun c _ => ak_Create c rec)) (fun _ =>
                    _ ← emit (APIKeyCreated (g_subject g) (q_Kind req) id);
                    mret (Ok (infoOf rec gr, secret)))
                end
        end
  end).

Definition Revoke (f : Auth) (by_ : Caller.Caller) (id : uuid) : M (res unit) :=
  try (keys_authorize f by_ "APIKeys.Revoke") (fun '(g, _) =>
  try (on_tokens (fun c clk => ak_Revoke c clk (g_subject g) id)) (fun _ =>
  _ ← emit (APIKeyRevoked (g_subject g) id); mret (Ok tt))).

Definition List_ (f : Auth) (by_ : Caller.Caller) : M (res (list APIKeyInfo)) :=
  try (keys_authorize f by_ "APIKeys.List") (fun '(g, _) =>
  try (on_tokens (fun c _ s => (s, ak_List c (g_subject g) s))) (fun all =>
  t ← now;
  mret (Ok (omap (fun k =>
    if negb (time_IsZero (Tokens.RevokedAt k)) || (negb (time_IsZero (Tokens.ExpiresAt k)) && negb (time_Before t (Tokens.ExpiresAt k)))
       || negb (bool_decide (Tokens.Owner k = g_subject g))
    then None
    else match decodeAPIKeyGrant (Tokens.k_AppClaims k) with Ok gr => Some (infoOf k gr) | Err _ => None end) all)))).
End app.
End App.
