(* ===== verification/MfaSvcProperties.v ===== *)
(** The guarantees of the MFA service: what an accepted code proves, that it is accepted once, that guesses
    are bounded, and that a factor changes only after the epoch of its account was raised. *)
From S2P Require Import Prelude Errors Tenant Factor Attrs Pending Factors StoreBase Journey.
From S2P Require Import VerifiedFacts.
From S2P Require Import PasskeyStore PasskeyProperties MfaStore MfaProperties Enrollment IdentityRecord GoText JsonText Cookie Renewal.
From S2P Require Import Redirect Program Httpx Issuance Totp MfaSvc.
Import Session MfaTypes MfaSvc.

#[local] Arguments Totp.matchTOTP : simpl never.
#[local] Arguments Totp.decodeSecret : simpl never.
#[local] Arguments Totp.wellFormedTOTP : simpl never.
#[local] Arguments Totp.normalizeRecoveryCode : simpl never.
#[local] Arguments Totp.hashRecoveryCode : simpl never.

Section facts.
Context {P : Type} `{EnrollmentSvc.PasskeyEnrollment P}.
Context (UpperCase : Z -> Z) (hmac_sha1 : bytes -> bytes -> bytes) (sha256 : bytes -> bytes) (uuid_String : uuid -> string).
Implicit Types (e : env (P := P)) (w : world) (s : MfaMemory.Store).

Abbreviation verifyTOTP_ := (verifyTOTP UpperCase hmac_sha1 uuid_String).
Abbreviation verifyRecovery_ := (verifyRecovery UpperCase sha256).
Abbreviation Verify_ := (Verify UpperCase hmac_sha1 sha256 uuid_String).

(** ** What programs keep *)
Definition stable (I : MfaMemory.Store -> Prop) e : Prop := forall n s, I s -> I (others e n s).

(** [keeps I m]: the store satisfies [I] after [m] if it did before and other requests keep it. *)
Definition keeps {R} (I : MfaMemory.Store -> Prop) (m : Program.M env world R) : Prop :=
  forall e w, stable I e -> I (store w) -> I (store (m e w).1).

Lemma keeps_ret {R} I (x : R) : keeps I (mret x).
Proof. by intros e w. Qed.

Lemma keeps_bind {R T} I (m : Program.M env world R) (k : R -> Program.M env world T) :
  keeps I m -> (forall x, keeps I (k x)) -> keeps I (m ≫= k).
Proof.
  intros Hm Hk e w He Hw. unfold mbind, M_bind. specialize (Hm e w He Hw).
  destruct (m e w) as [w1 x]. by apply Hk.
Qed.

Lemma keeps_on_store {R} I (f : Ctx -> time -> MfaMemory.Store -> MfaMemory.Store * R) :
  (forall c clk s, I s -> I (f c clk s).1) -> keeps I (on_store f).
Proof.
  intros Hf e w He Hw. unfold on_store. specialize (Hf (ctx e (calls w)) (clock e (calls w)) _ (He (calls w) _ Hw)).
  by destruct (f _ _ _).
Qed.

Lemma keeps_read {R} I (f : Ctx -> MfaMemory.Store -> R) : keeps I (read_store f).
Proof. by apply keeps_on_store. Qed.

Lemma keeps_pure {R} I (f : env -> world -> R) : keeps I (fun e w => (tick w, f e w)).
Proof. by intros e w. Qed.

Lemma keeps_emit I t sub r l : keeps I (emit t sub r l).
Proof. by intros e w. Qed.

Lemma keeps_respond {R} I (f : Http.Response -> Http.Response * R) : keeps I (respond f).
Proof. intros e w _ Hw. unfold respond. by destruct (f (out w)). Qed.

Lemma keeps_apply I m : keeps I (apply_mutation m).
Proof. intros e w _ Hw. unfold apply_mutation. by destruct (mutate e (calls w) m). Qed.

Lemma keeps_reissue I c : keeps I (reissue c).
Proof. intros e w _ Hw. unfold reissue. by destruct (reissued _ _ _ _). Qed.

Lemma keeps_try {R T} I (m : Program.M env world (res R)) (k : R -> Program.M env world (res T)) :
  keeps I m -> (forall x, keeps I (k x)) -> keeps I (try m k).
Proof. intros Hm Hk. apply keeps_bind; [done|]. intros [x|err]; [apply Hk|apply keeps_ret]. Qed.

Lemma keeps_or_fail {R} I f (m : Program.M env world (res R)) k :
  keeps I m -> (forall x, keeps I (k x)) -> keeps I (or_fail f m k).
Proof. intros Hm Hk. apply keeps_bind; [done|]. intros [x|err]; [apply Hk|apply keeps_respond]. Qed.

(** A step that is run twice: the continuation of a decision keeps what both branches keep. *)
Ltac keeping :=
  repeat first
    [ apply keeps_ret | apply keeps_read | apply keeps_emit | apply keeps_respond | apply keeps_apply | apply keeps_reissue
    | apply keeps_pure | progress intros | apply keeps_try | apply keeps_or_fail | apply keeps_bind
    | match goal with |- keeps _ (match ?x with _ => _ end) => destruct x end
    | match goal with |- keeps _ (if ?x then _ else _) => destruct x end ].

Lemma keeps_openSecret I sub sealed :
  (forall c r s, RefSubject (R_Ref r) = sub -> I s -> I (MfaMemory.ReplaceSealed c r s).1) ->
  keeps I (openSecret UpperCase uuid_String sub sealed).
Proof.
  intros Hr. unfold openSecret, reseal. keeping.
  apply keeps_on_store. intros c clk s Hs. by apply Hr.
Qed.

(** ** What an accepted TOTP code proves

    The attempt is charged on the store this very run found: the one it started from, as other requests left it at the
    calls before. *)
Record totp_accepted e w w' sub (text : bytes) (want : bool) (en : Enrollment) (step : Z) : Prop := {
  ta_enrolled : MfaMemory.GetTOTP (ctx e (calls w)) sub (others e (calls w) (store w)) = Ok en;
  ta_confirmed : Confirmed en = want;
  ta_charged : exists k s1, let n := calls w in
    MfaMemory.IncrementTOTPAttempts (ctx e (S (S n))) (mkLockout sub (clock e (S n)) MaxAttempts LockoutDuration)
      (others e (S (S n)) (others e n (store w))) = (s1, Ok k) /\ k <= MaxAttempts;
  ta_code : exists ref o key t, Sealing.TOTPSecret uuid_String sub = Ok ref /\
    Sealing.Open (kek e (S (S (S (calls w))))) ref (Sealed en) = Ok o /\ Totp.decodeSecret UpperCase (Sealing.Plaintext o) = Some key /\
    step ∈ Totp.steps (clock e t) /\ text = Totp.hotp hmac_sha1 key (u64 step);
  ta_used : exists n s, MfaMemory.MarkTOTPUsed (ctx e n) sub step s = (store w', Ok true) /\
    forall I, (forall c l s, LSubject l = sub -> I s -> I (MfaMemory.IncrementTOTPAttempts c l s).1) ->
      (forall c r s, RefSubject (R_Ref r) = sub -> I s -> I (MfaMemory.ReplaceSealed c r s).1) ->
      stable I e -> I (store w) -> I s }.

Lemma find_elem {A} (f : A -> bool) l x : find f l = Some x -> x ∈ l /\ f x = true.
Proof. intros [Hi Hf]%find_some. by apply list_elem_of_In in Hi. Qed.

Lemma openSecret_Ok sub sealed e w w' key : openSecret UpperCase uuid_String sub sealed e w = (w', Ok key) ->
  exists ref o, Sealing.TOTPSecret uuid_String sub = Ok ref /\ Sealing.Open (kek e (calls w)) ref sealed = Ok o /\
    Totp.decodeSecret UpperCase (Sealing.Plaintext o) = Some key.
Proof.
  unfold openSecret. destruct (Sealing.TOTPSecret _ _) as [ref|]; [|done]. prog.
  destruct (Sealing.Open _ _ _) as [o|] eqn:Eo; [|done]. destruct (if Sealing.Stale o then _ else _) as [w1 []].
  destruct (Totp.decodeSecret _ _) as [k|] eqn:Ed; [|done]. intros [= _ ->]. by exists ref, o.
Qed.

Lemma verifyTOTP_Ok sub txt want e w w' en step : verifyTOTP_ sub txt want e w = (w', Ok (en, step)) ->
  Totp.wellFormedTOTP (TrimSpace (str_bytes txt)) = true /\
  totp_accepted e w w' sub (TrimSpace (str_bytes txt)) want en step.
Proof.
  unfold verifyTOTP. destruct (Totp.wellFormedTOTP _) eqn:Ew; [|done]. cbn [negb]. prog. cbn.
  destruct (MfaMemory.GetTOTP _ _ _) as [en'|] eqn:Eg; [|done]. destruct (Bool.eqb _ _) eqn:Ec; [|done]. cbn.
  apply Bool.eqb_prop in Ec. unfold lockout, now. prog. cbn. unfold on_store at 1. cbn.
  destruct (MfaMemory.IncrementTOTPAttempts _ _ _) as [s1 [k|]] eqn:Ei; [|done].
  destruct (Z.ltb_spec MaxAttempts k); [done|].
  set (w1 := mkWorld s1 _ _ _ _). destruct (openSecret _ _ _ _ e w1) as [w2 [key|]] eqn:Eo; [|done].
  cbn. destruct (Totp.matchTOTP _ _ _ _) as [st|] eqn:Em; [|by destruct (lockedNow _ _ _ _)].
  unfold on_store. cbn. destruct (MfaMemory.MarkTOTPUsed _ _ _ _) as [s3 [[]|]] eqn:Eu; cbn; [|by destruct (lockedNow _ _ _ _)|done].
  cbn. intros [= <- -> ->]. split; [done|]. apply find_elem in Em as [Hin Hm]. apply bool_decide_eq_true in Hm.
  destruct (openSecret_Ok _ _ _ _ _ _ Eo) as (ref & o & Hr & Hop & Hd).
  split; [done|done| | |].
  - exists k, s1. split; [exact Ei|lia].
  - by eexists ref, o, key, _.
  - eexists _, _. split; [exact Eu|]. intros I Hinc Hrep Hst Hw. apply Hst.
    replace (store w2) with (store (openSecret UpperCase uuid_String sub (Sealed en) e w1).1) by (by rewrite Eo).
    apply keeps_openSecret; [done|done|]. subst w1. cbn.
    replace s1 with (MfaMemory.IncrementTOTPAttempts (ctx e (S (S (calls w))))
      (mkLockout sub (clock e (S (calls w))) MaxAttempts LockoutDuration)
      (others e (S (S (calls w))) (others e (calls w) (store w)))).1 by (by rewrite Ei).
    apply Hinc; [done|]. by apply Hst, Hst.
Qed.

(** ** What an accepted recovery code proves *)
(** The whole run, call by call: the second factor found, the attempt charged, the code consumed and the counter reset,
    each on the store the call before it left and other requests changed. *)
Record recovery_accepted e w w' sub (text : bytes) : Prop := {
  ra_run : exists m k s1 s2, let n := calls w in let s0 := others e n (store w) in
    (m = S n /\ MfaMemory.HasConfirmedTOTP (ctx e n) sub s0 = Ok true \/
     m = S (S n) /\ MfaMemory.HasConfirmedTOTP (ctx e n) sub s0 = Ok false /\
       EnrollmentSvc.HasActive (ctx e (S n)) sub (passkeys e (S n)) = Ok true) /\
    MfaMemory.IncrementRecoveryAttempts (ctx e (S m)) (mkLockout sub (clock e m) MaxAttempts LockoutDuration) (others e (S m) s0) =
      (s1, Ok k) /\ k <= MaxAttempts /\
    MfaMemory.ConsumeRecoveryCode (ctx e (S (S m))) sub (Totp.hashRecoveryCode UpperCase sha256 text) (others e (S (S m)) s1) =
      (s2, Ok tt) /\
    store w' = (MfaMemory.ResetRecoveryAttempts (ctx e (S (S (S m)))) sub (others e (S (S (S m))) s2)).1 }.

(** What the code was consumed from, up to what other requests keep. *)
Lemma ra_used e w w' sub text : recovery_accepted e w w' sub text ->
  exists c n s s1, MfaMemory.ConsumeRecoveryCode c sub (Totp.hashRecoveryCode UpperCase sha256 text) s = (s1, Ok tt) /\
    store w' = (MfaMemory.ResetRecoveryAttempts (ctx e n) sub (others e n s1)).1 /\
    forall I, (forall c l s, LSubject l = sub -> I s -> I (MfaMemory.IncrementRecoveryAttempts c l s).1) ->
      stable I e -> I (store w) -> I s.
Proof.
  intros [(m & k & s1 & s2 & _ & Hi & _ & Hc & Hw)]. eexists _, _, _, s2. split; [exact Hc|]. split; [exact Hw|].
  intros I Hinc Hst H0. apply Hst. apply (f_equal fst) in Hi. cbn in Hi. rewrite <- Hi. apply Hinc; [done|]. by repeat apply Hst.
Qed.

Lemma hasSecondFactor_Ok sub e w w' : hasSecondFactor sub e w = (w', Ok true) ->
  let n := calls w in let s0 := others e n (store w) in
  store w' = s0 /\
  (calls w' = S n /\ MfaMemory.HasConfirmedTOTP (ctx e n) sub s0 = Ok true \/
   calls w' = S (S n) /\ MfaMemory.HasConfirmedTOTP (ctx e n) sub s0 = Ok false /\
     EnrollmentSvc.HasActive (ctx e (S n)) sub (passkeys e (S n)) = Ok true).
Proof.
  unfold hasSecondFactor, read_store, on_store. prog. cbn.
  destruct (MfaMemory.HasConfirmedTOTP _ _ _) as [[]|] eqn:Eh; [| |done].
  - intros [= <-]. split; [done|]. by left.
  - unfold has_active. cbn. intros [= <- Hp]. split; [done|]. by right.
Qed.

Lemma verifyRecovery_Ok sub txt e w w' : verifyRecovery_ sub txt e w = (w', Ok tt) ->
  recovery_accepted e w w' sub (Totp.normalizeRecoveryCode UpperCase (str_bytes txt)).
Proof.
  unfold verifyRecovery. destruct (_ || _); [done|]. prog.
  destruct (hasSecondFactor sub e w) as [w1 [[]|]] eqn:Eh; [|done..].
  apply hasSecondFactor_Ok in Eh as [Hs Hf]. unfold lockout, now. prog. cbn. unfold on_store at 1. cbn. rewrite Hs.
  destruct (MfaMemory.IncrementRecoveryAttempts _ _ _) as [s1 [k|]] eqn:Ei; [|done].
  destruct (Z.ltb_spec MaxAttempts k); [done|]. unfold on_store at 1. cbn.
  destruct (MfaMemory.ConsumeRecoveryCode _ _ _ _) as [s2 [[]|err]] eqn:Eu.
  2:{ destruct (Is err ErrNotFound); [|done]. by destruct (lockedNow _ _ _ _). }
  unfold on_store. cbn. destruct (MfaMemory.ResetRecoveryAttempts _ _ _) as [s3 x] eqn:Er. intros [= <-]. split.
  exists (calls w1), k, s1, s2. split_and!; [done|exact Ei|lia|exact Eu|by rewrite Er].
Qed.

(** ** Verify *)
Definition accepted e w w' sub (f : Factor) (txt : string) : Prop :=
  (f = FactorTOTP /\ exists en step, totp_accepted e w w' sub (TrimSpace (str_bytes txt)) true en step) \/
  (f = FactorRecoveryCode /\ recovery_accepted e w w' sub (Totp.normalizeRecoveryCode UpperCase (str_bytes txt))).

Lemma totp_accepted_store e w w1 w2 sub text want en step : totp_accepted e w w1 sub text want en step ->
  store w2 = store w1 -> totp_accepted e w w2 sub text want en step.
Proof. intros [H1 H2 H3 H4 H5] E. split; try done. by rewrite E. Qed.

Lemma recovery_accepted_store e w w1 w2 sub text : recovery_accepted e w w1 sub text ->
  store w2 = store w1 -> recovery_accepted e w w2 sub text.
Proof. intros [H1] E. split. by rewrite E. Qed.

Lemma Verify_Ok sub f txt e w w' v : Verify_ sub f txt e w = (w', Ok v) ->
  Subject_IsZero sub = false /\ accepted e w w' sub f txt /\
  exists n, (if bool_decide (f = FactorTOTP) then Factors.TOTP sub (clock e n) else Factors.RecoveryCode sub (clock e n)) = Ok v.
Proof.
  unfold Verify. destruct (Subject_IsZero sub); [done|]. destruct (_ || _) eqn:Ef; [|done]. cbn [negb]. prog. cbn.
  destruct (bool_decide (f = FactorTOTP)) eqn:E1.
  - destruct (verifyTOTP UpperCase hmac_sha1 uuid_String sub txt true e w) as [w1 [[en step]|err]] eqn:Ev.
    2:{ by destruct (failed _ _ _ _ _). }
    apply verifyTOTP_Ok in Ev as [_ Ha]. unfold now. cbn. intros [= <- Hv]. split; [done|]. split; [|by eexists].
    left. apply bool_decide_eq_true in E1. split; [done|]. exists en, step. by eapply totp_accepted_store.
  - destruct (verifyRecovery UpperCase sha256 sub txt e w) as [w1 [[]|err]] eqn:Ev.
    2:{ by destruct (failed _ _ _ _ _). }
    apply verifyRecovery_Ok in Ev. unfold now. cbn. intros [= <- Hv]. split; [done|]. split; [|by eexists].
    right. cbn in Ef. apply bool_decide_eq_true in Ef. split; [done|]. by eapply recovery_accepted_store.
Qed.

(** ** Codes are used once *)
Lemma Increment_step c l sub k s : step_at_least sub k s -> step_at_least sub k (MfaMemory.IncrementTOTPAttempts c l s).1.
Proof. intros Hs. by apply (exec_step_at_least (MfIncrementTOTPAttempts c l) sub k). Qed.

Lemma ReplaceSealed_step c r sub k s : step_at_least sub k s -> step_at_least sub k (MfaMemory.ReplaceSealed c r s).1.
Proof. intros Hs. by apply (exec_step_at_least (MfReplaceSealed c r) sub k). Qed.

Lemma Increment_spent c l sub h s : spent sub h s -> spent sub h (MfaMemory.IncrementRecoveryAttempts c l s).1.
Proof. intros Hs. by apply (exec_spent (MfIncrementRecoveryAttempts c l) sub h). Qed.

(** After an accepted step, that step and every earlier one is used. *)
Lemma totp_accepted_used e w w' sub text want en step : totp_accepted e w w' sub text want en step ->
  step_at_least sub step (store w').
Proof.
  intros [_ _ _ _ (n & s & Hm & _)]. unfold MfaMemory.MarkTOTPUsed in Hm. destruct (ctx e n); [done|].
  destruct (MfaMemory.totp s !! sub) as [r|] eqn:Er; [|done]. destruct (_ <=? _); [done|]. injection Hm as <-.
  eexists. cbn. rewrite lookup_insert_eq. split; [done|]. cbn. lia.
Qed.

(** An accepted step was above every step used before. *)
Lemma totp_accepted_above e w w' sub text want en step k : totp_accepted e w w' sub text want en step ->
  stable (step_at_least sub k) e -> step_at_least sub k (store w) -> k < step.
Proof.
  intros [_ _ _ _ (n & s & Hm & Hi)] Hst Hw.
  destruct (Hi (step_at_least sub k)) as (r & Hr & Hk); [intros; by apply Increment_step|intros; by apply ReplaceSealed_step|done..|].
  unfold MfaMemory.MarkTOTPUsed in Hm. destruct (ctx e n); [done|]. rewrite Hr in Hm.
  destruct (Z.leb_spec step (LastUsedStep (MfaMemory.enr r))); [done|]. lia.
Qed.

Lemma recovery_accepted_spent e w w' sub text : recovery_accepted e w w' sub text ->
  let h := Totp.hashRecoveryCode UpperCase sha256 text in stable (spent sub h) e -> spent sub h (store w').
Proof.
  intros (c & n & s & s1 & Hc & Hw' & _)%ra_used h Hst. rewrite Hw'.
  assert (spent sub h s1) as H1.
  { destruct c; [done|]. apply Consume_Ok in Hc as (set & cd & Hs & Hh & Hu & Hcs & _). intros set' c'.
    rewrite Hcs, lookup_insert_eq. intros [= <-]. fold h. rewrite lookup_insert_eq. by intros [= <-]. }
  apply (exec_spent (MfResetRecoveryAttempts (ctx e n) sub) sub h); [done|]. by apply Hst.
Qed.

Lemma recovery_accepted_unspent e w w' sub text h : recovery_accepted e w w' sub text ->
  stable (spent sub h) e -> spent sub h (store w) -> Totp.hashRecoveryCode UpperCase sha256 text <> h.
Proof.
  intros (c & n & s & s1 & Hc & _ & Hi)%ra_used Hst Hw E.
  assert (spent sub h s) as Hs by (apply Hi; [intros; by apply Increment_spent|done..]).
  destruct c; [done|]. rewrite E in Hc. apply Consume_Ok in Hc as (set & cd & Hx & Hh & Hu & _).
  rewrite (Hs _ _ Hx Hh) in Hu. done.
Qed.

(** C15: A second factor is accepted once.  Whatever other requests do, short of saving or removing the
    subject's enrollment or issuing the same recovery code again, when Verify accepted a code and
    later accepts another for the same subject and factor, the second TOTP code is of a strictly
    later time step than the first, and the second recovery code has another digest; each was
    accepted only after an attempt was charged to the subject in the store that very run found, and numbered at most
    five there, and each TOTP code is the one of its step under the key unsealed for that subject. *)
Theorem second_factor_is_used_once sub f c1 c2 e1 e2 w1 w1' w2 w2' v1 v2 :
  Verify_ sub f c1 e1 w1 = (w1', Ok v1) -> Verify_ sub f c2 e2 w2 = (w2', Ok v2) ->
  (forall k, step_at_least sub k (store w1') -> step_at_least sub k (store w2)) -> (forall k, stable (step_at_least sub k) e2) ->
  (forall h, spent sub h (store w1') -> spent sub h (store w2)) -> (forall h, stable (spent sub h) e1 /\ stable (spent sub h) e2) ->
  (f = FactorTOTP /\ exists en1 k1 en2 k2, totp_accepted e1 w1 w1' sub (TrimSpace (str_bytes c1)) true en1 k1 /\
     totp_accepted e2 w2 w2' sub (TrimSpace (str_bytes c2)) true en2 k2 /\ k1 < k2) \/
  (f = FactorRecoveryCode /\
     recovery_accepted e1 w1 w1' sub (Totp.normalizeRecoveryCode UpperCase (str_bytes c1)) /\
     recovery_accepted e2 w2 w2' sub (Totp.normalizeRecoveryCode UpperCase (str_bytes c2)) /\
     Totp.hashRecoveryCode UpperCase sha256 (Totp.normalizeRecoveryCode UpperCase (str_bytes c1))
     <> Totp.hashRecoveryCode UpperCase sha256 (Totp.normalizeRecoveryCode UpperCase (str_bytes c2))).
Proof.
  intros (_ & A1 & _)%Verify_Ok (_ & A2 & _)%Verify_Ok Hs Hse Hr Hre.
  destruct A1 as [[-> (en1 & s1 & A1)]|[-> A1]], A2 as [[? (en2 & s2 & A2)]|[? A2]]; [|done..|].
  - left. split; [done|]. exists en1, s1, en2, s2. split_and!; [done..|].
    eapply totp_accepted_above; [done..|]. apply Hs. by eapply totp_accepted_used.
  - right. split_and!; [done..|]. intros E. eapply recovery_accepted_unspent; [exact A2|apply (proj2 (Hre _))| |symmetry; exact E].
    apply Hr. eapply recovery_accepted_spent; [done|]. apply Hre.
Qed.

(** ** Guesses are bounded *)
(** The subject has a confirmed enrollment with at least [k] attempts charged, the last since [T]. *)
Definition charged (sub : Subject) (T : time) (k : Z) (s : MfaMemory.Store) : Prop :=
  exists r, MfaMemory.totp s !! sub = Some r /\ Confirmed (MfaMemory.enr r) = true /\ k <= FailedAttempts (MfaMemory.enr r) /\
    (0 < k -> T <= LastAttemptAt (MfaMemory.enr r)).

Lemma charged_set_totp sub T k en s r sub' : MfaMemory.totp s !! sub' = Some r -> charged sub T k s ->
  (sub' = sub -> Confirmed en = Confirmed (MfaMemory.enr r) /\ FailedAttempts (MfaMemory.enr r) <= FailedAttempts en /\
    LastAttemptAt (MfaMemory.enr r) <= LastAttemptAt en) ->
  charged sub T k (MfaMemory.set_totp sub' en r s).
Proof.
  intros Hr (x & Hx & Hc & Hk & Hl) He. unfold charged. cbn. destruct (decide (sub' = sub)) as [->|Hne].
  - rewrite lookup_insert_eq. eexists. split; [done|]. cbn. simplify_eq. destruct (He eq_refl) as (-> & ? & ?).
    split_and!; [done|lia|intros; specialize (Hl ltac:(done)); lia].
  - rewrite lookup_insert_ne by done. by exists x.
Qed.

Lemma ReplaceSealed_charged c r sub T k s : charged sub T k s -> charged sub T k (MfaMemory.ReplaceSealed c r s).1.
Proof.
  intros Hc. unfold MfaMemory.ReplaceSealed. destruct c; [done|]. destruct (_ || _); [done|].
  destruct (MfaMemory.totp s !! RefSubject (R_Ref r)) as [row|] eqn:Er; [|done]. destruct (negb _); [done|].
  apply charged_set_totp; [done..|]. intros _. cbn. split_and!; [done|lia|lia].
Qed.

(** The effect of charging one attempt inside the window. *)
Lemma Increment_charged sub T k t s s' n : 0 <= k -> charged sub T k s ->
  T <= time_Truncate t Microsecond <= T + LockoutDuration ->
  MfaMemory.IncrementTOTPAttempts None (mkLockout sub t MaxAttempts LockoutDuration) s = (s', Ok n) ->
  charged sub T k s' /\ (n <= MaxAttempts -> k < MaxAttempts /\ charged sub T (k + 1) s').
Proof.
  intros Hk0 (r & Hr & Hc & Hk & Hl) Hw. unfold MfaMemory.IncrementTOTPAttempts.
  destruct (MfaMemory.checkLockout _); [done|]. cbn [LSubject]. rewrite Hr. unfold MfaMemory.bump. cbn [MfaMemory.failed MfaMemory.last Max Now Duration].
  set (d := time_Truncate t Microsecond) in *. set (f := FailedAttempts (MfaMemory.enr r)) in *.
  assert (forall f' l', (k <= f') -> (0 < k -> T <= l') ->
    charged sub T k (MfaMemory.set_totp sub (set_attempts f' l' (MfaMemory.enr r)) r s)) as Hset.
  { intros f' l' Hf' Hl'. eexists. cbn. rewrite lookup_insert_eq. by split_and!. }
  assert (forall f' l', (k + 1 <= f') -> T <= l' ->
    charged sub T (k + 1) (MfaMemory.set_totp sub (set_attempts f' l' (MfaMemory.enr r)) r s)) as Hset'.
  { intros f' l' Hf' Hl'. eexists. cbn. rewrite lookup_insert_eq. by split_and!. }
  destruct (Z.ltb_spec f MaxAttempts).
  - intros [= <- <-]. split; [apply Hset; lia|]. intros _. split; [lia|]. apply Hset'; lia.
  - destruct (_ && _) eqn:Ed.
    + assert (k = 0) as ->.
      { destruct (decide (0 < k)) as [Hp|]; [|lia]. exfalso. specialize (Hl Hp). apply andb_true_iff in Ed as [_ Ed].
        apply Z.ltb_lt in Ed. unfold time_Sub, two63 in Ed. unfold LockoutDuration, Minute, Second in *. lia. }
      intros [= <- <-]. split; [apply Hset; lia|]. intros _. split; [unfold MaxAttempts; lia|]. apply Hset'; lia.
    + intros [= <- <-]. cbn. split; [apply Hset; done|]. unfold MaxAttempts. lia.
Qed.

(** A context ends with an error of its own, never a store's. *)
Definition contexts e : Prop := forall n err, ctx e n = Some err -> Is err ErrNotFound = false.

Definition in_lockout e (T : time) : Prop :=
  forall n, T <= time_Truncate (clock e n) Microsecond <= T + LockoutDuration.

Lemma GetTOTP_charged sub T k c s : charged sub T k s -> (forall err, c = Some err -> Is err ErrNotFound = false) ->
  match MfaMemory.GetTOTP c sub s with
  | Ok en => Confirmed en = true
  | Err err => Is err ErrNotFound = false
  end.
Proof.
  intros (r & Hr & Hc & _) Hctx. unfold MfaMemory.GetTOTP. destruct c as [err|]; [by apply Hctx|]. rewrite Hr.
  unfold Confirmed, MfaMemory.out in *. cbn. by destruct (ConfirmedAt (MfaMemory.enr r)).
Qed.

Lemma Increment_Err_charged sub T k c l s s' err : charged sub T k s -> (forall err, c = Some err -> Is err ErrNotFound = false) ->
  LSubject l = sub -> MfaMemory.IncrementTOTPAttempts c l s = (s', Err err) -> s' = s /\ Is err ErrNotFound = false.
Proof.
  intros (r & Hr & _) Hctx <-. unfold MfaMemory.IncrementTOTPAttempts. destruct c as [e'|].
  { intros [= <- <-]. split; [done|]. by apply Hctx. }
  destruct (MfaMemory.checkLockout l) as [e'|] eqn:El.
  { intros [= <- <-]. split; [done|]. revert El. unfold MfaMemory.checkLockout. destruct (Subject_IsZero _); [by intros [= <-]|].
    destruct (_ || _); [by intros [= <-]|done]. }
  rewrite Hr. by destruct (MfaMemory.bump _ _).
Qed.

Lemma lockedNow_store sub n e w : store (lockedNow sub n e w).1 = store w.
Proof. unfold lockedNow. by destruct (negb _). Qed.

Lemma MarkTOTPUsed_same c sub step s s' r : MfaMemory.MarkTOTPUsed c sub step s = (s', r) -> r <> Ok true -> s' = s.
Proof.
  unfold MfaMemory.MarkTOTPUsed. destruct c; [by intros [= <- _]|]. destruct (MfaMemory.totp s !! sub); [|by intros [= <- _]].
  destruct (_ <=? _); intros [= <- <-]; done.
Qed.

(** A wrong guess costs an attempt, and five attempts are all there is. *)
Lemma verifyTOTP_charged sub T k txt e w w' err : verifyTOTP_ sub txt true e w = (w', Err err) ->
  contexts e -> in_lockout e T -> (forall j, 0 <= j -> stable (charged sub T j) e) -> 0 <= k -> charged sub T k (store w) ->
  charged sub T k (store w') /\
  (Totp.wellFormedTOTP (TrimSpace (str_bytes txt)) = true -> err = ErrInvalidCode -> k < MaxAttempts /\ charged sub T (k + 1) (store w')).
Proof.
  intros Hv Hctx Hwin Hst Hk Hc. unfold verifyTOTP in Hv. destruct (Totp.wellFormedTOTP _); [|by injection Hv as <- <-]. cbn [negb] in Hv. prog. cbn in Hv.
  assert (charged sub T k (others e (calls w) (store w))) as Hc0 by (by apply Hst).
  pose proof (GetTOTP_charged sub T k (ctx e (calls w)) _ Hc0 (Hctx _)) as Hg.
  destruct (MfaMemory.GetTOTP _ _ _) as [en|e0]; [|rewrite Hg in Hv; injection Hv as <- <-; by split]. rewrite Hg in Hv. cbn in Hv.
  unfold lockout, now in Hv. prog. cbn in Hv. unfold on_store at 1 in Hv. cbn in Hv.
  set (s0 := others e (S (S (calls w))) (others e (calls w) (store w))) in Hv.
  assert (charged sub T k s0) as Hc1 by (by apply Hst).
  destruct (MfaMemory.IncrementTOTPAttempts _ _ _) as [s1 [n|e0]] eqn:Ei.
  2:{ apply (Increment_Err_charged sub T k) in Ei as [-> Ei]; [|done|apply Hctx|done]. rewrite Ei in Hv. injection Hv as <- <-. by split. }
  destruct (ctx e (S (S (calls w)))); [done|].
  destruct (Increment_charged sub T k _ _ _ _ Hk Hc1 (Hwin _) Ei) as [Hc2 Hn].
  destruct (Z.ltb_spec MaxAttempts n); [injection Hv as <- <-; by split|].
  destruct (Hn ltac:(done)) as [Hlt Hc3]. clear Hn.
  set (w1 := mkWorld s1 _ _ _ _) in Hv.
  assert (charged sub T (k + 1) (store (openSecret UpperCase uuid_String sub (Sealed en) e w1).1)) as Hc4.
  { apply keeps_openSecret; [intros; by apply ReplaceSealed_charged|by apply Hst; lia|done]. }
  destruct (openSecret _ _ _ _ e w1) as [w2 [key|e0]]; cbn in Hc4.
  2:{ injection Hv as <- <-. split; [|done]. destruct Hc4 as (r & ? & ? & ? & ?). exists r. split_and!; [done|done|lia|lia]. }
  assert (forall s2, charged sub T (k + 1) s2 -> charged sub T k s2 /\
    (true = true -> err = ErrInvalidCode -> k < MaxAttempts /\ charged sub T (k + 1) s2)) as Hdone.
  { intros s2 Hs2. split; [|done]. destruct Hs2 as (r & ? & ? & ? & ?). exists r. split_and!; [done|done|lia|lia]. }
  cbn in Hv. destruct (Totp.matchTOTP _ _ _ _) as [st|].
  2:{ pose proof (lockedNow_store sub n e (tick w2)) as Hl. destruct (lockedNow _ _ _ _) as [w3 []]. injection Hv as <- <-.
      apply Hdone. cbn in Hl. by rewrite Hl. }
  unfold on_store in Hv. cbn in Hv.
  assert (charged sub T (k + 1) (others e (S (calls w2)) (store w2))) as Hc5 by (apply Hst; [lia|done]).
  destruct (MfaMemory.MarkTOTPUsed _ _ _ _) as [s3 [[]|e0]] eqn:Eu; cbn in Hv; [done| |].
  - pose proof (lockedNow_store sub n e (mkWorld s3 (applied w2) (out w2) (audit w2) (S (S (calls w2))))) as Hl.
    destruct (lockedNow _ _ _ _) as [w3 []]. injection Hv as <- <-. apply Hdone. cbn in Hl. rewrite Hl.
    by rewrite (MarkTOTPUsed_same _ _ _ _ _ _ Eu).
  - injection Hv as <- <-. apply Hdone. cbn. by rewrite (MarkTOTPUsed_same _ _ _ _ _ _ Eu).
Qed.

Lemma failed_store sub f err e w : store (failed sub f err e w).1 = store w.
Proof. unfold failed. destruct (Is err ErrTooManyAttempts); [done|]. by destruct (negb _). Qed.

Lemma Verify_charged sub T k txt e w w' err : Verify_ sub FactorTOTP txt e w = (w', Err err) ->
  contexts e -> in_lockout e T -> (forall j, 0 <= j -> stable (charged sub T j) e) -> 0 <= k -> charged sub T k (store w) ->
  Subject_IsZero sub = false -> (forall n, clock e n <> 0) ->
  charged sub T k (store w') /\
  (Totp.wellFormedTOTP (TrimSpace (str_bytes txt)) = true -> err = ErrInvalidCode -> k < MaxAttempts /\ charged sub T (k + 1) (store w')).
Proof.
  intros Hv Hctx Hwin Hst Hk Hc Hz Hclk. unfold Verify in Hv. rewrite Hz, bool_decide_eq_true_2 in Hv by done. cbn [orb negb] in Hv. prog.
  destruct (verifyTOTP UpperCase hmac_sha1 uuid_String sub txt true e w) as [w1 [[en step]|e0]] eqn:Ev.
  - exfalso. cbn in Hv. unfold now in Hv. cbn in Hv. injection Hv as _ Hv. unfold Factors.TOTP, second, NewVerified in Hv. cbn in Hv.
    rewrite Hz in Hv. unfold time_IsZero in Hv. destruct (Z.eqb_spec (clock e (calls w1)) 0) as [E|]; [by destruct (Hclk _ E)|done].
  - cbn in Hv. pose proof (failed_store sub FactorTOTP e0 e w1) as Hs. destruct (failed _ _ _ _ _) as [w2 []]. injection Hv as <- <-.
    cbn in Hs. rewrite Hs. by eapply verifyTOTP_charged.
Qed.

(** A sequence of requests, each with its own environment. *)
Fixpoint guesses (sub : Subject) (l : list (env * string)) (w : world) : list (res Verified) :=
  match l with
  | [] => []
  | (e, txt) :: l' => let '(w', r) := Verify_ sub FactorTOTP txt e w in r :: guesses sub l' w'
  end.

(** A code that was compared and refused. *)
Definition wrong (g : (env (P := P) * string) * res Verified) : bool :=
  Totp.wellFormedTOTP (TrimSpace (str_bytes g.1.2)) &&
  match g.2 with Err (E (MfaSvcPkg ErrInvalidCode)) => true | _ => false end.

Lemma guesses_bounded sub T k l w :
  Forall (fun g => contexts g.1 /\ in_lockout g.1 T /\ (forall j, 0 <= j -> stable (charged sub T j) g.1) /\ forall n, clock g.1 n <> 0) l ->
  0 <= k <= MaxAttempts -> charged sub T k (store w) -> Subject_IsZero sub = false ->
  Forall (fun r => okb r = false) (guesses sub l w) ->
  k + Z.of_nat (length (List.filter wrong (zip l (guesses sub l w)))) <= MaxAttempts.
Proof.
  revert k w. induction l as [|[e txt] l IH]; intros k w Hl Hk Hc Hz Hno; [cbn; lia|].
  inversion Hl as [|? ? (Hctx & Hwin & Hst & Hclk) Hl']; subst. cbn [guesses] in Hno |- *.
  destruct (Verify _ _ _ _ sub FactorTOTP txt e w) as [w' r] eqn:Ev. inversion Hno as [|? ? Hr Hno']; subst. destruct r as [v|err]; [done|].
  destruct (Verify_charged sub T k txt e w w' err Ev Hctx Hwin Hst ltac:(lia) Hc Hz Hclk) as [Hc' Hw].
  cbn [zip List.filter wrong fst snd]. unfold wrong at 1. cbn [fst snd].
  destruct (Totp.wellFormedTOTP _ && _) eqn:E.
  - apply andb_true_iff in E as [E1 E2]. assert (err = ErrInvalidCode) as E3 by (by repeat case_match; subst).
    destruct (Hw E1 E3) as [Hlt Hc1].
    specialize (IH (k + 1) w' Hl' ltac:(lia) Hc1 Hz Hno'). cbn [length]. lia.
  - by apply IH.
Qed.

(** Guessing a TOTP is bounded.  In any sequence of requests whose clocks stay within one lockout
    duration, interleaved with requests that do not clear or lower the subject's counter, as long as
    none is accepted at most five well-formed codes are compared and refused: every further one is
    answered without a comparison, the right one included. *)
Theorem totp_guesses_are_bounded sub T l w :
  Forall (fun g => contexts g.1 /\ in_lockout g.1 T /\ (forall j, 0 <= j -> stable (charged sub T j) g.1) /\ forall n, clock g.1 n <> 0) l ->
  charged sub T 0 (store w) -> Subject_IsZero sub = false ->
  Forall (fun r => okb r = false) (guesses sub l w) ->
  (length (List.filter wrong (zip l (guesses sub l w))) <= 5)%nat.
Proof.
  intros Hl Hc Hz Hno. pose proof (guesses_bounded sub T 0 l w Hl ltac:(unfold MaxAttempts; lia) Hc Hz Hno) as Hb.
  unfold MaxAttempts in Hb. lia.
Qed.

(** ** Factors and epochs *)
(** Whether the subject has a confirmed TOTP, and its recovery codes, used ones included. *)
Definition factors_of (s : MfaMemory.Store) (sub : Subject) : bool * gset string :=
  (match MfaMemory.totp s !! sub with Some r => Confirmed (MfaMemory.enr r) | None => false end,
   dom (default ∅ (MfaMemory.codes s !! sub))).

(** No factor was changed and no mutation applied. *)
Definition same_factors (w w' : world) : Prop :=
  (forall sub, factors_of (store w') sub = factors_of (store w) sub) /\ applied w' = applied w.

#[local] Instance same_factors_preorder : PreOrder same_factors.
Proof. split; [by split|]. intros x y z [H1 H2] [H3 H4]. split; [intros sub; by rewrite H3, H1|congruence]. Qed.

(** No other request in between. *)
Definition alone e : Prop := forall n s, others e n s = s.




















































(** ** The right code is accepted *)
(** What a KEK seals it opens, under its current key. *)
Definition honest (k : Sealing.KEK) : Prop := forall pt aad ct, Sealing.k_Seal k pt aad = Ok ct ->
  Sealing.k_Open k ct aad = Ok pt /\ Sealing.KeyIDOf k ct = Ok (Sealing.CurrentKeyID k).

Lemma Open_Seal k ref pt ct : honest k -> Sealing.Seal k ref pt = Ok ct -> Sealing.Open k ref ct = Ok (Sealing.mkOpened pt false).
Proof.
  intros Hk. unfold Sealing.Seal, Sealing.Open. destruct (Sealing.AAD ref) as [aad|]; [|done].
  destruct (Sealing.k_Seal k pt aad) as [c|] eqn:E; [|done]. intros [= <-]. destruct (Hk _ _ _ E) as [-> ->]. cbn.
  by rewrite bool_decide_eq_true_2.
Qed.

(** A request that fails is not answered 200. *)
Lemma fail_status err e w p : Httpx.As err = Some p -> p.1 <> 200 -> Httpx.a_status (fail err e w).2 <> 200.
Proof.
  intros Ha Hp. unfold fail, respond, Httpx.Fail, Httpx.writeProblem. rewrite Ha. destruct p as [st code]. cbn in *. done.
Qed.

(** What an enrollment that was answered 200 left behind. *)
Lemma enroll_200 issuer r a e w w' x : enroll uuid_String issuer r e w = (w', x) -> Httpx.a_status x = 200 -> current r = Ok a ->
  exists n m raw ref ct row, rand e n Totp.secretBytes = Ok raw /\ Sealing.TOTPSecret uuid_String (a_subject a) = Ok ref /\
    Sealing.Seal (kek e m) ref (Base32.encode raw) = Ok ct /\
    MfaMemory.totp (store w') !! a_subject a = Some row /\ Sealed (MfaMemory.enr row) = ct /\ Confirmed (MfaMemory.enr row) = false.
Proof.
  intros Hrun Hx Hr. assert (forall err p, Httpx.As err = Some p -> p.1 <> 200 -> forall w0, fail err e w0 = (w', x) -> False) as Hno.
  { intros err p Ha Hp w0 Hf. apply (fail_status err e w0 p Ha Hp). by rewrite Hf. }
  unfold enroll, or_fail in Hrun. prog. rewrite Hr in Hrun. cbn -[fail Httpx.Respond Totp.newSecret Sealing.TOTPSecret Sealing.Seal] in Hrun.
  destruct (match MfaMemory.GetTOTP _ _ _ with Ok _ => _ | Err _ => _ end) as [prev|err] eqn:Eg.
  2:{ exfalso. destruct (MfaMemory.GetTOTP _ _ _) as [en|e0]; [destruct (Confirmed en)|destruct (Is e0 ErrNotFound)]; simplify_eq;
      (eapply Hno; [| |exact Hrun]; [reflexivity|done]). }
  unfold draw in Hrun. cbn -[fail Httpx.Respond Totp.newSecret Sealing.TOTPSecret Sealing.Seal] in Hrun.
  destruct (rand e _ Totp.secretBytes) as [raw|e0] eqn:Erand; cbn -[fail Httpx.Respond Sealing.TOTPSecret Sealing.Seal] in Hrun.
  2:{ exfalso. eapply Hno; [| |exact Hrun]; [reflexivity|done]. }
  destruct (Sealing.TOTPSecret uuid_String (a_subject a)) as [ref|e0] eqn:Eref.
  2:{ exfalso. eapply Hno; [| |exact Hrun]; [reflexivity|done]. }
  rewrite str_bytes_str in Hrun. destruct (Sealing.Seal _ ref (Base32.encode raw)) as [ct|e0] eqn:Es.
  2:{ exfalso. eapply Hno; [| |exact Hrun]; [reflexivity|done]. }
  unfold now, on_store in Hrun. cbn -[fail Httpx.Respond MfaMemory.SaveTOTP] in Hrun.
  match type of Hrun with context [MfaMemory.SaveTOTP ?c ?clk ?en ?s] => destruct (MfaMemory.SaveTOTP c clk en s) as [s1 [[]|e0]] eqn:Esave end.
  2:{ exfalso. eapply Hno; [| |exact Hrun]; [reflexivity|done]. }
  cbn -[Httpx.Respond] in Hrun. unfold answer_with, respond in Hrun. destruct (Httpx.Respond _ _ _) as [o y]. injection Hrun as <- <-.
  do 2 eexists. exists raw, ref, ct. clear Eg. unfold MfaMemory.SaveTOTP in Esave.
  match type of Esave with context [ctx e ?n] => destruct (ctx e n); [done|] end.
  destruct (MfaMemory.checkEnrollment _); [done|]. injection Esave as <-. unfold MfaMemory.put. cbn [ESubject].
  destruct (MfaMemory.totp _ !! a_subject a) as [row|]; cbn [store MfaMemory.totp]; rewrite lookup_insert_eq; eexists; by split_and!.
Qed.

(** The code of a step of the window, later than every step used, is accepted while attempts are left. *)
Lemma verifyTOTP_accepts sub want row ref key step txt e w :
  MfaMemory.totp (store w) !! sub = Some row -> Confirmed (MfaMemory.enr row) = want -> Subject_IsZero sub = false ->
  0 <= FailedAttempts (MfaMemory.enr row) < MaxAttempts -> alone e -> (forall n, ctx e n = None) -> (forall n, clock e n <> 0) ->
  Sealing.TOTPSecret uuid_String sub = Ok ref ->
  (forall n, exists pt, Sealing.Open (kek e n) ref (Sealed (MfaMemory.enr row)) = Ok (Sealing.mkOpened pt false) /\
    Totp.decodeSecret UpperCase pt = Some key) ->
  (forall n, step ∈ Totp.steps (clock e n)) -> (forall n k, k ∈ Totp.steps (clock e n) -> LastUsedStep (MfaMemory.enr row) < k) ->
  str_bytes txt = Totp.hotp hmac_sha1 key (u64 step) ->
  okb (verifyTOTP_ sub txt want e w).2 = true.
Proof.
  intros Hrow Hc Hz Hf He Hctx Hclk Href Hopen Hst Hlast Htxt.
  assert (TrimSpace (str_bytes txt) = Totp.hotp hmac_sha1 key (u64 step)) as Hcode.
  { rewrite Htxt. apply TrimSpace_plain. destruct (Totp.hotp_digits hmac_sha1 key (u64 step)) as [_ Hd].
    eapply Forall_impl; [exact Hd|]. intros c Hdc. unfold Totp.digit in Hdc. split; [|lia]. unfold ascii_space. cbv zeta.
    repeat (apply orb_false_iff; split); lia. }
  unfold verifyTOTP. rewrite Hcode, Totp.hotp_wellFormed. cbn [negb]. prog. cbn. rewrite !He, Hctx. unfold MfaMemory.GetTOTP. rewrite Hrow.
  assert (Confirmed (MfaMemory.out row) = want) as ->.
  { rewrite <- Hc. unfold Confirmed, MfaMemory.out. cbn. by destruct (ConfirmedAt (MfaMemory.enr row)). }
  rewrite Bool.eqb_reflx. cbn [negb]. unfold lockout, now. prog. cbn. unfold on_store at 1. cbn. rewrite He, Hctx. unfold MfaMemory.IncrementTOTPAttempts.
  assert (MfaMemory.checkLockout (mkLockout sub (clock e (S (calls w))) MaxAttempts LockoutDuration) = None) as ->.
  { unfold MfaMemory.checkLockout. cbn. rewrite Hz. unfold time_IsZero. by rewrite (proj2 (Z.eqb_neq _ _) (Hclk _)). }
  cbn [LSubject]. rewrite Hrow. unfold MfaMemory.bump. cbn [MfaMemory.failed Max]. rewrite (proj2 (Z.ltb_lt _ _)) by lia.
  cbn [MfaMemory.failed MfaMemory.last]. rewrite (proj2 (Z.ltb_ge MaxAttempts _)) by lia.
  unfold openSecret. rewrite Href. prog. cbn [calls]. unfold MfaMemory.out. cbn [Sealed].
  match goal with |- context [Sealing.Open (kek e ?n) ref ?b] => destruct (Hopen n) as (pt & Ho & Hd); rewrite Ho end.
  cbn [Sealing.Stale Sealing.Plaintext]. rewrite Hd. cbn -[Totp.matchTOTP Totp.steps].
  match goal with |- context [Totp.matchTOTP hmac_sha1 key _ (clock e ?n)] =>
    destruct (Totp.matchTOTP_found hmac_sha1 key (clock e n) step (Hst n)) as (k & Hm & Hk); rewrite Hm; apply Hlast in Hk end.
  unfold on_store. cbn. rewrite He, Hctx. unfold MfaMemory.MarkTOTPUsed. cbn. rewrite lookup_insert_eq. cbn.
  by rewrite (proj2 (Z.leb_gt _ _)) by lia.
Qed.

(** C17: A new secret works.  One KEK seals and opens throughout and opens what it sealed.  When /mfa/totp/enroll answered
    200 to a session and twenty bytes were drawn, the store holds an unconfirmed enrollment of its subject.  Then a code that
    an authenticator computes from those bytes, for a step within one period of the clock, is accepted for confirmation by a
    call that finds the store as that run left it, which no other request changes, whose context stays alive and whose clock
    is set, as long as attempts are left on that enrollment and every step within one period of the clock is later than its
    LastUsedStep, which an enrollment replacing an earlier one keeps. *)
Theorem enrolled_secret_is_accepted issuer r a e w w' x k :
  enroll uuid_String issuer r e w = (w', x) -> Httpx.a_status x = 200 -> current r = Ok a -> Subject_IsZero (a_subject a) = false ->
  honest k -> (forall n, kek e n = k) -> (forall n raw, rand e n Totp.secretBytes = Ok raw -> length raw = 20%nat) ->
  exists raw n row, rand e n Totp.secretBytes = Ok raw /\
    MfaMemory.totp (store w') !! a_subject a = Some row /\ Confirmed (MfaMemory.enr row) = false /\
    forall e2 w2 txt step, store w2 = store w' -> alone e2 -> (forall n, ctx e2 n = None) -> (forall n, clock e2 n <> 0) ->
      (forall n, kek e2 n = k) -> 0 <= FailedAttempts (MfaMemory.enr row) < MaxAttempts ->
      (forall n, step ∈ Totp.steps (clock e2 n)) -> (forall n j, j ∈ Totp.steps (clock e2 n) -> LastUsedStep (MfaMemory.enr row) < j) ->
      str_bytes txt = Totp.hotp hmac_sha1 raw (u64 step) ->
      okb (verifyTOTP_ (a_subject a) txt false e2 w2).2 = true.
Proof.
  intros Hrun Hx Hr Hz Hk Hke Hraw.
  destruct (enroll_200 _ _ _ _ _ _ _ Hrun Hx Hr) as (n & m & raw & ref & ct & row & H1 & H2 & H3 & H4 & H5 & H6).
  exists raw, n, row. split_and!; [done..|]. intros e2 w2 txt step Hs He Hctx Hclk Hk2 Hf Hst Hlast Htxt.
  eapply verifyTOTP_accepts; try done; [by rewrite Hs|]. intros n2. exists (Base32.encode raw). rewrite Hk2, H5. split.
  - apply Open_Seal; [done|]. by rewrite <- (Hke m).
  - apply (Totp.decodeSecret_encode _ 4). rewrite (Hraw _ _ H1). done.
Qed.
End facts.

(** ** A sample service *)
#[local] Existing Instance EnrollmentSvc.passkey_PasskeyEnrollment.

Definition upper0 (r : Z) : Z := r.

Definition hmac0 (key msg : bytes) : bytes := List.rev msg ++ replicate 12 Byte.x00.

Definition sum0 (b : bytes) : bytes := b.

Definition uuid0 (u : uuid) : string := "u".

Definition kek0 : Sealing.KEK :=
  Sealing.mkKEK (fun pt _ => Ok (Byte.x01 :: pt)) (fun ct _ => match ct with c :: pt => Ok pt | [] => Err (New "short") end)
    "k" (fun _ => Ok "k").

Definition mfa_env (t : time) (others : nat -> MfaMemory.Store -> MfaMemory.Store) : env (P := PasskeyMemory.Store) :=
  mkEnv (fun _ => None) (fun _ => t) (fun n len => Ok (replicate (Z.to_nat len) (byte_of_Z (Z.of_nat n)))) (fun _ => kek0)
    (fun _ => PasskeyMemory.New_) (fun _ _ => Err ErrNotFound) (fun _ _ => Ok (Identity.mkApplied ada 4 []))
    (fun _ _ o => (o, None)) others 20.

Definition mfa_world (s : MfaMemory.Store) : world := mkWorld s [] (Http.mkResponse [] ∅) [] 0.

Definition mfa_request (fields : gmap string string) : Httpx.Request :=
  Httpx.mkRequest (Http.mkRequest [] [] [] []) acme fields true [] (Some (mkResumed session1 [] (mkHandle ada 98 12 []))) TransportCookies.

(** The six digits of the secret the first enrollment draws. *)
Definition code0 (t : time) : string :=
  bytes_str (Totp.hotp hmac0 (replicate 20 (byte_of_Z 1)) (Z.quot ((t - unix_epoch) / Second) Totp.totpPeriod)).

Definition t_enroll : time := now0 - 10 * Minute.

Definition enrolled0 := enroll uuid0 "Acme" (mfa_request ∅) (mfa_env t_enroll (fun _ s => s)) (mfa_world MfaMemory.NewWithClock).

Definition confirm0 (s : MfaMemory.Store) :=
  confirm upper0 hmac0 sum0 uuid0 (mfa_request {["code" := code0 t_enroll]}) (mfa_env t_enroll (fun _ s => s)) (mfa_world s).

Definition confirmed0 := confirm0 (store enrolled0.1).

Example confirmed0_ok : Httpx.a_status enrolled0.2 = 200 /\ Httpx.a_status confirmed0.2 = 200 /\
  MfaMemory.HasConfirmedTOTP None ada (store confirmed0.1) = Ok true.
Proof. split_and!; vm_compute; reflexivity. Qed.


Lemma mfa_env_contexts t o : contexts (mfa_env t o).
Proof. by intros n err. Qed.

(** The counter a login code uses after the confirmation. *)
Definition verify0 (t : time) (w : world) :=
  Verify upper0 hmac0 sum0 uuid0 ada FactorTOTP (code0 t) (mfa_env t (fun _ s => s)) w.

Definition login_a := verify0 (t_enroll + Minute) confirmed0.1.

Definition login_b := verify0 (t_enroll + 2 * Minute) login_a.1.

Lemma okb_run {A W} (x : W * res A) : okb x.2 = true -> exists v, x = (x.1, Ok v).
Proof. destruct x as [w [v|]]; [by exists v|done]. Qed.

Lemma second_factor_is_used_once_witness : exists k1 k2, k1 < k2.
Proof.
  destruct (okb_run login_a) as [v1 E1]; [vm_compute; reflexivity|]. destruct (okb_run login_b) as [v2 E2]; [vm_compute; reflexivity|].
  unfold login_a at 1, verify0 at 1 in E1. unfold login_b at 1, verify0 at 1 in E2.
  destruct (second_factor_is_used_once _ _ _ _ _ _ _ _ _ _ _ _ _ _ _ _ E1 E2) as [(_ & en1 & k1 & en2 & k2 & _ & _ & Hk)|[Hf _]].
  - done.
  - by intros k n s.
  - done.
  - intros h. by split; intros n s.
  - by exists k1, k2.
  - done.
Defined.

Definition wrong_guess : env (P := PasskeyMemory.Store) * string := (mfa_env (t_enroll + Minute) (fun _ s => s), "999999").

Lemma totp_guesses_are_bounded_witness :
  (length (List.filter wrong (zip (replicate 7 wrong_guess) (guesses upper0 hmac0 sum0 uuid0 ada (replicate 7 wrong_guess) confirmed0.1))) <= 5)%nat.
Proof.
  apply (totp_guesses_are_bounded upper0 hmac0 sum0 uuid0 ada t_enroll (replicate 7 wrong_guess) confirmed0.1).
  - apply Forall_replicate. split_and!; [apply mfa_env_contexts|intros n; split; by vm_compute|by intros j _ n s|by intros n].
  - destruct (MfaMemory.totp (store confirmed0.1) !! ada) as [row|] eqn:Er.
    + exists row. split; [done|]. apply (f_equal (fun x => (fun r => (Confirmed (MfaMemory.enr r), FailedAttempts (MfaMemory.enr r))) <$> x)) in Er.
      assert (((fun r => (Confirmed (MfaMemory.enr r), FailedAttempts (MfaMemory.enr r))) <$> (MfaMemory.totp (store confirmed0.1) !! ada))
        = Some (true, 0)) as E by (vm_compute; reflexivity).
      rewrite Er in E. injection E as -> ->. split_and!; [done|lia|lia].
    + exfalso. apply (f_equal (fun x : option MfaMemory.totpRow => if x then true else false)) in Er. by vm_compute in Er.
  - reflexivity.
  - vm_compute. repeat (apply List.Forall_cons; [reflexivity|]). apply List.Forall_nil.
Defined.


Lemma enrolled_secret_is_accepted_witness :
  exists row, MfaMemory.totp (store enrolled0.1) !! ada = Some row /\ Confirmed (MfaMemory.enr row) = false.
Proof.
  destruct (enrolled_secret_is_accepted upper0 hmac0 uuid0 "Acme" (mfa_request ∅) session1 (mfa_env t_enroll (fun _ s => s))
    (mfa_world MfaMemory.NewWithClock) enrolled0.1 enrolled0.2 kek0) as (raw & n & row & _ & Hr & Hc & _).
  - apply surjective_pairing.
  - vm_compute. reflexivity.
  - reflexivity.
  - vm_compute. reflexivity.
  - intros pt aad ct [= <-]. done.
  - done.
  - intros n raw [= <-]. reflexivity.
  - exists row. by split.
Defined.

(** A second /mfa/totp/enroll whose write lands after the confirmation of the first enrollment. *)
Definition late_enroll := enroll uuid0 "Acme" (mfa_request ∅)
  (mfa_env t_enroll (fun n s => if Nat.eqb n 4 then store (confirm0 s).1 else s)) (mfa_world (store enrolled0.1)).

(** A confirmed TOTP can be dropped by a concurrent enrollment.  The check that refuses to replace a
    confirmed TOTP and the write of the new secret are two store calls: in a concrete run of two requests
    of one session, /mfa/totp/confirm runs between them, both are answered 200, and afterwards the
    subject, who was told that TOTP is enabled and given recovery codes, has no confirmed TOTP, although
    no code was asked for to remove it. *)
Theorem concurrent_enroll_drops_a_confirmed_totp :
  Httpx.a_status (confirm0 (store enrolled0.1)).2 = 200 /\
  MfaMemory.HasConfirmedTOTP None ada (store (confirm0 (store enrolled0.1)).1) = Ok true /\
  Httpx.a_status late_enroll.2 = 200 /\
  MfaMemory.HasConfirmedTOTP None ada (store late_enroll.1) = Ok false.
Proof. split_and!; vm_compute; reflexivity. Qed.

(** What Verify gives is what a ceremony of internal/factors makes. *)
Lemma Verify_ceremony {P} `{EnrollmentSvc.PasskeyEnrollment P} UpperCase hmac_sha1 sha256 uuid_String sub f txt
    (e : env (P := P)) w w' v :
  Verify UpperCase hmac_sha1 sha256 uuid_String sub f txt e w = (w', Ok v) -> (forall n, 0 < clock e n) ->
  exists c t, run_ceremony c t = Ok v /\ v_subject v = sub /\ 0 < t.
Proof.
  intros (_ & _ & n & Hv)%Verify_Ok Hc.
  assert (v_subject v = sub) as Hs.
  { revert Hv. unfold Factors.TOTP, Factors.RecoveryCode, second, NewVerified. destruct (bool_decide _); cbn;
      destruct (_ || _); try done; by intros [= <-]. }
  destruct (bool_decide (f = FactorTOTP)); [exists (CTOTP sub), (clock e n)|exists (CRecoveryCode sub), (clock e n)];
    by split_and!.
Qed.
