(* ===== verification/IssuanceFacts.v ===== *)
(** What each step of an admission does to the response, the parked logins and the session backend. *)
From S2P Require Import Prelude Errors Tenant Factor Attrs Pending Transitions Codec StoreBase.
From S2P Require Import CeremonyKind Enrollment GoText Cookie Renewal Redirect Program.
From S2P Require Import Httpx Issuance VerifiedFacts SessionFacts.
From S2P Require Import Factors CeremonyStore CeremonyStoreFacts CeremonyProperties MfaSvc Flow.
Import Session Issuance.

(** ** Responses without a credential *)
(** A cookie that carries no session credential: one that is cleared, or the flow cookie. *)
Definition harmless (p : Cookie.Policy) (c : Http.Cookie) : Prop :=
  Http.Value c = "" /\ Http.MaxAge c = -1 \/ Http.Name c = Cookie.CookieName p Cookie.Flow.

(** The headers a bearer credential is given in. *)
Definition credential_headers : list string :=
  ["X-Egauth-Access-Token"; "X-Egauth-Refresh-Token"; "X-Egauth-Session-Token"].

(** [quiet p o o']: no session credential was written between [o] and [o']. *)
Definition quiet (p : Cookie.Policy) (o o' : Http.Response) : Prop :=
  (exists cs, Http.SetCookies o' = Http.SetCookies o ++ cs /\ Forall (harmless p) cs) /\
  Forall (fun k => Http.Header o' !! k = Http.Header o !! k) credential_headers.

#[export] Instance quiet_preorder p : PreOrder (quiet p).
Proof.
  split.
  - intros o. split; [exists []; by rewrite app_nil_r|by apply Forall_forall].
  - intros x y z [(a & E1 & Ha) H1] [(b & E2 & Hb) H2]. split.
    + exists (a ++ b). rewrite E2, E1, <- app_assoc. split; [done|by apply Forall_app].
    + rewrite Forall_forall in *. intros k Hk. by rewrite H2, H1.
Qed.

Lemma quiet_Clear p n o : quiet p o (Cookie.Clear p n o).
Proof.
  unfold Cookie.Clear. destruct (_ || _); [done|]. split; [|by apply Forall_forall].
  eexists. split; [done|]. by apply Forall_singleton; left.
Qed.

Lemma quiet_SetFlow p v k o : quiet p o (Cookie.SetFlow p v k o).1.
Proof.
  unfold Cookie.SetFlow, Cookie.setTTL. destruct (Cookie.check _ _ _ _); [done|].
  destruct (_ || _); [done|]. split; [|by apply Forall_forall].
  eexists. split; [done|]. by apply Forall_singleton; right.
Qed.

Lemma quiet_Header_Set p k v o : k ∉ credential_headers -> quiet p o (Http.Header_Set k v o).
Proof.
  intros Hk. split; [exists []; by rewrite app_nil_r|]. apply Forall_forall. intros k' Hk'. cbn.
  rewrite lookup_insert_ne; [done|]. intros ->. done.
Qed.

Lemma quiet_clear_all p o : quiet p o (clear_all p o).
Proof. unfold clear_all. cbn. etrans; [apply quiet_Clear|]. etrans; apply quiet_Clear. Qed.

#[export] Hint Resolve quiet_Clear quiet_SetFlow quiet_clear_all : issuance.

(** An answer carries no credential. *)
Lemma quiet_writeJSON p s b o : quiet p o (Httpx.writeJSON s b o).1.
Proof. apply quiet_Header_Set. vm_compute. set_solver. Qed.

Lemma quiet_secureHeaders p o : quiet p o (Httpx.secureHeaders o).
Proof. unfold Httpx.secureHeaders. etrans; apply quiet_Header_Set; vm_compute; set_solver. Qed.

Lemma quiet_respond p r t resp o : quiet p o (Httpx.respond r t resp o).1.
Proof.
  unfold Httpx.respond. etrans; [apply quiet_secureHeaders|]. destruct (_ && _ && _); [|apply quiet_writeJSON].
  apply quiet_Header_Set. vm_compute. set_solver.
Qed.

Lemma quiet_Fail p err o : quiet p o (Httpx.Fail err o).1.
Proof.
  unfold Httpx.Fail, Httpx.writeProblem. destruct (default _ _) as [s c]. etrans; [apply quiet_secureHeaders|apply quiet_writeJSON].
Qed.

(** ** The contract of a backend *)
(** A refused Start or Reissue writes nothing. *)
Class BackendLaws (B : Type) `{SessionBackend B} := {
  Start_refused a c b o b' o' err : tenant_wf (Tenant (a_subject a)) -> bk_Start a c b o = (b', o', Err err) -> o' = o;
  Reissue_refused h a b o b' o' err : tenant_wf (Tenant (a_subject a)) -> bk_Reissue h a b o = (b', o', Err err) -> o' = o }.

Section facts.
Context {F B T P : Type} `{FlowStore F, BackendLaws B, EnrollmentSvc.TOTPEnrollment T, EnrollmentSvc.PasskeyEnrollment P, NetURL}.
Context (sha256 : bytes -> bytes).
Implicit Types (e : env F B T P) (w : world F B) (i : Issuer).

(** A step that touches neither the parked logins nor the backend, and writes no credential. *)
Definition idle i w w' : Prop :=
  flows w' = flows w /\ back w' = back w /\ quiet (cookies i) (out w) (out w') /\ (calls w <= calls w')%nat.

Lemma idle_refl i w : idle i w w.
Proof. by split_and!. Qed.

Lemma clearSession_idle i r t e w : idle i w (clearSession i r t e w).1.
Proof.
  unfold clearSession. destruct (_ && _); [apply idle_refl|]. unfold respond. cbn.
  split_and!; [done|done|apply quiet_clear_all|done].
Qed.

Lemma landing_world t ret pg e w : (landing t ret pg e w).1 = w.
Proof. done. Qed.

#[local] Opaque CeremonyRec.NewRecord SealPending Add Admit Reauthenticate CeremonyCodec.EncodePayload Cookie.SetFlow offered.

(** [leave]: a program that has returned. *)
Ltac leave := intros [= <- <-]; cbn; split_and!; try done; try lia.

(** What a successful [putFlow] stored. *)
Record parks e w w' (p : Pending) (sub : Subject) (h : CeremonyCodec.Handle) : Prop := {
  pk_draw : exists n, rand e n = Ok (CeremonyCodec.h_raw h);
  pk_record : exists n m sealed payload rec k,
    CeremonyCodec.EncodePayload CeremonyCodec.MFAFlow () = Ok payload /\ SealPending p = Ok sealed /\
    CeremonyRec.NewRecord (CeremonyRec.mkSpec Ceremony_.MFAFlow (CeremonyCodec.Hash sha256 h) (CeremonyRec.SubjectScope sub)
      sealed payload (clock e n)) (Some CeremonyRec.openPending) = Ok rec /\
    fl_Put (ctx e m) (clock e m) rec (others e m (flows w)) = (flows w', Ok k) /\ n = Datatypes.S (calls w) /\ m = Datatypes.S n }.

Lemma putFlow_spec p sub e w w' x : putFlow sha256 p sub e w = (w', x) ->
  back w' = back w /\ out w' = out w /\ (calls w <= calls w')%nat /\
  match x with Ok h => parks e w w' p sub h | Err _ => True end.
Proof.
  unfold putFlow. prog. destruct (CeremonyCodec.EncodePayload _ _) as [payload|] eqn:Ep; cbn; [|by intros [= <- <-]].
  destruct (SealPending p) as [sealed|] eqn:Es; cbn; [|by intros [= <- <-]].
  unfold draw. destruct (rand e (calls w)) as [raw|] eqn:Er; cbn; [|leave].
  unfold now, tick. cbn. destruct (CeremonyRec.NewRecord _ _) as [rec|err] eqn:En; [|leave].
  unfold on_flows. cbn. destruct (fl_Put _ _ rec _) as [s [k|err]] eqn:Eput; cbn; leave. split; [by eexists|].
  exists (Datatypes.S (calls w)), (Datatypes.S (Datatypes.S (calls w))). do 4 eexists. by split_and!.
Qed.

(** Parking a login: the backend is left alone and no credential is written. *)
Lemma park_spec i r p needs e w w' x : park sha256 i r p needs e w = (w', x) ->
  back w' = back w /\ quiet (cookies i) (out w) (out w') /\ (calls w <= calls w')%nat /\
  match x with
  | Err _ => True
  | Ok resp =>
      (offered i needs flowFactors = [] /\ flows w' = flows w /\
       Httpx.R_Body resp = Httpx.mfaRequiredBody StateMFARequired [] "") \/
      (exists h w1, idle i w w1 /\ (exists w2, parks e w1 w2 p (p_subject p) h /\ flows w' = flows w2) /\
         (p_transport p = TransportCookies /\
            Httpx.R_Body resp = Httpx.mfaRequiredBody StateMFARequired (factorNames (offered i needs flowFactors)) "" /\
            out w' = (Cookie.SetFlow (cookies i) (CeremonyCodec.Encode h) Ceremony_.MFAFlow (out w1)).1 /\
            (Cookie.SetFlow (cookies i) (CeremonyCodec.Encode h) Ceremony_.MFAFlow (out w1)).2 = None \/
          p_transport p = TransportBearer /\ out w' = out w1 /\
            Httpx.R_Body resp = Httpx.mfaRequiredBody StateMFARequired (factorNames (offered i needs flowFactors))
              (CeremonyCodec.Encode h)))
  end.
Proof.
  unfold park. prog. pose proof (clearSession_idle i r (p_transport p) e w) as Hi.
  destruct (clearSession _ _ _ e w) as [w1 []]. cbn [fst] in Hi. pose proof Hi as (Hf & Hb & Hq & Hc).
  destruct (Z.of_nat (length (offered i needs flowFactors)) =? 0) eqn:E.
  { unfold emit. cbn. intros [= <- <-]. cbn. split_and!; [done|done|done|]. left. bools.
    assert (offered i needs flowFactors = []) as -> by by apply nil_length_inv; lia. done. }
  destruct (landing _ _ _ e w1) as [w1' l] eqn:El. pose proof (landing_world (Tenant (p_subject p)) "" (MFA (pages i)) e w1) as Hl.
  rewrite El in Hl. cbn in Hl. subst w1'. destruct l as [loc|err]; [|by intros [= <- <-]].
  destruct (putFlow sha256 p (p_subject p) e w1) as [w2 h] eqn:Ep.
  apply putFlow_spec in Ep as (Hb2 & Ho2 & Hc2 & Hh). destruct h as [h|err].
  2:{ intros [= <- <-]. split_and!; [congruence|by rewrite Ho2|lia|done]. }
  destruct (p_transport p =? TransportCookies) eqn:Et.
  - unfold respond, emit. pose proof (quiet_SetFlow (cookies i) (CeremonyCodec.Encode h) Ceremony_.MFAFlow (out w2)) as Hsf.
    destruct (Cookie.SetFlow _ _ _ (out w2)) as [o [err|]] eqn:Es; cbn; intros [= <- <-]; cbn in *.
    + split_and!; [congruence|etrans; [done|]; by rewrite <- Ho2|lia|done].
    + split_and!; [congruence|etrans; [done|]; by rewrite <- Ho2|lia|]. right. exists h, w1. split; [done|].
      split; [by exists w2|]. left. bools. rewrite <- Ho2, Es. done.
  - destruct (p_transport p =? TransportBearer) eqn:Et2; cbn; intros [= <- <-]; cbn.
    + split_and!; [congruence|by rewrite Ho2|lia|]. right. exists h, w1. split; [done|]. split; [by exists w2|]. right. by bools.
    + split_and!; [congruence|by rewrite Ho2|lia|done].
Qed.

(** [starts e w w' a]: the backend was asked to start a session for [a] and did; nothing else was
    written to the response. *)
Definition starts e w w' (a : SessionAttrs) : Prop :=
  exists n claims, (FetchClaims (asked e n) (a_subject a)).2 = Ok claims /\
    bk_Start a claims (sessions e (Datatypes.S n) (back w)) (out w) = (back w', out w', Ok tt).

Lemma start_spec i a e w w' x : start i a e w = (w', x) -> tenant_wf (Tenant (a_subject a)) ->
  flows w' = flows w /\ (calls w <= calls w')%nat /\
  match x with
  | Err _ => out w' = out w
  | Ok resp => starts e w w' a /\ Httpx.R_Body resp = Httpx.authenticatedBody StateAuthenticated (a_returnTo a)
  end.
Proof.
  intros Hst Htw. revert Hst. unfold start. prog. destruct (landing _ _ _ e w) as [w1 l] eqn:El.
  pose proof (landing_world (Tenant (a_subject a)) (a_returnTo a) (AfterLogin (pages i)) e w) as Hl.
  rewrite El in Hl. cbn in Hl. subst w1. destruct l as [loc|err]; [|leave].
  unfold fetch_claims. destruct (FetchClaims (asked e (calls w)) (a_subject a)) as [evs [claims|err]] eqn:Ef; cbn; [|leave].
  unfold on_backend. cbn. destruct (bk_Start a claims _ (out w)) as [[b o] [[]|err]] eqn:Es; cbn.
  - unfold emit. cbn. leave. exists (calls w), claims. by rewrite Ef.
  - leave. by eapply Start_refused.
Qed.

(** [admitted e w w' p v a]: the account, the decision and the verification were read and added as the
    code does, Admit gave the session [a], and the backend started it. *)
Definition admitted e w w' (p : Pending) (v : Verified) (a : SessionAttrs) : Prop :=
  exists n st bound m d lineage k t adm w1,
    accounts e n (v_subject v) = Ok st /\ Add p v st = Ok bound /\
    EnrollmentSvc.enrolled (ctx e m) (v_subject v) (EnrollmentSvc.mkEnrollment (totps e m) (passkeys e (Datatypes.S m))) = Ok d /\
    lineage = fresh e k /\ Admit lineage bound st d t = Ok adm /\ Session adm = Some a /\
    back w1 = back w /\ out w1 = out w /\ starts e w1 w' a.

(** [parked_body resp]: the answer of a login that still needs a factor. *)
Definition parked_body (resp : Httpx.Response) : Prop :=
  exists names flow, Httpx.R_Body resp = Httpx.mfaRequiredBody StateMFARequired names flow.

Lemma Complete_spec i r p v e w w' x : Complete sha256 i r p v e w = (w', x) -> tenant_wf (Httpx.tenant r) ->
  (calls w <= calls w')%nat /\
  ((quiet (cookies i) (out w) (out w') /\ match x with Ok resp => parked_body resp /\ back w' = back w | Err _ => True end) \/
   exists a resp, x = Ok resp /\ admitted e w w' p v a /\ flows w' = flows w /\
     Httpx.R_Body resp = Httpx.authenticatedBody StateAuthenticated (a_returnTo a)).
Proof.
  intros Hco Htw. revert Hco. unfold Complete. prog. destruct (_ || _) eqn:Et; [leave; by left|].
  apply orb_false_iff in Et as [_ Et]. apply negb_false_iff, bool_decide_eq_true in Et.
  unfold state. cbn. destruct (accounts e (calls w) (v_subject v)) as [st|err] eqn:Ea; cbn; [|leave; by left].
  destruct (Add p v st) as [bound|err] eqn:Eb; [|unfold refused, emit; cbn; leave; by left].
  unfold decision. cbn. destruct (EnrollmentSvc.enrolled _ _ _) as [d|err] eqn:Ed; cbn; [|leave; by left].
  unfold now, newID. cbn. destruct (Admit _ bound st d _) as [adm|err] eqn:Eadm; [|unfold refused, emit; cbn; leave; by left].
  destruct (Session adm) as [a|] eqn:Es.
  - assert (tenant_wf (Tenant (a_subject a))) as Hta.
    { destruct (Admit_session _ _ _ _ _ _ _ Eadm Es) as (_ & -> & _). cbn. apply Add_ok in Eb.
      by rewrite (ao_subject _ _ _ _ Eb), Et. }
    intros Hst%start_spec; [|done]. destruct Hst as (Hf & Hc & Hx). cbn in *. split; [lia|]. destruct x as [resp|err].
    + destruct Hx as [Hst Hb]. right. exists a, resp. split; [done|]. split; [|done].
      do 9 eexists. exists (mkWorld (flows w) (back w) (out w) (audit w) (events w) (4 + calls w)%nat).
      by split_and!.
    + left. by rewrite Hx.
  - destruct (default _ _) as [parked needs]. intros Hp%park_spec. cbn in Hp. destruct Hp as (Hb & Hq & Hc & Hx).
    split; [lia|]. left. split; [done|]. destruct x as [resp|]; [|done].
    destruct Hx as [(_ & _ & ?)|(h & w1 & _ & _ & [(_ & ? & _)|(_ & _ & ?)])]; (split; [by do 2 eexists|done]).
Qed.
End facts.

(** ** The second step of a login: what a handler of internal/flow did when it gave a credential, and that a
    parked login is finished once. *)

Import Session Flow.

(** ** The contract of the flow store *)
(** [fl_gone s t h]: no parked login of tenant [t] is kept under the digest [h].  [fl_all Q s]: every
    parked login is sealed bytes that satisfy [Q]. *)
Class FlowLaws (F : Type) `{FlowStore F} := {
  fl_inv : F -> Prop;
  fl_gone : F -> TenantID -> bytes -> Prop;
  fl_Peek_gone c clk t h s : fl_gone s t h -> okb (fl_Peek c clk t Ceremony_.MFAFlow h s) = false;
  fl_Consume_gone c clk t h s s' rec : fl_inv s ->
    fl_Consume c clk t Ceremony_.MFAFlow h s = (s', Ok rec) -> fl_gone s' t h;
  fl_Consume_inv c clk t h s : fl_inv s -> fl_inv (fl_Consume c clk t Ceremony_.MFAFlow h s).1;
  fl_all : (Sealed -> Prop) -> F -> Prop;
  fl_Peek_all Q c clk t h s rec : fl_all Q s -> fl_Peek c clk t Ceremony_.MFAFlow h s = Ok rec -> Q (CeremonyRec.r_Pending rec);
  fl_Put_all Q c clk rec s : fl_all Q s -> Q (CeremonyRec.r_Pending rec) -> fl_all Q (fl_Put c clk rec s).1;
  fl_Consume_all Q c clk t h s : fl_all Q s -> fl_all Q (fl_Consume c clk t Ceremony_.MFAFlow h s).1;
  fl_Put_Peek c clk rec s s' n clk' : fl_inv s -> fl_Put c clk rec s = (s', Ok n) -> Microsecond <= CeremonyRec.createdAt rec ->
    CeremonyRec.createdAt rec <= clk' < time_Truncate (CeremonyRec.expiresAt rec) Microsecond ->
    exists rec', fl_Peek None clk' (CeremonyRec.tenant rec) (CeremonyRec.kind rec) (CeremonyRec.handleHash rec) s' = Ok rec' /\
      CeremonyRec.r_Pending rec' = CeremonyRec.r_Pending rec /\ CeremonyRec.tenant rec' = CeremonyRec.tenant rec /\
      CeremonyRec.kind rec' = CeremonyRec.kind rec /\ CeremonyRec.scopeHash rec' = CeremonyRec.scopeHash rec }.

(** ** The in-memory store *)
Module MemoryFlows.
Import CeremonyRec CeremonyMemory Ceremony_.

#[export] Instance memory_flows : FlowStore Store := {|
  fl_Put := Put; fl_Peek := Peek; fl_Consume := Consume; fl_RecordFailure := RecordFailure |}.

(** [inv s]: the store is consistent and its insertion counter does not wrap at the next Put. *)
Definition inv (s : Store) : Prop := store_inv s /\ seq s < two64 - 1.

Definition all (Q : Sealed -> Prop) (s : Store) : Prop :=
  forall k e, rows s !! k = Some e -> k.1.2 = MFAFlow -> Q (RPending (row e)).

Lemma Put_Ok ctx clk r s s' n : Put ctx clk r s = (s', Ok n) ->
  ctx = None /\ Validate r = None /\ s' = (put_result r clk s).1.
Proof.
  destruct ctx; [done|]. destruct (Validate r) eqn:Hv; [unfold Put; by rewrite Hv|].
  rewrite Put_steps by done. fold (put_result r clk s). cbv zeta. intros Hp. split_and!; [done..|].
  destruct (rows s !! put_key r); [destruct (time_After _ _)|]; congruence.
Qed.

Lemma put_result_at r clk s k e : rows (put_result r clk s).1 !! k = Some e ->
  rows s !! k = Some e \/ row e = stored_row r.
Proof.
  destruct (decide (k = put_key r)) as [->|Hk]; [|left; by eapply put_result_le].
  unfold put_result. intros He%put_tenant_le%put_scope_le. right.
  rewrite put_insert_row, lookup_insert_eq in He. by injection He as <-.
Qed.

Lemma Put_all Q ctx clk r s : all Q s -> Q (r_Pending r) -> all Q (Put ctx clk r s).1.
Proof.
  intros Ha Hq. destruct (Put ctx clk r s) as [s' [n|err]] eqn:E; cbn.
  - apply Put_Ok in E as (_ & _ & ->). intros k e He Hk. apply put_result_at in He as [He| ->]; [by eapply Ha|done].
  - assert (s' = s) as ->; [|done]. revert E. unfold Put. repeat case_match; congruence.
Qed.

Lemma Consume_all Q ctx clk t h s : all Q s -> all Q (Consume ctx clk t MFAFlow h s).1.
Proof.
  intros Ha. unfold Consume. repeat case_match; try done. cbn. intros k' e' He. rewrite rows_remove in He.
  apply lookup_delete_Some in He as [_ He]. by apply Ha.
Qed.

Lemma Peek_Ok ctx clk t k h s rec : Peek ctx clk t k h s = Ok rec ->
  exists e, rows s !! (t, k, h) = Some e /\ r_Pending rec = RPending (row e).
Proof.
  unfold Peek. destruct ctx; [done|]. unfold lookupKey. destruct (_ <? _); [done|]. cbn.
  destruct (live (t, k, h) clk s) as [e|] eqn:El; [|done]. apply live_Some in El as [He _]. unfold Restore.
  destruct (checkRow (row e)); [done|]. intros [= <-]. by exists e.
Qed.

Lemma Put_Peek c clk r s s' n clk' : inv s -> Put c clk r s = (s', Ok n) -> Microsecond <= createdAt r ->
  createdAt r <= clk' < time_Truncate (expiresAt r) Microsecond ->
  exists r', Peek None clk' (tenant r) (kind r) (handleHash r) s' = Ok r' /\
    r_Pending r' = r_Pending r /\ tenant r' = tenant r /\ kind r' = kind r /\ scopeHash r' = scopeHash r.
Proof.
  intros [Hs Hq] (-> & Hv & ->)%Put_Ok Hus Hclk. pose proof (put_result_row r clk s Hs Hq Hv) as Hrow. unfold put_key in Hrow.
  pose proof (stored_row_ok r Hv) as Hok. pose proof (proj2 (proj1 (Validate_None r) Hv)) as Hck.
  apply checkRow_None in Hck. simpl in Hck.
  assert (lookupKey (tenant r) (kind r) (handleHash r) = Ok (tenant r, kind r, handleHash r)) as Elk
    by (apply lookupKey_Ok; split; [lia|done]).
  assert (checkRow (stored_row r) = None) as Hck'.
  { apply checkRow_None. unfold stored_ok in Hok. unfold stored_row in *. simpl in *.
    pose proof (time_Truncate_le (createdAt r) Microsecond).
    assert (0 < time_Truncate (createdAt r) Microsecond) as Hpos by (by apply truncate_pos).
    destruct_and!. split_and!; done || lia. }
  unfold Peek. rewrite Elk. cbn [mbind res_bind]. rewrite (proj2 (live_Some _ clk' _ _) (conj Hrow (proj2 Hclk))). cbn [row].
  unfold Restore. rewrite Hck'. by eexists.
Qed.

#[export] Program Instance memory_flow_laws : FlowLaws Store := {|
  fl_inv := inv;
  fl_gone s t h := rows s !! (t, MFAFlow, h) = None;
  fl_all := all |}.
Next Obligation.
  intros c clk t h s Hg. cbn. unfold Peek. destruct c; [done|]. destruct (lookupKey t MFAFlow h) as [kk|] eqn:E; [|done].
  apply lookupKey_Ok in E as [_ ->]. cbn. unfold live. by rewrite Hg.
Qed.
Next Obligation.
  intros c clk t h s s' rec [Hs _] Hc. cbn in Hc. unfold Consume in Hc. destruct c; [done|].
  destruct (lookupKey t MFAFlow h) as [kk|] eqn:E; [|done]. apply lookupKey_Ok in E as [_ ->].
  destruct (live _ _ _); [|done]. injection Hc as <- _. rewrite rows_remove. apply lookup_delete_eq.
Qed.
Next Obligation.
  intros c clk t h s [Hs Hq]. cbn. unfold Consume. repeat case_match; try done. cbn.
  split; [by apply remove_inv|]. by rewrite (proj1 (remove_same _ _)).
Qed.
Next Obligation. intros Q c clk t h s rec Ha (e & He & ->)%Peek_Ok. by apply (Ha _ _ He). Qed.
Next Obligation. intros. by apply Put_all. Qed.
Next Obligation. intros. by apply Consume_all. Qed.
Next Obligation. intros. by eapply Put_Peek. Qed.
End MemoryFlows.

Section facts.
Context {F B T P : Type} `{FlowLaws F, BackendLaws B, EnrollmentSvc.TOTPEnrollment T, EnrollmentSvc.PasskeyEnrollment P, NetURL}.
Context (sha256 : bytes -> bytes).
Implicit Types (e : Issuance.env F B T P) (w : Issuance.world F B) (h : handlers).

(** The issuer and the flow service write cookies under one policy. *)
Definition wired h : Prop := s_cookies (service h) = Issuance.cookies (issuer h).

(** Other requests leave the store consistent. *)
Definition fair e : Prop := forall n s, fl_inv s -> fl_inv (Issuance.others e n s).

Abbreviation pol h := (s_cookies (service h)).

(** A step that leaves the backend alone and writes no credential. *)
Definition idles h w w' : Prop :=
  Issuance.back w' = Issuance.back w /\ quiet (pol h) (Issuance.out w) (Issuance.out w').

#[export] Instance idles_preorder h : PreOrder (idles h).
Proof.
  split; [by intros w|]. intros x y z [? ?] [? ?]. split; [congruence|by etrans].
Qed.

Lemma dropCookie_spec h from e w :
  Issuance.flows (dropCookie h from e w).1 = Issuance.flows w /\ idles h w (dropCookie h from e w).1.
Proof.
  unfold dropCookie. destruct from; [|done]. unfold Issuance.respond. cbn. split; [done|]. split; [done|apply quiet_Clear].
Qed.

(** [opened h r e w f]: the parked login [f] is the record found under the handle presented, for the
    tenant of the request and on the transport sealed in it. *)
Record opened h (r : Httpx.Request) e w (f : parked) : Prop := {
  op_presented : presented (service h) r = (fromCookie f, Ok (handle f));
  op_record : exists rec, fl_Peek (Issuance.ctx e (Issuance.calls w)) (Issuance.clock e (Issuance.calls w)) (Httpx.tenant r)
      Ceremony_.MFAFlow (hash_of sha256 (handle f)) (Issuance.others e (Issuance.calls w) (Issuance.flows w)) = Ok rec /\
    CeremonyRec.r_Pending rec = sealed f;
  op_pending : UnsealPending (sealed f) = Ok (pending f);
  op_subject : subject f = p_subject (pending f);
  op_bound : Bound (pending f) = true;
  op_login : p_reauthOf (pending f) = uuid_Nil;
  op_tenant : p_tenant (pending f) = Httpx.tenant r;
  op_transport : (p_transport (pending f) =? TransportCookies) = fromCookie f }.

Lemma open_spec h r e w w' x : open sha256 h r e w = (w', x) -> fair e ->
  idles h w w' /\ (fl_inv (Issuance.flows w) -> fl_inv (Issuance.flows w')) /\
  match x with Ok f => opened h r e w f | Err _ => True end.
Proof.
  intros Ho Hf. unfold open in Ho. destruct (presented (service h) r) as [from [hd|err]] eqn:Ep.
  2:{ prog. destruct (dropCookie_spec h from e w) as [Hfl Hi]. destruct (dropCookie h from e w) as [w1 []].
      injection Ho as <- <-. cbn in *. rewrite Hfl. done. }
  unfold Issuance.on_flows in Ho. prog. cbn in Ho.
  set (w1 := Issuance.tick _) in Ho. assert (idles h w w1 /\ (fl_inv (Issuance.flows w) -> fl_inv (Issuance.flows w1))) as [Hi Hinv].
  { split; [done|]. cbn. apply Hf. }
  destruct (fl_Peek _ _ _ _ _ _) as [rec|err] eqn:Erec.
  2:{ destruct (Is err ErrNotFound); [|by injection Ho as <- <-].
      destruct (dropCookie_spec h from e w1) as [Hfl Hi2]. destruct (dropCookie h from e w1) as [w2 []].
      injection Ho as <- <-. cbn [fst] in *. rewrite Hfl. split_and!; [by etrans|done|done]. }
  destruct (UnsealPending (CeremonyRec.r_Pending rec)) as [p|] eqn:Eu; [|by injection Ho as <- <-].
  destruct (_ || _) eqn:Eg; [by injection Ho as <- <-|]. destruct (negb (Bool.eqb _ _)) eqn:Et; [by injection Ho as <- <-|].
  injection Ho as <- <-. split_and!; [done|done|]. bools. apply Bool.eqb_prop in Et.
  split; cbn; try done. by exists rec.
Qed.

(** [consumed h r e f s]: the record of [f] was taken out of the store, unchanged, leaving [s]. *)
Definition consumed (r : Httpx.Request) e (f : parked) (s' : F) : Prop :=
  exists n s rec, fl_inv s /\
    fl_Consume (Issuance.ctx e n) (Issuance.clock e n) (Httpx.tenant r) Ceremony_.MFAFlow (hash_of sha256 (handle f)) s = (s', Ok rec) /\
    CeremonyRec.r_Pending rec = sealed f.

Lemma finish_spec h r f v e w w' x : finish sha256 h r f v e w = (w', x) -> fair e -> wired h -> tenant_wf (Httpx.tenant r) ->
  fl_inv (Issuance.flows w) ->
  quiet (pol h) (Issuance.out w) (Issuance.out w') \/
  exists a w1, idles h w w1 /\ consumed r e f (Issuance.flows w') /\ admitted e w1 w' (pending f) v a.
Proof.
  intros Hf Hfair Hw Htw Hinv. unfold finish, Issuance.on_flows in Hf. prog.
  destruct (fl_Consume _ _ _ _ _ _) as [s [rec|err]] eqn:Ec; cbn [fst snd] in Hf.
  2:{ destruct (Is err ErrNotFound); [|left; by injection Hf as <- <-].
      match type of Hf with context [dropCookie h ?f e ?w0] => destruct (dropCookie_spec h f e w0) as [_ [_ Hq]];
        destruct (dropCookie h f e w0) as [w2 []] end.
      injection Hf as <- <-. left. done. }
  match type of Hf with context [dropCookie h ?f e ?w0] => destruct (dropCookie_spec h f e w0) as [Hfl Hi];
    destruct (dropCookie h f e w0) as [w2 []] end.
  cbn [fst] in *. destruct (negb (bool_decide _)) eqn:Eb; [injection Hf as <- <-; left; by destruct Hi|]. bools.
  apply Complete_spec in Hf as [_ [[Hq _]|(a & resp & _ & Ha & Hfl2 & _)]]; [| |done].
  - left. rewrite <- Hw in Hq. etrans; [|done]. by destruct Hi.
  - right. exists a, w2. split; [by destruct Hi|]. split; [|done]. rewrite Hfl2, Hfl. cbn.
    eexists _, _, rec. split_and!; [|done|done]. by apply Hfair.
Qed.

(** [finished h r e w w' f v a]: the parked login [f] was opened, the verification [v] added to it, its
    record consumed, and the session [a] admitted and started. *)
Record finished h r e w w' (f : parked) (v : Verified) (a : SessionAttrs) : Prop := {
  fi_open : opened h r e w f;
  fi_consumed : consumed r e f (Issuance.flows w');
  fi_admitted : exists w1 w2, idles h w w1 /\ admitted e w1 w2 (pending f) v a /\ idles h w2 w' }.

(** The end of a handler once the second factor is verified. *)
Lemma finish_answer h r f v factor e w0 w w' x : opened h r e w0 f -> idles h w0 w -> fl_inv (Issuance.flows w) ->
  fair e -> wired h -> tenant_wf (Httpx.tenant r) ->
  or_fail (finish sha256 h r f v) (fun resp =>
    _ ← verified (subject f) factor; Issuance.respond (Httpx.RespondPending r (pending f) resp)) e w = (w', x) ->
  quiet (pol h) (Issuance.out w0) (Issuance.out w') \/ exists a, finished h r e w0 w' f v a.
Proof.
  intros Ho Hi Hinv Hfair Hw Htw. unfold or_fail. prog. destruct (finish sha256 h r f v e w) as [w1 y] eqn:Ef.
  apply finish_spec in Ef; [|done..]. unfold fail, verified, Issuance.emit, Issuance.respond. cbn.
  destruct y as [resp|err]; cbn.
  - pose proof (quiet_respond (pol h) r (p_transport (pending f)) resp (Issuance.out w1)) as Hr.
    unfold Httpx.RespondPending. destruct (Httpx.respond r _ resp (Issuance.out w1)) as [o ans]. intros [= <- <-]. cbn in *.
    destruct Ef as [Hq|(a & wa & Hia & Hc & Ha)].
    + left. etrans; [by destruct Hi|]. by etrans.
    + right. exists a. split; [done|done|]. exists wa, w1. split_and!; [by etrans|done|done].
  - pose proof (quiet_Fail (pol h) err (Issuance.out w1)) as Hr. unfold Httpx.Fail in *.
    destruct (Httpx.writeProblem err (Issuance.out w1)) as [o ans]. intros [= <- <-]. cbn in *.
    destruct Ef as [Hq|(a & wa & Hia & Hc & Ha)].
    + left. etrans; [by destruct Hi|]. by etrans.
    + right. exists a. split; [done|done|]. exists wa, w1. split_and!; [by etrans|done|done].
Qed.

Lemma fail_quiet h err e w : idles h w (fail err e w).1.
Proof.
  unfold fail, Issuance.respond. pose proof (quiet_Fail (pol h) err (Issuance.out w)) as Hr.
  destruct (Httpx.Fail err (Issuance.out w)) as [o ans]. done.
Qed.

Lemma charge_quiet h r f e w : idles h w (charge sha256 h r f e w).1.
Proof.
  unfold charge, Issuance.on_flows. prog. destruct (fl_RecordFailure _ _ _ _ _ _) as [s [n|err]]; cbn; [|done].
  destruct (n <=? 0); [|done].
  match goal with |- context [dropCookie h ?f e ?w0] => by destruct (dropCookie_spec h f e w0) as [_ [? ?]] end.
Qed.

(** What a handler gave a credential for. *)
Lemma challenge_spec h r e w w' x : challenge sha256 h r e w = (w', x) -> fair e -> wired h -> tenant_wf (Httpx.tenant r) -> fl_inv (Issuance.flows w) ->
  quiet (pol h) (Issuance.out w) (Issuance.out w') \/
  exists f v a factor verify n, finished h r e w w' f v a /\ second (service h) = Some verify /\
    MfaSvc.ParseFactor (Httpx.Field r "factor") = Ok factor /\ verify n (subject f) factor (Httpx.Field r "code") = Ok v.
Proof.
  intros Hc Hfair Hw Htw Hinv. unfold challenge, or_fail at 1 in Hc. prog.
  destruct (MfaSvc.ParseFactor (Httpx.Field r "factor")) as [factor|err] eqn:Ep.
  2:{ left. destruct (fail_quiet h err e w) as [_ Hq]. by rewrite Hc in Hq. }
  unfold or_fail at 1 in Hc. prog. destruct (open sha256 h r e w) as [w1 [f|err]] eqn:Eo.
  2:{ left. apply open_spec in Eo as ((_ & Hq1) & _); [|done]. destruct (fail_quiet h err e w1) as [_ Hq]. rewrite Hc in Hq. by etrans. }
  apply open_spec in Eo as (Hi & Hinv1 & Hop); [|done]. destruct (second (service h)) as [verify|] eqn:Es.
  2:{ left. destruct (fail_quiet h NilPanic e w1) as [_ Hq]. rewrite Hc in Hq. etrans; [by destruct Hi|done]. }
  unfold call in Hc. cbn in Hc. set (w2 := Issuance.tick w1) in Hc.
  assert (idles h w w2 /\ fl_inv (Issuance.flows w2)) as [Hi2 Hinv2] by (split; [by destruct Hi|by apply Hinv1]).
  destruct (verify _ _ _ _) as [v|err] eqn:Ev.
  - destruct (finish_answer h r f v factor e w w2 w' x Hop Hi2 Hinv2 Hfair Hw Htw Hc) as [Hq|[a Ha]]; [by left|].
    right. by eexists f, v, a, factor, verify, _.
  - left. destruct (Is err ErrInvalidCode || Is err ErrTooManyAttempts).
    + destruct (charge_quiet h r f e w2) as [_ Hq2]. destruct (charge sha256 h r f e w2) as [w3 []].
      destruct (fail_quiet h err e w3) as [_ Hq]. rewrite Hc in Hq. cbn in *. etrans; [by destruct Hi2|]. by etrans.
    + destruct (fail_quiet h err e w2) as [_ Hq]. rewrite Hc in Hq. etrans; [by destruct Hi2|done].
Qed.

Lemma passkeyFinish_spec h r e w w' x : passkeyFinish sha256 h r e w = (w', x) -> fair e -> wired h -> tenant_wf (Httpx.tenant r) -> fl_inv (Issuance.flows w) ->
  quiet (pol h) (Issuance.out w) (Issuance.out w') \/
  exists f v a su n p, finished h r e w w' f v a /\ stepUp (service h) = Some su /\
    FinishStepUp su n (Httpx.tenant r) (Httpx.Field r "handle") (Httpx.WebAuthnBody r) = Ok (p, v) /\
    SealPending p = Ok (sealed f).
Proof.
  intros Hc Hfair Hw Htw Hinv. unfold passkeyFinish, or_fail at 1 in Hc. prog.
  destruct (open sha256 h r e w) as [w1 [f|err]] eqn:Eo.
  2:{ left. apply open_spec in Eo as ((_ & Hq1) & _); [|done]. destruct (fail_quiet h err e w1) as [_ Hq]. rewrite Hc in Hq. by etrans. }
  apply open_spec in Eo as (Hi & Hinv1 & Hop); [|done]. destruct (stepUp (service h)) as [su|] eqn:Es.
  2:{ left. destruct (fail_quiet h NilPanic e w1) as [_ Hq]. rewrite Hc in Hq. etrans; [by destruct Hi|done]. }
  unfold call in Hc. cbn in Hc. set (w2 := Issuance.tick w1) in Hc.
  assert (idles h w w2 /\ fl_inv (Issuance.flows w2)) as [Hi2 Hinv2] by (split; [by destruct Hi|by apply Hinv1]).
  assert (forall err, fail err e w2 = (w', x) -> quiet (pol h) (Issuance.out w) (Issuance.out w')) as Hfail.
  { intros err Hx. destruct (fail_quiet h err e w2) as [_ Hq]. rewrite Hx in Hq. etrans; [by destruct Hi2|done]. }
  destruct (FinishStepUp _ _ _ _ _) as [[p v]|err] eqn:Ev.
  - destruct (SealPending p) as [s|err] eqn:Esl; [|left; by eapply Hfail].
    destruct (negb (bool_decide _)) eqn:Eb; [left; by eapply Hfail|]. bools. subst s.
    destruct (finish_answer h r f v FactorPasskeyStepUp e w w2 w' x Hop Hi2 Hinv2 Hfair Hw Htw Hc) as [Hq|[a Ha]]; [by left|].
    right. by eexists f, v, a, su, _, p.
  - left. destruct (Is err ErrPasskeyRejected); [|by eapply Hfail].
    destruct (charge_quiet h r f e w2) as [_ Hq2]. destruct (charge sha256 h r f e w2) as [w3 []].
    destruct (fail_quiet h err e w3) as [_ Hq]. rewrite Hc in Hq. cbn in *. etrans; [by destruct Hi2|]. by etrans.
Qed.
End facts.
