(* ===== verification/FlowProperties.v ===== *)
(** The guarantees of a login in two steps: issuance and flow over the ceremony store and a session
    backend. *)
From S2P Require Import Prelude Errors Tenant Factor Attrs Pending Transitions Factors Codec StoreBase.
From S2P Require Import VerifiedFacts SessionFacts CodecFacts Journey CoreProperties.
From S2P Require Import CeremonyKind CeremonyStore CeremonyStoreFacts CeremonyProperties.
From S2P Require Import PasskeyStore PasskeyProperties MfaStore MfaProperties Enrollment GoText Cookie Renewal Redirect Program.
From S2P Require Import SessionRecord SessionStore Lru Revocation Stateful StatefulFacts StatefulProperties.
From S2P Require Import Httpx Issuance Totp MfaSvc MfaSvcProperties Flow IssuanceFacts.
Import Session Flow.

(** ** The stateful backend behind issuance *)
Section stateful.
Context {S A : Type} `{SessionsStore S, Epochs.EpochSource A} (sha256 : bytes -> bytes) (b : Stateful.Backend).

Definition with_out (o : Http.Response) (w : Stateful.world S) : Stateful.world S :=
  Stateful.mkWorld (Stateful.sess w) (Stateful.epochs w) o (Stateful.events w) (Stateful.calls w).

Definition stateful_call (m : Program.M (Stateful.env S A) (Stateful.world S) (res unit))
    (x : Stateful.env S A * Stateful.world S) (o : Http.Response)
  : Stateful.env S A * Stateful.world S * Http.Response * res unit :=
  let '(w', r) := m x.1 (with_out o x.2) in ((x.1, w'), Stateful.out w', r).

Definition stateful_backend : SessionBackend (Stateful.env S A * Stateful.world S) := {|
  bk_Start a c := stateful_call (Stateful.Start sha256 b a c);
  bk_Reissue h a := stateful_call (Stateful.Reissue sha256 b h a) |}.

Lemma stateful_laws : @BackendLaws _ stateful_backend.
Proof.
  split; intros x y z o z' o' err _; unfold bk_Start, bk_Reissue; cbn; unfold stateful_call;
    match goal with |- context [let '(_, _) := ?m in _] => destruct m as [w r] eqn:E end; intros [= <- <- ->].
  - by apply Start_Err in E.
  - by apply Reissue_Err in E.
Qed.
End stateful.

(** ** Genuine parked logins *)
(** [genuine s]: sealed bytes of a journey. *)
Definition genuine (s : Sealed) : Prop := exists p, journey p /\ SealPending p = Ok s.

Lemma genuine_journey s p : genuine s -> UnsealPending s = Ok p -> journey p.
Proof. intros (q & Hq & Hs) Hu. rewrite (UnsealPending_SealPending q s) in Hu by (by try apply journey_wf). by injection Hu as <-. Qed.

(** A verification as a ceremony of internal/factors makes it, for a subject of the identity store. *)
Definition proven (v : Verified) : Prop :=
  exists c t, run_ceremony c t = Ok v /\ subject_wf (v_subject v) /\ 0 < t.

(** The journey holds a passkey ceremony with user verification, or a primary factor in one ceremony and
    a second factor in another that did not use the same credential. *)
Definition both_factors (p : Pending) : Prop :=
  (exists v, v ∈ p_verified p /\ FactorPasskey ∈ v_factors v /\ FactorUserVerification ∈ v_factors v) \/
  (exists v1 v2, v1 ∈ p_verified p /\ v2 ∈ p_verified p /\
     hasRole (v_factors v1) RolePrimary = true /\ hasRole (v_factors v2) RoleSecond = true /\
     hasRole (v_factors v2) RolePrimary = false /\
     (v_credentialID v1 = [] \/ v_credentialID v1 <> v_credentialID v2)).

Section properties.
Context {F B T P : Type} `{FlowLaws F, BackendLaws B, EnrollmentSvc.TOTPEnrollment T, EnrollmentSvc.PasskeyEnrollment P, NetURL}.
Context (sha256 : bytes -> bytes).
Implicit Types (e : Issuance.env F B T P) (w : Issuance.world F B) (h : handlers).

(** The account store gives uint64 epochs. *)
Definition sane e : Prop := forall n s st, Issuance.accounts e n s = Ok st -> is_u64 (epoch st).

(** The factor stores the environment reads have an enrollment of [sub] at every instant. *)
Definition always_enrolled e (sub : Subject) : Prop :=
  (forall n, EnrollmentSvc.totp_confirmed (Issuance.totps e n) sub) \/
  (forall n, EnrollmentSvc.passkey_active (Issuance.passkeys e n) sub).

(** What an admission says of the journey that was completed. *)
Lemma admitted_facts e w w' p v a : admitted e w w' p v a -> journey p -> proven v -> sane e ->
  exists bound st, Add p v st = Ok bound /\ journey bound /\ a_subject a = v_subject v /\ a_factors a = factorSet bound /\
    a_epoch a = epoch st /\ Usable st = true /\
    (Bound p = true -> v_subject v = p_subject p) /\ a_transport a = p_transport p /\
    (always_enrolled e (v_subject v) -> both_factors bound).
Proof.
  intros (n & st & bound & m & d & lin & k & t & adm & w1 & Hst & Hadd & Hd & _ & Hadm & Hs & _) Hj (c & t0 & Hc & Hsub & Ht) Hsane.
  assert (journey bound) as Hjb by (eapply journey_step, step_add; eauto).
  exists bound, st. destruct (Admit_session _ _ _ _ _ _ _ Hadm Hs) as (Hok & -> & Hmf). cbn [a_subject a_factors a_epoch a_transport SessionFacts.admitted].
  pose proof (Add_ok _ _ _ _ Hadd) as Hao.
  split_and!; [done|done|by rewrite (ao_subject _ _ _ _ Hao)|done|done|by apply (adm_usable _ _ _ _ Hok)| | |].
  - intros Hb. destruct (ao_bind _ _ _ _ Hao) as [(? & _)|(_ & ? & _)]; [congruence|done].
  - destruct Hao as [_ _ _ _ _ _ _ _ _ Hf]. destruct_and!. congruence.
  - intros Henr. apply multiFactor_ceremonies; [by apply journey_wf|]. apply Hmf.
    destruct (EnrollmentSvc.enrolled_Ok _ _ _ _ Hd) as (_ & Hreq & _). apply Hreq. cbn. destruct Henr as [Hx|Hx]; auto.
Qed.

(** C7: A credential comes out of the second step only for both factors.  Whatever other requests do,
    when /mfa/challenge or /mfa/passkey/finish writes a session credential, the parked login it
    presented was found under its digest for the tenant of the request, on the transport sealed in
    it; its record was taken out of the store; the backend started a session for the very subject
    sealed there, on that transport and at the epoch of a usable account; and when that subject has
    a confirmed TOTP or an active passkey, the journey holds both factors, from two ceremonies with
    different credentials or one passkey ceremony with user verification.  The factor services are any
    that answer with verifications of internal/factors, as the MFA service does ([service_proven]). *)
Theorem second_step_needs_both_factors h r e w w' x :
  challenge sha256 h r e w = (w', x) \/ passkeyFinish sha256 h r e w = (w', x) ->
  fair e -> wired h -> tenant_wf (Httpx.tenant r) -> fl_inv (Issuance.flows w) ->
  (forall n s, fl_all genuine s -> fl_all genuine (Issuance.others e n s)) -> fl_all genuine (Issuance.flows w) -> sane e ->
  (forall verify n s f c v, second (service h) = Some verify -> subject_wf s -> verify n s f c = Ok v -> proven v) ->
  (forall su n t c b p v, stepUp (service h) = Some su -> FinishStepUp su n t c b = Ok (p, v) -> proven v) ->
  quiet (s_cookies (service h)) (Issuance.out w) (Issuance.out w') \/
  exists f v a bound st, finished sha256 h r e w w' f v a /\ journey (pending f) /\ Add (pending f) v st = Ok bound /\
    a_subject a = subject f /\ a_factors a = factorSet bound /\ a_transport a = p_transport (pending f) /\
    a_epoch a = epoch st /\ Usable st = true /\ (always_enrolled e (subject f) -> both_factors bound).
Proof.
  intros Hrun Hfair Hw Htw Hinv Hoth Hgen Hsane Hv1 Hv2.
  assert (forall f v a, finished sha256 h r e w w' f v a -> journey (pending f) /\ subject_wf (subject f)) as Hjour.
  { intros f v a [Hop _ _]. destruct (op_record _ _ _ _ _ _ Hop) as (rec & Hpk & Hrec).
    assert (journey (pending f)) as Hj.
    { eapply genuine_journey; [|apply (op_pending _ _ _ _ _ _ Hop)]. rewrite <- Hrec.
      eapply fl_Peek_all; [|exact Hpk]. by apply Hoth. }
    split; [done|]. rewrite (op_subject _ _ _ _ _ _ Hop). apply (pw_bound _ (journey_wf _ Hj)), (op_bound _ _ _ _ _ _ Hop). }
  assert (forall f v a, finished sha256 h r e w w' f v a -> proven v ->
    exists bound st, journey (pending f) /\ Add (pending f) v st = Ok bound /\
      a_subject a = subject f /\ a_factors a = factorSet bound /\ a_transport a = p_transport (pending f) /\
      a_epoch a = epoch st /\ Usable st = true /\ (always_enrolled e (subject f) -> both_factors bound)) as Hfin.
  { intros f v a Hf Hp. destruct (Hjour _ _ _ Hf) as [Hj _]. destruct Hf as [Hop _ (w1 & w2 & _ & Ha & _)].
    destruct (admitted_facts _ _ _ _ _ _ Ha Hj Hp Hsane) as (bound & st & K1 & K2 & K3 & K4 & K5 & K6 & K7 & K8 & K9).
    exists bound, st. rewrite (op_subject _ _ _ _ _ _ Hop). specialize (K7 (op_bound _ _ _ _ _ _ Hop)).
    rewrite K3, <- K7. done. }
  destruct Hrun as [Hrun|Hrun].
  - apply challenge_spec in Hrun as [Hq|(f & v & a & fac & verify & n & Hf & Hsec & _ & Hv)]; [by left| |done..].
    right. destruct (Hfin f v a Hf) as (bound & st & Hx); [eapply Hv1; [done| |done]; by eapply Hjour|]. by exists f, v, a, bound, st.
  - apply passkeyFinish_spec in Hrun as [Hq|(f & v & a & su & n & p & Hf & Hsu & Hv & _)]; [by left| |done..].
    right. destruct (Hfin f v a Hf) as (bound & st & Hx); [by eapply Hv2|]. by exists f, v, a, bound, st.
Qed.

Lemma gone_open h r e w w' x f tn hd : open sha256 h r e w = (w', x) ->
  presented (service h) r = (f, Ok hd) -> Httpx.tenant r = tn ->
  (forall n s, fl_gone s tn (hash_of sha256 hd) -> fl_gone (Issuance.others e n s) tn (hash_of sha256 hd)) ->
  fl_gone (Issuance.flows w) tn (hash_of sha256 hd) -> okb x = false.
Proof.
  intros Ho Hp <- Hoth Hg. unfold open in Ho. rewrite Hp in Ho. unfold Issuance.on_flows in Ho. prog. cbn in Ho.
  pose proof (fl_Peek_gone (Issuance.ctx e (Issuance.calls w)) (Issuance.clock e (Issuance.calls w)) _ _ _ (Hoth (Issuance.calls w) _ Hg)) as Hn.
  destruct (fl_Peek _ _ _ _ _ _) as [rec|err]; [done|]. destruct (Is err ErrNotFound); [|by injection Ho as <- <-].
  destruct (dropCookie h f e _) as [w2 []]. by injection Ho as <- <-.
Qed.

(** C8: A parked login is finished once.  When a second step wrote a session credential for a handle, no
    later second step presenting the same handle writes another, at any instant and by any factor,
    whatever other requests did in between, as long as no parked login is stored under the same
    digest anew. *)
Theorem parked_login_is_finished_once h r r2 e e2 w w1 w2 w3 x y fc fc2 hd :
  challenge sha256 h r e w = (w1, x) \/ passkeyFinish sha256 h r e w = (w1, x) ->
  challenge sha256 h r2 e2 w2 = (w3, y) \/ passkeyFinish sha256 h r2 e2 w2 = (w3, y) ->
  fair e -> fair e2 -> wired h -> tenant_wf (Httpx.tenant r) -> fl_inv (Issuance.flows w) ->
  presented (service h) r = (fc, Ok hd) -> presented (service h) r2 = (fc2, Ok hd) -> Httpx.tenant r2 = Httpx.tenant r ->
  ~ quiet (s_cookies (service h)) (Issuance.out w) (Issuance.out w1) ->
  (fl_gone (Issuance.flows w1) (Httpx.tenant r) (hash_of sha256 hd) ->
   fl_gone (Issuance.flows w2) (Httpx.tenant r) (hash_of sha256 hd)) ->
  (forall n s, fl_gone s (Httpx.tenant r) (hash_of sha256 hd) -> fl_gone (Issuance.others e2 n s) (Httpx.tenant r) (hash_of sha256 hd)) ->
  quiet (s_cookies (service h)) (Issuance.out w2) (Issuance.out w3).
Proof.
  intros R1 R2 Hf1 Hf2 Hw Htw Hinv Hp1 Hp2 Hten Hnq Hstay Hoth.
  assert (exists f v a, finished sha256 h r e w w1 f v a) as (f & v & a & Hfin).
  { destruct R1 as [R1|R1].
    - apply challenge_spec in R1 as [?|(f & v & a & _ & _ & _ & Hf & _)]; [done|by exists f, v, a|done..].
    - apply passkeyFinish_spec in R1 as [?|(f & v & a & _ & _ & _ & Hf & _)]; [done|by exists f, v, a|done..]. }
  destruct Hfin as [Hop (n & s & rec & Hi & Hc & _) _]. pose proof (op_presented _ _ _ _ _ _ Hop) as Hp. rewrite Hp1 in Hp.
  injection Hp as _ Hh. rewrite <- Hh in *. apply fl_Consume_gone in Hc; [|done]. apply Hstay in Hc.
  destruct (open sha256 h r2 e2 w2) as [w4 z] eqn:Eo.
  assert (okb z = false) as Hz by (eapply gone_open; eauto; by rewrite Hten). destruct z as [|err]; [done|].
  pose proof (open_spec _ _ _ _ _ _ _ Eo Hf2) as ((_ & Hq) & _). destruct (fail_quiet h err e2 w4) as [_ Hq2].
  destruct R2 as [R2|R2]; unfold challenge, passkeyFinish in R2; unfold or_fail at 1 in R2; prog.
  - destruct (MfaSvc.ParseFactor _) as [|err']; [|destruct (fail_quiet h err' e2 w2) as [_ Hq3]; by rewrite R2 in Hq3].
    unfold or_fail at 1 in R2. prog. rewrite Eo in R2. rewrite R2 in Hq2. by etrans.
  - rewrite Eo in R2. rewrite R2 in Hq2. by etrans.
Qed.

(** ** From the first step to the second *)
(** The handle of a parked login, as the first step gave it to the client. *)
Definition given_handle (i : Issuance.Issuer) (p : Pending) (resp : Httpx.Response) (o : Http.Response) (hd : CeremonyCodec.Handle) : Prop :=
  exists names,
    (p_transport p = TransportCookies /\ Httpx.R_Body resp = Httpx.mfaRequiredBody Issuance.StateMFARequired names "" /\
     exists c, last (Http.SetCookies o) = Some c /\ Http.Name c = Cookie.CookieName (Issuance.cookies i) Cookie.Flow /\
       Http.Value c = CeremonyCodec.Encode hd) \/
    (p_transport p = TransportBearer /\ Httpx.R_Body resp = Httpx.mfaRequiredBody Issuance.StateMFARequired names (CeremonyCodec.Encode hd)).

Lemma SetFlow_last pol v k o : (Cookie.SetFlow pol v k o).2 = None -> exists c,
  last (Http.SetCookies (Cookie.SetFlow pol v k o).1) = Some c /\ Http.Name c = Cookie.CookieName pol Cookie.Flow /\ Http.Value c = v.
Proof.
  unfold Cookie.SetFlow, Cookie.setTTL. destruct (Cookie.check _ _ _ _); [done|]. destruct (_ || _); [done|].
  intros _. cbn. eexists. by rewrite last_snoc.
Qed.

(** A login that Complete parked: what was stored and what was given. *)
Lemma Complete_parked i r p v e w w' resp : Issuance.Complete sha256 i r p v e w = (w', Ok resp) ->
  Httpx.R_Body resp <> Httpx.mfaRequiredBody Issuance.StateMFARequired [] "" ->
  (exists a, Httpx.R_Body resp = Httpx.authenticatedBody Issuance.StateAuthenticated a) \/
  exists n st bound hd w1 w2, Issuance.accounts e n (v_subject v) = Ok st /\ Add p v st = Ok bound /\
    parks sha256 e w1 w2 bound (p_subject bound) hd /\ Issuance.flows w1 = Issuance.flows w /\
    Issuance.flows w' = Issuance.flows w2 /\ given_handle i bound resp (Issuance.out w') hd /\
    Tenant (v_subject v) = Httpx.tenant r /\ p_reauthOf bound = uuid_Nil.
Proof.
  intros Hc Hne. unfold Issuance.Complete in Hc. prog. destruct (_ || _) eqn:Et; [done|].
  apply orb_false_iff in Et as [_ Et]. apply negb_false_iff, bool_decide_eq_true in Et.
  unfold Issuance.state in Hc. cbn in Hc. destruct (Issuance.accounts e _ (v_subject v)) as [st|] eqn:Ea; [|done]. cbn in Hc.
  destruct (Add p v st) as [bound|] eqn:Eb; [|done].
  unfold Issuance.decision in Hc. cbn in Hc. destruct (EnrollmentSvc.enrolled _ _ _) as [d|]; [|done]. cbn in Hc.
  unfold Issuance.now, Issuance.newID in Hc. cbn in Hc. destruct (Admit _ bound st d _) as [adm|] eqn:Eadm; [|done].
  destruct (Session adm) as [a|] eqn:Es.
  - left. exists (a_returnTo a). unfold Issuance.start in Hc. prog. destruct (Issuance.landing _ _ _ _ _) as [w1 [loc|]]; [|done].
    destruct (Issuance.fetch_claims _ _ _) as [w2 [cl|]]; [|done]. destruct (Issuance.on_backend _ _ _) as [w3 [[]|]]; [|done].
    cbn in Hc. by injection Hc as _ <-.
  - right. pose proof Eadm as [Hok Hadm]%Admit_Ok. unfold Session in Es.
    assert (exists needs, NeedsFactor adm = Some (bound, needs)) as [needs Hn].
    { unfold NeedsFactor. rewrite Hadm in *. destruct (_ && _); [|done]. cbn in *.
      rewrite (proj2 (Z.eqb_neq _ _) (adm_version _ _ _ _ Hok)). by eexists. }
    rewrite Hn in Hc. cbn in Hc. apply park_spec in Hc as (_ & _ & _ & Hx). cbn in Hx.
    destruct Hx as [(_ & _ & Hb)|(hd & w1 & (Hf & _) & (w2 & Hpk & Hf2) & Hg)]; [done|].
    exists (Issuance.calls w), st, bound, hd, w1, w2. split_and!; try done.
    + eexists. destruct Hg as [(Ht & Hb & Ho & Hnone)|(Ht & _ & Hb)]; [left|right; done].
      split_and!; [done|done|]. rewrite Ho. by apply SetFlow_last.
    + apply (adm_login _ _ _ _ Hok).
Qed.

Lemma NewRecord_flow hh sub sl payload t rec p : UnsealPending sl = Ok p -> Subject_IsZero sub = false ->
  CeremonyRec.NewRecord (CeremonyRec.mkSpec Ceremony_.MFAFlow hh (CeremonyRec.SubjectScope sub) sl payload t)
    (Some CeremonyRec.openPending) = Ok rec ->
  CeremonyRec.tenant rec = p_tenant p /\ CeremonyRec.kind rec = Ceremony_.MFAFlow /\ CeremonyRec.handleHash rec = hh /\
  CeremonyRec.r_Pending rec = sl /\ CeremonyRec.scopeHash rec = uuid_bytes (User sub) /\ CeremonyRec.createdAt rec = t /\
  CeremonyRec.expiresAt rec = Ceremony_.ExpiresAt_of Ceremony_.MFAFlow (p_expiresAt p) t.
Proof.
  intros Hu Hz. unfold CeremonyRec.NewRecord, CeremonyRec.openPending, CeremonyRec.SubjectScope. cbn [CeremonyRec.sp_Pending]. rewrite Hu, Hz.
  cbn [mbind res_bind]. intros Hn. go_cases. unfold CeremonyRec.Restore in Hn. destruct (CeremonyRec.checkRow _); [done|].
  by injection Hn as <-.
Qed.

(** A login parked by the first step is opened by the second as it was left.  When Complete parks a
    journey, the client is given a handle, in the flow cookie or the body as its transport asks, the
    store keeps only journeys, and until the record expires (five minutes, or the end of the
    journey if sooner) a request that presents the handle for the same tenant and on the same
    transport opens exactly the journey with the verification added. *)
Theorem parked_login_opens h i r p v e w w' resp :
  Issuance.Complete sha256 i r p v e w = (w', Ok resp) ->
  Httpx.R_Body resp <> Httpx.mfaRequiredBody Issuance.StateMFARequired [] "" ->
  journey p -> proven v -> sane e -> fair e -> fl_inv (Issuance.flows w) ->
  (forall n raw, Issuance.rand e n = Ok raw -> length raw = 32%nat) ->
  (exists a, Httpx.R_Body resp = Httpx.authenticatedBody Issuance.StateAuthenticated a) \/
  exists bound st hd n, let t := Issuance.clock e n in Add p v st = Ok bound /\ journey bound /\ given_handle i bound resp (Issuance.out w') hd /\
    CeremonyCodec.ParseHandle (CeremonyCodec.Encode hd) = Ok hd /\
    ((forall n s, fl_all genuine s -> fl_all genuine (Issuance.others e n s)) ->
     fl_all genuine (Issuance.flows w) -> fl_all genuine (Issuance.flows w')) /\
    forall r2 e2 w2, presented (service h) r2 = (p_transport bound =? TransportCookies, Ok hd) ->
      Httpx.tenant r2 = Httpx.tenant r -> Issuance.others e2 (Issuance.calls w2) (Issuance.flows w2) = Issuance.flows w' ->
      Issuance.ctx e2 (Issuance.calls w2) = None -> Microsecond <= t ->
      t <= Issuance.clock e2 (Issuance.calls w2)
        < time_Truncate (Ceremony_.ExpiresAt_of Ceremony_.MFAFlow (p_expiresAt bound) t) Microsecond ->
      exists f w3, open sha256 h r2 e2 w2 = (w3, Ok f) /\ pending f = bound /\ handle f = hd.
Proof.
  intros Hc Hne Hj (c & t0 & Hcer & Hsub & Ht0) Hsane Hfair Hinv Hrand.
  destruct (Complete_parked _ _ _ _ _ _ _ _ Hc Hne) as [Ha|(n & st & bound & hd & w1 & wp & Hst & Hadd & Hpk & Hf1 & Hf2 & Hg & Hten & Hre)];
    [by left|right].
  assert (journey bound) as Hjb by (eapply journey_step, step_add; eauto).
  destruct Hpk as [[k Hk] (n1 & m & sl & payload & rec & cnt & _ & Hseal & Hrec & Hput & -> & ->)].
  pose proof (journey_wf _ Hjb) as Hwf. pose proof (UnsealPending_SealPending bound sl Hwf Hseal) as Hun.
  pose proof (Add_ok _ _ _ _ Hadd) as Hao.
  assert (Subject_IsZero (p_subject bound) = false) as Hz
    by (rewrite (ao_subject _ _ _ _ Hao); apply vw_subject; eauto with egauth).
  assert (p_tenant bound = Httpx.tenant r) as Hbt.
  { rewrite <- Hten, <- (ao_subject _ _ _ _ Hao). symmetry. apply (pw_bound _ Hwf). unfold Bound. by rewrite Hz. }
  destruct (NewRecord_flow _ _ _ _ _ _ _ Hun Hz Hrec) as (R1 & R2 & R3 & R4 & R5 & R6 & R7).
  exists bound, st, hd, (Datatypes.S (Issuance.calls w1)). cbv zeta. split_and!; [done|done|done| | |].
  { apply CeremonyCodec.ParseHandle_Encode. by eapply Hrand. }
  { intros Hoth Hall. rewrite Hf2. apply (f_equal fst) in Hput. cbn in Hput. rewrite <- Hput. apply fl_Put_all.
    - apply Hoth. by rewrite Hf1.
    - rewrite R4. by exists bound. }
  assert (fl_inv (Issuance.others e (Datatypes.S (Datatypes.S (Issuance.calls w1))) (Issuance.flows w1))) as Hi1
    by (apply Hfair; by rewrite Hf1).
  intros r2 e2 w2 Hp2 Ht2 Hoth Hctx Hus Hclk. unfold open. rewrite Hp2. unfold Issuance.on_flows. prog. rewrite Hoth, Hctx, Hf2.
  destruct (fl_Put_Peek _ _ rec _ _ _ (Issuance.clock e2 (Issuance.calls w2)) Hi1 Hput)
    as (rec' & Hpeek & Q1 & Q2 & Q3 & Q4); [by rewrite R6|by rewrite R6, R7|].
  rewrite R1, R2, R3 in Hpeek. rewrite Hbt in Hpeek. rewrite Ht2. unfold hash_of. rewrite Hpeek. cbn [Issuance.tick].
  rewrite Q1, R4, Hun. rewrite Q2, R1, Hbt.
  assert (CeremonyRec.ScopedTo rec' (CeremonyRec.SubjectScope (p_subject bound)) = true) as ->.
  { unfold CeremonyRec.ScopedTo, CeremonyRec.SubjectScope. rewrite Hz, Q3, R2, Q4, R5, Q2, R1. cbn.
    rewrite bool_decide_eq_true_2 by done. cbn. rewrite bool_decide_eq_true_2; [done|].
    apply (pw_bound _ Hwf). unfold Bound. by rewrite Hz. }
  unfold Bound. rewrite Hz, Hre, !bool_decide_eq_true_2 by done. cbn [negb orb Z.eqb].
  rewrite Bool.eqb_reflx. cbn [negb]. by do 2 eexists.
Qed.
End properties.

(** ** A sample login *)
#[local] Existing Instances EnrollmentSvc.mfa_TOTPEnrollment EnrollmentSvc.passkey_PasskeyEnrollment.

#[local] Existing Instances fixed_epochs store0 laws0 MemoryFlows.memory_flows MemoryFlows.memory_flow_laws.

#[local] Instance sample_backend : SessionBackend (Stateful.env SessionsMemory.Store Z * Stateful.world SessionsMemory.Store) :=
  stateful_backend digest0 backend0.

#[local] Instance sample_backend_laws :
  BackendLaws (Stateful.env SessionsMemory.Store Z * Stateful.world SessionsMemory.Store) := stateful_laws digest0 backend0.

#[local] Instance sample_url : NetURL :=
  {| parseHost := fun _ h => Some h; ToLower := map ascii_lower; ToLower_ascii := fun b _ => eq_refl |}.

Definition flow_policy : Cookie.Policy := Cookie.mkPolicy true true "".

(** The MFA service over the store in which the sample user confirmed a TOTP, two seconds into the login. *)
Definition sample_verify : SecondFactors := fun _ s f c =>
  (MfaSvc.Verify upper0 hmac0 sum0 uuid0 s f c (mfa_env (now0 + 2 * Second) (fun _ s => s)) confirmed0.1).2.

Definition flow_handlers : handlers :=
  let svc := mkService flow_policy (Some sample_verify) None None in
  mkHandlers svc (Issuance.mkIssuer (Completes svc) flow_policy RememberUserChoice (Issuance.mkPages "" "" "" [])).

Definition flow_origins : Redirect.Origins :=
  get_ok Redirect.zero_Origins (Redirect.NewOrigins (str_bytes "https://app.example") []).

Definition flow_env (t : time) :
    Issuance.env CeremonyMemory.Store (Stateful.env SessionsMemory.Store Z * Stateful.world SessionsMemory.Store)
      MfaMemory.Store PasskeyMemory.Store :=
  Issuance.mkEnv (fun _ => None) (fun _ => t) (fun _ => Ok (chash "a")) (fun _ => 99) (fun _ _ => Ok st0)
    (fun _ => mstore1) (fun _ => pkstore1) (fun _ => answers0) (fun _ => Ok flow_origins) (fun _ s => s) (fun _ b => b).

Definition flow_world (s : CeremonyMemory.Store) :
    Issuance.world CeremonyMemory.Store (Stateful.env SessionsMemory.Store Z * Stateful.world SessionsMemory.Store) :=
  Issuance.mkWorld s (env0 start0, world0) (Http.mkResponse [] ∅) [] [] 0.

Definition flow_request : Httpx.Request :=
  Httpx.mkRequest (Http.mkRequest [] ["__Host-egauth_flow=" +:+ CeremonyCodec.Encode (CeremonyCodec.mkHandle (chash "a"))] [] [])
    acme {["factor" := "totp"; "code" := code0 (now0 + 2 * Second)]} false [] None TransportCookies.

Definition flow_second := challenge digest0 flow_handlers flow_request (flow_env (c0 + Second)) (flow_world cstore1).

(** A cookie that is neither cleared nor the flow cookie was added. *)
Definition credential_added (p : Cookie.Policy) (o o' : Http.Response) : bool :=
  existsb (fun c => negb (bool_decide (Http.Value c = "")) && negb (bool_decide (Http.Name c = Cookie.CookieName p Cookie.Flow)))
    (drop (length (Http.SetCookies o)) (Http.SetCookies o')).

Lemma credential_not_quiet p o o' : credential_added p o o' = true -> ~ quiet p o o'.
Proof.
  intros Hc [(cs & E & Hh) _]. unfold credential_added in Hc. rewrite E, drop_app_length in Hc.
  apply existsb_exists in Hc as (c & Hin & Hx). apply list_elem_of_In in Hin. rewrite Forall_forall in Hh.
  apply Hh in Hin as [[Hv _]|Hn]; bools; done.
Qed.

Example flow_second_ok : Httpx.a_status flow_second.2 = 303 /\
  credential_added flow_policy (Http.mkResponse [] ∅) (Issuance.out flow_second.1) = true.
Proof. split; vm_compute; reflexivity. Qed.

(** The facts the hypotheses ask of the sample. *)
Lemma cstore1_genuine : fl_all genuine cstore1.
Proof.
  apply (MemoryFlows.Put_all genuine None c0 (CeremonyProperties.flow (chash "a")) CeremonyMemory.NewWithClock).
  - intros k e He. by vm_compute in He.
  - exists login1. split; [apply login1_journey|vm_compute; reflexivity].
Qed.

Lemma cstore1_inv : fl_inv cstore1.
Proof. split; [apply (ceremony_reachable_inv c0), cstore1_reachable|vm_compute; reflexivity]. Qed.

(** A verification of the MFA service is proven, in any state of it. *)
Lemma service_proven {P0} `{EnrollmentSvc.PasskeyEnrollment P0} UpperCase hmac_sha1 sha256 uuid_String sub f c
    (e : MfaSvc.env (P := P0)) w v :
  (MfaSvc.Verify UpperCase hmac_sha1 sha256 uuid_String sub f c e w).2 = Ok v -> subject_wf sub ->
  (forall n, 0 < MfaSvc.clock e n) -> proven v.
Proof.
  intros Hv Hs Hc. destruct (MfaSvc.Verify _ _ _ _ _ _ _ _ _) as [w' r] eqn:E. cbn in Hv. subst r.
  destruct (Verify_ceremony _ _ _ _ _ _ _ _ _ _ _ E Hc) as (cer & t & H1 & H2 & H3). exists cer, t. by rewrite H2.
Qed.

Lemma flow_env_fair t : fair (flow_env t).
Proof. by intros n s. Qed.

Lemma flow_env_sane t : sane (flow_env t).
Proof. intros n s st [= <-]. split; vm_compute; congruence. Qed.

Lemma flow_env_enrolled t : always_enrolled (flow_env t) ada.
Proof. left. intros n. apply (EnrollmentSvc.HasConfirmedTOTP_law None ada mstore1 true); [vm_compute; reflexivity|reflexivity]. Qed.

(** What the sample request opens. *)
Lemma flow_opened f : opened digest0 flow_handlers flow_request (flow_env (c0 + Second)) (flow_world cstore1) f ->
  subject f = ada /\ handle f = CeremonyCodec.mkHandle (chash "a").
Proof.
  intros Hop. pose proof (op_presented _ _ _ _ _ _ Hop) as Hp.
  assert (presented (service flow_handlers) flow_request = (true, Ok (CeremonyCodec.mkHandle (chash "a")))) as E
    by (vm_compute; reflexivity).
  rewrite E in Hp. injection Hp as _ Hh. split; [|done]. destruct (op_record _ _ _ _ _ _ Hop) as (rec & Hk & Hr). rewrite <- Hh in Hk.
  rewrite (op_subject _ _ _ _ _ _ Hop). pose proof (op_pending _ _ _ _ _ _ Hop) as Hu. rewrite <- Hr in Hu.
  apply (f_equal (fun x => CeremonyRec.r_Pending (get_ok zero_Rec x))) in Hk. cbn [get_ok] in Hk. rewrite <- Hk in Hu.
  apply (f_equal (fun x => p_subject (get_ok zero_Pending x))) in Hu. cbn [get_ok] in Hu. rewrite <- Hu. vm_compute. reflexivity.
Qed.

Lemma second_step_needs_both_factors_witness : exists p a, both_factors p /\ a_subject a = ada /\ a_factors a = factorSet p.
Proof.
  destruct (second_step_needs_both_factors digest0 flow_handlers flow_request (flow_env (c0 + Second)) (flow_world cstore1)
    flow_second.1 flow_second.2) as [Hq|(f & v & a & bound & st & Hf & _ & _ & Hs & Hfa & _ & _ & _ & Hb)].
  - left. apply surjective_pairing.
  - apply flow_env_fair.
  - reflexivity.
  - apply acme_wf.
  - apply cstore1_inv.
  - by intros n s.
  - apply cstore1_genuine.
  - apply flow_env_sane.
  - intros verify n s f c v [= <-] Hs Hv. eapply service_proven; [exact Hv|done|by intros k].
  - by intros su n t c b p v.
  - exfalso. revert Hq. apply credential_not_quiet, flow_second_ok.
  - destruct (flow_opened f) as [Hsub _]; [apply Hf|]. rewrite Hsub in *. exists bound, a.
    split_and!; [apply Hb, flow_env_enrolled|done|done].
Defined.

Lemma parked_login_is_finished_once_witness :
  quiet flow_policy (Issuance.out flow_second.1)
    (Issuance.out (challenge digest0 flow_handlers flow_request (flow_env (c0 + Minute)) flow_second.1).1).
Proof.
  refine (parked_login_is_finished_once digest0 flow_handlers flow_request flow_request (flow_env (c0 + Second)) (flow_env (c0 + Minute))
    (flow_world cstore1) flow_second.1 flow_second.1 _ flow_second.2
    (challenge digest0 flow_handlers flow_request (flow_env (c0 + Minute)) flow_second.1).2 true true
    (CeremonyCodec.mkHandle (chash "a")) _ _ _ _ _ _ _ _ _ _ _ _ _).
  - left. apply surjective_pairing.
  - left. apply surjective_pairing.
  - apply flow_env_fair.
  - apply flow_env_fair.
  - reflexivity.
  - apply acme_wf.
  - apply cstore1_inv.
  - vm_compute. reflexivity.
  - vm_compute. reflexivity.
  - reflexivity.
  - apply credential_not_quiet, flow_second_ok.
  - done.
  - by intros n s.
Defined.

(** The first step: a password for a login that asks for more. *)
Definition flow_first_request : Httpx.Request :=
  Httpx.mkRequest (Http.mkRequest [] [] [] []) acme ∅ false [] None TransportCookies.

Definition flow_first :=
  Issuance.Complete digest0 (issuer flow_handlers) flow_first_request login0 v_pwd (flow_env c0) (flow_world CeremonyMemory.NewWithClock).

Definition flow_parked : Httpx.Response :=
  get_ok (Httpx.mkResponse 0 (Httpx.authenticatedBody "" "") []) flow_first.2.

Lemma flow_first_Ok : flow_first = (flow_first.1, Ok flow_parked).
Proof.
  assert (okb flow_first.2 = true) as Hok by (vm_compute; reflexivity). unfold flow_parked.
  by destruct flow_first as [w [x|err]].
Qed.

Lemma parked_login_opens_witness : exists f w3,
  open digest0 flow_handlers flow_request (flow_env (c0 + Second)) (flow_world (Issuance.flows flow_first.1)) = (w3, Ok f) /\
  journey (pending f) /\ exists st, Add login0 v_pwd st = Ok (pending f).
Proof.
  destruct (parked_login_opens digest0 flow_handlers (issuer flow_handlers) flow_first_request login0 v_pwd (flow_env c0)
    (flow_world CeremonyMemory.NewWithClock) flow_first.1 flow_parked) as [[a Ha]|(bound & st & hd & n & Hadd & Hj & Hg & Hph & _ & Ho)].
  - exact flow_first_Ok.
  - by vm_compute.
  - apply login0_journey.
  - exists (CPassword ada), (now0 + Second). split; [vm_compute; reflexivity|]. split; [apply ada_wf|vm_compute; reflexivity].
  - apply flow_env_sane.
  - apply flow_env_fair.
  - split; [apply (ceremony_reachable_inv 0); constructor|vm_compute; reflexivity].
  - intros n raw [= <-]. reflexivity.
  - by vm_compute in Ha.
  - destruct (ao_frame _ _ _ _ (Add_ok _ _ _ _ Hadd)) as (_ & _ & _ & _ & Htr & _ & _ & Hex).
    assert (hd = CeremonyCodec.mkHandle (chash "a")) as ->.
    { destruct Hg as (names & [(_ & _ & c & Hc & _ & Hv)|(Ht & _)]); [|by rewrite Htr in Ht].
      apply (f_equal (fun x => Http.Value <$> x)) in Hc. cbn [fmap option_fmap option_map] in Hc. rewrite Hv in Hc.
      assert (Http.Value <$> last (Http.SetCookies (Issuance.out flow_first.1)) =
        Some (CeremonyCodec.Encode (CeremonyCodec.mkHandle (chash "a")))) as E by (vm_compute; reflexivity).
      rewrite Hc in E. injection E as E. rewrite E in Hph.
      assert (CeremonyCodec.ParseHandle (CeremonyCodec.Encode (CeremonyCodec.mkHandle (chash "a"))) =
        Ok (CeremonyCodec.mkHandle (chash "a"))) as E2 by (vm_compute; reflexivity).
      rewrite E2 in Hph. by injection Hph as <-. }
    destruct (Ho flow_request (flow_env (c0 + Second)) (flow_world (Issuance.flows flow_first.1))) as (f & w3 & Hop & Hp & _).
    + rewrite Htr. vm_compute. reflexivity.
    + reflexivity.
    + cbv beta iota delta [flow_env flow_world Issuance.others Issuance.flows Issuance.calls]. reflexivity.
    + reflexivity.
    + by vm_compute.
    + rewrite Hex. split; [by vm_compute|vm_compute; reflexivity].
    + exists f, w3. rewrite Hp. split_and!; [done|done|by exists st].
Defined.
