(* ===== verification/CodeSvc.v ===== *)
(** The passwordless logins: internal/codesvc (ceremony.go, code.go, magiclink.go), the code payload of
    internal/ceremonycodec and the identifier normaliser of internal/identitysvc.

    A handler is a program over the world of issuance that ends in an answer, as in Flow; a message is
    sent by a job of the delivery workers, a program of its own that a request asks for.  How the
    identity store, the account states, crypto/rand.Int, the link builder and the deliverers answer at
    each call is part of the service.  Unicode normalisation (NFKC), idna.Lookup, the Unicode tables
    and HMAC-SHA-256 are arguments. *)
From S2P Require Import Prelude Errors Tenant Factor Attrs Pending Transitions Factors Codec StoreBase.
From S2P Require Import CeremonyKind Enrollment GoText Json JsonText Cookie Renewal Redirect Program.
From S2P Require Import IdentityRecord Httpx Issuance Flow.
Import Session.

(** ** Payloads of codes: internal/ceremonycodec *)
Module CodePayload.
Import CeremonyCodec.

Definition maxCodeLen : Z := 64.

(** [Code]: the keyed digest. *)
Record Code := mkCode { digest : bytes }.

Definition validate (c : Code) : option error :=
  if Z.of_nat (length (digest c)) =? 32 then None else Some (New "code digest missing").

(** json.Marshal of a code. *)
Definition marshal (c : Code) : bytes := JsonText.quote_ (bytes_str (Base64.encode (digest c))).

(** A decoder on a code; [None] is an error.  A null is read like an empty string. *)
Definition unmarshal (b : bytes) : option Code :=
  '(v, rest) ← JsonText.take_value Json.start (JsonText.skip_space b);
  match JsonText.skip_space rest with
  | [] => s ← JsonText.into_string v ""; d ← Base64.decode (str_bytes s); Some (mkCode d)
  | _ => None
  end.

Definition EmailCode : Codec Code := mkCodec Ceremony_.EmailCode (Some validate) marshal.

Definition SMSCode : Codec Code := mkCodec Ceremony_.SMSCode (Some validate) marshal.

Definition MagicLink : Codec Empty := mkCodec Ceremony_.MagicLink (Some noCheck) (fun _ => JsonText.object []).

(** [Decode]; [read] is the decoder of the payload type, that refuses unknown fields and trailing data. *)
Definition DecodePayload {P} (c : Codec P) (read : bytes -> option P) (b : bytes) : res P :=
  match check c with
  | None => Err ErrWrongKind
  | Some chk =>
      if negb (Ceremony_.Kind_Valid (kind c)) then Err ErrWrongKind
      else match b with
      | v :: k :: body =>
          if (maxPayloadBytes <? Z.of_nat (length b)) || negb (Z_of_byte v =? payloadVersion) then Err ErrMalformedPayload
          else if negb (Z_of_byte k =? kind c) then Err (Join ErrWrongKind (New "payload of another kind"))
          else match read body with
          | None => Err (Join ErrMalformedPayload (New "json"))
          | Some p => match chk p with Some err => Err (Join ErrMalformedPayload err) | None => Ok p end
          end
      | _ => Err ErrMalformedPayload
      end
  end.

Section code.
Context (hmac_sha256 : bytes -> bytes -> bytes).

(** [key] is the codeKey of the sealer. *)
Definition codeDigest (key : bytes) (code : string) : bytes := hmac_sha256 key (str_bytes code).

Definition NewCode (key : bytes) (code : string) : res Code :=
  if bool_decide (code = "") || (maxCodeLen <? Z.of_nat (String.length code))
  then Err (Join ErrMalformedPayload (New "code must be 1 to 64 bytes"))
  else Ok (mkCode (codeDigest key code)).

Definition Matches (key : bytes) (c : Code) (code : string) : bool :=
  if negb (Z.of_nat (length (digest c)) =? 32) || (maxCodeLen <? Z.of_nat (String.length code)) then false
  else bool_decide (digest c = codeDigest key code).
End code.
End CodePayload.

(** ** Identifiers: internal/identitysvc/normalize.go *)
Module Normalizer.
Import Identity.

Definition maxLocalPart : Z := 64.

Definition maxDomain : Z := 253.

Definition maxLabel : Z := 63.

Definition scopeKeyBytes : Z := 32.

Definition atext : bytes := str_bytes "!#$%&'*+-/=?^_`{|}~".

Definition phoneMarks : bytes := str_bytes " -.()".

Definition isASCIIAlnum (r : Z) : bool :=
  ((97 <=? r) && (r <=? 122)) || ((65 <=? r) && (r <=? 90)) || ((48 <=? r) && (r <=? 57)).

(** The runes of a range over a string; a byte that is not UTF-8 is U+FFFD. *)
Fixpoint range_string (n : nat) (b : bytes) : list Z :=
  match n, b with
  | S n', _ :: _ =>
      match JsonText.rune_len b with
      | O => 65533 :: range_string n' (drop 1 b)
      | k => default 65533 (Identity.runes (take k b) ≫= head) :: range_string n' (drop k b)
      end
  | _, _ => []
  end.

Definition runes_of (b : bytes) : list Z := range_string (length b) b.

Definition ascii_in (set : bytes) (r : Z) : bool := existsb (fun c => Z_of_byte c =? r) set.

(** The parts of a text between occurrences of a byte, its last part included. *)
Definition labels (d : bytes) : list bytes := split "."%byte d.

Definition hostname (d : bytes) : bool :=
  if bool_decide (d = []) || (maxDomain <? Z.of_nat (length d)) then false
  else forallb (fun label =>
    negb (bool_decide (label = [])) && negb (maxLabel <? Z.of_nat (length label))
    && negb (bool_decide (head label = Some "-"%byte)) && negb (bool_decide (last label = Some "-"%byte))
    && forallb (fun r => ((r =? 45) || isASCIIAlnum r) && negb ((65 <=? r) && (r <=? 90))) (runes_of label)) (labels d).

Definition no_id : res Identifier := Err ErrInvalidIdentifier.

Section normalize.
Context `{NetURL} (NFKC : bytes -> bytes) (ToASCII : bytes -> option bytes) (letter_digit_mark UpperTable : Z -> bool).

Definition dotAtom (local : bytes) : bool :=
  if bool_decide (local = []) || (maxLocalPart <? Z.of_nat (length local)) || bool_decide (head local = Some "."%byte)
     || bool_decide (last local = Some "."%byte) || contains (str_bytes "..") local
  then false
  else forallb (fun r => (r =? 46) || ((r <? 128) && (isASCIIAlnum r || ascii_in atext r)) || ((128 <=? r) && letter_digit_mark r))
         (runes_of local).

Definition normalizeEmail (k : Z) (s : bytes) : res Identifier :=
  if (MaxIdentifierLen <? Z.of_nat (length s)) || negb (ValidString (bytes_str s)) then no_id
  else match cut_last "@"%byte s with
  | None => no_id
  | Some (local, domain) =>
      if negb (dotAtom local) then no_id
      else match ToASCII domain with
      | None => no_id
      | Some ascii =>
          if negb (hostname ascii) then no_id
          else NewIdentifier UpperTable k (bytes_str (ToLower local ++ "@"%byte :: ascii))
      end
  end.

(** The digits of a phone number with its marks dropped. *)
Fixpoint phone_digits (rs : list Z) : option bytes :=
  match rs with
  | [] => Some []
  | r :: rs' =>
      if (48 <=? r) && (r <=? 57) then cons (byte_of_Z r) <$> phone_digits rs'
      else if ascii_in phoneMarks r then phone_digits rs' else None
  end.

Definition normalizePhone (s : bytes) : res Identifier :=
  if MaxIdentifierLen <? Z.of_nat (length s) then no_id
  else match s with
  | "+"%byte :: digits =>
      match phone_digits (runes_of digits) with
      | None => no_id
      | Some ds => NewIdentifier UpperTable IdentifierPhone (bytes_str ("+"%byte :: ds))
      end
  | _ => no_id
  end.

Definition Normalize (raw : string) : res Identifier :=
  let s := TrimSpace (NFKC (str_bytes raw)) in
  if bool_decide ("@"%byte ∈ s) then normalizeEmail IdentifierEmail s
  else match s with "+"%byte :: _ => normalizePhone s | _ => no_id end.

Definition NormalizeAs (k : Z) (raw : string) : res Identifier :=
  let s := TrimSpace (NFKC (str_bytes raw)) in
  if (k =? IdentifierEmail) || (k =? IdentifierRecoveryEmail) then normalizeEmail k s
  else if k =? IdentifierPhone then normalizePhone s
  else no_id.
End normalize.

Section scope.
Context (hmac_sha256 : bytes -> bytes -> bytes).

(** [ScopeKey] is its key, empty in the zero one. *)
Definition Scope (key : bytes) (id : Identifier) : res CeremonyRec.Scope :=
  if bool_decide (key = []) then Err ErrInvalidScopeKey
  else if Identifier_IsZero id then Err ErrInvalidIdentifier
  else CeremonyRec.IdentifierScope (hmac_sha256 key (byte_of_Z (kind id) :: str_bytes (value id))).
End scope.
End Normalizer.

(** ** The service *)
Module CodeSvc.
#[local] Existing Instance Identity.Identifier_eq_dec.
Import CodePayload.

Definition codeDigits : Z := 6.

Definition stateCodeSent : string := "code_sent".

Definition stateLinkRequested : string := "magic_link_requested".

Definition stateConfirmRequired : string := "confirm_required".

(** [CodeMessage] and the identitysvc.LinkMessage of a magic link; the secret is the code or the link. *)
Record Message := mkMessage {
  m_kind : Ceremony_.Kind; DeliveryID : uuid; m_tenant : TenantID; To : string; Secret : string; m_expires : time }.

(** [Service]: its cookie policy, the modules it serves, its keys and decoy, and how what it calls answers. *)
Record Service := mkService {
  cookies : Cookie.Policy;
  magicLink : bool;
  emailCodes : bool;
  smsCodes : bool;
  scopeKey : bytes;
  codeKey : bytes;
  decoy_handle : CeremonyCodec.Handle;
  decoy_code : Code;
  FindUser : nat -> TenantID -> Identity.Identifier -> res Identity.User_;
  GetUser : nat -> Subject -> res Identity.User_;
  account : nat -> Subject -> res AccountState;
  rand_Int : nat -> Z -> res Z;
  Link : nat -> TenantID -> Ceremony_.Kind -> string -> res string;
  send : nat -> Message -> option error }.

(** The members of a Config that are not nil. *)
Record given := mkGiven {
  has_Identity : bool; has_Accounts : bool; has_Ceremonies : bool; has_Mailer : bool; has_Texter : bool; has_Links : bool;
  has_Audit : bool }.

(** [keys] are the errors of deriving the scope key and the sealer from the data key, and [decoy] that of
    drawing the decoy. *)
Definition New_ (g : given) (s : Service) (keys : list error) (decoy : option error) : res Service :=
  let need (ok : bool) name := if ok then [] else [New name] in
  let errs :=
    need (magicLink s || emailCodes s || smsCodes s) "MagicLink, EmailCodes or SMSCodes"
    ++ need (has_Identity g) "Identity" ++ need (has_Accounts g) "Accounts" ++ need (has_Ceremonies g) "Ceremonies"
    ++ need ((negb (magicLink s) && negb (emailCodes s)) || has_Mailer g) "Mailer"
    ++ need (negb (magicLink s) || has_Links g) "Links" ++ need (negb (smsCodes s) || has_Texter g) "Texter"
    ++ need (negb (bool_decide (cookies s = Cookie.zero_Policy))) "Cookies" ++ need (has_Audit g) "Audit"
    ++ map (Join (New "DataKey")) keys in
  match errs with
  | e :: es => Err (Join KErrInvalidConfig (JoinAll e es))
  | [] => match decoy with Some err => Err (Join (New "codesvc: decoy") err) | None => Ok s end
  end.

(** [Endpoints]: the paths served; routes.NewEndpoint only checks a path against its table. *)
Definition Endpoints (s : Service) (has_issuer : bool) : res (list string) :=
  if negb has_issuer then Err KErrNilIssuer
  else Ok ((if magicLink s then ["/magic-link/request"; "/magic-link"] else [])
           ++ (if emailCodes s || smsCodes s then ["/code/request"; "/code/verify"] else [])).

Definition kindFor (s : Service) (id : Identity.Identifier) : Ceremony_.Kind * bool :=
  if Identity.kind id =? Identity.IdentifierEmail then (Ceremony_.EmailCode, emailCodes s)
  else if Identity.kind id =? Identity.IdentifierPhone then (Ceremony_.SMSCode, smsCodes s)
  else (0, false).

Definition codeKinds (s : Service) : list Ceremony_.Kind :=
  (if emailCodes s then [Ceremony_.EmailCode] else []) ++ (if smsCodes s then [Ceremony_.SMSCode] else []).

Definition codecOf (k : Ceremony_.Kind) : CeremonyCodec.Codec Code := if k =? Ceremony_.SMSCode then SMSCode else EmailCode.

(** [n] is what crypto/rand.Int gave; a longer number makes strings.Repeat panic. *)
Definition code_of (n : Z) : string :=
  let s := JsonText.AppendInt n in
  bytes_str (replicate (Z.to_nat (codeDigits - Z.of_nat (length s))) "0"%byte ++ s).

Definition wellFormedCode (code : bytes) : bool :=
  (Z.of_nat (length code) =? codeDigits) && forallb (fun c => (48 <=? Z_of_byte c) && (Z_of_byte c <=? 57)) code.

Definition lookupProblem (err invalid : error) : error :=
  if Is err ErrNotFound then Join invalid err else Join HErrServiceUnavailable err.

(** utf8.DecodeRuneInString gives U+FFFD when there is no rune. *)
Definition accountHint (email : Identity.Identifier) : string :=
  let '(local, domain, _) := Cut "@"%byte (str_bytes (Identity.value email)) in
  let first := match JsonText.rune_len local with O => JsonText.rune_error | n => take n local end in
  bytes_str (first ++ str_bytes "***@" ++ domain).

Definition openBound (rec : CeremonyRec.Rec) (t : TenantID) (invalid : error) : res (Pending * Subject) :=
  match UnsealPending (CeremonyRec.r_Pending rec) with
  | Err err => Err (Join invalid err)
  | Ok p =>
      let sub := p_subject p in
      if negb (Bound p) then Err invalid
      else if negb (bool_decide (p_tenant p = t)) || negb (bool_decide (CeremonyRec.tenant rec = t)) || negb (bool_decide (Tenant sub = t))
      then Err HErrUnauthenticated
      else Ok (p, sub)
  end.

(** [journey] *)
Record begun := mkBegun { j_pending : Pending; j_bind : Cookie.BindSecret }.

(** What a request asks of the delivery workers. *)
Inductive job := JobCode (p : Pending) (k : Ceremony_.Kind) (h : CeremonyCodec.Handle) (id : Identity.Identifier)
  | JobLink (p : Pending) (id : Identity.Identifier).

Section handlers.
Context {F B T P : Type} `{FlowStore F, SessionBackend B, EnrollmentSvc.TOTPEnrollment T, EnrollmentSvc.PasskeyEnrollment P, NetURL}.
Context (sha256 : bytes -> bytes) (hmac_sha256 : bytes -> bytes -> bytes).
Context (Normalize : string -> res Identity.Identifier) (NormalizeAs : Z -> string -> res Identity.Identifier).

Abbreviation M := (Program.M (Issuance.env F B T P) (Issuance.world F B)).

(** [handlers]: the service and the issuer its endpoints end in. *)
Record handlers := mkHandlers { service : Service; issuer : Issuance.Issuer }.

Abbreviation call := (Flow.call (T := T) (P := P)).
Abbreviation fail := (Flow.fail (T := T) (P := P)).
Abbreviation or_fail := (Flow.or_fail (T := T) (P := P)).

Definition internal {R} (m : res R) : res R := map_err (Join HErrInternal) m.

(** ** ceremony.go *)
Definition begin (h : handlers) (r : Httpx.Request) : M (res begun) :=
  try (Issuance.Begin (issuer h) r) (fun p =>
  raw ← Issuance.draw;
  try (mret (internal (Cookie.NewBind sha256 raw))) (fun b =>
  try (mret (internal (WithBindHash p (default [] (Cookie.Hash_ b))))) (fun p =>
  mret (Ok (mkBegun p b))))).

(** The bind field of the body, empty when the secret is a cookie. *)
Definition deliverBind (s : Service) (j : begun) (k : Ceremony_.Kind) : M (res string) :=
  if p_transport (j_pending j) =? TransportBearer then mret (Ok (Cookie.b_value (j_bind j)))
  else
    err ← Issuance.respond (Cookie.SetBind (cookies s) (j_bind j) k);
    mret (match err with Some err => Err err | None => Ok "" end).

Definition presentedBind (s : Service) (r : Httpx.Request) (p : Pending) : bool :=
  let presented :=
    if p_transport p =? TransportBearer then Httpx.Field r "bind" else (Cookie.Read (cookies s) (Httpx.http r) Cookie.Bind).1 in
  Cookie.VerifyBind sha256 presented (p_bindHash p).

Definition clearBind (s : Service) (p : Pending) : M unit :=
  if p_transport p =? TransportCookies then Issuance.respond (fun o => (Cookie.Clear (cookies s) Cookie.Bind o, tt)) else mret tt.

(** [None] is an account that may not use the identifier, or none. *)
Definition eligible (s : Service) (t : TenantID) (id : Identity.Identifier) : M (res (option (Identity.User_ * AccountState))) :=
  u ← call (fun n => FindUser s n t id);
  match u with
  | Err err => mret (if Is err ErrNotFound then Ok None else Err err)
  | Ok u =>
      if time_IsZero (Identity.EmailVerifiedAt u) || negb (time_IsZero (Identity.DisabledAt u)) || negb (time_IsZero (Identity.DeletedAt u))
      then mret (Ok None)
      else if (if Identity.kind id =? Identity.IdentifierEmail then bool_decide (Identity.Email u = id)
               else if Identity.kind id =? Identity.IdentifierPhone
               then bool_decide (Identity.Phone u = id) && negb (time_IsZero (Identity.PhoneVerifiedAt u))
               else false)
      then
        try (call (fun n => account s n (Identity.u_Subject u))) (fun st =>
        mret (Ok (if negb (Usable st) || negb (emailVerified st) then None else Some (u, st))))
      else mret (Ok None)
  end.

Definition putRecord (s : Service) (p : Pending) (k : Ceremony_.Kind) (hd : CeremonyCodec.Handle) (id : Identity.Identifier) (payload : bytes)
  : M (res CeremonyRec.Rec) :=
  try (mret (SealPending p)) (fun sealed =>
  try (mret (Normalizer.Scope hmac_sha256 (scopeKey s) id)) (fun scope =>
  t ← Issuance.now;
  try (mret (CeremonyRec.NewRecord (CeremonyRec.mkSpec k (CeremonyCodec.Hash sha256 hd) scope sealed payload t)
               (Some CeremonyRec.openPending))) (fun rec =>
  try (Issuance.on_flows (fun c t => fl_Put c t rec)) (fun _ => mret (Ok rec))))).

Definition newHandle : M (res CeremonyCodec.Handle) := raw ← Issuance.draw; mret (CeremonyCodec.NewHandle raw).

(** ** code.go *)
(** The answer, and the job asked for. *)
Definition requestCode (h : handlers) (r : Httpx.Request) : M (Httpx.answer * option job) :=
  let refuse err : M (Httpx.answer * option job) := a ← fail err; mret (a, None) in
  match Normalize (Httpx.Field r "identifier") with
  | Err err => refuse (Join KErrInvalidIdentifier err)
  | Ok id =>
      let '(k, enabled) := kindFor (service h) id in
      if negb enabled then refuse KErrInvalidIdentifier
      else
        j ← begin h r;
        match j with
        | Err err => refuse err
        | Ok j =>
            hd ← newHandle;
            match hd with
            | Err err => refuse (Join HErrInternal err)
            | Ok hd =>
                bind ← deliverBind (service h) j k;
                match bind with
                | Err err => refuse (Join HErrInternal err)
                | Ok bind =>
                    let p := j_pending j in
                    a ← Issuance.respond (Httpx.RespondPending r p
                          (Httpx.mkResponse 0 (Httpx.handleBody stateCodeSent (CeremonyCodec.Encode hd) bind) []));
                    mret (a, Some (JobCode p k hd id))
                end
            end
        end
  end.

Definition sendCode (s : Service) (delivery : uuid) (p : Pending) (k : Ceremony_.Kind) (hd : CeremonyCodec.Handle) (id : Identity.Identifier)
  : M (res unit) :=
  try (eligible s (p_tenant p) id) (fun x =>
  match x with
  | None => mret (Ok tt)
  | Some (u, st) =>
      try (mret (Bind p (Identity.u_Subject u) st)) (fun p =>
      try (call (fun n => rand_Int s n (10 ^ codeDigits))) (fun n =>
      let code := code_of n in
      try (mret (NewCode hmac_sha256 (codeKey s) code)) (fun d =>
      try (mret (CeremonyCodec.EncodePayload (codecOf k) d)) (fun payload =>
      try (putRecord s p k hd id payload) (fun rec =>
      err ← call (fun n => send s n (mkMessage k delivery (p_tenant p) (Identity.value id) code (CeremonyRec.expiresAt rec)));
      mret (match err with Some err => Err err | None => Ok tt end))))))
  end).

(** The record under a handle and its kind: every kind is looked up, the first found is kept. *)
Fixpoint find_loop (t : TenantID) (hash : bytes) (kinds : list Ceremony_.Kind) (hit : option (CeremonyRec.Rec * Ceremony_.Kind))
  : M (res (CeremonyRec.Rec * Ceremony_.Kind)) :=
  match kinds with
  | [] => mret (match hit with None => Err KErrInvalidCode | Some x => Ok x end)
  | k :: kinds' =>
      rec ← Issuance.on_flows (fun c clk s => (s, fl_Peek c clk t k hash s));
      match rec with
      | Ok rec => find_loop t hash kinds' (match hit with None => Some (rec, k) | Some _ => hit end)
      | Err err => if Is err ErrNotFound then find_loop t hash kinds' hit else mret (Err (Join HErrServiceUnavailable err))
      end
  end.

Definition find (s : Service) (t : TenantID) (hd : CeremonyCodec.Handle) : M (res (CeremonyRec.Rec * Ceremony_.Kind)) :=
  find_loop t (CeremonyCodec.Hash sha256 hd) (codeKinds s) None.

(** The comparison with the decoy is left out: its result is. *)
Definition decoyCheck (s : Service) (t : TenantID) : M unit :=
  match codeKinds s with
  | [] => mret tt
  | k :: _ =>
      _ ← Issuance.on_flows (fun c clk => fl_RecordFailure c clk t k (CeremonyCodec.Hash sha256 (decoy_handle s)));
      mret tt
  end.

(** checkCode up to the charge of an attempt: the code to compare with, what was sealed, and what is left. *)
Record attempt := mkAttempt {
  at_handle : CeremonyCodec.Handle; at_pending : Pending; at_subject : Subject; at_kind : Ceremony_.Kind; at_digest : Code;
  remaining : Z }.

Definition chargeCode (s : Service) (r : Httpx.Request) : M (res attempt) :=
  let t := Httpx.tenant r in
  match CeremonyCodec.ParseHandle (Httpx.Field r "handle") with
  | Err err => mret (Err (Join KErrInvalidCode err))
  | Ok hd =>
      if negb (wellFormedCode (TrimSpace (str_bytes (Httpx.Field r "code")))) then mret (Err KErrInvalidCode)
      else
        x ← find s t hd;
        match x with
        | Err err => _ ← (if Is err KErrInvalidCode then decoyCheck s t else mret tt); mret (Err err)
        | Ok (rec, k) =>
            match openBound rec t KErrInvalidCode with
            | Err err => mret (Err err)
            | Ok (p, sub) =>
                if negb (presentedBind s r p) then _ ← decoyCheck s t; mret (Err KErrInvalidCode)
                else
                  match DecodePayload (codecOf k) unmarshal (CeremonyRec.payload rec) with
                  | Err err => mret (Err (Join KErrInvalidCode err))
                  | Ok d =>
                      n ← Issuance.on_flows (fun c clk => fl_RecordFailure c clk t k (CeremonyCodec.Hash sha256 hd));
                      mret (match n with
                            | Err err => Err (lookupProblem err KErrInvalidCode)
                            | Ok n => Ok (mkAttempt hd p sub k d n)
                            end)
                  end
            end
        end
  end.

Definition checkCode (s : Service) (r : Httpx.Request) : M (res (Pending * Subject * Ceremony_.Kind)) :=
  try (chargeCode s r) (fun a =>
  let code := bytes_str (TrimSpace (str_bytes (Httpx.Field r "code"))) in
  if negb (Matches hmac_sha256 (codeKey s) (at_digest a) code) then mret (Err KErrInvalidCode)
  else if remaining a =? 0 then mret (Ok (at_pending a, at_subject a, at_kind a))
  else
    rec ← Issuance.on_flows (fun c clk => fl_Consume c clk (Httpx.tenant r) (at_kind a) (CeremonyCodec.Hash sha256 (at_handle a)));
    mret (match rec with
          | Err err => Err (lookupProblem err KErrInvalidCode)
          | Ok rec => '(p, sub) ← openBound rec (Httpx.tenant r) KErrInvalidCode; Ok (p, sub, at_kind a)
          end)).

(** The end of both consumers. *)
Definition admit_login (h : handlers) (r : Httpx.Request) (p : Pending) (v : time -> res Verified) : M Httpx.answer :=
  t ← Issuance.now;
  or_fail (mret (internal (v t))) (fun v =>
  _ ← clearBind (service h) p;
  or_fail (Issuance.Complete sha256 (issuer h) r p v) (fun resp =>
  Issuance.respond (Httpx.RespondPending r p resp))).

Definition verifyCode (h : handlers) (r : Httpx.Request) : M Httpx.answer :=
  x ← checkCode (service h) r;
  match x with
  | Err err =>
      _ ← (if Is err KErrInvalidCode
           then Issuance.emit LoginFailed (mkSubject (Httpx.tenant r) uuid_Nil) "invalid_code" [KeyMethod "code"]
           else mret tt);
      fail err
  | Ok (p, sub, k) =>
      admit_login h r p (if k =? Ceremony_.SMSCode then Factors.SMSCode sub else Factors.EmailCode sub)
  end.

(** ** magiclink.go *)
Definition requestLink (h : handlers) (r : Httpx.Request) : M (Httpx.answer * option job) :=
  j ← begin h r;
  match j with
  | Err err => a ← fail err; mret (a, None)
  | Ok j =>
      bind ← deliverBind (service h) j Ceremony_.MagicLink;
      match bind with
      | Err err => a ← fail (Join HErrInternal err); mret (a, None)
      | Ok bind =>
          let p := j_pending j in
          a ← Issuance.respond (Httpx.RespondPending r p (Httpx.mkResponse 202 (Httpx.journeyBody stateLinkRequested bind) []));
          mret (a, match NormalizeAs Identity.IdentifierEmail (Httpx.Field r "identifier") with
                   | Ok id => Some (JobLink p id)
                   | Err _ => None
                   end)
      end
  end.

Definition sendLink (s : Service) (delivery : uuid) (p : Pending) (id : Identity.Identifier) : M (res unit) :=
  try (eligible s (p_tenant p) id) (fun x =>
  match x with
  | None => mret (Ok tt)
  | Some (u, st) =>
      try (mret (Bind p (Identity.u_Subject u) st)) (fun p =>
      try (mret (CeremonyCodec.EncodePayload MagicLink ())) (fun payload =>
      try newHandle (fun hd =>
      try (putRecord s p Ceremony_.MagicLink hd id payload) (fun rec =>
      try (call (fun n => Link s n (p_tenant p) Ceremony_.MagicLink (CeremonyCodec.Encode hd))) (fun link =>
      err ← call (fun n => send s n
              (mkMessage Ceremony_.MagicLink delivery (p_tenant p) (Identity.value id) link (CeremonyRec.expiresAt rec)));
      mret (match err with Some err => Err err | None => Ok tt end))))))
  end).

Definition hint (s : Service) (p : Pending) (sub : Subject) : M (res string) :=
  u ← call (fun n => GetUser s n sub);
  mret (match u with
        | Err err => Err (lookupProblem err KErrInvalidToken)
        | Ok u =>
            if negb (Identity.SecurityEpoch u =? p_epochAtBind p) || negb (time_IsZero (Identity.DeletedAt u))
            then Err KErrInvalidToken else Ok (accountHint (Identity.Email u))
        end).

Definition consumeLink (h : handlers) (r : Httpx.Request) : M Httpx.answer :=
  let t := Httpx.tenant r in
  match CeremonyCodec.ParseHandle (Httpx.Field r "token") with
  | Err err => fail (Join KErrInvalidToken err)
  | Ok hd =>
      let hash := CeremonyCodec.Hash sha256 hd in
      rec ← Issuance.on_flows (fun c clk s => (s, fl_Peek c clk t Ceremony_.MagicLink hash s));
      match rec with
      | Err err => fail (lookupProblem err KErrInvalidToken)
      | Ok rec =>
          or_fail (mret (openBound rec t KErrInvalidToken)) (fun '(p, sub) =>
          if negb (presentedBind (service h) r p) && negb (Httpx.Flag r "confirm")
          then
            or_fail (hint (service h) p sub) (fun hint =>
            Issuance.respond (Httpx.Respond r (Httpx.mkResponse 0 (Httpx.confirmBody stateConfirmRequired hint) [])))
          else
            rec ← Issuance.on_flows (fun c clk => fl_Consume c clk t Ceremony_.MagicLink hash);
            match rec with
            | Err err => fail (lookupProblem err KErrInvalidToken)
            | Ok rec =>
                or_fail (mret (openBound rec t KErrInvalidToken)) (fun '(p, sub) =>
                admit_login h r p (Factors.EmailLink sub))
            end)
      end
  end.
End handlers.
End CodeSvc.

(** ** What the logins rely on in the ceremony store *)
From S2P Require Import VerifiedFacts SessionFacts CeremonyStore CeremonyStoreFacts CeremonyProperties IssuanceFacts FlowProperties.

(** [cd_row s t k h]: the sealed pending and the payload kept under a digest, and the attempts left. *)
Class CodeLaws (F : Type) `{FlowStore F} := {
  cd_inv : F -> Prop;
  cd_row : F -> TenantID -> Ceremony_.Kind -> bytes -> option (Sealed * bytes * Z);
  cd_left s t k h x n : cd_inv s -> cd_row s t k h = Some (x, n) -> 0 < n <= Ceremony_.MaxAttempts k;
  cd_Peek c clk t k h s rec : fl_Peek c clk t k h s = Ok rec -> exists n, cd_row s t k h = Some (CeremonyRec.r_Pending rec, CeremonyRec.payload rec, n);
  cd_Fail c clk t k h s s' n : cd_inv s -> fl_RecordFailure c clk t k h s = (s', Ok n) ->
    exists x, cd_row s t k h = Some (x, n + 1) /\ cd_row s' t k h = (if n =? 0 then None else Some (x, n));
  cd_Consume c clk t k h s s' rec : fl_Consume c clk t k h s = (s', Ok rec) ->
    (exists n, cd_row s t k h = Some (CeremonyRec.r_Pending rec, CeremonyRec.payload rec, n)) /\ cd_row s' t k h = None;
  cd_Fail_shrinks c clk t k h s t' k' h' x n : cd_inv s -> cd_row (fl_RecordFailure c clk t k h s).1 t' k' h' = Some (x, n) ->
    exists m, cd_row s t' k' h' = Some (x, m) /\ n <= m;
  cd_Consume_shrinks c clk t k h s t' k' h' y : cd_row (fl_Consume c clk t k h s).1 t' k' h' = Some y -> cd_row s t' k' h' = Some y;
  cd_Put_shrinks c clk rec s t' k' h' y : CeremonyRec.kind rec <> k' -> cd_row (fl_Put c clk rec s).1 t' k' h' = Some y ->
    cd_row s t' k' h' = Some y;
  cd_Fail_inv c clk t k h s : cd_inv s -> cd_inv (fl_RecordFailure c clk t k h s).1;
  cd_Consume_inv c clk t k h s : cd_inv s -> cd_inv (fl_Consume c clk t k h s).1;
  cd_Put_inv c clk rec s : cd_inv s -> cd_inv (fl_Put c clk rec s).1 }.

(** ** The in-memory store *)
Module MemoryCodes.
Import CeremonyRec CeremonyMemory Ceremony_ MemoryFlows.

Definition counted (s : Store) : Prop := forall k e, rows s !! k = Some e -> 0 <= Attempts (row e) < MaxAttempts k.1.2.

Definition code_row (s : Store) (t : TenantID) (k : Kind) (h : bytes) : option (Sealed * bytes * Z) :=
  (fun e => (RPending (row e), Payload (row e), MaxAttempts k - Attempts (row e))) <$> rows s !! (t, k, h).

Lemma Put_rows ctx clk r s k e : rows (Put ctx clk r s).1 !! k = Some e ->
  rows s !! k = Some e \/ Validate r = None /\ k = put_key r /\ row e = stored_row r.
Proof.
  destruct (Put ctx clk r s) as [s' [n|err]] eqn:E; cbn.
  - apply Put_Ok in E as (_ & Hv & ->). destruct (decide (k = put_key r)) as [->|Hk].
    + intros [He|He]%put_result_at; auto.
    + intros He. left. by eapply put_result_le.
  - assert (s' = s) as ->; [|by left]. revert E. unfold Put. repeat case_match; congruence.
Qed.

(** The three outcomes of RecordFailure. *)
Lemma RecordFailure_cases ctx clk t k h s :
  (exists err, RecordFailure ctx clk t k h s = (s, Err err)) \/
  exists e, rows s !! (t, k, h) = Some e /\
    let left := MaxAttempts k - Attempts (row e) - 1 in
    (left <= 0 /\ RecordFailure ctx clk t k h s = (remove (t, k, h) s, Ok 0) \/
     0 < left /\ RecordFailure ctx clk t k h s =
       (set_entry (t, k, h) (mkEntry (set_Attempts (Attempts (row e) + 1) (row e)) (e_seq e)) s, Ok left)).
Proof.
  unfold RecordFailure. destruct ctx as [err|]; [left; by eexists|]. destruct (lookupKey t k h) as [kk|err] eqn:Ek; [|left; by eexists].
  apply lookupKey_Ok in Ek as [_ ->]. destruct (live _ clk s) as [e|] eqn:El; [|left; by eexists].
  apply live_Some in El as [He _]. right. exists e. split; [done|]. cbn. destruct (_ <=? 0) eqn:E; bools; [left|right]; split; done || lia.
Qed.

Lemma Consume_cases ctx clk t k h s :
  (exists err, Consume ctx clk t k h s = (s, Err err)) \/
  exists e, rows s !! (t, k, h) = Some e /\ Consume ctx clk t k h s = (remove (t, k, h) s, Restore (row e)).
Proof.
  unfold Consume. destruct ctx as [err|]; [left; by eexists|]. destruct (lookupKey t k h) as [kk|err] eqn:Ek; [|left; by eexists].
  apply lookupKey_Ok in Ek as [_ ->]. destruct (live _ clk s) as [e|] eqn:El; [|left; by eexists].
  apply live_Some in El as [He _]. right. by exists e.
Qed.

Lemma code_row_remove kk s t k h y : code_row (remove kk s) t k h = Some y -> code_row s t k h = Some y.
Proof.
  unfold code_row. rewrite rows_remove. destruct (decide (kk = (t, k, h))) as [->|Hne]; [by rewrite lookup_delete_eq|].
  by rewrite lookup_delete_ne.
Qed.

Lemma code_row_removed s t k h : code_row (remove (t, k, h) s) t k h = None.
Proof. unfold code_row. by rewrite rows_remove, lookup_delete_eq. Qed.

Lemma Restore_Pending r rec : Restore r = Ok rec -> r_Pending rec = RPending r /\ payload rec = Payload r.
Proof. unfold Restore. destruct (checkRow r); [done|]. by intros [= <-]. Qed.

Lemma Peek_Restore ctx clk t k h s rec : Peek ctx clk t k h s = Ok rec -> exists e, rows s !! (t, k, h) = Some e /\ Restore (row e) = Ok rec.
Proof.
  unfold Peek. destruct ctx; [done|]. destruct (lookupKey t k h) as [kk|] eqn:Ek; [|done]. apply lookupKey_Ok in Ek as [_ ->]. cbn.
  destruct (live (t, k, h) clk s) as [e|] eqn:El; [|done]. apply live_Some in El as [He _]. by exists e.
Qed.

Lemma counted_remove kk s : counted s -> counted (remove kk s).
Proof. intros Hs k e. rewrite rows_remove, lookup_delete_Some. intros [_ He]. by apply Hs. Qed.

#[export] Program Instance memory_codes : CodeLaws Store := {| cd_inv := counted; cd_row := code_row |}.
Next Obligation.
  intros s t k h x n Hs. unfold code_row. destruct (rows s !! (t, k, h)) as [e|] eqn:He; [|done]. cbn.
  intros [= <- <-]. apply Hs in He. cbn in He. lia.
Qed.
Next Obligation. intros c clk t k h s rec (e & He & [-> ->]%Restore_Pending)%Peek_Restore. unfold code_row. rewrite He. by eexists. Qed.
Next Obligation.
  intros c clk t k h s s' n Hs Hr. cbn in Hr.
  destruct (RecordFailure_cases c clk t k h s) as [[err E]|(e & He & [[Hl E]|[Hl E]])]; rewrite E in Hr; [done|..].
  - injection Hr as <- <-. pose proof (Hs _ _ He) as Hb. cbn in Hb. exists (RPending (row e), Payload (row e)). split; [|apply code_row_removed].
    unfold code_row. rewrite He. cbn. do 2 f_equal. lia.
  - injection Hr as <- <-. exists (RPending (row e), Payload (row e)). unfold code_row, set_entry. cbn. rewrite He, lookup_insert_eq. cbn.
    rewrite (proj2 (Z.eqb_neq _ 0)) by lia. split; do 2 f_equal; lia.
Qed.
Next Obligation.
  intros c clk t k h s s' rec Hc. cbn in Hc. destruct (Consume_cases c clk t k h s) as [[err E]|(e & He & E)]; rewrite E in Hc; [done|].
  injection Hc as <- Hr. apply Restore_Pending in Hr as [Hr Hp]. split; [|apply code_row_removed]. unfold code_row. rewrite He, Hr, Hp. by eexists.
Qed.
Next Obligation.
  intros c clk t k h s t' k' h' x n Hs. cbn.
  destruct (RecordFailure_cases c clk t k h s) as [[err ->]|(e & He & [[Hl ->]|[Hl ->]])]; cbn; intros Hr.
  - by exists n.
  - exists n. split; [|lia]. by apply code_row_remove in Hr.
  - unfold code_row, set_entry in *. cbn in Hr. destruct (decide ((t, k, h) = (t', k', h'))) as [[= <- <- <-]|Hne].
    + rewrite lookup_insert_eq in Hr. cbn in Hr. injection Hr as <- <-. rewrite He. cbn. eexists. split; [done|]. lia.
    + rewrite lookup_insert_ne in Hr by done. exists n. split; [done|lia].
Qed.
Next Obligation.
  intros c clk t k h s t' k' h' y. cbn. destruct (Consume_cases c clk t k h s) as [[err ->]|(e & He & ->)]; cbn; [done|apply code_row_remove].
Qed.
Next Obligation.
  intros c clk rec s t' k' h' y Hk. cbn. unfold code_row. destruct (rows (Put c clk rec s).1 !! _) as [e|] eqn:He; [|done].
  apply Put_rows in He as [->|(_ & [= _ ? _] & _)]; [done|congruence].
Qed.
Next Obligation.
  intros c clk t k h s Hs. cbn. destruct (RecordFailure_cases c clk t k h s) as [[err ->]|(e & He & [[Hl ->]|[Hl ->]])]; cbn; [done|by apply counted_remove|].
  intros k' e'. unfold set_entry. cbn. rewrite lookup_insert_Some. intros [[<- <-]|[_ He']]; [|by apply Hs].
  pose proof (Hs _ _ He) as Hb. cbn in *. lia.
Qed.
Next Obligation.
  intros c clk t k h s Hs. cbn. destruct (Consume_cases c clk t k h s) as [[err ->]|(e & He & ->)]; cbn; [done|by apply counted_remove].
Qed.
Next Obligation.
  intros c clk rec s Hs k e. cbn. intros [He|(Hv & -> & ->)]%Put_rows; [by apply Hs|].
  pose proof (stored_row_ok rec Hv) as Hok. unfold stored_ok in Hok. destruct_and!. done.
Qed.
End MemoryCodes.

Import Session CodePayload CodeSvc.

(** The kinds of the records a passwordless login is begun with. *)
Definition login_kinds : list Ceremony_.Kind := [Ceremony_.EmailCode; Ceremony_.SMSCode; Ceremony_.MagicLink].

Lemma codeKinds_login s k : k ∈ codeKinds s -> k ∈ login_kinds.
Proof. unfold codeKinds, login_kinds. destruct (emailCodes s), (smsCodes s); set_solver. Qed.

Section store.
Context {F : Type} `{CodeLaws F}.

(** [kept t h s s']: from [s] to [s'] no login was stored anew under the digest [h], none was changed and
    none got attempts back. *)
Definition kept (t : TenantID) (h : bytes) (s s' : F) : Prop :=
  cd_inv s -> cd_inv s' /\
  forall k x n, k ∈ login_kinds -> cd_row s' t k h = Some (x, n) -> exists m, cd_row s t k h = Some (x, m) /\ n <= m.

#[export] Instance kept_preorder t h : PreOrder (kept t h).
Proof.
  split.
  - intros s Hs. split; [done|]. intros k x n _ Hx. by exists n.
  - intros a b c Hab Hbc Ha. destruct (Hab Ha) as [Hb Hab']. destruct (Hbc Hb) as [Hc Hbc']. split; [done|].
    intros k x n Hk Hx. destruct (Hbc' k x n Hk Hx) as (m & Hm & Hle). destruct (Hab' k x m Hk Hm) as (m' & Hm' & Hle').
    exists m'. split; [done|lia].
Qed.

Lemma kept_Fail t h c clk t' k' h' s : kept t h s (fl_RecordFailure c clk t' k' h' s).1.
Proof. intros Hs. split; [by apply cd_Fail_inv|]. intros k x n _ Hx. by eapply cd_Fail_shrinks. Qed.

Lemma kept_Consume t h c clk t' k' h' s : kept t h s (fl_Consume c clk t' k' h' s).1.
Proof.
  intros Hs. split; [by apply cd_Consume_inv|]. intros k x n _ Hx. exists n. split; [|done]. by eapply cd_Consume_shrinks.
Qed.

Lemma kept_Put t h c clk rec s : CeremonyRec.kind rec = Ceremony_.MFAFlow -> kept t h s (fl_Put c clk rec s).1.
Proof.
  intros Hk Hs. split; [by apply cd_Put_inv|]. intros k x n Hin Hx. exists n. split; [|done].
  eapply cd_Put_shrinks; [|done]. rewrite Hk. intros <-. apply list_elem_of_In in Hin as [?|[?|[?|[]]]]; discriminate.
Qed.

(** The attempts left under a digest, none when nothing is kept. *)
Definition left (s : F) (t : TenantID) (k : Ceremony_.Kind) (h : bytes) : Z := match cd_row s t k h with Some (_, n) => n | None => 0 end.

Lemma left_range s t k h : cd_inv s -> 0 <= left s t k h <= Z.max 0 (Ceremony_.MaxAttempts k).
Proof. intros Hs. unfold left. destruct (cd_row s t k h) as [[x n]|] eqn:E; [apply cd_left in E; [lia|done]|lia]. Qed.

Lemma kept_left t h s s' k : kept t h s s' -> cd_inv s -> k ∈ login_kinds -> left s' t k h <= left s t k h.
Proof.
  intros Hk Hs Hin. destruct (Hk Hs) as [Hs' Hx]. unfold left at 1. destruct (cd_row s' t k h) as [[x n]|] eqn:E.
  - destruct (Hx k x n Hin E) as (m & Hm & Hle). unfold left. by rewrite Hm.
  - by apply left_range.
Qed.

Lemma Peek_left c clk t k h s rec : cd_inv s -> fl_Peek c clk t k h s = Ok rec -> 0 < left s t k h.
Proof. intros Hs [n Hn]%cd_Peek. unfold left. rewrite Hn. apply cd_left in Hn; [lia|done]. Qed.

Lemma Fail_left c clk t k h s s' n : cd_inv s -> fl_RecordFailure c clk t k h s = (s', Ok n) ->
  left s t k h = n + 1 /\ left s' t k h = n.
Proof.
  intros Hs Hf. destruct (cd_Fail c clk t k h s s' n Hs Hf) as (x & H1 & H2). unfold left. rewrite H1, H2. split; [done|].
  destruct (n =? 0) eqn:E; bools; [by subst|done].
Qed.
End store.

Lemma NewRecord_kind sp op rec : CeremonyRec.NewRecord sp op = Ok rec -> CeremonyRec.kind rec = CeremonyRec.sp_Kind sp.
Proof.
  unfold CeremonyRec.NewRecord, CeremonyRec.Restore. intros Hn. repeat (case_match; try done). by injection Hn as <-.
Qed.

Section facts.
Context {F B T P : Type} `{CodeLaws F, BackendLaws B, EnrollmentSvc.TOTPEnrollment T, EnrollmentSvc.PasskeyEnrollment P, NetURL}.
Context (sha256 : bytes -> bytes) (hmac_sha256 : bytes -> bytes -> bytes).
Implicit Types (e : Issuance.env F B T P) (w : Issuance.world F B) (h : handlers).

(** Other requests store no login anew under the digest, change none and give no attempts back. *)
Definition rely e (t : TenantID) (d : bytes) : Prop := forall n s, kept t d s (Issuance.others e n s).

#[local] Opaque CeremonyRec.NewRecord SealPending Add Admit CeremonyCodec.EncodePayload Cookie.SetFlow Issuance.offered.

Lemma putFlow_kept t d p sub e w : rely e t d -> kept t d (Issuance.flows w) (Issuance.flows (Issuance.putFlow sha256 p sub e w).1).
Proof.
  intros Hr. unfold Issuance.putFlow. prog. destruct (CeremonyCodec.EncodePayload _ _) as [payload|]; [|done].
  cbn. destruct (SealPending p) as [sealed|]; [|done]. cbn. unfold Issuance.draw.
  destruct (Issuance.rand e _) as [raw|]; [|done]. cbn. unfold Issuance.now. cbn.
  destruct (CeremonyRec.NewRecord _ _) as [rec|] eqn:En; [|done]. apply NewRecord_kind in En. cbn in En.
  unfold Issuance.on_flows. cbn. match goal with |- context [fl_Put ?c ?k rec ?s] => pose proof (kept_Put t d c k rec s En) as Hp; destruct (fl_Put c k rec s) as [s' rr] end.
  cbn. etrans; [apply Hr|exact Hp].
Qed.

(** Of the store, a completed login only parks a login that needs a second factor. *)
Lemma Complete_kept t d i r p v e w : rely e t d ->
  kept t d (Issuance.flows w) (Issuance.flows (Issuance.Complete sha256 i r p v e w).1).
Proof.
  intros Hr. unfold Issuance.Complete. prog. destruct (_ || _); [done|]. unfold Issuance.state. cbn.
  destruct (Issuance.accounts e _ _) as [st|]; cbn; [|done]. destruct (Add p v st) as [bound|]; [|done].
  unfold Issuance.decision. cbn. destruct (EnrollmentSvc.enrolled _ _ _) as [dec|]; cbn; [|done].
  unfold Issuance.now, Issuance.newID. cbn. destruct (Admit _ _ _ _ _) as [adm|]; [|done].
  destruct (Session adm) as [a|].
  - unfold Issuance.start. prog. destruct (Issuance.landing _ _ _ _ _) as [w1 l] eqn:El.
    match type of El with Issuance.landing ?x ?y ?z ?q ?u = _ => pose proof (landing_world x y z q u) as Hl; rewrite El in Hl; cbn in Hl; subst w1 end.
    destruct l as [loc|]; [|done]. unfold Issuance.fetch_claims. destruct (FetchClaims _ _) as [evs [claims|]]; cbn; [|done].
    unfold Issuance.on_backend. cbn. by destruct (bk_Start _ _ _ _) as [[b o] [[]|]].
  - destruct (default _ _) as [parked needs]. unfold Issuance.park. prog.
    match goal with |- context [Issuance.clearSession i r ?t e ?w0] => pose proof (clearSession_idle i r t e w0) as [Hf _];
      destruct (Issuance.clearSession i r t e w0) as [w1 []] end. cbn in Hf. rewrite <- Hf.
    destruct (_ =? 0); [done|]. destruct (Issuance.landing _ _ _ e w1) as [w2 l] eqn:El.
    match type of El with Issuance.landing ?x ?y ?z ?q ?u = _ => pose proof (landing_world x y z q u) as Hl; rewrite El in Hl; cbn in Hl; subst w2 end.
    destruct l as [loc|]; [|done]. destruct (Issuance.putFlow sha256 parked _ e w1) as [w2 x] eqn:Ep.
    pose proof (putFlow_kept t d parked (p_subject parked) e w1 Hr) as Hk. rewrite Ep in Hk. cbn in Hk.
    destruct x as [hd|]; [|done]. destruct (p_transport parked =? TransportCookies).
    + unfold Issuance.respond. destruct (Cookie.SetFlow _ _ _ _) as [o [err|]]; done.
    + destruct (p_transport parked =? TransportBearer); done.
Qed.

(** A program that only reads the store or charges attempts. *)
Definition calm (t : TenantID) (d : bytes) w w' : Prop :=
  Issuance.back w' = Issuance.back w /\ Issuance.out w' = Issuance.out w /\ kept t d (Issuance.flows w) (Issuance.flows w').

#[export] Instance calm_preorder t d : PreOrder (calm t d).
Proof. split; [by intros w|]. intros x y z (? & ? & ?) (? & ? & ?). split_and!; [congruence|congruence|by etrans]. Qed.

Lemma on_flows_calm {R} t d (f : Ctx -> time -> F -> F * R) e w : rely e t d ->
  (forall c clk s, kept t d s (f c clk s).1) -> calm t d w (Issuance.on_flows f e w).1.
Proof.
  intros Hr Hf. unfold Issuance.on_flows. match goal with |- context [f ?c ?k ?s] => pose proof (Hf c k s) as Hx; destruct (f c k s) as [s' x] end.
  cbn. split_and!; [done|done|]. cbn. etrans; [apply Hr|exact Hx].
Qed.

(** What [find] found was there. *)
Lemma find_loop_spec t hash d e : rely e t d -> forall ks hit w w' x, find_loop t hash ks hit e w = (w', x) ->
  calm t d w w' /\
  forall rec k, x = Ok (rec, k) -> hit = Some (rec, k) \/
    (k ∈ ks /\ exists n s, kept t d (Issuance.flows w) s /\ kept t d s (Issuance.flows w') /\
       fl_Peek (Issuance.ctx e n) (Issuance.clock e n) t k hash s = Ok rec).
Proof.
  intros Hr. induction ks as [|k ks IH]; intros hit w w' x; cbn [find_loop].
  { intros [= <- <-]. split; [done|]. intros rec k Hx. left. destruct hit as [[rec' k']|]; [|done]. by injection Hx as -> ->. }
  unfold Issuance.on_flows. prog. cbn.
  set (s := Issuance.others e (Issuance.calls w) (Issuance.flows w)).
  set (w1 := Issuance.tick _). assert (calm t d w w1) as Hc by (split_and!; [done|done|]; cbn; apply Hr).
  destruct (fl_Peek _ _ t k hash s) as [rec|err] eqn:Ep.
  - intros Hx. destruct (IH _ _ _ _ Hx) as [Hc' Hres]. split; [by etrans|]. intros rec0 k0 ->.
    destruct (Hres rec0 k0 eq_refl) as [Hh|(Hin & n & s0 & K1 & K2 & K3)].
    + destruct hit as [y|]; [by left|]. injection Hh as <- <-. right. split; [apply list_elem_of_here|].
      exists (Issuance.calls w), s. split_and!; [apply Hr|apply Hc'|done].
    + right. split; [by apply list_elem_of_further|]. exists n, s0. split_and!; [|done|done]. etrans; [apply Hc|done].
  - destruct (Is err ErrNotFound).
    + intros Hx. destruct (IH _ _ _ _ Hx) as [Hc' Hres]. split; [by etrans|]. intros rec0 k0 ->.
      destruct (Hres rec0 k0 eq_refl) as [Hh|(Hin & n & s0 & K1 & K2 & K3)]; [by left|].
      right. split; [by apply list_elem_of_further|]. exists n, s0. split_and!; [|done|done]. etrans; [apply Hc|done].
    + intros [= <- <-]. by split.
Qed.

Lemma decoyCheck_calm s t d t' e w : rely e t d -> calm t d w (decoyCheck sha256 s t' e w).1.
Proof.
  intros Hr. unfold decoyCheck. destruct (codeKinds s) as [|k ks]; [done|]. prog.
  match goal with |- context [Issuance.on_flows ?f e w] => pose proof (on_flows_calm t d f e w Hr) as Hc; destruct (Issuance.on_flows f e w) as [w1 x] end.
  apply Hc. intros c clk s0. apply kept_Fail.
Qed.
Abbreviation digest_of r field := (CeremonyCodec.Hash sha256 <$> CeremonyCodec.ParseHandle (Httpx.Field r field)).

Lemma openBound_Ok rec t inv p sub : openBound rec t inv = Ok (p, sub) ->
  UnsealPending (CeremonyRec.r_Pending rec) = Ok p /\ Bound p = true /\ sub = p_subject p /\ p_tenant p = t /\ Tenant sub = t.
Proof.
  unfold openBound. destruct (UnsealPending _) as [q|]; [|done]. destruct (Bound q) eqn:Eb; [|done]. cbn.
  destruct (_ || _) eqn:Et; [done|]. intros [= <- <-]. bools. destruct_and?. by split_and!.
Qed.

(** A charge is for a login kept under the presented digest, from the browser that began it, and takes one
    attempt off. *)
Lemma chargeCode_spec s r d e w w' x : chargeCode sha256 s r e w = (w', x) -> rely e (Httpx.tenant r) d ->
  calm (Httpx.tenant r) d w w' /\
  forall a, x = Ok a -> let hash := CeremonyCodec.Hash sha256 (at_handle a) in
    CeremonyCodec.ParseHandle (Httpx.Field r "handle") = Ok (at_handle a) /\ at_kind a ∈ codeKinds s /\
    exists n rec s0 s1, kept (Httpx.tenant r) d (Issuance.flows w) s0 /\ kept (Httpx.tenant r) d s0 s1 /\
      fl_Peek (Issuance.ctx e n) (Issuance.clock e n) (Httpx.tenant r) (at_kind a) hash s0 = Ok rec /\
      openBound rec (Httpx.tenant r) KErrInvalidCode = Ok (at_pending a, at_subject a) /\
      presentedBind sha256 s r (at_pending a) = true /\
      DecodePayload (codecOf (at_kind a)) unmarshal (CeremonyRec.payload rec) = Ok (at_digest a) /\
      exists m, fl_RecordFailure (Issuance.ctx e m) (Issuance.clock e m) (Httpx.tenant r) (at_kind a) hash s1 =
        (Issuance.flows w', Ok (remaining a)).
Proof.
  intros Hc Hr. unfold chargeCode in Hc. destruct (CeremonyCodec.ParseHandle _) as [hd|] eqn:Eh; [|by injection Hc as <- <-].
  destruct (negb _); [by injection Hc as <- <-|]. prog. destruct (find sha256 s (Httpx.tenant r) hd e w) as [w1 y] eqn:Ef.
  destruct (find_loop_spec _ _ d e Hr _ _ _ _ _ Ef) as [Hc1 Hfound].
  destruct y as [[rec k]|err].
  2:{ destruct (Is err KErrInvalidCode); [|by injection Hc as <- <-].
      pose proof (decoyCheck_calm s (Httpx.tenant r) d (Httpx.tenant r) e w1 Hr) as Hd. destruct (decoyCheck _ _ _ _ _) as [w2 []].
      injection Hc as <- <-. split; [by etrans|done]. }
  destruct (Hfound rec k eq_refl) as [|(Hk & n & s0 & K1 & K2 & K3)]; [done|].
  destruct (openBound _ _ _) as [[p sub]|err] eqn:Eo; [|by injection Hc as <- <-].
  destruct (presentedBind sha256 s r p) eqn:Eb; cbn in Hc.
  2:{ pose proof (decoyCheck_calm s (Httpx.tenant r) d (Httpx.tenant r) e w1 Hr) as Hd. destruct (decoyCheck _ _ _ _ _) as [w2 []].
      injection Hc as <- <-. split; [by etrans|done]. }
  destruct (DecodePayload _ _ _) as [c|err] eqn:Ed; [|by injection Hc as <- <-].
  unfold Issuance.on_flows in Hc. cbn in Hc.
  match type of Hc with context [fl_RecordFailure ?c ?clk ?t ?k ?h ?s1] =>
    pose proof (kept_Fail t d c clk t k h s1) as Hf; destruct (fl_RecordFailure c clk t k h s1) as [s2 m] eqn:Er end.
  injection Hc as <- <-. cbn in *. pose proof (Hr (Issuance.calls w1) (Issuance.flows w1)) as Hr1. split.
  { etrans; [exact Hc1|]. split_and!; [done|done|]. cbn. by etrans. }
  intros a Ha. destruct m as [m|err]; [|done]. injection Ha as <-. cbn. split; [done|]. split; [done|].
  exists n, rec, s0, (Issuance.others e (Issuance.calls w1) (Issuance.flows w1)). split_and!; [done|by etrans|done..|by eexists].
Qed.

(** [opens s w k d p c]: the store keeps under the digest the sealed login [p] and the payload [c]. *)
Definition opens (s : F) (t : TenantID) (k : Ceremony_.Kind) (d : bytes) (p : Pending) (c : bytes) : Prop :=
  exists sealed n, cd_row s t k d = Some (sealed, c, n) /\ UnsealPending sealed = Ok p.

Lemma Peek_opens ctx clk t k d s s0 rec inv p sub : kept t d s s0 -> cd_inv s -> k ∈ login_kinds ->
  fl_Peek ctx clk t k d s0 = Ok rec -> openBound rec t inv = Ok (p, sub) -> opens s t k d p (CeremonyRec.payload rec).
Proof.
  intros Hk Hs Hin [n Hn]%cd_Peek (Hu & _)%openBound_Ok. destruct (Hk Hs) as [_ Hx]. destruct (Hx k _ _ Hin Hn) as (m & Hm & _).
  by exists (CeremonyRec.r_Pending rec), m.
Qed.

Lemma opens_kept s s' t k d p c p' c' : kept t d s s' -> cd_inv s -> k ∈ login_kinds -> opens s t k d p c -> opens s' t k d p' c' -> p' = p /\ c' = c.
Proof.
  intros Hk Hs Hin (sl & n & R1 & R2) (sl' & n' & R1' & R2'). destruct (Hk Hs) as [_ Hx]. destruct (Hx k _ _ Hin R1') as (m & Hm & _).
  rewrite R1 in Hm. injection Hm as <- <- <-. rewrite R2 in R2'. by injection R2' as <-.
Qed.

(** What stands behind a login by code: it was kept under the digest, came from the browser that began
    it and carried the code kept, and it was taken out. *)
Record by_code (s : Service) (r : Httpx.Request) (d : bytes) w w' (p : Pending) (k : Ceremony_.Kind) : Prop := {
  bc_kind : k ∈ codeKinds s;
  bc_code : exists c dg, opens (Issuance.flows w) (Httpx.tenant r) k d p c /\ DecodePayload (codecOf k) unmarshal c = Ok dg /\
    Matches hmac_sha256 (codeKey s) dg (bytes_str (TrimSpace (str_bytes (Httpx.Field r "code")))) = true;
  bc_bind : presentedBind sha256 s r p = true;
  bc_bound : Bound p = true;
  bc_tenant : p_tenant p = Httpx.tenant r;
  bc_gone : cd_row (Issuance.flows w') (Httpx.tenant r) k d = None }.

Lemma Consume_opens e n t k d s s' rec inv p sub : fl_Consume (Issuance.ctx e n) (Issuance.clock e n) t k d s = (s', Ok rec) ->
  openBound rec t inv = Ok (p, sub) -> opens s t k d p (CeremonyRec.payload rec) /\ cd_row s' t k d = None.
Proof.
  intros ([m Hm] & Hgone)%cd_Consume (Hu & _)%openBound_Ok. split; [|done]. by exists (CeremonyRec.r_Pending rec), m.
Qed.

Lemma checkCode_spec s r hd e w w' x : checkCode sha256 hmac_sha256 s r e w = (w', x) ->
  CeremonyCodec.ParseHandle (Httpx.Field r "handle") = Ok hd -> let d := CeremonyCodec.Hash sha256 hd in
  rely e (Httpx.tenant r) d -> cd_inv (Issuance.flows w) ->
  calm (Httpx.tenant r) d w w' /\ forall p sub k, x = Ok (p, sub, k) -> sub = p_subject p /\ by_code s r d w w' p k.
Proof.
  intros Hc Hh d Hr Hi. unfold checkCode in Hc. prog. destruct (chargeCode sha256 s r e w) as [w1 y] eqn:Ec.
  destruct (chargeCode_spec _ _ d _ _ _ _ Ec Hr) as [Hc1 Hy]. destruct y as [a|err]; [|by injection Hc as <- <-].
  destruct (Hy a eq_refl) as (Hh' & Hk & n & rec & s0 & s1 & K1 & K2 & Hpk & Hop & Hb & Hd & m & Hf). clear Hy.
  rewrite Hh in Hh'. injection Hh' as Eh. rewrite <- Eh in *. fold d in Hc, Hpk, Hf. pose proof (codeKinds_login _ _ Hk) as Hl.
  destruct (Matches _ _ _ _) eqn:Em; cbn in Hc; [|by injection Hc as <- <-].
  pose proof (openBound_Ok _ _ _ _ _ Hop) as (_ & Hbd & Hsub & Hten & _).
  pose proof (Peek_opens _ _ _ _ _ _ _ _ _ _ _ K1 Hi Hl Hpk Hop) as Hopen.
  destruct (remaining a =? 0) eqn:E0.
  - bools. injection Hc as <- <-. split; [done|]. intros p sub k [= <- <- <-]. split; [done|]. split; try done; [by do 2 eexists|].
    destruct (K1 Hi) as [Hi0 _]. destruct (K2 Hi0) as [Hi1 _]. rewrite E0 in Hf. by apply cd_Fail in Hf as (? & _ & ?).
  - unfold Issuance.on_flows in Hc. cbn in Hc.
    match type of Hc with context [fl_Consume ?c ?clk ?t ?k ?h ?s1] =>
      pose proof (kept_Consume t d c clk t k h s1) as Hk2; destruct (fl_Consume c clk t k h s1) as [s2 y] eqn:Er end.
    injection Hc as <- <-. cbn in Hk2. pose proof (Hr (Issuance.calls w1) (Issuance.flows w1)) as Hr1.
    assert (kept (Httpx.tenant r) d (Issuance.flows w1) s2) as Hk3 by (by etrans). split.
    { etrans; [exact Hc1|]. by split_and!. }
    intros p sub k Hx. destruct y as [rec2|]; [|done]. cbn in Hx. destruct (openBound rec2 _ _) as [[p2 sub2]|] eqn:Eo2; [|done].
    injection Hx as <- <- <-. destruct (Consume_opens _ _ _ _ _ _ _ _ _ _ _ Er Eo2) as [Ho2 Hg].
    assert (p2 = at_pending a) as ->.
    { eapply opens_kept; [|exact Hi|exact Hl|exact Hopen|exact Ho2]. etrans; [apply Hc1|done]. }
    apply openBound_Ok in Eo2 as (_ & _ & -> & _ & _). split; [done|]. split; try done. by do 2 eexists.
Qed.

(** *** From the code to the session *)
(** The cookies of the service are those of the issuer. *)
Definition same_cookies h : Prop := cookies (service h) = Issuance.cookies (issuer h).

Abbreviation silent h w w' := (quiet (cookies (service h)) (Issuance.out w) (Issuance.out w')).

(** What a session opened by a login says of it. *)
Record session_of e (p : Pending) (a : SessionAttrs) : Prop := {
  so_subject : a_subject a = p_subject p;
  so_transport : a_transport a = p_transport p;
  so_epoch : a_epoch a = p_epochAtBind p;
  so_factors : always_enrolled e (p_subject p) -> multiFactor (a_factors a) = true }.

Lemma admitted_bound e w w' p v a : IssuanceFacts.admitted e w w' p v a -> Bound p = true -> session_of e p a.
Proof.
  intros (n & st & bound & m & dec & lin & k & t & adm & w1 & _ & Hadd & Hd & _ & Hadm & Hs & _) Hb.
  destruct (Admit_session _ _ _ _ _ _ _ Hadm Hs) as (_ & -> & Hmf). pose proof (Add_ok _ _ _ _ Hadd) as Hao.
  destruct (ao_bind _ _ _ _ Hao) as [(? & _)|(_ & Hsub & He & _)]; [congruence|].
  destruct (ao_frame _ _ _ _ Hao) as (_ & _ & _ & _ & Htr & _). rewrite Hsub in Hd.
  split; cbn; [by rewrite (ao_subject _ _ _ _ Hao)|done|done|].
  intros Henr. apply Hmf. destruct (EnrollmentSvc.enrolled_Ok _ _ _ _ Hd) as (_ & Hreq & _). apply Hreq. cbn.
  destruct Henr as [Hx|Hx]; auto.
Qed.

(** [opened_for h e w w' p a]: of the writes from [w] to [w'] only those of the backend that started [a] for the
    login [p] may carry a credential. *)
Definition opened_for h e w w' (p : Pending) (a : SessionAttrs) : Prop :=
  session_of e p a /\ exists w1 w2, Issuance.back w1 = Issuance.back w /\ silent h w w1 /\ starts e w1 w2 a /\ silent h w2 w' /\
    Issuance.back w' = Issuance.back w2.

#[local] Opaque Httpx.Fail Httpx.respond.

Lemma failed h err e w w' x : Flow.fail err e w = (w', x) ->
  silent h w w' /\ Issuance.flows w' = Issuance.flows w /\ Issuance.back w' = Issuance.back w.
Proof.
  unfold Flow.fail, Issuance.respond. pose proof (quiet_Fail (cookies (service h)) err (Issuance.out w)) as Hq.
  destruct (Httpx.Fail err (Issuance.out w)) as [o ans]. by intros [= <- <-].
Qed.

Lemma clearBind_idle h p e w : let w' := (clearBind (service h) p e w).1 in
  silent h w w' /\ Issuance.flows w' = Issuance.flows w /\ Issuance.back w' = Issuance.back w.
Proof.
  unfold clearBind. destruct (_ =? _); [|done]. unfold Issuance.respond. cbn. split; [apply quiet_Clear|done].
Qed.

Lemma admit_login_spec h r p v e w w' x : admit_login sha256 h r p v e w = (w', x) -> same_cookies h -> tenant_wf (Httpx.tenant r) ->
  Bound p = true ->
  (forall t d, rely e t d -> kept t d (Issuance.flows w) (Issuance.flows w')) /\
  (silent h w w' \/ Issuance.flows w' = Issuance.flows w /\ exists a, opened_for h e w w' p a).
Proof.
  intros Ha Hw Htw Hb. unfold admit_login, Flow.or_fail, Issuance.now in Ha. prog. cbn in Ha.
  destruct (v _) as [vf|err] eqn:Ev; cbn in Ha.
  2:{ apply (failed h) in Ha as (Hq & Hf & _). cbn in Hf. rewrite Hf. split; [done|by left]. }
  destruct (clearBind_idle h p e (Issuance.tick w)) as (Hq1 & Hf1 & Hb1). destruct (clearBind _ p e _) as [w1 []]. cbn in *.
  destruct (Issuance.Complete sha256 (issuer h) r p vf e w1) as [w2 y] eqn:Ec.
  assert (forall t d, rely e t d -> kept t d (Issuance.flows w) (Issuance.flows w2)) as Hkept.
  { intros t d Hr. rewrite <- Hf1. pose proof (Complete_kept t d (issuer h) r p vf e w1 Hr) as Hk. by rewrite Ec in Hk. }
  assert (silent h w2 w' /\ Issuance.flows w' = Issuance.flows w2 /\ Issuance.back w' = Issuance.back w2) as (Hq3 & Hf3 & Hb3).
  { destruct y as [resp|err].
    - unfold Issuance.respond, Httpx.RespondPending in Ha.
      pose proof (quiet_respond (cookies (service h)) r (p_transport p) resp (Issuance.out w2)) as Hq.
      destruct (Httpx.respond _ _ _ _) as [o ans]. by injection Ha as <- <-.
    - by apply (failed h) in Ha. }
  split; [intros t d Hr; rewrite Hf3; by apply Hkept|].
  destruct (Complete_spec _ _ _ _ _ _ _ _ _ Ec Htw) as [_ [[Hq _]|(a & resp & _ & Hadm & Hf2 & _)]].
  - left. rewrite <- Hw in Hq. etrans; [exact Hq1|]. by etrans.
  - right. split; [congruence|]. exists a. split; [by eapply admitted_bound|].
    destruct Hadm as (?&?&?&?&?&?&?&?&?& w3 & _ & _ & _ & _ & _ & _ & E1 & E2 & Hs). exists w3, w2.
    split_and!; [congruence|by rewrite E2|done|done|done].
Qed.

Lemma opened_for_calm h e w w1 w' t d p a : calm t d w w1 -> opened_for h e w1 w' p a -> opened_for h e w w' p a.
Proof. intros (Hb & Ho & _) (Hs & w2 & w3 & E1 & Hq & Hst). split; [done|]. exists w2, w3. rewrite <- Ho. split; [congruence|done]. Qed.

Lemma verifyCode_spec h r hd e w w' x : verifyCode sha256 hmac_sha256 h r e w = (w', x) ->
  CeremonyCodec.ParseHandle (Httpx.Field r "handle") = Ok hd -> let d := CeremonyCodec.Hash sha256 hd in
  rely e (Httpx.tenant r) d -> cd_inv (Issuance.flows w) -> same_cookies h -> tenant_wf (Httpx.tenant r) ->
  kept (Httpx.tenant r) d (Issuance.flows w) (Issuance.flows w') /\
  (silent h w w' \/ exists p k a, by_code (service h) r d w w' p k /\ opened_for h e w w' p a).
Proof.
  intros Hv Hh d Hr Hi Hw Htw. unfold verifyCode in Hv. prog.
  destruct (checkCode sha256 hmac_sha256 (service h) r e w) as [w1 y] eqn:Ec.
  destruct (checkCode_spec _ _ _ _ _ _ _ Ec Hh Hr Hi) as [Hc Hy]. destruct y as [[[p sub] k]|err].
  - destruct (Hy p sub k eq_refl) as [-> Hby].
    destruct (admit_login_spec _ _ _ _ _ _ _ _ Hv Hw Htw (bc_bound _ _ _ _ _ _ _ Hby)) as [Hk Hres]. split.
    { etrans; [apply Hc|by apply Hk]. }
    destruct Hres as [Hq|(Hf & a & Ha)]; [left|right].
    + destruct Hc as (_ & <- & _). exact Hq.
    + exists p, k, a. split; [|by eapply opened_for_calm]. destruct Hby. split; try done. by rewrite Hf.
  - assert (kept (Httpx.tenant r) d (Issuance.flows w) (Issuance.flows w') /\ silent h w w') as [? ?]; [|by split; [|left]].
    destruct Hc as (_ & Ho & Hk). destruct (Is err KErrInvalidCode); cbn in Hv; apply (failed h) in Hv as (Hq & Hf & _); cbn in Hq, Hf;
      rewrite Hf, <- Ho; done.
Qed.

(** What stands behind a login by link: it was kept under the digest, came from the browser that began it
    or was confirmed, and it was taken out. *)
Record by_link (s : Service) (r : Httpx.Request) (d : bytes) w w' (p : Pending) : Prop := {
  bl_link : exists c, opens (Issuance.flows w) (Httpx.tenant r) Ceremony_.MagicLink d p c;
  bl_bind : presentedBind sha256 s r p = true \/ Httpx.Flag r "confirm" = true;
  bl_bound : Bound p = true;
  bl_tenant : p_tenant p = Httpx.tenant r;
  bl_gone : cd_row (Issuance.flows w') (Httpx.tenant r) Ceremony_.MagicLink d = None }.

Lemma hint_idle s p sub e w w' x : hint s p sub e w = (w', x) ->
  Issuance.flows w' = Issuance.flows w /\ Issuance.out w' = Issuance.out w.
Proof. unfold hint, Flow.call. prog. cbn. by intros [= <- <-]. Qed.

Lemma answered h r resp e w w' x : Issuance.respond (Httpx.Respond r resp) e w = (w', x) ->
  silent h w w' /\ Issuance.flows w' = Issuance.flows w.
Proof.
  unfold Issuance.respond, Httpx.Respond. match goal with |- context [Httpx.respond r ?t resp ?o] =>
    pose proof (quiet_respond (cookies (service h)) r t resp o) as Hq; destruct (Httpx.respond r t resp o) as [o' ans] end.
  by intros [= <- <-].
Qed.

Lemma MagicLink_login : Ceremony_.MagicLink ∈ login_kinds.
Proof. unfold login_kinds. set_solver. Qed.

Lemma consumeLink_spec h r hd e w w' x : consumeLink sha256 h r e w = (w', x) ->
  CeremonyCodec.ParseHandle (Httpx.Field r "token") = Ok hd -> let d := CeremonyCodec.Hash sha256 hd in
  rely e (Httpx.tenant r) d -> cd_inv (Issuance.flows w) -> same_cookies h -> tenant_wf (Httpx.tenant r) ->
  silent h w w' \/ exists p a, by_link (service h) r d w w' p /\ opened_for h e w w' p a.
Proof.
  intros Hv Hh d Hr Hi Hw Htw. unfold consumeLink in Hv. rewrite Hh in Hv. fold d in Hv. unfold Issuance.on_flows at 1, Flow.or_fail at 1 in Hv.
  prog. cbn in Hv. set (w1 := Issuance.tick _) in Hv. pose proof (Hr (Issuance.calls w) (Issuance.flows w)) as Hk1.
  assert (calm (Httpx.tenant r) d w w1) as Hc1 by done.
  destruct (fl_Peek _ _ _ _ _ _) as [rec|err] eqn:Ep; [|apply (failed h) in Hv as (Hq & _); by left].
  destruct (openBound rec _ _) as [[p sub]|err] eqn:Eo; [|apply (failed h) in Hv as (Hq & _); by left].
  pose proof (Peek_opens _ _ _ _ _ _ _ _ _ _ _ Hk1 Hi MagicLink_login Ep Eo) as Hopen.
  destruct (negb _ && _) eqn:Eb.
  { left. unfold Flow.or_fail in Hv. prog. destruct (hint _ p sub e w1) as [w2 y] eqn:Eh. apply hint_idle in Eh as [_ Ho].
    change (Issuance.out w) with (Issuance.out w1). rewrite <- Ho.
    destruct y as [hint|err]; [by apply (answered h) in Hv as [? _]|by apply (failed h) in Hv as [? _]]. }
  unfold Issuance.on_flows, Flow.or_fail in Hv. prog. cbn in Hv.
  match type of Hv with context [fl_Consume ?c ?clk ?t ?k ?h ?s1] =>
    pose proof (kept_Consume t d c clk t k h s1) as Hk2; destruct (fl_Consume c clk t k h s1) as [s2 y] eqn:Er end.
  set (w2 := Issuance.tick _) in Hv. cbn in Hk2. 
  pose proof (Hr (Datatypes.S (Issuance.calls w)) (Issuance.flows w1)) as Hr1. cbn in Hr1.
  assert (calm (Httpx.tenant r) d w w2) as Hc2.
  { split_and!; [done|done|]. cbn. etrans; [exact Hk1|]. by etrans. }
  destruct y as [rec2|err]; [|apply (failed h) in Hv as (Hq & _); by left].
  destruct (openBound rec2 _ _) as [[p2 sub2]|err] eqn:Eo2; [|apply (failed h) in Hv as (Hq & _); by left].
  destruct (Consume_opens _ _ _ _ _ _ _ _ _ _ _ Er Eo2) as [Ho2 Hg].
  assert (p2 = p) as ->.
  { eapply opens_kept; [|exact Hi|exact MagicLink_login|exact Hopen|exact Ho2]. etrans; [exact Hk1|exact Hr1]. }
  pose proof (openBound_Ok _ _ _ _ _ Eo2) as (_ & Hb & -> & Hten & _).
  destruct (admit_login_spec _ _ _ _ _ _ _ _ Hv Hw Htw Hb) as [_ [Hq|(Hf & a & Ha)]]; [by left|right].
  exists p, a. split; [|by eapply opened_for_calm]. split; [by eexists| |done|done|by rewrite Hf].
  apply andb_false_iff in Eb as [E|E]; apply negb_false_iff in E; auto.
Qed.

(** *** Guesses *)
(** A charge takes an attempt off what is left under the digest, in whatever kind it was found. *)
Definition guesses_left (s : F) (t : TenantID) (d : bytes) : Z := left s t Ceremony_.EmailCode d + left s t Ceremony_.SMSCode d.

Lemma kept_guesses t d s s' : kept t d s s' -> cd_inv s -> guesses_left s' t d <= guesses_left s t d.
Proof.
  intros Hk Hi. unfold guesses_left.
  assert (left s' t Ceremony_.EmailCode d <= left s t Ceremony_.EmailCode d) by (apply kept_left; [done|done|unfold login_kinds; set_solver]).
  assert (left s' t Ceremony_.SMSCode d <= left s t Ceremony_.SMSCode d) by (apply kept_left; [done|done|unfold login_kinds; set_solver]).
  lia.
Qed.

Lemma Fail_guesses c clk t k d s s' n sv : cd_inv s -> k ∈ codeKinds sv -> fl_RecordFailure c clk t k d s = (s', Ok n) ->
  guesses_left s' t d + 1 <= guesses_left s t d.
Proof.
  intros Hi Hk Hf. pose proof (kept_Fail t d c clk t k d s) as Hkp. rewrite Hf in Hkp. cbn in Hkp.
  destruct (Fail_left _ _ _ _ _ _ _ _ Hi Hf) as [E1 E2]. unfold guesses_left.
  assert (k = Ceremony_.EmailCode \/ k = Ceremony_.SMSCode) as [-> | ->]
    by (revert Hk; unfold codeKinds; destruct (emailCodes sv), (smsCodes sv); set_solver).
  - assert (left s' t Ceremony_.SMSCode d <= left s t Ceremony_.SMSCode d) by (apply kept_left; [done|done|unfold login_kinds; set_solver]). lia.
  - assert (left s' t Ceremony_.EmailCode d <= left s t Ceremony_.EmailCode d) by (apply kept_left; [done|done|unfold login_kinds; set_solver]). lia.
Qed.

Lemma chargeCode_guesses s r hd e w w' x : chargeCode sha256 s r e w = (w', x) ->
  CeremonyCodec.ParseHandle (Httpx.Field r "handle") = Ok hd -> let d := CeremonyCodec.Hash sha256 hd in
  rely e (Httpx.tenant r) d -> cd_inv (Issuance.flows w) ->
  (if okb x then 1 else 0) + guesses_left (Issuance.flows w') (Httpx.tenant r) d <= guesses_left (Issuance.flows w) (Httpx.tenant r) d.
Proof.
  intros Hc Hh d Hr Hi. destruct (chargeCode_spec _ _ d _ _ _ _ Hc Hr) as [(_ & _ & Hk) Hx]. destruct x as [a|err]; cbn [okb].
  - destruct (Hx a eq_refl) as (Hh' & Hkd & n & rec & s0 & s1 & K1 & K2 & _ & _ & _ & _ & m & Hf). rewrite Hh in Hh'. injection Hh' as Eh.
    rewrite <- Eh in Hf. fold d in Hf. destruct (K1 Hi) as [Hi0 _]. destruct (K2 Hi0) as [Hi1 _].
    pose proof (Fail_guesses _ _ _ _ _ _ _ _ _ Hi1 Hkd Hf). pose proof (kept_guesses _ _ _ _ K1 Hi). pose proof (kept_guesses _ _ _ _ K2 Hi0). lia.
  - pose proof (kept_guesses _ _ _ _ Hk Hi). lia.
Qed.

(** What follows a charge gives no attempts back. *)
Lemma verifyCode_charged h r d e w w1 y w' x : chargeCode sha256 (service h) r e w = (w1, y) ->
  verifyCode sha256 hmac_sha256 h r e w = (w', x) -> rely e (Httpx.tenant r) d -> same_cookies h -> tenant_wf (Httpx.tenant r) ->
  kept (Httpx.tenant r) d (Issuance.flows w1) (Issuance.flows w').
Proof.
  intros Hc Hv Hr Hw Htw. destruct (chargeCode_spec _ _ d _ _ _ _ Hc Hr) as [_ Hy]. unfold verifyCode, checkCode in Hv. prog. rewrite Hc in Hv.
  assert (forall w0 err, kept (Httpx.tenant r) d (Issuance.flows w1) (Issuance.flows w0) ->
    (let '(w2, _) := (if Is err KErrInvalidCode
       then Issuance.emit LoginFailed (mkSubject (Httpx.tenant r) uuid_Nil) "invalid_code" [KeyMethod "code"] else (fun _ w => (w, tt))) e w0 in
     Flow.fail err e w2) = (w', x) -> kept (Httpx.tenant r) d (Issuance.flows w1) (Issuance.flows w')) as Hfail.
  { intros w0 err Hk Hf. destruct (Is err _); cbn in Hf; apply (failed h) in Hf as (_ & Hf & _); cbn in Hf; by rewrite Hf. }
  destruct y as [a|err]; [|by eapply Hfail].
  destruct (Hy a eq_refl) as (_ & _ & n & rec & s0 & s1 & _ & _ & _ & Hop & _). clear Hy.
  destruct (negb (Matches _ _ _ _)); [by eapply Hfail|]. destruct (remaining a =? 0).
  { apply openBound_Ok in Hop as (_ & Hb & _). by apply (admit_login_spec _ _ _ _ _ _ _ _ Hv Hw Htw Hb). }
  unfold Issuance.on_flows in Hv. cbn in Hv. match type of Hv with context [fl_Consume ?c ?clk ?t ?k ?h ?s1] =>
    pose proof (kept_Consume t d c clk t k h s1) as Hk2; destruct (fl_Consume c clk t k h s1) as [s2 z] end. cbn in Hk2.
  assert (kept (Httpx.tenant r) d (Issuance.flows w1) s2) as Hk3 by (etrans; [apply Hr|exact Hk2]).
  destruct z as [rec2|err]; [|by eapply Hfail in Hv]. cbn in Hv. destruct (openBound rec2 _ _) as [[p2 sub2]|err] eqn:Eo; [|by eapply Hfail in Hv].
  apply openBound_Ok in Eo as (_ & Hb & _). etrans; [exact Hk3|].
  by apply (admit_login_spec _ _ _ _ _ _ _ _ Hv Hw Htw Hb).
Qed.

(** The requests of a run whose code was compared with the one kept. *)
Fixpoint guesses h (rs : list (Httpx.Request * Issuance.env F B T P)) w : nat :=
  match rs with
  | [] => 0
  | (r, e) :: rs' =>
      ((if okb (chargeCode sha256 (service h) r e w).2 then 1 else 0) + guesses h rs' (verifyCode sha256 hmac_sha256 h r e w).1)%nat
  end.

(** Requests to a tenant that present one handle. *)
Definition aimed (t : TenantID) (hd : CeremonyCodec.Handle) (re : Httpx.Request * Issuance.env F B T P) : Prop :=
  CeremonyCodec.ParseHandle (Httpx.Field re.1 "handle") = Ok hd /\ Httpx.tenant re.1 = t /\ rely re.2 t (CeremonyCodec.Hash sha256 hd).

Lemma guesses_le h t hd rs w : Forall (aimed t hd) rs -> same_cookies h -> tenant_wf t -> cd_inv (Issuance.flows w) ->
  Z.of_nat (guesses h rs w) <= guesses_left (Issuance.flows w) t (CeremonyCodec.Hash sha256 hd).
Proof.
  intros Ha Hw Htw. revert w. induction Ha as [|[r e] rs (Hh & <- & Hr) _ IH]; intros w Hi; cbn [guesses].
  { pose proof (left_range (Issuance.flows w) t Ceremony_.EmailCode (CeremonyCodec.Hash sha256 hd) Hi).
    pose proof (left_range (Issuance.flows w) t Ceremony_.SMSCode (CeremonyCodec.Hash sha256 hd) Hi). unfold guesses_left. lia. }
  cbn [fst snd] in *. destruct (chargeCode sha256 (service h) r e w) as [w1 y] eqn:Ec.
  destruct (verifyCode sha256 hmac_sha256 h r e w) as [w' x] eqn:Ev. cbn [fst snd].
  pose proof (chargeCode_guesses _ _ _ _ _ _ _ Ec Hh Hr Hi) as Hg. cbv zeta in Hg.
  destruct (chargeCode_spec _ _ _ _ _ _ _ Ec Hr) as [(_ & _ & Hk1) _]. destruct (Hk1 Hi) as [Hi1 _].
  pose proof (verifyCode_charged _ _ _ _ _ _ _ _ _ Ec Ev Hr Hw Htw) as Hk2. destruct (Hk2 Hi1) as [Hi2 _].
  pose proof (kept_guesses _ _ _ _ Hk2 Hi1). specialize (IH w' Hi2). destruct (okb y); lia.
Qed.

(** C9: A passwordless login is proved.  Whatever other requests do, short of changing or renewing the login
    kept under the digest of the presented handle, when /code/verify or /magic-link writes a session credential, the store
    kept under that digest, for the tenant of the request, a sealed login that was bound to a subject of the tenant; it
    was taken out of the store; the request came from the browser that began it and carried the very code whose
    keyed digest was kept with it or, for a link, came from that browser or confirmed; and the backend
    started a session for the subject, on the transport and at the epoch sealed in it, with more than one factor when
    that subject has a confirmed TOTP or an active passkey. *)
Theorem passwordless_login_is_proved h r field e w w' x :
  field = "handle" /\ verifyCode sha256 hmac_sha256 h r e w = (w', x) \/ field = "token" /\ consumeLink sha256 h r e w = (w', x) ->
  (forall hd, CeremonyCodec.ParseHandle (Httpx.Field r field) = Ok hd -> rely e (Httpx.tenant r) (CeremonyCodec.Hash sha256 hd)) ->
  cd_inv (Issuance.flows w) -> same_cookies h -> tenant_wf (Httpx.tenant r) ->
  silent h w w' \/
  exists hd p a, CeremonyCodec.ParseHandle (Httpx.Field r field) = Ok hd /\
    (by_link (service h) r (CeremonyCodec.Hash sha256 hd) w w' p \/ exists k, by_code (service h) r (CeremonyCodec.Hash sha256 hd) w w' p k) /\
    opened_for h e w w' p a.
Proof.
  intros Hrun Hr Hi Hw Htw. destruct (CeremonyCodec.ParseHandle (Httpx.Field r field)) as [hd|err] eqn:Eh.
  - specialize (Hr hd eq_refl). destruct Hrun as [[-> Hv]|[-> Hv]].
    + destruct (verifyCode_spec _ _ _ _ _ _ _ Hv Eh Hr Hi Hw Htw) as [_ [Hq|(p & k & a & Hc & Ho)]]; [by left|].
      right. exists hd, p, a. split_and!; [done|right; by exists k|done].
    + destruct (consumeLink_spec _ _ _ _ _ _ _ Hv Eh Hr Hi Hw Htw) as [Hq|(p & a & Hl & Ho)]; [by left|].
      right. exists hd, p, a. split_and!; [done|by left|done].
  - left. destruct Hrun as [[-> Hv]|[-> Hv]].
    + unfold verifyCode, checkCode, chargeCode in Hv. rewrite Eh in Hv. prog.
      destruct (Is _ KErrInvalidCode); cbn in Hv; by apply (failed h) in Hv as [Hq _].
    + unfold consumeLink in Hv. rewrite Eh in Hv. by apply (failed h) in Hv as [Hq _].
Qed.

(** C10: The guesses of a code are bounded.  However many requests present a handle to /code/verify, and
    whatever other requests do in between short of renewing the login kept under its digest, the code they carry is
    compared with the one kept at most MaxAttempts times in all: after that the login is gone. *)
Theorem code_guesses_are_bounded h t hd k rs w : Forall (aimed t hd) rs -> same_cookies h -> tenant_wf t -> cd_inv (Issuance.flows w) ->
  k = Ceremony_.EmailCode \/ k = Ceremony_.SMSCode ->
  (forall k', k' ∈ login_kinds -> k' <> k -> cd_row (Issuance.flows w) t k' (CeremonyCodec.Hash sha256 hd) = None) ->
  Z.of_nat (guesses h rs w) <= Ceremony_.MaxAttempts k.
Proof.
  intros Ha Hw Htw Hi Hk Hone. pose proof (guesses_le h t hd rs w Ha Hw Htw Hi) as Hle. unfold guesses_left in Hle.
  pose proof (left_range (Issuance.flows w) t k (CeremonyCodec.Hash sha256 hd) Hi) as Hr.
  assert (forall k', k' ∈ login_kinds -> k' <> k -> left (Issuance.flows w) t k' (CeremonyCodec.Hash sha256 hd) = 0) as H0'.
  { intros k' Hin Hne. unfold left. by rewrite Hone. }
  destruct Hk as [-> | ->].
  - rewrite (H0' Ceremony_.SMSCode) in Hle by (done || (unfold login_kinds; set_solver)). assert (0 < Ceremony_.MaxAttempts Ceremony_.EmailCode) by done. lia.
  - rewrite (H0' Ceremony_.EmailCode) in Hle by (done || (unfold login_kinds; set_solver)). assert (0 < Ceremony_.MaxAttempts Ceremony_.SMSCode) by done. lia.
Qed.
End facts.

(** ** A sample login by code *)
From S2P Require Import Journey PasskeyStore MfaStore SessionStore Stateful StatefulProperties.
Import Session CodePayload CodeSvc.

#[local] Existing Instances EnrollmentSvc.mfa_TOTPEnrollment EnrollmentSvc.passkey_PasskeyEnrollment MemoryFlows.memory_flows
  MemoryCodes.memory_codes sample_backend sample_backend_laws sample_url.

Definition code_mac (key msg : bytes) : bytes := take 32 (msg ++ key ++ replicate 32 Byte.x00).

Definition code_normalize : string -> res Identity.Identifier :=
  Normalizer.Normalize (fun b => b) Some (fun _ => true) (fun _ => false).

Definition ada_email : Identity.Identifier := Identity.mkIdentifier Identity.IdentifierEmail "ada@acme.example".

Example code_normalize_email : code_normalize " Ada@acme.example" = Ok ada_email.
Proof. vm_compute. reflexivity. Qed.

Definition ada_user : Identity.User_ :=
  Identity.mkUser ada ada_email now0 (Identity.mkIdentifier 0 "") 0 (Identity.mkIdentifier 0 "") 0 0 0 false 3 now0.

Definition code_service : Service :=
  mkService flow_policy true true false (chash "s") (chash "k") (CeremonyCodec.mkHandle (chash "d")) (mkCode (chash "d"))
    (fun _ _ _ => Ok ada_user) (fun _ _ => Ok ada_user) (fun _ _ => Ok st0) (fun _ _ => Ok 42) (fun _ _ _ t => Ok t) (fun _ _ => None).

Definition code_handlers : handlers :=
  mkHandlers code_service (Issuance.mkIssuer (fun _ => false) flow_policy RememberUserChoice (Issuance.mkPages "" "" "" [])).

Definition code_env (t : time) :=
  Issuance.mkEnv (F := CeremonyMemory.Store) (B := Stateful.env SessionsMemory.Store Z * Stateful.world SessionsMemory.Store)
    (fun _ => None) (fun _ => t) (fun _ => Ok (chash "a")) (fun _ => 99) (fun _ _ => Ok st0)
    (fun _ => MfaMemory.NewWithClock) (fun _ => PasskeyMemory.New_) (fun _ => answers0) (fun _ => Ok flow_origins) (fun _ s => s) (fun _ b => b).

Definition code_request (fields : gmap string string) (cookies : list string) : Httpx.Request :=
  Httpx.mkRequest (Http.mkRequest [] cookies [] []) acme fields false [] None TransportCookies.

(** The request for a code, and the delivery it asks for. *)
Definition code_asked := requestCode digest0 code_normalize code_handlers (code_request {["identifier" := "Ada@acme.example"]} []) (code_env c0)
  (flow_world CeremonyMemory.NewWithClock).

Definition code_sent :=
  match code_asked.2.2 with
  | Some (JobCode p k hd id) => sendCode digest0 code_mac code_service 5 p k hd id (code_env c0) code_asked.1
  | _ => (code_asked.1, Err NilPanic)
  end.

Definition code_cookie : string := "__Host-egauth_bind=" +:+ bytes_str (Base64.encode (chash "a")).

Definition code_verify (code : string) : Httpx.Request :=
  code_request {["handle" := CeremonyCodec.Encode (CeremonyCodec.mkHandle (chash "a")); "code" := code]} [code_cookie].

Definition code_world := flow_world (Issuance.flows code_sent.1).

Definition code_login := verifyCode digest0 code_mac code_handlers (code_verify " 000042 ") (code_env (c0 + Second)) code_world.

Example code_login_ok : Httpx.a_status code_asked.2.1 = 200 /\ Httpx.a_status code_login.2 = 200 /\
  credential_added flow_policy (Http.mkResponse [] ∅) (Issuance.out code_login.1) = true.
Proof. split_and!; vm_compute; reflexivity. Qed.

Lemma code_sent_counted : cd_inv (Issuance.flows code_world).
Proof.
  change (map_Forall (fun k e => 0 <= CeremonyRec.Attempts (CeremonyMemory.row e) < Ceremony_.MaxAttempts k.1.2)
    (CeremonyMemory.rows (Issuance.flows code_world))).
  apply (bool_decide_unpack _). vm_compute. exact I.
Qed.

Lemma code_env_rely t tn d : rely (code_env t) tn d.
Proof. by intros n s. Qed.

Lemma passwordless_login_is_proved_witness : exists p a, p_tenant p = acme /\ a_subject a = p_subject p /\ a_epoch a = p_epochAtBind p.
Proof.
  destruct (passwordless_login_is_proved digest0 code_mac code_handlers (code_verify " 000042 ") "handle" (code_env (c0 + Second))
    code_world code_login.1 code_login.2) as [Hq|(hd & p & a & _ & Hby & [Hs _])].
  - left. split; [reflexivity|apply surjective_pairing].
  - intros hd _. apply code_env_rely.
  - exact code_sent_counted.
  - reflexivity.
  - apply acme_wf.
  - exfalso. revert Hq. apply credential_not_quiet, code_login_ok.
  - exists p, a. split; [|split; [apply Hs|apply Hs]]. destruct Hby as [Hl|[k Hc]]; [apply Hl|apply Hc].
Defined.

(** Seven wrong codes: five of them were compared with the one kept. *)
Definition code_wrong := replicate 7 (code_verify "000000", code_env (c0 + Second)).

Example code_wrong_charged : guesses digest0 code_mac code_handlers code_wrong code_world = 5%nat.
Proof. vm_compute. reflexivity. Qed.

Lemma code_guesses_are_bounded_witness :
  Z.of_nat (guesses digest0 code_mac code_handlers code_wrong code_world) <= 5.
Proof.
  apply (code_guesses_are_bounded digest0 code_mac code_handlers acme (CeremonyCodec.mkHandle (chash "a")) Ceremony_.EmailCode).
  - apply Forall_replicate. split; [vm_compute; reflexivity|]. split; [reflexivity|apply code_env_rely].
  - reflexivity.
  - apply acme_wf.
  - exact code_sent_counted.
  - by left.
  - intros k' [<-|[<-|[<-|[]]]]%list_elem_of_In Hne; [done|vm_compute; reflexivity|vm_compute; reflexivity].
Defined.
