(* ===== verification/IdentitySvc.v ===== *)
(** The password service: internal/identitysvc (login.go, identitysvc_password.go, reauth.go, state.go, mutate.go,
    reset.go, register.go, change_password.go, delete.go, the currentAccount of change.go and the construction of
    identitysvc.go) and the library floor of passwords/floor.go.

    A handler is a program over the world of issuance extended with the account, MFA and passkey stores, which other
    requests may change between two calls.  The hasher, the policy, the breach corpus and the links answer as members
    of the service; NFKC, the identifier normaliser, SHA-256 and HMAC-SHA-256 are arguments. *)
From S2P Require Import Prelude Errors Tenant Factor Attrs Pending Transitions Factors Codec StoreBase.
From S2P Require Import CeremonyKind Enrollment PasskeyStore MfaStore GoText Json JsonText Cookie Renewal Redirect Program.
From S2P Require Import IdentityRecord IdentityStore Httpx Issuance Flow CodeSvc.
Import Session.

(** ** The floor on passwords: package passwords *)
Module Passwords.

Definition MinPasswordLength : Z := 8.

Definition MaxPasswordLength : Z := 1024.

Definition maxRawPasswordLength : Z := 4 * MaxPasswordLength.

Definition RuneCount (s : string) : Z := Z.of_nat (length (Normalizer.runes_of (str_bytes s))).

Section floor.
Context (NFKC : bytes -> bytes).

Definition Canonical (password : string) : string := bytes_str (NFKC (str_bytes password)).

Definition Floor (password : string) : res string :=
  if maxRawPasswordLength <? Identity.len password then Err ErrPasswordTooLong
  else if negb (Identity.ValidString password) then Err ErrPasswordEncoding
  else
    let c := Canonical password in
    if MaxPasswordLength <? Identity.len c then Err ErrPasswordTooLong
    else if (RuneCount password <? MinPasswordLength) || (RuneCount c <? MinPasswordLength) then Err ErrPasswordTooShort
    else Ok c.
End floor.
End Passwords.

(** ** The payload of a registration: internal/ceremonycodec *)
Module RegistrationPayload.
Import CeremonyCodec.

Definition maxAddressLen : Z := 320.

Definition maxHashLen : Z := 512.

Record Registration := mkRegistration { Email : string; PasswordHash : string }.

Definition nonEmpty (field v : string) (max : Z) : option error :=
  if bool_decide (v = "") || (max <? Identity.len v) then Some (New (field +:+ " must be 1 to " +:+ bytes_str (JsonText.AppendInt max) +:+ " bytes")) else None.

(** errors.Join of two errors that may be nil. *)
Definition join_opt (a b : option error) : option error :=
  match a, b with Some x, Some y => Some (Join x y) | Some x, None => Some x | None, y => y end.

Definition validate (r : Registration) : option error :=
  join_opt (nonEmpty "email" (Email r) maxAddressLen) (nonEmpty "password hash" (PasswordHash r) maxHashLen).

(** json.Marshal, which escapes HTML. *)
Definition marshal (r : Registration) : bytes :=
  Httpx.escape_html (JsonText.object [("Email", JsonText.quote_ (Email r)); ("PasswordHash", JsonText.quote_ (PasswordHash r))]).

Definition set_field (name : string) (v : bytes) (r : Registration) : option Registration :=
  if bool_decide (name = "Email") then s ← JsonText.into_string v (Email r); Some (mkRegistration s (PasswordHash r))
  else s ← JsonText.into_string v (PasswordHash r); Some (mkRegistration (Email r) s).

Definition unmarshal (b : bytes) : option Registration :=
  JsonText.strictDecode ["Email"; "PasswordHash"] set_field b (mkRegistration "" "").

Definition PendingRegistration : Codec Registration := mkCodec Ceremony_.PendingRegistration (Some validate) marshal.

Definition PasswordReset : Codec Empty := mkCodec Ceremony_.PasswordReset (Some noCheck) (fun _ => JsonText.object []).
End RegistrationPayload.

(** ** The service *)
Module IdentitySvc.
#[local] Existing Instance Identity.Identifier_eq_dec.
Import RegistrationPayload.

Definition LockoutThreshold : Z := 5.

Definition LockoutWindow : duration := 15 * Minute.

Definition stateResetRequested : string := "reset_requested".

Definition statePasswordReset : string := "password_reset".

Definition stateRegistrationRequested : string := "registration_requested".

Definition stateConfirmRequired : string := "confirm_required".

Definition statePasswordChanged : string := "password_changed".

Definition stateAccountDeleted : string := "account_deleted".

Record LinkMessage := mkLinkMessage { lm_DeliveryID : uuid; lm_tenant : TenantID; lm_To : string; lm_Link : string; lm_ExpiresAt : time }.

Record NoticeMessage := mkNoticeMessage { nm_DeliveryID : uuid; nm_tenant : TenantID; nm_To : string }.

(** [Service]: its settings, and how what it calls answers at each call.  A nil breach checker is [None]. *)
Record Service := mkService {
  cookies : Cookie.Policy;
  scopeKey : bytes;
  register : bool;
  loginPage : Redirect.Target;
  noReset : bool;
  dispatcher : bool;
  decoyPHC : string;
  decoyUser : uuid;
  Hash : nat -> string -> res string;
  Compare : nat -> string -> string -> option error;
  policy : nat -> string -> option error;
  breach : option (nat -> string -> res bool);
  Link : nat -> TenantID -> Ceremony_.Kind -> string -> res string }.

(** What a request asks of the delivery workers. *)
Inductive job :=
  | RegistrationLink (m : LinkMessage)
  | AccountExistsNotice (m : NoticeMessage)
  | PasswordResetLink (id : uuid) (p : Pending) (u : Identity.User_) (st : AccountState).

(** The members of a Config that are not nil, and what resolving the breach checker and the scope key gave. *)
Record given := mkGiven {
  has_Identity : bool; has_Ceremonies : bool; has_MFA : bool; has_Passkeys : bool; has_Hasher : bool; has_Policy : bool;
  has_Mailer : bool; has_Links : bool; has_Audit : bool; typed_nil_Dispatcher : bool;
  breach_error : option error; scope_error : option error }.

(** [decoyHash] of [New]; [phc] is the hash of 32 random bytes in base64. *)
Definition usable_hash (phc : res string) : res string :=
  phc ← phc;
  if bool_decide (phc = "") || (Identity.MaxPHCLen <? Identity.len phc)
  then Err (New ("hasher returned an unusable hash of " +:+ bytes_str (JsonText.AppendInt (Identity.len phc)) +:+ " bytes")) else Ok phc.

Definition New_ (g : given) (s : Service) (decoy : res string) : res Service :=
  let need (ok : bool) name := if ok then [] else [New name] in
  let add (e : option error) := match e with Some e => [e] | None => [] end in
  let errs :=
    need (has_Identity g) "Identity" ++ need (has_Ceremonies g) "Ceremonies" ++ need (has_MFA g) "MFA"
    ++ need (has_Passkeys g) "Passkeys" ++ need (has_Hasher g) "Hasher" ++ need (has_Policy g) "Policy"
    ++ need (has_Mailer g) "Mailer" ++ need (has_Links g) "Links" ++ need (has_Audit g) "Audit"
    ++ need (negb (typed_nil_Dispatcher g)) "Dispatcher"
    ++ need (negb (bool_decide (cookies s = Cookie.zero_Policy))) "Cookies"
    ++ add (breach_error g) ++ add (Join (New "DataKey") <$> scope_error g) in
  match errs with
  | e :: es => Err (Join DErrInvalidConfig (JoinAll e es))
  | [] =>
      match usable_hash decoy with
      | Err err => Err (Join DErrInvalidConfig (Join (New "Hasher") err))
      | Ok phc =>
          Ok (mkService (cookies s) (scopeKey s) (register s) (loginPage s) (noReset s) (dispatcher s) phc (decoyUser s)
                (Hash s) (Compare s) (policy s) (breach s) (Link s))
      end
  end.

Definition Endpoints (s : Service) (has_issuer : bool) : res (list string) :=
  if negb has_issuer then Err DErrNilIssuer
  else Ok (["/login"; "/password/forgot"; "/password/reset"] ++ (if register s then ["/register"; "/register/confirm"] else [])).

(** ** Pure parts *)
Definition stateOf (u : Identity.User_) : AccountState :=
  NewAccountState true (negb (time_IsZero (Identity.DisabledAt u))) (negb (time_IsZero (Identity.DeletedAt u)))
    (Identity.u_MustChange u) (negb (time_IsZero (Identity.EmailVerifiedAt u))) (Identity.SecurityEpoch u).

Definition lockoutPolicy : Identity.LockoutPolicy := Identity.mkLockoutPolicy LockoutThreshold LockoutWindow.

Definition loginAllowed (u : Identity.User_) (id : Identity.Identifier) : bool :=
  if negb (time_IsZero (Identity.DisabledAt u)) || negb (time_IsZero (Identity.DeletedAt u)) || time_IsZero (Identity.EmailVerifiedAt u)
  then false
  else negb (Identity.kind id =? Identity.IdentifierPhone) || negb (time_IsZero (Identity.PhoneVerifiedAt u)).

Definition passwordProblem (err : error) : error :=
  if Is err ErrPasswordTooShort then Join DErrPasswordTooShort err
  else if Is err ErrPasswordTooLong then Join DErrPasswordTooLong err
  else if Is err ErrPasswordBreached then Join DErrPasswordBreached err
  else Join DErrPasswordRejected err.

Definition ceremonyProblem (err : error) : error :=
  if Is err ErrNotFound then Join DErrInvalidToken err else Join HErrServiceUnavailable err.

Definition mutationProblem (err : error) : error :=
  if Is err ErrNotFound || Is err ErrTombstoned then Join DErrInvalidToken err
  else if Is err ErrIdentifiersHeld then Join DErrIdentifierHeld err
  else Join HErrServiceUnavailable err.

Definition openReset (rec : CeremonyRec.Rec) (t : TenantID) : res (Pending * Subject) :=
  match UnsealPending (CeremonyRec.r_Pending rec) with
  | Err err => Err (Join DErrInvalidToken err)
  | Ok p =>
      let sub := p_subject p in
      if negb (Bound p) then Err DErrInvalidToken
      else if negb (bool_decide (p_tenant p = t)) || negb (bool_decide (CeremonyRec.tenant rec = t)) || negb (bool_decide (Tenant sub = t))
      then Err HErrUnauthenticated
      else Ok (p, sub)
  end.

Definition openRegistration (UpperTable : Z -> bool) (rec : CeremonyRec.Rec) (t : TenantID)
  : res (Pending * Registration * Identity.Identifier) :=
  match UnsealPending (CeremonyRec.r_Pending rec) with
  | Err err => Err (Join DErrInvalidToken err)
  | Ok p =>
      if negb (bool_decide (p_tenant p = t)) || negb (bool_decide (CeremonyRec.tenant rec = t)) then Err HErrUnauthenticated
      else
        reg ← map_err (Join DErrInvalidToken) (CodePayload.DecodePayload PendingRegistration unmarshal (CeremonyRec.payload rec));
        email ← map_err (Join DErrInvalidToken) (Identity.NewIdentifier UpperTable Identity.IdentifierEmail (Email reg));
        Ok (p, reg, email)
  end.

Section handlers.
Context {F B T P : Type} `{FlowStore F, SessionBackend B, EnrollmentSvc.TOTPEnrollment T, EnrollmentSvc.PasskeyEnrollment P, NetURL}.
Context (sha256 : bytes -> bytes) (hmac_sha256 : bytes -> bytes -> bytes) (NFKC : bytes -> bytes) (UpperTable : Z -> bool).
Context (Normalize : string -> res Identity.Identifier) (NormalizeAs : Z -> string -> res Identity.Identifier).

(** What other requests do to the stores since the previous call, the contexts a transaction reads, the orders in
    which the accounts are visited, the ids of new accounts, and those of deliveries. *)
Record env := mkEnv {
  ie : Issuance.env F B T P;
  uothers : nat -> IdentityMemory.Store -> IdentityMemory.Store;
  mothers : nat -> MfaMemory.Store -> MfaMemory.Store;
  kothers : nat -> PasskeyMemory.Store -> PasskeyMemory.Store;
  actx : nat -> nat -> Ctx;
  range : nat -> list Subject;
  range' : nat -> list Subject;
  newUser : nat -> res uuid;
  uuids : nat -> uuid }.

(** The world of issuance, the account, MFA and passkey stores, the mutations applied and the outbox rows dispatched. *)
Record world := mkWorld {
  iw : Issuance.world F B;
  users : IdentityMemory.Store;
  mfas : MfaMemory.Store;
  keys : PasskeyMemory.Store;
  mutations : list Identity.Mutation;
  dispatched : list (list Identity.OutboxItem) }.

Abbreviation M := (Program.M env world).

Definition set_iw (i : Issuance.world F B) (w : world) : world :=
  mkWorld i (users w) (mfas w) (keys w) (mutations w) (dispatched w).

Definition lift {R} (m : Program.M (Issuance.env F B T P) (Issuance.world F B) R) : M R := fun e w =>
  let '(i, r) := m (ie e) (iw w) in (set_iw i w, r).

Definition on_users {R} (f : nat -> env -> IdentityMemory.Store -> IdentityMemory.Store * R) : M R := fun e w =>
  let n := Issuance.calls (iw w) in
  let '(s, r) := f n e (uothers e n (users w)) in
  (mkWorld (Issuance.tick (iw w)) s (mfas w) (keys w) (mutations w) (dispatched w), r).

Definition ctx_at (e : env) (n : nat) : Ctx := Issuance.ctx (ie e) n.

Definition clock_at (e : env) (n : nat) : time := Issuance.clock (ie e) n.

Definition FindUser (t : TenantID) (id : Identity.Identifier) : M (res Identity.User_) :=
  on_users (fun n e s => (s, IdentityMemory.FindUser (ctx_at e n) (range e n) t id s)).

Definition GetUser (sub : Subject) : M (res Identity.User_) := on_users (fun n e s => (s, IdentityMemory.GetUser (ctx_at e n) sub s)).

Definition GetPassword (sub : Subject) : M (res Identity.PasswordCredential) :=
  on_users (fun n e s => (s, IdentityMemory.GetPassword (ctx_at e n) sub s)).

Definition RecordPasswordFailure (sub : Subject) : M (res Identity.Lockout) :=
  on_users (fun n e s => IdentityMemory.RecordPasswordFailure (ctx_at e n) (clock_at e n) sub lockoutPolicy s).

Definition ResetPasswordFailures (sub : Subject) : M (option error) :=
  on_users (fun n e s => IdentityMemory.ResetPasswordFailures (ctx_at e n) sub s).

Definition call {R} (f : nat -> R) : M R := lift (Flow.call f).

Definition emit t s reason attrs : M unit := lift (Issuance.emit t s reason attrs).

Definition fail (err : error) : M Httpx.answer := lift (Flow.fail err).

Definition or_fail {R} (m : M (res R)) (k : R -> M Httpx.answer) : M Httpx.answer :=
  x ← m; match x with Ok a => k a | Err err => fail err end.

Definition internal {R} (m : res R) : res R := map_err (Join HErrInternal) m.

(** [handlers]: the service and the issuer its endpoints end in. *)
Record handlers := mkHandlers { service : Service; issuer : Issuance.Issuer }.

(** ** identitysvc_password.go *)
Definition AcceptPassword (s : Service) (password : string) : M (res Identity.PasswordHash) :=
  match Passwords.Floor NFKC password with
  | Err err => mret (Err (passwordProblem err))
  | Ok canon =>
      breached ← match breach s with None => mret (Ok false) | Some f => call (fun n => f n canon) end;
      match breached with
      | Err err => mret (Err (Join HErrServiceUnavailable err))
      | Ok true => mret (Err DErrPasswordBreached)
      | Ok false =>
          refused ← call (fun n => policy s n canon);
          match refused with
          | Some err => mret (Err (passwordProblem err))
          | None =>
              phc ← call (fun n => Hash s n canon);
              mret (match phc with
                    | Err err => Err (Join HErrInternal err)
                    | Ok phc =>
                        if bool_decide (phc = "") || (Identity.MaxPHCLen <? Identity.len phc) then Err HErrInternal
                        else Ok (Identity.NewPasswordHash phc)
                    end)
          end
      end
  end.

Definition is_none {A} (o : option A) : bool := match o with None => true | Some _ => false end.

Definition matches (s : Service) (phc password : string) : M (res bool) :=
  let canon := Passwords.Canonical NFKC password in
  err ← call (fun n => Compare s n phc canon);
  legacy ← (if bool_decide (canon = password) then mret err else call (fun n => Compare s n phc password));
  let ok := is_none err || is_none legacy in
  let joined := if bool_decide (canon = password) then err else join_opt err legacy in
  mret (match joined with
        | Some e =>
            if negb ok && (Is e Canceled || Is e DeadlineExceeded) then Err (Join HErrServiceUnavailable e) else Ok ok
        | None => Ok ok
        end).

(** [None] when the decoy was hashed. *)
Definition decoy (s : Service) (password : string) : M (option error) :=
  x ← matches s (decoyPHC s) password; mret (match x with Err err => Some err | Ok _ => None end).

(** ** login.go *)
Definition recordFailure (sub : Subject) : M unit :=
  l ← RecordPasswordFailure sub;
  match l with
  | Err _ => mret tt
  | Ok l =>
      if Identity.JustLocked l then emit AccountLocked sub "password_lockout" [KeyCount (Identity.l_FailedAttempts l)] else mret tt
  end.

Definition chargeDecoy (decoy : Subject) : M unit := _ ← RecordPasswordFailure decoy; mret tt.

(** Both refusals of an identifier no password belongs to. *)
Definition unknown {R} (s : Service) (decoySub : Subject) (password : string) : M (res R) :=
  err ← decoy s password;
  match err with
  | Some err => mret (Err err)
  | None => _ ← chargeDecoy decoySub; mret (Err DErrInvalidCredentials)
  end.

Definition unavailable_store {R} (s : Service) (password : string) (err : error) : M (res R) :=
  _ ← decoy s password; mret (Err (Join HErrServiceUnavailable err)).

(** verifyPassword up to the lockout check: the account, its credential, and whether the password matched. *)
Definition comparePassword (s : Service) (t : TenantID) (rawID password : string)
  : M (res (Identity.User_ * Identity.PasswordCredential * bool)) :=
  match Normalize rawID with
  | Err _ => err ← decoy s password; mret (Err (match err with Some err => err | None => DErrInvalidCredentials : error end))
  | Ok id =>
      u ← FindUser t id;
      let decoySub := mkSubject t (decoyUser s) in
      match u with
      | Err err =>
          if negb (Is err ErrNotFound) then unavailable_store s password err
          else
            cred ← GetPassword decoySub;
            match cred with
            | Err err => if negb (Is err ErrNotFound) then unavailable_store s password err else unknown s decoySub password
            | Ok _ => unknown s decoySub password
            end
      | Ok u =>
          cred ← GetPassword (Identity.u_Subject u);
          match cred with
          | Err err => if negb (Is err ErrNotFound) then unavailable_store s password err else unknown s decoySub password
          | Ok cred =>
              try (matches s (Identity.PHC_of (Identity.pc_PHC cred)) password) (fun ok =>
              t0 ← lift Issuance.now;
              if negb (loginAllowed u id) || time_After (Identity.LockedUntil cred) t0
              then _ ← chargeDecoy decoySub; mret (Err DErrInvalidCredentials)
              else mret (Ok (u, cred, ok)))
          end
      end
  end.

Definition verifyPassword (s : Service) (t : TenantID) (rawID password : string) : M (res Subject) :=
  try (comparePassword s t rawID password) (fun '(u, cred, ok) =>
  let sub := Identity.u_Subject u in
  if negb ok then _ ← recordFailure sub; mret (Err DErrInvalidCredentials)
  else if 0 <? Identity.FailedAttempts cred
  then
    err ← ResetPasswordFailures sub;
    mret (match err with Some err => Err (Join HErrServiceUnavailable err) | None => Ok sub end)
  else mret (Ok sub)).

(** The end of a login: the verification, its admission and the answer. *)
Definition complete (h : handlers) (r : Httpx.Request) (p : Pending) (v : time -> res Verified) : M Httpx.answer :=
  t ← lift Issuance.now;
  or_fail (mret (internal (v t))) (fun v =>
  or_fail (lift (Issuance.Complete sha256 (issuer h) r p v)) (fun resp =>
  lift (Issuance.respond (Httpx.RespondPending r p resp)))).

Definition login (h : handlers) (r : Httpx.Request) : M Httpx.answer :=
  or_fail (lift (Issuance.Begin (issuer h) r)) (fun p =>
  x ← verifyPassword (service h) (Httpx.tenant r) (Httpx.Field r "identifier") (Httpx.Field r "password");
  match x with
  | Err err =>
      _ ← (if Is err DErrInvalidCredentials
           then emit LoginFailed (mkSubject (Httpx.tenant r) uuid_Nil) "invalid_credentials" [KeyMethod (code FactorPassword)]
           else mret tt);
      fail err
  | Ok sub => complete h r p (Password sub)
  end).

(** ** reauth.go *)
Definition CheckPassword (s : Service) (sub : Subject) (password : string) : M (option error) :=
  cred ← GetPassword sub;
  match cred with
  | Err err =>
      e ← decoy s password;
      mret (Some (if Is err ErrNotFound then match e with Some e => e | None => DErrInvalidCredentials : error end
                  else Join HErrServiceUnavailable err))
  | Ok cred =>
      ok ← matches s (Identity.PHC_of (Identity.pc_PHC cred)) password;
      match ok with
      | Err err => mret (Some err)
      | Ok ok =>
          t ← lift Issuance.now;
          if time_After (Identity.LockedUntil cred) t then mret (Some (DErrInvalidCredentials : error))
          else if negb ok then _ ← recordFailure sub; mret (Some (DErrInvalidCredentials : error))
          else if 0 <? Identity.FailedAttempts cred
          then err ← ResetPasswordFailures sub; mret (Join HErrServiceUnavailable <$> err)
          else mret None
      end
  end.

(** ** state.go *)
Definition AccountState_ (sub : Subject) : M (res AccountState) :=
  u ← GetUser sub;
  mret (match u with
        | Err err => if Is err ErrNotFound then Ok (NewAccountState false false false false false 0) else Err (Join HErrUnavailable err)
        | Ok u => Ok (stateOf u)
        end).

(** ** mutate.go *)
(** One event per kind of identifier that changed, in the order of the rows. *)
Fixpoint auditIdentifierChanges (seen : list Z) (items : list Identity.OutboxItem) : M unit :=
  match items with
  | [] => mret tt
  | it :: items' =>
      if negb (Identity.o_Event it =? Identity.EventIdentifierChanged) || bool_decide (Identity.o_Identifier it ∈ seen)
      then auditIdentifierChanges seen items'
      else
        _ ← emit IdentifierChanged (Identity.o_Subject it) "" [KeyIdentifierKind (Identity.o_Identifier it)];
        auditIdentifierChanges (Identity.o_Identifier it :: seen) items'
  end.

Definition apply_store (m : Identity.Mutation) : M (res Identity.Applied) := fun e w =>
  let n := Issuance.calls (iw w) in
  let '(s, r) := IdentityMemory.Apply (actx e n) (clock_at e n) (range e n) (range' e n) (newUser e n) m (uothers e n (users w)) in
  (mkWorld (Issuance.tick (iw w)) s (mfas w) (keys w) (mutations w ++ if okb r then [m] else []) (dispatched w), r).

Definition dispatch (items : list Identity.OutboxItem) : M unit := fun _ w =>
  (mkWorld (iw w) (users w) (mfas w) (keys w) (mutations w) (dispatched w ++ [items]), tt).

Definition Apply (s : Service) (m : Identity.Mutation) : M (res Identity.Applied) :=
  try (apply_store m) (fun a =>
  _ ← auditIdentifierChanges [] (Identity.Outbox a);
  _ ← (if dispatcher s && negb (bool_decide (Identity.Outbox a = [])) then dispatch (Identity.Outbox a) else mret tt);
  mret (Ok a)).

Definition stillUnverified (sub : Subject) (epoch : Z) : M (option error) :=
  u ← GetUser sub;
  mret (match u with
        | Err err => Some err
        | Ok u =>
            if negb (time_IsZero (Identity.DeletedAt u)) then Some (ErrTombstoned : error)
            else if negb (time_IsZero (Identity.EmailVerifiedAt u)) || (negb (epoch =? 0) && negb (Identity.SecurityEpoch u =? epoch))
            then Some (ErrConflict : error) else None
        end).

Definition del_passkeys (sub : Subject) : M (res unit) := fun e w =>
  let n := Issuance.calls (iw w) in
  let '(s, r) := PasskeyMemory.DeleteForSubject (ctx_at e n) sub (kothers e n (keys w)) in
  (mkWorld (Issuance.tick (iw w)) (users w) (mfas w) s (mutations w) (dispatched w), r).

Definition del_mfa (sub : Subject) : M (res unit) := fun e w =>
  let n := Issuance.calls (iw w) in
  let '(s, r) := MfaMemory.DeleteForSubject (ctx_at e n) sub (mothers e n (mfas w)) in
  (mkWorld (Issuance.tick (iw w)) (users w) s (keys w) (mutations w) (dispatched w), r).

Definition wipe (s : Service) (sub : Subject) (change : Z) (del : M (res unit)) : M (res unit) :=
  try (Apply s (Identity.BumpEpoch sub uuid_Nil change)) (fun a =>
  check (stillUnverified sub (Identity.ap_NewEpoch a)) del).

Definition VerifyEmailOwnership (s : Service) (sub : Subject) (phc : Identity.PasswordHash) : M (res Identity.Applied) :=
  check (stillUnverified sub 0) (
  x ← wipe s sub Identity.FactorPasskeyRemoved (del_passkeys sub);
  match x with
  | Err err => mret (Err (Join (New "identitysvc: wiping passkeys") err))
  | Ok _ =>
      x ← wipe s sub Identity.FactorTOTPRemoved (del_mfa sub);
      match x with
      | Err err => mret (Err (Join (New "identitysvc: wiping TOTP") err))
      | Ok _ => Apply s (Identity.MarkEmailVerified sub phc)
      end
  end).

(** uuid.New, the identifier of a delivery. *)
Definition freshID : M uuid := fun e w =>
  let n := Issuance.calls (iw w) in (set_iw (Issuance.tick (iw w)) w, uuids e n).

(** ** register.go: records *)
Definition newRecord (p : Pending) (k : Ceremony_.Kind) (scope : CeremonyRec.Scope) (payload : bytes)
  : M (res (CeremonyCodec.Handle * CeremonyRec.Rec)) :=
  try (mret (SealPending p)) (fun sealed =>
  raw ← lift Issuance.draw;
  try (mret (CeremonyCodec.NewHandle raw)) (fun hd =>
  t ← lift Issuance.now;
  try (mret (CeremonyRec.NewRecord (CeremonyRec.mkSpec k (CeremonyCodec.Hash sha256 hd) scope sealed payload t)
               (Some CeremonyRec.openPending))) (fun rec =>
  mret (Ok (hd, rec))))).

Definition on_flows {R} (f : Ctx -> time -> F -> F * R) : M R := lift (Issuance.on_flows f).

(** ** reset.go *)
(** What [sendReset] hands the delivery workers. *)
Definition sendReset (s : Service) (p : Pending) (u : Identity.User_) (st : AccountState) : M (option job) :=
  if noReset s then mret None else id ← freshID; mret (Some (PasswordResetLink id p u st)).

Definition requestReset (s : Service) (t : TenantID) (id : Identity.Identifier) (p : Pending) : M (res (option job)) :=
  u ← FindUser t id;
  match u with
  | Err err => mret (if Is err ErrNotFound then Ok None else Err (Join HErrServiceUnavailable err))
  | Ok u =>
      let st := stateOf u in
      if negb (Usable st) || negb (emailVerified st) then mret (Ok None) else j ← sendReset s p u st; mret (Ok j)
  end.

Definition forgotPassword (h : handlers) (r : Httpx.Request) : M (Httpx.answer * option job) :=
  let refuse err : M (Httpx.answer * option job) := a ← fail err; mret (a, None) in
  p ← lift (Issuance.Begin (issuer h) r);
  match p with
  | Err err => refuse err
  | Ok p =>
      x ← match NormalizeAs Identity.IdentifierEmail (Httpx.Field r "identifier") with
          | Ok id => requestReset (service h) (Httpx.tenant r) id p
          | Err _ => mret (Ok None)
          end;
      match x with
      | Err err => refuse err
      | Ok j =>
          a ← lift (Issuance.respond (Httpx.RespondPending r p (Httpx.mkResponse 202 (Httpx.journeyBody stateResetRequested "") [])));
          mret (a, j)
      end
  end.

Definition putReset (s : Service) (id : uuid) (p : Pending) (u : Identity.User_) (st : AccountState) : M (res LinkMessage) :=
  let sub := Identity.u_Subject u in
  try (mret (Bind p sub st)) (fun bound =>
  try (mret (CeremonyCodec.EncodePayload PasswordReset ())) (fun payload =>
  try (newRecord bound Ceremony_.PasswordReset (CeremonyRec.SubjectScope sub) payload) (fun '(hd, rec) =>
  try (on_flows (fun c t => fl_Put c t rec)) (fun _ =>
  try (call (fun n => Link s n (Tenant sub) Ceremony_.PasswordReset (CeremonyCodec.Encode hd))) (fun link =>
  mret (Ok (mkLinkMessage id (Tenant sub) (Identity.value (Identity.Email u)) link (CeremonyRec.expiresAt rec)))))))).

(** The work of a reset link on the delivery workers: the message to send. *)
Definition resetJob (s : Service) (id : uuid) (p : Pending) (u : Identity.User_) (st : AccountState) : M (option LinkMessage) :=
  m ← putReset s id p u st;
  match m with
  | Ok m => mret (Some m)
  | Err _ => _ ← emit DeliveryFailed (Identity.u_Subject u) "password_reset" [KeyDeliveryID id]; mret None
  end.

Definition resetPassword (h : handlers) (r : Httpx.Request) : M Httpx.answer :=
  let t := Httpx.tenant r in
  or_fail (mret (map_err (Join DErrInvalidToken) (CeremonyCodec.ParseHandle (Httpx.Field r "token")))) (fun hd =>
  let hash := CeremonyCodec.Hash sha256 hd in
  rec ← on_flows (fun c clk s => (s, fl_Peek c clk t Ceremony_.PasswordReset hash s));
  or_fail (mret (map_err ceremonyProblem rec)) (fun rec =>
  or_fail (mret (openReset rec t)) (fun _ =>
  or_fail (AcceptPassword (service h) (Httpx.Field r "new_password")) (fun phc =>
  rec ← on_flows (fun c clk => fl_Consume c clk t Ceremony_.PasswordReset hash);
  or_fail (mret (map_err ceremonyProblem rec)) (fun rec =>
  or_fail (mret (openReset rec t)) (fun '(p, sub) =>
  st ← AccountState_ sub;
  or_fail (mret (map_err (Join HErrServiceUnavailable) st)) (fun st =>
  if negb (Usable st) || negb (epoch st =? p_epochAtBind p) then fail DErrInvalidToken
  else
    x ← Apply (service h) (Identity.SetPassword sub phc Identity.RotationPasswordReset uuid_Nil);
    or_fail (mret (map_err mutationProblem x)) (fun _ =>
    _ ← emit AuditPasswordReset sub "" [];
    lift (Issuance.respond (Httpx.RespondPending r p (Httpx.mkResponse 0 (Httpx.journeyBody statePasswordReset "") (loginPage (service h))))))))))))).

(** ** register.go: endpoints *)
Definition putRegistration (s : Service) (p : Pending) (id : Identity.Identifier) (phc : Identity.PasswordHash) (verified : bool)
  : M (res job) :=
  try (mret (CeremonyCodec.EncodePayload PendingRegistration (mkRegistration (Identity.value id) (Identity.PHC_of phc)))) (fun payload =>
  try (mret (Normalizer.Scope hmac_sha256 (scopeKey s) id)) (fun scope =>
  try (newRecord p Ceremony_.PendingRegistration scope payload) (fun '(hd, rec) =>
  try (on_flows (fun c t => fl_Put c t rec)) (fun _ =>
  try (call (fun n => Link s n (p_tenant p) Ceremony_.PendingRegistration (CeremonyCodec.Encode hd))) (fun link =>
  id' ← freshID;
  mret (Ok (if verified then AccountExistsNotice (mkNoticeMessage id' (p_tenant p) (Identity.value id))
            else RegistrationLink (mkLinkMessage id' (p_tenant p) (Identity.value id) link (CeremonyRec.expiresAt rec))))))))).

Definition registerAccount (h : handlers) (r : Httpx.Request) : M (Httpx.answer * option job) :=
  let refuse err : M (Httpx.answer * option job) := a ← fail err; mret (a, None) in
  let orR {R} (m : M (res R)) (k : R -> M (Httpx.answer * option job)) := x ← m; match x with Ok a => k a | Err err => refuse err end in
  orR (mret (map_err (Join DErrInvalidIdentifier) (NormalizeAs Identity.IdentifierEmail (Httpx.Field r "identifier")))) (fun id =>
  orR (AcceptPassword (service h) (Httpx.Field r "password")) (fun phc =>
  orR (lift (Issuance.Begin (issuer h) r)) (fun p =>
  raw ← lift Issuance.draw;
  orR (mret (internal (Cookie.NewBind sha256 raw))) (fun b =>
  orR (mret (internal (WithBindHash p (default [] (Cookie.Hash_ b))))) (fun p =>
  u ← FindUser (Httpx.tenant r) id;
  match u with
  | Err err => if Is err ErrNotFound then mret (Ok false) else mret (Err (Join HErrServiceUnavailable err))
  | Ok u => mret (Ok (negb (time_IsZero (Identity.EmailVerifiedAt u))))
  end ≫= fun verified =>
  orR (mret verified) (fun verified =>
  j ← putRegistration (service h) p id phc verified;
  _ ← match j with Err _ => emit DeliveryFailed (mkSubject (Httpx.tenant r) uuid_Nil) "registration" [] | Ok _ => mret tt end;
  bind ← (if p_transport p =? TransportBearer then mret (Ok (Cookie.b_value b))
          else
            err ← lift (Issuance.respond (Cookie.SetBind (cookies (service h)) b Ceremony_.PendingRegistration));
            mret (match err with Some err => Err (Join HErrInternal err) | None => Ok "" end));
  match bind with
  | Err err => a ← fail err; mret (a, match j with Ok j => Some j | Err _ => None end)
  | Ok bind =>
      a ← lift (Issuance.respond (Httpx.RespondPending r p (Httpx.mkResponse 202 (Httpx.journeyBody stateRegistrationRequested bind) [])));
      mret (a, match j with Ok j => Some j | Err _ => None end)
  end)))))).

Definition presentedBind (s : Service) (r : Httpx.Request) (p : Pending) : bool :=
  let presented :=
    if p_transport p =? TransportBearer then Httpx.Field r "bind" else (Cookie.Read (cookies s) (Httpx.http r) Cookie.Bind).1 in
  Cookie.VerifyBind sha256 presented (p_bindHash p).

Definition createOrVerify (s : Service) (t : TenantID) (email : Identity.Identifier) (phc : Identity.PasswordHash) : M (res Subject) :=
  u ← FindUser t email;
  match u with
  | Err err =>
      if Is err ErrNotFound
      then
        a ← Apply s (Identity.CreateVerified t email phc false Identity.zero_FederatedIdentity);
        match a with
        | Err err => mret (Err (if Is err ErrIdentifierTaken then Join DErrAccountExists err else Join HErrServiceUnavailable err))
        | Ok a => _ ← emit UserRegistered (Identity.ap_Subject a) "" []; mret (Ok (Identity.ap_Subject a))
        end
      else mret (Err (Join HErrServiceUnavailable err))
  | Ok u =>
      if negb (time_IsZero (Identity.EmailVerifiedAt u)) then mret (Err DErrAccountExists)
      else
        let sub := Identity.u_Subject u in
        a ← VerifyEmailOwnership s sub phc;
        match a with
        | Err err =>
            mret (Err (if Is err ErrConflict || Is err ErrTombstoned then Join DErrAccountExists err else Join HErrServiceUnavailable err))
        | Ok _ => _ ← emit AuditEmailVerified sub "" []; mret (Ok sub)
        end
  end.

Definition confirmRegistration (h : handlers) (r : Httpx.Request) : M Httpx.answer :=
  let t := Httpx.tenant r in
  or_fail (mret (map_err (Join DErrInvalidToken) (CeremonyCodec.ParseHandle (Httpx.Field r "token")))) (fun hd =>
  let hash := CeremonyCodec.Hash sha256 hd in
  rec ← on_flows (fun c clk s => (s, fl_Peek c clk t Ceremony_.PendingRegistration hash s));
  or_fail (mret (map_err ceremonyProblem rec)) (fun rec =>
  or_fail (mret (openRegistration UpperTable rec t)) (fun '(p, reg, email) =>
  let bound := presentedBind (service h) r p in
  if negb bound && negb (Httpx.Flag r "confirm")
  then lift (Issuance.respond (Httpx.Respond r (Httpx.mkResponse 0 (Httpx.confirmBody stateConfirmRequired (CodeSvc.accountHint email)) [])))
  else
    rec ← on_flows (fun c clk => fl_Consume c clk t Ceremony_.PendingRegistration hash);
    or_fail (mret (map_err ceremonyProblem rec)) (fun rec =>
    or_fail (mret (openRegistration UpperTable rec t)) (fun '(p, reg, email) =>
    let phc := if bound then Identity.NewPasswordHash (PasswordHash reg) else None in
    or_fail (createOrVerify (service h) t email phc) (fun sub =>
    t0 ← lift Issuance.now;
    or_fail (mret (internal (EmailLink sub t0))) (fun v =>
    _ ← (if p_transport p =? TransportCookies
         then lift (Issuance.respond (fun o => (Cookie.Clear (cookies (service h)) Cookie.Bind o, tt))) else mret tt);
    or_fail (lift (Issuance.Complete sha256 (issuer h) r p v)) (fun resp =>
    lift (Issuance.respond (Httpx.RespondPending r p resp)))))))))).

(** ** Endpoints of a session: change.go, change_password.go and delete.go *)
Record current := mkCurrent { c_attrs : SessionAttrs; c_user : Identity.User_; c_state : AccountState }.

Definition currentAccount (r : Httpx.Request) : M (res current) :=
  match Httpx.session r with
  | None => mret (Err HErrUnauthenticated)
  | Some s =>
      let a := r_attrs s in
      u ← GetUser (a_subject a);
      mret (match u with
            | Err err => Err (if Is err ErrNotFound then Join HErrUnauthenticated err else Join HErrServiceUnavailable err)
            | Ok u =>
                let st := stateOf u in
                if negb (Usable st) || negb (epoch st =? a_epoch a) then Err HErrUnauthenticated else Ok (mkCurrent a u st)
            end)
  end.

Definition checkCurrentPassword (s : Service) (c : current) (password : string) : M (res unit) :=
  let sub := Identity.u_Subject (c_user c) in
  cred ← GetPassword sub;
  match cred with
  | Err err => mret (if Is err ErrNotFound then Ok tt else Err (Join HErrServiceUnavailable err))
  | Ok cred =>
      try (matches s (Identity.PHC_of (Identity.pc_PHC cred)) password) (fun ok =>
      t ← lift Issuance.now;
      if time_After (Identity.LockedUntil cred) t then mret (Err DErrInvalidCredentials)
      else if negb ok then _ ← recordFailure sub; mret (Err DErrInvalidCredentials)
      else mret (Ok tt))
  end.

Definition changePassword (h : handlers) (r : Httpx.Request) : M Httpx.answer :=
  or_fail (currentAccount r) (fun c =>
  or_fail (checkCurrentPassword (service h) c (Httpx.Field r "password")) (fun _ =>
  or_fail (AcceptPassword (service h) (Httpx.Field r "new_password")) (fun phc =>
  let sub := Identity.u_Subject (c_user c) in
  x ← Apply (service h) (Identity.SetPassword sub phc Identity.RotationPasswordChanged (a_lineage (c_attrs c)));
  or_fail (mret (map_err mutationProblem x)) (fun _ =>
  _ ← emit AuditPasswordChanged sub "" [];
  x ← lift (Issuance.Reissue (issuer h) r Httpx.PasswordChangedChange);
  or_fail (mret (map_err (Join HErrUnauthenticated) x)) (fun _ =>
  lift (Issuance.respond (Httpx.Respond r (Httpx.mkResponse 0 (Httpx.journeyBody statePasswordChanged "") [])))))))).

Definition deleteAccount (h : handlers) (r : Httpx.Request) : M Httpx.answer :=
  or_fail (currentAccount r) (fun c =>
  let sub := Identity.u_Subject (c_user c) in
  x ← Apply (service h) (Identity.Tombstone sub);
  or_fail (mret (map_err mutationProblem x)) (fun _ =>
  _ ← emit AccountDeleted sub "" [];
  _ ← (if a_transport (c_attrs c) =? TransportCookies
       then lift (Issuance.respond (fun o => (Issuance.clear_all (cookies (service h)) (Cookie.Discard o), tt))) else mret tt);
  lift (Issuance.respond (Httpx.Respond r (Httpx.mkResponse 0 (Httpx.journeyBody stateAccountDeleted "") [])))) ).
End handlers.
End IdentitySvc.

(** ** What a password login and a reset prove *)
From S2P Require Import VerifiedFacts SessionFacts IdentityFacts IdentityProperties IssuanceFacts FlowProperties.
Import Session RegistrationPayload IdentitySvc.

Lemma factorSet_password p v st bound sub t : Add p v st = Ok bound -> p_verified p = [] -> Password sub t = Ok v ->
  multiFactor (factorSet bound) = false.
Proof.
  intros Ha Hp Hv. pose proof (ao_verified _ _ _ _ (Add_ok _ _ _ _ Ha)) as Hb. rewrite Hp in Hb. cbn in Hb.
  assert (forall f, f ∈ factorSet bound -> f = FactorPassword) as Hf.
  { intros f (v' & Hin & Hf)%elem_of_factorSet. rewrite Hb in Hin. apply list_elem_of_singleton in Hin as ->.
    revert Hv Hf. unfold Password, primary, NewVerified. intros Hv Hf. go_cases. injection Hv as <-. cbn in Hf. set_solver. }
  apply not_true_iff_false. unfold multiFactor. intros Hm. destruct (hasRole _ _ && hasRole _ _) eqn:E.
  - apply andb_true_iff in E as [_ (f & Hin & Hr)%hasRole_true]. apply Hf in Hin as ->. done.
  - apply andb_true_iff in Hm as [Hm _]. unfold Factor.contains in Hm. bools. apply Hf in Hm. done.
Qed.

Section facts.
Context {F B T P : Type} `{FlowStore F, BackendLaws B, EnrollmentSvc.TOTPEnrollment T, EnrollmentSvc.PasskeyEnrollment P, NetURL}.
Context (sha256 : bytes -> bytes) (hmac_sha256 : bytes -> bytes -> bytes) (NFKC : bytes -> bytes) (UpperTable : Z -> bool).
Context (Normalize : string -> res Identity.Identifier) (NormalizeAs : Z -> string -> res Identity.Identifier).
Implicit Types (e : env (F := F) (B := B) (T := T) (P := P)) (w : world (F := F) (B := B)) (h : handlers).

Abbreviation MM := (Program.M (env (F := F) (B := B) (T := T) (P := P)) (world (F := F) (B := B))).

(** *** Programs that write no answer, start no session and apply no mutation *)
Definition aside w w' : Prop :=
  Issuance.out (iw w') = Issuance.out (iw w) /\ Issuance.flows (iw w') = Issuance.flows (iw w) /\
  Issuance.back (iw w') = Issuance.back (iw w) /\ mutations w' = mutations w.

#[export] Instance aside_preorder : PreOrder aside.
Proof. split; [done|]. intros a b c (?&?&?&?) (?&?&?&?). split_and!; congruence. Qed.

Definition sideline {R} (m : MM R) : Prop := forall e w, aside w (m e w).1.

Lemma side_ret {R} (x : R) : sideline (mret x).
Proof. by intros e w. Qed.

Lemma side_bind {R S} (m : MM R) (k : R -> MM S) : sideline m -> (forall x, sideline (k x)) -> sideline (m ≫= k).
Proof.
  intros Hm Hk e w. unfold mbind, M_bind. specialize (Hm e w). destruct (m e w) as [w1 x]. etrans; [exact Hm|apply Hk].
Qed.

Lemma side_call {R} (f : nat -> R) : sideline (call f).
Proof. by intros e w. Qed.

Lemma side_now : sideline (lift Issuance.now).
Proof. by intros e w. Qed.

Lemma side_emit t s r l : sideline (emit t s r l).
Proof. by intros e w. Qed.

Lemma side_users {R} (f : nat -> env -> IdentityMemory.Store -> IdentityMemory.Store * R) : sideline (on_users f).
Proof. intros e w. unfold on_users. by destruct (f _ e _) as [s r]. Qed.

Lemma side_apply {R S} (m : MM (res R)) (k : R -> MM (res S)) : sideline m -> (forall x, sideline (k x)) -> sideline (try m k).
Proof. intros Hm Hk. unfold try. apply side_bind; [done|]. intros [x|err]; [apply Hk|apply side_ret]. Qed.

Ltac side := repeat first
  [ apply side_ret | apply side_call | apply side_now | apply side_emit | apply side_users
  | apply side_apply; [|intros ?] | apply side_bind; [|intros ?] | case_match | progress unfold decoy, matches, recordFailure, chargeDecoy,
      unknown, unavailable_store, FindUser, GetUser, GetPassword, RecordPasswordFailure, ResetPasswordFailures, AccountState_ ].

Lemma AcceptPassword_side s pw : sideline (AcceptPassword NFKC s pw).
Proof. unfold AcceptPassword. side. Qed.

Lemma verifyPassword_side s t id pw : sideline (verifyPassword NFKC Normalize s t id pw).
Proof. unfold verifyPassword, comparePassword. side. Qed.

Lemma AccountState_side sub : sideline (AccountState_ sub).
Proof. side. Qed.

(** *** The password that was compared *)
Lemma matches_spec s phc pw e w w' ok : matches NFKC s phc pw e w = (w', Ok ok) ->
  users w' = users w /\
  (ok = true -> exists n, Compare s n phc (Passwords.Canonical NFKC pw) = None \/ Compare s n phc pw = None).
Proof.
  unfold matches, call, lift, Flow.call. prog. cbn. destruct (bool_decide _) eqn:Ec; cbn; intros Hm.
  - destruct (Compare s _ phc (Passwords.Canonical NFKC pw)) as [err|] eqn:E1; cbn in Hm.
    + destruct (_ || _) in Hm; [done|]. by injection Hm as <- <-.
    + injection Hm as <- <-. split; [done|]. eauto.
  - destruct (Compare s _ phc (Passwords.Canonical NFKC pw)) as [err|] eqn:E1; cbn in Hm;
      [|destruct (Compare s _ phc pw) as [err2|] eqn:E2; cbn in Hm; injection Hm as <- <-; split; [done|eauto|done|eauto]].
    destruct (Compare s _ phc pw) as [err2|] eqn:E2; cbn in Hm.
    + destruct (_ || _) in Hm; [done|]. by injection Hm as <- <-.
    + injection Hm as <- <-. split; [done|]. eauto.
Qed.

Lemma comparePassword_spec s t rawID pw e w w' u cred ok : comparePassword NFKC Normalize s t rawID pw e w = (w', Ok (u, cred, ok)) ->
  let n := Issuance.calls (iw w) in let s1 := uothers e n (users w) in let s2 := uothers e (Datatypes.S n) s1 in
  exists id k, (k <= Issuance.calls (iw w'))%nat /\ Normalize rawID = Ok id /\ IdentityMemory.FindUser (ctx_at e n) (range e n) t id s1 = Ok u /\
    IdentityMemory.GetPassword (ctx_at e (Datatypes.S n)) (Identity.u_Subject u) s2 = Ok cred /\ users w' = s2 /\
    loginAllowed u id = true /\ time_After (Identity.LockedUntil cred) (clock_at e k) = false /\
    (ok = true -> exists m, let phc := Identity.PHC_of (Identity.pc_PHC cred) in
       Compare s m phc (Passwords.Canonical NFKC pw) = None \/ Compare s m phc pw = None).
Proof.
  intros Hc. cbv zeta. unfold comparePassword in Hc. destruct (Normalize rawID) as [id|err] eqn:En.
  2:{ prog. by destruct (decoy NFKC s pw e w) as [w1 [?|]]. }
  unfold FindUser, GetPassword, on_users in Hc. prog. cbn in Hc.
  assert (forall (R : Type) s' p e0 w0 err0 w1 (x : R), unavailable_store NFKC s' p err0 e0 w0 <> (w1, Ok x)) as Hun.
  { intros R s' p e0 w0 err0 w1 x. unfold unavailable_store. prog. by destruct (decoy NFKC s' p e0 w0). }
  assert (forall (R : Type) s' d p e0 w0 w1 (x : R), unknown NFKC s' d p e0 w0 <> (w1, Ok x)) as Huk.
  { intros R s' d p e0 w0 w1 x. unfold unknown. prog. destruct (decoy NFKC s' p e0 w0) as [w2 [?|]]; [done|]. by destruct (chargeDecoy d e0 w2). }
  destruct (IdentityMemory.FindUser _ _ t id _) as [u0|err] eqn:Ef.
  2:{ destruct (negb _); [by apply Hun in Hc|]. cbn in Hc. destruct (IdentityMemory.GetPassword _ _ _) as [c|err2]; [by apply Huk in Hc|].
      destruct (negb _); [by apply Hun in Hc|by apply Huk in Hc]. }
  cbn in Hc. destruct (IdentityMemory.GetPassword _ _ _) as [c|err] eqn:Eg.
  2:{ destruct (negb _); [by apply Hun in Hc|by apply Huk in Hc]. }
  destruct (matches NFKC s _ pw e _) as [w1 [ok0|err]] eqn:Em; [|done]. apply matches_spec in Em as [Hu Hok]. cbn in Hu.
  unfold lift, Issuance.now in Hc. cbn in Hc. destruct (negb (loginAllowed u0 id) || _) eqn:El.
  { by destruct (chargeDecoy _ _ _). }
  injection Hc as <- <- <- <-. apply orb_false_iff in El as [El1%negb_false_iff El2]. exists id, (Issuance.calls (iw w1)).
  split; [cbn; lia|]. split_and!; done.
Qed.

(** *** From the password to the session *)
Abbreviation silent pol w w' := (quiet pol (Issuance.out (iw w)) (Issuance.out (iw w'))).

#[local] Opaque Httpx.Fail Httpx.respond.

Lemma fail_silent pol err e w w' x : fail err e w = (w', x) ->
  silent pol w w' /\ mutations w' = mutations w /\ Issuance.back (iw w') = Issuance.back (iw w).
Proof.
  unfold fail, lift, Flow.fail, Issuance.respond. pose proof (quiet_Fail pol err (Issuance.out (iw w))) as Hq.
  destruct (Httpx.Fail err (Issuance.out (iw w))) as [o ans]. by intros [= <- <-].
Qed.

Lemma respond_silent pol r t resp e w w' x : lift (Issuance.respond (Httpx.respond r t resp)) e w = (w', x) ->
  silent pol w w' /\ mutations w' = mutations w /\ Issuance.back (iw w') = Issuance.back (iw w) /\ Issuance.flows (iw w') = Issuance.flows (iw w).
Proof.
  unfold lift, Issuance.respond. pose proof (quiet_respond pol r t resp (Issuance.out (iw w))) as Hq.
  destruct (Httpx.respond r t resp (Issuance.out (iw w))) as [o ans]. by intros [= <- <-].
Qed.

(** [opened pol e w w' p v a]: the backend started the session [a] the journey [p] and the verification [v] were admitted to,
    and nothing else written carries a credential. *)
Definition opened pol e w w' (p : Pending) (v : Verified) (a : SessionAttrs) : Prop :=
  exists i1 i2, Issuance.back i1 = Issuance.back (iw w) /\ quiet pol (Issuance.out (iw w)) (Issuance.out i1) /\
    IssuanceFacts.admitted (ie e) i1 i2 p v a /\ quiet pol (Issuance.out i2) (Issuance.out (iw w')) /\ Issuance.back (iw w') = Issuance.back i2.

(** The end of a login: admission and answer. *)
Lemma admit_spec h r p v e w w' x :
  or_fail (lift (Issuance.Complete sha256 (issuer h) r p v)) (fun resp => lift (Issuance.respond (Httpx.RespondPending r p resp))) e w = (w', x) ->
  tenant_wf (Httpx.tenant r) ->
  mutations w' = mutations w /\
  (silent (Issuance.cookies (issuer h)) w w' \/ exists a, opened (Issuance.cookies (issuer h)) e w w' p v a).
Proof.
  intros Hc Htw. unfold or_fail in Hc. prog. destruct (lift _ e w) as [w1 y] eqn:El. unfold lift in El.
  destruct (Issuance.Complete sha256 (issuer h) r p v (ie e) (iw w)) as [i1 y'] eqn:Ec. injection El as <- ->.
  pose proof (Complete_spec _ _ _ _ _ _ _ _ _ Ec Htw) as [_ Hs].
  assert (quiet (Issuance.cookies (issuer h)) (Issuance.out i1) (Issuance.out (iw w')) /\ mutations w' = mutations w /\
    Issuance.back (iw w') = Issuance.back i1) as (Hq & Hm & Hb).
  { destruct y as [resp|err]; [by apply (respond_silent (Issuance.cookies (issuer h))) in Hc as (? & ? & ? & _)|by apply (fail_silent (Issuance.cookies (issuer h))) in Hc]. }
  split; [done|]. destruct Hs as [[Hq1 _]|(a & resp & _ & Ha & _)]; [left; by etrans|right]. exists a, (iw w), i1. by split_and!.
Qed.

Lemma complete_spec h r p v e w w' x : complete sha256 h r p v e w = (w', x) -> tenant_wf (Httpx.tenant r) ->
  mutations w' = mutations w /\
  (silent (Issuance.cookies (issuer h)) w w' \/
   exists t vf a, v t = Ok vf /\ opened (Issuance.cookies (issuer h)) e w w' p vf a).
Proof.
  intros Hc Htw. unfold complete in Hc. prog. unfold lift at 1, Issuance.now in Hc. cbn in Hc. unfold or_fail at 1 in Hc. prog.
  destruct (v _) as [vf|err] eqn:Ev; cbn in Hc.
  - apply admit_spec in Hc as [Hm [Hq|(a & Ho)]]; [..|done]; (split; [done|]); [by left|right]. do 2 eexists. by exists a.
  - apply (fail_silent (Issuance.cookies (issuer h))) in Hc as (Hq & Hm & _). split; [done|by left].
Qed.

Lemma Begin_spec i r e w w' x : lift (Issuance.Begin i r) e w = (w', x) ->
  aside w w' /\ users w' = users w /\ forall p, x = Ok p -> p_verified p = [] /\ p_tenant p = Httpx.tenant r.
Proof.
  unfold lift, Issuance.Begin, Issuance.target. prog. cbn.
  match goal with |- context [if bool_decide ?a then ?b else ?c] => set (tg := if bool_decide a then b else c) end.
  destruct tg as [tg'|err]; cbn; [|intros [= <- <-]; by split_and!]. intros [= <- <-]. split; [done|]. split; [done|].
  intros p Hp. destruct (NewPending _ _ _ _ _ _) as [q|] eqn:En; [|done]. cbn in Hp. injection Hp as <-.
  revert En. unfold NewPending. intros En. go_cases; cbn; done.
Qed.

(** What a right password is: between other requests, the store had an account of the tenant under the identifier, which
    may log in, and then a password for it that was not locked and that the hasher accepts. *)
Definition right_password (s : Service) (t : TenantID) (rawID password : string) e (st : IdentityMemory.Store) (sub : Subject) : Prop :=
  exists id n k m key a b c, let s1 := uothers e n st in let s2 := uothers e (Datatypes.S n) s1 in
    Normalize rawID = Ok id /\
    IdentityMemory.accounts s1 !! key = Some a /\ Tenant key = t /\ IdentityMemory.owns id a = true /\
    loginAllowed (IdentityMemory.view a) id = true /\ Identity.u_Subject (IdentityMemory.user a) = sub /\
    IdentityMemory.accounts s2 !! sub = Some b /\ IdentityMemory.passwd b = Some c /\
    time_After (IdentityMemory.lockedUntil c) (clock_at e k) = false /\
    (Compare s m (Identity.PHC_of (IdentityMemory.phc c)) (Passwords.Canonical NFKC password) = None \/
     Compare s m (Identity.PHC_of (IdentityMemory.phc c)) password = None).

Lemma visit_found {A} range (f : Subject -> IdentityMemory.account -> option A) m x : IdentityMemory.visit range f m = Some x ->
  exists k a, m !! k = Some a /\ f k a = Some x.
Proof.
  induction range as [|k range IH]; cbn; [done|]. destruct (m !! k) as [a|] eqn:E; [|exact IH].
  destruct (f k a) eqn:Ef; [|exact IH]. intros [= <-]. by exists k, a.
Qed.

Lemma FindUser_spec ctx range t id s u : IdentityMemory.FindUser ctx range t id s = Ok u ->
  exists key a, IdentityMemory.accounts s !! key = Some a /\ Tenant key = t /\ IdentityMemory.owns id a = true /\ u = IdentityMemory.view a.
Proof.
  unfold IdentityMemory.FindUser. destruct ctx; [done|]. destruct (_ && _); [done|]. destruct (IdentityMemory.owner _ _ _ _ _) as [a|] eqn:E; [|done].
  intros [= <-]. unfold IdentityMemory.owner in E. apply visit_found in E as (key & b & Hk & Hf). destruct (_ || _) eqn:Eo; [done|].
  destruct (IdentityMemory.owns id b) eqn:Ew; [|done]. injection Hf as <-. bools. destruct_and?. by exists key, b.
Qed.

Lemma GetPassword_spec ctx sub s c : IdentityMemory.GetPassword ctx sub s = Ok c ->
  exists b p, IdentityMemory.accounts s !! sub = Some b /\ IdentityMemory.passwd b = Some p /\
    Identity.pc_PHC c = IdentityMemory.phc p /\ Identity.LockedUntil c = IdentityMemory.lockedUntil p.
Proof.
  unfold IdentityMemory.GetPassword, IdentityMemory.existing. destruct ctx; [done|].
  destruct (IdentityMemory.accounts s !! sub) as [b|] eqn:E; [|done]. cbn. destruct (IdentityMemory.passwd b) as [p|] eqn:Ep; [|done].
  intros [= <-]. by exists b, p.
Qed.

Lemma verifyPassword_Ok s t rawID pw e w w' sub : verifyPassword NFKC Normalize s t rawID pw e w = (w', Ok sub) ->
  right_password s t rawID pw e (users w) sub.
Proof.
  unfold verifyPassword. prog. destruct (comparePassword NFKC Normalize s t rawID pw e w) as [w1 [[[u cred] ok]|err]] eqn:Ec; [|done].
  apply comparePassword_spec in Ec as (id & k & _ & Hn & Hf & Hg & _ & Hl & Hk & Hok). destruct ok; cbn.
  2:{ by destruct (recordFailure _ _ _). }
  intros Hr. assert (sub = Identity.u_Subject u) as ->.
  { destruct (0 <? _); [|by injection Hr]. destruct (ResetPasswordFailures _ _ _) as [w2 [err|]]; [done|by injection Hr]. }
  destruct (Hok eq_refl) as [m Hm]. apply FindUser_spec in Hf as (key & a & Ha & Ht & Hw & ->).
  apply GetPassword_spec in Hg as (b & c & Hb & Hp & Hphc & Hlk). rewrite Hphc in Hm. rewrite Hlk in Hk.
  exists id, (Issuance.calls (iw w)), k, m, key, a, b, c. by split_and!.
Qed.

Lemma opened_aside pol e w w1 w' p v a : aside w w1 -> opened pol e w1 w' p v a -> opened pol e w w' p v a.
Proof. intros (Ho & _ & Hb & _) (i1 & i2 & E1 & E2 & Hx). exists i1, i2. rewrite <- Ho, <- Hb. done. Qed.

Lemma opened_subject pol e w w' p v a : opened pol e w w' p v a -> a_subject a = v_subject v.
Proof.
  intros (i1 & i2 & _ & _ & (n & st & bound & m & dec & lin & k & t & adm & w3 & _ & Hadd & _ & _ & Hadm & Hs & _) & _).
  destruct (Admit_session _ _ _ _ _ _ _ Hadm Hs) as (_ & -> & _). cbn. by rewrite (ao_subject _ _ _ _ (Add_ok _ _ _ _ Hadd)).
Qed.

(** Nobody with a second factor gets a session for a password. *)
Lemma opened_password pol e w w' p v a sub t : opened pol e w w' p v a -> p_verified p = [] -> Password sub t = Ok v ->
  v_subject v = sub -> ~ always_enrolled (ie e) sub.
Proof.
  intros (i1 & i2 & _ & _ & (n & st & bound & m & dec & lin & k & t' & adm & w3 & _ & Hadd & Hd & _ & Hadm & Hs & _) & _) Hp Hv Hsub Henr.
  destruct (Admit_session _ _ _ _ _ _ _ Hadm Hs) as (_ & _ & Hmf). rewrite Hsub in Hd.
  rewrite (factorSet_password _ _ _ _ _ _ Hadd Hp Hv) in Hmf.
  destruct (EnrollmentSvc.enrolled_Ok _ _ _ _ Hd) as (_ & Hreq & _). assert (false = true); [|done]. apply Hmf, Hreq. cbn.
  destruct Henr as [Hx|Hx]; auto.
Qed.

Lemma Password_subject sub t v : Password sub t = Ok v -> v_subject v = sub.
Proof. unfold Password, primary, NewVerified. destruct (_ || _); [done|]. destruct (checkVerifiedShape _ _ _ _); [done|]. by intros [= <-]. Qed.

(** C11: A login by password is proved.  Whatever other requests do, when /login writes a session credential, the
    identifier named an account of the tenant of the request that was neither disabled nor deleted and had its email (and
    phone, when logging in by it) verified; the password stored for that account was not locked and the hasher accepted
    the presented password, or its canonical form, against it; the session was started for that very account; and that
    account has neither a confirmed TOTP nor an active passkey throughout, or the login would have been parked. *)
Theorem password_login_is_proved h r e w w' x : login sha256 NFKC Normalize h r e w = (w', x) -> tenant_wf (Httpx.tenant r) ->
  silent (Issuance.cookies (issuer h)) w w' \/
  exists sub t p v a, right_password (service h) (Httpx.tenant r) (Httpx.Field r "identifier") (Httpx.Field r "password") e (users w) sub /\
    Password sub t = Ok v /\ p_tenant p = Httpx.tenant r /\ a_subject a = sub /\ ~ always_enrolled (ie e) sub /\
    opened (Issuance.cookies (issuer h)) e w w' p v a.
Proof.
  intros Hl Htw. unfold login, or_fail in Hl. prog. destruct (lift (Issuance.Begin _ _) e w) as [w1 y] eqn:Eb.
  apply Begin_spec in Eb as (Ha1 & Hu1 & Hp). destruct y as [p|err].
  2:{ left. apply (fail_silent (Issuance.cookies (issuer h))) in Hl as (Hq & _). destruct Ha1 as (<- & _). done. }
  destruct (Hp p eq_refl) as [Hpv Hpt]. clear Hp.
  pose proof (verifyPassword_side (service h) (Httpx.tenant r) (Httpx.Field r "identifier") (Httpx.Field r "password") e w1) as Ha2.
  destruct (verifyPassword _ _ _ _ _ _ e w1) as [w2 z] eqn:Ev. cbn in Ha2. assert (aside w w2) as Ha by (by etrans).
  destruct z as [sub|err].
  - apply verifyPassword_Ok in Ev. rewrite Hu1 in Ev. apply complete_spec in Hl as [_ [Hq|(t & v & a & Hv & Ho)]]; [..|done].
    + left. destruct Ha as (<- & _). done.
    + right. pose proof (Password_subject _ _ _ Hv) as Hsub. exists sub, t, p, v, a.
      split_and!; [done|done|done|by rewrite (opened_subject _ _ _ _ _ _ _ Ho)|by eapply opened_password|by eapply opened_aside].
  - left. destruct Ha as (<- & _). destruct (Is err _); cbn in Hl; by apply (fail_silent (Issuance.cookies (issuer h))) in Hl as (Hq & _).
Qed.

(** *** Mutations *)
Lemma audit_side items : forall seen, sideline (auditIdentifierChanges seen items).
Proof.
  induction items as [|it items IH]; intros seen; cbn [auditIdentifierChanges]; [apply side_ret|].
  case_match; [apply IH|]. apply side_bind; [apply side_emit|intros _; apply IH].
Qed.

(** A step that may apply mutations and nothing else. *)
Definition besides w w' (ms : list Identity.Mutation) : Prop :=
  Issuance.out (iw w') = Issuance.out (iw w) /\ Issuance.flows (iw w') = Issuance.flows (iw w) /\
  Issuance.back (iw w') = Issuance.back (iw w) /\ mutations w' = mutations w ++ ms.

Lemma besides_aside w w' : aside w w' -> besides w w' [].
Proof. intros (?&?&?&?). split_and!; [done..|]. by rewrite app_nil_r. Qed.

Lemma besides_trans a b c ms ns : besides a b ms -> besides b c ns -> besides a c (ms ++ ns).
Proof. intros (?&?&?&Hm) (?&?&?&Hn). split_and!; [congruence..|]. by rewrite Hn, Hm, app_assoc. Qed.

Lemma Apply_spec s m e w w' x : Apply s m e w = (w', x) -> besides w w' (if okb x then [m] else []).
Proof.
  unfold Apply, apply_store. prog. destruct (IdentityMemory.Apply _ _ _ _ _ _ _) as [s' [a|err]]; cbn; [|by intros [= <- <-]; split_and!].
  set (w1 := mkWorld _ _ _ _ _ _). pose proof (audit_side (Identity.Outbox a) [] e w1) as Ha.
  destruct (auditIdentifierChanges _ _ e w1) as [w2 []]. cbn in Ha. destruct Ha as (E1 & E2 & E3 & E4). cbn in E1, E2, E3, E4.
  destruct (_ && _); cbn; intros [= <- <-]; by split_and!.
Qed.

(** *** Where a program reads and writes the stores

    A step that leaves the account, MFA and passkey stores as they are. *)
Definition leaves w w' : Prop := users w' = users w /\ mfas w' = mfas w /\ keys w' = keys w.

#[export] Instance leaves_preorder : PreOrder leaves.
Proof. split; [done|]. intros a b c (?&?&?) (?&?&?). split_and!; congruence. Qed.

(** The number of the next call. *)
Abbreviation next w := (Issuance.calls (iw w)).

Lemma audit_leaves items : forall seen e w, let w' := (auditIdentifierChanges seen items e w).1 in leaves w w' /\ next w' = next w.
Proof.
  induction items as [|it items IH]; intros seen e w; cbn [auditIdentifierChanges]; [done|].
  case_match; [apply IH|]. unfold mbind, M_bind, emit, lift, Issuance.emit. cbn.
  match goal with |- context [auditIdentifierChanges ?x items e ?y] => destruct (IH x e y) as [Hl Hn] end. split; [|done]. by etrans.
Qed.

(** The one call of Apply, on the accounts as other requests left them. *)
Lemma Apply_run s m e w w' x : Apply s m e w = (w', x) ->
  let n := next w in
  IdentityMemory.Apply (actx e n) (clock_at e n) (range e n) (range' e n) (newUser e n) m (uothers e n (users w)) = (users w', x) /\
  mfas w' = mfas w /\ keys w' = keys w /\ next w' = Datatypes.S n.
Proof.
  unfold Apply, apply_store. prog. destruct (IdentityMemory.Apply _ _ _ _ _ _ _) as [s' [a|err]]; cbn; [|by intros [= <- <-]].
  set (w1 := mkWorld _ _ _ _ _ _). pose proof (audit_leaves (Identity.Outbox a) [] e w1) as [(E1 & E2 & E3) E4].
  destruct (auditIdentifierChanges _ _ e w1) as [w2 []]. cbn in E1, E2, E3, E4.
  destruct (_ && _); cbn; intros [= <- <-]; cbn; rewrite ?E1; by split_and!.
Qed.

(** One call on the ceremony store, as other requests left it. *)
Lemma on_flows_spec {R} (f : Ctx -> time -> F -> F * R) e w w' x : on_flows f e w = (w', x) ->
  Issuance.out (iw w') = Issuance.out (iw w) /\ Issuance.back (iw w') = Issuance.back (iw w) /\ mutations w' = mutations w /\ leaves w w' /\
  let n := next w in
  f (Issuance.ctx (ie e) n) (Issuance.clock (ie e) n) (Issuance.others (ie e) n (Issuance.flows (iw w))) = (Issuance.flows (iw w'), x) /\
  next w' = Datatypes.S n.
Proof.
  unfold on_flows, lift, Issuance.on_flows. cbn.
  match goal with |- context [f ?c ?k ?s] => destruct (f c k s) as [s' y] eqn:Ef end. cbn. intros [= <- <-]. by split_and!.
Qed.

(** The calls [n] up to [n'] took the new password: it passed the floor, the breach corpus and the policy, and was hashed. *)
Definition accepted_password (s : Service) (password : string) (phc : Identity.PasswordHash) (n n' : nat) : Prop :=
  exists canon raw k, Passwords.Floor NFKC password = Ok canon /\
    match breach s with None => k = n | Some f => f n canon = Ok false /\ k = S n end /\
    policy s k canon = None /\ Hash s (S k) canon = Ok raw /\ n' = S (S k) /\
    raw <> "" /\ Identity.len raw <= Identity.MaxPHCLen /\ phc = Identity.NewPasswordHash raw.

Lemma AcceptPassword_Ok s pw e w w' phc : AcceptPassword NFKC s pw e w = (w', Ok phc) ->
  accepted_password s pw phc (next w) (next w') /\ leaves w w'.
Proof.
  unfold AcceptPassword, accepted_password. destruct (Passwords.Floor NFKC pw) as [canon|]; [|done]. unfold call, lift, Flow.call. prog.
  destruct (breach s) as [f|]; cbn.
  - destruct (f _ canon) as [[]|] eqn:Ef; [done| |done]. cbn. destruct (policy s _ canon) eqn:Ep; [done|]. cbn.
    destruct (Hash s _ canon) as [raw|] eqn:Eh; [|done]. cbn. destruct (_ || _) eqn:Eb; [done|]. intros [= <- <-]. bools. destruct_and?.
    split; [|done]. by eexists _, _, _.
  - destruct (policy s _ canon) eqn:Ep; [done|]. cbn.
    destruct (Hash s _ canon) as [raw|] eqn:Eh; [|done]. cbn. destruct (_ || _) eqn:Eb; [done|]. intros [= <- <-]. bools. destruct_and?.
    split; [|done]. by eexists _, _, _.
Qed.

(** What stands behind a reset, call by call: the record taken out of the ceremony store the run found, the account read
    from the account store it found right after, and the mutation applied right after that. *)
Definition reset_proved h r e w w' (sub : Subject) (phc : Identity.PasswordHash) : Prop :=
  exists hd n rec p u a, let n0 := next w in let m := Datatypes.S n in let t := Httpx.tenant r in
    let flows1 := Issuance.others (ie e) n (Issuance.others (ie e) n0 (Issuance.flows (iw w))) in
    let users1 := uothers e m (users w) in
    CeremonyCodec.ParseHandle (Httpx.Field r "token") = Ok hd /\
    accepted_password (service h) (Httpx.Field r "new_password") phc (S n0) n /\
    fl_Consume (Issuance.ctx (ie e) n) (Issuance.clock (ie e) n) t Ceremony_.PasswordReset (CeremonyCodec.Hash sha256 hd) flows1 =
      (Issuance.flows (iw w'), Ok rec) /\
    openReset rec t = Ok (p, sub) /\
    IdentityMemory.GetUser (ctx_at e m) sub users1 = Ok u /\ Usable (stateOf u) = true /\ Identity.SecurityEpoch u = p_epochAtBind p /\
    IdentityMemory.Apply (actx e (Datatypes.S m)) (clock_at e (Datatypes.S m)) (range e (Datatypes.S m)) (range' e (Datatypes.S m)) (newUser e (Datatypes.S m))
      (Identity.SetPassword sub phc Identity.RotationPasswordReset uuid_Nil) (uothers e (Datatypes.S m) users1) = (users w', Ok a) /\
    IdentityMemory.GetPassword None sub (users w') =
      Ok (Identity.mkPasswordCredential sub phc (IdentityMemory.now_of (clock_at e (Datatypes.S m))) 0 time_zero).

Lemma AccountState_spec sub e w w' st : AccountState_ sub e w = (w', Ok st) -> Usable st = true ->
  let n := next w in let s := uothers e n (users w) in
  users w' = s /\ next w' = Datatypes.S n /\ exists u, IdentityMemory.GetUser (ctx_at e n) sub s = Ok u /\ st = stateOf u.
Proof.
  unfold AccountState_, GetUser, on_users. prog. cbn. destruct (IdentityMemory.GetUser _ _ _) as [u|err] eqn:Eg; cbn.
  - intros [= <- <-] _. split_and!; [done..|]. by eexists.
  - destruct (Is err _); [|done]. by intros [= <- <-].
Qed.

(** *** Handlers step by step *)
Lemma or_fail_cases {R} (m : MM (res R)) k e w w' x : or_fail m k e w = (w', x) ->
  (exists w1 a, m e w = (w1, Ok a) /\ k a e w1 = (w', x)) \/ exists w1 err, m e w = (w1, Err err) /\ fail err e w1 = (w', x).
Proof. unfold or_fail. prog. destruct (m e w) as [w1 [a|err]]; eauto. Qed.

(** Nothing was decided: no credential was written and no mutation applied. *)
Definition refused pol w w' : Prop := silent pol w w' /\ mutations w' = mutations w.

Lemma refused_fail pol err e w0 w w' x : aside w0 w -> fail err e w = (w', x) -> refused pol w0 w'.
Proof. intros (Ho & _ & _ & Hm) (Hq & Hm' & _)%(fail_silent pol). split; [by rewrite <- Ho|congruence]. Qed.

Definition away w w' : Prop := Issuance.out (iw w') = Issuance.out (iw w) /\ mutations w' = mutations w.

#[export] Instance away_preorder : PreOrder away.
Proof. split; [done|]. intros a b c [] []. split; congruence. Qed.

Lemma away_fail pol err e w0 w w' x : away w0 w -> fail err e w = (w', x) -> refused pol w0 w'.
Proof. intros [Ho Hm] (Hq & Hm' & _)%(fail_silent pol). split; [by rewrite <- Ho|congruence]. Qed.

Lemma aside_away w w' : aside w w' -> away w w'.
Proof. by intros (? & _ & _ & ?). Qed.

(** C13: A reset changes the password of the account its link was sealed for.  Whatever other requests do, the answer of
    /password/reset writes no session credential, and either no mutation is applied or exactly one is: SetPassword, as a reset.
    Then the token was the handle of a record of a reset that this run took out of the ceremony store it found, sealed for the
    subject, of the tenant of the request; the account of that subject, as this run read it right before, was usable and at
    the very epoch it had when the reset was asked for; the new password passed the floor, the breach corpus and the policy
    and was hashed; and that hash is what the account store holds in the end. *)
Theorem password_reset_is_proved pol h r e w w' x : resetPassword sha256 NFKC h r e w = (w', x) ->
  refused pol w w' \/
  silent pol w w' /\ exists sub phc,
    mutations w' = mutations w ++ [Identity.SetPassword sub phc Identity.RotationPasswordReset uuid_Nil] /\ reset_proved h r e w w' sub phc.
Proof.
  intros Hr. unfold resetPassword in Hr.
  apply or_fail_cases in Hr as [(w1 & hd & E1 & Hr)|(w1 & err & E1 & Hr)]; injection E1 as <- E1; [|left; eapply away_fail; done].
  destruct (CeremonyCodec.ParseHandle _) as [hd'|] eqn:Eh; [|done]. injection E1 as ->.
  unfold mbind, M_bind in Hr. destruct (on_flows _ e w) as [w2 rec] eqn:Ep. apply on_flows_spec in Ep as (O2 & _ & M2 & (U2 & _) & Hp & N2). injection Hp as F2 _.
  assert (away w w2) as A2 by done.
  apply or_fail_cases in Hr as [(w3 & rc & E3 & Hr)|(w3 & err & E3 & Hr)]; injection E3 as <- _; [|left; by eapply away_fail].
  apply or_fail_cases in Hr as [(w3 & z & E3 & Hr)|(w3 & err & E3 & Hr)]; injection E3 as <- _; [|left; by eapply away_fail].
  apply or_fail_cases in Hr as [(w3 & phc & E3 & Hr)|(w3 & err & E3 & Hr)];
    pose proof (AcceptPassword_side (service h) (Httpx.Field r "new_password") e w2) as A3; rewrite E3 in A3; apply aside_away in A3; cbn in A3;
    assert (away w w3) as A3' by (by etrans); [|left; by eapply away_fail].
  assert (Issuance.flows (iw w3) = Issuance.flows (iw w2)) as F3.
  { pose proof (AcceptPassword_side (service h) (Httpx.Field r "new_password") e w2) as (_ & Hf & _). by rewrite E3 in Hf. }
  apply AcceptPassword_Ok in E3 as [E3 (U3 & _)]. unfold mbind, M_bind in Hr. destruct (on_flows _ e w3) as [w4 rec4] eqn:Ec.
  apply on_flows_spec in Ec as (O4 & _ & M4 & (U4 & _) & Hc & N4). assert (away w w4) as A4 by (etrans; [exact A3'|done]).
  apply or_fail_cases in Hr as [(w5 & rc4 & E5 & Hr)|(w5 & err & E5 & Hr)]; injection E5 as <- E5; [|left; by eapply away_fail].
  destruct rec4 as [rec4|]; [|done]. injection E5 as ->.
  apply or_fail_cases in Hr as [(w5 & [p sub] & E5 & Hr)|(w5 & err & E5 & Hr)]; injection E5 as <- E5; [|left; by eapply away_fail].
  unfold mbind, M_bind in Hr. destruct (AccountState_ sub e w4) as [w6 st] eqn:Es.
  assert (aside w4 w6) as A6. { pose proof (AccountState_side sub e w4) as Hs. by rewrite Es in Hs. }
  assert (away w w6) as A6' by (etrans; [exact A4|by apply aside_away]).
  apply or_fail_cases in Hr as [(w7 & st' & E7 & Hr)|(w7 & err & E7 & Hr)]; injection E7 as <- E7; [|left; by eapply away_fail].
  destruct st as [st0|]; [|done]. injection E7 as ->. destruct (negb (Usable st') || _) eqn:Eu; [left; by eapply away_fail|].
  apply orb_false_iff in Eu as [Eu%negb_false_iff Ee%negb_false_iff]. apply Z.eqb_eq in Ee.
  unfold mbind, M_bind in Hr. destruct (Apply (service h) _ e w6) as [w7 a] eqn:Ea. pose proof (Apply_run _ _ _ _ _ _ Ea) as (R7 & _).
  apply Apply_spec in Ea as (O7 & F7 & _ & M7).
  apply or_fail_cases in Hr as [(w8 & ap & E8 & Hr)|(w8 & err & E8 & Hr)]; injection E8 as <- E8.
  2:{ left. destruct a; [done|]. cbn in M7. rewrite app_nil_r in M7. eapply away_fail; [|done]. etrans; [exact A6'|]. done. }
  destruct a as [a|]; [|done]. cbn in M7. assert (users w' = users w7) as U8.
  { clear - Hr. unfold mbind, M_bind, emit, lift, Issuance.emit, Issuance.respond in Hr. cbn in Hr.
    match type of Hr with context [Httpx.RespondPending ?x ?y ?z ?o] => destruct (Httpx.RespondPending x y z o) end. by injection Hr as <- _. }
  apply (respond_silent pol) in Hr as (Q9 & M9 & _ & F9). right. destruct A6' as [O6 M6].
  assert (Issuance.flows (iw w') = Issuance.flows (iw w4)) as Hfl.
  { cbn in F9. rewrite F9, F7. apply A6. }
  split; [cbn in Q9; by rewrite O7, O6 in Q9|]. exists sub, phc. split; [cbn in M9; rewrite M9, M7, M6; done|].
  destruct (AccountState_spec _ _ _ _ _ Es Eu) as (U6 & N6 & u & Hg & ->).
  rewrite F3, <- F2 in Hc. rewrite U4, U3, U2 in U6, Hg. rewrite N4 in Hg, U6, N6. rewrite N6, U6 in R7. rewrite N2 in E3.
  exists hd, (next w3), rc4, p, u, a. cbv zeta. rewrite Hfl, U8. split_and!; [done..|].
  by eapply SetPassword_installs.
Qed.

(** *** Registration *)
Lemma side_GetUser sub : sideline (GetUser sub).
Proof. side. Qed.

Lemma stillUnverified_side sub ep : sideline (stillUnverified sub ep).
Proof. unfold stillUnverified. side. Qed.

(** A program that leaves the MFA and passkey stores alone. *)
Definition shelved w w' : Prop := mfas w' = mfas w /\ keys w' = keys w.

Lemma stillUnverified_shelved sub ep e w : shelved w (stillUnverified sub ep e w).1.
Proof. unfold stillUnverified, GetUser, on_users. prog. by split. Qed.

(** No passkey and no MFA enrollment, recovery code or counter of the subject is left. *)
Definition no_passkeys (sub : Subject) (s : PasskeyMemory.Store) : Prop :=
  forall k c, PasskeyMemory.creds s !! k = Some c -> Passkey.CSubject c <> sub.

Definition no_mfa (sub : Subject) (s : MfaMemory.Store) : Prop :=
  MfaMemory.totp s !! sub = None /\ MfaMemory.codes s !! sub = None /\ MfaMemory.recovery s !! sub = None.

Lemma del_passkeys_side sub : sideline (del_passkeys sub).
Proof. intros e w. unfold del_passkeys. by destruct (PasskeyMemory.DeleteForSubject _ _ _) as [s r]. Qed.

Lemma del_passkeys_Ok sub e w w' : del_passkeys sub e w = (w', Ok tt) -> no_passkeys sub (keys w') /\ mfas w' = mfas w.
Proof.
  unfold del_passkeys, PasskeyMemory.DeleteForSubject. destruct (ctx_at e _); [done|]. intros [= <-]. split; [|done].
  cbn. by intros k c [_ Hc]%map_lookup_filter_Some.
Qed.

Lemma del_mfa_side sub : sideline (del_mfa sub).
Proof. intros e w. unfold del_mfa. by destruct (MfaMemory.DeleteForSubject _ _ _) as [s r]. Qed.

Lemma del_mfa_Ok sub e w w' : del_mfa sub e w = (w', Ok tt) -> no_mfa sub (mfas w') /\ keys w' = keys w.
Proof.
  unfold del_mfa, MfaMemory.DeleteForSubject. destruct (ctx_at e _); [done|]. intros [= <-]. split; [|done].
  unfold no_mfa. cbn. by rewrite !lookup_delete_eq.
Qed.

Lemma wipe_spec s sub c (del : MM (res unit)) e w w' x : sideline del -> wipe s sub c del e w = (w', x) ->
  exists ms, besides w w' ms /\ ms `prefix_of` [Identity.BumpEpoch sub uuid_Nil c] /\
    (x = Ok tt -> ms = [Identity.BumpEpoch sub uuid_Nil c] /\ exists w1, shelved w w1 /\ del e w1 = (w', Ok tt)).
Proof.
  intros Hd Hw. unfold wipe in Hw. prog. destruct (Apply s _ e w) as [w1 [a|err]] eqn:Ea; pose proof (Apply_run _ _ _ _ _ _ Ea) as (_ & Hf & Hk & _);
    apply Apply_spec in Ea; cbn in Ea.
  2:{ injection Hw as <- <-. exists []. split; [done|]. split; [apply prefix_nil|done]. }
  exists [Identity.BumpEpoch sub uuid_Nil c].
  pose proof (stillUnverified_side sub (Identity.ap_NewEpoch a) e w1) as Hs. pose proof (stillUnverified_shelved sub (Identity.ap_NewEpoch a) e w1) as [Hf1 Hk1].
  destruct (stillUnverified _ _ e w1) as [w2 [err|]]; cbn in Hs, Hf1, Hk1.
  - injection Hw as <- <-. split; [exact (besides_trans _ _ _ _ _ Ea (besides_aside _ _ Hs))|done].
  - pose proof (Hd e w2) as Hd'. rewrite Hw in Hd'. cbn in Hd'. split; [exact (besides_trans _ _ _ _ _ Ea (besides_aside _ _ (transitivity Hs Hd')))|].
    split; [done|]. intros ->. split; [done|]. exists w2. split; [split; congruence|done].
Qed.

Lemma wipe_mfa_keys s sub c e w w' x : wipe s sub c (del_mfa sub) e w = (w', x) -> keys w' = keys w.
Proof.
  unfold wipe. prog. destruct (Apply s _ e w) as [w1 [a|err]] eqn:Ea; apply Apply_run in Ea as (_ & _ & Hk & _); [|by intros [= <- _]].
  pose proof (stillUnverified_shelved sub (Identity.ap_NewEpoch a) e w1) as [_ Hk1].
  destruct (stillUnverified _ _ e w1) as [w2 [err|]]; cbn in Hk1; [intros [= <- _]; congruence|].
  unfold del_mfa. destruct (MfaMemory.DeleteForSubject _ _ _). intros [= <- _]. cbn. congruence.
Qed.

(** What verifying the email of an account that may belong to someone else applies: its passkeys and its MFA are retired
    before the email is marked verified, with the new password or none. *)
Definition takeover (sub : Subject) (phc : Identity.PasswordHash) : list Identity.Mutation :=
  [Identity.BumpEpoch sub uuid_Nil Identity.FactorPasskeyRemoved; Identity.BumpEpoch sub uuid_Nil Identity.FactorTOTPRemoved;
   Identity.MarkEmailVerified sub phc].

(** The only way to log in to the account is [phc], or nothing when it is zero. *)
Definition only_password (sub : Subject) (phc : Identity.PasswordHash) (s : IdentityMemory.Store) : Prop :=
  (exists t, IdentityMemory.GetPassword None sub s =
     if Identity.PasswordHash_IsZero phc then Err ErrNotFound else Ok (Identity.mkPasswordCredential sub phc t 0 time_zero)) /\
  IdentityMemory.ListFederated None sub s = Ok [].

(** How far a takeover got: what its mutations [ms] found done before each of them. *)
Definition taken (sub : Subject) (phc : Identity.PasswordHash) w' (ms : list Identity.Mutation) : Prop :=
  ms `prefix_of` takeover sub phc /\
  (Identity.BumpEpoch sub uuid_Nil Identity.FactorTOTPRemoved ∈ ms -> no_passkeys sub (keys w')) /\
  (Identity.MarkEmailVerified sub phc ∈ ms -> no_mfa sub (mfas w') /\ only_password sub phc (users w')).

Lemma VerifyEmailOwnership_spec s sub phc e w w' x : VerifyEmailOwnership s sub phc e w = (w', x) ->
  exists ms, besides w w' ms /\ taken sub phc w' ms /\ (okb x = true -> ms = takeover sub phc).
Proof.
  assert (forall w0, taken sub phc w0 []) as Hnil.
  { intros w0. split; [apply prefix_nil|]. split; by intros []%not_elem_of_nil. }
  intros Hv. unfold VerifyEmailOwnership in Hv. prog. pose proof (stillUnverified_side sub 0 e w) as Hs.
  destruct (stillUnverified _ _ e w) as [w1 [err|]]; cbn in Hs; apply besides_aside in Hs.
  { injection Hv as <- <-. by exists []. }
  destruct (wipe s sub _ (del_passkeys sub) e w1) as [w2 y] eqn:E2. apply wipe_spec in E2 as (ms & Hb & Hp & Hok); [|apply del_passkeys_side].
  pose proof (besides_trans _ _ _ _ _ Hs Hb) as H2'. destruct y as [[]|err].
  2:{ injection Hv as <- <-. exists ms. split; [done|]. split; [|done]. split; [etrans; [exact Hp|by eexists]|].
      split; intros Hin; eapply elem_of_prefix in Hin; try exact Hp; by apply list_elem_of_singleton in Hin. }
  destruct (Hok eq_refl) as (-> & w1a & _ & Hd). apply del_passkeys_Ok in Hd as [Hno _]. clear Hs Hb Hp Hok.
  destruct (wipe s sub _ (del_mfa sub) e w2) as [w3 y] eqn:E3. pose proof E3 as E3'.
  apply wipe_spec in E3 as (ns & Hb & Hp & Hok); [|apply del_mfa_side].
  pose proof (besides_trans _ _ _ _ _ H2' Hb) as H3'.
  assert (no_passkeys sub (keys w3)) as Hno3 by (by rewrite (wipe_mfa_keys _ _ _ _ _ _ _ E3')).
  destruct y as [[]|err].
  2:{ injection Hv as <- <-. eexists. split; [exact H3'|]. split; [|done]. split; [apply prefix_cons; etrans; [exact Hp|by eexists]|].
      split; [done|]. cbn. intros [Hin|Hin]%elem_of_cons; [done|]. eapply elem_of_prefix in Hin; [|exact Hp]. by apply list_elem_of_singleton in Hin. }
  destruct (Hok eq_refl) as (-> & w2a & _ & Hd). apply del_mfa_Ok in Hd as [Hnom _]. clear Hb Hp Hok.
  pose proof (Apply_run _ _ _ _ _ _ Hv) as (Hr & Hf & Hk & _). apply Apply_spec in Hv. pose proof (besides_trans _ _ _ _ _ H3' Hv) as H4'.
  eexists. split; [exact H4'|]. destruct x as [a|err]; cbn; (split; [|done]); (split; [by eexists|]); rewrite Hk, Hf; (split; [done|]).
  - intros _. split; [done|]. apply verification_wipes_earlier_credentials in Hr as (_ & Hg & Hl & _). split; [eexists; exact Hg|exact Hl].
  - intros [Hin|[Hin|[]%not_elem_of_nil]%elem_of_cons]%elem_of_cons; done.
Qed.

(** [owned t email phc e n users0 w' ms r]: from the call [n] on, the mutations [ms] give the email to an account of the tenant, with
    [phc] as its only credential: a new account, when the store that call found, [users0] as other requests left it, had none
    that holds it, or the one found to hold it unverified.  [r] is that account when all of them were applied; no mutation is applied for another. *)
Definition owned (t : TenantID) (email : Identity.Identifier) (phc : Identity.PasswordHash) e (n : nat) users0 w'
    (ms : list Identity.Mutation) (r : res Subject) : Prop :=
  let users1 := uothers e n users0 in
  match IdentityMemory.FindUser (ctx_at e n) (range e n) t email users1 with
  | Err err =>
      ms = [] /\ okb r = false \/
      Is err ErrNotFound = true /\ ms = [Identity.CreateVerified t email phc false Identity.zero_FederatedIdentity] /\
      exists sub, r = Ok sub /\ Tenant sub = t /\ only_password sub phc (users w') /\
        exists u, IdentityMemory.GetUser None sub (users w') = Ok u /\ Identity.Email u = email
  | Ok u =>
      let sub := Identity.u_Subject u in
      ms = [] /\ okb r = false \/
      Identity.EmailVerifiedAt u = 0 /\ taken sub phc w' ms /\ (okb r = true -> r = Ok sub /\ ms = takeover sub phc)
  end.

Lemma createOrVerify_spec s t email phc e w w' x : createOrVerify s t email phc e w = (w', x) ->
  exists ms, besides w w' ms /\ owned t email phc e (next w) (users w) w' ms x.
Proof.
  intros Hc. unfold createOrVerify, owned in *. unfold mbind, M_bind in Hc. destruct (FindUser t email e w) as [w1 fu] eqn:Ef.
  assert (besides w w1 []) as Hb.
  { apply besides_aside. pose proof (side_users (fun n e s => (s, IdentityMemory.FindUser (ctx_at e n) (range e n) t email s)) e w) as Hs.
    unfold FindUser in Ef. by rewrite Ef in Hs. }
  unfold FindUser, on_users in Ef. cbn in Ef. injection Ef as Hw1 Hu. rewrite Hu.
  destruct fu as [u|err].
  - destruct (negb (time_IsZero _)) eqn:Ez; [injection Hc as <- <-; exists []; split; [done|by left]|].
    unfold time_IsZero in Ez. bools. destruct (VerifyEmailOwnership _ _ _ e w1) as [w2 y] eqn:Ev.
    apply VerifyEmailOwnership_spec in Ev as (ms & Hm & Ht & Hok). pose proof (besides_trans _ _ _ _ _ Hb Hm) as H2'. cbn in H2'.
    exists ms. destruct y as [a|err]; cbn in *; injection Hc as <- <-; (split; [exact H2'|right]); split_and!; try done.
    intros _. split; [done|by apply Hok].
  - destruct (Is err ErrNotFound) eqn:Ei; [|injection Hc as <- <-; exists []; split; [done|by left]].
    destruct (Apply s _ e w1) as [w2 y] eqn:Ea. pose proof (Apply_run _ _ _ _ _ _ Ea) as (Hr & _).
    pose proof (Apply_spec _ _ _ _ _ _ Ea) as Hm. pose proof (besides_trans _ _ _ _ _ Hb Hm) as H2'. rewrite app_nil_l in H2'.
    destruct y as [a|err']; cbn in Hc.
    + injection Hc as <- <-. eexists. split; [exact H2'|]. right. split; [done|]. split; [done|].
      exists (Identity.ap_Subject a). apply CreateVerified_installs in Hr as (Ht & (u & Hg & He & _) & Hp & Hl).
      split; [done|]. split; [done|]. split; [split; [by eexists|done]|]. by exists u.
    + injection Hc as <- <-. exists []. split; [exact H2'|by left].
Qed.

Lemma opened_quiet pol e w w1 w' p v a : silent pol w w1 -> Issuance.back (iw w1) = Issuance.back (iw w) ->
  opened pol e w1 w' p v a -> opened pol e w w' p v a.
Proof.
  intros Hq Hb (i1 & i2 & E1 & E2 & Hx). exists i1, i2. split_and!; [congruence|by etrans|apply Hx..].
Qed.

(** What stands behind a registration [p] of [email], call by call: its record was looked up and then taken out of the
    ceremony store the run found, and the request came from the browser that began it, in which case [phc] is the password
    it chose, or was confirmed, and there is no password. *)
Definition registration_proved h r e w (p : Pending) (email : Identity.Identifier) (phc : Identity.PasswordHash) : Prop :=
  exists hd s' rec reg rec0 p0 reg0 email0, let bound := presentedBind sha256 (service h) r p0 in
    let t := Httpx.tenant r in let hash := CeremonyCodec.Hash sha256 hd in let n := next w in let m := Datatypes.S n in
    let flows0 := Issuance.others (ie e) n (Issuance.flows (iw w)) in
    CeremonyCodec.ParseHandle (Httpx.Field r "token") = Ok hd /\
    fl_Peek (Issuance.ctx (ie e) n) (Issuance.clock (ie e) n) t Ceremony_.PendingRegistration hash flows0 = Ok rec0 /\
    openRegistration UpperTable rec0 t = Ok (p0, reg0, email0) /\
    fl_Consume (Issuance.ctx (ie e) m) (Issuance.clock (ie e) m) t Ceremony_.PendingRegistration hash
      (Issuance.others (ie e) m flows0) = (s', Ok rec) /\
    openRegistration UpperTable rec t = Ok (p, reg, email) /\
    phc = (if bound then Identity.NewPasswordHash (PasswordHash reg) else None) /\
    (bound = true \/ Httpx.Flag r "confirm" = true).

(** The end of a registration: the cleared cookie, admission and answer. *)
Definition welcome h r (p : Pending) (sub : Subject) : MM Httpx.answer :=
  t0 ← lift Issuance.now;
  or_fail (mret (internal (EmailLink sub t0))) (fun v =>
  _ ← (if p_transport p =? TransportCookies
       then lift (Issuance.respond (fun o => (Cookie.Clear (cookies (service h)) Cookie.Bind o, tt))) else mret tt);
  or_fail (lift (Issuance.Complete sha256 (issuer h) r p v)) (fun resp => lift (Issuance.respond (Httpx.RespondPending r p resp)))).

Lemma leaves_lift {R} (m : Program.M (Issuance.env F B T P) (Issuance.world F B) R) e w : leaves w (lift m e w).1.
Proof. unfold lift. by destruct (m (ie e) (iw w)). Qed.

Lemma leaves_bind {R U} (m : MM R) (k : R -> MM U) e : (forall w, leaves w (m e w).1) -> (forall x w, leaves w (k x e w).1) ->
  forall w, leaves w ((m ≫= k) e w).1.
Proof.
  intros Hm Hk w. unfold mbind, M_bind. specialize (Hm w). destruct (m e w) as [w1 x]. etrans; [exact Hm|apply Hk].
Qed.

Lemma leaves_or_fail {R} (m : MM (res R)) k e : (forall w, leaves w (m e w).1) -> (forall x w, leaves w (k x e w).1) ->
  forall w, leaves w (or_fail m k e w).1.
Proof. intros Hm Hk. apply leaves_bind; [done|]. intros [x|err]; [apply Hk|apply leaves_lift]. Qed.

Lemma welcome_leaves h r p sub e w : leaves w (welcome h r p sub e w).1.
Proof.
  revert w. apply leaves_bind; [apply leaves_lift|]. intros t. apply leaves_or_fail; [done|]. intros v.
  apply leaves_bind; [intros w; destruct (_ =? _); [apply leaves_lift|done]|]. intros [].
  apply leaves_or_fail; [apply leaves_lift|]. intros resp. apply leaves_lift.
Qed.

(** Whose the email became is read off the stores alone. *)
Lemma owned_leaves t email phc e n users0 w1 w2 ms r : leaves w1 w2 -> owned t email phc e n users0 w1 ms r ->
  owned t email phc e n users0 w2 ms r.
Proof. intros (Hu & Hm & Hk). unfold owned, taken. by rewrite Hu, Hm, Hk. Qed.

Lemma EmailLink_subject sub t v : EmailLink sub t = Ok v -> v_subject v = sub.
Proof. unfold EmailLink, primary, NewVerified. intros Hv. go_cases. by injection Hv as <-. Qed.

Lemma welcome_spec h r p sub e w w' x : cookies (service h) = Issuance.cookies (issuer h) -> tenant_wf (Httpx.tenant r) ->
  welcome h r p sub e w = (w', x) ->
  mutations w' = mutations w /\
  (silent (Issuance.cookies (issuer h)) w w' \/
   exists t v a, EmailLink sub t = Ok v /\ a_subject a = sub /\ opened (Issuance.cookies (issuer h)) e w w' p v a).
Proof.
  intros Hck Htw Hw. unfold welcome, lift at 1, Issuance.now in Hw. unfold mbind, M_bind in Hw. cbn in Hw.
  apply or_fail_cases in Hw as [(w1 & v & E1 & Hw)|(w1 & err & E1 & Hw)]; injection E1 as <- E1.
  2:{ apply (fail_silent (Issuance.cookies (issuer h))) in Hw as (Hq & Hm & _). split; [done|by left]. }
  destruct (EmailLink sub _) as [v'|] eqn:Ev; [|done]. injection E1 as ->. set (w1 := set_iw _ w) in Hw. unfold mbind, M_bind in Hw.
  match type of Hw with context [(if ?b then ?c else ?d) e w1] => destruct ((if b then c else d) e w1) as [w2 []] eqn:E2 end.
  assert (silent (Issuance.cookies (issuer h)) w w2 /\ mutations w2 = mutations w /\ Issuance.back (iw w2) = Issuance.back (iw w)) as (Q & M2 & B2).
  { destruct (_ =? _); injection E2 as <-; [|done]. split; [|done]. cbn. rewrite Hck. apply quiet_Clear. }
  apply admit_spec in Hw as [Hm Hs]; [|done]. split; [congruence|]. destruct Hs as [Hq|[a Ho]]; [left; by etrans|right].
  exists (Issuance.clock (ie e) (Issuance.calls (iw w))), v, a. split; [done|]. split; [|by eapply opened_quiet].
  rewrite (opened_subject _ _ _ _ _ _ _ Ho). by eapply EmailLink_subject.
Qed.

(** C14: A registration is confirmed by whoever reads the email, and never installs a password they did not choose.  Whatever
    other requests do, /register/confirm refuses, or asks to be confirmed, applying no mutation and writing no session
    credential, or the token was the handle of a registration that this run took out of the ceremony store it found.  Then the
    password it chose is the one given only when the request comes from the browser that began it, and none is given otherwise.
    When the account store this run found had no account with the email, the only mutation is the creation of one in the tenant,
    which in the end holds the email, that password or none, and no federated link.  When it found one that holds it unverified,
    the mutations take it over in order, each only after the one before it: in the end no passkey of it is left if the
    retirement of its MFA was applied, and if its email was marked verified nothing of its MFA is left either, and that
    password or none is all it has.  No mutation is applied otherwise.  A session is started only when all of them were
    applied, for that very account. *)
Theorem registration_is_confirmed h r e w w' x : confirmRegistration sha256 UpperTable h r e w = (w', x) ->
  cookies (service h) = Issuance.cookies (issuer h) -> tenant_wf (Httpx.tenant r) ->
  refused (Issuance.cookies (issuer h)) w w' \/
  exists p email phc ms o, registration_proved h r e w p email phc /\ mutations w' = mutations w ++ ms /\
    owned (Httpx.tenant r) email phc e (Datatypes.S (Datatypes.S (next w))) (users w) w' ms o /\
    (silent (Issuance.cookies (issuer h)) w w' \/
     exists sub t v a, o = Ok sub /\ EmailLink sub t = Ok v /\ a_subject a = sub /\ opened (Issuance.cookies (issuer h)) e w w' p v a).
Proof.
  intros Hr Hck Htw. unfold confirmRegistration in Hr.
  apply or_fail_cases in Hr as [(w1 & hd & E1 & Hr)|(w1 & err & E1 & Hr)]; injection E1 as <- E1; [|left; eapply away_fail; done].
  destruct (CeremonyCodec.ParseHandle _) as [hd'|] eqn:Eh; [|done]. injection E1 as ->.
  unfold mbind at 1, M_bind in Hr. destruct (on_flows _ e w) as [w2 rec0] eqn:Ep. apply on_flows_spec in Ep as (O2 & B2 & M2 & (U2 & _) & Hp & N2).
  assert (away w w2) as A2 by done. injection Hp as F2 Hp.
  apply or_fail_cases in Hr as [(w3 & rc & E3 & Hr)|(w3 & err & E3 & Hr)]; injection E3 as <- E3; [|left; by eapply away_fail].
  destruct rec0 as [rec0|]; [|done]. injection E3 as <-.
  apply or_fail_cases in Hr as [(w3 & [[p0 reg0] email0] & E3 & Hr)|(w3 & err & E3 & Hr)]; injection E3 as <- E3; [|left; by eapply away_fail].
  destruct (negb _ && negb _) eqn:Ed.
  { left. apply (respond_silent (Issuance.cookies (issuer h))) in Hr as (Q & M & _). destruct A2 as [Ho Hm]. split; [by rewrite <- Ho|congruence]. }
  unfold mbind at 1, M_bind in Hr. destruct (on_flows _ e w2) as [w4 rec] eqn:Ec. apply on_flows_spec in Ec as (O4 & B4 & M4 & (U4 & _) & Hc & N4). rewrite <- F2, N2 in Hc.
  assert (away w w4) as A4 by (by etrans). assert (Issuance.back (iw w4) = Issuance.back (iw w)) as HB by congruence.
  apply or_fail_cases in Hr as [(w5 & rc2 & E5 & Hr)|(w5 & err & E5 & Hr)]; injection E5 as <- E5; [|left; by eapply away_fail].
  destruct rec as [rec|]; [|done]. injection E5 as <-.
  apply or_fail_cases in Hr as [(w5 & [[p reg] email] & E5 & Hr)|(w5 & err & E5 & Hr)]; injection E5 as <- E5; [|left; by eapply away_fail].
  cbv zeta in Hr. set (bound := presentedBind sha256 (service h) r p0) in *. set (phc := if bound then _ else _) in *.
  assert (registration_proved h r e w p email phc) as Hreg.
  { exists hd, (Issuance.flows (iw w4)), rec, reg, rec0, p0, reg0, email0. cbv zeta. fold bound. split_and!; try done.
    destruct bound; [by left|right]. by destruct (Httpx.Flag r "confirm"). }
  destruct A4 as [O M]. right. exists p, email, phc.
  apply or_fail_cases in Hr as [(w5 & sub & E6 & Hr)|(w5 & err & E6 & Hr)]; apply createOrVerify_spec in E6 as (ms & (O6 & _ & B6 & M6) & Ho);
    rewrite N4, N2, U4, U2 in Ho.
  - change (welcome h r p sub e w5 = (w', x)) in Hr. pose proof (welcome_leaves h r p sub e w5) as Hl. rewrite Hr in Hl. apply (owned_leaves _ _ _ _ _ _ _ _ _ _ Hl) in Ho.
    apply welcome_spec in Hr as [M7 Hs]; [|done..].
    exists ms, (Ok sub). split; [done|]. split; [by rewrite M7, M6, M|]. split; [done|].
    destruct Hs as [Hq|(t & v & a & Hv & Ha & Hop)]; [left; by rewrite O6, O in Hq|right]. exists sub, t, v, a. split_and!; [done..|].
    eapply opened_quiet; [|by rewrite B6|exact Hop]. by rewrite O6, O.
  - pose proof (leaves_lift (Flow.fail err) e w5) as Hl. unfold fail in Hr. rewrite Hr in Hl. apply (owned_leaves _ _ _ _ _ _ _ _ _ _ Hl) in Ho.
    apply (fail_silent (Issuance.cookies (issuer h))) in Hr as (Q & M7 & _). exists ms, (Err err).
    split; [done|]. split; [by rewrite M7, M6, M|]. split; [done|]. left. by rewrite O6, O in Q.
Qed.

(** *** Lockout *)
Section lockout.
Context (sub : Subject) (t0 : time).
Hypothesis t0_whole : 0 < t0 /\ t0 mod Microsecond = 0.

Definition passwd_of (s : IdentityMemory.Store) : option IdentityMemory.password := IdentityMemory.accounts s !! sub ≫= IdentityMemory.passwd.

(** The requests of a run fall within a window from [t0], their contexts stay alive, and no other request touches the
    password of the subject. *)
Record within e : Prop := {
  wi_ctx n : ctx_at e n = None;
  wi_clock n : t0 <= clock_at e n < t0 + LockoutWindow;
  wi_forward m n : (m <= n)%nat -> clock_at e m <= clock_at e n;
  wi_others n s : passwd_of (uothers e n s) = passwd_of s }.








(** *** Programs that leave the password of the subject alone *)
Definition keeps {R} (m : MM R) : Prop := forall e w, within e -> passwd_of (users (m e w).1) = passwd_of (users w).


Lemma keep_bind {R S} (m : MM R) (k : R -> MM S) : keeps m -> (forall x, keeps (k x)) -> keeps (m ≫= k).
Proof.
  intros Hm Hk e w He. unfold mbind, M_bind. specialize (Hm e w He). destruct (m e w) as [w1 x]. cbn in Hm. rewrite <- Hm. by apply Hk.
Qed.


Lemma keep_lift {R} (m : Program.M (Issuance.env F B T P) (Issuance.world F B) R) : keeps (lift m).
Proof. intros e w He. unfold lift. by destruct (m (ie e) (iw w)). Qed.

Lemma keep_or_fail {R} (m : MM (res R)) k : keeps m -> (forall x, keeps (k x)) -> keeps (or_fail m k).
Proof. intros Hm Hk. unfold or_fail. apply keep_bind; [done|]. intros [x|err]; [apply Hk|apply keep_lift]. Qed.









(** *** Guesses of a run of logins *)
(** Whether a login compared a password of the subject, and whether it was right. *)
Definition guess h r e w : option bool :=
  match lift (Issuance.Begin (issuer h) r) e w with
  | (w1, Ok _) =>
      match (comparePassword NFKC Normalize (service h) (Httpx.tenant r) (Httpx.Field r "identifier") (Httpx.Field r "password") e w1).2 with
      | Ok (u, _, ok) => if bool_decide (Identity.u_Subject u = sub) then Some ok else None
      | Err _ => None
      end
  | _ => None
  end.

(** The wrong passwords of a run that were compared before a right one. *)
Fixpoint wrong_guesses h (rs : list (Httpx.Request * env (F := F) (B := B) (T := T) (P := P))) w : nat :=
  match rs with
  | [] => 0
  | (r, e) :: rs' =>
      match guess h r e w with
      | Some true => 0
      | g => ((if g then 1 else 0) + wrong_guesses h rs' (login sha256 NFKC Normalize h r e w).1)%nat
      end
  end.





End lockout.
End facts.

(** ** A sample account, its logins and a reset *)
From S2P Require Import Journey CeremonyStore CeremonyProperties SessionStore Stateful StatefulProperties.
Import Session IdentitySvc.

#[local] Existing Instances EnrollmentSvc.mfa_TOTPEnrollment EnrollmentSvc.passkey_PasskeyEnrollment MemoryFlows.memory_flows
  sample_backend sample_backend_laws sample_url.

(** Hashes are passwords behind a mark. *)
Definition marked (pw : string) : string := "$" +:+ pw.

Definition ada_account : IdentityMemory.account :=
  IdentityMemory.mkAccount ada_user
    (Some (IdentityMemory.mkPassword (Identity.NewPasswordHash (marked "correct horse")) now0 0 time_zero time_zero false)) [].

Definition ada_store : IdentityMemory.Store := IdentityMemory.mkStore {[ada := ada_account]} 0 [] 0 [].

Definition pw_service : Service :=
  mkService flow_policy (chash "s") true [] false true (marked "decoy") 77
    (fun _ pw => Ok (marked pw)) (fun _ phc pw => if bool_decide (phc = marked pw) then None else Some (New "mismatch"))
    (fun _ _ => None) None (fun _ _ _ t => Ok t).

Definition pw_handlers : handlers :=
  mkHandlers pw_service (Issuance.mkIssuer (fun _ => false) flow_policy RememberUserChoice (Issuance.mkPages "" "" "" [])).

Definition pw_env (t : time) :=
  mkEnv (code_env t) (fun _ s => s) (fun _ s => s) (fun _ s => s) (fun _ _ => None) (fun _ => [ada]) (fun _ => [ada]) (fun _ => Ok 7) (fun _ => 9).

Definition pw_world (s : CeremonyMemory.Store) (u : IdentityMemory.Store) :=
  mkWorld (flow_world s) u MfaMemory.NewWithClock PasskeyMemory.New_ [] [].

Definition pw_request (pw : string) : Httpx.Request := code_request {["identifier" := "Ada@acme.example"; "password" := pw]} [].

Definition pw_start := pw_world CeremonyMemory.NewWithClock ada_store.

Definition pw_login (pw : string) := login digest0 (fun b => b) code_normalize pw_handlers (pw_request pw) (pw_env (c0 + Second)) pw_start.

Example pw_login_ok : Httpx.a_status (pw_login "correct horse").2 = 200 /\ Httpx.a_status (pw_login "correct hors").2 = 401 /\
  credential_added flow_policy (Http.mkResponse [] ∅) (Issuance.out (iw (pw_login "correct horse").1)) = true.
Proof. split_and!; vm_compute; reflexivity. Qed.

Lemma password_login_is_proved_witness : exists sub a,
  right_password (fun b => b) code_normalize pw_service acme "Ada@acme.example" "correct horse" (pw_env (c0 + Second)) ada_store sub /\
  a_subject a = sub.
Proof.
  destruct (password_login_is_proved digest0 (fun b => b) code_normalize pw_handlers (pw_request "correct horse") (pw_env (c0 + Second))
    pw_start (pw_login "correct horse").1 (pw_login "correct horse").2) as [Hq|(sub & t & p & v & a & Hr & _ & _ & Ha & _)].
  - apply surjective_pairing.
  - apply acme_wf.
  - exfalso. revert Hq. apply credential_not_quiet, pw_login_ok.
  - exists sub, a. split; [exact Hr|exact Ha].
Defined.

(** Seven wrong passwords: five of them were compared with the one stored, then the right one is refused too. *)
Definition pw_wrong := replicate 7 (pw_request "correct hors", pw_env (c0 + Second)).

Example pw_wrong_compared : wrong_guesses digest0 (fun b => b) code_normalize ada pw_handlers
  (pw_wrong ++ [(pw_request "correct horse", pw_env (c0 + Second))]) pw_start = 5%nat.
Proof. vm_compute. reflexivity. Qed.




(** A reset asked for by email and done with the token of its link. *)
Definition reset_asked := forgotPassword (fun _ => code_normalize) pw_handlers
  (code_request {["identifier" := "Ada@acme.example"]} []) (pw_env c0) pw_start.

Definition reset_sent :=
  match reset_asked.2.2 with
  | Some (PasswordResetLink id p u st) => resetJob digest0 pw_service id p u st (pw_env c0) reset_asked.1
  | _ => (reset_asked.1, None)
  end.

Definition reset_token : string := match reset_sent.2 with Some m => lm_Link m | None => "" end.

Definition reset_request : Httpx.Request := code_request {["token" := reset_token; "new_password" := "battery staple"]} [].

Definition reset_world := pw_world (Issuance.flows (iw reset_sent.1)) ada_store.

Definition reset_done := resetPassword digest0 (fun b => b) pw_handlers reset_request (pw_env (c0 + Second)) reset_world.

Example reset_done_ok : Httpx.a_status reset_asked.2.1 = 202 /\ Httpx.a_status reset_done.2 = 200 /\
  (IdentityMemory.phc <$> passwd_of ada (users reset_done.1)) = Some (Identity.NewPasswordHash (marked "battery staple")) /\
  mutations reset_done.1 <> [].
Proof. split_and!; [vm_compute; reflexivity..|vm_compute; discriminate]. Qed.

Lemma password_reset_is_proved_witness : exists sub phc,
  mutations reset_done.1 = [Identity.SetPassword sub phc Identity.RotationPasswordReset uuid_Nil] /\
  reset_proved digest0 (fun b => b) pw_handlers reset_request (pw_env (c0 + Second)) reset_world reset_done.1 sub phc.
Proof.
  destruct (password_reset_is_proved digest0 (fun b => b) flow_policy pw_handlers reset_request (pw_env (c0 + Second)) reset_world
    reset_done.1 reset_done.2) as [[_ Hm]|[_ (sub & phc & Hm & Hp)]].
  - apply surjective_pairing.
  - exfalso. apply reset_done_ok, Hm.
  - exists sub, phc. split; [exact Hm|exact Hp].
Defined.

(** A registration asked for in a browser, and confirmed in it with the token of its link. *)
Definition nobody : IdentityMemory.Store := IdentityMemory.mkStore ∅ 0 [] 0 [].

Definition join_asked := registerAccount digest0 code_mac (fun b => b) (fun _ => code_normalize) pw_handlers
  (code_request {["identifier" := "Ada@acme.example"; "password" := "correct horse"]} []) (pw_env c0) (pw_world CeremonyMemory.NewWithClock nobody).

Definition join_token : string := match join_asked.2.2 with Some (RegistrationLink m) => lm_Link m | _ => "" end.

Definition join_request : Httpx.Request := code_request {["token" := join_token]} [code_cookie].

Definition join_world := pw_world (Issuance.flows (iw join_asked.1)) nobody.

Definition join_done := confirmRegistration digest0 (fun _ => false) pw_handlers join_request (pw_env (c0 + Second)) join_world.

Example join_done_ok : Httpx.a_status join_asked.2.1 = 202 /\ Httpx.a_status join_done.2 = 200 /\
  mutations join_done.1 =
    [Identity.CreateVerified acme ada_email (Identity.NewPasswordHash (marked "correct horse")) false Identity.zero_FederatedIdentity] /\
  credential_added flow_policy (Http.mkResponse [] ∅) (Issuance.out (iw join_done.1)) = true.
Proof. split_and!; vm_compute; reflexivity. Qed.

Lemma registration_is_confirmed_witness : exists sub p email phc a,
  registration_proved digest0 (fun _ => false) pw_handlers join_request (pw_env (c0 + Second)) join_world p email phc /\
  owned acme email phc (pw_env (c0 + Second)) 2 nobody join_done.1 (mutations join_done.1) (Ok sub) /\ a_subject a = sub.
Proof.
  destruct (registration_is_confirmed digest0 (fun _ => false) pw_handlers join_request (pw_env (c0 + Second)) join_world
    join_done.1 join_done.2) as [[Hq _]|(p & email & phc & ms & o & Hr & Hm & Ho & [Hq|(sub & t & v & a & -> & _ & Ha & _)])].
  - apply surjective_pairing.
  - reflexivity.
  - apply acme_wf.
  - exfalso. revert Hq. apply credential_not_quiet, join_done_ok.
  - exfalso. revert Hq. apply credential_not_quiet, join_done_ok.
  - exists sub, p, email, phc, a. split; [exact Hr|]. split; [|exact Ha]. rewrite Hm. exact Ho.
Defined.
