(* ===== verification/JwtCodec.v ===== *)
(** The access tokens of internal/session/jwt/codec.go: egv 2 tokens, signed and verified as compact
    JWS.

    [now] is the codec's reading of the clock and [rnd] its read of crypto/rand; the rendering and the
    parsing of a UUID are google/uuid's.  NewCodec, which checks the public origin with net/url, is
    left out: a Codec is given. *)
From S2P Require Import Prelude Errors Tenant Factor Attrs Codec GoText Json JsonText Cookie Renewal Signing.
Import Session Signing JsonText.

Module Jwt.

Definition TokenType : string := "at+jwt".

Definition Version : Z := 2.

Definition MaxIssuedAtSkew : duration := 30 * Second.

Definition MaxTokenLen : Z := 8192.

Definition tenantMarker : bytes := str_bytes "{tenant}".

Definition maxUnixSeconds : Z := 2 ^ 40.

(** ** Text *)

(** The text around the first [sep], as strings.Contains and strings.Replace(..., 1) find it. *)
Fixpoint cut_text (sep b : bytes) : option (bytes * bytes) :=
  if bool_decide (take (length sep) b = sep) then Some ([], drop (length sep) b)
  else match b with
  | [] => None
  | c :: b' => '(x, y) ← cut_text sep b'; Some (c :: x, y)
  end.

(** strings.Split at one byte. *)
Fixpoint Split (sep : byte) (b : bytes) : list bytes :=
  match b with
  | [] => [[]]
  | c :: b' =>
      if bool_decide (c = sep) then [] :: Split sep b'
      else match Split sep b' with
      | x :: xs => (c :: x) :: xs
      | [] => [[c]]
      end
  end.

(** t.Unix() and time.Unix(s, 0) *)
Definition time_Unix (t : time) : Z := (t - unix_epoch) / Second.

Definition Unix_time (s : Z) : time := unix_epoch + s * Second.

(** ** Headers and claims *)
Record header := mkHeader { Alg : string; Kid : string; h_Typ : string }.

Record claimSet := mkClaimSet {
  Iss : string; Aud : string; Sub : string; Tid : string; Sid : string;
  Iat : Z; Exp : Z; Typ : string; Egv : Z; Egc : string; Att : string; Apc : bytes;
  AMR : list string; AuthTime : Z }.

Definition header_names : list string := ["alg"; "kid"; "typ"].

Definition claim_names : list string :=
  ["iss"; "aud"; "sub"; "tid"; "sid"; "iat"; "exp"; "typ"; "egv"; "egc"; "att"; "apc"; "amr"; "auth_time"].

Definition zero_header : header := mkHeader "" "" "".

Definition zero_claimSet : claimSet := mkClaimSet "" "" "" "" "" 0 0 "" 0 "" "" [] [] 0.

Definition set_header (n : string) (v : bytes) (h : header) : option header :=
  match n with
  | "alg" => x ← into_string v (Alg h); Some (mkHeader x (Kid h) (h_Typ h))
  | "kid" => x ← into_string v (Kid h); Some (mkHeader (Alg h) x (h_Typ h))
  | "typ" => x ← into_string v (h_Typ h); Some (mkHeader (Alg h) (Kid h) x)
  | _ => None
  end.

(** The decoded amr is never read, and not kept. *)
Definition set_claim (n : string) (v : bytes) (c : claimSet) : option claimSet :=
  let '(mkClaimSet iss aud sub tid sid iat exp typ egv egc att apc amr at_) := c in
  match n with
  | "iss" => x ← into_string v iss; Some (mkClaimSet x aud sub tid sid iat exp typ egv egc att apc amr at_)
  | "aud" => x ← into_string v aud; Some (mkClaimSet iss x sub tid sid iat exp typ egv egc att apc amr at_)
  | "sub" => x ← into_string v sub; Some (mkClaimSet iss aud x tid sid iat exp typ egv egc att apc amr at_)
  | "tid" => x ← into_string v tid; Some (mkClaimSet iss aud sub x sid iat exp typ egv egc att apc amr at_)
  | "sid" => x ← into_string v sid; Some (mkClaimSet iss aud sub tid x iat exp typ egv egc att apc amr at_)
  | "iat" => x ← into_int v iat; Some (mkClaimSet iss aud sub tid sid x exp typ egv egc att apc amr at_)
  | "exp" => x ← into_int v exp; Some (mkClaimSet iss aud sub tid sid iat x typ egv egc att apc amr at_)
  | "typ" => x ← into_string v typ; Some (mkClaimSet iss aud sub tid sid iat exp x egv egc att apc amr at_)
  | "egv" => x ← into_int v egv; Some (mkClaimSet iss aud sub tid sid iat exp typ x egc att apc amr at_)
  | "egc" => x ← into_string v egc; Some (mkClaimSet iss aud sub tid sid iat exp typ egv x att apc amr at_)
  | "att" => x ← into_string v att; Some (mkClaimSet iss aud sub tid sid iat exp typ egv egc x apc amr at_)
  | "apc" => Some (mkClaimSet iss aud sub tid sid iat exp typ egv egc att v amr at_)
  | "amr" => _ ← into_strings v; Some c
  | "auth_time" => x ← into_int v at_; Some (mkClaimSet iss aud sub tid sid iat exp typ egv egc att apc amr x)
  | _ => None
  end.

(** marshal: a header, and a claim set, whose raw claims pass through Compact. *)
Definition marshal_header (h : header) : bytes :=
  object [("alg", quote_ (Alg h)); ("kid", quote_ (Kid h)); ("typ", quote_ (h_Typ h))].

Definition marshal_claims (c : claimSet) : res bytes :=
  match Json.Compact (Apc c) with
  | None => Err (New "json: error calling MarshalJSON for type json.RawMessage")
  | Some apc =>
      Ok (object
        [("iss", quote_ (Iss c)); ("aud", quote_ (Aud c)); ("sub", quote_ (Sub c)); ("tid", quote_ (Tid c));
         ("sid", quote_ (Sid c)); ("iat", AppendInt (Iat c)); ("exp", AppendInt (Exp c)); ("typ", quote_ (Typ c));
         ("egv", AppendInt (Egv c)); ("egc", quote_ (Egc c)); ("att", quote_ (Att c)); ("apc", apc);
         ("amr", strings (AMR c)); ("auth_time", AppendInt (AuthTime c))])
  end.

Definition decode_header (b : bytes) : option header := strictDecode header_names set_header b zero_header.

Definition decode_claims (b : bytes) : option claimSet := strictDecode claim_names set_claim b zero_claimSet.

(** ** The codec *)
Record Codec := mkCodec { origin : string; fingerprint : string; recheck : duration }.

Record Token := mkToken {
  issuer : string;
  audience : string;
  family : uuid;
  issuedAt : time;
  expiresAt : time;
  attrs : SessionAttrs;
  claims : bytes }.

Definition dns_char (b : byte) : bool :=
  let c := Z_of_byte b in
  ((97 <=? c) && (c <=? 122)) || ((48 <=? c) && (c <=? 57)) || bool_decide (b = "-"%byte).

Definition dnsLabel (s : string) : bool :=
  let b := str_bytes s in
  match b, rev b with
  | x :: _, z :: _ =>
      if (63 <? Z.of_nat (length b)) || bool_decide (x = "-"%byte) || bool_decide (z = "-"%byte) then false
      else forallb dns_char b
  | _, _ => false
  end.

Definition Issuer (c : Codec) (t : TenantID) : res string :=
  match cut_text tenantMarker (str_bytes (origin c)) with
  | None => Ok (origin c)
  | Some (before, after) =>
      if negb (dnsLabel (tenant_id t))
      then Err (Join JErrInvalidToken (New "jwt: tenant is not a host label"))
      else Ok (bytes_str (before ++ str_bytes (tenant_id t) ++ after))
  end.

Definition invalid (reason : string) : error := Join JErrInvalidToken (New ("jwt: " +:+ reason)).

Definition parseTenant (s : string) : res TenantID :=
  if bool_decide (s = "") then Ok zero_TenantID else ParseTenantID s.

Definition b64 (b : bytes) : string := bytes_str (Base64.encode b).

Definition unb64 (s : string) : option bytes := Base64.decode (str_bytes s).

Section uuids.
Context `{Crypto} (uuid_String : uuid -> string) (uuid_Parse : string -> option uuid).

Record mint := mkMint {
  m_audience : string;
  m_family : uuid;
  m_issuedAt : time;
  m_lifetime : duration;
  m_attrs : SessionAttrs;
  m_claims : bytes }.

(** int64 arithmetic *)
Definition i64 (z : Z) : Z := i64_of_u64 (u64 z).

Definition encode (c : Codec) (rnd : nat) (s : Signer) (m : mint) : res (string * Token) :=
  if SessionAttrs_IsZero (m_attrs m) || (m_family m =? uuid_Nil) || (m_lifetime m <? Second)
     || (recheck c <? m_lifetime m)
  then Err (Join ErrInvalidArgument (New "jwt: token to mint"))
  else
    let sub := a_subject (m_attrs m) in
    iss ← Issuer c (Tenant sub);
    let aud := if bool_decide (m_audience m = "") then iss else m_audience m in
    sealed ← Seal (m_attrs m);
    claims ← CompactClaims (m_claims m);
    let iat := time_Unix (m_issuedAt m) in
    let exp := i64 (iat + Z.quot (m_lifetime m) Second) in
    let cs := mkClaimSet iss aud (uuid_String (User sub)) (tenant_id (Tenant sub)) (uuid_String (m_family m))
                iat exp TokenType Version (fingerprint c) (b64 sealed) claims
                (SessionAttrs_AMR (m_attrs m)) (time_Unix (a_primaryAt (m_attrs m))) in
    let hb := marshal_header (mkHeader (Signer_Algorithm s) (Signer_KeyID s) TokenType) in
    pb ← marshal_claims cs;
    let input := Base64.encode hb ++ ["."%byte] ++ Base64.encode pb in
    sig ← Sign true rnd s input;
    Ok (bytes_str (input ++ ["."%byte] ++ Base64.encode sig),
        mkToken iss aud (m_family m) (Unix_time iat) (Unix_time exp) (m_attrs m) claims).

(** The parsing of a UUID claim: canonical and not nil. *)
Definition parse_id (s : string) : option uuid :=
  match uuid_Parse s with
  | Some u => if (u =? uuid_Nil) || negb (bool_decide (s = uuid_String u)) then None else Some u
  | None => None
  end.

(** The token and whether it has expired. *)
Definition check (c : Codec) (now : time) (cs : claimSet) (tenant : TenantID) (audience : string)
  : res (Token * bool) :=
  if negb (bool_decide (Typ cs = TokenType)) || negb (Egv cs =? Version)
  then Err (invalid "token format version")
  else if negb (bool_decide (Egc cs = fingerprint c)) then Err (invalid "claims fingerprint")
  else match Issuer c tenant with
  | Err _ => Err (invalid "issuer")
  | Ok iss =>
      if negb (bool_decide (Iss cs = iss)) then Err (invalid "issuer")
      else
        let want := if bool_decide (audience = "") then iss else audience in
        if negb (bool_decide (Aud cs = want))
           || (negb (bool_decide (audience = "")) && bool_decide (Aud cs = iss))
        then Err (invalid "audience")
        else if (Iat cs <=? 0) || (Exp cs <=? Iat cs) || (maxUnixSeconds <? Exp cs)
                || (Z.quot (recheck c) Second <? Exp cs - Iat cs)
        then Err (invalid "lifetime")
        else if time_After (Unix_time (Iat cs)) (time_Add now MaxIssuedAtSkew)
        then Err (invalid "issued in the future")
        else match parse_id (Sid cs) with
        | None => Err (invalid "sid")
        | Some family =>
            match parse_id (Sub cs) with
            | None => Err (invalid "sub")
            | Some user =>
                match unb64 (Att cs) with
                | None => Err (invalid "att encoding")
                | Some sealed =>
                    match Unseal sealed with
                    | Err err => Err (Join JErrInvalidToken err)
                    | Ok attrs =>
                        if negb (bool_decide (a_subject attrs = mkSubject tenant user))
                        then Err (invalid "sub and tid disagree with att")
                        else match CompactClaims (Apc cs) with
                        | Err _ => Err (invalid "apc")
                        | Ok claims =>
                            if negb (bool_decide (claims = Apc cs)) then Err (invalid "apc")
                            else
                              let exp := Unix_time (Exp cs) in
                              Ok (mkToken (Iss cs) (Aud cs) family (Unix_time (Iat cs)) exp attrs claims,
                                  negb (time_Before now exp))
                        end
                    end
                end
            end
        end
  end.

(** [keys] answers which key verifies a tenant's tokens carrying a key id; [want] is the tenant the
    request resolved to, if any. *)
Definition verify (c : Codec) (now : time) (keys : TenantID -> string -> res Verifier) (raw : string)
    (audience : string) (want : option TenantID) : res (Token * bool) :=
  let b := str_bytes raw in
  if bool_decide (raw = "") || (MaxTokenLen <? Z.of_nat (length b)) then Err (invalid "token length")
  else match Split "."%byte b with
  | [p0; p1; p2] =>
      match Base64.decode p0 with
      | None => Err (invalid "header encoding")
      | Some hb =>
          match decode_header hb with
          | None => Err (invalid "header")
          | Some h =>
              if negb (bool_decide (h_Typ h = TokenType)) || bool_decide (Alg h = "") || bool_decide (Kid h = "")
              then Err (invalid "header")
              else match Base64.decode p1 with
              | None => Err (invalid "payload encoding")
              | Some pb =>
                  match Base64.decode p2 with
                  | None => Err (invalid "signature encoding")
                  | Some sig =>
                      match decode_claims pb with
                      | None => Err (invalid "claim set")
                      | Some cs =>
                          match parseTenant (Tid cs) with
                          | Err _ => Err (invalid "tenant")
                          | Ok tenant =>
                              if (match want with Some w => negb (bool_decide (tenant = w)) | None => false end)
                              then Err (Join JErrInvalidToken XErrTenantMismatch)
                              else
                                '(tok, expired) ← check c now cs tenant audience;
                                match keys tenant (Kid h) with
                                | Err err =>
                                    Err (if Is err VErrUnavailable then Join HErrUnavailable err
                                         else Join JErrInvalidToken err)
                                | Ok v =>
                                    match Verify v (mkSigned (Alg h) (Kid h) (p0 ++ ["."%byte] ++ p1) sig) with
                                    | Some err => Err (Join JErrInvalidToken err)
                                    | None => Ok (tok, expired)
                                    end
                                end
                          end
                      end
                  end
              end
          end
      end
  | _ => Err (invalid "not a compact JWS")
  end.

Definition VerifySession (c : Codec) (now : time) (keys : TenantID -> string -> res Verifier) (raw : string)
  : res Token :=
  '(tok, expired) ← verify c now keys raw "" None;
  if expired : bool then Err ErrExpired else Ok tok.

Definition VerifyResource (c : Codec) (now : time) (keys : TenantID -> string -> res Verifier) (raw : string)
    (audience : string) : res Token :=
  if bool_decide (audience = "") then Err (invalid "a resource audience is required")
  else
    '(tok, expired) ← verify c now keys raw audience None;
    if expired : bool then Err ErrExpired else Ok tok.
End uuids.
End Jwt.
