(* ===== verification/JwtCodecFacts.v ===== *)
(** What the access-token codec does: what it writes it reads back, and what it accepts is exactly a
    token of this deployment. *)
From S2P Require Import Prelude Errors Tenant Factor Attrs Codec VerifiedFacts SessionFacts.
From S2P Require Import CodecFacts IdentityRecord GoText Json JsonText.
From S2P Require Import Cookie Renewal StatefulFacts StatefulProperties Signing JwtCodec.
From S2P Require Import Transitions Journey.
Import Session Signing JsonText Jwt.

(** ** ASCII text is valid UTF-8 *)
Abbreviation valid s := (Identity.ValidString s = true).

Lemma ascii_valid s : Forall (fun c => Z_of_byte c < 128) (str_bytes s) -> valid s.
Proof.
  intros H. unfold Identity.ValidString.
  assert (is_Some (Identity.runes (str_bytes s))) as [rs ->]; [|done].
  induction H as [|c b Hc _ [rs IH]]; [by eexists|]. cbn [Identity.runes].
  destruct (Z.ltb_spec (Z_of_byte c) 128); [|lia]. rewrite IH. by eexists.
Qed.

Lemma b64_valid b : valid (b64 b).
Proof.
  apply ascii_valid. unfold b64. rewrite str_bytes_str. eapply Forall_impl; [apply Base64.encode_chars|].
  intros c Hc%Base64.url_char_values. cbv zeta in Hc. lia.
Qed.

Lemma tenant_valid t : tenant_wf t -> valid (tenant_id t) /\ parseTenant (tenant_id t) = Ok t.
Proof.
  unfold parseTenant. intros [->|Ht]; [done|].
  destruct (bool_decide_reflect (tenant_id t = "")) as [E|_]; [by rewrite E in Ht|]. split; [|done].
  apply ascii_valid. unfold ParseTenantID in Ht. destruct (_ || _); [done|].
  destruct (forallb _ _) eqn:Hc; [|done]. apply Forall_forall. intros c Hin%list_elem_of_In.
  rewrite forallb_forall in Hc. apply Hc in Hin. unfold tenant_char_ok in Hin.
  destruct c; try discriminate Hin; vm_compute; reflexivity.
Qed.

Lemma key_id_valid k : checkKeyID k = None -> valid k /\ k <> "".
Proof.
  unfold checkKeyID. destruct (_ || _) eqn:E; [done|]. destruct (forallb _ _) eqn:Hc; [|done]. intros _. bools.
  split; [|done]. apply ascii_valid, Forall_forall. intros c Hin%list_elem_of_In.
  rewrite forallb_forall in Hc. apply Hc in Hin. destruct c; try discriminate Hin; vm_compute; reflexivity.
Qed.

#[local] Transparent factorTable.

Lemma AMR_valid f : valid (Factor.AMR f).
Proof.
  unfold Factor.AMR. destruct (factorTable !! code f) as [i|] eqn:E; [|done].
  unfold factorTable in E. apply elem_of_list_to_map_2 in E. revert E. generalize (code f). intros c E.
  repeat (apply elem_of_cons in E as [[= -> ->]|E]; [vm_compute; reflexivity|]). by apply elem_of_nil in E.
Qed.

#[local] Opaque factorTable.

Lemma amrOf_valid fs : Forall (fun s => valid s) (amrOf fs).
Proof.
  unfold amrOf. assert (forall l out, Forall (fun s => valid s) out -> Forall (fun s => valid s) (fold_left amr_append l out)) as H.
  { induction l as [|f l IH]; intros out Ho; [done|]. apply IH. unfold amr_append. case_match; [|done].
    apply Forall_app. split; [done|]. constructor; [apply AMR_valid|done]. }
  case_match; [apply Forall_app; split; [by apply H|by repeat constructor]|by apply H].
Qed.

(** ** Splitting *)
Lemma Split_absent sep b : sep ∉ b -> Split sep b = [b].
Proof.
  induction b as [|c b IH]; intros Hn; [done|]. apply not_elem_of_cons in Hn as [Hc Hb]. cbn [Split].
  rewrite bool_decide_eq_false_2 by congruence. by rewrite IH.
Qed.

Lemma Split_app sep a b : sep ∉ a -> Split sep (a ++ sep :: b) = a :: Split sep b.
Proof.
  induction a as [|c a IH]; intros Hn; cbn [app Split]; [by rewrite bool_decide_eq_true_2|].
  apply not_elem_of_cons in Hn as [Hc Ha]. rewrite bool_decide_eq_false_2 by congruence. by rewrite IH.
Qed.

(** ** Headers and claims *)
Lemma header_round_trip h : valid (Alg h) -> valid (Kid h) -> valid (h_Typ h) ->
  decode_header (marshal_header h) = Some h.
Proof.
  intros Ha Hk Ht. unfold decode_header, marshal_header. rewrite strictDecode_object.
  - cbn. rewrite !into_string_quote by done. cbn. rewrite into_string_quote by done. cbn.
    rewrite into_string_quote by done. by destruct h.
  - done.
  - repeat constructor; apply writes_string.
  - repeat constructor; cbn; solve [by vm_compute|set_solver].
Qed.

(** A claim set the codec writes. *)
Record claims_ok (cs : claimSet) : Prop := {
  co_strings : Forall (fun s => valid s) [Iss cs; Aud cs; Sub cs; Tid cs; Sid cs; Typ cs; Egc cs; Att cs];
  co_ints : Forall is_i64 [Iat cs; Exp cs; Egv cs; AuthTime cs];
  co_apc : Json.Compact (Apc cs) = Some (Apc cs) /\ (exists b, Apc cs = "{"%byte :: b) /\
    Z.of_nat (length (Apc cs)) <= 4096;
  co_amr : Forall (fun s => valid s) (AMR cs) }.

Definition drop_amr (cs : claimSet) : claimSet :=
  mkClaimSet (Iss cs) (Aud cs) (Sub cs) (Tid cs) (Sid cs) (Iat cs) (Exp cs) (Typ cs) (Egv cs) (Egc cs) (Att cs)
    (Apc cs) [] (AuthTime cs).

Lemma claims_round_trip cs : claims_ok cs ->
  exists pb, marshal_claims cs = Ok pb /\ decode_claims pb = Some (drop_amr cs).
Proof.
  intros [Hs Hi (Hc & Ho & Hl) Ha]. unfold marshal_claims. rewrite Hc. eexists. split; [reflexivity|].
  rewrite !Forall_cons in Hs. rewrite !Forall_cons in Hi. destruct Hs as (? & ? & ? & ? & ? & ? & ? & ? & _), Hi as (? & ? & ? & ? & _).
  unfold decode_claims. rewrite strictDecode_object.
  - cbn -[into_string into_int into_strings quote_ AppendInt strings].
    repeat (first [rewrite into_string_quote by done|rewrite into_int_AppendInt by done
      |rewrite into_strings_strings by done]; cbn -[into_string into_int into_strings quote_ AppendInt strings]).
    done.
  - done.
  - repeat constructor; cbn [snd]; first [apply writes_string|by apply writes_int|by apply writes_raw|apply writes_strings].
  - repeat constructor; cbn [fst]; solve [by vm_compute|set_solver].
Qed.

(** ** Acceptance *)

(** [refuse E]: the guard at the head of the goal did not refuse. *)
Ltac refuse E := match goal with |- (if ?b then Err _ else _) = _ -> _ => destruct b eqn:E; [discriminate|] end.

Section codec.
Context `{Crypto} (uuid_String : uuid -> string) (uuid_Parse : string -> option uuid).
Abbreviation check := (check uuid_String uuid_Parse).
Abbreviation verify := (verify uuid_String uuid_Parse).

(** What a checked claim set says, whatever key signed it. *)
Record checked (c : Codec) (now : time) (cs : claimSet) (tenant : TenantID) (aud : string) (tok : Token)
    (expired : bool) : Prop := {
  ck_issuer : Issuer c tenant = Ok (issuer tok) /\ Iss cs = issuer tok;
  ck_audience : audience tok = Aud cs /\ (aud = "" /\ audience tok = issuer tok \/
    aud <> "" /\ audience tok = aud /\ aud <> issuer tok);
  ck_format : Typ cs = TokenType /\ Egv cs = Version /\ Egc cs = fingerprint c;
  ck_family : Sid cs = uuid_String (family tok) /\ family tok <> uuid_Nil;
  ck_user : Sub cs = uuid_String (User (a_subject (attrs tok))) /\ User (a_subject (attrs tok)) <> uuid_Nil;
  ck_tenant : Tenant (a_subject (attrs tok)) = tenant;
  ck_attrs : attrs_wf (attrs tok) /\ exists sealed, unb64 (Att cs) = Some sealed /\ Seal (attrs tok) = Ok sealed;
  ck_claims : Apc cs = claims tok /\ CompactClaims (claims tok) = Ok (claims tok);
  ck_times : issuedAt tok = Unix_time (Iat cs) /\ expiresAt tok = Unix_time (Exp cs);
  ck_lifetime : unix_epoch < issuedAt tok < expiresAt tok /\ expiresAt tok - issuedAt tok <= Z.quot (recheck c) Second * Second;
  ck_not_future : issuedAt tok <= now + MaxIssuedAtSkew;
  ck_expired : expired = (expiresAt tok <=? now) }.

Lemma parse_id_Some s u : parse_id uuid_String uuid_Parse s = Some u -> s = uuid_String u /\ u <> uuid_Nil.
Proof.
  unfold parse_id. destruct (uuid_Parse s) as [v|]; [|done]. destruct (_ || _) eqn:E; [done|].
  intros [= <-]. by bools.
Qed.

Lemma check_Ok c now cs tenant aud tok expired :
  check c now cs tenant aud = Ok (tok, expired) -> checked c now cs tenant aud tok expired.
Proof.
  unfold Jwt.check. refuse E1. refuse E2. destruct (Issuer c tenant) as [iss|] eqn:Ei; [|done].
  refuse E3. cbv zeta. refuse E4. refuse E5. refuse E6.
  destruct (parse_id _ _ (Sid cs)) as [fam|] eqn:Ef; [|done]. destruct (parse_id _ _ (Sub cs)) as [user|] eqn:Eu; [|done].
  destruct (unb64 (Att cs)) as [sealed|] eqn:Ea; [|done].
  pose proof (Unseal_spec sealed) as Hu. destruct (Unseal sealed) as [a|]; [|done]. destruct Hu as [Hw Hseal].
  refuse E7. destruct (CompactClaims (Apc cs)) as [cl|] eqn:Ec; [|done]. refuse E8. intros [= <- <-].
  apply orb_false_iff in E4 as [E4a E4b]. bools.
  apply parse_id_Some in Ef as [Hs Hf], Eu as [Hsu Hus]. subst cl.
  unfold Unix_time, time_Add, Second in *. split; cbn [issuer audience family issuedAt expiresAt attrs claims].
  - by subst.
  - split; [done|]. destruct (bool_decide_reflect (aud = "")) as [->|Hn]; [left; by subst|right].
    split; [done|]. split; [done|]. cbn in E4b. bools. congruence.
  - done.
  - done.
  - by rewrite E7.
  - by rewrite E7.
  - split; [done|]. by exists sealed.
  - done.
  - done.
  - split; [lia|]. unfold Second. set (q := Z.quot (recheck c) 1000000000) in *. clearbody q. lia.
  - unfold MaxIssuedAtSkew, Second in *. lia.
  - unfold time_Before. destruct (Z.ltb_spec now (unix_epoch + Exp cs * 1000000000)), (Z.leb_spec (unix_epoch + Exp cs * 1000000000) now); try done; lia.
Qed.

(** The three parts of a token, its header and its claims, and the key that signed them. *)
Definition signed_by (keys : TenantID -> string -> res Verifier) (raw : string) (tenant : TenantID)
    (cs : claimSet) : Prop :=
  exists p0 p1 p2 hb h pb sig v,
    Split "."%byte (str_bytes raw) = [p0; p1; p2] /\
    Base64.decode p0 = Some hb /\ decode_header hb = Some h /\ h_Typ h = TokenType /\
    Base64.decode p1 = Some pb /\ decode_claims pb = Some cs /\ Base64.decode p2 = Some sig /\
    parseTenant (Tid cs) = Ok tenant /\ keys tenant (Kid h) = Ok v /\
    Verify v (mkSigned (Alg h) (Kid h) (p0 ++ ["."%byte] ++ p1) sig) = None.

Lemma verify_Ok c now keys raw aud want tok expired :
  verify c now keys raw aud want = Ok (tok, expired) ->
  exists cs tenant, signed_by keys raw tenant cs /\ checked c now cs tenant aud tok expired /\
    (forall w, want = Some w -> tenant = w) /\ Z.of_nat (length (str_bytes raw)) <= MaxTokenLen.
Proof.
  unfold Jwt.verify. cbv zeta. refuse E1.
  destruct (Split "."%byte (str_bytes raw)) as [|p0 [|p1 [|p2 [|]]]] eqn:Es; try done.
  destruct (Base64.decode p0) as [hb|] eqn:E2; [|done].
  destruct (decode_header hb) as [h|] eqn:E3; [|done]. refuse E4.
  destruct (Base64.decode p1) as [pb|] eqn:E5; [|done]. destruct (Base64.decode p2) as [sig|] eqn:E6; [|done].
  destruct (decode_claims pb) as [cs|] eqn:E7; [|done]. destruct (parseTenant (Tid cs)) as [tenant|] eqn:E8; [|done].
  refuse E9.
  destruct (check c now cs tenant aud) as [[tok' ex]|] eqn:Ec; [|done]. cbn [mbind res_bind].
  destruct (keys tenant (Kid h)) as [v|] eqn:Ek; [|done]. destruct (Verify v _) eqn:Ev; [done|].
  intros [= <- <-]. bools. exists cs, tenant. split; [|split; [by apply check_Ok|split; [|done]]].
  - exists p0, p1, p2, hb, h, pb, sig, v. done.
  - intros w ->. by bools.
Qed.

(** A text carries one claim set. *)
Lemma signed_by_unique keys keys' raw t cs t' cs' :
  signed_by keys raw t cs -> signed_by keys' raw t' cs' -> t = t' /\ cs = cs'.
Proof.
  intros (p0 & p1 & p2 & hb & h & pb & sig & v & E & D0 & _ & _ & D1 & C & D2 & T & _)
         (q0 & q1 & q2 & hb' & h' & pb' & sig' & v' & E' & D0' & _ & _ & D1' & C' & D2' & T' & _).
  rewrite E in E'. injection E' as <- <- <-. simplify_eq. split; [congruence|done].
Qed.

(** A token is accepted for its issuer or for a resource, never for both, whatever the keys and the
    clocks of the two verifiers. *)
Lemma session_or_resource c c' now now' keys keys' raw want want' aud x y :
  aud <> "" -> origin c = origin c' ->
  verify c now keys raw "" want = Ok x -> verify c' now' keys' raw aud want' = Ok y -> False.
Proof.
  intros Ha Ho Hx Hy. destruct x as [t1 e1], y as [t2 e2].
  apply verify_Ok in Hx as (cs & t & Hs & Hc & _). apply verify_Ok in Hy as (cs' & t' & Hs' & Hc' & _).
  destruct (signed_by_unique _ _ _ _ _ _ _ Hs Hs') as [<- <-].
  destruct (ck_issuer _ _ _ _ _ _ _ Hc) as [Hi _], (ck_issuer _ _ _ _ _ _ _ Hc') as [Hi' _].
  assert (Issuer c t = Issuer c' t) as E by (unfold Issuer; by rewrite Ho).
  assert (issuer t1 = issuer t2) as Ei by congruence.
  destruct (ck_audience _ _ _ _ _ _ _ Hc) as [Ha1 [[_ Hb1]|[? _]]]; [|done].
  destruct (ck_audience _ _ _ _ _ _ _ Hc') as [Ha2 [[? _]|(_ & Hb2 & Hb3)]]; [done|]. congruence.
Qed.

(** Only the keys of the tenant the request resolved to matter. *)
Lemma verify_keys c now keys keys' raw aud w :
  (forall kid, keys w kid = keys' w kid) ->
  verify c now keys raw aud (Some w) = verify c now keys' raw aud (Some w).
Proof.
  intros Hk. unfold Jwt.verify. cbv zeta. destruct (_ || _); [done|].
  destruct (Split "."%byte (str_bytes raw)) as [|p0 [|p1 [|p2 [|]]]]; try done.
  destruct (Base64.decode p0) as [hb|]; [|done]. destruct (decode_header hb) as [h|]; [|done].
  destruct (_ || _); [done|]. destruct (Base64.decode p1) as [pb|]; [|done].
  destruct (Base64.decode p2) as [sig|]; [|done]. destruct (decode_claims pb) as [cs|]; [|done].
  destruct (parseTenant (Tid cs)) as [t|]; [|done]. case_bool_decide as Ht; [|done]. subst t. cbn [negb].
  destruct (check c now cs w aud) as [[tok ex]|]; [|done]. cbn [mbind res_bind]. by rewrite Hk.
Qed.
End codec.

(** ** Round trip *)

(** What the codec relies on in google/uuid. *)
Class UUIDLaws (uuid_String : uuid -> string) (uuid_Parse : string -> option uuid) : Prop := {
  Parse_String u : uuid_ok u -> uuid_Parse (uuid_String u) = Some u;
  String_valid u : valid (uuid_String u) }.

Section round_trip.
Context `{CryptoLaws} (uuid_String : uuid -> string) (uuid_Parse : string -> option uuid).
Context `{!UUIDLaws uuid_String uuid_Parse}.

(** A session that may be minted: its subject is a user, and the instants lie after 1970 and before
    the year 36812. *)
Record mintable (c : Codec) (m : mint) : Prop := {
  mt_attrs : attrs_wf (m_attrs m);
  mt_user : User (a_subject (m_attrs m)) <> uuid_Nil;
  mt_family : uuid_ok (m_family m);
  mt_issued : unix_epoch + Second <= m_issuedAt m;
  mt_expires : m_issuedAt m + m_lifetime m <= Unix_time maxUnixSeconds;
  mt_texts : valid (fingerprint c) /\ valid (m_audience m) /\ forall iss, Issuer c (Tenant (a_subject (m_attrs m))) = Ok iss -> valid iss }.

Lemma parse_id_String u : uuid_ok u -> u <> uuid_Nil -> parse_id uuid_String uuid_Parse (uuid_String u) = Some u.
Proof.
  intros Hu Hn. unfold parse_id. rewrite Parse_String by done. rewrite (proj2 (Z.eqb_neq _ _) Hn).
  by rewrite bool_decide_eq_true_2.
Qed.

Lemma CompactClaims_facts raw c : CompactClaims raw = Ok c ->
  CompactClaims c = Ok c /\ Json.Compact c = Some c /\ (exists b, c = "{"%byte :: b) /\ Z.of_nat (length c) <= 4096.
Proof.
  intros Hr. pose proof (compact_claims_are_canonical raw c Hr) as (Hc & Hv & Hl & mid & Em).
  split; [done|]. split; [|split; [by eexists; exact Em|unfold MaxAppClaimsBytes in Hl; lia]].
  unfold CompactClaims in Hr. destruct (TrimSpace raw) as [|x t]; [done|]. destruct (_ || _); [done|].
  destruct (Json.Compact (x :: t)) as [buf|] eqn:E; [|done]. destruct (_ <? _); [done|]. injection Hr as <-.
  by apply Json.Compact_idempotent in E as [_ E].
Qed.

Lemma unix_seconds t : unix_epoch + Second <= t -> t <= Unix_time maxUnixSeconds ->
  1 <= time_Unix t <= maxUnixSeconds /\ Unix_time (time_Unix t) <= t < Unix_time (time_Unix t) + Second.
Proof.
  unfold time_Unix, Unix_time. intros H1 H2. assert (0 < Second) as Hs by done.
  pose proof (Z.div_mod (t - unix_epoch) Second ltac:(lia)) as Hd. pose proof (Z.mod_pos_bound (t - unix_epoch) Second Hs).
  split; [split; [apply Z.div_le_lower_bound; lia|apply Z.div_le_upper_bound; lia]|lia].
Qed.

Lemma time_Unix_range a t : Seal a = Ok t -> attrs_wf a -> is_i64 (time_Unix (a_primaryAt a)).
Proof.
  intros Hs Ha. apply (Seal_Ok a t Ha) in Hs as (Ht & _). unfold attrs_times in Ht.
  assert (time_in_range (a_primaryAt a)) as Hr by (rewrite Forall_forall in Ht; apply Ht; set_solver).
  unfold time_in_range, minUnixNano, maxUnixNano, time_Unix_nano, two63, unix_epoch, Second in Hr.
  unfold is_i64, time_Unix, unix_epoch, Second, two63. destruct Hr as [->|Hr]; [by vm_compute|].
  split; [apply Z.div_le_lower_bound|apply Z.div_lt_upper_bound]; lia.
Qed.

(** The claims encode writes for [m], once the issuer, the sealed attributes and the compact claims are
    known. *)
Definition claims_of (c : Codec) (m : mint) (iss : string) (sealed cl : bytes) : claimSet :=
  let sub := a_subject (m_attrs m) in
  let iat := time_Unix (m_issuedAt m) in
  mkClaimSet iss (if bool_decide (m_audience m = "") then iss else m_audience m) (uuid_String (User sub))
    (tenant_id (Tenant sub)) (uuid_String (m_family m)) iat (iat + Z.quot (m_lifetime m) Second) TokenType Version
    (fingerprint c) (b64 sealed) cl (SessionAttrs_AMR (m_attrs m)) (time_Unix (a_primaryAt (m_attrs m))).

(** Whole seconds of a lifetime between one second and the recheck interval. *)
Lemma lifetime_seconds c m : Second <= m_lifetime m <= recheck c ->
  1 <= Z.quot (m_lifetime m) Second <= Z.quot (recheck c) Second /\
  Z.quot (m_lifetime m) Second * Second <= m_lifetime m < Z.quot (m_lifetime m) Second * Second + Second.
Proof.
  intros Hl. assert (0 < Second) by done. rewrite !Z.quot_div_nonneg by lia.
  split; [split; [apply Z.div_le_lower_bound; lia|apply Z.div_le_mono; lia]|].
  pose proof (Z.div_mod (m_lifetime m) Second ltac:(lia)). pose proof (Z.mod_pos_bound (m_lifetime m) Second ltac:(lia)). lia.
Qed.

Lemma mint_times c m : mintable c m -> Second <= m_lifetime m <= recheck c ->
  let iat := time_Unix (m_issuedAt m) in let exp := iat + Z.quot (m_lifetime m) Second in
  1 <= iat < exp /\ exp <= maxUnixSeconds /\ Unix_time iat <= m_issuedAt m.
Proof.
  intros Hm Hl iat exp. destruct (lifetime_seconds c m Hl) as [Hq Hq'].
  pose proof (mt_issued _ _ Hm) as Hi. pose proof (mt_expires _ _ Hm) as He. assert (0 < Second) by done.
  destruct (unix_seconds (m_issuedAt m) Hi ltac:(lia)) as [Hu1 Hu2]. fold iat in Hu1, Hu2.
  split; [lia|]. split; [|lia].
  assert (Unix_time exp <= Unix_time maxUnixSeconds) as Hle
    by (subst exp; unfold Unix_time in *; rewrite Z.mul_add_distr_r; lia).
  unfold Unix_time in Hle. apply Z.add_le_mono_l in Hle. by apply Z.mul_le_mono_pos_r in Hle.
Qed.

Lemma check_minted c m iss sealed cl now :
  mintable c m -> Second <= m_lifetime m <= recheck c -> m_family m <> uuid_Nil ->
  Issuer c (Tenant (a_subject (m_attrs m))) = Ok iss -> m_audience m <> iss ->
  Seal (m_attrs m) = Ok sealed -> CompactClaims cl = Ok cl ->
  Unix_time (time_Unix (m_issuedAt m)) <= now + MaxIssuedAtSkew ->
  let cs := drop_amr (claims_of c m iss sealed cl) in
  Jwt.check uuid_String uuid_Parse c now cs (Tenant (a_subject (m_attrs m))) (m_audience m)
  = Ok (mkToken iss (Aud cs) (m_family m) (Unix_time (Iat cs)) (Unix_time (Exp cs)) (m_attrs m) cl,
        Unix_time (Exp cs) <=? now).
Proof.
  intros Hm Hl Hf Hi Ha Hs Hc Hnow cs. destruct (mint_times c m Hm Hl) as (Ht & Hmax & _).
  destruct (lifetime_seconds c m Hl) as [Hq _]. pose proof (mt_attrs _ _ Hm) as Hw.
  unfold Jwt.check, cs. cbn [Typ Egv Egc Iss Aud Iat Exp Sid Sub Att Apc drop_amr claims_of].
  rewrite Hi, !(bool_decide_eq_true_2 (_ = _)) by done. rewrite Z.eqb_refl. cbn [negb orb].
  assert (negb (bool_decide (m_audience m = ""))
          && bool_decide ((if bool_decide (m_audience m = "") then iss else m_audience m) = iss) = false) as ->.
  { destruct (bool_decide_reflect (m_audience m = "")) as [|Hn]; [done|]. by rewrite bool_decide_eq_false_2. }
  set (iat := time_Unix (m_issuedAt m)) in *. set (q := Z.quot (m_lifetime m) Second) in *.
  destruct (Z.leb_spec iat 0), (Z.leb_spec (iat + q) iat), (Z.ltb_spec maxUnixSeconds (iat + q)),
    (Z.ltb_spec (Z.quot (recheck c) Second) (iat + q - iat)); try lia. cbn [orb].
  unfold time_After, time_Before, time_Add. destruct (Z.ltb_spec (now + MaxIssuedAtSkew) (Unix_time iat)); [lia|].
  rewrite !parse_id_String; [|apply Hw|exact (mt_user _ _ Hm)|exact (mt_family _ _ Hm)|done].
  unfold unb64, b64. rewrite str_bytes_str, Base64.decode_encode, (Unseal_Seal _ _ Hw Hs), Hc.
  rewrite (bool_decide_eq_true_2 (a_subject (m_attrs m) = _)) by (by destruct (a_subject (m_attrs m))).
  rewrite (bool_decide_eq_true_2 (cl = cl)) by done. cbn [negb]. f_equal. f_equal.
  destruct (Z.ltb_spec now (Unix_time (iat + q))), (Z.leb_spec (Unix_time (iat + q)) now); try lia; done.
Qed.

Lemma claims_of_ok c m iss sealed cl :
  mintable c m -> Second <= m_lifetime m <= recheck c ->
  Issuer c (Tenant (a_subject (m_attrs m))) = Ok iss -> Seal (m_attrs m) = Ok sealed ->
  Json.Compact cl = Some cl -> (exists b, cl = "{"%byte :: b) -> Z.of_nat (length cl) <= 4096 ->
  claims_ok (claims_of c m iss sealed cl).
Proof.
  intros Hm Hl Hi Hs Hc Hb Hlen. destruct (mint_times c m Hm Hl) as (Ht & Hmax & _).
  pose proof (mt_attrs _ _ Hm) as Hw. destruct (mt_texts _ _ Hm) as (Hfp & Hau & Hiss).
  split; [| |done|apply amrOf_valid].
  - pose proof (Hiss _ Hi) as Hv. repeat constructor; cbn; try done; try apply String_valid; [by case_match| |apply b64_valid].
    by apply tenant_valid, Hw.
  - assert (maxUnixSeconds < two63) by done. assert (0 < two63) by done.
    rewrite !Forall_cons. cbn [Iat Exp Egv AuthTime claims_of].
    split_and!; [unfold is_i64; lia|unfold is_i64; lia|done|by apply (time_Unix_range (m_attrs m) sealed)|done].
Qed.

Lemma paired_alg k : paired k -> valid (alg (pub k)) /\ alg (pub k) <> "".
Proof. by destruct 1. Qed.

Lemma encode_issuer c rnd k m raw tok :
  encode uuid_String c rnd k m = Ok (raw, tok) -> Issuer c (Tenant (a_subject (m_attrs m))) = Ok (issuer tok).
Proof.
  unfold encode. destruct (_ || _); [done|]. destruct (Issuer c _) as [iss|]; [|done]. cbn [mbind res_bind].
  destruct (Seal (m_attrs m)) as [sealed|]; [|done]. cbn [mbind res_bind].
  destruct (CompactClaims (m_claims m)) as [cl|]; [|done]. cbn [mbind res_bind].
  destruct (marshal_claims _) as [pb|]; [|done]. cbn [mbind res_bind]. destruct (Sign _ _ _ _) as [sig|]; [|done].
  intros E. apply (f_equal (fun r => match r with Ok x => issuer x.2 | Err _ => iss end)) in E. cbn in E. by rewrite E.
Qed.

(** What is minted is verified, by the key it was signed with, until it expires. *)
Lemma verify_encode c rnd k m raw tok now (keys : TenantID -> string -> res Verifier) want :
  encode uuid_String c rnd (Some k) m = Ok (raw, tok) -> mintable c m ->
  paired k -> checkKeyID (kid (pub k)) = None ->
  keys (Tenant (a_subject (m_attrs m))) (kid (pub k)) = Ok (Some (pub k)) ->
  (want = None \/ want = Some (Tenant (a_subject (m_attrs m)))) ->
  Z.of_nat (length (str_bytes raw)) <= MaxTokenLen -> m_audience m <> issuer tok ->
  m_issuedAt m <= now + MaxIssuedAtSkew ->
  Jwt.verify uuid_String uuid_Parse c now keys raw (m_audience m) want = Ok (tok, expiresAt tok <=? now) /\
  family tok = m_family m /\ attrs tok = m_attrs m /\ CompactClaims (m_claims m) = Ok (claims tok) /\
  m_issuedAt m + m_lifetime m < expiresAt tok + 2 * Second /\ expiresAt tok <= m_issuedAt m + m_lifetime m.
Proof.
  unfold encode. destruct (_ || _) eqn:Eg; [done|]. bools. intros He Hm Hk Hid Hkeys Hwant Hlen Haud Hnow.
  destruct (Issuer c _) as [iss|] eqn:Ei; [|done]. cbn [mbind res_bind] in He.
  destruct (Seal (m_attrs m)) as [sealed|] eqn:Es; [|done]. cbn [mbind res_bind] in He.
  destruct (CompactClaims (m_claims m)) as [cl|] eqn:Ec; [|done]. cbn [mbind res_bind] in He.
  destruct (CompactClaims_facts _ _ Ec) as (Hcl & Hcc & Hcb & Hcn).
  assert (Second <= m_lifetime m <= recheck c) as Hl by lia.
  destruct (mint_times c m Hm Hl) as (Ht & Hmax & Hiat). destruct (lifetime_seconds c m Hl) as [Hq Hq'].
  assert (i64 (time_Unix (m_issuedAt m) + Z.quot (m_lifetime m) Second)
    = time_Unix (m_issuedAt m) + Z.quot (m_lifetime m) Second) as Ex.
  { apply i64_u64_i64. assert (maxUnixSeconds < two63) by done. assert (0 < two63) by done. lia. }
  rewrite Ex in He. fold (claims_of c m iss sealed cl) in He.
  destruct (claims_round_trip (claims_of c m iss sealed cl)) as (pb & Epb & Edec); [by apply claims_of_ok|].
  rewrite Epb in He. cbn [mbind res_bind Signer_Algorithm Signer_KeyID] in He.
  set (hb := marshal_header _) in He. set (input := Base64.encode hb ++ ["."%byte] ++ Base64.encode pb) in He.
  destruct (Sign true rnd (Some k) input) as [sig|] eqn:Esig; [|done].
  apply (f_equal (fun r => match r with Ok x => x | Err _ => (raw, tok) end)) in He. cbn beta iota in He.
  apply pair_equal_spec in He as [<- <-].
  cbn [issuer audience family issuedAt expiresAt attrs claims] in *. rewrite str_bytes_str in Hlen.
  split.
  2:{ unfold Unix_time in *. rewrite Z.mul_add_distr_r. assert (0 < Second) by done.
      split_and!; try done; [|lia].
      destruct (unix_seconds (m_issuedAt m) (mt_issued _ _ Hm)) as [_ Hs2];
        [pose proof (mt_expires _ _ Hm); lia|]. unfold Unix_time in Hs2. lia. }
  pose proof (check_minted c m iss sealed cl now Hm Hl ltac:(done) Ei Haud Es Hcl ltac:(lia)) as Hck.
  destruct (key_id_valid _ Hid) as [Hkv Hkn]. destruct (paired_alg k Hk) as [Hav Han].
  unfold Jwt.verify. rewrite str_bytes_str.
  rewrite (bool_decide_eq_false_2 (bytes_str _ = "")).
  2:{ intros E. apply (f_equal str_bytes) in E. rewrite str_bytes_str in E. by destruct input. }
  rewrite (proj2 (Z.ltb_ge _ _) Hlen). cbn [orb].
  unfold input at 1. rewrite <- !app_assoc. cbn [app].
  rewrite Split_app, Split_app, Split_absent by apply encode_no_dot.
  rewrite !Base64.decode_encode. unfold hb at 1. rewrite header_round_trip by done. cbn [h_Typ Alg Kid].
  rewrite (bool_decide_eq_true_2 (TokenType = TokenType)), !(bool_decide_eq_false_2 (_ = "")) by done. cbn [negb orb].
  rewrite Edec. change (Tid (drop_amr (claims_of c m iss sealed cl))) with (tenant_id (Tenant (a_subject (m_attrs m)))).
  destruct (tenant_valid (Tenant (a_subject (m_attrs m)))) as [_ ->]; [apply (aw_subject _ (mt_attrs _ _ Hm))|].
  assert ((match want with Some w => negb (bool_decide (Tenant (a_subject (m_attrs m)) = w)) | None => false end) = false) as ->
    by (destruct Hwant as [->| ->]; [done|by rewrite bool_decide_eq_true_2]).
  rewrite Hck. cbn [mbind res_bind]. rewrite Hkeys. change (Base64.encode hb ++ "."%byte :: Base64.encode pb) with input.
  by rewrite (Verify_Sign k rnd input sig Hk Esig : Verify (Some (pub k)) _ = None).
Qed.
End round_trip.

(** ** The guarantees of the access-token codec, with the sample key and token their witnesses run on. *)

Import Session Signing Jwt.

(** ** Sample values *)

(** A stand-in for SHA-256 with its length. *)
Definition toy_digest (b : bytes) : bytes := take 32 (rev b ++ replicate 32 Byte.x00).

(** Cryptography with symmetric keys only; the other algorithms have no key. *)
#[local] Instance toy_crypto : Crypto := {
  EdPriv := Empty_set; EdPub := Empty_set; EcPriv := Empty_set; EcPub := Empty_set;
  RsaPriv := Empty_set; RsaPub := Empty_set;
  sha256_Sum256 := toy_digest;
  hmac_SHA256 m b := toy_digest (b ++ m);
  ed25519_Sign p _ := match p with end;
  ed25519_Verify p _ _ := match p with end;
  ecdsa_Sign _ p _ := match p with end;
  ecdsa_Verify p _ _ _ := match p with end;
  rsa_SignPKCS1v15 _ p _ := match p with end;
  rsa_VerifyPKCS1v15 p _ _ := match p with end;
  hkdf_Key key _ _ n := Ok (take (Z.to_nat n) key) }.

#[local] Instance toy_laws : @CryptoLaws toy_crypto.
Proof.
  refine {| ed_pair _ _ := False; ec_pair _ _ := False; rsa_pair _ _ := False |}; [done|by intros []|done|by intros ? []|done].
Defined.

(** UUIDs written in base64. *)
Definition toy_String (u : uuid) : string := b64 (be_bytes 16 u).

Definition toy_Parse (s : string) : option uuid := be_value <$> unb64 s.

#[local] Instance toy_uuid : UUIDLaws toy_String toy_Parse.
Proof.
  split; [|intros u; apply b64_valid]. intros u Hu. unfold toy_Parse, toy_String, unb64, b64.
  rewrite str_bytes_str, Base64.decode_encode. cbn [fmap option_fmap option_map]. f_equal. by apply be_value_bytes.
Qed.

Definition key_secret : bytes := str_bytes "0123456789abcdefghijklmnopqrstuvwxyz".

Definition sample_key : privateKey :=
  match HS256 "k1" key_secret with Ok (Some k) => k | _ => mkPrivateKey None None None None (mkPublicKey "" "" None None None None) end.

Definition sample_keys (t : TenantID) (k : string) : res Verifier :=
  if bool_decide (k = "k1") then Ok (Some (pub sample_key)) else Err ErrUnknownKey.

Definition codec0 : Codec := mkCodec "https://{tenant}.example.com" "fp" (10 * 60 * Second).

Definition mint0 (aud : string) : mint := mkMint aud 77 (now0 + 4 * Second) (5 * 60 * Second) session0 (str_bytes "{ }").

Definition zero_Token : Token := mkToken "" "" 0 0 0 session0 [].

Definition minted0 (aud : string) : string * Token :=
  match encode toy_String codec0 0 (Some sample_key) (mint0 aud) with Ok x => x | Err _ => ("", zero_Token) end.

Lemma encode0 aud : aud = "" \/ aud = "https://api.example.com" ->
  encode toy_String codec0 0 (Some sample_key) (mint0 aud) = Ok ((minted0 aud).1, (minted0 aud).2).
Proof. intros [->| ->]; vm_compute; reflexivity. Qed.

Lemma sample_paired : paired sample_key.
Proof.
  destruct (HS256_paired "k1" key_secret (Some sample_key)) as (x & [= <-] & Hp & _); [vm_compute; reflexivity|exact Hp].
Qed.

Lemma mintable0 aud : valid aud -> mintable codec0 (mint0 aud).
Proof.
  intros Ha. split; [apply session_wf, session0_session|by vm_compute|by vm_compute|by vm_compute|by vm_compute|].
  split_and!; [by vm_compute|done|]. intros iss Hi.
  assert (iss = "https://acme.example.com") as -> by (vm_compute in Hi; congruence). by vm_compute.
Qed.

(** ** Properties *)

(** C32: What the codec mints it verifies.  A token minted for a session of a user, with a key whose
    public half the key manager gives for the tenant, is accepted for its own audience, in the tenant's
    own realm or in any, from up to 30 seconds before it is issued until it expires, and refused as
    expired from then on; what comes back is the very session: its family, its attributes, its claims
    in compact form, and an expiry at most two seconds short of the lifetime asked for and never past it. *)
Theorem access_token_round_trip `{CryptoLaws} uuid_String uuid_Parse `{!UUIDLaws uuid_String uuid_Parse}
    c rnd k m raw tok now keys :
  encode uuid_String c rnd (Some k) m = Ok (raw, tok) -> mintable c m ->
  paired k -> checkKeyID (kid (pub k)) = None ->
  keys (Tenant (a_subject (m_attrs m))) (kid (pub k)) = Ok (Some (pub k)) ->
  Z.of_nat (length (str_bytes raw)) <= MaxTokenLen -> m_audience m <> issuer tok ->
  m_issuedAt m <= now + MaxIssuedAtSkew ->
  (forall want, want = None \/ want = Some (Tenant (a_subject (m_attrs m))) ->
     verify uuid_String uuid_Parse c now keys raw (m_audience m) want = Ok (tok, expiresAt tok <=? now)) /\
  (if bool_decide (m_audience m = "") then VerifySession uuid_String uuid_Parse c now keys raw
   else VerifyResource uuid_String uuid_Parse c now keys raw (m_audience m))
  = (if expiresAt tok <=? now then Err ErrExpired else Ok tok) /\
  family tok = m_family m /\ attrs tok = m_attrs m /\ CompactClaims (m_claims m) = Ok (claims tok) /\
  m_issuedAt m + m_lifetime m < expiresAt tok + 2 * Second /\ expiresAt tok <= m_issuedAt m + m_lifetime m.
Proof.
  intros He Hm Hk Hid Hkeys Hlen Haud Hnow.
  assert (forall want, want = None \/ want = Some (Tenant (a_subject (m_attrs m))) ->
    _ /\ _) as Hv by (intros want Hw; exact (verify_encode uuid_String uuid_Parse c rnd k m raw tok now keys want
      He Hm Hk Hid Hkeys Hw Hlen Haud Hnow)).
  split; [intros want Hw; by apply Hv|]. destruct (Hv None (or_introl eq_refl)) as [Hn Hrest]. split; [|exact Hrest].
  unfold VerifySession, VerifyResource. destruct (bool_decide_reflect (m_audience m = "")) as [E|_].
  - rewrite E in Hn. rewrite Hn. cbn [mbind res_bind]. by destruct (_ <=? _).
  - rewrite Hn. cbn [mbind res_bind]. by destruct (_ <=? _).
Qed.

Lemma access_token_round_trip_witness :
  VerifySession toy_String toy_Parse codec0 (now0 + Minute) sample_keys (minted0 "").1 = Ok (minted0 "").2 /\
  VerifyResource toy_String toy_Parse codec0 (now0 + 6 * Minute) sample_keys (minted0 "https://api.example.com").1
    "https://api.example.com" = Err ErrExpired.
Proof.
  split.
  - destruct (access_token_round_trip toy_String toy_Parse codec0 0 sample_key (mint0 "") (minted0 "").1 (minted0 "").2
      (now0 + Minute) sample_keys) as (_ & Hv & _); [apply encode0; by left|by apply mintable0|apply sample_paired
      |by vm_compute..|]. rewrite bool_decide_eq_true_2 in Hv by done. rewrite Hv. vm_compute. reflexivity.
  - destruct (access_token_round_trip toy_String toy_Parse codec0 0 sample_key (mint0 "https://api.example.com")
      (minted0 "https://api.example.com").1 (minted0 "https://api.example.com").2
      (now0 + 6 * Minute) sample_keys) as (_ & Hv & _); [apply encode0; by right|by apply mintable0|apply sample_paired
      |by vm_compute..|]. rewrite bool_decide_eq_false_2 in Hv by done.
    change (m_audience (mint0 "https://api.example.com")) with "https://api.example.com" in Hv.
    rewrite Hv. vm_compute. reflexivity.
Defined.

(** [genuine k m sig]: the primitive of the one key [k] holds accepts [sig] as a signature, or a code, of [m]. *)
Inductive genuine `{Crypto} (k : publicKey) (m sig : bytes) : Prop :=
  | genuine_ed p : ed k = Some p -> length sig = 64%nat -> ed25519_Verify p m sig = true -> genuine k m sig
  | genuine_ec p : ed k = None -> ec k = Some p -> length sig = 64%nat ->
      ecdsa_Verify p (sha256_Sum256 m) (be_value (take 32 sig)) (be_value (drop 32 sig)) = true -> genuine k m sig
  | genuine_rsa p : ed k = None -> ec k = None -> rsa k = Some p ->
      rsa_VerifyPKCS1v15 p (sha256_Sum256 m) sig = true -> genuine k m sig
  | genuine_mac p : ed k = None -> ec k = None -> rsa k = None -> mac k = Some p -> hmac_SHA256 p m = sig -> genuine k m sig.

Lemma verifies_genuine `{Crypto} k m sig : verifies k m sig = true -> genuine k m sig.
Proof.
  unfold verifies. destruct (ed k) as [p|] eqn:E1; [intros Hv; bools; destruct_and?; unfold ed25519_SignatureSize in *; eapply genuine_ed; [done|lia|done]|].
  destruct (ec k) as [p|] eqn:E2; [destruct (negb _) eqn:El; [done|]; intros Hv; bools; eapply genuine_ec; [done|done|lia|done]|].
  destruct (rsa k) as [p|] eqn:E3; [by eapply genuine_rsa|].
  destruct (mac k) as [p|] eqn:E4; [|done]. intros Hv. bools. by eapply genuine_mac.
Qed.

(** C31: What verifies is a token of this deployment and of the resolved tenant.  When a text is
    accepted for a tenant it has the three parts of a compact token of the codec's own type; the header names the key id
    of the very key the manager gives for that tenant under it, and the algorithm that key is pinned to (EdDSA also by its
    name for Ed25519); the third part is a signature of the first two that the primitive of that key accepts; the claims name
    the tenant's own issuer, the audience asked for and the format
    of this build; the lifetime is within the recheck interval and not ahead of the clock; its sealed
    attributes unseal to the same bytes, for that tenant and user.  No other tenant's keys play any
    part. *)
Theorem accepted_token_is_ours `{Crypto} uuid_String uuid_Parse c now keys raw aud w tok expired :
  verify uuid_String uuid_Parse c now keys raw aud (Some w) = Ok (tok, expired) ->
  (exists p0 p1 p2 hb h pb sig cs k,
     Split "."%byte (str_bytes raw) = [p0; p1; p2] /\
     Base64.decode p0 = Some hb /\ decode_header hb = Some h /\ h_Typ h = TokenType /\
     Base64.decode p1 = Some pb /\ decode_claims pb = Some cs /\ parseTenant (Tid cs) = Ok w /\
     keys w (Kid h) = Ok (Some k) /\ kid k = Kid h /\ (Alg h = alg k \/ ed k <> None /\ Alg h = algEd25519) /\
     Base64.decode p2 = Some sig /\ genuine k (p0 ++ ["."%byte] ++ p1) sig /\
     checked uuid_String c now cs w aud tok expired) /\
  (forall keys', (forall kid, keys' w kid = keys w kid) ->
     verify uuid_String uuid_Parse c now keys' raw aud (Some w) = Ok (tok, expired)).
Proof.
  intros Hv. pose proof Hv as Hv'. apply verify_Ok in Hv as (cs & tenant & Hs & Hc & Hw & _).
  rewrite (Hw w eq_refl) in Hs, Hc. split.
  - destruct Hs as (p0 & p1 & p2 & hb & h & pb & sig & v & H1 & H2 & H3 & H4 & H5 & H6 & H7 & H8 & Hk & Hver).
    apply Verify_pins in Hver as (k & -> & Hid & Hg & Ha). cbn in *.
    exists p0, p1, p2, hb, h, pb, sig, cs, k. split_and!; try done. by apply verifies_genuine.
  - intros keys' Hk. rewrite <- Hv'. by apply verify_keys.
Qed.

Lemma accepted_token_is_ours_witness :
  verify toy_String toy_Parse codec0 (now0 + Minute) (fun t k => if bool_decide (t = acme) then sample_keys t k else Err ErrUnknownKey)
    (minted0 "").1 "" (Some acme) = Ok ((minted0 "").2, false).
Proof.
  destruct (accepted_token_is_ours toy_String toy_Parse codec0 (now0 + Minute) sample_keys (minted0 "").1 "" acme
    (minted0 "").2 false) as (_ & Hk); [vm_compute; reflexivity|]. apply Hk. intros k.
  by rewrite bool_decide_eq_true_2.
Defined.

(** A session token is never a resource token.  Whatever the keys, the clocks and the recheck
    intervals of two verifiers of one origin, a text one of them accepts as a session is refused by the
    other as a token for a resource, and the other way round: a resource server cannot replay the token
    it is shown as a session, nor a client spend its session at a resource server. *)
Theorem session_and_resource_tokens_never_mix `{Crypto} uuid_String uuid_Parse c c' now now' keys keys' raw aud :
  origin c = origin c' ->
  (exists tok, VerifySession uuid_String uuid_Parse c now keys raw = Ok tok) ->
  exists err, VerifyResource uuid_String uuid_Parse c' now' keys' raw aud = Err err.
Proof.
  intros Ho [tok Hs]. unfold VerifySession, VerifyResource in *.
  destruct (verify _ _ c now keys raw "" None) as [x|] eqn:E1; [|done].
  destruct (bool_decide_reflect (aud = "")) as [|Ha]; [by eexists|].
  destruct (verify _ _ c' now' keys' raw aud None) as [y|] eqn:E2; [|by eexists].
  exfalso. exact (session_or_resource _ _ _ _ _ _ _ _ _ _ _ _ _ _ Ha Ho E1 E2).
Qed.

Lemma session_and_resource_tokens_never_mix_witness :
  exists err, VerifyResource toy_String toy_Parse codec0 (now0 + Minute) sample_keys (minted0 "").1 "https://acme.example.com" = Err err.
Proof.
  eapply (session_and_resource_tokens_never_mix toy_String toy_Parse codec0 codec0 (now0 + Minute) _ sample_keys);
    [reflexivity|]. exists (minted0 "").2. vm_compute. reflexivity.
Defined.
