(* ===== verification/JwtBackend.v ===== *)
(** The JWT session backend: internal/session/jwt (backend.go, transport.go, forgetting.go and
    lifecycle.go).

    A session is a refresh family in the token store plus a short-lived access token.  As in the
    stateful backend a method is a program: at each call the environment says what the context, the
    clock, crypto/rand, the key manager and the account store answer, what other requests did to the
    token store ([others]) and to the two revocation caches ([families_then], [epochs_then]) since the
    method's previous call, and in which order Go visits the cached families ([order]).  New, which
    checks the audiences with net/url, is left out: a Backend is given. *)
From S2P Require Import Prelude Errors Tenant Factor Attrs Pending Codec StoreBase TokenRecord TokenStore.
From S2P Require Import Lru Revocation GoText Cookie Renewal Program Stateful Signing JwtCodec.
Import Session Signing Jwt.

(** ** The store a backend is given *)
Class TokensStore (S : Type) := {
  Create : Ctx -> time -> Tokens.RefreshRecord -> S -> S * res unit;
  Get : Ctx -> time -> TenantID -> bytes -> S -> res Tokens.RefreshRecord;
  ConsumeForRotation : Ctx -> time -> Tokens.RotationRequest -> S -> S * res Tokens.Rotation;
  Reissue : Ctx -> time -> Tokens.ReissueRequest -> S -> S * res unit;
  RevokeFamily : Ctx -> time -> TenantID -> uuid -> S -> S * res unit;
  RevokeForSubject : Ctx -> time -> Subject -> uuid -> S -> S * res unit;
  EraseTenant : Ctx -> time -> TenantID -> S -> S * res unit;
  family_source :: Families.FamilySource S }.

Module JwtBackend.

(** ** Requests (transport.go) *)
Definition HeaderAccessToken : string := "X-Egauth-Access-Token".

Definition HeaderRefreshToken : string := "X-Egauth-Refresh-Token".

Definition MaxCookieBytes : Z := 4096.

Definition handleLen : Z := 32.

Definition fingerprintLen : nat := 16.

(** "egauth/refresh-client/v1" and a zero byte. *)
Definition fingerprintDomain : bytes := str_bytes "egauth/refresh-client/v1" ++ [Byte.x00].

Record presented := mkPresented {
  transport : Transport;
  access : string;
  refresh : string;
  ambiguous : bool }.

Definition empty (p : presented) : bool := bool_decide (access p = "") && bool_decide (refresh p = "").

Definition singleHeader (vs : list string) : string := bytes_str (Stateful.singleHeader vs).

Definition hasBearerScheme (r : Http.Request) : bool := Stateful.hasBearerScheme r.

Definition bearerToken (r : Http.Request) : string := Stateful.bearerToken r.

Definition read (cookies : Cookie.Policy) (r : Http.Request) : presented :=
  let bearer := mkPresented TransportBearer (bearerToken r) (singleHeader (Http.RefreshTokenHeader r)) false in
  let a := (Cookie.Read cookies r Cookie.AccessToken).1 in
  let f := (Cookie.Read cookies r Cookie.RefreshToken).1 in
  if bool_decide (a = "") && bool_decide (f = "") then bearer
  else
    let ambiguous := negb (empty bearer) || hasBearerScheme r
                     || (0 <? Z.of_nat (length (Http.RefreshTokenHeader r))) in
    mkPresented TransportCookies a f ambiguous.

Section backend.
Context {S A : Type} `{TokensStore S, Epochs.EpochSource A, Crypto}.
Context (uuid_String : uuid -> string) (uuid_Parse : string -> option uuid).

(** [r.Header.Get]: the first value, or the empty string. *)
Definition clientFingerprint (r : Http.Request) : bytes :=
  take fingerprintLen (sha256_Sum256 (fingerprintDomain ++ str_bytes (default "" (head (Http.UserAgent r))))).

Definition newRefresh (h : res bytes) (t : TenantID) : res (string * bytes) :=
  h ← h;
  let v := b64 h in
  let v := if TenantID_IsZero t then v else v +:+ "." +:+ tenant_id t in
  Ok (v, sha256_Sum256 h).

Definition parseRefresh (v : string) : res (TenantID * bytes) :=
  let '(raw, ten, hasTenant) := Cut "."%byte (str_bytes v) in
  match Base64.decode raw with
  | None => Err errMalformedRefresh
  | Some h =>
      if negb (Z.of_nat (length h) =? handleLen) then Err errMalformedRefresh
      else if hasTenant
      then match ParseTenantID (bytes_str ten) with
           | Err err => Err (Join errMalformedRefresh err)
           | Ok t => Ok (t, sha256_Sum256 h)
           end
      else Ok (zero_TenantID, sha256_Sum256 h)
  end.

(** ** The environment and the world *)
Record env := mkEnv {
  ctx : nat -> Ctx;
  clock : nat -> time;
  rand : nat -> res bytes;
  fresh : nat -> uuid;
  signer : nat -> TenantID -> res Signer;
  verifier : nat -> TenantID -> string -> res Verifier;
  accounts : nat -> A;
  asked : answers;
  others : nat -> S -> S;
  families_then : nat -> Families.Families -> Families.Families;
  epochs_then : nat -> Epochs.Epochs -> Epochs.Epochs;
  order : nat -> list Families.familyKey }.

Record world := mkWorld {
  toks : S;
  families : Families.Families;
  epochs : Epochs.Epochs;
  out : Http.Response;
  events : list event;
  calls : nat }.

Abbreviation M := (Program.M env world).

Definition tick (w : world) : world :=
  mkWorld (toks w) (families w) (epochs w) (out w) (events w) (Datatypes.S (calls w)).

Definition now : M time := fun e w => (tick w, clock e (calls w)).

Definition draw : M (res bytes) := fun e w => (tick w, rand e (calls w)).

Definition newID : M uuid := fun e w => (tick w, fresh e (calls w)).

Definition key_signer (t : TenantID) : M (res Signer) := fun e w => (tick w, signer e (calls w) t).

Definition on_store {T} (f : Ctx -> time -> S -> S * T) : M T := fun e w =>
  let n := calls w in
  let '(s, a) := f (ctx e n) (clock e n) (others e n (toks w)) in
  (tick (mkWorld s (families w) (epochs w) (out w) (events w) n), a).

(** A change of the family cache; [f] gives [Err] where Go would panic. *)
Definition on_families (f : nat -> Families.Families -> env -> res Families.Families) : M (option error) := fun e w =>
  let n := calls w in
  match f n (families_then e n (families w)) e with
  | Err panic => (tick w, Some panic)
  | Ok c => (tick (mkWorld (toks w) c (epochs w) (out w) (events w) n), None)
  end.

(** b.families.Live reads the cache, the store on a miss, and the clock three times at most. *)
Definition live_family (s : Subject) (fam : Families.Family) : M (option error) := fun e w =>
  let n := calls w in
  let st := others e n (toks w) in
  match Families.Live (ctx e n) (clock e n) (clock e (n + 1)) (clock e (n + 2)) st s fam
          (families_then e n (families w)) with
  | Err panic => (tick w, Some panic)
  | Ok (c, err, _) => (mkWorld st c (epochs w) (out w) (events w) (n + 3), err)
  end.

(** b.epochs.Check reads the clock and the account store once more when the cache is behind. *)
Definition check_epoch (s : Subject) (sealed : Z) : M (option error) := fun e w =>
  let n := calls w in
  match Epochs.Check (ctx e n) (clock e n) (clock e (n + 1)) (clock e (n + 2)) (clock e (n + 3))
          (accounts e n) (accounts e (n + 1)) s sealed (epochs_then e n (epochs w)) with
  | Err panic => (tick w, Some panic)
  | Ok (c, err, _) => (mkWorld (toks w) (families w) c (out w) (events w) (n + 4), err)
  end.

Definition respond (f : Http.Response -> Http.Response * option error) : M (option error) := fun _ w =>
  let '(o, err) := f (out w) in (mkWorld (toks w) (families w) (epochs w) o (events w) (calls w), err).

Definition emit_all {T} (r : list event * T) : M T := fun _ w =>
  (mkWorld (toks w) (families w) (epochs w) (out w) (events w ++ r.1) (calls w), r.2).

Definition emit {T} (t : event_type) (s : Subject) (reason : string) (cause : error) (r : T) : M T :=
  emit_all ([mkEvent t s reason (Some cause)], r).

Definition ask {T} (f : answers -> T) : M T := fun e w => (w, f (asked e)).

(** ** The store behind the cache (forgetting.go) *)
Definition forget_family (t : TenantID) (family : uuid) : M (option error) :=
  on_families (fun _ c _ => Families.Forget t family c).

(** [defer f.families.Forget(...)] around a call. *)
Definition deferred {T} (forget : M (option error)) (m : M (res T)) : M (res T) :=
  r ← m; p ← forget; mret (match p with Some panic => Err panic | None => r end).

Definition f_ConsumeForRotation (req : Tokens.RotationRequest) : M (res Tokens.Rotation) :=
  r ← on_store (fun c t => ConsumeForRotation c t req);
  match r with
  | Err err =>
      if Is err ErrReused
      then
        p ← forget_family (Tokens.RefreshRecord_Tenant (Tokens.rot_Next req)) (Tokens.family (Tokens.rot_Next req));
        mret (match p with Some panic => Err panic | None => Err err end)
      else mret (Err err)
  | Ok x => mret (Ok x)
  end.

Definition f_Reissue (req : Tokens.ReissueRequest) : M (res unit) :=
  deferred (forget_family (Tokens.RefreshRecord_Tenant (Tokens.rei_Next req)) (Tokens.rei_Family req))
    (on_store (fun c t => Reissue c t req)).

Definition f_RevokeFamily (t : TenantID) (family : uuid) : M (res unit) :=
  deferred (forget_family t family) (on_store (fun c clk => RevokeFamily c clk t family)).

Definition f_RevokeForSubject (s : Subject) (keep : uuid) : M (res unit) :=
  deferred (on_families (fun n c e => Families.ForgetSubject (order e n) s keep c))
    (on_store (fun c t => RevokeForSubject c t s keep)).

Definition f_EraseTenant (t : TenantID) : M (res unit) :=
  deferred (on_families (fun n c e => Families.ForgetTenant (order e n) t c))
    (on_store (fun c clk => EraseTenant c clk t)).

(** ** The backend (backend.go) *)
Record Backend := mkBackend {
  codec : Codec;
  cookies : Cookie.Policy;
  audiences : list string;
  life : Lifetimes }.

Definition unavailable (err : error) : error :=
  if Is err HErrUnavailable then err else Join HErrUnavailable err.

Definition claimsOutage (err : error) : error := if Is err ErrClaimsTooLarge then unavailable err else err.

Definition absoluteEnd (b : Backend) (a : SessionAttrs) : time := time_Add (a_createdAt a) (MaxLifetime (life b)).

Definition tokenLifetime (b : Backend) (a : SessionAttrs) (now : time) (limit : duration) : res duration :=
  let left := Stateful.duration_Truncate (time_Sub (absoluteEnd b a) now) Second in
  if left <? Second then Err JErrLifetimeExceeded else Ok (Z.min left limit).

Record issue := mkIssue {
  i_family : uuid;
  i_attrs : SessionAttrs;
  i_claims : bytes;
  i_fp : bytes;
  i_now : time }.

Record issued := mkIssued {
  o_access : string;
  o_refresh : string;
  o_record : Tokens.RefreshRecord;
  o_token : Token }.

Definition fits (b : Backend) (a : SessionAttrs) (access refresh : string) : option error :=
  if negb (a_transport a =? TransportCookies) then None
  else if existsb (fun '(n, v) =>
            MaxCookieBytes <=? Z.of_nat (String.length (Cookie.CookieName (cookies b) n)) + 1 + Z.of_nat (String.length v))
            [(Cookie.AccessToken, access); (Cookie.RefreshToken, refresh)]
  then Some (Join ErrClaimsTooLarge (New "jwt: the session would not fit a browser cookie"))
  else None.

(** The codec's encode draws from crypto/rand when the key's algorithm does. *)
Definition mint_token (b : Backend) (s : Signer) (m : mint) : M (res (string * Token)) := fun e w =>
  (tick w, encode uuid_String (codec b) (calls w) s m).

Definition prepare (b : Backend) (i : issue) : M (res issued) :=
  let sub := a_subject (i_attrs i) in
  try (mret (tokenLifetime b (i_attrs i) (i_now i) (RecheckEvery (life b)))) (fun l =>
  h ← draw;
  try (mret (newRefresh h (Tenant sub))) (fun '(refresh, hash) =>
  try (mret (map_err (fun err => if Is err TErrLifetimeExceeded then Join JErrLifetimeExceeded err else err)
         (Tokens.NewRefreshRecord
            (Tokens.mkRefreshSpec hash (i_family i) (i_attrs i) (i_claims i) (i_fp i) (IdleTimeout (life b))
               (MaxLifetime (life b)) (i_now i)) (Some Seal)))) (fun rec =>
  s ← key_signer (Tenant sub);
  match s with
  | Err err => mret (Err (unavailable err))
  | Ok s =>
      try (mint_token b s (mkMint "" (i_family i) (i_now i) l (i_attrs i) (i_claims i))) (fun '(access, tok) =>
      match fits b (i_attrs i) access refresh with
      | Some err => emit EClaimsTooLarge sub "cookie_size" err (Err err)
      | None => mret (Ok (mkIssued access refresh rec tok))
      end)
  end))).

Definition checkStartable (a : SessionAttrs) : option error :=
  if SessionAttrs_IsZero a || Subject_IsZero (a_subject a) || negb (Transport_Valid (a_transport a))
  then Some (Join ErrInvalidArgument (New "jwt: session attributes"))
  else None.

Definition write (b : Backend) (a : SessionAttrs) (access refresh : string) (rec : Tokens.RefreshRecord)
  : M (option error) :=
  if a_transport a =? TransportCookies
  then
    t ← now;
    let left := time_Sub (Tokens.idleExpiresAt rec) t in
    let maxAge := Stateful.duration_Truncate (i64 (left + Second - 1)) Second in
    respond (fun o =>
      match Cookie.SetSession (cookies b) Cookie.AccessToken access (a_remember a) maxAge o with
      | (o, Some err) => (o, Some err)
      | (o, None) => Cookie.SetSession (cookies b) Cookie.RefreshToken refresh (a_remember a) maxAge o
      end)
  else if a_transport a =? TransportBearer
  then respond (fun o =>
         (Http.Header_Set HeaderRefreshToken refresh
            (Http.Header_Set HeaderAccessToken access
               (Http.Header_Set Stateful.headerCacheControl "no-store" o)), None))
  else mret (Some (Join ErrInvalidArgument (New "jwt: session transport"))).

Definition Start (b : Backend) (a : SessionAttrs) (c : bytes) : M (res unit) :=
  match checkStartable a with
  | Some err => mret (Err err)
  | None =>
      match CompactClaims c with
      | Err err =>
          if Is err ErrClaimsTooLarge then emit EClaimsTooLarge (a_subject a) "start" err (Err err)
          else mret (Err err)
      | Ok claims =>
          fam ← newID;
          t ← now;
          try (prepare b (mkIssue fam a claims [] t)) (fun o =>
          r ← on_store (fun c t => Create c t (o_record o));
          match r with
          | Err err => mret (Err (unavailable err))
          | Ok _ => last_error (write b a (o_access o) (o_refresh o) (o_record o))
          end)
      end
  end.

Definition revokeUnknown {T} (s : Subject) (family : uuid) (cause : error) : M (res T) :=
  r ← f_RevokeFamily (Tenant s) family;
  match r with
  | Err err => mret (Err (unavailable (Join cause err)))
  | Ok _ => emit ETokenFamilyRevoked s "claims_subject_unknown" cause (Err cause)
  end.

(** A failure of prepare, read by the caller. *)
Definition try_outage {T U} (m : M (res T)) (k : T -> M (res U)) : M (res U) :=
  r ← m; match r with Ok x => k x | Err err => mret (Err (claimsOutage err)) end.

Definition Reissue_ (b : Backend) (cur : Handle) (a : SessionAttrs) : M (res unit) :=
  match checkStartable a with
  | Some err => mret (Err err)
  | None =>
      if Handle_IsZero cur || negb (bool_decide (h_subject cur = a_subject a))
         || negb (h_lineage cur =? a_lineage a)
      then mret (Err ErrHandleMismatch)
      else
        fetched ← ask (fun q => FetchClaims q (a_subject a));
        r ← emit_all fetched;
        match r with
        | Err err =>
            if Is err ErrClaimsSubjectUnknown then revokeUnknown (a_subject a) (h_id cur) err
            else mret (Err (unavailable err))
        | Ok claims =>
            fam ← newID;
            t ← now;
            try_outage (prepare b (mkIssue fam a claims [] t)) (fun o =>
            r ← f_Reissue (Tokens.mkReissueRequest (h_id cur) (o_record o));
            match r with
            | Err err => mret (Err (if Is err ErrConflict then err else unavailable err))
            | Ok _ => last_error (write b a (o_access o) (o_refresh o) (o_record o))
            end)
        end
  end.

Definition classifyRevoke (err : error) : error := if Is err VErrUnavailable then unavailable err else err.

Definition resumed (a : SessionAttrs) (c : bytes) (family : uuid) : res Resumed :=
  h ← NewHandle a family; NewResumed a c h.

(** [fam], [a] and [c] are the Token it is given. *)
Definition resumeLive (b : Backend) (fam : uuid) (a : SessionAttrs) (c : bytes) : M (res Resumed) :=
  t ← now;
  if negb (time_Before t (absoluteEnd b a)) then mret (Err JErrLifetimeExceeded)
  else
    err ← live_family (a_subject a) (Families.mkFamily fam (a_lineage a));
    match err with
    | Some err => mret (Err (classifyRevoke err))
    | None =>
        err ← check_epoch (a_subject a) (a_epoch a);
        match err with
        | Some err => mret (Err (classifyRevoke err))
        | None => mret (resumed a c fam)
        end
    end.

Record loaded := mkLoaded { l_rec : Tokens.RefreshRecord; l_attrs : SessionAttrs; l_hash : bytes }.

Definition load (refresh : string) : M (res loaded) :=
  match parseRefresh refresh with
  | Err err => mret (Err err)
  | Ok (t, hash) =>
      r ← on_store (fun c clk s => (s, Get c clk t hash s));
      mret (match r with
      | Err err => Err (if Is err ErrNotFound || Is err ErrRevoked then err else unavailable err)
      | Ok rec =>
          match Unseal (Tokens.sealed rec) with
          | Err err => Err (Join JErrCorrupt err)
          | Ok a =>
              if negb (bool_decide (Tokens.subject rec = a_subject a))
                 || negb (Tokens.lineage rec =? a_lineage a) || negb (Tokens.r_epoch rec =? a_epoch a)
                 || negb (bool_decide (Tokens.RefreshRecord_Tenant rec = t))
              then Err JErrCorrupt
              else Ok (mkLoaded rec a hash)
          end
      end)
  end.

Definition rotationFailed (s : Subject) (err : error) : M (res Resumed) :=
  if Is err ErrReused then emit ERefreshReuseDetected s "refresh_reuse" err (Err err)
  else mret (Err (if Is err ErrRevoked || Is err ErrNotFound || Is err ErrConflict then err
                  else unavailable err)).

(** [prior] is the family and the lineage of the expired access token presented with the refresh
    token. *)
Definition renew (b : Backend) (r : Http.Request) (p : presented) (prior : option Token) (tenant : TenantID)
  : M (res Resumed) :=
  try (load (refresh p)) (fun l =>
  let rec := l_rec l in
  let a := l_attrs l in
  if negb (bool_decide (Tokens.RefreshRecord_Tenant rec = tenant))
     || negb (bool_decide (Tenant (a_subject a) = tenant))
  then mret (Err XErrTenantMismatch)
  else if negb (a_transport a =? transport p) then mret (Err JErrTransportMismatch)
  else if (match prior with
           | Some x => negb (family x =? Tokens.family rec) || negb (a_lineage (attrs x) =? a_lineage a)
           | None => false
           end)
  then mret (Err (Join JErrInvalidToken (New "jwt: access and refresh tokens of different sessions")))
  else
    t ← now;
    if negb (time_Before t (absoluteEnd b a)) then mret (Err JErrLifetimeExceeded)
    else
      at_ ← now;
      q ← ask (fun q => Renew_ (life b) q at_ a (Tokens.appClaims rec));
      x ← emit_all q;
      match x with
      | Err err =>
          if Is err ErrClaimsSubjectUnknown then revokeUnknown (a_subject a) (Tokens.family rec) err
          else mret (Err (if Is err ErrClaimsUnavailable || Is err ErrClaimsTooLarge
                          then unavailable err else err))
      | Ok (renewed, claims) =>
          try_outage (prepare b (mkIssue (Tokens.family rec) renewed claims (clientFingerprint r) t)) (fun o =>
          x ← f_ConsumeForRotation (Tokens.mkRotationRequest (l_hash l) (o_record o));
          match x with
          | Err err =>
              if Is err ErrConcurrent
              then match prior with
                   | Some _ => resumeLive b (Tokens.family rec) renewed claims
                   | None => mret (Err (unavailable err))
                   end
              else rotationFailed (a_subject a) err
          | Ok _ =>
              Program.check (write b renewed (o_access o) (o_refresh o) (o_record o))
                (mret (resumed renewed (Jwt.claims (o_token o)) (Tokens.family rec)))
          end)
      end).

(** b.codec.verify of a session token for the resolved tenant. *)
Definition verify_access (b : Backend) (raw : string) (tenant : TenantID) : M (res (Token * bool)) := fun e w =>
  let n := calls w in
  (tick w, verify uuid_String uuid_Parse (codec b) (clock e n) (verifier e n) raw "" (Some tenant)).

Definition Resume (b : Backend) (r : Http.Request) (tenant : TenantID) : M (res Resumed) :=
  let p := read (cookies b) r in
  let from_refresh prior :=
    if bool_decide (refresh p = "") then mret (Err ErrExpired) else renew b r p prior tenant in
  if ambiguous p then mret (Err JErrAmbiguousTransport)
  else if empty p then mret (Err JErrNoCredential)
  else if bool_decide (access p = "") then from_refresh None
  else
    v ← verify_access b (access p) tenant;
    match v with
    | Err err =>
        if Is err HErrUnavailable then mret (Err err)
        else if Is err XErrTenantMismatch then mret (Err XErrTenantMismatch)
        else if bool_decide (refresh p = "") then mret (Err err)
        else from_refresh None
    | Ok (tok, expired) =>
        if negb (bool_decide (Tenant (a_subject (attrs tok)) = tenant)) then mret (Err XErrTenantMismatch)
        else if negb (a_transport (attrs tok) =? transport p) then mret (Err JErrTransportMismatch)
        else if negb expired then resumeLive b (family tok) (attrs tok) (Jwt.claims tok)
        else from_refresh (Some tok)
    end.

Definition clear (b : Backend) (r : Http.Request) (p : presented) : M (option error) :=
  if (transport p =? TransportCookies) || Cookie.Present r
  then respond (fun w =>
         (Cookie.Clear (cookies b) Cookie.RefreshToken (Cookie.Clear (cookies b) Cookie.AccessToken w), None))
  else mret None.

(** A call whose failure is an outage. *)
Definition store_error (m : M (res unit)) : M (res unit) :=
  r ← m; mret (match r with Err err => Err (unavailable err) | Ok _ => Ok tt end).

Definition revoke (t : TenantID) (family : uuid) : M (res unit) := store_error (f_RevokeFamily t family).

(** The end of End: the family of the access token. *)
Definition end_access (b : Backend) (p : presented) (tenant : TenantID) : M (res unit) :=
  if bool_decide (access p = "") then mret (Ok tt)
  else
    v ← verify_access b (access p) tenant;
    match v with
    | Err err => mret (if Is err HErrUnavailable then Err err else Ok tt)
    | Ok (tok, _) => revoke (Tenant (a_subject (attrs tok))) (family tok)
    end.

Definition End_ (b : Backend) (r : Http.Request) (tenant : TenantID) : M (res unit) :=
  let p := read (cookies b) r in
  _ ← clear b r p;
  if bool_decide (refresh p = "") then end_access b p tenant
  else
    l ← load (refresh p);
    match l with
    | Ok l =>
        if bool_decide (Tokens.RefreshRecord_Tenant (l_rec l) = tenant)
        then revoke (Tokens.RefreshRecord_Tenant (l_rec l)) (Tokens.family (l_rec l))
        else end_access b p tenant
    | Err err => if Is err HErrUnavailable then mret (Err err) else end_access b p tenant
    end.

Definition Live (h : Handle) : M (res unit) :=
  if Handle_IsZero h then mret (Err ErrEnded)
  else
    err ← live_family (h_subject h) (Families.mkFamily (h_id h) (h_lineage h));
    mret (match err with
          | None => Ok tt
          | Some err => Err (if Is err VErrUnavailable then unavailable err else Join ErrEnded err)
          end).

Definition MintResource (b : Backend) (x : Resumed) (audience : string) (lifetime : duration)
  : M (res (string * time)) :=
  let a := r_attrs x in
  if SessionAttrs_IsZero a || Handle_IsZero (r_handle x)
  then mret (Err (Join ErrInvalidArgument (New "jwt: resumed session")))
  else if (lifetime <? Second) || (RecheckEvery (life b) <? lifetime)
  then mret (Err (Join ErrInvalidArgument (New "jwt: resource token lifetime")))
  else
    try (mret (Issuer (codec b) (Tenant (a_subject a)))) (fun iss =>
    if bool_decide (audience = iss) || negb (bool_decide (audience ∈ audiences b)) then mret (Err ErrAudience)
    else
      let fam := h_id (r_handle x) in
      try (resumeLive b fam a (r_claims x)) (fun _ =>
      t ← now;
      try (mret (tokenLifetime b a t lifetime)) (fun l =>
      s ← key_signer (Tenant (a_subject a));
      match s with
      | Err err => mret (Err (unavailable err))
      | Ok s =>
          try (mint_token b s (mkMint audience fam t l a (r_claims x))) (fun '(raw, tok) =>
          mret (Ok (raw, expiresAt tok)))
      end))).

(** ** Account events (lifecycle.go) *)
Definition revokeSubject (s : Subject) (keep : uuid) : M (res unit) := store_error (f_RevokeForSubject s keep).

Definition OnCredentialRotated (s : Subject) (keep : uuid) : M (res unit) := revokeSubject s keep.

Definition OnFactorsChanged (s : Subject) (keep : uuid) : M (res unit) := revokeSubject s keep.

Definition OnIdentifierChanged (s : Subject) : M (res unit) := revokeSubject s uuid_Nil.

Definition OnDisabled (s : Subject) : M (res unit) := revokeSubject s uuid_Nil.

Definition OnEnabled (s : Subject) : M (res unit) := mret (Ok tt).

Definition OnDeleted (s : Subject) : M (res unit) := revokeSubject s uuid_Nil.

Definition OnTenantErased (tenant : TenantID) : M (res unit) := store_error (f_EraseTenant tenant).

Definition OnSessionEnded (s : Subject) (family : uuid) : M (res unit) := revoke (Tenant s) family.
End backend.
Arguments world S : clear implicits.
Arguments env S A {_}.
End JwtBackend.
