(* ===== verification/JwtBackendFacts.v ===== *)
(** What each method of the JWT backend does to the response, and when it lets a request through. *)
From S2P Require Import Prelude Errors Tenant Factor Attrs Pending Codec VerifiedFacts SessionFacts.
From S2P Require Import CodecFacts StoreBase TokenRecord TokenStore LruFacts Lru.
From S2P Require Import Revocation RevokeProperties GoText Cookie Renewal StatefulFacts Program Stateful.
From S2P Require Import Signing JwtCodec JwtCodecFacts JwtBackend.
Import Session Signing Jwt JwtBackend.

(** ** Characters of a cookie *)
Abbreviation cookie_text b := (Forall (fun c => Cookie.value_char c = true) b).

Lemma encode_cookie b : cookie_text (Base64.encode b).
Proof.
  eapply Forall_impl; [apply Base64.encode_chars|]. intros c Hc.
  destruct c; try discriminate Hc; vm_compute; reflexivity.
Qed.

Lemma tenant_cookie t : tenant_wf t -> cookie_text (str_bytes (tenant_id t)).
Proof.
  intros [->|Ht]; [constructor|]. unfold ParseTenantID in Ht. destruct (_ || _); [done|].
  destruct (forallb _ _) eqn:Hc; [|done]. apply Forall_forall. intros c Hin%list_elem_of_In.
  rewrite forallb_forall in Hc. apply Hc in Hin. destruct c; try discriminate Hin; vm_compute; reflexivity.
Qed.

(** ** Records *)
Lemma NewRefreshRecord_Ok sp r : Tokens.NewRefreshRecord sp (Some Seal) = Ok r ->
  let a := Tokens.sp_Attrs sp in let fin := a_createdAt a + Tokens.sp_MaxLifetime sp in
  SessionAttrs_IsZero a = false /\ Subject_IsZero (a_subject a) = false /\ a_lineage a <> uuid_Nil /\
  Tokens.sp_Family sp <> uuid_Nil /\ length (Tokens.sp_TokenHash sp) = 32%nat /\
  exists sealed, Seal a = Ok sealed /\
    r = Tokens.mkRefreshRecord (Tokens.sp_TokenHash sp) (Tokens.sp_Family sp) (a_subject a) (a_lineage a) sealed
          (Tokens.sp_AppClaims sp) (a_epoch a) (Tokens.sp_ClientFingerprint sp)
          (Z.min (Tokens.sp_Now sp + Tokens.sp_IdleTTL sp) fin) fin (Tokens.sp_Now sp).
Proof.
  unfold Tokens.NewRefreshRecord. cbv zeta. repeat (match goal with |- context [if ?b then Err _ else _] => destruct b eqn:? end; [done|]).
  destruct (Seal _) as [sealed|] eqn:Es; [|done]. unfold Tokens.RestoreRefreshRecord.
  destruct (Tokens.checkRefreshRow _) eqn:Ec; [done|]. intros Hr. revert Ec. unfold Tokens.checkRefreshRow.
  repeat (match goal with |- context [if ?b then Some _ else _] => destruct b eqn:? end; [done|]). intros _.
  cbn in *. bools. split_and!; try done; [unfold Tokens.HashLen in *; lia|].
  exists sealed. split; [done|]. assert (forall x y : Tokens.RefreshRecord, Ok x = Ok y -> y = x) as Hinj by congruence.
  apply Hinj in Hr. rewrite Hr. f_equal. unfold time_After, time_Before, time_Add.
  match goal with |- (if ?x <? ?y then _ else _) = _ => destruct (Z.ltb_spec x y) end; lia.
Qed.

(** [pass E]: the next guard of a method did not refuse. *)
Ltac pass E := match goal with |- context [if ?b then mret _ else _] => destruct b eqn:E end; [done|].

Section facts.
Context {S A : Type} `{TokensStore S, Epochs.EpochSource A, Crypto}.
Context (uuid_String : uuid -> string) (uuid_Parse : string -> option uuid).
Abbreviation env := (env S A).
Abbreviation world := (world S).
Abbreviation M := (Program.M env world).
Implicit Types (e : env) (w : world) (b : Backend).

(** ** Running the first call of a method *)
Lemma run_now {T} (k : time -> M T) e w : (now ≫= k) e w = k (clock e (calls w)) e (tick w).
Proof. done. Qed.

Lemma run_newID {T} (k : uuid -> M T) e w : (newID ≫= k) e w = k (fresh e (calls w)) e (tick w).
Proof. done. Qed.

Lemma run_ask {T U} (f : answers -> U) (k : U -> M T) e w : (ask f ≫= k) e w = k (f (asked e)) e w.
Proof. done. Qed.

Lemma run_emit_all {T U} (r : list event * U) (k : U -> M T) e w :
  (emit_all r ≫= k) e w = k r.2 e (mkWorld (toks w) (families w) (epochs w) (out w) (events w ++ r.1) (calls w)).
Proof. done. Qed.

(** ** Methods that write nothing *)
Definition silent {T} (m : M T) : Prop := forall e w, out (m e w).1 = out w.

Lemma silent_ret {T} (a : T) : silent (mret a).
Proof. done. Qed.

Lemma silent_bind {T U} (m : M T) (k : T -> M U) : silent m -> (forall a, silent (k a)) -> silent (m ≫= k).
Proof.
  intros Hm Hk e w. unfold mbind, M_bind. specialize (Hm e w). destruct (m e w) as [w1 a]. cbn in Hm |- *.
  by rewrite Hk.
Qed.

Lemma silent_try {T U} (m : M (res T)) (k : T -> M (res U)) : silent m -> (forall a, silent (k a)) -> silent (try m k).
Proof. intros Hm Hk. apply silent_bind; [done|]. intros [a|err]; [done|apply silent_ret]. Qed.

Lemma silent_check {U} (m : M (option error)) (k : M (res U)) : silent m -> silent k -> silent (Program.check m k).
Proof. intros Hm Hk. apply silent_bind; [done|]. intros [err|]; [apply silent_ret|done]. Qed.

Lemma silent_now : silent now.
Proof. done. Qed.

Lemma silent_draw : silent draw.
Proof. done. Qed.

Lemma silent_newID : silent newID.
Proof. done. Qed.

Lemma silent_key_signer t : silent (key_signer t).
Proof. done. Qed.

Lemma silent_ask {T} (f : answers -> T) : silent (ask f).
Proof. done. Qed.

Lemma silent_emit_all {T} (r : list event * T) : silent (emit_all r).
Proof. done. Qed.

Lemma silent_on_store {T} f : silent (on_store f : M T).
Proof. intros e w. unfold on_store. cbv zeta. by destruct (f _ _ _). Qed.

Lemma silent_on_families f : silent (on_families f).
Proof. intros e w. unfold on_families. cbv zeta. by destruct (f _ _ _). Qed.

Lemma silent_live_family s fam : silent (live_family s fam).
Proof. intros e w. unfold live_family. cbv zeta. by destruct (Families.Live _ _ _ _ _ _ _ _) as [[[c err] evs]|]. Qed.

Lemma silent_check_epoch s n : silent (check_epoch s n).
Proof. intros e w. unfold check_epoch. cbv zeta. by destruct (Epochs.Check _ _ _ _ _ _ _ _ _ _) as [[[c err] evs]|]. Qed.

Lemma silent_mint_token b s m : silent (mint_token uuid_String b s m).
Proof. done. Qed.

Lemma silent_verify_access b raw t : silent (verify_access uuid_String uuid_Parse b raw t).
Proof. done. Qed.

#[local] Hint Resolve silent_ret silent_now silent_draw silent_newID silent_key_signer silent_ask silent_emit_all
  silent_on_store silent_on_families silent_live_family silent_check_epoch silent_mint_token silent_verify_access : core.

(** [silent_tac]: follow the sequencing of a method and its branches. *)
Ltac silent_tac :=
  repeat first [solve [auto]
    | apply silent_try; [|intros ?] | apply silent_check | apply silent_bind; [|intros ?]
    | match goal with
      | |- silent (let '(_, _) := ?x in _) => destruct x
      | |- silent (if ?x then _ else _) => destruct x
      | |- silent (match ?x with _ => _ end) => destruct x
      end ].

Lemma silent_prepare b i : silent (prepare uuid_String b i).
Proof. unfold prepare, emit. cbv zeta. silent_tac. Qed.

Lemma silent_deferred {T} f (m : M (res T)) : silent f -> silent m -> silent (deferred f m).
Proof. intros Hf Hm. unfold deferred. silent_tac. Qed.

Lemma silent_RevokeFamily t fam : silent (f_RevokeFamily t fam).
Proof. apply silent_deferred; [apply silent_on_families|apply silent_on_store]. Qed.

Lemma silent_Reissue req : silent (f_Reissue req).
Proof. apply silent_deferred; [apply silent_on_families|apply silent_on_store]. Qed.

Lemma silent_ConsumeForRotation req : silent (f_ConsumeForRotation req).
Proof. unfold f_ConsumeForRotation, forget_family. silent_tac. Qed.

#[local] Hint Resolve silent_prepare silent_RevokeFamily silent_Reissue silent_ConsumeForRotation : core.

Lemma silent_revokeUnknown {T} s fam cause : silent (revokeUnknown s fam cause : M (res T)).
Proof. unfold revokeUnknown, emit. silent_tac. Qed.

Lemma silent_resumeLive b fam a c : silent (resumeLive b fam a c).
Proof. unfold resumeLive. silent_tac. Qed.

Lemma silent_load v : silent (load v).
Proof. unfold load. silent_tac. Qed.

Lemma silent_rotationFailed s err : silent (rotationFailed s err).
Proof. unfold rotationFailed, emit. silent_tac. Qed.

#[local] Hint Resolve @silent_revokeUnknown silent_resumeLive silent_load silent_rotationFailed : core.

(** ** Refused methods write nothing *)
Definition clean {T} (m : M (res T)) e w : Prop := forall w' err, m e w = (w', Err err) -> out w' = out w.

Lemma clean_silent {T} (m : M (res T)) e w : silent m -> clean m e w.
Proof. intros Hm w' err E. specialize (Hm e w). by rewrite E in Hm. Qed.

Lemma clean_bind {T U} (m : M T) (k : T -> M (res U)) e w :
  silent m -> clean (k (m e w).2) e (m e w).1 -> clean (m ≫= k) e w.
Proof.
  intros Hm Hk w' err. unfold mbind, M_bind. specialize (Hm e w). destruct (m e w) as [w1 a]. cbn in *.
  intros E. by rewrite (Hk _ _ E).
Qed.

Lemma clean_try {T U} (m : M (res T)) (k : T -> M (res U)) e w :
  silent m -> (forall a, (m e w).2 = Ok a -> clean (k a) e (m e w).1) -> clean (try m k) e w.
Proof.
  intros Hm Hk. apply clean_bind; [done|]. destruct (m e w).2 as [a|err]; [by apply Hk|].
  apply clean_silent, silent_ret.
Qed.

(** What prepare gives, when it succeeds. *)
Lemma prepare_Ok b i e w w' o : prepare uuid_String b i e w = (w', Ok o) ->
  let n := calls w in let t := Tenant (a_subject (i_attrs i)) in
  exists l h hash s, tokenLifetime b (i_attrs i) (i_now i) (RecheckEvery (life b)) = Ok l /\
    rand e n = Ok h /\ newRefresh (Ok h) t = Ok (o_refresh o, hash) /\
    Tokens.NewRefreshRecord (Tokens.mkRefreshSpec hash (i_family i) (i_attrs i) (i_claims i) (i_fp i)
      (IdleTimeout (life b)) (MaxLifetime (life b)) (i_now i)) (Some Seal) = Ok (o_record o) /\
    signer e (1 + n) t = Ok s /\
    encode uuid_String (codec b) (2 + n) s (mkMint "" (i_family i) (i_now i) l (i_attrs i) (i_claims i))
      = Ok (o_access o, o_token o) /\
    fits b (i_attrs i) (o_access o) (o_refresh o) = None /\
    w' = mkWorld (toks w) (families w) (epochs w) (out w) (events w) (3 + n).
Proof.
  unfold prepare. cbv zeta. prog. destruct (tokenLifetime _ _ _ _) as [l|] eqn:El; [|done].
  unfold draw. destruct (rand e (calls w)) as [h|] eqn:Er; [|done]. destruct (newRefresh (Ok h) _) as [[refresh hash]|] eqn:En; [|done].
  destruct (Tokens.NewRefreshRecord _ _) as [rec|] eqn:Ec; [|done]. cbn [map_err]. unfold key_signer.
  destruct (signer e _ _) as [s|] eqn:Es; [|done]. unfold mint_token.
  destruct (encode _ _ _ _ _) as [[access tok]|] eqn:Ee; [|done].
  destruct (fits _ _ _ _) eqn:Ef; [done|]. intros E. apply pair_equal_spec in E as [<- E].
  assert (mkIssued access refresh rec tok = o) as <- by congruence. exists l, h, hash, s. by split_and!.
Qed.

(** The two cookies of a session are both accepted or both refused. *)
Lemma fits_cookie b a access refresh n v : (n, v) ∈ [(Cookie.AccessToken, access); (Cookie.RefreshToken, refresh)] ->
  fits b a access refresh = None -> a_transport a = TransportCookies -> v <> "" -> cookie_text (str_bytes v) ->
  Cookie.validValue v = true.
Proof.
  unfold fits. intros Hin Hf Et Hv Hc. rewrite Et, Z.eqb_refl in Hf. cbn [negb] in Hf.
  destruct (existsb _ _) eqn:Ex; [done|]. unfold Cookie.validValue. rewrite bool_decide_eq_false_2 by done.
  assert (Z.of_nat (String.length v) <= Cookie.maxValueLen) as Hl.
  { unfold Cookie.maxValueLen. cbn [existsb] in Ex. unfold MaxCookieBytes in Ex. bools.
    apply elem_of_cons in Hin as [[= -> ->]|[[= -> ->]|[]%elem_of_nil]%elem_of_cons]; lia. }
  rewrite (proj2 (Z.ltb_ge _ _) Hl). cbn [orb]. apply forallb_forall. intros c Hi%list_elem_of_In.
  rewrite Forall_forall in Hc. by apply Hc.
Qed.

Lemma newRefresh_text h t v hash : length h = 32%nat -> tenant_wf t -> newRefresh (Ok h) t = Ok (v, hash) ->
  v <> "" /\ cookie_text (str_bytes v).
Proof.
  intros Hl Ht. cbn. intros [= <- _]. assert (str_bytes (b64 h) = Base64.encode h) as Eb by (unfold b64; apply str_bytes_str).
  assert (Base64.encode h <> []) as Hn by (by destruct h as [|? [|? [|? ?]]]).
  destruct (TenantID_IsZero t).
  - split; [intros E; by rewrite E in Eb|]. rewrite Eb. apply encode_cookie.
  - split; [intros E; apply (f_equal str_bytes) in E; rewrite str_bytes_app, Eb in E; by destruct (Base64.encode h)|].
    rewrite !str_bytes_app, Eb. apply Forall_app. split; [apply encode_cookie|].
    apply Forall_app. split; [by repeat constructor|by apply tenant_cookie].
Qed.

(** Random handles have the length asked for. *)
Definition full_reads e : Prop := forall n h, rand e n = Ok h -> length h = 32%nat.

Lemma write_clean b i o e w0 w1 w :
  tenant_wf (Tenant (a_subject (i_attrs i))) -> full_reads e ->
  prepare uuid_String b i e w0 = (w1, Ok o) ->
  (write b (i_attrs i) (o_access o) (o_refresh o) (o_record o) e w).2 <> None ->
  out (write b (i_attrs i) (o_access o) (o_refresh o) (o_record o) e w).1 = out w.
Proof.
  intros Ht Hr Hp. apply prepare_Ok in Hp as (l & h & hash & s & _ & Hh & Hn & _ & _ & _ & Hf & _).
  destruct (newRefresh_text h _ _ _ (Hr _ _ Hh) Ht Hn) as [Hv Hc]. unfold write.
  destruct (Z.eqb_spec (a_transport (i_attrs i)) TransportCookies) as [Ec|_].
  2:{ destruct (_ =? TransportBearer); [|done]. unfold respond. cbn. done. }
  unfold now, respond. prog. cbn [snd fst tick out]. unfold Cookie.SetSession, Cookie.check.
  rewrite (fits_cookie b _ (o_access o) _ Cookie.RefreshToken (o_refresh o) ltac:(right; left) Hf Ec Hv Hc).
  destruct (Cookie.valid (cookies b)); [|done]. cbn [negb]. destruct (negb (Cookie.validValue (o_access o))); [done|].
  destruct (a_remember (i_attrs i)); cbn; [by destruct (_ <? 1)|done].
Qed.

Lemma write_check_clean {T} b i o e w0 w1 w (k : res T) err :
  tenant_wf (Tenant (a_subject (i_attrs i))) -> full_reads e ->
  prepare uuid_String b i e w0 = (w1, Ok o) -> k <> Err err ->
  forall w', Program.check (write b (i_attrs i) (o_access o) (o_refresh o) (o_record o)) (mret k) e w = (w', Err err) ->
  out w' = out w.
Proof.
  intros Ht Hr Hp Hk w'. prog.
  pose proof (write_clean b i o e w0 w1 w Ht Hr Hp) as Hw. destruct (write _ _ _ _ _ e w) as [w2 [err'|]].
  - intros [= <- _]. by apply Hw.
  - intros [= _ ?]. done.
Qed.

Lemma Start_clean b a c e w :
  tenant_wf (Tenant (a_subject a)) -> full_reads e -> clean (Start uuid_String b a c) e w.
Proof.
  intros Ht Hr. unfold Start. destruct (checkStartable a); [apply clean_silent; silent_tac|].
  destruct (CompactClaims c) as [claims|err].
  2:{ apply clean_silent. unfold emit. silent_tac. }
  do 2 (apply clean_bind; [auto|]). apply clean_try; [auto|]. intros o Ho.
  destruct (prepare _ _ _ _ _) as [w1 r] eqn:Ep. cbn [snd] in Ho. subst r.
  apply clean_bind; [auto|]. destruct (on_store _ _ _).2 as [u|err]; [|apply clean_silent; silent_tac].
  intros w' err E. by eapply (write_check_clean b (mkIssue _ a _ _ _)) in E.
Qed.

Lemma Reissue_clean b cur a e w :
  tenant_wf (Tenant (a_subject a)) -> full_reads e -> clean (Reissue_ uuid_String b cur a) e w.
Proof.
  intros Ht Hr. unfold Reissue_. destruct (checkStartable a); [apply clean_silent; silent_tac|].
  destruct (_ || _ || _); [apply clean_silent; silent_tac|].
  do 2 (apply clean_bind; [auto|]). destruct (emit_all _ _ _).2 as [claims|err].
  2:{ apply clean_silent. silent_tac. }
  do 2 (apply clean_bind; [auto|]). unfold try_outage. apply clean_bind; [auto|].
  destruct (prepare _ _ _ _ _) as [w1 [o|err]] eqn:Ep; cbn [fst snd]; [|apply clean_silent; silent_tac].
  apply clean_bind; [auto|]. destruct (f_Reissue _ _ _).2 as [u|err]; [|apply clean_silent; silent_tac].
  intros w' err E. by eapply (write_check_clean b (mkIssue _ a _ _ _)) in E.
Qed.

(** What load gives: a record the store answered with, that unseals to attributes it agrees with. *)
Record loads e n (st : S) (v : string) (t : TenantID) (l : loaded) : Prop := {
  ld_parse : parseRefresh v = Ok (t, l_hash l);
  ld_get : Get (ctx e n) (clock e n) t (l_hash l) (others e n st) = Ok (l_rec l);
  ld_attrs : attrs_wf (l_attrs l) /\ Unseal (Tokens.sealed (l_rec l)) = Ok (l_attrs l);
  ld_subject : Tokens.subject (l_rec l) = a_subject (l_attrs l);
  ld_lineage : Tokens.lineage (l_rec l) = a_lineage (l_attrs l);
  ld_epoch : Tokens.r_epoch (l_rec l) = a_epoch (l_attrs l);
  ld_tenant : Tokens.RefreshRecord_Tenant (l_rec l) = t }.

(** The world after one call on the store that changed nothing. *)
Definition stepped e w : world :=
  mkWorld (others e (calls w) (toks w)) (families w) (epochs w) (out w) (events w) (Datatypes.S (calls w)).

Lemma jwt_load_Ok v e w w' l : load v e w = (w', Ok l) ->
  exists t, loads e (calls w) (toks w) v t l /\ w' = stepped e w.
Proof.
  unfold load. destruct (parseRefresh v) as [[t hash]|] eqn:Ep; [|done]. unfold on_store. prog.
  destruct (Get _ _ _ _ _) as [rec|] eqn:Eg; [|done].
  pose proof (Unseal_spec (Tokens.sealed rec)) as Hu. destruct (Unseal _) as [a|] eqn:Eu; [|done].
  destruct (_ || _) eqn:Eo; [done|]. intros [= <- <-]. bools. exists t. split; [|done].
  split; cbn; try done. split; [apply Hu|done].
Qed.

Lemma Renew_subject l q t a cur evs a' c : Renew_ l q t a cur = (evs, Ok (a', c)) -> a_subject a' = a_subject a.
Proof. intros (st & mfa & _ & _ & _ & _ & _ & [x ->])%Renew_success. done. Qed.

(** ** Live sessions *)

(** Other requests leave the family cache a well-formed list. *)
Definition tidy (f : Families.Families) : Prop := exists xs, sound f xs.

Definition tidy_env e : Prop := forall n f, tidy f -> tidy (families_then e n f).

(** The family was live when the request looked: in the cached state, while the cache may be trusted,
    or in the store's. *)
Definition family_live e w (s : Subject) (fam lin : uuid) : Prop :=
  let n := calls w in
  exists xs fs, sound (families_then e n (families w)) xs /\
    (cached (families_then e n (families w)) xs (clock e n) (Tenant s, fam) = Some fs \/
     Families.FamilyState_at (ctx e n) (Tenant s) fam (others e n (toks w)) = Ok fs) /\
    Tokens.fs_Subject fs = s /\ Tokens.fs_Lineage fs = lin /\ Tokens.Revoked fs = false /\
    clock e (n + 2) < Tokens.fs_ExpiresAt fs.

Lemma Live_None c n1 n2 n3 (st : S) s fam f xs f' evs : sound f xs ->
  Families.Live c n1 n2 n3 st s fam f = Ok (f', None, evs) ->
  exists fs, (cached f xs n1 (Tenant s, Families.ID fam) = Some fs \/
      Families.FamilyState_at c (Tenant s) (Families.ID fam) st = Ok fs) /\
    Tokens.fs_Subject fs = s /\ Tokens.fs_Lineage fs = Families.Lineage fam /\ Tokens.Revoked fs = false /\
    n3 < Tokens.fs_ExpiresAt fs.
Proof.
  intros Hs. unfold Families.Live.
  destruct (get_answer c n1 n2 (Families.family_lookup c st) (Tenant s, Families.ID fam) f xs Hs)
    as (f2 & xs2 & evs2 & -> & _ & _). cbn [mbind res_bind].
  unfold Families.family_lookup at 1. cbn [fst snd]. destruct (cached f xs n1 _) as [fs|] eqn:Ec.
  - intros [= _ Hv _]. exists fs. split; [by left|]. by apply (proj1 (live_verdict_spec n3 s fam fs)).
  - destruct (Families.FamilyState_at c _ _ st) as [fs|err]; [|done]. intros [= _ Hv _]. exists fs.
    split; [by right|]. by apply (proj1 (live_verdict_spec n3 s fam fs)).
Qed.

Lemma live_family_Ok s fam lin e w w' : tidy (families w) -> tidy_env e ->
  live_family s (Families.mkFamily fam lin) e w = (w', None) ->
  family_live e w s fam lin /\ toks w' = others e (calls w) (toks w) /\ epochs w' = epochs w /\
  out w' = out w /\ calls w' = (3 + calls w)%nat.
Proof.
  intros Ht He. unfold live_family. cbv zeta. destruct (He (calls w) _ Ht) as [xs Hs].
  destruct (Families.Live _ _ _ _ _ _ _ _) as [[[f' err] evs]|] eqn:El; [|done]. intros [= <- ->].
  apply (Live_None _ _ _ _ _ _ _ _ xs) in El as (fs & Hk & Hrest); [|done].
  cbn. split_and!; try done; [by exists xs, fs|lia].
Qed.

(** The epoch check a method makes in world [w]. *)
Definition epoch_passes e w (a : SessionAttrs) : Prop :=
  let n := calls w in
  exists c evs, Epochs.Check (ctx e n) (clock e n) (clock e (n + 1)) (clock e (n + 2)) (clock e (n + 3))
    (accounts e n) (accounts e (n + 1)) (a_subject a) (a_epoch a) (epochs_then e n (epochs w)) = Ok (c, None, evs).

Definition session_of (a : SessionAttrs) (c : bytes) (fam : uuid) : Resumed :=
  mkResumed a c (mkHandle (a_subject a) (a_lineage a) fam []).

Lemma resumed_spec a c fam x : resumed a c fam = Ok x -> x = session_of a c fam /\ fam <> uuid_Nil.
Proof.
  unfold resumed, NewHandle. match goal with |- context [if ?b then Err _ else _] => destruct b eqn:E1 end; [done|].
  cbn [mbind res_bind]. unfold NewResumed. match goal with |- context [if ?b then Err _ else _] => destruct b end; [done|].
  intros Hx. assert (x = session_of a c fam) as -> by (unfold session_of; congruence). split; [done|]. by bools.
Qed.

(** A session let through on its family: before the end of its life, its family live, its epoch
    current. *)
Definition lives e w b (fam : uuid) (a : SessionAttrs) (c : bytes) (x : Resumed) : Prop :=
  x = session_of a c fam /\ clock e (calls w) < absoluteEnd b a /\
  family_live e (tick w) (a_subject a) fam (a_lineage a) /\
  exists w2, calls w2 = (4 + calls w)%nat /\ epochs w2 = epochs w /\ epoch_passes e w2 a.

Lemma resumeLive_Ok b fam a c e w w' x : tidy (families w) -> tidy_env e ->
  resumeLive b fam a c e w = (w', Ok x) -> lives e w b fam a c x.
Proof.
  intros Ht He. unfold resumeLive, now. prog. destruct (negb _) eqn:Eb; [done|].
  destruct (live_family _ _ e (tick w)) as [w1 [err|]] eqn:El; [done|].
  apply live_family_Ok in El as (Hl & Hs1 & Hp1 & _ & Hn1); [|done|done].
  destruct (check_epoch _ _ e w1) as [w2 [err|]] eqn:Ec; [done|]. intros [_ Hx]%pair_equal_spec.
  apply resumed_spec in Hx as [-> _]. split; [done|]. unfold time_Before in Eb. bools. split; [done|]. split; [done|].
  exists w1. split; [rewrite Hn1; cbn; lia|]. split; [done|].
  unfold check_epoch in Ec. cbv zeta in Ec. destruct (Epochs.Check _ _ _ _ _ _ _ _ _ _) as [[[k err] evs]|] eqn:E; [|done].
  injection Ec as _ ->. by exists k, evs.
Qed.

Lemma jwt_resumed_Ok a c fam : SessionAttrs_IsZero a = false -> Subject_IsZero (a_subject a) = false ->
  a_lineage a <> uuid_Nil -> fam <> uuid_Nil -> resumed a c fam = Ok (session_of a c fam).
Proof.
  intros Ha Hs Hl Hf. unfold resumed, NewHandle. rewrite Ha, Hs, !(proj2 (Z.eqb_neq _ _)) by done.
  cbn [orb mbind res_bind]. unfold NewResumed, Handle_IsZero. cbn [h_id h_subject h_lineage].
  rewrite Ha, (proj2 (Z.eqb_neq _ _)), bool_decide_eq_true_2, Z.eqb_refl by done. done.
Qed.

(** The end of a renewal: a token is rotated and the new pair written, or another request rotated it
    first and this one, which presented the expired access token of the same session, goes on with no
    new credential. *)
Definition renewal_end e w0 b (l : loaded) (prior : option Token) (a : SessionAttrs) (c : bytes) (o : issued)
    (w' : world) (x : Resumed) : Prop :=
  let n := calls w0 in
  let fam := Tokens.family (l_rec l) in
  let req := Tokens.mkRotationRequest (l_hash l) (o_record o) in
  (exists rot, (ConsumeForRotation (ctx e n) (clock e n) req (others e n (toks w0))) = (toks w', Ok rot) /\
     x = session_of a (Jwt.claims (o_token o)) fam) \/
  (exists err w1, (ConsumeForRotation (ctx e n) (clock e n) req (others e n (toks w0))) = (toks w1, Err err) /\
     Is err ErrConcurrent = true /\ prior <> None /\ out w' = out w0 /\ lives e w1 b fam a c x).

Lemma forget_tidy t fam f : tidy f -> exists f', Families.Forget t fam f = Ok f' /\ tidy f'.
Proof. intros [xs Hs]. destruct (forget_sound (t, fam) f xs Hs) as (f' & E & Hs' & _). exists f'. split; [exact E|]. by eexists. Qed.

Lemma write_world b a access refresh rec e w :
  let w' := (write b a access refresh rec e w).1 in toks w' = toks w /\ families w' = families w.
Proof.
  unfold write. destruct (_ =? TransportCookies).
  - unfold now, respond. prog. cbn. destruct (Cookie.SetSession _ _ _ _ _ _) as [o1 [err|]]; [done|].
    by destruct (Cookie.SetSession _ _ _ _ _ _).
  - destruct (_ =? TransportBearer); [|done]. by unfold respond.
Qed.

Lemma rotate_Ok b l prior a c o e w0 w' x i w1 w2 :
  tidy (families w0) -> tidy_env e -> prepare uuid_String b i e w1 = (w2, Ok o) -> i_attrs i = a ->
  i_family i = Tokens.family (l_rec l) ->
  (r ← f_ConsumeForRotation (Tokens.mkRotationRequest (l_hash l) (o_record o));
   match r with
   | Err err =>
       if Is err ErrConcurrent
       then match prior with
            | Some _ => resumeLive b (Tokens.family (l_rec l)) a c
            | None => mret (Err (unavailable err))
            end
       else rotationFailed (a_subject (l_attrs l)) err
   | Ok _ =>
       Program.check (write b a (o_access o) (o_refresh o) (o_record o))
         (mret (resumed a (Jwt.claims (o_token o)) (Tokens.family (l_rec l))))
   end) e w0 = (w', Ok x) ->
  renewal_end e w0 b l prior a c o w' x.
Proof.
  intros Ht He Hp <- Hfam. unfold renewal_end, f_ConsumeForRotation, on_store. prog. cbv zeta.
  destruct (ConsumeForRotation _ _ _ _) as [s2 [rot|err]].
  - intros E. left. exists rot.
    destruct (write _ _ _ _ _ e _) as [w3 [err|]] eqn:Ew; [done|]. apply pair_equal_spec in E as [<- Hx].
    apply resumed_spec in Hx as [-> _]. split; [|done]. f_equal.
    match type of Ew with write ?b ?a ?x ?y ?z ?e ?w = _ => pose proof (write_world b a x y z e w) as [Hs _] end.
    by rewrite Ew in Hs.
  - intros E. right. exists err.
    assert (forall w1, tidy (families w1) -> toks w1 = s2 -> out w1 = out w0 ->
      (if Is err ErrConcurrent then match prior with
        | Some _ => resumeLive b (Tokens.family (l_rec l)) (i_attrs i) c
        | None => mret (Err (unavailable err))
        end else rotationFailed (a_subject (l_attrs l)) err) e w1 = (w', Ok x) ->
      exists w1, (s2, Err err : res Tokens.Rotation) = (toks w1, Err err) /\ Is err ErrConcurrent = true /\ prior <> None /\ out w' = out w0 /\
        lives e w1 b (Tokens.family (l_rec l)) (i_attrs i) c x) as Hgo.
    { intros w3 Ht3 <- Ho. destruct (Is err ErrConcurrent).
      - destruct prior; [|done]. intros Hl. pose proof (silent_resumeLive b (Tokens.family (l_rec l)) (i_attrs i) c e w3) as Hs.
        rewrite Hl in Hs. apply resumeLive_Ok in Hl; [|done|done]. exists w3. split_and!; try done. by rewrite <- Ho.
      - unfold rotationFailed, emit, emit_all. by destruct (Is err ErrReused). }
    destruct (Is err ErrReused) eqn:Er.
    + unfold forget_family, on_families in E. cbv zeta in E. cbn [families] in E.
      destruct (forget_tidy (Tokens.RefreshRecord_Tenant (o_record o)) (Tokens.family (o_record o))
        (families_then e (calls (tick (mkWorld s2 (families w0) (epochs w0) (out w0) (events w0) (calls w0)))) (families w0)))
        as (f' & Ef & Hf'); [by apply He|].
      cbn [tick families calls] in E, Ef. cbn [Tokens.rot_Next] in E. rewrite Ef in E. by apply Hgo in E.
    + by apply Hgo in E.
Qed.

(** A session renewed from its refresh token: the store gave a record of the resolved tenant, sealed
    for the presented transport and of the session the expired access token names, whose life is not
    over; the Authority still vouches for the account; the new pair was prepared, and the store
    accepted it or told that another request was first. *)
Definition renewed_from e w b r (p : presented) (prior : option Token) (tenant : TenantID) (w' : world)
    (x : Resumed) : Prop :=
  let n := calls w in
  exists l evs a c o w1 w2,
    loads e n (toks w) (refresh p) tenant l /\ Tenant (a_subject (l_attrs l)) = tenant /\
    a_transport (l_attrs l) = transport p /\
    (forall t, prior = Some t -> family t = Tokens.family (l_rec l) /\ a_lineage (attrs t) = a_lineage (l_attrs l)) /\
    clock e (1 + n) < absoluteEnd b (l_attrs l) /\
    Renew_ (life b) (asked e) (clock e (2 + n)) (l_attrs l) (Tokens.appClaims (l_rec l)) = (evs, Ok (a, c)) /\
    prepare uuid_String b (mkIssue (Tokens.family (l_rec l)) a c (clientFingerprint r) (clock e (1 + n))) e w1 = (w2, Ok o) /\
    toks w2 = others e n (toks w) /\ out w2 = out w /\ renewal_end e w2 b l prior a c o w' x.

Lemma renew_Ok b r p prior tenant e w w' x : tidy (families w) -> tidy_env e ->
  renew uuid_String b r p prior tenant e w = (w', Ok x) -> renewed_from e w b r p prior tenant w' x.
Proof.
  intros Ht He. unfold renew. unfold try at 1. unfold mbind at 1, M_bind at 1.
  destruct (load (refresh p) e w) as [w1 [l|err]] eqn:El; [|done].
  apply jwt_load_Ok in El as (t & Hl & ->).
  pass E1. pass E2. pass E3. bools. rewrite run_now. pass E4. rewrite run_now, run_ask, run_emit_all.
  destruct (Renew_ _ _ _ _ _) as [evs [[a c]|err]] eqn:Er; cbn [fst snd].
  2:{ unfold revokeUnknown, emit, emit_all. prog. intros Hx. exfalso. destruct (Is err ErrClaimsSubjectUnknown).
      - destruct (f_RevokeFamily _ _ e _) as [w3 [u|err']]; done.
      - done. }
  unfold try_outage at 1. unfold mbind at 1, M_bind at 1.
  destruct (prepare _ _ _ e _) as [w2 [o|err]] eqn:Ep; [|done].
  pose proof Ep as (l0 & h0 & hash0 & s0 & _ & _ & _ & _ & _ & _ & _ & Hw2)%prepare_Ok.
  intros Hx. eapply rotate_Ok in Hx; [|by rewrite Hw2|done|exact Ep|done|done].
  pose proof (ld_tenant _ _ _ _ _ _ Hl) as Htn.
  eexists l, evs, a, c, o, _, w2. subst tenant. split; [by rewrite Htn|]. split; [congruence|]. split; [done|].
  split. { intros tk ->. by bools. }
  unfold time_Before in E4. bools. split; [done|]. split; [exact Er|]. split; [exact Ep|].
  split; [by rewrite Hw2|]. split; [by rewrite Hw2|]. exact Hx.
Qed.

Lemma renew_clean b r p prior tenant e w : full_reads e -> clean (renew uuid_String b r p prior tenant) e w.
Proof.
  intros Hr. apply clean_try; [auto|]. intros l Hl. destruct (load (refresh p) e w) as [w1 rl] eqn:El.
  cbn [fst snd] in *. subst rl. apply jwt_load_Ok in El as (t & Hl & ->).
  do 3 (match goal with |- clean (if ?b then _ else _) _ _ => destruct b end; [apply clean_silent; silent_tac|]).
  apply clean_bind; [auto|]. match goal with |- clean (if ?b then _ else _) _ _ => destruct b end; [apply clean_silent; silent_tac|].
  apply clean_bind; [auto|]. apply clean_bind; [auto|]. apply clean_bind; [auto|]. unfold emit_all, ask. cbn [fst snd].
  destruct (Renew_ _ _ _ _ _) as [evs [[a c]|err]] eqn:Er; cbn [fst snd]; [|apply clean_silent; silent_tac].
  unfold try_outage. apply clean_bind; [auto|].
  destruct (prepare _ _ _ _ _) as [w2 [o|err]] eqn:Ep; cbn [fst snd]; [|apply clean_silent; silent_tac].
  apply clean_bind; [auto|]. destruct (f_ConsumeForRotation _ _ _).2 as [rot|err]; [|apply clean_silent; silent_tac].
  pose proof Ep as (l0 & h0 & hash0 & s0 & _ & _ & _ & Hrec & _)%prepare_Ok. cbn in Hrec.
  apply NewRefreshRecord_Ok in Hrec as (Ha & Hs & Hln & Hf & _). cbn in Ha, Hs, Hln, Hf.
  intros w' err E. eapply (write_check_clean b (mkIssue _ a _ _ _)) in E; [done| |done|exact Ep|].
  - cbn. rewrite (Renew_subject _ _ _ _ _ _ _ _ Er). apply (ld_attrs _ _ _ _ _ _ Hl).
  - by rewrite jwt_resumed_Ok.
Qed.

(** ** Requests *)

(** A session read from an access token that has not expired. *)
Definition resumed_from e w b (p : presented) (tenant : TenantID) (x : Resumed) : Prop :=
  let n := calls w in
  exists tok, verify uuid_String uuid_Parse (codec b) (clock e n) (verifier e n) (access p) "" (Some tenant) = Ok (tok, false) /\
    Tenant (a_subject (attrs tok)) = tenant /\ a_transport (attrs tok) = transport p /\
    lives e (tick w) b (family tok) (attrs tok) (Jwt.claims tok) x.

(** The access token presented beside a refresh token: none, one that does not verify, or an expired
    one of the same tenant and transport. *)
Definition prior_of e w b (p : presented) (tenant : TenantID) (prior : option Token) (w1 : world) : Prop :=
  access p = "" /\ prior = None /\ w1 = w \/
  access p <> "" /\ w1 = tick w /\
  match prior with
  | None => exists err, (verify_access uuid_String uuid_Parse b (access p) tenant e w).2 = Err err
  | Some tok => (verify_access uuid_String uuid_Parse b (access p) tenant e w).2 = Ok (tok, true) /\
      a_transport (attrs tok) = transport p
  end.

Lemma Resume_Ok b r tenant e w w' x : tidy (families w) -> tidy_env e ->
  Resume uuid_String uuid_Parse b r tenant e w = (w', Ok x) ->
  let p := read (cookies b) r in
  ambiguous p = false /\
  ((out w' = out w /\ resumed_from e w b p tenant x) \/
   (refresh p <> "" /\ exists prior w1, prior_of e w b p tenant prior w1 /\ renewed_from e w1 b r p prior tenant w' x)).
Proof.
  intros Ht He. unfold Resume. cbv zeta. set (p := read (cookies b) r).
  assert (forall prior w1, tidy (families w1) -> prior_of e w b p tenant prior w1 ->
    (if bool_decide (refresh p = "") then mret (Err ErrExpired) else renew uuid_String b r p prior tenant) e w1 = (w', Ok x) ->
    refresh p <> "" /\ exists prior w1, prior_of e w b p tenant prior w1 /\ renewed_from e w1 b r p prior tenant w' x) as Hgo.
  { intros prior w1 Ht1 Hp. destruct (bool_decide_reflect (refresh p = "")); [done|]. intros Hx.
    split; [done|]. exists prior, w1. split; [done|]. by apply renew_Ok. }
  destruct (ambiguous p); [done|]. destruct (empty p); [done|].
  destruct (bool_decide_reflect (access p = "")) as [Ea|Ea].
  { intros Hx. split; [done|]. right. eapply Hgo; [exact Ht| |exact Hx]. by left. }
  unfold verify_access at 1, mbind at 1, M_bind at 1.
  destruct (verify _ _ _ _ _ _ _ _) as [[tok expired]|err] eqn:Ev.
  - pass E1. pass E2. bools. destruct expired; cbn [negb].
    + intros Hx. split; [done|]. right. eapply (Hgo (Some tok) (tick w)); [exact Ht| |exact Hx].
      right. by unfold verify_access.
    + intros Hx. split; [done|]. left. pose proof (silent_resumeLive b (family tok) (attrs tok) (Jwt.claims tok) e (tick w)) as Hs.
      rewrite Hx in Hs. split; [done|]. exists tok. do 3 (split; [done|]). by eapply resumeLive_Ok.
  - pass E1. pass E2. pass E3. intros Hx. split; [done|]. right. split; [by bools|]. exists None, (tick w).
    split; [|by apply renew_Ok]. right. do 2 (split; [done|]). exists err. unfold verify_access. cbn. by rewrite Ev.
Qed.

Lemma Resume_clean b r tenant e w : full_reads e -> clean (Resume uuid_String uuid_Parse b r tenant) e w.
Proof.
  intros Hr. unfold Resume. cbv zeta. set (p := read (cookies b) r).
  assert (forall prior w1, clean (if bool_decide (refresh p = "") then mret (Err ErrExpired)
    else renew uuid_String b r p prior tenant) e w1) as Hgo.
  { intros prior w1. destruct (bool_decide (refresh p = "")); [apply clean_silent; silent_tac|by apply renew_clean]. }
  destruct (ambiguous p); [apply clean_silent; silent_tac|]. destruct (empty p); [apply clean_silent; silent_tac|].
  destruct (bool_decide (access p = "")); [apply Hgo|]. apply clean_bind; [auto|].
  destruct (verify_access _ _ _ _ _ _ _).2 as [[tok expired]|err].
  - destruct (negb _); [apply clean_silent; silent_tac|]. destruct (negb _); [apply clean_silent; silent_tac|].
    destruct expired; cbn [negb]; [apply Hgo|apply clean_silent; auto].
  - destruct (Is err HErrUnavailable); [apply clean_silent; silent_tac|].
    destruct (Is err XErrTenantMismatch); [apply clean_silent; silent_tac|].
    specialize (Hgo None (verify_access uuid_String uuid_Parse b (access p) tenant e w).1).
    destruct (bool_decide (refresh p = "")); [apply clean_silent; silent_tac|exact Hgo].
Qed.
End facts.
