(* ===== verification/JwtStoreFacts.v ===== *)
(** What the JWT backend relies on in its token store, and that the in-memory store provides it.

    A family is [dead] when every record of it is revoked: its last record may be gone too.  A digest is
    [spent] when no record that could still be rotated has it. *)
From S2P Require Import Prelude Errors Tenant Factor Attrs Pending Codec StoreBase TokenRecord TokenStore.
From S2P Require Import TokenStoreFacts TokenStoreRun Lru Revocation.
From S2P Require Import GoText Cookie Renewal Program Stateful Signing JwtCodec JwtBackend.
Import Tokens.

Class TokensLaws (S : Type) `{TokensStore S} := {
  inv : S -> Prop;
  dead : S -> TenantID -> uuid -> Prop;
  spent : S -> bytes -> Prop;
  Get_dead c clk t h s r : inv s -> dead s t (family r) -> Get c clk t h s = Ok r -> RefreshRecord_Tenant r = t -> False;
  State_dead c t fam s fs : inv s -> dead s t fam -> Families.FamilyState_at c t fam s = Ok fs -> Revoked fs = true;
  RevokeFamily_dead c clk t fam s s' : inv s -> RevokeFamily c clk t fam s = (s', Ok tt) -> dead s' t fam;
  Consume_spent c clk req s s' rot : inv s -> 0 < store_now clk -> ConsumeForRotation c clk req s = (s', Ok rot) ->
    spent s' (Presented req);
  Consume_refused c clk req s : inv s -> spent s (Presented req) ->
    exists s' err, ConsumeForRotation c clk req s = (s', Err err);
  Create_state c clk r s s' : inv s -> Create c clk r s = (s', Ok tt) ->
    Families.FamilyState_at None (RefreshRecord_Tenant r) (family r) s'
    = Ok (mkFamilyState (subject r) (lineage r) false (Z.max 0 (time_Truncate (familyExpiresAt r) Microsecond))) }.

(** ** The in-memory store *)
Section memory.
Context (str : uuid -> string) (order : TokensMemory.Store -> list TokensMemory.familyKey).
Context (korder : TokensMemory.Store -> list TokensMemory.keyRef).

#[export] Instance memory_tokens : TokensStore TokensMemory.Store := {
  Create c _ := TokensMemory.Create c;
  Get := TokensMemory.Get;
  ConsumeForRotation := TokensMemory.ConsumeForRotation;
  Reissue := TokensMemory.Reissue;
  RevokeFamily := TokensMemory.RevokeFamily;
  RevokeForSubject c t s keep m := TokensMemory.RevokeForSubject str (order m) c t s keep m;
  EraseTenant c t ten m := TokensMemory.EraseTenant (order m) (korder m) c t ten m }.
End memory.

Import TokensMemory.

Definition family_dead (s : Store) (t : TenantID) (fam : uuid) : Prop :=
  forall h r, tokens s !! h = Some r -> familyOf (row r) = (t, fam) -> revoked r = true.

Definition digest_spent (s : Store) (h : bytes) : Prop :=
  forall r, tokens s !! h = Some r -> consumedAt r <> 0 \/ revoked r = true.

Lemma Get_found clk t h s rec : Get None clk t h s = Ok rec ->
  exists r, tokens s !! h = Some r /\ RestoreRefreshRecord (row r) = Ok rec /\ revoked r = false.
Proof.
  rewrite token_Get_spec. unfold token_state. destruct (tokens s !! h) as [r|]; [|done].
  case_decide; [done|]. case_decide as Hr; [done|]. intros E. exists r. split; [done|].
  destruct (revoked r); [naive_solver|]. split; [|done]. by repeat case_decide.
Qed.

Lemma Restore_family row rec : RestoreRefreshRecord row = Ok rec ->
  familyOf row = (RefreshRecord_Tenant rec, family rec).
Proof. unfold RestoreRefreshRecord. destruct (checkRefreshRow row); [done|]. by intros [= <-]. Qed.

Lemma state_of_family c t fam s fs : tok_inv s -> FamilyState_of c t fam s = Ok fs ->
  exists r, r ∈ family_toks (t, fam) s /\ Revoked fs = existsb revoked (family_toks (t, fam) s).
Proof.
  intros Hs. unfold FamilyState_of. destruct c; [done|]. rewrite familyRows_spec by done. cbn [mbind res_bind].
  destruct (family_toks (t, fam) s) as [|r rs]; [done|]. cbn [length]. rewrite state_spec. cbn. intros [= <-].
  exists r. split; [left|done].
Qed.

Lemma consumed_digest clk req s s' rot : store_inv s -> 0 < store_now clk ->
  ConsumeForRotation None clk req s = (s', Ok rot) -> digest_spent s' (Presented req).
Proof.
  intros Hs Hclk Hc. destruct (IsZero (rot_Next req) || negb (Z.of_nat (length (Presented req)) =? HashLen)) eqn:E.
  { unfold ConsumeForRotation in Hc. by rewrite E in Hc. }
  apply orb_false_iff in E as [Hz Hl%negb_false_iff%Z.eqb_eq].
  pose proof (Consume_spec s Hs clk req Hz Hl) as Hx. cbv zeta in Hx.
  pose proof (token_state_inv (RefreshRecord_Tenant (rot_Next req)) (Presented req) (store_now clk) s) as Hi.
  destruct (token_state _ _ _ _) as [| | |r|r]; try (rewrite Hx in Hc; repeat case_decide; discriminate).
  destruct Hx as [(_ & (_ & _ & Hfree) & Hx)|(_ & err & Hx & _)]; rewrite Hx in Hc; [|done].
  destruct Hi as (Hr & _). injection Hc as <- _. intros x Hlk. left.
  unfold rotated in Hlk. cbn in Hlk. rewrite lookup_insert_ne, lookup_insert_eq in Hlk by congruence.
  injection Hlk as <-. change (store_now clk <> 0). lia.
Qed.

Lemma spent_not_live s t h now r : digest_spent s h -> token_state t h now s <> LiveToken r.
Proof.
  intros Hsp. unfold token_state. destruct (tokens s !! h) as [x|] eqn:E; [|done].
  destruct (Hsp x E) as [Hc|Hr]; repeat case_decide; try done; tauto.
Qed.

Section memory_laws.
Context (str : uuid -> string) (order : Store -> list familyKey) (korder : Store -> list keyRef).

#[export] Program Instance memory_token_laws : @TokensLaws Store (memory_tokens str order korder) := {|
  inv := store_inv;
  dead := family_dead;
  spent := digest_spent |}.
Next Obligation.
  intros c clk t h s r Hs Hd Hg Ht. cbn in Hg. destruct c; [done|].
  apply Get_found in Hg as (x & Hx & Hr & Hv). apply Restore_family in Hr. rewrite Ht in Hr.
  rewrite (Hd _ _ Hx Hr) in Hv. done.
Qed.
Next Obligation.
  intros c t fam s fs Hs Hd Hf. cbn in Hf. apply state_of_family in Hf as (r & Hr & ->); [|apply Hs].
  apply existsb_exists. exists r. split; [by apply list_elem_of_In|].
  apply elem_of_family_toks in Hr as (h & Hh & Hf'); [|apply Hs]. by eapply Hd.
Qed.
Next Obligation.
  intros c clk t fam s s' Hs Hr h r Hh Hf. cbn in Hr. unfold RevokeFamily in Hr. destruct c; [done|].
  rewrite revoke_spec in Hr by apply Hs. cbn in Hr. injection Hr as <-.
  rewrite tokens_revoked_store, lookup_fmap in Hh. destruct (tokens s !! h) as [x|]; [|done]. injection Hh as <-.
  rewrite revoke_in_row in Hf. unfold revoke_in. by rewrite decide_True.
Qed.
Next Obligation. intros c clk req s s' rot Hs Hclk Hc. cbn in Hc. destruct c; [done|]. by eapply consumed_digest. Qed.
Next Obligation.
  intros c clk req s Hs Hsp. cbn. destruct c; [by eexists _, _|].
  destruct (IsZero (rot_Next req) || negb (Z.of_nat (length (Presented req)) =? HashLen)) eqn:E.
  { unfold ConsumeForRotation. rewrite E. by eexists _, _. }
  apply orb_false_iff in E as [Hz Hl%negb_false_iff%Z.eqb_eq].
  pose proof (Consume_spec s Hs clk req Hz Hl) as Hx. cbv zeta in Hx.
  pose proof (spent_not_live s (RefreshRecord_Tenant (rot_Next req)) (Presented req) (store_now clk)) as Hn.
  destruct (token_state _ _ _ _) as [| | |r|r]; [rewrite Hx; repeat case_decide; by eexists _, _..|].
  by destruct (Hn r).
Qed.
Next Obligation.
  intros c clk r s s' Hs Hc. cbn in Hc |- *. unfold Create in Hc. destruct c; [done|]. destruct (IsZero r); [done|].
  destruct (families s !! _) eqn:Ef; [done|].
  destruct (insert_spec r s) as [(Hok & Hfree & Ei)|(_ & err & Ei & _)]; rewrite Ei in Hc; [|done].
  cbn in Hc. injection Hc as <-. unfold FamilyState_of.
  pose proof (first_inserted s r Hs Hok Hfree Ef) as Hev. rewrite familyRows_spec by apply (ev_inv _ _ Hev).
  assert (family_toks (RefreshRecord_Tenant r, family r) (inserted r s) = [mkRefresh (rowOf r) time_zero [] false]) as ->.
  { unfold family_toks. rewrite members_inserted. change (familyOf (rowOf r)) with (RefreshRecord_Tenant r, family r).
    rewrite decide_True by done. unfold members. rewrite Ef. cbn. by rewrite lookup_insert_eq. }
  cbn [mbind res_bind]. rewrite state_spec. cbn -[time_Truncate]. do 2 f_equal. unfold maxTime, time_After, time_Before.
  change (time_Truncate (familyExpiresAt r) Microsecond) with (familyExpiresAt r - familyExpiresAt r mod Microsecond).
  generalize (familyExpiresAt r - familyExpiresAt r mod Microsecond). intros z. destruct (Z.ltb_spec 0 z); lia.
Qed.
End memory_laws.

(** ** Runs that do not found the family, or issue the digest, again *)
Definition founds (t : TenantID) (fam : uuid) (o : op) : bool :=
  match o with
  | OpCreate _ r => bool_decide ((RefreshRecord_Tenant r, family r) = (t, fam))
  | OpReissue _ _ req => bool_decide ((RefreshRecord_Tenant (rei_Next req), family (rei_Next req)) = (t, fam))
  | _ => false
  end.

Definition issues (h : bytes) (o : op) : bool :=
  match o with
  | OpCreate _ r => bool_decide (tokenHash r = h)
  | OpReissue _ _ req => bool_decide (tokenHash (rei_Next req) = h)
  | OpConsume _ _ req => bool_decide (tokenHash (rot_Next req) = h)
  | _ => false
  end.

(** Where a token of the store after a step comes from. *)
Lemma step_origin str s o s' h r' : store_inv s -> step str s o s' -> tokens s' !! h = Some r' ->
  (exists r, tokens s !! h = Some r /\ keeps r r') \/
  (issues h o = true /\ (founds (familyOf (row r')).1 (familyOf (row r')).2 o = true \/
     exists h0 r0, tokens s !! h0 = Some r0 /\ familyOf (row r0) = familyOf (row r') /\ revoked r0 = false)).
Proof.
  intros Hs Hst Hr'. destruct (tokens s !! h) as [r|] eqn:Hr.
  { left. exists r. split; [done|]. by eapply step_keeps. }
  right. assert (~ shrinks s s') as Hns by (intros Hshr; apply Hshr in Hr' as (r & E & _); congruence).
  destruct (reaps o) eqn:Ho.
  { exfalso. apply Hns. destruct Hst as [_ _ _], o; try discriminate. cbn. by apply ReapExpired_inv. }
  destruct (inserts o) eqn:Hi; [|exfalso; by eapply Hns, step_good].
  destruct Hst as [_ _ _], o; cbn in Hi; try discriminate; cbn [exec] in Hr'.
  - unfold Create in Hr'. destruct ctx; [cbn in Hr'; congruence|]. destruct (IsZero r); [cbn in Hr'; congruence|].
    destruct (families s !! _); [cbn in Hr'; congruence|]. destruct (insert_spec r s) as [(_ & _ & E)|(_ & err & E & _)]; rewrite E in Hr';
      cbn in Hr'; [|congruence]. apply lookup_insert_Some in Hr' as [[<- <-]|[_ ?]]; [|congruence].
    cbn. rewrite !bool_decide_eq_true_2 by done. auto.
  - destruct ctx; [cbn in Hr'; congruence|].
    destruct (IsZero (rot_Next req) || negb (Z.of_nat (length (Presented req)) =? HashLen)) eqn:E.
    { unfold ConsumeForRotation in Hr'. rewrite E in Hr'. cbn in Hr'. congruence. }
    apply orb_false_iff in E as [Hz Hl%negb_false_iff%Z.eqb_eq].
    pose proof (Consume_spec s Hs clk req Hz Hl) as Hx. cbv zeta in Hx.
    pose proof (token_state_inv (RefreshRecord_Tenant (rot_Next req)) (Presented req) (store_now clk) s) as Hti.
    destruct (token_state _ _ _ _) as [| | |r|r]; [rewrite Hx in Hr'; cbn in Hr'; congruence..| |].
    + rewrite Hx in Hr'. exfalso. apply Hns. cbn [exec]. rewrite Hx. repeat case_decide; cbn [fst]; try apply shrinks_refl. apply shrinks_revoked.
    + destruct Hx as [(Hsuc & _ & Hx)|(_ & err & Hx & _)]; rewrite Hx in Hr'; cbn in Hr'; [|congruence].
      apply lookup_insert_Some in Hr' as [[<- <-]|[_ Hr']].
      * cbn. rewrite bool_decide_eq_true_2 by done. split; [done|]. right. destruct Hti as (Hti & _ & Hrv & _).
        exists (Presented req), r. split; [done|]. split; [by apply familyOf_subject|]. tauto.
      * apply lookup_insert_Some in Hr' as [[<- <-]|[_ Hr']]; [|congruence]. destruct Hti as (Hti & _). congruence.
  - destruct ctx; [cbn in Hr'; congruence|].
    destruct (IsZero (rei_Next req)) eqn:Hz; [unfold Reissue in Hr'; rewrite Hz in Hr'; cbn in Hr'; congruence|].
    destruct (Reissue_spec clk req s Hs Hz) as [[_ Hx]|(_ & err & Hx & _)]; rewrite Hx in Hr'; cbn in Hr'; [|congruence].
    cbn [fst] in Hr'. rewrite tokens_revoked_store, lookup_fmap in Hr'. apply fmap_Some in Hr' as (x & Hlk & ->).
    cbn in Hlk. apply lookup_insert_Some in Hlk as [[<- <-]|[_ ?]]; [|congruence].
    rewrite revoke_in_row. cbn. rewrite !bool_decide_eq_true_2 by done. auto.
Qed.

Lemma step_dead str s o s' t fam : store_inv s -> step str s o s' -> founds t fam o = false ->
  family_dead s t fam -> family_dead s' t fam.
Proof.
  intros Hs Hst Ho Hd h r' Hr' Hf. destruct (step_origin str s o s' h r' Hs Hst Hr') as [(r & Hr & Hrow & Hrv & _)|(_ & [Hx|Hx])].
  - apply Hrv, (Hd h r Hr). by rewrite <- Hrow.
  - rewrite Hf in Hx. cbn in Hx. congruence.
  - destruct Hx as (h0 & r0 & H0 & Hf0 & Hn). rewrite (Hd h0 r0 H0) in Hn; [done|]. congruence.
Qed.

Lemma step_spent str s o s' h : store_inv s -> step str s o s' -> issues h o = false ->
  digest_spent s h -> digest_spent s' h.
Proof.
  intros Hs Hst Ho Hd r' Hr'. destruct (step_origin str s o s' h r' Hs Hst Hr') as [(r & Hr & _ & Hrv & Hcs)|(Hx & _)].
  - destruct (Hd r Hr) as [Hc|Hv]; [left; destruct (Hcs Hc) as [-> _]; done|right; auto].
  - congruence.
Qed.

Lemma run_dead str s os s' t fam : store_inv s -> run str s os s' -> Forall (fun o => founds t fam o = false) os ->
  family_dead s t fam -> family_dead s' t fam.
Proof.
  intros Hs Hr. induction Hr as [s|s o s1 os s2 Hst Hr IH]; intros Ho Hd; [done|]. apply Forall_cons in Ho as [Ho1 Ho].
  apply IH; [by eapply token_step_inv|done|]. by eapply step_dead.
Qed.

Lemma token_run_spent str s os s' h : store_inv s -> run str s os s' -> Forall (fun o => issues h o = false) os ->
  digest_spent s h -> digest_spent s' h.
Proof.
  intros Hs Hr. induction Hr as [s|s o s1 os s2 Hst Hr IH]; intros Ho Hd; [done|]. apply Forall_cons in Ho as [Ho1 Ho].
  apply IH; [by eapply token_step_inv|done|]. by eapply step_spent.
Qed.
