(* ===== verification/JwtSessionFacts.v ===== *)
(** The life of a JWT session against the contract of its token store: what ends stays ended, and a
    refresh token is exchanged once. *)
From S2P Require Import Prelude Errors Tenant Factor Attrs Pending Codec VerifiedFacts SessionFacts.
From S2P Require Import StoreBase TokenRecord TokenStore Lru LruFacts Revocation RevokeProperties.
From S2P Require Import GoText Cookie Renewal Program Stateful Signing JwtCodec JwtCodecFacts.
From S2P Require Import JwtBackend JwtBackendFacts JwtStoreFacts.
Import Session Signing Jwt JwtBackend.

(** The cache has no state of the family that would let it pass. *)
Definition no_stale (f : Families.Families) (t : TenantID) (fam : uuid) : Prop :=
  forall xs fs now, sound f xs -> cached f xs now (t, fam) = Some fs -> Tokens.Revoked fs = true.

Lemma find_unique {K V} `{Countable K} (l : Lru.lru K V) xs ys k : rep l xs -> rep l ys -> find k xs = find k ys.
Proof.
  intros Hx Hy. destruct (get_rep k l xs Hx) as (l1 & E1 & _), (get_rep k l ys Hy) as (l2 & E2 & _).
  rewrite E1 in E2. injection E2 as _ E. revert E. unfold spec_get.
  destruct (find k xs), (find k ys); cbn; congruence.
Qed.

Lemma cached_unique {K V} `{Countable K} (f : Follower.follower K V) xs ys now k : sound f xs -> sound f ys ->
  cached f xs now k = cached f ys now k.
Proof.
  intros [Hx _] [Hy _]. unfold cached. destruct (Follower.freshLocked f now); [by apply (find_unique (Follower.entries f))|done].
Qed.

Lemma forget_no_stale t fam f f' : tidy f -> Families.Forget t fam f = Ok f' -> no_stale f' t fam.
Proof.
  intros [xs Hs] Hf ys fs now Hs' Hc. destruct (forget_sound (t, fam) f xs Hs) as (f2 & E & Hs2 & Hn).
  unfold Families.Forget in Hf. rewrite E in Hf. injection Hf as ->.
  rewrite (cached_unique f' ys _ now (t, fam) Hs' Hs2), Hn in Hc. done.
Qed.

Section sessions.
Context {S A : Type} `{TokensLaws S, Epochs.EpochSource A, Crypto}.
Context (uuid_String : uuid -> string) (uuid_Parse : string -> option uuid).
Implicit Types (e : env S A) (w : world S) (b : Backend).

(** Other requests leave the store consistent. *)
Definition fair e : Prop := forall n s, inv s -> inv (others e n s).

(** Other requests do not found a dead family again, nor bring a state of it from before its end back
    into the cache. *)
Definition lets_rest e (t : TenantID) (fam : uuid) : Prop :=
  forall n, (forall s, inv s -> dead s t fam -> dead (others e n s) t fam) /\
            (forall f, no_stale f t fam -> no_stale (families_then e n f) t fam).

(** Other requests do not issue a spent digest again. *)
Definition never_issues e (h : bytes) : Prop := forall n s, inv s -> spent s h -> spent (others e n s) h.

(** ** Ending *)

(** The family a request names: that of its refresh token, or of its access token alone. *)
Definition names e w b (p : presented) (tenant : TenantID) (fam : uuid) : Prop :=
  let n := calls w in
  (refresh p <> "" /\ exists l, loads e n (toks w) (refresh p) tenant l /\ Tokens.family (l_rec l) = fam) \/
  (refresh p = "" /\ exists tok expired,
     verify uuid_String uuid_Parse (codec b) (clock e n) (verifier e n) (access p) "" (Some tenant) = Ok (tok, expired) /\
     family tok = fam).

Lemma revoke_dead t fam e w w' : inv (toks w) -> fair e -> tidy (families w) -> tidy_env e ->
  revoke t fam e w = (w', Ok tt) -> dead (toks w') t fam /\ no_stale (families w') t fam.
Proof.
  intros Hi Hf Ht He. unfold revoke, store_error, f_RevokeFamily, deferred, forget_family, on_store, on_families. prog.
  cbv zeta. destruct (RevokeFamily _ _ _ _ _) as [s1 r1] eqn:Er. cbn [families calls tick].
  destruct (Families.Forget _ _ _) as [f'|] eqn:Ef; [|done]. destruct r1 as [[]|]; [|done]. intros [= <-]. cbn.
  split; [by eapply RevokeFamily_dead, Er; apply Hf|]. by eapply forget_no_stale, Ef; apply He.
Qed.

Lemma loads_load e w v t l : loads e (calls w) (toks w) v t l -> load v e w = (stepped e w, Ok l).
Proof.
  intros Hl. unfold load. rewrite (ld_parse _ _ _ _ _ _ Hl). unfold on_store. prog. rewrite (ld_get _ _ _ _ _ _ Hl).
  rewrite (proj2 (ld_attrs _ _ _ _ _ _ Hl)).
  rewrite (ld_subject _ _ _ _ _ _ Hl), (ld_lineage _ _ _ _ _ _ Hl), (ld_epoch _ _ _ _ _ _ Hl), (ld_tenant _ _ _ _ _ _ Hl).
  rewrite !(bool_decide_eq_true_2 (_ = _)), !Z.eqb_refl by done. by destruct l.
Qed.

Lemma verify_tenant c now keys raw aud t tok expired :
  verify uuid_String uuid_Parse c now keys raw aud (Some t) = Ok (tok, expired) -> Tenant (a_subject (attrs tok)) = t.
Proof.
  intros (cs & t' & _ & Hc & Hw & _)%verify_Ok. rewrite (ck_tenant _ _ _ _ _ _ _ _ Hc). by apply Hw.
Qed.

Lemma End_dead b r tenant fam e w w' : inv (toks w) -> fair e -> tidy (families w) -> tidy_env e ->
  names e w b (read (cookies b) r) tenant fam -> End_ uuid_String uuid_Parse b r tenant e w = (w', Ok tt) ->
  dead (toks w') tenant fam /\ no_stale (families w') tenant fam.
Proof.
  intros Hi Hf Ht He Hn. unfold End_. cbv zeta. set (p := read (cookies b) r) in *. unfold mbind at 1, M_bind at 1.
  assert (exists o, (clear b r p e w).1 = mkWorld (toks w) (families w) (epochs w) o (events w) (calls w)) as [o Ho].
  { unfold clear, respond. destruct (_ || _); [by eexists|]. exists (out w). by destruct w. }
  destruct (clear b r p e w) as [w1 u]. cbn in Ho. subst w1. set (w1 := mkWorld _ _ _ _ _ _).
  destruct Hn as [(Hr & l & Hl & <-)|(Hr & tok & ex & Hv & <-)].
  - rewrite bool_decide_eq_false_2 by done. unfold mbind at 1, M_bind at 1.
    change (loads e (calls w1) (toks w1) (refresh p) tenant l) in Hl. rewrite (loads_load _ _ _ _ _ Hl).
    rewrite (ld_tenant _ _ _ _ _ _ Hl), bool_decide_eq_true_2 by done. intros Hx.
    eapply revoke_dead; [| | | |exact Hx]; [by apply Hf|done|done|done].
  - rewrite bool_decide_eq_true_2 by done. unfold end_access.
    assert (access p <> "") as Ha by (intros Ea; rewrite Ea in Hv; by vm_compute in Hv).
    rewrite bool_decide_eq_false_2 by done. unfold verify_access, mbind at 1, M_bind at 1. cbn [calls w1]. rewrite Hv.
    rewrite (verify_tenant _ _ _ _ _ _ _ _ Hv). intros Hx. eapply revoke_dead; [| | | |exact Hx]; done.
Qed.

Lemma family_not_live e w s fam lin : inv (others e (calls w) (toks w)) ->
  dead (others e (calls w) (toks w)) (Tenant s) fam -> no_stale (families_then e (calls w) (families w)) (Tenant s) fam ->
  ~ family_live e w s fam lin.
Proof.
  intros Hi Hd Hn (xs & fs & Hs & Hk & _ & _ & Hv & _). destruct Hk as [Hk|Hk].
  - by rewrite (Hn _ _ _ Hs Hk) in Hv.
  - by rewrite (State_dead _ _ _ _ _ Hi Hd Hk) in Hv.
Qed.

(** No request is let through on a dead family. *)
Lemma Resume_dead b r tenant fam e w w' x : inv (toks w) -> fair e -> tidy (families w) -> tidy_env e ->
  lets_rest e tenant fam -> dead (toks w) tenant fam -> no_stale (families w) tenant fam ->
  Resume uuid_String uuid_Parse b r tenant e w = (w', Ok x) -> h_id (r_handle x) <> fam.
Proof.
  intros Hi Hf Ht He Hl Hd Hn Hx Hfam.
  destruct (Resume_Ok _ _ b r tenant e w w' x Ht He Hx) as (_ & [[_ Hr]|(_ & prior & w1 & Hp & Hr)]).
  - destruct Hr as (tok & Hv & Htn & _ & Hlv). destruct Hlv as (-> & _ & Hlive & _). cbn in Hfam. subst fam.
    eapply family_not_live; [| | |exact Hlive]; cbn; rewrite ?Htn; [by apply Hf|by apply Hl|by apply Hl].
  - assert (toks w1 = toks w) as Ew by (destruct Hp as [(_ & _ & ->)|(_ & -> & _)]; done).
    destruct Hr as (l & evs & a & c & o & w2 & w3 & Hld & Hten & _ & _ & _ & _ & _ & _ & _ & Hend).
    assert (Tokens.family (l_rec l) = fam) as Efam by (destruct Hend as [(rot & _ & ->)|(err & w4 & _ & _ & _ & _ & -> & _)]; done).
    eapply (Get_dead _ _ tenant (l_hash l) (others e (calls w1) (toks w1)) (l_rec l)).
    + rewrite Ew. by apply Hf.
    + rewrite Efam, Ew. by apply Hl.
    + exact (ld_get _ _ _ _ _ _ Hld).
    + exact (ld_tenant _ _ _ _ _ _ Hld).
Qed.

Lemma Live_dead hd e w : inv (toks w) -> fair e -> tidy (families w) -> tidy_env e ->
  lets_rest e (Tenant (h_subject hd)) (h_id hd) -> dead (toks w) (Tenant (h_subject hd)) (h_id hd) ->
  no_stale (families w) (Tenant (h_subject hd)) (h_id hd) -> exists err, (Live hd e w).2 = Err err.
Proof.
  intros Hi Hf Ht He Hl Hd Hn. unfold Live. destruct (Handle_IsZero hd); [by eexists|]. unfold mbind, M_bind.
  destruct (live_family _ _ e w) as [w1 [err|]] eqn:El; [by eexists|]. exfalso.
  apply live_family_Ok in El as (Hlive & _); [|done|done].
  eapply family_not_live; [| | |exact Hlive]; [by apply Hf|by apply Hl|by apply Hl].
Qed.

(** ** Exchanging a refresh token *)

(** A request that presents a spent refresh token gets no new credential, whatever comes of it. *)
Lemma Resume_spent b r tenant h e w : inv (toks w) -> fair e -> tidy (families w) -> tidy_env e -> full_reads e ->
  never_issues e h -> spent (toks w) h ->
  (forall t k, parseRefresh (refresh (read (cookies b) r)) = Ok (t, k) -> k = h) ->
  out (Resume uuid_String uuid_Parse b r tenant e w).1 = out w.
Proof.
  intros Hi Hf Ht He Hr Hn Hs Hp. destruct (Resume _ _ b r tenant e w) as [w' [x|err]] eqn:Ex.
  2:{ by eapply Resume_clean in Ex. }
  destruct (Resume_Ok _ _ b r tenant e w w' x Ht He Ex) as (_ & [[Ho _]|(_ & prior & w1 & Hpr & Hrn)]); [done|].
  assert (toks w1 = toks w /\ out w1 = out w) as [Ew Eo] by (destruct Hpr as [(_ & _ & ->)|(_ & -> & _)]; done).
  destruct Hrn as (l & evs & a & c & o & w2 & w3 & Hld & _ & _ & _ & _ & _ & _ & Hs3 & Ho3 & Hend).
  destruct Hend as [(rot & Hc & _)|(err & w4 & _ & _ & _ & Ho & _)]; [|cbn; congruence].
  exfalso. assert (l_hash l = h) as El by (eapply Hp, (ld_parse _ _ _ _ _ _ Hld)).
  assert (inv (others e (calls w1) (toks w1))) as Hi1 by (rewrite Ew; by apply Hf).
  assert (spent (others e (calls w1) (toks w1)) h) as Hs1 by (rewrite Ew; by apply Hn).
  destruct (Consume_refused (ctx e (calls w3)) (clock e (calls w3)) (Tokens.mkRotationRequest (l_hash l) (o_record o))
    (others e (calls w3) (toks w3))) as (s' & err & E).
  - rewrite Hs3. by apply Hf.
  - cbn. rewrite El, Hs3. apply Hn; [done|exact Hs1].
  - rewrite E in Hc. done.
Qed.

(** A request that was given a new credential rotated the token it presented. *)
Lemma Resume_rotates b r tenant e w w' x : inv (toks w) -> fair e -> tidy (families w) -> tidy_env e ->
  Resume uuid_String uuid_Parse b r tenant e w = (w', Ok x) -> out w' <> out w ->
  exists n s req rot, ConsumeForRotation (ctx e n) (clock e n) req (others e n (others e s (toks w))) = (toks w', Ok rot) /\
    exists t, parseRefresh (refresh (read (cookies b) r)) = Ok (t, Tokens.Presented req).
Proof.
  intros Hi Hf Ht He Hx Hout.
  destruct (Resume_Ok _ _ b r tenant e w w' x Ht He Hx) as (_ & [[Ho _]|(_ & prior & w1 & Hpr & Hrn)]); [done|].
  assert (toks w1 = toks w /\ out w1 = out w) as [Ew Eo] by (destruct Hpr as [(_ & _ & ->)|(_ & -> & _)]; done).
  destruct Hrn as (l & evs & a & c & o & w2 & w3 & Hld & _ & _ & _ & _ & _ & _ & Hs3 & Ho3 & Hend).
  destruct Hend as [(rot & Hc & _)|(err & w4 & _ & _ & _ & Ho & _)]; [|congruence].
  rewrite Hs3, Ew in Hc. eexists _, _, _, rot. split; [exact Hc|]. exists tenant. exact (ld_parse _ _ _ _ _ _ Hld).
Qed.

Lemma Resume_spends b r tenant e w w' x t h : inv (toks w) -> fair e -> tidy (families w) -> tidy_env e ->
  (forall n, 0 < store_now (clock e n)) ->
  Resume uuid_String uuid_Parse b r tenant e w = (w', Ok x) -> out w' <> out w ->
  parseRefresh (refresh (read (cookies b) r)) = Ok (t, h) -> spent (toks w') h.
Proof.
  intros Hi Hf Ht He Hclk Hx Hout Hp.
  destruct (Resume_rotates b r tenant e w w' x Hi Hf Ht He Hx Hout) as (n & m & req & rot & Hc & t' & Hp').
  rewrite Hp in Hp'. injection Hp' as _ ->. eapply Consume_spent; [|apply Hclk|exact Hc]. by apply Hf, Hf.
Qed.
End sessions.

(** ** A new JWT session: what Start leaves behind, and that the access token it gives is let through. *)

(** The response carries both tokens of the session. *)
Definition delivers (b : Backend) (a : SessionAttrs) (access refresh : string) (o o' : Http.Response) : Prop :=
  (a_transport a = TransportCookies /\ exists ca cr, Http.SetCookies o' = Http.SetCookies o ++ [ca; cr] /\
     Http.Name ca = Cookie.CookieName (cookies b) Cookie.AccessToken /\ Http.Value ca = access /\
     Http.Name cr = Cookie.CookieName (cookies b) Cookie.RefreshToken /\ Http.Value cr = refresh) \/
  (a_transport a = TransportBearer /\ Http.Header o' !! HeaderAccessToken = Some access /\
     Http.Header o' !! HeaderRefreshToken = Some refresh).

Section start.
Context {S A : Type} `{TokensStore S, Epochs.EpochSource A, Crypto}.
Context (uuid_String : uuid -> string) (uuid_Parse : string -> option uuid).
Implicit Types (e : env S A) (w : world S) (b : Backend).

Lemma SetSession_Ok p n v remember age o o' : Cookie.SetSession p n v remember age o = (o', None) ->
  exists c, Http.SetCookies o' = Http.SetCookies o ++ [c] /\ Http.Name c = Cookie.CookieName p n /\ Http.Value c = v.
Proof.
  unfold Cookie.SetSession. destruct (Cookie.check _ _ _ _); [done|].
  destruct remember; [destruct (_ <? 1); [done|]|]; intros [= <-]; by eexists.
Qed.

Lemma write_Ok b a access refresh rec e w w' : write b a access refresh rec e w = (w', None) ->
  delivers b a access refresh (out w) (out w') /\ toks w' = toks w /\ families w' = families w /\ epochs w' = epochs w.
Proof.
  unfold write, delivers. destruct (Z.eqb_spec (a_transport a) TransportCookies) as [Ec|Ec].
  - unfold now, respond. prog. cbn [fst snd].
    destruct (Cookie.SetSession _ Cookie.AccessToken _ _ _ _) as [o1 [err|]] eqn:E1; [done|].
    destruct (Cookie.SetSession _ Cookie.RefreshToken _ _ _ _) as [o2 err] eqn:E2. intros [= <- ->]. cbn. split; [|done].
    apply SetSession_Ok in E1 as (ca & Ha & Hna & Hva), E2 as (cr & Hr & Hnr & Hvr). left. split; [done|].
    exists ca, cr. split_and!; try done. by rewrite Hr, Ha, <- app_assoc.
  - destruct (Z.eqb_spec (a_transport a) TransportBearer) as [Eb|]; [|done]. unfold respond. intros [= <-]. cbn.
    split; [|done]. right. split; [done|]. split; [|apply lookup_insert_eq].
    rewrite lookup_insert_ne by done. apply lookup_insert_eq.
Qed.

Lemma jwt_Start_Ok b a c e w w' : Start uuid_String b a c e w = (w', Ok tt) ->
  let n := calls w in
  exists claims o w1 w2, CompactClaims c = Ok claims /\
    prepare uuid_String b (mkIssue (fresh e n) a claims [] (clock e (1 + n))) e w1 = (w2, Ok o) /\
    calls w1 = (2 + n)%nat /\
    Create (ctx e (5 + n)) (clock e (5 + n)) (o_record o) (others e (5 + n) (toks w)) = (toks w', Ok tt) /\
    families w' = families w /\ epochs w' = epochs w /\ delivers b a (o_access o) (o_refresh o) (out w) (out w').
Proof.
  unfold Start. destruct (checkStartable a); [done|]. destruct (CompactClaims c) as [claims|err].
  2:{ destruct (Is err ErrClaimsTooLarge); done. }
  rewrite run_newID, run_now. unfold try, mbind at 1, M_bind at 1.
  destruct (prepare _ _ _ e _) as [w2 [o|err]] eqn:Ep; [|done].
  pose proof Ep as (l & h & hash & s & _ & _ & _ & _ & _ & _ & _ & Hw2)%prepare_Ok.
  unfold on_store, mbind at 1, M_bind at 1. rewrite Hw2. cbn [calls toks families epochs out events tick].
  destruct (Create _ _ _ _) as [s2 [[]|err]] eqn:Ec; [|done]. prog.
  destruct (write _ _ _ _ _ e _) as [w3 [err|]] eqn:Ew; [done|]. intros [= <-].
  apply write_Ok in Ew as (Hd & Hs & Hf & Hp). cbn in Hs, Hf, Hp, Hd.
  eexists claims, o, _, w2. split; [done|]. split; [exact Ep|]. split; [done|]. cbn in *. rewrite Hs. done.
Qed.

(** ** A request that nothing disturbs *)
Definition steady e (t : time) : Prop :=
  forall n, clock e n = t /\ ctx e n = None /\ (forall s, others e n s = s) /\ (forall f, families_then e n f = f).

Lemma Live_passes (st : S) s fam f xs fs t : sound f xs -> cached f xs t (Tenant s, Families.ID fam) = None ->
  Families.FamilyState_at None (Tenant s) (Families.ID fam) st = Ok fs -> Tokens.fs_Subject fs = s ->
  Tokens.fs_Lineage fs = Families.Lineage fam -> Tokens.Revoked fs = false -> t < Tokens.fs_ExpiresAt fs ->
  exists f' evs, Families.Live None t t t st s fam f = Ok (f', None, evs).
Proof.
  intros Hs Hc Hf Hsub Hlin Hrv Ht. unfold Families.Live.
  destruct (get_answer None t t (Families.family_lookup None st) (Tenant s, Families.ID fam) f xs Hs)
    as (f2 & xs2 & evs2 & -> & _ & _). cbn [mbind res_bind].
  match goal with |- context [match ?c with Some v => Ok v | None => _ end] => replace c with (@None Tokens.FamilyState) by (symmetry; exact Hc) end.
  unfold Families.family_lookup. cbn [fst snd].
  rewrite Hf. eexists _, _. do 3 f_equal. by apply (proj1 (live_verdict_spec t s fam fs)).
Qed.

(** Where the epoch check of a request with a fresh access token stands. *)
Definition epoch_current e w (a : SessionAttrs) : Prop :=
  forall w3, calls w3 = (5 + calls w)%nat -> epochs w3 = epochs w -> epoch_passes e w3 a.

Lemma Resume_fresh b r tenant tok t fs xs e w : steady e t ->
  let p := read (cookies b) r in let a := attrs tok in
  access p <> "" -> ambiguous p = false -> transport p = a_transport a ->
  verify uuid_String uuid_Parse (codec b) t (verifier e (calls w)) (access p) "" (Some tenant) = Ok (tok, false) ->
  t < absoluteEnd b a -> sound (families w) xs -> cached (families w) xs t (tenant, family tok) = None ->
  Families.FamilyState_at None tenant (family tok) (toks w) = Ok fs -> Tokens.fs_Subject fs = a_subject a ->
  Tokens.fs_Lineage fs = a_lineage a -> Tokens.Revoked fs = false -> t < Tokens.fs_ExpiresAt fs ->
  epoch_current e w a -> SessionAttrs_IsZero a = false -> Subject_IsZero (a_subject a) = false ->
  a_lineage a <> uuid_Nil -> family tok <> uuid_Nil ->
  exists w', Resume uuid_String uuid_Parse b r tenant e w = (w', Ok (session_of a (claims tok) (family tok))).
Proof.
  intros Hst p a Hacc Hamb Htr Hv Hend Hsound Hcached Hfs Hsub Hlin Hrv Hexp Hep Hz1 Hz2 Hz3 Hz4.
  pose proof (verify_tenant _ _ _ _ _ _ _ _ _ _ Hv) as Hten.
  assert (forall n, clock e n = t) as Hclk by (intros n; apply (Hst n)).
  assert (forall n, ctx e n = None) as Hctx by (intros n; apply (Hst n)).
  assert (forall n s, others e n s = s) as Ho by (intros n; apply (Hst n)).
  assert (forall n f, families_then e n f = f) as Hfm by (intros n; apply (Hst n)).
  unfold Resume. cbv zeta. fold p. rewrite Hamb. unfold empty. rewrite (bool_decide_eq_false_2 (access p = "")) by done.
  cbn [andb]. unfold verify_access, mbind at 1, M_bind at 1. rewrite Hclk, Hv.
  rewrite (bool_decide_eq_true_2 (Tenant _ = tenant)) by done. fold a. rewrite Htr, Z.eqb_refl. cbn [negb].
  unfold resumeLive. rewrite run_now, Hclk. unfold time_Before. rewrite (proj2 (Z.ltb_lt _ _) Hend). cbn [negb].
  unfold mbind at 1, M_bind at 1. unfold live_family. cbv zeta. rewrite !Hclk, Hctx, Ho, Hfm.
  assert (Tenant (a_subject a) = tenant) as Ht2 by exact Hten.
  destruct (Live_passes (toks w) (a_subject a) (Families.mkFamily (family tok) (a_lineage a)) (families w) xs fs t)
    as (f' & evs & El); rewrite ?Ht2; try done.
  cbn [calls tick toks families]. rewrite El.
  unfold mbind at 1, M_bind at 1. unfold check_epoch. cbv zeta. cbn [calls epochs].
  match goal with |- context [Epochs.Check _ _ _ _ _ _ _ _ _ (epochs_then e ?m _)] =>
    destruct (Hep (mkWorld (toks w) f' (epochs w) (out w) (events w) m)) as (k & evs2 & Ec); [cbn; lia|done|] end.
  cbn [calls epochs] in Ec. cbn [epochs tick]. rewrite Ec. unfold mret, M_ret. rewrite jwt_resumed_Ok by done. by eexists.
Qed.
End start.

(** ** How long a new access token lasts *)
Lemma time_Truncate_near t d : 0 < d -> t - d < time_Truncate t d.
Proof.
  intros Hd. unfold time_Truncate. destruct (Z.leb_spec d 0); [lia|]. pose proof (Z.mod_pos_bound t d Hd). lia.
Qed.

Lemma token_lasts b a t0 l t : RecheckEvery (life b) < two63 ->
  tokenLifetime b a t0 (RecheckEvery (life b)) = Ok l -> t + 3 * Second <= t0 + RecheckEvery (life b) ->
  t + 3 * Second <= absoluteEnd b a -> t + 2 * Second <= t0 + l /\ l <= RecheckEvery (life b).
Proof.
  unfold tokenLifetime. cbv zeta. intros Hr. set (left := Stateful.duration_Truncate _ _). destruct (Z.ltb_spec left Second) as [|Hl]; [done|].
  intros [= <-] H1 H2. assert (time_Sub (absoluteEnd b a) t0 - Second < left) as Hleft.
  { subst left. unfold Stateful.duration_Truncate, Second. cbn [Z.leb Z.compare].
    pose proof (Z.rem_bound_abs (time_Sub (absoluteEnd b a) t0) 1000000000 ltac:(lia)). lia. }
  clearbody left. unfold time_Sub in Hleft. unfold Second, two63 in *. lia.
Qed.

Section started.
Context {S A : Type} `{TokensLaws S, Epochs.EpochSource A, CryptoLaws}.
Context (uuid_String : uuid -> string) (uuid_Parse : string -> option uuid) `{!UUIDLaws uuid_String uuid_Parse}.
Implicit Types (e : env S A) (w : world S) (b : Backend).

(** The key manager of a later request verifies what the key of an earlier one signed. *)
Definition keys_agree e e2 : Prop :=
  forall n t s, signer e n t = Ok s -> exists k, s = Some k /\ paired k /\ checkKeyID (kid (pub k)) = None /\
    forall m, verifier e2 m t (kid (pub k)) = Ok (Some (pub k)).

(** A backend whose issuers are readable text. *)
Definition readable b (t : TenantID) : Prop :=
  valid (fingerprint (codec b)) /\ forall iss, Issuer (codec b) t = Ok iss -> valid iss /\ iss <> "".

(** The access token prepare makes verifies until three seconds before the next check is due, or the
    session's life ends. *)
Lemma prepared_verifies b i o e e2 w w' t m : prepare uuid_String b i e w = (w', Ok o) ->
  attrs_wf (i_attrs i) -> keys_agree e e2 -> readable b (Tenant (a_subject (i_attrs i))) -> uuid_ok (i_family i) ->
  RecheckEvery (life b) < two63 -> unix_epoch + Second <= i_now i ->
  i_now i + RecheckEvery (life b) <= Unix_time maxUnixSeconds ->
  Z.of_nat (length (str_bytes (o_access o))) <= MaxTokenLen -> i_now i <= t ->
  t + 3 * Second <= i_now i + RecheckEvery (life b) -> t + 3 * Second <= absoluteEnd b (i_attrs i) ->
  verify uuid_String uuid_Parse (codec b) t (verifier e2 m) (o_access o) "" (Some (Tenant (a_subject (i_attrs i))))
    = Ok (o_token o, false) /\
  family (o_token o) = i_family i /\ attrs (o_token o) = i_attrs i /\ CompactClaims (i_claims i) = Ok (claims (o_token o)).
Proof.
  intros Hp Ha Hk [Hfp Hiss] Hu Hr Hepoch Hmax Hlen Hnow Ht1 Ht2.
  apply prepare_Ok in Hp as (l & h & hash & s & Hl & _ & _ & _ & Hs & He & _ & _).
  destruct (Hk _ _ _ Hs) as (k & -> & Hpair & Hid & Hver).
  destruct (token_lasts b (i_attrs i) (i_now i) l t Hr Hl Ht1 Ht2) as [Hlast Hle].
  assert (issuer (o_token o) <> "") as Hne.
  { apply encode_issuer in He. cbn in He. by apply Hiss in He as [_ ?]. }
  destruct (verify_encode uuid_String uuid_Parse (codec b) (2 + calls w) k (mkMint "" (i_family i) (i_now i) l (i_attrs i) (i_claims i))
    (o_access o) (o_token o) t (verifier e2 m) (Some (Tenant (a_subject (i_attrs i)))))
    as (Hv & Hfam & Hat & Hcl & Hlo & _); cbn [m_attrs m_audience m_issuedAt m_lifetime m_family]; try done.
  - split; cbn; try done; [|lia|].
    + pose proof (proj2 (aw_subject _ Ha)) as Hz. unfold Subject_IsZero in Hz. by bools.
    + split_and!; [done|done|]. intros iss E. by apply Hiss.
  - by right.
  - unfold MaxIssuedAtSkew, Second. lia.
  - cbn in Hlo, Hcl, Hat, Hfam. split; [|done]. cbn in Hv. rewrite Hv. do 2 f_equal. apply Z.leb_gt. lia.
Qed.
End started.
