(* ===== verification/JwtProperties.v ===== *)
(** The guarantees of the JWT session backend, with the sample values their witnesses run on. *)
From S2P Require Import Prelude Errors Tenant Factor Attrs Pending Transitions Codec StoreBase TokenRecord TokenStore.
From S2P Require Import TokenStoreFacts TokenStoreRun Lru LruFacts Revocation RevokeProperties.
From S2P Require Import VerifiedFacts SessionFacts CodecFacts Journey.
From S2P Require Import GoText Cookie Renewal StatefulFacts Program Stateful Signing JwtCodec JwtCodecFacts.
From S2P Require Import JwtCodecFacts JwtBackend JwtBackendFacts JwtStoreFacts JwtSessionFacts.
Import Session Signing Jwt JwtBackend.

(** ** Sample values *)

#[local] Existing Instance toy_crypto.

#[local] Existing Instance toy_laws.

#[local] Existing Instance toy_uuid.

(** An account store that gives one epoch for everybody. *)
#[local] Instance fixed_account : Epochs.EpochSource Z := {
  Epochs.CurrentEpoch _ _ n := Ok n;
  Epochs.EpochsChangedSince _ c _ := ([], c, None) }.

Definition family_order (s : TokensMemory.Store) : list TokensMemory.familyKey :=
  (map_to_list (TokensMemory.families s)).*1.

Definition key_order (s : TokensMemory.Store) : list TokensMemory.keyRef := (map_to_list (TokensMemory.keys s)).*1.

#[local] Instance jwt_store : TokensStore TokensMemory.Store := memory_tokens toy_String family_order key_order.

#[local] Instance jwt_laws : TokensLaws TokensMemory.Store := memory_token_laws toy_String family_order key_order.

Definition jwt_backend : Backend :=
  mkBackend codec0 (Cookie.mkPolicy true true "") ["https://api.example.com"]
    (mkLifetimes (60 * Minute) (24 * 60 * Minute) (10 * Minute)).

Definition jwt_answers : answers :=
  mkAnswers (fun _ => Ok st0) (fun _ => Ok mfa_totp) (fun _ => Ok (str_bytes "{ }")).

(** A request at instant [t], with random bytes [c], that nothing disturbs. *)
Definition jwt_env (t : time) (c : byte) : env TokensMemory.Store Z :=
  mkEnv (fun _ => None) (fun _ => t) (fun _ => Ok (replicate 32 c)) (fun _ => 501)
    (fun _ _ => Ok (Some sample_key)) (fun _ => sample_keys) (fun _ => 3) jwt_answers
    (fun _ s => s) (fun _ c => c) (fun _ c => c) (fun _ => []).

Definition jwt_world : world TokensMemory.Store :=
  mkWorld TokensMemory.NewWithClock new_families
    (Follower.mkFollower "epochs" (RestoreCursor 0) 0 false time_zero (Lru.newLRU 100)) (Http.mkResponse [] ∅) [] 0.

Definition jwt_t0 : time := now0 + 4 * Second.

Definition jwt_started : world TokensMemory.Store * res unit :=
  Start toy_String jwt_backend session0 (str_bytes "{ }") (jwt_env jwt_t0 "s"%byte) jwt_world.

(** The value of the [i]-th cookie of a response. *)
Definition cookie_value (i : nat) (o : Http.Response) : string :=
  default "" (Http.Value <$> Http.SetCookies o !! i).

Definition access0 : string := cookie_value 0 (out jwt_started.1).

Definition refresh0 : string := cookie_value 1 (out jwt_started.1).

Definition jwt_request (access refresh : string) : Http.Request :=
  Http.mkRequest [] [(if bool_decide (access = "") then "" else "__Host-access_token=" +:+ access +:+ "; ")
    +:+ "__Host-refresh_token=" +:+ refresh] [] ["curl"].

Definition jwt_resume (access refresh : string) (t : time) (c : byte) (w : world TokensMemory.Store) :=
  Resume toy_String toy_Parse jwt_backend (jwt_request access refresh) acme (jwt_env t c) w.

Example jwt_started_ok : okb jwt_started.2 = true /\
  okb (jwt_resume access0 refresh0 (jwt_t0 + Minute) "r"%byte jwt_started.1).2 = true /\
  okb (jwt_resume "" refresh0 (jwt_t0 + Minute) "r"%byte jwt_started.1).2 = true /\
  okb (jwt_resume access0 refresh0 (jwt_t0 + 20 * Minute) "r"%byte jwt_started.1).2 = true.
Proof. split_and!; vm_compute; reflexivity. Qed.

(** ** Properties *)

Lemma jwt_tidy : tidy (families jwt_started.1).
Proof. assert (families jwt_started.1 = new_families) as -> by (vm_compute; reflexivity). exists []. apply new_families_sound. Qed.

Lemma jwt_env_tidy t c : tidy_env (jwt_env t c).
Proof. by intros n f. Qed.

(** C20: A request is authenticated by the JWT backend only with a live session of its own tenant.
    Whatever other requests do in between, when Resume succeeds the request presents its credential on
    one transport and either its access token verifies for the resolved tenant, has not expired, is
    sealed for that transport, its session is before the end of its life, its family live in the cache
    or in the store and its epoch current, and nothing is written; or its refresh token names a record
    of the resolved tenant the store gave, whose sealed attributes unseal and agree with it and with the
    expired access token presented beside it, the Authority vouches for the account again, and the
    store accepted the next record in place of the presented one, or told that the same client was
    there first, in which case the family and the epoch were checked too and nothing is written. *)
Theorem jwt_resume_is_gated {S A} `{TokensStore S, Epochs.EpochSource A, Crypto} uuid_String uuid_Parse b r tenant
    (e : env S A) (w w' : world S) x :
  tidy (families w) -> tidy_env e -> Resume uuid_String uuid_Parse b r tenant e w = (w', Ok x) ->
  let p := read (cookies b) r in
  ambiguous p = false /\ Tenant (a_subject (r_attrs x)) = tenant /\
  ((out w' = out w /\ resumed_from uuid_String uuid_Parse e w b p tenant x) \/
   (refresh p <> "" /\ exists prior w1, prior_of uuid_String uuid_Parse e w b p tenant prior w1 /\
      renewed_from uuid_String e w1 b r p prior tenant w' x)).
Proof.
  intros Ht He Hx p. destruct (Resume_Ok _ _ b r tenant e w w' x Ht He Hx) as [Ha Hc].
  split; [exact Ha|]. split; [|exact Hc].
  destruct Hc as [[_ (tok & _ & Htn & _ & -> & _)]|(_ & prior & w1 & _ & l & evs & a & c & o & w2 & w3 & _ & Htn & _ & _ & _ & Hr & _ & _ & _ & Hend)];
    [exact Htn|].
  apply Renew_subject in Hr. destruct Hend as [(rot & _ & ->)|(err & w4 & _ & _ & _ & _ & -> & _)]; cbn; congruence.
Qed.

Lemma jwt_resume_is_gated_witness :
  exists w' x, jwt_resume access0 refresh0 (jwt_t0 + 20 * Minute) "r"%byte jwt_started.1 = (w', Ok x) /\
    Tenant (a_subject (r_attrs x)) = acme.
Proof.
  destruct (okb_pair (jwt_resume access0 refresh0 (jwt_t0 + 20 * Minute) "r"%byte jwt_started.1)) as (w' & x & E);
    [vm_compute; reflexivity|]. exists w', x. split; [exact E|].
  destruct (jwt_resume_is_gated toy_String toy_Parse jwt_backend (jwt_request access0 refresh0) acme
    (jwt_env (jwt_t0 + 20 * Minute) "r"%byte) jwt_started.1 w' x) as (_ & Ht & _);
    [apply jwt_tidy|apply jwt_env_tidy|exact E|exact Ht].
Defined.

(** A refused request of the JWT backend leaks no credential.  When Resume, Start or Reissue
    fails, at whatever point, nothing has been added to the response: a session's two cookies are
    written together or not at all, since a pair that was prepared is accepted by the cookie layer in
    full or refused at the first. *)
Theorem jwt_refused_request_writes_nothing {S A} `{TokensStore S, Epochs.EpochSource A, Crypto} uuid_String uuid_Parse b
    (e : env S A) (w w' : world S) err :
  full_reads e ->
  (exists r tenant, Resume uuid_String uuid_Parse b r tenant e w = (w', Err err)) \/
  (exists a c, tenant_wf (Tenant (a_subject a)) /\ Start uuid_String b a c e w = (w', Err err)) \/
  (exists cur a, tenant_wf (Tenant (a_subject a)) /\ Reissue_ uuid_String b cur a e w = (w', Err err)) ->
  out w' = out w.
Proof.
  intros Hr [(r & t & Hx)|[(a & c & Ht & Hx)|(cur & a & Ht & Hx)]].
  - by eapply Resume_clean in Hx.
  - by eapply Start_clean in Hx.
  - by eapply Reissue_clean in Hx.
Qed.

Lemma jwt_full_reads t c : full_reads (jwt_env t c).
Proof. by intros n h [= <-]. Qed.

Lemma jwt_refused_request_writes_nothing_witness :
  out (Resume toy_String toy_Parse jwt_backend (jwt_request access0 refresh0) zero_TenantID (jwt_env jwt_t0 "r"%byte) jwt_started.1).1
  = out jwt_started.1 /\ length (Http.SetCookies (out jwt_started.1)) = 2%nat.
Proof.
  split; [|vm_compute; reflexivity].
  eapply (jwt_refused_request_writes_nothing toy_String toy_Parse jwt_backend (jwt_env jwt_t0 "r"%byte) jwt_started.1 _ XErrTenantMismatch);
    [apply jwt_full_reads|]. left. exists (jwt_request access0 refresh0), zero_TenantID. vm_compute. reflexivity.
Defined.

(** A forgotten family stays out of the cache: in every run of the cache beside its store, once the
    store gives only revoked states for the family after the last time the family was forgotten, no
    cached state lets it pass, whatever lookups were under way when it was forgotten. *)
Lemma forgotten_family_stays_out (initial : Families.familyKey -> option Tokens.FamilyState) s t fam :
  LruFacts.reachable initial s -> bumps s < two64 ->
  (forall q fs, (floor s (t, fam) <= q <= length (log s))%nat -> value_at initial (log s) (t, fam) q = Some fs ->
     Tokens.Revoked fs = true) ->
  no_stale (cache s) t fam.
Proof.
  intros Hr Hb Hv xs fs now Hs Hc. destruct (follower_reachable_inv initial s Hr Hb) as [ys Hi].
  pose proof (in_rep _ _ _ Hi) as Hrep. unfold cached in Hc. destruct (Follower.freshLocked _ _); [|done].
  assert (find (t, fam) ys = Some fs) as Hf by (rewrite <- Hc; symmetry; apply (find_unique (Follower.entries (cache s))); [apply Hs|exact Hrep]).
  pose proof Hrep as (ls & _ & Hnd & _). apply (find_Some ys (t, fam) fs Hnd) in Hf as [i Hx].
  apply list_elem_of_lookup_2 in Hx.
  destruct (in_entries _ _ _ Hi _ _ Hx) as (q & Hval & Hq & _ & _ & Hfl). by apply (Hv q fs).
Qed.

(** Other requests are runs of the store's operations that do not found the family again; what they
    leave in the cache passes no state of it from before its end, as [forgotten_family_stays_out]
    shows of any run of the cache. *)
Definition never_founds {A} `{Crypto} str (t : TenantID) (fam : uuid) (e : env TokensMemory.Store A) : Prop :=
  forall n, (forall s, store_inv s -> exists os, run str s os (others e n s) /\ Forall (fun o => founds t fam o = false) os) /\
            (forall f, no_stale f t fam -> no_stale (families_then e n f) t fam).

Lemma never_founds_facts {A} `{Crypto} str order korder t fam (e : env TokensMemory.Store A) : never_founds str t fam e ->
  @fair _ _ _ (memory_token_laws str order korder) _ e /\ @lets_rest _ _ _ (memory_token_laws str order korder) _ e t fam.
Proof.
  intros He. split.
  - intros n s Hi. destruct (He n) as [Hs _]. destruct (Hs s Hi) as (os & Hr & _). by eapply token_run_inv.
  - intros n. destruct (He n) as [Hs Hf]. split; [|exact Hf]. intros s Hi Hd. destruct (Hs s Hi) as (os & Hr & Ho).
    by eapply run_dead.
Qed.

(** C18: A session the JWT backend ended stays ended.  Once End has succeeded for a request that names
    a family, by its refresh token or by its access token alone, expired or not, no later request is
    let through on that family, with any token of it, and no handle on it is live, in a store and a cache that
    other requests left well formed.  These may run during End, in between and during the later request, and a rotation of
    that family may be under way: they run any operations of the store but one that founds a family with the same id anew, and
    leave in the cache no state of the family from before its end. *)
Theorem jwt_ended_session_stays_ended {A} `{Epochs.EpochSource A, Crypto} uuid_String uuid_Parse str order korder
    b r tenant fam (e e2 : env TokensMemory.Store A) (w w1 w2 : world TokensMemory.Store) os :
  store_inv (toks w) -> tidy (families w) -> tidy_env e -> tidy_env e2 ->
  never_founds str tenant fam e -> never_founds str tenant fam e2 ->
  @names _ _ (memory_tokens str order korder) _ uuid_String uuid_Parse e w b (read (cookies b) r) tenant fam ->
  @End_ _ _ (memory_tokens str order korder) _ uuid_String uuid_Parse b r tenant e w = (w1, Ok tt) ->
  store_inv (toks w1) -> run str (toks w1) os (toks w2) -> Forall (fun o => founds tenant fam o = false) os ->
  tidy (families w2) -> (no_stale (families w1) tenant fam -> no_stale (families w2) tenant fam) ->
  (forall r2 w3 x, @Resume _ _ (memory_tokens str order korder) _ _ uuid_String uuid_Parse b r2 tenant e2 w2 = (w3, Ok x) ->
     h_id (r_handle x) <> fam) /\
  (forall hd, h_id hd = fam -> Tenant (h_subject hd) = tenant ->
     exists err, (@Live _ _ (memory_tokens str order korder) _ hd e2 w2).2 = Err err).
Proof.
  intros Hi Ht He He2 Hn Hn2 Hnames Hend Hi1 Hrun Hos Ht2 Hcache.
  destruct (never_founds_facts str order korder tenant fam e Hn) as [Hf _].
  destruct (never_founds_facts str order korder tenant fam e2 Hn2) as [Hf2 Hl2].
  destruct (@End_dead _ _ _ (memory_token_laws str order korder) _ uuid_String uuid_Parse b r tenant fam e w w1
    Hi Hf Ht He Hnames Hend) as [Hd Hns].
  assert (store_inv (toks w2)) as Hi2 by (by eapply token_run_inv).
  assert (family_dead (toks w2) tenant fam) as Hd2 by (by eapply run_dead, Hd).
  split.
  - intros r2 w3 x Hx. eapply (@Resume_dead _ _ _ (memory_token_laws str order korder)); eauto.
  - intros hd <- <-. eapply (@Live_dead _ _ _ (memory_token_laws str order korder)); eauto.
Qed.

Lemma jwt_started_inv : store_inv (toks jwt_started.1).
Proof.
  destruct (jwt_Start_Ok toy_String jwt_backend session0 (str_bytes "{ }") (jwt_env jwt_t0 "s"%byte) jwt_world jwt_started.1)
    as (claims & o & w1 & w2 & _ & _ & _ & Hc & _); [vm_compute; reflexivity|].
  pose proof (token_Create_evolves None (o_record o) TokensMemory.NewWithClock token_empty_inv) as He.
  assert ((TokensMemory.Create None (o_record o) TokensMemory.NewWithClock).1 = toks jwt_started.1) as Ec
    by exact (f_equal fst Hc). rewrite Ec in He. exact (ev_inv _ _ He).
Qed.

Lemma jwt_never_founds fam t c : never_founds toy_String acme fam (jwt_env t c).
Proof. intros n. split; [|done]. intros s _. exists []. split; [constructor|constructor]. Qed.

Definition jwt_ended : world TokensMemory.Store * res unit :=
  End_ toy_String toy_Parse jwt_backend (jwt_request "" refresh0) acme (jwt_env (jwt_t0 + Minute) "r"%byte) jwt_started.1.

Lemma jwt_ended_inv : store_inv (toks jwt_ended.1).
Proof.
  assert (toks jwt_ended.1 = (TokensMemory.RevokeFamily None (jwt_t0 + Minute) acme 501 (toks jwt_started.1)).1) as ->
    by (vm_compute; reflexivity).
  unfold TokensMemory.RevokeFamily. rewrite revoke_spec by apply jwt_started_inv.
  apply (evolves_revoked (acme, 501) (store_now (jwt_t0 + Minute)) _ jwt_started_inv). vm_compute. reflexivity.
Qed.

Lemma jwt_loads : exists l, loads (jwt_env (jwt_t0 + Minute) "r"%byte) (calls jwt_started.1) (toks jwt_started.1) refresh0 acme l /\
  Tokens.family (l_rec l) = 501.
Proof.
  destruct (okb_pair (load refresh0 (jwt_env (jwt_t0 + Minute) "r"%byte) jwt_started.1)) as (w' & l & E); [vm_compute; reflexivity|].
  pose proof E as (t & Hl & _)%jwt_load_Ok.
  assert (parseRefresh refresh0 = Ok (acme, toy_digest (replicate 32 "s"%byte))) as Hp by (vm_compute; reflexivity).
  pose proof (ld_parse _ _ _ _ _ _ Hl) as Hp'. rewrite Hp in Hp'. injection Hp' as <- _.
  exists l. split; [exact Hl|].
  assert ((match (load refresh0 (jwt_env (jwt_t0 + Minute) "r"%byte) jwt_started.1).2 with Ok l => Tokens.family (l_rec l) | Err _ => 0 end) = 501)
    as Hf by (vm_compute; reflexivity). rewrite E in Hf. exact Hf.
Qed.

Lemma jwt_ended_session_stays_ended_witness :
  okb jwt_ended.2 = true /\
  forall w3 x, jwt_resume access0 refresh0 (jwt_t0 + 2 * Minute) "q"%byte jwt_ended.1 = (w3, Ok x) -> h_id (r_handle x) <> 501.
Proof.
  split; [vm_compute; reflexivity|].
  destruct (jwt_ended_session_stays_ended toy_String toy_Parse toy_String family_order key_order jwt_backend
    (jwt_request "" refresh0) acme 501 (jwt_env (jwt_t0 + Minute) "r"%byte) (jwt_env (jwt_t0 + 2 * Minute) "q"%byte)
    jwt_started.1 jwt_ended.1 jwt_ended.1 []) as [Hr _].
  - exact jwt_started_inv.
  - exact jwt_tidy.
  - apply jwt_env_tidy.
  - apply jwt_env_tidy.
  - apply jwt_never_founds.
  - apply jwt_never_founds.
  - left. destruct jwt_loads as (l & Hl & Hf).
    assert (refresh (read (cookies jwt_backend) (jwt_request "" refresh0)) = refresh0) as Er by (vm_compute; reflexivity).
    rewrite Er. split; [vm_compute; discriminate|]. exists l. split; [exact Hl|exact Hf].
  - vm_compute. reflexivity.
  - exact jwt_ended_inv.
  - constructor.
  - constructor.
  - destruct (forget_tidy acme 501 new_families) as (f' & Ef & Ht); [exists []; apply new_families_sound|].
    assert (Families.Forget acme 501 new_families = Ok (families jwt_ended.1)) as E2 by (vm_compute; reflexivity).
    assert (families jwt_ended.1 = f') as -> by congruence. exact Ht.
  - intros Hn. exact Hn.
  - exact (Hr (jwt_request access0 refresh0)).
Defined.

(** C25: A refresh token is exchanged once.  When a request that presented a refresh token was given a
    new credential, no later request that presents the same token is given another, with or without an
    access token, whether it is let through or not and whatever other requests do in between, as long
    as the token's digest is not issued anew. *)
Theorem refresh_token_is_exchanged_once {A} `{Epochs.EpochSource A, Crypto} uuid_String uuid_Parse str order korder
    b r r2 tenant tenant2 t h (e e2 : env TokensMemory.Store A) (w w1 w2 : world TokensMemory.Store) x os :
  store_inv (toks w) -> tidy (families w) -> tidy_env e -> tidy_env e2 -> full_reads e2 ->
  (forall n s, store_inv s -> store_inv (others e n s)) ->
  (forall n s, store_inv s -> exists os, run str s os (others e2 n s) /\ Forall (fun o => issues h o = false) os) ->
  (forall n, 0 < store_now (clock e n)) ->
  parseRefresh (refresh (read (cookies b) r)) = Ok (t, h) ->
  refresh (read (cookies b) r2) = refresh (read (cookies b) r) ->
  @Resume _ _ (memory_tokens str order korder) _ _ uuid_String uuid_Parse b r tenant e w = (w1, Ok x) ->
  out w1 <> out w -> store_inv (toks w1) ->
  run str (toks w1) os (toks w2) -> Forall (fun o => issues h o = false) os -> tidy (families w2) ->
  out (@Resume _ _ (memory_tokens str order korder) _ _ uuid_String uuid_Parse b r2 tenant2 e2 w2).1 = out w2.
Proof.
  intros Hi Ht He He2 Hfr Hf Hf2 Hclk Hp Hsame Hx Hout Hi1 Hrun Hos Ht2.
  pose proof (@Resume_spends _ _ _ (memory_token_laws str order korder) _ _ uuid_String uuid_Parse b r tenant e w w1 x t h
    Hi Hf Ht He Hclk Hx Hout Hp) as Hs.
  apply (@Resume_spent _ _ _ (memory_token_laws str order korder) _ _ uuid_String uuid_Parse b r2 tenant2 h e2 w2).
  - by eapply token_run_inv.
  - intros n s Hs'. destruct (Hf2 n s Hs') as (os' & Hr & _). by eapply token_run_inv.
  - done.
  - done.
  - done.
  - intros n s Hs' Hsp. destruct (Hf2 n s Hs') as (os' & Hr & Ho). by eapply token_run_spent.
  - by eapply token_run_spent, Hs.
  - intros t' k Hk. rewrite Hsame, Hp in Hk. congruence.
Qed.

Definition jwt_renewed : world TokensMemory.Store * res Resumed := jwt_resume "" refresh0 (jwt_t0 + Minute) "r"%byte jwt_started.1.

Lemma jwt_renewed_inv : store_inv (toks jwt_renewed.1) /\ tidy (families jwt_renewed.1).
Proof.
  split.
  - destruct (okb_pair jwt_renewed) as (w' & x & E); [vm_compute; reflexivity|].
    assert (out w' <> out jwt_started.1) as Ho.
    { assert (Http.SetCookies (out jwt_renewed.1) <> Http.SetCookies (out jwt_started.1)) as Hc by (vm_compute; discriminate).
      rewrite E in Hc. cbn in Hc. congruence. }
    pose proof E as Er. unfold jwt_renewed, jwt_resume in Er.
    destruct (@Resume_rotates _ _ _ jwt_laws _ _ toy_String toy_Parse jwt_backend (jwt_request "" refresh0) acme (jwt_env (jwt_t0 + Minute) "r"%byte)
      jwt_started.1 w' x jwt_started_inv (fun n s Hs => Hs) jwt_tidy (jwt_env_tidy _ _) Er Ho) as (n & m & req & rot & Hc & _).
    rewrite E. cbn [fst]. apply (f_equal fst) in Hc. cbn [fst] in Hc. rewrite <- Hc.
    apply Consume_evolves; [exact jwt_started_inv|by vm_compute|by vm_compute].
  - assert (families jwt_renewed.1 = new_families) as -> by (vm_compute; reflexivity). exists []. apply new_families_sound.
Qed.

Lemma refresh_token_is_exchanged_once_witness :
  okb jwt_renewed.2 = true /\
  out (jwt_resume access0 refresh0 (jwt_t0 + 20 * Minute) "q"%byte jwt_renewed.1).1 = out jwt_renewed.1.
Proof.
  split; [vm_compute; reflexivity|]. destruct (okb_pair jwt_renewed) as (w1 & x & E); [vm_compute; reflexivity|].
  assert (jwt_renewed.1 = w1) as E1 by (rewrite E; reflexivity).
  rewrite E1. destruct jwt_renewed_inv as [Hi Ht]. rewrite E1 in Hi, Ht. unfold jwt_resume, jwt_store.
  apply (refresh_token_is_exchanged_once toy_String toy_Parse toy_String family_order key_order jwt_backend
    (jwt_request "" refresh0) (jwt_request access0 refresh0) acme acme acme (toy_digest (replicate 32 "s"%byte))
    (jwt_env (jwt_t0 + Minute) "r"%byte) (jwt_env (jwt_t0 + 20 * Minute) "q"%byte) jwt_started.1 w1 w1 x []).
  - exact jwt_started_inv.
  - exact jwt_tidy.
  - apply jwt_env_tidy.
  - apply jwt_env_tidy.
  - apply jwt_full_reads.
  - intros n s Hs. exact Hs.
  - intros n s Hs. exists []. split; constructor.
  - intros n. vm_compute. reflexivity.
  - vm_compute. reflexivity.
  - vm_compute. reflexivity.
  - unfold jwt_renewed, jwt_resume in E. exact E.
  - assert (Http.SetCookies (out jwt_renewed.1) <> Http.SetCookies (out jwt_started.1)) as Hc by (vm_compute; discriminate).
    rewrite E1 in Hc. congruence.
  - exact Hi.
  - constructor.
  - constructor.
  - exact Ht.
Defined.

(** A JWT session resumes as it was started.  When Start succeeds for a session the response
    carries an access and a refresh token; a later request that presents the access token on the sealed
    transport, up to three seconds before the next check is due or the session's life ends, at the
    current epoch and undisturbed, with a key manager that still serves the key the token was signed
    with, is let through with the very attributes, the compacted claims and the family the session was
    started with. *)
Theorem jwt_started_session_resumes {S A} `{TokensLaws S, Epochs.EpochSource A, CryptoLaws}
    uuid_String uuid_Parse `{!UUIDLaws uuid_String uuid_Parse} b a c (e : env S A) (w w1 : world S) :
  session a -> JwtStoreFacts.inv (toks w) -> fair e -> readable b (Tenant (a_subject a)) -> uuid_ok (fresh e (calls w)) ->
  RecheckEvery (life b) < two63 ->
  Start uuid_String b a c e w = (w1, Ok tt) ->
  let t0 := clock e (1 + calls w) in let fam := fresh e (calls w) in
  unix_epoch + Second <= t0 -> t0 + RecheckEvery (life b) <= Unix_time maxUnixSeconds ->
  exists acc ref cl, CompactClaims c = Ok cl /\ delivers b a acc ref (out w) (out w1) /\
    forall r (e2 : env S A) (w2 : world S) t xs, toks w2 = toks w1 -> steady e2 t -> keys_agree e e2 ->
      let p := read (cookies b) r in
      access p = acc -> acc <> "" -> Z.of_nat (length (str_bytes acc)) <= MaxTokenLen ->
      transport p = a_transport a -> ambiguous p = false ->
      t0 <= t -> t + 3 * Second <= t0 + RecheckEvery (life b) -> t + 3 * Second <= absoluteEnd b a ->
      sound (families w2) xs -> cached (families w2) xs t (Tenant (a_subject a), fam) = None ->
      epoch_current e2 w2 a ->
      exists w', Resume uuid_String uuid_Parse b r (Tenant (a_subject a)) e2 w2 = (w', Ok (session_of a cl fam)).
Proof.
  intros Ha%session_wf Hi Hf Hread Hu Hr Hs t0 fam Hep Hmax.
  apply jwt_Start_Ok in Hs as (cl & o & w0 & w3 & Hcl & Hp & Hn & Hc & _ & _ & Hd).
  exists (o_access o), (o_refresh o), cl. split; [done|]. split; [done|].
  intros r e2 w2 t xs Htoks Hst Hk p Hacc Hne Hlen Htr Hamb Ht0 Ht1 Ht2 Hsound Hcached Hepoch.
  destruct (prepared_verifies uuid_String uuid_Parse b _ o e e2 w0 w3 t (calls w2) Hp) as (Hv & Hfam & Hat & Hcl2); try done.
  cbn [i_attrs i_family i_claims] in *. destruct (CompactClaims_facts c cl Hcl) as (Hcl3 & _).
  assert (claims (o_token o) = cl) as Ecl by congruence.
  pose proof Hp as (l & h & hash & s & _ & _ & _ & Hrec & _)%prepare_Ok. cbn [i_attrs i_family i_claims i_fp i_now] in Hrec.
  apply NewRefreshRecord_Ok in Hrec as (Hz1 & Hz2 & Hz3 & Hz4 & _ & sealed & _ & Erec). cbn in Hz1, Hz2, Hz3, Hz4, Erec.
  apply Create_state in Hc; [|by apply Hf]. rewrite Erec in Hc.
  cbn [Tokens.family Tokens.subject Tokens.lineage Tokens.familyExpiresAt] in Hc. unfold Tokens.RefreshRecord_Tenant in Hc.
  cbn [Tokens.subject] in Hc.
  rewrite <- Hacc in Hv. destruct (Resume_fresh uuid_String uuid_Parse b r (Tenant (a_subject a)) (o_token o) t
    (Tokens.mkFamilyState (a_subject a) (a_lineage a) false
       (Z.max 0 (time_Truncate (a_createdAt a + MaxLifetime (life b)) Microsecond)))
    xs e2 w2 Hst ltac:(by fold p; rewrite Hacc) Hamb ltac:(by rewrite Hat) Hv) as [w' Hx]; rewrite ?Hat, ?Hfam; try done.
  - unfold Second in *. lia.
  - rewrite Htoks. exact Hc.
  - cbn [Tokens.fs_ExpiresAt]. unfold absoluteEnd, time_Add in Ht2.
    pose proof (time_Truncate_near (a_createdAt a + MaxLifetime (life b)) Microsecond ltac:(done)). unfold Microsecond, Second in *. lia.
  - exists w'. by rewrite Hx, Hat, Hfam, Ecl.
Qed.

Lemma jwt_keys_agree t c t2 c2 : keys_agree (jwt_env t c) (jwt_env t2 c2).
Proof.
  intros n ten s [= <-]. exists sample_key. split; [done|]. split; [apply sample_paired|]. by vm_compute.
Qed.

Lemma jwt_started_session_resumes_witness :
  exists w', jwt_resume access0 refresh0 (jwt_t0 + Minute) "q"%byte jwt_started.1
             = (w', Ok (session_of session0 (str_bytes "{}") 501)).
Proof.
  destruct (jwt_started_session_resumes toy_String toy_Parse jwt_backend session0 (str_bytes "{ }")
    (jwt_env jwt_t0 "s"%byte) jwt_world jwt_started.1) as (acc & ref & cl & Hcl & Hd & Hgo).
  - exact session0_session.
  - exact token_empty_inv.
  - intros n s Hs. exact Hs.
  - split; [by vm_compute|]. intros iss Hi.
    assert (iss = "https://acme.example.com") as -> by (vm_compute in Hi; congruence). split; [vm_compute; reflexivity|discriminate].
  - by vm_compute.
  - by vm_compute.
  - vm_compute. reflexivity.
  - by vm_compute.
  - by vm_compute.
  - assert (CompactClaims (str_bytes "{ }") = Ok (str_bytes "{}")) as Hcc by (vm_compute; reflexivity).
    assert (cl = str_bytes "{}") as -> by congruence. clear Hcl Hcc.
    assert (acc = access0) as ->.
    { destruct Hd as [(_ & ca & cr & Hc & _ & Hv & _)|[Hb _]]; [|by vm_compute in Hb].
      unfold access0, cookie_value. rewrite Hc. change (Http.SetCookies (out jwt_world)) with (@nil Http.Cookie). by rewrite <- Hv. }
    unfold jwt_resume. apply (Hgo (jwt_request access0 refresh0) (jwt_env (jwt_t0 + Minute) "q"%byte) jwt_started.1 (jwt_t0 + Minute) []).
    + reflexivity.
    + intros n. done.
    + apply jwt_keys_agree.
    + vm_compute. reflexivity.
    + vm_compute. discriminate.
    + by vm_compute.
    + vm_compute. reflexivity.
    + vm_compute. reflexivity.
    + by vm_compute.
    + by vm_compute.
    + by vm_compute.
    + assert (families jwt_started.1 = new_families) as -> by (vm_compute; reflexivity). apply new_families_sound.
    + assert (families jwt_started.1 = new_families) as -> by (vm_compute; reflexivity). vm_compute. reflexivity.
    + intros w3 Hc He. unfold epoch_passes. rewrite He, Hc. eexists _, _. vm_compute. reflexivity.
Defined.
