(* ===== verification/GateProperties.v ===== *)
(** What the gates let through: the cross-site check, the request gate of the auth endpoints over the closed
    registry, the routes of an application, API keys and the facades. *)
From S2P Require Import Prelude Errors Tenant Factor Attrs GoText JsonText Cookie Redirect Renewal Program StoreBase.
From S2P Require Import TokenRecord TokenStore IdentityRecord KeyStore Limiter Csrf ClientAddr Httpx Routes Gate AppGate.
Import Session.

(** ** The cross-site check *)
Section csrf.
Context `{NetURL}.
Import Csrf Wire.

(** The single Origin, or without one the origin of the single Referer. *)
Definition claimed_origin (r : Wire.Request) (o : bytes) : Prop :=
  (exists v, Origin r = [v] /\ o = asciiLower (TrimSpace (str_bytes v))) \/
  (Origin r = [] /\ exists v u, Referer r = [v] /\ Url.Parse (TrimSpace (str_bytes v)) = Some u /\ Url.User u = false /\
    o = asciiLower (Url.Scheme u ++ str_bytes "://" ++ Url.Host u)).

(** What a browser says of where the request comes from does not contradict it. *)
Definition fetch_agrees (r : Wire.Request) (p : Policy) : Prop :=
  SecFetchSite r = [] \/
  exists v, SecFetchSite r = [v] /\
    let site := TrimSpace (str_bytes v) in
    EqualFold site "same-origin" = true \/ EqualFold site "none" = true \/
    EqualFold site "same-site" = true /\ exists o, Origin r = [o] /\ asciiLower (TrimSpace (str_bytes o)) ∈ pSameSite p.

(** Positive evidence that a request comes from a trusted origin. *)
Definition same_origin (r : Wire.Request) (p : Policy) : Prop :=
  (exists o, claimed_origin r o /\ o <> [] /\ o ∈ pOrigins p) /\ fetch_agrees r p.

Lemma contains_In l o : contains l o = true -> o <> [] /\ o ∈ l.
Proof.
  unfold contains. rewrite existsb_exists. intros (t & Hin & Hb). bools. apply list_elem_of_In in Hin. by subst.
Qed.

Lemma single_one vs v : single vs = (v, 1%nat) -> exists x, vs = [x] /\ v = TrimSpace (str_bytes x).
Proof. destruct vs as [|x [|y l]]; simpl; intros H'; simplify_eq. by exists x. Qed.

Lemma single_zero vs : (single vs).2 = 0%nat -> vs = [].
Proof. destruct vs as [|x [|y l]]; done. Qed.

Lemma single_count vs : (single vs).2 = length vs.
Proof. destruct vs as [|x [|y l]]; done. Qed.

Lemma fetchSite_None r p : fetchSite r (pSameSite p) = None -> fetch_agrees r p.
Proof.
  unfold fetchSite, fetch_agrees. destruct (single (SecFetchSite r)) as [site n] eqn:Hs.
  destruct (Nat.eqb n 0) eqn:H0.
  { intros _. left. apply single_zero. rewrite Hs. by apply Nat.eqb_eq. }
  destruct (Nat.ltb 1 n) eqn:H1; [done|]. apply Nat.eqb_neq in H0. apply Nat.ltb_ge in H1. assert (n = 1%nat) as -> by lia.
  apply single_one in Hs as (x & Hx & ->). intros Hf. right. exists x. split; [done|]. simpl.
  destruct (EqualFold _ "same-origin") eqn:He1; [auto|]. destruct (EqualFold _ "none") eqn:He2; [auto|]. simpl in Hf.
  destruct (EqualFold _ "same-site") eqn:He3; [|done]. right. right. split; [done|].
  destruct (single (Origin r)) as [o m] eqn:Ho. destruct (Nat.eqb m 1 && contains (pSameSite p) (asciiLower o)) eqn:Hc; [|done].
  bools. apply Nat.eqb_eq in H2 as ->. apply single_one in Ho as (y & Hy & ->). exists y. split; [done|]. by eapply contains_In.
Qed.

Lemma originMatch_None r l : originMatch r l = None -> exists o, claimed_origin r o /\ o <> [] /\ o ∈ l.
Proof.
  unfold originMatch, claimed_origin. destruct (single (Origin r)) as [o n] eqn:Ho.
  destruct (Nat.ltb 1 n) eqn:H1; [done|]. destruct (Nat.eqb n 1) eqn:H2.
  - apply Nat.eqb_eq in H2 as ->. destruct (_ || _) eqn:Hb; [done|]. intros _. bools.
    apply single_one in Ho as (x & Hx & ->). exists (asciiLower (TrimSpace (str_bytes x))). split; [left; by exists x|].
    by apply contains_In.
  - apply Nat.ltb_ge in H1. apply Nat.eqb_neq in H2. assert (n = 0%nat) as -> by lia.
    assert (Origin r = []) as Hnil by (apply single_zero; by rewrite Ho).
    destruct (single (Referer r)) as [ref m] eqn:Hr. destruct (negb (Nat.eqb m 1)) eqn:Hm; [done|].
    apply negb_false_iff, Nat.eqb_eq in Hm as ->. apply single_one in Hr as (x & Hx & ->).
    destruct (Url.Parse _) as [u|] eqn:Hp; [|done]. destruct (_ || _) eqn:Hb; [done|].
    destruct (negb (contains l _)) eqn:Hc; [done|]. intros _. apply negb_false_iff, contains_In in Hc. bools.
    eexists. split; [right; split; [done|]; exists x, u; split_and!; [done|done|done|reflexivity]|done].
Qed.

(** A request with an unsafe method passes only with evidence, or without cookie and with nothing to protect. *)
Lemma Check_None r p : Check r p = None -> safe (Method r) = false ->
  same_origin r p \/
  Cookie.Present (http r) = false /\ (BearerTransport p = true /\ bearerExempt r = true \/ SetsCookies p = false).
Proof.
  unfold Check. intros Hc Hs. rewrite Hs in Hc.
  destruct (negb (Cookie.Present (http r)) && _) eqn:Hx; [right|left].
  - apply andb_prop in Hx as [Hp%negb_true_iff Hx]. split; [done|]. apply orb_prop in Hx as [Hx|Hx]; [left|right].
    + by apply andb_prop in Hx.
    + by apply negb_true_iff.
  - destruct (fetchSite r (pSameSite p)) eqn:Hf; [done|]. split; [by apply originMatch_None|by apply fetchSite_None].
Qed.
End csrf.

(** ** The registry *)
Lemma registry_sound : forallb (fun path =>
  match Routes.MetaFor path with
  | None => false
  | Some m =>
      bool_decide (Meta.Validate m = None)
      && Bool.eqb (Meta.Mutation m) (bool_decide (Routes.Method path = "POST"))
      && (negb (Meta.Mutation m) || Meta.SetsCookies m || bool_decide (path ∈ [Routes.Refresh; Routes.Exchange]))
      && (negb (Meta.Authenticated m) || negb (bool_decide (path ∈ [Routes.Refresh; Routes.Exchange])))
  end) Routes.All = true.
Proof. vm_compute. reflexivity. Qed.

Lemma registered path m : Routes.MetaFor path = Some m -> path ∈ Routes.All.
Proof.
  unfold Routes.MetaFor, Routes.Method, Routes.among.
  destruct (decide (path ∈ Routes.getPaths)) as [Hg|Hg].
  - intros _. assert (forallb (fun p => bool_decide (p ∈ Routes.All)) Routes.getPaths = true) as Hall by (vm_compute; reflexivity).
    rewrite forallb_forall in Hall. apply list_elem_of_In in Hg. specialize (Hall _ Hg). by bools.
  - rewrite (bool_decide_eq_false_2 _ Hg). destruct (decide (path ∈ Routes.postPaths)) as [Hp|Hp].
    + intros _. assert (forallb (fun p => bool_decide (p ∈ Routes.All)) Routes.postPaths = true) as Hall by (vm_compute; reflexivity).
      rewrite forallb_forall in Hall. apply list_elem_of_In in Hp. specialize (Hall _ Hp). by bools.
    + by rewrite (bool_decide_eq_false_2 _ Hp).
Qed.

Lemma registry path m : Routes.MetaFor path = Some m ->
  Meta.Validate m = None /\ Meta.Mutation m = bool_decide (Routes.Method path = "POST") /\
  (Meta.Mutation m = true -> Meta.SetsCookies m = true \/ path ∈ [Routes.Refresh; Routes.Exchange]) /\
  (Meta.Authenticated m = true -> path ∉ [Routes.Refresh; Routes.Exchange]).
Proof.
  intros Hm. pose proof (registered path m Hm) as Hin. pose proof registry_sound as Hall.
  rewrite forallb_forall in Hall. apply list_elem_of_In in Hin. specialize (Hall _ Hin). rewrite Hm in Hall.
  apply andb_prop in Hall as [Hall H4]. apply andb_prop in Hall as [Hall H3]. apply andb_prop in Hall as [H1 H2].
  clear Hin Hm. split_and!; [by bools|by apply Bool.eqb_prop| |].
  - intros Hmut. rewrite Hmut in H3. apply orb_prop in H3 as [H3|H3]; [by left|right; by bools].
  - intros Ha. rewrite Ha in H4. by apply negb_true_iff, bool_decide_eq_false in H4.
Qed.

(** ** The request gate *)
Section gate.
Context {L B : Type} `{RateLimiter L, Authenticator B, NetURL}.
Context (sha256 : bytes -> bytes) (uuid_String : uuid -> string) (ParseMediaType : string -> option string).
Import Gate Meta.

Lemma step_Passed {A} (m : Program.M (@Gate.env L B) world (outcome unit)) (k : Program.M env world (outcome A)) e w w' a :
  step m k e w = (w', Passed a) -> exists w1, m e w = (w1, Passed tt) /\ k e w1 = (w', Passed a).
Proof. unfold step. prog. destruct (m e w) as [w1 [[]|?|?]]; intros; simplify_eq. by exists w1. Qed.

Lemma or_refuse_Passed {A T} f (m : Program.M (@Gate.env L B) world (res T)) (k : T -> Program.M env world (outcome A)) e w w' a :
  or_refuse f m k e w = (w', Passed a) -> exists w1 x, m e w = (w1, Ok x) /\ k x e w1 = (w', Passed a).
Proof. unfold or_refuse. prog. destruct (m e w) as [w1 [x|?]]; intros; simplify_eq. by exists w1, x. Qed.

(** The limiter was asked for a key and let it through. *)
Definition charged (e : @Gate.env L B) (k : Limiter.Key) : Prop :=
  exists n l l' d, lm_Allow (ctx e n) (clock e n) k l = (l', Ok d) /\ Limiter.Allowed d = true.

(** The backend resumed a session from a request. *)
Definition resumed_by (r : Http.Request) (t : TenantID) (x : Resumed) : Prop :=
  exists (b : B) o b' o', au_Resume r t b o = (b', o', Ok x).

Lemma charge_Passed k (e : @Gate.env L B) w w' u : charge k e w = (w', Passed u) -> charged e k.
Proof.
  unfold charge. intros (w1 & d & Ha & Hk)%or_refuse_Passed. unfold allow in Ha.
  destruct (lm_Allow _ _ _ _) as [l r] eqn:Hl. simplify_eq. exists (calls w), (buckets e (calls w) (lim w)), l, d. split; [done|].
  destruct (Limiter.Allowed d); [done|]. revert Hk. prog. done.
Qed.

Lemma limit_Passed g c req (e : @Gate.env L B) w w' u : limit sha256 g c req e w = (w', Passed u) ->
  ClientLimit (meta g) <> 0 -> charged e (Limiter.mkKey (ClientLimit (meta g)) zero_TenantID (bytes_str (ClientAddr.Key c))).
Proof.
  unfold limit. intros (w1 & Hc & _)%step_Passed Hn. destruct (ClientLimit (meta g) =? 0) eqn:Hz; [by bools|].
  by apply charge_Passed in Hc.
Qed.

Lemma authenticate_Passed g req bc (e : @Gate.env L B) w w' req' : authenticate g req bc e w = (w', Passed req') ->
  exists r, resumed_by (Httpx.http req) (Httpx.tenant req) r /\ req' = with_session req r /\
    SessionAttrs_IsZero (r_attrs r) = false /\ Subject_IsZero (a_subject (r_attrs r)) = false /\
    Tenant (a_subject (r_attrs r)) = Httpx.tenant req /\
    (bc = true -> a_transport (r_attrs r) = TransportBearer) /\
    (a_mustChange (r_attrs r) = true -> AcceptsMustChange (meta g) = true).
Proof.
  unfold authenticate. prog. destruct (resume _ _ e w) as [w1 [r|?]] eqn:Hr; [|done].
  destruct (_ || _ || _) eqn:Hz.
  { destruct (respond _ _ _). done. }
  destruct (bc && _) eqn:Hb.
  { destruct (respond _ _ _). done. }
  destruct (a_mustChange (r_attrs r) && _) eqn:Hm; [done|]. intros ?; simplify_eq. exists r.
  unfold resume in Hr. destruct (au_Resume _ _ _ _) as [[b o] x] eqn:Hau. simplify_eq. bools. split_and!; try done.
  - by eexists _, _, _, _.
  - intros ->. simpl in Hb. by bools.
  - intros Hmc. rewrite Hmc in Hm. simpl in Hm. by bools.
Qed.

Lemma sensitive_Passed g req (e : @Gate.env L B) w w' u : sensitive g req e w = (w', Passed u) ->
  exists r n required, Httpx.session req = Some r /\ enrolled e n (a_subject (r_attrs r)) = Ok required /\
    (required = true -> MultiFactor (r_attrs r) = true) /\
    (NoReauthWindow (set_insecure (set (g_p g))) = false ->
     exists m, FreshWithin (r_attrs r) (ReauthWindow (set (g_p g))) (clock e m) = true).
Proof.
  unfold sensitive. destruct (Httpx.session req) as [r|]; [|prog; done].
  intros (w1 & required & Hm & Hk)%or_refuse_Passed. unfold mfa_required in Hm. simplify_eq.
  exists r, (calls w), required. destruct (required && _) eqn:Hr; [prog; done|].
  split_and!; try done.
  - intros ->. simpl in Hr. by bools.
  - intros Hw. rewrite Hw in Hk. revert Hk. prog. destruct (now _ _) as [w2 t] eqn:Ht. unfold now in Ht. simplify_eq.
    destruct (FreshWithin _ _ _) eqn:Hf; [|done]. intros _. by eexists.
Qed.

Lemma finish_Passed g c req (e : @Gate.env L B) w w' req' : finish sha256 g c req e w = (w', Passed req') ->
  req' = req /\
  (Sensitive (meta g) = true -> exists w1 w2 u, sensitive g req e w1 = (w2, Passed u)) /\
  (forall h, hook e = Some h ->
    h (mkCall (endpoint g) (ClientAddr.c_addr c) (Httpx.tenant req) (Httpx.Field req "captcha_token")) = None).
Proof.
  unfold finish. intros (w1 & Hs & (w2 & _ & Hh)%step_Passed)%step_Passed.
  destruct (hook e) as [h|]; [destruct (h _) eqn:Hc; simplify_eq|simplify_eq].
  all: split_and!; try done.
  all: try (intros Hsen; rewrite Hsen in Hs; by eexists _, _, _).
  intros h' [= <-]. done.
Qed.

(** What the gates establish of the request an endpoint is called with. *)
Record admitted (g : gate) (hr : Wire.Request) (e : @Gate.env L B) (req : Httpx.Request) : Prop := {
  ad_tenant : Tenant_ (g_p g) (resolve e) hr = Ok (Httpx.tenant req);
  ad_http : Httpx.http req = Wire.http hr;
  ad_origin : originCheck g hr (policy g hr (Httpx.tenant req)) = None;
  ad_parsed : exists f j raw, Parse.parse ParseMediaType hr (meta g) = Ok (f, j, raw) /\ Httpx.fields req = f;
  ad_limit : NoRateLimit (set_insecure (set (g_p g))) = false -> ClientLimit (meta g) <> 0 ->
    exists clients c warn, Clients (set (g_p g)) = Some clients /\ ClientAddr.Resolve clients hr = Ok (c, warn) /\
      charged e (Limiter.mkKey (ClientLimit (meta g)) zero_TenantID (bytes_str (ClientAddr.Key c)));
  ad_transport : Authenticated (meta g) = false -> Httpx.transport req = requestedTransport g hr;
  ad_session : Authenticated (meta g) = true -> exists r, Httpx.session req = Some r /\
    resumed_by (Wire.http hr) (Httpx.tenant req) r /\ Httpx.transport req = a_transport (r_attrs r) /\
    Subject_IsZero (a_subject (r_attrs r)) = false /\ Tenant (a_subject (r_attrs r)) = Httpx.tenant req /\
    (requestedTransport g hr = TransportBearer -> Cookie.Present (Wire.http hr) = false -> a_transport (r_attrs r) = TransportBearer) /\
    (a_mustChange (r_attrs r) = true -> AcceptsMustChange (meta g) = true);
  ad_sensitive : Sensitive (meta g) = true -> exists r n required, Httpx.session req = Some r /\
    enrolled e n (a_subject (r_attrs r)) = Ok required /\ (required = true -> MultiFactor (r_attrs r) = true) /\
    (NoReauthWindow (set_insecure (set (g_p g))) = false ->
     exists m, FreshWithin (r_attrs r) (ReauthWindow (set (g_p g))) (clock e m) = true) }.

Lemma run_Passed g hr (e : @Gate.env L B) w w' req :
  run sha256 uuid_String ParseMediaType g hr e w = (w', Passed req) -> admitted g hr e req.
Proof.
  unfold run. intros (w1 & tenant & Ht & (w2 & [[f j] raw] & Hp & Hk)%or_refuse_Passed)%or_refuse_Passed.
  simplify_eq. revert Hp. prog. intros Hp. simplify_eq.
  destruct (originCheck g hr _) eqn:Ho; [done|]. destruct (Clients _) as [clients|] eqn:Hcl; [|done].
  apply or_refuse_Passed in Hk as (w3 & c & Hc & (w4 & Hlim & Hk)%step_Passed).
  assert (exists warn, ClientAddr.Resolve clients hr = Ok (c, warn)) as [warn Hres].
  { unfold resolve_client in Hc. destruct (ClientAddr.Resolve clients hr) as [[c' wn]|]; simplify_eq. by eexists. }
  set (req0 := Httpx.mkRequest _ _ _ _ _ _ _) in *.
  assert (NoRateLimit (set_insecure (set (g_p g))) = false -> ClientLimit (meta g) <> 0 ->
    exists clients c warn, Clients (set (g_p g)) = Some clients /\ ClientAddr.Resolve clients hr = Ok (c, warn) /\
      charged e (Limiter.mkKey (ClientLimit (meta g)) zero_TenantID (bytes_str (ClientAddr.Key c)))) as Hlimit.
  { intros Hn Hz. exists clients, c, warn. rewrite Hn in Hlim. simpl in Hlim. split_and!; [done|done|]. by eapply limit_Passed. }
  destruct (Authenticated (meta g)) eqn:Hauth.
  - destruct (authenticate _ _ _ e w4) as [w5 [req1| |]] eqn:Ha; [|done|done].
    apply authenticate_Passed in Ha as (r & Hr & -> & Hz & Hsz & Htn & Hbc & Hmc).
    apply step_Passed in Hk as (w6 & _ & (-> & Hs & _)%finish_Passed).
    split; try done.
    + by exists f, j, raw.
    + congruence.
    + intros _. exists r. split_and!; try done. intros Hreq Hpr. apply Hbc. simpl. rewrite Hreq, Hpr. done.
    + intros (w7 & w8 & u & Hx)%Hs. apply sensitive_Passed in Hx as (r' & n & q & Hx1 & Hx2 & Hx3 & Hx4). simpl in Hx1.
      injection Hx1 as <-. by exists r, n, q.
  - apply finish_Passed in Hk as (-> & Hs & _). split; try done.
    + by exists f, j, raw.
    + congruence.
    + intros (w7 & w8 & u & Hx)%Hs. apply sensitive_Passed in Hx as (r' & n & q & Hx1 & Hx2 & Hx3 & Hx4). done.
Qed.

(** A change of state behind the gate of a registered endpoint comes from a trusted origin, or from a
    client that holds no cookie and takes none. *)
Lemma admitted_origin path m p hr e req : Routes.MetaFor path = Some m ->
  admitted (mkGate p path m) hr e req -> NoOriginCheck (set_insecure (set p)) = false -> Wire.Method hr = "POST" ->
  Routes.Method path = "POST" ->
  same_origin hr (policy (mkGate p path m) hr (Httpx.tenant req)) \/
  Cookie.Present (Wire.http hr) = false /\
    (Httpx.transport req = TransportBearer /\ Csrf.bearerExempt hr = true \/ path ∈ [Routes.Refresh; Routes.Exchange]).
Proof.
  intros Hm Had Hno Hpost Hmeth. pose proof (ad_origin _ _ _ _ Had) as Ho. unfold originCheck in Ho. simpl in Ho. rewrite Hno in Ho.
  destruct (Csrf.Check hr _) eqn:Hc; [done|]. apply Check_None in Hc; [|rewrite Hpost; reflexivity].
  destruct Hc as [Hc|[Hp Hc]]; [by left|right]. split; [done|].
  pose proof (registry path m Hm) as (_ & Hmut & Hset & _). rewrite Hmeth in Hmut.
  destruct Hc as [[Hb Hx]|Hs].
  - left. split; [|done]. simpl in Hb. bools. destruct (Authenticated m) eqn:Ha.
    + destruct (ad_session _ _ _ _ Had Ha) as (r & _ & _ & -> & _ & _ & Hbt & _). auto.
    + rewrite (ad_transport _ _ _ _ Had Ha). done.
  - right. simpl in Hs. destruct Hset as [Hset|?]; [done|congruence|done].
Qed.
End gate.

(** ** Cookies are seen *)
Lemma elem_of_rev {A} (x : A) (l : list A) : x ∈ List.rev l <-> x ∈ l.
Proof. rewrite !list_elem_of_In. symmetry. apply in_rev. Qed.

Lemma trim_front_keeps n spaces c : forall b, plain c -> Forall (fun w => c ∉ w) spaces -> c ∈ b -> c ∈ trim_front n spaces b.
Proof.
  induction n as [|n IH]; intros b Hp Hs Hin; [done|]. simpl. destruct (space_prefix spaces b) as [|k] eqn:Hk; [done|].
  apply IH; [done|done|]. rewrite <- (take_drop (S k) b) in Hin. apply elem_of_app in Hin as [Hin|Hin]; [|done]. exfalso.
  destruct b as [|d b]; [by rewrite take_nil in Hin|]. unfold space_prefix in Hk. destruct (ascii_space d) eqn:Hd.
  - injection Hk as <-. simpl in Hin. rewrite take_0 in Hin. apply list_elem_of_singleton in Hin as ->. destruct Hp. congruence.
  - destruct (List.find _ spaces) as [w|] eqn:Hf; [|done]. apply List.find_some in Hf as [Hw Ht]. bools.
    rewrite <- Hk, Ht in Hin. rewrite List.Forall_forall in Hs. by apply (Hs w).
Qed.

Lemma TrimSpace_keeps c b : plain c -> c ∈ b -> c ∈ TrimSpace b.
Proof.
  intros Hp Hin. assert (Forall (fun w => c ∉ w) wide_spaces) as Hw.
  { apply List.Forall_forall. intros w Hw Hc. destruct Hp as [_ Hlt]. cbn in Hw.
    repeat (destruct Hw as [<-|Hw]; [repeat (apply elem_of_cons in Hc as [->|Hc]; [cbn in Hlt; lia|]); by apply not_elem_of_nil in Hc|]).
    done. }
  unfold TrimSpace. rewrite elem_of_rev. apply trim_front_keeps; [done| |].
  - apply List.Forall_forall. intros w Hin'. apply in_map_iff in Hin' as (v & <- & Hv). rewrite elem_of_rev.
    rewrite List.Forall_forall in Hw. by apply Hw.
  - rewrite elem_of_rev. by apply trim_front_keeps.
Qed.

Lemma drop_while_sub f c b : c ∈ drop_while f b -> c ∈ b.
Proof. induction b as [|d b IH]; [done|]. simpl. destruct (f d); [intros; by apply list_elem_of_further, IH|done]. Qed.

Lemma TrimString_sub c b : c ∈ TrimString b -> c ∈ b.
Proof. unfold TrimString. rewrite elem_of_rev. intros Hc%drop_while_sub. rewrite elem_of_rev in Hc. by eapply drop_while_sub. Qed.

Lemma Cut_sub sep c b x y ok : Cut sep b = (x, y, ok) -> c ∈ x \/ c ∈ y -> c ∈ b.
Proof.
  revert x y ok. induction b as [|d b IH]; intros x y ok; simpl; [intros; simplify_eq; naive_solver|].
  destruct (bool_decide (d = sep)); [intros; simplify_eq; destruct_or!; [by apply not_elem_of_nil in H0|by apply list_elem_of_further]|].
  destruct (Cut sep b) as [[x' y'] ok'] eqn:Hc. intros ? Hin. simplify_eq. rewrite elem_of_cons in Hin |- *.
  destruct Hin as [[->|Hin]|Hin]; [by left|right|right]; eapply IH; eauto.
Qed.

Lemma parts_sub n c : forall line p, p ∈ Http.parts n line -> c ∈ p -> c ∈ line.
Proof.
  induction n as [|n IH]; intros line p; simpl; [by intros ?%not_elem_of_nil|].
  destruct line as [|d l]; [by intros ?%not_elem_of_nil|]. destruct (Cut ";"%byte (d :: l)) as [[x y] ok] eqn:Hc.
  rewrite elem_of_cons. intros [->|Hin] Hcp; eapply Cut_sub; eauto.
Qed.

Lemma token_plain c : Http.token_char c = true -> plain c.
Proof. intros Ht. destruct c; first [discriminate Ht|split; reflexivity]. Qed.

Lemma Present_of_cookie r : Http.Cookies r <> [] -> Cookie.Present r = true.
Proof.
  intros Hne. unfold Cookie.Present. apply existsb_exists.
  destruct (Http.Cookies r) as [|ck l] eqn:Hc; [done|]. assert (ck ∈ Http.Cookies r) as Hin by (rewrite Hc; apply list_elem_of_here).
  unfold Http.Cookies in Hin. apply list_elem_of_In, in_concat in Hin as (cs & Hcs & Hck).
  apply in_map_iff in Hcs as (line & <- & Hline). exists line. split; [done|]. unfold Http.read_line in Hck.
  apply list_elem_of_In, list_elem_of_omap in Hck as (part & Hpart & Hread). unfold Http.read_part in Hread.
  destruct (TrimString part) as [|d t] eqn:Ht; [done|]. destruct (Cut "="%byte (d :: t)) as [[name val] ok] eqn:Hcut.
  destruct (Http.isToken (TrimString name)) eqn:Htok; [|done]. unfold Http.isToken in Htok.
  destruct (TrimString name) as [|c nm] eqn:Hn; [done|]. simpl in Htok. bools.
  assert (c ∈ str_bytes line) as Hcl.
  { apply TrimString_sub. eapply parts_sub; [exact Hpart|]. apply TrimString_sub. rewrite Ht.
    eapply Cut_sub; [exact Hcut|left]. apply TrimString_sub. rewrite Hn. apply list_elem_of_here. }
  apply TrimSpace_keeps in Hcl; [|by apply token_plain].
  apply negb_true_iff, bool_decide_eq_false_2. intros Hnil. rewrite Hnil in Hcl. by apply not_elem_of_nil in Hcl.
Qed.

Lemma Read_Present p r n : (Cookie.Read p r n).2 = true -> Cookie.Present r = true.
Proof.
  unfold Cookie.Read. destruct (_ || _); [done|]. intros Hr. apply Present_of_cookie. intros Hn. rewrite Hn in Hr. done.
Qed.

Lemma sessionCookie_Present p r : App.sessionCookie p r = true -> Cookie.Present (Wire.http r) = true.
Proof. unfold App.sessionCookie. rewrite existsb_exists. intros (n & _ & Hn). by eapply Read_Present. Qed.

(** ** The routes of an application *)
Section app.
Context {B T C : Type} `{Authenticator B, KeyDirectory T, NetURL} (zeroC : C).
Context (sha256 : bytes -> bytes) (IsPrint : Z -> bool).
Context (unmarshal_claims : bytes -> option (@App.AppClaims C)) (unmarshal_grant : bytes -> option App.claimSet).
Import App.

Abbreviation decodeClaims_ := (decodeClaims zeroC unmarshal_claims).
Abbreviation session_serve := (session_ServeHTTP (B := B) (T := T) zeroC unmarshal_claims).
Abbreviation app_env := (@App.env B T C).

(** The requirements of a route, spelled out. *)
Definition meets (s : Routes.SessionSpec) (a : SessionAttrs) (c : Routes.Claims) (now : time) : Prop :=
  (a_mustChange a = true -> Routes.acceptChange s = true) /\
  (Routes.s_mfa s = true -> MultiFactor a = true) /\
  (forall f, f ∈ Routes.s_fresh s -> 0 < Routes.Freshness_Duration f /\ FreshWithin a (Routes.Freshness_Duration f) now = true) /\
  (forall f, f ∈ Routes.s_factors s -> HasFactor a f = true) /\
  (forall q, q ∈ Routes.s_claims s -> Routes.values q <> [] /\
     if Routes.match_ q =? Routes.MatchAny then exists v, v ∈ Routes.values q /\ v ∈ Routes.claims_list c (Routes.set q)
     else forall v, v ∈ Routes.values q -> v ∈ Routes.claims_list c (Routes.set q)).

Lemma omap_nil {X Y} (f : X -> option Y) l : length (omap f l) = 0%nat -> forall x, x ∈ l -> f x = None.
Proof.
  intros Hl x Hx. destruct (f x) as [y|] eqn:Hf; [|done]. exfalso.
  assert (y ∈ omap f l) as Hin by (apply list_elem_of_omap; by exists x). destruct (omap f l); [by apply not_elem_of_nil in Hin|done].
Qed.

Lemma existsb_false {X} (f : X -> bool) l x : existsb f l = false -> x ∈ l -> f x = false.
Proof.
  intros Hf Hx. destruct (f x) eqn:Hfx; [|done]. assert (existsb f l = true); [|congruence].
  apply existsb_exists. exists x. split; [by apply list_elem_of_In|done].
Qed.

Lemma Satisfied_true q c : Routes.Satisfied q c = true -> Routes.values q <> [] /\
  if Routes.match_ q =? Routes.MatchAny then exists v, v ∈ Routes.values q /\ v ∈ Routes.claims_list c (Routes.set q)
  else forall v, v ∈ Routes.values q -> v ∈ Routes.claims_list c (Routes.set q).
Proof.
  unfold Routes.Satisfied. destruct (Routes.validate_claim q) eqn:Hv; [done|]. intros Hs. split.
  { unfold Routes.validate_claim in Hv. destruct (_ || _) eqn:Hb in Hv; [done|]. bools. done. }
  destruct (Routes.match_ q =? Routes.MatchAny).
  - apply existsb_exists in Hs as (v & Hin & Hd). bools. exists v. split; [by apply list_elem_of_In|done].
  - apply negb_true_iff in Hs. intros v Hin. apply (existsb_false _ _ v Hs) in Hin. by bools.
Qed.

Lemma SessionSpec_Check_None s a c now : Routes.SessionSpec_Check s a c now = None -> meets s a c now.
Proof.
  unfold Routes.SessionSpec_Check. destruct (_ || _) eqn:Hz; [done|]. apply orb_false_iff in Hz as [_ Hv]. bools.
  destruct (a_mustChange a && _) eqn:Hmc; [done|]. destruct (Routes.s_mfa s && _) eqn:Hmfa; [done|].
  destruct (existsb _ (Routes.s_fresh s)) eqn:Hf; [done|]. destruct (List.find _ _) eqn:Hfa; [done|].
  destruct (existsb _ (Routes.s_claims s)) eqn:Hcl; [done|]. intros _.
  unfold Routes.SessionSpec_Validate in Hv. rewrite !length_app in Hv.
  apply Nat.eq_add_0 in Hv as [_ [Hv _]%Nat.eq_add_0]. split_and!.
  - intros Hm. rewrite Hm in Hmc. simpl in Hmc. by bools.
  - intros Hm. rewrite Hm in Hmfa. simpl in Hmfa. by bools.
  - intros f Hin. pose proof (existsb_false _ _ f Hf Hin) as Hfr. bools. split; [|done].
    assert (Routes.Freshness_Duration f <> 0) as Hne.
    { intros Hd. pose proof (omap_nil _ _ Hv f Hin) as Ho. simpl in Ho. by rewrite Hd in Ho. }
    revert Hne. unfold Routes.Freshness_Duration. repeat case_match; unfold Minute, Second; lia.
  - intros f Hin. destruct (HasFactor a f) eqn:Hh; [done|]. exfalso. apply list_elem_of_In in Hin.
    pose proof (List.find_none _ _ Hfa f Hin) as Hx. simpl in Hx. by rewrite Hh in Hx.
  - intros q Hin. apply Satisfied_true. pose proof (existsb_false _ _ q Hcl Hin) as Hq. by bools.
Qed.

Lemma respond_run {R} f (e : app_env) w : exists w', App.respond (R := R) f e w = (w', (f (App.out w)).2).
Proof. unfold App.respond. destruct (f (App.out w)) as [o r]. by eexists. Qed.

Lemma refused_run st cd (e : app_env) w : exists w' a, App.refused st cd e w = (w', Answered a).
Proof. unfold App.refused. prog. unfold App.respond. destruct (refuse _ _ _). by eexists _, _. Qed.

Lemma authenticate_inl g r t (e : app_env) w w' p :
  App.authenticate zeroC unmarshal_claims g r t e w = (w', inl p) ->
  exists x c n, resumed_by (B := B) (Wire.http r) t x /\ Tenant (a_subject (r_attrs x)) = t /\
    Subject_IsZero (a_subject (r_attrs x)) = false /\
    (sessionCookie (cookies (s_auth g)) r = false -> a_transport (r_attrs x) = TransportBearer /\ bearerPresented r = true) /\
    decodeClaims_ (r_claims x) = Ok c /\
    Routes.SessionSpec_Check (spec g) (r_attrs x) (route_claims (App c)) (App.clock e n) = None /\
    sessionPrincipal x c = Ok p.
Proof.
  unfold App.authenticate. set (fc := sessionCookie _ _). set (bp := bearerPresented r). prog.
  destruct (negb fc && negb bp) eqn:E1; [done|]. destruct (fc && bp) eqn:E2; [done|]. destruct (negb fc && optional g && _) eqn:E3; [done|].
  destruct (App.resume _ _ e w) as [w1 [x|err]] eqn:Hr; [|repeat case_match; done].
  destruct (SessionAttrs_IsZero _ || _ || _) eqn:Hz; [done|]. destruct (negb fc && negb (a_transport (r_attrs x) =? TransportBearer)) eqn:Ht; [done|].
  destruct (decodeClaims _ _ (r_claims x)) as [c|] eqn:Hd; [|done].
  destruct (App.now e w1) as [w2 tm] eqn:Hn. unfold App.now in Hn. injection Hn as <- <-.
  destruct (Routes.SessionSpec_Check _ _ _ _) eqn:Hs; [done|]. destruct (sessionPrincipal x c) as [p'|] eqn:Hp; [|done].
  intros ?; simplify_eq. unfold App.resume in Hr. destruct (au_Resume _ _ _ _) as [[b o] y] eqn:Hau. simplify_eq.
  bools. eexists _, c, _. split_and!; try done; [by eexists _, _, _, _|].
  intros Hfc. rewrite Hfc in *. simpl in *. bools. split; [done|]. by destruct bp.
Qed.

Lemma session_ServeHTTP_Handled g r (e : app_env) w w' p :
  session_serve g r e w = (w', Handled p) -> p_kind p <> Anonymous ->
  exists t w1 w2, Gate.Tenant_ (preamble (s_auth g)) (App.resolve e) r = Ok t /\
    (NoOriginCheck (s_auth g) = false -> Csrf.Check r (session_policy g r t) = None) /\
    App.authenticate zeroC unmarshal_claims g r t e w1 = (w2, inl p).
Proof.
  unfold session_ServeHTTP. prog. destruct (App.respond _ e w) as [w0 []] eqn:E0.
  destruct (Gate.Tenant_ _ _ _) as [t|err] eqn:Ht.
  2:{ destruct (refused_run 401 codeUnauthenticated e w0) as (wx & a & ->). done. }
  destruct (negb (NoOriginCheck (s_auth g)) && _) eqn:Hc.
  { destruct (optional g && _) eqn:Ho; [intros ? Hk; by simplify_eq|].
    destruct (refused_run 403 codeCrossSite e w0) as (wx & a & ->). done. }
  destruct (App.authenticate _ _ g r t e w0) as [w1 [q|ref]] eqn:Ha.
  - intros ? Hk. simplify_eq. exists t, w0, w'. split_and!; [done| |done]. intros Hn. rewrite Hn in Hc. simpl in Hc. bools.
    destruct (Csrf.Check _ _); [|done]. exfalso. apply Hc. by eexists.
  - destruct (App.respond _ e w1) as [w2 []]. destruct (App.respond _ e w2) as [w3 []].
    destruct (_ || _) eqn:Ho; [destruct (refused_run (status ref) (code ref) e w3) as (wx & a & ->); done|].
    intros ? Hk. by simplify_eq.
Qed.
End app.

(** ** API keys *)
Lemma elem_of_intersect v held granted : v ∈ App.intersect held granted <-> v ∈ held /\ v ∈ granted.
Proof.
  unfold App.intersect.
  assert (forall acc, v ∈ fold_left (fun out v => if bool_decide (v ∈ held) && negb (bool_decide (v ∈ out)) then out ++ [v] else out) granted acc
    <-> v ∈ acc \/ v ∈ held /\ v ∈ granted) as Hg.
  { induction granted as [|x l IH]; intros acc; cbn [fold_left]; [rewrite elem_of_nil; tauto|]. rewrite IH, elem_of_cons.
    destruct (bool_decide (x ∈ held) && negb (bool_decide (x ∈ acc))) eqn:Hb.
    - bools. rewrite elem_of_app, list_elem_of_singleton. naive_solver.
    - apply andb_false_iff in Hb as [Hb|Hb]; bools; naive_solver. }
  rewrite Hg, elem_of_nil. tauto.
Qed.

Section apikeys.
Context {B T C : Type} `{Authenticator B, KeyDirectory T, NetURL} (zeroC : C).
Context (sha256 : bytes -> bytes) (unmarshal_grant : bytes -> option App.claimSet).
Import App.

Abbreviation app_env := (@App.env B T C).
Abbreviation app_world := (@App.world B T C).
Abbreviation grant_of := (decodeAPIKeyGrant unmarshal_grant).

(** Claims the source gave for the owner of a row, narrowed to the grant of the row, by a request among
    [es] that read the clock at [at_] before and found the account usable. *)
Definition sourced (es : list app_env) (row : Subject * bytes) (at_ : time) (st : AccountState) (c : AppClaims) : Prop :=
  exists e n m k owner gr, e ∈ es /\ App.clock e k = at_ /\ accounts e n row.1 = Ok st /\
    exists_ st = true /\ disabled st = false /\ deleted st = false /\
    claims_for e m row.1 = Ok owner /\ grant_of row.2 = Ok gr /\ c = narrowed owner gr.

Lemma sourced_more es es' row at_ st c : sourced es row at_ st c -> (forall e, e ∈ es -> e ∈ es') -> sourced es' row at_ st c.
Proof. intros (e & n & m & k & o & gr & He & Hrest) Hs. exists e, n, m, k, o, gr. split; [by apply Hs|done]. Qed.

(** An entry that holds what the source gave, at the epoch of the account it was read with. *)
Definition from_source (row_of : uuid -> Subject * bytes) (es : list app_env) (id : uuid) (x : @apiKeyEntry C) : Prop :=
  exists st, sourced es (row_of id) (c_at x) st (c_claims x) /\ Attrs.epoch st = c_epoch x.

(** Every entry of the cache comes from the source. *)
Definition cache_sourced (row_of : uuid -> Subject * bytes) (es : list app_env) (c : gmap uuid (@apiKeyEntry C)) : Prop :=
  forall id x, c !! id = Some x -> from_source row_of es id x.

Lemma cache_sourced_sub row_of es (c c' : gmap uuid (@apiKeyEntry C)) : cache_sourced row_of es c -> c' ⊆ c -> cache_sourced row_of es c'.
Proof. intros Hc Hs id x Hx. apply Hc. by eapply lookup_weaken. Qed.

Lemma cache_sourced_insert row_of es c id x st : cache_sourced row_of es c ->
  sourced es (row_of id) (c_at x) st (c_claims x) -> Attrs.epoch st = c_epoch x -> cache_sourced row_of es (<[id := x]> c).
Proof.
  intros Hc Hs He id' x'. rewrite lookup_insert_Some. intros [[<- <-]|[_ Hx]]; [by exists st|by apply Hc].
Qed.

(** Between two steps other requests, of this route or of another that shares the cache, drop entries or fill in what the
    source gave them. *)
Definition fills (row_of : uuid -> Subject * bytes) (es : list app_env) (e : app_env) : Prop :=
  forall n (c : gmap uuid (@apiKeyEntry C)) id x,
    (cached e n c : gmap uuid (@apiKeyEntry C)) !! id = Some x -> c !! id = Some x \/ from_source row_of es id x.

Lemma cache_sourced_cached row_of es e n (c : gmap uuid (@apiKeyEntry C)) : fills row_of es e -> cache_sourced row_of es c ->
  cache_sourced row_of es (cached e n c).
Proof. intros Hf Hc id x Hx. destruct (Hf n c id x Hx) as [Hx'|Hs]; [by apply Hc|done]. Qed.

(** What the claims of an accepted key rest on. *)
Definition justified (g : apiGate) (es : list app_env) (e : app_env) (row : Subject * bytes) (now : time) (c : AppClaims) : Prop :=
  exists at_ st, sourced es row at_ st c /\
    (at_ = now \/ at_ <= now /\ now - at_ < RecheckEvery (a_auth g) /\ exists n, epochs e n row.1 = Ok (Attrs.epoch st)).

Lemma current_spec g ep now (x : @apiKeyEntry C) : RecheckEvery (a_auth g) <= two63 - 1 -> current g ep now x = true ->
  c_epoch x = ep /\ c_at x <= now /\ now - c_at x < RecheckEvery (a_auth g).
Proof.
  unfold current. intros Hr Hc. bools. split_and!; [done|done|]. unfold time_Sub in *. lia.
Qed.

Lemma effectiveClaims_justified g row_of es e k m (w w' : app_world) r :
  effectiveClaims unmarshal_grant g k (App.clock e m) e w = (w', r) ->
  RecheckEvery (a_auth g) <= two63 - 1 -> e ∈ es -> fills row_of es e ->
  row_of (Tokens.k_ID k) = (Tokens.Owner k, Tokens.k_AppClaims k) ->
  cache_sourced row_of es (cache w) ->
  toks w' = toks w /\ cache_sourced row_of es (cache w') /\
  forall c, r = inl c -> justified g es e (row_of (Tokens.k_ID k)) (App.clock e m) c.
Proof.
  intros Hrun HR He Hdrop Hrow Hc. unfold effectiveClaims, ask, cache_get, cache_drop, cache_fill, on_cache in Hrun. prog.
  destruct (epochs e (App.calls w) (Tokens.Owner k)) as [ep|err] eqn:Hep.
  2:{ destruct (Is err ErrNotFound); simplify_eq; simpl; split_and!; try done.
      eapply cache_sourced_sub; [|apply delete_subseteq]. by apply cache_sourced_cached. }
  simpl in Hrun. set (c1 := cached e (S (App.calls w)) (cache w) : gmap uuid (@apiKeyEntry C)) in *.
  assert (cache_sourced row_of es c1) as Hc1 by (by apply cache_sourced_cached).
  destruct (match c1 !! Tokens.k_ID k with Some x => if current g ep (App.clock e m) x then Some (c_claims x) else None | None => None end)
    as [c|] eqn:Hhit.
  { simplify_eq; simpl. split_and!; try done. intros c' [= <-]. destruct (c1 !! Tokens.k_ID k) as [x|] eqn:Hx; [|done].
    destruct (current g ep (App.clock e m) x) eqn:Hcur; [|done]. injection Hhit as <-.
    apply current_spec in Hcur as (<- & Hle & Hlt); [|done]. destruct (Hc1 _ _ Hx) as (st & Hs & Hst).
    exists (c_at x), st. split; [done|]. right. split_and!; [done|done|]. exists (App.calls w). rewrite Hrow. simpl. congruence. }
  simpl in Hrun.
  match type of Hrun with context [accounts e ?n _] => set (n1 := n) in * end.
  match type of Hrun with context [delete _ ?x] => set (c2 := delete (Tokens.k_ID k) x) in * end.
  assert (cache_sourced row_of es c2) as Hc2.
  { eapply cache_sourced_sub; [|apply delete_subseteq]. by apply cache_sourced_cached. }
  destruct (accounts e n1 (Tokens.Owner k)) as [st|] eqn:Hst; [|by simplify_eq].
  destruct (_ || _ || _) eqn:Hu; [by simplify_eq|]. destruct (decodeAPIKeyGrant _ _) as [gr|] eqn:Hgr; [|by simplify_eq].
  simpl in Hrun. match type of Hrun with context [claims_for e ?n _] => set (n2 := n) in * end.
  destruct (claims_for e n2 (Tokens.Owner k)) as [owner|] eqn:Hcl; [|by simplify_eq].
  assert (sourced es (row_of (Tokens.k_ID k)) (App.clock e m) st (narrowed owner gr)) as Hsrc.
  { rewrite Hrow. bools. by exists e, n1, n2, m, owner, gr. }
  assert (justified g es e (row_of (Tokens.k_ID k)) (App.clock e m) (narrowed owner gr)) as Hj by (exists (App.clock e m), st; auto).
  destruct (Attrs.epoch st =? ep) eqn:Heq; simpl in Hrun; simplify_eq; simpl; split_and!; try done.
  2,3: by intros c [= <-].
  eapply cache_sourced_insert; [|exact Hsrc|by bools].
  destruct (_ && _); [eapply cache_sourced_sub; [|apply delete_subseteq]|]; by apply cache_sourced_cached.
Qed.

Section requests.
Context (row_of : uuid -> Subject * bytes) (I : T -> Prop).
Context (Hget : forall c t tn h s k, I s -> ak_Get c t tn h s = Ok k -> row_of (Tokens.k_ID k) = (Tokens.Owner k, Tokens.k_AppClaims k)).

(** What one request may find between two of its steps. *)
Definition settled (es : list app_env) (e : app_env) : Prop := fills row_of es e /\ forall n s, I s -> I (directory e n s).

(** The window of a gate fits a duration. *)
Definition windowed (g : apiGate) : Prop := RecheckEvery (a_auth g) <= two63 - 1.

(** What is known of a key a request was let through with. *)
Definition accepted (g : apiGate) (es : list app_env) (e : app_env) (t : TenantID) (secret : string) (p : @Principal C) (k : Tokens.APIKey) : Prop :=
  (exists n s, I s /\ ak_Get (App.ctx e n) (App.clock e n) t (apiKeyHash sha256 secret) s = Ok k) /\
  Tokens.KeyHash k = apiKeyHash sha256 secret /\ Tenant (Tokens.Owner k) = t /\ Tokens.RevokedAt k = time_zero /\
  Tokens.k_Kind k ∈ Routes.kinds (a_spec g) /\ p_kind p = KAPIKey /\ p_subject p = Tokens.Owner k /\
  exists m, (Tokens.ExpiresAt k = time_zero \/ App.clock e m < Tokens.ExpiresAt k) /\
    justified g es e (Tokens.Owner k, Tokens.k_AppClaims k) (App.clock e m) (p_claims p).

Lemma verify_spec g es t secret e (w w' : app_world) r : windowed g ->
  verify sha256 unmarshal_grant g t secret e w = (w', r) -> e ∈ es -> settled es e -> I (toks w) -> cache_sourced row_of es (cache w) ->
  I (toks w') /\ cache_sourced row_of es (cache w') /\ forall p, r = inl p -> exists k, accepted g es e t secret p k.
Proof.
  intros HR Hrun He [Hdrop HI] Hi Hc. unfold verify, on_tokens in Hrun. prog.
  set (s := directory e (App.calls w) (toks w)) in *. assert (I s) as Hs by (by apply HI).
  destruct (ak_Get _ _ _ _ s) as [k|err] eqn:Hk; [|simplify_eq; by split_and!].
  pose proof (Hget _ _ _ _ _ _ Hs Hk) as Hrow.
  destruct (App.now e _) as [w1 tm] eqn:Hn in Hrun. unfold App.now in Hn. simpl in Hn. injection Hn as <- <-.
  match type of Hrun with context [App.clock e ?x] => set (m := x) in * end.
  destruct (bool_decide (Tokens.KeyHash k = _)) eqn:E1; simpl in Hrun; [|simplify_eq; by split_and!].
  destruct (bool_decide (Tenant (Tokens.Owner k) = t)) eqn:E2; simpl in Hrun; [|simplify_eq; by split_and!].
  destruct (time_IsZero (Tokens.RevokedAt k)) eqn:E3; simpl in Hrun; [|simplify_eq; by split_and!].
  destruct (negb (time_IsZero (Tokens.ExpiresAt k)) && _) eqn:E4; [simplify_eq; by split_and!|].
  destruct (bool_decide (Tokens.k_Kind k ∈ _)) eqn:E5; simpl in Hrun; [|simplify_eq; by split_and!].
  match type of Hrun with context [effectiveClaims ?a ?b ?c ?d ?x ?y] => destruct (effectiveClaims a b c d x y) as [w2 rc] eqn:Hec end.
  apply (effectiveClaims_justified g row_of es) in Hec as (Ht & Hcs & Hj); [|done|done|done|done|done]. simpl in Ht.
  assert (I (toks w2)) as Hi2 by (by rewrite Ht).
  destruct rc as [c|ref]; [|simplify_eq; by split_and!].
  destruct (Routes.APISpec_Check _ _ _); [simplify_eq; by split_and!|]. simplify_eq. split_and!; [done|done|].
  intros p Hp. destruct (apiKeyPrincipal _ c) as [p'|] eqn:Hpr; [|done]. injection Hp as ->.
  unfold apiKeyPrincipal in Hpr. go_cases. exists k. bools. split_and!; try done; [eexists (App.calls w), _; split; [exact Hs|exact Hk]|].
  eexists. split.
  - apply andb_false_iff in E4 as [E4|E4]; bools; [by left|by right].
  - rewrite <- Hrow. by apply Hj.
Qed.

Lemma api_serve_spec g es r e (w w' : app_world) x : windowed g ->
  api_ServeHTTP sha256 unmarshal_grant g r e w = (w', x) -> e ∈ es -> settled es e -> I (toks w) -> cache_sourced row_of es (cache w) ->
  I (toks w') /\ cache_sourced row_of es (cache w') /\
  forall p, x = Handled p -> exists t secret k, Gate.Tenant_ (preamble (a_auth g)) (App.resolve e) r = Ok t /\
    bearerCredential r = Some secret /\ sessionCookie (cookies (a_auth g)) r = false /\ accepted g es e t secret p k.
Proof.
  intros HR Hrun He Hset Hi Hc. unfold api_ServeHTTP in Hrun.
  assert (forall w0 ref wx y, api_refuse (T := T) ref e w0 = (wx, y) -> toks wx = toks w0 /\ cache wx = cache w0 /\ forall p : @Principal C, y <> Handled p) as Href.
  { intros w0 ref wx y. unfold api_refuse, refused. prog. unfold App.respond. repeat case_match; intros; simplify_eq; done. }
  assert (forall (w0 : app_world) f wx u, App.respond (R := unit) f e w0 = (wx, u) -> toks wx = toks w0 /\ cache wx = cache w0) as Hresp.
  { intros w0 f wx u. unfold App.respond. destruct (f (App.out w0)). intros Hx. injection Hx as <- _. by split. }
  prog. destruct (App.respond _ e w) as [w0 []] eqn:H0'. apply Hresp in H0' as [Ht0 Hc0]. rewrite <- Ht0 in Hi. rewrite <- Hc0 in Hc.
  destruct (Gate.Tenant_ _ _ _) as [t|err] eqn:Ht.
  2:{ apply Href in Hrun as (-> & -> & Hno). split_and!; try done. intros p ->. by destruct (Hno p). }
  destruct (sessionCookie _ r) eqn:Hck.
  { apply Href in Hrun as (-> & -> & Hno). split_and!; try done. intros p ->. by destruct (Hno p). }
  destruct (bearerCredential r) as [secret|] eqn:Hb.
  2:{ apply Href in Hrun as (-> & -> & Hno). split_and!; try done. intros p ->. by destruct (Hno p). }
  destruct (verify _ _ g t secret e w0) as [w1 [p|ref]] eqn:Hv.
  - apply (verify_spec g es) in Hv as (Hi1 & Hc1 & Hacc); [|done..].
    unfold App.emit in Hrun. simplify_eq. simpl. split_and!; try done. intros p' [= <-]. destruct (Hacc p eq_refl) as [k Hk]. by exists t, secret, k.
  - apply (verify_spec g es) in Hv as (Hi1 & Hc1 & _); [|done..].
    destruct (bool_decide (k_reason ref = "")); unfold App.emit in Hrun; apply Href in Hrun as (Ht2 & Hc2 & Hno); simpl in Ht2, Hc2;
      rewrite Ht2, Hc2; split_and!; try done; intros p ->; by destruct (Hno p).
Qed.

(** Requests on any routes that share one cache, one after the other. *)
Definition serve_all (l : list (app_env * apiGate * Wire.Request)) (w : app_world) : app_world :=
  fold_left (fun w x => (api_ServeHTTP sha256 unmarshal_grant x.1.2 x.2 x.1.1 w).1) l w.

Lemma serve_all_spec es l : forall w, Forall (fun x => x.1.1 ∈ es /\ settled es x.1.1 /\ windowed x.1.2) l -> I (toks w) ->
  cache_sourced row_of es (cache w) -> I (toks (serve_all l w)) /\ cache_sourced row_of es (cache (serve_all l w)).
Proof.
  induction l as [|[[e g] r] l IH]; intros w Hl Hi Hc; [done|]. inversion Hl as [|x y (He & Hs & HR) Hl']; subst x y. simpl in *.
  destruct (api_ServeHTTP _ _ g r e w) as [w1 x] eqn:Hx. apply (api_serve_spec g es) in Hx as (Hi1 & Hc1 & _); [|done..].
  by apply IH.
Qed.
End requests.
End apikeys.

(** ** The facades *)
Section facades.
Context {B T C : Type}.
Import App.

Abbreviation fac_env := (@App.env B T C).
Abbreviation fac_world := (@App.world B T C).

(** What a session caller proved for a call of a facade. *)
Record session_authorized (f : Auth) (by_ : Caller.Caller) (tenant : TenantID) (target : Subject) (sc : Z) (e : fac_env) (g : grant) : Prop := {
  sa_scope : sc <> scopeSystem;
  sa_tenant : Caller.tenant by_ = tenant /\ Tenant (a_subject (Caller.session by_)) = tenant;
  sa_live : exists h n, HandleOf by_ = Ok h /\ live e n h = None;
  sa_account : exists st n, accounts e n (a_subject (Caller.session by_)) = Ok st /\ Usable st = true /\
    Attrs.epoch st = a_epoch (Caller.session by_) /\ mustChange st = false /\ g_epoch g = Attrs.epoch st;
  sa_changed : a_mustChange (Caller.session by_) = false;
  sa_claims : exists c n, claims_for e n (a_subject (Caller.session by_)) = Ok c /\ g_claims g = App c /\
    (needsAdmin sc (a_subject (Caller.session by_)) target = true -> adminRole (admin f) = true /\ admin_role (admin f) ∈ roles (App c));
  sa_mfa : exists required n, enrolled e n (a_subject (Caller.session by_)) = Ok required /\
    (required = true -> MultiFactor (Caller.session by_) = true);
  sa_fresh : NoReauthWindow f = false -> exists n, FreshWithin (Caller.session by_) (ReauthWindow f) (clock e n) = true;
  sa_grant : g_system g = false /\ g_tenant g = tenant /\ g_subject g = a_subject (Caller.session by_) }.

Lemma authorizeSession_Ok f by_ tenant target sc (e : fac_env) w w' g :
  authorizeSession f by_ tenant target sc e w = (w', Ok g) ->
  session_authorized f by_ tenant target sc e g /\ toks w' = toks w.
Proof.
  unfold authorizeSession, Caller.Session_of, check, try. destruct (Caller.kind by_ =? _) eqn:Hk; [|done].
  destruct (SessionAttrs_IsZero _); [done|]. unfold sessionLive, ask. prog.
  destruct (HandleOf by_) as [h|] eqn:Hh; [|done]. simpl. destruct (live e (calls w) h) eqn:Hl; [done|].
  destruct (sc =? scopeSystem) eqn:Hsc; [done|]. destruct (_ || _) eqn:Ht; [done|]. simpl.
  destruct (accounts e _ _) as [st|] eqn:Hst; [|done]. destruct (Usable st) eqn:Hu; simpl; [|done].
  destruct (Attrs.epoch st =? _) eqn:Hep; simpl; [|done]. destruct (mustChange st || _) eqn:Hm; [done|]. simpl.
  destruct (claims_for e _ _) as [c|] eqn:Hc; [|done].
  destruct (if needsAdmin _ _ _ then _ else _) eqn:Ha; [done|]. simpl. destruct (enrolled e _ _) as [required|] eqn:Hr; [|done].
  destruct (required && _) eqn:Hmf; [done|].
  assert (needsAdmin sc (a_subject (Caller.session by_)) target = true -> adminRole (admin f) = true /\ admin_role (admin f) ∈ roles (App c)) as Hadm.
  { intros Hn. rewrite Hn in Ha. unfold checkAdmin in Ha. destruct (adminRole (admin f)); [|done]. simpl in Ha.
    destruct (bool_decide _) eqn:Hb in Ha; [|done]. by bools. }
  assert (required = true -> MultiFactor (Caller.session by_) = true) as Hmfa by (intros ->; simpl in Hmf; by bools).
  bools. destruct (NoReauthWindow f) eqn:Hn; simpl.
  2: destruct (FreshWithin _ _ _) eqn:Hf; simpl; [|done].
  all: intros ?; simplify_eq; (split; [|done]); split; try done; try congruence.
  all: eauto 8.
Qed.

Lemma authorize_Ok f by_ m tenant target sc (e : fac_env) w w' g :
  authorize f by_ m tenant target sc e w = (w', Ok g) ->
  (Caller.kind by_ = Caller.CallerSystem /\ in_request e = false /\ tenant = Caller.tenant by_ /\ sc <> scopeSelf /\
     served f tenant = None /\ g = mkGrant true tenant zero_Subject 0 (mkClaimSet [] [] []) /\ toks w' = toks w /\
     events w' = events w ++ [SystemCallerUsed (Caller.tenant by_) (Caller.reason by_) m None]) \/
  (Caller.kind by_ = Caller.CallerSession /\ session_authorized f by_ tenant target sc e g /\ toks w' = toks w).
Proof.
  unfold authorize. destruct (Caller.kind by_ =? Caller.CallerAPIKey) eqn:H1'; [done|].
  destruct (Caller.kind by_ =? Caller.CallerResourceToken) eqn:H2'; [done|].
  destruct (Caller.kind by_ =? Caller.CallerSystem) eqn:H3'.
  - unfold authorizeSystem, systemRefusal, emit. intros Hx. left. apply Z.eqb_eq in H3'.
    destruct (in_request e) eqn:Hi; [done|]. destruct (negb (bool_decide (tenant = _))) eqn:Ht; [done|].
    destruct (sc =? scopeSelf) eqn:Hs; [done|]. destruct (served f tenant) eqn:Hsv; [done|]. simplify_eq. bools. by split_and!.
  - destruct (Caller.kind by_ =? Caller.CallerSession) eqn:H4'; [|done]. intros Hx%authorizeSession_Ok. right. bools. naive_solver.
Qed.

Lemma subset_spec l h : subset l h = true -> forall v, v ∈ l -> v ∈ h.
Proof.
  unfold subset. rewrite forallb_forall. intros Hf v Hv. apply list_elem_of_In in Hv. specialize (Hf _ Hv). by bools.
Qed.

Lemma elem_of_dedupe v l : v ∈ dedupe l <-> v ∈ l.
Proof.
  unfold dedupe.
  assert (forall acc, v ∈ fold_left (fun out v => if negb (bool_decide (v ∈ out)) then out ++ [v] else out) l acc <-> v ∈ acc \/ v ∈ l) as Hg.
  { induction l as [|x l IH]; intros acc; cbn [fold_left]; [rewrite elem_of_nil; tauto|]. rewrite IH, elem_of_cons.
    destruct (bool_decide (x ∈ acc)) eqn:Hb; simpl; bools; [naive_solver|]. rewrite elem_of_app, list_elem_of_singleton. naive_solver. }
  rewrite Hg, elem_of_nil. tauto.
Qed.

(** The grant of a key holds only claims of [c]. *)
Definition within (gr c : claimSet) : Prop :=
  (forall v, v ∈ roles gr -> v ∈ roles c) /\ (forall v, v ∈ scopes gr -> v ∈ scopes c) /\ (forall v, v ∈ groups gr -> v ∈ groups c).

Lemma keys_authorize_Ok f by_ m (e : fac_env) w w' g km :
  keys_authorize f by_ m e w = (w', Ok (g, km)) ->
  Caller.kind by_ = Caller.CallerSession /\ session_authorized f by_ (Caller.tenant by_) zero_Subject scopeSelf e g /\
  toks w' = toks w /\ apiKeys f = Some km.
Proof.
  unfold keys_authorize, try. prog. destruct (authorize _ _ _ _ _ _ e w) as [w1 [g'|]] eqn:Ha; [|done].
  apply authorize_Ok in Ha as [Ha|(Hk & Ha & Ht)]; [naive_solver|].
  destruct (apiKeys f) as [km'|]; [|done]. destruct (has_tokens f); [|done]. intros ?; simplify_eq. done.
Qed.

Context `{KeyDirectory T} (sha256 : bytes -> bytes) (IsPrint : Z -> bool).

(** What a new key is: the row the directory took. *)
Record key_made (f : Auth) (by_ : Caller.Caller) (req : APIKeyRequest) (e : fac_env) (secret : string) (k : Tokens.APIKey) : Prop := {
  km_owner : Tokens.Owner k = a_subject (Caller.session by_) /\ Tenant (Tokens.Owner k) = Caller.tenant by_;
  km_hash : Tokens.KeyHash k = apiKeyHash sha256 secret;
  km_grant : exists gr c n, Tokens.k_AppClaims k = encodeAPIKeyGrant gr /\
    claims_for e n (Tokens.Owner k) = Ok c /\ within gr (App c) /\ within (q_claims req) gr /\ within gr (q_claims req);
  km_expiry : exists n, Tokens.k_CreatedAt k = clock e n /\
    KeyTypes.At (Lifetime req) (clock e n) DefaultAPIKeyLifetime = Ok (Tokens.ExpiresAt k) /\
    (Tokens.ExpiresAt k = time_zero \/ clock e n < Tokens.ExpiresAt k);
  km_kind : exists m, apiKeys f = Some m /\ Tokens.k_Kind k = q_Kind req /\ q_Kind req ∈ Kinds m /\
    exists raw n, rand e n = Ok raw /\ secret = (Prefix m +:+ apiKeySeparator +:+ bytes_str (Base64.encode raw))%string;
  km_live : Tokens.RevokedAt k = time_zero }.

Lemma Create_Ok f by_ req (e : fac_env) w w' info secret :
  Create sha256 IsPrint f by_ req e w = (w', Ok (info, secret)) ->
  exists k n s g, Caller.kind by_ = Caller.CallerSession /\
    session_authorized f by_ (Caller.tenant by_) zero_Subject scopeSelf e g /\
    key_made f by_ req e secret k /\ ak_Create (App.ctx e n) k s = (toks w', Ok tt) /\
    i_ID info = Tokens.k_ID k /\ i_ExpiresAt info = Tokens.ExpiresAt k.
Proof.
  unfold Create, try. prog. destruct (keys_authorize f by_ _ e w) as [w1 [[g m]|]] eqn:Ha; [|done].
  apply keys_authorize_Ok in Ha as (Hkind & Hs & _ & Hm).
  destruct (check_request IsPrint m req) eqn:Hreq; [done|]. destruct (_ || _) eqn:Hsub; [done|]. unfold App.now. simpl.
  destruct (KeyTypes.At _ _ _) as [expires|] eqn:Hat; [|done]. destruct (negb (time_IsZero expires) && _) eqn:Hex; [done|].
  set (gr := mkClaimSet _ _ _). destruct (Tokens.MaxAppClaimsLen <? _); [done|]. unfold App.draw, newAPIKeySecret. simpl.
  destruct (rand e _) as [raw|] eqn:Hraw; [|done]. simpl. unfold App.newID, on_tokens. simpl.
  set (k := Tokens.mkAPIKey _ _ _ _ _ _ _ _ _ _). destruct (ak_Create _ k _) as [s' [[]|]] eqn:Hcr; [|done].
  unfold emit. simpl. intros Hx. injection Hx as <- <- <-. simpl. eexists k, _, _, g. split_and!; [done|done| |exact Hcr|done|done].
  destruct (sa_grant _ _ _ _ _ _ _ Hs) as (_ & _ & Hsubj). destruct (sa_tenant _ _ _ _ _ _ _ Hs) as [_ Htn].
  destruct (sa_claims _ _ _ _ _ _ _ Hs) as (c & n & Hc & Hgc & _). simpl in Hsub. bools. rewrite Hgc in *.
  split; simpl.
  - by rewrite Hsubj.
  - done.
  - exists gr, c, n. rewrite Hsubj. split_and!; try done; unfold within; split_and!; intros v; simpl; rewrite ?elem_of_dedupe; try done.
    all: by apply subset_spec.
  - eexists. split_and!; [reflexivity|done|]. apply andb_false_iff in Hex as [Hex|Hex]; bools; [by left|]. right.
    unfold time_After in Hex. by bools.
  - exists m. unfold check_request in Hreq. destruct (bool_decide (q_Kind req ∈ Kinds m)) eqn:Hin; [|done].
    bools. split_and!; try done. by eexists _, _.
  - done.
Qed.
End facades.

From S2P Require Import SessionRecord SessionStore Journey Lru Revocation Stateful StatefulFacts SessionStoreProperties StatefulProperties FlowProperties.

(** ** Client addresses *)
Lemma walk_chain pol hops : forall current,
  exists suf pre named, hops = suf ++ pre /\ mapM ClientAddr.parseHost suf = Some named /\
    default current (last named) = ClientAddr.walk pol current hops /\
    (forall a, a ∈ take (length named - 1) named -> ClientAddr.trusts pol a = true) /\
    (pre = [] \/ ClientAddr.trusts pol (default current (last named)) = false \/
     (exists h l, pre = h :: l /\ ClientAddr.parseHost h = None)).
Proof.
  induction hops as [|h hops IH]; intros current; simpl.
  { exists [], [], []. split_and!; try done; [intros a; by rewrite elem_of_nil|by left]. }
  destruct (ClientAddr.parseHost h) as [a|] eqn:Ha.
  2:{ exists [], (h :: hops), []. split_and!; try done; [intros a; by rewrite elem_of_nil|]. right. right. by exists h, hops. }
  destruct (ClientAddr.trusts pol a) eqn:Ht.
  - destruct (IH a) as (suf & pre & named & -> & Hm & Hl & Hall & Hend). exists (h :: suf), pre, (a :: named).
    assert (default current (last (a :: named)) = default a (last named)) as Hlast by (destruct named; [done|]; rewrite last_cons; by destruct (last _)).
    rewrite Hlast. split_and!; try done.
    + simpl. rewrite Ha. simpl. by rewrite Hm.
    + intros b. simpl. rewrite Nat.sub_0_r. destruct named as [|c named]; [intros Hb; by apply not_elem_of_nil in Hb|].
      simpl. rewrite elem_of_cons. intros [->|Hb]; [done|]. apply Hall. simpl. by rewrite Nat.sub_0_r.
  - exists [h], hops, [a]. split_and!; try done; [simpl; by rewrite Ha|intros b Hb; by apply not_elem_of_nil in Hb|]. by right; left.
Qed.

Lemma walk_stop pol x pre : forall suf current, ClientAddr.parseHost x = None \/ (exists a, ClientAddr.parseHost x = Some a /\ ClientAddr.trusts pol a = false) ->
  ClientAddr.walk pol current (suf ++ x :: pre) = ClientAddr.walk pol current (suf ++ [x]).
Proof.
  induction suf as [|h suf IH]; intros current Hx; simpl.
  - destruct Hx as [->|(a & -> & ->)]; done.
  - destruct (ClientAddr.parseHost h) as [a|]; [|done]. destruct (ClientAddr.trusts pol a); [by apply IH|done].
Qed.

(** A client cannot choose the address it is limited by.  The address of a request is that of the peer
    of the connection unless the peer is a trusted proxy; then it is the address named by a hop at the
    end of X-Forwarded-For such that every hop after it, and the peer, is trusted.  What stands to the
    left of a hop that names no trusted address changes nothing, whatever a client wrote there. *)
Theorem forwarded_hops_are_vouched pol r c warn :
  ClientAddr.Resolve pol r = Ok (c, warn) -> ClientAddr.mode pol <> ClientAddr.modeDirect ->
  exists peer, ClientAddr.parseHost (str_bytes (Wire.RemoteAddr r)) = Some peer /\
    (ClientAddr.trusts pol peer = false /\ ClientAddr.c_addr c = peer \/
     ClientAddr.trusts pol peer = true /\
     exists pre suf named, ClientAddr.forwardedFor r = pre ++ suf /\ mapM ClientAddr.parseHost (List.rev suf) = Some named /\
       ClientAddr.c_addr c = default peer (last named) /\
       (forall a, a ∈ take (length named - 1) named -> ClientAddr.trusts pol a = true) /\
       (pre = [] \/ ClientAddr.trusts pol (ClientAddr.c_addr c) = false \/ exists h, last pre = Some h /\ ClientAddr.parseHost h = None)) /\
    forall r' pre pre' hop suf, Wire.RemoteAddr r' = Wire.RemoteAddr r ->
      (forall a, ClientAddr.parseHost hop = Some a -> ClientAddr.trusts pol a = false) ->
      ClientAddr.forwardedFor r = pre ++ hop :: suf -> ClientAddr.forwardedFor r' = pre' ++ hop :: suf ->
      ClientAddr.Resolve pol r' = Ok (c, warn).
Proof.
  unfold ClientAddr.Resolve. intros Hr Hm. destruct (ClientAddr.parseHost _) as [peer|] eqn:Hp; [|done]. exists peer. split; [done|].
  apply Z.eqb_neq in Hm. rewrite Hm in *. split.
  - destruct (ClientAddr.trusts pol peer) eqn:Ht; simpl in Hr; simplify_eq; [right|by left]. split; [done|].
    destruct (walk_chain pol (List.rev (ClientAddr.forwardedFor r)) peer) as (suf & pre & named & Hrev & Hnamed & Hl & Hall & Hend).
    exists (List.rev pre), (List.rev suf), named. rewrite !rev_involutive. simpl. rewrite <- Hl. split_and!; try done.
    + rewrite <- (rev_involutive (ClientAddr.forwardedFor r)), Hrev. apply rev_app_distr.
    + destruct Hend as [->|[He|(h & l & -> & He)]]; [by left|by right; left|right; right]. exists h.
      split; [|done]. simpl. apply last_snoc.
  - intros r' pre pre' hop suf Ha Hhop H1 H2. rewrite Ha, Hp. destruct (ClientAddr.trusts pol peer); simpl in *; [|done].
    simplify_eq. rewrite H1, H2, !rev_app_distr. simpl. rewrite <- !app_assoc. simpl.
    assert (ClientAddr.parseHost hop = None \/ (exists a, ClientAddr.parseHost hop = Some a /\ ClientAddr.trusts pol a = false)) as Hh.
    { destruct (ClientAddr.parseHost hop) as [a|]; [right; exists a; auto|by left]. }
    by rewrite !(walk_stop pol hop (List.rev _)).
Qed.

(** A proxy at 10.0.0.1 that forwards for a client that wrote an address of its own. *)
Definition proxies : ClientAddr.Policy :=
  get_ok ClientAddr.Direct (ClientAddr.Trusted (Netip.PrefixFrom (default (Netip.V4 0) (Netip.ParseAddr (str_bytes "10.0.0.0"))) 8) []).

Definition via_proxy (hops : string) : Wire.Request :=
  Wire.mkRequest (Http.mkRequest [] [] [] []) "POST" "acme.app.example" "10.0.0.1:443" [] [] [] [] [] [hops] [] "" ([], None).

Lemma forwarded_hops_are_vouched_witness :
  exists c, ClientAddr.Resolve proxies (via_proxy "203.0.113.9, 198.51.100.4, 10.2.0.1") = Ok (c, false) /\
    bytes_str (ClientAddr.Key c) = "198.51.100.4" /\
    ClientAddr.Resolve proxies (via_proxy "192.0.2.66,198.51.100.4, 10.2.0.1") = Ok (c, false).
Proof.
  destruct (ClientAddr.Resolve proxies (via_proxy "203.0.113.9, 198.51.100.4, 10.2.0.1")) as [[c warn]|] eqn:Hc; [|exfalso; by vm_compute in Hc].
  assert (warn = false /\ bytes_str (ClientAddr.Key c) = "198.51.100.4") as [-> Hk] by (vm_compute in Hc; injection Hc as <- <-; split; vm_compute; reflexivity).
  exists c. split_and!; [done|done|].
  destruct (forwarded_hops_are_vouched proxies _ c false Hc ltac:(by vm_compute)) as (peer & _ & _ & Hsame).
  apply (Hsame _ [str_bytes "203.0.113.9"] [str_bytes "192.0.2.66"] (str_bytes "198.51.100.4") [str_bytes "10.2.0.1"]);
    [done| |by vm_compute|by vm_compute].
  intros a Ha. vm_compute in Ha. injection Ha as <-. vm_compute. reflexivity.
Defined.

(** ** Sample deployment: the stateful backend, the in-memory limiter and token store *)
#[local] Existing Instances fixed_epochs store0.

#[local] Instance gate_url : NetURL :=
  {| parseHost := fun _ h => Some h; ToLower := map ascii_lower; ToLower_ascii := fun b _ => eq_refl |}.

Abbreviation sample_sessions := (Stateful.env SessionsMemory.Store Z * Stateful.world SessionsMemory.Store)%type.

#[local] Instance sample_authenticator : Authenticator sample_sessions :=
  {| au_Resume r t x o :=
       let '(w, res) := Stateful.Resume digest0 backend0 r t x.1 (with_out o x.2) in ((x.1, w), Stateful.out w, res) |}.

#[local] Instance sample_limiter : RateLimiter Limiter.Memory := memory_limiter digest0.

#[local] Instance sample_directory : KeyDirectory TokensMemory.Store := memory_directory sample_String [].

Definition gate_origins : Csrf.Origins :=
  get_ok Csrf.zero_Origins (Csrf.NewOrigins (str_bytes "https://{tenant}.app.example") []).

Definition gate_preamble : Gate.Preamble :=
  Gate.mkPreamble (get_ok Tenancy.Custom (Tenancy.TenantBySubdomain (str_bytes "https://{tenant}.app.example")))
    (Gate.mkSettings (Some ClientAddr.Direct) gate_origins Gate.CookiesAndBearer (10 * Minute) (Gate.mkInsecure false false false)).

Definition gate_meta : Meta.Meta := default (Meta.mkMeta false false false false false false false false 0 0 0 0 "" 0) (Routes.MetaFor Routes.PasswordChange).

Definition gate_at : time := start0 + Minute.

Definition gate_back : sample_sessions := (env0 gate_at, started0.1).

Definition gate_env : Gate.env (L := Limiter.Memory) (B := sample_sessions) :=
  Gate.mkEnv (fun _ => None) (fun _ => gate_at) (fun _ => Err ErrNoTenant) (fun _ => Err ErrNotFound) (fun _ _ => Ok true) None
    (fun _ l => l) (fun _ b => b).

Definition gate_world : Gate.world := Gate.mkWorld Limiter.NewWithClock gate_back (Http.mkResponse [] ∅) false 0.

(** A change of password of the sample session, from the page of its tenant or from another site. *)
Definition gate_request (origin : string) : Wire.Request :=
  Wire.mkRequest request0 "POST" "acme.app.example" "192.0.2.7:4000" [origin] [] [] [] [] [] [] "" ([], None).

Definition gate_answer : Httpx.answer := Httpx.mkAnswer 204 [].

Definition gate_serve (origin : string) :=
  Gate.ServeHTTP digest0 sample_String (fun _ => None) (Gate.mkGate gate_preamble Routes.PasswordChange gate_meta)
    (fun _ => mret gate_answer) (gate_request origin) gate_env gate_world.

Example gate_serve_ok : (gate_serve "https://acme.app.example").2 = gate_answer /\
  Httpx.a_status (gate_serve "https://evil.example").2 = 403.
Proof. split; vm_compute; reflexivity. Qed.

Lemma problem_body err o : Httpx.a_body (Httpx.writeProblem err o).2 <> [].
Proof. unfold Httpx.writeProblem. by destruct (default _ _) as [st cd]. Qed.

Lemma respond_problem_body {L B} err (f : Http.Response -> Http.Response) (e : @Gate.env L B) w w' a :
  Gate.respond (fun o => Httpx.writeProblem err (f o)) e w = (w', a) -> Httpx.a_body a <> [].
Proof.
  unfold Gate.respond. destruct (Httpx.writeProblem err _) as [o ans] eqn:Hp. intros [= _ <-].
  pose proof (problem_body err (f (Gate.out w))) as Hb. by rewrite Hp in Hb.
Qed.

(** ** Properties *)

(** C21: No endpoint function runs before every gate of its registry entry.  For a path of the closed
    registry, whatever other requests do in between, either the answer is a refusal, or the endpoint
    function was called with a request whose tenant was resolved, whose body parsed within its cap,
    whose client address was charged to its limit, and which passed the origin check; on an
    authenticated path the backend resumed from this request a session of that tenant, on the bearer
    channel one sealed for it, and a session that must change its password only reaches the paths
    that take one; a sensitive path needs the second factor of an enrolled user and a fresh one.  A
    POST came from a trusted origin, or carried no cookie and takes none on the bearer channel, or is
    the refresh or exchange of a token. *)
Theorem endpoint_runs_behind_every_gate {L B} `{RateLimiter L, Authenticator B, NetURL} sha256 uuid_String ParseMediaType
    path m p f hr (e : @Gate.env L B) w w' a :
  Routes.MetaFor path = Some m ->
  Gate.ServeHTTP sha256 uuid_String ParseMediaType (Gate.mkGate p path m) f hr e w = (w', a) ->
  (exists w1 err, Gate.respond (Httpx.writeProblem err) e w1 = (w', a)) \/
  (exists w1 s, Gate.respond (Gate.writeRateLimited s) e w1 = (w', a)) \/
  exists w1 req, f req e w1 = (w', a) /\ admitted ParseMediaType (Gate.mkGate p path m) hr e req /\
    (Gate.NoOriginCheck (Gate.set_insecure (Gate.set p)) = false -> Wire.Method hr = "POST" -> Routes.Method path = "POST" ->
     same_origin hr (Gate.policy (Gate.mkGate p path m) hr (Httpx.tenant req)) \/
     Cookie.Present (Wire.http hr) = false /\
       (Httpx.transport req = TransportBearer /\ Csrf.bearerExempt hr = true \/ path ∈ [Routes.Refresh; Routes.Exchange])).
Proof.
  intros Hm. unfold Gate.ServeHTTP. prog. destruct (Gate.respond _ e w) as [w0 []].
  destruct (Gate.run _ _ _ _ hr e w0) as [w1 [req|err|s]] eqn:Hr; intros Hx; [|left; eauto|right; left; eauto].
  right. right. apply run_Passed in Hr. exists w1, req. split_and!; [done|done|]. intros. by eapply admitted_origin.
Qed.

Lemma endpoint_runs_behind_every_gate_witness :
  exists req, admitted (fun _ => None) (Gate.mkGate gate_preamble Routes.PasswordChange gate_meta)
      (gate_request "https://acme.app.example") gate_env req /\
    same_origin (gate_request "https://acme.app.example")
      (Gate.policy (Gate.mkGate gate_preamble Routes.PasswordChange gate_meta) (gate_request "https://acme.app.example") (Httpx.tenant req)).
Proof.
  destruct (gate_serve "https://acme.app.example") as [w' a] eqn:Hs.
  assert (Httpx.a_body a = []) as Ha.
  { change a with ((w', a).2). rewrite <- Hs. vm_compute. reflexivity. }
  destruct (endpoint_runs_behind_every_gate _ _ _ Routes.PasswordChange gate_meta gate_preamble _ _ gate_env gate_world w' a
    ltac:(vm_compute; reflexivity) Hs) as [(w1 & err & Hx)|[(w1 & s & Hx)|(w1 & req & _ & Had & Ho)]].
  - exfalso. exact (respond_problem_body err id _ _ _ _ Hx Ha).
  - exfalso. exact (respond_problem_body HErrRateLimited _ _ _ _ _ Hx Ha).
  - exists req. split; [exact Had|]. destruct (Ho eq_refl eq_refl ltac:(vm_compute; reflexivity)) as [Hso|[Hpr _]]; [exact Hso|].
    exfalso. vm_compute in Hpr. discriminate Hpr.
Defined.

(** C22: A handler of an application never gets a session principal that was not proved.  When a session
    route hands over a principal that is not anonymous, the session backend resumed from this request,
    for the tenant the request resolves to, a session of that tenant; the principal is its subject,
    its attributes and its decoded claims; every requirement of the route held, each claim, factor and
    freshness at the instant of the request; a session without a session cookie was sealed for the
    bearer channel; and a request with an unsafe method came from a trusted origin, or carried no
    cookie at all and a bearer session. *)
Theorem user_route_principal_is_proved {B T C} `{Authenticator B, KeyDirectory T, NetURL} (zeroC : C) unmarshal_claims
    g r (e : @App.env B T C) w w' p :
  App.session_ServeHTTP zeroC unmarshal_claims g r e w = (w', App.Handled p) -> App.p_kind p <> App.Anonymous ->
  exists t x c n, Gate.Tenant_ (App.preamble (App.s_auth g)) (App.resolve e) r = Ok t /\
    resumed_by (B := B) (Wire.http r) t x /\ Tenant (a_subject (r_attrs x)) = t /\ Subject_IsZero (a_subject (r_attrs x)) = false /\
    App.p_kind p = App.KSession /\ App.p_subject p = a_subject (r_attrs x) /\ App.p_attrs p = r_attrs x /\ App.p_claims p = c /\
    App.decodeClaims zeroC unmarshal_claims (r_claims x) = Ok c /\
    meets (App.spec g) (r_attrs x) (App.route_claims (App.App c)) (App.clock e n) /\
    (App.sessionCookie (App.cookies (App.s_auth g)) r = false -> a_transport (r_attrs x) = TransportBearer) /\
    (App.NoOriginCheck (App.s_auth g) = false -> Csrf.safe (Wire.Method r) = false ->
     same_origin r (App.session_policy g r t) \/
     Cookie.Present (Wire.http r) = false /\ a_transport (r_attrs x) = TransportBearer).
Proof.
  intros Hs Hk. apply session_ServeHTTP_Handled in Hs as (t & w1 & w2 & Ht & Ho & Ha); [|done].
  apply authenticate_inl in Ha as (x & c & n & Hx & Htn & Hz & Hb & Hd & Hsp & Hp).
  unfold App.sessionPrincipal in Hp. destruct (Resumed_Caller x) as [caller|]; [|done]. simpl in Hp. injection Hp as <-.
  exists t, x, c, n. split_and!; try done.
  - by apply SessionSpec_Check_None.
  - intros Hf. by destruct (Hb Hf).
  - intros Hn Hm. apply Ho in Hn. apply Check_None in Hn as [Hn|[Hpr _]]; [by left| |done]. right. split; [done|].
    apply Hb. destruct (App.sessionCookie _ r) eqn:Hc; [|done]. apply sessionCookie_Present in Hc. congruence.
Qed.

(** The routes of the sample deployment need a second factor. *)
Definition app_auth : App.Auth :=
  App.mkAuth gate_preamble gate_origins (Stateful.cookies backend0) false (Some (App.mkModule "acme" ["ci"])) (5 * Minute) (10 * Minute) false
    (App.mkAdmin true "admin") App.tenancySubdomain true.

Definition app_gate : App.sessionGate :=
  App.mkSessionGate app_auth false (Routes.RequireMFA Routes.zero_SessionSpec).

Definition app_claims : @App.AppClaims unit := App.mkAppClaims (App.mkClaimSet ["dev"; "admin"] ["read"; "write"] []) tt.

Definition app_env_at (t : time) : @App.env sample_sessions TokensMemory.Store unit :=
  App.mkEnv (fun _ => None) (fun _ => t) (fun _ => Ok secret0) (fun _ => 77) (fun _ => Err ErrNoTenant) (fun _ _ => Ok 3)
    (fun _ _ => Ok st0) (fun _ _ => Ok app_claims) (fun _ _ => Ok true) (fun _ _ => None) (fun _ => 0) false
    (fun _ b => b) (fun _ s => s) (fun _ c => c).

Definition app_world : @App.world sample_sessions TokensMemory.Store unit :=
  App.mkWorld gate_back TokensMemory.NewWithClock ∅ (Http.mkResponse [] ∅) [] 0.

(** What encoding/json makes of the claims of the sample. *)
Definition app_unmarshal (b : bytes) : option (@App.AppClaims unit) := Some app_claims.

Definition app_served :=
  App.session_ServeHTTP tt app_unmarshal app_gate (gate_request "https://acme.app.example") (app_env_at gate_at) app_world.

Lemma user_route_principal_is_proved_witness :
  exists x, resumed_by (B := sample_sessions) request0 acme x /\ Tenant (a_subject (r_attrs x)) = acme /\ MultiFactor (r_attrs x) = true.
Proof.
  destruct app_served as [w' a] eqn:Hs.
  assert (match a with App.Handled p => App.p_kind p | App.Answered _ => 0 end = App.KSession) as Ha.
  { change a with ((w', a).2). rewrite <- Hs. vm_compute. reflexivity. }
  destruct a as [p|]; [|done].
  destruct (user_route_principal_is_proved tt app_unmarshal app_gate _ _ _ w' p Hs ltac:(by rewrite Ha))
    as (t & x & c & n & Ht & Hx & Htn & _ & _ & _ & _ & _ & _ & Hm & _).
  vm_compute in Ht. injection Ht as <-. exists x. split_and!; [exact Hx|exact Htn|]. by apply Hm.
Defined.

(** C23: The claims an API key is used with are recent.  Requests on any API-key routes are served over one cache, empty at
    first, and between two steps of each the requests that run beside it may drop entries or fill in what the source gave them.
    The key directory gives one owner and one grant for a key id.  Then a request let through on a route presented, without a
    session cookie, a secret whose digest is that of a key of the tenant of the request, not revoked,
    not expired and of a kind that route takes; its claims are those the source gave for the owner,
    narrowed to the grant of the key, to one of all these requests: to this one, or to one less than the RecheckEvery of the
    route before it at the epoch the owner still has, which found the account usable. *)
Theorem api_key_claims_are_recent {B T C} `{Authenticator B, KeyDirectory T, NetURL} sha256 unmarshal_grant
    g row_of (I : T -> Prop) es l r (e : @App.env B T C) w w' p :
  (forall c t tn h s k, I s -> ak_Get c t tn h s = Ok k -> row_of (Tokens.k_ID k) = (Tokens.Owner k, Tokens.k_AppClaims k)) ->
  Forall (fun x => x.1.1 ∈ es /\ settled unmarshal_grant row_of I es x.1.1 /\ windowed x.1.2) l ->
  e ∈ es -> settled unmarshal_grant row_of I es e -> windowed g -> I (App.toks w) -> App.cache w = ∅ ->
  App.api_ServeHTTP sha256 unmarshal_grant g r e (serve_all sha256 unmarshal_grant l w) = (w', App.Handled p) ->
  exists t secret k, Gate.Tenant_ (App.preamble (App.a_auth g)) (App.resolve e) r = Ok t /\
    App.bearerCredential r = Some secret /\ App.sessionCookie (App.cookies (App.a_auth g)) r = false /\
    accepted sha256 unmarshal_grant I g es e t secret p k.
Proof.
  intros Hget Hl Hin He HR Hi Hc Hs.
  assert (cache_sourced unmarshal_grant row_of es (App.cache w)) as Hcs by (rewrite Hc; intros id x Hx; by rewrite lookup_empty in Hx).
  destruct (serve_all_spec sha256 unmarshal_grant row_of I Hget es l w Hl Hi Hcs) as [Hi1 Hc1].
  by destruct (api_serve_spec sha256 unmarshal_grant row_of I Hget g es r e _ w' _ HR Hs Hin He Hi1 Hc1) as (_ & _ & Hp); apply Hp.
Qed.

(** ** Facades *)

(** C27: A facade acts only for a caller who may.  When authorize lets a call through, the caller is a system
    caller outside any request, for the tenant it was made for, a tenant the deployment serves, on a
    method that does not act on the calling user, and the use is audited; or a session caller, of the
    tenant of the call, whose session is live, whose account is usable at the epoch of the session
    with nothing left to change, who holds the admin role as read now when acting on someone else,
    with the second factor of an enrolled user, fresh within the window.  An API key or a resource
    token never gets through. *)
Theorem facade_caller_is_authorized {B T C} f by_ m tenant target sc
    (e : @App.env B T C) w w' g :
  App.authorize f by_ m tenant target sc e w = (w', Ok g) ->
  (Caller.kind by_ = Caller.CallerSystem /\ App.in_request e = false /\ tenant = Caller.tenant by_ /\ sc <> App.scopeSelf /\
     App.served f tenant = None /\ App.g_system g = true /\
     App.events w' = App.events w ++ [App.SystemCallerUsed (Caller.tenant by_) (Caller.reason by_) m None]) \/
  (Caller.kind by_ = Caller.CallerSession /\ session_authorized f by_ tenant target sc e g).
Proof.
  intros Hx. destruct (authorize_Ok f by_ m tenant target sc e w w' g Hx) as [(? & ? & ? & ? & ? & -> & _ & ?)|(? & ? & _)]; [left|right].
  all: by split_and!.
Qed.

Definition app_caller : Caller.Caller := get_ok Caller.zero_Caller (Caller.SessionCaller session0 501 []).

Lemma facade_caller_is_authorized_witness :
  exists g, session_authorized app_auth app_caller acme (mkSubject acme 8) App.scopeUser (app_env_at gate_at) g.
Proof.
  destruct (App.authorize app_auth app_caller "Accounts.Disable" acme (mkSubject acme 8) App.scopeUser (app_env_at gate_at) app_world)
    as [w' [g|err]] eqn:Hs.
  - exists g. destruct (facade_caller_is_authorized _ _ _ _ _ _ _ _ _ _ Hs) as [(Hk & _)|(_ & Hg)]; [by vm_compute in Hk|exact Hg].
  - exfalso. assert (okb (w', Err (A := App.grant) err).2 = true) as Ho by (rewrite <- Hs; vm_compute; reflexivity). done.
Defined.

(** C28: An API key never holds more than who made it.  When Create succeeds the caller was authorized as a
    live, fresh session; the directory took a row owned by the caller, in the caller's tenant, with
    the digest of the secret it returns and of the kind asked; every role, scope and group of its
    grant is one the claims source gave for the caller during the call, and the grant is what was
    asked; its expiry is the one asked or the default from now on, and in the future when there is
    one. *)
Theorem api_key_never_exceeds_its_creator {B T C} `{KeyDirectory T} sha256 IsPrint f by_ req
    (e : @App.env B T C) w w' info secret :
  App.Create sha256 IsPrint f by_ req e w = (w', Ok (info, secret)) ->
  exists k n s g, Caller.kind by_ = Caller.CallerSession /\
    session_authorized f by_ (Caller.tenant by_) zero_Subject App.scopeSelf e g /\
    key_made sha256 f by_ req e secret k /\ ak_Create (App.ctx e n) k s = (App.toks w', Ok tt) /\
    App.i_ID info = Tokens.k_ID k /\ App.i_ExpiresAt info = Tokens.ExpiresAt k.
Proof. apply Create_Ok. Qed.

Definition app_key_request : App.APIKeyRequest :=
  App.mkKeyRequest "ci" "build" (App.mkClaimSet ["dev"; "dev"] ["read"] []) KeyTypes.DefaultExpiry.

Definition app_created := App.Create digest0 (fun _ => true) app_auth app_caller app_key_request (app_env_at gate_at) app_world.

Lemma api_key_never_exceeds_its_creator_witness :
  exists secret k, key_made digest0 app_auth app_caller app_key_request (app_env_at gate_at) secret k.
Proof.
  destruct app_created as [w' [[info secret]|err]] eqn:Hs.
  - destruct (api_key_never_exceeds_its_creator _ _ _ _ _ _ _ w' info secret Hs) as (k & _ & _ & _ & _ & _ & Hk & _).
    exists secret, k. exact Hk.
  - exfalso. assert (okb (w', Err (A := App.APIKeyInfo * string) err).2 = true) as Ho by (rewrite <- Hs; vm_compute; reflexivity). done.
Defined.

(** The created key is used twice: the second request is answered from the cache. *)
Definition app_secret : string := match app_created.2 with Ok (_, s) => s | Err _ => "" end.

Definition app_key_gate : App.apiGate := App.mkAPIGate app_auth (Routes.SetKinds "ci" [] Routes.zero_APISpec).

Definition app_key_call : Wire.Request :=
  Wire.mkRequest (Http.mkRequest ["Bearer " +:+ app_secret] [] [] []) "GET" "acme.app.example" "192.0.2.7:4000" [] [] [] [] [] [] [] "" ([], None).

(** What encoding/json makes of the grant of the sample. *)
Definition app_grant (b : bytes) : option App.claimSet :=
  if bool_decide (b = App.encodeAPIKeyGrant (App.mkClaimSet ["dev"] ["read"] [])) then Some (App.mkClaimSet ["dev"] ["read"] []) else None.

Definition app_key_world : @App.world sample_sessions TokensMemory.Store unit :=
  App.mkWorld gate_back (App.toks app_created.1) ∅ (Http.mkResponse [] ∅) [] 0.

(** The first request is of a route that also takes another kind. *)
Definition app_other_gate : App.apiGate := App.mkAPIGate app_auth (Routes.SetKinds "ci" ["cli"] Routes.zero_APISpec).

Definition app_first := (app_env_at (gate_at + Minute), app_other_gate, app_key_call).

Definition app_key_served :=
  App.api_ServeHTTP digest0 app_grant app_key_gate app_key_call (app_env_at (gate_at + 2 * Minute))
    (serve_all digest0 app_grant [app_first] app_key_world).

(** The rows of a store agree with [row_of]. *)
Definition rows_agree (row_of : uuid -> Subject * bytes) (s : TokensMemory.Store) : Prop :=
  map_Forall (fun _ k => row_of (Tokens.k_ID k) = (Tokens.Owner k, Tokens.k_AppClaims k)) (TokensMemory.keys s).

Lemma rows_agree_get row_of c t tn h s k : rows_agree row_of s -> TokensMemory.GetAPIKey c t tn h s = Ok k ->
  row_of (Tokens.k_ID k) = (Tokens.Owner k, Tokens.k_AppClaims k).
Proof.
  intros Hs Hg. unfold TokensMemory.GetAPIKey in Hg. destruct c; [done|]. destruct (TokensMemory.keys s !! (tn, h)) as [x|] eqn:Hx; [|done].
  destruct (_ && _); [done|]. injection Hg as <-. exact (Hs _ _ Hx).
Qed.

Definition app_row (_ : uuid) : Subject * bytes := (ada, App.encodeAPIKeyGrant (App.mkClaimSet ["dev"] ["read"] [])).

Definition app_envs := [app_env_at (gate_at + 2 * Minute); app_env_at (gate_at + Minute)].

Lemma app_settled t : settled app_grant app_row (rows_agree app_row) app_envs (app_env_at t).
Proof. split; [intros n c id x Hx; by left|done]. Qed.

Lemma api_key_claims_are_recent_witness :
  exists p k, app_key_served.2 = App.Handled p /\ App.roles (App.App (App.p_claims p)) = ["dev"] /\
    accepted digest0 app_grant (rows_agree app_row) app_key_gate app_envs
      (app_env_at (gate_at + 2 * Minute)) acme app_secret p k.
Proof.
  destruct app_key_served as [w' a] eqn:Hs.
  assert (match a with App.Handled p => App.roles (App.App (App.p_claims p)) | App.Answered _ => [] end = ["dev"]) as Ha.
  { change a with ((w', a).2). rewrite <- Hs. vm_compute. reflexivity. }
  destruct a as [p|]; [|done].
  destruct (api_key_claims_are_recent digest0 app_grant app_key_gate app_row (rows_agree app_row)
    app_envs [app_first] app_key_call (app_env_at (gate_at + 2 * Minute)) app_key_world w' p)
    as (t & secret & k & Ht & Hb & _ & Hk).
  - intros c t tn h s k. apply rows_agree_get.
  - constructor; [|constructor]. split; [right; left|]. split; [apply app_settled|vm_compute; congruence].
  - left.
  - apply app_settled.
  - vm_compute. congruence.
  - intros i k Hk. assert (forallb (fun x => bool_decide (app_row (Tokens.k_ID x.2) = (Tokens.Owner x.2, Tokens.k_AppClaims x.2)))
      (map_to_list (TokensMemory.keys (App.toks app_key_world))) = true) as Hall by (vm_compute; reflexivity).
    rewrite forallb_forall in Hall. apply elem_of_map_to_list, list_elem_of_In in Hk. specialize (Hall _ Hk). by bools.
  - reflexivity.
  - exact Hs.
  - assert (Ok t = Ok acme) as Ht' by (rewrite <- Ht; vm_compute; reflexivity).
    assert (Some secret = Some app_secret) as Hb' by (rewrite <- Hb; vm_compute; reflexivity).
    clear Hs Ht Hb. injection Ht' as ->. apply (inj Some) in Hb' as ->. exists p, k. split; [reflexivity|]. split; [exact Ha|exact Hk].
Defined.
